(* ===== verification/_CoqProject ===== *)
-Q . S2P
Prelude.v
TeamRecord.v
TeamRules.v
TeamSpec.v
TeamThms.v
TeamMatch.v
RoleRoute.v
IdSegment.v
IdSegmentThms.v
IdSegmentSys.v
Snowflake.v
SlotAlloc.v
SlotSys.v
TeamView.v
PartyMatch.v
PartySelect.v
PartyMatchThms.v
PartyWhole.v
TeamStore.v
TeamCommit.v
TeamStoreThms.v
TeamStoreProps.v
InboxRow.v
InboxDecide.v
InboxLedger.v
InboxRegistry.v
InboxStore.v
InboxAdmin.v
InboxInv.v
InboxOps.v
InboxConsume.v
InboxSteps.v
InboxProps.v
CommerceData.v
CommercePlan.v
AssetOps.v
AssetLedger.v
AssetLedgerThms.v
AssetWire.v
AssetWireThms.v
SceneNode.v
AssetCaller.v
AssetLoop.v
CommerceStore.v
CommerceMarket.v
CommerceInv.v
CommercePlanThms.v
CommerceObserve.v
CommerceSteps.v
CommerceMutate.v
CommerceAuction.v
CommerceBook.v
CommerceRun.v
CommerceCustody.v
CommerceLiveness.v
AssetOpsThms.v
AssetSend.v
AssetSim.v
CommerceTick.v
CommerceProps.v
AssetOpsProps.v
AssetSendProps.v
AssetLoopProps.v
DbTask.v
DbAcker.v
DbProg.v
DbWorld.v
DbHandle.v
DbCoalesce.v
DbSys.v
DbStep.v
DbEnv.v
DbEnds.v
DbSafe.v
DbSystem.v
DbProps.v
FriendStore.v
FriendServe.v
FriendThms.v
FriendSystem.v
