(* ===== verification/Prelude.v ===== *)
(** * Verification of the Go services of the MMORPG server: teams, the player inbox, trade,
    the writing of players to the database, friends

    The repository is a game server: C++ scene nodes run the game, Go services
    under [src/go] keep everything that outlives a scene. Three of them are
    modelled here from their pure rules to their SQL transactions: the
    _team_ service ([src/go/match/internal/team] with its locks in
    [src/go/match/internal/authority]), the _player inbox_
    ([src/go/player_inbox/internal/inbox]) and the contract engine of _trade_
    ([src/go/trade/internal/commerce] with its tables in
    [src/go/trade/internal/data]), with the shared delivery of its commands
    ([src/go/shared/assetop], [src/go/shared/scenenode]). Teams and inbox stand on the same route and merge
    fence ([src/go/shared/placement]). Trade never touches a player's assets
    itself: it writes debit and credit commands into an outbox, a delivery loop
    carries them to the scene, and the contract goes on with the answers.

    A fourth part is how a player's rows reach MySQL ([src/go/db/internal/kafka]):
    scenes put every save into Kafka, and any number of instances consume it,
    concurrently, over Redis and MySQL calls that may fail or answer late, without
    losing a save and without letting an old one overwrite a newer one. A fifth is
    the _friend_ service ([src/go/friend]): friendships, requests and block lists in
    four tables that any number of replicas and a sweep write at the same time.

    Beside these stand two smaller parts: the matching of whole parties
    ([src/go/match/internal/logic]) and the two sources of identifiers, the
    ranges of permanent ones ([src/go/shared/idsegment] with the table of
    data_service) and the snowflake generator with the slots its processes
    claim in etcd ([src/go/shared/snowflake], [src/go/shared/snowflakealloc]).

    ** How the code is modelled

    A function that decides is a Rocq function of the same name. A record type
    of the protocol files is a [Record] with the fields the code reads. A Go
    [uint64] or [uint32] is a [Z], and every addition whose overflow the code
    can observe is written [+64], [+32], [-64] or [*64]. An error is the value
    [Err] of the monad [res]; a tip code answered to the client is an ordinary
    result.

    A database is a record of finite maps, one per SQL table, keyed by the
    primary key. A transaction attempt is a function from a database to [Ok]
    of an answer and the database it commits, or to [Err], which rolls back.
    Every such transaction locks, before it reads, the rows of the players it
    works for (and, for a team, the row of the team), so two transactions on
    the same rows are serialized by the database; the model lets any sequence
    of whole transactions happen in between wherever the code does not hold
    these locks: between the unlocked observation of a team and its
    transaction ([others] of [TeamStore.mutate_attempts]), between the unlocked
    route reads and the locked ones ([snap] of [RoleRoute.LockRoleRoutes]),
    between the unlocked reads of a trade operation and its transaction (the
    [probe] of [CommerceStore] and [CommerceMarket], any earlier database in
    [CommerceRun]), and between any two operations (the runs of
    [TeamStoreThms], [InboxSteps], [AssetOpsThms] and [CommerceRun]).
    One attempt sees one clock value per reading that the code makes; within a
    team transaction the database clock is a single stamp. A blob column that
    the code encodes and decodes with the protobuf runtime is kept decoded.

    Where the code is a sequence of single calls to shared stores, with anything
    in between, it is a program of [DbProg]: a tree of calls with what is done
    after each answer. The semantics of a call allows failure, with or without
    effect; the other instances and the environment are steps of the same system;
    and the proofs are by rely and guarantee, once for any number of programs.

    Third-party code is a parameter: SHA-256 and its length, protobuf
    decoding (with the presence of unknown fields) and message look-up, the
    scene directory and the ledger reader of data_service, the notifier, the
    session and display readers.

    ** The files

    - [Prelude]: machine integers, boolean reflection, the list functions that
      stand for Go loops and sorts, the error monad, UTF-8.
    - [TeamRecord], [TeamRules]: [rules.go]: the team record, the ten
      operations of [Apply], the match lock, the repair. [TeamSpec] is the
      invariant [wf_record] and its closure under the elementary changes, the
      abstract roster machine [roster_step] and one effect per operation;
      [TeamThms] draws the consequences of the effects, and states the
      properties with [TeamMatch].
    - [RoleRoute]: [role_route_sql.go], the prefix of every transaction that
      touches a player, with the shard arithmetic of [route.go].
    - [IdSegment]: the table of ranges ([id_segment_store.go]), the client with
      its two ranges ([client.go]) and the choice of a source ([minter.go]);
      [IdSegmentThms]: what one client hands out; [IdSegmentSys]: all clients of
      a tag, the answers on their way and the table as a transition system.
    - [Snowflake]: the generator and its fence clock ([snowflake.go],
      [fenceclock.go]), the layout and the choice of a slot ([layout.go],
      [selection.go]), with the theorems about one node and one choice. [SlotAlloc]: the
      keys of a slot and its handles ([allocator.go]); [SlotSys]: all processes
      of a slot as a transition system, with runs that are computed.
    - [PartyMatch]: [party_match.go] with the validation of an entry
      ([matcher.go]), the withdrawal of a party ([party.go]) and the packing of
      the global matcher ([global_team_matcher.go]), over the class [MatchWorld].
      [PartySelect]: the choice of units against its specification, the packing
      and the roster as text; [PartyMatchThms]: the choice with its checks ends;
      [PartyWhole]: the group that is popped.
    - [TeamView]: [view.go]: what each player is shown of a team.
      [team_queue.go]: what a roster change does to queued matches; a class
      [LaunchQueue] with its laws and the SQL instance. The
      store is written and proved against the class.
    - [TeamStore]: [sql_mutate.go], [sql_action.go], [sql_store.go],
      [sql_maintenance.go], the idle sweep of [sql_recovery.go] and the role
      locks. [TeamCommit] shows that the decisions of the rules satisfy the
      commit contract [validateCommitSets]; [TeamStoreThms] the invariant
      [db_ok] and its preservation by every transaction; [TeamStoreProps] the
      properties.
    - [InboxRow], [InboxDecide]: the rows, [shard.go], [seq.go], [fence.go]
      and the decisions of [decide.go]; of the C++ consumer
      ([player_inbox_rules.cpp]) the recording and classification of one item.
      [InboxLedger] relates the consumer's ledger to the store's verdicts.
    - [InboxRegistry]: [registry.go]: the start-up check and the validation of
      payloads.
    - [InboxStore], [InboxAdmin]: the transactions of [store_enqueue.go],
      [store_consume.go], [store_admin.go], [store_maintenance.go] with the
      role locks of [role_authority.go].
    - [InboxInv]: the invariant [inbox_wf], how rows and streams may change
      ([evolves]) and the elementary writes; [InboxOps] (enqueue), [InboxConsume]
      (fetch, acknowledge): the operations keep it; [InboxSteps]: so do the
      operator's, and the step relation over all operations and changes from outside; [InboxProps]: the
      properties, and a sample run that instantiates each of them.
    - [CommerceData], [CommercePlan]: the contracts and their legs, custody and
      its transfer, and [Engine.plan] and [planRmb], block by block.
      [AssetOps]: the outbox and its numbers ([asset_op_repo.go], [seq.go]).
      [CommerceStore]: the contract table ([commerce_repo.go]), the roles
      ([role_authority.go]), and of [engine.go] the creation, [Mutate] and
      [advance]. [CommerceMarket]: [market.go], [auction.go] and the quarantine
      and deferral of [tick_isolation.go]. [CommerceTick]: the worker's round.
    - [CommerceInv]: assets, their worth in bundles and legs, sums over
      tables; [contract_ok], the balance of one contract by kind
      and stage; [CommercePlanThms]: [plan] keeps it; [CommerceObserve],
      [CommerceSteps], [CommerceMutate]: so do the observation of answers, the
      issue of commands, [advance] and [Mutate]. The last also
      states the invariant [ledger] of the whole table (every contract balanced, every highest bid
      backed by a held bid, every fill of an order paid by a child contract);
      [CommerceAuction], [CommerceBook]: bids and matches keep it; [CommerceRun]:
      the step relation over every operation, and runs. [CommerceCustody] and
      [CommerceLiveness] draw the conclusions, [CommerceProps] states the
      properties on sample runs. [AssetOpsThms] and
      [AssetOpsProps]: the outbox over all its operations.
    - [AssetLedger]: a player's ledger of commands, as the loop reads it
      ([classify.go]) and as the scene writes it ([asset_op_ledger.cpp]);
      [AssetLedgerThms]: the bitmaps refine a book of outcomes. [AssetWire]: the
      request, its signed text and the receipts ([types.go], [auth.go],
      [receipt_identity.go]); [AssetWireThms]: the text determines the request.
      Also in [AssetWire]: what an answer means and when to try again ([decide.go],
      [audit.go]). [SceneNode]: where a player is ([watcher.go], [locator.go]).
      [AssetCaller]: one delivery ([caller.go]), over the class [SceneWorld].
      [AssetLoop]: the loop and the giving up ([reconcile.go],
      [receipt_ack.go], [abandon.go]), over the class [LoopWorld].
      The last part of [AssetOpsProps]: the retried transaction ([seq.go]).
    - [AssetSend]: the outbox, the leases held and the requests sent as a
      transition system, with its invariant [quiet]; [AssetSim]: the laws
      [DeliveryLaws] of the interface, under which every round of the loop is a
      run of that system. [AssetSendProps] and [AssetLoopProps] state the
      properties and give worlds in which the laws hold.

    - [DbTask]: the pure part of [key_ordered_consumer.go] (cursors, epochs,
      decimals in Lua, retry payloads); [DbAcker]: [claimAcker] and the list of
      fates it refines; [DbWorld]: the fenced save and the schema checks
      ([player_row_fence.go], [persist_schema.go]), the state all instances
      share and the calls on it, with the Redis scripts;
      [DbHandle]: [handleTask] with everything it calls, the routing of
      [placement_route.go] included; [DbCoalesce]: [processTaskBatch], what
      it leaves out, and how often a task ends.
    - [FriendStore]: the four tables of the friend service and what each of its
      transactions does to them ([friend_repo.go], [block_repo.go],
      [request_generation.go], [role_identity.go], [sweep_repo.go]); [FriendServe]:
      the programs that run them - the guarded write with its attempts, the
      repository, the sweep and the handlers ([friend_logic.go], [rate_quota.go]) -
      over what the replicas share. [FriendThms]: the invariant [db_ok] of the
      tables and what each transaction does to it; [FriendSystem]: every program
      keeps it, whatever the others do, and the properties with an example run.
    - [DbProg]: programs, rely and guarantee, soundness. [DbSys]: the invariant
      of the shared world and the evidence a write leaves; [DbStep]:
      what each kind of step keeps; [DbEnv]: the environment (claims, deliveries,
      expiry, relocation, late commits), and the two sides of the promise;
      [DbEnds], [DbSafe]: every call of a task keeps it; [DbSystem]: batches and
      all instances together. [DbProps] states
      the properties, on a sample run.

    ** What is shown

    - Teams. Every accepted operation is a step of the abstract roster
      machine and keeps the record well formed; only the leader manages; a
      locked roster is frozen and lock and release are inverse; a repair
      removes exactly the listed players; decisions always satisfy the store's
      contract. In the store a player is in at most one team, an intent is
      executed exactly once, a commit writes exactly the decision and anything
      else writes nothing, and the idle sweep dissolves only idle teams.
    - Routes. The prefix lets exactly the movable players through, and a merge
      that holds all shards of a zone stops everything in it.
    - Inbox. The invariant of the three tables; one item per request; numbers
      that only grow; a terminal state that never flips; a stale owner that is
      locked out; the exact effect of fetch, acknowledgement, void and forced
      void; no lost reminder; a battle receipt that ends as applied or not at
      all; the ledger checks that neither miss a visible loss nor raise a false
      alarm; the forced void that never cancels an item which ran.

    - Identifiers. The numbers of a tag never repeat, whatever clients, retries,
      lost answers and migrations do, and a client's numbers ascend. The numbers
      of a snowflake slot never repeat across the processes that claim it, take
      it over, freeze and come back, under two conditions; runs that break
      either of them and repeat a number are computed ([SlotSys]). A number
      decodes to its parts, every call returns, and the slot chosen is the best.
    - Parties. A group that is popped has exactly the required size and nobody
      twice, and its list keeps parties together; the table of reachable sums finds the first
      choice of units there is; the choice with its checks ends; the global
      packing finds whole units for a full team.
    - Trade. In every database that the operations reach, in any order and with
      stale reads, no asset is given out beyond what was taken; an ended deal
      balances exactly; planning never fails on such a database; an expired
      contract that does not wait for an operator ends in three rounds of answers; a request is answered once; the
      best counterparty is matched, at the price of the order that was made first,
      without overflow; an accepted bid outbids and frees the bid it overtakes; an ended contract is
      final. A command is closed once and its number never given again; the
      window of pending commands is bounded; a lease excludes other workers. A
      failing contract leaves the queue, every receipt is tried, and a worker's
      round is a run of single transactions.
    - Delivery of commands. The scene's ledger never takes an outcome back, and
      the loop's classifier agrees with the scene's; a pending command
      is never behind its window; the signed text names one command; with the
      switch on, a command is closed only by a delivery that has read the player's
      committed ledger, on the one receipt of its number, epoch and digest; a request is sent to the one registered holder, a bounded number
      of times; the delays are bounded before their jitter. Every round of any number of replicas is
      a run of the delivery system, and in it a command that is given up has
      sent nothing for two seconds and sends nothing ever after. A retried
      transaction ends and takes effect at most once.
    - Database writes. In every state that any number of instances reach, a
      write whose offset is settled has left evidence, or a later write of its row
      has, or is still to be delivered; no cursor, owner epoch or row version goes
      back. Every task of a batch ends exactly once, whatever is answered; a write
      that a batch leaves out is covered by a newer one of the batch; the acker
      marks exactly the finished prefix; the comparison of the Redis scripts is
      that of the numbers.
    - Friends. In every state that any number of replicas reach, the two edges of a
      friendship go together, blocked players are strangers without requests, the
      capacity row of a player is the number of his friends, and no limit is
      exceeded; a generation that was answered is never pending again; three
      attempts of a guarded write are enough; an acceptance and a block settle the
      pair completely.

    ** Bounds

    Two counters are 64 and 32 bits wide and the code does not check them on
    every path. The team invariant is stated for runs of fewer than 2^32-2
    transactions ([version_bound]: join sequence numbers are 32 bits wide and
    grow by at most one per transaction); the inbox steps ask that a stream's
    next number and a row's delivery count have not reached their width
    ([room]), and that a consumer's watermark is below 2^64-1, the one value at
    which [RaiseNextSeq] wraps ([InboxProps.RaiseNextSeq_wraps]).
    A new command asks that its stream's next number has room below 2^64
    ([os_issue] of [AssetOpsThms]); the amounts of a trade request are unsigned
    ([selection_ok]). [rounds] of [CommerceLiveness] counts the rounds of a
    contract, three are enough.
    [evict_loop] and [mutate_attempts] carry fuel: the number of records
    present, which the loop strictly decreases, and the code's own retry
    limit [CommitRetries]. [retry_loop] counts down the configured attempts.
    The delivery system asks that a request leaves at most [D] after its lease
    was taken, where [D] is at most the budget of one command: the code cuts the
    delivery off by its context. The clock of [DeliveryLaws] is below 2^62
    milliseconds, so the end of a lease does not wrap.

    The system of database writes assumes: the emergency override of the epoch
    guard is off; all instances have the same settings; the saves of one owner are
    numbered upwards in the order of the log, as [db_task.proto] asks (only where
    the fence is on); no message is twice in one batch; a task decoded from
    protobuf is encoded faithfully ([DbCodecLaws]). Partitions are [int32],
    offsets leave room for one more below 2^64.

    The friend system asks that a request ends, with twice the distance between a
    stored time and the moment it is stored ([fc_patience], [fc_slack]), within the
    retention of idle capacity rows (days against seconds in the code's settings): a
    row is created from a count of an earlier statement. A transaction that holds the
    capacity rows of its players is one step, and so is the insertion of the rows. It
    starts from any tables that satisfy [db_ok]. The attempts carry the code's own
    limits as fuel: three for the guard and for a deadlock, two for a generation.

    A node's numbers are shown for seconds below 2^32 and marks below 2^62
    ([in_range] of [SlotSys]). The wait of the generator has fuel for 3,002
    turns of a millisecond, its budget is three seconds; a pass of the segment
    client needs two turns, one to put the next range in place; the choice of
    units has one turn per unit, since every turn but the last puts one aside.

    ** What is not modelled

    The launch and the end of a match, the matching authority besides its role
    locks, the Redis team store and pushes, the rated matching of single
    players, the joining of a queue and the rounds of the global matcher, the
    allocator's cache file and older key layout, the inbox's background
    loops and gauges, gRPC, authentication, configuration and metrics, and all
    other services; of go/db, migration, restore and the save outbox. Of trade, the exchange with the payment service and the
    mall ([rmb.go] beyond [planRmb], [mall.go]; the runs of [CommerceRun] create
    no contract of these two kinds) and the views. Of the delivery of commands,
    the tickers, gauges and logs, the rotation of the maintenance replica, the
    connection cache, the etcd watch, the ledger readers over data_service, and
    the scene's side beyond its recorder; the delivery system has no step for the
    synchronous first delivery of [EnqueueEscrowDebit]
    ([trade/internal/reconcile/pipeline.go]), which nothing calls outside tests, and it
    takes the tokens of leases and the numbers of commands as fresh. Of the slots, a claim
    ([claim_fresh]) is one step: the scan of the watermarks, the transaction and the
    reading of the floor are not interleaved with other processes. Of the database writes, the timing of
    the ordering lease (a lock may expire at any moment), the batching of the
    durable enqueue (a call that is confirmed or not), the contents of the cache
    and of the save barrier, the scripts that claim, reclaim and forward receipts
    beyond their effect of moving a payload from one list to another, panics,
    hints to the save outbox and metrics. Of the friend service, the caches that no
    read uses any more, recommendations, the online directory, the contents of a push,
    the handlers that only turn a list into a reply, and settings. The stores are modelled by single
    transaction attempts: an attempt that fails leaves the database as it was,
    and an attempt that [retryWithBackoff] repeats is another step. *)

From stdpp Require Import base list gmap sorting relations strings pretty.
From Stdlib Require Import ZArith Lia SpecFloat.

#[global] Set Default Proof Using "Type".

(** ** Machine-width integers

    Go's [uint64] and [uint32] are [Z] kept in range; every addition whose
    overflow the code can observe is written with its wrap-around. *)

Declare Scope go_scope.
Delimit Scope go_scope with go.

Definition u64_mod : Z := 18446744073709551616.
Definition u32_mod : Z := 4294967296.
Definition u64 (x : Z) : Z := (x mod u64_mod)%Z.
Definition u32 (x : Z) : Z := (x mod u32_mod)%Z.

Notation "x +64 y" := (u64 (x + y)%Z) (at level 50, left associativity) : go_scope.
Notation "x -64 y" := (u64 (x - y)%Z) (at level 50, left associativity) : go_scope.
Notation "x *64 y" := (u64 (x * y)%Z) (at level 40, left associativity) : go_scope.
Notation "x +32 y" := (u32 (x + y)%Z) (at level 50, left associativity) : go_scope.

Definition is_u64 (x : Z) : Prop := (0 <= x < u64_mod)%Z.
Definition is_u32 (x : Z) : Prop := (0 <= x < u32_mod)%Z.

Lemma u64_small x : is_u64 x -> u64 x = x.
Proof. unfold is_u64, u64. intros. by apply Z.mod_small. Qed.

Lemma u32_small x : is_u32 x -> u32 x = x.
Proof. unfold is_u32, u32. intros. by apply Z.mod_small. Qed.

Lemma u64_range x : is_u64 (u64 x).
Proof. apply Z.mod_pos_bound. done. Qed.

Lemma u32_range x : is_u32 (u32 x).
Proof. apply Z.mod_pos_bound. done. Qed.

(** ** Tactics *)

(** Case analysis on the condition of a boolean test, with the integer
    comparisons turned into propositions. *)
Ltac zbool :=
  repeat match goal with
  | H : (_ && _)%bool = true |- _ => apply andb_true_iff in H as [? ?]
  | H : (_ || _)%bool = false |- _ => apply orb_false_iff in H as [? ?]
  | H : (_ || _)%bool = true |- _ => apply orb_true_iff in H
  | H : (_ && _)%bool = false |- _ => apply andb_false_iff in H
  | H : negb _ = true |- _ => apply negb_true_iff in H
  | H : negb _ = false |- _ => apply negb_false_iff in H
  | H : (_ =? _)%Z = true |- _ => apply Z.eqb_eq in H
  | H : (_ =? _)%Z = false |- _ => apply Z.eqb_neq in H
  | H : (_ <? _)%Z = true |- _ => apply Z.ltb_lt in H
  | H : (_ <? _)%Z = false |- _ => apply Z.ltb_ge in H
  | H : (_ <=? _)%Z = true |- _ => apply Z.leb_le in H
  | H : (_ <=? _)%Z = false |- _ => apply Z.leb_gt in H
  | H : bool_decide _ = true |- _ => apply bool_decide_eq_true in H
  | H : bool_decide _ = false |- _ => apply bool_decide_eq_false in H
  end.

(** [zbool] and the case split on the disjunctions it leaves, to the end by [lia]. *)
Ltac zlia := zbool; destruct_or?; zbool; lia.

(** Split on the innermost [if]/[match] scrutinee that is a boolean or an
    option, keeping the equation. *)
Ltac split_if :=
  match goal with
  | |- context [if ?b then _ else _] => destruct b eqn:?
  | H : context [if ?b then _ else _] |- _ => destruct b eqn:?
  end.

Create HintDb go discriminated.

(** ** Lists: the Go idioms the services share *)

Section go_lists.
Context {A : Type}.
Implicit Types (l : list A) (f : A -> bool).

(** [for _, x := range l { if f(x) { return x } } return nil] *)
Fixpoint find_first f l : option A :=
  match l with
  | [] => None
  | x :: l' => if f x then Some x else find_first f l'
  end.

(** In-place mutation of the element a search returned. *)
Fixpoint update_first f (g : A -> A) l : list A :=
  match l with
  | [] => []
  | x :: l' => if f x then g x :: l' else x :: update_first f g l'
  end.

(** [kept := l[:0:0]; for ... if f(x) { kept = append(kept, x) }] *)
Fixpoint keep_if f l : list A :=
  match l with
  | [] => []
  | x :: l' => if f x then x :: keep_if f l' else keep_if f l'
  end.

(** [sort.SliceStable] with the comparison [less]. *)
Fixpoint insert_stable (less : A -> A -> bool) (x : A) l : list A :=
  match l with
  | [] => [x]
  | y :: l' => if less y x then y :: insert_stable less x l' else x :: y :: l'
  end.

Definition sort_stable (less : A -> A -> bool) l : list A :=
  foldr (insert_stable less) [] l.

Lemma find_first_app f l k :
  find_first f (l ++ k) = match find_first f l with Some x => Some x | None => find_first f k end.
Proof. induction l as [|x l IH]; simpl; [done|]. by destruct (f x). Qed.

Lemma find_first_Some f l x :
  find_first f l = Some x -> x ∈ l /\ f x = true.
Proof.
  induction l as [|y l IH]; simpl; [done|].
  destruct (f y) eqn:Hf; intros Heq; simplify_eq.
  - split; [left|done].
  - destruct (IH Heq). split; [by right|done].
Qed.

Lemma find_first_None f l :
  find_first f l = None <-> forall x, x ∈ l -> f x = false.
Proof.
  induction l as [|y l IH]; simpl.
  - split; [intros _ x Hx; set_solver|done].
  - destruct (f y) eqn:Hf; split; intros H.
    + done.
    + specialize (H y ltac:(left)). congruence.
    + intros x [->|Hx]%elem_of_cons; [done|]. by apply IH.
    + apply IH. intros x Hx. apply H. by right.
Qed.

Lemma elem_of_keep_if f l x : x ∈ keep_if f l <-> x ∈ l /\ f x = true.
Proof.
  induction l as [|y l IH]; simpl; [set_solver|].
  destruct (f y) eqn:Hf; rewrite ?elem_of_cons, IH; naive_solver congruence.
Qed.

Lemma keep_if_length f l : length (keep_if f l) <= length l.
Proof. induction l as [|y l IH]; simpl; [done|]. destruct (f y); simpl; lia. Qed.

Lemma keep_if_perm f l k : l ≡ₚ k -> keep_if f l ≡ₚ keep_if f k.
Proof.
  induction 1; simpl; repeat (case_match; simpl); try done; by (constructor || etrans).
Qed.

Lemma keep_if_sublist f l : keep_if f l `sublist_of` l.
Proof.
  induction l as [|y l IH]; simpl; [done|].
  destruct (f y); by constructor.
Qed.

Lemma keep_if_all f l : (forall x, x ∈ l -> f x = true) -> keep_if f l = l.
Proof.
  induction l as [|y l IH]; simpl; [done|]; intros H.
  rewrite (H y) by left. f_equal. apply IH. intros x Hx. apply H. by right.
Qed.

Lemma keep_if_none f l : (forall x, x ∈ l -> f x = false) -> keep_if f l = [].
Proof.
  induction l as [|y l IH]; simpl; [done|]; intros H.
  rewrite (H y) by left. apply IH. intros x Hx. apply H. by right.
Qed.

Lemma insert_stable_perm less x l : insert_stable less x l ≡ₚ x :: l.
Proof.
  induction l as [|y l IH]; simpl; [done|].
  destruct (less y x); [|done]. rewrite IH. apply Permutation_swap.
Qed.

Lemma sort_stable_perm less l : sort_stable less l ≡ₚ l.
Proof.
  induction l as [|x l IH]; simpl; [done|].
  rewrite insert_stable_perm. by f_equiv.
Qed.

Lemma length_sort_stable less l : length (sort_stable less l) = length l.
Proof. apply Permutation_length, sort_stable_perm. Qed.

Lemma elem_of_sort_stable less l x : x ∈ sort_stable less l <-> x ∈ l.
Proof. by rewrite sort_stable_perm. Qed.

(** The sort sorts, when [less] is a strict weak order's test. *)
Lemma insert_stable_sorted less x l :
  (forall a b c, less b a = false -> less c b = false -> less c a = false) ->
  (forall a b, less a b = true -> less b a = false) ->
  StronglySorted (fun a b => less b a = false) l ->
  StronglySorted (fun a b => less b a = false) (insert_stable less x l).
Proof.
  intros Htrans Hasym. induction l as [|y l IH]; simpl; intros Hs.
  { repeat constructor. }
  inversion Hs as [|? ? Hs' Hall]; subst.
  destruct (less y x) eqn:Hlt.
  - constructor; [by apply IH|].
    rewrite insert_stable_perm. constructor; [by apply Hasym|done].
  - constructor; [done|]. constructor; [done|].
    eapply Forall_impl; [apply Hall|]. intros z Hz. by eapply Htrans.
Qed.

Lemma sort_stable_sorted less l :
  (forall a b c, less b a = false -> less c b = false -> less c a = false) ->
  (forall a b, less a b = true -> less b a = false) ->
  StronglySorted (fun a b => less b a = false) (sort_stable less l).
Proof.
  intros Ht Ha. induction l as [|x l IH]; simpl; [constructor|].
  by apply insert_stable_sorted.
Qed.

(** A list that is already sorted is left as it is. *)
Lemma sort_stable_id less l :
  StronglySorted (fun a b => less b a = false) l -> sort_stable less l = l.
Proof.
  induction 1 as [|x l Hs IH Hall]; simpl; [done|]. rewrite IH.
  destruct l as [|y l]; [done|]. simpl.
  by rewrite (proj1 (Forall_cons_1 _ _ _ Hall)).
Qed.

Lemma length_update_first f g l : length (update_first f g l) = length l.
Proof. induction l as [|x l IH]; simpl; [done|]. destruct (f x); simpl; congruence. Qed.

(** A mutation that leaves a projection alone leaves its image alone. *)
Lemma fmap_update_first {B} (h : A -> B) f g l :
  (forall x, h (g x) = h x) -> h <$> update_first f g l = h <$> l.
Proof.
  intros Hg. induction l as [|x l IH]; simpl; [done|].
  destruct (f x); csimpl; [by rewrite Hg|by rewrite IH].
Qed.

Lemma elem_of_update_first f g l x :
  x ∈ update_first f g l -> x ∈ l \/ exists y, y ∈ l /\ f y = true /\ x = g y.
Proof.
  induction l as [|y l IH]; simpl; [set_solver|].
  destruct (f y) eqn:Hf; rewrite !elem_of_cons.
  - intros [->|?]; [right; exists y; set_solver|set_solver].
  - intros [->|[?|(z & ? & ? & ->)]%IH]; [set_solver|set_solver|].
    right. exists z. set_solver.
Qed.

Lemma elem_of_update_first_keep f g l x : x ∈ l -> f x = false -> x ∈ update_first f g l.
Proof.
  induction l as [|y l IH]; simpl; [set_solver|].
  destruct (f y) eqn:Hf; rewrite !elem_of_cons; naive_solver congruence.
Qed.

Lemma find_first_update f g l x :
  find_first f l = Some x -> g x ∈ update_first f g l.
Proof.
  induction l as [|y l IH]; simpl; [done|]. destruct (f y) eqn:Hf.
  - intros [= ->]. left.
  - intros ?. right. auto.
Qed.
End go_lists.

Lemma StronglySorted_impl {A} (R S : A -> A -> Prop) (l : list A) :
  (forall a b, R a b -> S a b) -> StronglySorted R l -> StronglySorted S l.
Proof. induction 2; constructor; eauto using Forall_impl. Qed.

Lemma Forall_sublist {A} (P : A -> Prop) (l k : list A) :
  l `sublist_of` k -> Forall P k -> Forall P l.
Proof. rewrite !Forall_forall. eauto using elem_of_sublist. Qed.

Lemma StronglySorted_sublist {A} (R : A -> A -> Prop) (l k : list A) :
  l `sublist_of` k -> StronglySorted R k -> StronglySorted R l.
Proof.
  induction 1 as [|x l k Hs IH|x l k Hs IH]; intros Hk; [done|..];
    inversion Hk as [|? ? Hk' Hall]; subst; [|auto].
  constructor; [auto|]. by eapply Forall_sublist.
Qed.

Lemma elem_of_delete_ne {A} (l : list A) n m x :
  l !! m = Some x -> m <> n -> x ∈ delete n l.
Proof.
  intros Hm Hne. rewrite delete_take_drop, elem_of_app.
  destruct (decide (m < n)%nat).
  - left. apply list_elem_of_lookup. exists m. by rewrite lookup_take_lt by lia.
  - right. apply list_elem_of_lookup. exists (m - S n)%nat. rewrite lookup_drop.
    by replace (S n + (m - S n))%nat with m by lia.
Qed.

Lemma NoDup_fmap_sublist {A B} (h : A -> B) (l k : list A) :
  l `sublist_of` k -> NoDup (h <$> k) -> NoDup (h <$> l).
Proof. intros Hs Hk. eapply sublist_NoDup; [exact Hk|]. by apply fmap_sublist. Qed.

Lemma elem_of_fmap_sublist {A B} (h : A -> B) (l k : list A) x :
  l `sublist_of` k -> x ∈ h <$> l -> x ∈ h <$> k.
Proof. intros Hs Hx. eapply elem_of_sublist; [exact Hx|]. by apply fmap_sublist. Qed.

(** Images of filtered lists stay duplicate free. *)
Lemma NoDup_fmap_keep_if {A B} (h : A -> B) f (l : list A) :
  NoDup (h <$> l) -> NoDup (h <$> keep_if f l).
Proof.
  apply NoDup_fmap_sublist, keep_if_sublist.
Qed.

Lemma NoDup_fmap_sort {A B} (h : A -> B) less (l : list A) :
  NoDup (h <$> l) <-> NoDup (h <$> sort_stable less l).
Proof. by rewrite sort_stable_perm. Qed.

#[export] Hint Resolve NoDup_fmap_keep_if keep_if_length : go.

(** ** Fallible code

    A Go function that returns [(T, error)]: [Ok v] with a nil error, or [Err e].
    Sentinel errors and [errors.New] texts are strings, so that [errors.Is] on a
    sentinel is an equality test. *)
Definition error := string.

Inductive res (A : Type) : Type :=
  | Ok (a : A)
  | Err (e : error).
Arguments Ok {A} a.
Arguments Err {A} e.

#[global] Instance res_ret : MRet res := fun A a => Ok a.
#[global] Instance res_bind : MBind res := fun A B f m =>
  match m with Ok a => f a | Err e => Err e end.
#[global] Instance res_fmap : FMap res := fun A B f m =>
  match m with Ok a => Ok (f a) | Err e => Err e end.

(** [if cond { return err }] *)
Definition guard_err (b : bool) (e : error) : res () := if b then Err e else Ok ().

Lemma bind_Ok {A B} (m : res A) (f : A -> res B) b :
  (m ≫= f) = Ok b <-> exists a, m = Ok a /\ f a = Ok b.
Proof. destruct m; simpl; naive_solver. Qed.

Lemma guard_Ok b e u : guard_err b e = Ok u <-> b = false.
Proof. destruct b, u; simpl; split; done. Qed.

(** [for _, x := range l { s, err = f(s, x); if err != nil { return err } }] *)
Fixpoint fold_res {A S} (f : S -> A -> res S) (s : S) (l : list A) : res S :=
  match l with
  | [] => Ok s
  | x :: l' => s' ← f s x; fold_res f s' l'
  end.

Lemma fold_res_app {A S} (f : S -> A -> res S) s l k :
  fold_res f s (l ++ k) = (s' ← fold_res f s l; fold_res f s' k).
Proof.
  revert s. induction l as [|x l IH]; intros s; simpl; [done|].
  destruct (f s x); simpl; [apply IH|done].
Qed.

(** An invariant of a loop that ends without error. *)
Lemma fold_res_ind {A S} (P : S -> Prop) (f : S -> A -> res S) l s s' :
  P s -> (forall t x t', x ∈ l -> P t -> f t x = Ok t' -> P t') ->
  fold_res f s l = Ok s' -> P s'.
Proof.
  revert s. induction l as [|x l IH]; intros s Hs Hstep; simpl; [by intros [= <-]|].
  intros (t & Ht & Hf)%bind_Ok. eapply IH; [|intros; eapply Hstep; [by right|..]|exact Hf]; eauto.
  eapply Hstep; [left|done|done].
Qed.

(** Invert every bind of a computation known to end in [Ok]. *)
Ltac res_inv :=
  repeat match goal with
  | H : (_ ≫= _) = Ok _ |- _ => apply bind_Ok in H as (? & ? & ?)
  | H : guard_err _ _ = Ok _ |- _ => apply guard_Ok in H
  | H : mret _ = Ok _ |- _ => injection H as H
  | H : Ok _ = Ok _ |- _ => injection H as H
  | H : Err _ = Ok _ |- _ => discriminate H
  end; subst.

(** ** Durations, in nanoseconds, and [float64] *)
Section go_numbers.
Local Open Scope Z_scope.

Definition Millisecond : Z := 1000000.
Definition Second : Z := 1000000000.
Definition Minute : Z := 60 * Second.
Definition Hour : Z := 3600 * Second.

Definition float_of_Z (x : Z) : spec_float := binary_normalize 53 1024 x 0 false.
Definition f_mul := SFmul 53 1024.
Definition f_add := SFadd 53 1024.
Definition f_div := SFdiv 53 1024.

(** [uint64(f)] for a finite [f] in range: truncation. *)
Definition trunc_u64 (f : spec_float) : Z :=
  match f with
  | S754_finite false m e => if 0 <=? e then Z.shiftl (Zpos m) e else Z.shiftr (Zpos m) (- e)
  | _ => 0
  end.

(** [math.Ceil], and the conversion to [uint64], of a finite number that is not negative. *)
Definition ceil_u64 (f : spec_float) : Z :=
  match f with
  | S754_finite false m e => if (0 <=? e) then Z.shiftl (Zpos m) e else (- Z.shiftr (- Zpos m) (- e))
  | _ => 0
  end.
End go_numbers.

(** ** UTF-8

    [utf8.ValidString]: the byte ranges of the Unicode standard, table 3-7. *)
Definition byte_in (lo hi : N) (a : Ascii.ascii) : bool :=
  let n := Ascii.N_of_ascii a in (lo <=? n)%N && (n <=? hi)%N.
Definition utf8_tail (a : Ascii.ascii) : bool := byte_in 128 191 a.

Fixpoint utf8_valid (s : string) : bool :=
  match s with
  | EmptyString => true
  | String a s1 =>
      if byte_in 0 127 a then utf8_valid s1
      else match s1 with
      | EmptyString => false
      | String b s2 =>
        if byte_in 194 223 a then utf8_tail b && utf8_valid s2
        else match s2 with
        | EmptyString => false
        | String c s3 =>
          if byte_in 224 224 a then byte_in 160 191 b && utf8_tail c && utf8_valid s3
          else if byte_in 225 236 a || byte_in 238 239 a then utf8_tail b && utf8_tail c && utf8_valid s3
          else if byte_in 237 237 a then byte_in 128 159 b && utf8_tail c && utf8_valid s3
          else match s3 with
          | EmptyString => false
          | String d s4 =>
            if byte_in 240 240 a then byte_in 144 191 b && utf8_tail c && utf8_tail d && utf8_valid s4
            else if byte_in 241 243 a then utf8_tail b && utf8_tail c && utf8_tail d && utf8_valid s4
            else if byte_in 244 244 a then byte_in 128 143 b && utf8_tail c && utf8_tail d && utf8_valid s4
            else false
          end
        end
      end
  end.

(** ** Strings *)
Lemma string_app_assoc (a b c : string) : ((a +:+ b) +:+ c)%string = (a +:+ (b +:+ c))%string.
Proof. induction a as [|x a IH]; [done|]. by apply (f_equal (String.String x)). Qed.

Fixpoint chars (P : Ascii.ascii -> bool) (s : string) : bool :=
  match s with EmptyString => true | String a s' => P a && chars P s' end.

Lemma prefix_app_true s t : String.prefix s (s +:+ t)%string = true.
Proof.
  induction s as [|c s IH]; [by destruct t|]. change (String.String c s +:+ t)%string with (String.String c (s +:+ t)).
  cbn. by destruct (Ascii.ascii_dec c c).
Qed.

(** ** Numbers in strings *)
Section numbers.
Local Open Scope Z_scope.

(** [strconv.FormatUint(n, 10)] *)
Definition FormatUint (n : Z) : string := pretty (Z.to_N n).

(** [strconv.ParseUint(s, 10, 64)] *)
Definition digit (a : Ascii.ascii) : option Z :=
  let n := Z.of_N (Ascii.N_of_ascii a) in if (48 <=? n) && (n <=? 57) then Some (n - 48) else None.
Fixpoint parse_digits (acc : Z) (s : string) : option Z :=
  match s with
  | EmptyString => Some acc
  | String a s' =>
      match digit a with
      | Some d => let n := acc * 10 + d in if u64_mod <=? n then None else parse_digits n s'
      | None => None
      end
  end.
Definition ParseUint (s : string) : option Z :=
  match s with EmptyString => None | _ => parse_digits 0 s end.

Lemma digit_char n : (n < 10)%N -> digit (pretty_N_char n) = Some (Z.of_N n).
Proof.
  intros Hn. assert (n = 0 \/ n = 1 \/ n = 2 \/ n = 3 \/ n = 4 \/ (n = 5 \/ n = 6 \/ n = 7 \/ n = 8 \/ n = 9))%N as Hc by lia.
  by destruct_or!; subst.
Qed.

Lemma parse_digits_go x s : Z.of_N x < u64_mod -> parse_digits 0 (pretty_N_go x s) = parse_digits (Z.of_N x) s.
Proof.
  revert s. induction (N.lt_wf_0 x) as [x _ IH]. intros s Hx. destruct (decide (0 < x)%N).
  - assert (x `div` 10 <= x)%N by (apply N.Div0.div_le_upper_bound; lia).
    rewrite pretty_N_go_step, IH by (done || by apply N.div_lt || lia). cbn [parse_digits].
    rewrite digit_char by by apply N.mod_lt.
    replace (Z.of_N (x `div` 10) * 10 + Z.of_N (x `mod` 10)) with (Z.of_N x)
      by (pose proof (N.div_mod x 10 ltac:(done)); lia).
    by destruct (u64_mod <=? Z.of_N x) eqn:Hc; zbool; [lia|].
  - assert (x = 0)%N as -> by lia. by rewrite pretty_N_go_0.
Qed.

Lemma pretty_N_nonempty n s : s <> ""%string -> pretty_N_go n s <> ""%string.
Proof.
  revert s. induction (N.lt_wf_0 n) as [n _ IH]. intros s Hs. destruct (decide (0 < n)%N).
  - rewrite pretty_N_go_step by done. apply IH; [by apply N.div_lt|done].
  - assert (n = 0)%N as -> by lia. by rewrite pretty_N_go_0.
Qed.

Lemma ParseUint_FormatUint n : is_u64 n -> ParseUint (FormatUint n) = Some n.
Proof.
  intros [Hn0 Hn]. unfold FormatUint, pretty, pretty_N. case_decide as Hz; [assert (n = 0) as -> by lia; done|].
  unfold ParseUint. destruct (pretty_N_go (Z.to_N n) "") as [|a s] eqn:Hs.
  - rewrite pretty_N_go_step in Hs by lia. by apply pretty_N_nonempty in Hs.
  - rewrite <- Hs, parse_digits_go by lia. cbn. f_equal. lia.
Qed.

Lemma FormatUint_digits n : chars (fun a => bool_decide (is_Some (digit a))) (FormatUint n) = true.
Proof.
  unfold FormatUint, pretty, pretty_N. case_decide; [done|].
  assert (forall x s, chars (fun a => bool_decide (is_Some (digit a))) s = true ->
    chars (fun a => bool_decide (is_Some (digit a))) (pretty_N_go x s) = true) as Hgo; [|by apply Hgo].
  intros x. induction (N.lt_wf_0 x) as [x _ IH]. intros s Hs. destruct (decide (0 < x)%N).
  - rewrite pretty_N_go_step by done. apply IH; [by apply N.div_lt|]. cbn. rewrite Hs, andb_true_r.
    apply bool_decide_eq_true. rewrite digit_char by by apply N.mod_lt. by eexists.
  - assert (x = 0)%N as -> by lia. by rewrite pretty_N_go_0.
Qed.
End numbers.

(** ** Counting the rows of a table *)
Definition b2z (b : bool) : Z := (if b then 1 else 0)%Z.

Section count_rows.
#[local] Open Scope Z_scope.
Context {K A : Type} `{Countable K}.
Implicit Types (m : gmap K A) (f : K -> A -> bool).

(** [SELECT COUNT( * ) FROM m WHERE f] *)
Definition count_rows f m : Z := Z.of_nat (length (keep_if (fun kx => f kx.1 kx.2) (map_to_list m))).

Lemma count_rows_empty f : count_rows f ∅ = 0.
Proof. unfold count_rows. by rewrite map_to_list_empty. Qed.

Lemma count_rows_insert f m k x : m !! k = None -> count_rows f (<[k:=x]> m) = b2z (f k x) + count_rows f m.
Proof.
  intros Hk. unfold count_rows.
  rewrite (Permutation_length (keep_if_perm _ _ _ (map_to_list_insert m k x Hk))).
  simpl. unfold b2z. destruct (f k x); simpl length; lia.
Qed.

Lemma count_rows_delete f m k y : m !! k = Some y -> count_rows f (delete k m) = count_rows f m - b2z (f k y).
Proof.
  intros Hk. rewrite <- (insert_delete_id m k y Hk) at 2. rewrite count_rows_insert by apply lookup_delete_eq. lia.
Qed.

Lemma count_rows_update f m k x y : m !! k = Some y ->
  count_rows f (<[k:=x]> m) = count_rows f m - b2z (f k y) + b2z (f k x).
Proof.
  intros Hk. rewrite <- (insert_delete_eq m k x). rewrite (count_rows_insert _ (delete k m)) by apply lookup_delete_eq.
  rewrite (count_rows_delete _ _ _ y) by done. lia.
Qed.

Lemma count_rows_nonneg f m : 0 <= count_rows f m.
Proof. unfold count_rows. lia. Qed.

Lemma count_rows_pos f m k y : m !! k = Some y -> f k y = true -> 1 <= count_rows f m.
Proof.
  intros Hk Hf. pose proof (count_rows_delete f m k y Hk). rewrite Hf in *. cbn in *.
  pose proof (count_rows_nonneg f (delete k m)). lia.
Qed.

Lemma count_rows_filter f m : count_rows f m = Z.of_nat (size (filter (fun kx => f kx.1 kx.2 = true) m)).
Proof.
  unfold count_rows. f_equal. induction m as [|k x m Hk IH] using map_ind.
  - by rewrite map_to_list_empty, map_filter_empty, map_size_empty.
  - rewrite (Permutation_length (keep_if_perm _ _ _ (map_to_list_insert m k x Hk))). simpl.
    destruct (f k x) eqn:Hf.
    + rewrite map_filter_insert_True by done. rewrite map_size_insert_None; [simpl; by rewrite IH|].
      by apply map_lookup_filter_None_2; left.
    + by rewrite map_filter_insert_False, delete_id by (done || simpl; congruence).
Qed.

Lemma count_rows_mono (f g : K -> A -> bool) (m m' : gmap K A) :
  (forall k x', m' !! k = Some x' -> g k x' = true -> exists x, m !! k = Some x /\ f k x = true) ->
  count_rows g m' <= count_rows f m.
Proof.
  intros Hm. rewrite !count_rows_filter, <- !size_dom. apply inj_le. apply subseteq_size. intros k.
  rewrite !elem_of_dom. intros [x' [Hx Hg]%map_lookup_filter_Some]. destruct (Hm _ _ Hx Hg) as (x & Hx' & Hf).
  exists x. by apply map_lookup_filter_Some.
Qed.
End count_rows.

(** ** Runs *)
Lemma rtc_keeps {A} (R : relation A) (P : A -> Prop) x y :
  (forall a b, P a -> R a b -> P b) -> rtc R x y -> P x -> P y.
Proof. intros Hstep. induction 1; eauto. Qed.
