(* ===== verification/TeamRecord.v ===== *)
(** * Team records

    Data of the team service ([go/match/internal/team], [proto/team/team.proto])
    and the search, sort, prune and eviction helpers of [rules.go]. A record is
    the Go struct behind the protobuf; [proto.Clone] is the identity on values. *)

From stdpp Require Import base list gmap sorting strings.
From Stdlib Require Import ZArith Lia.
From S2P Require Import Prelude.
Local Open Scope Z_scope.
Local Open Scope go_scope.

(** ** Constants of the rules *)
Definition Capacity : Z := 5.
Definition ApplicationTTLMs : Z := 120000.
Definition MaxApplications : Z := 10.
Definition InviteTTLMs : Z := 60000.
Definition MaxInvitesPerTeam : Z := 10.
Definition MaxPendingInvitesPerInvitee : Z := 10.

(** Tip codes of [errors.go]; [0] is success. *)
Definition ErrPlayerId : Z := 4001.
Definition ErrMembersFull : Z := 4002.
Definition ErrMemberInTeam : Z := 4003.
Definition ErrMemberNotInTeam : Z := 4004.
Definition ErrKickSelf : Z := 4005.
Definition ErrKickNotLeader : Z := 4006.
Definition ErrAppointSelf : Z := 4007.
Definition ErrAppointNotLeader : Z := 4008.
Definition ErrApplicationNotFound : Z := 4011.
Definition ErrNoTeam : Z := 4013.
Definition ErrDisbandNotLeader : Z := 4014.
Definition ErrNotLeader : Z := 4018.
Definition ErrHomeZoneUnknown : Z := 4019.
Definition ErrCrossZoneDenied : Z := 4020.
Definition ErrInviteNotFound : Z := 4021.
Definition ErrInviteLimit : Z := 4022.
Definition ErrInMatch : Z := 4023.
Definition ErrMemberOffline : Z := 4024.
Definition ErrDungeonNotOpen : Z := 4027.
Definition ErrSizeExceeded : Z := 4028.
Definition ErrStateChanged : Z := 4029.
Definition ErrInternal : Z := 4030.

(** ** Sessions *)
Inductive SessionState :=
  | SessionUnknown | SessionAbsent | SessionPresent | SessionOnline.

#[global] Instance SessionState_eq_dec : EqDecision SessionState.
Proof. solve_decision. Defined.

Definition Sessions := gmap Z SessionState.

(** A missing key of the Go map is the zero value, [SessionUnknown]. *)
Definition session (s : Sessions) (p : Z) : SessionState :=
  default SessionUnknown (s !! p).

(** ** Records *)
Record TeamMemberRecord := mkMember {
  tm_player_id : Z; tm_zone_id : Z; tm_joined_at_ms : Z; tm_join_seq : Z }.

Record TeamApplicationRecord := mkApplication {
  ta_player_id : Z; ta_zone_id : Z; ta_applied_at_ms : Z; ta_expire_at_ms : Z }.

Record TeamInviteRecord := mkInvite {
  ti_invitee_id : Z; ti_inviter_id : Z; ti_zone_id : Z;
  ti_invited_at_ms : Z; ti_expire_at_ms : Z }.

Record TeamRecord := mkTeam {
  tr_team_id : Z; tr_leader_id : Z; tr_zone_id : Z; tr_created_at_ms : Z;
  tr_members : list TeamMemberRecord;
  tr_applications : list TeamApplicationRecord;
  tr_invites : list TeamInviteRecord;
  tr_next_join_seq : Z;
  tr_match_lock_token : string;
  tr_match_lock_expire_at_ms : Z;
  tr_match_lock_roster : list Z }.

#[global] Instance TeamMemberRecord_eq_dec : EqDecision TeamMemberRecord.
Proof. solve_decision. Defined.
#[global] Instance TeamApplicationRecord_eq_dec : EqDecision TeamApplicationRecord.
Proof. solve_decision. Defined.
#[global] Instance TeamInviteRecord_eq_dec : EqDecision TeamInviteRecord.
Proof. solve_decision. Defined.
#[global] Instance TeamRecord_eq_dec : EqDecision TeamRecord.
Proof. solve_decision. Defined.

(** Field assignments on the working copy. *)
Definition set_leader (r : TeamRecord) (p : Z) : TeamRecord :=
  mkTeam (tr_team_id r) p (tr_zone_id r) (tr_created_at_ms r) (tr_members r)
    (tr_applications r) (tr_invites r) (tr_next_join_seq r)
    (tr_match_lock_token r) (tr_match_lock_expire_at_ms r) (tr_match_lock_roster r).
Definition set_members (r : TeamRecord) (ms : list TeamMemberRecord) : TeamRecord :=
  mkTeam (tr_team_id r) (tr_leader_id r) (tr_zone_id r) (tr_created_at_ms r) ms
    (tr_applications r) (tr_invites r) (tr_next_join_seq r)
    (tr_match_lock_token r) (tr_match_lock_expire_at_ms r) (tr_match_lock_roster r).
Definition set_applications (r : TeamRecord) (l : list TeamApplicationRecord) : TeamRecord :=
  mkTeam (tr_team_id r) (tr_leader_id r) (tr_zone_id r) (tr_created_at_ms r) (tr_members r)
    l (tr_invites r) (tr_next_join_seq r)
    (tr_match_lock_token r) (tr_match_lock_expire_at_ms r) (tr_match_lock_roster r).
Definition set_invites (r : TeamRecord) (l : list TeamInviteRecord) : TeamRecord :=
  mkTeam (tr_team_id r) (tr_leader_id r) (tr_zone_id r) (tr_created_at_ms r) (tr_members r)
    (tr_applications r) l (tr_next_join_seq r)
    (tr_match_lock_token r) (tr_match_lock_expire_at_ms r) (tr_match_lock_roster r).
Definition set_next_join_seq (r : TeamRecord) (n : Z) : TeamRecord :=
  mkTeam (tr_team_id r) (tr_leader_id r) (tr_zone_id r) (tr_created_at_ms r) (tr_members r)
    (tr_applications r) (tr_invites r) n
    (tr_match_lock_token r) (tr_match_lock_expire_at_ms r) (tr_match_lock_roster r).
Definition set_match_lock (r : TeamRecord) (token : string) (expire : Z) (roster : list Z) : TeamRecord :=
  mkTeam (tr_team_id r) (tr_leader_id r) (tr_zone_id r) (tr_created_at_ms r) (tr_members r)
    (tr_applications r) (tr_invites r) (tr_next_join_seq r) token expire roster.

(** ** Queries *)

(** [MatchLockActive] of a non-nil record. *)
Definition MatchLockActive (rec : TeamRecord) (nowMs : Z) : bool :=
  negb (bool_decide (tr_match_lock_token rec = ""%string)) &&
  ((tr_match_lock_expire_at_ms rec =? 0) || (nowMs <? tr_match_lock_expire_at_ms rec)).

Definition FindMember (rec : TeamRecord) (playerId : Z) : option TeamMemberRecord :=
  find_first (fun m => tm_player_id m =? playerId) (tr_members rec).

(** The comparison of [sortMembers]: join_seq, then player_id. *)
Definition member_less (a b : TeamMemberRecord) : bool :=
  if negb (tm_join_seq a =? tm_join_seq b) then tm_join_seq a <? tm_join_seq b
  else tm_player_id a <? tm_player_id b.

Definition sortMembers (ms : list TeamMemberRecord) : list TeamMemberRecord :=
  sort_stable member_less ms.

Definition MemberIds (rec : TeamRecord) : list Z :=
  tm_player_id <$> sortMembers (tr_members rec).

Definition memberSet (rec : TeamRecord) : gset Z :=
  list_to_set (tm_player_id <$> tr_members rec).

Definition findApplication (rec : TeamRecord) (playerId : Z) : option TeamApplicationRecord :=
  find_first (fun a => ta_player_id a =? playerId) (tr_applications rec).

Definition removeApplication (rec : TeamRecord) (playerId : Z) : TeamRecord :=
  set_applications rec (keep_if (fun a => negb (ta_player_id a =? playerId)) (tr_applications rec)).

Definition findInvite (rec : TeamRecord) (inviteeId : Z) : option TeamInviteRecord :=
  find_first (fun i => ti_invitee_id i =? inviteeId) (tr_invites rec).

Definition removeInvite (rec : TeamRecord) (inviteeId : Z) : TeamRecord :=
  set_invites rec (keep_if (fun i => negb (ti_invitee_id i =? inviteeId)) (tr_invites rec)).

Definition removeId (ids : list Z) (id : Z) : list Z :=
  keep_if (fun v => negb (v =? id)) ids.

(** ** Leader choice *)

(** First online candidate in (join_seq, player_id) order; without one, the
    first candidate unless [onlineOnly]; [0] is "nobody". *)
Definition pickLeader (candidates : list TeamMemberRecord) (sessions : Sessions)
    (onlineOnly : bool) : Z :=
  let sorted := sortMembers candidates in
  match find_first (fun m => bool_decide (session sessions (tm_player_id m) = SessionOnline)) sorted with
  | Some m => tm_player_id m
  | None =>
      if onlineOnly then 0
      else match sorted with [] => 0 | m :: _ => tm_player_id m end
  end.

(** [lazyTransferLeader]: the new record and whether the leader changed. *)
Definition lazyTransferLeader (rec : TeamRecord) (sessions : Sessions) : TeamRecord * bool :=
  let leader := tr_leader_id rec in
  match FindMember rec leader with
  | None => (rec, false)
  | Some _ =>
      if negb (bool_decide (session sessions leader = SessionAbsent)) then (rec, false)
      else
        let others := keep_if (fun m => negb (tm_player_id m =? leader)) (tr_members rec) in
        let next := pickLeader others sessions true in
        if next =? 0 then (rec, false) else (set_leader rec next, true)
  end.

(** ** Expiry *)
Definition app_live (nowMs : Z) (a : TeamApplicationRecord) : bool := nowMs <? ta_expire_at_ms a.
Definition invite_live (nowMs : Z) (i : TeamInviteRecord) : bool := nowMs <? ti_expire_at_ms i.

(** [pruneExpired]: the record without expired applications and invites, and
    whether any of each was dropped. *)
Definition pruneExpired (rec : TeamRecord) (nowMs : Z) : TeamRecord * bool * bool :=
  let apps := keep_if (app_live nowMs) (tr_applications rec) in
  let appsExpired := existsb (fun a => negb (app_live nowMs a)) (tr_applications rec) in
  let invites := keep_if (invite_live nowMs) (tr_invites rec) in
  let invitesExpired := existsb (fun i => negb (invite_live nowMs i)) (tr_invites rec) in
  (set_invites (set_applications rec apps) invites, appsExpired, invitesExpired).

Definition PruneExpired (rec : option TeamRecord) (nowMs : Z) : option TeamRecord :=
  match rec with
  | None => None
  | Some r => Some (pruneExpired r nowMs).1.1
  end.

(** ** Quota eviction

    The loops of [evictOldestApplications] and [evictOldestInvites] are the same
    code over two record types. [oldest_from] is the inner scan: the index of
    the smallest (time, id) among the elements whose id is not [keep]. *)
Section evict.
Context {A : Type} (time id : A -> Z).

Fixpoint oldest_from (keep : Z) (i : nat) (best : option (nat * A)) (l : list A) : option nat :=
  match l with
  | [] => fst <$> best
  | a :: l' =>
      if id a =? keep then oldest_from keep (S i) best l'
      else match best with
           | None => oldest_from keep (S i) (Some (i, a)) l'
           | Some (j, o) =>
               if (time a <? time o) || ((time a =? time o) && (id a <? id o))
               then oldest_from keep (S i) (Some (i, a)) l'
               else oldest_from keep (S i) (Some (j, o)) l'
           end
  end.

(** The outer loop. Each turn deletes one element, so [length l] turns suffice;
    [evict_done] shows the loop has ended by then. *)
Fixpoint evict_loop (fuel : nat) (limit : Z) (keep : Z) (l : list A) : list A :=
  match fuel with
  | O => l
  | S fuel' =>
      if Z.of_nat (length l) <=? limit then l
      else match oldest_from keep 0 None l with
           | None => l
           | Some i => evict_loop fuel' limit keep (delete i l)
           end
  end.
End evict.

Definition evictOldestApplications (rec : TeamRecord) (keep : Z) : TeamRecord :=
  set_applications rec
    (evict_loop ta_applied_at_ms ta_player_id (length (tr_applications rec))
       MaxApplications keep (tr_applications rec)).

Definition evictOldestInvites (rec : TeamRecord) (keep : Z) : TeamRecord :=
  set_invites rec
    (evict_loop ti_invited_at_ms ti_invitee_id (length (tr_invites rec))
       MaxInvitesPerTeam keep (tr_invites rec)).
