(* ===== verification/TeamRules.v ===== *)
(** * Team rules

    The roster operations of [go/match/internal/team/rules.go]: one definition
    per operation, run on a rule context ([ruleCtx]) that carries the working
    copy of the record, composed by [Apply], [RepairRemoveMembers], [LockMatch]
    and [ReleaseMatchLock], and summed up by [finish] into a [Decision]. *)

From stdpp Require Import base list gmap sorting strings.
From Stdlib Require Import ZArith Lia.
From S2P Require Import Prelude TeamRecord.
Local Open Scope Z_scope.
Local Open Scope go_scope.

Record RuleConfig := mkCfg { AllowCrossZone : bool }.

Inductive OpKind :=
  | OpCreate | OpRefresh | OpApply | OpHandleApplication | OpInvite
  | OpRespondInvite | OpLeave | OpKick | OpTransferLeader | OpDisband
  | OpOther.  (** a [Kind] outside the constants, e.g. the zero value *)

#[global] Instance OpKind_eq_dec : EqDecision OpKind.
Proof. solve_decision. Defined.

Record Op := mkOp {
  Kind : OpKind; Caller : Z; CallerTeamId : Z; CallerZone : Z;
  Target : Z; TargetZone : Z; NewTeamId : Z; Accept : bool }.

(** The constructors of the package; [CallerTeamId] is filled in by the store. *)
Definition CreateOp (caller teamId zone : Z) : Op := mkOp OpCreate caller 0 zone 0 0 teamId false.
Definition RefreshOp (caller : Z) : Op := mkOp OpRefresh caller 0 0 0 0 0 false.
Definition ApplyOp (caller callerZone : Z) : Op := mkOp OpApply caller 0 callerZone 0 0 0 false.
Definition HandleApplicationOp (caller applicant : Z) (approve : bool) : Op :=
  mkOp OpHandleApplication caller 0 0 applicant 0 0 approve.
Definition InviteOp (caller target targetZone : Z) : Op :=
  mkOp OpInvite caller 0 0 target targetZone 0 false.
Definition RespondInviteOp (caller : Z) (accept : bool) : Op :=
  mkOp OpRespondInvite caller 0 0 0 0 0 accept.
Definition LeaveOp (caller : Z) : Op := mkOp OpLeave caller 0 0 0 0 0 false.
Definition KickOp (caller target : Z) : Op := mkOp OpKick caller 0 0 target 0 0 false.
Definition TransferLeaderOp (caller target : Z) : Op :=
  mkOp OpTransferLeader caller 0 0 target 0 0 false.
Definition DisbandOp (caller : Z) : Op := mkOp OpDisband caller 0 0 0 0 0 false.

(** [TeamChangeReason] of the proto, the values the rules use. *)
Inductive TeamChangeReason :=
  | REASON_UNSPECIFIED | REASON_CREATED | REASON_MEMBER_JOINED | REASON_MEMBER_LEFT
  | REASON_MEMBER_KICKED | REASON_LEADER_TRANSFERRED | REASON_LEADER_OFFLINE_TRANSFERRED
  | REASON_DISBANDED | REASON_APPLICATION_CHANGED | REASON_INVITE_CHANGED
  | REASON_MATCH_STARTED | REASON_MATCH_ENDED | REASON_MATCH_FAILED | REASON_HEALED.

#[global] Instance TeamChangeReason_eq_dec : EqDecision TeamChangeReason.
Proof. solve_decision. Defined.

Record InviteIndexAdd := mkAdd { ia_InviteeId : Z; ia_ExpireAtMs : Z }.

Record Decision := mkDecision {
  d_Code : Z; d_CodeParam : Z;
  d_Changed : bool; d_Record : option TeamRecord;
  d_Joined : list Z; d_Kept : list Z; d_Left : list Z;
  d_InvitesAdded : list InviteIndexAdd; d_InvitesRemoved : list Z;
  d_InvitesExpired : list Z; d_ExpiryOnly : bool;
  d_Reason : TeamChangeReason; d_Actor : Z;
  d_LeaderOfflineTransferred : bool; d_Disbanded : bool;
  d_RevokedInvitees : list Z; d_RejectedApplicant : Z; d_InvitedPlayer : Z }.

(** [Decision{Code: code, CodeParam: param}] *)
Definition reject (code param : Z) : Decision :=
  mkDecision code param false None [] [] [] [] [] [] false REASON_UNSPECIFIED 0
    false false [] 0 0.

(** ** The rule context *)
Record ruleCtx := mkCtx {
  c_op : Op; c_rec : TeamRecord; c_now : Z; c_sessions : Sessions; c_cfg : RuleConfig;
  c_code : Z; c_codeParam : Z;
  c_appsExpired : bool; c_invitesExpired : bool; c_transferred : bool;
  c_opChanged : bool; c_reason : TeamChangeReason; c_actor : Z;
  c_disbanded : bool; c_revoked : list Z; c_extraLeft : list Z;
  c_added : list InviteIndexAdd; c_rejected : Z; c_invited : Z }.

(** A fresh context around a working copy. *)
Definition newCtx (op : Op) (rec : TeamRecord) (now : Z) (s : Sessions) (cfg : RuleConfig)
    (appsExpired invitesExpired transferred : bool) : ruleCtx :=
  mkCtx op rec now s cfg 0 0 appsExpired invitesExpired transferred
    false REASON_UNSPECIFIED 0 false [] [] [] 0 0.

Definition set_rec (c : ruleCtx) (r : TeamRecord) : ruleCtx :=
  mkCtx (c_op c) r (c_now c) (c_sessions c) (c_cfg c) (c_code c) (c_codeParam c) (c_appsExpired
    c) (c_invitesExpired c) (c_transferred c) (c_opChanged c) (c_reason c) (c_actor c)
    (c_disbanded c) (c_revoked c) (c_extraLeft c) (c_added c) (c_rejected c) (c_invited c).
Definition set_disbanded (c : ruleCtx) (revoked : list Z) : ruleCtx :=
  mkCtx (c_op c) (c_rec c) (c_now c) (c_sessions c) (c_cfg c) (c_code c) (c_codeParam c)
    (c_appsExpired c) (c_invitesExpired c) (c_transferred c) (c_opChanged c) (c_reason c)
    (c_actor c) true (c_revoked c ++ revoked) (c_extraLeft c) (c_added c) (c_rejected c)
    (c_invited c).
Definition add_extraLeft (c : ruleCtx) (p : Z) : ruleCtx :=
  mkCtx (c_op c) (c_rec c) (c_now c) (c_sessions c) (c_cfg c) (c_code c) (c_codeParam c)
    (c_appsExpired c) (c_invitesExpired c) (c_transferred c) (c_opChanged c) (c_reason c)
    (c_actor c) (c_disbanded c) (c_revoked c) (c_extraLeft c ++ [p]) (c_added c) (c_rejected c)
    (c_invited c).
Definition set_rejected (c : ruleCtx) (p : Z) : ruleCtx :=
  mkCtx (c_op c) (c_rec c) (c_now c) (c_sessions c) (c_cfg c) (c_code c) (c_codeParam c)
    (c_appsExpired c) (c_invitesExpired c) (c_transferred c) (c_opChanged c) (c_reason c)
    (c_actor c) (c_disbanded c) (c_revoked c) (c_extraLeft c) (c_added c) p (c_invited c).
Definition set_invited (c : ruleCtx) (p expire : Z) : ruleCtx :=
  mkCtx (c_op c) (c_rec c) (c_now c) (c_sessions c) (c_cfg c) (c_code c) (c_codeParam c)
    (c_appsExpired c) (c_invitesExpired c) (c_transferred c) (c_opChanged c) (c_reason c)
    (c_actor c) (c_disbanded c) (c_revoked c) (c_extraLeft c) (c_added c ++ [mkAdd p expire])
    (c_rejected c) p.

(** [c.fail]: the first failure wins. *)
Definition fail (c : ruleCtx) (code param : Z) : ruleCtx :=
  if c_code c =? 0 then
    mkCtx (c_op c) (c_rec c) (c_now c) (c_sessions c) (c_cfg c) code param (c_appsExpired c)
      (c_invitesExpired c) (c_transferred c) (c_opChanged c) (c_reason c) (c_actor c)
      (c_disbanded c) (c_revoked c) (c_extraLeft c) (c_added c) (c_rejected c) (c_invited c)
  else c.

Definition markOp (c : ruleCtx) (reason : TeamChangeReason) (actor : Z) : ruleCtx :=
  mkCtx (c_op c) (c_rec c) (c_now c) (c_sessions c) (c_cfg c) (c_code c) (c_codeParam c)
    (c_appsExpired c) (c_invitesExpired c) (c_transferred c) true reason actor (c_disbanded c)
    (c_revoked c) (c_extraLeft c) (c_added c) (c_rejected c) (c_invited c).

Definition isLeader (c : ruleCtx) (playerId : Z) : bool :=
  negb (playerId =? 0) && (tr_leader_id (c_rec c) =? playerId).

Definition full (c : ruleCtx) : bool := Capacity <=? Z.of_nat (length (tr_members (c_rec c))).

Definition locked (c : ruleCtx) : bool := MatchLockActive (c_rec c) (c_now c).

(** [zoneCheck]: [None] when the zone passes, the context with its failure
    recorded otherwise. *)
Definition zoneCheck (c : ruleCtx) (zone : Z) : option ruleCtx :=
  if zone =? 0 then Some (fail c ErrHomeZoneUnknown 0)
  else if negb (AllowCrossZone (c_cfg c)) && negb (zone =? tr_zone_id (c_rec c))
  then Some (fail c ErrCrossZoneDenied 0)
  else None.

Definition is_member (c : ruleCtx) (p : Z) : bool :=
  match FindMember (c_rec c) p with Some _ => true | None => false end.

(** [dissolve]: no applications or invites survive; invitees are revoked. *)
Definition dissolve (c : ruleCtx) : ruleCtx :=
  let c := set_disbanded c (ti_invitee_id <$> tr_invites (c_rec c)) in
  set_rec c (set_applications (set_invites (c_rec c) []) []).

(** The join sequence [addMember] gives out: [next_join_seq], pushed past every
    member's, never zero; [uint32] arithmetic. *)
Definition next_seq (rec : TeamRecord) : Z :=
  let seq := foldl (fun seq m => if seq <=? tm_join_seq m then tm_join_seq m +32 1 else seq)
               (tr_next_join_seq rec) (tr_members rec) in
  if seq =? 0 then 1 else seq.

Definition addMember (c : ruleCtx) (playerId zone : Z) : ruleCtx :=
  let rec := c_rec c in
  let seq := next_seq rec in
  let rec := set_members rec (tr_members rec ++ [mkMember playerId zone (c_now c) seq]) in
  let rec := set_next_join_seq rec (seq +32 1) in
  let rec := set_members rec (sortMembers (tr_members rec)) in
  set_rec c (removeInvite (removeApplication rec playerId) playerId).

Definition removeMember (c : ruleCtx) (playerId : Z) : ruleCtx :=
  let kept := keep_if (fun m => negb (tm_player_id m =? playerId)) (tr_members (c_rec c)) in
  let c := set_rec c (set_members (c_rec c) kept) in
  match kept with
  | [] => dissolve c
  | _ => if tr_leader_id (c_rec c) =? playerId
         then set_rec c (set_leader (c_rec c) (pickLeader kept (c_sessions c) false))
         else c
  end.

(** ** The operations *)
Definition apply (c : ruleCtx) : ruleCtx :=
  let caller := Caller (c_op c) in
  let zone := CallerZone (c_op c) in
  if is_member c caller || negb (CallerTeamId (c_op c) =? 0) then fail c ErrMemberInTeam 0
  else match zoneCheck c zone with
  | Some c' => c'
  | None =>
    if full c then fail c ErrMembersFull 0
    else
      let expire := c_now c +64 ApplicationTTLMs in
      let rec :=
        match findApplication (c_rec c) caller with
        | Some _ =>
            set_applications (c_rec c)
              (update_first (fun a => ta_player_id a =? caller)
                 (fun a => mkApplication (ta_player_id a) zone (ta_applied_at_ms a) expire)
                 (tr_applications (c_rec c)))
        | None =>
            evictOldestApplications
              (set_applications (c_rec c)
                 (tr_applications (c_rec c) ++ [mkApplication caller zone (c_now c) expire]))
              caller
        end in
      markOp (set_rec c rec) REASON_APPLICATION_CHANGED caller
  end.

Definition handleApplication (c : ruleCtx) : ruleCtx :=
  let applicant := Target (c_op c) in
  if negb (isLeader c (Caller (c_op c))) then fail c ErrNotLeader 0
  else
    let app := findApplication (c_rec c) applicant in
    if negb (Accept (c_op c)) then
      match app with
      | None => c
      | Some _ =>
          markOp (set_rejected (set_rec c (removeApplication (c_rec c) applicant)) applicant)
            REASON_APPLICATION_CHANGED applicant
      end
    else if is_member c applicant then c
    else match app with
    | None => fail c ErrApplicationNotFound 0
    | Some a =>
        if locked c then fail c ErrInMatch 0
        else if full c then fail c ErrMembersFull 0
        else match zoneCheck c (ta_zone_id a) with
        | Some c' => c'
        | None => markOp (addMember c applicant (ta_zone_id a)) REASON_MEMBER_JOINED applicant
        end
    end.

Definition invite (c : ruleCtx) : ruleCtx :=
  let target := Target (c_op c) in
  let caller := Caller (c_op c) in
  let zone := TargetZone (c_op c) in
  if negb (isLeader c caller) then fail c ErrNotLeader 0
  else if (target =? 0) || (target =? caller) then fail c ErrPlayerId 0
  else if is_member c target then fail c ErrMemberInTeam target
  else match zoneCheck c zone with
  | Some c' => c'
  | None =>
    if full c then fail c ErrMembersFull 0
    else
      let expire := c_now c +64 InviteTTLMs in
      let rec :=
        match findInvite (c_rec c) target with
        | Some _ =>
            set_invites (c_rec c)
              (update_first (fun i => ti_invitee_id i =? target)
                 (fun i => mkInvite (ti_invitee_id i) caller zone (ti_invited_at_ms i) expire)
                 (tr_invites (c_rec c)))
        | None =>
            evictOldestInvites
              (set_invites (c_rec c)
                 (tr_invites (c_rec c) ++ [mkInvite target caller zone (c_now c) expire]))
              target
        end in
      markOp (set_invited (set_rec c rec) target expire) REASON_INVITE_CHANGED target
  end.

Definition respondInvite (c : ruleCtx) : ruleCtx :=
  let caller := Caller (c_op c) in
  let inv := findInvite (c_rec c) caller in
  if negb (Accept (c_op c)) then
    match inv with
    | None => c
    | Some _ => markOp (set_rec c (removeInvite (c_rec c) caller)) REASON_INVITE_CHANGED caller
    end
  else if is_member c caller then c
  else match inv with
  | None => fail c ErrInviteNotFound 0
  | Some i =>
      if locked c then fail c ErrInMatch 0
      else if negb (CallerTeamId (c_op c) =? 0) && negb (CallerTeamId (c_op c) =? tr_team_id (c_rec c))
      then fail c ErrMemberInTeam 0
      else if full c then fail c ErrMembersFull 0
      else match zoneCheck c (ti_zone_id i) with
      | Some c' => c'
      | None => markOp (addMember c caller (ti_zone_id i)) REASON_MEMBER_JOINED caller
      end
  end.

Definition leave (c : ruleCtx) : ruleCtx :=
  let caller := Caller (c_op c) in
  if negb (is_member c caller) then
    if CallerTeamId (c_op c) =? tr_team_id (c_rec c)
    then markOp (add_extraLeft c caller) REASON_MEMBER_LEFT caller
    else c
  else if locked c then fail c ErrInMatch 0
  else markOp (removeMember c caller) REASON_MEMBER_LEFT caller.

Definition kick (c : ruleCtx) : ruleCtx :=
  let target := Target (c_op c) in
  if negb (isLeader c (Caller (c_op c))) then fail c ErrKickNotLeader 0
  else if target =? Caller (c_op c) then fail c ErrKickSelf 0
  else if negb (is_member c target) then fail c ErrMemberNotInTeam target
  else if locked c then fail c ErrInMatch 0
  else markOp (removeMember c target) REASON_MEMBER_KICKED target.

Definition transferLeader (c : ruleCtx) : ruleCtx :=
  let target := Target (c_op c) in
  if target =? 0 then fail c ErrPlayerId 0
  else if target =? Caller (c_op c) then fail c ErrAppointSelf 0
  else if isLeader c target then c
  else if negb (isLeader c (Caller (c_op c))) then fail c ErrAppointNotLeader 0
  else if negb (is_member c target) then fail c ErrMemberNotInTeam target
  else if negb (bool_decide (session (c_sessions c) target = SessionOnline))
  then fail c ErrMemberOffline target
  else if locked c then fail c ErrInMatch 0
  else markOp (set_rec c (set_leader (c_rec c) target)) REASON_LEADER_TRANSFERRED target.

Definition disband (c : ruleCtx) : ruleCtx :=
  if negb (isLeader c (Caller (c_op c))) then fail c ErrDisbandNotLeader 0
  else if locked c then fail c ErrInMatch 0
  else markOp (dissolve (set_rec c (set_members (c_rec c) []))) REASON_DISBANDED (Caller (c_op c)).

(** ** Summing up *)

(** The scan of the original invites in [finish]: the ids that are neither in
    the new record, nor added, nor already listed. *)
Fixpoint removed_invites (skip : gset Z) (l : list TeamInviteRecord) : list Z :=
  match l with
  | [] => []
  | i :: l' =>
      let id := ti_invitee_id i in
      if bool_decide (id ∈ skip) then removed_invites skip l'
      else id :: removed_invites ({[id]} ∪ skip) l'
  end.

Definition finish (c : ruleCtx) (orig : TeamRecord) : Decision :=
  if negb (c_code c =? 0) then reject (c_code c) (c_codeParam c)
  else
    let housekeeping := c_appsExpired c || c_invitesExpired c || c_transferred c in
    if negb (c_opChanged c) && negb housekeeping then
      mkDecision 0 0 false None [] [] [] [] [] [] false REASON_UNSPECIFIED 0
        (c_transferred c) false [] (c_rejected c) (c_invited c)
    else
      let '(reason, actor) :=
        if c_opChanged c then (c_reason c, c_actor c)
        else if c_transferred c then (REASON_LEADER_OFFLINE_TRANSFERRED, tr_leader_id (c_rec c))
        else if c_appsExpired c then (REASON_APPLICATION_CHANGED, 0)
        else (REASON_INVITE_CHANGED, 0) in
      let oldMembers := memberSet orig in
      let rec := if c_disbanded c then c_rec c
                 else set_members (c_rec c) (sortMembers (tr_members (c_rec c))) in
      let newMembers := if c_disbanded c then ∅ else memberSet rec in
      let ids := MemberIds rec in
      let kept := keep_if (fun id => bool_decide (id ∈ oldMembers)) ids in
      let joined := keep_if (fun id => negb (bool_decide (id ∈ oldMembers))) ids in
      let left := keep_if (fun id => negb (bool_decide (id ∈ newMembers))) (MemberIds orig)
               ++ keep_if (fun id => negb (bool_decide (id ∈ newMembers)) &&
                                     negb (bool_decide (id ∈ oldMembers))) (c_extraLeft c) in
      let addedSet := list_to_set (ia_InviteeId <$> c_added c) : gset Z in
      let newInvitees := list_to_set (ti_invitee_id <$> tr_invites (c_rec c)) : gset Z in
      let liveBefore := list_to_set (ti_invitee_id <$> keep_if (invite_live (c_now c)) (tr_invites orig)) : gset Z in
      let removed := removed_invites (newInvitees ∪ addedSet) (tr_invites orig) in
      mkDecision 0 0 true (if c_disbanded c then None else Some rec)
        joined kept left (c_added c) removed
        (keep_if (fun id => negb (bool_decide (id ∈ liveBefore))) removed)
        (negb (c_opChanged c) && negb (c_transferred c))
        reason actor (c_transferred c) (c_disbanded c)
        (if c_disbanded c then c_revoked c else []) (c_rejected c) (c_invited c).

(** ** Entry points *)
Definition applyCreate (op : Op) (rec : option TeamRecord) (nowMs : Z) : Decision :=
  if bool_decide (rec <> None) || (NewTeamId op =? 0) || (Caller op =? 0) then reject ErrInternal 0
  else if CallerZone op =? 0 then reject ErrHomeZoneUnknown 0
  else if negb (CallerTeamId op =? 0) then reject ErrMemberInTeam 0
  else
    let record :=
      mkTeam (NewTeamId op) (Caller op) (CallerZone op) nowMs
        [mkMember (Caller op) (CallerZone op) nowMs 1] [] [] 2 ""%string 0 [] in
    mkDecision 0 0 true (Some record) [Caller op] [] [] [] [] [] false
      REASON_CREATED (Caller op) false false [] 0 0.

(** The housekeeping every operation starts with. *)
Definition startCtx (op : Op) (rec : TeamRecord) (nowMs : Z) (s : Sessions) (cfg : RuleConfig) : ruleCtx :=
  let '(work, appsExpired, invitesExpired) := pruneExpired rec nowMs in
  let '(work, transferred) := lazyTransferLeader work s in
  newCtx op work nowMs s cfg appsExpired invitesExpired transferred.

(** The switch of [Apply]; [None] is its default case. *)
Definition run_op (kind : OpKind) (c : ruleCtx) : option ruleCtx :=
  match kind with
  | OpRefresh => Some c
  | OpApply => Some (apply c)
  | OpHandleApplication => Some (handleApplication c)
  | OpInvite => Some (invite c)
  | OpRespondInvite => Some (respondInvite c)
  | OpLeave => Some (leave c)
  | OpKick => Some (kick c)
  | OpTransferLeader => Some (transferLeader c)
  | OpDisband => Some (disband c)
  | OpCreate | OpOther => None
  end.

Definition Apply (op : Op) (rec : option TeamRecord) (nowMs : Z) (s : Sessions) (cfg : RuleConfig) : Decision :=
  match Kind op, rec with
  | OpCreate, _ => applyCreate op rec nowMs
  | _, None => reject ErrNoTeam 0
  | k, Some r =>
      match run_op k (startCtx op r nowMs s cfg) with
      | None => reject ErrInternal 0
      | Some c => finish c r
      end
  end.

(** [RepairRemoveMembers]: the loop over the ids, with the first id really
    removed as actor. *)
Fixpoint repair_loop (c : ruleCtx) (actor : Z) (ids : list Z) : ruleCtx * Z :=
  match ids with
  | [] => (c, actor)
  | pid :: ids' =>
      if (pid =? 0) || negb (is_member c pid) then repair_loop c actor ids'
      else
        let c := removeMember c pid in
        let rec := c_rec c in
        let c := set_rec c (set_match_lock rec (tr_match_lock_token rec)
                   (tr_match_lock_expire_at_ms rec) (removeId (tr_match_lock_roster rec) pid)) in
        repair_loop c (if actor =? 0 then pid else actor) ids'
  end.

Definition zeroOp : Op := mkOp OpOther 0 0 0 0 0 0 false.

Definition RepairRemoveMembers (rec : option TeamRecord) (playerIds : list Z) (nowMs : Z) (s : Sessions) : Decision :=
  match rec with
  | None => reject ErrNoTeam 0
  | Some r =>
      let '(c, actor) := repair_loop (startCtx zeroOp r nowMs s (mkCfg false)) 0 playerIds in
      finish (if negb (actor =? 0) then markOp c REASON_HEALED actor else c) r
  end.

Definition RepairRemoveMember (rec : option TeamRecord) (playerId nowMs : Z) (s : Sessions) : Decision :=
  RepairRemoveMembers rec [playerId] nowMs s.

(** ** Match lock *)
Definition CheckMatchStart (rec : option TeamRecord) (caller nowMs : Z) : Z :=
  match rec with
  | None => ErrNoTeam
  | Some r =>
      if (caller =? 0) || negb (tr_leader_id r =? caller) then ErrNotLeader
      else if MatchLockActive r nowMs then ErrInMatch
      else 0
  end.

Definition CheckMatchTeamSize (rec : TeamRecord) (required : Z) : Z :=
  if required =? 0 then ErrDungeonNotOpen
  else if required <? u32 (Z.of_nat (length (tr_members rec))) then ErrSizeExceeded
  else 0.

Definition MatchRoster (rec : TeamRecord) : list Z :=
  let leader := tr_leader_id rec in
  (match FindMember rec leader with Some _ => [leader] | None => [] end)
  ++ keep_if (fun pid => negb (pid =? leader)) (MemberIds rec).

(** [sameIdSet]: equality as multisets; the count map of [a] is consumed by [b]. *)
Fixpoint consume_ids (counts : gmap Z Z) (b : list Z) : bool :=
  match b with
  | [] => true
  | id :: b' =>
      let n := default 0 (counts !! id) in
      if n =? 0 then false else consume_ids (<[id := n - 1]> counts) b'
  end.

Definition count_ids (a : list Z) : gmap Z Z :=
  foldl (fun m id => <[id := default 0 (m !! id) + 1]> m) ∅ a.

Definition sameIdSet (a b : list Z) : bool :=
  bool_decide (length a = length b) && consume_ids (count_ids a) b.

Definition LockMatch (rec : option TeamRecord) (caller : Z) (token : string) (roster : list Z)
    (expireAtMs nowMs : Z) : Decision :=
  match CheckMatchStart rec caller nowMs, rec with
  | 0, Some r =>
      if bool_decide (token = ""%string) || (expireAtMs <=? nowMs) then reject ErrInternal 0
      else if negb (sameIdSet roster (MemberIds r)) then reject ErrStateChanged 0
      else
        let '(work, appsExpired, invitesExpired) := pruneExpired r nowMs in
        let work := set_match_lock work token expireAtMs roster in
        let c := newCtx (mkOp OpOther caller 0 0 0 0 0 false) work nowMs ∅ (mkCfg false)
                   appsExpired invitesExpired false in
        finish (markOp c REASON_MATCH_STARTED caller) r
  | code, _ => reject code 0
  end.

(** [Decision{}] *)
Definition noDecision : Decision := reject 0 0.

Definition ReleaseMatchLock (rec : option TeamRecord) (token : string) (ok : bool) (nowMs : Z) (s : Sessions) : Decision :=
  match rec with
  | None => noDecision
  | Some r =>
      if bool_decide (token = ""%string) || negb (bool_decide (tr_match_lock_token r = token))
         || negb (MatchLockActive r nowMs) then noDecision
      else
        let c := startCtx zeroOp r nowMs s (mkCfg false) in
        let c := set_rec c (set_match_lock (c_rec c) ""%string 0 []) in
        finish (markOp c (if ok then REASON_MATCH_ENDED else REASON_MATCH_FAILED) 0) r
  end.
