(* ===== verification/TeamSpec.v ===== *)
(** * Team records: their facts, and what an operation does to one

    First lemmas on the helpers of [TeamRecord]: search, member order, eviction,
    pruning and leader choice, and the well-formedness invariant of a record; then the classification
    of the operations, against which everything else is proved. *)
From stdpp Require Import base list gmap sorting strings.
From Stdlib Require Import ZArith Lia.
From S2P Require Import Prelude TeamRecord TeamRules.
Local Open Scope Z_scope.
Local Open Scope go_scope.

(** ** Eviction *)
Section evict_facts.
Context {A : Type} (time id : A -> Z).
#[local] Abbreviation oldest_from := (oldest_from time id).
#[local] Abbreviation evict_loop := (evict_loop time id).

(** (time, id) order of the eviction. *)
Definition older (a b : A) : Prop := time a < time b \/ (time a = time b /\ id a <= id b).

Lemma older_trans a b c : older a b -> older b c -> older a c.
Proof. unfold older. lia. Qed.

Lemma oldest_from_spec keep l i best k :
  oldest_from keep i best l = Some k ->
  exists a, ((exists n, k = (i + n)%nat /\ l !! n = Some a /\ id a <> keep) \/ best = Some (k, a)) /\
            (forall b, b ∈ l -> id b <> keep -> older a b) /\
            (forall j o, best = Some (j, o) -> older a o).
Proof.
  revert i best. induction l as [|x l IH]; simpl; intros i best.
  { destruct best as [[j o]|]; simpl; intros [= ->]. exists o.
    split; [by right|]. split; [set_solver|]. intros ? ? [= -> ->]. unfold older. lia. }
  assert (Hshift : forall a, (exists n, k = (S i + n)%nat /\ l !! n = Some a /\ id a <> keep) ->
            exists n, k = (i + n)%nat /\ (x :: l) !! n = Some a /\ id a <> keep).
  { intros a (n & -> & Hn & Hk). exists (S n). split; [lia|]. done. }
  destruct (id x =? keep) eqn:Hk; zbool.
  { intros (a & Ha & Hmin & Hb)%IH. exists a. split; [naive_solver|]. split; [|done].
    intros b [->|?]%elem_of_cons ?; [done|by apply Hmin]. }
  assert (Hx : forall a, (older a x) -> (forall b, b ∈ l -> id b <> keep -> older a b) ->
             forall b, b ∈ x :: l -> id b <> keep -> older a b).
  { intros a ? ? b [->|?]%elem_of_cons ?; auto. }
  assert (Hhd : forall a n, Some (i, x) = Some (n, a) ->
            exists m, n = (i + m)%nat /\ (x :: l) !! m = Some a /\ id a <> keep).
  { intros a n [= <- <-]. exists 0%nat. split; [lia|]. done. }
  destruct best as [[j o]|].
  - destruct ((time x <? time o) || _) eqn:Hc.
    + assert (older x o) as Hxo by (unfold older; zlia).
      intros (a & Ha & Hmin & Hb)%IH. specialize (Hb i x eq_refl) as Hax. exists a.
      split; [left; destruct Ha as [?|?]; eauto|]. split; [auto|].
      intros ? ? [= <- <-]. by eapply older_trans.
    + assert (older o x) as Hox by (unfold older; zlia).
      intros (a & Ha & Hmin & Hb)%IH. exists a. split; [naive_solver|].
      specialize (Hb j o eq_refl) as Hao. split.
      * apply Hx; [by eapply older_trans|done].
      * intros ? ? [= <- <-]. done.
  - intros (a & Ha & Hmin & Hb)%IH. exists a. specialize (Hb i x eq_refl) as Hax.
    split; [left; destruct Ha as [?|?]; eauto|]. split; [auto|done].
Qed.

Lemma oldest_from_None keep l i best :
  oldest_from keep i best l = None -> best = None /\ forall a, a ∈ l -> id a = keep.
Proof.
  revert i best. induction l as [|x l IH]; simpl; intros i best.
  { destruct best; [done|]. intros _. split; [done|]. set_solver. }
  destruct (id x =? keep) eqn:Hk; zbool.
  { intros [? ?]%IH. split; [done|]. intros a [->|?]%elem_of_cons; auto. }
  destruct best as [[j o]|]; [destruct (_ || _)|]; intros [? ?]%IH; done.
Qed.

Lemma evict_loop_sublist fuel limit keep l : evict_loop fuel limit keep l `sublist_of` l.
Proof.
  revert l. induction fuel as [|fuel IH]; simpl; intros l; [done|].
  destruct (_ <=? _); [done|]. destruct (oldest_from _ _ _ _) as [i|]; [|done].
  etrans; [apply IH|]. apply sublist_delete.
Qed.

(** The element just added is never the one evicted. *)
Lemma evict_loop_keeps fuel limit keep l x :
  x ∈ l -> id x = keep -> x ∈ evict_loop fuel limit keep l.
Proof.
  revert l. induction fuel as [|fuel IH]; simpl; intros l Hx Hid; [done|].
  destruct (_ <=? _); [done|]. destruct (oldest_from _ _ _ _) as [i|] eqn:Ho; [|done].
  apply IH; [|done].
  apply oldest_from_spec in Ho as (a & [(n & -> & Hn & Hne)|?] & _); [|done].
  apply list_elem_of_lookup in Hx as [m Hm].
  apply (elem_of_delete_ne _ _ m); [done|]. intros ->. simpl in Hm. congruence.
Qed.

(** [length l] turns are enough: the loop has reached its exit condition. *)
Lemma evict_loop_bound fuel limit keep l :
  NoDup (id <$> l) -> 1 <= limit -> Z.of_nat (length l) <= limit + Z.of_nat fuel ->
  Z.of_nat (length (evict_loop fuel limit keep l)) <= limit.
Proof.
  revert l. induction fuel as [|fuel IH]; simpl; intros l Hnd Hlim Hlen; [lia|].
  destruct (_ <=? _) eqn:Hle; zbool; [done|].
  destruct (oldest_from _ _ _ _) as [i|] eqn:Ho.
  - apply oldest_from_spec in Ho as (a & [(n & -> & Hn & _)|?] & _); [|done].
    assert (n < length l)%nat by (eapply lookup_lt_Some; done).
    apply IH; [|done|rewrite length_delete by (eexists; done); lia].
    eapply sublist_NoDup; [done|]. apply fmap_sublist, sublist_delete.
  - apply oldest_from_None in Ho as [_ Hall].
    destruct l as [|x [|y l]]; csimpl in *; [lia|lia|].
    exfalso. apply NoDup_cons in Hnd as [Hni _]. apply Hni.
    rewrite (Hall x), (Hall y) by set_solver. left.
Qed.

(** Whatever is evicted is older than every other element that stays. *)
Lemma evict_loop_oldest fuel limit keep l a b :
  NoDup (id <$> l) ->
  a ∈ l -> a ∉ evict_loop fuel limit keep l ->
  b ∈ evict_loop fuel limit keep l -> id b <> keep -> older a b.
Proof.
  revert l. induction fuel as [|fuel IH]; simpl; intros l Hnd Ha Hna Hb Hk; [done|].
  destruct (_ <=? _); [done|]. destruct (oldest_from _ _ _ _) as [i|] eqn:Ho; [|done].
  apply oldest_from_spec in Ho as (x & [(n & -> & Hn & _)|?] & Hmin & _); [|done].
  assert (Hsub : delete (0 + n)%nat l `sublist_of` l) by apply sublist_delete.
  apply list_elem_of_lookup in Ha as [m Hm].
  destruct (decide (m = (0 + n)%nat)) as [->|Hmn].
  - assert (a = x) as -> by (simpl in Hm; congruence).
    apply Hmin; [|done]. eapply elem_of_sublist; [|exact Hsub].
    eapply elem_of_sublist; [exact Hb|]. apply evict_loop_sublist.
  - eapply IH; [|by eapply elem_of_delete_ne|done..].
    eapply sublist_NoDup; [done|]. by apply fmap_sublist.
Qed.
End evict_facts.

(** ** Members *)
Definition ids (r : TeamRecord) : list Z := tm_player_id <$> tr_members r.

Lemma FindMember_None r p : FindMember r p = None <-> p ∉ ids r.
Proof.
  unfold FindMember, ids. rewrite find_first_None, list_elem_of_fmap. split.
  - intros H (m & -> & Hm). specialize (H m Hm). zbool. done.
  - intros H m Hm. apply Z.eqb_neq. intros <-. apply H. eauto.
Qed.

Lemma FindMember_Some r p m : FindMember r p = Some m -> p ∈ ids r.
Proof.
  intros [Hm Hp]%find_first_Some. zbool. subst. unfold ids. by apply list_elem_of_fmap_2.
Qed.

Lemma member_less_total a b c :
  member_less b a = false -> member_less c b = false -> member_less c a = false.
Proof. unfold member_less. repeat split_if; zbool; intros; zbool; lia. Qed.

Lemma member_less_asym a b : member_less a b = true -> member_less b a = false.
Proof. unfold member_less. repeat split_if; zbool; intros; zbool; lia. Qed.

Lemma sortMembers_perm ms : sortMembers ms ≡ₚ ms.
Proof. apply sort_stable_perm. Qed.

Lemma sortMembers_sorted ms :
  StronglySorted (fun a b => member_less b a = false) (sortMembers ms).
Proof. apply sort_stable_sorted; eauto using member_less_total, member_less_asym. Qed.

Lemma elem_of_MemberIds r p : p ∈ MemberIds r <-> p ∈ ids r.
Proof. unfold MemberIds, ids. by rewrite sortMembers_perm. Qed.

Lemma NoDup_MemberIds r : NoDup (ids r) -> NoDup (MemberIds r).
Proof. unfold MemberIds, ids. by rewrite sortMembers_perm. Qed.

Lemma elem_of_memberSet r p : p ∈ memberSet r <-> p ∈ ids r.
Proof. unfold memberSet, ids. by rewrite elem_of_list_to_set. Qed.

(** Strictly increasing join sequences: what a record keeps. *)
Definition seq_lt (a b : TeamMemberRecord) : Prop := tm_join_seq a < tm_join_seq b.

Lemma sortMembers_id ms : StronglySorted seq_lt ms -> sortMembers ms = ms.
Proof.
  intros Hs. apply sort_stable_id. eapply StronglySorted_impl; [|exact Hs].
  intros a b Hab. unfold seq_lt, member_less in *. split_if; zbool; [|lia].
  apply Z.ltb_ge. lia.
Qed.

(** ** Leader choice *)
Lemma pickLeader_elem ms s b :
  pickLeader ms s b <> 0 -> pickLeader ms s b ∈ (tm_player_id <$> ms).
Proof.
  unfold pickLeader. rewrite <- (sortMembers_perm ms) at 3.
  destruct (find_first _ _) as [m|] eqn:Hf.
  - intros _. apply find_first_Some in Hf as [? _]. by apply list_elem_of_fmap_2.
  - destruct b; [done|]. destruct (sortMembers ms); [done|]. intros _. left.
Qed.

Lemma pickLeader_nonempty ms s :
  ms <> [] -> pickLeader ms s false ∈ (tm_player_id <$> ms).
Proof.
  intros Hne. unfold pickLeader. rewrite <- (sortMembers_perm ms) at 2.
  destruct (find_first _ _) as [m|] eqn:Hf.
  - apply find_first_Some in Hf as [? _]. by apply list_elem_of_fmap_2.
  - destruct (sortMembers ms) eqn:Hs; [|left].
    exfalso. apply Hne. apply Permutation_nil_r. by rewrite <- (sortMembers_perm ms), Hs.
Qed.

(** The first hit of a scan is below every other hit in the sort order. *)
Lemma find_first_sorted {A} (R : A -> A -> Prop) f (l : list A) x y :
  StronglySorted R l -> find_first f l = Some x -> y ∈ l -> f y = true -> x = y \/ R x y.
Proof.
  induction 1 as [|z l Hs IH Hall]; simpl; [done|].
  destruct (f z) eqn:Hz.
  - intros [= ->] [->|Hy]%elem_of_cons _; [by left|]. right.
    rewrite Forall_forall in Hall. auto.
  - intros Hf [->|Hy]%elem_of_cons Hfy; [congruence|auto].
Qed.

(** With [onlineOnly] the choice is an online candidate of least join_seq. *)
Lemma pickLeader_online ms s p :
  pickLeader ms s true = p -> p <> 0 ->
  exists m, m ∈ ms /\ tm_player_id m = p /\ session s p = SessionOnline /\
    forall m', m' ∈ ms -> session s (tm_player_id m') = SessionOnline -> tm_join_seq m <= tm_join_seq m'.
Proof.
  unfold pickLeader. destruct (find_first _ _) as [m|] eqn:Hf; [|done].
  intros <- _. pose proof (find_first_Some _ _ _ Hf) as [Hm Hon]. zbool.
  exists m. rewrite <- (sortMembers_perm ms) at 1. repeat split; [done..|].
  intros m' Hm' Hon'. rewrite <- (sortMembers_perm ms) in Hm'.
  destruct (find_first_sorted _ _ _ _ m' (sortMembers_sorted ms) Hf Hm') as [->|Hless].
  - by apply bool_decide_eq_true.
  - lia.
  - unfold member_less in Hless. split_if; zbool; lia.
Qed.

(** ** The invariant of a stored record *)
Record wf_record (r : TeamRecord) : Prop := {
  wf_ids : NoDup (ids r);
  wf_pos : 0 ∉ ids r;
  wf_len : Z.of_nat (length (tr_members r)) <= Capacity;
  wf_leader : tr_leader_id r ∈ ids r;
  wf_sorted : StronglySorted seq_lt (tr_members r);
  wf_seq : Forall (fun m => 1 <= tm_join_seq m < tr_next_join_seq r) (tr_members r);
  wf_next : is_u32 (tr_next_join_seq r);
  wf_apps : NoDup (ta_player_id <$> tr_applications r);
  wf_apps_len : Z.of_nat (length (tr_applications r)) <= MaxApplications;
  wf_apps_out : forall p, p ∈ (ta_player_id <$> tr_applications r) -> p ∉ ids r;
  wf_apps_pos : 0 ∉ (ta_player_id <$> tr_applications r);
  wf_invs : NoDup (ti_invitee_id <$> tr_invites r);
  wf_invs_len : Z.of_nat (length (tr_invites r)) <= MaxInvitesPerTeam;
  wf_invs_out : forall p, p ∈ (ti_invitee_id <$> tr_invites r) -> p ∉ ids r;
  wf_invs_pos : 0 ∉ (ti_invitee_id <$> tr_invites r) }.

(** The lists of a record, narrowed: what pruning and removals do. *)
Lemma wf_narrow r apps invs :
  wf_record r -> apps `sublist_of` tr_applications r -> invs `sublist_of` tr_invites r ->
  wf_record (set_invites (set_applications r apps) invs).
Proof.
  intros [] Ha Hi. pose proof (sublist_length _ _ Ha). pose proof (sublist_length _ _ Hi).
  constructor; simpl; unfold ids in *; simpl; try done; try lia.
  - by eapply NoDup_fmap_sublist.
  - eauto using elem_of_fmap_sublist.
  - intros ?. eauto using elem_of_fmap_sublist.
  - by eapply NoDup_fmap_sublist.
  - eauto using elem_of_fmap_sublist.
  - intros ?. eauto using elem_of_fmap_sublist.
Qed.

Lemma wf_prune r now : wf_record r -> wf_record (pruneExpired r now).1.1.
Proof. intros H. apply wf_narrow; auto using keep_if_sublist. Qed.

Lemma wf_set_leader r p : wf_record r -> p ∈ ids r -> wf_record (set_leader r p).
Proof. intros [] Hp. by constructor. Qed.

Lemma ids_keep r f : (forall p, p ∈ (tm_player_id <$> keep_if f (tr_members r)) -> p ∈ ids r).
Proof. intros p. apply elem_of_fmap_sublist, keep_if_sublist. Qed.

(** Lazy transfer: nothing, or a new leader among the other members who is
    online and has the least join_seq of the online ones. *)
Lemma lazyTransfer_spec r s r' b :
  lazyTransferLeader r s = (r', b) ->
  (b = false /\ r' = r) \/
  (b = true /\ exists m, m ∈ tr_members r /\ tm_player_id m <> tr_leader_id r /\
     session s (tr_leader_id r) = SessionAbsent /\
     session s (tm_player_id m) = SessionOnline /\
     r' = set_leader r (tm_player_id m) /\
     forall m', m' ∈ tr_members r -> tm_player_id m' <> tr_leader_id r ->
       session s (tm_player_id m') = SessionOnline -> tm_join_seq m <= tm_join_seq m').
Proof.
  unfold lazyTransferLeader. destruct (FindMember _ _); [|naive_solver].
  destruct (negb _) eqn:Hs; [naive_solver|]. zbool.
  destruct (_ =? 0) eqn:Hz; [naive_solver|]. zbool. intros [= <- <-]. right. split; [done|].
  destruct (pickLeader_online _ _ _ eq_refl Hz) as (m & Hm & Hp & Hon & Hmin).
  apply elem_of_keep_if in Hm as [Hm Hne]. zbool. exists m. rewrite Hp.
  repeat split; try done; [congruence|].
  intros m' Hm' Hne' Hon'. apply Hmin; [|done]. apply elem_of_keep_if.
  split; [done|]. apply negb_true_iff, Z.eqb_neq. done.
Qed.

(** With the leader's session gone and another member online, the transfer
    happens. *)
Lemma lazyTransfer_needed r s r' m :
  0 ∉ ids r -> tr_leader_id r ∈ ids r -> session s (tr_leader_id r) = SessionAbsent ->
  m ∈ tr_members r -> tm_player_id m <> tr_leader_id r -> session s (tm_player_id m) = SessionOnline ->
  lazyTransferLeader r s = (r', false) -> False.
Proof.
  intros Hpos Hlead Ha Hm Hne Ho. unfold lazyTransferLeader.
  destruct (FindMember _ _) eqn:Hf; [|by apply FindMember_None in Hf].
  rewrite bool_decide_eq_true_2 by done. simpl.
  destruct (_ =? 0) eqn:Hz; [|done]. zbool. intros _. apply Hpos.
  unfold pickLeader in Hz. destruct (find_first _ _) as [x|] eqn:Hff.
  - apply find_first_Some in Hff as [Hx _]. unfold sortMembers in Hx. rewrite elem_of_sort_stable in Hx.
    apply elem_of_keep_if in Hx as [Hx _]. rewrite <- Hz. unfold ids. by apply list_elem_of_fmap_2.
  - exfalso. rewrite find_first_None in Hff. specialize (Hff m).
    unfold sortMembers in Hff. rewrite elem_of_sort_stable, elem_of_keep_if in Hff.
    rewrite bool_decide_eq_true_2 in Hff by done. apply Z.eqb_neq in Hne. rewrite Hne in Hff. naive_solver.
Qed.

Lemma wf_lazy r s : wf_record r -> wf_record (lazyTransferLeader r s).1.
Proof.
  intros Hwf. destruct (lazyTransferLeader r s) as [r' b] eqn:He. simpl.
  apply lazyTransfer_spec in He as [[_ ->]|(_ & m & Hm & _ & _ & _ & -> & _)]; [done|].
  apply wf_set_leader; [done|]. by apply list_elem_of_fmap_2.
Qed.

#[export] Hint Resolve wf_prune wf_lazy wf_set_leader : go.

(** * What a roster operation does

    [op_effect] classifies the outcome of the operations of [TeamRules]: a
    failure, nothing, a change of the applications or of the invites, or one
    step of the abstract roster machine [roster_step]. The operations are
    proved against this interface once ([run_op_effect]); the invariant, the
    commit sets and the match lock are then consequences of the classification. *)

(** ** The abstract roster: a leader and the members in join order *)
Record roster := mkRoster { ro_leader : Z; ro_members : list Z }.

Definition roster_of (r : TeamRecord) : roster := mkRoster (tr_leader_id r) (MemberIds r).

Definition without (p : Z) (l : list Z) : list Z := keep_if (fun q => negb (q =? p)) l.

(** [None] is a dissolved team. *)
Inductive roster_step (ro : roster) : option roster -> Prop :=
  | rs_same : roster_step ro (Some ro)
  | rs_join p : p ∉ ro_members ro -> Z.of_nat (length (ro_members ro)) < Capacity ->
      roster_step ro (Some (mkRoster (ro_leader ro) (ro_members ro ++ [p])))
  | rs_remove p l : p ∈ ro_members ro -> l ∈ without p (ro_members ro) ->
      (p <> ro_leader ro -> l = ro_leader ro) ->
      roster_step ro (Some (mkRoster l (without p (ro_members ro))))
  | rs_last p : ro_members ro = [p] -> roster_step ro None
  | rs_leader p : p ∈ ro_members ro -> roster_step ro (Some (mkRoster p (ro_members ro)))
  | rs_disband : roster_step ro None.

(** Steps that keep the member list. *)
Definition keeps_members (ro : roster) (ro' : option roster) : Prop :=
  match ro' with Some r => ro_members r = ro_members ro | None => False end.

(** ** Classification *)

(** The part of a context an operation never touches. *)
Definition same_frame (c c' : ruleCtx) : Prop :=
  c_now c' = c_now c /\ c_sessions c' = c_sessions c /\
  c_appsExpired c' = c_appsExpired c /\ c_invitesExpired c' = c_invitesExpired c /\
  c_transferred c' = c_transferred c.

(** A context before any operation ran on it. *)
Record fresh (c : ruleCtx) : Prop := {
  fr_code : c_code c = 0;
  fr_opChanged : c_opChanged c = false;
  fr_disbanded : c_disbanded c = false;
  fr_extraLeft : c_extraLeft c = [];
  fr_added : c_added c = [];
  fr_revoked : c_revoked c = [] }.

Definition plain (c' : ruleCtx) : Prop :=
  c_code c' = 0 /\ c_opChanged c' = true /\ c_disbanded c' = false /\ c_extraLeft c' = [].

Definition apps_ok (r : TeamRecord) (apps : list TeamApplicationRecord) : Prop :=
  NoDup (ta_player_id <$> apps) /\ Z.of_nat (length apps) <= MaxApplications /\
  forall p, p ∈ (ta_player_id <$> apps) -> p <> 0 /\ p ∉ ids r.

Definition invs_ok (r : TeamRecord) (invs : list TeamInviteRecord) : Prop :=
  NoDup (ti_invitee_id <$> invs) /\ Z.of_nat (length invs) <= MaxInvitesPerTeam /\
  forall p, p ∈ (ti_invitee_id <$> invs) -> p <> 0 /\ p ∉ ids r.

Inductive op_effect (c c' : ruleCtx) : Prop :=
  | eff_fail : c_code c' <> 0 -> op_effect c c'
  | eff_same : c' = c -> op_effect c c'
  | eff_apps apps : plain c' -> c_added c' = [] ->
      c_rec c' = set_applications (c_rec c) apps -> apps_ok (c_rec c) apps -> op_effect c c'
  | eff_invs invs : plain c' ->
      (c_added c' = [] \/ exists p e, c_added c' = [mkAdd p e] /\ p ∈ (ti_invitee_id <$> invs)) ->
      c_rec c' = set_invites (c_rec c) invs -> invs_ok (c_rec c) invs -> op_effect c c'
  | eff_join p zone reason : p <> 0 -> p ∉ ids (c_rec c) -> full c = false -> locked c = false ->
      c' = markOp (addMember c p zone) reason p -> op_effect c c'
  | eff_remove p reason : p ∈ ids (c_rec c) -> locked c = false ->
      c' = markOp (removeMember c p) reason p -> op_effect c c'
  | eff_leader p reason : p ∈ ids (c_rec c) -> locked c = false ->
      c' = markOp (set_rec c (set_leader (c_rec c) p)) reason p -> op_effect c c'
  | eff_disband p reason : locked c = false ->
      c' = markOp (dissolve (set_rec c (set_members (c_rec c) []))) reason p -> op_effect c c'
  | eff_stray p reason : p <> 0 -> p ∉ ids (c_rec c) -> CallerTeamId (c_op c) = tr_team_id (c_rec c) ->
      c' = markOp (add_extraLeft c p) reason p -> op_effect c c'.

Lemma fail_code c code param : c_code c = 0 -> code <> 0 -> c_code (fail c code param) <> 0.
Proof. intros Hc Hn. unfold fail. rewrite Hc. done. Qed.

Lemma zoneCheck_fail c zone c' : c_code c = 0 -> zoneCheck c zone = Some c' -> c_code c' <> 0.
Proof.
  intros Hc. unfold zoneCheck. repeat split_if; intros [= <-]; by apply fail_code.
Qed.

Lemma is_member_spec c p : reflect (p ∈ ids (c_rec c)) (is_member c p).
Proof.
  unfold is_member. destruct (FindMember (c_rec c) p) eqn:Hf; constructor.
  - by eapply FindMember_Some.
  - by apply FindMember_None.
Qed.

Lemma findApplication_None r p : findApplication r p = None <-> p ∉ (ta_player_id <$> tr_applications r).
Proof.
  unfold findApplication. rewrite find_first_None, list_elem_of_fmap. split.
  - intros H (a & -> & Ha). specialize (H a Ha). zbool. done.
  - intros H a Ha. apply Z.eqb_neq. intros <-. apply H. eauto.
Qed.

Lemma findInvite_None r p : findInvite r p = None <-> p ∉ (ti_invitee_id <$> tr_invites r).
Proof.
  unfold findInvite. rewrite find_first_None, list_elem_of_fmap. split.
  - intros H (a & -> & Ha). specialize (H a Ha). zbool. done.
  - intros H a Ha. apply Z.eqb_neq. intros <-. apply H. eauto.
Qed.

(** Adding an element and evicting down to the quota: the new list is within
    the quota, has unique ids and still holds the element. *)
Lemma evict_add {A} (time id : A -> Z) limit (l : list A) x :
  NoDup (id <$> l) -> id x ∉ (id <$> l) -> 1 <= limit ->
  let l' := evict_loop time id (length (l ++ [x])) limit (id x) (l ++ [x]) in
  NoDup (id <$> l') /\ Z.of_nat (length l') <= limit /\ x ∈ l' /\
  forall p, p ∈ (id <$> l') -> p = id x \/ p ∈ (id <$> l).
Proof.
  intros Hnd Hni Hlim. simpl. set (l' := evict_loop _ _ _ _ _ _).
  assert (NoDup (id <$> (l ++ [x]))) as Hnd'.
  { rewrite fmap_app. apply NoDup_app. repeat split; [done| |apply NoDup_singleton].
    csimpl. intros p Hp ->%list_elem_of_singleton. done. }
  assert (Hsub : l' `sublist_of` l ++ [x]) by apply evict_loop_sublist.
  repeat split.
  - by eapply NoDup_fmap_sublist.
  - apply evict_loop_bound; [done|done|lia].
  - apply evict_loop_keeps; [|done]. apply elem_of_app. right. left.
  - intros p Hp. eapply elem_of_fmap_sublist in Hp; [|exact Hsub].
    rewrite fmap_app, elem_of_app in Hp. csimpl in Hp.
    rewrite list_elem_of_singleton in Hp. naive_solver.
Qed.

Lemma apps_ok_narrow r apps :
  wf_record r -> apps `sublist_of` tr_applications r -> apps_ok r apps.
Proof.
  intros Hwf Hs. pose proof (wf_narrow r apps (tr_invites r) Hwf Hs (reflexivity _)) as [].
  split_and!; [done|done|]. intros p Hp. split; [by intros ->|auto].
Qed.

Lemma invs_ok_narrow r invs :
  wf_record r -> invs `sublist_of` tr_invites r -> invs_ok r invs.
Proof.
  intros Hwf Hs. pose proof (wf_narrow r (tr_applications r) invs Hwf (reflexivity _) Hs) as [].
  split_and!; [done|done|]. intros p Hp. split; [by intros ->|auto].
Qed.

Lemma apply_effect c : Caller (c_op c) <> 0 -> wf_record (c_rec c) -> fresh c -> op_effect c (apply c).
Proof.
  intros Hcl Hwf Hfr. destruct Hfr as [Hc Ho Hd He Ha Hr]. unfold apply.
  destruct (_ || _) eqn:Hm; [by apply eff_fail, fail_code|]. zbool.
  destruct (is_member_spec c (Caller (c_op c))) as [|Hni]; [done|].
  destruct (zoneCheck _ _) eqn:Hz; [eapply eff_fail, zoneCheck_fail; eauto|].
  destruct (full c); [by apply eff_fail, fail_code|].
  destruct Hwf. destruct (findApplication _ _) eqn:Hf.
  - eapply eff_apps; [done|done|done|]. unfold apps_ok.
    rewrite fmap_update_first, length_update_first by done. split_and!; [done|done|].
    intros p Hp. split; [by intros ->|auto].
  - apply findApplication_None in Hf.
    destruct (evict_add ta_applied_at_ms ta_player_id MaxApplications (tr_applications (c_rec c))
      (mkApplication (Caller (c_op c)) (CallerZone (c_op c)) (c_now c) (c_now c +64 ApplicationTTLMs)))
      as (? & ? & ? & Hp); [done..|].
    eapply eff_apps; [done|done|reflexivity|]. split_and!; [done|done|].
    intros p Hin. destruct (Hp p Hin) as [->|?]; [done|]. split; [by intros ->|auto].
Qed.

Lemma invite_effect c : wf_record (c_rec c) -> fresh c -> op_effect c (invite c).
Proof.
  intros Hwf Hfr. destruct Hfr as [Hc Ho Hd He Ha Hr]. unfold invite.
  destruct (negb _); [by apply eff_fail, fail_code|].
  destruct (_ || _) eqn:Ht; [by apply eff_fail, fail_code|]. zbool.
  destruct (is_member_spec c (Target (c_op c))) as [|Hni]; [by apply eff_fail, fail_code|].
  destruct (zoneCheck _ _) eqn:Hz; [eapply eff_fail, zoneCheck_fail; eauto|].
  destruct (full c); [by apply eff_fail, fail_code|].
  destruct Hwf. destruct (findInvite _ _) eqn:Hf.
  - eapply eff_invs; [done| |done|].
    + right. simpl. rewrite Ha. eexists _, _. split; [done|]. rewrite fmap_update_first by done.
      apply find_first_Some in Hf as [? Heq]. zbool. rewrite <- Heq. by apply list_elem_of_fmap_2.
    + unfold invs_ok. rewrite fmap_update_first, length_update_first by done.
      split_and!; [done|done|]. intros p Hp. split; [by intros ->|auto].
  - apply findInvite_None in Hf.
    destruct (evict_add ti_invited_at_ms ti_invitee_id MaxInvitesPerTeam (tr_invites (c_rec c))
      (mkInvite (Target (c_op c)) (Caller (c_op c)) (TargetZone (c_op c)) (c_now c) (c_now c +64 InviteTTLMs)))
      as (? & ? & Hin & Hp); [done..|].
    eapply eff_invs; [done| |reflexivity|].
    + right. simpl. rewrite Ha. eexists _, _. split; [done|].
      apply (list_elem_of_fmap_2 ti_invitee_id) in Hin. exact Hin.
    + split_and!; [done|done|]. intros p Hin'.
      destruct (Hp p Hin') as [->|?]; [done|]. split; [by intros ->|auto].
Qed.

Lemma handleApplication_effect c : wf_record (c_rec c) -> fresh c -> op_effect c (handleApplication c).
Proof.
  intros Hwf Hfr. destruct Hfr as [Hc Ho Hd He Ha Hr]. unfold handleApplication.
  destruct (negb _); [by apply eff_fail, fail_code|].
  destruct (negb _).
  { destruct (findApplication _ _); [|by apply eff_same].
    eapply eff_apps; [done|done|reflexivity|]. apply apps_ok_narrow; [done|apply keep_if_sublist]. }
  destruct (is_member_spec c (Target (c_op c))) as [|Hni]; [by apply eff_same|].
  destruct (findApplication _ _) as [a|] eqn:Hfa; [|by apply eff_fail, fail_code].
  destruct (locked c) eqn:Hl; [by apply eff_fail, fail_code|].
  destruct (full c) eqn:Hfull; [by apply eff_fail, fail_code|].
  destruct (zoneCheck _ _) eqn:Hz; [eapply eff_fail, zoneCheck_fail; eauto|].
  eapply eff_join; [|done..]. intros Hz0.
  apply (wf_apps_pos _ Hwf). rewrite <- Hz0.
  apply find_first_Some in Hfa as [? Heq]. zbool. rewrite <- Heq. by apply list_elem_of_fmap_2.
Qed.

Lemma respondInvite_effect c : wf_record (c_rec c) -> fresh c -> op_effect c (respondInvite c).
Proof.
  intros Hwf Hfr. destruct Hfr as [Hc Ho Hd He Ha Hr]. unfold respondInvite.
  destruct (negb (Accept _)).
  { destruct (findInvite _ _); [|by apply eff_same].
    eapply eff_invs; [done|by left|reflexivity|]. apply invs_ok_narrow; [done|apply keep_if_sublist]. }
  destruct (is_member_spec c (Caller (c_op c))) as [|Hni]; [by apply eff_same|].
  destruct (findInvite _ _) as [i|] eqn:Hfi; [|by apply eff_fail, fail_code].
  destruct (locked c) eqn:Hl; [by apply eff_fail, fail_code|].
  destruct (_ && _); [by apply eff_fail, fail_code|].
  destruct (full c) eqn:Hfull; [by apply eff_fail, fail_code|].
  destruct (zoneCheck _ _) eqn:Hz; [eapply eff_fail, zoneCheck_fail; eauto|].
  eapply eff_join; [|done..]. intros Hz0.
  apply (wf_invs_pos _ Hwf). rewrite <- Hz0.
  apply find_first_Some in Hfi as [? Heq]. zbool. rewrite <- Heq. by apply list_elem_of_fmap_2.
Qed.

Lemma leave_effect c : Caller (c_op c) <> 0 -> fresh c -> op_effect c (leave c).
Proof.
  intros Hcl Hfr. destruct Hfr as [Hc Ho Hd He Ha Hr]. unfold leave.
  destruct (is_member_spec c (Caller (c_op c))) as [Hin|Hni]; simpl.
  - destruct (locked c) eqn:Hl; [by apply eff_fail, fail_code|]. by eapply eff_remove.
  - destruct (_ =? _) eqn:Ht; zbool; [by eapply eff_stray|by apply eff_same].
Qed.

Lemma kick_effect c : fresh c -> op_effect c (kick c).
Proof.
  intros Hfr. destruct Hfr as [Hc Ho Hd He Ha Hr]. unfold kick.
  destruct (negb (isLeader _ _)); [by apply eff_fail, fail_code|].
  destruct (_ =? _); [by apply eff_fail, fail_code|].
  destruct (is_member_spec c (Target (c_op c))) as [Hin|Hni]; simpl; [|by apply eff_fail, fail_code].
  destruct (locked c) eqn:Hl; [by apply eff_fail, fail_code|]. by eapply eff_remove.
Qed.

Lemma transferLeader_effect c : fresh c -> op_effect c (transferLeader c).
Proof.
  intros Hfr. destruct Hfr as [Hc Ho Hd He Ha Hr]. unfold transferLeader.
  destruct (_ =? 0); [by apply eff_fail, fail_code|].
  destruct (_ =? _); [by apply eff_fail, fail_code|].
  destruct (isLeader c (Target _)); [by apply eff_same|].
  destruct (negb (isLeader _ _)); [by apply eff_fail, fail_code|].
  destruct (is_member_spec c (Target (c_op c))) as [Hin|Hni]; simpl; [|by apply eff_fail, fail_code].
  destruct (negb _); [by apply eff_fail, fail_code|].
  destruct (locked c) eqn:Hl; [by apply eff_fail, fail_code|]. by eapply eff_leader.
Qed.

Lemma disband_effect c : fresh c -> op_effect c (disband c).
Proof.
  intros Hfr. destruct Hfr as [Hc Ho Hd He Ha Hr]. unfold disband.
  destruct (negb _); [by apply eff_fail, fail_code|].
  destruct (locked c) eqn:Hl; [by apply eff_fail, fail_code|]. by eapply eff_disband.
Qed.

Lemma run_op_effect k c c' :
  Caller (c_op c) <> 0 -> wf_record (c_rec c) -> fresh c -> run_op k c = Some c' -> op_effect c c'.
Proof.
  intros Hcl Hwf Hfr. destruct k; simpl; intros [= <-];
    eauto using apply_effect, invite_effect, handleApplication_effect, respondInvite_effect,
      leave_effect, kick_effect, transferLeader_effect, disband_effect.
  by apply eff_same.
Qed.
