(* ===== verification/TeamThms.v ===== *)
(** * Team rules: consequences of the classification, and the theorems

    What each [op_effect] does to the invariant and to the abstract roster, and
    the equations of [finish] on a classified context. *)
From stdpp Require Import base list gmap sorting strings.
From Stdlib Require Import ZArith Lia.
From S2P Require Import Prelude TeamRecord TeamRules TeamSpec.
Local Open Scope Z_scope.
Local Open Scope go_scope.

(** ** The starting context *)
Lemma startCtx_rec op r now s cfg :
  c_rec (startCtx op r now s cfg) = (lazyTransferLeader (pruneExpired r now).1.1 s).1.
Proof. unfold startCtx. simpl. by destruct (lazyTransferLeader _ _). Qed.

Lemma startCtx_fresh op r now s cfg : fresh (startCtx op r now s cfg).
Proof. unfold startCtx. simpl. destruct (lazyTransferLeader _ _). done. Qed.

Lemma startCtx_op op r now s cfg : c_op (startCtx op r now s cfg) = op.
Proof. unfold startCtx. simpl. by destruct (lazyTransferLeader _ _). Qed.

Lemma startCtx_now op r now s cfg : c_now (startCtx op r now s cfg) = now.
Proof. unfold startCtx. simpl. by destruct (lazyTransferLeader _ _). Qed.

(** Housekeeping leaves everything but the leader and the expiring lists. *)
Lemma startCtx_same op r now s cfg (c := startCtx op r now s cfg) :
  tr_members (c_rec c) = tr_members r /\ tr_next_join_seq (c_rec c) = tr_next_join_seq r /\
  tr_team_id (c_rec c) = tr_team_id r /\
  tr_match_lock_token (c_rec c) = tr_match_lock_token r /\
  tr_match_lock_expire_at_ms (c_rec c) = tr_match_lock_expire_at_ms r /\
  tr_match_lock_roster (c_rec c) = tr_match_lock_roster r /\
  tr_invites (c_rec c) = keep_if (invite_live now) (tr_invites r).
Proof.
  subst c. rewrite startCtx_rec. destruct (lazyTransferLeader _ s) as [r' b] eqn:He. simpl.
  by apply lazyTransfer_spec in He as [[_ ->]|(_ & m & _ & _ & _ & _ & -> & _)].
Qed.

Lemma startCtx_leader op r now s cfg (c := startCtx op r now s cfg) :
  wf_record r ->
  if c_transferred c then tr_leader_id (c_rec c) ∈ ids r /\ tr_leader_id (c_rec c) <> tr_leader_id r
  else tr_leader_id (c_rec c) = tr_leader_id r.
Proof.
  intros Hwf. subst c. unfold startCtx. simpl.
  destruct (lazyTransferLeader _ s) as [r' b] eqn:He. simpl.
  apply lazyTransfer_spec in He as [[-> ->]|(-> & m & Hm & Hne & _ & _ & -> & _)]; [done|].
  simpl in *. split; [by apply list_elem_of_fmap_2|done].
Qed.

Lemma startCtx_wf op r now s cfg : wf_record r -> wf_record (c_rec (startCtx op r now s cfg)).
Proof. intros. rewrite startCtx_rec. auto with go. Qed.

Lemma startCtx_ids op r now s cfg : ids (c_rec (startCtx op r now s cfg)) = ids r.
Proof. unfold ids. by rewrite (proj1 (startCtx_same op r now s cfg)). Qed.

Lemma startCtx_locked op r now s cfg :
  locked (startCtx op r now s cfg) = MatchLockActive r now.
Proof.
  unfold locked, MatchLockActive. rewrite startCtx_now.
  by destruct (startCtx_same op r now s cfg) as (_ & _ & _ & -> & -> & _).
Qed.

(** ** Joining *)
Lemma next_seq_wf r : wf_record r -> next_seq r = tr_next_join_seq r.
Proof.
  intros Hwf. unfold next_seq.
  assert (Hf : forall ms, Forall (fun m => 1 <= tm_join_seq m < tr_next_join_seq r) ms ->
     foldl (fun seq m => if seq <=? tm_join_seq m then tm_join_seq m +32 1 else seq)
       (tr_next_join_seq r) ms = tr_next_join_seq r).
  { induction 1 as [|m ms Hm _ IH]; simpl; [done|].
    destruct (_ <=? _) eqn:Hle; zbool; [lia|done]. }
  rewrite (Hf _ (wf_seq _ Hwf)).
  destruct (_ =? 0) eqn:Hz; [|done]. zbool.
  pose proof (wf_leader _ Hwf) as Hl. apply list_elem_of_fmap in Hl as (m & _ & Hm).
  pose proof (wf_seq _ Hwf) as Hs. rewrite Forall_forall in Hs. specialize (Hs m Hm). lia.
Qed.

(** A record whose next join sequence still has a successor. *)
Definition headroom (r : TeamRecord) : Prop := tr_next_join_seq r + 1 < u32_mod.

Section joining.
Context (c : ruleCtx) (p zone : Z).
Context (Hwf : wf_record (c_rec c)) (Hroom : headroom (c_rec c)).
Context (Hpos : p <> 0) (Hnew : p ∉ ids (c_rec c)) (Hfull : full c = false).

Lemma addMember_members :
  tr_members (c_rec (addMember c p zone)) =
  tr_members (c_rec c) ++ [mkMember p zone (c_now c) (tr_next_join_seq (c_rec c))].
Proof using Hwf.
  simpl. rewrite next_seq_wf by done. apply sortMembers_id.
  apply StronglySorted_app_2; [|apply (wf_sorted _ Hwf)|repeat constructor].
  intros a b Ha ->%list_elem_of_singleton. pose proof (wf_seq _ Hwf) as Hs.
  rewrite Forall_forall in Hs. specialize (Hs a Ha). unfold seq_lt. simpl. lia.
Qed.

Lemma addMember_ids : ids (c_rec (addMember c p zone)) = ids (c_rec c) ++ [p].
Proof using Hwf. unfold ids at 1. by rewrite addMember_members, fmap_app. Qed.

Lemma addMember_wf : wf_record (c_rec (addMember c p zone)).
Proof using Hwf Hroom Hpos Hnew Hfull.
  pose proof addMember_members as Hm. pose proof addMember_ids as Hi.
  pose proof (next_seq_wf _ Hwf) as Hns. destruct Hwf. unfold full in Hfull. zbool.
  assert (u32 (tr_next_join_seq (c_rec c) + 1) = tr_next_join_seq (c_rec c) + 1) as Hu.
  { apply u32_small. unfold is_u32, headroom in *. lia. }
  constructor; rewrite ?Hi, ?Hm; simpl; rewrite ?Hns, ?Hu.
  - apply NoDup_app. split_and!; [done| |apply NoDup_singleton].
    intros q Hq ->%list_elem_of_singleton. done.
  - rewrite elem_of_app, list_elem_of_singleton. naive_solver.
  - rewrite length_app. simpl. lia.
  - apply elem_of_app. by left.
  - rewrite <- Hm. rewrite Hm. apply StronglySorted_app_2; [|done|repeat constructor].
    intros a b Ha ->%list_elem_of_singleton. rewrite Forall_forall in wf_seq.
    specialize (wf_seq a Ha). unfold seq_lt. simpl. lia.
  - apply Forall_app. split.
    + eapply Forall_impl; [exact wf_seq|]. simpl. lia.
    + constructor; [|done]. simpl. unfold is_u32 in wf_next. 
      apply list_elem_of_fmap in wf_leader as (m & _ & Hin). rewrite Forall_forall in wf_seq.
      specialize (wf_seq m Hin). lia.
  - unfold is_u32, headroom in *. lia.
  - by apply NoDup_fmap_keep_if.
  - pose proof (keep_if_length (fun a => negb (ta_player_id a =? p)) (tr_applications (c_rec c))). lia.
  - intros q Hq. rewrite elem_of_app, list_elem_of_singleton.
    apply list_elem_of_fmap in Hq as (a & -> & [Ha Hne]%elem_of_keep_if). zbool.
    intros [?|?]; [|done]. eapply wf_apps_out; [|done]. by apply list_elem_of_fmap_2.
  - intros Hq. apply wf_apps_pos. by eapply elem_of_fmap_sublist; [apply keep_if_sublist|].
  - by apply NoDup_fmap_keep_if.
  - pose proof (keep_if_length (fun i => negb (ti_invitee_id i =? p)) (tr_invites (c_rec c))). lia.
  - intros q Hq. rewrite elem_of_app, list_elem_of_singleton.
    apply list_elem_of_fmap in Hq as (a & -> & [Ha Hne]%elem_of_keep_if). zbool.
    intros [?|?]; [|done]. eapply wf_invs_out; [|done]. by apply list_elem_of_fmap_2.
  - intros Hq. apply wf_invs_pos. by eapply elem_of_fmap_sublist; [apply keep_if_sublist|].
Qed.
End joining.

(** ** Leaving *)
Lemma fmap_keep_member (p : Z) ms :
  tm_player_id <$> keep_if (fun m => negb (tm_player_id m =? p)) ms = without p (tm_player_id <$> ms).
Proof.
  unfold without. induction ms as [|m ms IH]; simpl; [done|].
  destruct (negb (tm_player_id m =? p)); csimpl; by rewrite IH.
Qed.

Lemma elem_of_without p q l : q ∈ without p l <-> q ∈ l /\ q <> p.
Proof. unfold without. rewrite elem_of_keep_if, negb_true_iff, Z.eqb_neq. done. Qed.

(** The two outcomes of [removeMember]. *)
Lemma removeMember_spec c p :
  wf_record (c_rec c) -> p ∈ ids (c_rec c) ->
  let c' := removeMember c p in
  (ids (c_rec c) = [p] /\ c_disbanded c' = true /\ tr_members (c_rec c') = [] /\
   tr_invites (c_rec c') = [] /\ tr_applications (c_rec c') = [] /\
   c_revoked c' = c_revoked c ++ (ti_invitee_id <$> tr_invites (c_rec c)))
  \/
  (c_disbanded c' = c_disbanded c /\ wf_record (c_rec c') /\
   ids (c_rec c') = without p (ids (c_rec c)) /\
   tr_next_join_seq (c_rec c') = tr_next_join_seq (c_rec c) /\
   tr_applications (c_rec c') = tr_applications (c_rec c) /\
   tr_invites (c_rec c') = tr_invites (c_rec c) /\ c_revoked c' = c_revoked c /\
   (p <> tr_leader_id (c_rec c) -> tr_leader_id (c_rec c') = tr_leader_id (c_rec c))).
Proof.
  intros Hwf Hp. cbn zeta. unfold removeMember.
  set (kept := keep_if _ _).
  assert (Hids : tm_player_id <$> kept = without p (ids (c_rec c))) by apply fmap_keep_member.
  destruct kept as [|m kept'] eqn:Hk.
  - left. simpl. split_and!; try done.
    pose proof (wf_ids _ Hwf) as Hnd. simpl in Hids.
    assert (Hall : forall q, q ∈ ids (c_rec c) -> q = p).
    { intros q Hq. destruct (decide (q = p)); [done|]. exfalso.
      assert (q ∈ without p (ids (c_rec c))) as Hw by (apply elem_of_without; done).
      rewrite <- Hids in Hw. set_solver. }
    destruct (ids (c_rec c)) as [|x [|y l]]; [set_solver| |].
    + f_equal. apply Hall. left.
    + exfalso. apply NoDup_cons in Hnd as [Hni _]. apply Hni.
      rewrite (Hall x), (Hall y) by set_solver. left.
  - right. assert (Hne : kept <> []) by (by rewrite Hk). rewrite <- Hk in *. clear Hk m kept'.
    assert (Hsub : kept `sublist_of` tr_members (c_rec c)) by apply keep_if_sublist.
    assert (Hwf' : forall l, l ∈ (tm_player_id <$> kept) ->
              wf_record (set_leader (set_members (c_rec c) kept) l)).
    { intros l Hl. destruct Hwf. constructor; simpl; unfold ids in *; simpl; try done.
      - by eapply NoDup_fmap_sublist.
      - intros ?. by eapply wf_pos, elem_of_fmap_sublist.
      - pose proof (sublist_length _ _ Hsub). lia.
      - by eapply StronglySorted_sublist.
      - by eapply Forall_sublist.
      - intros q Hq Hin. eapply wf_apps_out; [exact Hq|]. by eapply elem_of_fmap_sublist.
      - intros q Hq Hin. eapply wf_invs_out; [exact Hq|]. by eapply elem_of_fmap_sublist. }
    destruct (_ =? _) eqn:Hl; simpl in Hl; zbool; simpl.
    + split_and!; try done.
      by apply Hwf', pickLeader_nonempty.
    + split_and!; try done. unfold ids in *.
      replace (set_members (c_rec c) kept) with
        (set_leader (set_members (c_rec c) kept) (tr_leader_id (c_rec c))) by (by destruct (c_rec c)).
      apply Hwf'. rewrite Hids. apply elem_of_without. split; [apply (wf_leader _ Hwf)|congruence].
Qed.

(** ** Effects on the record *)
Lemma set_members_id r : set_members r (tr_members r) = r.
Proof. by destruct r. Qed.

Lemma wf_sort_id r : wf_record r -> set_members r (sortMembers (tr_members r)) = r.
Proof. intros Hwf. by rewrite sortMembers_id, set_members_id by apply (wf_sorted _ Hwf). Qed.

Lemma wf_MemberIds r : wf_record r -> MemberIds r = ids r.
Proof. intros Hwf. unfold MemberIds. by rewrite sortMembers_id by apply (wf_sorted _ Hwf). Qed.

Lemma wf_set_applications r apps : wf_record r -> apps_ok r apps -> wf_record (set_applications r apps).
Proof. intros [] (? & ? & Hp). constructor; simpl; try done; [apply Hp|by intros [? _]%Hp]. Qed.

Lemma wf_set_invites r invs : wf_record r -> invs_ok r invs -> wf_record (set_invites r invs).
Proof. intros [] (? & ? & Hp). constructor; simpl; try done; [apply Hp|by intros [? _]%Hp]. Qed.

(** Every operation keeps the frame of its context. *)
Lemma same_frame_refl c : same_frame c c.
Proof. done. Qed.

Lemma same_frame_fail c code param : same_frame c (fail c code param).
Proof. unfold fail. by destruct (_ =? 0). Qed.

Lemma same_frame_zone c zone c' : zoneCheck c zone = Some c' -> same_frame c c'.
Proof. unfold zoneCheck. repeat split_if; intros [= <-]; apply same_frame_fail. Qed.

Lemma same_frame_remove c p : same_frame c (removeMember c p).
Proof. unfold removeMember. destruct (keep_if _ _); [done|]. by destruct (_ =? _). Qed.

Lemma run_op_frame k c c' : run_op k c = Some c' -> same_frame c c'.
Proof.
  destruct k; simpl; intros [= <-];
    unfold apply, handleApplication, invite, respondInvite, leave, kick, transferLeader, disband;
    repeat (case_match; try done); subst;
    eauto using same_frame_fail, same_frame_zone, same_frame_refl;
    apply (same_frame_remove c).
Qed.

Section effects.
Context (c c' : ruleCtx).
Context (Hwf : wf_record (c_rec c)) (Hfr : fresh c) (Heff : op_effect c c') (Hok : c_code c' = 0).

(** A dissolved team has nobody and nothing left. *)
Lemma effect_disbanded :
  c_disbanded c' = true -> tr_members (c_rec c') = [] /\ tr_invites (c_rec c') = [] /\ c_added c' = [] /\
  c_extraLeft c' = [].
Proof using Hwf Hfr Heff Hok.
  destruct Hfr. intros Hd. destruct Heff; subst; unfold plain in *; destruct_and?; simpl in *; try congruence.
  - destruct (removeMember_spec c p Hwf) as [(_ & _ & ? & ? & _)|(Hd' & _)]; [done| |congruence].
    split_and!; try done; unfold removeMember in *; destruct (keep_if _ _); simpl; try done;
      by destruct (_ =? _).
  - done.
Qed.

Lemma effect_team_id : tr_team_id (c_rec c') = tr_team_id (c_rec c).
Proof using Heff Hok.
  destruct Heff; subst; simpl; try done; try by rewrite H1.
  unfold removeMember. destruct (keep_if _ _); simpl; [done|]. by destruct (_ =? _).
Qed.

(** The invariant survives. *)
Lemma effect_wf : headroom (c_rec c) -> c_disbanded c' = false -> wf_record (c_rec c').
Proof using Hwf Hfr Heff Hok.
  intros Hroom Hd. destruct Heff; subst; simpl in *; try done.
  - rewrite H1. by apply wf_set_applications.
  - rewrite H1. by apply wf_set_invites.
  - by apply addMember_wf.
  - destruct (removeMember_spec c p Hwf) as [(_ & Hd' & _)|(_ & ? & _)]; [done|congruence|done].
  - by apply wf_set_leader.
Qed.

(** One step of the abstract roster. *)
Lemma effect_roster :
  headroom (c_rec c) ->
  roster_step (roster_of (c_rec c)) (if c_disbanded c' then None else Some (roster_of (c_rec c'))).
Proof using Hwf Hfr Heff Hok.
  intros Hroom. pose proof (fr_disbanded _ Hfr) as Hd.
  assert (Hids : forall q, q ∈ ids (c_rec c) <-> q ∈ ro_members (roster_of (c_rec c))).
  { intros q. simpl. by rewrite elem_of_MemberIds. }
  destruct Heff; unfold plain in *; destruct_and?; subst; simpl in *; rewrite ?Hd.
  - done.
  - constructor.
  - replace (c_disbanded c') with false by done. rewrite H1. constructor.
  - replace (c_disbanded c') with false by done. rewrite H1. constructor.
  - pose proof (addMember_wf c p zone Hwf Hroom H H0 H1) as Hwf'. simpl in Hwf'.
    unfold roster_of at 2. rewrite (wf_MemberIds _ Hwf'). 
    pose proof (addMember_ids c p zone Hwf) as Hi. simpl in Hi. rewrite Hi. simpl.
    rewrite <- (wf_MemberIds _ Hwf). apply (rs_join (roster_of (c_rec c))).
    + by rewrite <- Hids.
    + simpl. unfold full in *. zbool. rewrite (wf_MemberIds _ Hwf). unfold ids. by rewrite length_fmap.
  - destruct (removeMember_spec c p Hwf H) as
      [(Hi & -> & _)|(-> & Hwf' & Hi & _ & _ & _ & _ & Hl)].
    + apply (rs_last _ p). simpl. by rewrite (wf_MemberIds _ Hwf).
    + rewrite Hd. unfold roster_of at 2. rewrite (wf_MemberIds _ Hwf'), Hi, <- (wf_MemberIds _ Hwf).
      apply (rs_remove (roster_of (c_rec c))); simpl.
      * by rewrite (wf_MemberIds _ Hwf).
      * pose proof (wf_leader _ Hwf') as Hl'. rewrite Hi in Hl'. by rewrite (wf_MemberIds _ Hwf).
      * done.
  - apply (rs_leader (roster_of (c_rec c))). by rewrite <- Hids.
  - apply rs_disband.
  - constructor.
Qed.

(** While the match lock holds, the member list and the lock do not change. *)
Lemma effect_locked :
  locked c = true ->
  c_disbanded c' = false /\ tr_members (c_rec c') = tr_members (c_rec c) /\
  tr_leader_id (c_rec c') = tr_leader_id (c_rec c) /\
  tr_match_lock_token (c_rec c') = tr_match_lock_token (c_rec c) /\
  tr_match_lock_expire_at_ms (c_rec c') = tr_match_lock_expire_at_ms (c_rec c) /\
  tr_match_lock_roster (c_rec c') = tr_match_lock_roster (c_rec c).
Proof using Hfr Heff Hok.
  intros Hl. destruct Hfr. destruct Heff; unfold plain in *; destruct_and?; subst; simpl in *;
    try congruence; split_and!; try done; by rewrite H1.
Qed.

(** The stray caller of [leave] is the only extra leaver. *)
Lemma effect_extraLeft :
  c_extraLeft c' = [] \/
  exists p, c_extraLeft c' = [p] /\ p <> 0 /\ p ∉ ids (c_rec c) /\ c_rec c' = c_rec c /\
            CallerTeamId (c_op c) = tr_team_id (c_rec c).
Proof using Hfr Heff Hok.
  destruct Hfr. destruct Heff; unfold plain in *; destruct_and?; subst; simpl in *; try done;
    try (left; congruence).
  - left. unfold removeMember. destruct (keep_if _ _); simpl; [done|]. by destruct (_ =? _).
  - right. exists p. rewrite fr_extraLeft. done.
Qed.

(** At most one invite index entry is added, for an invitee of the new record. *)
Lemma effect_added :
  c_added c' = [] \/
  exists p e, c_added c' = [mkAdd p e] /\ p <> 0 /\ p ∈ (ti_invitee_id <$> tr_invites (c_rec c')).
Proof using Hfr Heff Hok.
  destruct Hfr. destruct Heff; unfold plain in *; destruct_and?; subst; simpl in *; try done;
    try (left; congruence).
  - destruct H0 as [?|(p & e & ? & Hp)]; [by left|right]. exists p, e. rewrite H1. split_and!; [done| |done].
    destruct H2 as (_ & _ & Hq). by apply Hq.
  - left. unfold removeMember. destruct (keep_if _ _); simpl; [done|]. by destruct (_ =? _).
Qed.
End effects.

(** * Theorems about the team rules

    The invariant, the refinement of the abstract roster, the match lock, the
    authority of the leader, the lazy transfer, the repair path and the
    lock/release round trip. Each theorem with hypotheses is followed by a
    witness that applies it to a concrete team. *)

(** ** Inverting an accepted operation *)
Lemma Apply_run op r now s cfg :
  Kind op <> OpCreate ->
  Apply op (Some r) now s cfg =
  match run_op (Kind op) (startCtx op r now s cfg) with
  | None => reject ErrInternal 0
  | Some c => finish c r
  end.
Proof. unfold Apply. by destruct (Kind op). Qed.

Lemma finish_code c r : d_Code (finish c r) = c_code c.
Proof.
  unfold finish. destruct (c_code c =? 0) eqn:Hz; zbool; [|done].
  by destruct (c_opChanged c), (c_appsExpired c), (c_invitesExpired c), (c_transferred c).
Qed.

Lemma Apply_inv op r now s cfg :
  Caller op <> 0 -> wf_record r -> Kind op <> OpCreate ->
  d_Code (Apply op (Some r) now s cfg) = 0 ->
  exists c', let c := startCtx op r now s cfg in
    run_op (Kind op) c = Some c' /\ op_effect c c' /\ c_code c' = 0 /\ same_frame c c' /\
    Apply op (Some r) now s cfg = finish c' r.
Proof.
  intros Hcl Hwf Hk. rewrite Apply_run by done.
  destruct (run_op _ _) as [c'|] eqn:Hr; [|done].
  rewrite finish_code. intros Hc'. exists c'. split_and!; try done; [|by eapply run_op_frame].
  eapply run_op_effect; [|by apply startCtx_wf|apply startCtx_fresh|exact Hr].
  by rewrite startCtx_op.
Qed.

(** [finish] on an accepted context. *)
Definition changes (c : ruleCtx) : bool :=
  c_opChanged c || (c_appsExpired c || c_invitesExpired c || c_transferred c).

Lemma finish_Changed c r : c_code c = 0 -> d_Changed (finish c r) = changes c.
Proof.
  intros Hc. unfold finish, changes. rewrite Hc. simpl.
  destruct (c_opChanged c); simpl; [done|].
  by destruct (c_appsExpired c), (c_invitesExpired c), (c_transferred c).
Qed.

Lemma finish_Record c r :
  c_code c = 0 -> changes c = true ->
  d_Record (finish c r) =
  if c_disbanded c then None else Some (set_members (c_rec c) (sortMembers (tr_members (c_rec c)))).
Proof.
  intros Hc. unfold finish, changes. rewrite Hc. simpl.
  destruct (c_opChanged c); simpl; [by destruct (c_disbanded c)|].
  destruct (c_appsExpired c), (c_invitesExpired c), (c_transferred c); simpl; try done;
    by destruct (c_disbanded c).
Qed.

Lemma finish_transferred c r :
  c_code c = 0 -> d_LeaderOfflineTransferred (finish c r) = c_transferred c.
Proof.
  intros Hc. unfold finish. rewrite Hc. simpl.
  by destruct (c_opChanged c), (c_appsExpired c), (c_invitesExpired c), (c_transferred c).
Qed.

Lemma finish_no_record c r : d_Changed (finish c r) = false -> d_Record (finish c r) = None.
Proof.
  unfold finish. destruct (negb (c_code c =? 0)); [done|].
  by destruct (c_opChanged c), (c_appsExpired c), (c_invitesExpired c), (c_transferred c).
Qed.

Lemma finish_record_code c r r' : d_Record (finish c r) = Some r' -> c_code c = 0.
Proof. unfold finish. by destruct (c_code c =? 0) eqn:Hz; zbool. Qed.

(** A context that reports no change kept the record and the leader. *)
Lemma effect_no_change c c' :
  op_effect c c' -> c_code c' = 0 -> c_opChanged c' = false -> c_rec c' = c_rec c.
Proof. intros []; unfold plain in *; destruct_and?; subst; simpl; intros; congruence. Qed.

Lemma startCtx_headroom op r now s cfg : headroom r -> headroom (c_rec (startCtx op r now s cfg)).
Proof. unfold headroom. by destruct (startCtx_same op r now s cfg) as (_ & -> & _). Qed.

Lemma startCtx_MemberIds op r now s cfg : MemberIds (c_rec (startCtx op r now s cfg)) = MemberIds r.
Proof. unfold MemberIds. by destruct (startCtx_same op r now s cfg) as (-> & _). Qed.

(** The record of a new team. *)
Lemma wf_new_team t p z z' now :
  p <> 0 ->
  wf_record (mkTeam t p z now [mkMember p z' now 1] [] [] 2 ""%string 0 []).
Proof.
  intros Hp. assert (forall q : Z, q ∉ ([] : list Z)) as Hnil by (intros q; apply not_elem_of_nil).
  constructor; simpl; unfold ids; csimpl; try done; auto using NoDup_nil_2, NoDup_singleton.
  - rewrite list_elem_of_singleton. congruence.
  - left.
  - repeat constructor.
  - repeat constructor; simpl; lia.
  - by intros q ?%Hnil.
  - by intros q ?%Hnil.
Qed.

(** C35: Whatever roster operation runs on a well-formed record (or none, for
    creation), the record it asks the store to write is well formed again: at
    most five distinct non-zero members in strict join order below
    [next_join_seq], a leader among them, and applications and invites within
    their quotas, without duplicates and never for a member. *)
Theorem Apply_preserves_wf op rec now s cfg r' :
  Caller op <> 0 ->
  (forall r, rec = Some r -> wf_record r /\ headroom r) ->
  d_Record (Apply op rec now s cfg) = Some r' -> wf_record r'.
Proof.
  intros Hcl Hrec Hd. destruct (decide (Kind op = OpCreate)) as [Hk|Hk].
  { unfold Apply, applyCreate in Hd. rewrite Hk in Hd. repeat split_if; simplify_eq/=.
    by apply wf_new_team. }
  destruct rec as [r|]; [|by unfold Apply in Hd; destruct (Kind op)].
  destruct (Hrec r eq_refl) as [Hwf Hroom].
  assert (d_Code (Apply op (Some r) now s cfg) = 0) as Hcode.
  { rewrite Apply_run in * by done. destruct (run_op _ _) as [c|]; [|done].
    rewrite finish_code. by eapply finish_record_code. }
  destruct (Apply_inv op r now s cfg Hcl Hwf Hk Hcode) as (c' & _ & Heff & Hc' & _ & Heq).
  rewrite Heq in Hd.
  assert (changes c' = true) as Hch.
  { rewrite <- (finish_Changed c' r Hc'). destruct (d_Changed _) eqn:E; [done|].
    apply finish_no_record in E. congruence. }
  rewrite finish_Record in Hd by done. destruct (c_disbanded c') eqn:Hdis; [done|].
  assert (wf_record (c_rec c')) as Hwf'.
  { eapply effect_wf; eauto using startCtx_wf, startCtx_fresh, startCtx_headroom. }
  rewrite wf_sort_id in Hd by done. by simplify_eq.
Qed.

(** C5: Refinement of the abstract roster. An accepted operation first may move
    the leadership to another member (the lazy transfer of an offline leader)
    and then performs exactly one step of the roster machine: nothing, a join at
    the end of the join order below the capacity, a removal that re-elects a
    remaining member only if the leader left, a transfer to a member, or the
    dissolution of the team. *)
Theorem Apply_refines_roster op r now s cfg :
  Caller op <> 0 -> wf_record r -> headroom r -> Kind op <> OpCreate ->
  let d := Apply op (Some r) now s cfg in
  d_Code d = 0 ->
  exists l,
    (if d_LeaderOfflineTransferred d then l ∈ MemberIds r else l = tr_leader_id r) /\
    roster_step (mkRoster l (MemberIds r))
      (if d_Changed d then roster_of <$> d_Record d else Some (roster_of r)).
Proof.
  intros Hcl Hwf Hroom Hk d Hcode.
  destruct (Apply_inv op r now s cfg Hcl Hwf Hk Hcode) as (c' & _ & Heff & Hc' & Hfrm & Heq).
  subst d. rewrite Heq. set (c := startCtx op r now s cfg) in *.
  rewrite finish_Changed, finish_transferred by done.
  exists (tr_leader_id (c_rec c)). split.
  { pose proof (startCtx_leader op r now s cfg Hwf) as Hl. fold c in Hl. simpl in Hl.
    destruct Hfrm as (_ & _ & _ & _ & ->). destruct (c_transferred c); [|done].
    rewrite elem_of_MemberIds. by destruct Hl. }
  assert (roster_of (c_rec c) = mkRoster (tr_leader_id (c_rec c)) (MemberIds r)) as Hro.
  { unfold roster_of. subst c. by rewrite startCtx_MemberIds. }
  rewrite <- Hro.
  assert (Hstep := effect_roster c c' (startCtx_wf _ _ _ _ _ Hwf) (startCtx_fresh _ _ _ _ _) Heff Hc'
                     (startCtx_headroom _ _ _ _ _ Hroom)).
  destruct (changes c') eqn:Hch.
  - rewrite finish_Record by done. destruct (c_disbanded c') eqn:Hdis; [done|]. csimpl.
    rewrite wf_sort_id; [done|].
    eapply effect_wf; eauto using startCtx_wf, startCtx_fresh, startCtx_headroom.
  - unfold changes in Hch. zbool.
    pose proof (startCtx_leader op r now s cfg Hwf) as Hl. fold c in Hl. simpl in Hl.
    destruct Hfrm as (_ & _ & _ & _ & Htr). rewrite <- Htr in Hl.
    replace (c_transferred c') with false in Hl by done.
    rewrite Hro, Hl. constructor.
Qed.

(** ** The commit sets of a decision *)
Lemma finish_sets c r :
  c_code c = 0 -> changes c = true ->
  let rec := if c_disbanded c then c_rec c
             else set_members (c_rec c) (sortMembers (tr_members (c_rec c))) in
  let newMembers := if c_disbanded c then ∅ else memberSet rec in
  d_Joined (finish c r) = keep_if (fun id => negb (bool_decide (id ∈ memberSet r))) (MemberIds rec) /\
  d_Kept (finish c r) = keep_if (fun id => bool_decide (id ∈ memberSet r)) (MemberIds rec) /\
  d_Left (finish c r) =
    keep_if (fun id => negb (bool_decide (id ∈ newMembers))) (MemberIds r)
    ++ keep_if (fun id => negb (bool_decide (id ∈ newMembers)) && negb (bool_decide (id ∈ memberSet r)))
         (c_extraLeft c) /\
  d_Disbanded (finish c r) = c_disbanded c /\
  d_InvitesAdded (finish c r) = c_added c /\
  d_InvitesRemoved (finish c r) =
    removed_invites (list_to_set (ti_invitee_id <$> tr_invites (c_rec c)) ∪
                     list_to_set (ia_InviteeId <$> c_added c)) (tr_invites r).
Proof.
  intros Hc. unfold finish, changes. rewrite Hc. simpl.
  destruct (c_opChanged c); simpl; [done|].
  by destruct (c_appsExpired c), (c_invitesExpired c), (c_transferred c).
Qed.

Lemma elem_of_removed_invites skip l p :
  p ∈ removed_invites skip l <-> p ∈ (ti_invitee_id <$> l) /\ p ∉ skip.
Proof.
  revert skip. induction l as [|i l IH]; intros skip; csimpl; [set_solver|].
  case_bool_decide as Hin; rewrite ?elem_of_cons, IH.
  - split; [naive_solver|]. intros [[->|?] ?]; done.
  - rewrite not_elem_of_union, not_elem_of_singleton.
    destruct (decide (p = ti_invitee_id i)) as [->|]; naive_solver.
Qed.

Lemma NoDup_removed_invites skip l : NoDup (removed_invites skip l).
Proof.
  revert skip. induction l as [|i l IH]; intros skip; simpl; [constructor|].
  case_bool_decide; [done|]. constructor; [|done].
  rewrite elem_of_removed_invites, not_elem_of_union, not_elem_of_singleton. naive_solver.
Qed.

(** While the match lock is active no roster operation touches the roster: an
    accepted operation neither dissolves the team nor adds or removes a member,
    and the lock's token, deadline and roster stay as they were, so a battle that
    was started on the locked roster still matches the team. *)
Theorem locked_roster_frozen op r now s cfg :
  Caller op <> 0 -> wf_record r -> headroom r -> Kind op <> OpCreate ->
  MatchLockActive r now = true ->
  let d := Apply op (Some r) now s cfg in
  d_Code d = 0 -> d_Changed d = true ->
  exists r', d_Record d = Some r' /\ MemberIds r' = MemberIds r /\ d_Joined d = [] /\
    (forall p, p ∈ d_Left d -> p ∉ MemberIds r) /\ d_Disbanded d = false /\
    tr_match_lock_token r' = tr_match_lock_token r /\
    tr_match_lock_expire_at_ms r' = tr_match_lock_expire_at_ms r /\
    tr_match_lock_roster r' = tr_match_lock_roster r.
Proof.
  intros Hcl Hwf Hroom Hk Hlock d Hcode Hchg.
  destruct (Apply_inv op r now s cfg Hcl Hwf Hk Hcode) as (c' & _ & Heff & Hc' & _ & Heq).
  subst d. rewrite Heq in *. set (c := startCtx op r now s cfg) in *.
  rewrite finish_Changed in Hchg by done.
  destruct (effect_locked c c' (startCtx_fresh _ _ _ _ _) Heff Hc') as (Hd & Hm & _ & Ht & He & Hr);
    [by unfold c; rewrite startCtx_locked|].
  destruct (startCtx_same op r now s cfg) as (Hm0 & _ & _ & Ht0 & He0 & Hr0 & _).
  destruct (finish_sets c' r Hc' Hchg) as (HJ & HK & HL & HD & _).
  rewrite finish_Record by done. rewrite Hd in *.
  assert (wf_record (c_rec c')) as Hwf'.
  { eapply effect_wf; eauto using startCtx_wf, startCtx_fresh, startCtx_headroom. }
  rewrite wf_sort_id in * by done. subst c.
  assert (tr_members (c_rec c') = tr_members r) as Hmm by congruence.
  assert (MemberIds (c_rec c') = MemberIds r) as HM by (unfold MemberIds; congruence).
  assert (memberSet (c_rec c') = memberSet r) as HS by (unfold memberSet; congruence).
  exists (c_rec c'). split_and!; try congruence.
  - rewrite HJ, HM. apply keep_if_none. intros p Hp.
    apply negb_false_iff, bool_decide_eq_true, elem_of_memberSet. by rewrite <- elem_of_MemberIds.
  - intros p. rewrite HL, elem_of_app, !elem_of_keep_if, HS. intros [[_ Hp]|[_ Hp]]; zbool;
      rewrite elem_of_MemberIds, <- elem_of_memberSet; done.
Qed.

(** A concrete team: leader 1, member 2, one applicant, one invitee. *)
Definition demo : TeamRecord :=
  mkTeam 77 1 9 1000 [mkMember 1 9 1000 1; mkMember 2 9 1500 2]
    [mkApplication 3 9 1600 200000] [mkInvite 4 1 9 1700 100000] 3 ""%string 0 [].

Lemma demo_wf : wf_record demo.
Proof.
  constructor; simpl; unfold ids; simpl; try (vm_compute; done);
    try (by apply (bool_decide_unpack _); vm_compute).
  - repeat constructor.
  - intros p Hp Hq. revert Hp Hq. rewrite !elem_of_cons, !elem_of_nil. lia.
  - intros p Hp Hq. revert Hp Hq. rewrite !elem_of_cons, !elem_of_nil. lia.
Qed.

Definition demo_locked : TeamRecord := set_match_lock demo "battle-1"%string 50000 [1; 2].

Lemma demo_locked_wf : wf_record demo_locked.
Proof. destruct demo_wf. by constructor. Qed.

Lemma Apply_preserves_wf_witness :
  wf_record demo /\ exists r', d_Record (Apply (HandleApplicationOp 1 3 true) (Some demo) 2000 ∅ (mkCfg false)) = Some r'
    /\ wf_record r' /\ MemberIds r' = [1; 2; 3].
Proof.
  split; [exact demo_wf|]. eexists. split; [vm_compute; reflexivity|]. split; [|reflexivity].
  apply (Apply_preserves_wf (HandleApplicationOp 1 3 true) (Some demo) 2000 ∅ (mkCfg false)).
  - done.
  - intros r [= <-]. split; [exact demo_wf|done].
  - vm_compute. reflexivity.
Defined.

Lemma Apply_refines_roster_witness :
  exists l, l = 1 /\
    roster_step (mkRoster l [1; 2]) (Some (mkRoster 2 [2])).
Proof.
  destruct (Apply_refines_roster (LeaveOp 1) demo 2000 ∅ (mkCfg false)) as (l & Hl & Hs);
    [done|exact demo_wf|done|done|reflexivity|].
  exists l. split; [exact Hl|]. exact Hs.
Defined.

Lemma locked_roster_frozen_witness :
  exists r', d_Record (Apply (InviteOp 1 8 9) (Some demo_locked) 2000 ∅ (mkCfg false)) = Some r' /\
    MemberIds r' = [1; 2] /\ tr_match_lock_roster r' = [1; 2].
Proof.
  destruct (locked_roster_frozen (InviteOp 1 8 9) demo_locked 2000 ∅ (mkCfg false))
    as (r' & Hr & Hm & _ & _ & _ & _ & _ & Hro);
    [done|exact demo_locked_wf|done|done|reflexivity|reflexivity|reflexivity|].
  exists r'. split; [exact Hr|]. split; [exact Hm|exact Hro].
Defined.

(** ** Who may act *)

(** The leader an operation sees: after pruning and lazy transfer. *)
Definition acting_leader (r : TeamRecord) (now : Z) (s : Sessions) : Z :=
  tr_leader_id (lazyTransferLeader (pruneExpired r now).1.1 s).1.

Lemma isLeader_start op r now s cfg p :
  isLeader (startCtx op r now s cfg) p = true -> p = acting_leader r now s.
Proof. unfold isLeader, acting_leader. rewrite startCtx_rec. intros. zbool. done. Qed.

(** Only the leader manages the team: approving or rejecting an application,
    inviting, kicking and disbanding are accepted only from the player who leads
    the team once an offline leader has been replaced, and a transfer of the
    leadership only from that player or when its target already leads. *)
Theorem leader_authority op r now s cfg :
  d_Code (Apply op (Some r) now s cfg) = 0 ->
  (Kind op ∈ [OpHandleApplication; OpInvite; OpKick; OpDisband] -> Caller op = acting_leader r now s) /\
  (Kind op = OpTransferLeader ->
     Caller op = acting_leader r now s \/ Target op = acting_leader r now s).
Proof.
  intros Hcode.
  assert (Hfail : forall c code param, fresh c -> code <> 0 -> c_code (fail c code param) = 0 -> False).
  { intros c code param Hf Hn. by apply fail_code; [apply (fr_code _ Hf)|]. }
  pose proof (startCtx_fresh op r now s cfg) as Hfr.
  split.
  - rewrite !elem_of_cons, elem_of_nil. intros [Hk|[Hk|[Hk|[Hk|[]]]]];
      rewrite Apply_run, Hk in Hcode by congruence; simpl in Hcode; rewrite finish_code in Hcode;
      unfold handleApplication, invite, kick, disband in Hcode; rewrite startCtx_op in Hcode;
      (destruct (isLeader _ (Caller op)) eqn:Hl;
       [by apply isLeader_start in Hl | exfalso; eapply Hfail; [exact Hfr| |exact Hcode]; done]).
  - intros Hk. rewrite Apply_run, Hk in Hcode by congruence. simpl in Hcode. rewrite finish_code in Hcode.
    unfold transferLeader in Hcode. rewrite startCtx_op in Hcode.
    destruct (Target op =? 0); [exfalso; eapply Hfail; [exact Hfr| |exact Hcode]; done|].
    destruct (Target op =? Caller op); [exfalso; eapply Hfail; [exact Hfr| |exact Hcode]; done|].
    destruct (isLeader _ (Target op)) eqn:Ht; [right; by apply isLeader_start in Ht|].
    destruct (isLeader _ (Caller op)) eqn:Hl; [left; by apply isLeader_start in Hl|].
    exfalso. eapply Hfail; [exact Hfr| |exact Hcode]. done.
Qed.

Lemma leader_authority_witness : Caller (KickOp 1 2) = acting_leader demo 2000 ∅.
Proof.
  apply (leader_authority (KickOp 1 2) demo 2000 ∅ (mkCfg false)); [reflexivity|].
  apply (bool_decide_unpack _). reflexivity.
Defined.

(** ** Refresh and the offline leader *)

(** A refresh replaces the leader exactly when the leader's session is gone and
    some other member is online; the new leader is then an online member with the
    least join sequence among the online ones. *)
Theorem refresh_replaces_offline_leader p r now s cfg :
  wf_record r ->
  let d := Apply (RefreshOp p) (Some r) now s cfg in
  d_Code d = 0 /\
  (d_LeaderOfflineTransferred d = true <->
     session s (tr_leader_id r) = SessionAbsent /\
     exists m, m ∈ tr_members r /\ tm_player_id m <> tr_leader_id r /\
               session s (tm_player_id m) = SessionOnline) /\
  (d_LeaderOfflineTransferred d = true ->
     exists r' m, d_Record d = Some r' /\ m ∈ tr_members r /\ tr_leader_id r' = tm_player_id m /\
       session s (tm_player_id m) = SessionOnline /\
       forall m', m' ∈ tr_members r -> tm_player_id m' <> tr_leader_id r ->
         session s (tm_player_id m') = SessionOnline -> tm_join_seq m <= tm_join_seq m').
Proof.
  intros Hwf d. subst d. rewrite Apply_run by done. simpl. set (c := startCtx _ _ _ _ _).
  assert (c_code c = 0) as Hc by apply startCtx_fresh.
  rewrite finish_code, finish_transferred by done.
  assert (Hrec : c_rec c = (lazyTransferLeader (pruneExpired r now).1.1 s).1) by apply startCtx_rec.
  assert (Htr : c_transferred c = (lazyTransferLeader (pruneExpired r now).1.1 s).2).
  { subst c. unfold startCtx. simpl. by destruct (lazyTransferLeader _ _). }
  destruct (lazyTransferLeader _ s) as [r1 b] eqn:He. simpl in Hrec, Htr. rewrite Htr.
  split; [done|]. split; [split|].
  - intros ->. apply lazyTransfer_spec in He as [[? _]|(_ & m & Hm & Hne & Ha & Ho & _)]; [done|].
    simpl in *. eauto.
  - intros [Ha (m & Hm & Hne & Ho)].
    destruct b; [done|]. exfalso. revert He. apply (lazyTransfer_needed _ _ _ m); try done.
    + apply (wf_pos _ Hwf).
    + apply (wf_leader _ Hwf).
  - intros ->. apply lazyTransfer_spec in He as [[? _]|(_ & m & Hm & Hne & Ha & Ho & -> & Hmin)]; [done|].
    assert (changes c = true) as Hch by (unfold changes; by rewrite Htr, !orb_true_r).
    rewrite finish_Record by done.
    replace (c_disbanded c) with false by (symmetry; apply startCtx_fresh).
    eexists _, m. split; [done|]. simpl. rewrite Hrec. simpl. simpl in *. split_and!; eauto.
Qed.

Definition demo_sessions : Sessions := {[ 1 := SessionAbsent; 2 := SessionOnline ]}.

Lemma refresh_replaces_offline_leader_witness :
  d_LeaderOfflineTransferred (Apply (RefreshOp 2) (Some demo) 2000 demo_sessions (mkCfg false)) = true /\
  exists r' m, d_Record (Apply (RefreshOp 2) (Some demo) 2000 demo_sessions (mkCfg false)) = Some r' /\
    m ∈ tr_members demo /\ tr_leader_id r' = tm_player_id m.
Proof.
  destruct (refresh_replaces_offline_leader 2 demo 2000 demo_sessions (mkCfg false) demo_wf) as (_ & _ & H).
  split; [reflexivity|].
  destruct (H eq_refl) as (r' & m & Hr & Hm & Hl & _). exists r', m. split; [exact Hr|]. split; [exact Hm|exact Hl].
Defined.

(** ** Applications *)

(** What [apply] makes of the live applications. *)
Definition application_spec (c : ruleCtx) (caller zone now : Z) (apps : list TeamApplicationRecord) : Prop :=
  (exists a, a ∈ apps /\ ta_player_id a = caller /\ ta_zone_id a = zone /\
             ta_expire_at_ms a = now +64 ApplicationTTLMs) /\
  Z.of_nat (length apps) <= MaxApplications /\
  (forall a b, a ∈ tr_applications (c_rec c) -> ta_player_id a <> caller -> a ∉ apps ->
     b ∈ apps -> ta_player_id b <> caller -> older ta_applied_at_ms ta_player_id a b).

Lemma apply_spec c op caller zone now :
  wf_record (c_rec c) -> c_code c = 0 -> c_op c = op -> c_now c = now ->
  Caller op = caller -> CallerZone op = zone -> c_code (apply c) = 0 ->
  exists apps, c_rec (apply c) = set_applications (c_rec c) apps /\
    c_disbanded (apply c) = c_disbanded c /\ changes (apply c) = true /\
    apps = tr_applications (c_rec (apply c)) /\ application_spec c caller zone now apps.
Proof.
  intros Hwf Hc0 Hop Hnow Hcl Hz. unfold apply. rewrite Hop, Hnow, Hcl, Hz.
  assert (Hfail : forall code, code <> 0 -> c_code (fail c code 0) = 0 -> False).
  { intros code Hn. by apply fail_code. }
  destruct (_ || _); [intros []%Hfail; done|].
  destruct (zoneCheck _ _) eqn:Hzc; [intros ?; by apply zoneCheck_fail in Hzc|].
  destruct (full c); [intros []%Hfail; done|]. intros _.
  destruct Hwf. destruct (findApplication _ _) as [a0|] eqn:Hf.
  - eexists. split_and!; try reflexivity. split_and!.
    + pose proof (find_first_Some _ _ _ Hf) as [_ Heq]. zbool. unfold findApplication in Hf.
      eexists. split; [by eapply find_first_update|]. done.
    + by rewrite length_update_first.
    + intros a b Ha Hne Hni. exfalso. apply Hni. apply elem_of_update_first_keep; [done|].
      by apply Z.eqb_neq.
  - apply findApplication_None in Hf.
    set (x := mkApplication caller zone now (now +64 ApplicationTTLMs)).
    destruct (evict_add ta_applied_at_ms ta_player_id MaxApplications (tr_applications (c_rec c)) x)
      as (? & ? & Hin & _); [done..|].
    eexists. split_and!; try reflexivity. split_and!; [by exists x|done|].
    intros a b Ha Hne Hni Hb Hnb. eapply evict_loop_oldest; [| |exact Hni|exact Hb|done].
    + simpl. rewrite fmap_app. apply NoDup_app. split_and!; [done| |apply NoDup_singleton].
      csimpl. intros p Hp ->%list_elem_of_singleton. done.
    + apply elem_of_app. by left.
Qed.

(** An accepted application is in the new record with a fresh deadline, the
    quota of ten holds, and an application that was dropped either had expired or
    was older (by arrival time, then player id) than every other one kept. *)
Theorem application_quota caller zone t r now s cfg r' :
  caller <> 0 -> wf_record r ->
  d_Record (Apply (mkOp OpApply caller t zone 0 0 0 false) (Some r) now s cfg) = Some r' ->
  (exists a, a ∈ tr_applications r' /\ ta_player_id a = caller /\ ta_zone_id a = zone /\
             ta_expire_at_ms a = now +64 ApplicationTTLMs) /\
  Z.of_nat (length (tr_applications r')) <= MaxApplications /\
  (forall a b, a ∈ tr_applications r -> now < ta_expire_at_ms a -> ta_player_id a <> caller ->
     a ∉ tr_applications r' -> b ∈ tr_applications r' -> ta_player_id b <> caller ->
     older ta_applied_at_ms ta_player_id a b).
Proof.
  intros Hcl Hwf Hd. set (op := mkOp _ _ _ _ _ _ _ _) in *.
  rewrite Apply_run in Hd by done. simpl in Hd.
  set (c := startCtx op r now s cfg) in *.
  assert (Hop : c_op c = op) by apply startCtx_op. assert (Hnow : c_now c = now) by apply startCtx_now.
  pose proof (startCtx_wf op r now s cfg Hwf) as Hwfc. fold c in Hwfc.
  assert (Happs : tr_applications (c_rec c) = keep_if (app_live now) (tr_applications r)).
  { subst c. rewrite startCtx_rec. destruct (lazyTransferLeader _ s) as [r1 b] eqn:He. simpl.
    by apply lazyTransfer_spec in He as [[_ ->]|(_ & m & _ & _ & _ & _ & -> & _)]. }
  pose proof (finish_record_code _ _ _ Hd) as Hcode.
  pose proof (fr_code _ (startCtx_fresh op r now s cfg)) as Hc0. fold c in Hc0.
  assert (Happly : exists apps, c_rec (apply c) = set_applications (c_rec c) apps /\
            c_disbanded (apply c) = c_disbanded c /\ changes (apply c) = true /\
            apps = tr_applications (c_rec (apply c)) /\ application_spec c caller zone now apps).
  { by apply (apply_spec c op). }
  destruct Happly as (apps & Hrec & Hdis & Hch & Heq & (Hin & Hlen & Hold)).
  pose proof (fr_disbanded _ (startCtx_fresh op r now s cfg)) as Hd0. fold c in Hd0.
  rewrite finish_Record, Hdis, Hd0 in Hd by done.
  injection Hd as <-. simpl. rewrite <- Heq. split_and!; [done|done|].
  intros a b Ha Hlive Hna Hdrop Hb Hnb. apply Hold; try done. rewrite Happs.
  apply elem_of_keep_if. split; [done|]. by apply Z.ltb_lt.
Qed.

Lemma application_quota_witness :
  exists r', d_Record (Apply (mkOp OpApply 8 0 9 0 0 0 false) (Some demo) 2000 ∅ (mkCfg false)) = Some r' /\
    Z.of_nat (length (tr_applications r')) <= MaxApplications.
Proof.
  eexists. split; [vm_compute; reflexivity|].
  eapply (application_quota 8 9 0 demo 2000 ∅ (mkCfg false)); [done|exact demo_wf|vm_compute; reflexivity].
Defined.
