(* ===== verification/TeamMatch.v ===== *)
(** * The match lock and the repair of a record

    Theorems about [LockMatch], [ReleaseMatchLock] and [RepairRemoveMembers]. *)

From stdpp Require Import base list gmap sorting strings.
From Stdlib Require Import ZArith Lia.
From S2P Require Import Prelude TeamRecord TeamRules TeamSpec TeamThms.
Local Open Scope Z_scope.
Local Open Scope go_scope.

(** ** [sameIdSet] is equality of multisets *)
Definition counts_of (m : gmap Z Z) (a : list Z) : Prop :=
  forall id, default 0 (m !! id) = Z.of_nat (count_occ Z.eq_dec a id).

Lemma count_ids_spec a : counts_of (count_ids a) a.
Proof.
  unfold count_ids.
  assert (H : forall l m, counts_of m l ->
    counts_of (foldl (fun m id => <[id := default 0 (m !! id) + 1]> m) m a) (l ++ a)).
  { induction a as [|x a IH]; intros l m Hm; simpl; [by rewrite app_nil_r|].
    replace (l ++ x :: a) with ((l ++ [x]) ++ a) by (by rewrite <- app_assoc).
    apply IH. intros id. rewrite count_occ_app. simpl.
    destruct (decide (x = id)) as [->|Hne].
    - rewrite lookup_insert_eq. simpl. rewrite Hm. destruct (Z.eq_dec id id); [lia|done].
    - rewrite lookup_insert_ne by done. rewrite Hm. destruct (Z.eq_dec x id); [done|lia]. }
  apply (H [] ∅). intros id. by rewrite lookup_empty.
Qed.

Lemma counts_of_perm m a b : a ≡ₚ b -> counts_of m a -> counts_of m b.
Proof. intros Hp Hc id. rewrite Hc. by rewrite (proj1 (Permutation_count_occ Z.eq_dec a b) Hp id). Qed.

Lemma counts_of_take m a id :
  counts_of m (id :: a) -> counts_of (<[id := default 0 (m !! id) - 1]> m) a.
Proof.
  intros Hc q. specialize (Hc q) as Hq. simpl in Hq. destruct (decide (id = q)) as [->|Hne].
  - rewrite lookup_insert_eq. simpl. destruct (Z.eq_dec q q); [lia|done].
  - rewrite lookup_insert_ne by done. destruct (Z.eq_dec id q); [done|lia].
Qed.

Lemma consume_ids_spec m a b :
  counts_of m a -> length a = length b -> consume_ids m b = true <-> a ≡ₚ b.
Proof.
  revert m a. induction b as [|x b IH]; intros m a Hc Hlen; simpl.
  { destruct a; [done|done]. }
  destruct (_ =? 0) eqn:Hz; zbool.
  - rewrite Hc in Hz. split; [done|]. intros Hp. exfalso.
    assert (In x a) as Hin by (apply list_elem_of_In; rewrite Hp; left).
    apply (count_occ_In Z.eq_dec) in Hin. lia.
  - assert (In x a) as Hin by (apply (count_occ_In Z.eq_dec); rewrite Hc in Hz; lia).
    apply list_elem_of_In, elem_of_Permutation in Hin as [a' Ha'].
    rewrite (IH _ a').
    + rewrite Ha'. split; [by intros ->|apply Permutation_cons_inv].
    + eapply counts_of_take, counts_of_perm; [exact Ha'|done].
    + apply Permutation_length in Ha'. simpl in *. lia.
Qed.

Lemma sameIdSet_spec a b : sameIdSet a b = true <-> a ≡ₚ b.
Proof.
  unfold sameIdSet. rewrite andb_true_iff, bool_decide_eq_true. split.
  - intros [Hl Hc]. by apply (consume_ids_spec (count_ids a)); [apply count_ids_spec|..].
  - intros Hp. split; [by apply Permutation_length|].
    apply (consume_ids_spec _ a); [apply count_ids_spec|by apply Permutation_length|done].
Qed.

(** ** Locking *)
Lemma LockMatch_inv rec caller tok roster exp now :
  d_Code (LockMatch rec caller tok roster exp now) = 0 ->
  exists r, rec = Some r /\ caller <> 0 /\ tr_leader_id r = caller /\ MatchLockActive r now = false /\
    tok <> ""%string /\ now < exp /\ roster ≡ₚ MemberIds r /\
    exists ae ie, LockMatch rec caller tok roster exp now =
      finish (markOp (newCtx (mkOp OpOther caller 0 0 0 0 0 false)
        (set_match_lock (pruneExpired r now).1.1 tok exp roster) now ∅ (mkCfg false) ae ie false)
        REASON_MATCH_STARTED caller) r.
Proof.
  unfold LockMatch, CheckMatchStart. destruct rec as [r|]; [|done].
  destruct (_ || _) eqn:Hl; [done|]. destruct (MatchLockActive r now) eqn:Ha; [done|].
  destruct (bool_decide _ || _) eqn:Ht; [done|]. destruct (sameIdSet _ _) eqn:Hs; [|done].
  intros _. exists r. zbool. apply sameIdSet_spec in Hs. split_and!; try done. by eexists _, _.
Qed.

Lemma MatchLockActive_set r tok exp roster t :
  tok <> ""%string -> exp <> 0 ->
  MatchLockActive (set_match_lock r tok exp roster) t = (t <? exp).
Proof.
  intros Ht He. unfold MatchLockActive. simpl. rewrite bool_decide_eq_false_2 by done. simpl.
  by rewrite (proj2 (Z.eqb_neq _ _) He).
Qed.

Lemma wf_set_match_lock r tok exp roster : wf_record r -> wf_record (set_match_lock r tok exp roster).
Proof. intros []. by constructor. Qed.

(** A successful match lock was taken by the leader of an unlocked team on
    exactly its member set; the locked record keeps the members, is well formed
    and stays locked until its deadline and not beyond. *)
Theorem match_lock_taken rec caller tok roster exp now :
  0 <= now -> (forall r, rec = Some r -> wf_record r) ->
  d_Code (LockMatch rec caller tok roster exp now) = 0 ->
  exists r r', rec = Some r /\ tr_leader_id r = caller /\ MatchLockActive r now = false /\
    d_Record (LockMatch rec caller tok roster exp now) = Some r' /\ wf_record r' /\
    MemberIds r' = MemberIds r /\ tr_match_lock_roster r' ≡ₚ MemberIds r' /\
    forall t, MatchLockActive r' t = (t <? exp).
Proof.
  intros Hnow Hrec Hcode. destruct (LockMatch_inv _ _ _ _ _ _ Hcode)
    as (r & -> & Hcl & Hlead & Hun & Htok & Hexp & Hperm & ae & ie & Heq).
  specialize (Hrec r eq_refl). rewrite Heq. rewrite finish_Record by done. simpl.
  assert (Hwf' : wf_record (set_match_lock (pruneExpired r now).1.1 tok exp roster)).
  { by apply wf_set_match_lock, wf_prune. }
  pose proof (wf_sort_id _ Hwf') as Hs. simpl in Hs. rewrite Hs.
  eexists _, _. split_and!; try done.
  intros t. apply MatchLockActive_set; [done|lia].
Qed.

Lemma match_lock_taken_witness :
  exists r r', Some demo = Some r /\ d_Record (LockMatch (Some demo) 1 "b"%string [1; 2] 9000 2000) = Some r' /\
    MatchLockActive r' 2500 = true.
Proof.
  destruct (match_lock_taken (Some demo) 1 "b"%string [1; 2] 9000 2000)
    as (r & r' & Hr & _ & _ & Hr' & _ & _ & _ & Hact);
    [lia|intros r [= <-]; exact demo_wf|reflexivity|].
  exists r, r'. split; [exact Hr|]. split; [exact Hr'|]. rewrite Hact. reflexivity.
Defined.

(** ** Releasing *)
Lemma keep_if_later {A} (f : Z -> A -> bool) (l : list A) t0 t1 :
  (forall x, f t1 x = true -> f t0 x = true) -> keep_if (f t1) (keep_if (f t0) l) = keep_if (f t1) l.
Proof.
  intros Hf. induction l as [|x l IH]; simpl; [done|].
  destruct (f t0 x) eqn:H0; simpl; rewrite IH; [done|].
  destruct (f t1 x) eqn:H1; [|done]. apply Hf in H1. congruence.
Qed.

(** Pruning at a later time absorbs an earlier pruning. *)
Lemma pruneExpired_later r t0 t1 :
  t0 <= t1 -> (pruneExpired (pruneExpired r t0).1.1 t1).1.1 = (pruneExpired r t1).1.1.
Proof.
  intros Ht. unfold pruneExpired. simpl. destruct r; unfold set_invites, set_applications; simpl.
  f_equal; apply (keep_if_later _ _ t0 t1); unfold app_live, invite_live; intros x Hx; zbool;
    apply Z.ltb_lt; lia.
Qed.

(** Locking and then releasing with the lock's token gives back the team: the
    record is the original one without its expired applications and invites and
    with no lock, the members all kept. A release with another token, or after
    the deadline, writes nothing. *)
Theorem match_lock_roundtrip r caller tok roster exp now r1 tok' ok t s :
  0 <= now <= t -> wf_record r ->
  session s (tr_leader_id r) <> SessionAbsent ->
  d_Code (LockMatch (Some r) caller tok roster exp now) = 0 ->
  d_Record (LockMatch (Some r) caller tok roster exp now) = Some r1 ->
  let d := ReleaseMatchLock (Some r1) tok' ok t s in
  (tok' = tok /\ t < exp ->
     d_Record d = Some (set_match_lock (pruneExpired r t).1.1 ""%string 0 []) /\
     d_Joined d = [] /\ d_Left d = []) /\
  (~ (tok' = tok /\ t < exp) -> d = noDecision).
Proof.
  intros Ht Hwf Hsess Hcode Hr1 d. destruct (LockMatch_inv _ _ _ _ _ _ Hcode)
    as (r0 & [= <-] & Hcl & Hlead & Hun & Htok & Hexp & Hperm & ae & ie & Heq).
  assert (Hwf1 : wf_record (set_match_lock (pruneExpired r now).1.1 tok exp roster)).
  { by apply wf_set_match_lock, wf_prune. }
  rewrite Heq, finish_Record in Hr1 by done. cbn [c_rec c_disbanded markOp newCtx] in Hr1.
  rewrite (wf_sort_id _ Hwf1) in Hr1. apply (inj Some) in Hr1 as <-. subst d. unfold ReleaseMatchLock.
  rewrite MatchLockActive_set by (done || lia). cbn [tr_match_lock_token set_match_lock].
  split.
  - intros [-> Hlt]. rewrite bool_decide_eq_false_2 by done.
    rewrite bool_decide_eq_true_2 by done. rewrite (proj2 (Z.ltb_lt _ _) Hlt). cbn [orb negb].
    set (r1 := set_match_lock (pruneExpired r now).1.1 tok exp roster) in *.
    assert (Hlazy : lazyTransferLeader (pruneExpired r1 t).1.1 s = ((pruneExpired r1 t).1.1, false)).
    { destruct (lazyTransferLeader _ s) as [r2 b] eqn:He.
      apply lazyTransfer_spec in He as [[-> ->]|(_ & m & _ & _ & Ha & _)]; [done|].
      simpl in Ha. congruence. }
    cbv zeta. set (c0 := startCtx zeroOp r1 t s (mkCfg false)).
    assert (Hfr : fresh c0) by apply startCtx_fresh. destruct Hfr.
    assert (Hc0 : c_rec c0 = (pruneExpired r1 t).1.1) by (subst c0; by rewrite startCtx_rec, Hlazy).
    set (c := markOp _ _ _).
    assert (Hwf2 : wf_record (set_match_lock (pruneExpired r t).1.1 ""%string 0 [])).
    { by apply wf_set_match_lock, wf_prune. }
    assert (Hcr : c_rec c = set_match_lock (pruneExpired r t).1.1 ""%string 0 []).
    { change (c_rec c) with (set_match_lock (c_rec c0) ""%string 0 []).
      rewrite Hc0, <- (pruneExpired_later r now t) by lia. done. }
    assert (Hids : ids (set_match_lock (pruneExpired r t).1.1 ""%string 0 []) = ids r1) by done.
    destruct (finish_sets c r1 fr_code eq_refl) as (HJ & _ & HL & _).
    rewrite HJ, HL, finish_Record by done. change (c_disbanded c) with (c_disbanded c0).
    change (c_extraLeft c) with (c_extraLeft c0).
    rewrite fr_disbanded, fr_extraLeft, Hcr, wf_sort_id by done.
    split_and!; [done|..].
    + apply keep_if_none. intros p. rewrite elem_of_MemberIds, Hids. intros Hp'.
      by apply negb_false_iff, bool_decide_eq_true, elem_of_memberSet.
    + simpl. rewrite app_nil_r. apply keep_if_none. intros p. rewrite elem_of_MemberIds. intros Hp'.
      by apply negb_false_iff, bool_decide_eq_true, elem_of_memberSet.
  - intros Hno. destruct (_ || _) eqn:Hb; [done|]. exfalso. apply Hno. by zbool.
Qed.

Lemma match_lock_roundtrip_witness :
  d_Record (ReleaseMatchLock (d_Record (LockMatch (Some demo) 1 "b"%string [1; 2] 9000 2000)) "b"%string true 3000 ∅)
  = Some demo.
Proof.
  eapply (match_lock_roundtrip demo 1 "b"%string [1; 2] 9000 2000 _ "b"%string true 3000 ∅);
    [lia|exact demo_wf|vm_compute; done|reflexivity|reflexivity|split; [reflexivity|lia]].
Defined.

(** ** Repairing a record *)

(** The members that stay when [l] is removed. *)
Definition survivors (l : list Z) (members : list Z) : list Z :=
  keep_if (fun p => negb (bool_decide (p ∈ l))) members.

Lemma survivors_cons_out p l ms : p ∉ ms -> survivors (p :: l) ms = survivors l ms.
Proof.
  unfold survivors. intros Hp. induction ms as [|q ms IH]; simpl; [done|].
  apply not_elem_of_cons in Hp as [Hq Hp]. rewrite IH by done.
  rewrite (bool_decide_ext (q ∈ p :: l) (q ∈ l)); [done|]. set_solver.
Qed.

Lemma survivors_cons p l ms : survivors (p :: l) ms = survivors l (without p ms).
Proof.
  unfold survivors, without. induction ms as [|q ms IH]; simpl; [done|].
  destruct (Z.eqb_spec q p) as [->|Hq]; simpl.
  - rewrite bool_decide_eq_true_2 by left. done.
  - rewrite (bool_decide_ext (q ∈ p :: l) (q ∈ l)) by set_solver. by rewrite IH.
Qed.

Lemma removeId_perm a b p : a ≡ₚ b -> removeId a p ≡ₚ without p b.
Proof.
  unfold removeId, without. induction 1; simpl; repeat case_match; eauto using Permutation.
Qed.

(** Everything of a context but its record, its revoked list and the
    dissolved flag. *)
Definition same_books (c c' : ruleCtx) : Prop :=
  c_code c' = c_code c /\ c_extraLeft c' = c_extraLeft c /\ c_added c' = c_added c /\
  c_opChanged c' = c_opChanged c /\ c_appsExpired c' = c_appsExpired c /\
  c_invitesExpired c' = c_invitesExpired c /\ c_transferred c' = c_transferred c.

Lemma removeMember_books c p : same_books c (removeMember c p).
Proof. unfold removeMember. destruct (keep_if _ _); [done|]. by destruct (_ =? _). Qed.

Lemma removeMember_roster c p :
  tr_match_lock_roster (c_rec (removeMember c p)) = tr_match_lock_roster (c_rec c).
Proof. unfold removeMember. destruct (keep_if _ _); [done|]. by destruct (_ =? _). Qed.

(** On an empty team the loop does nothing. *)
Lemma repair_loop_empty c a l : tr_members (c_rec c) = [] -> repair_loop c a l = (c, a).
Proof.
  intros Hm. induction l as [|p l IH]; simpl; [done|].
  unfold is_member, FindMember. rewrite Hm. simpl. by rewrite orb_true_r.
Qed.

(** What one run of the loop leaves. *)
Record repaired (c : ruleCtx) (a : Z) (l : list Z) (c' : ruleCtx) (a' : Z) : Prop := {
  rp_books : same_books c c';
  rp_actor : a' = 0 -> c' = c /\ a = 0;
  rp_same : survivors l (ids (c_rec c)) = ids (c_rec c) -> c' = c;
  rp_gone : c_disbanded c' = true -> survivors l (ids (c_rec c)) = [] /\ tr_members (c_rec c') = [];
  rp_live : c_disbanded c' = false ->
    wf_record (c_rec c') /\ ids (c_rec c') = survivors l (ids (c_rec c)) /\
    (tr_match_lock_roster (c_rec c) ≡ₚ ids (c_rec c) ->
     tr_match_lock_roster (c_rec c') ≡ₚ ids (c_rec c')) }.

Lemma length_survivors l ms : (length (survivors l ms) <= length ms)%nat.
Proof. apply keep_if_length. Qed.

Lemma without_shorter p ms : p ∈ ms -> (length (without p ms) < length ms)%nat.
Proof.
  unfold without. induction ms as [|q ms IH]; simpl; [set_solver|].
  intros [->|Hp]%elem_of_cons.
  - rewrite Z.eqb_refl. simpl. pose proof (keep_if_length (fun q0 => negb (q0 =? q)) ms). lia.
  - specialize (IH Hp). destruct (negb _); simpl; lia.
Qed.

Lemma repair_loop_spec l : forall c a,
  wf_record (c_rec c) -> c_disbanded c = false ->
  repaired c a l (repair_loop c a l).1 (repair_loop c a l).2.
Proof.
  induction l as [|p l IH]; intros c a Hwf Hd; simpl.
  { constructor; try done; [congruence|]. intros _. split; [done|]. split; [|done].
    unfold survivors. symmetry. apply keep_if_all. intros q _. apply negb_true_iff.
    apply bool_decide_eq_false. set_solver. }
  destruct (is_member_spec c p) as [Hin|Hni]; simpl.
  2:{ rewrite orb_true_r. destruct (IH c a Hwf Hd). constructor; try done;
        by rewrite survivors_cons_out. }
  assert (p <> 0) as Hp0 by (intros ->; by apply (wf_pos _ Hwf)).
  rewrite (proj2 (Z.eqb_neq p 0) Hp0). simpl.
  set (c1 := removeMember c p).
  set (c2 := set_rec c1 _).
  set (a1 := if a =? 0 then p else a). assert (Ha1 : a1 <> 0) by (subst a1; split_if; zbool; done).
  assert (Hbk : same_books c c2) by apply (removeMember_books c p).
  assert (Hshort : survivors l (without p (ids (c_rec c))) <> ids (c_rec c)).
  { intros He. apply (f_equal length) in He. pose proof (length_survivors l (without p (ids (c_rec c)))).
    pose proof (without_shorter p _ Hin). lia. }
  destruct (removeMember_spec c p Hwf Hin) as
    [(Hi & Hd1 & Hm & _)|(Hd1 & Hwf1 & Hi & _)].
  - rewrite repair_loop_empty by done. simpl. fold c1 in Hd1. constructor.
    + done.
    + done.
    + rewrite survivors_cons. done.
    + intros _. rewrite survivors_cons, Hi. unfold without. simpl. by rewrite Z.eqb_refl.
    + simpl. congruence.
  - assert (Hwf2 : wf_record (c_rec c2)) by (by apply wf_set_match_lock).
    assert (Hi2 : ids (c_rec c2) = without p (ids (c_rec c))) by done.
    destruct (IH c2 a1 Hwf2) as [Hb Hact Hsame Hgone Hlive]; [simpl; fold c1 in Hd1; congruence|].
    rewrite Hi2 in *. constructor.
    + unfold same_books in *. destruct_and!. split_and!; congruence.
    + intros [_ ?]%Hact. done.
    + rewrite survivors_cons. done.
    + by rewrite survivors_cons.
    + intros [? [? Hro]]%Hlive. rewrite survivors_cons. split; [done|]. split; [done|].
      intros Hperm. apply Hro. simpl. subst c1. rewrite removeMember_roster. by apply removeId_perm.
Qed.

(** A repair removes exactly the listed players who are members, whatever the
    match lock says: the rest of the team stays in order under a valid leader, a
    team of which nobody is left is dissolved, and a lock roster that matched the
    members before still matches them. *)
Theorem repair_exact r pids now s :
  wf_record r ->
  let d := RepairRemoveMembers (Some r) pids now s in
  let rest := survivors pids (MemberIds r) in
  d_Code d = 0 /\
  (rest <> MemberIds r ->
     d_Changed d = true /\ d_Joined d = [] /\ d_Kept d = rest /\
     (forall p, p ∈ d_Left d <-> p ∈ MemberIds r /\ p ∈ pids) /\
     d_Disbanded d = bool_decide (rest = []) /\
     (rest = [] -> d_Record d = None) /\
     (rest <> [] -> exists r', d_Record d = Some r' /\ wf_record r' /\ MemberIds r' = rest /\
        (tr_match_lock_roster r ≡ₚ MemberIds r -> tr_match_lock_roster r' ≡ₚ MemberIds r'))).
Proof.
  intros Hwf d rest. subst d rest. unfold RepairRemoveMembers.
  set (c := startCtx zeroOp r now s (mkCfg false)).
  pose proof (startCtx_fresh zeroOp r now s (mkCfg false)) as Hfr. fold c in Hfr. destruct Hfr.
  pose proof (startCtx_wf zeroOp r now s (mkCfg false) Hwf) as Hwfc. fold c in Hwfc.
  pose proof (startCtx_ids zeroOp r now s (mkCfg false)) as Hids. fold c in Hids.
  destruct (startCtx_same zeroOp r now s (mkCfg false)) as (_ & _ & _ & _ & _ & Hro & _). fold c in Hro.
  pose proof (repair_loop_spec pids c 0 Hwfc fr_disbanded) as [Hb Hact Hsame Hgone Hlive].
  destruct (repair_loop c 0 pids) as [c' a]. cbn [fst snd] in *.
  rewrite (wf_MemberIds _ Hwf), Hids in *. rewrite Hro in *.
  set (c2 := if negb (a =? 0) then _ else c').
  assert (Hc2 : c_code c2 = 0 /\ c_rec c2 = c_rec c' /\ c_disbanded c2 = c_disbanded c' /\
            c_extraLeft c2 = []).
  { unfold same_books in Hb. destruct_and!. subst c2. destruct (negb _); simpl; split_and!; congruence. }
  destruct Hc2 as (Hcode & Hrec & Hdis & Hex). rewrite finish_code. split; [done|].
  intros Hne. assert (a <> 0) as Ha.
  { intros Ha. destruct (Hact Ha) as [-> _].
    destruct (Hlive fr_disbanded) as (_ & Hi & _). apply Hne. by rewrite <- Hi. }
  assert (changes c2 = true) as Hch.
  { subst c2. rewrite (proj2 (Z.eqb_neq _ _) Ha). done. }
  rewrite finish_Changed by done. rewrite finish_Record by done.
  destruct (finish_sets c2 r Hcode Hch) as (HJ & HK & HL & HD & _).
  assert (Hleft : forall p, p ∈ ids r /\ p ∉ survivors pids (ids r) <-> p ∈ ids r /\ p ∈ pids).
  { intros p. unfold survivors. rewrite elem_of_keep_if, negb_true_iff, bool_decide_eq_false.
    destruct (decide (p ∈ pids)); naive_solver. }
  rewrite HJ, HK, HD. rewrite Hrec, Hdis in *. 
  destruct (c_disbanded c') eqn:Hdc.
  - destruct (Hgone eq_refl) as [Hs Hm]. rewrite Hs in *. 
    assert (HM : MemberIds (c_rec c') = []) by (unfold MemberIds; by rewrite Hm).
    rewrite HM, bool_decide_eq_true_2 by done. split_and!; try done.
    intros p. rewrite HL, Hex. simpl. rewrite app_nil_r, elem_of_keep_if, elem_of_MemberIds.
    rewrite <- Hleft. rewrite negb_true_iff, bool_decide_eq_false. set_solver.
  - destruct (Hlive eq_refl) as (Hwf' & Hi & Hro'). rewrite wf_sort_id in * by done.
    rewrite (wf_MemberIds _ Hwf'), Hi in *.
    assert (Hne2 : survivors pids (ids r) <> []).
    { intros He. pose proof (wf_leader _ Hwf') as Hl. rewrite Hi, He in Hl. set_solver. }
    assert (Hsub : forall p, p ∈ survivors pids (ids r) -> p ∈ memberSet r).
    { intros p [Hp _]%elem_of_keep_if. by apply elem_of_memberSet. }
    split_and!; try done.
    + apply keep_if_none. intros p Hp. apply negb_false_iff, bool_decide_eq_true. auto.
    + apply keep_if_all. intros p Hp. apply bool_decide_eq_true. auto.
    + intros p. rewrite HL, Hex. simpl. rewrite app_nil_r, elem_of_keep_if, elem_of_MemberIds.
      rewrite negb_true_iff, bool_decide_eq_false, elem_of_memberSet, Hi. apply Hleft.
    + by rewrite bool_decide_eq_false_2.
    + intros _. eexists. split; [done|]. split; [done|].
      rewrite (wf_MemberIds _ Hwf'), Hi. split; [done|]. done.
Qed.

Lemma repair_exact_witness :
  d_Kept (RepairRemoveMembers (Some demo_locked) [1; 99] 2000 ∅) = [2] /\
  exists r', d_Record (RepairRemoveMembers (Some demo_locked) [1; 99] 2000 ∅) = Some r' /\
    tr_match_lock_roster r' ≡ₚ MemberIds r'.
Proof.
  destruct (repair_exact demo_locked [1; 99] 2000 ∅ demo_locked_wf) as [_ H].
  destruct H as (_ & _ & Hk & _ & _ & _ & Hr); [done|]. split; [exact Hk|].
  destruct Hr as (r' & Hr' & _ & _ & Hro); [done|]. exists r'. split; [exact Hr'|]. apply Hro. reflexivity.
Defined.
