(* ===== verification/RoleRoute.v ===== *)
(** * Role routes and the merge fence

    [placement.LockRoleRoutes] ([go/shared/placement/role_route_sql.go]): the
    prefix of every transaction on player data. It reads the route of every
    participant, creates the missing fence rows, refuses a participant whose
    home zone is fenced by a merge and re-reads the routes under lock. The team
    store and the inbox both start with it. *)

From stdpp Require Import base list gmap strings.
From Stdlib Require Import ZArith Lia.
From S2P Require Import Prelude.
Local Open Scope Z_scope.

(** ** Tables *)
Record PlayerRoute := mkRoute {
  pr_home_zone : option Z; pr_rev : Z; pr_frozen_run_id : option string }.

Record MergeFence := mkFence { mf_run_id : option string; mf_expires_at_ms : option Z }.

Record AccountRole := mkRole {
  ar_account : string; ar_owner_revision : Z; ar_trade_listing_id : Z }.

(** The tables of the role schema: [route_meta.writable] ([None]: no row),
    [player_route] by (route_shard, player_id), [zone_merge_fence] by
    (zone_id, shard), [account_role] by player_id. *)
Record RoleDB := mkRoleDB {
  rd_writable : option Z;
  rd_player_route : gmap (Z * Z) PlayerRoute;
  rd_fence : gmap (Z * Z) MergeFence;
  rd_account_role : gmap Z AccountRole }.

Definition set_fence (db : RoleDB) (f : gmap (Z * Z) MergeFence) : RoleDB :=
  mkRoleDB (rd_writable db) (rd_player_route db) f (rd_account_role db).

(** ** Sharding *)
Definition MaxRouteFenceShards : Z := 64.
Definition RouteRowShards : Z := 64.

Definition ErrShards : error := "placement: route fence shards out of range"%string.
Definition ErrNoRows : error := "sql: no rows in result set"%string.
Definition ErrRoleRouteFenced : error := "ErrRoleRouteFenced"%string.

Definition RouteFenceShard (playerID shards : Z) : res Z :=
  if (shards <? 1) || (MaxRouteFenceShards <? shards) then Err ErrShards
  else Ok (playerID mod shards).

Definition RouteRowShard (playerID : Z) : Z := playerID mod RouteRowShards.

(** ** Locking *)
Record roleOriginalRoute := mkOriginalRoute { rt_player : Z; rt_home : Z; rt_revision : Z }.

(** [query_row] of [player_route]; a missing row is the driver's [ErrNoRows]. *)
Definition select_route (db : RoleDB) (player : Z) : res PlayerRoute :=
  match rd_player_route db !! (RouteRowShard player, player) with
  | Some r => Ok r
  | None => Err ErrNoRows
  end.

(** The pre-read of one participant. *)
Definition read_route (snap : RoleDB) (player : Z) : res roleOriginalRoute :=
  row ← select_route snap player;
  match pr_home_zone row with
  | Some home =>
      if (home <=? 0) || (u32_mod - 1 <? home) || (pr_rev row =? 0)
         || bool_decide (pr_frozen_run_id row <> None)
      then Err ErrRoleRouteFenced
      else Ok (mkOriginalRoute player home (pr_rev row))
  | None => Err ErrRoleRouteFenced
  end.

(** The first loop: [routes] in order, the set of fence keys, duplicates skipped. *)
Fixpoint read_routes (snap : RoleDB) (seen : gset Z) (players : list Z)
    : res (list roleOriginalRoute * gset (Z * Z)) :=
  match players with
  | [] => Ok ([], ∅)
  | player :: players' =>
      if player =? 0 then Err ErrRoleRouteFenced
      else if bool_decide (player ∈ seen) then read_routes snap seen players'
      else
        route ← read_route snap player;
        shard ← RouteFenceShard player MaxRouteFenceShards;
        '(routes, fences) ← read_routes snap ({[player]} ∪ seen) players';
        Ok (route :: routes, {[(rt_home route, shard)]} ∪ fences)
  end.

(** [INSERT ... ON DUPLICATE KEY UPDATE zone_id=zone_id]: a neutral row where
    there is none, an existing row as it is. *)
Definition ensure_fence (db : RoleDB) (key : Z * Z) : RoleDB :=
  match rd_fence db !! key with
  | Some _ => db
  | None => set_fence db (<[key := mkFence None None]> (rd_fence db))
  end.

(** [!active.Valid || active.Bool] for [run_id IS NOT NULL AND expires_at_ms > now]:
    a NULL deadline makes the conjunction NULL, which is refused too. *)
Definition fence_active (f : MergeFence) (now : Z) : bool :=
  bool_decide (mf_run_id f <> None) &&
  match mf_expires_at_ms f with Some e => now <? e | None => true end.

Definition check_fence (db : RoleDB) (now : Z) (_ : ()) (key : Z * Z) : res () :=
  match rd_fence db !! key with
  | None => Err ErrNoRows
  | Some f => if fence_active f now then Err ErrRoleRouteFenced else Ok ()
  end.

(** The re-read under lock. *)
Definition recheck_route (db : RoleDB) (_ : ()) (route : roleOriginalRoute) : res () :=
  row ← select_route db (rt_player route);
  if negb (bool_decide (pr_home_zone row = Some (rt_home route)))
     || negb (pr_rev row =? rt_revision route)
     || bool_decide (pr_frozen_run_id row <> None)
  then Err ErrRoleRouteFenced else Ok ().

Definition fence_less (a b : Z * Z) : bool :=
  if negb (a.1 =? b.1) then a.1 <? b.1 else a.2 <? b.2.

Definition route_less (a b : roleOriginalRoute) : bool :=
  let left := RouteRowShard (rt_player a) in
  let right := RouteRowShard (rt_player b) in
  if negb (left =? right) then left <? right else rt_player a <? rt_player b.

(** [snap] is the snapshot the unlocked SELECTs see, [db] the current state the
    locked ones see; the result is the state with the new fence rows. *)
Definition LockRoleRoutes (snap db : RoleDB) (now : Z) (players : list Z) : res RoleDB :=
  if bool_decide (players = []) then Err ErrRoleRouteFenced
  else
    writable ← match rd_writable snap with Some w => Ok w | None => Err ErrNoRows end;
    if negb (writable =? 1) then Err ErrRoleRouteFenced
    else
      '(routes, fenceSet) ← read_routes snap ∅ players;
      let fences := sort_stable fence_less (elements fenceSet) in
      let db := foldl ensure_fence db fences in
      _ ← fold_res (check_fence db now) () fences;
      _ ← fold_res (recheck_route db) () (sort_stable route_less routes);
      Ok db.

(** ** Accounts *)

(** [accountdirectory.ValidAccount] *)
Definition ValidAccount (account : string) : bool :=
  (0 <? Z.of_nat (String.length account)) && (Z.of_nat (String.length account) <=? 191)
  && utf8_valid account.

(** ** What the prefix guarantees *)

Lemma RouteFenceShard_max p : RouteFenceShard p MaxRouteFenceShards = Ok (p mod 64).
Proof. done. Qed.

(** A participant the prefix lets through. *)
Record route_clear (db : RoleDB) (now : Z) (p home : Z) : Prop := {
  rc_player : p <> 0;
  rc_row : exists r, rd_player_route db !! (RouteRowShard p, p) = Some r /\
    pr_home_zone r = Some home /\ pr_rev r <> 0 /\ pr_frozen_run_id r = None;
  rc_home : 0 < home < u32_mod;
  rc_fence : forall f, rd_fence db !! (home, p mod 64) = Some f -> fence_active f now = false }.

Lemma read_route_Ok snap p rt :
  read_route snap p = Ok rt <->
  exists row home, rd_player_route snap !! (RouteRowShard p, p) = Some row /\
    pr_home_zone row = Some home /\ 0 < home < u32_mod /\ pr_rev row <> 0 /\
    pr_frozen_run_id row = None /\ rt = mkOriginalRoute p home (pr_rev row).
Proof.
  unfold read_route, select_route. split.
  - intros (row & Hrow & Hm)%bind_Ok. destruct (_ !! _) as [row'|]; simplify_eq.
    destruct (pr_home_zone row) as [home|] eqn:Hh; [|done].
    destruct (_ || _) eqn:Hc; [done|]. simplify_eq. zbool.
    eexists _, _. split_and!; try done; [lia|].
    destruct (pr_frozen_run_id row); [|done]. exfalso. naive_solver.
  - intros (row & home & -> & Hh & Hr & Hrev & Hfr & ->). simpl. rewrite Hh, Hfr.
    rewrite bool_decide_eq_false_2 by naive_solver.
    rewrite (proj2 (Z.leb_gt _ _)), (proj2 (Z.ltb_ge _ _)), (proj2 (Z.eqb_neq _ _)) by lia. done.
Qed.

(** The pre-read loop collects the route and the fence key of every participant. *)
Lemma read_routes_Ok snap players : forall seen routes fences,
  read_routes snap seen players = Ok (routes, fences) ->
  (forall p, p ∈ players -> p <> 0) /\
  (forall p, p ∈ players -> p ∉ seen ->
     exists rt, rt ∈ routes /\ read_route snap p = Ok rt /\ (rt_home rt, p mod 64) ∈ fences) /\
  (forall rt, rt ∈ routes -> rt_player rt ∈ players /\ read_route snap (rt_player rt) = Ok rt) /\
  (forall k, k ∈ fences -> exists rt, rt ∈ routes /\ k = (rt_home rt, rt_player rt mod 64)).
Proof.
  induction players as [|p ps IH]; intros seen routes fences; simpl.
  { intros [= <- <-]. split_and!; set_solver. }
  destruct (_ =? 0) eqn:Hp0; [done|]. zbool. case_bool_decide as Hseen.
  - intros (H0 & H1 & H2 & H3)%IH. split_and!; [set_solver| |set_solver|done].
    intros q [->|Hq]%elem_of_cons Hn; [done|]. auto.
  - intros (rt & Hrt & ([rts fs] & Hrec & Hfin)%bind_Ok)%bind_Ok. simplify_eq/=.
    apply IH in Hrec as (H0 & H1 & H2 & H3).
    assert (rt_player rt = p) as Hpl by (apply read_route_Ok in Hrt; naive_solver).
    split_and!.
    + set_solver.
    + intros q [->|Hq]%elem_of_cons Hn.
      * exists rt. split_and!; [left|done|set_solver].
      * destruct (decide (q = p)) as [->|Hne].
        -- exists rt. split_and!; [left|done|set_solver].
        -- destruct (H1 q Hq) as (rt' & ? & ? & ?); [set_solver|].
           exists rt'. split_and!; [by right|done|set_solver].
    + intros rt' [->|Hin]%elem_of_cons; [rewrite Hpl; split; [left|done]|].
      destruct (H2 _ Hin). split; [by right|done].
    + intros k [->%elem_of_singleton|Hk]%elem_of_union.
      * exists rt. rewrite Hpl. split; [left|done].
      * destruct (H3 k Hk) as (rt' & ? & ?). exists rt'. split; [by right|done].
Qed.

(** Creating fence rows leaves the routes, the accounts and the existing rows. *)
Record fence_grown (db db' : RoleDB) : Prop := {
  fg_writable : rd_writable db' = rd_writable db;
  fg_route : rd_player_route db' = rd_player_route db;
  fg_account : rd_account_role db' = rd_account_role db;
  fg_kept : forall k f, rd_fence db !! k = Some f -> rd_fence db' !! k = Some f;
  fg_new : forall k f, rd_fence db' !! k = Some f -> rd_fence db !! k = Some f \/ f = mkFence None None }.

#[global] Instance fence_grown_preorder : PreOrder fence_grown.
Proof.
  split.
  - intros db. constructor; auto.
  - intros a b c [] []. constructor; try congruence; [by auto|].
    intros k f [Hk| ->]%fg_new1; [auto|by right].
Qed.

Lemma ensure_fence_grown db k : fence_grown db (ensure_fence db k).
Proof.
  unfold ensure_fence. destruct (rd_fence db !! k) eqn:Hk; [reflexivity|]. constructor; simpl; try done.
  - intros k' f Hf. rewrite lookup_insert_ne; [done|]. intros ->. congruence.
  - intros k' f. destruct (decide (k = k')) as [<-|Hne].
    + rewrite lookup_insert_eq. intros [= <-]. by right.
    + rewrite lookup_insert_ne by done. by left.
Qed.

Lemma ensure_fences_grown ks : forall db,
  fence_grown db (foldl ensure_fence db ks) /\
  forall k, k ∈ ks -> is_Some (rd_fence (foldl ensure_fence db ks) !! k).
Proof.
  induction ks as [|k ks IH]; intros db; simpl; [split; [reflexivity|set_solver]|].
  destruct (IH (ensure_fence db k)) as [Hg Hs]. split; [by rewrite <- Hg; apply ensure_fence_grown|].
  intros k' [->|Hk]%elem_of_cons; [|auto].
  destruct (rd_fence (ensure_fence db k) !! k) as [f|] eqn:Hf; [exists f; by apply Hg|].
  unfold ensure_fence in Hf. destruct (rd_fence db !! k) eqn:Hk; [congruence|].
  simpl in Hf. by rewrite lookup_insert_eq in Hf.
Qed.

Lemma fold_res_unit {A} (f : () -> A -> res ()) l :
  fold_res f () l = Ok () <-> forall x, x ∈ l -> f () x = Ok ().
Proof.
  induction l as [|x l IH]; simpl; [split; [set_solver|done]|].
  rewrite bind_Ok. split.
  - intros ([] & Hx & Hl) y [->|Hy]%elem_of_cons; [done|]. by apply IH.
  - intros Hall. exists (). split; [apply Hall; left|]. apply IH. intros y Hy. apply Hall. by right.
Qed.

Lemma fold_res_unit_Ok {A} (f : () -> A -> res ()) l u :
  fold_res f () l = Ok u -> forall x, x ∈ l -> f () x = Ok ().
Proof. destruct u. apply fold_res_unit. Qed.

(** What a successful prefix has established about every participant. *)
Lemma LockRoleRoutes_clear snap db now players db' :
  LockRoleRoutes snap db now players = Ok db' ->
  players <> [] /\ rd_writable snap = Some 1 /\ fence_grown db db' /\
  forall p, p ∈ players -> exists home, route_clear db now p home.
Proof.
  unfold LockRoleRoutes. case_bool_decide as Hne; [done|].
  intros (w & Hw & Hrest)%bind_Ok. destruct (negb _) eqn:Hw1; [done|]. zbool. subst w.
  destruct (rd_writable snap) eqn:Hws; simplify_eq.
  apply bind_Ok in Hrest as ([routes fences] & Hread & Hrest).
  set (ks := sort_stable fence_less (elements fences)) in *.
  set (rts := sort_stable route_less routes) in *.
  apply bind_Ok in Hrest as (u1 & Hfence & Hrest). apply bind_Ok in Hrest as (u2 & Hroute & Hrest).
  simplify_eq. destruct (ensure_fences_grown ks db) as [Hg _].
  set (db' := foldl ensure_fence db ks) in *.
  pose proof (fold_res_unit_Ok _ _ _ Hfence) as Hf. pose proof (fold_res_unit_Ok _ _ _ Hroute) as Hr.
  apply read_routes_Ok in Hread as (Hp0 & Hall & _ & _).
  split_and!; try done. intros p Hp.
  destruct (Hall p Hp) as (rt & Hin & Hrt & Hk); [set_solver|].
  pose proof (proj1 (read_route_Ok _ _ _) Hrt) as (row & home & _ & _ & Hh & Hrev & _ & ->).
  simpl in *. exists home.
  specialize (Hr (mkOriginalRoute p home (pr_rev row))).
  specialize (Hr (proj2 (elem_of_sort_stable _ _ _) Hin)). unfold recheck_route, select_route in Hr. simpl in Hr.
  rewrite (fg_route _ _ Hg) in Hr. apply bind_Ok in Hr as (row' & Hrow' & Hc).
  destruct (rd_player_route db !! _) as [row''|] eqn:Hlk; simplify_eq.
  destruct (_ || _) eqn:Hcc; [done|]. zbool.
  constructor; [auto| |done|].
  - exists row'. split_and!; try done; [congruence|].
    destruct (pr_frozen_run_id row'); [|done]. exfalso. naive_solver.
  - intros f Hfl. specialize (Hf (home, p mod 64)).
    specialize (Hf ltac:(by apply elem_of_sort_stable, elem_of_elements)).
    unfold check_fence in Hf. rewrite (fg_kept _ _ Hg _ _ Hfl) in Hf. by destruct (fence_active f now).
Qed.

(** The prefix succeeds on a settled database: nothing is refused but for a
    reason. *)
Lemma LockRoleRoutes_total db now players :
  players <> [] -> rd_writable db = Some 1 ->
  (forall p, p ∈ players -> exists home, route_clear db now p home) ->
  exists db', LockRoleRoutes db db now players = Ok db'.
Proof.
  intros Hne Hw Hall. unfold LockRoleRoutes. rewrite bool_decide_eq_false_2 by done. rewrite Hw. simpl.
  assert (Hread : forall l seen, (forall p, p ∈ l -> p ∈ players) ->
            exists out, read_routes db seen l = Ok out).
  { induction l as [|p l IH]; intros seen Hl; simpl; [eauto|].
    destruct (Hall p) as [home [Hp0 (row & Hrow & Hh & Hrev & Hfr) Hhome _]]; [apply Hl; left|].
    rewrite (proj2 (Z.eqb_neq _ _) Hp0). case_bool_decide.
    - apply IH. intros q Hq. apply Hl. by right.
    - assert (read_route db p = Ok (mkOriginalRoute p home (pr_rev row))) as Hrt.
      { apply read_route_Ok. eauto 10. }
      rewrite Hrt. simpl. destruct (IH ({[p]} ∪ seen)) as [[rts fs] Hout]; [intros q Hq; apply Hl; by right|].
      rewrite Hout. simpl. eauto. }
  destruct (Hread players ∅) as [[routes fences] Hout]; [done|]. rewrite Hout. simpl.
  apply read_routes_Ok in Hout as (_ & _ & Hrt & Hfk).
  set (ks := sort_stable fence_less (elements fences)).
  destruct (ensure_fences_grown ks db) as [Hg Hsome]. set (db' := foldl ensure_fence db ks) in *.
  assert (Hf : fold_res (check_fence db' now) () ks = Ok ()).
  { apply fold_res_unit. intros k Hk. unfold check_fence. destruct (Hsome k Hk) as [f Hf]. rewrite Hf.
    destruct (fg_new _ _ Hg _ _ Hf) as [Hold| ->]; [|done].
    subst ks. apply elem_of_sort_stable, elem_of_elements in Hk.
    destruct (Hfk k Hk) as (rt & Hin & ->). destruct (Hrt rt Hin) as [Hpl Hread'].
    destruct (Hall _ Hpl) as [home [_ (row & Hrow & Hh & _) _ Hcl]].
    apply read_route_Ok in Hread' as (row' & home' & ? & ? & _ & _ & _ & Heq). simplify_eq.
    apply (f_equal rt_home) in Heq. simpl in Heq. rewrite Heq in Hold. by rewrite (Hcl f). }
  rewrite Hf. simpl.
  assert (Hr : fold_res (recheck_route db') () (sort_stable route_less routes) = Ok ()).
  { apply fold_res_unit. intros rt Hin%elem_of_sort_stable. destruct (Hrt rt Hin) as [Hpl Hread'].
    apply read_route_Ok in Hread' as (row & home & Hrow & Hh & _ & _ & Hfr & Heq).
    unfold recheck_route, select_route. rewrite (fg_route _ _ Hg), Hrow. simpl.
    rewrite Heq. simpl. rewrite Hh, Hfr, Z.eqb_refl. rewrite bool_decide_eq_true_2, bool_decide_eq_false_2 by naive_solver. done. }
  rewrite Hr. simpl. eauto.
Qed.

(** The route prefix is the fence it claims to be: it lets a set of players
    through exactly when the route table is writable and every one of them has a
    route that is homed, versioned, not frozen and whose zone shard carries no
    live merge fence; and it writes nothing but neutral fence rows. *)
Theorem route_prefix_exact db now players :
  (exists db', LockRoleRoutes db db now players = Ok db' /\ fence_grown db db') <->
  players <> [] /\ rd_writable db = Some 1 /\ forall p, p ∈ players -> exists home, route_clear db now p home.
Proof.
  split.
  - intros (db' & Hok & _). apply LockRoleRoutes_clear in Hok as (? & ? & _ & ?). done.
  - intros (Hne & Hw & Hall). destruct (LockRoleRoutes_total db now players Hne Hw Hall) as [db' Hok].
    exists db'. split; [done|]. by apply LockRoleRoutes_clear in Hok as (_ & _ & ? & _).
Qed.

(** A merge that holds all 64 shard rows of a zone stops every transaction on
    a player of that zone, whatever snapshot the transaction started from. *)
Theorem merge_fence_blocks snap db now players zone p r :
  (forall k, 0 <= k < MaxRouteFenceShards -> exists f, rd_fence db !! (zone, k) = Some f /\ fence_active f now = true) ->
  p ∈ players -> rd_player_route db !! (RouteRowShard p, p) = Some r -> pr_home_zone r = Some zone ->
  exists e, LockRoleRoutes snap db now players = Err e.
Proof.
  intros Hheld Hp Hr Hz. destruct (LockRoleRoutes _ _ _ _) as [db'|e] eqn:Hok; [|by eexists].
  apply LockRoleRoutes_clear in Hok as (_ & _ & _ & Hall). exfalso.
  destruct (Hall p Hp) as [home [_ (row & Hrow & Hh & _) _ Hcl]]. simplify_eq.
  destruct (Hheld (p mod 64)) as (f & Hf & Hact); [unfold MaxRouteFenceShards; apply Z.mod_pos_bound; lia|].
  rewrite (Hcl f Hf) in Hact. done.
Qed.

Definition demo_routes : RoleDB :=
  mkRoleDB (Some 1) {[ (7, 7) := mkRoute (Some 3) 1 None ]}
    (list_to_map ((fun k => ((3, k), mkFence (Some "run"%string) (Some 900))) <$> seqZ 0 64))
    {[ 7 := mkRole "acc"%string 4 0 ]}.

Lemma merge_fence_blocks_witness : exists e, LockRoleRoutes demo_routes demo_routes 100 [7] = Err e.
Proof.
  eapply (merge_fence_blocks demo_routes demo_routes 100 [7] 3 7).
  - intros k Hk. exists (mkFence (Some "run"%string) (Some 900)). split; [|reflexivity].
    assert (k ∈ seqZ 0 64) as Hin by (apply elem_of_seqZ; unfold MaxRouteFenceShards in Hk; lia).
    apply elem_of_list_to_map_1.
    + rewrite <- list_fmap_compose. apply NoDup_fmap_2; [intros x y [= ->]; done|apply NoDup_seqZ].
    + apply list_elem_of_fmap. exists k. done.
  - left.
  - reflexivity.
  - reflexivity.
Defined.
