(* ===== verification/IdSegment.v ===== *)
(** * Permanent identifiers: ranges of numbers

    The table of ranges ([go/data_service/internal/store/id_segment_store.go]) and the
    client that hands out the numbers of the ranges it was given
    ([go/shared/idsegment]: [client.go], [minter.go]). A client holds the range it hands
    out from, and one fetched in advance; a fetch runs in the background. What the
    client does under its lock is a function here; [Next] strings such passes together,
    with whatever the other callers and the fetch do in between. *)

From stdpp Require Import base list gmap strings.
From Stdlib Require Import ZArith Lia SpecFloat.
From S2P Require Import Prelude.
Local Open Scope Z_scope.
Local Open Scope go_scope.

(** ** The table *)
Definition IdSegmentCap : Z := Z.shiftl 1 55.
Definition IdSegmentMaxStep : Z := 10000000.
Definition IdSegmentFirstID : Z := 1.
Definition IdSegmentBootstrapStep : Z := 100.
Definition idSegmentTxAttempts : nat := 4.

Definition ErrIdSegmentExhausted : error := "id segment: exhausted"%string.
Definition ErrIdSegmentInvalidStep : error := "id segment: invalid step"%string.
Definition ErrIdSegmentInvalidTag : error := "id segment: invalid tag"%string.
Definition ErrIdSegmentUnknownTag : error := "id segment: unknown tag"%string.
Definition ErrIdSegmentAttempts : error := "id segment: could not be allocated"%string.
(** MySQL's own refusals: a column out of range, and the CHECK constraint. *)
Definition ErrOutOfRange : error := "1264"%string.
Definition ErrCheckViolated : error := "3819"%string.

Definition tag_char (a : Ascii.ascii) : bool :=
  byte_in 97 122 a || byte_in 48 57 a || byte_in 95 95 a.
(** [^[a-z0-9_]{1,64}$] *)
Definition bizTagPattern (s : string) : bool :=
  (1 <=? String.length s)%nat && (String.length s <=? 64)%nat && chars tag_char s.

Record idSegmentRow := mkSegRow { sg_max_id : Z; sg_step : Z; sg_version : Z }.
Notation IdTable := (gmap string idSegmentRow).

(** A statement of the database that fails: while the row is read, or later, in which
    case the transaction may have been committed all the same. *)
Inductive db_fault :=
  | fault_read (e : error) (retryable : bool)
  | fault_write (e : error) (retryable landed : bool).
(** [isRetryableMySQL] *)
Definition fault_retryable (f : option db_fault) (err : error) : bool :=
  match f with
  | Some (fault_read e b) | Some (fault_write e b _) => b && String.eqb e err
  | None => false
  end.

(** [Ok None]: there is no such row, and nothing was written. *)
Definition tryAllocate (t : IdTable) (bizTag : string) (reqStep : Z) (f : option db_fault)
    : IdTable * res (option (Z * Z)) :=
  match f with
  | Some (fault_read e _) => (t, Err e)
  | _ =>
      match t !! bizTag with
      | None => (t, Ok None)
      | Some cur =>
          let useStep := if reqStep =? 0 then sg_step cur else reqStep in
          if (useStep =? 0) || (IdSegmentMaxStep <? useStep) then (t, Err ErrIdSegmentInvalidStep)
          else
            let lo := if sg_max_id cur <? IdSegmentFirstID then IdSegmentFirstID else sg_max_id cur in
            let hi := lo +64 useStep in
            if IdSegmentCap <=? hi then (t, Err ErrIdSegmentExhausted)
            else if u64_mod <=? sg_version cur + 1 then (t, Err ErrOutOfRange)
            else
              let t' := <[bizTag := mkSegRow hi useStep (sg_version cur + 1)]> t in
              match f with
              | Some (fault_write e _ landed) => (if landed then t' else t, Err e)
              | _ => (t', Ok (Some (lo, hi)))
              end
      end
  end.

(** [INSERT IGNORE INTO id_segment ... VALUES (tag, 1, step, 0)] *)
Definition insert_ignore (t : IdTable) (tag : string) (step : Z) : IdTable :=
  match t !! tag with Some _ => t | None => <[tag := mkSegRow IdSegmentFirstID step 0]> t end.

(** The attempts of [Allocate]: [others n] is what the rest of the world does to the
    table before the [n]-th transaction of this call and before the insertion after it. *)
Fixpoint allocate_loop (allowAutoSeed : bool) (bizTag : string) (step : Z)
    (others : nat -> IdTable -> IdTable) (faults : nat -> option db_fault) (seed_faults : nat -> option error)
    (left attempt : nat) (t : IdTable) : IdTable * res (Z * Z) :=
  match left with
  | O => (t, Err ErrIdSegmentAttempts)
  | S left' =>
      let again := allocate_loop allowAutoSeed bizTag step others faults seed_faults left' (S attempt) in
      let '(t, r) := tryAllocate (others (2 * attempt)%nat t) bizTag step (faults attempt) in
      match r with
      | Err e =>
          if fault_retryable (faults attempt) e && (1 <? left)%nat then again t else (t, Err e)
      | Ok (Some range) => (t, Ok range)
      | Ok None =>
          if negb allowAutoSeed then (t, Err ErrIdSegmentUnknownTag)
          else if step =? 0 then (t, Err ErrIdSegmentInvalidStep)
          else
            let t := others (2 * attempt + 1)%nat t in
            match seed_faults attempt with
            | Some e => (t, Err e)
            | None => again (insert_ignore t bizTag step)
            end
      end
  end.

Definition Allocate (allowAutoSeed : bool) (bizTag : string) (step : Z)
    (others : nat -> IdTable -> IdTable) (faults : nat -> option db_fault) (seed_faults : nat -> option error)
    (t : IdTable) : IdTable * res (Z * Z) :=
  if negb (bizTagPattern bizTag) then (t, Err ErrIdSegmentInvalidTag)
  else if IdSegmentMaxStep <? step then (t, Err ErrIdSegmentInvalidStep)
  else allocate_loop allowAutoSeed bizTag step others faults seed_faults idSegmentTxAttempts 0 t.

(** *** The rows, at a migration *)
Fixpoint bootstrapIdSegmentRows (t : IdTable) (tags : list string) : IdTable * res () :=
  match tags with
  | [] => (t, Ok ())
  | tag :: tags' =>
      if negb (bizTagPattern tag) then (t, Err ErrIdSegmentInvalidTag)
      else bootstrapIdSegmentRows (insert_ignore t tag IdSegmentBootstrapStep) tags'
  end.

(** [SELECT COALESCE(MAX(column), 0) FROM table WHERE column < cap] *)
Definition max_consumed (ids : list Z) : Z :=
  foldr Z.max 0 (keep_if (fun id => id <? IdSegmentCap) ids).

(** [consumed]: the identifiers of the consuming table, when it is in this database;
    [mid]: the table when the row is updated, after what happened since it was read. *)
Definition raiseIdSegmentFloor (t mid : IdTable) (bizTag : string) (consumed : option (list Z)) : IdTable * res () :=
  match consumed with
  | None => (mid, Ok ())
  | Some ids =>
      match t !! bizTag with
      | None => (mid, Ok ())
      | Some row =>
          let maxConsumed := max_consumed ids in
          if maxConsumed <? sg_max_id row then (mid, Ok ())
          else
            let floor := maxConsumed +64 1 in
            match mid !! bizTag with
            | None => (mid, Ok ())
            | Some cur =>
                if negb (sg_max_id cur <? floor) then (mid, Ok ())
                else if IdSegmentCap <=? floor then (mid, Err ErrCheckViolated)
                else if u64_mod <=? sg_version cur + 1 then (mid, Err ErrOutOfRange)
                else (<[bizTag := mkSegRow floor (sg_step cur) (sg_version cur + 1)]> mid, Ok ())
            end
      end
  end.

(** *** The answer of the service *)
Definition ErrCodeInvalidRequest : Z := 14.
Definition ErrCodeIdSegmentDBError : Z := 18.
Definition ErrCodeIdSegmentExhausted : Z := 19.
Definition ErrCodeIdSegmentUnknownTag : Z := 20.

Record AllocateResp := mkAllocateResp { ar_code : Z; ar_lo : Z; ar_hi : Z }.

Definition AllocateIdSegment (bizTag : string) (r : res (Z * Z)) : AllocateResp :=
  if String.eqb bizTag "" then mkAllocateResp ErrCodeInvalidRequest 0 0
  else match r with
  | Ok (lo, hi) => mkAllocateResp 0 lo hi
  | Err e =>
      let code :=
        if String.eqb e ErrIdSegmentInvalidTag || String.eqb e ErrIdSegmentInvalidStep then ErrCodeInvalidRequest
        else if String.eqb e ErrIdSegmentExhausted then ErrCodeIdSegmentExhausted
        else if String.eqb e ErrIdSegmentUnknownTag then ErrCodeIdSegmentUnknownTag
        else ErrCodeIdSegmentDBError in
      mkAllocateResp code 0 0
  end.

(** [Adapt] *)
Definition ErrRPC : error := "idsegment: AllocateIdSegment returned an error code"%string.
Definition Adapt (r : res AllocateResp) : res (Z * Z) :=
  resp ← r;
  _ ← guard_err (negb (ar_code resp =? 0)) ErrRPC;
  Ok (ar_lo resp, ar_hi resp).

(** ** The client *)
Definition ErrInvalidOptions : error := "idsegment: invalid options"%string.
Definition ErrSegmentUnavailable : error := "idsegment: segment unavailable"%string.
Definition ErrRangeViolation : error := "idsegment: server returned an invalid range"%string.
Definition ErrClosed : error := "idsegment: client closed"%string.

Definition DefaultMaxIDExclusive : Z := Z.shiftl 1 55.
Definition DefaultMinStep : Z := 10.
Definition DefaultMaxStep : Z := 1000.
Definition stepGrowBelow : Z := 15 * Minute.
Definition stepShrinkAbove : Z := 30 * Minute.

Record Options := mkOptions {
  BizTag : string; Step : Z; MinStep : Z; MaxStep : Z; PrefetchAt : spec_float;
  MaxIDExclusive : Z; RetryBackoff : Z; FetchTimeout : Z }.

Record segment := mkSegment { pos : Z; hi : Z; prefetchAt : Z }.

Definition remaining (s : segment) : Z := if hi s <=? pos s then 0 else hi s - pos s.

(** [inflight] keeps the step the running fetch was given. The zero [time.Time] is
    [None]. *)
Record Client := mkClient {
  opt : Options; cur : segment; next : option segment; cl_step : Z; curInstalledAt : option Z;
  inflight : option Z; notBefore : option Z; highWater : Z; closed : bool;
  issued : Z; fetches : Z; fetchErrors : Z; fetchesStarted : Z; rangeViolations : Z; unavailableN : Z }.

Definition f_zero : spec_float := S754_zero false.
(** The constant [0.1]. *)
Definition f_01 : spec_float := S754_finite false 7205759403792794 (-56).
Definition is_nan (f : spec_float) : bool := match f with S754_nan => true | _ => false end.

Definition New (rpc_nil : bool) (o : Options) : res Client :=
  _ ← guard_err rpc_nil ErrInvalidOptions;
  _ ← guard_err (String.eqb (BizTag o) "") ErrInvalidOptions;
  _ ← guard_err (Step o =? 0) ErrInvalidOptions;
  let minStep := if MinStep o =? 0 then Z.min DefaultMinStep (Step o) else MinStep o in
  let maxStep := if MaxStep o =? 0 then Z.max DefaultMaxStep (Step o) else MaxStep o in
  _ ← guard_err ((Step o <? minStep) || (maxStep <? Step o)) ErrInvalidOptions;
  let at_ := if SFeqb (PrefetchAt o) f_zero then f_01 else PrefetchAt o in
  _ ← guard_err (SFltb at_ f_zero || SFltb (float_of_Z 1) at_ || is_nan at_) ErrInvalidOptions;
  let cap := if MaxIDExclusive o =? 0 then DefaultMaxIDExclusive else MaxIDExclusive o in
  _ ← guard_err (DefaultMaxIDExclusive <? cap) ErrInvalidOptions;
  let backoff := if RetryBackoff o <=? 0 then 500 * Millisecond else RetryBackoff o in
  let timeout := if FetchTimeout o <=? 0 then 3 * Second else FetchTimeout o in
  Ok (mkClient (mkOptions (BizTag o) (Step o) minStep maxStep at_ cap backoff timeout)
        (mkSegment 0 0 0) None (Step o) None None None 0 false 0 0 0 0 0 0).

(** *** Single fields *)
Definition set_cur (s : segment) (at_ : option Z) (c : Client) : Client :=
  mkClient (opt c) s (next c) (cl_step c) at_ (inflight c) (notBefore c) (highWater c) (closed c)
    (issued c) (fetches c) (fetchErrors c) (fetchesStarted c) (rangeViolations c) (unavailableN c).
Definition set_next (n : option segment) (c : Client) : Client :=
  mkClient (opt c) (cur c) n (cl_step c) (curInstalledAt c) (inflight c) (notBefore c) (highWater c) (closed c)
    (issued c) (fetches c) (fetchErrors c) (fetchesStarted c) (rangeViolations c) (unavailableN c).
Definition set_step (s : Z) (at_ : option Z) (c : Client) : Client :=
  mkClient (opt c) (cur c) (next c) s at_ (inflight c) (notBefore c) (highWater c) (closed c)
    (issued c) (fetches c) (fetchErrors c) (fetchesStarted c) (rangeViolations c) (unavailableN c).
Definition set_closed (c : Client) : Client :=
  mkClient (opt c) (cur c) (next c) (cl_step c) (curInstalledAt c) (inflight c) (notBefore c) (highWater c) true
    (issued c) (fetches c) (fetchErrors c) (fetchesStarted c) (rangeViolations c) (unavailableN c).

(** *** Passes under the lock *)
Definition canStartFetchLocked (now : Z) (c : Client) : bool :=
  bool_decide (inflight c = None) && bool_decide (next c = None) &&
  match notBefore c with None => true | Some nb => nb <=? now end.

Definition onRangeExhaustedLocked (now : Z) (c : Client) : Client :=
  match curInstalledAt c with
  | None => c
  | Some since =>
      let lasted := now - since in
      let step :=
        if lasted <? stepGrowBelow then u32 (Z.min (cl_step c * 2) (MaxStep (opt c)))
        else if stepShrinkAbove <? lasted then Z.max (cl_step c / 2) (MinStep (opt c))
        else cl_step c in
      set_step step None c
  end.

Definition startFetchLocked (c : Client) : Client :=
  mkClient (opt c) (cur c) (next c) (cl_step c) (curInstalledAt c) (Some (cl_step c)) (notBefore c) (highWater c)
    (closed c) (issued c) (fetches c) (fetchErrors c) (fetchesStarted c +64 1) (rangeViolations c) (unavailableN c).

(** What one pass under the lock comes to: a number, the end, a wait until the
    back-off is over, or a wait for the running fetch. *)
Inductive pass := Issued (id : Z) | Closed | WaitBackoff (d : Z) | WaitFetch.

Definition issue (now : Z) (c : Client) : Client * Z :=
  let id := pos (cur c) in
  let c := mkClient (opt c) (mkSegment (id +64 1) (hi (cur c)) (prefetchAt (cur c))) (next c) (cl_step c)
    (curInstalledAt c) (inflight c) (notBefore c) (highWater c) (closed c) (issued c +64 1) (fetches c)
    (fetchErrors c) (fetchesStarted c) (rangeViolations c) (unavailableN c) in
  let c := if remaining (cur c) =? 0 then onRangeExhaustedLocked now c else c in
  let c := if (remaining (cur c) <=? prefetchAt (cur c)) && canStartFetchLocked now c then startFetchLocked c else c in
  (c, id).

(** The loop of [Next] up to the point where it lets go of the lock. [fuel] is 2: a pass
    that puts the fetched range in place is followed by one that finds no other. *)
Fixpoint next_pass (fuel : nat) (now : Z) (c : Client) : Client * option pass :=
  match fuel with
  | O => (c, None)
  | S fuel =>
      if closed c then (c, Some Closed)
      else if 0 <? remaining (cur c) then let '(c, id) := issue now c in (c, Some (Issued id))
      else match next c with
      | Some s => next_pass fuel now (set_next None (set_cur s (Some now) c))
      | None =>
          match inflight c with
          | Some _ => (c, Some WaitFetch)
          | None =>
              if negb (canStartFetchLocked now c)
              then (c, Some (WaitBackoff (default 0 (notBefore c) - now)))
              else (startFetchLocked c, Some WaitFetch)
          end
      end
  end.
Definition NextLocked (now : Z) (c : Client) : Client * option pass := next_pass 2 now c.

Definition prefetchThreshold (at_ : spec_float) (length : Z) : Z :=
  let t := ceil_u64 (f_mul at_ (float_of_Z length)) in if t <? 1 then 1 else t.

(** [None]: the range is fine. *)
Definition validateLocked (lo hi : Z) (c : Client) : bool :=
  negb ((lo <? 1) || (hi <=? lo) || (MaxIDExclusive (opt c) <? hi) || (lo <? highWater c)).

Definition fail_fetch (violation : bool) (now : Z) (c : Client) : Client :=
  mkClient (opt c) (cur c) (next c) (cl_step c) (curInstalledAt c) None (Some (now + RetryBackoff (opt c))) (highWater c)
    (closed c) (issued c) (fetches c) (fetchErrors c +64 1) (fetchesStarted c)
    (if violation then rangeViolations c +64 1 else rangeViolations c) (unavailableN c).

(** The error that the waiters of the fetch see. *)
Definition finishFetch (r : res (Z * Z)) (now : Z) (c : Client) : Client * option error :=
  match r with
  | Err e => (fail_fetch false now c, Some e)
  | Ok (lo, hi) =>
      if validateLocked lo hi c then
        (mkClient (opt c) (cur c) (Some (mkSegment lo hi (prefetchThreshold (PrefetchAt (opt c)) (hi -64 lo))))
           (cl_step c) (curInstalledAt c) None (notBefore c) hi (closed c) (issued c) (fetches c +64 1)
           (fetchErrors c) (fetchesStarted c) (rangeViolations c) (unavailableN c), None)
      else (fail_fetch true now c, Some ErrRangeViolation)
  end.

Definition unavailable (c : Client) : Client :=
  mkClient (opt c) (cur c) (next c) (cl_step c) (curInstalledAt c) (inflight c) (notBefore c) (highWater c) (closed c)
    (issued c) (fetches c) (fetchErrors c) (fetchesStarted c) (rangeViolations c) (unavailableN c +64 1).

(** The part of [Warm] under the lock: [Ok true] waits for the fetch. *)
Definition Warm (c : Client) : Client * res bool :=
  if closed c then (c, Err ErrClosed)
  else if (0 <? remaining (cur c)) || bool_decide (next c <> None) then (c, Ok false)
  else match inflight c with
  | Some _ => (c, Ok true)
  | None => (startFetchLocked c, Ok true)
  end.

Definition Close (c : Client) : Client := if closed c then c else set_closed c.

(** *** A whole call

    [wait i] is what happens to the client while the call waits after its [i]-th pass,
    for the back-off or for the fetch: the fetch ends, other callers take numbers. It answers the error the
    call ends with, if the context ended or the fetch failed. *)
Fixpoint Next (fuel i : nat) (wait : nat -> Client -> pass -> Client * option error) (now : nat -> Z) (c : Client)
    : Client * option (res Z) :=
  match fuel with
  | O => (c, None)
  | S fuel =>
      let '(c, p) := NextLocked (now i) c in
      match p with
      | None => (c, None)
      | Some (Issued id) => (c, Some (Ok id))
      | Some Closed => (c, Some (Err ErrClosed))
      | Some p =>
          let '(c, e) := wait i c p in
          match e with
          | Some _ => (unavailable c, Some (Err ErrSegmentUnavailable))
          | None => Next fuel (S i) wait now c
          end
      end
  end.

(** A caller with no others beside it: it waits for the fetch, which ends with the
    [i]-th answer, unless its context ends first. *)
Definition alone (ctx : nat -> option error) (answers : nat -> res (Z * Z)) (now : nat -> Z)
    (i : nat) (c : Client) (p : pass) : Client * option error :=
  match ctx i, p with
  | Some e, _ => (c, Some e)
  | None, WaitFetch => finishFetch (answers i) (now i) c
  | None, _ => (c, None)
  end.

(** [Minter.Mint]: [segment] is the call of [Next] when ranges are on, [fallback] the
    generator behind it. *)
Definition ErrNoIDSource : error := "idsegment: minter has neither a segment source nor a fallback"%string.
Definition Mint (segment fallback : option (res Z)) : res Z :=
  match segment with
  | None => default (Err ErrNoIDSource) fallback
  | Some (Ok id) => Ok id
  | Some (Err e) => default (Err e) fallback
  end.
