(* ===== verification/IdSegmentThms.v ===== *)
(** * Permanent identifiers: no number twice

    [client_run]: one client against any server at all. [id_step]: the clients of one
    tag, the table, and the answers on their way, as a transition system; its invariant
    is that the numbers handed out, held by a client or on their way are all different,
    and below the mark of the table. *)

From stdpp Require Import base list gmap sorting strings relations.
From Stdlib Require Import ZArith Lia.
From S2P Require Import Prelude IdSegment.
Local Open Scope Z_scope.

(** ** One client *)

(** What can happen to a client: the answers of the server are arbitrary pairs of
    [uint64]. The label is the number handed out. *)
Inductive client_step (c : Client) : option Z -> Client -> Prop :=
  | cs_next now c' p : NextLocked now c = (c', p) ->
      client_step c (match p with Some (Issued id) => Some id | _ => None end) c'
  | cs_fetch r now c' e : match r with Ok (lo, hi) => is_u64 lo /\ is_u64 hi | Err _ => True end ->
      finishFetch r now c = (c', e) -> client_step c None c'
  | cs_warm c' r : Warm c = (c', r) -> client_step c None c'
  | cs_close : client_step c None (Close c)
  | cs_unavailable : client_step c None (unavailable c).

(** A run, with the numbers handed out, the newest first. *)
Inductive client_run (c0 : Client) : list Z -> Client -> Prop :=
  | cr_start : client_run c0 [] c0
  | cr_step ids c l c' : client_run c0 ids c -> client_step c l c' -> client_run c0 (option_list l ++ ids) c'.

Definition options_ok (o : Options) : Prop :=
  is_u32 (Step o) /\ is_u32 (MinStep o) /\ is_u32 (MaxStep o) /\ is_u64 (MaxIDExclusive o).

Definition segment_ok (floor : Z) (c : Client) (s : segment) : Prop :=
  pos s < hi s -> 1 <= pos s /\ floor <= pos s /\ hi s <= highWater c.

Lemma seg_cap : DefaultMaxIDExclusive = 36028797018963968.
Proof. reflexivity. Qed.

(** [floor]: everything below it may have been handed out. *)
Record client_ok (floor : Z) (c : Client) : Prop := {
  co_high : 0 <= highWater c <= MaxIDExclusive (opt c);
  co_max : MaxIDExclusive (opt c) <= DefaultMaxIDExclusive;
  co_floor : 0 <= floor <= Z.max 1 (highWater c);
  co_cur : segment_ok floor c (cur c) /\ 0 <= pos (cur c);
  co_next : forall s, next c = Some s -> segment_ok (Z.max floor (hi (cur c))) c s /\ pos s < hi s;
  co_hi : hi (cur c) <= highWater c;
  co_step : MinStep (opt c) <= cl_step c <= MaxStep (opt c);
  co_opt : options_ok (opt c) }.

Lemma remaining_pos s : 0 < remaining s <-> pos s < hi s.
Proof. unfold remaining. split_if; zbool; lia. Qed.
Lemma remaining_zero s : remaining s = 0 <-> hi s <= pos s.
Proof. unfold remaining. split_if; zbool; lia. Qed.

(** A client that differs in its counters, its clock fields or its fetch only. *)
Lemma client_ok_same floor c c' :
  opt c' = opt c -> cur c' = cur c -> next c' = next c -> cl_step c' = cl_step c -> highWater c' = highWater c ->
  client_ok floor c -> client_ok floor c'.
Proof.
  intros Ho Hc Hn Hs Hh [H1 H2 H3 [H4 H4'] H5 H6 H7 H8].
  split; rewrite ?Ho, ?Hc, ?Hs, ?Hh; try done.
  - split; [|done]. intros Hlt. rewrite Hh. by apply H4.
  - intros s Hsn. rewrite Hn in Hsn. destruct (H5 _ Hsn) as [Hseg ?]. split; [|done].
    intros Hlt. rewrite Hh. by apply Hseg.
Qed.

Lemma start_ok floor c : client_ok floor c -> client_ok floor (startFetchLocked c).
Proof. by apply client_ok_same. Qed.

Lemma exhausted_ok floor now c : client_ok floor c -> client_ok floor (onRangeExhaustedLocked now c).
Proof.
  intros Hok. unfold onRangeExhaustedLocked. destruct (curInstalledAt c) as [since|]; [|done].
  destruct Hok as [H1 H2 H3 H4 H5 H6 H7 (Hs & Hmin & Hmax & Hu)].
  split; cbn; try done. clear H4 H5. unfold is_u32 in *. cbv zeta.
  destruct (now - since <? stepGrowBelow); [|destruct (stepShrinkAbove <? now - since)]; cbn; [| |done].
  - rewrite u32_small; unfold is_u32; lia.
  - assert (cl_step c / 2 <= cl_step c) by (apply Z.div_le_upper_bound; lia).
    lia.
Qed.

Lemma exhausted_fields now c :
  let c' := onRangeExhaustedLocked now c in
  opt c' = opt c /\ cur c' = cur c /\ next c' = next c /\ highWater c' = highWater c /\ inflight c' = inflight c.
Proof. unfold onRangeExhaustedLocked. by destruct (curInstalledAt c). Qed.

(** The state once a number was taken, before the step is adjusted and the next fetch begins. *)
Lemma issue_fields now c c' id :
  issue now c = (c', id) ->
  id = pos (cur c) /\ opt c' = opt c /\ next c' = next c /\ highWater c' = highWater c /\
  cur c' = mkSegment (u64 (pos (cur c) + 1)) (hi (cur c)) (prefetchAt (cur c)).
Proof.
  unfold issue. cbv zeta. intros [= <- <-]. split; [done|].
  set (c1 := mkClient _ _ _ _ _ _ _ _ _ _ _ _ _ _ _).
  set (c2 := if _ : bool then onRangeExhaustedLocked now c1 else c1).
  assert (opt c2 = opt c /\ next c2 = next c /\ highWater c2 = highWater c /\ cur c2 = cur c1) as (H1 & H2 & H3 & H4).
  { subst c2. destruct (exhausted_fields now c1) as (? & ? & ? & ? & ?). split_if; split_and!; try done; congruence. }
  split_if; cbn; rewrite ?H1, ?H2, ?H3, ?H4; done.
Qed.

Lemma issue_ok floor now c c' id :
  client_ok floor c -> 0 < remaining (cur c) -> issue now c = (c', id) ->
  client_ok (id + 1) c' /\ floor <= id /\ 1 <= id < MaxIDExclusive (opt c) /\ id + 1 = pos (cur c').
Proof.
  intros Hok Hrem Hi. destruct (issue_fields _ _ _ _ Hi) as (-> & _ & _ & _ & Hc).
  assert (Hcap := seg_cap). apply remaining_pos in Hrem.
  destruct Hok as [H1 H2 H3 [H4 H4'] H5 H6 H7 H8]. destruct (H4 Hrem) as (Hp1 & Hp2 & Hp3).
  assert (Hu : u64 (pos (cur c) + 1) = pos (cur c) + 1) by (apply u64_small; unfold is_u64, u64_mod; lia).
  rewrite Hc. split; [|cbn; lia].
  assert (client_ok (pos (cur c) + 1) (mkClient (opt c) (mkSegment (pos (cur c) + 1) (hi (cur c)) (prefetchAt (cur c)))
    (next c) (cl_step c) (curInstalledAt c) (inflight c) (notBefore c) (highWater c) (closed c)
    (u64 (issued c + 1)) (fetches c) (fetchErrors c) (fetchesStarted c) (rangeViolations c) (unavailableN c))) as Hmid.
  { split; cbn; try done; try lia.
    - split; [|lia]. unfold segment_ok. cbn. lia.
    - intros s Hs. destruct (H5 s Hs) as [Hseg Hlt]. split; [|done].
      intros _. destruct (Hseg Hlt) as (? & ? & ?). unfold segment_ok. cbn. lia. }
  revert Hi. unfold issue. rewrite Hu. cbv zeta. intros [= <-].
  match goal with |- client_ok _ (if ?b then startFetchLocked ?x else ?x) =>
    assert (client_ok (pos (cur c) + 1) x) as Hx by (split_if; [by apply exhausted_ok|exact Hmid]);
    destruct b; [by apply start_ok|exact Hx] end.
Qed.

Lemma install_ok floor now c s :
  client_ok floor c -> next c = Some s -> client_ok floor (set_next None (set_cur s (Some now) c)).
Proof.
  intros [H1 H2 H3 H4 H5 H6 H7 H8] Hs. destruct (H5 s Hs) as [Hseg Hlt].
  destruct (Hseg Hlt) as (? & ? & ?). split; cbn; try done; try lia.
  split; [|lia]. unfold segment_ok. cbn. lia.
Qed.

Definition pass_floor (floor : Z) (p : option pass) : Z := match p with Some (Issued id) => id + 1 | _ => floor end.

Lemma next_pass_ok fuel floor now c c' p :
  client_ok floor c -> next_pass fuel now c = (c', p) ->
  client_ok (pass_floor floor p) c' /\
  match p with Some (Issued id) => floor <= id /\ 1 <= id < MaxIDExclusive (opt c) | _ => True end /\ opt c' = opt c.
Proof.
  revert c. induction fuel as [|fuel IH]; intros c Hok; cbn [next_pass]; [by intros [= <- <-]|].
  destruct (closed c); [by intros [= <- <-]|].
  destruct (0 <? remaining (cur c)) eqn:Hr; zbool.
  { destruct (issue now c) as [c1 id] eqn:Hi. intros [= <- <-].
    destruct (issue_ok _ _ _ _ _ Hok Hr Hi) as (? & ? & ? & ?).
    destruct (issue_fields _ _ _ _ Hi) as (_ & ? & _). cbn. split_and!; done || lia. }
  destruct (next c) as [s|] eqn:Hn.
  { intros Hp. exact (IH _ (install_ok _ now _ _ Hok Hn) Hp). }
  destruct (inflight c); [by intros [= <- <-]|].
  split_if; intros [= <- <-]; (split; [|done]); [done|by apply start_ok].
Qed.

Lemma fail_ok floor b now c : client_ok floor c -> client_ok floor (fail_fetch b now c).
Proof. by apply client_ok_same. Qed.

Lemma finish_ok floor r now c c' e :
  match r with Ok (lo, hi) => is_u64 lo /\ is_u64 hi | Err _ => True end ->
  client_ok floor c -> finishFetch r now c = (c', e) -> client_ok floor c' /\ opt c' = opt c.
Proof.
  intros Hr Hok. unfold finishFetch.
  destruct r as [[lo h]|x]; [|intros [= <- <-]; split; [by apply fail_ok|done]].
  destruct (validateLocked lo h c) eqn:Hv; [|intros [= <- <-]; split; [by apply fail_ok|done]].
  intros [= <- <-]. split; [|done]. destruct Hok as [H1 H2 H3 [H4 H4'] H5 H6 H7 H8].
  unfold validateLocked in Hv. zbool. split; cbn; try done; try lia.
  - split; [|done]. intros Hlt. destruct (H4 Hlt). cbn. lia.
  - intros s [= <-]. unfold segment_ok. cbn. lia.
Qed.

Lemma client_step_ok floor c l c' :
  client_ok floor c -> client_step c l c' ->
  client_ok (match l with Some id => id + 1 | None => floor end) c' /\
  (forall id, l = Some id -> floor <= id /\ 1 <= id < MaxIDExclusive (opt c)) /\ opt c' = opt c.
Proof.
  intros Hok Hstep. destruct Hstep as [now c' p Hp|r now c' e Hr Hf|c' r Hw| |].
  - destruct (next_pass_ok _ _ _ _ _ _ Hok Hp) as (H1 & H2 & H3).
    split_and!; [| |done]; destruct p as [[]|]; cbn in *; try done; by intros ? [= <-].
  - destruct (finish_ok _ _ _ _ _ _ Hr Hok Hf). split_and!; done.
  - revert Hw. unfold Warm. repeat (case_match || split_if); intros [= <- <-]; (split_and!; [|done|done]);
      first [exact Hok|by apply start_ok].
  - unfold Close. split_and!; [|done|by split_if]. split_if; [done|by revert Hok; apply client_ok_same].
  - split_and!; try done; by revert Hok; apply client_ok_same.
Qed.

Lemma New_ok b o c0 : options_ok o -> New b o = Ok c0 -> client_ok 0 c0 /\ BizTag (opt c0) = BizTag o /\ cur c0 = mkSegment 0 0 0 /\ next c0 = None.
Proof.
  intros (Hs & Hmin & Hmax & Hu) Hn. unfold New in Hn. res_inv. unfold is_u32, is_u64, u32_mod in *.
  assert (Hc := seg_cap). rewrite Hc in *. unfold DefaultMinStep, DefaultMaxStep in *. zbool.
  split; [|done]. split; cbn; try done.
  all: unfold options_ok, is_u32, is_u64, u32_mod, u64_mod in *; cbn; rewrite ?Hc.
  all: split_and!; repeat split_if; zbool; lia.
Qed.

(** A client never hands out a number twice, whatever the server answers. *)
Lemma client_run_ok b o c0 ids c :
  options_ok o -> New b o = Ok c0 -> client_run c0 ids c ->
  client_ok (match ids with [] => 0 | id :: _ => id + 1 end) c /\ opt c = opt c0 /\
  StronglySorted (fun a b => b < a) ids /\ Forall (fun id => 1 <= id < MaxIDExclusive (opt c0)) ids.
Proof.
  intros Ho Hn. destruct (New_ok _ _ _ Ho Hn) as [H0 _].
  induction 1 as [|ids c l c' Hrun (Hok & Hopt & Hs & Hf) Hstep]; [split_and!; [exact H0|done|constructor|constructor]|].
  destruct (client_step_ok _ _ _ _ Hok Hstep) as (Hok' & Hl & Hopt'). rewrite Hopt', Hopt.
  destruct l as [id|]; cbn [option_list app]; [|done].
  destruct (Hl _ eq_refl) as [Hge Hrange]. rewrite Hopt in Hrange. split_and!; [done|done| |by constructor].
  constructor; [done|]. destruct ids as [|id' ids]; [constructor|].
  inversion_clear Hs as [|? ? _ Hall]. constructor; [lia|]. eapply Forall_impl; [exact Hall|]. intros; cbn in *; lia.
Qed.

(** C40: A client hands out ascending numbers, whatever the server answers: from its
    construction on, over any calls, fetches with any answers, failures and restarts of
    the fetch, the numbers it hands out are strictly ascending - so never one twice -
    and lie between 1 and the bound it was given, at most 2^55; the step it asks for
    stays within its bounds. *)
Theorem client_ids_ascend b o c0 ids c :
  options_ok o -> New b o = Ok c0 -> client_run c0 ids c ->
  StronglySorted (fun a b => b < a) ids /\
  (forall id, id ∈ ids -> 1 <= id < MaxIDExclusive (opt c0)) /\
  MaxIDExclusive (opt c0) <= 2 ^ 55 /\
  MinStep (opt c0) <= cl_step c <= MaxStep (opt c0).
Proof.
  intros Ho Hn Hr. destruct (client_run_ok _ _ _ _ _ Ho Hn Hr) as ([] & Hopt & Hs & Hf).
  rewrite Forall_forall in Hf. assert (Hc := seg_cap). rewrite Hopt in *. split_and!; try done; try lia.
Qed.

(** *** A call of [Next] *)
Lemma issue_next fuel now c :
  closed c = false -> 0 < remaining (cur c) -> exists c' id, next_pass (S fuel) now c = (c', Some (Issued id)).
Proof.
  intros Hc Hr. cbn [next_pass]. rewrite Hc. destruct (0 <? remaining (cur c)) eqn:Hb; [|zbool; lia].
  destruct (issue now c) as [c' id]. eauto.
Qed.

Lemma fetched_next now c s :
  closed c = false -> next c = Some s -> pos s < hi s -> exists c' id, NextLocked now c = (c', Some (Issued id)).
Proof.
  intros Hc Hn Hlt. unfold NextLocked. destruct (0 <? remaining (cur c)) eqn:Hb; zbool; [by apply issue_next|].
  cbn [next_pass]. rewrite Hc. destruct (0 <? remaining (cur c)) eqn:Hb'; [zbool; lia|]. rewrite Hn.
  apply (issue_next 0 now (set_next None (set_cur s (Some now) c))); [done|]. by apply remaining_pos.
Qed.

(** What a pass that hands out nothing leaves behind. *)
Lemma pass_cases now c :
  closed c = false ->
  (exists c' id, NextLocked now c = (c', Some (Issued id))) \/
  (next c = None /\ ((inflight c <> None /\ NextLocked now c = (c, Some WaitFetch)) \/
    inflight c = None /\ ((canStartFetchLocked now c = true /\ NextLocked now c = (startFetchLocked c, Some WaitFetch)) \/
    exists nb, notBefore c = Some nb /\ now < nb /\ NextLocked now c = (c, Some (WaitBackoff (nb - now)))))) \/
  exists s, next c = Some s /\ hi s <= pos s.
Proof.
  intros Hc. destruct (next c) as [s|] eqn:Hn.
  { destruct (Z.le_gt_cases (hi s) (pos s)); [right; right; by eexists|left]. eapply fetched_next; [done|done|lia]. }
  unfold NextLocked. destruct (0 <? remaining (cur c)) eqn:Hr; zbool; [left; by apply issue_next|].
  right; left. split; [done|]. cbn [next_pass]. rewrite Hc, Hn.
  destruct (0 <? remaining (cur c)) eqn:Hb'; [zbool; lia|].
  destruct (inflight c) eqn:Hi; [by left|right; split; [done|]].
  destruct (canStartFetchLocked now c) eqn:Hs; cbn [negb]; [by left|right].
  unfold canStartFetchLocked in Hs. rewrite Hi, Hn in Hs. cbn in Hs.
  destruct (notBefore c) as [nb|]; [|done]. zbool. by exists nb.
Qed.

(** Whether a fetch that ends with [r] fails. *)
Definition bad_answer (c : Client) (r : res (Z * Z)) : bool :=
  match r with Ok (lo, hi) => negb (validateLocked lo hi c) | Err _ => true end.

Lemma finish_cases r now c :
  if bad_answer c r then exists c' e, finishFetch r now c = (c', Some e)
  else exists c' s, finishFetch r now c = (c', None) /\ closed c' = closed c /\ next c' = Some s /\ pos s < hi s.
Proof.
  unfold bad_answer, finishFetch. destruct r as [[lo h]|e]; [|by do 2 eexists].
  destruct (validateLocked lo h c) eqn:Hv; cbn [negb]; [|by do 2 eexists].
  do 2 eexists. split_and!; try done. unfold validateLocked in Hv. cbn. zbool. lia.
Qed.

(** Why a call that waited may fail: its context ended, or the fetch failed. *)
Definition excused (ctx : nat -> option error) (answers : nat -> res (Z * Z)) (c : Client) (i : nat) : Prop :=
  ctx i <> None \/ bad_answer c (answers i) = true.

Lemma wait_ends ctx answers now fuel i c c1 :
  closed c = false -> NextLocked (now i) c = (c1, Some WaitFetch) ->
  closed c1 = false -> opt c1 = opt c -> highWater c1 = highWater c ->
  exists c' r, Next (S (S fuel)) i (alone ctx answers now) now c = (c', Some r) /\
    ((exists id, r = Ok id) \/ (r = Err ErrSegmentUnavailable /\ excused ctx answers c i)).
Proof.
  intros Hc Hp Hc1 Ho Hh. cbn [Next]. rewrite Hp. unfold alone at 1.
  destruct (ctx i) as [e|] eqn:Hctx.
  { do 2 eexists. split; [done|]. right. split; [done|]. left. congruence. }
  assert (bad_answer c1 (answers i) = bad_answer c (answers i)) as Hb
    by (unfold bad_answer, validateLocked; by rewrite Ho, Hh).
  pose proof (finish_cases (answers i) (now i) c1) as Hf. rewrite Hb in Hf.
  destruct (bad_answer c (answers i)) eqn:Hbad.
  - destruct Hf as (c2 & e & ->). do 2 eexists. split; [done|]. right. split; [done|]. by right.
  - destruct Hf as (c2 & s & -> & Hc2 & Hn & Hlt). rewrite Hc1 in Hc2.
    destruct (fetched_next (now (S i)) c2 s Hc2 Hn Hlt) as (c3 & id & ->). do 2 eexists. split; [done|left; by eexists].
Qed.

(** A call for a number ends. A caller with no others beside it goes through at most
    three passes - the back-off, the fetch, the number - and has an answer: a number, or
    the refusal when the client is closed, or the failure only if its context ended or
    the fetch it waited for failed. *)
Theorem Next_returns floor c ctx answers now :
  client_ok floor c -> (forall nb, notBefore c = Some nb -> nb <= now 1%nat) ->
  exists c' r, Next 3 0 (alone ctx answers now) now c = (c', Some r) /\
    (closed c = true -> r = Err ErrClosed) /\
    (closed c = false -> (exists id, r = Ok id) \/
      (r = Err ErrSegmentUnavailable /\ (excused ctx answers c 0 \/ excused ctx answers c 1))).
Proof.
  intros Hok Hnb. destruct (closed c) eqn:Hc.
  { cbn [Next NextLocked next_pass]. unfold NextLocked. cbn [next_pass]. rewrite Hc. by do 2 eexists. }
  destruct (pass_cases (now 0%nat) c Hc) as [(c1 & id & Hp)|[[Hn Hw]|(s & Hs & Hle)]].
  - cbn [Next]. rewrite Hp. do 2 eexists. split; [done|]. split; [done|]. intros _. left. by eexists.
  - destruct Hw as [[Hi Hp]|[Hi [[Hst Hp]|(nb & Hb & Hlt & Hp)]]].
    + destruct (wait_ends ctx answers now 1 0 c c Hc Hp Hc eq_refl eq_refl) as (c' & r & Hr & H).
      exists c', r. split; [done|]. split; [done|]. intros _. destruct H as [|[]]; auto.
    + destruct (wait_ends ctx answers now 1 0 c _ Hc Hp Hc eq_refl eq_refl) as (c' & r & Hr & H).
      exists c', r. split; [done|]. split; [done|]. intros _. destruct H as [|[]]; auto.
    + cbn [Next]. rewrite Hp. unfold alone at 1. destruct (ctx 0%nat) as [e|] eqn:Hctx.
      { do 2 eexists. split; [done|]. split; [done|]. intros _. right. split; [done|]. left. left. congruence. }
      assert (NextLocked (now 1%nat) c = (startFetchLocked c, Some WaitFetch)) as Hp1.
      { destruct (pass_cases (now 1%nat) c Hc) as [(c1 & id & Hp1)|[[_ [[? _]|[_ [[_ ?]|(nb' & Hb' & ? & _)]]]]|(s & ? & _)]];
          [|done|done| |congruence]; exfalso.
        - revert Hp Hp1. unfold NextLocked. cbn [next_pass]. rewrite Hc, Hn, Hi.
          destruct (0 <? remaining (cur c)); [by destruct (issue (now 0%nat) c)|].
          by split_if; split_if.
        - specialize (Hnb _ Hb'). lia. }
      destruct (wait_ends ctx answers now 0 1 c _ Hc Hp1 Hc eq_refl eq_refl) as (c' & r & Hr & H).
      exists c', r. split; [done|]. split; [done|]. intros _. destruct H as [|[]]; auto.
  - destruct Hok as [_ _ _ _ Hnx _ _ _]. destruct (Hnx _ Hs). lia.
Qed.

(** ** The table *)

(** The first number of a tag that the table may still give. *)
Definition mark (t : IdTable) (tag : string) : Z :=
  match t !! tag with Some r => Z.max IdSegmentFirstID (sg_max_id r) | None => IdSegmentFirstID end.

(** The column types, and the CHECK. *)
Definition seg_row_ok (r : idSegmentRow) : Prop :=
  0 <= sg_max_id r < IdSegmentCap /\ is_u32 (sg_step r) /\ is_u64 (sg_version r).
Definition table_ok (t : IdTable) : Prop := map_Forall (fun _ r => seg_row_ok r) t.

Definition granted (r : res (option (Z * Z))) : option (Z * Z) :=
  match r with Ok g => g | Err _ => None end.

Lemma cap_value : IdSegmentCap = 36028797018963968.
Proof. reflexivity. Qed.

(** A change of the row of [tag] that gives no number back. *)
Definition advances (tag : string) (t t' : IdTable) : Prop :=
  table_ok t' /\ (forall tag', tag' <> tag -> t' !! tag' = t !! tag') /\ mark t tag <= mark t' tag.

Lemma advances_refl tag t : table_ok t -> advances tag t t.
Proof. intros Hok. split_and!; [done|done|lia]. Qed.

Lemma put_advances tag t h st v :
  table_ok t -> mark t tag <= h < IdSegmentCap -> is_u32 st -> is_u64 v ->
  advances tag t (<[tag := mkSegRow h st v]> t) /\ mark (<[tag := mkSegRow h st v]> t) tag = h.
Proof.
  intros Hok Hh Hst Hv. assert (1 <= mark t tag) by (unfold mark, IdSegmentFirstID; destruct (t !! tag); lia).
  assert (mark (<[tag := mkSegRow h st v]> t) tag = h) as Hm
    by (unfold mark, IdSegmentFirstID; rewrite lookup_insert_eq; cbn; lia).
  split; [|done]. unfold advances. split; [|split]; [|intros tag' Hne|lia].
  2: { rewrite lookup_insert_ne; [done|congruence]. }
  apply map_Forall_insert_2; [|done]. repeat split; cbn [sg_max_id sg_step sg_version]; first [lia|apply Hst|apply Hv].
Qed.

Lemma insert_ignore_advances tag t st : table_ok t -> is_u32 st -> advances tag t (insert_ignore t tag st).
Proof.
  intros Hok Hst. unfold insert_ignore. destruct (t !! tag) eqn:Hrow; [by apply advances_refl|].
  apply put_advances; [done| |done|done]. unfold mark. rewrite Hrow. by split.
Qed.

Lemma tryAllocate_spec t tag reqStep f t' r :
  table_ok t -> is_u32 reqStep -> tryAllocate t tag reqStep f = (t', r) ->
  advances tag t t' /\
  forall lo hi, r = Ok (Some (lo, hi)) ->
    lo = mark t tag /\ hi = mark t' tag /\ lo < hi < IdSegmentCap /\ is_Some (t !! tag) /\
    (reqStep <> 0 -> hi = lo + reqStep).
Proof.
  intros Hok Hreq. unfold tryAllocate.
  assert (forall r1, (t, r1) = (t', r) -> (forall g, r1 <> Ok (Some g)) ->
    advances tag t t' /\ forall lo hi, r = Ok (Some (lo, hi)) ->
      lo = mark t tag /\ hi = mark t' tag /\ lo < hi < IdSegmentCap /\ is_Some (t !! tag) /\
      (reqStep <> 0 -> hi = lo + reqStep)) as Hskip.
  { intros r1 [= <- <-] Hno. split; [by apply advances_refl|]. intros lo h ->. by destruct (Hno (lo, h)). }
  destruct (t !! tag) as [cur|] eqn:Hrow; [|destruct f as [[]|]; intros Heq; by eapply Hskip].
  destruct (Hok _ _ Hrow) as (Hmax & Hst & Hv). assert (Hcap := cap_value).
  set (lo := if sg_max_id cur <? IdSegmentFirstID then IdSegmentFirstID else sg_max_id cur).
  assert (Hlo : lo = mark t tag) by (unfold lo, mark; rewrite Hrow; split_if; zbool; lia).
  assert (1 <= lo < IdSegmentCap) as Hlor by (unfold lo, IdSegmentFirstID in *; split_if; zbool; lia).
  set (use := if reqStep =? 0 then sg_step cur else reqStep).
  assert (is_u32 use) as Huse by (unfold use; by split_if).
  assert (reqStep <> 0 -> use = reqStep) as Hreq0 by (unfold use; split_if; zbool; lia).
  clearbody lo use. destruct f as [[e b|e b landed]|]; [intros Heq; by eapply Hskip|..].
  all: destruct ((use =? 0) || (IdSegmentMaxStep <? use)) eqn:Hu; [intros Heq; by eapply Hskip|].
  all: unfold IdSegmentMaxStep in Hu; zbool; rewrite (u64_small (lo + use)) by (unfold is_u64, u64_mod, is_u32 in *; lia).
  all: destruct (IdSegmentCap <=? lo + use) eqn:Hc; [intros Heq; by eapply Hskip|].
  all: destruct (u64_mod <=? sg_version cur + 1) eqn:Hv1; [intros Heq; by eapply Hskip|]; zbool.
  all: destruct (put_advances tag t (lo + use) use (sg_version cur + 1)) as [Hadv Hm];
    [done|unfold is_u32 in *; lia|done|unfold is_u64 in *; lia|].
  - destruct landed; intros Heq; [|by eapply Hskip]. by injection Heq as <- <-.
  - intros [= <- <-]. split; [done|]. intros lo' h [= <- <-]. unfold is_u32 in *. rewrite Hm.
    split_and!; try done; lia.
Qed.

Lemma max_consumed_bounds ids :
  0 <= max_consumed ids < IdSegmentCap /\ forall id, id ∈ ids -> id < IdSegmentCap -> id <= max_consumed ids.
Proof.
  unfold max_consumed. induction ids as [|id ids [IH1 IH2]]; cbn; [split; [done|set_solver]|].
  split_if; zbool; cbn; (split; [lia|]); intros x [->|Hx]%elem_of_cons Hlt; try lia; specialize (IH2 _ Hx Hlt); lia.
Qed.

Lemma raise_advances t mid tag consumed t' r :
  table_ok mid -> raiseIdSegmentFloor t mid tag consumed = (t', r) ->
  advances tag mid t' /\
  (forall ids row, consumed = Some ids -> t !! tag = Some row -> mark t tag <= mark mid tag ->
    is_Some (mid !! tag) -> r = Ok () -> forall id, id ∈ ids -> id < IdSegmentCap -> id < mark t' tag).
Proof.
  intros Hok. unfold raiseIdSegmentFloor.
  destruct consumed as [ids|]; [|intros [= <- <-]; split; [by apply advances_refl|done]].
  destruct (t !! tag) as [row|] eqn:Hrow; [|intros [= <- <-]; split; [by apply advances_refl|done]].
  destruct (max_consumed_bounds ids) as [Hm Hall]. assert (Hcap := cap_value).
  destruct (max_consumed ids <? sg_max_id row) eqn:Hlt; zbool.
  { intros [= <- <-]. split; [by apply advances_refl|]. intros ids' row' [= <-] [= <-] Hmark _ _ id Hid Hid'.
    specialize (Hall _ Hid Hid'). unfold mark in Hmark at 1. rewrite Hrow in Hmark. lia. }
  rewrite u64_small by (unfold is_u64, u64_mod; lia).
  destruct (mid !! tag) as [cur|] eqn:Hcur; [|intros [= <- <-]; split; [by apply advances_refl|]; intros ????? []%is_Some_None].
  destruct (Hok _ _ Hcur) as (Hmax & Hst & Hv).
  assert (Hmk : mark mid tag = Z.max 1 (sg_max_id cur)) by (unfold mark; by rewrite Hcur).
  destruct (sg_max_id cur <? max_consumed ids + 1) eqn:Hge; cbn [negb]; zbool.
  2: { intros [= <- <-]. split; [by apply advances_refl|]. intros ids' row' [= <-] _ _ _ _ id Hid Hid'.
       specialize (Hall _ Hid Hid'). lia. }
  destruct (IdSegmentCap <=? max_consumed ids + 1) eqn:Hc; [intros [= <- <-]; split; [by apply advances_refl|done]|].
  destruct (u64_mod <=? sg_version cur + 1) eqn:Hv1; [intros [= <- <-]; split; [by apply advances_refl|done]|].
  zbool. destruct (put_advances tag mid (max_consumed ids + 1) (sg_step cur) (sg_version cur + 1)) as [Hadv Hm'];
    [done|lia|done|unfold is_u64 in *; lia|].
  intros [= <- <-]. split; [done|]. intros ids' row' [= <-] _ _ _ _ id Hid Hid'. specialize (Hall _ Hid Hid'). lia.
Qed.

Lemma advances_trans tag t1 t2 t3 : advances tag t1 t2 -> advances tag t2 t3 -> advances tag t1 t3.
Proof. intros (? & H1 & ?) (? & H2 & ?). unfold advances. split_and!; [done|intros; by rewrite H2, H1|lia]. Qed.

(** A whole call of [Allocate], with what the rest of the world does between its
    statements: the range it answers starts at or above the mark before the call, and
    ends at or below the mark after it. *)
Lemma Allocate_spec seed tag step others faults seed_faults t t' r :
  table_ok t -> is_u32 step -> (forall n t, table_ok t -> advances tag t (others n t)) ->
  Allocate seed tag step others faults seed_faults t = (t', r) ->
  advances tag t t' /\
  forall lo hi, r = Ok (lo, hi) -> mark t tag <= lo < hi /\ hi <= mark t' tag /\ hi < IdSegmentCap.
Proof.
  intros Hok Hst Ho. unfold Allocate.
  assert (forall x, (t, @Err (Z * Z) x) = (t', r) -> advances tag t t' /\
    forall lo hi, r = Ok (lo, hi) -> mark t tag <= lo < hi /\ hi <= mark t' tag /\ hi < IdSegmentCap) as Hskip.
  { intros x [= <- <-]. split; [by apply advances_refl|done]. }
  split_if; [intros H; by eapply Hskip|]. split_if; [intros H; by eapply Hskip|].
  clear Hskip. generalize idSegmentTxAttempts as left. generalize 0%nat as attempt.
  intros attempt left. revert attempt t Hok.
  induction left as [|left IH]; intros attempt t Hok; cbn [allocate_loop].
  { intros [= <- <-]. split; [by apply advances_refl|done]. }
  specialize (Ho (2 * attempt)%nat t Hok) as Ho1. set (t0 := others (2 * attempt)%nat t) in *.
  destruct Ho1 as (Hok0 & Hrest). destruct (tryAllocate t0 tag step (faults attempt)) as [t1 r1] eqn:Ht.
  destruct (tryAllocate_spec _ _ _ _ _ _ Hok0 Hst Ht) as [Hadv Hg].
  assert (advances tag t t1) as Hadv1 by (eapply advances_trans; [split; [exact Hok0|exact Hrest]|done]).
  assert (mark t tag <= mark t0 tag) by (by destruct Hrest).
  assert (forall a t2, advances tag t1 t2 ->
    allocate_loop seed tag step others faults seed_faults left a t2 = (t', r) -> advances tag t t' /\
    forall lo hi, r = Ok (lo, hi) -> mark t tag <= lo < hi /\ hi <= mark t' tag /\ hi < IdSegmentCap) as Hagain.
  { intros a t2 Ht2 Hl. pose proof (advances_trans _ _ _ _ Hadv1 Ht2) as Hadv2. destruct (Hadv2) as (Hok2 & _ & Hm2).
    destruct (IH _ _ Hok2 Hl) as [Hadv' Hr]. split; [by eapply advances_trans|].
    intros lo h Heq. destruct (Hr _ _ Heq) as ([? ?] & ? & ?). repeat split; lia. }
  assert (table_ok t1) as Hok1 by apply Hadv1.
  destruct r1 as [[[lo h]|]|x].
  - intros [= <- <-]. split; [done|]. intros lo' h' [= <- <-].
    destruct (Hg _ _ eq_refl) as (-> & -> & ? & _). repeat split; lia.
  - split_if; [intros [= <- <-]; by split|]. split_if; [intros [= <- <-]; by split|].
    specialize (Ho (2 * attempt + 1)%nat t1 Hok1) as Ho2.
    destruct (seed_faults attempt); [intros [= <- <-]; split; [by eapply advances_trans|done]|].
    apply Hagain. eapply advances_trans; [exact Ho2|]. apply insert_ignore_advances; [exact (proj1 Ho2)|done].
  - split_if; [|intros [= <- <-]; by split]. apply Hagain. by apply advances_refl.
Qed.
