(* ===== verification/IdSegmentSys.v ===== *)
(** * Permanent identifiers: all the clients of a tag

    The clients of one tag, the table, and the answers on their way, as a transition
    system. Its invariant: the numbers handed out, held by a client or on their way are
    all different, and below the mark of the table. *)

From stdpp Require Import base list gmap sorting strings relations.
From Stdlib Require Import ZArith Lia.
From S2P Require Import Prelude IdSegment IdSegmentThms.
Local Open Scope Z_scope.

Section system.
Context (tag : string).

(** The answers on their way carry the client they are for. [is_out]: the numbers
    handed out. *)
Record IdSys := mkIdSys {
  is_table : IdTable; is_clients : gmap Z Client; is_replies : list (Z * (Z * Z)); is_out : list Z }.

Inductive id_step (s : IdSys) : IdSys -> Prop :=
  (** a process starts, with its client *)
  | st_start k b o c : is_clients s !! k = None -> BizTag o = tag -> New b o = Ok c ->
      id_step s (mkIdSys (is_table s) (<[k := c]> (is_clients s)) (is_replies s) (is_out s))
  (** a process dies *)
  | st_die k : id_step s (mkIdSys (is_table s) (delete k (is_clients s)) (is_replies s) (is_out s))
  (** the transaction of some request of a process *)
  | st_allocate k step f t' r : is_u32 step -> tryAllocate (is_table s) tag step f = (t', r) ->
      id_step s (mkIdSys t' (is_clients s)
        (match granted r with Some g => (k, g) :: is_replies s | None => is_replies s end) (is_out s))
  (** an answer is lost *)
  | st_lose i r : is_replies s !! i = Some r -> id_step s (mkIdSys (is_table s) (is_clients s) (delete i (is_replies s)) (is_out s))
  (** an answer arrives *)
  | st_reply i k c c' lo hi now e : is_clients s !! k = Some c -> is_replies s !! i = Some (k, (lo, hi)) ->
      finishFetch (Ok (lo, hi)) now c = (c', e) ->
      id_step s (mkIdSys (is_table s) (<[k := c']> (is_clients s)) (delete i (is_replies s)) (is_out s))
  (** a fetch fails, or times out *)
  | st_fail k c c' x now e : is_clients s !! k = Some c -> finishFetch (Err x) now c = (c', e) ->
      id_step s (mkIdSys (is_table s) (<[k := c']> (is_clients s)) (is_replies s) (is_out s))
  (** calls *)
  | st_next k c c' now p : is_clients s !! k = Some c -> NextLocked now c = (c', p) ->
      id_step s (mkIdSys (is_table s) (<[k := c']> (is_clients s)) (is_replies s)
        (match p with Some (Issued id) => id :: is_out s | _ => is_out s end))
  | st_warm k c c' r : is_clients s !! k = Some c -> Warm c = (c', r) ->
      id_step s (mkIdSys (is_table s) (<[k := c']> (is_clients s)) (is_replies s) (is_out s))
  | st_close k c : is_clients s !! k = Some c ->
      id_step s (mkIdSys (is_table s) (<[k := Close c]> (is_clients s)) (is_replies s) (is_out s))
  (** the rows: sown by a call of [Allocate], made and raised by a migration, and those
      of other tags *)
  | st_sow step : is_u32 step ->
      id_step s (mkIdSys (insert_ignore (is_table s) tag step) (is_clients s) (is_replies s) (is_out s))
  | st_raise t consumed t' r : raiseIdSegmentFloor t (is_table s) tag consumed = (t', r) ->
      id_step s (mkIdSys t' (is_clients s) (is_replies s) (is_out s))
  | st_other t' : t' !! tag = is_table s !! tag -> table_ok t' ->
      id_step s (mkIdSys t' (is_clients s) (is_replies s) (is_out s)).

(** The numbers of a range, of a client, and all that are around. *)
Definition ids_of (lo hi : Z) : list Z := seqZ lo (hi - lo).
Definition held_ids (c : Client) : list Z :=
  ids_of (pos (cur c)) (hi (cur c)) ++ from_option (fun s => ids_of (pos s) (hi s)) [] (next c).
Definition reply_ids (r : Z * (Z * Z)) : list Z := ids_of r.2.1 r.2.2.
Definition numbers (s : IdSys) : list Z :=
  is_out s ++ (is_replies s ≫= reply_ids) ++ (map_to_list (is_clients s) ≫= (fun kc => held_ids kc.2)).

(** [m0]: the mark at the beginning. *)
Record id_inv (m0 : Z) (s : IdSys) : Prop := {
  ii_table : table_ok (is_table s);
  ii_distinct : NoDup (numbers s);
  ii_marked : forall id, id ∈ numbers s -> m0 <= id < mark (is_table s) tag;
  ii_mark : 1 <= m0 <= mark (is_table s) tag }.

Lemma mark_range t : table_ok t -> 1 <= mark t tag <= IdSegmentCap.
Proof.
  intros Hok. unfold mark, IdSegmentFirstID. destruct (t !! tag) as [r|] eqn:Hr; [|by rewrite cap_value].
  destruct (Hok _ _ Hr) as [? _]. rewrite cap_value in *. lia.
Qed.

(** What keeps the invariant: no number appears, and the mark does not go back. *)
Lemma id_inv_fewer m0 s s' :
  id_inv m0 s -> table_ok (is_table s') -> mark (is_table s) tag <= mark (is_table s') tag ->
  numbers s' ⊆+ numbers s -> id_inv m0 s'.
Proof.
  intros [Ht Hd Hm Hm0] Ht' Hmark Hsub. split; [done| | |lia].
  - apply submseteq_Permutation in Hsub as [k Hk]. rewrite Hk in Hd. by apply NoDup_app in Hd as [? _].
  - intros id Hid. destruct (Hm id); [by eapply elem_of_submseteq|lia].
Qed.

(** The numbers, with one client or one answer apart. *)
Lemma numbers_client s k c :
  is_clients s !! k = Some c ->
  numbers s ≡ₚ held_ids c ++ numbers (mkIdSys (is_table s) (delete k (is_clients s)) (is_replies s) (is_out s)).
Proof.
  intros Hk. unfold numbers. cbn. rewrite <- (map_to_list_delete _ _ _ Hk). cbn.
  by rewrite !app_assoc, (Permutation_app_comm _ (held_ids c)), !app_assoc.
Qed.

Lemma numbers_put t cs reps out k c :
  numbers (mkIdSys t (<[k := c]> cs) reps out) ≡ₚ held_ids c ++ numbers (mkIdSys t (delete k cs) reps out).
Proof.
  rewrite (numbers_client _ k c) by apply lookup_insert_eq. cbn. by rewrite delete_insert_eq.
Qed.

Lemma numbers_reply t cs reps out i r :
  reps !! i = Some r ->
  numbers (mkIdSys t cs reps out) ≡ₚ reply_ids r ++ numbers (mkIdSys t cs (delete i reps) out).
Proof.
  intros Hi. unfold numbers. cbn. rewrite (delete_Permutation _ _ _ Hi) at 1. cbn.
  rewrite <- !app_assoc, !(Permutation_app_comm out), <- !app_assoc. done.
Qed.

Lemma numbers_die s k :
  numbers (mkIdSys (is_table s) (delete k (is_clients s)) (is_replies s) (is_out s)) ⊆+ numbers s.
Proof.
  destruct (is_clients s !! k) as [c|] eqn:Hk.
  - rewrite (numbers_client s k c Hk). by apply submseteq_inserts_l.
  - rewrite delete_id by done. done.
Qed.

(** *** What the operations of a client do to the numbers it holds *)
Lemma ids_of_nil lo h : h <= lo -> ids_of lo h = [].
Proof. intros ?. unfold ids_of. apply seqZ_nil. lia. Qed.

Lemma ids_of_cons lo h : lo < h -> ids_of lo h = lo :: ids_of (lo + 1) h.
Proof. intros ?. unfold ids_of. rewrite seqZ_cons by lia. do 2 f_equal; lia. Qed.

Lemma elem_of_ids_of lo h id : id ∈ ids_of lo h <-> lo <= id < h.
Proof. unfold ids_of. rewrite elem_of_seqZ. lia. Qed.

Lemma issue_held now c c' id :
  (pos (cur c) < hi (cur c) -> pos (cur c) + 1 < u64_mod) -> 0 <= pos (cur c) -> 0 < remaining (cur c) ->
  issue now c = (c', id) -> held_ids c = id :: held_ids c'.
Proof.
  intros Hb H0 Hrem Hi. destruct (issue_fields _ _ _ _ Hi) as (-> & _ & Hn & _ & Hc). apply remaining_pos in Hrem.
  unfold held_ids. rewrite Hn, Hc. cbn. rewrite u64_small by (unfold is_u64; lia). by rewrite (ids_of_cons _ _ Hrem).
Qed.

Lemma next_pass_held fuel now c c' p :
  (forall id, id ∈ held_ids c -> 0 <= id < IdSegmentCap) ->
  next_pass fuel now c = (c', p) ->
  held_ids c = match p with Some (Issued id) => id :: held_ids c' | _ => held_ids c' end.
Proof.
  revert c. induction fuel as [|fuel IH]; intros c Hr; cbn [next_pass]; [by intros [= <- <-]|].
  destruct (closed c); [by intros [= <- <-]|].
  destruct (0 <? remaining (cur c)) eqn:Hrem; zbool.
  { destruct (issue now c) as [c1 id] eqn:Hi. intros [= <- <-].
    assert (0 <= pos (cur c) < IdSegmentCap) as Hp.
    { apply Hr. unfold held_ids. rewrite elem_of_app, elem_of_ids_of. left. apply remaining_pos in Hrem. lia. }
    rewrite cap_value in Hp. eapply issue_held; [|lia|done|done]. unfold u64_mod. lia. }
  destruct (next c) as [s|] eqn:Hn.
  { intros Hp. assert (held_ids c = held_ids (set_next None (set_cur s (Some now) c))) as He.
    { unfold held_ids. rewrite Hn. cbn. rewrite app_nil_r, ids_of_nil; [done|].
      apply remaining_zero. revert Hrem. unfold remaining. split_if; lia. }
    rewrite He. apply IH; [|done]. by rewrite <- He. }
  destruct (inflight c); [by intros [= <- <-]|].
  by split_if; intros [= <- <-].
Qed.

Lemma finish_held r now c c' e :
  finishFetch r now c = (c', e) ->
  held_ids c' ⊆+ match r with Ok g => ids_of g.1 g.2 | Err _ => [] end ++ held_ids c.
Proof.
  unfold finishFetch. destruct r as [[lo h]|x]; [|by intros [= <- <-]].
  split_if; intros [= <- <-]; [|by apply submseteq_inserts_l].
  unfold held_ids. cbn. rewrite (Permutation_app_comm (ids_of lo h)), <- app_assoc.
  apply submseteq_skips_l. by apply submseteq_inserts_l.
Qed.

(** *** The invariant *)
Lemma id_step_inv m0 s s' : id_inv m0 s -> id_step s s' -> id_inv m0 s'.
Proof.
  intros Hinv Hstep. pose proof Hinv as [Ht Hd Hm Hm0]. pose proof (mark_range _ Ht) as Hmr.
  assert (forall k c c' fewer, is_clients s !! k = Some c -> held_ids c' ⊆+ fewer ++ held_ids c ->
    numbers (mkIdSys (is_table s) (<[k := c']> (is_clients s)) (is_replies s) (is_out s)) ⊆+ fewer ++ numbers s) as Hput.
  { intros k c c' fewer Hk Hsub. rewrite numbers_put, (numbers_client s k c Hk), app_assoc.
    by apply submseteq_skips_r. }
  destruct Hstep as [k b o c Hk Htag Hnew|k|k step f t' r Hst Htry|i r Hi|i k c c' lo h now e Hk Hi Hf
    |k c c' x now e Hk Hf|k c c' now p Hk Hp|k c c' r Hk Hw|k c Hk|step Hst|t consumed t' r Hr|t' Hrow Ht'].
  - eapply id_inv_fewer; [done|done|cbn; lia|]. rewrite numbers_put, delete_id by done.
    unfold New in Hnew. res_inv. done.
  - eapply id_inv_fewer; [done|done|cbn; lia|apply numbers_die].
  - destruct (tryAllocate_spec _ _ _ _ _ _ Ht Hst Htry) as [(Ht' & _ & Hmark) Hg].
    destruct (granted r) as [[lo h]|] eqn:Hgr; [|by eapply id_inv_fewer].
    destruct r as [g|x]; [|done]. cbn in Hgr. subst g. destruct (Hg _ _ eq_refl) as (-> & -> & Hlt & _).
    assert (numbers (mkIdSys t' (is_clients s) ((k, (mark (is_table s) tag, mark t' tag)) :: is_replies s) (is_out s))
      ≡ₚ ids_of (mark (is_table s) tag) (mark t' tag) ++ numbers s) as Hn.
    { rewrite (numbers_reply _ _ _ _ 0 (k, (mark (is_table s) tag, mark t' tag))) by done. done. }
    split; cbn; [done| | |lia].
    + rewrite Hn. apply NoDup_app. split_and!; [apply NoDup_seqZ| |done].
      intros id Hid%elem_of_ids_of Hid'%Hm. lia.
    + intros id. rewrite Hn, elem_of_app, elem_of_ids_of. intros [?|?%Hm]; lia.
  - eapply id_inv_fewer; [done|done|cbn; lia|]. unfold numbers. cbn. apply submseteq_skips_l, submseteq_skips_r.
    rewrite (delete_Permutation _ _ _ Hi) at 2. cbn. by apply submseteq_inserts_l.
  - eapply id_inv_fewer; [done|done|cbn; lia|]. rewrite numbers_put.
    etrans; [apply submseteq_skips_r, (finish_held _ _ _ _ _ Hf)|]. rewrite <- app_assoc.
    assert (numbers s ≡ₚ ids_of lo h ++ numbers (mkIdSys (is_table s) (is_clients s) (delete i (is_replies s)) (is_out s)))
      as Hn by (destruct s; by apply (numbers_reply _ _ _ _ _ _ Hi)).
    rewrite Hn. apply submseteq_skips_l.
    by rewrite (numbers_client (mkIdSys (is_table s) (is_clients s) (delete i (is_replies s)) (is_out s)) k c Hk).
  - eapply id_inv_fewer; [done|done|cbn; lia|]. apply (Hput k c c' []); [done|by apply finish_held in Hf].
  - assert (forall id, id ∈ held_ids c -> 0 <= id < IdSegmentCap) as Hr.
    { intros id Hid. assert (id ∈ numbers s) as Hin by (rewrite (numbers_client s k c Hk), elem_of_app; by left).
      destruct (Hm _ Hin). lia. }
    pose proof (next_pass_held _ _ _ _ _ Hr Hp) as Hh.
    eapply id_inv_fewer; [done|done|cbn; lia|].
    rewrite (numbers_client s k c Hk), Hh. destruct p as [[id| | |]|].
    1: { change (id :: numbers (mkIdSys (is_table s) (<[k := c']> (is_clients s)) (is_replies s) (is_out s)) ⊆+
           id :: (held_ids c' ++ numbers (mkIdSys (is_table s) (delete k (is_clients s)) (is_replies s) (is_out s)))).
         by rewrite numbers_put. }
    all: by rewrite numbers_put.
  - eapply id_inv_fewer; [done|done|cbn; lia|]. apply (Hput k c c' []); [done|].
    revert Hw. unfold Warm. repeat (case_match || split_if); by intros [= <- <-].
  - eapply id_inv_fewer; [done|done|cbn; lia|]. apply (Hput k c _ []); [done|]. unfold Close. by split_if.
  - destruct (insert_ignore_advances tag _ _ Ht Hst) as (? & _ & ?). by eapply id_inv_fewer.
  - destruct (raise_advances _ _ _ _ _ _ Ht Hr) as [(? & _ & ?) _]. by eapply id_inv_fewer.
  - eapply id_inv_fewer; [done|done| |done]. cbn. unfold mark. by rewrite Hrow.
Qed.

Definition id_start (t : IdTable) : IdSys := mkIdSys t ∅ [] [].

Lemma id_run_inv t s : table_ok t -> rtc id_step (id_start t) s -> id_inv (mark t tag) s.
Proof.
  intros Ht Hrun. eapply (rtc_keeps id_step); [intros ????; by eapply id_step_inv|exact Hrun|].
  - pose proof (mark_range _ Ht). split; cbn; [done|constructor| |lia].
    intros id. unfold numbers. cbn. rewrite map_to_list_empty. set_solver.
Qed.

(** C9: no identifier is given twice. However many processes of however many services
    hand out the identifiers of a tag, in whatever order their fetches, the transactions
    of the table, lost answers, failed commits, restarts and migrations come, the
    numbers handed out are all different, not below the mark the table began with, and
    below 2^55. *)
Theorem ids_never_repeat t s :
  table_ok t -> rtc id_step (id_start t) s ->
  NoDup (is_out s) /\ forall id, id ∈ is_out s -> mark t tag <= id < 2 ^ 55.
Proof.
  intros Ht Hrun. destruct (id_run_inv _ _ Ht Hrun) as [Ht' Hd Hm _].
  unfold numbers in Hd. apply NoDup_app in Hd as [Hd _]. split; [done|].
  intros id Hid. destruct (Hm id) as [? ?]; [unfold numbers; rewrite elem_of_app; by left|].
  pose proof (mark_range _ Ht') as Hmr. rewrite cap_value in Hmr. lia.
Qed.

Lemma bootstrap_ok t tags t' : table_ok t -> bootstrapIdSegmentRows t tags = (t', Ok ()) ->
  table_ok t' /\ (tag ∈ tags -> is_Some (t' !! tag)) /\ mark t tag <= mark t' tag /\ (is_Some (t !! tag) -> is_Some (t' !! tag)).
Proof.
  revert t. induction tags as [|x tags IH]; intros t Ht; cbn.
  { intros [= <-]. split_and!; [done|set_solver|done|done]. }
  split_if; [done|]. intros Hb.
  destruct (insert_ignore_advances x t IdSegmentBootstrapStep Ht) as (Ht1 & Ho & Hm); [done|].
  destruct (IH _ Ht1 Hb) as (Ht2 & Hin & Hm2 & Hs). split; [done|].
  assert (is_Some (t !! tag) -> is_Some (insert_ignore t x IdSegmentBootstrapStep !! tag)) as Hkeep.
  { destruct (decide (tag = x)) as [<-|Hne]; [|by rewrite Ho by done].
    unfold insert_ignore. intros [r Hr]. by rewrite Hr, Hr. }
  split_and!; [|destruct (decide (tag = x)) as [<-|Hne]; [lia|]|auto].
  - intros [<-|?]%elem_of_cons; [|auto]. apply Hs. unfold insert_ignore.
    destruct (t !! tag) eqn:Hr; [by rewrite Hr|by rewrite lookup_insert_eq].
  - unfold mark at 1. rewrite <- (Ho tag) by done. exact Hm2.
Qed.

(** A restored counter gives nothing out again. Whatever backup the table comes from,
    after a migration that sows the row of the tag and raises it above the identifiers
    in the consuming table, no process ever hands out an identifier of that table. *)
Theorem restored_ids_are_new t t1 t2 tags consumed s :
  table_ok t -> tag ∈ tags ->
  bootstrapIdSegmentRows t tags = (t1, Ok ()) ->
  raiseIdSegmentFloor t1 t1 tag (Some consumed) = (t2, Ok ()) ->
  rtc id_step (id_start t2) s ->
  forall id, id ∈ is_out s -> id ∉ consumed.
Proof.
  intros Ht Htag Hb Hr Hrun id Hid Hc.
  destruct (bootstrap_ok _ _ _ Ht Hb) as (Ht1 & Hsome & _). destruct (Hsome Htag) as [row Hrow].
  destruct (raise_advances _ _ _ _ _ _ Ht1 Hr) as [(Ht2 & _ & _) Habove].
  destruct (id_run_inv _ _ Ht2 Hrun) as [Ht' _ Hm _].
  destruct (Hm id) as [Hge Hlt]; [unfold numbers; rewrite elem_of_app; by left|].
  pose proof (mark_range _ Ht') as Hmr.
  specialize (Habove consumed row eq_refl Hrow (Z.le_refl _) (mk_is_Some _ _ Hrow) eq_refl id Hc ltac:(lia)). lia.
Qed.
End system.

(** ** A sample: two services, one tag *)
Definition ex_options : Options := mkOptions "guild" 100 0 0 f_zero 0 0 0.
Definition ex_none : Client := mkClient ex_options (mkSegment 0 0 0) None 0 None None None 0 true 0 0 0 0 0 0.
Definition ex_new : Client := match New false ex_options with Ok c => c | Err _ => ex_none end.
Definition ex_asked : Client := (NextLocked 0 ex_new).1.
Definition ex_filled (lo hi : Z) : Client := (finishFetch (Ok (lo, hi)) Second ex_asked).1.
Definition ex_gave (lo hi : Z) : Client := (NextLocked Second (ex_filled lo hi)).1.

Lemma ex_options_ok : options_ok ex_options.
Proof. by vm_compute. Qed.

Lemma client_ids_ascend_witness :
  client_run ex_new [2; 1] ((NextLocked Second (ex_gave 1 101)).1) /\
  StronglySorted (fun a b => b < a) [2; 1] /\ MaxIDExclusive (opt ex_new) <= 2 ^ 55.
Proof.
  assert (client_run ex_new [2; 1] ((NextLocked Second (ex_gave 1 101)).1)) as Hrun.
  { apply (cr_step _ [1] (ex_gave 1 101) (Some 2)).
    - apply (cr_step _ [] (ex_filled 1 101) (Some 1)).
      + apply (cr_step _ [] ex_asked None); [|eapply (cs_fetch _ (Ok (1, 101)) Second); [by vm_compute|by vm_compute]].
        apply (cr_step _ [] ex_new None); [constructor|]. by apply (cs_next _ 0 _ (Some WaitFetch)).
      + by apply (cs_next _ Second _ (Some (Issued 1))).
    - by apply (cs_next _ Second _ (Some (Issued 2))). }
  split; [exact Hrun|].
  destruct (client_ids_ascend false ex_options ex_new [2; 1] _ ex_options_ok eq_refl Hrun) as (H1 & _ & H2 & _).
  split; [exact H1|exact H2].
Defined.

Definition ex_table : IdTable := {[ "guild"%string := mkSegRow 1 100 0 ]}.
Definition ex_table' : IdTable := {[ "guild"%string := mkSegRow 201 100 2 ]}.

(** Both services start, ask, are given [1, 101) and [101, 201), and hand out 1 and 101. *)
Definition ex_end : IdSys :=
  mkIdSys ex_table' (<[1 := ex_gave 1 101]> (<[2 := ex_gave 101 201]> ∅)) [] [101; 1].

Ltac id_do H := eapply rtc_l; [eapply H; by vm_compute|].

Lemma ex_id_run : rtc (id_step "guild") (id_start ex_table) ex_end.
Proof.
  id_do (st_start "guild" (id_start ex_table) 1 false ex_options ex_new).
  match goal with |- rtc _ ?s _ => id_do (st_start "guild" s 2 false ex_options ex_new) end.
  match goal with |- rtc _ ?s _ => id_do (st_next "guild" s 1 ex_new ex_asked 0 (Some WaitFetch)) end.
  match goal with |- rtc _ ?s _ => id_do (st_next "guild" s 2 ex_new ex_asked 0 (Some WaitFetch)) end.
  match goal with |- rtc _ ?s _ => id_do (st_allocate "guild" s 1 100 None {["guild"%string := mkSegRow 101 100 1]} (Ok (Some (1, 101)))) end.
  match goal with |- rtc _ ?s _ => id_do (st_allocate "guild" s 2 100 None ex_table' (Ok (Some (101, 201)))) end.
  match goal with |- rtc _ ?s _ => id_do (st_reply "guild" s 1 1 ex_asked (ex_filled 1 101) 1 101 Second None) end.
  match goal with |- rtc _ ?s _ => id_do (st_reply "guild" s 0 2 ex_asked (ex_filled 101 201) 101 201 Second None) end.
  match goal with |- rtc _ ?s _ => id_do (st_next "guild" s 1 (ex_filled 1 101) (ex_gave 1 101) Second (Some (Issued 1))) end.
  match goal with |- rtc _ ?s _ => id_do (st_next "guild" s 2 (ex_filled 101 201) (ex_gave 101 201) Second (Some (Issued 101))) end.
  match goal with |- rtc _ ?s ?t => replace s with t by (vm_compute; reflexivity) end.
  apply rtc_refl.
Qed.

Lemma one_row_ok m st v : seg_row_ok (mkSegRow m st v) -> table_ok {["guild"%string := mkSegRow m st v]}.
Proof. intros Hok. by apply map_Forall_singleton. Qed.

Lemma ids_never_repeat_witness :
  rtc (id_step "guild") (id_start ex_table) ex_end /\ NoDup [101; 1] /\ (mark ex_table "guild" <= 101 < 2 ^ 55).
Proof.
  split; [exact ex_id_run|].
  assert (Hok : table_ok ex_table) by (apply one_row_ok; by vm_compute).
  destruct (ids_never_repeat "guild" ex_table ex_end Hok ex_id_run) as [H1 H2].
  split; [exact H1|]. apply H2. left.
Defined.

(** The backup says 5; the table of guilds holds 150, and an old identifier above the cap. *)
Definition ex_backup : IdTable := {[ "guild"%string := mkSegRow 5 100 7 ]}.
Definition ex_consumed : list Z := [3; 150; 1152921504606846976].
Definition ex_raised : IdTable := {[ "guild"%string := mkSegRow 151 100 8 ]}.
Definition ex_after : IdSys :=
  mkIdSys {[ "guild"%string := mkSegRow 251 100 9 ]} (<[1 := ex_gave 151 251]> ∅) [] [151].

Lemma ex_restored_run : rtc (id_step "guild") (id_start ex_raised) ex_after.
Proof.
  id_do (st_start "guild" (id_start ex_raised) 1 false ex_options ex_new).
  match goal with |- rtc _ ?s _ => id_do (st_next "guild" s 1 ex_new ex_asked 0 (Some WaitFetch)) end.
  match goal with |- rtc _ ?s _ => id_do (st_allocate "guild" s 1 100 None {["guild"%string := mkSegRow 251 100 9]} (Ok (Some (151, 251)))) end.
  match goal with |- rtc _ ?s _ => id_do (st_reply "guild" s 0 1 ex_asked (ex_filled 151 251) 151 251 Second None) end.
  match goal with |- rtc _ ?s _ => id_do (st_next "guild" s 1 (ex_filled 151 251) (ex_gave 151 251) Second (Some (Issued 151))) end.
  match goal with |- rtc _ ?s ?t => replace s with t by (vm_compute; reflexivity) end.
  apply rtc_refl.
Qed.

Lemma restored_ids_are_new_witness :
  raiseIdSegmentFloor ex_backup ex_backup "guild" (Some ex_consumed) = (ex_raised, Ok ()) /\ 151 ∉ ex_consumed.
Proof.
  assert (Hraise : raiseIdSegmentFloor ex_backup ex_backup "guild" (Some ex_consumed) = (ex_raised, Ok ()))
    by (vm_compute; reflexivity).
  split; [exact Hraise|].
  assert (Hok : table_ok ex_backup) by (apply one_row_ok; by vm_compute).
  assert (Hboot : bootstrapIdSegmentRows ex_backup ["guild"%string] = (ex_backup, Ok ())) by (vm_compute; reflexivity).
  apply (restored_ids_are_new "guild" ex_backup ex_backup ex_raised ["guild"%string] ex_consumed ex_after Hok);
    [left|exact Hboot|exact Hraise|exact ex_restored_run|left].
Defined.

Lemma Next_returns_witness :
  let answers := fun i => match i with 0%nat => Ok (1, 101) | _ => Err "gone"%string end in
  exists c' r, Next 3 0 (alone (fun _ => None) answers (fun _ => 0)) (fun _ => 0) ex_new = (c', Some r) /\
    (closed ex_new = false -> (exists id, r = Ok id) \/
      (r = Err ErrSegmentUnavailable /\ (excused (fun _ => None) answers ex_new 0 \/ excused (fun _ => None) answers ex_new 1))).
Proof.
  cbv zeta. destruct (Next_returns 0 ex_new (fun _ => None)
    (fun i => match i with 0%nat => Ok (1, 101) | _ => Err "gone"%string end) (fun _ => 0)) as (c' & r & H1 & _ & H2).
  - destruct (New_ok false ex_options ex_new ex_options_ok eq_refl) as [H _]. exact H.
  - intros nb [=].
  - exists c', r. split; [exact H1|exact H2].
Defined.
