(* ===== verification/Snowflake.v ===== *)
(** * Numbers with a clock: the snowflake generator

    [go/shared/snowflake] ([snowflake.go], [fenceclock.go]) and, of its allocator
    ([go/shared/snowflakealloc]), the layout of a worker number ([layout.go]), the
    choice of a slot ([selection.go]) and its options. A number is 32 bits of seconds
    since [Epoch], 17 bits of worker and 15 bits of step. What a call reads outside the
    node - the clocks, the fence - is an argument. The claims, the watermark and the
    handles of the allocator are in [SlotAlloc]. The theorems about one node and one
    choice follow the definitions. *)
From stdpp Require Import base list gmap strings sorting.
From Stdlib Require Import ZArith Lia Sorted.
From S2P Require Import Prelude.
Local Open Scope Z_scope.
Local Open Scope go_scope.

Definition Epoch : Z := 1773446400.
Definition NodeBits : Z := 17.
Definition StepBits : Z := 15.
Definition timeShift : Z := NodeBits + StepBits.
Definition nodeShift : Z := StepBits.
Definition stepMask : Z := Z.shiftl 1 StepBits - 1.
Definition NodeMask : Z := Z.shiftl 1 NodeBits - 1.
Definition waitBudget : Z := 3 * Second.
Definition maxBorrowAheadSec : Z := 10.

Definition ErrBorrowLimitExceeded : error := "snowflake: borrow limit"%string.
Definition ErrFenced : error := "snowflake: node fenced"%string.
Definition ErrWatermarkStale : error := "snowflake: watermark ack too old"%string.

(** [nowEpoch], of the seconds of the wall clock. *)
Definition nowEpoch (sec : Z) : Z := if sec <? Epoch then 0 else sec - Epoch.

(** ** The fence clock *)
Record FenceClock := mkFence { fc_budget : Z; fc_acked : bool; fc_ackMono : Z; fc_ackWall : Z }.

(** [None] stands for the panic. *)
Definition NewFenceClock (budget : Z) : option FenceClock :=
  if budget <=? 0 then None else Some (mkFence budget false 0 0).
Definition Ack (mono wall : Z) (c : FenceClock) : FenceClock := mkFence (fc_budget c) true mono wall.
Definition SeedAck (seed mono wall : Z) (c : FenceClock) : FenceClock :=
  let elapsed := wall - seed in
  let elapsed := if elapsed <? 0 then 0 else elapsed in
  mkFence (fc_budget c) true (mono - elapsed) seed.
Definition Stale (mono wall : Z) (c : FenceClock) : bool * Z :=
  if negb (fc_acked c) then (true, 0)
  else
    let monoAge := mono - fc_ackMono c in
    let wallAge := wall - fc_ackWall c in
    let age := if monoAge <? wallAge then wallAge else monoAge in
    ((fc_budget c <? monoAge) || (fc_budget c <? wallAge), age).

(** ** The node *)
Record Node := mkNode { nodeID : Z; lastTime : Z; nd_step : Z; bootGuardPending : bool }.

(** [NewNode] at second [sec]; [None] is the panic. *)
Definition NewNode (id sec : Z) : option Node :=
  if NodeMask <? id then None
  else if sec <? Epoch then None
  else Some (mkNode id (nowEpoch sec) stepMask true).

Definition SetGuardTime (guardEpochSec : Z) (n : Node) : Node :=
  if guardEpochSec <=? lastTime n then n else mkNode (nodeID n) guardEpochSec stepMask true.

Definition HighWaterEpochSec (n : Node) : Z := lastTime n.

(** [checkWatermarkAge]: no clock attached means no check. *)
Definition checkWatermarkAge (fence : option (FenceClock * Z * Z)) : res () :=
  match fence with
  | None => Ok ()
  | Some (c, mono, wall) => guard_err (Stale mono wall c).1 ErrWatermarkStale
  end.

(** The [i]-th turn of the wait reads the second [epoch i] and then the time [mono (S i)];
    [mono 0] is read before the first. *)
Fixpoint wait_loop (fuel i : nat) (last deadline : Z) (epoch mono : nat -> Z) : option Z :=
  match fuel with
  | O => None
  | S fuel =>
      let now := epoch i in
      if last <? now then Some now
      else if deadline <? mono (S i) then Some now
      else wait_loop fuel (S i) last deadline epoch mono
  end.

(** One turn sleeps for a millisecond: three seconds are over after 3,002 of them. *)
Definition waitFuel : nat := 3002.
Definition waitNextTime (last : Z) (epoch mono : nat -> Z) : option Z :=
  wait_loop waitFuel 0 last (mono 0%nat + waitBudget) epoch mono.

(** What one call reads: the fence, three times, the age of the watermark, twice, the
    second, and the clocks of the wait. *)
Record Reads := mkReads {
  rd_fenced : bool * bool * bool; rd_age : option (FenceClock * Z * Z) * option (FenceClock * Z * Z);
  rd_now : Z; rd_epoch : nat -> Z; rd_mono : nat -> Z }.

(** The second and the step of the next number. *)
Definition advance (r : Reads) (n : Node) : option (Node * res ()) :=
  let now := rd_now r in
  if lastTime n <? now then Some (mkNode (nodeID n) now 0 false, Ok ())
  else if nd_step n <? stepMask then Some (mkNode (nodeID n) (lastTime n) (nd_step n +64 1) false, Ok ())
  else match waitNextTime (lastTime n) (rd_epoch r) (rd_mono r) with
  | None => None
  | Some advanced =>
      if lastTime n <? advanced then Some (mkNode (nodeID n) advanced 0 false, Ok ())
      else if advanced +64 maxBorrowAheadSec <? lastTime n +64 1
      then Some (mkNode (nodeID n) (lastTime n) (nd_step n) false, Err ErrBorrowLimitExceeded)
      else Some (mkNode (nodeID n) (lastTime n +64 1) 0 false, Ok ())
  end.

Definition number (n : Node) : Z :=
  Z.lor (Z.lor (u64 (Z.shiftl (lastTime n) timeShift)) (u64 (Z.shiftl (nodeID n) nodeShift))) (nd_step n).

(** [None]: the wait does not end. *)
Definition Generate (r : Reads) (n : Node) : option (Node * res Z) :=
  let '(fenced1, fenced2, fenced3) := rd_fenced r in
  if fenced1 then Some (n, Err ErrFenced)
  else match checkWatermarkAge (rd_age r).1 with
  | Err e => Some (n, Err e)
  | Ok _ =>
      if fenced2 then Some (n, Err ErrFenced)
      else match advance r n with
      | None => None
      | Some (n, Err e) => Some (n, Err e)
      | Some (n, Ok _) =>
          if fenced3 then Some (n, Err ErrFenced)
          else match checkWatermarkAge (rd_age r).2 with
          | Err e => Some (n, Err e)
          | Ok _ => Some (n, Ok (number n))
          end
      end
  end.

(** ** Worker numbers *)
Definition ClusterBits : Z := 5.
Definition SlotBits : Z := 12.
Definition ErrLayout : error := "snowflakealloc: worker layout"%string.

Definition ComposeWorkerID (cluster slot clusterBits slotBits : Z) : res Z :=
  _ ← guard_err ((clusterBits =? 0) || (slotBits =? 0) || (63 <? clusterBits + slotBits)) ErrLayout;
  _ ← guard_err (Z.shiftl 1 clusterBits - 1 <? cluster) ErrLayout;
  _ ← guard_err (Z.shiftl 1 slotBits - 1 <? slot) ErrLayout;
  Ok (Z.lor (u64 (Z.shiftl cluster slotBits)) slot).

Definition DecodeWorkerID (worker clusterBits slotBits : Z) : Z * Z :=
  let slotMask := Z.shiftl 1 slotBits - 1 in
  let clusterMask := Z.shiftl 1 clusterBits - 1 in
  (u32 (Z.land (Z.shiftr worker slotBits) clusterMask), Z.land worker slotMask).

Definition WorkerOf (id : Z) : Z := Z.land (Z.shiftr id StepBits) NodeMask.

(** The second, the cluster, the slot and the step of a number. *)
Definition DecodeID (id : Z) : Z * (Z * Z) * Z :=
  (Z.shiftr id (NodeBits + StepBits), DecodeWorkerID (WorkerOf id) ClusterBits SlotBits,
   Z.land id (Z.shiftl 1 StepBits - 1)).

(** ** The choice of a slot *)
Definition wm_of (wm : gmap Z Z) (s : Z) : Z := default 0 (wm !! s).

(** Whether the watermark of a slot is old enough. *)
Definition rested (now quarantineSec w : Z) : bool :=
  (w =? 0) || negb ((now <? w) || (now - w <? quarantineSec)).

Fixpoint select_loop (used : gset Z) (wm : gmap Z Z) (now quarantineSec : Z) (slots : list Z) (best : option (Z * Z))
    : option (Z * Z) :=
  match slots with
  | [] => best
  | s :: slots' =>
      if bool_decide (s ∈ used) then select_loop used wm now quarantineSec slots' best
      else
        let w := wm_of wm s in
        if negb (rested now quarantineSec w) then select_loop used wm now quarantineSec slots' best
        else
          let best := match best with
                      | None => Some (s, w)
                      | Some (_, bestWm) => if w <? bestWm then Some (s, w) else best
                      end in
          if w =? 0 then best else select_loop used wm now quarantineSec slots' best
  end.

Definition selectSlot (used : gset Z) (wm : gmap Z Z) (now quarantineSec maxSlot : Z) : option Z :=
  fst <$> select_loop used wm now quarantineSec (seqZ 0 (maxSlot + 1)) None.

Definition mergeWatermarks (dst src : gmap Z Z) : gmap Z Z :=
  map_fold (fun slot w d => if wm_of d slot <? w then <[slot := w]> d else d) dst src.

(** * Numbers with a clock: one node

    The parts of a number and back, the order of the numbers of a node, the end of every
    call, and the choice of a slot. *)

(** ** The layout *)

(** Fields that do not overlap add up. *)
Lemma lor_shiftl_add a b k : 0 <= k -> 0 <= b < 2 ^ k -> Z.lor (Z.shiftl a k) b = a * 2 ^ k + b.
Proof.
  intros Hk Hb. rewrite Z.shiftl_mul_pow2 by done.
  assert (Z.land (a * 2 ^ k) b = 0) as H; [|pose proof (Z.add_lor_land (a * 2 ^ k) b); lia].
  apply Z.bits_inj'. intros i Hi. rewrite Z.land_spec, Z.bits_0. destruct (Z.lt_ge_cases i k).
  - by rewrite Z.mul_pow2_bits_low.
  - replace b with (b mod 2 ^ k) by (apply Z.mod_small; lia). rewrite Z.mod_pow2_bits_high by lia. apply andb_false_r.
Qed.

Lemma shiftr_add a b k : 0 <= k -> 0 <= b < 2 ^ k -> Z.shiftr (a * 2 ^ k + b) k = a.
Proof. intros Hk Hb. rewrite Z.shiftr_div_pow2 by done. rewrite Z.div_add_l by lia. rewrite Z.div_small; lia. Qed.

Lemma land_mask a b k : 0 <= k -> 0 <= b < 2 ^ k -> Z.land (a * 2 ^ k + b) (Z.shiftl 1 k - 1) = b.
Proof.
  intros Hk Hb. rewrite Z.shiftl_1_l, Z.sub_1_r, <- Z.ones_equiv, Z.land_ones by done.
  rewrite Z.add_comm, Z.mod_add by lia. apply Z.mod_small. lia.
Qed.

Lemma NodeMask_value : NodeMask = 131071.
Proof. reflexivity. Qed.
Lemma stepMask_value : stepMask = 32767.
Proof. reflexivity. Qed.

(** The range of the parts of a number. *)
Record node_ok (n : Node) : Prop := { no_id : 0 <= nodeID n <= NodeMask; no_step : 0 <= nd_step n <= stepMask }.
Definition in_epoch (t : Z) : Prop := 0 <= t < 2 ^ 32.

Definition number_of (t id step : Z) : Z := (t * 2 ^ 17 + id) * 2 ^ 15 + step.

Lemma number_value n : node_ok n -> in_epoch (lastTime n) -> number n = number_of (lastTime n) (nodeID n) (nd_step n).
Proof.
  intros [Hid Hstep] Ht. rewrite NodeMask_value in Hid. rewrite stepMask_value in Hstep. unfold in_epoch in Ht.
  unfold number, number_of, timeShift, nodeShift, NodeBits, StepBits. rewrite !u64_small.
  2, 3: unfold is_u64, u64_mod; rewrite Z.shiftl_mul_pow2 by done; cbn; lia.
  rewrite <- Z.shiftl_shiftl, <- Z.shiftl_lor by done.
  rewrite (lor_shiftl_add _ (nodeID n)), lor_shiftl_add by lia. done.
Qed.

Lemma number_of_inj t id s t' s' :
  0 <= s <= stepMask -> 0 <= s' <= stepMask -> number_of t id s = number_of t' id s' -> t = t' /\ s = s'.
Proof. rewrite stepMask_value. unfold number_of. lia. Qed.

Lemma ComposeWorkerID_value c s :
  0 <= c < 2 ^ ClusterBits -> 0 <= s < 2 ^ SlotBits ->
  ComposeWorkerID c s ClusterBits SlotBits = Ok (c * 2 ^ SlotBits + s).
Proof.
  unfold ClusterBits, SlotBits. intros Hc Hs. unfold ComposeWorkerID. cbn -[Z.shiftl].
  change (Z.shiftl 1 5 - 1) with 31. change (Z.shiftl 1 12 - 1) with 4095. cbn in Hc, Hs.
  destruct (Z.ltb_spec 31 c); [lia|]. destruct (Z.ltb_spec 4095 s); [lia|]. cbn -[Z.shiftl].
  rewrite u64_small by (unfold is_u64, u64_mod; rewrite Z.shiftl_mul_pow2 by done; lia).
  by rewrite lor_shiftl_add by (cbn; lia).
Qed.

(** A number tells who made it and when: for a worker number composed of a cluster
    and a slot, the number a node of that worker gives out decodes to the second and the
    step of the node, the cluster and the slot. *)
Theorem number_decodes cluster slot w n :
  0 <= cluster < 2 ^ ClusterBits -> 0 <= slot < 2 ^ SlotBits ->
  ComposeWorkerID cluster slot ClusterBits SlotBits = Ok w ->
  nodeID n = w -> 0 <= nd_step n <= stepMask -> in_epoch (lastTime n) ->
  WorkerOf (number n) = w /\ DecodeID (number n) = (lastTime n, (cluster, slot), nd_step n).
Proof.
  intros Hc Hs Hw Hn Hstep Ht. rewrite ComposeWorkerID_value in Hw by done. injection Hw as Hw.
  unfold ClusterBits, SlotBits in *. cbn in Hc, Hs, Hw.
  assert (node_ok n) as Hok by (split; [rewrite NodeMask_value; lia|done]).
  rewrite number_value by done. destruct Hok as [Hid _]. rewrite NodeMask_value in Hid. rewrite stepMask_value in Hstep.
  assert (WorkerOf (number_of (lastTime n) (nodeID n) (nd_step n)) = nodeID n) as HW.
  { unfold WorkerOf, number_of, NodeMask, NodeBits, StepBits. rewrite shiftr_add by (cbn; lia).
    rewrite land_mask by (cbn; lia). done. }
  split; [by rewrite HW|]. unfold DecodeID. rewrite HW, Hn, <- Hw.
  assert (DecodeWorkerID (cluster * 2 ^ 12 + slot) ClusterBits SlotBits = (cluster, slot)) as ->.
  { unfold DecodeWorkerID, ClusterBits, SlotBits.
    rewrite shiftr_add, land_mask by (cbn; lia). f_equal.
    replace cluster with (0 * 2 ^ 5 + cluster) at 1 by lia. rewrite land_mask by (cbn; lia). apply Z.mod_small. cbn in Hc. split; [lia|]. transitivity 32; [lia|done]. }
  unfold number_of, NodeBits, StepBits. rewrite land_mask by (cbn; lia). do 2 f_equal.
  change (17 + 15) with (15 + 17). rewrite <- Z.shiftr_shiftr by lia. rewrite shiftr_add by (cbn; lia). apply shiftr_add; cbn; lia.
Qed.

(** ** Calls *)

(** Where the second of a node moves: to a second the clock showed, or - borrowing - at
    most [maxBorrowAheadSec] ahead of one. [T] bounds the clock. *)
Definition clock_below (T : Z) (r : Reads) : Prop := rd_now r <= T /\ (forall i, rd_epoch r i <= T).

Definition later (n n' : Node) : Prop :=
  lastTime n < lastTime n' \/ (lastTime n = lastTime n' /\ nd_step n < nd_step n').

(** Steps are left only in a second that is not too far ahead. *)
Definition not_ahead (T : Z) (n : Node) : Prop := nd_step n < stepMask -> lastTime n <= T + maxBorrowAheadSec.

Lemma wait_loop_reads fuel i last deadline epoch mono t :
  wait_loop fuel i last deadline epoch mono = Some t -> exists j, t = epoch j.
Proof.
  revert i. induction fuel as [|fuel IH]; intros i; cbn [wait_loop]; [done|].
  destruct (_ <? _); [intros [= <-]; by eexists|]. destruct (_ <? _); [intros [= <-]; by eexists|]. apply IH.
Qed.

Lemma advance_later T r n n' :
  0 <= lastTime n < 2 ^ 63 -> 0 <= nd_step n <= stepMask -> not_ahead T n -> clock_below T r ->
  0 <= T < 2 ^ 63 - maxBorrowAheadSec -> (forall i, 0 <= rd_epoch r i) ->
  advance r n = Some (n', Ok tt) ->
  nodeID n' = nodeID n /\ later n n' /\ 0 <= nd_step n' <= stepMask /\ lastTime n' <= T + maxBorrowAheadSec.
Proof.
  unfold not_ahead, clock_below, later, advance, maxBorrowAheadSec. rewrite stepMask_value.
  intros Hl Hs Ha [Hn He] HT Hpos. destruct (Z.ltb_spec (lastTime n) (rd_now r)) as [Hlt|Hlt].
  { intros [= <-]. cbn. lia. }
  destruct (Z.ltb_spec (nd_step n) 32767) as [Hst|Hst].
  { intros [= <-]. cbn. rewrite u64_small by (unfold is_u64, u64_mod; lia). lia. }
  unfold waitNextTime. destruct (wait_loop _ _ _ _ _ _) as [t|] eqn:Hw; [|done].
  apply wait_loop_reads in Hw as [j ->]. specialize (He j). specialize (Hpos j).
  destruct (Z.ltb_spec (lastTime n) (rd_epoch r j)); [intros [= <-]; cbn; lia|].
  rewrite !u64_small by (unfold is_u64, u64_mod; lia).
  destruct (Z.ltb_spec (rd_epoch r j + 10) (lastTime n + 1)); [done|]. intros [= <-]. cbn. lia.
Qed.

Lemma advance_fails r n n' e :
  advance r n = Some (n', Err e) -> e = ErrBorrowLimitExceeded /\ n' = mkNode (nodeID n) (lastTime n) (nd_step n) false.
Proof.
  unfold advance. destruct (_ <? _); [done|]. destruct (_ <? _); [done|].
  destruct (waitNextTime _ _ _); [|done]. destruct (_ <? _); [done|]. destruct (_ <? _); [by intros [= <- <-]|done].
Qed.

(** What a call does: the fence and the age of the watermark are read before the clock
    and again before the number leaves. *)
Lemma Generate_inv r n n' res :
  Generate r n = Some (n', res) ->
  (n' = n /\ exists e, res = Err e) \/
  (exists e, advance r n = Some (n', Err e) /\ res = Err e) \/
  (advance r n = Some (n', Ok tt) /\
    ((exists e, res = Err e) \/
     (res = Ok (number n') /\ rd_fenced r = (false, false, false) /\
      checkWatermarkAge (rd_age r).1 = Ok tt /\ checkWatermarkAge (rd_age r).2 = Ok tt))).
Proof.
  unfold Generate. destruct (rd_fenced r) as [[f1 f2] f3].
  destruct f1; [intros [= <- <-]; eauto|].
  destruct (checkWatermarkAge (rd_age r).1) as [[]|e]; [|intros [= <- <-]; eauto].
  destruct f2; [intros [= <- <-]; eauto|].
  destruct (advance r n) as [[n1 [[]|e]]|]; [|intros [= <- <-]; eauto|done].
  destruct f3; [intros [= <- <-]; eauto 10|].
  destruct (checkWatermarkAge (rd_age r).2) as [[]|e]; intros [= <- <-]; eauto 12.
Qed.

(** The wait is over after [waitFuel] turns, when every turn takes a millisecond. *)
Lemma wait_loop_ends fuel i last deadline epoch mono :
  (forall j, mono j + Millisecond <= mono (S j)) ->
  deadline - mono i < Z.of_nat (S fuel) * Millisecond ->
  exists t, wait_loop (S fuel) i last deadline epoch mono = Some t /\ (t <= last -> deadline < mono (S (i + fuel))).
Proof.
  intros Hm. revert i. induction fuel as [|fuel IH]; intros i Hf; specialize (Hm i) as Hi;
    cbn [wait_loop]; (destruct (Z.ltb_spec last (epoch i)); [eexists; split; [done|lia]|]);
    destruct (Z.ltb_spec deadline (mono (S i))) as [Hd|Hd].
  - eexists. split; [done|]. intros _. by rewrite Nat.add_0_r.
  - unfold Millisecond in *. lia.
  - eexists. split; [done|]. intros _.
    assert (forall k, mono (S i) <= mono (S (i + k))) as Hk.
    { induction k as [|k IHk]; [by rewrite Nat.add_0_r|]. specialize (Hm (S (i + k))). rewrite Nat.add_succ_r.
      unfold Millisecond in Hm. lia. }
    specialize (Hk (S fuel)). lia.
  - destruct (IH (S i)) as (t & Ht & Hend); [unfold Millisecond in *; lia|].
    exists t. split; [exact Ht|]. rewrite Nat.add_succ_r. exact Hend.
Qed.

Lemma checkWatermarkAge_err a e : checkWatermarkAge a = Err e -> e = ErrWatermarkStale.
Proof. destruct a as [[[c m] w]|]; cbn; [|done]. unfold guard_err. destruct (Stale m w c).1; [by intros [= <-]|done]. Qed.

Lemma advance_returns r n :
  (forall j, rd_mono r j + Millisecond <= rd_mono r (S j)) ->
  exists n' res, advance r n = Some (n', res) /\ nodeID n' = nodeID n /\
    (res = Ok tt \/
     (res = Err ErrBorrowLimitExceeded /\ rd_now r <= lastTime n /\ rd_mono r 0%nat + waitBudget < rd_mono r waitFuel)).
Proof.
  intros Hm. unfold advance. destruct (Z.ltb_spec (lastTime n) (rd_now r)); [eauto 10|].
  destruct (nd_step n <? stepMask); [eauto 10|].
  destruct (wait_loop_ends (pred waitFuel) 0 (lastTime n) (rd_mono r 0%nat + waitBudget) (rd_epoch r) (rd_mono r))
    as (t & Ht & Hend); [done|unfold waitBudget, waitFuel, Second, Millisecond; lia|].
  unfold waitNextTime. change (wait_loop waitFuel) with (wait_loop (S (pred waitFuel))). rewrite Ht.
  destruct (Z.ltb_spec (lastTime n) t); [eauto 10|]. destruct (_ <? _); [|eauto 10].
  do 2 eexists. split; [done|]. split; [done|]. right. split; [done|]. split; [done|]. by apply Hend.
Qed.

(** Every call comes back: whatever the clock on the wall does, when a turn of the
    wait takes at least a millisecond of the process's own time, [Generate] returns a
    number or one of three errors: a fence was seen, the watermark was found too old, or
    the last time handed out is not behind the clock that was read first and the fuel
    covers more than the budget of the wait. *)
Theorem Generate_returns r n :
  (forall j, rd_mono r j + Millisecond <= rd_mono r (S j)) ->
  exists n' res, Generate r n = Some (n', res) /\ nodeID n' = nodeID n /\
    match res with
    | Ok id => id = number n' /\ rd_fenced r = (false, false, false)
    | Err e =>
        (e = ErrFenced /\ rd_fenced r <> (false, false, false)) \/
        (e = ErrWatermarkStale /\ (checkWatermarkAge (rd_age r).1 = Err e \/ checkWatermarkAge (rd_age r).2 = Err e)) \/
        (e = ErrBorrowLimitExceeded /\ rd_now r <= lastTime n /\ rd_mono r 0%nat + waitBudget < rd_mono r waitFuel)
    end.
Proof.
  intros Hm. destruct (advance_returns r n Hm) as (n' & res & Ha & Hid & Hres). unfold Generate. rewrite Ha.
  destruct (rd_fenced r) as [[f1 f2] f3]. destruct f1; [eexists _, _; split; [done|]; split; [done|]; by left|].
  destruct (checkWatermarkAge (rd_age r).1) as [[]|e] eqn:H1.
  2: { eexists _, _. split; [done|]. split; [done|]. right. left. apply checkWatermarkAge_err in H1 as ->. auto. }
  destruct f2; [eexists _, _; split; [done|]; split; [done|]; by left|].
  destruct Hres as [->|(-> & Hn & Hend)]; [|eexists _, _; split; [done|]; split; [done|]; by auto].
  destruct f3; [eexists _, _; split; [done|]; split; [done|]; by left|].
  destruct (checkWatermarkAge (rd_age r).2) as [[]|e] eqn:H2; [by eexists _, _|].
  eexists _, _. split; [done|]. split; [done|]. right. left. apply checkWatermarkAge_err in H2 as ->. auto.
Qed.

(** ** The choice of a slot *)

(** A slot that may be claimed: nobody is on it and its watermark is old. *)
Definition claimable (used : gset Z) (wm : gmap Z Z) (now q s : Z) : Prop :=
  s ∉ used /\ rested now q (wm_of wm s) = true.
(** The better of two: the older watermark, and then the smaller number. *)
Definition better (wm : gmap Z Z) (a b : Z) : Prop :=
  wm_of wm a < wm_of wm b \/ (wm_of wm a = wm_of wm b /\ a <= b).

Definition best_of (used : gset Z) (wm : gmap Z Z) (now q : Z) (P : Z -> Prop) (b : option (Z * Z)) : Prop :=
  match b with
  | None => forall s, P s -> ~ claimable used wm now q s
  | Some (s, w) => P s /\ claimable used wm now q s /\ w = wm_of wm s /\
                   forall s', P s' -> claimable used wm now q s' -> better wm s s'
  end.

Lemma best_of_iff used wm now q P Q b :
  (forall s, P s <-> Q s) -> best_of used wm now q P b -> best_of used wm now q Q b.
Proof. unfold best_of. intros HPQ. destruct b as [[s w]|]; [|naive_solver]. intros (? & ? & ? & ?). naive_solver. Qed.

(** One more slot is looked at. *)
Lemma best_of_skip used wm now q P b s :
  ~ claimable used wm now q s -> best_of used wm now q P b -> best_of used wm now q (fun x => P x \/ x = s) b.
Proof. unfold best_of. destruct b as [[s' w]|]; naive_solver. Qed.

Lemma best_of_take used wm now q P b s :
  claimable used wm now q s -> (forall a, P a -> a < s) -> best_of used wm now q P b ->
  best_of used wm now q (fun x => P x \/ x = s)
    (match b with
     | None => Some (s, wm_of wm s)
     | Some (_, bw) => if wm_of wm s <? bw then Some (s, wm_of wm s) else b
     end).
Proof.
  intros Hc Hlt Hb. destruct b as [[b w]|].
  - destruct Hb as (HP & Hbc & -> & Hbest). destruct (Z.ltb_spec (wm_of wm s) (wm_of wm b)) as [Hw|Hw].
    + split; [by right|]. split; [done|]. split; [done|]. intros s' [Hs'| ->] Hc'; [|right; lia].
      destruct (Hbest _ Hs' Hc') as [?|[? ?]]; left; lia.
    + split; [by left|]. split; [done|]. split; [done|]. intros s' [Hs'| ->] Hc'; [by apply Hbest|].
      specialize (Hlt _ HP). unfold better. lia.
  - cbn in Hb. split; [by right|]. split; [done|]. split; [done|]. intros s' [Hs'| ->] Hc'; [by destruct (Hb _ Hs')|right; lia].
Qed.

(** Nothing beats a slot nobody used, but one of a smaller number. *)
Lemma best_of_zero used wm now q (P Q : Z -> Prop) x w :
  (forall s, 0 <= wm_of wm s) -> w <= 0 -> (forall c, Q c -> x <= c) -> best_of used wm now q P (Some (x, w)) ->
  best_of used wm now q (fun s => P s \/ Q s) (Some (x, w)).
Proof.
  intros Hwm Hw Hx (HP & Hc & -> & Hb). split; [by left|]. split; [done|]. split; [done|].
  intros s' [Hs'|Hs'] Hc'; [by apply Hb|]. specialize (Hx _ Hs'). pose proof (Hwm s'). unfold better. lia.
Qed.

Lemma select_loop_best used wm now q slots b (P : Z -> Prop) :
  (forall s, 0 <= wm_of wm s) -> StronglySorted Z.lt slots ->
  (forall a c, P a -> c ∈ slots -> a < c) -> best_of used wm now q P b ->
  best_of used wm now q (fun s => P s \/ s ∈ slots) (select_loop used wm now q slots b).
Proof.
  intros Hwm. revert P b. induction slots as [|s slots IH]; intros P b Hsort Hlt Hbest; cbn [select_loop].
  { eapply best_of_iff, Hbest. set_solver. }
  apply StronglySorted_inv in Hsort as [Hsort Hs]. rewrite Forall_forall in Hs.
  assert (forall b', best_of used wm now q (fun x => P x \/ x = s) b' ->
    best_of used wm now q (fun x => P x \/ x ∈ s :: slots) (select_loop used wm now q slots b')) as Hgo.
  { intros b' Hb'. eapply best_of_iff, IH, Hb'; [set_solver|done|].
    intros a c [Ha| ->] Hc; [apply Hlt; [done|by right]|by apply Hs]. }
  case_bool_decide as Hu; [apply Hgo, best_of_skip; [by intros [? ?]|done]|].
  destruct (rested now q (wm_of wm s)) eqn:Hr; cbn; [|apply Hgo, best_of_skip; [intros [_ ?]; congruence|done]].
  pose proof (best_of_take used wm now q P b s (conj Hu Hr) (fun a Ha => Hlt a s Ha ltac:(by left)) Hbest) as Htake.
  destruct (Z.eqb_spec (wm_of wm s) 0) as [H0|]; [|by apply Hgo].
  assert (forall x w, best_of used wm now q (fun x => P x \/ x = s) (Some (x, w)) -> w <= 0 -> x <= s ->
    best_of used wm now q (fun x => P x \/ x ∈ s :: slots) (Some (x, w))) as Hstop.
  { intros x w Hx Hw Hxs. eapply best_of_iff, (best_of_zero _ _ _ _ _ (fun c => c ∈ slots)), Hx; [set_solver|done..|].
    intros c Hc%Hs. lia. }
  rewrite H0 in *. destruct b as [[b w]|]; [destruct (Z.ltb_spec 0 w)|]; apply Hstop; try done.
  destruct Hbest as (HP & _). specialize (Hlt b s HP). lapply Hlt; [lia|by left].
Qed.

Lemma StronglySorted_seqZ m n : StronglySorted Z.lt (seqZ m n).
Proof.
  destruct (Z.le_gt_cases 0 n) as [Hn|]; [|rewrite seqZ_nil by lia; constructor].
  revert m. pattern n. apply natlike_ind; [| |done].
  - intros m. rewrite seqZ_nil by lia. constructor.
  - intros k Hk IH m. rewrite seqZ_cons by lia. replace (Z.pred (Z.succ k)) with k by lia. constructor; [apply IH|].
    apply Forall_forall. intros x Hx%elem_of_seqZ. lia.
Qed.

(** The slot chosen is free and rested, none with an older watermark or, among
    equals, a smaller number is; and when none is chosen, every slot is taken or its
    last holder may still be giving out numbers. *)
Theorem selectSlot_best used wm now q maxSlot :
  (forall s, 0 <= wm_of wm s) ->
  match selectSlot used wm now q maxSlot with
  | Some s => 0 <= s <= maxSlot /\ claimable used wm now q s /\
              forall s', 0 <= s' <= maxSlot -> claimable used wm now q s' -> better wm s s'
  | None => forall s, 0 <= s <= maxSlot -> ~ claimable used wm now q s
  end.
Proof.
  intros Hwm. pose proof (select_loop_best used wm now q (seqZ 0 (maxSlot + 1)) None (fun _ => False) Hwm
    (StronglySorted_seqZ _ _) (fun _ _ f => match f with end) (fun _ f => match f with end)) as H.
  unfold selectSlot. destruct (select_loop _ _ _ _ _ _) as [[s w]|]; cbn in *.
  - destruct H as ([[]|Hs%elem_of_seqZ] & Hc & _ & Hb). split; [lia|]. split; [done|].
    intros s' Hs'. apply Hb. right. apply elem_of_seqZ. lia.
  - intros s Hs. apply H. right. apply elem_of_seqZ. lia.
Qed.

(** ** Witnesses *)
Lemma number_decodes_witness :
  WorkerOf (number (mkNode 8199 1000 5 false)) = 8199 /\ DecodeID (number (mkNode 8199 1000 5 false)) = (1000, (2, 7), 5).
Proof.
  apply (number_decodes 2 7 8199 (mkNode 8199 1000 5 false));
    [vm_compute; split; [discriminate|reflexivity]|vm_compute; split; [discriminate|reflexivity]|reflexivity|reflexivity
    |vm_compute; split; discriminate|vm_compute; split; [discriminate|reflexivity]].
Defined.

(** A clock that stands still at a full second, and a process that waits in vain but may
    borrow. *)
Definition stopped_reads : Reads :=
  mkReads (false, false, false) (None, None) 1000 (fun _ => 1000) (fun i => Z.of_nat i * Millisecond).

Lemma Generate_returns_witness :
  exists n', Generate stopped_reads (mkNode 7 1000 stepMask false) = Some (n', Ok (number n')) /\ number n' = number_of 1001 7 0.
Proof.
  destruct (Generate_returns stopped_reads (mkNode 7 1000 stepMask false)) as (n' & res & Hg & _ & Hres).
  { intros j. cbn [stopped_reads rd_mono]. unfold Millisecond. lia. }
  assert (Generate stopped_reads (mkNode 7 1000 stepMask false) = Some (mkNode 7 1001 0 false, Ok (number_of 1001 7 0))) as Hv
    by (vm_compute; reflexivity).
  rewrite Hv in Hg. injection Hg as <- <-. destruct Hres as [Hn _]. eexists. split; [|exact (eq_sym Hn)].
  rewrite Hv, Hn. reflexivity.
Defined.

Lemma selectSlot_best_witness :
  selectSlot {[0; 3]} {[1 := 500; 2 := 100; 4 := 900]} 1000 300 4 = Some 2 /\ 
  better {[1 := 500; 2 := 100; 4 := 900]} 2 1.
Proof.
  split; [vm_compute; reflexivity|].
  pose proof (selectSlot_best {[0; 3]} {[1 := 500; 2 := 100; 4 := 900]} 1000 300 4) as H.
  assert (selectSlot {[0; 3]} {[1 := 500; 2 := 100; 4 := 900]} 1000 300 4 = Some 2) as Hv by (vm_compute; reflexivity).
  rewrite Hv in H. apply H; [|lia|split; [by vm_compute; intros ?|reflexivity]].
  intros s. unfold wm_of. rewrite !lookup_insert, !lookup_singleton. repeat case_decide; cbn; lia.
Defined.
