(* ===== verification/SlotAlloc.v ===== *)
(** * Who may give out the numbers of a slot

    The allocator ([go/shared/snowflakealloc/allocator.go]) for one slot of one kind: the
    options, the keys of the slot in etcd, and the handles of the processes that hold it,
    held it or think they do. One function per operation; the clock on the wall is one
    clock, in nanoseconds, and a call to etcd is one step. The local cache file and the
    older key layout ([LegacyPrefix]) are not modelled: the cache path is empty. *)

From stdpp Require Import base list gmap strings.
From Stdlib Require Import ZArith Lia.
From S2P Require Import Prelude Snowflake.
Local Open Scope Z_scope.
Local Open Scope go_scope.

(** ** Options *)
Definition ErrInvalidOptions : error := "snowflakealloc: invalid options"%string.
Definition defaultLeaseTTL : Z := 60.
Definition defaultQuarantine : Z := 4 * Hour.
Definition defaultFenceAfter : Z := 2 * Hour.

(** The options that matter for the numbers: times in nanoseconds, the lease in seconds. *)
Record AllocOptions := mkAlloc {
  ao_ttl : Z; ao_cluster : Z; ao_clusterBits : Z; ao_slotBits : Z; ao_maxSlot : Z; ao_quarantine : Z; ao_fenceAfter : Z }.

Definition resolve (o : AllocOptions) : res AllocOptions :=
  let ttl := if ao_ttl o <=? 0 then defaultLeaseTTL else ao_ttl o in
  let cb := if ao_clusterBits o =? 0 then ClusterBits else ao_clusterBits o in
  let sb := if ao_slotBits o =? 0 then SlotBits else ao_slotBits o in
  _ ← guard_err (63 <? cb + sb) ErrInvalidOptions;
  _ ← guard_err (Z.shiftl 1 cb - 1 <? ao_cluster o) ErrInvalidOptions;
  let slotCap := Z.shiftl 1 sb - 1 in
  let maxSlot := if ao_maxSlot o =? 0 then slotCap else ao_maxSlot o in
  _ ← guard_err (slotCap <? maxSlot) ErrInvalidOptions;
  let quarantine := if ao_quarantine o <=? 0 then defaultQuarantine else ao_quarantine o in
  let fenceAfter := if ao_fenceAfter o <=? 0 then defaultFenceAfter else ao_fenceAfter o in
  _ ← guard_err (Z.quot quarantine 2 <? fenceAfter) ErrInvalidOptions;
  Ok (mkAlloc ttl (ao_cluster o) cb sb maxSlot quarantine fenceAfter).

(** ** The slot in etcd, and its handles

    [et_holder]: the holder's uuid on the slot key; [et_mark]: the watermark with its
    revision; [et_released]: the uuid whose lease carries the release marker. *)
Record Etcd := mkEtcd { et_holder : option Z; et_mark : option (Z * Z); et_released : option Z; et_rev : Z }.

(** [hd_fenced]: the node of the handle is fenced. *)
Record Handle := mkHandle {
  hd_GuardEpochSec : Z; hd_guardWritten : Z; hd_guardRev : Z; hd_fence : FenceClock;
  hd_node : option Node; hd_fenced : bool; hd_closing : bool; hd_needReclaim : bool }.

Definition hd_set_guard (written rev : Z) (h : Handle) : Handle :=
  mkHandle (hd_GuardEpochSec h) written rev (hd_fence h) (hd_node h) (hd_fenced h) (hd_closing h) (hd_needReclaim h).
Definition hd_set_fence (c : FenceClock) (h : Handle) : Handle :=
  mkHandle (hd_GuardEpochSec h) (hd_guardWritten h) (hd_guardRev h) c (hd_node h) (hd_fenced h) (hd_closing h) (hd_needReclaim h).
Definition hd_set_node (n : option Node) (h : Handle) : Handle :=
  mkHandle (hd_GuardEpochSec h) (hd_guardWritten h) (hd_guardRev h) (hd_fence h) n (hd_fenced h) (hd_closing h) (hd_needReclaim h).
Definition hd_set_reclaim (b : bool) (h : Handle) : Handle :=
  mkHandle (hd_GuardEpochSec h) (hd_guardWritten h) (hd_guardRev h) (hd_fence h) (hd_node h) (hd_fenced h) (hd_closing h) b.
(** [fenceAll], for the node of the handle. *)
Definition fenceAll (h : Handle) : Handle :=
  mkHandle (hd_GuardEpochSec h) (hd_guardWritten h) (hd_guardRev h) (hd_fence h) (hd_node h) true (hd_closing h) (hd_needReclaim h).
Definition hd_closed (h : Handle) : Handle :=
  mkHandle (hd_GuardEpochSec h) (hd_guardWritten h) (hd_guardRev h) (hd_fence h) (hd_node h) (hd_fenced h) true (hd_needReclaim h).

(** The seconds of a moment. *)
Definition sec_of (ns : Z) : Z := nowEpoch (ns / Second).

Definition mark_value (e : Etcd) : Z := from_option fst 0 (et_mark e).
(** [readWatermarkFloor]: zero and revision zero when there is none. *)
Definition readWatermarkFloor (e : Etcd) : Z * Z := default (0, 0) (et_mark e).

(** ** The watermark

    One transaction of [putWatermarkLocked]: nothing when the slot is not ours, the new
    mark when its revision is the expected one, and a read otherwise. *)
Inductive Put := PutForeign | PutDone (rev : Z) | PutRead (kv : option (Z * Z)).

Definition mark_rev (e : Etcd) : Z := from_option snd 0 (et_mark e).
Definition put_txn (uuid rev target : Z) (e : Etcd) : Etcd * Put :=
  if negb (bool_decide (et_holder e = Some uuid)) then (e, PutForeign)
  else if mark_rev e =? rev
  then (mkEtcd (et_holder e) (Some (target, et_rev e + 1)) (et_released e) (et_rev e + 1), PutDone (et_rev e + 1))
  else (e, PutRead (et_mark e)).

(** Whether the answer of the [attempt]-th transaction comes, is lost, or the
    transaction never happened. *)
Inductive Fate := Answered | AnswerLost | NeverSent.

(** The value the store holds, whether the slot is ours, and the revision to expect. *)
Fixpoint put_attempts (attempts : nat) (fate : nat -> Fate) (uuid rev target : Z) (e : Etcd)
    : Etcd * Z * res (Z * bool) :=
  match attempts with
  | O => (e, rev, Err "watermark lost the CAS twice"%string)
  | S more =>
      match fate more with
      | NeverSent => (e, rev, Err "watermark txn"%string)
      | AnswerLost => ((put_txn uuid rev target e).1, rev, Err "watermark txn"%string)
      | Answered =>
          match put_txn uuid rev target e with
          | (e', PutForeign) => (e', rev, Ok (0, false))
          | (e', PutDone rev') => (e', rev', Ok (target, true))
          | (e', PutRead None) => put_attempts more fate uuid 0 target e'
          | (e', PutRead (Some (stored, rev'))) =>
              if target <=? stored then (e', rev', Ok (stored, true))
              else put_attempts more fate uuid rev' target e'
          end
      end
  end.
Definition putWatermarkLocked := put_attempts 2.

Definition guardLeadSec : Z := 2.
Definition watermarkTxnTimeout : Z := 1500 * Millisecond.

(** [advanceGuard], begun at [now], its answer at [wall] ([mono] on the process's own
    clock). *)
Definition guard_target (now : Z) (h : Handle) : Z :=
  let target := sec_of now in
  let target := match hd_node h with
                | Some n => if target <? HighWaterEpochSec n then HighWaterEpochSec n else target
                | None => target end in
  let target := target +64 guardLeadSec in
  if target <? hd_guardWritten h then hd_guardWritten h else target.

Definition advanceGuard (fate : nat -> Fate) (now mono wall uuid : Z) (h : Handle) (e : Etcd) : Etcd * Handle * bool :=
  let target := guard_target now h in
  match putWatermarkLocked fate uuid (hd_guardRev h) target e with
  | (e', rev, Err _) => (e', hd_set_guard (hd_guardWritten h) rev h, false)
  | (e', rev, Ok (_, false)) => (e', hd_set_reclaim true (hd_set_guard (hd_guardWritten h) rev h), false)
  | (e', rev, Ok (persisted, true)) =>
      let h := if target <? persisted then hd_set_node (SetGuardTime persisted <$> hd_node h) h else h in
      (e', hd_set_fence (Ack mono wall (hd_fence h)) (hd_set_guard persisted rev h), true)
  end.

(** ** Claims

    [newHandle] after a claim, with the floor that was read; [None]: the budget of the
    fence is not positive. *)
Definition newHandle (fenceAfter : Z) (floor : Z * Z) : option Handle :=
  c ← NewFenceClock fenceAfter;
  Some (mkHandle floor.1 floor.1 floor.2 c None false false false).

(** A slot that was chosen ([selectSlot]) is taken by the transaction; [floor_read]: the
    watermark could be read afterwards - if not, the clock alone is the floor. *)
Definition claim_fresh (fenceAfter now quarantine uuid : Z) (floor_read : bool) (e : Etcd) : option (Etcd * Handle) :=
  if negb (bool_decide (et_holder e = None)) then None
  else if negb (rested (sec_of now) (quarantine / Second) (mark_value e)) then None
  else h ← newHandle fenceAfter (if floor_read then readWatermarkFloor e else (0, 0));
       Some (mkEtcd (Some uuid) (et_mark e) None (et_rev e + 1), h).

(** [tryReuse]: the slot of a predecessor on the same host that closed; here a floor that
    cannot be read is an error. *)
Definition tryReuse (fenceAfter uuid : Z) (e : Etcd) : option (Etcd * Handle) :=
  if bool_decide (et_holder e <> None /\ et_released e = et_holder e)
  then h ← newHandle fenceAfter (readWatermarkFloor e);
       Some (mkEtcd (Some uuid) (et_mark e) None (et_rev e + 1), h)
  else None.

(** [Handle.NewNode] up to its [advanceGuard]; [None] is the panic. The node is not
    fenced, whatever became of an earlier one. *)
Definition HandleNewNode (worker now : Z) (h : Handle) : option Handle :=
  n ← NewNode worker (now / Second);
  let floor := if hd_GuardEpochSec h <? hd_guardWritten h then hd_guardWritten h else hd_GuardEpochSec h in
  Some (mkHandle (hd_GuardEpochSec h) (hd_guardWritten h) (hd_guardRev h) (hd_fence h)
          (Some (if 0 <? floor then SetGuardTime floor n else n)) false (hd_closing h) (hd_needReclaim h)).

(** ** Losing and reclaiming the slot

    The lease lapses: the slot key and the marker go. *)
Definition lapse (e : Etcd) : Etcd := mkEtcd None (et_mark e) None (et_rev e + 1).

(** [refloorFromWatermark], when the mark could be read. *)
Definition refloorFromWatermark (e : Etcd) (h : Handle) : Handle :=
  let '(floor, rev) := readWatermarkFloor e in
  let h := hd_set_guard (if hd_guardWritten h <? floor then floor else hd_guardWritten h) rev h in
  if 0 <? floor then hd_set_node (SetGuardTime floor <$> hd_node h) h else h.

(** [reclaim] with a new lease: somebody else's uuid on the key fences the node; a key
    that is gone is made again. [alive]: our lease turns out to be alive; [stale]: the
    answer of the fence; [floor_read]: the mark could be read. The release marker stays
    on the old lease. *)
Definition reclaim (uuid : Z) (alive stale floor_read : bool) (h : Handle) (e : Etcd) : Etcd * Handle :=
  match et_holder e with
  | Some u =>
      if negb (u =? uuid) then (e, fenceAll h)
      else
        let h := hd_set_reclaim false h in
        if alive then (e, h) else
        (mkEtcd (Some uuid) (et_mark e) None (et_rev e + 1),
         if stale && floor_read then refloorFromWatermark e h else h)
  | None =>
      let h := hd_set_reclaim false h in
      (mkEtcd (Some uuid) (et_mark e) None (et_rev e + 1), if floor_read then refloorFromWatermark e h else h)
  end.

(** [Close]: the node is fenced, the mark is advanced a last time, and only then the
    marker is written. *)
Definition Close (fate : nat -> Fate) (now mono wall uuid : Z) (h : Handle) (e : Etcd) : Etcd * Handle :=
  if hd_closing h then (e, h)
  else
    let '(e, h, ok) := advanceGuard fate now mono wall uuid (fenceAll (hd_closed h)) e in
    (if ok && bool_decide (et_holder e = Some uuid)
     then mkEtcd (et_holder e) (et_mark e) (Some uuid) (et_rev e + 1) else e, h).
