(* ===== verification/SlotSys.v ===== *)
(** * Who may give out the numbers of a slot: all the processes

    The slot in etcd and every handle on it, as a transition system, with its invariant:
    the holders, in the order of their claims, give out numbers of disjoint times. *)

From stdpp Require Import base list gmap strings sorting relations.
From Stdlib Require Import ZArith Lia.
From S2P Require Import Prelude Snowflake SlotAlloc.
Local Open Scope Z_scope.
Local Open Scope go_scope.

Section system.
(** The number of the worker, the budget of the fences and the quarantine; [delay]: the
    longest time from the beginning of a write of the mark to its [Ack]; [late]: whether
    a holder may make the slot key again after another one claimed the slot. *)
Context (worker F Q delay : Z) (late : bool) (worker_ok : 0 <= worker <= NodeMask).
#[local] Set Default Proof Using "Type*".

(** [sy_line]: the claims, the latest first, each with the second it begins after;
    [sy_out]: the numbers given out, with their handles. *)
Record Sys := mkSys {
  sy_now : Z; sy_etcd : Etcd; sy_handles : gmap Z Handle; sy_line : list (Z * Z); sy_out : list (Z * Z) }.

(** A step that changes one handle. *)
Definition with_handle (s : Sys) (now : Z) (e : Etcd) (u : Z) (h : Handle) (out : list (Z * Z)) : Sys :=
  mkSys now e (<[u := h]> (sy_handles s)) (sy_line s) out.
Definition with_claim (s : Sys) (e : Etcd) (u : Z) (h : Handle) (b : Z) : Sys :=
  mkSys (sy_now s) e (<[u := h]> (sy_handles s)) ((u, b) :: sy_line s) (sy_out s).
Definition last_claim (s : Sys) : option Z := fst <$> head (sy_line s).

(** What a call of [Generate] reads, when it ends at [now]. *)
Record reads_until (now : Z) (h : Handle) (r : Reads) : Prop := {
  ru_fenced : hd_fenced h = true -> (rd_fenced r).1.1 = true;
  ru_below : clock_below (sec_of now) r;
  ru_nonneg : forall i, 0 <= rd_epoch r i;
  ru_age : exists mono, (rd_age r).2 = Some (hd_fence h, mono, now) }.

Inductive slot_step (s : Sys) : Sys -> Prop :=
  | st_tick now : sy_now s <= now -> slot_step s (mkSys now (sy_etcd s) (sy_handles s) (sy_line s) (sy_out s))
  | st_lapse : slot_step s (mkSys (sy_now s) (lapse (sy_etcd s)) (sy_handles s) (sy_line s) (sy_out s))
  (** a process starts *)
  | st_claim u floor_read e h : sy_handles s !! u = None ->
      claim_fresh F (sy_now s) Q u floor_read (sy_etcd s) = Some (e, h) ->
      slot_step s (with_claim s e u h (sec_of (sy_now s)))
  | st_reuse u e h : sy_handles s !! u = None -> tryReuse F u (sy_etcd s) = Some (e, h) ->
      slot_step s (with_claim s e u h (mark_value (sy_etcd s)))
  | st_node u h h' : sy_handles s !! u = Some h -> hd_closing h = false -> hd_node h = None ->
      HandleNewNode worker (sy_now s) h = Some h' ->
      slot_step s (with_handle s (sy_now s) (sy_etcd s) u h' (sy_out s))
  (** the second of a handle passes *)
  | st_guard u h fate mono now e h' ok : sy_handles s !! u = Some h ->
      sy_now s <= now <= sy_now s + delay ->
      advanceGuard fate (sy_now s) mono now u h (sy_etcd s) = (e, h', ok) ->
      slot_step s (with_handle s now e u h' (sy_out s))
  | st_reclaim u h alive mono floor_read e h' : sy_handles s !! u = Some h -> hd_closing h = false ->
      (et_holder (sy_etcd s) = None -> late = true \/ last_claim s = Some u) ->
      reclaim u alive (Stale mono (sy_now s) (hd_fence h)).1 floor_read h (sy_etcd s) = (e, h') ->
      slot_step s (with_handle s (sy_now s) e u h' (sy_out s))
  | st_fence u h : sy_handles s !! u = Some h -> slot_step s (with_handle s (sy_now s) (sy_etcd s) u (fenceAll h) (sy_out s))
  | st_close u h fate mono now e h' : sy_handles s !! u = Some h ->
      sy_now s <= now <= sy_now s + delay ->
      Close fate (sy_now s) mono now u h (sy_etcd s) = (e, h') ->
      slot_step s (with_handle s now e u h' (sy_out s))
  (** a number is asked for *)
  | st_generate u h n r now n' ans : sy_handles s !! u = Some h -> hd_node h = Some n -> sy_now s <= now ->
      reads_until now h r -> Generate r n = Some (n', ans) ->
      slot_step s (with_handle s now (sy_etcd s) u (hd_set_node (Some n') h)
                     (match ans with Ok id => (u, id) :: sy_out s | Err _ => sy_out s end)).

(** The seconds fit into their 32 bits, and the mark is not near the end of its 64. *)
Definition in_range (s : Sys) : Prop :=
  0 <= sy_now s /\ sec_of (sy_now s) + maxBorrowAheadSec < 2 ^ 32 /\ mark_value (sy_etcd s) < 2 ^ 62.

Definition slot_run : relation Sys := rtc (fun s s' => slot_step s s' /\ in_range s').

(** A slot nobody has used. *)
Definition fresh_slot (now : Z) : Sys := mkSys now (mkEtcd None None None 0) ∅ [] [].

(** ** The invariant *)

(** The last second the fence of a handle lets numbers out in. *)
Definition last_second (h : Handle) : Z := sec_of (fc_ackWall (hd_fence h) + F) + maxBorrowAheadSec.

(** A number of the handle [u]: after second [b]. *)
Record number_inv (b : Z) (h : Handle) (id : Z) (t st : Z) : Prop := {
  ni_id : id = number_of t worker st;
  ni_step : 0 <= st <= stepMask;
  ni_after : b < t;
  ni_acked : fc_acked (hd_fence h) = true /\ t <= last_second h;
  ni_node : exists n, hd_node h = Some n /\ (t < lastTime n \/ (t = lastTime n /\ st <= nd_step n)) }.

Record node_inv (now : Z) (e : Etcd) (b : Z) (n : Node) : Prop := {
  nv_id : nodeID n = worker;
  nv_step : 0 <= nd_step n <= stepMask;
  nv_time : 0 <= lastTime n <= Z.max (mark_value e) (sec_of now + maxBorrowAheadSec);
  nv_after : b < lastTime n \/ (b <= lastTime n /\ nd_step n = stepMask);
  nv_ahead : not_ahead (sec_of now) n }.

Record handle_inv (now : Z) (e : Etcd) (out : list (Z * Z)) (u b : Z) (h : Handle) : Prop := {
  hv_guard : 0 <= hd_guardWritten h <= mark_value e /\ 0 <= hd_GuardEpochSec h <= mark_value e;
  hv_rev : hd_guardRev h <= et_rev e;
  hv_cas : hd_guardRev h = mark_rev e -> mark_value e <= guard_target now h;
  hv_budget : fc_budget (hd_fence h) = F;
  hv_ack : fc_acked (hd_fence h) = true ->
             fc_ackWall (hd_fence h) <= now /\ sec_of (fc_ackWall (hd_fence h)) <= mark_value e /\ 0 < mark_value e;
  hv_base : 0 <= b /\ (b <= sec_of now \/ b <= hd_guardWritten h);
  hv_node : forall n, hd_node h = Some n -> node_inv now e b n;
  hv_out : forall id, (u, id) ∈ out -> exists t st, number_inv b h id t st }.

(** The handle [u] gives out no number after second [b] any more. *)
Definition quiet (out : list (Z * Z)) (u : Z) (h : Handle) (b : Z) : Prop :=
  ((hd_closing h = true /\ hd_fenced h = true /\ forall n, hd_node h = Some n -> lastTime n <= b) \/
   (fc_acked (hd_fence h) = true -> last_second h <= b)) /\
  (forall id t st, (u, id) ∈ out -> id = number_of t worker st -> 0 <= st <= stepMask -> t <= b).

Record slot_inv (s : Sys) : Prop := {
  si_range : in_range s;
  si_etcd : 0 <= mark_value (sy_etcd s) /\ 0 <= mark_rev (sy_etcd s) <= et_rev (sy_etcd s) /\
              (mark_rev (sy_etcd s) = 0 -> mark_value (sy_etcd s) = 0);
  si_line : NoDup (sy_line s).*1;
  si_known : forall u, is_Some (sy_handles s !! u) <-> u ∈ (sy_line s).*1;
  si_holder : forall u, et_holder (sy_etcd s) = Some u -> last_claim s = Some u;
  si_handle : forall u b h, (u, b) ∈ sy_line s -> sy_handles s !! u = Some h ->
                handle_inv (sy_now s) (sy_etcd s) (sy_out s) u b h;
  si_owner : forall u id, (u, id) ∈ sy_out s -> u ∈ (sy_line s).*1;
  si_order : StronglySorted (fun later earlier => forall h, sy_handles s !! earlier.1 = Some h ->
                               quiet (sy_out s) earlier.1 h later.2) (sy_line s);
  si_released : forall u b h, et_released (sy_etcd s) = Some u -> et_holder (sy_etcd s) = Some u ->
                  (u, b) ∈ sy_line s -> sy_handles s !! u = Some h ->
                  hd_closing h = true /\ hd_fenced h = true /\ b <= mark_value (sy_etcd s) /\
                  forall n, hd_node h = Some n -> lastTime n <= mark_value (sy_etcd s);
  si_distinct : NoDup (sy_out s).*2 }.

(** ** Time and marks *)
Lemma sec_of_mono a b : a <= b -> sec_of a <= sec_of b.
Proof.
  intros Hab. unfold sec_of, nowEpoch. assert (a / Second <= b / Second) by (apply Z.div_le_mono; [done|lia]).
  unfold Epoch in *. destruct (Z.ltb_spec (a / Second) 1773446400), (Z.ltb_spec (b / Second) 1773446400); lia.
Qed.
Lemma sec_of_nonneg a : 0 <= sec_of a.
Proof. unfold sec_of, nowEpoch. destruct (Z.ltb_spec (a / Second) Epoch); lia. Qed.

Lemma sec_of_add a d k : 0 <= d <= k * Second -> sec_of (a + d) <= sec_of a + k.
Proof.
  intros Hd. assert ((a + d) / Second <= a / Second + k) as Hq.
  { rewrite <- Z.div_add by done. apply Z.div_le_mono; [done|lia]. }
  unfold sec_of, nowEpoch, Epoch in *.
  destruct (Z.ltb_spec ((a + d) / Second) 1773446400), (Z.ltb_spec (a / Second) 1773446400); unfold Second in *; lia.
Qed.

(** What may become of the keys while a handle looks away. *)
Record env_le (e e' : Etcd) : Prop := {
  el_mark : mark_value e <= mark_value e';
  el_rev : et_rev e <= et_rev e';
  el_bound : 0 <= mark_rev e' <= et_rev e';
  el_moved : (mark_rev e' = mark_rev e /\ mark_value e' = mark_value e) \/ et_rev e < mark_rev e' }.

Lemma env_le_same e e' : 0 <= mark_rev e <= et_rev e -> et_mark e' = et_mark e -> et_rev e <= et_rev e' -> env_le e e'.
Proof. intros Hr He Hrev. unfold mark_rev in *. split; unfold mark_value, mark_rev; rewrite ?He; lia. Qed.

Lemma guard_target_value now h :
  sec_of now < 2 ^ 63 -> (forall n, hd_node h = Some n -> 0 <= lastTime n < 2 ^ 63) ->
  guard_target now h = Z.max (Z.max (sec_of now) (from_option lastTime 0 (hd_node h)) + guardLeadSec) (hd_guardWritten h).
Proof.
  intros Hs Hn. unfold guard_target, HighWaterEpochSec, guardLeadSec. pose proof (sec_of_nonneg now).
  destruct (hd_node h) as [n|]; cbn [from_option].
  - specialize (Hn n eq_refl).
    destruct (Z.ltb_spec (sec_of now) (lastTime n)); rewrite u64_small by (unfold is_u64, u64_mod; lia);
      match goal with |- context [?a <? ?b] => destruct (Z.ltb_spec a b) end; lia.
  - rewrite u64_small by (unfold is_u64, u64_mod; lia).
    match goal with |- context [?a <? ?b] => destruct (Z.ltb_spec a b) end; lia.
Qed.

(** A put never takes the mark back. *)
Lemma put_spec attempts fate u rev target e e' rev' ans :
  0 <= mark_value e -> 0 <= mark_rev e <= et_rev e -> rev <= et_rev e -> 0 <= target ->
  (rev = mark_rev e -> mark_value e <= target) ->
  put_attempts attempts fate u rev target e = (e', rev', ans) ->
  env_le e e' /\ et_holder e' = et_holder e /\ et_released e' = et_released e /\ rev' <= et_rev e' /\
  mark_value e' <= Z.max (mark_value e) target /\
  match ans with
  | Ok (p, true) => et_holder e = Some u /\ p = mark_value e' /\ target <= p
  | _ => rev' = mark_rev e' -> mark_value e' <= target
  end.
Proof.
  intros Hm Hr. revert rev. induction attempts as [|k IH]; intros rev Hrev Ht Hcas; cbn [put_attempts].
  { intros [= <- <- <-]. split; [by apply env_le_same|]. do 3 (split; [done|]). split; [lia|done]. }
  destruct (fate k); [| |intros [= <- <- <-]; split; [by apply env_le_same|]; do 3 (split; [done|]); by split; [lia|]].
  all: unfold put_txn; destruct (bool_decide (et_holder e = Some u)) eqn:Ho; cbn [negb fst].
  all: try (intros [= <- <- <-]; split; [by apply env_le_same|]; do 3 (split; [done|]); by split; [lia|]).
  all: destruct (Z.eqb_spec (mark_rev e) rev) as [<-|Hne]; cbn [fst].
  - intros [= <- <- <-]. cbn. specialize (Hcas eq_refl). apply bool_decide_eq_true in Ho.
    split; [split; unfold mark_value, mark_rev in *; cbn; lia|]. unfold mark_value in *. cbn. repeat (split; [done || lia|]). done.
  - destruct (et_mark e) as [[stored r]|] eqn:Hmark.
    + destruct (Z.leb_spec target stored) as [Hle|Hlt].
      * intros [= <- <- <-]. split; [by apply env_le_same|]. apply bool_decide_eq_true in Ho. unfold mark_value, mark_rev in *.
        rewrite Hmark in *. cbn in *. repeat (split; [done || lia|]). done.
      * apply IH; try done; unfold mark_value, mark_rev in *; rewrite Hmark in *; cbn in *; lia.
    + apply IH; try done; unfold mark_value, mark_rev in *; rewrite Hmark in *; cbn in *; lia.
  - intros [= <- <- <-]. cbn. specialize (Hcas eq_refl).
    split; [split; unfold mark_value, mark_rev in *; cbn; lia|]. unfold mark_value, mark_rev in *. cbn. repeat (split; [done || lia|]). lia.
  - intros [= <- <- <-]. split; [by apply env_le_same|]. do 3 (split; [done|]). by split; [lia|].
Qed.

(** ** The invariant of a handle *)
Definition node_le (n n' : Node) : Prop := lastTime n < lastTime n' \/ (lastTime n = lastTime n' /\ nd_step n <= nd_step n').

Lemma SetGuardTime_le g n : nd_step n <= stepMask -> node_le n (SetGuardTime g n).
Proof. intros Hs. unfold node_le, SetGuardTime. destruct (Z.leb_spec g (lastTime n)); cbn; lia. Qed.

Lemma number_inv_mono b h h' id t st :
  (fc_acked (hd_fence h) = true -> fc_acked (hd_fence h') = true /\ fc_ackWall (hd_fence h) <= fc_ackWall (hd_fence h')) ->
  (forall n, hd_node h = Some n -> exists n', hd_node h' = Some n' /\ node_le n n') ->
  number_inv b h id t st -> number_inv b h' id t st.
Proof.
  intros Hf Hn [? ? ? [Ha Ht] (n & Hnode & Hle)]. destruct (Hf Ha) as [Ha' Hw]. destruct (Hn n Hnode) as (n' & Hnode' & Hle').
  split; [done..| |].
  - split; [done|]. unfold last_second in *. assert (sec_of (fc_ackWall (hd_fence h) + F) <= sec_of (fc_ackWall (hd_fence h') + F))
      by (apply sec_of_mono; lia). lia.
  - exists n'. split; [done|]. unfold node_le in Hle'. lia.
Qed.

Lemma node_inv_mono now now' e e' b n :
  now <= now' -> mark_value e <= mark_value e' -> node_inv now e b n -> node_inv now' e' b n.
Proof.
  intros Hnow He [? ? ? ? Ha]. apply sec_of_mono in Hnow. split; try done; [lia|]. unfold not_ahead in *. lia.
Qed.

Lemma node_inv_guard now e b n g : g <= mark_value e -> node_inv now e b n -> node_inv now e b (SetGuardTime g n).
Proof.
  intros Hg [? ? ? ? Ha]. unfold SetGuardTime. destruct (Z.leb_spec g (lastTime n)); [by split|].
  split; cbn; try done; rewrite ?stepMask_value in *; unfold not_ahead in *; cbn; rewrite ?stepMask_value in *; lia.
Qed.

(** The handles that stand by when time passes and the keys change. *)
Lemma handle_inv_env now now' e e' out out' u b h :
  now <= now' -> env_le e e' -> sec_of now' + maxBorrowAheadSec < 2 ^ 32 -> mark_value e < 2 ^ 62 ->
  (forall id, (u, id) ∈ out' -> (u, id) ∈ out) ->
  handle_inv now e out u b h -> handle_inv now' e' out' u b h.
Proof.
  intros Hnow [Hm Hr Hb Hmoved] Hsec Hmark Hout [Hg Hrev Hcas Hbud Hack Hbase Hnode Ho].
  pose proof (sec_of_mono _ _ Hnow) as Hs. unfold maxBorrowAheadSec in Hsec.
  assert (forall n, hd_node h = Some n -> 0 <= lastTime n < 2 ^ 63) as Hl.
  { intros n Hn. destruct (nv_time _ _ _ _ (Hnode n Hn)). unfold maxBorrowAheadSec in *. lia. }
  split; [lia|lia| |done| |lia| |].
  - intros Hrev'. destruct Hmoved as [[Hre Hmv]|]; [|lia]. rewrite Hmv. specialize (Hcas ltac:(congruence)).
    rewrite guard_target_value in * by (done || lia). lia.
  - intros Ha. destruct (Hack Ha) as (? & ? & ?). lia.
  - intros n Hn. eapply node_inv_mono, Hnode; done.
  - intros id Hid. by apply Ho, Hout.
Qed.

Lemma handle_inv_node now e out u b h n n' :
  hd_node h = Some n -> node_inv now e b n' -> node_le n n' -> lastTime n' < 2 ^ 63 -> sec_of now < 2 ^ 63 ->
  handle_inv now e out u b h -> handle_inv now e out u b (hd_set_node (Some n') h).
Proof.
  intros Hn Hn' Hle Hl Hs [Hg Hrev Hcas Hbud Hack Hbase Hnode Ho]. split; cbn; try done.
  - intros Hre. specialize (Hcas Hre). pose proof (nv_time _ _ _ _ Hn') as [? _].
    pose proof (nv_time _ _ _ _ (Hnode n Hn)) as [? _]. unfold node_le in Hle.
    rewrite guard_target_value in * by (cbn; try done; intros ? [= <-] || intros ? [= <-]%(eq_trans (eq_sym Hn)); lia).
    cbn. rewrite Hn in Hcas. cbn in Hcas. lia.
  - by intros ? [= <-].
  - intros id Hid. destruct (Ho id Hid) as (t & st & Hnum). exists t, st. eapply number_inv_mono, Hnum; [done|].
    cbn. intros ? [= <-]%(eq_trans (eq_sym Hn)). by eexists.
Qed.

(** Flags play no part. *)
Lemma handle_inv_flags now e out u b h h' :
  hd_GuardEpochSec h' = hd_GuardEpochSec h -> hd_guardWritten h' = hd_guardWritten h -> hd_guardRev h' = hd_guardRev h ->
  hd_fence h' = hd_fence h -> hd_node h' = hd_node h -> handle_inv now e out u b h -> handle_inv now e out u b h'.
Proof.
  intros H1 H2 H3 H4 H5 [Hg Hrev Hcas Hbud Hack Hbase Hnode Ho].
  split; rewrite ?H1, ?H2, ?H3, ?H4, ?H5; try done.
  - intros Hx%Hcas. unfold guard_target in *. by rewrite H2, H5.
  - intros id Hid. destruct (Ho id Hid) as (t & st & Hnum). exists t, st. eapply number_inv_mono, Hnum.
    + by rewrite H4.
    + rewrite H5. intros n Hn. exists n. split; [done|]. right. lia.
Qed.

(** *** [advanceGuard]: the mark, the revision and the fence of a handle *)
Lemma handle_inv_guard now e out u b h written rev :
  0 <= written <= mark_value e -> hd_guardWritten h <= written -> rev <= et_rev e ->
  (rev = mark_rev e -> mark_value e <= guard_target now (hd_set_guard written rev h)) ->
  handle_inv now e out u b h -> handle_inv now e out u b (hd_set_guard written rev h).
Proof.
  intros Hw Hle Hr Hcas [Hg Hrev _ Hbud Hack Hbase Hnode Ho]. split; cbn; try done; [lia|lia|].
  intros id Hid. destruct (Ho id Hid) as (t & st & Hnum). exists t, st. eapply number_inv_mono, Hnum; [done|].
  cbn. intros n Hn. exists n. split; [done|]. right. lia.
Qed.

Lemma handle_inv_ack now now' e out u b h mono :
  now <= now' -> sec_of now' <= mark_value e -> 0 < mark_value e ->
  (forall n, hd_node h = Some n -> 0 <= lastTime n < 2 ^ 63) -> sec_of now' < 2 ^ 63 ->
  handle_inv now e out u b h -> handle_inv now' e out u b (hd_set_fence (Ack mono now' (hd_fence h)) h).
Proof.
  intros Hnow Hs Hm Hl Hsec [Hg Hrev Hcas Hbud Hack Hbase Hnode Ho]. pose proof (sec_of_mono _ _ Hnow).
  split; cbn; try done; [|lia| |].
  - intros Hre. specialize (Hcas Hre). rewrite guard_target_value in * by (cbn; done || lia). cbn. lia.
  - intros n Hn. eapply node_inv_mono, Hnode; done || lia.
  - intros id Hid. destruct (Ho id Hid) as (t & st & Hnum). exists t, st. eapply number_inv_mono, Hnum.
    + cbn. intros Ha. destruct (Hack Ha). split; [done|lia].
    + cbn. intros n Hn. exists n. split; [done|]. right. lia.
Qed.

Lemma guard_target_low now h : hd_guardWritten h <= guard_target now h.
Proof. unfold guard_target. match goal with |- _ <= if ?a <? ?b then _ else _ => destruct (Z.ltb_spec a b) end; lia. Qed.

Lemma guard_target_set now h written rev :
  hd_guardWritten h <= written -> guard_target now h <= guard_target now (hd_set_guard written rev h).
Proof.
  intros Hw. unfold guard_target. cbn. repeat match goal with |- context [if ?a <? ?b then _ else _] => destruct (Z.ltb_spec a b) end; lia.
Qed.

(** The clock when the answer comes: the lead of the mark outlasts the transaction. *)
Lemma lead_outlasts now wall : now <= wall <= now + watermarkTxnTimeout -> sec_of wall <= sec_of now + guardLeadSec.
Proof.
  intros Hw. replace wall with (now + (wall - now)) by lia. apply sec_of_add.
  unfold watermarkTxnTimeout, guardLeadSec, Millisecond, Second in *. lia.
Qed.

(** What an advance of the mark is, from outside. *)
Record advanced (now : Z) (e e' : Etcd) (out : list (Z * Z)) (u b : Z) (h h' : Handle) (ok : bool) : Prop := {
  ad_env : env_le e e';
  ad_keys : et_holder e' = et_holder e /\ et_released e' = et_released e;
  ad_inv : handle_inv now e' out u b h';
  ad_flags : hd_closing h' = hd_closing h /\ hd_fenced h' = hd_fenced h;
  ad_node : forall n', hd_node h' = Some n' -> exists n, hd_node h = Some n /\ lastTime n' <= Z.max (lastTime n) (mark_value e');
  ad_ok : if ok then et_holder e = Some u /\ b <= mark_value e' /\ forall n', hd_node h' = Some n' -> lastTime n' <= mark_value e'
          else hd_fence h' = hd_fence h /\ hd_node h' = hd_node h }.

Lemma advanceGuard_inv fate now mono wall u b h e e' h' ok out :
  handle_inv now e out u b h -> 0 <= mark_value e < 2 ^ 62 -> 0 <= mark_rev e <= et_rev e ->
  now <= wall <= now + watermarkTxnTimeout ->
  sec_of wall + maxBorrowAheadSec < 2 ^ 32 -> 
  advanceGuard fate now mono wall u h e = (e', h', ok) -> advanced wall e e' out u b h h' ok.
Proof.
  intros Hinv Hm Hr Hwall Hsec.
  pose proof (sec_of_mono now wall ltac:(lia)) as Hmono. pose proof (lead_outlasts _ _ Hwall) as Hlead.
  pose proof (sec_of_nonneg now) as Hs0. unfold maxBorrowAheadSec in Hsec.
  assert (forall n, hd_node h = Some n -> 0 <= lastTime n < 2 ^ 63) as Hl.
  { intros n Hn. destruct (nv_time _ _ _ _ (hv_node _ _ _ _ _ _ Hinv n Hn)). unfold maxBorrowAheadSec in *. lia. }
  pose proof (guard_target_value now h ltac:(lia) Hl) as Htarget.
  assert (from_option lastTime 0 (hd_node h) < 2 ^ 62 + 1) as Hl62.
  { destruct (hd_node h) as [n|] eqn:Hn; cbn; [|lia]. pose proof (nv_time _ _ _ _ (hv_node _ _ _ _ _ _ Hinv n Hn)).
    unfold maxBorrowAheadSec in *. lia. }
  pose proof (hv_base _ _ _ _ _ _ Hinv) as Hbase.
  pose proof (hv_guard _ _ _ _ _ _ Hinv) as Hgw. pose proof (guard_target_low now h) as Hlow.
  unfold advanceGuard. destruct (putWatermarkLocked _ _ _ _ _) as [[e1 rev] ans] eqn:Hput.
  apply put_spec in Hput as (Henv & Hho & Hre & Hrev & Hle & Hans); [|lia|done|by apply Hinv| |by apply Hinv].
  2: { unfold guardLeadSec in *. lia. }
  assert (handle_inv wall e1 out u b h) as H1.
  { eapply (handle_inv_env now wall); [lia|exact Henv|unfold maxBorrowAheadSec; lia|lia|by intros|done]. }
  assert (guard_target now h <= guard_target wall h) as Hgt by (rewrite !guard_target_value by (done || lia); lia).
  assert ((rev = mark_rev e1 -> mark_value e1 <= guard_target now h) ->
    advanced wall e e1 out u b h (hd_set_guard (hd_guardWritten h) rev h) false) as Hquit.
  { intros Hcas. split; [done|done| |done| |done].
    - apply handle_inv_guard; [destruct Henv; lia|lia|done| |done]. intros Hx%Hcas.
      pose proof (guard_target_set wall h (hd_guardWritten h) rev ltac:(lia)). lia.
    - cbn. intros n' Hn'. exists n'. split; [done|lia]. }
  destruct ans as [[p []]|err]; [|intros [= <- <- <-]..].
  2: { destruct (Hquit Hans). split; try done. by eapply handle_inv_flags, ad_inv0. }
  2: { by apply Hquit. }
  destruct Hans as (Hown & -> & Htp). set (h1 := if _ <? _ then _ else h). intros [= <- <- <-].
  assert (handle_inv wall e1 out u b h1 /\ hd_closing h1 = hd_closing h /\ hd_fenced h1 = hd_fenced h /\
    hd_guardWritten h1 = hd_guardWritten h /\
    (forall n', hd_node h1 = Some n' -> lastTime n' <= mark_value e1 /\
       exists n, hd_node h = Some n /\ lastTime n' <= Z.max (lastTime n) (mark_value e1)))
    as (H2 & Hc & Hf & Hgw1 & Hn1).
  { assert (forall n, hd_node h = Some n -> lastTime n <= guard_target now h) as Hhw.
    { intros n Hn. rewrite Hn in Htarget. cbn in Htarget. unfold guardLeadSec in Htarget. lia. }
    unfold h1. destruct (Z.ltb_spec (guard_target now h) (mark_value e1)) as [Hlt|Hge].
    2: { do 4 (split; [done|]). intros n' Hn'. specialize (Hhw n' Hn'). split; [lia|]. exists n'. split; [done|lia]. }
    destruct (hd_node h) as [n|] eqn:Hn.
    2: { destruct h; cbn in *; subst. by do 4 (split; [done|]). }
    pose proof (hv_node _ _ _ _ _ _ H1 n Hn) as Hnv. specialize (Hl n eq_refl).
    cbn [fmap option_fmap option_map]. split; [|do 3 (split; [done|])].
    - eapply handle_inv_node; [exact Hn|apply node_inv_guard; [lia|done]|apply SetGuardTime_le, Hnv| |lia|done].
      unfold SetGuardTime. destruct (_ <=? _); cbn; lia.
    - cbn. intros n' [= <-]. specialize (Hhw n eq_refl). unfold SetGuardTime.
      destruct (Z.leb_spec (mark_value e1) (lastTime n)); cbn; (split; [lia|]); exists n; split; [done|lia|done|lia]. }
  split; [done|done| |done| |].
  - apply (handle_inv_ack wall wall e1 out u b (hd_set_guard (mark_value e1) rev h1)); cbn; [lia|unfold guardLeadSec in *; lia|unfold guardLeadSec in *; lia| |lia|].
    + intros n Hn. destruct (Hn1 n Hn). pose proof (nv_time _ _ _ _ (hv_node _ _ _ _ _ _ H2 n Hn)). unfold guardLeadSec in *. lia.
    + apply handle_inv_guard; [destruct Henv; lia|lia|done| |done]. intros _.
      pose proof (guard_target_low wall (hd_set_guard (mark_value e1) rev h1)) as Hx. cbn in Hx. lia.
  - cbn. intros n' Hn'. by destruct (Hn1 n' Hn').
  - split; [done|]. split; [unfold guardLeadSec in *; lia|]. cbn. intros n' Hn'. by destruct (Hn1 n' Hn').
Qed.

(** *** [Generate] *)
Lemma handle_inv_out now e out u b h id t st :
  number_inv b h id t st -> handle_inv now e out u b h -> handle_inv now e ((u, id) :: out) u b h.
Proof.
  intros Hn [Hg Hrev Hcas Hbud Hack Hbase Hnode Ho]. split; try done.
  intros id' [[= ->]|Hid]%elem_of_cons; [by eauto|by apply Ho].
Qed.

Lemma fence_open a c mono wall :
  a = Some (c, mono, wall) -> checkWatermarkAge a = Ok tt -> fc_acked c = true /\ wall <= fc_ackWall c + fc_budget c.
Proof.
  intros ->. cbn. unfold guard_err, Stale. destruct (fc_acked c); cbn; [|done].
  destruct (_ <? _); cbn; [done|]. destruct (Z.ltb_spec (fc_budget c) (wall - fc_ackWall c)); [done|]. split; [done|lia].
Qed.

Lemma generate_inv now now' e out u b h n r n' ans :
  handle_inv now e out u b h -> now <= now' -> sec_of now' + maxBorrowAheadSec < 2 ^ 32 ->
  0 <= mark_value e < 2 ^ 62 -> 0 <= mark_rev e <= et_rev e ->
  hd_node h = Some n -> reads_until now' h r -> Generate r n = Some (n', ans) ->
  handle_inv now' e (match ans with Ok id => (u, id) :: out | Err _ => out end) u b (hd_set_node (Some n') h) /\
  (hd_fenced h = true -> n' = n /\ exists x, ans = Err x) /\
  forall id, ans = Ok id -> (exists t st, number_inv b (hd_set_node (Some n') h) id t st) /\ (u, id) ∉ out.
Proof.
  intros Hinv Hnow Hsec Hm Hr Hn [Hfen Hbelow Hpos [mono Hage]] Hgen.
  assert (handle_inv now' e out u b h) as H1.
  { eapply (handle_inv_env now now' e e); [done|by apply env_le_same|done|lia|by intros|done]. }
  pose proof (hv_node _ _ _ _ _ _ H1 n Hn) as [Hid Hst Ht Haft Hah].
  pose proof (sec_of_nonneg now') as Hs0. unfold maxBorrowAheadSec in *.
  assert (hd_fenced h = true -> n' = n /\ exists x, ans = Err x) as Hfenced.
  { intros Hf. specialize (Hfen Hf). unfold Generate in Hgen. destruct (rd_fenced r) as [[f1 f2] f3]. cbn in Hfen. subst f1.
    injection Hgen as <- <-. by eauto. }
  assert (node_inv now' e b n' /\ node_le n n' -> handle_inv now' e out u b (hd_set_node (Some n') h)) as Hset.
  { intros [Hnv Hle]. eapply handle_inv_node; try done; [|lia]. pose proof (nv_time _ _ _ _ Hnv). unfold maxBorrowAheadSec in *. lia. }
  apply Generate_inv in Hgen as [[-> [x ->]]|[(x & Ha & ->)|[Ha Hans]]].
  - split; [apply Hset; split; [done|right; lia]|]. by split.
  - apply advance_fails in Ha as [_ ->]. split; [|by split]. apply Hset. split; [by split|right; cbn; lia].
  - apply (advance_later (sec_of now')) in Ha as (Hid' & Hlater & Hst' & Ht'); try done; [|unfold maxBorrowAheadSec; lia..].
    unfold maxBorrowAheadSec in Ht'.
    assert (node_inv now' e b n' /\ node_le n n') as Hnew.
    { unfold later, node_le in *. split; [|lia]. split; unfold maxBorrowAheadSec; try done; [by rewrite Hid'|lia|lia|].
      intros _. unfold maxBorrowAheadSec. lia. }
    specialize (Hset Hnew). destruct Hans as [[x ->]|(-> & _ & _ & Hopen)]; [by split|].
    destruct (fence_open _ _ _ _ Hage Hopen) as [Hacked Hwall].
    rewrite (hv_budget _ _ _ _ _ _ H1) in Hwall. apply sec_of_mono in Hwall.
    destruct Hnew as [[] _].
    assert (number_inv b (hd_set_node (Some n') h) (number n') (lastTime n') (nd_step n')) as Hnum.
    { split; [|done|unfold later in *; lia|split; [done|unfold last_second, maxBorrowAheadSec; cbn; lia]|eexists; split; [done|lia]].
      rewrite number_value; [by rewrite Hid', Hid|split; [by rewrite Hid', Hid|done]|unfold in_epoch; lia]. }
    split; [by eapply handle_inv_out|]. split; [done|]. intros id [= <-]. split; [by eauto|].
    intros Hin. destruct (hv_out _ _ _ _ _ _ H1 _ Hin) as (t & st & [Hnumber Hst0 _ _ (n0 & Hn0 & Hle)]).
    rewrite Hn in Hn0. injection Hn0 as <-. destruct Hnum as [Hnum' _ _ _ _]. rewrite Hnum' in Hnumber.
    apply number_of_inj in Hnumber as [? ?]; [|done|done]. unfold later in Hlater. lia.
Qed.

(** ** Handles that are no longer the last *)
Lemma quiet_later out u h b b' : b <= b' -> quiet out u h b -> quiet out u h b'.
Proof.
  intros Hb [Hq Ho]. split.
  - destruct Hq as [(? & ? & Hn)|Hq]; [left; split; [done|]; split; [done|]; intros n Hnn; specialize (Hn n Hnn); lia|].
    right. intros Ha%Hq. lia.
  - intros id t st Hin Hid Hst. specialize (Ho id t st Hin Hid Hst). lia.
Qed.

Lemma quiet_same out out' u h h' b :
  (hd_closing h = true -> hd_closing h' = true /\ hd_node h' = hd_node h) -> (hd_fenced h = true -> hd_fenced h' = true \/ hd_closing h = false) ->
  hd_fence h' = hd_fence h ->
  (forall id, (u, id) ∈ out' -> (u, id) ∈ out) -> quiet out u h b -> quiet out' u h' b.
Proof.
  unfold quiet, last_second. intros Hc Hf Hfe Ho. rewrite Hfe.
  intros [[(Hcl & Hfn & ?)|?] Hout]; (split; [|intros; by eapply Hout; [apply Ho|..]]); [|by auto].
  destruct (Hc Hcl) as [-> ->], (Hf Hfn); [by auto|congruence].
Qed.

Lemma quiet_generate out u h n n' ans b b0 :
  hd_node h = Some n -> quiet out u h b ->
  (hd_fenced h = true -> n' = n /\ exists x, ans = Err x) ->
  (forall id, ans = Ok id -> exists t st, number_inv b0 (hd_set_node (Some n') h) id t st) ->
  quiet (match ans with Ok id => (u, id) :: out | Err _ => out end) u (hd_set_node (Some n') h) b.
Proof.
  intros Hn [Hq Ho] Hfen Hnum. destruct Hq as [(Hc & Hf & Hl)|Hq].
  { destruct (Hfen Hf) as [-> [x ->]]. split; [|exact Ho]. left. cbn. split; [done|]. split; [done|]. intros ? [= <-]. by apply Hl. }
  split; [by right|]. destruct ans as [id0|]; [|exact Ho]. intros id t st [[= ->]|Hin]%elem_of_cons Hid Hst; [|by eapply Ho].
  destruct (Hnum id0 eq_refl) as (t0 & st0 & [Hid0 Hst0 _ [Ha Hle] _]). rewrite Hid0 in Hid.
  apply number_of_inj in Hid as [-> _]; [|done|done]. specialize (Hq Ha). unfold last_second in *. cbn in Hle. lia.
Qed.

Lemma StronglySorted_tail {A} (R R' : A -> A -> Prop) l :
  StronglySorted R l -> (forall x y, y ∈ tail l -> R x y -> R' x y) -> StronglySorted R' l.
Proof.
  induction 1 as [|x l Hs IH Hx]; intros HR; constructor.
  - apply IH. intros y z Hz. apply HR. cbn. destruct l; [done|by right].
  - rewrite Forall_forall in *. cbn in HR. intros y Hy. by apply HR, Hx.
Qed.

Lemma StronglySorted_pair {A} (R : A -> A -> Prop) l x y :
  StronglySorted R l -> x ∈ l -> y ∈ l -> x <> y -> R x y \/ R y x.
Proof.
  induction 1 as [|z l Hs IH Hz]; [by intros []%not_elem_of_nil|]. rewrite Forall_forall in Hz.
  intros [->|Hx]%elem_of_cons [->|Hy]%elem_of_cons Hne; [done|left; by apply Hz|right; by apply Hz|by apply IH].
Qed.

(** ** Steps of one handle *)

(** What a step of the handle [u] does to the rest: the keys move on, numbers of [u] only
    are new, and if [u] is not the last holder, its quiet stays. *)
Lemma slot_inv_update s now e u h h' out b :
  slot_inv s -> sy_handles s !! u = Some h -> (u, b) ∈ sy_line s ->
  sy_now s <= now -> env_le (sy_etcd s) e ->
  in_range (with_handle s now e u h' out) ->
  (et_holder e = et_holder (sy_etcd s) \/ (et_holder e = Some u /\ last_claim s = Some u)) ->
  handle_inv now e out u b h' ->
  (forall v id, (v, id) ∈ out -> (v, id) ∈ sy_out s \/ v = u) ->
  NoDup out.*2 ->
  (forall b', quiet (sy_out s) u h b' -> last_claim s <> Some u -> quiet out u h' b') ->
  (et_released e = None \/ et_released e = et_released (sy_etcd s) \/ et_released e = Some u) ->
  (et_released e = Some u -> et_holder e = Some u -> hd_closing h' = true /\ hd_fenced h' = true /\ b <= mark_value e /\
     forall n, hd_node h' = Some n -> lastTime n <= mark_value e) ->
  slot_inv (with_handle s now e u h' out).
Proof.
  intros [Hrange (Hetcd & Hrevs & Hzero) Hline Hknown Hholder Hhandle Howner Horder Hrel Hdist] Hu Hub Hnow Henv Hrange' Hho Hh' Hout Hnd Hq Hre Hre'.
  assert (forall v b1, (v, b1) ∈ sy_line s -> v = u -> b1 = b) as Hb.
  { intros v b1 Hv ->. destruct (list_elem_of_lookup_1 _ _ Hv) as [i Hi], (list_elem_of_lookup_1 _ _ Hub) as [j Hj].
    assert (i = j) as ->; [|congruence]. eapply NoDup_lookup; [exact Hline|rewrite list_lookup_fmap, Hi|rewrite list_lookup_fmap, Hj]; done. }
  assert (forall v id, v <> u -> (v, id) ∈ out -> (v, id) ∈ sy_out s) as Hother.
  { intros v id Hne Hin. destruct (Hout v id Hin); [done|congruence]. }
  split; cbn -[mark_value]; try done.
  - destruct Henv as [? ? ? [[Ha Hb']|?]]; (split; [lia|split; [lia|]]); [rewrite Ha, Hb'; done|lia].
  - intros v. rewrite <- Hknown. destruct (decide (v = u)) as [->|Hne]; [rewrite lookup_insert_eq, Hu|rewrite lookup_insert_ne by done]; done.
  - intros v Hv. destruct Hho as [Hho|[Hho ?]]; [apply Hholder; congruence|].
    unfold last_claim in *. cbn. congruence.
  - intros v bv hv Hv. destruct (decide (v = u)) as [->|Hne].
    + rewrite lookup_insert_eq. intros [= <-]. by rewrite (Hb u bv Hv eq_refl).
    + rewrite lookup_insert_ne by done. intros Hlk. destruct Hrange as (? & ? & ?), Hrange' as (? & ? & ?).
      eapply handle_inv_env; [exact Hnow|exact Henv|done|done| |by apply Hhandle]. intros id. by apply Hother.
  - intros v id Hin. destruct (Hout v id Hin) as [Hin'| ->]; [by eapply Howner|]. by apply Hknown; rewrite Hu.
  - eapply StronglySorted_tail; [exact Horder|]. intros [v bv] [w bw] Hin Hold hw Hlk. cbn in *.
    destruct (decide (w = u)) as [->|Hne].
    + rewrite lookup_insert_eq in Hlk. injection Hlk as <-. apply Hq; [by apply Hold|].
      unfold last_claim. destruct (sy_line s) as [|[x bx] l]; [done|]. cbn in *. apply NoDup_cons in Hline as [Hx _].
      intros [= ->]. apply Hx, list_elem_of_fmap. by exists (u, bw).
    + rewrite lookup_insert_ne in Hlk by done. destruct (Hold hw Hlk) as [Hq1 Hq2].
      split; [done|]. intros id t st Hi. by apply Hq2, Hother.
  - intros v bv hv Hrv Hhv Hv. destruct (decide (v = u)) as [->|Hne].
    + rewrite lookup_insert_eq. intros [= <-]. rewrite (Hb u bv Hv eq_refl). by apply Hre'.
    + rewrite lookup_insert_ne by done. intros Hlk.
      destruct Hre as [?|[Hre|?]]; [congruence| |congruence]. destruct Hho as [Hho|[? ?]]; [|congruence].
      destruct (Hrel v bv hv) as (? & ? & ? & Hn); [congruence..|]. destruct Henv.
      split; [done|]. split; [done|]. split; [lia|]. intros n Hnn. specialize (Hn n Hnn). lia.
Qed.

(** Time passes, or the lease lapses. *)
Lemma slot_inv_env s now e :
  slot_inv s -> sy_now s <= now -> et_mark e = et_mark (sy_etcd s) -> et_rev (sy_etcd s) <= et_rev e ->
  in_range (mkSys now e (sy_handles s) (sy_line s) (sy_out s)) ->
  (et_holder e = None \/ (et_holder e = et_holder (sy_etcd s) /\ et_released e = et_released (sy_etcd s))) ->
  slot_inv (mkSys now e (sy_handles s) (sy_line s) (sy_out s)).
Proof.
  intros [Hrange (Hetcd & Hrevs & Hzero) Hline Hknown Hholder Hhandle Howner Horder Hrel Hdist] Hnow Hm Hr Hrange' Hho.
  assert (mark_value e = mark_value (sy_etcd s) /\ mark_rev e = mark_rev (sy_etcd s)) as [Hmv Hmr].
  { unfold mark_value, mark_rev. by rewrite Hm. }
  split; cbn -[mark_value]; try done.
  - rewrite Hmv, Hmr. split; [lia|]. split; [lia|done].
  - intros u Hu. destruct Hho as [|[Hho _]]; [congruence|]. apply Hholder. congruence.
  - intros u b h Hin Hu. destruct Hrange as (? & ? & ?), Hrange' as (? & ? & ?).
    eapply handle_inv_env; [exact Hnow|apply env_le_same; lia || done|done|done|by intros|by apply Hhandle].
  - intros u b h Hre Hu. destruct Hho as [|[Hho1 Hho2]]; [congruence|]. rewrite Hmv. intros. eapply Hrel; try done; congruence.
Qed.

(** A claim: the new handle comes after all the others. *)
Lemma slot_inv_claim s e u b h :
  slot_inv s -> sy_handles s !! u = None -> et_mark e = et_mark (sy_etcd s) -> et_rev (sy_etcd s) <= et_rev e ->
  et_holder e = Some u -> et_released e = None ->
  in_range (with_claim s e u h b) ->
  (forall out, (forall id, (u, id) ∉ out) -> handle_inv (sy_now s) e out u b h) ->
  (forall v bv hv, (v, bv) ∈ sy_line s -> sy_handles s !! v = Some hv -> quiet (sy_out s) v hv b) ->
  slot_inv (with_claim s e u h b).
Proof.
  intros [Hrange (Hetcd & Hrevs & Hzero) Hline Hknown Hholder Hhandle Howner Horder Hrel Hdist] Hu Hm Hr Hho Hre Hrange' Hnew Hq.
  assert (mark_value e = mark_value (sy_etcd s) /\ mark_rev e = mark_rev (sy_etcd s)) as [Hmv Hmr].
  { unfold mark_value, mark_rev. by rewrite Hm. }
  assert (u ∉ (sy_line s).*1) as Hnot.
  { intros Hin%Hknown. rewrite Hu in Hin. by destruct Hin. }
  assert (forall v bv, (v, bv) ∈ sy_line s -> v <> u) as Hne.
  { intros v bv Hv ->. apply Hnot, list_elem_of_fmap. by exists (u, bv). }
  split; cbn -[mark_value]; try done.
  - rewrite Hmv, Hmr. split; [lia|]. split; [lia|done].
  - by apply NoDup_cons.
  - intros v. destruct (decide (v = u)) as [->|Hvu].
    + rewrite lookup_insert_eq. split; [intros _; by left|done].
    + rewrite lookup_insert_ne by done. rewrite Hknown, elem_of_cons. naive_solver.
  - intros v Hv. rewrite Hho in Hv. by injection Hv as <-.
  - intros v bv hv [[= -> ->]|Hin]%elem_of_cons.
    + rewrite lookup_insert_eq. intros [= <-]. apply Hnew. intros id Hin. by apply Hnot, (Howner u id).
    + rewrite lookup_insert_ne by (symmetry; by eapply Hne). intros Hlk. destruct Hrange as (? & ? & ?).
      eapply (handle_inv_env (sy_now s) (sy_now s)); [done|apply env_le_same; lia || done|done|done|by intros|by apply Hhandle].
  - intros v id Hin. right. by eapply Howner.
  - constructor.
    + eapply StronglySorted_tail; [exact Horder|]. intros [v bv] [w bw] Hin Hold hw Hlk. cbn in *. apply Hold.
      rewrite lookup_insert_ne in Hlk; [done|]. symmetry. eapply Hne. destruct (sy_line s); [done|]. right. exact Hin.
    + rewrite Forall_forall. intros [v bv] Hin hv Hlk. cbn in *. rewrite lookup_insert_ne in Hlk by (symmetry; by eapply Hne).
      by eapply Hq.
  - intros v bv hv Hrv. congruence.
Qed.

Lemma newHandle_inv now e0 e out u b floor h :
  et_mark e0 = et_mark e -> et_rev e <= et_rev e0 -> 0 <= mark_value e -> 0 <= mark_rev e <= et_rev e -> (mark_rev e = 0 -> mark_value e = 0) ->
  (floor = readWatermarkFloor e \/ floor = (0, 0)) -> 0 <= b -> (b <= sec_of now \/ b <= floor.1) ->
  (forall id, (u, id) ∉ out) -> newHandle F floor = Some h -> handle_inv now e0 out u b h.
Proof.
  intros He0 Her Hm Hr Hzero Hfl Hb0 Hb Hout. unfold newHandle, NewFenceClock. destruct (F <=? 0); cbn; [done|]. intros [= <-].
  assert (readWatermarkFloor e = (mark_value e, mark_rev e)) as Hrd.
  { unfold readWatermarkFloor, mark_value, mark_rev. by destruct (et_mark e) as [[]|]. }
  rewrite Hrd in Hfl.
  assert (mark_value e0 = mark_value e /\ mark_rev e0 = mark_rev e) as [Hmv Hmr] by (unfold mark_value, mark_rev; by rewrite He0).
  split; cbn; rewrite ?Hmv, ?Hmr; try done.
  - destruct Hfl as [->| ->]; cbn; lia.
  - destruct Hfl as [->| ->]; cbn; lia.
  - intros Hre. etransitivity; [|apply guard_target_low]. cbn. destruct Hfl as [->| ->]; cbn in *; [lia|].
    rewrite Hzero by done. lia.
  - intros id Hin. by destruct (Hout id).
Qed.

(** ** Every step *)
Lemma HandleNewNode_inv now e out u b h h' :
  hd_node h = None -> handle_inv now e out u b h -> sec_of now < 2 ^ 62 -> mark_value e < 2 ^ 62 ->
  HandleNewNode worker now h = Some h' ->
  handle_inv now e out u b h' /\ hd_fence h' = hd_fence h /\ hd_closing h' = hd_closing h.
Proof.
  intros Hn [Hg Hrev Hcas Hbud Hack Hbase Hnode Ho] Hsec Hmark. pose proof (sec_of_nonneg now). unfold HandleNewNode, NewNode.
  destruct (NodeMask <? worker); cbn; [done|]. destruct (now / Second <? Epoch); cbn; [done|]. intros [= <-]. split; [|done].
  fold (sec_of now). set (n0 := mkNode _ _ _ _). set (floor := if hd_GuardEpochSec h <? _ then _ else _).
  assert (0 <= floor <= mark_value e /\ hd_guardWritten h <= floor) as [Hf Hf'].
  { unfold floor. destruct (Z.ltb_spec (hd_GuardEpochSec h) (hd_guardWritten h)); lia. }
  assert (node_inv now e b (if 0 <? floor then SetGuardTime floor n0 else n0)) as Hnv.
  { destruct (Z.ltb_spec 0 floor); [unfold SetGuardTime, n0; cbn; destruct (Z.leb_spec floor (sec_of now))|unfold n0];
      split; cbn; try done; unfold not_ahead, maxBorrowAheadSec; cbn; rewrite ?stepMask_value; lia. }
  split; cbn; try done.
  - intros Hre. specialize (Hcas Hre). rewrite guard_target_value in * by (cbn; lia || (intros n' Hn'; congruence) ||
      (intros ? [= <-]; pose proof (nv_time _ _ _ _ Hnv); unfold maxBorrowAheadSec in *; lia)).
    rewrite Hn in Hcas. cbn [from_option hd_node hd_guardWritten] in *. pose proof (nv_time _ _ _ _ Hnv). lia.
  - by intros ? [= <-].
  - intros id Hin. destruct (Ho id Hin) as (t & st & [_ _ _ _ (n & Hn' & _)]). congruence.
Qed.

Lemma refloor_inv now e e0 out u b h :
  readWatermarkFloor e0 = readWatermarkFloor e -> 0 <= mark_value e < 2 ^ 62 -> mark_rev e <= et_rev e ->
  sec_of now + maxBorrowAheadSec < 2 ^ 62 ->
  handle_inv now e out u b h -> handle_inv now e out u b (refloorFromWatermark e0 h).
Proof.
  intros He0 Hm Hr Hs Hinv. unfold refloorFromWatermark. rewrite He0.
  assert (readWatermarkFloor e = (mark_value e, mark_rev e)) as ->.
  { unfold readWatermarkFloor, mark_value, mark_rev. by destruct (et_mark e) as [[]|]. }
  pose proof (hv_guard _ _ _ _ _ _ Hinv) as [Hg _].
  set (g := if hd_guardWritten h <? _ then _ else _). assert (g = mark_value e) as ->.
  { unfold g. destruct (Z.ltb_spec (hd_guardWritten h) (mark_value e)); lia. }
  assert (handle_inv now e out u b (hd_set_guard (mark_value e) (mark_rev e) h)) as H1.
  { apply handle_inv_guard; [lia|lia|done| |done]. intros _. etransitivity; [|apply guard_target_low]. done. }
  destruct (0 <? mark_value e); [|done]. destruct (hd_node h) as [n|] eqn:Hn; cbn [hd_set_guard hd_node]; rewrite Hn; cbn.
  - pose proof (hv_node _ _ _ _ _ _ Hinv n Hn) as Hnv. pose proof (nv_time _ _ _ _ Hnv). unfold maxBorrowAheadSec in *.
    eapply handle_inv_node; [exact Hn|by apply node_inv_guard|apply SetGuardTime_le, Hnv| |lia|done].
    unfold SetGuardTime. destruct (_ <=? _); cbn; lia.
  - eapply handle_inv_flags, H1; done.
Qed.

Lemma known_line s u h : slot_inv s -> sy_handles s !! u = Some h -> exists b, (u, b) ∈ sy_line s.
Proof.
  intros Hinv Hu. assert (u ∈ (sy_line s).*1) as Hin by (apply (si_known _ Hinv); by eexists).
  apply list_elem_of_fmap in Hin as ([v b] & -> & Hin). by exists b.
Qed.

(** A claim after the quarantine: every fence has closed. *)
Lemma claim_rested ack now wm :
  0 < F -> F <= Z.quot Q 2 -> 24 * Second <= Q ->
  sec_of ack <= wm -> 0 < wm -> rested (sec_of now) (Q / Second) wm = true ->
  sec_of (ack + F) + maxBorrowAheadSec <= sec_of now.
Proof.
  intros HF HFQ HQ Hack Hwm Hrest. unfold rested in Hrest.
  assert (wm =? 0 = false) as Hz by lia. rewrite Hz in Hrest. cbn in Hrest.
  apply negb_true_iff, orb_false_iff in Hrest as [H1 H2]. zbool.
  assert (sec_of (ack + F) <= sec_of ack + (F / Second + 1)) as Hs.
  { apply sec_of_add. unfold Second in *. Z.to_euclidean_division_equations. lia. }
  assert (F / Second + 12 <= Q / Second) as Hq.
  { unfold Second in *. Z.to_euclidean_division_equations. lia. }
  unfold maxBorrowAheadSec. lia.
Qed.

Lemma quiet_by_clock s v bv hv b :
  slot_inv s -> (v, bv) ∈ sy_line s -> sy_handles s !! v = Some hv ->
  (fc_acked (hd_fence hv) = true -> last_second hv <= b) -> quiet (sy_out s) v hv b.
Proof.
  intros Hinv Hv Hhv Hb. split; [by right|]. intros id t st Hin Hid Hst.
  destruct (hv_out _ _ _ _ _ _ (si_handle _ Hinv _ _ _ Hv Hhv) id Hin) as (t0 & st0 & [Hid0 Hst0 _ [Ha Ht] _]).
  rewrite Hid0 in Hid. apply number_of_inj in Hid as [-> _]; [|done|done]. specialize (Hb Ha). lia.
Qed.

Lemma quiet_by_fence s v bv hv b :
  slot_inv s -> (v, bv) ∈ sy_line s -> sy_handles s !! v = Some hv -> hd_closing hv = true -> hd_fenced hv = true ->
  (forall n, hd_node hv = Some n -> lastTime n <= b) -> quiet (sy_out s) v hv b.
Proof.
  intros Hinv Hv Hhv Hc Hf Hb. split; [by left|]. intros id t st Hin Hid Hst.
  destruct (hv_out _ _ _ _ _ _ (si_handle _ Hinv _ _ _ Hv Hhv) id Hin) as (t0 & st0 & [Hid0 Hst0 _ _ (n & Hn & Hle)]).
  rewrite Hid0 in Hid. apply number_of_inj in Hid as [-> _]; [|done|done]. specialize (Hb n Hn). lia.
Qed.

(** The holders before the last one are quiet since its claim. *)
Lemma quiet_before s u bu v bv hv :
  slot_inv s -> head (sy_line s) = Some (u, bu) -> (v, bv) ∈ sy_line s -> v <> u -> sy_handles s !! v = Some hv ->
  quiet (sy_out s) v hv bu.
Proof.
  intros Hinv Hhead Hv Hne Hhv. pose proof (si_order _ Hinv) as Ho. destruct (sy_line s) as [|x l]; [done|].
  injection Hhead as ->. apply StronglySorted_inv in Ho as [_ Ho]. rewrite Forall_forall in Ho.
  apply elem_of_cons in Hv as [[= -> ->]|Hv]; [done|]. by apply (Ho (v, bv) Hv).
Qed.

Section steps.
Context (F_pos : 0 < F) (F_half : F <= Z.quot Q 2) (Q_long : 24 * Second <= Q) (not_late : late = false)
  (in_time : delay <= watermarkTxnTimeout).
#[local] Set Default Proof Using "Type*".

Lemma claim_inv s u floor_read e h :
  slot_inv s -> sy_handles s !! u = None -> claim_fresh F (sy_now s) Q u floor_read (sy_etcd s) = Some (e, h) ->
  in_range (with_claim s e u h (sec_of (sy_now s))) -> slot_inv (with_claim s e u h (sec_of (sy_now s))).
Proof.
  intros Hinv Hu. unfold claim_fresh. destruct (negb _); [done|]. destruct (rested _ _ _) eqn:Hrest; cbn [negb]; [|done].
  destruct (newHandle _ _) as [h0|] eqn:Hh; [|done]. intros [= <- <-] Hr. destruct (si_etcd _ Hinv) as (? & ? & ?).
  apply slot_inv_claim; cbn; try done; [lia| |].
  - intros out Hout. eapply (newHandle_inv _ _ (sy_etcd s)); [..|exact Hout|exact Hh]; cbn; try done; [lia|destruct floor_read; auto|apply sec_of_nonneg|by left].
  - intros v bv hv Hv Hhv. eapply quiet_by_clock; try done. intros Ha.
    destruct (hv_ack _ _ _ _ _ _ (si_handle _ Hinv _ _ _ Hv Hhv) Ha) as (_ & Hm & Hpos).
    by eapply claim_rested; [..|exact Hrest].
Qed.

Lemma reuse_inv s u e h :
  slot_inv s -> sy_handles s !! u = None -> tryReuse F u (sy_etcd s) = Some (e, h) ->
  in_range (with_claim s e u h (mark_value (sy_etcd s))) -> slot_inv (with_claim s e u h (mark_value (sy_etcd s))).
Proof.
  intros Hinv Hu. unfold tryReuse. case_bool_decide as Hrel; [|done]. destruct Hrel as [Hho Hrel].
  destruct (et_holder (sy_etcd s)) as [p|] eqn:Hp; [|done].
  destruct (newHandle _ _) as [h0|] eqn:Hh; [|done]. intros [= <- <-] Hr. destruct (si_etcd _ Hinv) as (? & ? & ?).
  assert (readWatermarkFloor (sy_etcd s) = (mark_value (sy_etcd s), mark_rev (sy_etcd s))) as Hfl.
  { unfold readWatermarkFloor, mark_value, mark_rev. by destruct (et_mark _) as [[]|]. }
  apply slot_inv_claim; cbn; try done; [lia| |].
  - intros out Hout. eapply (newHandle_inv _ _ (sy_etcd s)); [..|exact Hout|exact Hh]; cbn; try done; [lia|by left|rewrite Hfl; by right].
  - intros v bv hv Hv Hhv. pose proof (si_holder _ Hinv p Hp) as Hlast. unfold last_claim in Hlast.
    destruct (head (sy_line s)) as [[p' bp]|] eqn:Hhead; [|done]. injection Hlast as ->.
    assert ((p, bp) ∈ sy_line s) as Hpin by (destruct (sy_line s); [done|injection Hhead as ->; by left]).
    destruct (proj2 (si_known _ Hinv p)) as [hp Hhp]; [apply list_elem_of_fmap; by exists (p, bp)|].
    destruct (si_released _ Hinv p bp hp Hrel Hp Hpin Hhp) as (Hc & Hf & Hb & Hn).
    destruct (decide (v = p)) as [->|Hne].
    + rewrite Hhp in Hhv. injection Hhv as <-. by eapply quiet_by_fence.
    + eapply quiet_later; [exact Hb|]. by eapply quiet_before.
Qed.

Lemma node_step_inv s u h h' :
  slot_inv s -> sy_handles s !! u = Some h -> hd_closing h = false -> hd_node h = None ->
  HandleNewNode worker (sy_now s) h = Some h' -> slot_inv (with_handle s (sy_now s) (sy_etcd s) u h' (sy_out s)).
Proof.
  intros Hinv Hu Hc Hn Hnew. destruct (known_line _ _ _ Hinv Hu) as [b Hb]. destruct (si_range _ Hinv) as (? & Hs & ?).
  destruct (si_etcd _ Hinv) as (? & ? & ?). pose proof (si_handle _ Hinv _ _ _ Hb Hu) as Hh.
  destruct (HandleNewNode_inv _ _ _ _ _ _ _ Hn Hh ltac:(unfold maxBorrowAheadSec in *; lia) ltac:(lia) Hnew) as (Hh' & Hf & Hc').
  eapply slot_inv_update; try done; [by apply env_le_same|by left|by left|by apply Hinv| |by auto|].
  - intros b' Hq _. eapply quiet_same, Hq; [congruence|by auto|done|done].
  - intros Hre Hho. destruct (si_released _ Hinv u b h Hre Hho Hb Hu). congruence.
Qed.

Lemma guard_step_inv s u h fate mono now e h' ok :
  slot_inv s -> sy_handles s !! u = Some h -> sy_now s <= now <= sy_now s + delay ->
  advanceGuard fate (sy_now s) mono now u h (sy_etcd s) = (e, h', ok) ->
  in_range (with_handle s now e u h' (sy_out s)) -> slot_inv (with_handle s now e u h' (sy_out s)).
Proof.
  intros Hinv Hu Hnow Hadv Hr. destruct (known_line _ _ _ Hinv Hu) as [b Hb]. destruct (si_range _ Hinv) as (? & Hs & ?).
  destruct (si_etcd _ Hinv) as (? & ? & ?). pose proof (si_handle _ Hinv _ _ _ Hb Hu) as Hh. destruct Hr as (Hr1 & Hr2 & Hr3).
  assert (sy_now s <= now <= sy_now s + watermarkTxnTimeout) as Hnow' by lia.
  destruct (advanceGuard_inv _ _ _ _ _ _ _ _ _ _ _ _ Hh ltac:(lia) ltac:(lia) Hnow' Hr2 Hadv) as [Henv [Hho Hrel] Hh' [Hc Hf] Hn Hok].
  eapply slot_inv_update; try done; [lia|by left|by left|by apply Hinv| |by rewrite Hrel; auto|].
  - intros b' Hq Hlast. destruct ok; [destruct Hok as [Hown _]; by destruct Hlast; apply si_holder|].
    destruct Hok as [Hfe Hno]. eapply quiet_same, Hq; [split; congruence|by rewrite Hf; auto|done|done].
  - rewrite Hrel, Hho. intros Hre Hho'. destruct (si_released _ Hinv u b h Hre Hho' Hb Hu) as (? & ? & ? & Hold).
    rewrite Hc, Hf. split; [done|]. split; [done|]. split; [destruct Henv; lia|]. intros n' Hn'.
    destruct (Hn n' Hn') as (n & Hnn & Hle). specialize (Hold n Hnn). destruct Henv. lia.
Qed.

Lemma close_step_inv s u h fate mono now e h' :
  slot_inv s -> sy_handles s !! u = Some h -> sy_now s <= now <= sy_now s + delay ->
  Close fate (sy_now s) mono now u h (sy_etcd s) = (e, h') ->
  in_range (with_handle s now e u h' (sy_out s)) -> slot_inv (with_handle s now e u h' (sy_out s)).
Proof.
  intros Hinv Hu Hnow. unfold Close. destruct (known_line _ _ _ Hinv Hu) as [b Hb]. destruct (si_range _ Hinv) as (? & Hs & ?).
  destruct (si_etcd _ Hinv) as (? & ? & ?). pose proof (si_handle _ Hinv _ _ _ Hb Hu) as Hh.
  destruct (hd_closing h) eqn:Hcl.
  { intros [= <- <-] Hr. destruct Hr as (Hr1 & Hr2 & Hr3). eapply slot_inv_update; try done; [lia|by apply env_le_same|by left| |by left|by apply Hinv|by auto|].
    - eapply (handle_inv_env (sy_now s)); [lia|by apply env_le_same|done|done|by intros|done].
    - intros Hre Hho. by apply (si_released _ Hinv u b h). }
  destruct (advanceGuard _ _ _ _ _ _ _) as [[e1 h1] ok] eqn:Hadv. intros [= <- <-] (Hr1 & Hr2 & Hr3). cbn in Hr1, Hr2.
  assert (mark_value e1 = mark_value (if ok && bool_decide (et_holder e1 = Some u)
    then mkEtcd (et_holder e1) (et_mark e1) (Some u) (et_rev e1 + 1) else e1)) as Hmv by by destruct (_ && _).
  apply (advanceGuard_inv _ _ _ _ _ b _ _ _ _ _ (sy_out s)) in Hadv as [Henv [Hho Hrel] Hh' [Hc Hf] Hn Hok];
    [|by eapply handle_inv_flags, Hh|lia|lia|lia|done].
  assert (env_le e1 (if ok && bool_decide (et_holder e1 = Some u)
    then mkEtcd (et_holder e1) (et_mark e1) (Some u) (et_rev e1 + 1) else e1)) as Henv'.
  { apply env_le_same; [by destruct Henv|by destruct (_ && _)|destruct (_ && _); cbn; lia]. }
  cbn in Hc, Hf, Hn. eapply slot_inv_update; try done; [lia| | | |by left|by apply Hinv| | |].
  - destruct Henv, Henv'. split; try lia.
  - left. destruct (_ && _); cbn; by rewrite Hho.
  - eapply (handle_inv_env now); [done|done|done|by rewrite Hmv|by intros|done].
  - intros b' Hq Hlast. destruct ok; [destruct Hok as [Hown _]; by destruct Hlast; apply si_holder|].
    destruct Hok as [Hfe Hno]. eapply quiet_same, Hq; [congruence|by auto|done|done].
  - destruct (_ && _); cbn; [by right; right|rewrite Hrel; by auto].
  - destruct ok; cbn [andb].
    + destruct Hok as (Hown & Hb' & Hl). intros _ _. split; [done|]. split; [done|]. cbn [andb] in Hmv. rewrite <- Hmv.
      split; [done|]. intros n Hnn. by apply Hl.
    + rewrite Hrel, Hho. intros Hre Hho'. destruct (si_released _ Hinv u b h Hre Hho' Hb Hu). congruence.
Qed.

Lemma fence_step_inv s u h :
  slot_inv s -> sy_handles s !! u = Some h -> slot_inv (with_handle s (sy_now s) (sy_etcd s) u (fenceAll h) (sy_out s)).
Proof.
  intros Hinv Hu. destruct (known_line _ _ _ Hinv Hu) as [b Hb]. destruct (si_range _ Hinv) as (? & ? & ?).
  destruct (si_etcd _ Hinv) as (? & ? & ?). eapply slot_inv_update; try done; [by apply env_le_same|by left| |by left|by apply Hinv| |by auto|].
  - by eapply handle_inv_flags, (si_handle _ Hinv _ _ _ Hb Hu).
  - intros b' Hq _. eapply quiet_same, Hq; [done|by left|done|done].
  - intros Hre Hho. destruct (si_released _ Hinv u b h Hre Hho Hb Hu) as (? & ? & ?). by split.
Qed.

(** The last holder makes its key again, or puts it on another lease. *)
Lemma take_back_inv s u h (refloor : bool) :
  slot_inv s -> sy_handles s !! u = Some h -> last_claim s = Some u ->
  slot_inv (with_handle s (sy_now s) (mkEtcd (Some u) (et_mark (sy_etcd s)) None (et_rev (sy_etcd s) + 1)) u
    (if refloor then refloorFromWatermark (sy_etcd s) (hd_set_reclaim false h) else hd_set_reclaim false h) (sy_out s)).
Proof.
  intros Hinv Hu Hlast. destruct (known_line _ _ _ Hinv Hu) as [b Hb]. destruct (si_range _ Hinv) as (? & ? & ?).
  destruct (si_etcd _ Hinv) as (? & ? & ?). set (e := mkEtcd _ _ _ _).
  assert (env_le (sy_etcd s) e) as Henv by (apply env_le_same; [done|done|cbn; lia]).
  assert (handle_inv (sy_now s) e (sy_out s) u b (hd_set_reclaim false h)) as Hh.
  { eapply handle_inv_flags, (handle_inv_env (sy_now s) (sy_now s)), (si_handle _ Hinv _ _ _ Hb Hu); try done. }
  eapply slot_inv_update; try done; [by right| |by left|by apply Hinv|by left].
  destruct refloor; [|done].
  apply refloor_inv; [done|unfold mark_value in *; cbn; lia|unfold mark_rev in *; cbn; lia|lia|done].
Qed.

Lemma reclaim_step_inv s u h alive stale floor_read e h' :
  slot_inv s -> sy_handles s !! u = Some h -> hd_closing h = false ->
  (et_holder (sy_etcd s) = None -> last_claim s = Some u) ->
  reclaim u alive stale floor_read h (sy_etcd s) = (e, h') ->
  slot_inv (with_handle s (sy_now s) e u h' (sy_out s)).
Proof.
  intros Hinv Hu Hcl Hlast. destruct (known_line _ _ _ Hinv Hu) as [b Hb]. destruct (si_range _ Hinv) as (? & Hs & ?).
  destruct (si_etcd _ Hinv) as (? & ? & ?). pose proof (si_handle _ Hinv _ _ _ Hb Hu) as Hh. unfold reclaim.
  destruct (et_holder (sy_etcd s)) as [v|] eqn:Hho.
  { destruct (Z.eqb_spec v u) as [->|Hne]; cbn [negb].
    2: { intros [= <- <-]. by apply fence_step_inv. }
    destruct alive.
    { intros [= <- <-]. eapply slot_inv_update; try done; [by apply env_le_same|by left| |by left|by apply Hinv|by auto|].
      - by eapply handle_inv_flags, Hh.
      - intros Hre _. destruct (si_released _ Hinv u b h Hre Hho Hb Hu). congruence. }
    apply si_holder in Hho; [|done]. intros [= <- <-]. by apply take_back_inv. }
  specialize (Hlast eq_refl). intros [= <- <-]. by apply take_back_inv.
Qed.

Lemma generate_step_inv s u h n r now n' ans :
  slot_inv s -> sy_handles s !! u = Some h -> hd_node h = Some n -> sy_now s <= now -> reads_until now h r ->
  Generate r n = Some (n', ans) ->
  let out := match ans with Ok id => (u, id) :: sy_out s | Err _ => sy_out s end in
  in_range (with_handle s now (sy_etcd s) u (hd_set_node (Some n') h) out) ->
  slot_inv (with_handle s now (sy_etcd s) u (hd_set_node (Some n') h) out).
Proof.
  intros Hinv Hu Hn Hnow Hreads Hgen out (Hr1 & Hr2 & Hr3). cbn in Hr1, Hr2.
  destruct (known_line _ _ _ Hinv Hu) as [b Hb]. destruct (si_range _ Hinv) as (? & Hs & ?).
  destruct (si_etcd _ Hinv) as (? & ? & ?). pose proof (si_handle _ Hinv _ _ _ Hb Hu) as Hh.
  destruct (generate_inv _ _ _ _ _ _ _ _ _ _ _ Hh Hnow Hr2 ltac:(lia) ltac:(lia) Hn Hreads Hgen) as (Hh' & Hfen & Hnum).
  fold out in Hh'. eapply slot_inv_update; try done; [by apply env_le_same|by left| | | |by auto|].
  - unfold out. destruct ans; [|by left]. intros v id [[= -> _]|]%elem_of_cons; auto.
  - unfold out. destruct ans as [id|]; [|by apply Hinv]. cbn. apply NoDup_cons. split; [|by apply Hinv].
    intros ([v id'] & -> & Hin)%list_elem_of_fmap. cbn in *. destruct (Hnum id' eq_refl) as [(t & st & Ht) Hfresh].
    destruct (decide (v = u)) as [->|Hne]; [done|].
    destruct (proj2 (si_known _ Hinv v) (si_owner _ Hinv v id' Hin)) as [hv Hv]. destruct (known_line _ _ _ Hinv Hv) as [bv Hbv].
    destruct (hv_out _ _ _ _ _ _ (si_handle _ Hinv _ _ _ Hbv Hv) id' Hin) as (t2 & st2 & [Hid2 Hst2 Hafter2 _ _]).
    destruct Ht as [Hid Hst Hafter Hack Hnode].
    destruct (StronglySorted_pair _ _ (u, b) (v, bv) (si_order _ Hinv)) as [Hq|Hq]; [done|done|congruence|cbn in Hq..].
    + destruct (Hq hv Hv) as [_ Ho]. specialize (Ho id' t2 st2 Hin Hid2 Hst2).
      rewrite Hid in Hid2. apply number_of_inj in Hid2 as [-> _]; [lia|done|done].
    + assert (quiet out u (hd_set_node (Some n') h) bv) as [_ Ho].
      { apply (quiet_generate (sy_out s) u h n n' (Ok id') bv b); [done|by apply Hq|done|]. intros ? [= <-]. by exists t, st. }
      specialize (Ho id' t st ltac:(by left) Hid Hst).
      rewrite Hid in Hid2. apply number_of_inj in Hid2 as [-> _]; [lia|done|done].
  - intros b' Hq _. eapply quiet_generate; [done|done|done|]. intros id Hid. by apply Hnum.
  - intros Hre Hho. destruct (si_released _ Hinv u b h Hre Hho Hb Hu) as (? & Hf & ? & Hl).
    destruct (Hfen Hf) as [-> _]. cbn. split; [done|]. split; [done|]. split; [done|]. intros ? [= <-]. by apply Hl.
Qed.

Lemma slot_step_inv s s' : slot_inv s -> slot_step s s' -> in_range s' -> slot_inv s'.
Proof.
  intros Hinv Hstep Hr. destruct (si_etcd _ Hinv) as (? & ? & ?). destruct Hstep.
  - apply slot_inv_env; try done. by right.
  - apply slot_inv_env; try done; [cbn; lia|by left].
  - by eapply claim_inv.
  - by eapply reuse_inv.
  - by eapply node_step_inv.
  - by eapply guard_step_inv.
  - eapply reclaim_step_inv; try done. intros Hho. destruct (H4 Hho) as [|]; [congruence|done].
  - by apply fence_step_inv.
  - by eapply close_step_inv.
  - by eapply generate_step_inv.
Qed.

Lemma fresh_slot_inv now : in_range (fresh_slot now) -> slot_inv (fresh_slot now).
Proof.
  intros Hr. split; cbn; try done; [constructor| | |constructor|constructor].
  - intros u. rewrite lookup_empty. split; [by intros []|by intros []%not_elem_of_nil].
  - by intros u id []%not_elem_of_nil.
Qed.
End steps.
End system.

(** C4: two numbers of a slot are never the same, whoever gave them out: processes may
    claim the slot after its quarantine or take it over from one that closed, freeze,
    lose their lease, get it back, write the mark in vain, and go on asking for numbers
    after another one claimed the slot - as long as a write of the mark is acknowledged
    within its time limit, and the key of a slot that another process claimed since is
    not made again by an earlier holder. *)
Theorem slot_numbers_distinct worker F Q delay now s :
  0 <= worker <= NodeMask -> 0 < F -> F <= Z.quot Q 2 -> 24 * Second <= Q -> delay <= watermarkTxnTimeout ->
  in_range (fresh_slot now) -> slot_run worker F Q delay false (fresh_slot now) s ->
  NoDup (sy_out s).*2.
Proof.
  intros Hw HF HFQ HQ Hd Hr Hrun. enough (slot_inv worker F s) as Hinv by apply Hinv.
  eapply (rtc_keeps _ (slot_inv worker F)); [|exact Hrun|by apply (fresh_slot_inv worker F Q)].
  intros a b Ha [Hstep Hb]. by eapply (slot_step_inv worker F Q delay false).
Qed.

(** ** Runs that are computed

    The events of a run; a write of the mark is acknowledged after [d], every other call is
    answered at once. *)
Inductive Event :=
  | EvTick (d : Z) | EvLapse | EvClaim (u : Z) | EvReuse (u : Z) | EvNode (u : Z) | EvGuard (u d : Z)
  | EvReclaim (u : Z) | EvFence (u : Z) | EvClose (u : Z) | EvGenerate (u : Z).

Definition prompt (h : Handle) (now : Z) : Reads :=
  mkReads (hd_fenced h, hd_fenced h, hd_fenced h) (Some (hd_fence h, now, now), Some (hd_fence h, now, now))
    (sec_of now) (fun _ => sec_of now) (fun i => Z.of_nat i * Millisecond).

Definition exec (worker F Q delay : Z) (late : bool) (ev : Event) (s : Sys) : option Sys :=
  let now := sy_now s in let e := sy_etcd s in
  match ev with
  | EvTick d => if 0 <=? d then Some (mkSys (now + d) e (sy_handles s) (sy_line s) (sy_out s)) else None
  | EvLapse => Some (mkSys now (lapse e) (sy_handles s) (sy_line s) (sy_out s))
  | EvClaim u =>
      match sy_handles s !! u with
      | Some _ => None
      | None => '(e', h) ← claim_fresh F now Q u true e; Some (with_claim s e' u h (sec_of now))
      end
  | EvReuse u =>
      match sy_handles s !! u with
      | Some _ => None
      | None => '(e', h) ← tryReuse F u e; Some (with_claim s e' u h (mark_value e))
      end
  | EvNode u =>
      h ← sy_handles s !! u;
      match hd_closing h, hd_node h with
      | false, None => h' ← HandleNewNode worker now h; Some (with_handle s now e u h' (sy_out s))
      | _, _ => None
      end
  | EvGuard u d =>
      h ← sy_handles s !! u;
      if (0 <=? d) && (d <=? delay)
      then let '(e', h', _) := advanceGuard (fun _ => Answered) now (now + d) (now + d) u h e in
           Some (with_handle s (now + d) e' u h' (sy_out s))
      else None
  | EvReclaim u =>
      h ← sy_handles s !! u;
      if hd_closing h then None
      else if bool_decide (et_holder e = None) && negb (late || bool_decide (last_claim s = Some u)) then None
      else let '(e', h') := reclaim u false (Stale now now (hd_fence h)).1 true h e in
           Some (with_handle s now e' u h' (sy_out s))
  | EvFence u => h ← sy_handles s !! u; Some (with_handle s now e u (fenceAll h) (sy_out s))
  | EvClose u =>
      h ← sy_handles s !! u;
      let '(e', h') := Close (fun _ => Answered) now now now u h e in Some (with_handle s now e' u h' (sy_out s))
  | EvGenerate u =>
      h ← sy_handles s !! u; n ← hd_node h;
      '(n', ans) ← Generate (prompt h now) n;
      Some (with_handle s now e u (hd_set_node (Some n') h)
              (match ans with Ok id => (u, id) :: sy_out s | Err _ => sy_out s end))
  end.

Lemma exec_step worker F Q delay late ev s s' :
  0 <= delay -> exec worker F Q delay late ev s = Some s' -> slot_step worker F Q delay late s s'.
Proof.
  intros Hdelay.
  destruct ev; cbn -[Generate prompt].
  - destruct (Z.leb_spec 0 d); [|done]. intros [= <-]. apply st_tick. lia.
  - intros [= <-]. apply st_lapse.
  - destruct (sy_handles s !! u) eqn:Hu; [done|]. destruct (claim_fresh _ _ _ _ _ _) as [[e h]|] eqn:H; [|done].
    intros [= <-]. by eapply st_claim.
  - destruct (sy_handles s !! u) eqn:Hu; [done|]. destruct (tryReuse _ _ _) as [[e h]|] eqn:H; [|done].
    intros [= <-]. by eapply st_reuse.
  - destruct (sy_handles s !! u) as [h|] eqn:Hu; [|done]. cbn. destruct (hd_closing h) eqn:Hc; [done|].
    destruct (hd_node h) eqn:Hn; [done|]. cbn. destruct (HandleNewNode _ _ _) as [h'|] eqn:H; [|done].
    intros [= <-]. by eapply st_node.
  - destruct (sy_handles s !! u) as [h|] eqn:Hu; [|done]. cbn. destruct (_ && _) eqn:Hd; [|done]. zbool.
    destruct (advanceGuard _ _ _ _ _ _ _) as [[e h'] ok] eqn:Hadv. intros [= <-]. eapply st_guard; [done|lia|exact Hadv].
  - destruct (sy_handles s !! u) as [h|] eqn:Hu; [|done]. cbn. destruct (hd_closing h) eqn:Hc; [done|].
    destruct (_ && _) eqn:Hlate; [done|]. destruct (reclaim _ _ _ _ _ _) as [e h'] eqn:H. intros [= <-].
    eapply st_reclaim; [done|done| |exact H]. intros Hho. rewrite bool_decide_true in Hlate by done. cbn in Hlate.
    apply negb_false_iff, orb_true_iff in Hlate as [|Hb]; [by left|right; by apply bool_decide_eq_true in Hb].
  - destruct (sy_handles s !! u) as [h|] eqn:Hu; [|done]. intros [= <-]. by apply st_fence.
  - destruct (sy_handles s !! u) as [h|] eqn:Hu; [|done]. cbn. destruct (Close _ _ _ _ _ _ _) as [e h'] eqn:H.
    intros [= <-]. eapply st_close; [done|lia|exact H].
  - destruct (sy_handles s !! u) as [h|] eqn:Hu; [|done]. cbn -[Generate prompt].
    destruct (hd_node h) as [n|] eqn:Hn; [|done]. cbn -[Generate prompt]. destruct (Generate _ _) as [[n' ans]|] eqn:H; [|done]. intros [= <-]. eapply st_generate; [done|done|lia| |exact H].
    split; cbn; [done|by split|intros _; apply sec_of_nonneg|by eexists].
Qed.

Definition in_rangeb (s : Sys) : bool :=
  (0 <=? sy_now s) && (sec_of (sy_now s) + maxBorrowAheadSec <? 2 ^ 32) && (mark_value (sy_etcd s) <? 2 ^ 62).
Fixpoint execs (worker F Q delay : Z) (late : bool) (evs : list Event) (s : Sys) : option Sys :=
  match evs with
  | [] => Some s
  | ev :: evs => s' ← exec worker F Q delay late ev s; if in_rangeb s' then execs worker F Q delay late evs s' else None
  end.

Lemma execs_run worker F Q delay late evs s s' :
  0 <= delay -> execs worker F Q delay late evs s = Some s' -> slot_run worker F Q delay late s s'.
Proof.
  intros Hdelay. revert s. induction evs as [|ev evs IH]; intros s; cbn; [by intros [= <-]|].
  destruct (exec _ _ _ _ _ _ _) as [s1|] eqn:H; [|done]. cbn. destruct (in_rangeb s1) eqn:Hr; [|done]. intros Hrun%IH.
  eapply rtc_l, Hrun. split; [by eapply exec_step|]. unfold in_rangeb in Hr. zbool. by repeat split.
Qed.

(** A holder, frozen after its first number; after the quarantine, a second one. *)
Definition day0 : Z := (Epoch + 100) * Second.
Definition two_holders : list Event :=
  [EvClaim 1; EvNode 1; EvGuard 1 0; EvTick (5 * Second); EvGenerate 1; EvGenerate 1;
   EvTick (4 * Hour); EvLapse; EvClaim 2; EvNode 2; EvGuard 2 0; EvTick (3 * Second); EvGenerate 2; EvGenerate 1].

(** The two holders, and then the first closes the slot to a third. *)
Definition and_a_third : list Event :=
  two_holders ++ [EvClose 2; EvReuse 3; EvNode 3; EvGuard 3 0; EvTick (6 * Second); EvGenerate 3].

Definition holders_run : option Sys := execs 7 defaultFenceAfter defaultQuarantine watermarkTxnTimeout false and_a_third (fresh_slot day0).

Lemma slot_numbers_distinct_witness :
  exists s, holders_run = Some s /\ length (sy_out s) = 4%nat /\ NoDup (sy_out s).*2.
Proof.
  assert (exists s, holders_run = Some s) as [s Hs].
  { apply is_Some_alt. vm_compute. exact I. }
  exists s. split; [exact Hs|]. split.
  - assert (length <$> (sy_out <$> holders_run) = Some 4%nat) as Hl by (vm_compute; reflexivity).
    rewrite Hs in Hl. cbn in Hl. congruence.
  - apply (slot_numbers_distinct 7 defaultFenceAfter defaultQuarantine watermarkTxnTimeout day0 s);
      [vm_compute; split; discriminate|vm_compute; reflexivity|vm_compute; discriminate|vm_compute; discriminate|vm_compute; discriminate
      |repeat split; vm_compute; congruence|refine (execs_run _ _ _ _ _ _ _ _ _ Hs); vm_compute; discriminate].
Defined.

Definition repeated (s : Sys) : bool := match (sy_out s).*2 with a :: b :: _ => a =? b | _ => false end.

Lemma repeated_run delay late evs :
  0 <= delay -> from_option repeated false (execs 7 defaultFenceAfter defaultQuarantine delay late evs (fresh_slot day0)) = true ->
  exists s, slot_run 7 defaultFenceAfter defaultQuarantine delay late (fresh_slot day0) s /\ ~ NoDup (sy_out s).*2.
Proof.
  intros Hdelay Hb. destruct (execs _ _ _ _ _ _ _) as [s|] eqn:Hs; [|discriminate Hb]. exists s.
  split; [by eapply execs_run|]. clear Hs. cbn in Hb. unfold repeated in Hb.
  destruct (sy_out s).*2 as [|a [|b l]]; [done|done|]. zbool. subst b. intros Hnd.
  apply NoDup_cons in Hnd as [Hin _]. apply Hin. by left.
Qed.

(** What the two conditions exclude. The first holder finds the key gone while the
    second, whose lease lapsed, still has an open fence. *)
Definition late_return : list Event :=
  two_holders ++ [EvLapse; EvReclaim 1; EvGuard 1 0; EvTick (9 * Second); EvGenerate 1; EvGenerate 2].

Lemma late_holder_collides :
  exists s, slot_run 7 defaultFenceAfter defaultQuarantine watermarkTxnTimeout true (fresh_slot day0) s /\ ~ NoDup (sy_out s).*2.
Proof. apply (repeated_run _ _ late_return); [vm_compute; discriminate|vm_compute; reflexivity]. Qed.

(** A process that freezes after its mark was written and before its [Ack]: the fence
    opens although another process has claimed the slot. The write and the claim are
    one step each here, and the freeze lies between the two parts of the write: the
    second holder claims the slot when the mark is as old as the freeze is long. *)
Definition slow_ack : list Event :=
  [EvClaim 1; EvNode 1; EvGuard 1 (4 * Hour + Minute); EvLapse; EvClaim 2; EvNode 2; EvGuard 2 0; EvTick (9 * Second);
   EvGenerate 1; EvGenerate 2].

Lemma slow_ack_collides :
  exists s, slot_run 7 defaultFenceAfter defaultQuarantine (5 * Hour) false (fresh_slot day0) s /\ ~ NoDup (sy_out s).*2.
Proof. apply (repeated_run _ _ slow_ack); [vm_compute; discriminate|vm_compute; reflexivity]. Qed.
