(* ===== verification/TeamView.v ===== *)
(** * Team views

    [go/match/internal/team/view.go]: what a client is shown of a record. A view
    combines a record, a version, the receiver's epoch and the clock of one
    atomic read ([Snapshot], [CommitResult] or [MembersSnapshot]). The second part is
    what the store needs of the match authority's queued launches. *)
From stdpp Require Import base list gmap sorting strings.
From Stdlib Require Import ZArith Lia.
From S2P Require Import Prelude TeamRecord TeamRules TeamSpec TeamThms.
Local Open Scope Z_scope.

(** ** Store results the views are built from *)
Record IndexEntry := mkIndex { ix_TeamId : Z; ix_Epoch : Z }.

#[global] Instance IndexEntry_eq_dec : EqDecision IndexEntry.
Proof. solve_decision. Defined.

Record Snapshot := mkSnapshot {
  sn_PlayerId : Z; sn_PlayerTeamId : Z; sn_PlayerEpoch : Z; sn_TeamId : Z;
  sn_Version : Z; sn_Record : option TeamRecord; sn_RecordTTLSeconds : Z; sn_NowMs : Z }.

Record CommitResult := mkCommit {
  cr_TeamId : Z; cr_Version : Z; cr_Decision : Decision;
  cr_Indexes : gmap Z IndexEntry; cr_NowMs : Z }.

Record MembersSnapshot := mkMembers {
  ms_TeamId : Z; ms_Version : Z; ms_Record : option TeamRecord; ms_NowMs : Z;
  ms_Indexes : gmap Z IndexEntry }.

(** ** Views *)
Record memberDisplay := mkDisplay {
  md_Name : string; md_Level : Z; md_ClassId : Z; md_AppearanceId : string; md_Gender : Z;
  md_Online : bool; md_InBattle : bool }.

Definition zeroDisplay : memberDisplay := mkDisplay ""%string 0 0 ""%string 0 false false.

Definition displayCache := gmap Z memberDisplay.

Record TeamMemberView := mkMemberView {
  mv_player_id : Z; mv_name : string; mv_level : Z; mv_class_id : Z;
  mv_appearance_id : string; mv_gender : Z; mv_is_leader : bool;
  mv_is_online : bool; mv_in_battle : bool; mv_zone_id : Z; mv_join_seq : Z }.

Record TeamApplicationView := mkAppView {
  av_player : TeamMemberView; av_applied_at_ms : Z; av_expire_at_ms : Z }.

Record TeamOutgoingInviteView := mkOutView { ov_invitee : TeamMemberView; ov_expire_at_ms : Z }.

Record TeamIncomingInviteView := mkInView {
  iv_team_id : Z; iv_inviter : TeamMemberView; iv_leader_id : Z;
  iv_member_count : Z; iv_zone_id : Z; iv_expire_at_ms : Z }.

Inductive TeamMatchState := MATCH_STATE_IDLE | MATCH_STATE_STARTING | MATCH_STATE_QUEUED.

Record TeamView := mkView {
  tv_team_id : Z; tv_leader_id : Z; tv_capacity : Z; tv_zone_id : Z;
  tv_version : Z; tv_membership_epoch : Z; tv_match_state : TeamMatchState;
  tv_application_count : Z; tv_server_time_ms : Z;
  tv_members : list TeamMemberView;
  tv_applications : list TeamApplicationView;
  tv_pending_invites : list TeamOutgoingInviteView }.

Definition emptyTeamView (epoch nowMs : Z) : TeamView :=
  mkView 0 0 Capacity 0 0 epoch MATCH_STATE_IDLE 0 nowMs [] [] [].

Definition memberView (playerId zone joinSeq leader : Z) (dc : displayCache) : TeamMemberView :=
  let d := default zeroDisplay (dc !! playerId) in
  mkMemberView playerId (md_Name d) (md_Level d) (md_ClassId d) (md_AppearanceId d) (md_Gender d)
    (playerId =? leader) (md_Online d) (md_InBattle d) zone joinSeq.

(** The orders of the two lists: time, then id. *)
Definition app_less (a b : TeamApplicationRecord) : bool :=
  if negb (ta_applied_at_ms a =? ta_applied_at_ms b) then ta_applied_at_ms a <? ta_applied_at_ms b
  else ta_player_id a <? ta_player_id b.

Definition invite_less (a b : TeamInviteRecord) : bool :=
  if negb (ti_invited_at_ms a =? ti_invited_at_ms b) then ti_invited_at_ms a <? ti_invited_at_ms b
  else ti_invitee_id a <? ti_invitee_id b.

Definition member_view_of (live : TeamRecord) (leader : Z) (dc : displayCache) (pid : Z) : TeamMemberView :=
  match FindMember live pid with
  | Some m => memberView pid (tm_zone_id m) (tm_join_seq m) leader dc
  | None => memberView pid 0 0 leader dc
  end.

Definition teamViewFor (viewer : Z) (rec : option TeamRecord) (version epoch nowMs : Z)
    (dc : displayCache) : TeamView :=
  match rec with
  | None => emptyTeamView epoch nowMs
  | Some r =>
    if tr_team_id r =? 0 then emptyTeamView epoch nowMs
    else
      let live := (pruneExpired r nowMs).1.1 in
      let leader := tr_leader_id live in
      let state := if MatchLockActive live nowMs then MATCH_STATE_STARTING else MATCH_STATE_IDLE in
      let members := member_view_of live leader dc <$> MemberIds live in
      let view apps invs :=
        mkView (tr_team_id live) leader Capacity (tr_zone_id live) version epoch state
          (u32 (Z.of_nat (length (tr_applications live)))) nowMs members apps invs in
      if (viewer =? 0) || negb (viewer =? leader) then view [] []
      else
        view
          ((fun a => mkAppView (memberView (ta_player_id a) (ta_zone_id a) 0 leader dc)
                       (ta_applied_at_ms a) (ta_expire_at_ms a))
             <$> sort_stable app_less (tr_applications live))
          ((fun i => mkOutView (memberView (ti_invitee_id i) (ti_zone_id i) 0 leader dc) (ti_expire_at_ms i))
             <$> sort_stable invite_less (tr_invites live))
  end.

Definition incomingInviteView (rec : option TeamRecord) (invitee nowMs : Z) (dc : displayCache)
    : option TeamIncomingInviteView :=
  match rec with
  | None => None
  | Some r =>
      let live := (pruneExpired r nowMs).1.1 in
      match findInvite live invitee with
      | None => None
      | Some inv =>
          let leader := tr_leader_id live in
          Some (mkInView (tr_team_id live)
            (member_view_of live leader dc (ti_inviter_id inv)) leader
            (u32 (Z.of_nat (length (tr_members live)))) (tr_zone_id live) (ti_expire_at_ms inv))
      end
  end.

(** [uniqueIds]: first occurrences, without zero. *)
Fixpoint unique_from (seen : gset Z) (ids : list Z) : list Z :=
  match ids with
  | [] => []
  | id :: ids' =>
      if (id =? 0) || bool_decide (id ∈ seen) then unique_from seen ids'
      else id :: unique_from ({[id]} ∪ seen) ids'
  end.
Definition uniqueIds (ids : list Z) : list Z := unique_from ∅ ids.

Definition rosterIds (rec : option TeamRecord) : list Z :=
  match rec with
  | None => []
  | Some r =>
      uniqueIds (MemberIds r ++ (ta_player_id <$> tr_applications r)
        ++ concat ((fun i => [ti_invitee_id i; ti_inviter_id i]) <$> tr_invites r))
  end.

(** ** Same-source views *)
Definition snapshotViewable (snap : Snapshot) : bool :=
  (sn_PlayerTeamId snap =? 0) ||
  ((sn_PlayerTeamId snap =? sn_TeamId snap) && bool_decide (sn_Record snap <> None)).

(** [None] is [(nil, false)]. *)
Definition viewFromSnapshot (snap : Snapshot) (dc : displayCache) : option TeamView :=
  if negb (snapshotViewable snap) then None
  else if sn_PlayerTeamId snap =? 0 then Some (emptyTeamView (sn_PlayerEpoch snap) (sn_NowMs snap))
  else Some (teamViewFor (sn_PlayerId snap) (sn_Record snap) (sn_Version snap) (sn_PlayerEpoch snap)
               (sn_NowMs snap) dc).

Definition commitViewable (c : CommitResult) (pid : Z) : bool :=
  match cr_Indexes c !! pid with
  | None => false
  | Some idx => (ix_TeamId idx =? 0) ||
      ((ix_TeamId idx =? cr_TeamId c) && bool_decide (d_Record (cr_Decision c) <> None))
  end.

Definition viewFromCommit (c : CommitResult) (pid : Z) (dc : displayCache) : option TeamView :=
  if negb (commitViewable c pid) then None
  else
    let idx := default (mkIndex 0 0) (cr_Indexes c !! pid) in
    if ix_TeamId idx =? 0 then Some (emptyTeamView (ix_Epoch idx) (cr_NowMs c))
    else Some (teamViewFor pid (d_Record (cr_Decision c)) (cr_Version c) (ix_Epoch idx) (cr_NowMs c) dc).

Definition viewFromMembers (m : MembersSnapshot) (pid : Z) (dc : displayCache) : option TeamView :=
  match ms_Record m, ms_Indexes m !! pid with
  | Some _, Some idx =>
      if negb (ix_TeamId idx =? ms_TeamId m) then None
      else Some (teamViewFor pid (ms_Record m) (ms_Version m) (ix_Epoch idx) (ms_NowMs m) dc)
  | _, _ => None
  end.

(** ** Properties *)

(** A view shows the members of the record in join order with exactly one
    leader flag, and the applications and outgoing invites only to that leader,
    only the live ones, in order of arrival. *)
Theorem team_view_content viewer r version epoch now dc :
  wf_record r -> tr_team_id r <> 0 ->
  let v := teamViewFor viewer (Some r) version epoch now dc in
  (mv_player_id <$> tv_members v) = MemberIds r /\
  (forall m, m ∈ tv_members v -> mv_is_leader m = true <-> mv_player_id m = tr_leader_id r) /\
  (viewer <> tr_leader_id r -> tv_applications v = [] /\ tv_pending_invites v = []) /\
  (forall a, a ∈ tv_applications v -> now < av_expire_at_ms a /\
     exists x, x ∈ tr_applications r /\ ta_player_id x = mv_player_id (av_player a)) /\
  (forall i, i ∈ tv_pending_invites v -> now < ov_expire_at_ms i /\
     exists x, x ∈ tr_invites r /\ ti_invitee_id x = mv_player_id (ov_invitee i)) /\
  (viewer = tr_leader_id r -> length (tv_applications v) = length (keep_if (app_live now) (tr_applications r))).
Proof.
  intros Hwf Htid. unfold teamViewFor. rewrite (proj2 (Z.eqb_neq _ _) Htid).
  set (live := (pruneExpired r now).1.1).
  assert (HM : MemberIds live = MemberIds r) by done.
  assert (Hpl : forall l : list Z, mv_player_id <$> (member_view_of live (tr_leader_id live) dc <$> l) = l).
  { intros l. rewrite <- list_fmap_compose. rewrite <- (list_fmap_id l) at 2.
    apply list_fmap_ext. intros _ p _. simpl. unfold member_view_of. by destruct (FindMember live p). }
  assert (Hld : forall m (l : list Z), m ∈ (member_view_of live (tr_leader_id live) dc <$> l) ->
            mv_is_leader m = true <-> mv_player_id m = tr_leader_id r).
  { intros m l (p & -> & _)%list_elem_of_fmap. unfold member_view_of.
    destruct (FindMember live p); simpl; apply Z.eqb_eq. }
  destruct ((viewer =? 0) || _) eqn:Hv; cbn zeta; cbn [tv_members tv_applications tv_pending_invites].
  - split_and!; [by rewrite Hpl, HM|by intros m; apply Hld|done|set_solver|set_solver|].
    intros ->. exfalso. zbool. destruct Hv as [Hv|Hv]; zbool; [|done].
    apply (wf_pos _ Hwf). rewrite <- Hv. apply (wf_leader _ Hwf).
  - zbool. split_and!.
    + by rewrite Hpl, HM.
    + by intros m; apply Hld.
    + done.
    + intros a (x & -> & Hx)%list_elem_of_fmap. simpl.
      apply elem_of_sort_stable, elem_of_keep_if in Hx as [Hx Hl]. unfold app_live in Hl. zbool. eauto.
    + intros a (x & -> & Hx)%list_elem_of_fmap. simpl.
      apply elem_of_sort_stable, elem_of_keep_if in Hx as [Hx Hl]. unfold invite_live in Hl. zbool. eauto.
    + intros _. by rewrite length_fmap, length_sort_stable.
Qed.

Lemma team_view_content_witness :
  (mv_player_id <$> tv_members (teamViewFor 1 (Some demo) 5 6 2000 ∅)) = [1; 2] /\
  tv_applications (teamViewFor 2 (Some demo) 5 6 2000 ∅) = [].
Proof.
  destruct (team_view_content 1 demo 5 6 2000 ∅ demo_wf) as (H1 & _); [done|].
  destruct (team_view_content 2 demo 5 6 2000 ∅ demo_wf) as (_ & _ & H2 & _); [done|].
  split; [exact H1|]. apply H2. done.
Defined.

(** * Queued team launches

    What the team store needs of the match authority: cancelling the queued
    launches of a team ([CancelTeamQueuedTx] and [closeQueuedTeamLaunchTx] of
    [go/match/internal/authority/team_queue.go]). The class states the promise
    the store relies on; the instance is the SQL implementation. *)

(** A store of launches [Q] with the one operation the team store calls; after
    it succeeded no launch of the team is live. *)
Class LaunchQueue (Q : Type) := {
  CancelTeamQueuedTx : Z -> Q -> res Q;
  live_launch : Z -> Q -> Prop;
  cancel_clears t q q' : CancelTeamQueuedTx t q = Ok q' -> ~ live_launch t q' }.

(** ** The SQL tables *)
Definition LaunchKey : Type := Z * Z * Z.  (** actor_id, request_high, request_low *)

(** [tl_Members] is what [DecodeTeamLaunch] gives for the payload: the players
    and their tickets, [None] when the payload is damaged. *)
Record TeamLaunch := mkLaunch {
  tl_TeamId : Z; tl_State : Z; tl_Members : option (list (Z * string)) }.

Record Ticket := mkTicket { tk_ticket : string; tk_team_id : Z; tk_formation_id : Z; tk_state : Z }.

Record LaunchDB := mkLaunchDB {
  ld_launch : gmap LaunchKey TeamLaunch;
  ld_ticket : gmap Z Ticket;
  ld_ticket_region : gset (Z * string * Z);
  ld_launch_region : gset (LaunchKey * Z);
  ld_launch_role : gmap (LaunchKey * Z) Z }.

Definition ErrTeamLaunchActive : error := "ErrTeamLaunchActive"%string.
Definition ErrLaunchDamaged : error := "team: launch payload damaged"%string.

(** [state IN (1,2,3)] *)
Definition launch_open (l : TeamLaunch) : bool :=
  (tl_State l =? 1) || (tl_State l =? 2) || (tl_State l =? 3).

Definition launch_of (team : Z) (l : TeamLaunch) : bool := (tl_TeamId l =? team) && launch_open l.

(** The two statements for one member. *)
Definition close_member (team : Z) (db : LaunchDB) (m : Z * string) : LaunchDB :=
  let '(player, ticket) := m in
  let tickets :=
    match ld_ticket db !! player with
    | Some k =>
        if bool_decide (tk_ticket k = ticket) && (tk_team_id k =? team)
           && (tk_formation_id k =? 0) && (tk_state k =? 1)
        then <[player := mkTicket (tk_ticket k) (tk_team_id k) (tk_formation_id k) 4]> (ld_ticket db)
        else ld_ticket db
    | None => ld_ticket db
    end in
  mkLaunchDB (ld_launch db) tickets
    (filter (fun r => ~ (r.1.1 = player /\ r.1.2 = ticket)) (ld_ticket_region db))
    (ld_launch_region db) (ld_launch_role db).

Definition member_less_id (a b : Z * string) : bool := a.1 <? b.1.

Definition closeQueuedTeamLaunchTx (key : LaunchKey) (l : TeamLaunch) (db : LaunchDB) : res LaunchDB :=
  match tl_Members l with
  | None => Err ErrLaunchDamaged
  | Some members =>
      let db := foldl (close_member (tl_TeamId l)) db (sort_stable member_less_id members) in
      let launches :=
        match ld_launch db !! key with
        | Some l' => if tl_State l' =? 2
                     then <[key := mkLaunch (tl_TeamId l') 5 (tl_Members l')]> (ld_launch db)
                     else ld_launch db
        | None => ld_launch db
        end in
      Ok (mkLaunchDB launches (ld_ticket db) (ld_ticket_region db)
            (filter (fun r => r.1 <> key) (ld_launch_region db))
            (map_imap (fun k s => Some (if bool_decide (k.1 = key) then 5 else s)) (ld_launch_role db)))
  end.

Definition key_less (a b : LaunchKey * TeamLaunch) : bool :=
  let '(a1, a2, a3) := a.1 in
  let '(b1, b2, b3) := b.1 in
  if negb (a1 =? b1) then a1 <? b1
  else if negb (a2 =? b2) then a2 <? b2 else a3 <? b3.

Definition cancel_one (db : LaunchDB) (kl : LaunchKey * TeamLaunch) : res LaunchDB :=
  if negb (tl_State kl.2 =? 2) then Err ErrTeamLaunchActive
  else closeQueuedTeamLaunchTx kl.1 kl.2 db.

(** The launches are read first (one SELECT, ordered by key), then closed one
    by one. *)
Definition cancelTeamQueued (team : Z) (db : LaunchDB) : res LaunchDB :=
  let launches :=
    sort_stable key_less (map_to_list (filter (fun kl => launch_of team kl.2 = true) (ld_launch db))) in
  fold_res cancel_one db launches.

(** ** The promise *)
Lemma close_members_launch team ms db : ld_launch (foldl (close_member team) db ms) = ld_launch db.
Proof. revert db. induction ms as [|[p t] ms IH]; intros db; simpl; [done|]. by rewrite IH. Qed.

(** Closing one launch closes that row and leaves the others. *)
Lemma cancel_one_launch db kl db' :
  cancel_one db kl = Ok db' ->
  forall k l', ld_launch db' !! k = Some l' ->
    exists l, ld_launch db !! k = Some l /\ tl_TeamId l' = tl_TeamId l /\
      (l' = l /\ (k = kl.1 -> tl_State l <> 2) \/ k = kl.1 /\ tl_State l' = 5).
Proof.
  destruct kl as [key l0]. unfold cancel_one, closeQueuedTeamLaunchTx. simpl.
  destruct (negb _); [done|]. destruct (tl_Members l0) as [ms|]; [|done].
  intros [= <-] k l'. simpl. rewrite close_members_launch.
  destruct (ld_launch db !! key) as [x|] eqn:Hx; [|intros Hk; exists l'; split_and!; [done..|left; split; [done|]; intros ->; congruence]].
  destruct (tl_State x =? 2) eqn:Hs; zbool.
  - destruct (decide (k = key)) as [->|Hne].
    + rewrite lookup_insert_eq. intros [= <-]. exists x. simpl. auto.
    + rewrite lookup_insert_ne by done. intros Hk. exists l'. split_and!; [done..|]. left. done.
  - intros Hk. exists l'. split_and!; [done..|]. left. split; [done|]. intros ->. congruence.
Qed.

Lemma cancel_loop ls : forall db db',
  fold_res cancel_one db ls = Ok db' ->
  forall k l', ld_launch db' !! k = Some l' ->
    exists l, ld_launch db !! k = Some l /\ tl_TeamId l' = tl_TeamId l /\
      (l' = l /\ (k ∈ ls.*1 -> tl_State l <> 2) \/ tl_State l' = 5).
Proof.
  induction ls as [|kl ls IH]; intros db db'; simpl.
  { intros [= <-] k l' Hk. exists l'. split_and!; [done..|]. left. split; [done|]. set_solver. }
  intros (db1 & H1 & Hrest)%bind_Ok k l' Hk.
  destruct (IH _ _ Hrest _ _ Hk) as (l1 & Hl1 & Ht1 & Hc1).
  destruct (cancel_one_launch _ _ _ H1 _ _ Hl1) as (l & Hl & Ht & Hc).
  exists l. split_and!; [done|congruence|].
  destruct Hc1 as [[-> Hn1]|?]; [|by right]. destruct Hc as [[-> Hn]|[_ ?]]; [|by right].
  left. split; [done|]. intros [->|Hin]%elem_of_cons; auto.
Qed.

Lemma cancel_loop_queued ls : forall db db',
  fold_res cancel_one db ls = Ok db' -> forall kl, kl ∈ ls -> tl_State kl.2 = 2.
Proof.
  induction ls as [|kl ls IH]; intros db db'; simpl; [set_solver|].
  intros (db1 & H1 & Hrest)%bind_Ok x [->|Hx]%elem_of_cons; [|by eapply IH].
  unfold cancel_one in H1. destruct (negb _) eqn:Hs; [done|]. by zbool.
Qed.

Lemma cancelTeamQueued_clears t q q' :
  cancelTeamQueued t q = Ok q' -> ~ exists k l, ld_launch q' !! k = Some l /\ launch_of t l = true.
Proof.
  unfold cancelTeamQueued. set (ls := sort_stable _ _). intros Hok (k & l' & Hk & Hlive).
  destruct (cancel_loop _ _ _ Hok _ _ Hk) as (l & Hl & Ht & Hc).
  destruct Hc as [[-> Hn]|Hs]; [|unfold launch_of, launch_open in Hlive; rewrite Hs in Hlive; zbool; naive_solver].
  assert (Hin : (k, l) ∈ ls).
  { apply elem_of_sort_stable, elem_of_map_to_list, map_lookup_filter_Some. done. }
  apply Hn; [apply list_elem_of_fmap; by exists (k, l)|].
  apply (cancel_loop_queued _ _ _ Hok _ Hin).
Qed.

#[global] Instance sql_launch_queue : LaunchQueue LaunchDB := {
  CancelTeamQueuedTx := cancelTeamQueued;
  live_launch t q := exists k l, ld_launch q !! k = Some l /\ launch_of t l = true;
  cancel_clears := cancelTeamQueued_clears }.
