(* ===== verification/PartyMatch.v ===== *)
(** * Filling up teams: which waiting units make a group

    The matcher of the queues without ratings
    ([go/match/internal/logic/party_match.go], with [groupPicker] of [matcher.go] and
    the withdrawal of a party of [party.go]), and the packing of the global matcher
    ([global_team_matcher.go]). A single player is a unit of one; a party that waits to
    be filled up is one unit that is never split. Redis and the team service are an
    interface, [MatchWorld]: anything may happen to them between two of its calls. *)

From stdpp Require Import base list gmap sorting strings pretty.
From Stdlib Require Import ZArith Lia SpecFloat Ascii.
From S2P Require Import Prelude.
Local Open Scope Z_scope.
Local Open Scope go_scope.

(** ** Tickets *)
Definition ticketStateQueued : string := "queued".

Record queueTicket := mkTicket {
  Ticket : string; State : string; EnqueuedAtMs : Z; QueueKey : string; Rating : spec_float; TeamId : Z;
  PartyId : string; PartyMembers : list Z; LastFailedBattleId : Z }.

Fixpoint containsPlayer (ids : list Z) (playerId : Z) : bool :=
  match ids with [] => false | id :: ids' => (id =? playerId) || containsPlayer ids' playerId end.

Fixpoint samePlayerList (a b : list Z) : bool :=
  match a, b with
  | [], [] => true
  | x :: a', y :: b' => (x =? y) && samePlayerList a' b'
  | _, _ => false
  end.

(** The roster as a field of the ticket. *)
Fixpoint join_commas (parts : list string) : string :=
  match parts with
  | [] => ""
  | [part] => part
  | part :: parts' => part +:+ String ","%char (join_commas parts')
  end.
Definition formatPartyMembers (ids : list Z) : string := join_commas (FormatUint <$> ids).

(** [strings.Split(s, ",")] *)
Fixpoint split_commas (s : string) : list string :=
  match s with
  | EmptyString => [""%string]
  | String a s' =>
      if Ascii.eqb a ","%char then ""%string :: split_commas s'
      else match split_commas s' with
      | part :: parts => String a part :: parts
      | [] => [String a ""]
      end
  end.

Fixpoint parse_members (seen : list Z) (parts : list string) : option (list Z) :=
  match parts with
  | [] => Some []
  | part :: parts' =>
      match ParseUint part with
      | None => None
      | Some id =>
          if (id =? 0) || containsPlayer seen id then None
          else match parse_members (id :: seen) parts' with Some ids => Some (id :: ids) | None => None end
      end
  end.

(** The empty list stands for [nil]: a roster that cannot be read. *)
Definition parsePartyMembers (raw : string) : list Z :=
  if String.eqb raw "" then [] else default [] (parse_members [] (split_commas raw)).

Inductive battleLockKind := battleLockNone | battleLockResidual | battleLockOther.

Definition classifyBattleLock (lockValue : string) (t : queueTicket) : battleLockKind :=
  if String.eqb lockValue "" then battleLockNone
  else if LastFailedBattleId t =? 0 then battleLockOther
  else match ParseUint lockValue with
  | None => battleLockOther
  | Some id => if id =? LastFailedBattleId t then battleLockResidual else battleLockOther
  end.

(** ** Units *)

(** Pointers to units are positions in the list of units. [got] is a set in the code;
    no number enters it twice. *)
Record queueUnit := mkUnit {
  members : list Z; seed : option queueTicket; entryIdx : list nat; got : list Z;
  malformed : bool; complete : bool; removed : bool; checked : bool; deferred : bool }.

Definition usable (u : queueUnit) : bool := complete u && negb (removed u) && negb (deferred u).

(** The table of [selectUnits], from the last row up: entry [r] of row [i] tells whether
    the units from [i] on can make exactly [r] players. *)
Definition reach_row (u : queueUnit) (below : list bool) : list bool :=
  if usable u then
    let size := length (members u) in
    imap (fun r b => b || (size <=? r)%nat && default false (below !! (r - size)%nat)) below
  else below.

Fixpoint reach (units : list queueUnit) (required : nat) : list (list bool) :=
  match units with
  | [] => [true :: replicate required false]
  | u :: units' =>
      let rows := reach units' required in
      reach_row u (default [] (head rows)) :: rows
  end.

Fixpoint take_units (i : nat) (units : list queueUnit) (rows : list (list bool)) (remaining : nat) : list nat :=
  match units, rows with
  | u :: units', _ :: rows' =>
      if (remaining =? 0)%nat then []
      else
        let size := length (members u) in
        if usable u && (size <=? remaining)%nat &&
           default false (default [] (head rows') !! (remaining - size)%nat)
        then i :: take_units (S i) units' rows' (remaining - size)
        else take_units (S i) units' rows' remaining
  | _, _ => []
  end.

Definition selectUnits (units : list queueUnit) (required : Z) : option (list nat) :=
  if required <=? 0 then None
  else
    let n := Z.to_nat required in
    let rows := reach units n in
    if default false (default [] (head rows) !! n) then Some (take_units 0 units rows n) else None.

(** ** The world *)
Definition PartyEndNone : Z := 0.
Definition PartyEndMemberNotReady : Z := 4.
Definition queueScanLimit : nat := 256.
Definition partyCheckRoundBudget : Z := 3 * Second.

(** [w_claim]: the reason that stands for the end of a party; [w_notify]: the right to
    tell the team, and telling it. *)
Class MatchWorld (W : Type) := {
  w_now : W -> Z;
  w_loadTicket : W -> Z -> W * res (option queueTicket);
  w_battleLock : W -> Z -> W * res string;
  w_deleteTicket : W -> Z -> W;
  w_cancelTicketIfQueued : W -> Z -> string -> W * res bool;
  w_removeQueueMembers : W -> string -> list Z -> W * res (list Z);
  w_removeRaw : W -> string -> string -> W;
  w_zadd : W -> string -> spec_float -> W * res ();
  w_versions : W -> string -> list Z -> W * res (list (Z * string));
  w_removeVersioned : W -> string -> list Z -> list (Z * string) -> W * res (list Z);
  w_push_front : W -> string -> list (Z * spec_float) -> W * res ();
  w_port : W -> bool;
  w_CheckParty : W -> Z -> list Z -> W * res (Z * Z);
  w_claim : W -> string -> Z -> Z -> W;
  w_notify : W -> queueTicket -> Z -> Z -> W }.

(** ** A round *)
Record queueEntry := mkEntry { raw : string; playerId : Z; hasScore : bool }.

Record groupPicker := mkPicker {
  queueKey : string; entries : list queueEntry; tickets : gmap Z queueTicket; dropped : gset nat;
  deferred_ : gmap Z queueTicket }.

Definition put_ticket (pid : Z) (t : queueTicket) (p : groupPicker) : groupPicker :=
  mkPicker (queueKey p) (entries p) (<[pid := t]> (tickets p)) (dropped p) (deferred_ p).
Definition put_dropped (idx : nat) (p : groupPicker) : groupPicker :=
  mkPicker (queueKey p) (entries p) (tickets p) ({[idx]} ∪ dropped p) (deferred_ p).
Definition put_deferred (pid : Z) (t : queueTicket) (p : groupPicker) : groupPicker :=
  mkPicker (queueKey p) (entries p) (tickets p) (dropped p) (<[pid := t]> (deferred_ p)).
Definition put_scored (idx : nat) (p : groupPicker) : groupPicker :=
  mkPicker (queueKey p) (alter (fun e => mkEntry (raw e) (playerId e) true) idx (entries p)) (tickets p) (dropped p)
    (deferred_ p).

Section round.
Context {W : Type} `{MatchWorld W}.

Definition drop (idx : nat) (p : groupPicker) (w : W) : groupPicker * W :=
  match entries p !! idx with
  | None => (p, w)
  | Some e =>
      (put_dropped idx p,
       if playerId e =? 0 then w_removeRaw w (queueKey p) (raw e)
       else (w_removeQueueMembers w (queueKey p) [playerId e]).1)
  end.

(** [groupPicker.validate]. [Ok true]: the entry may be in a group. *)
Definition validate (idx : nat) (p : groupPicker) (w : W) : groupPicker * W * res bool :=
  match entries p !! idx with
  | None => (p, w, Err "index out of range"%string)
  | Some e =>
      let pid := playerId e in
      if bool_decide (idx ∈ dropped p) then (p, w, Ok false)
      else if pid =? 0 then let '(p, w) := drop idx p w in (p, w, Ok false)
      else if bool_decide (is_Some (tickets p !! pid)) then (p, w, Ok true)
      else if bool_decide (is_Some (deferred_ p !! pid)) then (p, w, Ok false)
      else
        let '(w, r) := w_loadTicket w pid in
        match r with
        | Err x => (p, w, Err x)
        | Ok None => let '(p, w) := drop idx p w in (p, w, Ok false)
        | Ok (Some t) =>
            if negb (String.eqb (State t) ticketStateQueued) then let '(p, w) := drop idx p w in (p, w, Ok false)
            else if negb (String.eqb (QueueKey t) "") && negb (String.eqb (QueueKey t) (queueKey p))
            then let '(p, w) := drop idx p w in (p, w, Ok false)
            else
              let '(w, r) := w_battleLock w pid in
              match r with
              | Err x => (p, w, Err x)
              | Ok lockValue =>
                  match classifyBattleLock lockValue t with
                  | battleLockResidual => (put_deferred pid t p, w, Ok false)
                  | battleLockOther =>
                      let '(p, w) := drop idx p (w_deleteTicket w pid) in (p, w, Ok false)
                  | battleLockNone =>
                      if hasScore e then (put_ticket pid t p, w, Ok true)
                      else
                        let '(w, r) := w_zadd w (raw e) (Rating t) in
                        match r with
                        | Err x => (p, w, Err x)
                        | Ok _ => (put_ticket pid t (put_scored idx p), w, Ok true)
                        end
                  end
              end
        end
  end.

(** ** Withdrawing a party *)

(** What [cancelParty] does about one member: whether his entry is removed from the
    list, and whether it is too late because he was matched. *)
Definition cancel_member (s : queueTicket) (pid : Z) (w : W) : W * bool * bool :=
  let '(w, r) := w_loadTicket w pid in
  match r with
  | Err _ => (w, false, false)
  | Ok None => (w, true, false)
  | Ok (Some t) =>
      if String.eqb (PartyId t) (PartyId s) then
        let '(w, r) := w_cancelTicketIfQueued w pid (Ticket t) in
        match r with
        | Err _ => (w, false, false)
        | Ok true => (w, true, false)
        | Ok false =>
            let '(w, r) := w_loadTicket w pid in
            match r with
            | Err _ => (w, false, false)
            | Ok None => (w, true, false)
            | Ok (Some c) =>
                if negb (String.eqb (PartyId c) (PartyId s))
                then (w, negb (String.eqb (State c) ticketStateQueued && String.eqb (QueueKey c) (QueueKey s)), false)
                else if String.eqb (State c) ticketStateQueued then
                  let '(w, r) := w_cancelTicketIfQueued w pid (Ticket c) in
                  match r with Ok true => (w, true, false) | _ => (w, false, true) end
                else (w, false, true)
            end
        end
      else (w, negb (String.eqb (State t) ticketStateQueued && String.eqb (QueueKey t) (QueueKey s)), false)
  end.

Fixpoint cancel_members (s : queueTicket) (ids : list Z) (w : W) : W * list Z * bool :=
  match ids with
  | [] => (w, [], false)
  | pid :: ids' =>
      let '(w, remove, late) := cancel_member s pid w in
      let '(w, rest, late') := cancel_members s ids' w in
      (w, if remove then pid :: rest else rest, late || late')
  end.

Definition notifyPartyEnded (s : queueTicket) (reason culprit : Z) (w : W) : W :=
  if (reason =? PartyEndNone) || (TeamId s =? 0) || bool_decide (PartyMembers s = []) then w
  else if negb (w_port w) then w else w_notify w s reason culprit.

Definition cancelParty (s : queueTicket) (reason culprit : Z) (w : W) : W :=
  if String.eqb (PartyId s) "" || bool_decide (PartyMembers s = []) then w
  else
    let '(w, versions) :=
      if String.eqb (QueueKey s) "" then (w, None)
      else let '(w, r) := w_versions w (QueueKey s) (PartyMembers s) in
           (w, match r with Ok v => Some v | Err _ => None end) in
    let w := if reason =? PartyEndNone then w else w_claim w (PartyId s) reason culprit in
    let '(w, remove, tooLate) := cancel_members s (PartyMembers s) w in
    let w :=
      match remove, versions with
      | _ :: _, Some v => (w_removeVersioned w (QueueKey s) remove v).1
      | _, _ => w
      end in
    if tooLate then w else notifyPartyEnded s reason culprit w.

(** ** Choosing a group *)
Definition checkParty (deadline : Z) (u : queueUnit) (s : queueTicket) (w : W) : W * res (Z * Z) :=
  if negb (w_port w) then (w, Err "party team port is not wired"%string)
  else if deadline - w_now w <=? 0 then (w, Err "party check budget for this round exhausted"%string)
  else w_CheckParty w (TeamId s) (members u).

Definition set_removed (u : queueUnit) : queueUnit :=
  mkUnit (members u) (seed u) (entryIdx u) (got u) (malformed u) (complete u) true (checked u) (deferred u).
Definition set_checked (u : queueUnit) : queueUnit :=
  mkUnit (members u) (seed u) (entryIdx u) (got u) (malformed u) (complete u) (removed u) true (deferred u).
Definition set_deferred (u : queueUnit) : queueUnit :=
  mkUnit (members u) (seed u) (entryIdx u) (got u) (malformed u) (complete u) (removed u) (checked u) true.

Fixpoint evict_entries (s : queueTicket) (idxs : list nat) (p : groupPicker) (w : W) : groupPicker * W :=
  match idxs with
  | [] => (p, w)
  | idx :: idxs' =>
      let pid := from_option playerId 0 (entries p !! idx) in
      let '(p, w) :=
        if containsPlayer (PartyMembers s) pid then (put_dropped idx p, w)
        else
          let w := match tickets p !! pid with
                   | Some t => (w_cancelTicketIfQueued w pid (Ticket t)).1 | None => w end in
          drop idx p w in
      evict_entries s idxs' p w
  end.

(** The unit is marked as removed by the caller of this function. *)
Definition evictUnit (u : queueUnit) (s : queueTicket) (reason culprit : Z) (p : groupPicker) (w : W) : groupPicker * W :=
  evict_entries s (entryIdx u) p (cancelParty s reason culprit w).

(** One unit of a chosen group; [true]: it was put aside. *)
Definition check_unit (deadline : Z) (i : nat) (units : list queueUnit) (p : groupPicker) (w : W)
    : list queueUnit * groupPicker * W * bool :=
  match units !! i with
  | Some u =>
      match seed u with
      | Some s =>
          if checked u then (units, p, w, false)
          else
            let '(w, r) := checkParty deadline u s w in
            match r with
            | Err _ => (alter set_deferred i units, p, w, true)
            | Ok (reason, culprit) =>
                if reason =? PartyEndNone then (alter set_checked i units, p, w, false)
                else let '(p, w) := evictUnit u s reason culprit p w in
                     (alter set_removed i units, p, w, true)
            end
      | None => (units, p, w, false)
      end
  | None => (units, p, w, false)
  end.

(** The parties of a chosen group are checked one by one. *)
Fixpoint check_group (deadline : Z) (group : list nat) (units : list queueUnit) (p : groupPicker) (w : W)
    : list queueUnit * groupPicker * W * bool :=
  match group with
  | [] => (units, p, w, false)
  | i :: group' =>
      let '(units, p, w, evicted) := check_unit deadline i units p w in
      let '(units, p, w, evicted') := check_group deadline group' units p w in
      (units, p, w, evicted || evicted')
  end.

(** [None]: out of fuel, which [S (length units)] never is. *)
Fixpoint select_checked (fuel : nat) (deadline required : Z) (units : list queueUnit) (p : groupPicker) (w : W)
    : option (list queueUnit * groupPicker * W * option (list nat)) :=
  match fuel with
  | O => None
  | S fuel =>
      match selectUnits units required with
      | None => Some (units, p, w, None)
      | Some group =>
          let '(units, p, w, evicted) := check_group deadline group units p w in
          if evicted then select_checked fuel deadline required units p w
          else Some (units, p, w, Some group)
      end
  end.

Definition selectCheckedUnits (deadline required : Z) (units : list queueUnit) (p : groupPicker) (w : W) :=
  select_checked (S (length units)) deadline required units p w.

(** *** Scanning the queue *)
Definition is_party (id : string) (u : queueUnit) : bool :=
  match seed u with Some s => String.eqb (PartyId s) id | None => false end.

Definition new_party (t : queueTicket) : queueUnit := mkUnit [] (Some t) [] [] false false false false false.

(** The unit of a party, made if it is not there, then changed by [f]. *)
Definition with_party (t : queueTicket) (f : queueUnit -> queueUnit) (units : list queueUnit) : list queueUnit :=
  if existsb (is_party (PartyId t)) units then update_first (is_party (PartyId t)) f units
  else units ++ [f (new_party t)].

Definition defer_entry (idx : nat) (u : queueUnit) : queueUnit :=
  mkUnit (members u) (seed u) (entryIdx u ++ [idx]) (got u) (malformed u) (complete u) (removed u) (checked u) true.

(** A member of a party is seen; the unit is complete with the last one. *)
Definition join_entry (idx : nat) (pid : Z) (t : queueTicket) (u : queueUnit) : queueUnit :=
  match seed u with
  | None => u
  | Some s =>
      let got := got u ++ [pid] in
      let bad := malformed u || bool_decide (PartyMembers s = []) || negb (containsPlayer (PartyMembers s) pid)
                 || negb (samePlayerList (PartyMembers t) (PartyMembers s)) in
      if bad || (length got <? length (PartyMembers s))%nat
      then mkUnit (members u) (seed u) (entryIdx u ++ [idx]) got bad (complete u) (removed u) (checked u) (deferred u)
      else mkUnit (PartyMembers s) (seed u) (entryIdx u ++ [idx]) got bad true (removed u) (checked u) (deferred u)
  end.

(** Whether the entry that was seen made its unit complete: then a group is looked for. *)
Definition made_complete (pid : Z) (t : queueTicket) (u : queueUnit) : bool :=
  match seed u with
  | None => false
  | Some s =>
      let bad := malformed u || bool_decide (PartyMembers s = []) || negb (containsPlayer (PartyMembers s) pid)
                 || negb (samePlayerList (PartyMembers t) (PartyMembers s)) in
      negb (bad || (S (length (got u)) <? length (PartyMembers s))%nat)
  end.

Definition party_unit (t : queueTicket) (units : list queueUnit) : queueUnit :=
  default (new_party t) (find_first (is_party (PartyId t)) units).

Definition solo (idx : nat) (pid : Z) : queueUnit := mkUnit [pid] None [idx] [] false true false false false.

(** *** A party that is not whole *)
Fixpoint absent_member (s : queueTicket) (ids seen : list Z) (culprit : Z) (w : W) : W * option Z :=
  match ids with
  | [] => (w, Some culprit)
  | pid :: ids' =>
      if containsPlayer seen pid then absent_member s ids' seen culprit w
      else
        let '(w, r) := w_loadTicket w pid in
        match r with
        | Err _ => (w, None)
        | Ok (Some t) =>
            if String.eqb (PartyId t) (PartyId s) then (w, None)
            else absent_member s ids' seen (if culprit =? 0 then pid else culprit) w
        | Ok None => absent_member s ids' seen (if culprit =? 0 then pid else culprit) w
        end
  end.

Fixpoint evict_incomplete (units : list queueUnit) (p : groupPicker) (w : W) : list queueUnit * groupPicker * W :=
  match units with
  | [] => ([], p, w)
  | u :: units' =>
      let '(u, p, w) :=
        match seed u with
        | Some s =>
            if complete u || removed u || deferred u then (u, p, w)
            else
              let '(w, absent) := absent_member s (PartyMembers s) (got u) 0 w in
              match absent with
              | None => (u, p, w)
              | Some culprit =>
                  let '(p, w) := evictUnit u s PartyEndMemberNotReady culprit p w in (set_removed u, p, w)
              end
        | None => (u, p, w)
        end in
      let '(units', p, w) := evict_incomplete units' p w in (u :: units', p, w)
  end.

Definition evictIncompleteParties (units : list queueUnit) (p : groupPicker) (w : W) : list queueUnit * groupPicker * W :=
  if (queueScanLimit <=? length (entries p))%nat then (units, p, w) else evict_incomplete units p w.

(** The loop of [pickUnits] over the entries. The answer: an error that ends the round,
    or the group that was found. *)
Fixpoint pick_loop (deadline required : Z) (idxs : list nat) (units : list queueUnit) (seen : gset Z)
    (p : groupPicker) (w : W) : list queueUnit * groupPicker * W * res (option (list nat)) :=
  match idxs with
  | [] => (units, p, w, Ok None)
  | idx :: idxs' =>
      if bool_decide (idx ∈ dropped p) then pick_loop deadline required idxs' units seen p w
      else
        let '(p, w, r) := validate idx p w in
        let pid := from_option playerId 0 (entries p !! idx) in
        match r with
        | Err x => (units, p, w, Err x)
        | Ok false =>
            let units :=
              match deferred_ p !! pid with
              | Some t => if String.eqb (PartyId t) "" then units else with_party t (defer_entry idx) units
              | None => units
              end in
            pick_loop deadline required idxs' units seen p w
        | Ok true =>
            if bool_decide (pid ∈ seen) then pick_loop deadline required idxs' units seen p w
            else
              match tickets p !! pid with
              | None => (units, p, w, Err "unreachable: a valid entry has a ticket"%string)
              | Some t =>
                  let seen := {[pid]} ∪ seen in
                  let look := if String.eqb (PartyId t) "" then true else made_complete pid t (party_unit t units) in
                  let units := if String.eqb (PartyId t) "" then units ++ [solo idx pid]
                               else with_party t (join_entry idx pid t) units in
                  if negb look then pick_loop deadline required idxs' units seen p w
                  else
                    match selectCheckedUnits deadline required units p w with
                    | None => (units, p, w, Err "unreachable: the choice ends"%string)
                    | Some (units, p, w, Some group) => (units, p, w, Ok (Some group))
                    | Some (units, p, w, None) => pick_loop deadline required idxs' units seen p w
                    end
              end
        end
  end.

Definition pickUnits (required : Z) (p : groupPicker) (w : W) : list queueUnit * groupPicker * W * res (option (list nat)) :=
  let deadline := w_now w + partyCheckRoundBudget in
  let '(units, p, w, r) := pick_loop deadline required (seq 0 (length (entries p))) [] ∅ p w in
  match r with
  | Ok None => let '(units, p, w) := evictIncompleteParties units p w in (units, p, w, Ok None)
  | _ => (units, p, w, r)
  end.

(** *** Popping a group *)
Definition group_units (units : list queueUnit) (group : list nat) : list queueUnit :=
  omap (fun i => units !! i) group.
Definition group_members (units : list queueUnit) (group : list nat) : list Z :=
  group_units units group ≫= members.

Fixpoint abandon_solo (p : groupPicker) (ids : list Z) (w : W) : W :=
  match ids with
  | [] => w
  | pid :: ids' =>
      abandon_solo p ids'
        (match tickets p !! pid with Some t => (w_cancelTicketIfQueued w pid (Ticket t)).1 | None => w end)
  end.

Definition abandonUnreturned (u : queueUnit) (ids : list Z) (p : groupPicker) (w : W) : W :=
  match seed u with
  | Some s => cancelParty s PartyEndMemberNotReady 0 w
  | None => (w_removeQueueMembers (abandon_solo p ids w) (queueKey p) ids).1
  end.

(** The units go back to the front one by one, the last one first. *)
Fixpoint return_units (us : list queueUnit) (removed : list Z) (p : groupPicker) (w : W) : W :=
  match us with
  | [] => w
  | u :: us' =>
      let ids := keep_if (fun pid => containsPlayer removed pid) (members u) in
      let w :=
        match ids with
        | [] => w
        | _ =>
            let pushes := (fun pid => (pid, from_option Rating (S754_zero false) (tickets p !! pid))) <$> ids in
            let '(w, r) := w_push_front w (queueKey p) pushes in
            match r with Ok _ => w | Err _ => abandonUnreturned u ids p w end
        end in
      return_units us' removed p w
  end.

(** The group that was popped, with the ticket of each member. *)
Definition popUnits (required : Z) (p : groupPicker) (w : W) : W * option (list Z * list (Z * string)) :=
  let '(units, p, w, r) := pickUnits required p w in
  match r with
  | Err _ | Ok None => (w, None)
  | Ok (Some group) =>
      let ids := group_members units group in
      let '(w, r) := w_removeQueueMembers w (queueKey p) ids in
      match r with
      | Err _ => (w, None)
      | Ok removed =>
          if Z.of_nat (length removed) <? required then (return_units (rev (group_units units group)) removed p w, None)
          else (w, Some (ids, (fun pid => (pid, from_option Ticket ""%string (tickets p !! pid))) <$> ids))
      end
  end.
End round.

(** ** The global matcher: packing whole units around an anchor *)
Definition TeamCapacity : Z := 5.
Definition ErrTeamRoute : error := "match: team route"%string.

Record MatchAuthorityTicketRecord := mkTicketRecord { mt_player : Z; mt_zone : Z; mt_enqueued : Z }.

(** [tu_launch]: the launch of a party, with its time and its actor. *)
Record globalTeamUnit := mkTeamUnit { tu_tickets : list MatchAuthorityTicketRecord; tu_launch : option (Z * Z) }.

Fixpoint home_loop (seen : list Z) (home : option Z) (mixed : bool) (group : list MatchAuthorityTicketRecord) : res Z :=
  match group with
  | [] => Ok (if mixed then 0 else default 0 home)
  | t :: group' =>
      if (mt_player t =? 0) || (mt_zone t =? 0) || containsPlayer seen (mt_player t) then Err ErrTeamRoute
      else match home with
      | None => home_loop (mt_player t :: seen) (Some (mt_zone t)) mixed group'
      | Some h => home_loop (mt_player t :: seen) home (mixed || negb (mt_zone t =? h)) group'
      end
  end.

Definition TeamUnitHomeZone (group : list MatchAuthorityTicketRecord) : res Z :=
  match group with [] => Err ErrTeamRoute | _ => home_loop [] None false group end.

(** A single player has his ticket (the code reads it without a check). *)
Definition teamUnitOrder (u : globalTeamUnit) : Z * Z :=
  match tu_launch u with
  | Some l => l
  | None => match tu_tickets u with t :: _ => (mt_enqueued t, mt_player t) | [] => (0, 0) end
  end.
Definition unit_less (a b : globalTeamUnit) : bool :=
  if negb ((teamUnitOrder a).1 =? (teamUnitOrder b).1) then (teamUnitOrder a).1 <? (teamUnitOrder b).1
  else (teamUnitOrder a).2 <? (teamUnitOrder b).2.

Definition players_of (units : list globalTeamUnit) : list Z := units ≫= (fun u => mt_player <$> tu_tickets u).

Definition home_ok (home : Z) (u : globalTeamUnit) : bool :=
  match TeamUnitHomeZone (tu_tickets u) with Ok actual => (home =? 0) || (actual =? home) | Err _ => false end.

(** Entry [count]: units that make exactly [count] players. *)
Notation solutions := (list (option (list globalTeamUnit))).

Definition pack_entry (peer : globalTeamUnit) (count : nat) (s : solutions) : solutions :=
  let size := length (tu_tickets peer) in
  match s !! count, s !! (count - size)%nat with
  | Some None, Some (Some group) =>
      if existsb (fun a => containsPlayer (mt_player <$> tu_tickets peer) a) (players_of group)
      then s else <[count := Some (group ++ [peer])]> s
  | _, _ => s
  end.

(** [for count := target; count >= size; count--] *)
Fixpoint pack_counts (peer : globalTeamUnit) (count : nat) (s : solutions) : solutions :=
  if (count <? length (tu_tickets peer))%nat then s
  else match count with
  | O => s
  | S count' => pack_counts peer count' (pack_entry peer count s)
  end.

Definition pack_peer (target : nat) (home : Z) (s : solutions) (peer : globalTeamUnit) : solutions :=
  if (length (tu_tickets peer) =? 0)%nat || negb (home_ok home peer) then s else pack_counts peer target s.

Definition packTeamUnits (anchor : globalTeamUnit) (peers : list globalTeamUnit) (target home : Z)
    : option (list globalTeamUnit) :=
  let n := Z.of_nat (length (tu_tickets anchor)) in
  if (target <? 1) || (TeamCapacity <? target) || (n <? 1) || (target <? n) then None
  else if negb (home_ok home anchor) then None
  else
    let target := Z.to_nat target in
    let start := <[length (tu_tickets anchor) := Some [anchor]]> (replicate (S target) None) in
    mjoin (foldl (pack_peer target home) start (sort_stable unit_less peers) !! target).
