(* ===== verification/PartySelect.v ===== *)
(** * Filling up teams: the choice is the first one

    [selectUnits] finds, by dynamic programming, what an exhaustive search in the order of
    waiting would find first; [packTeamUnits] finds disjoint whole units of the right
    size around the anchor, and, when the units are disjoint, whenever there are any. *)

From stdpp Require Import base list gmap sorting strings.
From Stdlib Require Import ZArith Lia Ascii.
From S2P Require Import Prelude PartyMatch.

(** ** The exhaustive search *)

(** Every choice of usable units, with their positions and sizes; a choice that takes an
    earlier unit comes before all that do not. *)
Fixpoint choices (i : nat) (units : list queueUnit) : list (list (nat * nat)) :=
  match units with
  | [] => [[]]
  | u :: units' =>
      (if usable u then cons (i, length (members u)) <$> choices (S i) units' else []) ++ choices (S i) units'
  end.

Definition total (c : list (nat * nat)) : nat := sum_list (snd <$> c).
Definition exact (r : nat) (c : list (nat * nat)) : bool := (total c =? r)%nat.

(** The reference: the first choice with exactly the required number of players. *)
Definition first_choice (units : list queueUnit) (required : nat) : option (list nat) :=
  (fun c : list (nat * nat) => c.*1) <$> find_first (exact required) (choices 0 units).

Definition units_ok (units : list queueUnit) : Prop := Forall (fun u => usable u = true -> members u <> []) units.

Lemma find_first_cons_total x r l :
  find_first (exact r) (cons x <$> l) =
  if (x.2 <=? r)%nat then cons x <$> find_first (exact (r - x.2)) l else None.
Proof.
  induction l as [|c l IH]; csimpl; [by destruct (_ <=? _)%nat|].
  rewrite IH. unfold exact, total. csimpl.
  destruct (x.2 <=? r)%nat eqn:Hle.
  - apply Nat.leb_le in Hle.
    destruct (sum_list (snd <$> c) =? r - x.2)%nat eqn:He.
    + apply Nat.eqb_eq in He. by rewrite (proj2 (Nat.eqb_eq _ _)) by lia.
    + apply Nat.eqb_neq in He. by rewrite (proj2 (Nat.eqb_neq _ _)) by lia.
  - apply Nat.leb_gt in Hle. by rewrite (proj2 (Nat.eqb_neq _ _)) by lia.
Qed.

(** ** The table *)
Lemma length_reach_row u below : length (reach_row u below) = length below.
Proof. unfold reach_row. destruct (usable u); [apply length_imap|done]. Qed.

Lemma reach_head units n : exists row rows, reach units n = row :: rows /\ length row = S n.
Proof.
  induction units as [|u units (row & rows & Hr & Hl)]; cbn.
  - do 2 eexists. split; [done|]. cbn. by rewrite length_replicate.
  - rewrite Hr. cbn. do 2 eexists. split; [done|]. by rewrite length_reach_row.
Qed.

Definition reachable (units : list queueUnit) (n r : nat) : bool :=
  default false (default [] (head (reach units n)) !! r).

(** A row tells what the exhaustive search finds. *)
Lemma reach_spec units n i r :
  (r <= n)%nat -> reachable units n r = bool_decide (is_Some (find_first (exact r) (choices i units))).
Proof.
  revert i r. induction units as [|u units IH]; intros i r Hr.
  { unfold reachable. cbn. unfold exact, total. cbn. destruct r as [|r]; cbn; [done|].
    destruct (replicate n false !! r) eqn:Hl; cbn; [|done].
    by apply lookup_replicate in Hl as [-> _]. }
  destruct (reach_head units n) as (row & rows & Hrow & Hlen).
  assert (forall r', (r' <= n)%nat -> default false (row !! r') =
    bool_decide (is_Some (find_first (exact r') (choices (S i) units)))) as IH'.
  { intros r' Hr'. rewrite <- (IH (S i) r' Hr'). unfold reachable. by rewrite Hrow. }
  unfold reachable. cbn. rewrite Hrow. cbn. unfold reach_row.
  destruct (usable u); [|cbn; by apply IH'].
  rewrite find_first_app, find_first_cons_total. cbn.
  rewrite list_lookup_imap. destruct (row !! r) as [b|] eqn:Hb; [|apply lookup_ge_None in Hb; lia].
  assert (b = default false (row !! r)) as -> by by rewrite Hb. cbn. rewrite IH' by lia.
  destruct (length (members u) <=? r)%nat eqn:Hle; cbn; [|by rewrite orb_false_r].
  rewrite IH' by lia.
  destruct (find_first (exact (r - length (members u))) (choices (S i) units)),
    (find_first (exact r) (choices (S i) units)); reflexivity.
Qed.

Lemma choices_zero units i : units_ok units -> find_first (exact 0) (choices i units) = Some [].
Proof.
  revert i. induction units as [|u units IH]; intros i Hok; cbn; [done|].
  inversion_clear Hok as [|? ? Hu Hok']. rewrite find_first_app.
  destruct (usable u); [|by apply IH]. rewrite find_first_cons_total. cbn.
  destruct (members u) as [|x l] eqn:Hm; [by specialize (Hu eq_refl)|]. cbn. by apply IH.
Qed.

(** What is taken is what the exhaustive search finds. *)
Lemma take_units_spec units n i r c :
  units_ok units -> (r <= n)%nat -> find_first (exact r) (choices i units) = Some c ->
  take_units i units (reach units n) r = c.*1.
Proof.
  revert i r c. induction units as [|u units IH]; intros i r c Hok Hr Hc; cbn in *.
  { destruct r; by simplify_eq. }
  destruct (r =? 0)%nat eqn:Hz.
  { apply Nat.eqb_eq in Hz. subst r. pose proof (choices_zero (u :: units) i Hok) as H0. cbn in H0.
    rewrite H0 in Hc. by injection Hc as <-. }
  inversion_clear Hok as [|? ? Hu Hok'].
  fold (reachable units n (r - length (members u))).
  rewrite find_first_app in Hc. destruct (usable u) eqn:Hus; cbn [andb].
  - rewrite find_first_cons_total in Hc. cbn in Hc. destruct (length (members u) <=? r)%nat eqn:Hle; cbn [andb].
    + rewrite (reach_spec units n (S i)) by lia.
      destruct (find_first (exact (r - length (members u))) (choices (S i) units)) as [c'|] eqn:Hf; cbn in *.
      * injection Hc as <-. cbn. f_equal. apply IH; [done|lia|done].
      * by apply IH.
    + cbn in Hc. by apply IH.
  - cbn in Hc. by apply IH.
Qed.

(** C20: the choice of the matcher is the first one. When every usable unit has a member,
    [selectUnits] answers what an exhaustive search through all choices of units finds
    first, those that take an earlier unit before those that do not, looking for exactly
    the required number of players; and it answers nothing when there is no such
    choice. *)
Theorem select_is_first_choice units required :
  units_ok units -> (0 < required)%Z -> selectUnits units required = first_choice units (Z.to_nat required).
Proof.
  intros Hok Hr. unfold selectUnits, first_choice. destruct (required <=? 0)%Z eqn:Hz; zbool; [lia|].
  fold (reachable units (Z.to_nat required) (Z.to_nat required)).
  rewrite (reach_spec units _ 0) by lia.
  destruct (find_first (exact (Z.to_nat required)) (choices 0 units)) as [c|] eqn:Hf; cbn; [|done].
  by rewrite (take_units_spec units _ 0 _ c Hok).
Qed.

(** ** What a choice is *)
Lemma choices_spec units i c :
  c ∈ choices i units ->
  StronglySorted lt c.*1 /\
  Forall (fun x => (i <= x.1)%nat /\ exists u, units !! (x.1 - i)%nat = Some u /\ usable u = true /\ x.2 = length (members u)) c.
Proof.
  revert i c. induction units as [|u units IH]; intros i c; cbn.
  { intros ->%list_elem_of_singleton. split; constructor. }
  assert (forall c, c ∈ choices (S i) units -> StronglySorted lt c.*1 /\ Forall (fun x => (i < x.1)%nat /\
    exists v, (u :: units) !! (x.1 - i)%nat = Some v /\ usable v = true /\ x.2 = length (members v)) c) as Hrest.
  { intros c' [Hs Hf]%IH. split; [done|]. eapply Forall_impl; [exact Hf|]. intros x (Hle & v & Hv & ?). split; [lia|].
    exists v. by replace (x.1 - i)%nat with (S (x.1 - S i)) by lia. }
  rewrite elem_of_app. intros [Hc|Hc].
  - destruct (usable u) eqn:Hus; [|by apply not_elem_of_nil in Hc].
    apply list_elem_of_fmap in Hc as (c' & -> & [Hs Hf]%Hrest). csimpl. split.
    + constructor; [done|]. apply Forall_fmap. eapply Forall_impl; [exact Hf|]. intros x [? _]. exact H.
    + constructor; [|eapply Forall_impl; [exact Hf|]; intros x [? ?]; split; [lia|done]].
      split; [done|]. exists u. by rewrite Nat.sub_diag.
  - destruct (Hrest _ Hc) as [Hs Hf]. split; [done|]. eapply Forall_impl; [exact Hf|]. intros x [? ?]. split; [lia|done].
Qed.

(** The group that was chosen: usable units at distinct positions, with exactly the
    required number of members between them. *)
Lemma selectUnits_group units required group :
  units_ok units -> selectUnits units required = Some group ->
  (0 < required)%Z /\ NoDup group /\
  Forall (fun i => exists u, units !! i = Some u /\ usable u = true) group /\
  Z.of_nat (length (group_members units group)) = required.
Proof.
  intros Hok Hs. destruct (decide (0 < required)%Z) as [Hr|]; [|unfold selectUnits in Hs; split_if; zbool; done || lia].
  rewrite select_is_first_choice in Hs by done. unfold first_choice in Hs.
  destruct (find_first _ _) as [c|] eqn:Hf; [|done]. cbn in Hs. injection Hs as <-.
  apply find_first_Some in Hf as [Hc He]. apply choices_spec in Hc as [Hsort Hall].
  split; [done|]. split.
  { clear -Hsort. induction Hsort as [|x l Hs IH Hf]; constructor; [|done].
    intros Hx. rewrite Forall_forall in Hf. specialize (Hf _ Hx). lia. }
  assert (length (group_members units c.*1) = total c) as Hlen.
  { clear -Hall. unfold group_members, group_units, total. induction Hall as [|x c (_ & u & Hu & _ & Hx) _ IH]; csimpl; [done|].
    rewrite Nat.sub_0_r in Hu. rewrite Hu. cbn. rewrite length_app, Hx. lia. }
  split.
  - apply Forall_fmap. eapply Forall_impl; [exact Hall|]. intros x (_ & u & Hu & Hus & _).
    rewrite Nat.sub_0_r in Hu. by exists u.
  - rewrite Hlen. unfold exact in He. apply Nat.eqb_eq in He. lia.
Qed.

(** ** Packing around an anchor *)
Lemma containsPlayer_spec ids pid : containsPlayer ids pid = true <-> pid ∈ ids.
Proof.
  induction ids as [|x ids IH]; cbn; [split; [done|set_solver]|].
  rewrite orb_true_iff, IH, Z.eqb_eq, elem_of_cons. naive_solver.
Qed.

Lemma home_loop_distinct seen home mixed group h :
  home_loop seen home mixed group = Ok h ->
  NoDup (mt_player <$> group) /\ forall x, x ∈ mt_player <$> group -> x ∉ seen.
Proof.
  revert seen home mixed. induction group as [|t group IH]; intros seen home mixed; cbn [home_loop].
  { split; [constructor|set_solver]. }
  destruct ((mt_player t =? 0)%Z || (mt_zone t =? 0)%Z || containsPlayer seen (mt_player t)) eqn:Hb; [done|].
  intros Hl. assert (NoDup (mt_player <$> group) /\ forall x, x ∈ mt_player <$> group -> x ∉ mt_player t :: seen) as [Hn Hx]
    by (destruct home; by eapply IH).
  apply orb_false_iff in Hb as [_ Hb]. assert (mt_player t ∉ seen) by (rewrite <- containsPlayer_spec; by rewrite Hb).
  csimpl. split; [constructor; [|done]; intros Hin%Hx; set_solver|].
  intros x [->|Hin]%elem_of_cons; [done|]. specialize (Hx _ Hin). set_solver.
Qed.

Lemma home_ok_distinct home u : home_ok home u = true -> NoDup (mt_player <$> tu_tickets u) /\ tu_tickets u <> [].
Proof.
  unfold home_ok, TeamUnitHomeZone. destruct (tu_tickets u) as [|t ts] eqn:Ht; [done|]. rewrite <- Ht.
  destruct (home_loop [] None false (tu_tickets u)) as [h|] eqn:Hl; [|done].
  intros _. apply home_loop_distinct in Hl as [? _]. split; [done|congruence].
Qed.

(** One pass over the counts changes each entry at most once, from the entries of before. *)
Lemma pack_entry_other peer count s j : j <> count -> pack_entry peer count s !! j = s !! j.
Proof.
  intros Hne. unfold pack_entry. repeat case_match; try done. by rewrite list_lookup_insert_ne.
Qed.

Lemma pack_entry_at peer j s :
  pack_entry peer j s !! j =
  match s !! j, s !! (j - length (tu_tickets peer))%nat with
  | Some None, Some (Some group) =>
      if existsb (fun a => containsPlayer (mt_player <$> tu_tickets peer) a) (players_of group)
      then Some None else Some (Some (group ++ [peer]))
  | x, _ => x
  end.
Proof.
  unfold pack_entry. destruct (s !! j) as [[g|]|] eqn:Hj; rewrite ?Hj; try done.
  destruct (s !! (j - _)%nat) as [[g|]|]; rewrite ?Hj; try done.
  destruct (existsb _ _); [done|]. apply list_lookup_insert_eq. by eapply lookup_lt_Some.
Qed.

Lemma pack_entry_same peer count s s' :
  s !! count = s' !! count -> s !! (count - length (tu_tickets peer))%nat = s' !! (count - length (tu_tickets peer))%nat ->
  pack_entry peer count s !! count = pack_entry peer count s' !! count.
Proof. intros H1 H2. by rewrite !pack_entry_at, H1, H2. Qed.

Lemma pack_counts_spec peer count s j :
  tu_tickets peer <> [] ->
  pack_counts peer count s !! j =
  if (length (tu_tickets peer) <=? j)%nat && (j <=? count)%nat then pack_entry peer j s !! j else s !! j.
Proof.
  intros Hne. assert (0 < length (tu_tickets peer)) as Hsz by (destruct (tu_tickets peer); [done|cbn; lia]).
  revert s. induction count as [|count IH]; intros s; cbn [pack_counts].
  { destruct (0 <? length (tu_tickets peer))%nat eqn:H0; [|apply Nat.ltb_ge in H0; lia].
    destruct (_ <=? j)%nat eqn:H1; [|done]. apply Nat.leb_le in H1. cbn. destruct (j <=? 0)%nat eqn:H2; [|done].
    apply Nat.leb_le in H2. lia. }
  destruct (S count <? length (tu_tickets peer))%nat eqn:Hlt.
  { apply Nat.ltb_lt in Hlt. destruct (length (tu_tickets peer) <=? j)%nat eqn:H1; [|done]. apply Nat.leb_le in H1. cbn [andb].
    destruct (j <=? S count)%nat eqn:H2; [apply Nat.leb_le in H2; lia|done]. }
  rewrite IH. destruct (length (tu_tickets peer) <=? j)%nat eqn:H1; cbn [andb].
  2: { apply Nat.leb_gt in H1. apply Nat.ltb_ge in Hlt. by rewrite pack_entry_other by lia. }
  apply Nat.leb_le in H1. destruct (j <=? count)%nat eqn:H2.
  - apply Nat.leb_le in H2. rewrite (proj2 (Nat.leb_le j (S count))) by lia.
    apply pack_entry_same; by rewrite pack_entry_other by lia.
  - apply Nat.leb_gt in H2. destruct (j <=? S count)%nat eqn:H3.
    + apply Nat.leb_le in H3. by replace j with (S count) by lia.
    + apply Nat.leb_gt in H3. by rewrite pack_entry_other by lia.
Qed.

Section pack.
Context (anchor : globalTeamUnit) (target : nat) (home : Z).

(** What the table holds once the peers [done] were gone through. *)
Record pack_ok (peers : list globalTeamUnit) (s : solutions) : Prop := {
  pk_length : length s = S target;
  pk_sound : forall count group, s !! count = Some (Some group) -> exists rest,
    group = anchor :: rest /\ rest `sublist_of` peers /\ length (players_of group) = count /\
    NoDup (players_of group) /\ Forall (fun u => home_ok home u = true) rest;
  pk_complete : NoDup (players_of (anchor :: peers)) -> forall rest,
    rest `sublist_of` peers -> Forall (fun u => home_ok home u = true) rest ->
    length (players_of (anchor :: rest)) <= target ->
    exists group, s !! length (players_of (anchor :: rest)) = Some (Some group) }.

Lemma players_of_app us vs : players_of (us ++ vs) = players_of us ++ players_of vs.
Proof. apply bind_app. Qed.

Lemma players_of_sublist us vs : us `sublist_of` vs -> players_of us `sublist_of` players_of vs.
Proof.
  induction 1 as [|u us vs _ IH|u us vs _ IH]; [done| |]; unfold players_of in *; csimpl.
  - by apply sublist_app.
  - by apply sublist_inserts_l.
Qed.

Lemma overlap_false peer group :
  existsb (fun a => containsPlayer (mt_player <$> tu_tickets peer) a) (players_of group) = false <->
  forall x, x ∈ players_of group -> x ∉ mt_player <$> tu_tickets peer.
Proof.
  rewrite <- not_true_iff_false, existsb_exists. split.
  - intros Hno x Hx Hp. apply Hno. exists x. split; [by apply list_elem_of_In|by apply containsPlayer_spec].
  - intros Hall (x & Hx%list_elem_of_In & Hp%containsPlayer_spec). by eapply Hall.
Qed.

Lemma length_players_of_app us vs :
  length (players_of (us ++ vs)) = length (players_of us) + length (players_of vs).
Proof. by rewrite players_of_app, length_app. Qed.

Lemma length_players_one u : length (players_of [u]) = length (tu_tickets u).
Proof. unfold players_of. csimpl. by rewrite app_nil_r, length_fmap. Qed.

Lemma sublist_snoc_inv (rest peers : list globalTeamUnit) peer :
  rest `sublist_of` peers ++ [peer] ->
  rest `sublist_of` peers \/ exists rest', rest = rest' ++ [peer] /\ rest' `sublist_of` peers.
Proof.
  intros (l1 & l2 & -> & H1 & H2)%sublist_app_r. inversion H2 as [|? ? ? Hn|? ? ? Hn]; subst; apply sublist_nil_r in Hn; subst.
  - right. by exists l1.
  - left. by rewrite app_nil_r.
Qed.

(** Units whose players are those of others but for some. *)
Lemma players_disjoint peers rest peer :
  NoDup (players_of (anchor :: peers ++ [peer])) -> rest `sublist_of` peers ->
  forall x, x ∈ players_of (anchor :: rest) -> x ∉ mt_player <$> tu_tickets peer.
Proof.
  rewrite app_comm_cons, players_of_app. intros (_ & Hd & _)%NoDup_app Hsub x Hx Hp.
  apply (Hd x).
  - eapply elem_of_sublist; [exact Hx|]. apply players_of_sublist. by apply sublist_skip.
  - unfold players_of. csimpl. by rewrite app_nil_r.
Qed.

Lemma NoDup_players_snoc peers peer :
  NoDup (players_of (anchor :: peers ++ [peer])) -> NoDup (players_of (anchor :: peers)).
Proof. rewrite app_comm_cons, players_of_app. by intros (? & _)%NoDup_app. Qed.

Lemma pack_sound_weaken peers peer s count group :
  pack_ok peers s -> s !! count = Some (Some group) -> exists rest,
  group = anchor :: rest /\ rest `sublist_of` peers ++ [peer] /\ length (players_of group) = count /\
  NoDup (players_of group) /\ Forall (fun u => home_ok home u = true) rest.
Proof.
  intros [_ Hs _] Hg. destruct (Hs _ _ Hg) as (rest & ? & ? & ?). exists rest.
  split; [done|]. split; [by apply sublist_inserts_r|done].
Qed.

Lemma pack_sound_step peers s peer count group :
  home_ok home peer = true -> pack_ok peers s -> pack_counts peer target s !! count = Some (Some group) -> exists rest,
  group = anchor :: rest /\ rest `sublist_of` peers ++ [peer] /\ length (players_of group) = count /\
  NoDup (players_of group) /\ Forall (fun u => home_ok home u = true) rest.
Proof.
  intros Hh Hok. destruct (home_ok_distinct _ _ Hh) as [Hnd1 Hne]. rewrite pack_counts_spec by done.
  destruct ((length (tu_tickets peer) <=? count)%nat && (count <=? target)%nat) eqn:Hr; [|by apply pack_sound_weaken].
  apply andb_true_iff in Hr as [H1%Nat.leb_le H2%Nat.leb_le]. rewrite pack_entry_at.
  destruct (s !! count) as [[g|]|] eqn:Hc; [intros [= <-]; by eapply pack_sound_weaken| |done].
  destruct (s !! (count - length (tu_tickets peer))%nat) as [[g|]|] eqn:Hd; [|done|done].
  destruct (existsb _ _) eqn:Hov; [done|]. intros [= <-]. rewrite overlap_false in Hov.
  destruct Hok as [_ Hsound _]. destruct (Hsound _ _ Hd) as (rest & -> & Hsub & Hlen & Hnd & Hf).
  exists (rest ++ [peer]). split; [done|]. split; [by apply sublist_app|].
  split; [rewrite length_players_of_app, length_players_one; lia|].
  split; [|by apply Forall_app; split; [|constructor]].
  rewrite players_of_app. unfold players_of at 2. csimpl. rewrite app_nil_r. apply NoDup_app. by split_and!.
Qed.

Lemma pack_complete_step peers s peer rest :
  home_ok home peer = true -> pack_ok peers s -> NoDup (players_of (anchor :: peers ++ [peer])) ->
  rest `sublist_of` peers ++ [peer] -> Forall (fun u => home_ok home u = true) rest ->
  length (players_of (anchor :: rest)) <= target ->
  exists group, pack_counts peer target s !! length (players_of (anchor :: rest)) = Some (Some group).
Proof.
  intros Hh Hok Hnd Hsub Hf Hle. destruct (home_ok_distinct _ _ Hh) as [_ Hne].
  pose proof (NoDup_players_snoc _ _ Hnd) as Hnd'. rewrite pack_counts_spec by done.
  set (count := length (players_of (anchor :: rest))) in *.
  assert ((exists g, s !! count = Some (Some g)) \/
    (s !! count = Some None /\ length (tu_tickets peer) <= count /\
     exists g, s !! (count - length (tu_tickets peer))%nat = Some (Some g))) as Hcases.
  { destruct (sublist_snoc_inv _ _ _ Hsub) as [Hs|(rest' & -> & Hs)].
    - left. by apply (pk_complete _ _ Hok).
    - apply Forall_app in Hf as [Hf _]. subst count. rewrite app_comm_cons, length_players_of_app, length_players_one in *.
      destruct (s !! _) as [[g|]|] eqn:Hc; [left; by eexists|right|].
      + split; [done|]. split; [lia|]. destruct (pk_complete _ _ Hok Hnd' rest' Hs Hf ltac:(lia)) as [g Hg].
        exists g. by rewrite Nat.add_sub.
      + apply lookup_ge_None in Hc. rewrite (pk_length _ _ Hok) in Hc. lia. }
  destruct Hcases as [[g Hg]|(Hc & Hlep & g & Hg)].
  { destruct (_ && _); [rewrite pack_entry_at, Hg|]; eauto. }
  rewrite (proj2 (Nat.leb_le _ _) Hlep), (proj2 (Nat.leb_le _ _) Hle). cbn [andb]. rewrite pack_entry_at, Hc, Hg.
  destruct (existsb _ _) eqn:Hov; [|by eexists]. exfalso. apply not_false_iff_true in Hov. apply Hov, overlap_false.
  destruct (pk_sound _ _ Hok _ _ Hg) as (rest' & -> & Hs' & _). by eapply players_disjoint.
Qed.

Lemma length_pack_counts peer count s : length (pack_counts peer count s) = length s.
Proof.
  assert (forall c s, length (pack_entry peer c s) = length s) as He.
  { intros c s'. unfold pack_entry. repeat case_match; try done. apply length_insert. }
  revert s. induction count as [|count IH]; intros s; cbn; split_if; try done. by rewrite IH.
Qed.

Lemma pack_peer_ok peers s peer :
  pack_ok peers s -> pack_ok (peers ++ [peer]) (pack_peer target home s peer).
Proof.
  intros Hok. unfold pack_peer.
  destruct ((length (tu_tickets peer) =? 0)%nat || negb (home_ok home peer)) eqn:Hskip.
  - assert (home_ok home peer = false) as Hh.
    { apply not_true_is_false. intros Hh. destruct (home_ok_distinct _ _ Hh) as [_ Hne]. rewrite Hh in Hskip.
      destruct (tu_tickets peer); done. }
    split; [apply Hok|by intros; eapply pack_sound_weaken|].
    intros Hnd rest Hsub Hf Hle. pose proof (NoDup_players_snoc _ _ Hnd) as Hnd'.
    destruct (sublist_snoc_inv _ _ _ Hsub) as [Hs|(rest' & -> & Hs)]; [by apply (pk_complete _ _ Hok)|].
    apply Forall_app in Hf as [_ Hf]. inversion Hf. congruence.
  - apply orb_false_iff in Hskip as [_ Hh%negb_false_iff]. split.
    + rewrite length_pack_counts. apply Hok.
    + intros count group. by apply pack_sound_step.
    + intros. by eapply pack_complete_step.
Qed.

Lemma pack_all_ok peers done_ s :
  pack_ok done_ s -> pack_ok (done_ ++ peers) (foldl (pack_peer target home) s peers).
Proof.
  revert done_ s. induction peers as [|peer peers IH]; intros done_ s Hok; cbn; [by rewrite app_nil_r|].
  replace (done_ ++ peer :: peers) with ((done_ ++ [peer]) ++ peers) by (by rewrite <- app_assoc).
  apply IH. by apply pack_peer_ok.
Qed.

Lemma pack_start_ok :
  home_ok home anchor = true -> length (tu_tickets anchor) <= target ->
  pack_ok [] (<[length (tu_tickets anchor) := Some [anchor]]> (replicate (S target) None)).
Proof.
  intros Hh Hle. destruct (home_ok_distinct _ _ Hh) as [Hnd _]. split.
  - by rewrite length_insert, length_replicate.
  - intros count group Hg. destruct (decide (count = length (tu_tickets anchor))) as [->|Hne].
    + rewrite list_lookup_insert_eq in Hg by (rewrite length_replicate; lia). injection Hg as <-.
      exists []. split_and!; [done|done|apply length_players_one| |constructor].
      unfold players_of. csimpl. by rewrite app_nil_r.
    + rewrite list_lookup_insert_ne in Hg by done. by apply lookup_replicate in Hg as [? _].
  - intros _ rest ->%sublist_nil_r _ _. rewrite length_players_one.
    rewrite list_lookup_insert_eq by (rewrite length_replicate; lia). by eexists.
Qed.
End pack.

#[local] Instance players_of_proper : Proper ((≡ₚ) ==> (≡ₚ)) players_of.
Proof.
  intros us vs. induction 1 as [|u us vs _ IH|u v us|us vs ws _ IH1 _ IH2]; unfold players_of in *; csimpl.
  - done.
  - by rewrite IH.
  - by rewrite !app_assoc, (Permutation_app_comm (mt_player <$> tu_tickets v)).
  - by etrans.
Qed.

(** C34: Packing keeps units whole and finds a group if there is one. What
    [packTeamUnits] answers is the anchor and whole units among its peers, no player
    twice, exactly the number of players asked for, all from the home zone asked for;
    and when no player is in two of the units, it answers such a group whenever there is
    one. *)
Theorem pack_finds_whole_units anchor peers target home :
  (forall group, packTeamUnits anchor peers target home = Some group ->
    exists rest, group = anchor :: rest /\ rest ⊆+ peers /\ Z.of_nat (length (players_of group)) = target /\
      NoDup (players_of group) /\ Forall (fun u => home_ok home u = true) group) /\
  (NoDup (players_of (anchor :: peers)) -> forall rest, rest ⊆+ peers ->
    Forall (fun u => home_ok home u = true) (anchor :: rest) ->
    Z.of_nat (length (players_of (anchor :: rest))) = target -> (target <= TeamCapacity)%Z ->
    packTeamUnits anchor peers target home <> None).
Proof.
  set (n := length (tu_tickets anchor)).
  assert (forall t, home_ok home anchor = true -> n <= t ->
    pack_ok anchor t home (sort_stable unit_less peers)
      (foldl (pack_peer t home) (<[n := Some [anchor]]> (replicate (S t) None)) (sort_stable unit_less peers))) as Hall.
  { intros t Hh Hle. apply (pack_all_ok _ _ _ _ [] _ (pack_start_ok _ _ _ Hh Hle)). }
  unfold packTeamUnits. fold n. split.
  - intros group. destruct (_ || _) eqn:Hr; [done|]. destruct (home_ok home anchor) eqn:Hh; cbn [negb]; [|done].
    zbool. specialize (Hall (Z.to_nat target) eq_refl ltac:(lia)).
    destruct (foldl _ _ _ !! Z.to_nat target) as [[g|]|] eqn:Hg; cbn; [|done|done]. intros [= <-].
    destruct (pk_sound _ _ _ _ _ Hall _ _ Hg) as (rest & -> & Hsub & Hlen & Hnd & Hf). exists rest.
    split; [done|]. split; [|split; [lia|split; [done|by constructor]]].
    rewrite <- (sort_stable_perm unit_less peers). by apply sublist_submseteq.
  - intros Hnd rest Hsub Hf Htarget Hcap. apply Forall_cons in Hf as [Hh Hf]. rewrite Hh. cbn [negb].
    assert (length (players_of (anchor :: rest)) = n + length (players_of rest)) as Hlen
      by (change (anchor :: rest) with ([anchor] ++ rest); by rewrite length_players_of_app, length_players_one).
    assert (0 < n) as Hn by (destruct (home_ok_distinct _ _ Hh) as [_ Hne]; unfold n; destruct (tu_tickets anchor); [done|cbn; lia]).
    destruct (_ || _) eqn:Hr; [exfalso; zlia|].
    specialize (Hall (Z.to_nat target) Hh ltac:(lia)).
    rewrite <- (sort_stable_perm unit_less peers) in Hsub. apply submseteq_sublist_r in Hsub as (rest' & Hperm & Hsub).
    assert (length (players_of (anchor :: rest')) = Z.to_nat target) as Hlen'
      by (rewrite <- Htarget, Nat2Z.id; apply Permutation_length; by rewrite Hperm).
    destruct (pk_complete _ _ _ _ _ Hall) with (rest := rest') as [g Hg]; [|done|by rewrite <- Hperm|lia|].
    { by rewrite sort_stable_perm. }
    rewrite Hlen' in Hg. by rewrite Hg.
Qed.

(** ** The roster field of a ticket *)
Definition no_comma (s : string) : Prop := chars (fun a => negb (Ascii.eqb a ","%char)) s = true.

Lemma FormatUint_no_comma n : no_comma (FormatUint n).
Proof.
  unfold no_comma. pose proof (FormatUint_digits n) as Hd. revert Hd.
  induction (FormatUint n) as [|a s IH]; cbn; [done|]. intros [Ha Hs]%andb_true_iff. rewrite (IH Hs), andb_true_r.
  apply bool_decide_eq_true in Ha. destruct (Ascii.eqb a ",") eqn:Hc; [|done]. apply Ascii.eqb_eq in Hc as ->.
  by destruct Ha.
Qed.

Lemma split_no_comma s : no_comma s -> split_commas s = [s].
Proof.
  unfold no_comma. induction s as [|a s IH]; cbn; [done|]. intros [Ha Hs]%andb_true_iff.
  apply negb_true_iff in Ha. by rewrite Ha, (IH Hs).
Qed.

Lemma split_app s t : no_comma s -> split_commas (s +:+ String ","%char t) = s :: split_commas t.
Proof.
  unfold no_comma. induction s as [|a s IH]; [done|]. intros [Ha Hs]%andb_true_iff.
  apply negb_true_iff in Ha. change (String a s +:+ String ","%char t) with (String a (s +:+ String ","%char t)).
  cbn [split_commas]. by rewrite Ha, (IH Hs).
Qed.

Lemma split_join parts : parts <> [] -> Forall no_comma parts -> split_commas (join_commas parts) = parts.
Proof.
  induction parts as [|part parts IH]; [done|]. intros _ [Hp Hf]%Forall_cons. cbn [join_commas].
  destruct parts as [|q parts]; [by apply split_no_comma|]. rewrite split_app by done. f_equal. by apply IH.
Qed.

Lemma parse_members_format ids seen :
  Forall (fun id => 1 <= id < u64_mod)%Z ids -> NoDup ids -> (forall id, id ∈ ids -> id ∉ seen) ->
  parse_members seen (FormatUint <$> ids) = Some ids.
Proof.
  revert seen. induction ids as [|id ids IH]; intros seen; csimpl; [done|].
  intros [Hid Hf]%Forall_cons [Hn Hnd]%NoDup_cons Hseen. cbn [parse_members].
  rewrite ParseUint_FormatUint by (unfold is_u64; lia).
  destruct (id =? 0)%Z eqn:Hz; zbool; [lia|]. destruct (containsPlayer seen id) eqn:Hc.
  { apply containsPlayer_spec in Hc. by destruct (Hseen id ltac:(left)). }
  cbn [orb]. rewrite IH; [done|done|done|]. intros x Hx Hx'. apply elem_of_cons in Hx' as [-> |Hx']; [done|].
  apply (Hseen x); [by right|done].
Qed.

(** The roster survives its field. A roster of distinct players, written into a
    ticket, is read back in the same order; and whatever text is in the field, what is
    read back has no player twice and no zero. *)
Theorem party_members_roundtrip :
  (forall ids, Forall (fun id => 1 <= id < u64_mod)%Z ids -> NoDup ids -> parsePartyMembers (formatPartyMembers ids) = ids) /\
  (forall raw, NoDup (parsePartyMembers raw) /\ 0%Z ∉ parsePartyMembers raw).
Proof.
  split.
  - intros ids Hf Hnd. unfold parsePartyMembers, formatPartyMembers. destruct ids as [|id ids]; [done|].
    assert (split_commas (join_commas (FormatUint <$> (id :: ids))) = FormatUint <$> (id :: ids)) as Hs.
    { apply split_join; [done|]. apply Forall_fmap, Forall_true. intros x. apply FormatUint_no_comma. }
    destruct (String.eqb _ "") eqn:He.
    { apply String.eqb_eq in He. rewrite He in Hs. cbn in Hs. injection Hs as Hs Hr.
      pose proof (ParseUint_FormatUint id) as Hp. rewrite <- Hs in Hp. apply Forall_cons in Hf as [? _].
      discriminate Hp. unfold is_u64. lia. }
    rewrite Hs, parse_members_format; [done|done|done|set_solver].
  - intros raw. unfold parsePartyMembers. split_if; [split; [constructor|set_solver]|].
    assert (forall parts seen ids, parse_members seen parts = Some ids ->
      NoDup ids /\ 0%Z ∉ ids /\ forall x, x ∈ ids -> x ∉ seen) as Hall.
    { intros parts. induction parts as [|part parts IH]; intros seen ids; cbn [parse_members].
      { intros [= <-]. split_and!; [constructor|set_solver|set_solver]. }
      destruct (ParseUint part) as [id|]; [|done].
      destruct ((id =? 0)%Z || containsPlayer seen id) eqn:Hb; [done|].
      destruct (parse_members (id :: seen) parts) as [ids'|] eqn:Hp; [|done]. intros [= <-].
      destruct (IH _ _ Hp) as (Hn & Hz & Hs). apply orb_false_iff in Hb as [Hb1 Hb2]. apply Z.eqb_neq in Hb1.
      assert (id ∉ seen) by (rewrite <- containsPlayer_spec; by rewrite Hb2).
      split_and!; [constructor; [|done]; intros Hx%Hs; set_solver|set_solver|].
      intros x [-> |Hx%Hs]%elem_of_cons; [done|set_solver]. }
    destruct (parse_members [] (split_commas raw)) as [ids|] eqn:Hp; cbn; [|split; [constructor|set_solver]].
    destruct (Hall _ _ _ Hp) as (? & ? & _). done.
Qed.
