(* ===== verification/PartyMatchThms.v ===== *)
(** * Filling up teams: the groups of the matcher

    The choice of a round ends, and the group it comes to is made of whole units: the
    invariant of the scan over the queue. *)

From stdpp Require Import base list gmap sorting strings.
From Stdlib Require Import ZArith Lia SpecFloat.
From S2P Require Import Prelude PartyMatch PartySelect.
Local Open Scope Z_scope.

(** ** Putting units aside *)

(** What the checks of a group may do to a unit. *)
Definition later (u u' : queueUnit) : Prop :=
  members u' = members u /\ seed u' = seed u /\ got u' = got u /\ malformed u' = malformed u /\
  complete u' = complete u /\ (usable u' = true -> usable u = true).

Definition usable_count (units : list queueUnit) : nat := length (keep_if usable units).

Lemma later_refl u : later u u.
Proof. by repeat split. Qed.
#[local] Hint Resolve later_refl : core.

Lemma Forall2_later_refl us : Forall2 later us us.
Proof. induction us; constructor; auto. Qed.

Lemma later_trans us vs ws : Forall2 later us vs -> Forall2 later vs ws -> Forall2 later us ws.
Proof.
  intros H. revert ws. induction H as [|u v us vs Huv _ IH]; intros ws Hw; inversion_clear Hw as [|? w ? ws' Hvw Hws]; constructor; auto.
  unfold later in *. naive_solver congruence.
Qed.

Lemma later_alter f i us : (forall u, later u (f u)) -> Forall2 later us (alter f i us).
Proof.
  intros Hf. revert i. induction us as [|u us IH]; intros [|i]; cbn; constructor; auto. apply Forall2_later_refl.
Qed.

Lemma usable_count_later us vs : Forall2 later us vs -> (usable_count vs <= usable_count us)%nat.
Proof.
  unfold usable_count. induction 1 as [|u v us vs (_ & _ & _ & _ & _ & Hu) _ IH]; cbn; [done|].
  destruct (usable v); [rewrite Hu by done; cbn; lia|destruct (usable u); cbn; lia].
Qed.

Lemma usable_count_less us vs i u v :
  Forall2 later us vs -> us !! i = Some u -> usable u = true -> vs !! i = Some v -> usable v = false ->
  (usable_count vs < usable_count us)%nat.
Proof.
  intros H. revert i. induction H as [|x y us vs Hxy Hall IH]; intros [|i]; cbn; try done.
  - intros [= ->] Hu [= ->] Hv. unfold usable_count. cbn. rewrite Hu, Hv. cbn.
    pose proof (usable_count_later _ _ Hall). unfold usable_count in *. lia.
  - intros H1 Hu H2 Hv. specialize (IH _ H1 Hu H2 Hv). destruct Hxy as (_ & _ & _ & _ & _ & Hxy).
    unfold usable_count in *. cbn. destruct (usable y); [rewrite Hxy by done; cbn; lia|destruct (usable x); cbn; lia].
Qed.

Lemma group_members_later us vs group : Forall2 later us vs -> group_members vs group = group_members us group.
Proof.
  intros Hl. unfold group_members, group_units.
  induction group as [|i group IH]; csimpl; [done|]. pose proof (proj1 (Forall2_lookup _ _ _) Hl i) as Hi.
  destruct (us !! i) as [u|] eqn:Hu, (vs !! i) as [v|] eqn:Hv; inversion_clear Hi; csimpl; rewrite IH; [|done].
  by destruct H as (-> & _).
Qed.

Section round.
Context {W : Type} `{MatchWorld W}.
#[local] Set Default Proof Using "Type*".

Lemma drop_tickets idx p (w : W) : tickets (drop idx p w).1 = tickets p /\ queueKey (drop idx p w).1 = queueKey p.
Proof. unfold drop. by destruct (entries p !! idx). Qed.

Lemma evict_entries_tickets s idxs p (w : W) :
  tickets (evict_entries s idxs p w).1 = tickets p /\ queueKey (evict_entries s idxs p w).1 = queueKey p.
Proof.
  revert p w. induction idxs as [|idx idxs IH]; intros p w; cbn; [done|].
  destruct (containsPlayer _ _); [exact (IH (put_dropped idx p) w)|].
  match goal with |- context [drop idx p ?x] => pose proof (drop_tickets idx p x) as Hd; destruct (drop idx p x) as [p' w'] end.
  cbn in Hd. destruct Hd as [<- <-]. apply IH.
Qed.

Lemma check_unit_later deadline i units p (w : W) units' p' w' ev :
  check_unit deadline i units p w = (units', p', w', ev) ->
  Forall2 later units units' /\ tickets p' = tickets p /\ queueKey p' = queueKey p /\
  (ev = true -> exists u, units' !! i = Some u /\ usable u = false).
Proof.
  unfold check_unit. destruct (units !! i) as [u|] eqn:Hu;
    [|intros [= <- <- <- <-]; split_and!; [apply Forall2_later_refl|done|done|done]].
  destruct (seed u) as [s|]; [|intros [= <- <- <- <-]; split_and!; [apply Forall2_later_refl|done|done|done]].
  destruct (checked u); [intros [= <- <- <- <-]; split_and!; [apply Forall2_later_refl|done|done|done]|].
  assert (forall f, (forall u, later u (f u)) -> (forall u, usable (f u) = false) ->
    Forall2 later units (alter f i units) /\ exists u, alter f i units !! i = Some u /\ usable u = false) as Haside.
  { intros f Hf Hus. split; [by apply later_alter|]. exists (f u). by rewrite list_lookup_alter_eq, Hu. }
  assert (forall u, later u (set_removed u) /\ usable (set_removed u) = false) as Hrem
    by (intros v; unfold later, usable; cbn; rewrite andb_false_r; by repeat split).
  assert (forall u, later u (set_deferred u) /\ usable (set_deferred u) = false) as Hdef
    by (intros v; unfold later, usable; cbn; rewrite andb_false_r; by repeat split).
  destruct (checkParty deadline u s w) as [w0 [[reason culprit]|e]].
  - destruct (reason =? PartyEndNone).
    + intros [= <- <- <- <-]. split_and!; [|done|done|done]. apply later_alter. intros v. by repeat split.
    + unfold evictUnit.
      pose proof (evict_entries_tickets s (entryIdx u) p (cancelParty s reason culprit w0)) as [Ht Hk].
      destruct (evict_entries _ _ _ _) as [pe we]. intros [= <- <- <- <-].
      destruct (Haside set_removed) as [? ?]; [apply Hrem|apply Hrem|]. by split_and!.
  - intros [= <- <- <- <-]. destruct (Haside set_deferred) as [? ?]; [apply Hdef|apply Hdef|]. by split_and!.
Qed.

Lemma check_group_later deadline group units p (w : W) units' p' w' ev :
  check_group deadline group units p w = (units', p', w', ev) ->
  Forall2 later units units' /\ tickets p' = tickets p /\ queueKey p' = queueKey p /\
  (ev = true -> exists i u, i ∈ group /\ units' !! i = Some u /\ usable u = false).
Proof.
  revert units p w units' p' w' ev. induction group as [|i group IH]; intros units p w units' p' w' ev; cbn [check_group].
  { intros [= <- <- <- <-]. split_and!; [apply Forall2_later_refl|done|done|done]. }
  destruct (check_unit deadline i units p w) as [[[u1 p1] w1] ev1] eqn:Hone.
  destruct (check_group deadline group u1 p1 w1) as [[[u2 p2] w2] ev2] eqn:Hrest. intros [= <- <- <- <-].
  destruct (IH _ _ _ _ _ _ _ Hrest) as (Hl2 & Ht2 & Hk2 & He2).
  destruct (check_unit_later _ _ _ _ _ _ _ _ _ Hone) as (Hl1 & Ht1 & Hk1 & He1).
  split; [by eapply later_trans|]. split; [congruence|]. split; [congruence|].
  intros [-> | ->]%orb_true_iff.
  - destruct (He1 eq_refl) as (u & Hu & Hus).
    destruct (Forall2_lookup_l _ _ _ _ _ Hl2 Hu) as (u' & Hu' & (_ & _ & _ & _ & _ & Hl)).
    exists i, u'. split; [left|]. split; [done|]. destruct (usable u'); [|done]. by rewrite Hl in Hus.
  - destruct (He2 eq_refl) as (j & u & ? & ?). exists j, u. split; [by right|done].
Qed.

Lemma units_ok_later us vs : Forall2 later us vs -> units_ok us -> units_ok vs.
Proof.
  unfold units_ok. induction 1 as [|u v us vs (Hm & _ & _ & _ & _ & Hu) _ IH]; [done|].
  intros [H1 H2]%Forall_cons. constructor; [|auto]. intros Hv. rewrite Hm. auto.
Qed.

(** The choice ends: every group that is not taken puts a unit aside. *)
Lemma select_checked_ends fuel deadline required units p (w : W) :
  units_ok units -> (usable_count units < fuel)%nat ->
  exists units' p' w' r, select_checked fuel deadline required units p w = Some (units', p', w', r) /\
    Forall2 later units units' /\ tickets p' = tickets p /\ queueKey p' = queueKey p /\
    forall group, r = Some group -> NoDup group /\
      Forall (fun i => exists u, units' !! i = Some u /\ complete u = true) group /\
      Z.of_nat (length (group_members units' group)) = required.
Proof.
  revert units p w. induction fuel as [|fuel IH]; intros units p w Hok Hlt; [lia|]. cbn [select_checked].
  destruct (selectUnits units required) as [group|] eqn:Hs.
  2: { do 4 eexists. split; [done|]. by split_and!; [apply Forall2_later_refl|..]. }
  destruct (selectUnits_group _ _ _ Hok Hs) as (_ & Hnd & Hall & Hlen).
  destruct (check_group deadline group units p w) as [[[u1 p1] w1] ev] eqn:Hc.
  destruct (check_group_later _ _ _ _ _ _ _ _ _ Hc) as (Hl & Ht & Hk & Hev).
  destruct ev.
  - destruct (Hev eq_refl) as (i & v & Hi & Hv & Hus).
    rewrite Forall_forall in Hall. destruct (Hall i Hi) as (u & Hu & Hus').
    pose proof (usable_count_less _ _ _ _ _ Hl Hu Hus' Hv Hus).
    destruct (IH u1 p1 w1) as (u2 & p2 & w2 & r & Hr & Hl2 & Ht2 & Hk2 & Hgr); [by eapply units_ok_later|lia|].
    exists u2, p2, w2, r. split; [done|]. split; [by eapply later_trans|]. split; [congruence|]. split; [congruence|done].
  - do 4 eexists. split; [done|]. split_and!; [done|done|done|]. intros ? [= <-]. split; [done|]. split.
    + eapply Forall_impl; [exact Hall|]. intros i (u & Hu & Hus).
      destruct (Forall2_lookup_l _ _ _ _ _ Hl Hu) as (u' & Hu' & (_ & _ & _ & _ & Hcm & _)).
      exists u'. split; [done|]. rewrite Hcm. unfold usable in Hus. by destruct (complete u).
    + by rewrite (group_members_later _ _ group Hl).
Qed.

(** The choice of a round ends: over well-formed units, whatever the team
    service answers and however it fails, [selectCheckedUnits] comes to an answer with
    the fuel it is given. *)
Theorem selectCheckedUnits_ends deadline required units p (w : W) :
  units_ok units -> exists units' p' w' r, selectCheckedUnits deadline required units p w = Some (units', p', w', r).
Proof.
  intros Hok. destruct (select_checked_ends (S (length units)) deadline required units p w Hok) as (u' & p' & w' & r & Hr & _).
  - unfold usable_count. pose proof (keep_if_length usable units). lia.
  - by exists u', p', w', r.
Qed.
End round.
