(* ===== verification/PartyWhole.v ===== *)
(** * Filling up teams: parties stay whole

    The scan over the queue keeps an invariant of its units: a player is in one of them
    only, with the ticket that was read, and a unit that is complete has the whole
    roster of its party. So has the group that is popped. *)

From stdpp Require Import base list gmap sorting strings.
From Stdlib Require Import ZArith Lia SpecFloat.
From S2P Require Import Prelude PartyMatch PartySelect PartyMatchThms.
Local Open Scope Z_scope.

(** The players seen of a unit. *)
Definition unit_ids (u : queueUnit) : list Z := match seed u with None => members u | Some _ => got u end.

(** The ticket of a player: [tk] are the tickets that were read. *)
Definition of_party (tk : gmap Z queueTicket) (s : queueTicket) (pid : Z) : Prop :=
  exists t, tk !! pid = Some t /\ PartyId t = PartyId s.
Definition on_roster (tk : gmap Z queueTicket) (s : queueTicket) (pid : Z) : Prop :=
  exists t, tk !! pid = Some t /\ PartyId t = PartyId s /\ PartyMembers t = PartyMembers s /\ pid ∈ PartyMembers s.

Definition unit_ok (tk : gmap Z queueTicket) (u : queueUnit) : Prop :=
  match seed u with
  | None => complete u = true /\ exists pid t, members u = [pid] /\ tk !! pid = Some t /\ PartyId t = ""%string
  | Some s =>
      PartyId s <> ""%string /\ Forall (of_party tk s) (got u) /\
      (malformed u = false -> Forall (on_roster tk s) (got u)) /\
      (complete u = true ->
        members u = PartyMembers s /\ NoDup (members u) /\ members u <> [] /\ members u ⊆ got u /\
        Forall (on_roster tk s) (members u))
  end.

Definition ticket_ok (qk : string) (t : queueTicket) : Prop :=
  State t = ticketStateQueued /\ (QueueKey t = ""%string \/ QueueKey t = qk).

Record pick_inv (units : list queueUnit) (seen : gset Z) (p : groupPicker) : Prop := {
  pi_distinct : NoDup (units ≫= unit_ids);
  pi_seen : forall pid, pid ∈ units ≫= unit_ids -> pid ∈ seen;
  pi_units : Forall (unit_ok (tickets p)) units;
  pi_tickets : map_Forall (fun _ t => ticket_ok (queueKey p) t) (tickets p) }.

Lemma unit_ok_tickets tk tk' u : tk ⊆ tk' -> unit_ok tk u -> unit_ok tk' u.
Proof.
  intros Hsub. unfold unit_ok.
  assert (forall s pid, of_party tk s pid -> of_party tk' s pid) as H1
    by (intros s pid (t & Ht & ?); exists t; split; [by eapply lookup_weaken|done]).
  assert (forall s pid, on_roster tk s pid -> on_roster tk' s pid) as H2
    by (intros s pid (t & Ht & ?); exists t; split; [by eapply lookup_weaken|done]).
  destruct (seed u) as [s|].
  - intros (Hid & Hg & Hm & Hc). split; [done|]. split; [by eapply Forall_impl; [exact Hg|auto]|]. split.
    + intros Hb. eapply Forall_impl; [exact (Hm Hb)|auto].
    + intros Hcm. destruct (Hc Hcm) as (? & ? & ? & ? & Hr). split_and!; try done. by eapply Forall_impl; [exact Hr|auto].
  - intros (Hc & pid & t & Hm & Ht & Hid). split; [done|]. exists pid, t. split_and!; [done|by eapply lookup_weaken|done].
Qed.

Lemma unit_ok_later tk u u' : later u u' -> unit_ok tk u -> unit_ok tk u'.
Proof.
  intros (Hm & Hs & Hg & Hb & Hc & _). unfold unit_ok. by rewrite Hm, Hs, Hg, Hb, Hc.
Qed.

Lemma unit_ids_later us vs : Forall2 later us vs -> vs ≫= unit_ids = us ≫= unit_ids.
Proof.
  induction 1 as [|u v us vs (Hm & Hs & Hg & _) _ IH]; csimpl; [done|]. rewrite IH. unfold unit_ids. by rewrite Hm, Hs, Hg.
Qed.

Lemma pick_inv_later us vs seen p p' :
  Forall2 later us vs -> tickets p' = tickets p -> queueKey p' = queueKey p -> pick_inv us seen p -> pick_inv vs seen p'.
Proof.
  intros Hl Ht Hk [Hd Hs Hu Htk]. split; rewrite ?Ht, ?Hk, ?(unit_ids_later _ _ Hl); try done.
  revert Hu. clear -Hl. induction Hl as [|u v us vs Huv _ IH]; [done|].
  intros [? ?]%Forall_cons. constructor; [by eapply unit_ok_later|auto].
Qed.

Lemma pick_inv_units_ok us seen p : pick_inv us seen p -> units_ok us.
Proof.
  intros [_ _ Hu _]. eapply Forall_impl; [exact Hu|]. intros u. unfold unit_ok, usable.
  destruct (seed u) as [s|].
  - intros (_ & _ & _ & Hc) Hus. apply Hc. by destruct (complete u).
  - intros (_ & pid & t & -> & _) _. done.
Qed.

(** *** A party is updated in its place *)
Lemma update_first_split {A} (f : A -> bool) (g : A -> A) l :
  existsb f l = true -> exists l1 x l2, l = l1 ++ x :: l2 /\ f x = true /\ update_first f g l = l1 ++ g x :: l2 /\
    find_first f l = Some x.
Proof.
  induction l as [|x l IH]; cbn; [done|]. destruct (f x) eqn:Hf; cbn.
  - intros _. exists [], x, l. done.
  - intros He. destruct (IH He) as (l1 & y & l2 & -> & Hy & -> & Hff). exists (x :: l1), y, l2. done.
Qed.

Lemma find_first_existsb {A} (f : A -> bool) l : existsb f l = false -> find_first f l = None.
Proof. induction l as [|x l IH]; cbn; [done|]. destruct (f x); [done|exact IH]. Qed.

(** [with_party] changes one unit of the party, which is there or new and empty. *)
Lemma with_party_split t f units :
  exists l1 u l2, with_party t f units = l1 ++ f u :: l2 /\ party_unit t units = u /\ is_party (PartyId t) u = true /\
    (units = l1 ++ u :: l2 \/ (u = new_party t /\ l2 = [] /\ units = l1)).
Proof.
  unfold with_party, party_unit. destruct (existsb (is_party (PartyId t)) units) eqn:He.
  - destruct (update_first_split _ f _ He) as (l1 & x & l2 & -> & Hx & -> & ->). exists l1, x, l2.
    split; [done|]. split; [done|]. split; [done|by left].
  - rewrite (find_first_existsb _ _ He). exists units, (new_party t), []. split; [done|]. split; [done|].
    split; [|by right]. unfold is_party. cbn. apply String.eqb_refl.
Qed.

Lemma new_party_ok tk t : PartyId t <> ""%string -> unit_ok tk (new_party t).
Proof. intros Hid. unfold unit_ok. cbn. split_and!; [done|constructor|constructor|done]. Qed.

Lemma samePlayerList_spec a b : samePlayerList a b = true -> a = b.
Proof.
  revert b. induction a as [|x a IH]; intros [|y b]; cbn; try done.
  intros [Hx Ha]%andb_true_iff. apply Z.eqb_eq in Hx as ->. f_equal. by apply IH.
Qed.

(** A full roster: as many distinct members as the roster has. *)
Lemma full_roster (l k : list Z) : NoDup l -> l ⊆ k -> (length k <= length l)%nat -> l ≡ₚ k.
Proof.
  intros Hl Hsub Hlen. apply submseteq_length_Permutation; [|done]. by apply NoDup_submseteq.
Qed.

Lemma join_ok tk idx pid t u :
  unit_ok tk u -> is_party (PartyId t) u = true -> tk !! pid = Some t -> NoDup (unit_ids u ++ [pid]) ->
  unit_ok tk (join_entry idx pid t u) /\ unit_ids (join_entry idx pid t u) = unit_ids u ++ [pid].
Proof.
  unfold unit_ok at 1, is_party, join_entry, unit_ids. destruct (seed u) as [s|] eqn:Hs; [|done].
  intros (Hid & Hg & Hm & Hc) Heq%String.eqb_eq Ht Hnd.
  set (bad := malformed u || bool_decide (PartyMembers s = []) || negb (containsPlayer (PartyMembers s) pid)
    || negb (samePlayerList (PartyMembers t) (PartyMembers s))).
  assert (of_party tk s pid) as Hof by (by exists t).
  assert (bad = false -> malformed u = false /\ PartyMembers s <> [] /\ on_roster tk s pid) as Hbad.
  { unfold bad. intros [[[Hb1 Hb2]%orb_false_iff Hb3]%orb_false_iff Hb4]%orb_false_iff. zbool.
    apply containsPlayer_spec in Hb3. apply samePlayerList_spec in Hb4. split_and!; [done|done|]. by exists t. }
  assert (Forall (of_party tk s) (got u ++ [pid])) as Hg' by (apply Forall_app; by repeat constructor).
  assert (bad = false -> Forall (on_roster tk s) (got u ++ [pid])) as Hm'
    by (intros (? & _ & ?)%Hbad; apply Forall_app; split; [by apply Hm|by constructor]).
  destruct (bad || _) eqn:Hlook.
  - unfold unit_ok. cbn. rewrite ?Hs. split; [|done]. split_and!; try done.
    intros Hcm. destruct (Hc Hcm) as (? & ? & ? & ? & ?). split_and!; try done. set_solver.
  - apply orb_false_iff in Hlook as [Hb Hlen]. apply Nat.ltb_ge in Hlen.
    destruct (Hbad Hb) as (_ & Hne & _). specialize (Hm' Hb).
    assert (got u ++ [pid] ⊆ PartyMembers s) as Hsub.
    { intros x Hx. rewrite Forall_forall in Hm'. by destruct (Hm' x Hx) as (? & _ & _ & _ & ?). }
    pose proof (full_roster _ _ Hnd Hsub Hlen) as Hperm.
    unfold unit_ok. cbn. rewrite ?Hs. split; [|done]. split_and!; try done. intros _.
    split_and!; [done|by rewrite <- Hperm|done|by rewrite Hperm|by rewrite <- Hperm].
Qed.

Lemma unit_ids_split l1 u l2 : (l1 ++ u :: l2) ≫= unit_ids ≡ₚ unit_ids u ++ ((l1 ++ l2) ≫= unit_ids).
Proof. rewrite !bind_app. csimpl. by rewrite !app_assoc, (Permutation_app_comm _ (unit_ids u)). Qed.

(** The units with one of them replaced, or made. *)
Lemma pick_inv_replace units units' seen p l1 u l2 v seen' new :
  pick_inv units seen p -> units' = l1 ++ v :: l2 ->
  (units = l1 ++ u :: l2 \/ (units = l1 /\ l2 = [] /\ unit_ids u = [])) ->
  unit_ok (tickets p) v -> unit_ids v ≡ₚ unit_ids u ++ new -> NoDup new ->
  (forall x, x ∈ new -> x ∉ seen /\ x ∈ seen') -> seen ⊆ seen' ->
  pick_inv units' seen' p.
Proof.
  intros [Hd Hs Hu Htk] -> Hunits Hv Hids Hnew Hfresh Hsub.
  assert ((l1 ++ v :: l2) ≫= unit_ids ≡ₚ new ++ (units ≫= unit_ids)) as Hperm.
  { rewrite unit_ids_split, Hids.
    destruct Hunits as [-> |(-> & -> & Hu0)]; [rewrite unit_ids_split|rewrite Hu0, app_nil_r];
      by rewrite ?app_assoc, ?(Permutation_app_comm new), <- ?app_assoc. }
  split; [| | |done].
  - rewrite Hperm. apply NoDup_app. split_and!; [done| |done]. intros x Hx Hin. destruct (Hfresh _ Hx) as [Hno _]. auto.
  - intros pid. rewrite Hperm, elem_of_app. intros [Hx|Hx]; [by apply Hfresh|]. apply Hsub. auto.
  - destruct Hunits as [-> |(-> & -> & _)]; rewrite ?Forall_app in *; rewrite ?Forall_cons in *; naive_solver.
Qed.

Lemma join_inv units seen p idx pid t :
  pick_inv units seen p -> tickets p !! pid = Some t -> PartyId t <> ""%string -> pid ∉ seen ->
  pick_inv (with_party t (join_entry idx pid t) units) ({[pid]} ∪ seen) p.
Proof.
  intros Hinv Ht Hid Hfresh. destruct (with_party_split t (join_entry idx pid t) units) as (l1 & u & l2 & Hw & _ & Hp & Hcase).
  pose proof Hinv as [Hd Hs Hu _].
  assert (unit_ok (tickets p) u /\ NoDup (unit_ids u) /\ (forall x, x ∈ unit_ids u -> x ∈ seen)) as (Hok & Hnd & Hin).
  { destruct Hcase as [-> |(-> & _)]; [|split_and!; [by apply new_party_ok|constructor|set_solver]].
    rewrite unit_ids_split in Hd. apply NoDup_app in Hd as (? & _). rewrite Forall_app, Forall_cons in Hu.
    split_and!; [naive_solver|done|]. intros x Hx. apply Hs. rewrite unit_ids_split, elem_of_app. by left. }
  destruct (join_ok (tickets p) idx pid t u Hok Hp Ht) as [Hok' Hids].
  { apply NoDup_app. split_and!; [done|set_solver|apply NoDup_singleton]. }
  eapply (pick_inv_replace _ _ _ _ l1 u l2 _ _ [pid] Hinv Hw);
    [|done|by rewrite Hids|apply NoDup_singleton|set_solver|set_solver].
  destruct Hcase as [? |(-> & -> & ->)]; [by left|by right].
Qed.

Lemma defer_inv units seen p idx t :
  pick_inv units seen p -> PartyId t <> ""%string -> pick_inv (with_party t (defer_entry idx) units) seen p.
Proof.
  intros Hinv Hid. destruct (with_party_split t (defer_entry idx) units) as (l1 & u & l2 & Hw & _ & _ & Hcase).
  pose proof Hinv as [_ _ Hu _].
  assert (unit_ok (tickets p) u) as Hok.
  { destruct Hcase as [-> |(-> & _)]; [|by apply new_party_ok]. rewrite Forall_app, Forall_cons in Hu. naive_solver. }
  eapply (pick_inv_replace _ _ _ _ l1 u l2 _ _ [] Hinv Hw); [|exact Hok|by rewrite app_nil_r|constructor|set_solver|done].
  destruct Hcase as [? |(-> & -> & ->)]; [by left|by right].
Qed.

Lemma solo_inv units seen p idx pid t :
  pick_inv units seen p -> tickets p !! pid = Some t -> PartyId t = ""%string -> pid ∉ seen ->
  pick_inv (units ++ [solo idx pid]) ({[pid]} ∪ seen) p.
Proof.
  intros Hinv Ht Hid Hfresh.
  eapply (pick_inv_replace _ _ _ _ units (new_party t) [] (solo idx pid) _ [pid] Hinv eq_refl);
    [by right| |done|apply NoDup_singleton|set_solver|set_solver].
  split; [done|]. by exists pid, t.
Qed.

Section round.
Context {W : Type} `{MatchWorld W}.
#[local] Set Default Proof Using "Type*".

Definition grows (p p' : groupPicker) : Prop :=
  queueKey p' = queueKey p /\ tickets p ⊆ tickets p' /\ length (entries p') = length (entries p) /\
  (map_Forall (fun _ t => ticket_ok (queueKey p) t) (tickets p) ->
   map_Forall (fun _ t => ticket_ok (queueKey p') t) (tickets p')).

Lemma grows_drop idx p (w : W) p' : tickets p' = tickets p -> queueKey p' = queueKey p -> length (entries p') = length (entries p) ->
  grows p (drop idx p' w).1.
Proof.
  intros Ht Hk He. destruct (drop_tickets idx p' w) as [Ht' Hk']. unfold grows. rewrite Ht', Hk', Ht, Hk.
  split_and!; [done|done| |done]. unfold drop. destruct (entries p' !! idx); done.
Qed.

Lemma grows_put p q pid t :
  tickets q = tickets p -> queueKey q = queueKey p -> length (entries q) = length (entries p) ->
  tickets p !! pid = None -> ticket_ok (queueKey p) t -> grows p (put_ticket pid t q).
Proof.
  intros Ht Hk He Hn Hok. unfold grows. cbn. rewrite Ht, Hk. split_and!; [done|by apply insert_subseteq|done|].
  intros Hall. by apply map_Forall_insert_2.
Qed.

Lemma grows_refl p : grows p p.
Proof. by unfold grows. Qed.

Lemma ticket_read_ok qk t :
  negb (String.eqb (State t) ticketStateQueued) = false ->
  negb (String.eqb (QueueKey t) "") && negb (String.eqb (QueueKey t) qk) = false -> ticket_ok qk t.
Proof.
  intros Hs Hk. split; [by apply negb_false_iff, String.eqb_eq in Hs|].
  apply andb_false_iff in Hk as [Hk|Hk]; apply negb_false_iff, String.eqb_eq in Hk; auto.
Qed.

Lemma validate_grows idx p (w : W) p' w' r :
  validate idx p w = (p', w', r) ->
  grows p p' /\ (r = Ok true -> is_Some (tickets p' !! from_option playerId 0 (entries p' !! idx))).
Proof.
  unfold validate. destruct (entries p !! idx) as [e|] eqn:He; [|by intros [= <- <- <-]; split; [apply grows_refl|]].
  assert (forall q w0, tickets q = tickets p -> queueKey q = queueKey p -> length (entries q) = length (entries p) ->
    (let '(p, w) := drop idx q w0 in (p, w, Ok false)) = (p', w', r) ->
    grows p p' /\ (r = Ok true -> is_Some (tickets p' !! from_option playerId 0 (entries p' !! idx)))) as Hdrop.
  { intros q w0 Ht Hk Hl. pose proof (grows_drop idx p w0 q Ht Hk Hl) as Hg.
    destruct (drop idx q w0) as [q' w1]. by intros [= <- <- <-]. }
  case_bool_decide; [by intros [= <- <- <-]; split; [apply grows_refl|]|].
  destruct (playerId e =? 0); [by apply Hdrop|].
  destruct (bool_decide (is_Some (tickets p !! playerId e))) eqn:Hsome; zbool.
  { intros [= <- <- <-]. split; [apply grows_refl|]. intros _. by rewrite He. }
  case_bool_decide; [by intros [= <- <- <-]; split; [apply grows_refl|]|].
  destruct (w_loadTicket w (playerId e)) as [w1 [[t|]|x]]; [|by apply Hdrop|by intros [= <- <- <-]; split; [apply grows_refl|]].
  destruct (negb (String.eqb (State t) _)) eqn:Hst; [by apply Hdrop|].
  destruct (negb (String.eqb (QueueKey t) "") && _) eqn:Hqk; [by apply Hdrop|].
  destruct (w_battleLock w1 (playerId e)) as [w2 [v|x]]; [|by intros [= <- <- <-]; split; [apply grows_refl|]].
  assert (tickets p !! playerId e = None) as Hnone by by apply eq_None_not_Some.
  pose proof (ticket_read_ok _ _ Hst Hqk) as Hok.
  destruct (classifyBattleLock v t).
  - destruct (hasScore e).
    + intros [= <- <- <-]. split; [by apply grows_put|]. intros _. cbn. rewrite He. cbn. by rewrite lookup_insert_eq.
    + destruct (w_zadd w2 (raw e) (Rating t)) as [w3 [u|x]]; [|by intros [= <- <- <-]; split; [apply grows_refl|]].
      intros [= <- <- <-]. split; [apply grows_put; try done; apply length_alter|].
      intros _. cbn. rewrite list_lookup_alter_eq, He. cbn. by rewrite lookup_insert_eq.
  - intros [= <- <- <-]. split; [|done]. by unfold grows.
  - by apply Hdrop.
Qed.

Lemma pick_inv_grows units seen p p' : grows p p' -> pick_inv units seen p -> pick_inv units seen p'.
Proof.
  intros (Hk & Hsub & _ & Hall) [Hd Hs Hu Ht]. split; [done|done| |auto].
  eapply Forall_impl; [exact Hu|]. intros u. by apply unit_ok_tickets.
Qed.

(** What a round that found a group ends with. *)
Definition found (required : Z) (units : list queueUnit) (p : groupPicker) (group : list nat) : Prop :=
  (exists seen, pick_inv units seen p) /\ NoDup group /\
  Forall (fun i => exists u, units !! i = Some u /\ complete u = true) group /\
  Z.of_nat (length (group_members units group)) = required.

Lemma pick_loop_ok deadline required idxs units seen p (w : W) units' p' w' r :
  pick_inv units seen p -> pick_loop deadline required idxs units seen p w = (units', p', w', r) ->
  queueKey p' = queueKey p /\
  forall group, r = Ok (Some group) -> found required units' p' group.
Proof.
  revert units seen p w. induction idxs as [|idx idxs IH]; intros units seen p w Hinv; cbn [pick_loop].
  { by intros [= <- <- <- <-]. }
  case_bool_decide; [by apply IH|].
  destruct (validate idx p w) as [[p1 w1] r1] eqn:Hv. destruct (validate_grows _ _ _ _ _ _ Hv) as [Hg Hsome].
  pose proof (pick_inv_grows _ _ _ _ Hg Hinv) as Hinv1. destruct Hg as (Hk & _).
  set (pid := from_option playerId 0 (entries p1 !! idx)) in *.
  destruct r1 as [[]|x]; [| |by intros [= <- <- <- <-]].
  2: { intros Hl. rewrite <- Hk. refine (IH _ _ _ _ _ Hl).
       destruct (deferred_ p1 !! pid) as [t|]; [|done]. destruct (String.eqb (PartyId t) "") eqn:Hid; [done|].
       apply String.eqb_neq in Hid. by apply defer_inv. }
  case_bool_decide as Hseen; [intros Hl; rewrite <- Hk; by apply (IH _ _ _ _ Hinv1 Hl)|].
  destruct (Hsome eq_refl) as [t Ht]. rewrite Ht. cbv zeta.
  match goal with |- context [selectCheckedUnits _ _ ?l _ _] => set (us := l) end.
  assert (pick_inv us ({[pid]} ∪ seen) p1) as Hinv2.
  { subst us. destruct (String.eqb (PartyId t) "") eqn:Hid.
    - apply String.eqb_eq in Hid. by eapply solo_inv.
    - apply String.eqb_neq in Hid. by apply join_inv. }
  clearbody us. destruct (negb _); [intros Hl; rewrite <- Hk; by apply (IH _ _ _ _ Hinv2 Hl)|].
  pose proof (pick_inv_units_ok _ _ _ Hinv2) as Hok. unfold selectCheckedUnits.
  destruct (select_checked_ends (S (length us)) deadline required us p1 w1 Hok) as (us2 & p2 & w2 & r2 & -> & Hl2 & Ht2 & Hk2 & Hgr).
  { unfold usable_count. pose proof (keep_if_length usable us). lia. }
  pose proof (pick_inv_later _ _ _ _ _ Hl2 Ht2 Hk2 Hinv2) as Hinv3.
  destruct r2 as [group|].
  - intros [= <- <- <- <-]. split; [congruence|]. intros ? [= <-].
    destruct (Hgr _ eq_refl) as (? & ? & ?). split; [by eexists|done].
  - intros Hl. rewrite <- Hk, <- Hk2. by apply (IH _ _ _ _ Hinv3 Hl).
Qed.

Lemma elem_of_group_units units group u : u ∈ group_units units group <-> exists i, i ∈ group /\ units !! i = Some u.
Proof. unfold group_units. rewrite list_elem_of_omap. naive_solver. Qed.

Lemma bind_infix {A B} (f : A -> list B) l x : x ∈ l -> exists l1 l2, l ≫= f = l1 ++ f x ++ l2.
Proof.
  intros (k1 & k2 & ->)%list_elem_of_split. exists (k1 ≫= f), (k2 ≫= f). by rewrite bind_app.
Qed.

(** Units at different positions have different players. *)
Lemma units_disjoint units i j u v x :
  NoDup (units ≫= unit_ids) -> units !! i = Some u -> units !! j = Some v -> i <> j ->
  x ∈ unit_ids u -> x ∈ unit_ids v -> False.
Proof.
  intros Hnd Hi Hj Hne Hu Hv. pose proof (delete_Permutation _ _ _ Hi) as Hp.
  rewrite Hp in Hnd. csimpl in Hnd. apply NoDup_app in Hnd as (_ & Hd & _). apply (Hd x Hu).
  apply list_elem_of_bind. exists v. split; [done|]. by eapply elem_of_delete_ne.
Qed.

Lemma complete_members tk u :
  unit_ok tk u -> complete u = true -> NoDup (unit_ids u) -> NoDup (members u) /\ members u ⊆ unit_ids u.
Proof.
  unfold unit_ok, unit_ids. destruct (seed u) as [s|]; [|by intros].
  intros (_ & _ & _ & Hc) Hcm _. by destruct (Hc Hcm) as (_ & ? & _ & ? & _).
Qed.

Lemma found_distinct required units p group : found required units p group -> NoDup (group_members units group).
Proof.
  intros ((seen & [Hd _ Hu _]) & Hnd & Hall & _). unfold group_members, group_units.
  induction Hnd as [|i group Hi Hnd IH]; csimpl; [constructor|].
  apply Forall_cons in Hall as [(u & Hui & Hcu) Hall]. rewrite Hui. csimpl. specialize (IH Hall).
  assert (forall j v, units !! j = Some v -> NoDup (unit_ids v)) as Hone.
  { intros j v Hv. pose proof (delete_Permutation _ _ _ Hv) as Hp. rewrite Hp in Hd. csimpl in Hd. by apply NoDup_app in Hd as (? & _). }
  rewrite Forall_lookup in Hu.
  destruct (complete_members _ _ (Hu _ _ Hui) Hcu (Hone _ _ Hui)) as [Hm Hsub].
  apply NoDup_app. split_and!; [done| |done]. intros x Hx (v & Hxv & Hv)%list_elem_of_bind.
  change (v ∈ group_units units group) in Hv. apply elem_of_group_units in Hv as (j & Hj & Hvj).
  rewrite Forall_forall in Hall. destruct (Hall j Hj) as (v' & Hv' & Hcv). assert (v' = v) as -> by congruence.
  destruct (complete_members _ _ (Hu _ _ Hvj) Hcv (Hone _ _ Hvj)) as [_ Hsubv].
  apply (units_disjoint units i j u v x Hd Hui Hvj); [by intros ->|auto|auto].
Qed.

Lemma found_whole required units p group pid :
  found required units p group -> pid ∈ group_members units group ->
  exists t, tickets p !! pid = Some t /\ ticket_ok (queueKey p) t /\
    (PartyId t <> ""%string ->
      (exists l1 l2, group_members units group = l1 ++ PartyMembers t ++ l2) /\
      forall q, q ∈ PartyMembers t -> exists t', tickets p !! q = Some t' /\ PartyId t' = PartyId t /\ PartyMembers t' = PartyMembers t).
Proof.
  intros ((seen & [_ _ Hu Htk]) & _ & Hall & _) (u & Hpu & Hin)%list_elem_of_bind.
  pose proof (bind_infix members _ _ Hin) as (l1 & l2 & Hl).
  apply elem_of_group_units in Hin as (i & Hi & Hui).
  rewrite Forall_forall in Hall. destruct (Hall i Hi) as (u' & Hu' & Hc). assert (u' = u) as -> by congruence.
  rewrite Forall_lookup in Hu. specialize (Hu _ _ Hui). unfold unit_ok in Hu. destruct (seed u) as [s|].
  - destruct Hu as (_ & _ & _ & Hcm). destruct (Hcm Hc) as (Hm & _ & _ & _ & Hr).
    rewrite Forall_forall in Hr. destruct (Hr _ Hpu) as (t & Ht & Hid & Hpm & _).
    exists t. split; [done|]. split; [by eapply Htk|]. intros _. split.
    + exists l1, l2. unfold group_members. rewrite Hpm, <- Hm. exact Hl.
    + intros q Hq. rewrite Hpm, <- Hm in Hq. destruct (Hr _ Hq) as (t' & ? & ? & ? & _). exists t'. split_and!; congruence.
  - destruct Hu as (_ & pid' & t & Hm & Ht & Hid). rewrite Hm in Hpu. apply list_elem_of_singleton in Hpu as ->.
    exists t. split; [done|]. split; [by eapply Htk|]. intros Hne. by destruct Hne.
Qed.

Lemma pickUnits_found required p (w : W) units p' w' group :
  tickets p = ∅ -> pickUnits required p w = (units, p', w', Ok (Some group)) ->
  queueKey p' = queueKey p /\ found required units p' group.
Proof.
  intros Hempty. unfold pickUnits.
  destruct (pick_loop _ required (seq 0 (length (entries p))) [] ∅ p w) as [[[u1 p1] w1] r1] eqn:Hl.
  destruct (pick_loop_ok _ _ _ _ _ _ _ _ _ _ _ (ltac:(split; csimpl; [constructor|set_solver|constructor|by rewrite Hempty])
    : pick_inv [] ∅ p) Hl) as [Hk Hf].
  destruct r1 as [[g|]|x]; [intros [= <- <- <- <-]; split; [done|by apply Hf]| |done].
  by destruct (evictIncompleteParties u1 p1 w1) as [[u2 p2] w2].
Qed.

(** The shape of a group that is popped. Whatever Redis and the team service answer
    meanwhile, it has exactly the required number of players, nobody twice, and one
    ticket each; there is an assignment of tickets of this queue with these texts in
    which a player of a party stands with the whole roster of his party, in its order
    and side by side. The statement does not relate that assignment to the answers
    of Redis. *)
Theorem popped_group_is_whole required p (w w' : W) ids tks :
  tickets p = ∅ -> popUnits required p w = (w', Some (ids, tks)) ->
  Z.of_nat (length ids) = required /\ NoDup ids /\ tks.*1 = ids /\
  exists read : gmap Z queueTicket, forall pid, pid ∈ ids -> exists t,
    read !! pid = Some t /\ (pid, Ticket t) ∈ tks /\ ticket_ok (queueKey p) t /\
    (PartyId t <> ""%string ->
      (exists l1 l2, ids = l1 ++ PartyMembers t ++ l2) /\
      forall q, q ∈ PartyMembers t -> exists t', read !! q = Some t' /\ PartyId t' = PartyId t /\ PartyMembers t' = PartyMembers t).
Proof.
  intros Hempty. unfold popUnits.
  destruct (pickUnits required p w) as [[[units p1] w1] [[group|]|x]] eqn:Hp; [|done|done].
  destruct (pickUnits_found _ _ _ _ _ _ _ Hempty Hp) as [Hk Hf].
  destruct (w_removeQueueMembers w1 (queueKey p1) (group_members units group)) as [w2 [removed|x]]; [|done].
  split_if; [done|]. intros [= <- <- <-]. split; [by apply Hf|]. split; [by eapply found_distinct|].
  split; [rewrite <- list_fmap_compose; by apply list_fmap_id|].
  exists (tickets p1). intros pid Hpid. destruct (found_whole _ _ _ _ _ Hf Hpid) as (t & Ht & Hok & Hw).
  exists t. split; [done|]. split; [|split; [by rewrite <- Hk|done]].
  apply list_elem_of_fmap. exists pid. by rewrite Ht.
Qed.
End round.

(** ** A sample: two single players and a party of two, for a team of three *)
Definition ex_ticket (name : string) (party : string) (roster : list Z) : queueTicket :=
  mkTicket name "queued" 1000 "q3" (S754_zero false) (if String.eqb party "" then 0 else 9) party roster 0.

Definition ex_tickets : gmap Z queueTicket :=
  {[ 1 := ex_ticket "t1" "" []; 2 := ex_ticket "t2" "p" [3; 2]; 3 := ex_ticket "t3" "p" [3; 2]; 4 := ex_ticket "t4" "" [] ]}.

(** A world without change: the tickets, and a team service that finds every party in order. *)
#[local] Instance ex_world : MatchWorld (gmap Z queueTicket) := {|
  w_now _ := 0; w_loadTicket w pid := (w, Ok (w !! pid)); w_battleLock w _ := (w, Ok ""%string);
  w_deleteTicket w pid := delete pid w; w_cancelTicketIfQueued w pid _ := (delete pid w, Ok true);
  w_removeQueueMembers w _ ids := (w, Ok ids); w_removeRaw w _ _ := w; w_zadd w _ _ := (w, Ok ());
  w_versions w _ _ := (w, Ok []); w_removeVersioned w _ ids _ := (w, Ok ids); w_push_front w _ _ := (w, Ok ());
  w_port _ := true; w_CheckParty w _ _ := (w, Ok (PartyEndNone, 0)); w_claim w _ _ _ := w; w_notify w _ _ _ := w |}.

Definition ex_picker : groupPicker :=
  mkPicker "q3" [mkEntry "1" 1 true; mkEntry "2" 2 true; mkEntry "3" 3 true; mkEntry "4" 4 true] ∅ ∅ ∅.

Lemma popped_group_is_whole_witness :
  let ids := [1; 3; 2] in let tks := [(1, "t1"%string); (3, "t3"%string); (2, "t2"%string)] in
  popUnits 3 ex_picker ex_tickets = (ex_tickets, Some (ids, tks)) /\ Z.of_nat (length ids) = 3 /\ NoDup ids.
Proof.
  cbv zeta. assert (Hpop : popUnits 3 ex_picker ex_tickets =
    (ex_tickets, Some ([1; 3; 2], [(1, "t1"%string); (3, "t3"%string); (2, "t2"%string)]))) by (vm_compute; reflexivity).
  split; [exact Hpop|]. assert (He : tickets ex_picker = ∅) by reflexivity.
  destruct (popped_group_is_whole 3 ex_picker ex_tickets ex_tickets [1; 3; 2] _ He Hpop) as (H1 & H2 & _).
  split; [exact H1|exact H2].
Defined.

(** Parties of two, two and one. *)
Definition ex_unit (ids : list Z) : queueUnit := mkUnit ids None [] [] false true false false false.
Definition ex_units : list queueUnit := [ex_unit [1; 2]; ex_unit [3; 4]; ex_unit [5]].

Lemma ex_units_ok : units_ok ex_units.
Proof. repeat constructor; done. Qed.

Lemma select_is_first_choice_witness :
  selectUnits ex_units 3 = first_choice ex_units 3 /\ first_choice ex_units 3 = Some [0; 2]%nat.
Proof.
  split; [|vm_compute; reflexivity]. apply (select_is_first_choice ex_units 3 ex_units_ok). reflexivity.
Defined.

Lemma selectCheckedUnits_ends_witness :
  exists units' p' w' r, selectCheckedUnits 100 3 ex_units ex_picker ex_tickets = Some (units', p', w', r).
Proof. exact (selectCheckedUnits_ends 100 3 ex_units ex_picker ex_tickets ex_units_ok). Defined.

Definition ex_team (zone : Z) (players : list Z) (at_ : Z) : globalTeamUnit :=
  mkTeamUnit ((fun p => mkTicketRecord p zone at_) <$> players) (match players with p :: _ :: _ => Some (at_, p) | _ => None end).

Lemma pack_finds_whole_units_witness :
  let anchor := ex_team 7 [1; 2] 10 in let peers := [ex_team 7 [3; 4] 11; ex_team 7 [5] 12; ex_team 8 [6] 9] in
  packTeamUnits anchor peers 3 7 = Some [anchor; ex_team 7 [5] 12] /\ packTeamUnits anchor peers 3 7 <> None.
Proof.
  cbv zeta. split; [vm_compute; reflexivity|].
  apply (proj2 (pack_finds_whole_units (ex_team 7 [1; 2] 10) [ex_team 7 [3; 4] 11; ex_team 7 [5] 12; ex_team 8 [6] 9] 3 7))
    with (rest := [ex_team 7 [5] 12]).
  - vm_compute. repeat constructor; set_solver.
  - apply submseteq_cons, submseteq_skip, submseteq_nil_l.
  - repeat constructor.
  - reflexivity.
  - vm_compute. discriminate.
Defined.
