(* ===== verification/TeamStore.v ===== *)
(** * The SQL team store

    The durable state of the team service and the transactions on it
    ([sql_store.go], [sql_mutate.go], [sql_action.go], [sql_maintenance.go],
    [sql_recovery.go], [validateCommitSets] of [store.go] and the role checks of
    [authority/team_identity.go] and [authority/team_route.go]). A transaction
    maps a database to a result and the database at its commit; an error rolls
    back, so it carries no database. A stored protobuf is its decoded value. *)

From stdpp Require Import base list gmap sorting strings.
From Stdlib Require Import ZArith Lia.
From S2P Require Import Prelude TeamRecord TeamRules RoleRoute TeamView.
Local Open Scope Z_scope.
Local Open Scope go_scope.

Definition MaxUint64 : Z := u64_mod - 1.
Definition TeamIdleTTLSeconds : Z := 86400.
Definition CommitRetries : nat := 3.

(** ** Rows *)
Record TeamOriginalRole := mkOriginal {
  og_player_id : Z; og_owner_account : string; og_owner_revision : Z }.

#[global] Instance TeamOriginalRole_eq_dec : EqDecision TeamOriginalRole.
Proof. solve_decision. Defined.

Record TeamConsentOriginal := mkConsent {
  co_player_id : Z; co_initiator : option TeamOriginalRole; co_recipient : option TeamOriginalRole }.

#[global] Instance TeamConsentOriginal_eq_dec : EqDecision TeamConsentOriginal.
Proof. solve_decision. Defined.

Record TeamAuthorityData := mkData {
  ad_record : option TeamRecord; ad_members : list TeamOriginalRole;
  ad_applications : list TeamConsentOriginal; ad_invites : list TeamConsentOriginal }.

#[global] Instance TeamAuthorityData_eq_dec : EqDecision TeamAuthorityData.
Proof. solve_decision. Defined.

Definition emptyData : TeamAuthorityData := mkData None [] [] [].

Record sqlTeamRow := mkRow {
  row_version : Z; row_idleExpires : Z; row_state : Z; row_data : TeamAuthorityData }.

(** [TeamResponse] as the mutation path fills it: the tip and the view. *)
Record TeamResponse := mkResponse {
  rs_ErrorMessage : option (Z * option Z); rs_Team : option TeamView }.

(** A row of [team_action_receipt]. *)
Record ActionReceipt := mkReceipt {
  ar_method : OpKind; ar_payload : string; ar_owner_account : string; ar_owner_rev : Z;
  ar_result : TeamResponse; ar_created_ms : Z }.

(** The intent a write request carries through its context. *)
Record sqlAction := mkAction {
  ac_actor : TeamOriginalRole; ac_high : Z; ac_low : Z; ac_method : OpKind; ac_payload : string;
  ac_committedResponse : option TeamResponse; ac_replayed : bool }.

Definition set_committed (a : sqlAction) (r : option TeamResponse) (replayed : bool) : sqlAction :=
  mkAction (ac_actor a) (ac_high a) (ac_low a) (ac_method a) (ac_payload a) r replayed.

Definition receipt_key (a : sqlAction) : Z * Z * Z := (og_player_id (ac_actor a), ac_high a, ac_low a).

(** ** Bindings and outcomes *)
Inductive bindMode := bindModeCaller | bindModeTarget | bindModeCreate.

#[global] Instance bindMode_eq_dec : EqDecision bindMode.
Proof. solve_decision. Defined.

Record Binding := mkBinding { bd_mode : bindMode; bd_playerId : Z; bd_teamId : Z }.

Definition BindCaller (playerId expectedTeamId : Z) : Binding := mkBinding bindModeCaller playerId expectedTeamId.
Definition BindTarget (playerId teamId : Z) : Binding := mkBinding bindModeTarget playerId teamId.
Definition BindCreate (playerId newTeamId : Z) : Binding := mkBinding bindModeCreate playerId newTeamId.

Inductive Outcome :=
  | OutcomeCommitted | OutcomeUnchanged | OutcomeRejected | OutcomeNotBound | OutcomeRecordMissing.

#[global] Instance Outcome_eq_dec : EqDecision Outcome.
Proof. solve_decision. Defined.

Record MutateResult := mkResult {
  mr_Outcome : Outcome; mr_Code : Z; mr_CodeParam : Z; mr_Snapshot : Snapshot;
  mr_Decision : Decision; mr_Commit : option CommitResult; mr_Conflicts : Z }.

Definition emptySnapshot : Snapshot := mkSnapshot 0 0 0 0 0 None 0 0.

(** [MutateResult{Outcome, Code, CodeParam}] *)
Definition resultOf (o : Outcome) (code param : Z) (snap : Snapshot) (d : Decision)
    (commit : option CommitResult) : MutateResult := mkResult o code param snap d commit 0.

(** ** Errors *)
Definition ErrOriginalPlayer : error := "ErrOriginalPlayer"%string.
Definition ErrTeamRoute : error := "ErrTeamRoute"%string.
Definition errTeamIntentConflict : error := "errTeamIntentConflict"%string.
Definition ErrMembersMissing : error := "team: original members missing"%string.
Definition ErrMembersDiffer : error := "team: original members differ from the roster"%string.
Definition ErrNoIntent : error := "team: roster write without a stable intent"%string.
Definition ErrRowDamaged : error := "team: SQL row version or identity mismatch"%string.
Definition ErrNewMember : error := "team: new member without an original"%string.
Definition ErrConsent : error := "team: consent original missing"%string.
Definition ErrVersionExhausted : error := "team: version exhausted"%string.
Definition ErrEpochExhausted : error := "team: epoch exhausted"%string.
Definition ErrIndexMismatch : error := "team: SQL member index mismatch"%string.
Definition ErrDuplicateKey : error := "Error 1062: duplicate entry"%string.

(** ** The database *)
Section store.
Context {Q : Type} `{!LaunchQueue Q}.

Record TeamDB := mkDB {
  td_roles : RoleDB;
  td_team : gmap Z sqlTeamRow;          (** team_authority by team_id *)
  td_member : gmap Z IndexEntry;        (** team_membership by player_id *)
  td_invite : gmap (Z * Z) Z;           (** team_invite_index by (invitee, team): expires_ms *)
  td_application : gmap (Z * Z) Z;      (** team_application_index by (applicant, team): expires_ms *)
  td_receipt : gmap (Z * Z * Z) ActionReceipt;
  td_queue : Q }.

Definition set_roles (db : TeamDB) (r : RoleDB) : TeamDB :=
  mkDB r (td_team db) (td_member db) (td_invite db) (td_application db) (td_receipt db) (td_queue db).
Definition set_receipt (db : TeamDB) (m : gmap (Z * Z * Z) ActionReceipt) : TeamDB :=
  mkDB (td_roles db) (td_team db) (td_member db) (td_invite db) (td_application db) m (td_queue db).
Definition set_team (db : TeamDB) (m : gmap Z sqlTeamRow) : TeamDB :=
  mkDB (td_roles db) m (td_member db) (td_invite db) (td_application db) (td_receipt db) (td_queue db).
Definition set_invite_index (db : TeamDB) (m : gmap (Z * Z) Z) : TeamDB :=
  mkDB (td_roles db) (td_team db) (td_member db) m (td_application db) (td_receipt db) (td_queue db).

(** ** Reads *)

(** A nil record reads as the zero message. *)
Definition record_team_id (r : option TeamRecord) : Z := default 0 (tr_team_id <$> r).
Definition record_leader (r : option TeamRecord) : Z := default 0 (tr_leader_id <$> r).
Definition record_applications (r : option TeamRecord) : list TeamApplicationRecord :=
  default [] (tr_applications <$> r).

Definition loadSQLTeam (db : TeamDB) (teamID : Z) : res sqlTeamRow :=
  match td_team db !! teamID with
  | None => Ok (mkRow 0 0 0 emptyData)
  | Some row =>
      if (row_version row =? 0) || (row_state row <? 1) || (2 <? row_state row)
         || ((row_state row =? 1) && negb (record_team_id (ad_record (row_data row)) =? teamID))
      then Err ErrRowDamaged
      else if row_state row =? 2
      then Ok (mkRow (row_version row) (row_idleExpires row) 2 emptyData)
      else Ok row
  end.

Definition loadSQLMembership (db : TeamDB) (player : Z) : IndexEntry :=
  default (mkIndex 0 0) (td_member db !! player).

Definition sqlTeamSnapshot (player teamID stamp : Z) (index : IndexEntry) (row : sqlTeamRow) : Snapshot :=
  let ttl := if negb (row_state row =? 1) then -2
             else if stamp <? row_idleExpires row then (row_idleExpires row - stamp) / 1000 else 0 in
  mkSnapshot player (ix_TeamId index) (ix_Epoch index) teamID (row_version row)
    (if row_state row =? 1 then ad_record (row_data row) else None) ttl stamp.

(** [proto.Equal] of the data is equality of the values. *)
Definition sameSQLTeam (a b : sqlTeamRow) : bool :=
  (row_version a =? row_version b) && (row_state a =? row_state b)
  && bool_decide (row_data a = row_data b).

(** ** Originals *)
Definition consentByPlayer (consents : list TeamConsentOriginal) (player : Z) : option TeamConsentOriginal :=
  find_first (fun c => co_player_id c =? player) consents.

Definition originalByPlayer (originals : list TeamOriginalRole) (player : Z) : option TeamOriginalRole :=
  find_first (fun o => og_player_id o =? player) originals.

(** A nil role reads as the zero message, which [CaptureTeamOriginals] refuses. *)
Definition role_of (o : option TeamOriginalRole) : TeamOriginalRole := default (mkOriginal 0 ""%string 0) o.

Definition mutationOriginals (data : TeamAuthorityData) (op : Op) : res (list TeamOriginalRole) :=
  let members := default [] (tr_members <$> ad_record data) in
  if negb (bool_decide (length (ad_members data) = length members)) then Err ErrMembersMissing
  else if existsb (fun m => bool_decide (originalByPlayer (ad_members data) (tm_player_id m) = None)) members
  then Err ErrMembersDiffer
  else
    let consent :=
      match Kind op with
      | OpHandleApplication => consentByPlayer (ad_applications data) (Target op)
      | OpRespondInvite => consentByPlayer (ad_invites data) (Caller op)
      | _ => None
      end in
    Ok (ad_members data ++
        match consent with Some c => [role_of (co_initiator c); role_of (co_recipient c)] | None => [] end).

(** The role the request's context carries, or a bare id. *)
Definition originalPlayer (identity : option TeamOriginalRole) (player : Z) : TeamOriginalRole :=
  match identity with
  | Some o => if og_player_id o =? player then o else mkOriginal player ""%string 0
  | None => mkOriginal player ""%string 0
  end.

Definition role_incomplete (o : TeamOriginalRole) : bool :=
  negb (ValidAccount (og_owner_account o)) || (og_owner_revision o =? 0).

(** One turn of the loop that builds [byPlayer]. *)
Definition collect_original (byPlayer : gmap Z TeamOriginalRole) (role : TeamOriginalRole)
    : res (gmap Z TeamOriginalRole) :=
  if (og_player_id role =? 0) || role_incomplete role then Err ErrOriginalPlayer
  else match byPlayer !! og_player_id role with
  | Some previous =>
      if negb (bool_decide (og_owner_account previous = og_owner_account role))
         || negb (og_owner_revision previous =? og_owner_revision role)
      then Err ErrOriginalPlayer
      else Ok (<[og_player_id role := role]> byPlayer)
  | None => Ok (<[og_player_id role := role]> byPlayer)
  end.

(** One turn of the loop over the locked [account_role] rows. *)
Definition capture_role (roles : RoleDB) (byPlayer : gmap Z TeamOriginalRole)
    (out : list TeamOriginalRole) (player : Z) : res (list TeamOriginalRole) :=
  match rd_account_role roles !! player with
  | None => Err ErrOriginalPlayer
  | Some a =>
      if (ar_owner_revision a =? 0) || negb (ar_trade_listing_id a =? 0) || negb (ValidAccount (ar_account a))
      then Err ErrOriginalPlayer
      else match byPlayer !! player with
      | Some original =>
          if negb (bool_decide (ar_account a = og_owner_account original))
             || negb (ar_owner_revision a =? og_owner_revision original)
          then Err ErrOriginalPlayer
          else Ok (out ++ [original])
      | None => Ok (out ++ [mkOriginal player (ar_account a) (ar_owner_revision a)])
      end
  end.

Definition lockTeamRoutes (db : TeamDB) (now : Z) (players : list Z) : res TeamDB :=
  match LockRoleRoutes (td_roles db) (td_roles db) now players with
  | Ok roles => Ok (set_roles db roles)
  | Err e => Err (if bool_decide (e = ErrRoleRouteFenced) then ErrTeamRoute else e)
  end.

Definition CaptureTeamOriginals (db : TeamDB) (now : Z) (identity : option TeamOriginalRole) (actor : Z)
    (originals : list TeamOriginalRole) (newTarget : Z) : res (TeamDB * list TeamOriginalRole) :=
  if actor =? 0 then Err ErrOriginalPlayer
  else
    let caller := originalPlayer identity actor in
    if role_incomplete caller then Err ErrOriginalPlayer
    else
      byPlayer ← fold_res collect_original ∅ (originals ++ [caller]);
      let ids := (map_to_list byPlayer).*1 ++
        (if negb (newTarget =? 0) && bool_decide (byPlayer !! newTarget = None) then [newTarget] else []) in
      let ids := sort_stable Z.ltb ids in
      db ← lockTeamRoutes db now ids;
      out ← fold_res (capture_role (td_roles db) byPlayer) [] ids;
      Ok (db, out).

(** [roleGuard]: the complete roles in player order, each checked once against
    its locked [account_role] row. *)
Definition guard_role (roles : RoleDB) (prior : option TeamOriginalRole) (original : TeamOriginalRole)
    : res (option TeamOriginalRole) :=
  let fresh :=
    match rd_account_role roles !! og_player_id original with
    | None => Err ErrOriginalPlayer
    | Some a =>
        if negb (bool_decide (ar_account a = og_owner_account original))
           || negb (ar_owner_revision a =? og_owner_revision original) || negb (ar_trade_listing_id a =? 0)
        then Err ErrOriginalPlayer else Ok (Some original)
    end in
  match prior with
  | Some p =>
      if og_player_id p =? og_player_id original then
        if negb (bool_decide (og_owner_account p = og_owner_account original))
           || negb (og_owner_revision p =? og_owner_revision original)
        then Err ErrOriginalPlayer else Ok prior
      else fresh
  | None => fresh
  end.

Definition roleGuard (roles : RoleDB) (originals : list TeamOriginalRole) : res () :=
  if existsb (fun o => (og_player_id o =? 0) || role_incomplete o) originals then Err ErrOriginalPlayer
  else
    _ ← fold_res (guard_role roles) None
          (sort_stable (fun a b => og_player_id a <? og_player_id b) originals);
    Ok ().

Definition LockTeamOriginals (db : TeamDB) (now : Z) (originals : list TeamOriginalRole) : res TeamDB :=
  db ← lockTeamRoutes db now (og_player_id <$> originals);
  if bool_decide (originals = []) then Err ErrOriginalPlayer
  else _ ← roleGuard (td_roles db) originals; Ok db.

Definition RequireTeamHomeZoneTx (db : TeamDB) (player expected : Z) : res () :=
  if expected =? 0 then Err ErrTeamRoute
  else
    row ← select_route (td_roles db) player;
    if bool_decide (pr_home_zone row = Some expected) then Ok () else Err ErrTeamRoute.

(** ** Receipts *)
Definition loadSQLAction (db : TeamDB) (a : sqlAction) : res (option TeamResponse) :=
  match td_receipt db !! receipt_key a with
  | None => Ok None
  | Some r =>
      if negb (bool_decide (ar_method r = ac_method a)) || negb (bool_decide (ar_payload r = ac_payload a))
         || negb (bool_decide (ar_owner_account r = og_owner_account (ac_actor a)))
         || negb (ar_owner_rev r =? og_owner_revision (ac_actor a))
      then Err errTeamIntentConflict
      else Ok (Some (ar_result r))
  end.

(** The presentation fields a receipt does not keep. *)
Definition stable_member (m : TeamMemberView) : TeamMemberView :=
  mkMemberView (mv_player_id m) (mv_name m) (mv_level m) (mv_class_id m) (mv_appearance_id m) (mv_gender m)
    (mv_is_leader m) false false (mv_zone_id m) (mv_join_seq m).

Definition stable_response (r : TeamResponse) : TeamResponse :=
  mkResponse (rs_ErrorMessage r)
    ((fun v => mkView (tv_team_id v) (tv_leader_id v) (tv_capacity v) (tv_zone_id v) (tv_version v)
                 (tv_membership_epoch v) (tv_match_state v) (tv_application_count v) (tv_server_time_ms v)
                 (stable_member <$> tv_members v)
                 ((fun a => mkAppView (stable_member (av_player a)) (av_applied_at_ms a) (av_expire_at_ms a))
                    <$> tv_applications v)
                 ((fun i => mkOutView (stable_member (ov_invitee i)) (ov_expire_at_ms i))
                    <$> tv_pending_invites v))
     <$> rs_Team r).

(** INSERT: a second receipt under the same key is a duplicate-key error. *)
Definition writeSQLAction (db : TeamDB) (action : option sqlAction) (response : TeamResponse) (stamp : Z)
    : res (TeamDB * option sqlAction) :=
  match action with
  | None => Ok (db, None)
  | Some a =>
      let stable := stable_response response in
      match td_receipt db !! receipt_key a with
      | Some _ => Err ErrDuplicateKey
      | None =>
          Ok (set_receipt db (<[receipt_key a :=
                mkReceipt (ac_method a) (ac_payload a) (og_owner_account (ac_actor a))
                  (og_owner_revision (ac_actor a)) stable stamp]> (td_receipt db)),
              Some (set_committed a (Some stable) (ac_replayed a)))
      end
  end.

(** [replayAction]: the stored response of an intent, if it was recorded. *)
Definition replayActionTx (db : TeamDB) (now : Z) (a : sqlAction) : res (option TeamResponse * TeamDB) :=
  db ← LockTeamOriginals db now [ac_actor a];
  response ← loadSQLAction db a;
  Ok (response, db).

(** [recordNoMutationAction]: bind a rejected request to its first answer. A
    receipt found on the way is replayed and the transaction rolled back. *)
Definition recordNoMutationActionTx (db : TeamDB) (stamp : Z) (a : sqlAction) (response : TeamResponse)
    : res (option sqlAction * TeamDB) :=
  db' ← LockTeamOriginals db stamp [ac_actor a];
  previous ← loadSQLAction db' a;
  match previous with
  | Some r => Ok (Some (set_committed a (Some r) true), db)
  | None => '(db', action) ← writeSQLAction db' (Some a) response stamp; Ok (action, db')
  end.

(** ** The commit contract: [validateCommitSets] *)
Fixpoint distinct_ids (seen : gset Z) (ids : list Z) : bool :=
  match ids with
  | [] => true
  | id :: ids' => negb (id =? 0) && negb (bool_decide (id ∈ seen)) && distinct_ids ({[id]} ∪ seen) ids'
  end.

Definition ErrCommitSets : error := "team: commit sets violate the contract"%string.

Definition validateCommitSets (teamId : Z) (d : Decision) : res () :=
  _ ← guard_err (teamId =? 0) ErrCommitSets;
  _ ← guard_err (negb (distinct_ids ∅ (d_Joined d ++ d_Kept d ++ d_Left d))) ErrCommitSets;
  _ ← match d_Record d with
      | None => guard_err (negb (Z.of_nat (length (d_Joined d) + length (d_Kept d)) =? 0)) ErrCommitSets
      | Some r =>
          _ ← guard_err (negb (tr_team_id r =? teamId)) ErrCommitSets;
          _ ← guard_err (negb (sameIdSet (MemberIds r) (d_Joined d ++ d_Kept d))) ErrCommitSets;
          _ ← guard_err (bool_decide (FindMember r (tr_leader_id r) = None)) ErrCommitSets;
          guard_err (Capacity <? Z.of_nat (length (tr_members r))) ErrCommitSets
      end;
  _ ← guard_err (negb (distinct_ids ∅ (ia_InviteeId <$> d_InvitesAdded d))) ErrCommitSets;
  guard_err (negb (distinct_ids (list_to_set (ia_InviteeId <$> d_InvitesAdded d)) (d_InvitesRemoved d)))
    ErrCommitSets.

(** ** Committing a decision *)

(** The new index of one person: [inl] the entry, [inr] a rejection code. *)
Definition next_index (db : TeamDB) (teamID stamp : Z) (joined left : gset Z) (player : Z)
    : res (IndexEntry + Z * Z) :=
  let index := loadSQLMembership db player in
  let isJoined := bool_decide (player ∈ joined) in
  let isLeft := bool_decide (player ∈ left) in
  if isJoined && negb (ix_TeamId index =? 0) && negb (ix_TeamId index =? teamID)
  then Ok (inr (ErrMemberInTeam, player))
  else if negb isJoined && negb (ix_TeamId index =? teamID) then Err ErrIndexMismatch
  else if isJoined || isLeft then
    if ix_Epoch index =? MaxUint64 then Err ErrEpochExhausted
    else
      let epoch := ix_Epoch index +64 1 in
      let epoch := if epoch <? stamp then stamp else epoch in
      Ok (inl (mkIndex (if isLeft then 0 else teamID) epoch))
  else Ok (inl index).

Fixpoint people_indexes (db : TeamDB) (teamID stamp : Z) (joined left : gset Z)
    (indexes : gmap Z IndexEntry) (people : list Z) : res (gmap Z IndexEntry + Z * Z) :=
  match people with
  | [] => Ok (inl indexes)
  | player :: people' =>
      entry ← next_index db teamID stamp joined left player;
      match entry with
      | inr code => Ok (inr code)
      | inl index => people_indexes db teamID stamp joined left (<[player := index]> indexes) people'
      end
  end.

(** Live invites of [invitee] from other teams. *)
Definition pending_invites (db : TeamDB) (invitee stamp teamID : Z) : Z :=
  Z.of_nat (size (filter (fun kv => kv.1.1 = invitee /\ stamp < kv.2 /\ kv.1.2 <> teamID) (td_invite db))).

(** The first added invitee over the limit. *)
Definition invite_limit (db : TeamDB) (stamp teamID : Z) (added : list InviteIndexAdd) : option Z :=
  ia_InviteeId <$>
  find_first (fun a => MaxPendingInvitesPerInvitee <=? pending_invites db (ia_InviteeId a) stamp teamID) added.

(** The statement on [team_authority]: INSERT for a first version, else an
    UPDATE guarded by the version. *)
Definition put_team_row (db : TeamDB) (teamID : Z) (old : sqlTeamRow) (row : sqlTeamRow)
    : res (gmap Z sqlTeamRow) :=
  if row_version old =? 0 then
    match td_team db !! teamID with
    | Some _ => Err ErrDuplicateKey
    | None => Ok (<[teamID := row]> (td_team db))
    end
  else
    match td_team db !! teamID with
    | Some cur => if row_version cur =? row_version old
                  then Ok (<[teamID := row]> (td_team db)) else Ok (td_team db)
    | None => Ok (td_team db)
    end.

Definition put_members (db : gmap Z IndexEntry) (indexes : gmap Z IndexEntry) (people : list Z)
    : gmap Z IndexEntry :=
  foldl (fun m p => <[p := default (mkIndex 0 0) (indexes !! p)]> m) db people.

Definition put_invites (m : gmap (Z * Z) Z) (teamID : Z) (removed : list Z) (added : list InviteIndexAdd)
    : gmap (Z * Z) Z :=
  let m := foldl (fun m p => delete (p, teamID) m) m removed in
  foldl (fun m a => <[(ia_InviteeId a, teamID) := ia_ExpireAtMs a]> m) m added.

Definition put_applications (m : gmap (Z * Z) Z) (teamID : Z) (old new : option TeamRecord) : gmap (Z * Z) Z :=
  let applications : gmap Z Z :=
    foldl (fun m a => <[ta_player_id a := ta_expire_at_ms a]> m) ∅ (record_applications new) in
  let m := foldl (fun m a => if bool_decide (is_Some (applications !! ta_player_id a)) then m
                             else delete (ta_player_id a, teamID) m) m (record_applications old) in
  foldl (fun m kv => <[(kv.1, teamID) := kv.2]> m) m (map_to_list applications).

Inductive CommitOut :=
  | CommitCode (code param : Z)
  | CommitDone (result : CommitResult) (db : TeamDB).

Definition commit_write (db : TeamDB) (teamID : Z) (old : sqlTeamRow) (data : TeamAuthorityData)
    (decision : Decision) (stamp : Z) (people : list Z) (indexes : gmap Z IndexEntry) : res CommitOut :=
  let oldRecord := ad_record (row_data old) in
  queue ← (if (row_state old =? 1) &&
              (negb (Z.of_nat (length (d_Joined decision) + length (d_Left decision)) =? 0)
               || negb (record_leader oldRecord =? record_leader (d_Record decision)))
           then CancelTeamQueuedTx teamID (td_queue db) else Ok (td_queue db));
  let state := match d_Record decision with None => 2 | Some _ => 1 end in
  let version := row_version old +64 1 in
  teams ← put_team_row db teamID old (mkRow version (stamp +64 TeamIdleTTLSeconds * 1000) state data);
  Ok (CommitDone (mkCommit teamID version decision indexes stamp)
        (mkDB (td_roles db) teams (put_members (td_member db) indexes people)
           (put_invites (td_invite db) teamID (d_InvitesRemoved decision) (d_InvitesAdded decision))
           (put_applications (td_application db) teamID oldRecord (d_Record decision))
           (td_receipt db) queue)).

Definition commitDecision (db : TeamDB) (teamID : Z) (old : sqlTeamRow) (data : TeamAuthorityData)
    (decision : Decision) (stamp : Z) : res CommitOut :=
  _ ← validateCommitSets teamID decision;
  if row_version old =? MaxUint64 then Err ErrVersionExhausted
  else
    let people := sort_stable Z.ltb (d_Joined decision ++ d_Kept decision ++ d_Left decision) in
    let joined : gset Z := list_to_set (d_Joined decision) in
    let left : gset Z := list_to_set (d_Left decision) in
    entries ← people_indexes db teamID stamp joined left ∅ people;
    match entries with
    | inr (code, param) => Ok (CommitCode code param)
    | inl indexes =>
        match invite_limit db stamp teamID (d_InvitesAdded decision) with
        | Some invitee => Ok (CommitCode ErrInviteLimit invitee)
        | None => commit_write db teamID old data decision stamp people indexes
        end
    end.

(** ** The next authority data *)
Definition next_members (originals : list TeamOriginalRole) (out : list TeamOriginalRole)
    (m : TeamMemberRecord) : res (list TeamOriginalRole) :=
  match originalByPlayer originals (tm_player_id m) with
  | None => Err ErrNewMember
  | Some o => Ok (out ++ [o])
  end.

(** A consent is complete when both sides are recorded. *)
Definition push_consent (out : list TeamConsentOriginal) (c : option TeamConsentOriginal)
    : res (list TeamConsentOriginal) :=
  match c with
  | Some c => if bool_decide (co_initiator c = None) || bool_decide (co_recipient c = None)
              then Err ErrConsent else Ok (out ++ [c])
  | None => Err ErrConsent
  end.

Definition nextSQLTeamData (old : TeamAuthorityData) (decision : Decision) (op : Op)
    (originals : list TeamOriginalRole) : res TeamAuthorityData :=
  match d_Record decision with
  | None => Ok emptyData
  | Some r =>
      members ← fold_res (next_members originals) [] (tr_members r);
      applications ← fold_res (fun out a =>
        push_consent out
          (if bool_decide (Kind op = OpApply) && (ta_player_id a =? Caller op)
           then Some (mkConsent (Caller op) (originalByPlayer originals (Caller op))
                        (originalByPlayer originals (tr_leader_id r)))
           else consentByPlayer (ad_applications old) (ta_player_id a))) [] (tr_applications r);
      invites ← fold_res (fun out i =>
        push_consent out
          (if bool_decide (Kind op = OpInvite) && (ti_invitee_id i =? Target op)
           then Some (mkConsent (Target op) (originalByPlayer originals (Caller op))
                        (originalByPlayer originals (Target op)))
           else consentByPlayer (ad_invites old) (ti_invitee_id i))) [] (tr_invites r);
      Ok (mkData (Some r) members applications invites)
  end.

(** ** Responses *)
Definition tipOf (code param : Z) : option (Z * option Z) :=
  if code =? 0 then None else Some (code, if param =? 0 then None else Some param).

Definition sqlMutationResponse (caller : Z) (kind : OpKind) (result : MutateResult) : TeamResponse :=
  let code :=
    match mr_Outcome result with
    | OutcomeNotBound | OutcomeRecordMissing => if bool_decide (kind = OpLeave) then 0 else ErrNoTeam
    | _ => mr_Code result
    end in
  match mr_Commit result with
  | Some c => mkResponse (tipOf code (mr_CodeParam result)) (viewFromCommit c caller ∅)
  | None => mkResponse (tipOf code (mr_CodeParam result)) (viewFromSnapshot (mr_Snapshot result) ∅)
  end.

(** ** The mutation transaction *)
Inductive TxResult :=
  | TxRetry
  | TxDone (result : MutateResult) (action : option sqlAction) (db : TeamDB).

(** [op.CallerTeamId = index.TeamId] *)
Definition set_caller_team (op : Op) (t : Z) : Op :=
  mkOp (Kind op) (Caller op) t (CallerZone op) (Target op) (TargetZone op) (NewTeamId op) (Accept op).

(** The default case of the switch: run the rules and commit their decision. *)
Definition mutate_decide (db : TeamDB) (bind : Binding) (op : Op) (row : sqlTeamRow)
    (locked : list TeamOriginalRole) (sessions : Sessions) (cfg : RuleConfig) (stamp : Z) (snap : Snapshot)
    : res (MutateResult * TeamDB) :=
  if bool_decide (Kind op = OpInvite) && negb (ix_TeamId (loadSQLMembership db (Target op)) =? 0)
  then Ok (resultOf OutcomeRejected ErrMemberInTeam (Target op) snap noDecision None, db)
  else
    let decision := Apply op (ad_record (row_data row)) stamp sessions cfg in
    if negb (d_Code decision =? 0)
    then Ok (resultOf OutcomeRejected (d_Code decision) (d_CodeParam decision) snap decision None, db)
    else if negb (d_Changed decision) then Ok (resultOf OutcomeUnchanged 0 0 snap decision None, db)
    else
      data ← nextSQLTeamData (row_data row) decision op locked;
      out ← commitDecision db (bd_teamId bind) row data decision stamp;
      match out with
      | CommitCode code param => Ok (resultOf OutcomeRejected code param snap decision None, db)
      | CommitDone commit db' => Ok (resultOf OutcomeCommitted 0 0 snap decision (Some commit), db')
      end.

(** The zone checks of the operations that record a zone. *)
Definition require_zones (db : TeamDB) (op : Op) : res () :=
  _ ← (match Kind op with
       | OpCreate | OpApply => RequireTeamHomeZoneTx db (Caller op) (CallerZone op)
       | _ => Ok ()
       end);
  match Kind op with
  | OpInvite => RequireTeamHomeZoneTx db (Target op) (TargetZone op)
  | _ => Ok ()
  end.

Definition mutateTx (db : TeamDB) (stamp : Z) (identity : option TeamOriginalRole) (action : option sqlAction)
    (bind : Binding) (op : Op) (observed : sqlTeamRow) (originals : list TeamOriginalRole)
    (sessions : Sessions) (cfg : RuleConfig) : res TxResult :=
  let newTarget := match Kind op with OpInvite => Target op | _ => 0 end in
  '(db, locked) ← CaptureTeamOriginals db stamp identity (Caller op) originals newTarget;
  _ ← require_zones db op;
  previous ← match action with Some a => loadSQLAction db a | None => Ok None end;
  match previous, action with
  | Some r, Some a =>
      Ok (TxDone (resultOf OutcomeUnchanged 0 0 emptySnapshot noDecision None)
            (Some (set_committed a (Some r) true)) db)
  | _, _ =>
    row ← loadSQLTeam db (bd_teamId bind);
    if negb (sameSQLTeam observed row) then Ok TxRetry
    else
      let index := loadSQLMembership db (bd_playerId bind) in
      let snap := sqlTeamSnapshot (bd_playerId bind) (bd_teamId bind) stamp index row in
      '(result, db) ←
        (if bool_decide (bd_mode bind = bindModeCaller)
            && ((bd_teamId bind =? 0) || negb (ix_TeamId index =? bd_teamId bind))
         then Ok (resultOf OutcomeNotBound 0 0 snap noDecision None, db)
         else if bool_decide (bd_mode bind = bindModeCreate) && negb (row_version row =? 0)
         then Ok (resultOf OutcomeRejected ErrStateChanged 0 snap noDecision None, db)
         else if negb (bool_decide (bd_mode bind = bindModeCreate)) && negb (row_state row =? 1)
         then Ok (resultOf OutcomeRecordMissing 0 0 snap noDecision None, db)
         else mutate_decide db bind (set_caller_team op (ix_TeamId index)) row locked sessions cfg stamp snap);
      '(db, action) ← writeSQLAction db action (sqlMutationResponse (bd_playerId bind) (Kind op) result) stamp;
      Ok (TxDone result action db)
  end.

(** [mutate]: up to [CommitRetries] attempts. Each attempt reads the team
    outside the transaction, then runs [mutateTx]; [others] is what the other
    transactions did to the database in between, and [clock] the stamp of the
    attempt. *)
Section mutate.
Context (identity : option TeamOriginalRole) (action : option sqlAction) (cfg : RuleConfig).
Context (loadSessions : list Z -> Sessions) (others : nat -> TeamDB -> TeamDB) (clock : nat -> Z).

Definition sessions_of (rec : option TeamRecord) : Sessions :=
  match rec with None => ∅ | Some r => loadSessions (MemberIds r) end.

Definition set_conflicts (r : MutateResult) (n : Z) : MutateResult :=
  mkResult (mr_Outcome r) (mr_Code r) (mr_CodeParam r) (mr_Snapshot r) (mr_Decision r) (mr_Commit r) n.

Fixpoint mutate_attempts (left attempt : nat) (db : TeamDB) (bind : Binding) (op : Op)
    : res (MutateResult * option sqlAction) * TeamDB :=
  match left with
  | O => (Ok (mkResult OutcomeRejected ErrStateChanged 0 emptySnapshot noDecision None
               (Z.of_nat CommitRetries), action), db)
  | S left' =>
      let attempted :=
        observed ← loadSQLTeam db (bd_teamId bind);
        originals ← mutationOriginals (row_data observed) op;
        Ok (observed, originals) in
      match attempted with
      | Err e => (Err e, db)
      | Ok (observed, originals) =>
          let sessions := sessions_of (ad_record (row_data observed)) in
          let db := others attempt db in
          match mutateTx db (clock attempt) identity action bind op observed originals sessions cfg with
          | Err e => (Err e, db)
          | Ok TxRetry => mutate_attempts left' (S attempt) db bind op
          | Ok (TxDone result action db') => (Ok (set_conflicts result (Z.of_nat attempt), action), db')
          end
      end
  end.

Definition mutate (db : TeamDB) (bind : Binding) (op : Op) : res (MutateResult * option sqlAction) * TeamDB :=
  let allowed :=
    match Kind op, action with
    | OpRefresh, _ => true
    | k, Some a => bool_decide (ac_method a = k) && (og_player_id (ac_actor a) =? Caller op)
    | _, None => false
    end in
  if negb allowed then (Err ErrNoIntent, db) else mutate_attempts CommitRetries 0 db bind op.
End mutate.

(** ** Maintenance *)
(** [touch]: extend the idle deadline of the version the caller saw. *)
Definition touchTx (db : TeamDB) (stamp : Z) (identity : option TeamOriginalRole) (snap : Snapshot)
    (observed : sqlTeamRow) : res (bool * TeamDB) :=
  if bool_decide (sn_Record snap = None) then Ok (false, db)
  else
  '(db', _) ← CaptureTeamOriginals db stamp identity (sn_PlayerId snap) (ad_members (row_data observed)) 0;
  current ← loadSQLTeam db' (sn_TeamId snap);
  if negb (row_state current =? 1) || negb (row_version current =? sn_Version snap)
     || negb (sameSQLTeam observed current) then Ok (false, db)
  else if row_idleExpires current <=? stamp then Ok (false, db)
  else Ok (true, set_team db' (<[sn_TeamId snap :=
         mkRow (row_version current) (stamp +64 TeamIdleTTLSeconds * 1000) (row_state current) (row_data current)]>
         (td_team db'))).

(** [expireIdle]: dissolve a team whose idle deadline has passed and that is
    in no match. *)
Definition expireIdleTx (db : TeamDB) (stamp teamID : Z) (observed : sqlTeamRow)
    : res (option (CommitResult * TeamDB)) :=
  if negb (row_state observed =? 1) then Ok None
  else
    db ← LockTeamOriginals db stamp (ad_members (row_data observed));
    current ← loadSQLTeam db teamID;
    if negb (sameSQLTeam current observed) then Ok None
    else match ad_record (row_data current) with
    | None => Ok None
    | Some r =>
      if negb (row_state current =? 1) || (stamp <? row_idleExpires current)
         || negb (bool_decide (tr_match_lock_token r = ""%string)) then Ok None
      else
        let decision :=
          mkDecision 0 0 true None [] [] (MemberIds r) [] (ti_invitee_id <$> tr_invites r) [] false
            REASON_DISBANDED 0 false true
            (ti_invitee_id <$> keep_if (fun i => stamp <? ti_expire_at_ms i) (tr_invites r)) 0 0 in
        out ← commitDecision db teamID current emptyData decision stamp;
        match out with
        | CommitCode _ _ => Err ErrIndexMismatch
        | CommitDone c db' => Ok (Some (c, db'))
        end
    end.

(** [pruneInvite]: delete one stale index row, never one whose invite is live. *)
Definition pruneInviteTx (db : TeamDB) (stamp : Z) (actor : TeamOriginalRole) (teamID expectedExpiry : Z)
    : res (bool * TeamDB) :=
  let player := og_player_id actor in
  db' ← LockTeamOriginals db stamp [actor];
  row ← loadSQLTeam db' teamID;
  let live := match ad_record (row_data row) with
              | Some r => match findInvite r player with
                          | Some i => stamp <? ti_expire_at_ms i
                          | None => false
                          end
              | None => false
              end in
  if (row_state row =? 1) && live then Ok (false, db)
  else if bool_decide (td_invite db' !! (player, teamID) = Some expectedExpiry)
  then Ok (true, set_invite_index db' (delete (player, teamID) (td_invite db')))
  else Ok (false, db').

(** [read] of one team for one player. *)
Definition readTx (db : TeamDB) (stamp player teamID : Z) : res Snapshot :=
  let index := loadSQLMembership db player in
  row ← loadSQLTeam db teamID;
  let snap := sqlTeamSnapshot player teamID stamp index row in
  if (ix_TeamId index =? teamID) && negb (teamID =? 0) &&
     match sn_Record snap with None => true | Some r => bool_decide (FindMember r player = None) end
  then Err ErrIndexMismatch else Ok snap.

Fixpoint members_indexes (db : TeamDB) (teamID : Z) (acc : gmap Z IndexEntry) (players : list Z)
    : res (gmap Z IndexEntry) :=
  match players with
  | [] => Ok acc
  | p :: players' =>
      let index := loadSQLMembership db p in
      if negb (ix_TeamId index =? teamID) then Err ErrIndexMismatch
      else members_indexes db teamID (<[p := index]> acc) players'
  end.

Definition readMembersTx (db : TeamDB) (stamp teamID : Z) : res MembersSnapshot :=
  row ← loadSQLTeam db teamID;
  match ad_record (row_data row) with
  | Some r =>
      if row_state row =? 1 then
        indexes ← members_indexes db teamID ∅ (MemberIds r);
        Ok (mkMembers teamID (row_version row) (Some r) stamp indexes)
      else Ok (mkMembers teamID (row_version row) None stamp ∅)
  | None => Ok (mkMembers teamID (row_version row) None stamp ∅)
  end.
End store.

Arguments TeamDB : clear implicits.
Arguments TxResult : clear implicits.
Arguments CommitOut : clear implicits.
