(* ===== verification/TeamCommit.v ===== *)
(** * From the rules to the store: the decision contract

    [sound_decision] is what the store relies on when it is handed a decision:
    the three person lists partition the old and new members, the new record is
    well formed, the invite index changes are disjoint. The rules discharge it
    ([Apply_sound]); [validateCommitSets] is shown to be its executable half. *)

From stdpp Require Import base list gmap sorting strings.
From Stdlib Require Import ZArith Lia.
From S2P Require Import Prelude TeamRecord TeamRules TeamSpec TeamThms TeamMatch.
From S2P Require Import RoleRoute TeamView TeamStore.
Local Open Scope Z_scope.
Local Open Scope go_scope.

Definition old_members (old : option TeamRecord) : list Z := default [] (ids <$> old).
Definition next_seq_of (old : option TeamRecord) : Z := default 1 (tr_next_join_seq <$> old).
Definition people_of (d : Decision) : list Z := d_Joined d ++ d_Kept d ++ d_Left d.

Record sound_decision (tid : Z) (old : option TeamRecord) (d : Decision) : Prop := {
  sd_nodup : NoDup (people_of d);
  sd_pos : 0 ∉ people_of d;
  sd_record : forall r, d_Record d = Some r ->
    wf_record r /\ tr_team_id r = tid /\ MemberIds r ≡ₚ d_Joined d ++ d_Kept d /\
    tr_next_join_seq r <= next_seq_of old + 1;
  sd_gone : d_Record d = None -> d_Joined d = [] /\ d_Kept d = [];
  sd_old : forall p, p ∈ old_members old -> p ∈ d_Kept d ++ d_Left d;
  sd_added : NoDup (ia_InviteeId <$> d_InvitesAdded d);
  sd_added_pos : 0 ∉ (ia_InviteeId <$> d_InvitesAdded d);
  sd_removed : NoDup (d_InvitesRemoved d);
  sd_removed_pos : 0 ∉ d_InvitesRemoved d;
  sd_disjoint : forall p, p ∈ d_InvitesRemoved d -> p ∉ (ia_InviteeId <$> d_InvitesAdded d) }.

Lemma NoDup_keep_if {A} f (l : list A) : NoDup l -> NoDup (keep_if f l).
Proof. intros H. eapply sublist_NoDup; [exact H|apply keep_if_sublist]. Qed.

Lemma keep_if_split_perm {A} (f : A -> bool) l : keep_if (fun x => negb (f x)) l ++ keep_if f l ≡ₚ l.
Proof.
  induction l as [|x l IH]; simpl; [done|]. destruct (f x); simpl.
  - rewrite <- Permutation_middle. by f_equiv.
  - by f_equiv.
Qed.

(** The next join sequence grows by at most one. *)
Lemma effect_next_seq c c' :
  wf_record (c_rec c) -> headroom (c_rec c) -> op_effect c c' -> c_code c' = 0 ->
  tr_next_join_seq (c_rec c') <= tr_next_join_seq (c_rec c) + 1.
Proof.
  intros Hwf Hroom Heff Hok. destruct Heff; subst; simpl; try lia; try done; try (rewrite H1; simpl; lia).
  - rewrite next_seq_wf by done. rewrite u32_small; [lia|].
    pose proof (wf_next _ Hwf). unfold is_u32, headroom in *. lia.
  - destruct (removeMember_spec c p Hwf H) as [_|(_ & _ & _ & -> & _)]; [|lia].
    unfold removeMember. destruct (keep_if _ _); simpl; [lia|]. destruct (_ =? _); simpl; lia.
Qed.

(** ** [finish] gives a sound decision *)
Section finish_sound.
Context (c : ruleCtx) (r : TeamRecord).
Context (Hc : c_code c = 0) (Hch : changes c = true) (Hwf : wf_record r).
Context (Hlive : c_disbanded c = false -> wf_record (c_rec c)).
Context (Hgone : c_disbanded c = true -> tr_members (c_rec c) = [] /\ c_added c = []).
Context (Hex : NoDup (c_extraLeft c)) (Hexp : 0 ∉ c_extraLeft c).
Context (Hadd : NoDup (ia_InviteeId <$> c_added c)) (Haddp : 0 ∉ (ia_InviteeId <$> c_added c)).
Context (Htid : tr_team_id (c_rec c) = tr_team_id r).
Context (Hseq : tr_next_join_seq (c_rec c) <= tr_next_join_seq r + 1).

(** The members after the operation. *)
Definition new_ids : list Z := if c_disbanded c then [] else ids (c_rec c).

Lemma finish_new_ids :
  MemberIds (if c_disbanded c then c_rec c
             else set_members (c_rec c) (sortMembers (tr_members (c_rec c)))) = new_ids.
Proof using Hlive Hgone.
  unfold new_ids. destruct (c_disbanded c).
  - destruct Hgone as [Hm _]; [done|]. unfold MemberIds. by rewrite Hm.
  - rewrite wf_sort_id by auto. apply wf_MemberIds. auto.
Qed.

Lemma finish_new_set p :
  p ∈ (if c_disbanded c then (∅ : gset Z)
       else memberSet (if c_disbanded c then c_rec c
                       else set_members (c_rec c) (sortMembers (tr_members (c_rec c))))) <-> p ∈ new_ids.
Proof using Hlive Hgone.
  unfold new_ids. destruct (c_disbanded c); [by rewrite elem_of_nil, elem_of_empty|].
  rewrite wf_sort_id by auto. apply elem_of_memberSet.
Qed.

Lemma new_ids_wf : NoDup new_ids /\ 0 ∉ new_ids.
Proof using Hlive Hgone.
  unfold new_ids. destruct (c_disbanded c); [split; [constructor|apply not_elem_of_nil]|].
  split; [apply wf_ids|apply wf_pos]; auto.
Qed.

Lemma finish_people :
  d_Joined (finish c r) ++ d_Kept (finish c r) ≡ₚ new_ids /\
  (forall p, p ∈ d_Kept (finish c r) <-> p ∈ new_ids /\ p ∈ ids r) /\
  (forall p, p ∈ d_Left (finish c r) <-> (p ∉ new_ids /\ (p ∈ ids r \/ p ∈ c_extraLeft c))) /\
  NoDup (d_Left (finish c r)).
Proof using Hc Hch Hwf Hlive Hgone Hex.
  destruct (finish_sets c r Hc Hch) as (HJ & HK & HL & _). rewrite HJ, HK, HL, finish_new_ids.
  split_and!.
  - apply (keep_if_split_perm (fun id => bool_decide (id ∈ memberSet r))).
  - intros p. by rewrite elem_of_keep_if, bool_decide_eq_true, elem_of_memberSet.
  - intros p. rewrite elem_of_app, !elem_of_keep_if, elem_of_MemberIds.
    rewrite andb_true_iff, !negb_true_iff, !bool_decide_eq_false, finish_new_set, elem_of_memberSet.
    destruct (decide (p ∈ ids r)); naive_solver.
  - apply NoDup_app. split_and!.
    + apply NoDup_keep_if, NoDup_MemberIds, (wf_ids _ Hwf).
    + intros p [Hp _]%elem_of_keep_if [_ Hq]%elem_of_keep_if. zbool.
      apply elem_of_MemberIds, elem_of_memberSet in Hp. done.
    + by apply NoDup_keep_if.
Qed.

Lemma finish_invites_sound :
  d_InvitesAdded (finish c r) = c_added c /\
  NoDup (d_InvitesRemoved (finish c r)) /\ 0 ∉ d_InvitesRemoved (finish c r) /\
  forall p, p ∈ d_InvitesRemoved (finish c r) -> p ∉ (ia_InviteeId <$> c_added c).
Proof using Hc Hch Hwf.
  destruct (finish_sets c r Hc Hch) as (_ & _ & _ & _ & HA & HR). rewrite HR. split; [done|].
  split; [apply NoDup_removed_invites|]. split.
  - rewrite elem_of_removed_invites. intros [H0 _]. by apply (wf_invs_pos _ Hwf).
  - intros p. rewrite elem_of_removed_invites, not_elem_of_union, !not_elem_of_list_to_set. by intros (_ & _ & ?).
Qed.

Lemma finish_sound : sound_decision (tr_team_id r) (Some r) (finish c r).
Proof using All.
  destruct finish_people as (HJK & HK & HL & HLn). destruct finish_invites_sound as (HA & HR & HR0 & HD).
  destruct new_ids_wf as [Hn H0].
  constructor; rewrite ?HA; try done.
  - unfold people_of. rewrite app_assoc, HJK. apply NoDup_app. split_and!; [done| |done].
    intros p Hp [Hq _]%HL. done.
  - unfold people_of. rewrite app_assoc, HJK, elem_of_app, HL.
    intros [?|[_ [Hz|Hz]]]; [done|by apply (wf_pos _ Hwf)|done].
  - intros r'. rewrite finish_Record by done. destruct (c_disbanded c) eqn:Hd; [done|].
    rewrite wf_sort_id by auto. intros [= <-]. split_and!; [auto|done| |done].
    rewrite HJK. unfold new_ids. rewrite Hd. by rewrite wf_MemberIds by auto.
  - rewrite finish_Record by done. destruct (c_disbanded c) eqn:Hd; [|done]. intros _.
    assert (new_ids = []) as He by (unfold new_ids; by rewrite Hd). rewrite He in HJK.
    apply Permutation_nil_r in HJK. by apply app_eq_nil.
  - simpl. intros p Hp. rewrite elem_of_app, HK, HL. destruct (decide (p ∈ new_ids)); naive_solver.
Qed.
End finish_sound.

(** ** Every accepted operation decides soundly *)
Lemma Apply_sound op rec now s cfg :
  Caller op <> 0 -> (forall r, rec = Some r -> wf_record r /\ headroom r) ->
  d_Code (Apply op rec now s cfg) = 0 -> d_Changed (Apply op rec now s cfg) = true ->
  exists tid, sound_decision tid rec (Apply op rec now s cfg) /\
    (forall r, rec = Some r -> tid = tr_team_id r) /\ (rec = None -> tid = NewTeamId op).
Proof.
  intros Hcl Hrec Hcode Hchg. destruct (decide (Kind op = OpCreate)) as [Hk|Hk].
  { unfold Apply, applyCreate in *. rewrite Hk in *.
    destruct (_ || _ || _) eqn:H1; [done|]. destruct (CallerZone op =? 0); [done|].
    destruct (negb _); [done|]. zbool.
    assert (rec = None) as -> by (destruct rec; [exfalso; naive_solver|done]).
    exists (NewTeamId op). split; [|done]. constructor; simpl; try done; unfold people_of; simpl;
      try (by apply NoDup_singleton); try (by apply NoDup_nil_2); try set_solver.
    intros r [= <-]. split_and!; [by apply wf_new_team|done| |done].
    rewrite (wf_MemberIds _ (wf_new_team _ _ _ _ _ Hcl)). done. }
  destruct rec as [r|]; [|by unfold Apply in Hcode; destruct (Kind op)].
  destruct (Hrec r eq_refl) as [Hwf Hroom].
  destruct (Apply_inv op r now s cfg Hcl Hwf Hk Hcode) as (c' & _ & Heff & Hc' & _ & Heq).
  rewrite Heq in *. set (c := startCtx op r now s cfg) in *.
  pose proof (startCtx_wf op r now s cfg Hwf) as Hwfc. pose proof (startCtx_fresh op r now s cfg) as Hfr.
  pose proof (startCtx_headroom op r now s cfg Hroom) as Hroomc. fold c in Hwfc, Hfr, Hroomc.
  destruct (startCtx_same op r now s cfg) as (_ & Hns & Htid & _). fold c in Hns, Htid.
  pose proof (effect_extraLeft c c' Hfr Heff Hc') as HeL.
  pose proof (effect_added c c' Hfr Heff Hc') as HaL.
  exists (tr_team_id r). split; [|by split; [intros ? [= <-]|]].
  rewrite finish_Changed in Hchg by done. apply finish_sound; try done.
  - intros Hd. by eapply effect_wf.
  - intros Hd. by destruct (effect_disbanded c c' Hwfc Hfr Heff Hc' Hd) as (? & _ & ? & _).
  - destruct HeL as [->|(p & -> & _)]; [constructor|apply NoDup_singleton].
  - destruct HeL as [->|(p & -> & Hp & _)]; [set_solver|]. set_solver.
  - destruct HaL as [->|(p & e & -> & _)]; [constructor|apply NoDup_singleton].
  - destruct HaL as [->|(p & e & -> & Hp & _)]; [set_solver|]. csimpl. set_solver.
  - by rewrite (effect_team_id c c' Heff Hc').
  - rewrite <- Hns. by apply effect_next_seq.
Qed.

(** ** [validateCommitSets] *)
Lemma distinct_ids_spec ids : forall seen,
  distinct_ids seen ids = true <-> NoDup ids /\ 0 ∉ ids /\ forall p, p ∈ ids -> p ∉ seen.
Proof.
  induction ids as [|x ids IH]; intros seen; simpl.
  { split; [intros _; split_and!; [constructor|set_solver..]|done]. }
  rewrite !andb_true_iff, !negb_true_iff, IH, Z.eqb_neq, bool_decide_eq_false, NoDup_cons. set_solver.
Qed.

Lemma sound_validates tid old d :
  tid <> 0 -> sound_decision tid old d -> validateCommitSets tid d = Ok ().
Proof.
  intros Ht [].
  assert (distinct_ids ∅ (ia_InviteeId <$> d_InvitesAdded d) = true) as Ha.
  { apply distinct_ids_spec. split_and!; [done|done|set_solver]. }
  assert (distinct_ids (list_to_set (ia_InviteeId <$> d_InvitesAdded d)) (d_InvitesRemoved d) = true) as Hr.
  { apply distinct_ids_spec. split_and!; [done|done|]. intros p Hp%sd_disjoint0. set_solver. }
  assert (distinct_ids ∅ (d_Joined d ++ d_Kept d ++ d_Left d) = true) as Hd.
  { apply distinct_ids_spec. split_and!; [done|done|set_solver]. }
  unfold validateCommitSets. rewrite Ha, Hr, Hd, (proj2 (Z.eqb_neq _ _) Ht).
  destruct (d_Record d) as [r|] eqn:Hrec; simpl.
  - destruct (sd_record0 r eq_refl) as (Hwf & -> & Hp & _). rewrite Z.eqb_refl. simpl.
    apply sameIdSet_spec in Hp. rewrite Hp. simpl.
    rewrite bool_decide_eq_false_2.
    2:{ intros Hn%FindMember_None. by apply Hn, wf_leader. }
    by rewrite (proj2 (Z.ltb_ge _ _)) by apply (wf_len _ Hwf).
  - by destruct (sd_gone0 eq_refl) as [-> ->].
Qed.

(** The store's commit contract never fires: whatever accepted operation
    changed a well-formed team, its decision passes [validateCommitSets] - the
    joined, kept and left players are distinct non-zero ids, joined and kept
    together are exactly the new members, the leader is one of them, and the
    invite index changes do not overlap. *)
Theorem Apply_commit_contract op rec now s cfg :
  Caller op <> 0 -> (forall r, rec = Some r -> wf_record r /\ headroom r) ->
  (forall r, rec = Some r -> tr_team_id r <> 0) ->
  d_Code (Apply op rec now s cfg) = 0 -> d_Changed (Apply op rec now s cfg) = true ->
  validateCommitSets (default (NewTeamId op) (tr_team_id <$> rec)) (Apply op rec now s cfg) = Ok ().
Proof.
  intros Hcl Hrec Ht Hcode Hchg.
  destruct (Apply_sound op rec now s cfg Hcl Hrec Hcode Hchg) as (tid & Hs & H1 & H2).
  destruct rec as [r|]; simpl.
  - rewrite <- (H1 r eq_refl) in *. eapply sound_validates; [|exact Hs]. rewrite (H1 r eq_refl). by apply Ht.
  - rewrite <- H2 by done. eapply sound_validates; [|exact Hs]. rewrite H2 by done.
    unfold Apply, applyCreate in Hcode. destruct (Kind op); try done.
    destruct (_ || _ || _) eqn:Hc; [done|]. by zbool.
Qed.

Lemma Apply_commit_contract_witness :
  validateCommitSets 77 (Apply (KickOp 1 2) (Some demo) 2000 ∅ (mkCfg false)) = Ok ().
Proof.
  apply (Apply_commit_contract (KickOp 1 2) (Some demo) 2000 ∅ (mkCfg false)).
  - done.
  - intros r [= <-]. split; [exact demo_wf|done].
  - intros r [= <-]. done.
  - reflexivity.
  - reflexivity.
Defined.
