(* ===== verification/TeamStoreThms.v ===== *)
(** * Theorems about the SQL team store

    The invariant that ties [team_membership] to the stored records, its
    preservation by every transaction, what a commit writes and what it leaves,
    and the exactly-once behaviour of a request with an intent. *)

From stdpp Require Import base list gmap sorting strings.
From Stdlib Require Import ZArith Lia.
From S2P Require Import Prelude TeamRecord TeamRules TeamSpec TeamThms TeamMatch.
From S2P Require Import RoleRoute TeamView TeamStore TeamCommit.
Local Open Scope Z_scope.
Local Open Scope go_scope.

Section thms.
Context {Q : Type} `{!LaunchQueue Q}.
Implicit Types db : TeamDB Q.

(** ** The invariant *)

(** Team [t] is active with record [r]. *)
Definition active db (t : Z) (r : TeamRecord) : Prop :=
  exists row, td_team db !! t = Some row /\ row_state row = 1 /\ ad_record (row_data row) = Some r.

Record row_ok (t : Z) (row : sqlTeamRow) : Prop := {
  ro_version : 1 <= row_version row < u64_mod;
  ro_state : row_state row = 1 \/ row_state row = 2;
  ro_record : row_state row = 1 -> exists r, ad_record (row_data row) = Some r /\
    wf_record r /\ tr_team_id r = t /\ tr_next_join_seq r <= row_version row + 1 }.

Record db_ok db : Prop := {
  ok_row : forall t row, td_team db !! t = Some row -> t <> 0 /\ row_ok t row;
  ok_epoch : forall p, is_u64 (ix_Epoch (loadSQLMembership db p));
  ok_index : forall p, ix_TeamId (loadSQLMembership db p) <> 0 ->
    exists r, active db (ix_TeamId (loadSQLMembership db p)) r /\ p ∈ ids r;
  ok_member : forall t r p, active db t r -> p ∈ ids r -> ix_TeamId (loadSQLMembership db p) = t }.

(** The parts of the database the invariant speaks about. *)
Definition same_core db db' : Prop := td_team db' = td_team db /\ td_member db' = td_member db.

Lemma db_ok_core db db' : same_core db db' -> db_ok db -> db_ok db'.
Proof.
  intros [Ht Hm] []. unfold active, loadSQLMembership in *.
  constructor; unfold active, loadSQLMembership; rewrite ?Ht, ?Hm; done.
Qed.

(** ** Loading a row *)
Lemma loadSQLTeam_ok db t row :
  db_ok db -> loadSQLTeam db t = Ok row ->
  (td_team db !! t = None /\ row = mkRow 0 0 0 emptyData) \/
  (exists r, td_team db !! t = Some row /\ row_state row = 1 /\ t <> 0 /\
     ad_record (row_data row) = Some r /\ wf_record r /\ tr_team_id r = t /\
     1 <= row_version row < u64_mod /\ tr_next_join_seq r <= row_version row + 1) \/
  (exists row0, td_team db !! t = Some row0 /\ row_state row = 2 /\ row_state row0 = 2 /\ t <> 0 /\
     1 <= row_version row < u64_mod /\ row_version row = row_version row0 /\ ad_record (row_data row) = None).
Proof.
  intros Hok. unfold loadSQLTeam. destruct (td_team db !! t) as [row0|] eqn:Hrow; [|intros [= <-]; by left].
  destruct (ok_row db Hok t row0 Hrow) as (Ht0 & [Hv Hst Hrec]).
  destruct (_ || _) eqn:Hc; [done|]. destruct (row_state row0 =? 2) eqn:H2; intros [= <-]; zbool.
  - right. right. exists row0. simpl. done.
  - right. left. destruct Hrec as (r & Hr & Hwf & Htid & Hseq); [naive_solver|]. exists r.
    split_and!; try done; naive_solver.
Qed.

(** ** The person indexes of a commit *)
Definition entry_spec db (tid stamp : Z) (joined left : gset Z) (p : Z) (e : IndexEntry) : Prop :=
  let old := loadSQLMembership db p in
  (p ∈ joined -> ix_TeamId old = 0 \/ ix_TeamId old = tid) /\
  (p ∉ joined -> ix_TeamId old = tid) /\
  (p ∈ left -> ix_TeamId e = 0) /\
  (p ∉ left -> p ∈ joined -> ix_TeamId e = tid) /\
  (p ∈ joined \/ p ∈ left -> ix_Epoch old < ix_Epoch e /\ stamp <= ix_Epoch e /\ is_u64 (ix_Epoch e)) /\
  (p ∉ joined -> p ∉ left -> e = old).

Lemma next_index_spec db tid stamp joined left p e :
  is_u64 stamp -> is_u64 (ix_Epoch (loadSQLMembership db p)) ->
  next_index db tid stamp joined left p = Ok (inl e) -> entry_spec db tid stamp joined left p e.
Proof.
  intros Hst Hep. unfold next_index, entry_spec. set (old := loadSQLMembership db p) in *.
  destruct (_ && _ && _) eqn:H1; [done|].
  destruct (negb (bool_decide (p ∈ joined)) && _) eqn:H2; [done|].
  assert (Hj : p ∈ joined -> ix_TeamId old = 0 \/ ix_TeamId old = tid).
  { intros Hp. rewrite bool_decide_eq_true_2 in H1 by done. simpl in H1. zbool.
    destruct H1 as [?|?]; zbool; auto. }
  assert (Hn : p ∉ joined -> ix_TeamId old = tid).
  { intros Hp. rewrite bool_decide_eq_false_2 in H2 by done. simpl in H2. zbool. done. }
  destruct (bool_decide (p ∈ joined) || bool_decide (p ∈ left)) eqn:H3.
  - destruct (_ =? MaxUint64) eqn:Hmax; [done|]. intros [= <-]. cbn [ix_TeamId ix_Epoch]. zbool.
    assert (Hu : u64 (ix_Epoch old + 1) = ix_Epoch old + 1).
    { apply u64_small. unfold is_u64, MaxUint64 in *. lia. }
    rewrite Hu. assert (Hne : ~ (p ∉ joined /\ p ∉ left)).
    { intros [? ?]. destruct H3; zbool; done. }
    split_and!; try done.
    + intros Hl. by rewrite bool_decide_eq_true_2.
    + intros Hl _. by rewrite bool_decide_eq_false_2.
    + intros _. unfold is_u64, MaxUint64 in *. destruct (_ <? stamp) eqn:Hlt; zbool; lia.
    + intros ? ?. exfalso. by apply Hne.
  - zbool. intros [= <-]. split_and!; try done. naive_solver.
Qed.

Lemma people_indexes_spec db tid stamp joined left people : forall acc indexes,
  people_indexes db tid stamp joined left acc people = Ok (inl indexes) ->
  (forall p, p ∈ people -> exists e, indexes !! p = Some e /\
     (p ∈ people -> next_index db tid stamp joined left p = Ok (inl e))) /\
  (forall p, p ∉ people -> indexes !! p = acc !! p).
Proof.
  induction people as [|x people IH]; intros acc indexes; simpl.
  { intros [= <-]. split; [set_solver|done]. }
  intros ([e|code] & Hx & Hrest)%bind_Ok; [|done]. apply IH in Hrest as [H1 H2]. split.
  - intros p Hp. destruct (decide (p ∈ people)) as [Hin|Hni].
    + destruct (H1 p Hin) as (e' & ? & Hn). exists e'. auto.
    + assert (p = x) as -> by set_solver. exists e. split; [|done].
      rewrite H2 by done. by rewrite lookup_insert_eq.
  - intros p [? ?]%not_elem_of_cons. rewrite H2 by done. by rewrite lookup_insert_ne.
Qed.

Lemma put_members_lookup indexes people : forall m p,
  (put_members m indexes people) !! p =
  if bool_decide (p ∈ people) then Some (default (mkIndex 0 0) (indexes !! p)) else m !! p.
Proof.
  unfold put_members. induction people as [|x people IH]; intros m p; simpl; [done|].
  rewrite IH. destruct (decide (p = x)) as [->|Hne].
  - rewrite lookup_insert_eq. rewrite (bool_decide_eq_true_2 (x ∈ x :: people)) by left.
    by case_bool_decide.
  - rewrite lookup_insert_ne by done. by rewrite (bool_decide_ext (p ∈ x :: people) (p ∈ people)) by set_solver.
Qed.

(** ** What a commit writes *)
Record committed db (tid stamp : Z) (old : sqlTeamRow) (data : TeamAuthorityData) (d : Decision)
    (c : CommitResult) db' : Prop := {
  cm_result : cr_TeamId c = tid /\ cr_Version c = row_version old + 1 /\ cr_Decision c = d;
  cm_valid : validateCommitSets tid d = Ok ();
  cm_row : td_team db' !! tid = Some (mkRow (row_version old + 1) (stamp +64 TeamIdleTTLSeconds * 1000)
             (match d_Record d with None => 2 | Some _ => 1 end) data);
  cm_others : forall t, t <> tid -> td_team db' !! t = td_team db !! t;
  cm_people : forall p, p ∈ people_of d ->
    entry_spec db tid stamp (list_to_set (d_Joined d)) (list_to_set (d_Left d)) p (loadSQLMembership db' p) /\
    cr_Indexes c !! p = Some (loadSQLMembership db' p);
  cm_rest : forall p, p ∉ people_of d -> loadSQLMembership db' p = loadSQLMembership db p;
  cm_invite : td_invite db' = put_invites (td_invite db) tid (d_InvitesRemoved d) (d_InvitesAdded d);
  cm_limit : forall a, a ∈ d_InvitesAdded d ->
    pending_invites db (ia_InviteeId a) stamp tid < MaxPendingInvitesPerInvitee;
  cm_queue : row_state old = 1 -> (d_Joined d <> [] \/ d_Left d <> [] \/
      record_leader (ad_record (row_data old)) <> record_leader (d_Record d)) -> ~ live_launch tid (td_queue db');
  cm_receipt : td_receipt db' = td_receipt db }.

Lemma commit_queue db tid old d q :
  (if (row_state old =? 1) &&
      (negb (Z.of_nat (length (d_Joined d) + length (d_Left d)) =? 0)
       || negb (record_leader (ad_record (row_data old)) =? record_leader (d_Record d)))
   then CancelTeamQueuedTx tid (td_queue db) else Ok (td_queue db)) = Ok q ->
  row_state old = 1 -> (d_Joined d <> [] \/ d_Left d <> [] \/
    record_leader (ad_record (row_data old)) <> record_leader (d_Record d)) -> ~ live_launch tid q.
Proof.
  intros Hq Hs Hch. rewrite Hs in Hq. simpl in Hq. destruct (_ || _) eqn:Hb; [by eapply cancel_clears|]. exfalso.
  zbool. destruct Hch as [Hj|[Hl|Hd]]; [| |done].
  - destruct (d_Joined d); [done|]. simpl in *. lia.
  - destruct (d_Left d); [done|]. simpl in *. lia.
Qed.

Lemma invite_limit_spec db stamp tid added :
  invite_limit db stamp tid added = None ->
  forall a, a ∈ added -> pending_invites db (ia_InviteeId a) stamp tid < MaxPendingInvitesPerInvitee.
Proof.
  unfold invite_limit. destruct (find_first _ _) eqn:Hf; [done|]. intros _ a Ha.
  rewrite find_first_None in Hf. specialize (Hf a Ha). by zbool.
Qed.

(** The row the transaction was checked against is the current one. *)
Definition current_row db (tid : Z) (old : sqlTeamRow) : Prop :=
  loadSQLTeam db tid = Ok old.

Lemma commitDecision_spec db tid old data d stamp c db' :
  db_ok db -> is_u64 stamp -> current_row db tid old ->
  commitDecision db tid old data d stamp = Ok (CommitDone c db') ->
  committed db tid stamp old data d c db'.
Proof.
  intros Hok Hst Hcur. unfold commitDecision. intros (u & Hval & Hrest)%bind_Ok. destruct u.
  destruct (_ =? MaxUint64) eqn:Hmax; [done|]. zbool.
  apply bind_Ok in Hrest as ([indexes|[code param]] & Hpi & Hrest); [|done].
  destruct (invite_limit _ _ _ _) eqn:Hlim; [done|].
  unfold commit_write in Hrest. apply bind_Ok in Hrest as (q & Hq & Hrest).
  apply bind_Ok in Hrest as (teams & Hteams & Hrest). injection Hrest as <- <-.
  set (people := sort_stable _ _) in *.
  assert (Hpeople : forall p, p ∈ people <-> p ∈ people_of d) by (intros p; apply elem_of_sort_stable).
  destruct (people_indexes_spec _ _ _ _ _ _ _ _ Hpi) as [Hin _].
  assert (Hver : u64 (row_version old + 1) = row_version old + 1).
  { apply u64_small. destruct (loadSQLTeam_ok db tid old Hok Hcur) as [(_ & ->)|[(r & H)|(r & H)]];
      unfold is_u64, MaxUint64, u64_mod in *; simpl in *; [lia|..]; destruct_and!; lia. }
  assert (Hrow : teams = <[tid := mkRow (row_version old + 1) (stamp +64 TeamIdleTTLSeconds * 1000)
                              (match d_Record d with None => 2 | Some _ => 1 end) data]> (td_team db)).
  { unfold put_team_row in Hteams. rewrite Hver in Hteams.
    destruct (loadSQLTeam_ok db tid old Hok Hcur) as [(He & ->)|[(r & H)|(r & H)]]; simpl in *.
    - rewrite He in Hteams. by simplify_eq.
    - destruct_and!. rewrite (proj2 (Z.eqb_neq _ _)) in Hteams by lia.
      destruct (td_team db !! tid); simplify_eq. rewrite Z.eqb_refl in Hteams. by simplify_eq.
    - destruct_and!. rewrite (proj2 (Z.eqb_neq _ _)) in Hteams by lia.
      destruct (td_team db !! tid); simplify_eq. rewrite (proj2 (Z.eqb_eq _ _)) in Hteams by lia.
      by simplify_eq. }
  assert (Hlook : forall p, p ∈ people_of d -> exists e, indexes !! p = Some e /\
    default (mkIndex 0 0) (put_members (td_member db) indexes people !! p) = e /\
    next_index db tid stamp (list_to_set (d_Joined d)) (list_to_set (d_Left d)) p = Ok (inl e)).
  { intros p Hp. apply Hpeople in Hp as Hp'. destruct (Hin p Hp') as (e & He & Hn). exists e.
    rewrite put_members_lookup, bool_decide_eq_true_2 by done. rewrite He. auto. }
  constructor; unfold loadSQLMembership in *; simpl; try done.
  - rewrite Hrow. apply lookup_insert_eq.
  - intros t Ht. rewrite Hrow. by apply lookup_insert_ne.
  - intros p Hp. destruct (Hlook p Hp) as (e & He & Hd & Hn). rewrite Hd. split; [|done].
    eapply next_index_spec; [done|apply (ok_epoch db Hok)|done].
  - intros p Hp. rewrite put_members_lookup, bool_decide_eq_false_2; [done|]. by rewrite Hpeople.
  - by apply invite_limit_spec.
  - by eapply commit_queue.
Qed.

(** ** A sound commit keeps the invariant *)
Lemma committed_ok db tid stamp old data d c db' :
  db_ok db -> is_u64 stamp -> current_row db tid old -> row_version old + 1 < u64_mod ->
  ad_record data = d_Record d ->
  sound_decision tid (ad_record (row_data old)) d ->
  committed db tid stamp old data d c db' -> db_ok db'.
Proof.
  intros Hok Hst Hcur Hvmax Hdata Hsd Hcm.
  assert (Htid : tid <> 0).
  { pose proof (cm_valid _ _ _ _ _ _ _ _ Hcm) as Hv. unfold validateCommitSets in Hv.
    apply bind_Ok in Hv as (u & Hg & _). apply guard_Ok in Hg. by zbool. }
  pose proof (loadSQLTeam_ok db tid old Hok Hcur) as Hold.
  assert (Hv0 : 0 <= row_version old).
  { destruct Hold as [(_ & ->)|[(r & H)|(r & H)]]; [done|destruct_and!; lia..]. }
  assert (Hseq : next_seq_of (ad_record (row_data old)) <= row_version old + 1).
  { destruct Hold as [(_ & ->)|[(r & H)|(r & H)]]; [done|..]; destruct_and!.
    - match goal with H : ad_record _ = Some r |- _ => rewrite H end. done.
    - match goal with H : ad_record _ = None |- _ => rewrite H end. unfold next_seq_of; simpl; lia. }
  assert (Hact : forall r, active db tid r -> ad_record (row_data old) = Some r).
  { intros r (row & Hr & Hs & Hd). destruct Hold as [(Hn & _)|[(r' & H)|(row0 & H)]]; destruct_and?; congruence. }
  assert (Hact' : forall r, active db' tid r <-> d_Record d = Some r).
  { intros r. unfold active. rewrite (cm_row _ _ _ _ _ _ _ _ Hcm). split.
    - intros (row & [= <-] & Hs & Hd). simpl in *. congruence.
    - intros Hd. eexists. split; [done|]. simpl. rewrite Hd in *. done. }
  assert (Hactn : forall t r, t <> tid -> active db' t r <-> active db t r).
  { intros t r Ht. unfold active. by rewrite (cm_others _ _ _ _ _ _ _ _ Hcm t Ht). }
  assert (Hjk : forall r p, d_Record d = Some r -> p ∈ ids r <-> p ∈ d_Joined d ++ d_Kept d).
  { intros r p Hr. destruct (sd_record _ _ _ Hsd r Hr) as (_ & _ & Hp & _).
    by rewrite <- Hp, elem_of_MemberIds. }
  assert (Hnd : forall p, p ∈ d_Joined d ++ d_Kept d -> p ∉ d_Left d).
  { intros p Hp. pose proof (sd_nodup _ _ _ Hsd) as Hn. unfold people_of in Hn.
    rewrite app_assoc in Hn. apply NoDup_app in Hn as (_ & Hn & _). auto. }
  assert (Hppl : forall p, p ∈ people_of d <-> p ∈ d_Joined d \/ p ∈ d_Kept d \/ p ∈ d_Left d).
  { intros p. unfold people_of. rewrite !elem_of_app. done. }
  (* the team of every person after the commit *)
  assert (Hteam : forall p, p ∈ people_of d ->
            (ix_TeamId (loadSQLMembership db' p) = tid /\ p ∈ d_Joined d ++ d_Kept d) \/
            (ix_TeamId (loadSQLMembership db' p) = 0 /\ p ∈ d_Left d)).
  { intros p Hp. destruct (cm_people _ _ _ _ _ _ _ _ Hcm p Hp) as ((_ & Hn & Hl & Hj & _ & Hk) & _).
    rewrite !elem_of_list_to_set in *. apply Hppl in Hp as Hpp.
    destruct (decide (p ∈ d_Left d)) as [Hpl|Hpl]; [right; auto|]. left.
    destruct (decide (p ∈ d_Joined d)) as [Hpj|Hpj]; rewrite elem_of_app; [auto|].
    rewrite Hk by done. split; [auto|]. naive_solver. }
  constructor.
  - intros t row Hrow. destruct (decide (t = tid)) as [->|Hne].
    + rewrite (cm_row _ _ _ _ _ _ _ _ Hcm) in Hrow. injection Hrow as <-. split; [done|].
      constructor; simpl; [lia|destruct (d_Record d); auto|].
      intros Hs. destruct (d_Record d) as [r|] eqn:Hr; [|done]. exists r.
      destruct (sd_record _ _ _ Hsd r Hr) as (? & ? & _ & ?). split_and!; try done. lia.
    + rewrite (cm_others _ _ _ _ _ _ _ _ Hcm t Hne) in Hrow. by apply (ok_row db Hok).
  - intros p. destruct (decide (p ∈ people_of d)) as [Hp|Hp].
    + destruct (cm_people _ _ _ _ _ _ _ _ Hcm p Hp) as ((_ & _ & _ & _ & He & Hk) & _).
      rewrite !elem_of_list_to_set in *.
      destruct (decide (p ∈ d_Joined d)); [by apply He; left|].
      destruct (decide (p ∈ d_Left d)); [by apply He; right|].
      rewrite Hk by done. apply (ok_epoch db Hok).
    + rewrite (cm_rest _ _ _ _ _ _ _ _ Hcm p Hp). apply (ok_epoch db Hok).
  - intros p Hp. destruct (decide (p ∈ people_of d)) as [Hin|Hni].
    + destruct (Hteam p Hin) as [[Ht Hjkp]|[Ht _]]; [|congruence]. rewrite Ht in *.
      destruct (d_Record d) as [r|] eqn:Hr.
      * exists r. split; [by apply Hact'|]. by apply Hjk.
      * destruct (sd_gone _ _ _ Hsd Hr) as [HJ HK]. rewrite HJ, HK in Hjkp. set_solver.
    + rewrite (cm_rest _ _ _ _ _ _ _ _ Hcm p Hni) in *.
      destruct (ok_index db Hok p Hp) as (r & Ha & Hr).
      destruct (decide (ix_TeamId (loadSQLMembership db p) = tid)) as [Ht|Ht].
      * exfalso. apply Hni. rewrite Ht in Ha. apply Hact in Ha.
        pose proof (sd_old _ _ _ Hsd p) as Ho. rewrite Ha in Ho. specialize (Ho Hr).
        apply Hppl. rewrite elem_of_app in Ho. naive_solver.
      * exists r. split; [by apply Hactn|done].
  - intros t r p Ha Hp. destruct (decide (t = tid)) as [->|Hne].
    + apply Hact' in Ha as Hr. apply (Hjk r p Hr) in Hp as Hjkp.
      assert (p ∈ people_of d) as Hpp by (apply Hppl; rewrite elem_of_app in Hjkp; naive_solver).
      destruct (Hteam p Hpp) as [[? _]|[_ Hl]]; [done|]. exfalso. by apply (Hnd p).
    + apply Hactn in Ha; [|done]. pose proof (ok_member db Hok t r p Ha Hp) as Hidx.
      assert (t <> 0) as Ht0. { destruct Ha as (row & Hrow & _). by apply (ok_row db Hok) in Hrow as [? _]. }
      rewrite (cm_rest _ _ _ _ _ _ _ _ Hcm p); [done|]. intros Hpp.
      destruct (cm_people _ _ _ _ _ _ _ _ Hcm p Hpp) as ((Hj & Hn & _) & _).
      destruct (decide (p ∈ (list_to_set (d_Joined d) : gset Z))) as [Hpj|Hpj];
        [destruct (Hj Hpj); congruence|]. specialize (Hn Hpj). congruence.
Qed.

(** ** The pieces of a transaction *)

(** Everything but the role tables and the receipts. *)
Definition same_tables db db' : Prop :=
  td_team db' = td_team db /\ td_member db' = td_member db /\ td_invite db' = td_invite db /\
  td_application db' = td_application db /\ td_queue db' = td_queue db.

Lemma same_tables_core db db' : same_tables db db' -> same_core db db'.
Proof. by intros (? & ? & _). Qed.

Lemma lockTeamRoutes_frame db now ps db' :
  lockTeamRoutes db now ps = Ok db' -> same_tables db db' /\ td_receipt db' = td_receipt db.
Proof. unfold lockTeamRoutes. destruct (LockRoleRoutes _ _ _ _); [|done]. by intros [= <-]. Qed.

Lemma Capture_frame db now idt actor ogs nt db' out :
  CaptureTeamOriginals db now idt actor ogs nt = Ok (db', out) ->
  actor <> 0 /\ same_tables db db' /\ td_receipt db' = td_receipt db.
Proof.
  unfold CaptureTeamOriginals. destruct (actor =? 0) eqn:H0; [done|]. destruct (role_incomplete _); [done|].
  intros (bp & _ & Hr)%bind_Ok. apply bind_Ok in Hr as (db1 & Hl & Hr).
  apply bind_Ok in Hr as (o & _ & [= <- <-]). zbool.
  apply lockTeamRoutes_frame in Hl as [? ?]. done.
Qed.

Lemma LockOriginals_frame db now ogs db' :
  LockTeamOriginals db now ogs = Ok db' -> same_tables db db' /\ td_receipt db' = td_receipt db.
Proof.
  unfold LockTeamOriginals. intros (db1 & Hl & Hr)%bind_Ok. apply lockTeamRoutes_frame in Hl as [? ?].
  case_bool_decide; [done|]. apply bind_Ok in Hr as (u & _ & [= <-]). done.
Qed.

Lemma nextSQLTeamData_record old d op ogs data :
  nextSQLTeamData old d op ogs = Ok data -> ad_record data = d_Record d.
Proof.
  unfold nextSQLTeamData. destruct (d_Record d); [|by intros [= <-]].
  intros (ms & _ & Hr)%bind_Ok. apply bind_Ok in Hr as (aps & _ & Hr).
  by apply bind_Ok in Hr as (ivs & _ & [= <-]).
Qed.

(** A version below this bound leaves room for the join sequence. *)
Definition version_bound : Z := u32_mod - 3.

Definition versions_low db (n : Z) : Prop := forall t row, td_team db !! t = Some row -> row_version row <= n.

(** What the decision of a transaction is, and that it was committed. *)
Record decided db (tid stamp : Z) (op : Op) (sessions : Sessions) (cfg : RuleConfig) (row : sqlTeamRow)
    (c : CommitResult) db' : Prop := {
  dc_sound : sound_decision tid (ad_record (row_data row)) (cr_Decision c);
  dc_apply : cr_Decision c = Apply op (ad_record (row_data row)) stamp sessions cfg;
  dc_commit : exists data, ad_record data = d_Record (cr_Decision c) /\
    committed db tid stamp row data (cr_Decision c) c db' }.

Lemma mutate_decide_spec db bind op row locked ss cfg stamp snap res db' :
  db_ok db -> versions_low db version_bound -> is_u64 stamp -> current_row db (bd_teamId bind) row ->
  (row_state row = 1 \/ row_version row = 0) -> Caller op <> 0 ->
  mutate_decide db bind op row locked ss cfg stamp snap = Ok (res, db') ->
  (mr_Outcome res <> OutcomeCommitted /\ mr_Commit res = None /\ db' = db) \/
  (exists c, mr_Outcome res = OutcomeCommitted /\ mr_Commit res = Some c /\
     decided db (bd_teamId bind) stamp op ss cfg row c db').
Proof.
  intros Hok Hlow Hst Hcur Hstate Hcl. unfold mutate_decide.
  destruct (_ && _); [intros [= <- <-]; by left|].
  set (rec := ad_record (row_data row)). set (d := Apply op rec stamp ss cfg).
  destruct (negb (d_Code d =? 0)) eqn:Hcode; [intros [= <- <-]; by left|].
  destruct (negb (d_Changed d)) eqn:Hchg; [intros [= <- <-]; by left|]. zbool.
  intros (data & Hdata & Hr)%bind_Ok. apply bind_Ok in Hr as (out & Hcommit & Hr).
  destruct out as [code param|c db1]; injection Hr as <- <-; [by left|]. right. exists c.
  split; [done|]. split; [done|].
  pose proof (commitDecision_spec _ _ _ _ _ _ _ _ Hok Hst Hcur Hcommit) as Hcm.
  destruct (cm_result _ _ _ _ _ _ _ _ Hcm) as (_ & _ & Hd).
  apply nextSQLTeamData_record in Hdata.
  assert (Hrec : forall r, rec = Some r -> wf_record r /\ headroom r /\ tr_team_id r = bd_teamId bind).
  { intros r Hr. subst rec. destruct (loadSQLTeam_ok db _ row Hok Hcur) as [(_ & ->)|[(r' & H)|(row0 & H)]];
      [done|..]; destruct_and!; [|congruence].
    assert (r' = r) as -> by congruence. split_and!; try done. unfold headroom.
    assert (row_version row <= version_bound) by (by eapply Hlow). unfold version_bound, u32_mod in *. lia. }
  destruct (Apply_sound op rec stamp ss cfg Hcl) as (tid & Hsd & Ht1 & Ht2);
    [intros r Hr; by destruct (Hrec r Hr) as (? & ? & _)|done|done|].
  assert (tid = bd_teamId bind) as ->.
  { destruct rec as [r|] eqn:Hre; [rewrite (Ht1 r) by done; by apply Hrec|].
    pose proof (cm_valid _ _ _ _ _ _ _ _ Hcm) as Hv. fold d in Hsd.
    destruct (d_Record d) as [r|] eqn:Hdr.
    - destruct (sd_record _ _ _ Hsd r Hdr) as (_ & <- & _). unfold validateCommitSets in Hv. rewrite Hdr in Hv.
      apply bind_Ok in Hv as (? & _ & Hv). apply bind_Ok in Hv as (? & _ & Hv).
      apply bind_Ok in Hv as (? & Hv & _). apply bind_Ok in Hv as (? & Hv & _). apply guard_Ok in Hv. by zbool.
    - exfalso. subst d. unfold Apply, applyCreate in *. destruct (Kind op); try done.
      repeat split_if; simplify_eq/=. }
  constructor; rewrite Hd; try done. exists data. split; [done|]. exact Hcm.
Qed.

Lemma writeSQLAction_frame db act resp stamp db' act' :
  writeSQLAction db act resp stamp = Ok (db', act') ->
  same_tables db db' /\
  (forall k rc, td_receipt db !! k = Some rc -> td_receipt db' !! k = Some rc) /\
  (forall a, act = Some a -> td_receipt db !! receipt_key a = None /\
     exists rc, td_receipt db' !! receipt_key a = Some rc /\ act' = Some (set_committed a (Some (ar_result rc)) (ac_replayed a)) /\
       ar_method rc = ac_method a /\ ar_payload rc = ac_payload a /\
       ar_owner_account rc = og_owner_account (ac_actor a) /\ ar_owner_rev rc = og_owner_revision (ac_actor a)).
Proof.
  unfold writeSQLAction. destruct act as [a|]; [|intros [= <- <-]; split_and!; done].
  destruct (td_receipt db !! receipt_key a) eqn:Hk; [done|]. intros [= <- <-]. simpl. split_and!; try done.
  - intros k rc Hrc. rewrite lookup_insert_ne; [done|]. intros <-. congruence.
  - intros a' [= <-]. split; [done|]. eexists. rewrite lookup_insert_eq. done.
Qed.

(** ** The mutation transaction *)
Definition bound_op db (bind : Binding) (op : Op) : Op :=
  set_caller_team op (ix_TeamId (loadSQLMembership db (bd_playerId bind))).

(** The two ways through the transaction, for any database: the replay of a
    recorded intent, or the bound operation followed by the receipt. *)
(** The receipt is one of the same operation, payload and identity. *)
Definition same_intent (rc : ActionReceipt) (a : sqlAction) : Prop :=
  ar_method rc = ac_method a /\ ar_payload rc = ac_payload a /\
  ar_owner_account rc = og_owner_account (ac_actor a) /\ ar_owner_rev rc = og_owner_revision (ac_actor a).

Lemma mutateTx_cases db stamp idt act bind op obs ogs ss cfg res act' db' :
  mutateTx db stamp idt act bind op obs ogs ss cfg = Ok (TxDone res act' db') ->
  Caller op <> 0 /\
  ((exists a rc, act = Some a /\ td_receipt db !! receipt_key a = Some rc /\ same_intent rc a /\
     mr_Outcome res = OutcomeUnchanged /\ act' = Some (set_committed a (Some (ar_result rc)) true) /\
     same_tables db db' /\ td_receipt db' = td_receipt db) \/
  (exists db1 db2 row resp, same_tables db db1 /\ td_receipt db1 = td_receipt db /\
     loadSQLTeam db1 (bd_teamId bind) = Ok row /\ sameSQLTeam obs row = true /\
     (forall a, act = Some a -> td_receipt db !! receipt_key a = None) /\
     ((mr_Outcome res <> OutcomeCommitted /\ mr_Commit res = None /\ db2 = db1) \/
      (exists locked snap, (row_state row = 1 \/ row_version row = 0) /\
         mutate_decide db1 bind (bound_op db1 bind op) row locked ss cfg stamp snap = Ok (res, db2))) /\
     writeSQLAction db2 act resp stamp = Ok (db', act'))).
Proof.
  unfold mutateTx.
  intros ([db1 locked] & Hcap & Hr)%bind_Ok. apply Capture_frame in Hcap as (Hact & Hst1 & Hrc). split; [done|].
  apply bind_Ok in Hr as (u & _ & Hr). apply bind_Ok in Hr as (prev & Hprev & Hr).
  destruct prev as [r|].
  { left. destruct act as [a|]; [|done]. injection Hr as <- <- <-. unfold loadSQLAction in Hprev.
    destruct (td_receipt db1 !! receipt_key a) as [rc|] eqn:Hrk; [|done].
    destruct (_ || _) eqn:Hsame; [done|]. injection Hprev as <-. zbool. exists a, rc. rewrite <- Hrc.
    repeat match goal with H : bool_decide _ = true |- _ => apply bool_decide_eq_true_1 in H end.
    by split_and!. }
  right.
  assert (Hnone : forall a, act = Some a -> td_receipt db !! receipt_key a = None).
  { intros a ->. unfold loadSQLAction in Hprev. rewrite Hrc in Hprev.
    destruct (td_receipt db !! receipt_key a); [|done]. by destruct (negb _ || _ || _ || _). }
  assert (Hrow : exists row, loadSQLTeam db1 (bd_teamId bind) = Ok row).
  { destruct act; apply bind_Ok in Hr as (row & ? & _); eauto. }
  destruct Hrow as [row Hrow]. rewrite Hrow in Hr.
  destruct (sameSQLTeam obs row) eqn:Hsame; [|by destruct act; simpl in Hr; rewrite Hsame in Hr].
  assert (Hr' : exists res1 db2 resp, (let index := loadSQLMembership db1 (bd_playerId bind) in
      let snap := sqlTeamSnapshot (bd_playerId bind) (bd_teamId bind) stamp index row in
      if bool_decide (bd_mode bind = bindModeCaller)
            && ((bd_teamId bind =? 0) || negb (ix_TeamId index =? bd_teamId bind))
         then Ok (resultOf OutcomeNotBound 0 0 snap noDecision None, db1)
         else if bool_decide (bd_mode bind = bindModeCreate) && negb (row_version row =? 0)
         then Ok (resultOf OutcomeRejected ErrStateChanged 0 snap noDecision None, db1)
         else if negb (bool_decide (bd_mode bind = bindModeCreate)) && negb (row_state row =? 1)
         then Ok (resultOf OutcomeRecordMissing 0 0 snap noDecision None, db1)
         else mutate_decide db1 bind (set_caller_team op (ix_TeamId index)) row locked ss cfg stamp snap)
      = Ok (res1, db2) /\ res1 = res /\ writeSQLAction db2 act resp stamp = Ok (db', act')).
  { destruct act; simpl in Hr; rewrite Hsame in Hr; cbn [negb] in Hr;
      apply bind_Ok in Hr as ([res1 db2] & Hdec & Hr).
    - apply bind_Ok in Hr as ([db3 act3] & Hw & Hr). injection Hr as -> -> ->. eauto 10.
    - injection Hr as -> <- <-. exists res, db2, (mkResponse None None). done. }
  clear Hr. destruct Hr' as (res1 & db2 & resp & Hdec & -> & Hw). cbv zeta in Hdec.
  exists db1, db2, row, resp. split_and!; try done. clear Hw.
  destruct (_ && _) in Hdec; [injection Hdec as <- <-; by left|].
  destruct (bool_decide (bd_mode bind = bindModeCreate) && _) eqn:H1; [injection Hdec as <- <-; by left|].
  destruct (negb (bool_decide (bd_mode bind = bindModeCreate)) && _) eqn:H2; [injection Hdec as <- <-; by left|].
  right. eexists _, _. split; [|exact Hdec].
  destruct (bool_decide (bd_mode bind = bindModeCreate)); simpl in *; zbool; [by right|by left].
Qed.

Lemma mutateTx_inv db stamp idt act bind op obs ogs ss cfg res act' db' :
  db_ok db -> versions_low db version_bound -> is_u64 stamp ->
  mutateTx db stamp idt act bind op obs ogs ss cfg = Ok (TxDone res act' db') ->
  (mr_Outcome res <> OutcomeCommitted /\ same_tables db db') \/
  (exists db1 db2 row c, same_tables db db1 /\ current_row db1 (bd_teamId bind) row /\
     sameSQLTeam obs row = true /\ mr_Outcome res = OutcomeCommitted /\ mr_Commit res = Some c /\
     decided db1 (bd_teamId bind) stamp (bound_op db1 bind op) ss cfg row c db2 /\ same_tables db2 db').
Proof.
  intros Hok Hlow Hst (Hcl & Hc)%mutateTx_cases.
  destruct Hc as [(a & rc & _ & _ & _ & Ho & _ & Hs & _)|
    (db1 & db2 & row & resp & Hs & _ & Hrow & Hsame & _ & Hcase & Hw)]; [left; by rewrite Ho|].
  apply writeSQLAction_frame in Hw as (Hw & _).
  assert (Htr : forall x y z, same_tables x y -> same_tables y z -> same_tables x z).
  { intros x y z (? & ? & ? & ? & ?) (? & ? & ? & ? & ?). split_and!; congruence. }
  assert (Hok1 : db_ok db1) by (eapply db_ok_core; [by apply same_tables_core|done]).
  assert (Hlow1 : versions_low db1 version_bound) by (unfold versions_low; by rewrite (proj1 Hs)).
  destruct Hcase as [(Ho & _ & ->)|(locked & snap & Hst1 & Hdec)]; [left; split; [done|by eapply Htr]|].
  destruct (mutate_decide_spec _ _ (bound_op db1 bind op) _ _ _ _ _ _ _ _ Hok1 Hlow1 Hst Hrow Hst1 Hcl Hdec)
    as [(Ho & _ & ->)|(c & Ho & Hc & Hd)]; [left; split; [done|by eapply Htr]|].
  right. exists db1, db2, row, c. done.
Qed.

(** ** Transactions as steps *)
Inductive store_step db : TeamDB Q -> Prop :=
  | st_mutate stamp idt act bind op obs ogs ss cfg res act' db' :
      is_u64 stamp -> mutateTx db stamp idt act bind op obs ogs ss cfg = Ok (TxDone res act' db') ->
      store_step db db'
  | st_replay now a resp db' : replayActionTx db now a = Ok (resp, db') -> store_step db db'
  | st_record stamp a resp act' db' : recordNoMutationActionTx db stamp a resp = Ok (act', db') -> store_step db db'
  | st_touch stamp idt snap obs b db' : touchTx db stamp idt snap obs = Ok (b, db') -> store_step db db'
  | st_expire stamp t obs c db' :
      is_u64 stamp -> expireIdleTx db stamp t obs = Ok (Some (c, db')) -> store_step db db'
  | st_prune stamp actor t e b db' : pruneInviteTx db stamp actor t e = Ok (b, db') -> store_step db db'.

(** The store after [n] transactions from an empty one. *)
Inductive store_run : nat -> TeamDB Q -> Prop :=
  | run_start roles queue receipts : store_run 0 (mkDB roles ∅ ∅ ∅ ∅ receipts queue)
  | run_step n db db' : store_run n db -> store_step db db' -> store_run (S n) db'.

Definition db_inv db (n : Z) : Prop := db_ok db /\ versions_low db n.

Lemma db_inv_core db db' n : same_core db db' -> db_inv db n -> db_inv db' (n + 1).
Proof.
  intros Hc [Hok Hlow]. split; [by eapply db_ok_core|]. unfold versions_low. destruct Hc as [-> _].
  intros t row Hr. specialize (Hlow t row Hr). lia.
Qed.

Lemma db_inv_committed db tid stamp old data d c db' n :
  db_inv db n -> 0 <= n -> n <= version_bound -> is_u64 stamp -> current_row db tid old ->
  ad_record data = d_Record d -> sound_decision tid (ad_record (row_data old)) d ->
  committed db tid stamp old data d c db' -> db_inv db' (n + 1).
Proof.
  intros [Hok Hlow] Hn0 Hn Hst Hcur Hdata Hsd Hcm.
  assert (row_version old <= n) as Hv.
  { destruct (loadSQLTeam_ok db tid old Hok Hcur) as [(_ & ->)|[(r & H)|(row0 & H)]]; [done|..]; destruct_and!.
    - by eapply Hlow.
    - match goal with H : row_version old = _ |- _ => rewrite H end. by eapply Hlow. }
  split.
  - eapply committed_ok; eauto. unfold version_bound, u64_mod, u32_mod in *. lia.
  - intros t row Hr. destruct (decide (t = tid)) as [->|Hne].
    + rewrite (cm_row _ _ _ _ _ _ _ _ Hcm) in Hr. injection Hr as <-. simpl. lia.
    + rewrite (cm_others _ _ _ _ _ _ _ _ Hcm t Hne) in Hr. specialize (Hlow t row Hr). lia.
Qed.

(** The decision of [expireIdle] is sound. *)
Lemma expire_sound r revoked :
  wf_record r ->
  sound_decision (tr_team_id r) (Some r)
    (mkDecision 0 0 true None [] [] (MemberIds r) [] (ti_invitee_id <$> tr_invites r) [] false
       REASON_DISBANDED 0 false true revoked 0 0).
Proof.
  intros Hwf. rewrite (wf_MemberIds _ Hwf). destruct Hwf. constructor; unfold people_of; simpl; try done;
    try (by apply NoDup_nil_2); set_solver.
Qed.

Lemma expireIdleTx_inv db stamp t obs c db' :
  db_ok db -> expireIdleTx db stamp t obs = Ok (Some (c, db')) ->
  exists db1 row r d, same_tables db db1 /\ td_receipt db1 = td_receipt db /\ current_row db1 t row /\
    sameSQLTeam row obs = true /\ row_state row = 1 /\ row_idleExpires row <= stamp /\
    ad_record (row_data row) = Some r /\ tr_match_lock_token r = ""%string /\ d_Left d = MemberIds r /\
    d_Record d = None /\ sound_decision t (ad_record (row_data row)) d /\
    commitDecision db1 t row emptyData d stamp = Ok (CommitDone c db').
Proof.
  intros Hok. unfold expireIdleTx. destruct (negb _); [done|].
  intros (db1 & Hl & Hr)%bind_Ok. apply LockOriginals_frame in Hl as [Hs Hrc].
  apply bind_Ok in Hr as (row & Hrow & Hr). destruct (negb (sameSQLTeam row obs)) eqn:Hsame; [done|].
  destruct (ad_record (row_data row)) as [r|] eqn:Hre; [|done].
  destruct (_ || _) eqn:Hc in Hr; [done|]. apply bind_Ok in Hr as (out & Hcm & Hr).
  destruct out as [|c' db2]; [done|]. injection Hr as -> ->. zbool.
  assert (Hok1 : db_ok db1) by (eapply db_ok_core; [by apply same_tables_core|done]).
  match type of Hcm with commitDecision _ _ _ _ ?d _ = _ => exists db1, row, r, d end.
  split_and!; try done.
  destruct (loadSQLTeam_ok db1 t row Hok1 Hrow) as [(_ & ->)|[(r' & HH)|(row0 & HH)]]; [done|..]; destruct_and!; [|congruence].
  assert (r' = r) as -> by congruence. subst t. rewrite Hre. by apply expire_sound.
Qed.

Lemma touchTx_ok db stamp idt snap obs b db' n :
  db_inv db n -> touchTx db stamp idt snap obs = Ok (b, db') -> db_inv db' (n + 1).
Proof.
  intros Hinv. unfold touchTx. case_bool_decide as Hnil; [intros [= <- <-]; by eapply db_inv_core|].
  intros ([db1 o] & Hcap & Hr)%bind_Ok. apply Capture_frame in Hcap as (_ & Hs & _).
  apply bind_Ok in Hr as (cur & Hcur & Hr).
  destruct (_ || _) eqn:Hc; [injection Hr as <- <-; by eapply db_inv_core|].
  destruct (_ <=? _); [injection Hr as <- <-; by eapply db_inv_core|]. injection Hr as <- <-. zbool.
  assert (Hok1 : db_ok db1) by (eapply db_ok_core; [by apply same_tables_core|apply Hinv]).
  destruct (loadSQLTeam_ok _ _ _ Hok1 Hcur) as [(_ & ->)|[(r & HH)|(row0 & HH)]]; [done|..];
    destruct_and!; [|congruence].
  set (t := sn_TeamId snap) in *.
  match goal with H : td_team db1 !! t = Some cur |- _ => rename H into Hrow end.
  match goal with |- db_inv ?d _ => set (db2 := d) end.
  assert (Hlk : forall t' row', td_team db2 !! t' = Some row' -> exists row, td_team db1 !! t' = Some row /\
     row_version row' = row_version row /\ row_state row' = row_state row /\ row_data row' = row_data row).
  { intros t' row'. subst db2. simpl. destruct (decide (t' = t)) as [->|Hne].
    - rewrite lookup_insert_eq. intros [= <-]. by exists cur.
    - rewrite lookup_insert_ne by done. intros ?. by exists row'. }
  assert (Ha : forall t' r', active db2 t' r' <-> active db1 t' r').
  { intros t' r'. unfold active. split.
    - intros (row' & (row & ? & _ & Hs1 & Hd1)%Hlk & ? & ?). exists row. split_and!; congruence.
    - intros (row & Hr' & Hs1 & Hd1). subst db2. simpl. destruct (decide (t' = t)) as [->|Hne].
      + rewrite lookup_insert_eq. assert (row = cur) as -> by congruence. eexists. split; [done|]. done.
      + rewrite lookup_insert_ne by done. eauto. }
  destruct Hinv as [_ Hlow]. split.
  - constructor.
    + intros t' row' (row & Hr' & Hv & Hst' & Hd)%Hlk. destruct (ok_row _ Hok1 _ _ Hr') as [? []].
      split; [done|]. constructor; rewrite ?Hv, ?Hst', ?Hd; done.
    + apply (ok_epoch _ Hok1).
    + intros p Hp. destruct (ok_index _ Hok1 p Hp) as (r' & ? & ?). exists r'. by rewrite Ha.
    + intros t' r' p Hact Hp. apply (ok_member _ Hok1 t' r'); [by apply Ha|done].
  - intros t' row' (row & Hr' & -> & _)%Hlk. rewrite (proj1 Hs) in Hr'. specialize (Hlow _ _ Hr'). lia.
Qed.

Lemma pruneInviteTx_core db stamp actor t e b db' : pruneInviteTx db stamp actor t e = Ok (b, db') -> same_core db db'.
Proof.
  unfold pruneInviteTx. intros (db1 & Hl & Hr)%bind_Ok. apply LockOriginals_frame in Hl as [Hs _].
  apply bind_Ok in Hr as (row & _ & Hr). destruct (_ && _); [by injection Hr as <- <-|].
  case_bool_decide; injection Hr as <- <-; by destruct Hs as (? & ? & _).
Qed.

Lemma store_step_inv db db' n :
  db_inv db n -> 0 <= n -> n <= version_bound -> store_step db db' -> db_inv db' (n + 1).
Proof.
  intros Hinv Hn0 Hn Hstep. assert (Hlow : versions_low db version_bound).
  { intros t row Hr. pose proof (proj2 Hinv t row Hr). lia. }
  destruct Hstep as [stamp idt act bind op obs ogs ss cfg res act' db' Hst Htx|now a resp db' Htx|
      stamp a resp act' db' Htx|stamp idt snap obs b db' Htx|stamp t obs c db' Hst Htx|stamp actor t e b db' Htx].
  - destruct (mutateTx_inv _ _ _ _ _ _ _ _ _ _ _ _ _ (proj1 Hinv) Hlow Hst Htx) as
      [(_ & Hs%same_tables_core)|(db1 & db2 & row & c & Hs%same_tables_core & Hrow & _ & _ & _ & Hdec & Hw%same_tables_core)].
    + by eapply db_inv_core.
    + assert (Hinv1 : db_inv db1 n).
      { split; [eapply db_ok_core; [done|apply Hinv]|]. unfold versions_low. destruct Hs as [-> _]. apply Hinv. }
      destruct (dc_commit _ _ _ _ _ _ _ _ _ Hdec) as (data & Hdata & Hcm).
      assert (Hinv2 : db_inv db2 (n + 1)).
      { eapply db_inv_committed; [done|done|done|done| | | |exact Hcm]; [done..|]. apply (dc_sound _ _ _ _ _ _ _ _ _ Hdec). }
      destruct Hinv2 as [Hok2 Hlow2]. split; [by eapply db_ok_core|]. unfold versions_low. by destruct Hw as [-> _].
  - unfold replayActionTx in Htx. apply bind_Ok in Htx as (db1 & Hl & Hr).
    apply bind_Ok in Hr as (r & _ & [= <- <-]). apply LockOriginals_frame in Hl as [Hs _].
    eapply db_inv_core; [|done]. by apply same_tables_core.
  - unfold recordNoMutationActionTx in Htx. apply bind_Ok in Htx as (db1 & Hl & Hr).
    apply bind_Ok in Hr as (r & _ & Hr). apply LockOriginals_frame in Hl as [Hs%same_tables_core _].
    destruct r; [injection Hr as <- <-; by eapply db_inv_core|].
    apply bind_Ok in Hr as ([db2 a2] & Hw & [= <- <-]). apply writeSQLAction_frame in Hw as (Hw%same_tables_core & _).
    eapply db_inv_core; [|done]. destruct Hs, Hw. split; congruence.
  - by eapply touchTx_ok.
  - apply expireIdleTx_inv in Htx as (db1 & row & r & d & Hs & _ & Hcur & _ & _ & _ & _ & _ & _ & Hdr & Hsd & Hcm); [|apply Hinv].
    assert (Hinv1 : db_inv db1 n).
    { split; [eapply db_ok_core; [by apply same_tables_core|apply Hinv]|]. unfold versions_low. destruct Hs as [-> _]. apply Hinv. }
    eapply (db_inv_committed db1 t stamp row emptyData d c); [done|done|done|done|exact Hcur| |exact Hsd|].
    + by rewrite Hdr.
    + eapply commitDecision_spec; [apply Hinv1|done|done|exact Hcm].
  - apply pruneInviteTx_core in Htx. by eapply db_inv_core.
Qed.

Lemma store_run_inv n db : store_run n db -> Z.of_nat n <= version_bound + 1 -> db_inv db (Z.of_nat n).
Proof.
  induction 1 as [roles queue receipts|n db db' Hrun IH Hstep]; intros Hn.
  - split; [|intros t row; simpl; by rewrite lookup_empty]. constructor; simpl; unfold active, loadSQLMembership; simpl.
    + intros t row. by rewrite lookup_empty.
    + intros p. rewrite lookup_empty. done.
    + intros p. by rewrite lookup_empty.
    + intros t r p (row & Hrow & _). by rewrite lookup_empty in Hrow.
  - replace (Z.of_nat (S n)) with (Z.of_nat n + 1) by lia.
    eapply store_step_inv; [apply IH; lia|lia|lia|done].
Qed.
End thms.
