(* ===== verification/TeamStoreProps.v ===== *)
(** * Properties of the SQL team store

    The theorems a user of the store relies on, over every reachable database:
    one team per player, what a commit writes, that a refused request writes
    nothing, exactly-once requests, optimistic concurrency, the invite quota and
    the idle expiry. *)

From stdpp Require Import base list gmap sorting strings relations.
From Stdlib Require Import ZArith Lia.
From S2P Require Import Prelude TeamRecord TeamRules TeamSpec TeamThms TeamMatch.
From S2P Require Import RoleRoute TeamView TeamStore TeamCommit TeamStoreThms.
Local Open Scope Z_scope.
Local Open Scope go_scope.

(** ** A concrete store: two players, no team yet *)
Definition demo_roles : RoleDB :=
  mkRoleDB (Some 1)
    {[ (1, 1) := mkRoute (Some 9) 1 None; (2, 2) := mkRoute (Some 9) 1 None ]} ∅
    {[ 1 := mkRole "alice"%string 4 0; 2 := mkRole "bob"%string 5 0 ]}.

Definition demo_queue : LaunchDB := mkLaunchDB ∅ ∅ ∅ ∅ ∅.
Definition demo_db : TeamDB LaunchDB := mkDB demo_roles ∅ ∅ ∅ ∅ ∅ demo_queue.
Definition alice : TeamOriginalRole := mkOriginal 1 "alice"%string 4.
Definition demo_action : sqlAction := mkAction alice 10 20 OpCreate "payload"%string None false.

(** Alice creates team 77. *)
Definition demo_create : res (TxResult LaunchDB) :=
  mutateTx demo_db 5000 (Some alice) (Some demo_action) (BindCreate 1 77) (CreateOp 1 77 9)
    (mkRow 0 0 0 emptyData) [] ∅ (mkCfg false).

Definition tx_db (r : res (TxResult LaunchDB)) : TeamDB LaunchDB :=
  match r with Ok (TxDone _ _ db) => db | _ => demo_db end.
Definition tx_result (r : res (TxResult LaunchDB)) : MutateResult :=
  match r with Ok (TxDone res _ _) => res | _ => resultOf OutcomeRejected 0 0 emptySnapshot noDecision None end.
Definition tx_action (r : res (TxResult LaunchDB)) : option sqlAction :=
  match r with Ok (TxDone _ a _) => a | _ => None end.

Lemma demo_create_done :
  demo_create = Ok (TxDone (tx_result demo_create) (tx_action demo_create) (tx_db demo_create)).
Proof. vm_compute. reflexivity. Qed.

Lemma demo_run : store_run 1 (tx_db demo_create).
Proof.
  eapply run_step; [apply (run_start demo_roles demo_queue ∅)|].
  eapply st_mutate; [|exact demo_create_done]. done.
Qed.

Lemma demo_db_ok : db_ok demo_db /\ versions_low demo_db version_bound.
Proof. split; [apply (store_run_inv 0); [constructor|done]|]. intros t row H. unfold demo_db in H. simpl in H. by rewrite lookup_empty in H. Qed.

Section props.
Context {Q : Type} `{!LaunchQueue Q}.
Implicit Types db : TeamDB Q.

(** C16: In every database a run of fewer than 2^32-2 store transactions can
    reach, a player is a member of at most one active team, the membership index
    names that team and no other, and every active record is well formed. *)
Theorem one_team_per_player n db :
  store_run n db -> Z.of_nat n <= version_bound + 1 ->
  (forall t1 t2 r1 r2 p, active db t1 r1 -> active db t2 r2 ->
     p ∈ MemberIds r1 -> p ∈ MemberIds r2 -> t1 = t2) /\
  (forall p t, t <> 0 -> ix_TeamId (loadSQLMembership db p) = t <->
     exists r, active db t r /\ p ∈ MemberIds r) /\
  (forall t r, active db t r -> wf_record r /\ tr_team_id r = t).
Proof.
  intros Hrun Hn. destruct (store_run_inv n db Hrun Hn) as [Hok _]. split_and!.
  - intros t1 t2 r1 r2 p H1 H2. rewrite !elem_of_MemberIds. intros Hp1 Hp2.
    by rewrite <- (ok_member db Hok t1 r1 p H1 Hp1), <- (ok_member db Hok t2 r2 p H2 Hp2).
  - intros p t Ht. split.
    + intros Hi. destruct (ok_index db Hok p) as (r & Ha & Hp); [congruence|]. rewrite Hi in Ha.
      exists r. by rewrite elem_of_MemberIds.
    + intros (r & Ha & Hp). apply (ok_member db Hok t r); [done|]. by rewrite <- elem_of_MemberIds.
  - intros t r (row & Hrow & Hs & Hr). destruct (ok_row db Hok t row Hrow) as [_ [_ _ Hrec]].
    destruct (Hrec Hs) as (r' & ? & ? & ? & _). simplify_eq. done.
Qed.

(** C30: A committed mutation is exactly the decision of the rules: the team's row
    gets the next version and the decided record, the joined players point to the
    team and the left ones to none, each with an epoch above its old one and not
    below the clock, the kept ones are untouched, and so is every other player
    and every other team. *)
Theorem commit_writes_decision db stamp idt act bind op obs ogs ss cfg res act' db' :
  db_ok db -> versions_low db version_bound -> is_u64 stamp ->
  mutateTx db stamp idt act bind op obs ogs ss cfg = Ok (TxDone res act' db') ->
  mr_Outcome res = OutcomeCommitted ->
  exists row d c, sameSQLTeam obs row = true /\ mr_Commit res = Some c /\ cr_Decision c = d /\
    d = Apply (bound_op db bind op) (ad_record (row_data row)) stamp ss cfg /\
    cr_Version c = row_version row + 1 /\
    (exists row', td_team db' !! bd_teamId bind = Some row' /\ row_version row' = row_version row + 1 /\
       ad_record (row_data row') = d_Record d /\
       row_state row' = match d_Record d with None => 2 | Some _ => 1 end) /\
    (forall t, t <> bd_teamId bind -> td_team db' !! t = td_team db !! t) /\
    (forall p, p ∈ d_Joined d -> ix_TeamId (loadSQLMembership db' p) = bd_teamId bind) /\
    (forall p, p ∈ d_Left d -> ix_TeamId (loadSQLMembership db' p) = 0) /\
    (forall p, p ∈ d_Joined d \/ p ∈ d_Left d ->
       ix_Epoch (loadSQLMembership db p) < ix_Epoch (loadSQLMembership db' p) /\
       stamp <= ix_Epoch (loadSQLMembership db' p)) /\
    (forall p, p ∉ d_Joined d -> p ∉ d_Left d -> loadSQLMembership db' p = loadSQLMembership db p).
Proof.
  intros Hok Hlow Hst Htx Ho.
  destruct (mutateTx_inv _ _ _ _ _ _ _ _ _ _ _ _ _ Hok Hlow Hst Htx) as
    [[Hn _]|(db1 & db2 & row & c & Hs & Hrow & Hsame & _ & Hc & Hdec & Hw)]; [done|].
  destruct Hdec as [Hsd Happ (data & Hdata & Hcm)].
  destruct Hs as (Ht1 & Hm1 & _), Hw as (Ht2 & Hm2 & _).
  assert (Hmem : forall p, loadSQLMembership db' p = loadSQLMembership db2 p) by (intros p; unfold loadSQLMembership; by rewrite Hm2).
  assert (Hmem1 : forall p, loadSQLMembership db1 p = loadSQLMembership db p) by (intros p; unfold loadSQLMembership; by rewrite Hm1).
  assert (Hop : bound_op db1 bind op = bound_op db bind op) by (unfold bound_op; by rewrite Hmem1).
  rewrite Hop in Happ. set (d := cr_Decision c) in *.
  exists row, d, c. destruct (cm_result _ _ _ _ _ _ _ _ Hcm) as (_ & Hver & _).
  assert (Hnd : forall p, p ∈ d_Joined d -> p ∉ d_Left d).
  { intros p Hj Hl. pose proof (sd_nodup _ _ _ Hsd) as Hn. apply NoDup_app in Hn as (_ & Hn & _).
    apply (Hn p Hj). apply elem_of_app. by right. }
  assert (Hppl : forall p, p ∈ d_Joined d \/ p ∈ d_Left d -> p ∈ people_of d).
  { intros p [?|?]; unfold people_of; rewrite !elem_of_app; auto. }
  split_and!; try done.
  - eexists. rewrite Ht2. split; [apply (cm_row _ _ _ _ _ _ _ _ Hcm)|]. done.
  - intros t Ht. rewrite Ht2, (cm_others _ _ _ _ _ _ _ _ Hcm t Ht). by rewrite Ht1.
  - intros p Hp. rewrite Hmem. destruct (cm_people _ _ _ _ _ _ _ _ Hcm p (Hppl p (or_introl Hp))) as ((_ & _ & _ & He & _) & _).
    rewrite !elem_of_list_to_set in He. apply He; [by apply Hnd|done].
  - intros p Hp. rewrite Hmem. destruct (cm_people _ _ _ _ _ _ _ _ Hcm p (Hppl p (or_intror Hp))) as ((_ & _ & He & _) & _).
    rewrite !elem_of_list_to_set in He. by apply He.
  - intros p Hp. rewrite Hmem, <- Hmem1. destruct (cm_people _ _ _ _ _ _ _ _ Hcm p (Hppl p Hp)) as ((_ & _ & _ & _ & He & _) & _).
    rewrite !elem_of_list_to_set in He. by destruct (He Hp) as (? & ? & _).
  - intros p Hj Hl. rewrite Hmem, <- Hmem1. destruct (decide (p ∈ people_of d)) as [Hp|Hp].
    + destruct (cm_people _ _ _ _ _ _ _ _ Hcm p Hp) as ((_ & _ & _ & _ & _ & He) & _).
      rewrite !elem_of_list_to_set in He. by apply He.
    + by apply (cm_rest _ _ _ _ _ _ _ _ Hcm).
Qed.

(** A mutation that does not commit - rejected by the rules or by the commit
    checks, unbound, missing, unchanged or replayed - changes no team, no
    membership, no index and no launch. *)
Theorem refused_writes_nothing db stamp idt act bind op obs ogs ss cfg res act' db' :
  mutateTx db stamp idt act bind op obs ogs ss cfg = Ok (TxDone res act' db') ->
  mr_Outcome res <> OutcomeCommitted -> same_tables db db'.
Proof.
  intros (_ & Hc)%mutateTx_cases Ho.
  destruct Hc as [(a & rc & _ & _ & _ & _ & _ & Hs & _)|
    (db1 & db2 & row & resp & Hs & _ & _ & _ & _ & Hcase & Hw)]; [done|].
  apply writeSQLAction_frame in Hw as (Hw & _).
  assert (same_tables db1 db2) as H12.
  { destruct Hcase as [(_ & _ & ->)|(locked & snap & _ & Hdec)]; [done|].
    unfold mutate_decide in Hdec. destruct (_ && _); [by injection Hdec as <- <-|].
    destruct (negb (d_Code _ =? 0)); [by injection Hdec as <- <-|].
    destruct (negb (d_Changed _)); [by injection Hdec as <- <-|].
    apply bind_Ok in Hdec as (data & _ & Hdec). apply bind_Ok in Hdec as (out & _ & Hdec).
    destruct out; [by injection Hdec as <- <-|]. injection Hdec as <- <-. done. }
  destruct Hs as (? & ? & ? & ? & ?), Hw as (? & ? & ? & ? & ?), H12 as (? & ? & ? & ? & ?).
  split_and!; congruence.
Qed.

(** ** Receipts *)
Lemma commit_receipt db t old data d stamp c db' :
  commitDecision db t old data d stamp = Ok (CommitDone c db') -> td_receipt db' = td_receipt db.
Proof.
  unfold commitDecision. intros (u & _ & Hr)%bind_Ok. destruct (_ =? MaxUint64); [done|].
  apply bind_Ok in Hr as ([ix|[? ?]] & _ & Hr); [|done]. destruct (invite_limit _ _ _ _); [done|].
  unfold commit_write in Hr. apply bind_Ok in Hr as (q & _ & Hr). by apply bind_Ok in Hr as (ts & _ & [= <- <-]).
Qed.

Lemma decide_receipt db bind op row locked ss cfg stamp snap res db' :
  mutate_decide db bind op row locked ss cfg stamp snap = Ok (res, db') -> td_receipt db' = td_receipt db.
Proof.
  unfold mutate_decide. destruct (_ && _); [by intros [= <- <-]|].
  destruct (negb (d_Code _ =? 0)); [by intros [= <- <-]|].
  destruct (negb (d_Changed _)); [by intros [= <- <-]|].
  intros (data & _ & Hr)%bind_Ok. apply bind_Ok in Hr as (out & Hc & Hr).
  destruct out; injection Hr as <- <-; [done|]. by eapply commit_receipt.
Qed.

(** Whoever got an answer under an intent has left a receipt with that answer. *)
Lemma mutate_receipt db stamp idt act bind op obs ogs ss cfg res act' db' :
  mutateTx db stamp idt act bind op obs ogs ss cfg = Ok (TxDone res act' db') ->
  (forall k rc, td_receipt db !! k = Some rc -> td_receipt db' !! k = Some rc) /\
  (forall a, act = Some a -> exists rc a', td_receipt db' !! receipt_key a = Some rc /\
     act' = Some a' /\ ac_committedResponse a' = Some (ar_result rc)).
Proof.
  intros (_ & Hc)%mutateTx_cases.
  destruct Hc as [(a & rc & -> & Hk & _ & _ & -> & _ & Hr)|
    (db1 & db2 & row & resp & _ & Hrc & _ & _ & _ & Hcase & Hw)].
  { split; [by rewrite Hr|]. intros a0 [= <-]. eexists rc, _. by rewrite Hr. }
  assert (td_receipt db2 = td_receipt db) as H2.
  { destruct Hcase as [(_ & _ & ->)|(locked & snap & _ & Hdec)]; [done|].
    apply decide_receipt in Hdec. congruence. }
  apply writeSQLAction_frame in Hw as (_ & Hmono & Hnew). rewrite H2 in *. split; [done|].
  intros a Ha. destruct (Hnew a Ha) as (_ & rc & ? & -> & _). eexists rc, _. done.
Qed.

(** The receipt that an answered request leaves is its own. *)
Lemma mutate_binds db stamp idt a bind op obs ogs ss cfg res act' db' :
  mutateTx db stamp idt (Some a) bind op obs ogs ss cfg = Ok (TxDone res act' db') ->
  exists rc, td_receipt db' !! receipt_key a = Some rc /\ same_intent rc a.
Proof.
  intros (_ & Hc)%mutateTx_cases.
  destruct Hc as [(a0 & rc & [= <-] & Hk & Hs & _ & _ & _ & Hr)|(db1 & db2 & row & resp & _ & _ & _ & _ & _ & _ & Hw)].
  { exists rc. by rewrite Hr. }
  unfold writeSQLAction in Hw. destruct (td_receipt db2 !! receipt_key a); [done|]. injection Hw as <- _. cbn.
  rewrite lookup_insert_eq. eexists. split; [done|]. by split_and!.
Qed.

(** No transaction removes or changes a receipt. *)
Lemma step_receipt db db' k rc :
  store_step db db' -> td_receipt db !! k = Some rc -> td_receipt db' !! k = Some rc.
Proof.
  intros Hstep Hk. destruct Hstep as [stamp idt act bind op obs ogs ss cfg res act' db' _ Htx|now a resp db' Htx|
      stamp a resp act' db' Htx|stamp idt snap obs b db' Htx|stamp t obs c db' _ Htx|stamp actor t e b db' Htx].
  - apply mutate_receipt in Htx as [Hm _]. auto.
  - unfold replayActionTx in Htx. apply bind_Ok in Htx as (db1 & Hl & Hr).
    apply bind_Ok in Hr as (r & _ & [= <- <-]). apply LockOriginals_frame in Hl as [_ ->]. done.
  - unfold recordNoMutationActionTx in Htx. apply bind_Ok in Htx as (db1 & Hl & Hr).
    apply bind_Ok in Hr as (r & _ & Hr). apply LockOriginals_frame in Hl as [_ Hl].
    destruct r; [by injection Hr as <- <-|].
    apply bind_Ok in Hr as ([db2 a2] & Hw & [= <- <-]). apply writeSQLAction_frame in Hw as (_ & Hm & _).
    apply Hm. by rewrite Hl.
  - unfold touchTx in Htx. case_bool_decide; [by injection Htx as <- <-|].
    apply bind_Ok in Htx as ([db1 o] & Hcap & Hr). apply Capture_frame in Hcap as (_ & _ & Hc).
    apply bind_Ok in Hr as (cur & _ & Hr). destruct (_ || _); [by injection Hr as <- <-|].
    destruct (_ <=? _); injection Hr as <- <-; simpl; congruence.
  - unfold expireIdleTx in Htx. destruct (negb _); [done|]. apply bind_Ok in Htx as (db1 & Hl & Hr).
    apply LockOriginals_frame in Hl as [_ Hl]. apply bind_Ok in Hr as (row & _ & Hr).
    destruct (negb _); [done|]. destruct (ad_record _); [|done]. destruct (_ || _) in Hr; [done|].
    apply bind_Ok in Hr as (out & Hc & Hr). destruct out; [done|]. injection Hr as <- <-.
    apply commit_receipt in Hc. congruence.
  - unfold pruneInviteTx in Htx. apply bind_Ok in Htx as (db1 & Hl & Hr).
    apply LockOriginals_frame in Hl as [_ Hl]. apply bind_Ok in Hr as (row & _ & Hr).
    destruct (_ && _); [by injection Hr as <- <-|]. case_bool_decide; injection Hr as <- <-; simpl; congruence.
Qed.

(** C31: Exactly once: after a request with an intent got its answer, whatever
    other transactions run in between, a repetition with the same intent id
    changes no team, membership, index, launch or receipt and returns the very
    answer of the first time; and only a repetition of the same operation, payload,
    account and revision gets this answer: one that differs gets none. *)
Theorem intent_exactly_once db stamp idt a bind op obs ogs ss cfg res act1 db1 db2
    stamp' idt' a' bind' op' obs' ogs' ss' cfg' res' act2 db3 :
  mutateTx db stamp idt (Some a) bind op obs ogs ss cfg = Ok (TxDone res act1 db1) ->
  rtc store_step db1 db2 ->
  receipt_key a' = receipt_key a ->
  mutateTx db2 stamp' idt' (Some a') bind' op' obs' ogs' ss' cfg' = Ok (TxDone res' act2 db3) ->
  same_tables db2 db3 /\ td_receipt db3 = td_receipt db2 /\ mr_Outcome res' = OutcomeUnchanged /\
  (exists r, ac_committedResponse <$> act1 = Some (Some r) /\ ac_committedResponse <$> act2 = Some (Some r)) /\
  ac_method a' = ac_method a /\ ac_payload a' = ac_payload a /\
  og_owner_account (ac_actor a') = og_owner_account (ac_actor a) /\
  og_owner_revision (ac_actor a') = og_owner_revision (ac_actor a).
Proof.
  intros H1 Hsteps Hkey H2. destruct (mutate_binds _ _ _ _ _ _ _ _ _ _ _ _ _ H1) as (rc0 & Hk0 & Hm0).
  apply mutate_receipt in H1 as [_ Hr]. destruct (Hr a eq_refl) as (rc & a1 & Hk & -> & Ha1).
  assert (Hk2 : td_receipt db2 !! receipt_key a = Some rc).
  { clear H2 Hr. induction Hsteps as [|x y z Hxy _ IH]; [done|]. apply IH; by eapply step_receipt. }
  apply mutateTx_cases in H2 as (_ & [(a0 & rc' & [= <-] & Hk' & Hm & Ho & -> & Hs & Hrc)|
    (db4 & db5 & row & resp & _ & _ & _ & _ & Hnone & _)]).
  - rewrite Hkey in Hk'. simplify_eq. destruct Hm as (? & ? & ? & ?), Hm0 as (? & ? & ? & ?).
    split_and!; try congruence; try done. eexists. simpl. by rewrite Ha1.
  - specialize (Hnone a' eq_refl). congruence.
Qed.

(** A transaction that finds the team different from what was observed
    before it began (version, state or content) writes nothing and asks for a
    retry. *)
Theorem stale_observation_retries db stamp idt act bind op obs ogs ss cfg row r :
  loadSQLTeam db (bd_teamId bind) = Ok row -> sameSQLTeam obs row = false ->
  (forall a, act = Some a -> td_receipt db !! receipt_key a = None) ->
  mutateTx db stamp idt act bind op obs ogs ss cfg = Ok r -> r = TxRetry.
Proof.
  intros Hrow Hdiff Hnone Htx. destruct r as [|res act' db']; [done|]. exfalso.
  apply mutateTx_cases in Htx as (_ & [(a & rc & Ha & Hk & _)|
    (db1 & db2 & row' & resp & (Hs & _) & _ & Hrow' & Hsame & _)]).
  - specialize (Hnone a Ha). congruence.
  - assert (loadSQLTeam db1 (bd_teamId bind) = loadSQLTeam db (bd_teamId bind)) as He.
    { unfold loadSQLTeam. by rewrite Hs. }
    congruence.
Qed.
End props.

(** ** Invite quota, idle expiry and reads *)
Section more_props.
Context {Q : Type} `{!LaunchQueue Q}.
Implicit Types db : TeamDB Q.

(** Live invites of [invitee] over all teams. *)
Definition live_invites db (invitee stamp : Z) : Z :=
  Z.of_nat (size (filter (fun kv => kv.1.1 = invitee /\ stamp < kv.2) (td_invite db))).

(** The index changes of one team touch that team's rows only. *)
Lemma put_invites_other m t removed added k :
  k.2 <> t -> put_invites m t removed added !! k = m !! k.
Proof.
  intros Hk. unfold put_invites.
  assert (Hdel : forall l m, foldl (fun m p => delete (p, t) m) m l !! k = (m : gmap (Z * Z) Z) !! k).
  { induction l as [|x l IH]; intros m'; simpl; [done|]. rewrite IH. apply lookup_delete_ne. intros <-. done. }
  assert (Hins : forall l m, foldl (fun m a => <[(ia_InviteeId a, t) := ia_ExpireAtMs a]> m) m l !! k
                           = (m : gmap (Z * Z) Z) !! k).
  { induction l as [|x l IH]; intros m'; simpl; [done|]. rewrite IH. apply lookup_insert_ne. intros <-. done. }
  by rewrite Hins, Hdel.
Qed.

(** One more than the invites of the other teams at most. *)
Lemma live_invites_bound (m m' : gmap (Z * Z) Z) invitee stamp t :
  (forall k, k.2 <> t -> m' !! k = m !! k) ->
  Z.of_nat (size (filter (fun kv => kv.1.1 = invitee /\ stamp < kv.2) m'))
  <= 1 + Z.of_nat (size (filter (fun kv => kv.1.1 = invitee /\ stamp < kv.2 /\ kv.1.2 <> t) m)).
Proof.
  intros Hother. set (M := filter _ m). set (M' := filter _ m').
  assert (size (dom M') <= size ({[(invitee, t)]} ∪ dom M : gset (Z * Z)))%nat as Hle;
    [|rewrite size_union_alt in Hle; rewrite size_singleton, !size_dom in Hle;
      pose proof (size_dom M); pose proof (subseteq_size (dom M ∖ {[(invitee, t)]}) (dom M) ltac:(set_solver)); lia].
  apply subseteq_size. intros k Hk. subst M M'.
  apply elem_of_dom in Hk as [e He]. apply map_lookup_filter_Some in He as [He [H1 H2]]. simpl in *.
  destruct (decide (k.2 = t)) as [Ht|Ht].
  - apply elem_of_union_l, elem_of_singleton. destruct k. simpl in *. congruence.
  - apply elem_of_union_r, elem_of_dom. exists e. apply map_lookup_filter_Some. rewrite <- Hother by done. done.
Qed.

(** The invite quota: after a committed mutation every player it newly
    invited has at most ten live invites, over all teams. *)
Theorem invite_quota_holds db stamp idt act bind op obs ogs ss cfg res act' db' c a :
  db_ok db -> versions_low db version_bound -> is_u64 stamp ->
  mutateTx db stamp idt act bind op obs ogs ss cfg = Ok (TxDone res act' db') ->
  mr_Outcome res = OutcomeCommitted -> mr_Commit res = Some c -> a ∈ d_InvitesAdded (cr_Decision c) ->
  live_invites db' (ia_InviteeId a) stamp <= MaxPendingInvitesPerInvitee.
Proof.
  intros Hok Hlow Hst Htx Ho Hc Ha.
  destruct (mutateTx_inv _ _ _ _ _ _ _ _ _ _ _ _ _ Hok Hlow Hst Htx) as
    [[Hn _]|(db1 & db2 & row & c' & Hs & Hrow & _ & _ & Hc' & Hdec & Hw)]; [done|].
  simplify_eq. destruct Hdec as [_ _ (data & _ & Hcm)].
  pose proof (cm_limit _ _ _ _ _ _ _ _ Hcm a Ha) as Hlim. unfold pending_invites in Hlim.
  destruct Hw as (_ & _ & Hi & _). unfold live_invites. rewrite Hi, (cm_invite _ _ _ _ _ _ _ _ Hcm).
  pose proof (live_invites_bound (td_invite db1)
    (put_invites (td_invite db1) (bd_teamId bind) (d_InvitesRemoved (cr_Decision c)) (d_InvitesAdded (cr_Decision c)))
    (ia_InviteeId a) stamp (bd_teamId bind)) as Hb.
  specialize (Hb (put_invites_other _ _ _ _)). lia.
Qed.

(** The idle sweep dissolves only a team whose deadline has passed and that is
    in no match; afterwards the team is dissolved, every member is free of it with
    a higher epoch, and no launch of the team is live. *)
Theorem idle_expiry_sound db stamp t obs c db' n :
  db_ok db -> versions_low db n -> n <= version_bound -> is_u64 stamp ->
  expireIdleTx db stamp t obs = Ok (Some (c, db')) ->
  exists row r, td_team db !! t = Some row /\ row_state row = 1 /\ ad_record (row_data row) = Some r /\
    row_idleExpires row <= stamp /\ tr_match_lock_token r = ""%string /\
    (exists row', td_team db' !! t = Some row' /\ row_state row' = 2 /\ row_version row' = row_version row + 1) /\
    (forall p, p ∈ MemberIds r -> ix_TeamId (loadSQLMembership db' p) = 0 /\
       ix_Epoch (loadSQLMembership db p) < ix_Epoch (loadSQLMembership db' p)) /\
    ~ live_launch t (td_queue db').
Proof.
  intros Hok Hlow Hn Hst Htx.
  destruct (expireIdleTx_inv _ _ _ _ _ _ Hok Htx) as
    (db1 & row & r & d & Hs & _ & Hcur & _ & Hst1 & Hidle & Hr & Htok & HL & Hdr & Hsd & Hcm).
  assert (Hok1 : db_ok db1) by (eapply db_ok_core; [by apply same_tables_core|done]).
  pose proof (commitDecision_spec _ _ _ _ _ _ _ _ Hok1 Hst Hcur Hcm) as Hc.
  destruct (loadSQLTeam_ok db1 t row Hok1 Hcur) as [(_ & ->)|[(r' & HH)|(row0 & HH)]]; [done|..];
    destruct_and!; [|congruence].
  destruct Hs as (Ht1 & Hm1 & _). exists row, r. split_and!; try done; [congruence|..].
  - eexists. split; [apply (cm_row _ _ _ _ _ _ _ _ Hc)|]. by rewrite Hdr.
  - intros p Hp. assert (p ∈ people_of d) as Hpp by (unfold people_of; rewrite !elem_of_app, HL; auto).
    destruct (cm_people _ _ _ _ _ _ _ _ Hc p Hpp) as ((_ & _ & Hl & _ & He & _) & _).
    rewrite !elem_of_list_to_set, HL in *. split; [auto|].
    destruct (He (or_intror Hp)) as [He' _]. unfold loadSQLMembership in He' at 1. by rewrite Hm1 in He'.
  - apply (cm_queue _ _ _ _ _ _ _ _ Hc Hst1). right. left. rewrite HL. intros Hnil.
    assert (r' = r) as -> by congruence.
    match goal with H : wf_record r |- _ => pose proof (wf_leader _ H) as Hlead end.
    rewrite <- elem_of_MemberIds, Hnil in Hlead. set_solver.
Qed.

(** Under the invariant the consistency checks of the reads never fire: a
    read of a team succeeds for every player, and a read of the members returns
    the index entry of each of them. *)
Theorem reads_never_mismatch db stamp :
  db_ok db ->
  (forall player t, exists snap, readTx db stamp player t = Ok snap) /\
  (forall t, exists ms, readMembersTx db stamp t = Ok ms /\
     forall r p, ms_Record ms = Some r -> p ∈ MemberIds r -> ms_Indexes ms !! p = Some (loadSQLMembership db p)).
Proof.
  intros Hok.
  assert (Hload : forall t, exists row, loadSQLTeam db t = Ok row).
  { intros t. unfold loadSQLTeam. destruct (td_team db !! t) as [row|] eqn:Hr; [|eauto].
    destruct (ok_row db Hok t row Hr) as [Ht0 [Hv Hst Hrec]].
    rewrite (proj2 (Z.eqb_neq (row_version row) 0)) by lia.
    destruct Hst as [Hs|Hs]; rewrite Hs; simpl; [|eauto].
    destruct (Hrec Hs) as (r & -> & _ & <- & _). unfold record_team_id. simpl. rewrite Z.eqb_refl. simpl. eauto. }
  split.
  - intros player t. unfold readTx. destruct (Hload t) as [row Hrow]. rewrite Hrow. simpl.
    destruct (_ && _) eqn:Hc; [|eauto]. exfalso. zbool.
    match goal with H : ix_TeamId _ = t |- _ => rename H into Hix end.
    destruct (ok_index db Hok player) as (r & Ha & Hp); [by rewrite Hix|]. rewrite Hix in Ha.
    destruct Ha as (row' & Hrow' & Hs & Hr).
    destruct (loadSQLTeam_ok db t row Hok Hrow) as [(? & _)|[(r' & HH)|(row0 & HH)]]; [congruence|..];
      destruct_and!; [|congruence].
    assert (row' = row) as -> by congruence. unfold sqlTeamSnapshot in *. simpl in *. rewrite Hs in *. simpl in *.
    rewrite Hr in *. zbool. by match goal with H : FindMember r player = None |- _ => apply FindMember_None in H end.
  - intros t. unfold readMembersTx. destruct (Hload t) as [row Hrow]. rewrite Hrow. simpl.
    destruct (loadSQLTeam_ok db t row Hok Hrow) as [(_ & ->)|[(r & HH)|(row0 & HH)]]; destruct_and?.
    + eexists. split; [done|]. done.
    + assert (Hact : active db t r) by (by exists row).
      assert (Hall : forall l acc, (forall p, p ∈ l -> p ∈ ids r) ->
                exists m, members_indexes db t acc l = Ok m /\
                  (forall p, p ∈ l -> m !! p = Some (loadSQLMembership db p)) /\
                  (forall p, p ∉ l -> m !! p = acc !! p)).
      { induction l as [|p l IH]; intros acc Hl; simpl; [exists acc; set_solver|].
        rewrite (ok_member db Hok t r p Hact) by (apply Hl; left). rewrite Z.eqb_refl. simpl.
        destruct (IH (<[p := loadSQLMembership db p]> acc)) as (m & Hm & Hin & Hout); [set_solver|].
        exists m. split; [done|]. split.
        - intros q Hq. destruct (decide (q ∈ l)) as [?|Hn]; [auto|]. rewrite Hout by done.
          assert (q = p) as -> by set_solver. by rewrite lookup_insert_eq.
        - intros q [? ?]%not_elem_of_cons. rewrite Hout by done. by rewrite lookup_insert_ne. }
      match goal with H : ad_record _ = Some r |- _ => rewrite H end.
      match goal with H : row_state row = 1 |- _ => rewrite H end. simpl.
      destruct (Hall (MemberIds r) ∅) as (m & -> & Hm & _); [intros p; by rewrite elem_of_MemberIds|]. simpl.
      eexists. split; [done|]. simpl. intros r0 p [= <-] Hp. auto.
    + match goal with H : ad_record _ = None |- _ => rewrite H end. eexists. split; [done|]. done.
Qed.
End more_props.

(** ** Witnesses *)

(** The store after Alice created her team, and her refused second creation. *)
Definition db_one : TeamDB LaunchDB := tx_db demo_create.

Lemma db_one_inv : db_ok db_one /\ versions_low db_one version_bound.
Proof.
  destruct (store_run_inv 1 db_one demo_run) as [Hok Hlow]; [done|]. split; [exact Hok|].
  intros t row Hr. specialize (Hlow t row Hr). unfold version_bound, u32_mod. lia.
Qed.

Definition demo_again : res (TxResult LaunchDB) :=
  mutateTx db_one 6000 (Some alice) (Some (mkAction alice 10 21 OpCreate "p2"%string None false)) (BindCreate 1 78)
    (CreateOp 1 78 9) (mkRow 0 0 0 emptyData) [] ∅ (mkCfg false).

Definition demo_repeat : res (TxResult LaunchDB) :=
  mutateTx db_one 6000 (Some alice) (Some demo_action) (BindCreate 1 77) (CreateOp 1 77 9)
    (mkRow 0 0 0 emptyData) [] ∅ (mkCfg false).

Lemma one_team_per_player_witness :
  ix_TeamId (loadSQLMembership db_one 1) = 77 /\ exists r, active db_one 77 r /\ 1 ∈ MemberIds r.
Proof.
  split; [vm_compute; reflexivity|].
  apply (one_team_per_player 1 db_one demo_run); [done|done|vm_compute; reflexivity].
Defined.

Lemma commit_writes_decision_witness :
  exists row', td_team db_one !! 77 = Some row' /\ row_version row' = 1.
Proof.
  destruct demo_db_ok as [Hok Hlow].
  destruct (commit_writes_decision _ _ _ _ _ _ _ _ _ _ _ _ _ Hok Hlow (ltac:(done) : is_u64 5000) demo_create_done)
    as (row & d & c & Hs & _ & _ & _ & _ & (row' & Hr & Hv & _) & _); [vm_compute; reflexivity|].
  exists row'. split; [exact Hr|]. rewrite Hv.
  unfold sameSQLTeam in Hs. simpl in Hs. destruct (row_version row) eqn:He; simpl in Hs; try discriminate. reflexivity.
Defined.

Lemma demo_again_done :
  demo_again = Ok (TxDone (tx_result demo_again) (tx_action demo_again) (tx_db demo_again)).
Proof. vm_compute. reflexivity. Qed.

Lemma refused_writes_nothing_witness :
  mr_Outcome (tx_result demo_again) = OutcomeRejected /\ same_tables db_one (tx_db demo_again).
Proof.
  split; [vm_compute; reflexivity|]. eapply refused_writes_nothing; [exact demo_again_done|].
  vm_compute. discriminate.
Defined.

Lemma demo_repeat_done :
  demo_repeat = Ok (TxDone (tx_result demo_repeat) (tx_action demo_repeat) (tx_db demo_repeat)).
Proof. vm_compute. reflexivity. Qed.

Lemma intent_exactly_once_witness : same_tables db_one (tx_db demo_repeat) /\
  exists r, ac_committedResponse <$> tx_action demo_create = Some (Some r).
Proof.
  destruct (intent_exactly_once _ _ _ _ _ _ _ _ _ _ _ _ _ _ _ _ _ _ _ _ _ _ _ _ _ _
    demo_create_done (rtc_refl _ _) eq_refl demo_repeat_done) as (Hs & _ & _ & (r & Hr & _) & _).
  split; [exact Hs|]. exists r. exact Hr.
Defined.

Lemma stale_observation_retries_witness :
  mutateTx db_one 6000 (Some alice) None (BindCaller 1 77) (RefreshOp 1) (mkRow 0 0 0 emptyData) [alice] ∅ (mkCfg false)
  = Ok TxRetry.
Proof.
  destruct (mutateTx db_one 6000 (Some alice) None (BindCaller 1 77) (RefreshOp 1) (mkRow 0 0 0 emptyData)
    [alice] ∅ (mkCfg false)) as [r|e] eqn:He; [|vm_compute in He; discriminate].
  f_equal. eapply stale_observation_retries; [| | |exact He].
  - vm_compute. reflexivity.
  - vm_compute. reflexivity.
  - intros a [=].
Defined.

(** Alice invites Bob. *)
Definition demo_invite : res (TxResult LaunchDB) :=
  match loadSQLTeam db_one 77 with
  | Ok obs =>
      mutateTx db_one 7000 (Some alice) (Some (mkAction alice 10 22 OpInvite "p3"%string None false)) (BindCaller 1 77)
        (InviteOp 1 2 9) obs [alice] ∅ (mkCfg false)
  | Err e => Err e
  end.

Lemma demo_invite_done :
  demo_invite = Ok (TxDone (tx_result demo_invite) (tx_action demo_invite) (tx_db demo_invite)).
Proof. vm_compute. reflexivity. Qed.

Lemma invite_quota_holds_witness : live_invites (tx_db demo_invite) 2 7000 <= MaxPendingInvitesPerInvitee.
Proof.
  destruct db_one_inv as [Hok Hlow]. pose proof demo_invite_done as Hd. unfold demo_invite in Hd at 1.
  destruct (loadSQLTeam db_one 77) as [obs|] eqn:Hobs; [|discriminate Hd].
  destruct (mr_Commit (tx_result demo_invite)) as [c|] eqn:Hc; [|vm_compute in Hc; discriminate].
  eapply (invite_quota_holds _ _ _ _ _ _ _ _ _ _ _ _ _ c (mkAdd 2 67000) Hok Hlow (ltac:(done) : is_u64 7000) Hd).
  - vm_compute. reflexivity.
  - exact Hc.
  - vm_compute in Hc. injection Hc as <-. left.
Defined.

(** The sweep a day later. *)
Definition demo_expire : res (option (CommitResult * TeamDB LaunchDB)) :=
  match loadSQLTeam db_one 77 with Ok obs => expireIdleTx db_one 90000000 77 obs | Err e => Err e end.

Lemma idle_expiry_sound_witness : exists c db', demo_expire = Ok (Some (c, db')) /\
  exists row', td_team db' !! 77 = Some row' /\ row_state row' = 2.
Proof.
  destruct db_one_inv as [Hok Hlow].
  destruct (loadSQLTeam db_one 77) as [obs|] eqn:Hobs; [|vm_compute in Hobs; discriminate].
  destruct demo_expire as [[[c db']|]|] eqn:He; [|vm_compute in He; discriminate..].
  exists c, db'. split; [reflexivity|]. unfold demo_expire in He. rewrite Hobs in He.
  destruct (idle_expiry_sound _ _ _ _ _ _ version_bound Hok Hlow (Z.le_refl _) (ltac:(done) : is_u64 90000000) He)
    as (row & r & _ & _ & _ & _ & _ & (row' & Hr & Hs & _) & _).
  exists row'. split; [exact Hr|exact Hs].
Defined.

Lemma reads_never_mismatch_witness : exists snap, readTx db_one 6000 1 77 = Ok snap.
Proof. destruct db_one_inv as [Hok _]. apply (reads_never_mismatch db_one 6000 Hok). Defined.
