(* ===== verification/InboxRow.v ===== *)
(** * Player inbox: rows, wire enums, owner-epoch fence, sequence numbers, shards

    The data of [go/player_inbox] and its integer rules: the three tables of
    [player_inbox_table.proto], the enums of [player_inbox.proto] as the open
    integer sets protobuf makes of them, [fence.go], [seq.go] and
    [go/shared/inboxshard/shard.go]. *)

From stdpp Require Import base list gmap strings.
From Stdlib Require Import ZArith Lia.
From S2P Require Import Prelude.
Local Open Scope Z_scope.
Local Open Scope go_scope.

(** ** Enums

    Columns and wire fields hold any integer; the named values are constants. *)
Definition ITEM_UNSPECIFIED : Z := 0.
Definition ITEM_PENDING : Z := 1.
Definition ITEM_APPLIED : Z := 2.
Definition ITEM_REJECTED : Z := 3.
Definition ITEM_VOIDED : Z := 4.
Definition ITEM_SETTLED_UNKNOWN : Z := 5.

Definition OUTCOME_APPLIED : Z := 1.
Definition OUTCOME_REJECTED : Z := 2.
Definition OUTCOME_SKIPPED : Z := 3.
Definition OUTCOME_UNKNOWN : Z := 4.

Definition DIRECTIVE_NONE : Z := 0.
Definition DIRECTIVE_VOID : Z := 1.
Definition VOID_UNSPECIFIED : Z := 0.
Definition VOID_CANCELLED : Z := 1.
Definition VOID_QUARANTINED : Z := 2.
Definition FINALIZER_UNSPECIFIED : Z := 0.
Definition FINALIZER_CONSUMER : Z := 1.
Definition FINALIZER_ADMIN : Z := 2.

Definition PRODUCER_UNSPECIFIED : Z := 0.
Definition PRODUCER_GM : Z := 1.
Definition PRODUCER_MATCH : Z := 2.
Definition DOMAIN_UNSPECIFIED : Z := 0.
Definition DOMAIN_SCENE_GM_SANCTION : Z := 1.
Definition DOMAIN_SCENE_BATTLE_SETTLEMENT : Z := 2.
Definition MSG_GM_BLOCK_CURRENCY_GAIN : Z := 1.
Definition MSG_GM_UNBLOCK_CURRENCY_GAIN : Z := 2.
Definition MSG_GM_ATTACH_CURRENCY_DEBT : Z := 3.
Definition MSG_BATTLE_SETTLEMENT : Z := 4.
Definition CLASS_DURABLE : Z := 1.

Definition AUDIT_SANCTION : Z := 1.
Definition AUDIT_VOID : Z := 2.
Definition AUDIT_FORCE_VOID : Z := 3.

Inductive PlayerInboxFenceVerdict :=
  | FENCE_UNSPECIFIED | FENCE_NO_STREAM | FENCE_FIRST | FENCE_MATCH | FENCE_ADVANCE
  | FENCE_STALE | FENCE_EPOCH_REQUIRED | FENCE_EPOCH_AHEAD.
#[global] Instance fence_verdict_eq : EqDecision PlayerInboxFenceVerdict.
Proof. solve_decision. Defined.

Inductive PlayerInboxAckResult :=
  | ACK_FINALIZED | ACK_ALREADY_SAME | ACK_CONFLICT | ACK_UNKNOWN_SEQ | ACK_NOT_DELIVERED
  | ACK_SKIP_NOT_REQUESTED | ACK_MISMATCH.
#[global] Instance ack_result_eq : EqDecision PlayerInboxAckResult.
Proof. solve_decision. Defined.

(** Tip codes of [internal/constants]. *)
Definition ErrInvalidParameter : Z := 1005.
Definition ErrDisabled : Z := 29000.
Definition ErrUnknownType : Z := 29001.
Definition ErrPlayerNotFound : Z := 29002.
Definition ErrPayloadInvalid : Z := 29003.
Definition ErrPayloadTooLarge : Z := 29004.
Definition ErrTextTooLong : Z := 29005.
Definition ErrIssuedOutOfWindow : Z := 29006.
Definition ErrFull : Z := 29007.
Definition ErrIdempotencyConflict : Z := 29008.
Definition ErrStaleOwner : Z := 29009.
Definition ErrEpochRequired : Z := 29010.
Definition ErrEpochAhead : Z := 29011.
Definition ErrItemNotFound : Z := 29012.
Definition ErrItemStateConflict : Z := 29013.
Definition ErrStoreUnavailable : Z := 29014.

(** ** Rows *)
Definition bytes := list Z.

Record PlayerInboxStream := mkStream {
  st_shard : Z; st_player : Z; st_domain : Z; st_next_seq : Z; st_fence_epoch : Z;
  st_open_count : Z; st_notify_due_ms : Z; st_created_ms : Z; st_updated_ms : Z }.

Record PlayerInboxItemRow := mkItem {
  it_shard : Z; it_player : Z; it_domain : Z; it_seq : Z; it_msg_type : Z; it_producer : Z;
  it_request_id : Z; it_content_sha256 : bytes; it_payload : bytes; it_state : Z;
  it_directive : Z; it_void_reason : Z; it_delivery_count : Z; it_last_delivered_epoch : Z;
  it_last_delivered_ms : Z; it_outcome_reason : Z; it_finalized_by : Z; it_decided_epoch : Z;
  it_issued_at_ms : Z; it_created_ms : Z; it_updated_ms : Z; it_operator_name : string;
  it_note : string; it_owner_account : string; it_owner_revision : Z }.

Record PlayerInboxAudit := mkAudit {
  au_shard : Z; au_player : Z; au_domain : Z; au_seq : Z; au_action : Z; au_operator : string;
  au_peer_addr : string; au_reason : string; au_created_ms : Z; au_msg_type : Z;
  au_request_id : Z; au_issued_at_ms : Z; au_content_sha256 : bytes; au_payload : bytes;
  au_void_reason : Z }.

Record PlayerInboxDecisionReport := mkReport {
  rp_seq : Z; rp_outcome : Z; rp_reason : Z; rp_request_id : Z }.

(** The consumer ledger a scene persists with the player. *)
Record PlayerInboxDecision := mkDecision {
  dc_seq : Z; dc_outcome : Z; dc_reason : Z; dc_request_id : Z; dc_msg_type : Z }.
Record PlayerInboxDomainCursor := mkCursor {
  cu_domain : Z; cu_decided_through : Z; cu_recent : list PlayerInboxDecision }.
Definition PlayerInboxLedgerComp := list PlayerInboxDomainCursor.

#[global] Instance item_row_eq : EqDecision PlayerInboxItemRow.
Proof. solve_decision. Defined.

(** ** Shards *)
Definition ShardCount : Z := 64.
Definition mix_c1 : Z := 0xbf58476d1ce4e5b9.
Definition mix_c2 : Z := 0x94d049bb133111eb.

Definition xorshift (k x : Z) : Z := Z.lxor x (Z.shiftr x k).
Definition Mix64 (x : Z) : Z :=
  let x := xorshift 30 x in
  let x := x *64 mix_c1 in
  let x := xorshift 27 x in
  let x := x *64 mix_c2 in
  xorshift 31 x.
Definition RowShard (playerID : Z) : Z := Mix64 playerID mod ShardCount.

Definition ErrCorruptShard : error := "inbox: corrupt row shard"%string.
Definition checkRowShard (shard playerID : Z) : res () :=
  guard_err (negb (shard =? RowShard playerID)) ErrCorruptShard.

(** ** Owner-epoch fence *)
Definition NeedsEpochBound (req fence : Z) : bool := negb (req =? 0) && (fence <? req).

Definition DecideFence (req fence r : Z) : PlayerInboxFenceVerdict :=
  if req =? 0 then FENCE_EPOCH_REQUIRED
  else if req <? fence then FENCE_STALE
  else if req =? fence then FENCE_MATCH
  else if r <? req then FENCE_EPOCH_AHEAD
  else if fence =? 0 then FENCE_FIRST
  else FENCE_ADVANCE.

Definition FenceAllows (v : PlayerInboxFenceVerdict) : bool :=
  match v with FENCE_MATCH | FENCE_FIRST | FENCE_ADVANCE => true | _ => false end.

Definition FenceWrites (v : PlayerInboxFenceVerdict) : bool :=
  match v with FENCE_FIRST | FENCE_ADVANCE => true | _ => false end.

Inductive StaleKind := StaleUnclassified | StaleZombie | StaleFenceRegressed.
Definition ClassifyStale (req r : Z) : StaleKind :=
  if r <=? req then StaleFenceRegressed else StaleZombie.

Definition fenceRejectTip (v : PlayerInboxFenceVerdict) : Z :=
  match v with
  | FENCE_STALE => ErrStaleOwner
  | FENCE_EPOCH_REQUIRED => ErrEpochRequired
  | FENCE_EPOCH_AHEAD => ErrEpochAhead
  | _ => 0
  end.

(** ** Sequence numbers *)
Definition seqClockShift : Z := 12.
Definition maxSeqClockMs : Z := Z.shiftl 1 (63 - seqClockShift).
Definition ErrSeqClockInvalid : error := "inbox: system clock unusable for seq allocation"%string.

Definition NextSeq (nextSeq nowMs : Z) : res Z :=
  if (nowMs =? 0) || (maxSeqClockMs <=? nowMs) then Err ErrSeqClockInvalid
  else Ok (Z.max (Z.max nextSeq (u64 (Z.shiftl nowMs seqClockShift))) 1).

Definition RaiseNextSeq (nextSeq consumerDecidedThrough : Z) : Z * bool :=
  if consumerDecidedThrough <? nextSeq then (nextSeq, false)
  else (consumerDecidedThrough +64 1, true).

Definition IsCursorAhead (nextSeq consumerDecidedThrough : Z) : bool :=
  nextSeq <=? consumerDecidedThrough.

(** ** Shard lemmas *)
Lemma xorshift_range k x : is_u64 x -> 0 <= k -> is_u64 (xorshift k x).
Proof.
  intros Hx Hk. unfold xorshift.
  assert (0 <= Z.shiftr x k <= x) as Hs.
  { rewrite Z.shiftr_div_pow2 by lia. unfold is_u64 in Hx.
    split; [apply Z.div_pos; lia|]. apply Z.div_le_upper_bound; [lia|]. nia. }
  unfold is_u64, u64_mod in *. split; [apply Z.lxor_nonneg; lia|].
  change 18446744073709551616 with (2 ^ 64) in *.
  destruct (Z.eq_dec (Z.lxor x (Z.shiftr x k)) 0) as [->|Hn]; [lia|].
  apply Z.log2_lt_cancel. rewrite Z.log2_pow2 by lia.
  eapply Z.le_lt_trans; [apply Z.log2_lxor; lia|].
  assert (Z.log2 x < 64) by (destruct (Z.eq_dec x 0) as [->|]; [done|apply Z.log2_lt_pow2; lia]).
  apply Z.max_lub_lt; [done|].
  eapply Z.le_lt_trans; [apply Z.log2_le_mono; apply Hs|done].
Qed.

Lemma xorshift_inj k x y :
  1 <= k -> 0 <= x -> 0 <= y -> xorshift k x = xorshift k y -> x = y.
Proof.
  unfold xorshift. intros Hk Hx Hy Heq. apply Z.lxor_eq.
  assert (Z.lxor x y = Z.shiftr (Z.lxor x y) k) as Hd.
  { rewrite Z.shiftr_lxor. apply Z.lxor_eq.
    transitivity (Z.lxor (Z.lxor x (Z.shiftr x k)) (Z.lxor y (Z.shiftr y k))).
    - rewrite !Z.lxor_assoc. f_equal. rewrite <- !Z.lxor_assoc. f_equal. apply Z.lxor_comm.
    - rewrite Heq. apply Z.lxor_nilpotent. }
  assert (0 <= Z.lxor x y) as Hn by (apply Z.lxor_nonneg; lia).
  remember (Z.lxor x y) as d. rewrite Z.shiftr_div_pow2 in Hd by lia.
  assert (2 <= 2 ^ k) by (change 2 with (2 ^ 1) at 1; apply Z.pow_le_mono_r; lia).
  assert (d / 2 ^ k <= d / 2) by (apply Z.div_le_compat_l; lia).
  assert (d / 2 < d \/ d = 0) as [?|?] by (destruct (Z.eq_dec d 0); [by right|left; apply Z.div_lt; lia]); lia.
Qed.

(** Multiplication by a constant with an inverse modulo 2^64 loses nothing. *)
Lemma mul64_inj c ci x y :
  (c * ci) mod u64_mod = 1 -> is_u64 x -> is_u64 y -> x *64 c = y *64 c -> x = y.
Proof.
  unfold u64, is_u64. intros Hc Hx Hy Heq.
  assert (forall z, 0 <= z < u64_mod -> (((z * c) mod u64_mod) * ci) mod u64_mod = z) as Hinv.
  { intros z Hz. rewrite Z.mul_mod_idemp_l, <- Z.mul_assoc by done.
    rewrite <- Z.mul_mod_idemp_r, Hc, Z.mul_1_r by done. by apply Z.mod_small. }
  rewrite <- (Hinv x Hx), <- (Hinv y Hy). by rewrite Heq.
Qed.

Lemma Mix64_range x : is_u64 x -> is_u64 (Mix64 x).
Proof. intros. unfold Mix64. apply xorshift_range; [apply u64_range|lia]. Qed.

Lemma RowShard_range p : 0 <= RowShard p < ShardCount.
Proof. apply Z.mod_pos_bound. done. Qed.

(** ** Fence lemmas *)

(** The verdict does not depend on the bound unless [NeedsEpochBound] asks for it. *)
Lemma DecideFence_bound_irrelevant req fence r r' :
  NeedsEpochBound req fence = false -> DecideFence req fence r = DecideFence req fence r'.
Proof.
  unfold NeedsEpochBound, DecideFence. intros H.
  destruct (req =? 0) eqn:?; [done|]. destruct (req <? fence) eqn:?; [done|].
  destruct (req =? fence) eqn:?; [done|]. zbool. destruct H as [?|?]; zlia.
Qed.

Lemma FenceAllows_true req fence r :
  0 <= fence -> FenceAllows (DecideFence req fence r) = true ->
  req <> 0 /\ fence <= req /\ (FenceWrites (DecideFence req fence r) = true -> fence < req /\ req <= r) /\
  (FenceWrites (DecideFence req fence r) = false -> fence = req).
Proof.
  unfold DecideFence. intros Hf.
  destruct (req =? 0) eqn:?; [done|]. destruct (req <? fence) eqn:?; [done|].
  destruct (req =? fence) eqn:?; [simpl; intros _; split_and!; zbool; try lia; done|].
  destruct (r <? req) eqn:?; [done|]. destruct (fence =? 0); simpl; intros _;
    zbool; split_and!; try done; lia.
Qed.

(** ** Sequence lemmas *)
Lemma NextSeq_Ok next now seq :
  0 <= now -> NextSeq next now = Ok seq ->
  next <= seq /\ now * 4096 <= seq /\ 1 <= seq /\ 0 < now < 2 ^ 51.
Proof.
  unfold NextSeq. intros Hnow. destruct (_ || _) eqn:Hc; [done|]. intros [= <-].
  zbool. change maxSeqClockMs with (2 ^ 51) in *.
  rewrite Z.shiftl_mul_pow2 by done. change (2 ^ seqClockShift) with 4096.
  rewrite u64_small; [|unfold is_u64, u64_mod; lia]. lia.
Qed.

Lemma NextSeq_range next now seq :
  is_u64 next -> NextSeq next now = Ok seq -> is_u64 seq.
Proof.
  unfold NextSeq. intros Hn. destruct (_ || _); [done|]. intros [= <-].
  pose proof (u64_range (Z.shiftl now seqClockShift)) as Hu.
  unfold is_u64, u64_mod in *. lia.
Qed.
