(* ===== verification/InboxDecide.v ===== *)
(** * Player inbox: the pure decisions of the store

    [go/player_inbox/internal/inbox/decide.go], function by function, the
    helpers of [store_enqueue.go] and [notify.go] that decide without I/O, and
    the consumer's side of the ledger ([player_inbox_rules.cpp]) that the
    ledger checks reason about. *)

From stdpp Require Import base list gmap strings.
From Stdlib Require Import ZArith Lia.
From S2P Require Import Prelude InboxRow.
Local Open Scope Z_scope.
Local Open Scope go_scope.

(** ** Item states *)
Definition IsTerminalState (s : Z) : bool :=
  (s =? ITEM_APPLIED) || (s =? ITEM_REJECTED) || (s =? ITEM_VOIDED) || (s =? ITEM_SETTLED_UNKNOWN).

Inductive existingVerdict := existingDuplicate | existingConflict.
#[global] Instance existingVerdict_eq : EqDecision existingVerdict.
Proof. solve_decision. Defined.

Definition sha256_Size : Z := 32.
Definition decideExisting (stored requested : bytes) : existingVerdict :=
  if (Z.of_nat (length stored) =? sha256_Size) && bool_decide (stored = requested)
  then existingDuplicate else existingConflict.

Definition outcomeToState (o : Z) : Z :=
  if o =? OUTCOME_APPLIED then ITEM_APPLIED
  else if o =? OUTCOME_REJECTED then ITEM_REJECTED
  else if o =? OUTCOME_SKIPPED then ITEM_VOIDED
  else if o =? OUTCOME_UNKNOWN then ITEM_SETTLED_UNKNOWN
  else ITEM_UNSPECIFIED.

Definition sameOutcome (state stateReason outcome reason : Z) : bool :=
  let want := outcomeToState outcome in
  if (want =? ITEM_UNSPECIFIED) || negb (state =? want) then false
  else negb (want =? ITEM_REJECTED) || (stateReason =? reason).

(** ** Ack *)
Record ackDecision := mkAck {
  ad_result : PlayerInboxAckResult; ad_finalize : bool; ad_newState : Z; ad_state : Z }.

Definition decideAck (row : option PlayerInboxItemRow) (report : PlayerInboxDecisionReport) : ackDecision :=
  match row with
  | None => mkAck ACK_UNKNOWN_SEQ false ITEM_UNSPECIFIED ITEM_UNSPECIFIED
  | Some row =>
      let state := it_state row in
      if negb (it_request_id row =? rp_request_id report)
      then mkAck ACK_MISMATCH false ITEM_UNSPECIFIED state
      else
        let want := outcomeToState (rp_outcome report) in
        if state =? ITEM_PENDING then
          if it_delivery_count row =? 0 then mkAck ACK_NOT_DELIVERED false ITEM_UNSPECIFIED state
          else if (rp_outcome report =? OUTCOME_SKIPPED) && negb (it_directive row =? DIRECTIVE_VOID)
          then mkAck ACK_SKIP_NOT_REQUESTED false ITEM_UNSPECIFIED state
          else mkAck ACK_FINALIZED true want want
        else if sameOutcome state (it_outcome_reason row) (rp_outcome report) (rp_reason report)
        then mkAck ACK_ALREADY_SAME false ITEM_UNSPECIFIED state
        else mkAck ACK_CONFLICT false ITEM_UNSPECIFIED state
  end.

Definition ackOutcomeReason (report : PlayerInboxDecisionReport) : Z :=
  if (rp_outcome report =? OUTCOME_REJECTED) || (rp_outcome report =? OUTCOME_SKIPPED)
  then rp_reason report else 0.

(** The loop over the reports: non-nil, non-zero, strictly ascending, known outcome. *)
Fixpoint reports_ascending (prev : Z) (reports : list PlayerInboxDecisionReport) : bool :=
  match reports with
  | [] => true
  | r :: reports' =>
      if (rp_seq r =? 0) || (rp_seq r <=? prev) then false
      else if outcomeToState (rp_outcome r) =? ITEM_UNSPECIFIED then false
      else reports_ascending (rp_seq r) reports'
  end.

Definition validateAckReports (reports : list PlayerInboxDecisionReport) (maxReports : Z) : bool :=
  if bool_decide (reports = []) || (maxReports <? Z.of_nat (length reports)) then false
  else reports_ascending 0 reports.

Record PlayerInboxAckItem := mkAckItem { ai_seq : Z; ai_result : PlayerInboxAckResult; ai_state : Z }.

Definition isAckAnomaly (r : PlayerInboxAckResult) : bool :=
  negb (bool_decide (r = ACK_FINALIZED)) && negb (bool_decide (r = ACK_ALREADY_SAME)).

(** ** Void *)
Inductive voidAction :=
  | voidNotFound | voidTerminal | voidDirect | voidDirective | voidAlreadyRequested
  | voidForced | voidForceRefused.
#[global] Instance voidAction_eq : EqDecision voidAction.
Proof. solve_decision. Defined.

Definition decideVoid (row : option PlayerInboxItemRow) : voidAction :=
  match row with
  | None => voidNotFound
  | Some row =>
      if negb (it_state row =? ITEM_PENDING) then voidTerminal
      else if it_delivery_count row =? 0 then voidDirect
      else if it_directive row =? DIRECTIVE_VOID then voidAlreadyRequested
      else voidDirective
  end.

Record voidOutcome := mkVoidOutcome { vo_tip : Z; vo_state : Z; vo_requested : bool }.

Definition voidOutcomeOf (action : voidAction) (state : Z) : voidOutcome :=
  match action with
  | voidTerminal => mkVoidOutcome ErrItemStateConflict state false
  | voidDirect => mkVoidOutcome 0 state false
  | voidDirective => mkVoidOutcome 0 state true
  | voidAlreadyRequested => mkVoidOutcome 0 state true
  | voidForced => mkVoidOutcome 0 state false
  | voidForceRefused => mkVoidOutcome ErrItemStateConflict state false
  | voidNotFound => mkVoidOutcome ErrItemNotFound ITEM_UNSPECIFIED false
  end.

Definition ErrAuditIdentity : error := "inbox: audit does not match item"%string.

(** Identity, action and "who and why" come from the caller's [a]; the content
    comes from the item row; the shard is recomputed. *)
Definition auditRowFor (item : PlayerInboxItemRow) (a : PlayerInboxAudit) : res PlayerInboxAudit :=
  if negb (it_player item =? au_player a) || negb (it_domain item =? au_domain a)
     || negb (it_seq item =? au_seq a)
  then Err ErrAuditIdentity
  else Ok {| au_shard := RowShard (au_player a); au_player := au_player a; au_domain := au_domain a;
             au_seq := au_seq a; au_action := au_action a; au_operator := au_operator a;
             au_peer_addr := au_peer_addr a; au_reason := au_reason a;
             au_created_ms := au_created_ms a; au_msg_type := it_msg_type item;
             au_request_id := it_request_id item; au_issued_at_ms := it_issued_at_ms item;
             au_content_sha256 := it_content_sha256 item; au_payload := it_payload item;
             au_void_reason := au_void_reason a |}.

(** ** Ledger *)
Definition ledgerRecentCapacity : Z := 32.

Definition isRecordableOutcome (o : Z) : bool :=
  (o =? OUTCOME_APPLIED) || (o =? OUTCOME_REJECTED) || (o =? OUTCOME_SKIPPED).

Definition findCursor (ledger : PlayerInboxLedgerComp) (domain : Z) : option PlayerInboxDomainCursor :=
  find_first (fun c => cu_domain c =? domain) ledger.

(** [GetDecidedThroughSeq] and [GetRecent] are nil safe. *)
Definition cursor_through (c : option PlayerInboxDomainCursor) : Z :=
  default 0 (cu_decided_through <$> c).
Definition cursor_recent (c : option PlayerInboxDomainCursor) : list PlayerInboxDecision :=
  default [] (cu_recent <$> c).

Fixpoint valid_ring (through prev : Z) (recent : list PlayerInboxDecision) : bool :=
  match recent with
  | [] => true
  | d :: recent' =>
      if (dc_seq d =? 0) || (dc_seq d <=? prev) || (through <? dc_seq d)
         || negb (isRecordableOutcome (dc_outcome d)) || (dc_request_id d =? 0)
      then false
      else valid_ring through (dc_seq d) recent'
  end.

Fixpoint valid_cursors (seen : gset Z) (cursors : list PlayerInboxDomainCursor) : bool :=
  match cursors with
  | [] => true
  | c :: cursors' =>
      if (cu_domain c =? 0) || bool_decide (cu_domain c ∈ seen)
         || (ledgerRecentCapacity <? Z.of_nat (length (cu_recent c)))
      then false
      else if valid_ring (cu_decided_through c) 0 (cu_recent c)
      then valid_cursors ({[cu_domain c]} ∪ seen) cursors'
      else false
  end.

Definition validLedger (ledger : PlayerInboxLedgerComp) : bool := valid_cursors ∅ ledger.

(** ** Forced void *)
Inductive PlayerInboxForceVoidVerdict :=
  | forceVoidUnspecified | forceVoidProven | forceVoidNotDelivered | forceVoidLedgerAbsent
  | forceVoidNotDecided | forceVoidSeqNotInRing | forceVoidRequestInLedger | forceVoidLedgerInvalid.
#[global] Instance forceVerdict_eq : EqDecision PlayerInboxForceVoidVerdict.
Proof. solve_decision. Defined.

Record forceVoidProof := mkProof {
  fp_verdict : PlayerInboxForceVoidVerdict; fp_decidedThrough : Z; fp_ringRequestID : Z }.

(** The scan of the ring: [inl] when an entry carries the row's own request,
    [inr (seqDecided, ringRequestID)] at the end. *)
Fixpoint scan_ring (seq req : Z) (acc : bool * Z) (recent : list PlayerInboxDecision)
    : (Z + (bool * Z)) :=
  match recent with
  | [] => inr acc
  | d :: recent' =>
      let acc := if dc_seq d =? seq then (true, dc_request_id d) else acc in
      if dc_request_id d =? req then inl acc.2 else scan_ring seq req acc recent'
  end.

Definition proveNeverExecuted (row : PlayerInboxItemRow) (ledger : option PlayerInboxLedgerComp)
    (found : bool) : forceVoidProof :=
  if it_delivery_count row =? 0 then mkProof forceVoidNotDelivered 0 0
  else match ledger with
  | None => mkProof forceVoidLedgerAbsent 0 0
  | Some ledger =>
      if negb found then mkProof forceVoidLedgerAbsent 0 0
      else if negb (validLedger ledger) then mkProof forceVoidLedgerInvalid 0 0
      else match findCursor ledger (it_domain row) with
      | None => mkProof forceVoidNotDecided 0 0
      | Some cursor =>
          let through := cu_decided_through cursor in
          if through <? it_seq row then mkProof forceVoidNotDecided through 0
          else match scan_ring (it_seq row) (it_request_id row) (false, 0) (cu_recent cursor) with
          | inl ringID => mkProof forceVoidRequestInLedger through ringID
          | inr (seqDecided, ringID) =>
              if negb seqDecided then mkProof forceVoidSeqNotInRing through ringID
              else mkProof forceVoidProven through ringID
          end
      end
  end.

Definition no_proof : forceVoidProof := mkProof forceVoidUnspecified 0 0.

Definition decideForceVoidLocked (row : option PlayerInboxItemRow) (ledger : option PlayerInboxLedgerComp)
    (found : bool) : voidAction * forceVoidProof :=
  match row with
  | None => (voidNotFound, no_proof)
  | Some row =>
      if negb (it_state row =? ITEM_PENDING) then (voidTerminal, no_proof)
      else
        let proof := proveNeverExecuted row ledger found in
        if negb (bool_decide (fp_verdict proof = forceVoidProven)) then (voidForceRefused, proof)
        else (voidForced, proof)
  end.

(** ** Enqueue *)
Record EnqueueResult := mkEnqueueResult {
  er_code : Z; er_seq : Z; er_created : bool; er_state : Z }.
#[global] Instance EnqueueResult_eq : EqDecision EnqueueResult.
Proof. solve_decision. Defined.

Definition reject_code (code : Z) : EnqueueResult := mkEnqueueResult code 0 false ITEM_UNSPECIFIED.

Definition resultForExisting (row : PlayerInboxItemRow) (digest : bytes) : EnqueueResult :=
  if bool_decide (decideExisting (it_content_sha256 row) digest = existingDuplicate)
  then mkEnqueueResult 0 (it_seq row) false (it_state row)
  else reject_code ErrIdempotencyConflict.

(** [Some res]: this is the outcome, nothing is written; [None]: proceed. *)
Definition decideEnqueueLocked (existing : option PlayerInboxItemRow) (digest : bytes)
    (openCount maxPending : Z) : option EnqueueResult :=
  match existing with
  | Some row => Some (resultForExisting row digest)
  | None => if maxPending <=? openCount then Some (reject_code ErrFull) else None
  end.

Definition IssuedAtMaxPast : Z := 7 * 24 * 3600 * 1000.
Definition IssuedAtMaxFuture : Z := 5 * 60 * 1000.

Definition issuedWithinWindow (issuedAtMs nowMs : Z) : bool :=
  if nowMs +64 IssuedAtMaxFuture <? issuedAtMs then false
  else (nowMs <? IssuedAtMaxPast) || (nowMs -64 IssuedAtMaxPast <=? issuedAtMs).

Definition validProducer (p : Z) : bool := (p =? PRODUCER_GM) || (p =? PRODUCER_MATCH).

(** ** Fetch and Ack write-backs *)
Definition clampFetchItems (requested def maxItems : Z) : Z :=
  if requested =? 0 then def else Z.min requested maxItems.

Definition fetchNeedsLock (openCount nextSeq consumerDecidedThrough : Z) : bool :=
  (0 <? openCount) || IsCursorAhead nextSeq consumerDecidedThrough.

Definition fetchStreamUpdate (v : PlayerInboxFenceVerdict) (lockedFence reqEpoch nextSeq : Z)
    (raised : bool) : bool * Z * Z :=
  let fence := if FenceWrites v then reqEpoch else lockedFence in
  (FenceWrites v || raised, fence, nextSeq).

Definition splitPage {T} (rows : list T) (limit : Z) : list T * bool :=
  let limit := if limit <? 0 then 0 else limit in
  if limit <? Z.of_nat (length rows) then (take (Z.to_nat limit) rows, true) else (rows, false).

Definition fetchScanBound (read : list PlayerInboxItemRow) (limit : Z) : Z * bool :=
  match last read with
  | None => (0, true)
  | Some row => if Z.of_nat (length read) <? limit then (0, true) else (it_seq row, false)
  end.

Definition subtractOpenCount (openCount finalized : Z) : Z * bool :=
  if openCount <? finalized then (0, true) else (openCount - finalized, false).

Definition ackStreamUpdate (v : PlayerInboxFenceVerdict) (openCount finalized lockedFence reqEpoch : Z)
    : bool * Z * Z * bool :=
  if (finalized =? 0) && negb (FenceWrites v) then (false, openCount, lockedFence, false)
  else
    let '(newOpen, underflow) := subtractOpenCount openCount finalized in
    let newFence := if FenceWrites v then reqEpoch else lockedFence in
    (true, newOpen, newFence, underflow).

(** ** Notification retries *)
Inductive NotifyResult :=
  | NotifyError | NotifySent | NotifyOffline | NotifyAwaitingPlacement | NotifyNoNode
  | NotifyEmptyUUID | NotifyNodesUnsynced | NotifyNodeAmbiguous | NotifyNodeMissing.
#[global] Instance NotifyResult_eq : EqDecision NotifyResult.
Proof. solve_decision. Defined.

Definition Settled (r : NotifyResult) : bool :=
  match r with
  | NotifySent | NotifyOffline | NotifyAwaitingPlacement | NotifyNoNode => true
  | _ => false
  end.

Definition notifyRetryMin : Z := 30 * 1000.
Definition notifyRetryMax : Z := 30 * 60 * 1000.
Definition notifyNodeMissingSettleAfter : Z := 3600 * 1000.

Definition notifyGivesUp (result : NotifyResult) (nowMs pendingSinceMs : Z) : bool :=
  if negb (bool_decide (result = NotifyNodeMissing)) || (pendingSinceMs =? 0) || (nowMs <=? pendingSinceMs)
  then false
  else notifyNodeMissingSettleAfter <=? nowMs -64 pendingSinceMs.

Definition notifyRetryDueMs (nowMs pendingSinceMs : Z) : Z :=
  let backoff :=
    if negb (pendingSinceMs =? 0) && (pendingSinceMs <? nowMs)
    then Z.min (Z.max (nowMs -64 pendingSinceMs) notifyRetryMin) notifyRetryMax
    else notifyRetryMin in
  nowMs +64 backoff.

(** ** Reconciliation *)
Record FinalizedRef := mkRef {
  fr_player : Z; fr_domain : Z; fr_seq : Z; fr_state : Z; fr_request_id : Z; fr_msg_type : Z;
  fr_outcome_reason : Z; fr_finalized_by : Z; fr_updated_ms : Z }.

Definition finalizedRefOfRow (row : PlayerInboxItemRow) : FinalizedRef :=
  {| fr_player := it_player row; fr_domain := it_domain row; fr_seq := it_seq row;
     fr_state := it_state row; fr_request_id := it_request_id row; fr_msg_type := it_msg_type row;
     fr_outcome_reason := it_outcome_reason row; fr_finalized_by := it_finalized_by row;
     fr_updated_ms := it_updated_ms row |}.

Inductive ledgerGap := gapNone | gapBeyondWatermark | gapMissingInRing | gapRingMismatch.
#[global] Instance ledgerGap_eq : EqDecision ledgerGap.
Proof. solve_decision. Defined.

(** The entry of the ring against the row. *)
Definition ring_entry_gap (f : FinalizedRef) (d : PlayerInboxDecision) : ledgerGap :=
  if negb (dc_request_id d =? fr_request_id f) || negb (dc_msg_type d =? fr_msg_type f)
     || negb (sameOutcome (fr_state f) (fr_outcome_reason f) (dc_outcome d) (dc_reason d))
  then gapRingMismatch else gapNone.

Definition ring_head_seq (recent : list PlayerInboxDecision) : Z :=
  match recent with d :: _ => dc_seq d | [] => 0 end.

Definition finalizedLedgerGap (f : FinalizedRef) (cursor : option PlayerInboxDomainCursor) : ledgerGap :=
  if negb (fr_finalized_by f =? FINALIZER_CONSUMER) || negb (IsTerminalState (fr_state f)) then gapNone
  else if cursor_through cursor <? fr_seq f then gapBeyondWatermark
  else if fr_state f =? ITEM_SETTLED_UNKNOWN then gapNone
  else
    let recent := cursor_recent cursor in
    if (ledgerRecentCapacity <=? Z.of_nat (length recent)) && (fr_seq f <? ring_head_seq recent) then gapNone
    else match find_first (fun d => dc_seq d =? fr_seq f) recent with
    | Some d => ring_entry_gap f d
    | None => gapMissingInRing
    end.

Inductive PlayerInboxReconcileDiffKind :=
  | RECONCILE_DIFF_UNSPECIFIED | RECONCILE_FINAL_NOT_IN_LEDGER | RECONCILE_PENDING_BUT_DECIDED.
#[global] Instance diffKind_eq : EqDecision PlayerInboxReconcileDiffKind.
Proof. solve_decision. Defined.

Definition reconcileDiff (row : PlayerInboxItemRow) (cursor : option PlayerInboxDomainCursor)
    : PlayerInboxReconcileDiffKind :=
  if it_state row =? ITEM_PENDING then
    if it_seq row <=? cursor_through cursor then RECONCILE_PENDING_BUT_DECIDED
    else RECONCILE_DIFF_UNSPECIFIED
  else if negb (bool_decide (finalizedLedgerGap (finalizedRefOfRow row) cursor = gapNone))
  then RECONCILE_FINAL_NOT_IN_LEDGER
  else RECONCILE_DIFF_UNSPECIFIED.

Definition ledgerMismatches (refs : list FinalizedRef) (ledger : PlayerInboxLedgerComp)
    : list (FinalizedRef * ledgerGap) :=
  keep_if (fun p => negb (bool_decide (p.2 = gapNone)))
    ((fun f => (f, finalizedLedgerGap f (findCursor ledger (fr_domain f)))) <$> refs).

(** ** The consumer: one cursor of the scene's ledger *)
Definition kRecentCapacity : Z := 32.

(** [None]: refused, nothing changed. *)
Definition RecordDecision (cursor : PlayerInboxDomainCursor) (d : PlayerInboxDecision)
    : option PlayerInboxDomainCursor :=
  if negb (isRecordableOutcome (dc_outcome d)) then None
  else if (dc_seq d =? 0) || (dc_seq d <=? cu_decided_through cursor) then None
  else
    let recent := cu_recent cursor ++ [d] in
    let recent :=
      if kRecentCapacity <? Z.of_nat (length recent)
      then drop (Z.to_nat (Z.of_nat (length recent) - kRecentCapacity)) recent else recent in
    Some (mkCursor (cu_domain cursor) (dc_seq d) recent).

Inductive DeliveryClass := kNew | kReplay | kMismatch | kUnknown.

Definition ClassifyDelivery (cursor : option PlayerInboxDomainCursor) (seq requestId msgType : Z)
    : DeliveryClass :=
  match cursor with
  | None => kNew
  | Some cursor =>
      if cu_decided_through cursor <? seq then kNew
      else match find_first (fun d => dc_seq d =? seq) (cu_recent cursor) with
      | None => kUnknown
      | Some d =>
          if negb (dc_request_id d =? requestId) || negb (dc_msg_type d =? msgType) then kMismatch
          else kReplay
      end
  end.

Inductive ItemAction :=
  | kExecute | kSkipVoided | kActReplay | kAckUnknown | kHaltMismatch | kHaltUnknownDirective.

Definition PlanItem (c : DeliveryClass) (directive : Z) : ItemAction :=
  match c with
  | kReplay => kActReplay
  | kUnknown => kAckUnknown
  | kMismatch => kHaltMismatch
  | kNew =>
      if directive =? DIRECTIVE_VOID then kSkipVoided
      else if negb (directive =? DIRECTIVE_NONE) then kHaltUnknownDirective
      else kExecute
  end.
