(* ===== verification/InboxLedger.v ===== *)
(** * Player inbox: the ledger checks against the consumer that writes the ledger

    The store reads the ledger a scene persisted and concludes from it: that a
    finalized item is missing ([finalizedLedgerGap]) or that a delivered item
    can never run again ([proveNeverExecuted]). Here the ledger is what
    [RecordDecision] produced from a history of decisions, so that the
    conclusions are about the history, including what the 32-entry ring has
    dropped and what the consumer records later. *)

From stdpp Require Import base list gmap strings sorting.
From Stdlib Require Import ZArith Lia.
From S2P Require Import Prelude InboxRow InboxDecide.
Local Open Scope Z_scope.

(** ** Histories *)
Definition empty_cursor (domain : Z) : PlayerInboxDomainCursor := mkCursor domain 0 [].

Definition run_cursor (domain : Z) (ds : list PlayerInboxDecision) : option PlayerInboxDomainCursor :=
  foldl (fun oc d => oc ≫= fun c => RecordDecision c d) (Some (empty_cursor domain)) ds.

Definition ascending (ds : list PlayerInboxDecision) : Prop :=
  StronglySorted (fun a b => dc_seq a < dc_seq b) ds.

Record history (domain : Z) (ds : list PlayerInboxDecision) (c : PlayerInboxDomainCursor) : Prop := {
  hi_domain : cu_domain c = domain;
  hi_recent : cu_recent c = drop (length ds - 32) ds;
  hi_through : forall d, d ∈ ds -> dc_seq d <= cu_decided_through c;
  hi_reached : ds <> [] -> exists d, d ∈ ds /\ dc_seq d = cu_decided_through c;
  hi_nonneg : 0 <= cu_decided_through c;
  hi_ascending : ascending ds;
  hi_entries : Forall (fun d => isRecordableOutcome (dc_outcome d) = true /\ 0 < dc_seq d) ds }.

Lemma StronglySorted_snoc {A} (R : A -> A -> Prop) l x :
  StronglySorted R l -> Forall (fun y => R y x) l -> StronglySorted R (l ++ [x]).
Proof.
  induction 1 as [|y l Hs IH Hall]; simpl; intros Hx; [repeat constructor|].
  inversion Hx as [|? ? Hy Hl]; subst. constructor; [by apply IH|].
  apply Forall_app. split; [done|]. by repeat constructor.
Qed.

Lemma drop_snoc_ring (ds : list PlayerInboxDecision) d :
  (let r := drop (length ds - 32) ds ++ [d] in
   if kRecentCapacity <? Z.of_nat (length r)
   then drop (Z.to_nat (Z.of_nat (length r) - kRecentCapacity)) r else r)
  = drop (length (ds ++ [d]) - 32) (ds ++ [d]).
Proof.
  cbv zeta. rewrite !length_app, length_drop. simpl. unfold kRecentCapacity.
  destruct (_ <? _) eqn:Hc; zbool.
  - assert (32 <= length ds)%nat by lia.
    rewrite !drop_app, length_drop, drop_drop.
    assert (Z.to_nat (Z.of_nat (length ds - (length ds - 32) + 1) - 32) = 1%nat) as -> by lia.
    replace (1 - (length ds - (length ds - 32)))%nat with 0%nat by lia.
    replace (length ds + 1 - 32 - length ds)%nat with 0%nat by lia.
    by replace (length ds - 32 + 1)%nat with (length ds + 1 - 32)%nat by lia.
  - replace (length ds - 32)%nat with 0%nat by lia.
    by replace (length ds + 1 - 32)%nat with 0%nat by lia.
Qed.

Lemma RecordDecision_history domain ds c d c' :
  history domain ds c -> RecordDecision c d = Some c' -> history domain (ds ++ [d]) c'.
Proof.
  intros [] Hr. unfold RecordDecision in Hr.
  destruct (negb _) eqn:Ho; [done|]. destruct (_ || _) eqn:Hs; [done|]. zbool. simplify_eq/=.
  constructor; simpl.
  - done.
  - rewrite hi_recent0. apply drop_snoc_ring.
  - intros x [Hx| ->%list_elem_of_singleton]%elem_of_app; [|done].
    specialize (hi_through0 x Hx). lia.
  - intros _. exists d. split; [|done]. apply elem_of_app. right. by apply list_elem_of_singleton.
  - lia.
  - apply StronglySorted_snoc; [done|]. apply Forall_forall. intros x Hx.
    specialize (hi_through0 x Hx). lia.
  - apply Forall_app. split; [done|]. repeat constructor; [done|lia].
Qed.

Lemma run_cursor_snoc domain ds d :
  run_cursor domain (ds ++ [d]) = run_cursor domain ds ≫= fun c => RecordDecision c d.
Proof. unfold run_cursor. by rewrite foldl_app. Qed.

Lemma run_cursor_history domain ds c : run_cursor domain ds = Some c -> history domain ds c.
Proof.
  revert c. induction ds as [|d ds IH] using rev_ind; intros c.
  - intros [= <-]. constructor; simpl; try done; [set_solver|constructor].
  - rewrite run_cursor_snoc. destruct (run_cursor domain ds) as [c0|]; [|done]. simpl.
    intros. eapply RecordDecision_history; eauto.
Qed.

(** The consumer that goes on recording keeps what it has. *)
Lemma run_cursor_app domain ds ds' c' :
  run_cursor domain (ds ++ ds') = Some c' -> exists c, run_cursor domain ds = Some c.
Proof.
  revert c'. induction ds' as [|d ds' IH] using rev_ind; intros c'; [rewrite app_nil_r; eauto|].
  rewrite app_assoc, run_cursor_snoc.
  destruct (run_cursor domain (ds ++ ds')) as [c0|]; [|done]. eauto.
Qed.

(** In an ascending list a sequence number names one entry. *)
Lemma ascending_unique ds a b :
  ascending ds -> a ∈ ds -> b ∈ ds -> dc_seq a = dc_seq b -> a = b.
Proof.
  induction 1 as [|x l Hs IH Hall]; [set_solver|]. rewrite Forall_forall in Hall.
  intros [->|Ha]%elem_of_cons [->|Hb]%elem_of_cons Heq; auto.
  - specialize (Hall _ Hb). lia.
  - specialize (Hall _ Ha). lia.
Qed.

Lemma ascending_drop n ds : ascending ds -> ascending (drop n ds).
Proof. apply StronglySorted_sublist, sublist_drop. Qed.

(** What the ring has dropped lies before its head. *)
Lemma ascending_dropped n ds d h t :
  ascending ds -> drop n ds = h :: t -> d ∈ ds -> d ∈ drop n ds \/ dc_seq d < dc_seq h.
Proof.
  revert n. induction ds as [|x ds IH]; intros n Hasc Hd Hin; [by rewrite drop_nil in Hd|].
  destruct n as [|n]; [by left|]. simpl in *. inversion Hasc as [|? ? Hs Hall]; subst.
  apply elem_of_cons in Hin as [->|Hin]; [|eauto]. right.
  rewrite Forall_forall in Hall. apply Hall.
  eapply elem_of_sublist; [|apply (sublist_drop ds n)]. rewrite Hd. left.
Qed.

(** A search by sequence number finds the entry. *)
Lemma find_seq_Some ds d seq :
  ascending ds -> d ∈ ds -> dc_seq d = seq ->
  find_first (fun x => dc_seq x =? seq) ds = Some d.
Proof.
  intros Hasc Hin Hs. destruct (find_first _ ds) as [x|] eqn:Hf.
  - apply find_first_Some in Hf as [Hx Hxs]. zbool. f_equal.
    eapply ascending_unique; [done..|lia].
  - rewrite find_first_None in Hf. specialize (Hf _ Hin). zlia.
Qed.

Lemma find_seq_elem ds d seq :
  find_first (fun x => dc_seq x =? seq) ds = Some d -> d ∈ ds /\ dc_seq d = seq.
Proof. intros [? ?]%find_first_Some. split; [done|zlia]. Qed.

Lemma ring_subset domain ds c d : history domain ds c -> d ∈ cu_recent c -> d ∈ ds.
Proof. intros [] Hd. rewrite hi_recent0 in Hd. eapply elem_of_sublist; [done|apply sublist_drop]. Qed.

Lemma ring_ascending domain ds c : history domain ds c -> ascending (cu_recent c).
Proof. intros []. rewrite hi_recent0. by apply ascending_drop. Qed.

(** A recorded decision is in the ring or before the head of a full ring. *)
Lemma ring_covers domain ds c d :
  history domain ds c -> d ∈ ds ->
  d ∈ cu_recent c \/ (length (cu_recent c) = 32%nat /\ dc_seq d < ring_head_seq (cu_recent c)).
Proof.
  intros [] Hd. rewrite hi_recent0. destruct (decide (length ds <= 32)%nat) as [Hle|Hgt].
  { left. by replace (length ds - 32)%nat with 0%nat by lia. }
  assert (length (drop (length ds - 32) ds) = 32%nat) as Hlen by (rewrite length_drop; lia).
  destruct (drop (length ds - 32) ds) as [|h t] eqn:Hdr; [done|].
  destruct (ascending_dropped _ _ _ _ _ hi_ascending0 Hdr Hd) as [Hin|Hlt].
  - left. by rewrite <- Hdr.
  - right. by split.
Qed.

(** ** Validity *)
Lemma valid_ring_intro through ds : forall prev,
  ascending ds -> Forall (fun d => isRecordableOutcome (dc_outcome d) = true /\ 0 < dc_seq d) ds ->
  (forall d, d ∈ ds -> prev < dc_seq d <= through /\ dc_request_id d <> 0) ->
  valid_ring through prev ds = true.
Proof.
  induction ds as [|d ds IH]; intros prev Hasc Hall Hb; simpl; [done|].
  inversion Hasc as [|? ? Hs Hlt]; subst. inversion Hall as [|? ? [Hr Hp] Ht]; subst.
  destruct (Hb d ltac:(left)) as [Hd Hreq]. rewrite Hr.
  rewrite (proj2 (Z.eqb_neq _ _)), (proj2 (Z.leb_gt _ _)), (proj2 (Z.ltb_ge _ _)) by lia.
  rewrite (proj2 (Z.eqb_neq (dc_request_id d) 0)) by done. simpl.
  apply IH; [done..|]. intros x Hx. rewrite Forall_forall in Hlt.
  specialize (Hlt x Hx). destruct (Hb x ltac:(by right)). split; [lia|done].
Qed.

Lemma valid_ring_elim through ds : forall prev,
  valid_ring through prev ds = true ->
  ascending ds /\ forall d, d ∈ ds ->
    prev < dc_seq d <= through /\ dc_seq d <> 0 /\ isRecordableOutcome (dc_outcome d) = true /\ dc_request_id d <> 0.
Proof.
  induction ds as [|d ds IH]; intros prev; simpl; [split; [constructor|set_solver]|].
  destruct (_ || _) eqn:Hc; [done|]. intros [Hasc Hb]%IH. zbool.
  split.
  - constructor; [done|]. apply Forall_forall. intros x Hx. destruct (Hb x Hx). lia.
  - intros x [->|Hx]%elem_of_cons; [split_and!; first [lia|done]|].
    destruct (Hb x Hx) as (? & ? & ? & ?). split_and!; first [lia|done].
Qed.

(** A valid ledger has a valid ring under every domain it names. *)
Lemma validLedger_cursor ledger domain c :
  validLedger ledger = true -> findCursor ledger domain = Some c ->
  cu_domain c = domain /\ (length (cu_recent c) <= 32)%nat /\
  valid_ring (cu_decided_through c) 0 (cu_recent c) = true.
Proof.
  unfold validLedger, findCursor. generalize (∅ : gset Z).
  induction ledger as [|x l IH]; intros seen; simpl; [done|].
  destruct (_ || _) eqn:Hc; [done|]. destruct (valid_ring (cu_decided_through x) 0 (cu_recent x)) eqn:Hv; [|done]. zbool.
  intros Hl. destruct (cu_domain x =? domain) eqn:Hd; [|by eapply IH].
  intros [= <-]. zbool. split_and!; [done| |done].
  unfold ledgerRecentCapacity in *. lia.
Qed.

(** Every ledger the consumer can write is accepted as evidence: the
    cursors that [RecordDecision] builds from histories of decisions with
    non-zero request ids, one per non-zero domain, pass [validLedger] (so the
    store never refuses to reconcile a healthy player). *)
Theorem written_ledger_valid (hists : list (Z * list PlayerInboxDecision)) ledger :
  NoDup hists.*1 -> Forall (fun h => h.1 <> 0 /\ Forall (fun d => dc_request_id d <> 0) h.2) hists ->
  mapM (fun h => run_cursor h.1 h.2) hists = Some ledger ->
  validLedger ledger = true.
Proof.
  unfold validLedger. intros Hnd Hall Hm.
  assert (forall d, d ∈ hists.*1 -> d ∉ (∅ : gset Z)) as Hseen by set_solver.
  revert Hnd Hall Hseen. generalize (∅ : gset Z). apply mapM_Some in Hm.
  induction Hm as [|[dom ds] c hists ledger Hc Hm IH]; intros seen Hnd Hall Hseen; csimpl in *; [done|].
  apply run_cursor_history in Hc. inversion Hall as [|? ? [Hd0 Hreq] Hall']; subst.
  inversion Hnd as [|? ? Hnin Hnd']; subst. simpl in *.
  pose proof (hi_domain _ _ _ Hc) as Hdom. rewrite Hdom.
  rewrite (proj2 (Z.eqb_neq _ _)) by done.
  rewrite bool_decide_eq_false_2 by (apply Hseen; left).
  assert (length (cu_recent c) <= 32)%nat as Hlen.
  { rewrite (hi_recent _ _ _ Hc), length_drop. lia. }
  rewrite (proj2 (Z.ltb_ge _ _)) by (unfold ledgerRecentCapacity; lia). simpl.
  rewrite valid_ring_intro.
  - apply IH; [done..|]. intros d Hd. apply not_elem_of_union. split; [|apply Hseen; by right].
    intros ->%elem_of_singleton. done.
  - by eapply ring_ascending.
  - rewrite (hi_recent _ _ _ Hc). eapply Forall_sublist; [apply sublist_drop|apply Hc].
  - intros d Hd. apply (ring_subset _ _ _ _ Hc) in Hd.
    pose proof (hi_entries _ _ _ Hc) as He. rewrite Forall_forall in He, Hreq.
    destruct (He d Hd). pose proof (hi_through _ _ _ Hc d Hd). split; [lia|by apply Hreq].
Qed.

Definition ledger_sample : list PlayerInboxDecision :=
  [mkDecision 5 OUTCOME_APPLIED 0 70 MSG_GM_BLOCK_CURRENCY_GAIN;
   mkDecision 9 OUTCOME_REJECTED 12 71 MSG_GM_ATTACH_CURRENCY_DEBT].

Lemma written_ledger_valid_witness :
  exists ledger, mapM (fun h => run_cursor h.1 h.2) [(1, ledger_sample)] = Some ledger /\
    validLedger ledger = true.
Proof.
  eexists. split; [reflexivity|].
  apply (written_ledger_valid [(1, ledger_sample)]); [| |reflexivity].
  - apply NoDup_singleton.
  - repeat constructor; discriminate.
Defined.

(** ** Finalized items *)

(** The decision a finalized row stands for. *)
Definition decision_of_row (f : FinalizedRef) (d : PlayerInboxDecision) : Prop :=
  dc_seq d = fr_seq f /\ dc_request_id d = fr_request_id f /\ dc_msg_type d = fr_msg_type f /\
  sameOutcome (fr_state f) (fr_outcome_reason f) (dc_outcome d) (dc_reason d) = true.

Lemma ring_entry_gap_none f d :
  ring_entry_gap f d = gapNone <->
  dc_request_id d = fr_request_id f /\ dc_msg_type d = fr_msg_type f /\
  sameOutcome (fr_state f) (fr_outcome_reason f) (dc_outcome d) (dc_reason d) = true.
Proof.
  unfold ring_entry_gap. destruct (_ || _) eqn:Hc; split; try done.
  - intros (Hr & Hm & Hs). rewrite Hr, Hm, !Z.eqb_refl, Hs in Hc. done.
  - intros _. zbool. naive_solver.
Qed.

(** The reconciliation raises no false alarm: an item the consumer finalized
    and whose decision is anywhere in the consumer's history, or whose outcome
    was UNKNOWN at or below the watermark, is never reported as missing from the
    ledger, however many later decisions have pushed it out of the ring. *)
Theorem reconcile_no_false_alarm domain ds c f :
  run_cursor domain ds = Some c ->
  ((exists d, d ∈ ds /\ decision_of_row f d) \/
   (fr_state f = ITEM_SETTLED_UNKNOWN /\ fr_seq f <= cu_decided_through c)) ->
  finalizedLedgerGap f (Some c) = gapNone.
Proof.
  intros Hc%run_cursor_history Hf. unfold finalizedLedgerGap.
  destruct (_ || _); [done|].
  destruct (cursor_through (Some c) <? fr_seq f) eqn:Ht.
  { exfalso. unfold cursor_through in Ht. simpl in Ht. zbool.
    destruct Hf as [(d & Hd & Hs & _)|[_ ?]]; [pose proof (hi_through _ _ _ Hc d Hd); lia|lia]. }
  destruct (fr_state f =? ITEM_SETTLED_UNKNOWN) eqn:Hu; [done|]. zbool.
  destruct Hf as [(d & Hd & Hs & Hm)|[? _]]; [|done]. simpl.
  destruct (ring_covers _ _ _ _ Hc Hd) as [Hin|[Hlen Hlt]].
  - destruct (_ && _); [done|].
    rewrite (find_seq_Some (cu_recent c) d) by (done || by eapply ring_ascending).
    by apply ring_entry_gap_none.
  - unfold cursor_recent. simpl. rewrite Hlen, (proj2 (Z.ltb_lt _ _)) by lia. done.
Qed.

Definition ref_sample : FinalizedRef :=
  mkRef 3 1 9 ITEM_REJECTED 71 MSG_GM_ATTACH_CURRENCY_DEBT 12 FINALIZER_CONSUMER 1000.

Lemma reconcile_no_false_alarm_witness :
  exists c, run_cursor 1 ledger_sample = Some c /\ finalizedLedgerGap ref_sample (Some c) = gapNone.
Proof.
  eexists. split; [reflexivity|].
  apply (reconcile_no_false_alarm 1 ledger_sample); [reflexivity|left].
  exists (mkDecision 9 OUTCOME_REJECTED 12 71 MSG_GM_ATTACH_CURRENCY_DEBT).
  split; [right; left|by repeat split].
Defined.

(** C39: The reconciliation misses no loss it can see: an item the consumer
    finalized with a recordable outcome that the persisted history does not
    contain is reported, unless its number lies before the head of a full ring
    (the only numbers the ledger no longer speaks about). *)
Theorem reconcile_detects_loss domain ds c f :
  run_cursor domain ds = Some c ->
  fr_finalized_by f = FINALIZER_CONSUMER -> IsTerminalState (fr_state f) = true ->
  fr_state f <> ITEM_SETTLED_UNKNOWN ->
  (forall d, d ∈ ds -> ~ decision_of_row f d) ->
  ((length ds < 32)%nat \/ ring_head_seq (cu_recent c) <= fr_seq f) ->
  finalizedLedgerGap f (Some c) <> gapNone.
Proof.
  intros Hc%run_cursor_history Hby Hterm Hnu Hno Hcov. unfold finalizedLedgerGap.
  rewrite Hby, Hterm. simpl. destruct (cursor_through _ <? _); [done|].
  rewrite (proj2 (Z.eqb_neq _ _)) by done.
  replace (_ && _) with false.
  - destruct (find_first _ _) as [d|] eqn:Hf; [|done].
    intros Hg. apply ring_entry_gap_none in Hg. apply find_seq_elem in Hf as [Hd Hs].
    apply (Hno d); [by eapply ring_subset|]. by split.
  - symmetry. apply andb_false_iff. destruct Hcov as [Hl|Hl]; [left|right; by apply Z.ltb_ge].
    unfold cursor_recent. simpl. rewrite (hi_recent _ _ _ Hc), length_drop. apply Z.leb_gt. unfold ledgerRecentCapacity. lia.
Qed.

Lemma reconcile_detects_loss_witness :
  exists c, run_cursor 1 ledger_sample = Some c /\
    finalizedLedgerGap (mkRef 3 1 7 ITEM_APPLIED 90 1 0 FINALIZER_CONSUMER 1000) (Some c) <> gapNone.
Proof.
  eexists. split; [reflexivity|].
  apply (reconcile_detects_loss 1 ledger_sample); [reflexivity..|discriminate| |left; simpl; lia].
  intros d Hd [Hs _]. unfold ledger_sample in Hd.
  apply elem_of_cons in Hd as [->|Hd]; [discriminate|].
  apply elem_of_cons in Hd as [->|Hd]; [discriminate|]. by apply not_elem_of_nil in Hd.
Defined.

(** ** Forced void *)
Lemma scan_ring_inr seq req recent : forall acc b id,
  scan_ring seq req acc recent = inr (b, id) ->
  (forall d, d ∈ recent -> dc_request_id d <> req) /\
  (b = true -> acc.1 = true \/ exists d, d ∈ recent /\ dc_seq d = seq).
Proof.
  induction recent as [|d recent IH]; intros acc b id; simpl; [intros [= ->]; set_solver|].
  destruct (dc_request_id d =? req) eqn:Hreq; [done|]. intros [Hn Hb]%IH. zbool. split.
  - intros x [->|Hx]%elem_of_cons; auto.
  - intros [H|(x & Hx & Hs)]%Hb.
    + destruct (dc_seq d =? seq) eqn:Hd; [|by left]. right. exists d. zbool. split; [left|done].
    + right. exists x. split; [by right|done].
Qed.

Lemma proveNeverExecuted_proven row ledger found :
  fp_verdict (proveNeverExecuted row ledger found) = forceVoidProven ->
  it_delivery_count row <> 0 /\ found = true /\ exists l c d, ledger = Some l /\ validLedger l = true /\
    findCursor l (it_domain row) = Some c /\ it_seq row <= cu_decided_through c /\
    d ∈ cu_recent c /\ dc_seq d = it_seq row /\ dc_request_id d <> it_request_id row /\
    (forall x, x ∈ cu_recent c -> dc_request_id x <> it_request_id row).
Proof.
  unfold proveNeverExecuted. destruct (it_delivery_count row =? 0) eqn:Hd; [done|].
  destruct ledger as [l|]; [|done]. destruct found; [|done]. simpl.
  destruct (validLedger l) eqn:Hv; [|done]. simpl.
  destruct (findCursor l (it_domain row)) as [c|] eqn:Hc; [|done].
  destruct (_ <? _) eqn:Ht; [done|].
  destruct (scan_ring _ _ _ _) as [|[b id]] eqn:Hs; [done|].
  destruct b; simpl; [|done]. intros _.
  destruct (scan_ring_inr _ _ _ _ _ _ Hs) as [Hno Hex].
  destruct (Hex eq_refl) as [Habs|(d & Hin & Hseq)]; [done|].
  zbool. split_and!; [done..|]. exists l, c, d. split_and!; try done. by apply Hno.
Qed.

(** A forced void never cancels an item that ran or may still run. When
    [proveNeverExecuted] answers PROVEN on the ledger the consumer persisted
    after the history [ds], then whatever the consumer records afterwards
    ([ds'], also the redelivery of the very row), the decisions it has made
    never include this (seq, request) pair, and a redelivery is halted or
    answered UNKNOWN: it is neither executed nor skipped nor replayed,
    whatever directive is attached. *)
Theorem force_void_never_executes row ledger domain ds ds' c c' directive :
  domain = it_domain row ->
  run_cursor domain ds = Some c -> findCursor ledger domain = Some c ->
  run_cursor domain (ds ++ ds') = Some c' ->
  fp_verdict (proveNeverExecuted row (Some ledger) true) = forceVoidProven ->
  (forall d, d ∈ ds ++ ds' -> dc_seq d = it_seq row -> dc_request_id d <> it_request_id row) /\
  (PlanItem (ClassifyDelivery (Some c') (it_seq row) (it_request_id row) (it_msg_type row)) directive = kHaltMismatch \/
   PlanItem (ClassifyDelivery (Some c') (it_seq row) (it_request_id row) (it_msg_type row)) directive = kAckUnknown).
Proof.
  intros -> Hc%run_cursor_history Hfc Hc'%run_cursor_history Hp.
  apply proveNeverExecuted_proven in Hp as (_ & _ & l & c0 & d & [= <-] & Hv & Hfc0 & Hthr & Hd & Hseq & Hreq & _).
  rewrite Hfc in Hfc0. simplify_eq.
  assert (d ∈ ds ++ ds') as Hin by (apply elem_of_app; left; by eapply ring_subset).
  assert (forall x, x ∈ ds ++ ds' -> dc_seq x = it_seq row -> x = d) as Huniq.
  { intros x Hx Hsx. eapply ascending_unique; [apply Hc'|done..|lia]. }
  split; [intros x Hx Hsx; by rewrite (Huniq x Hx Hsx)|].
  unfold ClassifyDelivery. pose proof (hi_through _ _ _ Hc' d Hin).
  rewrite (proj2 (Z.ltb_ge _ _)) by lia.
  destruct (find_first _ (cu_recent c')) as [x|] eqn:Hf; [left|by right].
  apply find_seq_elem in Hf as [Hx Hsx].
  rewrite (Huniq x); [|by eapply ring_subset|done].
  rewrite (proj2 (Z.eqb_neq _ _)) by done. done.
Qed.

Definition mismatch_row : PlayerInboxItemRow :=
  mkItem 0 3 1 9 MSG_GM_ATTACH_CURRENCY_DEBT PRODUCER_GM 99 [] [] ITEM_PENDING DIRECTIVE_NONE 0 2 4 500 0 0 0
    400 400 500 "gm"%string ""%string "acct"%string 1.

Lemma force_void_never_executes_witness :
  let c := mkCursor 1 9 ledger_sample in
  let later := mkDecision 11 OUTCOME_APPLIED 0 80 1 in
  let c' := mkCursor 1 11 (ledger_sample ++ [later]) in
  run_cursor 1 ledger_sample = Some c /\ run_cursor 1 (ledger_sample ++ [later]) = Some c' /\
  fp_verdict (proveNeverExecuted mismatch_row (Some [c]) true) = forceVoidProven /\
  (PlanItem (ClassifyDelivery (Some c') 9 99 MSG_GM_ATTACH_CURRENCY_DEBT) DIRECTIVE_NONE = kHaltMismatch \/
   PlanItem (ClassifyDelivery (Some c') 9 99 MSG_GM_ATTACH_CURRENCY_DEBT) DIRECTIVE_NONE = kAckUnknown).
Proof.
  cbv zeta. split_and!; [reflexivity..|].
  apply (force_void_never_executes mismatch_row [mkCursor 1 9 ledger_sample] 1 ledger_sample
           [mkDecision 11 OUTCOME_APPLIED 0 80 1] (mkCursor 1 9 ledger_sample)); reflexivity.
Defined.
