(* ===== verification/InboxRegistry.v ===== *)
(** * Player inbox: the type registry and the enqueue field checks

    [go/player_inbox/internal/inbox/registry.go]: the registry built from the
    enum descriptors and checked at start-up, the payload rules, and
    [ValidatePayload]/[ValidateText], the first step of every enqueue. The
    protobuf library (name resolution, [Unmarshal], the unknown-field walk) is a
    parameter. *)

From stdpp Require Import base list gmap strings.
From Stdlib Require Import ZArith Lia.
From S2P Require Import Prelude InboxRow InboxDecide.
Local Open Scope Z_scope.

(** ** Specifications *)
Record PlayerInboxDomainSpec := mkDomainSpec { ds_max_pending : Z; ds_requires_out_of_battle : bool }.
Record PlayerInboxTypeSpec := mkTypeSpec {
  ts_domain : Z; ts_klass : Z; ts_payload_message : string; ts_max_payload_bytes : Z }.

(** A decoded payload. The flag of a battle is what [battlePayloadHasUnknown]
    answers on it. *)
Inductive Payload :=
  | GmCurrencyGainPayload (currency : Z)
  | GmCurrencyDebtPayload (currency owe_amount : Z) (reason gm_operator : string) (expires_at : Z)
  | BattleSettlementData (player battle outcome : Z) (hasUnknown : bool).

Record payloadRule := mkRule { pr_message : string; pr_validate : Payload -> bool }.
Record TypeEntry := mkTypeEntry { te_type : Z; te_spec : PlayerInboxTypeSpec; te_rule : payloadRule }.
Record Registry := mkRegistry { rg_domains : gmap Z PlayerInboxDomainSpec; rg_types : gmap Z TypeEntry }.

(** ** Field checks *)
Definition MaxOperatorBytes : Z := 64.
Definition MaxReasonBytes : Z := 256.
Definition MaxPayloadBytesHardCap : Z := 16 * 1024.

Definition ValidateText (s : string) (maxBytes : Z) (required : bool) : Z :=
  if bool_decide (s = EmptyString) then if required then ErrInvalidParameter else 0
  else if (maxBytes <? Z.of_nat (String.length s)) || negb (utf8_valid s) then ErrTextTooLong
  else 0.

Definition MaxInt32 : Z := 2147483647.
Definition MaxInt64 : Z := 9223372036854775807.

(** [currencytype.IsKnown] *)
Definition IsKnown (v : Z) : bool :=
  if MaxInt32 <? v then false else bool_decide (v ∈ [0; 1; 2]).

Definition maxDebtExpiresAtSeconds : Z := 253402300799.

Definition validateBattlePayload (m : Payload) : bool :=
  match m with
  | BattleSettlementData player battle outcome unknown =>
      negb ((player =? 0) || (battle =? 0) || (outcome <? 1) || (3 <? outcome) || unknown)
  | _ => false
  end.

Definition validateGainPayload (m : Payload) : bool :=
  match m with GmCurrencyGainPayload currency => IsKnown currency | _ => false end.

Definition validateDebtPayload (m : Payload) : bool :=
  match m with
  | GmCurrencyDebtPayload currency owe reason op expires =>
      if negb (IsKnown currency) then false
      else if (owe =? 0) || (MaxInt64 <? owe) then false
      else if negb (ValidateText reason MaxReasonBytes false =? 0) then false
      else if negb (ValidateText op MaxOperatorBytes true =? 0) then false
      else negb (maxDebtExpiresAtSeconds <? expires)
  | _ => false
  end.

Definition payloadRules : gmap Z payloadRule :=
  list_to_map
    [(MSG_BATTLE_SETTLEMENT, mkRule "BattleSettlementData" validateBattlePayload);
     (MSG_GM_BLOCK_CURRENCY_GAIN, mkRule "player_inbox.GmCurrencyGainPayload" validateGainPayload);
     (MSG_GM_UNBLOCK_CURRENCY_GAIN, mkRule "player_inbox.GmCurrencyGainPayload" validateGainPayload);
     (MSG_GM_ATTACH_CURRENCY_DEBT, mkRule "player_inbox.GmCurrencyDebtPayload" validateDebtPayload)].

(** ** Construction *)
Definition ErrRegistry (why : string) : error := ("inbox registry: " +:+ why)%string.

(** One enum value of the domain enum, with its extension if it has one. *)
Definition add_domain (domains : gmap Z PlayerInboxDomainSpec) (v : Z * option PlayerInboxDomainSpec)
    : res (gmap Z PlayerInboxDomainSpec) :=
  if v.1 =? 0 then Ok domains
  else match v.2 with
  | None => Err (ErrRegistry "domain has no spec")
  | Some spec =>
      if ds_max_pending spec =? 0 then Err (ErrRegistry "max_pending must be > 0")
      else Ok (<[v.1 := spec]> domains)
  end.

Section registry.
Context (resolve : string -> option string).

Definition add_type (rules : gmap Z payloadRule) (domains : gmap Z PlayerInboxDomainSpec)
    (types : gmap Z TypeEntry) (v : Z * option PlayerInboxTypeSpec) : res (gmap Z TypeEntry) :=
  if v.1 =? 0 then Ok types
  else match v.2 with
  | None => Err (ErrRegistry "type has no spec")
  | Some spec =>
      if ts_domain spec =? DOMAIN_UNSPECIFIED then Err (ErrRegistry "no owning domain")
      else if bool_decide (domains !! ts_domain spec = None) then Err (ErrRegistry "domain has no spec")
      else if negb (ts_klass spec =? CLASS_DURABLE) then Err (ErrRegistry "not DURABLE")
      else if (ts_max_payload_bytes spec =? 0) || (MaxPayloadBytesHardCap <? ts_max_payload_bytes spec)
      then Err (ErrRegistry "max_payload_bytes out of range")
      else match resolve (ts_payload_message spec) with
      | None => Err (ErrRegistry "payload_message cannot be resolved")
      | Some fullName =>
          match rules !! v.1 with
          | None => Err (ErrRegistry "no payload validator")
          | Some rule =>
              if negb (bool_decide (pr_message rule = fullName))
              then Err (ErrRegistry "validator expects another message")
              else Ok (<[v.1 := mkTypeEntry v.1 spec rule]> types)
          end
      end
  end.

Definition newRegistry (domainEnum : list (Z * option PlayerInboxDomainSpec))
    (typeEnum : list (Z * option PlayerInboxTypeSpec)) (rules : gmap Z payloadRule) : res Registry :=
  domains ← fold_res add_domain ∅ domainEnum;
  types ← fold_res (add_type rules domains) ∅ typeEnum;
  if existsb (fun t => bool_decide (types !! t = None)) (map_to_list rules).*1
  then Err (ErrRegistry "payloadRules has a type the enum does not register")
  else if bool_decide (types = ∅) then Err (ErrRegistry "no message types registered")
  else Ok (mkRegistry domains types).
End registry.

Definition Domain (r : Registry) (d : Z) : option PlayerInboxDomainSpec := rg_domains r !! d.
Definition Type_ (r : Registry) (t : Z) : option TypeEntry := rg_types r !! t.

Definition CheckAllowlist (r : Registry) (allowed : gset Z) : res () :=
  guard_err (existsb (fun t => bool_decide (rg_types r !! t = None)) (elements allowed))
    "PlayerInbox.EnqueueTypes lists a type with no registered spec"%string.

(** ** Validation of one payload *)
Section validate.
(** [unmarshal message payload]: the decoded message and whether the decoder met
    a field it does not know. *)
Context (unmarshal : string -> bytes -> option (Payload * bool)).

Definition Decode (e : TypeEntry) (payload : bytes) : option Payload :=
  match unmarshal (pr_message (te_rule e)) payload with
  | Some (m, false) => Some m
  | _ => None
  end.

(** [inl]: the tip code of the refusal. *)
Definition ValidatePayload (r : Registry) (t : Z) (allowed : gset Z) (payload : bytes) : Z + TypeEntry :=
  match rg_types r !! t with
  | None => inl ErrUnknownType
  | Some entry =>
      if negb (ts_klass (te_spec entry) =? CLASS_DURABLE) then inl ErrUnknownType
      else if negb (bool_decide (t ∈ allowed)) then inl ErrDisabled
      else if ts_max_payload_bytes (te_spec entry) <? Z.of_nat (length payload) then inl ErrPayloadTooLarge
      else match Decode entry payload with
      | None => inl ErrPayloadInvalid
      | Some m => if pr_validate (te_rule entry) m then inr entry else inl ErrPayloadInvalid
      end
  end.
End validate.

(** ** Facts *)
Lemma add_domain_Ok domains domains' l :
  fold_res add_domain domains l = Ok domains' ->
  map_Forall (fun d s => d <> 0 /\ ds_max_pending s <> 0) domains ->
  map_Forall (fun d s => d <> 0 /\ ds_max_pending s <> 0) domains'.
Proof.
  intros Hf H0. eapply (fold_res_ind (map_Forall (fun d s => d <> 0 /\ ds_max_pending s <> 0)));
    [exact H0| |exact Hf].
  intros ds [d o] ds' _ Hds. unfold add_domain. simpl.
  destruct (d =? 0) eqn:Hd; [by intros [= <-]|]. destruct o as [s|]; [|done].
  destruct (ds_max_pending s =? 0) eqn:Hm; [done|]. intros Heq. simplify_eq. zbool. by apply map_Forall_insert_2.
Qed.

(** What a registered type guarantees. *)
Record entry_ok (rules : gmap Z payloadRule) (domains : gmap Z PlayerInboxDomainSpec) (resolve : string -> option string)
    (t : Z) (e : TypeEntry) : Prop := {
  eo_type : t <> 0 /\ te_type e = t;
  eo_domain : ts_domain (te_spec e) <> DOMAIN_UNSPECIFIED /\ is_Some (domains !! ts_domain (te_spec e));
  eo_klass : ts_klass (te_spec e) = CLASS_DURABLE;
  eo_bytes : ts_max_payload_bytes (te_spec e) <> 0 /\ ts_max_payload_bytes (te_spec e) <= MaxPayloadBytesHardCap;
  eo_rule : rules !! t = Some (te_rule e);
  eo_message : resolve (ts_payload_message (te_spec e)) = Some (pr_message (te_rule e)) }.

Lemma add_type_Ok resolve rules domains l types types' :
  fold_res (add_type resolve rules domains) types l = Ok types' ->
  map_Forall (entry_ok rules domains resolve) types -> map_Forall (entry_ok rules domains resolve) types'.
Proof.
  intros Hf H0. eapply (fold_res_ind (map_Forall (entry_ok rules domains resolve))); [exact H0| |exact Hf].
  intros ts [t o] ts' _ Hts. unfold add_type. simpl.
  destruct (t =? 0) eqn:Ht; [by intros [= <-]|]. destruct o as [s|]; [|done].
  destruct (_ =? DOMAIN_UNSPECIFIED) eqn:Hd; [done|]. destruct (bool_decide _) eqn:Hdom; [done|].
  destruct (negb _) eqn:Hk; [done|]. destruct (_ || _) eqn:Hb; [done|].
  destruct (resolve _) as [fn|] eqn:Hres; [|done]. destruct (rules !! t) as [rule|] eqn:Hrule; [|done].
  destruct (negb (bool_decide (pr_message rule = fn))) eqn:Hm; [done|]. intros Heq. simplify_eq. zbool.
  apply map_Forall_insert_2; [|done]. constructor; simpl; try done.
  - split; [done|]. by apply not_eq_None_Some.
  - by subst.
Qed.

(** The start-up check admits only a registry every later step can rely on:
    each type has a number, a domain registered with a positive quota, the
    durable class, a payload bound in (0, 16 KiB] and the validator of exactly
    the message its spec names; every validator belongs to a registered type,
    and there is at least one. *)
Theorem registry_self_check resolve domainEnum typeEnum rules r :
  newRegistry resolve domainEnum typeEnum rules = Ok r ->
  (forall t e, rg_types r !! t = Some e -> entry_ok rules (rg_domains r) resolve t e) /\
  (forall d s, rg_domains r !! d = Some s -> d <> 0 /\ ds_max_pending s <> 0) /\
  (forall t rule, rules !! t = Some rule -> is_Some (rg_types r !! t)) /\ rg_types r <> ∅.
Proof.
  unfold newRegistry. intros (domains & Hd & (types & Ht & Hr)%bind_Ok)%bind_Ok.
  destruct (existsb _ _) eqn:Hex; [done|]. case_bool_decide as Hne; [done|]. simplify_eq/=.
  apply add_domain_Ok in Hd; [|apply map_Forall_empty].
  apply add_type_Ok in Ht; [|apply map_Forall_empty].
  split_and!; [exact Ht|exact Hd| |done].
  intros t rule Hrule. apply not_eq_None_Some. intros Hnone.
  assert (existsb (fun t => bool_decide (types !! t = None)) (map_to_list rules).*1 = true) as Habs; [|congruence].
  apply existsb_exists. exists t. split; [|by apply bool_decide_eq_true].
  apply list_elem_of_In, list_elem_of_fmap. exists (t, rule). split; [done|]. by apply elem_of_map_to_list.
Qed.

(** The enums of [player_inbox.proto]. *)
Definition domain_enum : list (Z * option PlayerInboxDomainSpec) :=
  [(DOMAIN_UNSPECIFIED, None); (DOMAIN_SCENE_GM_SANCTION, Some (mkDomainSpec 64 true));
   (DOMAIN_SCENE_BATTLE_SETTLEMENT, Some (mkDomainSpec 1 false))].
Definition type_enum : list (Z * option PlayerInboxTypeSpec) :=
  [(0, None);
   (MSG_GM_BLOCK_CURRENCY_GAIN, Some (mkTypeSpec 1 1 "player_inbox.GmCurrencyGainPayload" 64));
   (MSG_GM_UNBLOCK_CURRENCY_GAIN, Some (mkTypeSpec 1 1 "player_inbox.GmCurrencyGainPayload" 64));
   (MSG_GM_ATTACH_CURRENCY_DEBT, Some (mkTypeSpec 1 1 "player_inbox.GmCurrencyDebtPayload" 1024));
   (MSG_BATTLE_SETTLEMENT, Some (mkTypeSpec 2 1 "BattleSettlementData" 16384))].

Definition the_registry : Registry :=
  match newRegistry Some domain_enum type_enum payloadRules with Ok r => r | Err _ => mkRegistry ∅ ∅ end.

Lemma the_registry_Ok : newRegistry Some domain_enum type_enum payloadRules = Ok the_registry.
Proof. reflexivity. Qed.

Lemma registry_self_check_witness :
  newRegistry Some domain_enum type_enum payloadRules = Ok the_registry /\
  (forall d s, rg_domains the_registry !! d = Some s -> d <> 0 /\ ds_max_pending s <> 0).
Proof.
  assert (newRegistry Some domain_enum type_enum payloadRules = Ok the_registry) as H by reflexivity.
  split; [exact H|].
  exact (proj1 (proj2 (registry_self_check Some domain_enum type_enum payloadRules the_registry H))).
Defined.

Lemma ValidatePayload_inr unmarshal r t allowed payload e :
  ValidatePayload unmarshal r t allowed payload = inr e ->
  rg_types r !! t = Some e /\ t ∈ allowed /\ ts_klass (te_spec e) = CLASS_DURABLE /\
  Z.of_nat (length payload) <= ts_max_payload_bytes (te_spec e) /\
  exists m, unmarshal (pr_message (te_rule e)) payload = Some (m, false) /\ pr_validate (te_rule e) m = true.
Proof.
  unfold ValidatePayload, Decode. destruct (rg_types r !! t) as [e'|] eqn:He; [|done].
  destruct (negb _) eqn:Hk; [done|]. destruct (negb (bool_decide _)) eqn:Ha; [done|].
  destruct (_ <? _) eqn:Hl; [done|].
  destruct (unmarshal _ payload) as [[m []]|] eqn:Hu; [done| |done].
  destruct (pr_validate _ m) eqn:Hv; [|done]. intros [= ->]. zbool. eauto 10.
Qed.
