(* ===== verification/InboxStore.v ===== *)
(** * Player inbox: the SQL store

    [go/player_inbox/internal/inbox]: [role_authority.go], [store.go],
    [store_enqueue.go], [store_consume.go], [store_admin.go] and the writing part
    of [store_maintenance.go]. A database is the role schema and the three inbox
    tables; an operation is one transaction attempt, [Ok (answer, database)]
    when it commits and [Err] when it rolls back. *)

From stdpp Require Import base list gmap strings.
From Stdlib Require Import ZArith Lia.
From S2P Require Import Prelude RoleRoute InboxRow InboxDecide InboxRegistry.
Local Open Scope Z_scope.
Local Open Scope go_scope.

(** ** Database *)
Record RoleAdmissionIdentity := mkAdmission {
  ra_player : Z; ra_instance : string; ra_generation : Z; ra_owner_revision : Z; ra_owner_epoch : Z;
  ra_scene_node : string; ra_scene : Z; ra_zone : Z; ra_session : Z; ra_login_generation : Z }.
#[global] Instance admission_eq : EqDecision RoleAdmissionIdentity.
Proof. solve_decision. Defined.
#[global] Instance stream_eq : EqDecision PlayerInboxStream.
Proof. solve_decision. Defined.

(** [am_identity]: the stored message, [None] when it does not decode. *)
Record AdmissionRow := mkAdmissionRow {
  am_highest : Z; am_closed : Z; am_identity : option RoleAdmissionIdentity }.

Record InboxDB := mkInboxDB {
  ib_roles : RoleDB;
  ib_admission : gmap (Z * string) AdmissionRow;
  ib_stream : gmap (Z * Z * Z) PlayerInboxStream;
  ib_item : gmap (Z * Z * Z * Z) PlayerInboxItemRow;
  ib_audit : gmap (Z * Z * Z * Z * Z) PlayerInboxAudit }.

Definition stream_key (st : PlayerInboxStream) : Z * Z * Z := (st_shard st, st_player st, st_domain st).
Definition item_key (it : PlayerInboxItemRow) : Z * Z * Z * Z :=
  (it_shard it, it_player it, it_domain it, it_seq it).
Definition audit_key (a : PlayerInboxAudit) : Z * Z * Z * Z * Z :=
  (au_shard a, au_player a, au_domain a, au_seq a, au_action a).

Definition with_roles (db : InboxDB) (r : RoleDB) : InboxDB :=
  mkInboxDB r (ib_admission db) (ib_stream db) (ib_item db) (ib_audit db).
Definition with_stream (db : InboxDB) s : InboxDB :=
  mkInboxDB (ib_roles db) (ib_admission db) s (ib_item db) (ib_audit db).
Definition with_item (db : InboxDB) i : InboxDB :=
  mkInboxDB (ib_roles db) (ib_admission db) (ib_stream db) i (ib_audit db).
Definition with_audit (db : InboxDB) a : InboxDB :=
  mkInboxDB (ib_roles db) (ib_admission db) (ib_stream db) (ib_item db) a.

Definition item_rows (db : InboxDB) : list PlayerInboxItemRow := (map_to_list (ib_item db)).*2.

(** What one attempt sees besides the tables: the snapshot of its unlocked
    route reads, the database clock, and the service clock at its successive
    readings. *)
Record TxEnv := mkEnv { tx_snap : RoleDB; tx_dbnow : Z; tx_now : Z; tx_now2 : Z }.

Definition ErrOriginalRole : error := "inbox: ErrOriginalRole"%string.
Definition errDuplicateUnderP : error := "inbox: duplicate key while original role P is held"%string.
Definition errStreamVanished : error := "inbox: stream row vanished after ensureStream"%string.
Definition ErrOneRow : error := "inbox: affected rows, want 1"%string.
Definition ErrAuditMissing : error := "inbox: audit for a missing item"%string.
Definition ErrNoDomainSpec : error := "inbox: domain has no domain spec"%string.
Definition ErrReceiptConflict : error := "inbox: battle receipt conflict"%string.
Definition ErrBattleOriginal : error := "inbox: battle original incomplete"%string.
Definition ErrNoLedgerReader : error := "inbox: no ledger reader"%string.

(** ** The original role *)
Record AccountRoleOwnership := mkOwner { ow_player : Z; ow_account : string; ow_revision : Z }.

(** [^[0-9a-f]{8}-[0-9a-f]{4}-[0-9a-f]{4}-[0-9a-f]{4}-[0-9a-f]{12}$] *)
Definition is_hex (a : Ascii.ascii) : bool := byte_in 48 57 a || byte_in 97 102 a.
Fixpoint match_instance (i : nat) (s : string) : bool :=
  match s with
  | EmptyString => (i =? 36)%nat
  | String a s' =>
      (if bool_decide (i ∈ [8; 13; 18; 23]%nat) then byte_in 45 45 a else is_hex a) && match_instance (S i) s'
  end.
Definition ValidSceneInstance (id : string) : bool := match_instance 0 id.

Fixpoint has_space (s : string) : bool :=
  match s with
  | EmptyString => false
  | String a s' => (byte_in 0 0 a || byte_in 13 13 a || byte_in 10 10 a || byte_in 9 9 a || byte_in 32 32 a) || has_space s'
  end.
Definition validSceneNode (id : string) : bool :=
  negb (bool_decide (id = EmptyString)) && (Z.of_nat (String.length id) <=? 96) && utf8_valid id
  && negb (has_space id).

Definition ValidAdmission (i : RoleAdmissionIdentity) : bool :=
  (0 <? ra_player i) && ValidSceneInstance (ra_instance i) && (0 <? ra_generation i)
  && (0 <? ra_owner_revision i) && (0 <? ra_owner_epoch i) && validSceneNode (ra_scene_node i)
  && (0 <? ra_scene i) && (0 <? ra_zone i) && (0 <? ra_session i) && (0 <? ra_login_generation i).

Definition VerifyAdmission (db : InboxDB) (original : AccountRoleOwnership) (admission : RoleAdmissionIdentity)
    : res () :=
  if negb (ValidAdmission admission) || negb (ra_player admission =? ow_player original)
     || negb (ra_owner_revision admission =? ow_revision original)
  then Err ErrOriginalRole
  else match ib_admission db !! (ra_player admission, ra_instance admission) with
  | None => Err ErrOriginalRole
  | Some row =>
      match am_identity row with
      | None => Err ErrOriginalRole
      | Some registered =>
          if negb (am_highest row =? ra_generation admission) || (ra_generation admission <=? am_closed row)
             || negb (bool_decide (registered = admission))
          then Err ErrOriginalRole else Ok ()
      end
  end.

Definition LockCurrent (env : TxEnv) (db : InboxDB) (player : Z) : res (AccountRoleOwnership * InboxDB) :=
  if player =? 0 then Err ErrOriginalRole
  else
    roles ← LockRoleRoutes (tx_snap env) (ib_roles db) (tx_dbnow env) [player];
    match rd_account_role roles !! player with
    | None => Err ErrOriginalRole
    | Some r =>
        if negb (ValidAccount (ar_account r)) || (ar_owner_revision r =? 0) || negb (ar_trade_listing_id r =? 0)
        then Err ErrOriginalRole
        else Ok (mkOwner player (ar_account r) (ar_owner_revision r), with_roles db roles)
    end.

(** One attempt of [withPlayerTx]. *)
Definition withPlayerTx {A} (env : TxEnv) (db : InboxDB) (player : Z)
    (action : AccountRoleOwnership -> InboxDB -> res (A * InboxDB)) : res (A * InboxDB) :=
  '(original, db) ← LockCurrent env db player;
  if negb (ow_player original =? player) || negb (ValidAccount (ow_account original))
     || (ow_revision original =? 0)
  then Err ErrOriginalRole
  else action original db.

Definition requireItemOriginal (row : option PlayerInboxItemRow) (original : AccountRoleOwnership) : res () :=
  match row with
  | None => Ok ()
  | Some row =>
      guard_err (negb (it_player row =? ow_player original) || (it_owner_revision row =? 0)
        || negb (it_owner_revision row =? ow_revision original)
        || negb (bool_decide (it_owner_account row = ow_account original))) ErrOriginalRole
  end.

(** A row of the player that is not finished and is not plainly PENDING under
    this owner. *)
Definition foreign_pending (original : AccountRoleOwnership) (row : PlayerInboxItemRow) : bool :=
  (it_shard row =? RowShard (ow_player original)) && (it_player row =? ow_player original)
  && negb (IsTerminalState (it_state row))
  && (negb (it_state row =? ITEM_PENDING) || negb (bool_decide (it_owner_account row = ow_account original))
      || negb (it_owner_revision row =? ow_revision original)).

Definition requirePendingOriginalsTx (db : InboxDB) (original : AccountRoleOwnership) : res () :=
  guard_err (existsb (foreign_pending original) (item_rows db)) ErrOriginalRole.

(** ** Reads *)
Definition scanItem (r : PlayerInboxItemRow) : res PlayerInboxItemRow :=
  _ ← checkRowShard (it_shard r) (it_player r); Ok r.
Definition scanStream (r : PlayerInboxStream) : res PlayerInboxStream :=
  _ ← checkRowShard (st_shard r) (st_player r); Ok r.

Definition scan_opt {A} (scan : A -> res A) (o : option A) : res (option A) :=
  match o with None => Ok None | Some r => Some <$> scan r end.

(** [readStream] and, on the rows a lock makes current, [lockStream]. *)
Definition lockStream (db : InboxDB) (player domain : Z) : res (option PlayerInboxStream) :=
  scan_opt scanStream (ib_stream db !! (RowShard player, player, domain)).

Definition readItem (db : InboxDB) (player domain seq : Z) : res (option PlayerInboxItemRow) :=
  scan_opt scanItem (ib_item db !! (RowShard player, player, domain, seq)).

Definition request_matches (player producer request : Z) (r : PlayerInboxItemRow) : bool :=
  (it_shard r =? RowShard player) && (it_player r =? player) && (it_producer r =? producer)
  && (it_request_id r =? request).

Definition readItemByRequest (db : InboxDB) (player producer request : Z) : res (option PlayerInboxItemRow) :=
  scan_opt scanItem (find_first (request_matches player producer request) (item_rows db)).

(** [seq IN (...)]: the map from sequence number to row. *)
Fixpoint readItemsBySeq (db : InboxDB) (player domain : Z) (seqs : list Z) : res (gmap Z PlayerInboxItemRow) :=
  match seqs with
  | [] => Ok ∅
  | seq :: seqs' =>
      out ← readItemsBySeq db player domain seqs';
      row ← readItem db player domain seq;
      Ok (match row with None => out | Some r => <[it_seq r := r]> out end)
  end.

Definition seq_less (a b : PlayerInboxItemRow) : bool := it_seq a <? it_seq b.

(** [ORDER BY seq ASC LIMIT limit] of the rows that satisfy [p]. *)
Definition query_by_seq (db : InboxDB) (p : PlayerInboxItemRow -> bool) (limit : Z) : res (list PlayerInboxItemRow) :=
  let rows := take (Z.to_nat limit) (sort_stable seq_less (keep_if p (item_rows db))) in
  _ ← fold_res (fun _ r => _ ← scanItem r; Ok ()) () rows; Ok rows.

(** ** Writes

    The driver reports the rows an UPDATE changed, so a write that would leave
    its row as it was counts as no row. *)
Definition update_item (db : InboxDB) (key : Z * Z * Z * Z) (cond : PlayerInboxItemRow -> bool)
    (f : PlayerInboxItemRow -> PlayerInboxItemRow) : res InboxDB :=
  match ib_item db !! key with
  | Some r =>
      if cond r && negb (bool_decide (f r = r)) then Ok (with_item db (<[key := f r]> (ib_item db)))
      else Err ErrOneRow
  | None => Err ErrOneRow
  end.

Definition update_stream (db : InboxDB) (key : Z * Z * Z) (f : PlayerInboxStream -> PlayerInboxStream)
    : res InboxDB :=
  match ib_stream db !! key with
  | Some r =>
      if bool_decide (f r = r) then Err ErrOneRow
      else Ok (with_stream db (<[key := f r]> (ib_stream db)))
  | None => Err ErrOneRow
  end.

Definition ensureStreamTx (db : InboxDB) (player domain nowMs : Z) : InboxDB :=
  let key := (RowShard player, player, domain) in
  match ib_stream db !! key with
  | Some _ => db
  | None => with_stream db (<[key := mkStream (RowShard player) player domain 1 0 0 0 nowMs nowMs]> (ib_stream db))
  end.

(** [INSERT IGNORE] of a whole audit row. *)
Definition insertAuditForItem (db : InboxDB) (item : PlayerInboxItemRow) (a : PlayerInboxAudit) : res InboxDB :=
  row ← auditRowFor item a;
  match ib_audit db !! audit_key row with
  | Some _ => Ok db
  | None => Ok (with_audit db (<[audit_key row := row]> (ib_audit db)))
  end.

Definition InsertAudit (db : InboxDB) (a : PlayerInboxAudit) : res InboxDB :=
  item ← readItem db (au_player a) (au_domain a) (au_seq a);
  match item with
  | None => Err ErrAuditMissing
  | Some item => insertAuditForItem db item a
  end.

(** [INSERT]: refused on the primary key and on the unique request key. *)
Definition insert_item (db : InboxDB) (it : PlayerInboxItemRow) : res InboxDB :=
  if bool_decide (ib_item db !! item_key it <> None)
     || existsb (fun r => (it_shard r =? it_shard it) && (it_player r =? it_player it)
          && (it_producer r =? it_producer it) && (it_request_id r =? it_request_id it)) (item_rows db)
  then Err errDuplicateUnderP
  else Ok (with_item db (<[item_key it := it]> (ib_item db))).

(** ** Enqueue *)
Record BattleSettlementInboxRequest := mkBattle {
  bo_player : Z; bo_battle : Z; bo_account : string; bo_revision : Z; bo_issued_at_ms : Z; bo_payload : bytes;
  bo_hasUnknown : bool }.

Record EnqueueParams := mkParams {
  ep_player : Z; ep_type : Z; ep_producer : Z; ep_request_id : Z; ep_issued_at_ms : Z; ep_payload : bytes;
  ep_operator : string; ep_note : string; ep_battle : option BattleSettlementInboxRequest }.

Definition battleOriginalMatches (req : BattleSettlementInboxRequest) (role : AccountRoleOwnership) : bool :=
  (bo_player req =? ow_player role) && bool_decide (bo_account req = ow_account role)
  && (bo_revision req =? ow_revision role).

(** Big-endian integers of a fixed width. *)
Fixpoint big_endian (width : nat) (x : Z) : bytes :=
  match width with
  | O => []
  | S w => (Z.shiftr x (8 * Z.of_nat w) mod 256) :: big_endian w x
  end.

Section store.
(** The libraries: the digest, the decoder, the scene directory of data_service. *)
Context (sha256 : bytes -> bytes) (unmarshal : string -> bytes -> option (Payload * bool)).
Context (PlayerExists : Z -> res bool).
(** The configuration. *)
Context (reg : Registry) (allowed : gset Z).

Definition ContentSHA256 (t issuedAtMs : Z) (payload : bytes) : bytes :=
  sha256 (big_endian 4 (u32 t) ++ big_endian 8 issuedAtMs ++ payload).

(** Step 1 and 2: [inl]: the answer without a transaction. *)
Definition enqueue_checks (p : EnqueueParams) : res (EnqueueResult + (Z * PlayerInboxDomainSpec)) :=
  if (ep_player p =? 0) || (ep_request_id p =? 0) || (ep_issued_at_ms p =? 0) || negb (validProducer (ep_producer p))
  then Ok (inl (reject_code ErrInvalidParameter))
  else if negb (Bool.eqb ((ep_producer p =? PRODUCER_MATCH) || (ep_type p =? MSG_BATTLE_SETTLEMENT))
                 (bool_decide (ep_battle p <> None)))
  then Ok (inl (reject_code ErrInvalidParameter))
  else match ValidatePayload unmarshal reg (ep_type p) allowed (ep_payload p) with
  | inl code => Ok (inl (reject_code code))
  | inr entry =>
      let code := ValidateText (ep_operator p) MaxOperatorBytes true in
      if negb (code =? 0) then Ok (inl (reject_code code))
      else
        let code := ValidateText (ep_note p) MaxReasonBytes false in
        if negb (code =? 0) then Ok (inl (reject_code code))
        else
          let domain := ts_domain (te_spec entry) in
          match Domain reg domain with
          | None => Err ErrNoDomainSpec
          | Some spec =>
              exists_ ← PlayerExists (ep_player p);
              if negb exists_ then Ok (inl (reject_code ErrPlayerNotFound))
              else Ok (inr (domain, spec))
          end
  end.

Definition enqueue_in_window (p : EnqueueParams) (nowMs : Z) : bool :=
  match ep_battle p with
  | None => issuedWithinWindow (ep_issued_at_ms p) nowMs
  | Some _ => negb (nowMs +64 IssuedAtMaxFuture <? ep_issued_at_ms p)
  end.

Definition new_item (p : EnqueueParams) (domain seq nowMs : Z) (digest : bytes) (original : AccountRoleOwnership)
    : PlayerInboxItemRow :=
  {| it_shard := RowShard (ep_player p); it_player := ep_player p; it_domain := domain; it_seq := seq;
     it_msg_type := ep_type p; it_producer := ep_producer p; it_request_id := ep_request_id p;
     it_content_sha256 := digest; it_payload := ep_payload p; it_state := ITEM_PENDING;
     it_directive := DIRECTIVE_NONE; it_void_reason := VOID_UNSPECIFIED; it_delivery_count := 0;
     it_last_delivered_epoch := 0; it_last_delivered_ms := 0; it_outcome_reason := 0;
     it_finalized_by := FINALIZER_UNSPECIFIED; it_decided_epoch := 0; it_issued_at_ms := ep_issued_at_ms p;
     it_created_ms := nowMs; it_updated_ms := nowMs; it_operator_name := ep_operator p; it_note := ep_note p;
     it_owner_account := ow_account original; it_owner_revision := ow_revision original |}.

Definition advance_stream (st0 : PlayerInboxStream) (seq nowMs : Z) (st : PlayerInboxStream) : PlayerInboxStream :=
  {| st_shard := st_shard st; st_player := st_player st; st_domain := st_domain st;
     st_next_seq := seq +64 1; st_fence_epoch := st_fence_epoch st;
     st_open_count := st_open_count st0 +32 1; st_notify_due_ms := nowMs; st_created_ms := st_created_ms st;
     st_updated_ms := nowMs |}.

(** The audit hook: [inTx(tx, seq)], none for a battle. *)
Definition run_hook (hook : option (Z -> PlayerInboxAudit)) (db : InboxDB) (seq : Z) : res InboxDB :=
  match hook with None => Ok db | Some h => InsertAudit db (h seq) end.

(** Step 7.4 to 7.6, under the stream lock. *)
Definition enqueue_insert (env : TxEnv) (p : EnqueueParams) (domain : Z) (digest : bytes)
    (hook : option (Z -> PlayerInboxAudit)) (original : AccountRoleOwnership) (st : PlayerInboxStream)
    (db : InboxDB) : res (EnqueueResult * InboxDB) :=
  seq ← NextSeq (st_next_seq st) (tx_now2 env);
  db ← insert_item db (new_item p domain seq (tx_now2 env) digest original);
  db ← update_stream db (RowShard (ep_player p), ep_player p, domain) (advance_stream st seq (tx_now2 env));
  db ← run_hook hook db seq;
  Ok (mkEnqueueResult 0 seq true ITEM_PENDING, db).

(** The body of the transaction. *)
Definition enqueue_tx (env : TxEnv) (p : EnqueueParams) (domain : Z) (spec : PlayerInboxDomainSpec)
    (hook : option (Z -> PlayerInboxAudit)) (original : AccountRoleOwnership) (db : InboxDB)
    : res (EnqueueResult * InboxDB) :=
  let digest := ContentSHA256 (ep_type p) (ep_issued_at_ms p) (ep_payload p) in
  if match ep_battle p with Some req => negb (battleOriginalMatches req original) | None => false end
  then Err ErrOriginalRole
  else
    existing ← readItemByRequest db (ep_player p) (ep_producer p) (ep_request_id p);
    _ ← requireItemOriginal existing original;
    match existing with
    | Some row => Ok (resultForExisting row digest, db)
    | None =>
        if negb (enqueue_in_window p (tx_now env)) then Ok (reject_code ErrIssuedOutOfWindow, db)
        else
          _ ← requirePendingOriginalsTx db original;
          let db := ensureStreamTx db (ep_player p) domain (tx_now env) in
          st ← lockStream db (ep_player p) domain;
          match st with
          | None => Err errStreamVanished
          | Some st =>
              existing ← readItemByRequest db (ep_player p) (ep_producer p) (ep_request_id p);
              _ ← requireItemOriginal existing original;
              match decideEnqueueLocked existing digest (st_open_count st) (ds_max_pending spec) with
              | Some decided => Ok (decided, db)
              | None => enqueue_insert env p domain digest hook original st db
              end
          end
    end.

Definition enqueue (env : TxEnv) (p : EnqueueParams) (hook : option (Z -> PlayerInboxAudit)) (db : InboxDB)
    : res (EnqueueResult * InboxDB) :=
  checked ← enqueue_checks p;
  match checked with
  | inl answer => Ok (answer, db)
  | inr (domain, spec) => withPlayerTx env db (ep_player p) (enqueue_tx env p domain spec hook)
  end.

(** *** Battle settlements *)
Definition validateBattleOriginal (req : BattleSettlementInboxRequest) : res () :=
  if (bo_player req =? 0) || (bo_battle req =? 0) || negb (ValidateText (bo_account req) 191 true =? 0)
     || (bo_revision req =? 0) || (bo_issued_at_ms req =? 0) || bool_decide (bo_payload req = [])
     || (16384 <? Z.of_nat (length (bo_payload req))) || bo_hasUnknown req
  then Err ErrBattleOriginal
  else match unmarshal "BattleSettlementData" (bo_payload req) with
  | Some (BattleSettlementData player battle outcome unknown, top) =>
      if negb (player =? bo_player req) || negb (battle =? bo_battle req) then Err ErrBattleOriginal
      else guard_err (negb (validateBattlePayload (BattleSettlementData player battle outcome (unknown || top)))) ErrBattleOriginal
  | _ => Err ErrBattleOriginal
  end.

Definition battle_params (req : BattleSettlementInboxRequest) : EnqueueParams :=
  mkParams (bo_player req) MSG_BATTLE_SETTLEMENT PRODUCER_MATCH (bo_battle req) (bo_issued_at_ms req)
    (bo_payload req) "match" "" (Some req).

(** The receipt: sequence number, state, digest and tip code. *)
Record BattleSettlementInboxResponse := mkBattleResponse {
  br_seq : Z; br_state : Z; br_content_sha256 : bytes; br_tip : Z }.

(** All zero when there is no receipt. *)
Definition LookupBattleSettlement (env : TxEnv) (req : BattleSettlementInboxRequest) (db : InboxDB)
    : res (BattleSettlementInboxResponse * InboxDB) :=
  _ ← validateBattleOriginal req;
  let digest := ContentSHA256 MSG_BATTLE_SETTLEMENT (bo_issued_at_ms req) (bo_payload req) in
  withPlayerTx env db (bo_player req) (fun original db =>
    if negb (battleOriginalMatches req original) then Err ErrOriginalRole
    else
      row ← readItemByRequest db (bo_player req) PRODUCER_MATCH (bo_battle req);
      match row with
      | None => Ok (mkBattleResponse 0 ITEM_UNSPECIFIED [] 0, db)
      | Some row =>
          _ ← requireItemOriginal (Some row) original;
          if negb (it_msg_type row =? MSG_BATTLE_SETTLEMENT) || negb (bool_decide (it_content_sha256 row = digest))
             || negb (bool_decide (it_payload row = bo_payload req)) || negb (it_issued_at_ms row =? bo_issued_at_ms req)
          then Err ErrReceiptConflict
          else Ok (mkBattleResponse (it_seq row) (it_state row) (it_content_sha256 row) 0, db)
      end).

(** ** Fetch *)
Definition FetchDefaultItems : Z := 16.
Definition FetchMaxItems : Z := 16.
Definition AckMaxDecisions : Z := 32.

Record FetchRequest := mkFetch {
  fq_player : Z; fq_domain : Z; fq_owner_epoch : Z; fq_decided_through : Z; fq_max_items : Z;
  fq_admission : option RoleAdmissionIdentity }.

Record PlayerInboxItem := mkInboxItem {
  pi_seq : Z; pi_msg_type : Z; pi_directive : Z; pi_void_reason : Z; pi_request_id : Z;
  pi_delivery_count : Z; pi_created_ms : Z; pi_payload : bytes }.

Record FetchResponse := mkFetchResponse {
  fs_tip : Z; fs_fence : PlayerInboxFenceVerdict; fs_items : list PlayerInboxItem; fs_has_more : bool }.

Definition deliveredItem (row : PlayerInboxItemRow) : PlayerInboxItem :=
  {| pi_seq := it_seq row; pi_msg_type := it_msg_type row; pi_directive := it_directive row;
     pi_void_reason := it_void_reason row; pi_request_id := it_request_id row;
     pi_delivery_count := it_delivery_count row +32 1; pi_created_ms := it_created_ms row;
     pi_payload := if it_directive row =? DIRECTIVE_NONE then it_payload row else [] |}.

Definition admission_player (a : option RoleAdmissionIdentity) : Z := default 0 (ra_player <$> a).
Definition admission_epoch (a : option RoleAdmissionIdentity) : Z := default 0 (ra_owner_epoch <$> a).

(** [VerifyAdmission] of a possibly missing message. *)
Definition verify_admission (db : InboxDB) (original : AccountRoleOwnership) (a : option RoleAdmissionIdentity) : res () :=
  match a with None => Err ErrOriginalRole | Some a => VerifyAdmission db original a end.

Definition set_delivered (epoch nowMs : Z) (r : PlayerInboxItemRow) : PlayerInboxItemRow :=
  {| it_shard := it_shard r; it_player := it_player r; it_domain := it_domain r; it_seq := it_seq r;
     it_msg_type := it_msg_type r; it_producer := it_producer r; it_request_id := it_request_id r;
     it_content_sha256 := it_content_sha256 r; it_payload := it_payload r; it_state := it_state r;
     it_directive := it_directive r; it_void_reason := it_void_reason r;
     it_delivery_count := it_delivery_count r +32 1; it_last_delivered_epoch := epoch;
     it_last_delivered_ms := nowMs; it_outcome_reason := it_outcome_reason r;
     it_finalized_by := it_finalized_by r; it_decided_epoch := it_decided_epoch r;
     it_issued_at_ms := it_issued_at_ms r; it_created_ms := it_created_ms r; it_updated_ms := nowMs;
     it_operator_name := it_operator_name r; it_note := it_note r; it_owner_account := it_owner_account r;
     it_owner_revision := it_owner_revision r |}.

Definition is_pending (r : PlayerInboxItemRow) : bool := it_state r =? ITEM_PENDING.

(** The delivery of one row: (items so far, database). *)
Definition deliver_one (original : AccountRoleOwnership) (player domain epoch nowMs : Z)
    (acc : list PlayerInboxItem * InboxDB) (row : PlayerInboxItemRow) : res (list PlayerInboxItem * InboxDB) :=
  _ ← requireItemOriginal (Some row) original;
  db ← update_item acc.2 (RowShard player, player, domain, it_seq row) is_pending (set_delivered epoch nowMs);
  Ok (acc.1 ++ [deliveredItem row], db).

Definition stream_pending (player domain : Z) (r : PlayerInboxItemRow) : bool :=
  (it_shard r =? RowShard player) && (it_player r =? player) && (it_domain r =? domain) && is_pending r.

Definition write_fence (fence next nowMs : Z) (st : PlayerInboxStream) : PlayerInboxStream :=
  {| st_shard := st_shard st; st_player := st_player st; st_domain := st_domain st; st_next_seq := next;
     st_fence_epoch := fence; st_open_count := st_open_count st; st_notify_due_ms := st_notify_due_ms st;
     st_created_ms := st_created_ms st; st_updated_ms := nowMs |}.

Definition fetch_tx (env : TxEnv) (req : FetchRequest) (original : AccountRoleOwnership) (db : InboxDB)
    : res (FetchResponse * InboxDB) :=
  let player := fq_player req in
  let domain := fq_domain req in
  let reqEpoch := fq_owner_epoch req in
  let maxItems := clampFetchItems (fq_max_items req) FetchDefaultItems FetchMaxItems in
  _ ← verify_admission db original (fq_admission req);
  _ ← requirePendingOriginalsTx db original;
  st ← lockStream db player domain;
  match st with
  | None => Ok (mkFetchResponse 0 FENCE_NO_STREAM [] false, db)
  | Some st =>
      let lockedFence := st_fence_epoch st in
      let verdict := DecideFence reqEpoch lockedFence reqEpoch in
      if negb (FenceAllows verdict) then Ok (mkFetchResponse (fenceRejectTip verdict) verdict [] false, db)
      else
        let nowMs := tx_now env in
        let '(nextSeq, raised) := RaiseNextSeq (st_next_seq st) (fq_decided_through req) in
        pending ← query_by_seq db (stream_pending player domain) (maxItems + 1);
        let '(page, hasMore) := splitPage pending maxItems in
        '(items, db) ← fold_res (deliver_one original player domain reqEpoch nowMs) ([], db) page;
        let '(write, newFence, newNextSeq) := fetchStreamUpdate verdict lockedFence reqEpoch nextSeq raised in
        db ← (if write then update_stream db (RowShard player, player, domain) (write_fence newFence newNextSeq nowMs)
              else Ok db);
        Ok (mkFetchResponse 0 verdict items hasMore, db)
  end.

Definition Fetch (env : TxEnv) (req : FetchRequest) (db : InboxDB) : res (FetchResponse * InboxDB) :=
  if bool_decide (Domain reg (fq_domain req) = None) || (fq_player req =? 0)
  then Ok (mkFetchResponse ErrInvalidParameter FENCE_UNSPECIFIED [] false, db)
  else if fq_owner_epoch req =? 0
  then Ok (mkFetchResponse ErrEpochRequired FENCE_EPOCH_REQUIRED [] false, db)
  else if negb (admission_player (fq_admission req) =? fq_player req)
          || negb (admission_epoch (fq_admission req) =? fq_owner_epoch req)
  then Err ErrOriginalRole
  else withPlayerTx env db (fq_player req) (fetch_tx env req).

(** ** Ack *)
Record AckRequest := mkAckRequest {
  aq_player : Z; aq_domain : Z; aq_owner_epoch : Z; aq_decisions : list PlayerInboxDecisionReport;
  aq_admission : option RoleAdmissionIdentity }.
Record AckResponse := mkAckResponse {
  as_tip : Z; as_fence : PlayerInboxFenceVerdict; as_results : list PlayerInboxAckItem }.

Definition finalize_row (state by_ epoch reason nowMs : Z) (r : PlayerInboxItemRow) : PlayerInboxItemRow :=
  {| it_shard := it_shard r; it_player := it_player r; it_domain := it_domain r; it_seq := it_seq r;
     it_msg_type := it_msg_type r; it_producer := it_producer r; it_request_id := it_request_id r;
     it_content_sha256 := it_content_sha256 r; it_payload := it_payload r; it_state := state;
     it_directive := it_directive r; it_void_reason := it_void_reason r;
     it_delivery_count := it_delivery_count r; it_last_delivered_epoch := it_last_delivered_epoch r;
     it_last_delivered_ms := it_last_delivered_ms r; it_outcome_reason := reason;
     it_finalized_by := by_; it_decided_epoch := epoch;
     it_issued_at_ms := it_issued_at_ms r; it_created_ms := it_created_ms r; it_updated_ms := nowMs;
     it_operator_name := it_operator_name r; it_note := it_note r; it_owner_account := it_owner_account r;
     it_owner_revision := it_owner_revision r |}.

(** A battle receipt ends as APPLIED or not at all. *)
Definition battle_refused (row : option PlayerInboxItemRow) (report : PlayerInboxDecisionReport) : bool :=
  match row with
  | Some r => (it_msg_type r =? MSG_BATTLE_SETTLEMENT) && negb (rp_outcome report =? OUTCOME_APPLIED)
  | None => false
  end.

(** The loop's state: results so far, number of finalized rows, database. *)
Definition ack_one (original : AccountRoleOwnership) (rows : gmap Z PlayerInboxItemRow) (player domain epoch nowMs : Z)
    (acc : list PlayerInboxAckItem * Z * InboxDB) (report : PlayerInboxDecisionReport)
    : res (list PlayerInboxAckItem * Z * InboxDB) :=
  let '(results, finalized, db) := acc in
  let row := rows !! rp_seq report in
  _ ← requireItemOriginal row original;
  let d := decideAck row report in
  if battle_refused row report
  then Ok (results ++ [mkAckItem (rp_seq report) ACK_CONFLICT (default ITEM_UNSPECIFIED (it_state <$> row))],
           finalized, db)
  else
    let answer := mkAckItem (rp_seq report) (ad_result d) (ad_state d) in
    if ad_finalize d then
      db ← update_item db (RowShard player, player, domain, rp_seq report) is_pending
             (finalize_row (ad_newState d) FINALIZER_CONSUMER epoch (ackOutcomeReason report) nowMs);
      Ok (results ++ [answer], finalized +32 1, db)
    else Ok (results ++ [answer], finalized, db).

Definition write_open (open fence nowMs : Z) (st : PlayerInboxStream) : PlayerInboxStream :=
  {| st_shard := st_shard st; st_player := st_player st; st_domain := st_domain st; st_next_seq := st_next_seq st;
     st_fence_epoch := fence; st_open_count := open; st_notify_due_ms := st_notify_due_ms st;
     st_created_ms := st_created_ms st; st_updated_ms := nowMs |}.

Definition ack_tx (env : TxEnv) (req : AckRequest) (original : AccountRoleOwnership) (db : InboxDB)
    : res (AckResponse * InboxDB) :=
  let player := aq_player req in
  let domain := aq_domain req in
  let reqEpoch := aq_owner_epoch req in
  _ ← verify_admission db original (aq_admission req);
  _ ← requirePendingOriginalsTx db original;
  st ← lockStream db player domain;
  match st with
  | None =>
      Ok (mkAckResponse 0 FENCE_NO_STREAM
            ((fun r => mkAckItem (rp_seq r) ACK_UNKNOWN_SEQ ITEM_UNSPECIFIED) <$> aq_decisions req), db)
  | Some st =>
      let lockedFence := st_fence_epoch st in
      let verdict := DecideFence reqEpoch lockedFence reqEpoch in
      if negb (FenceAllows verdict) then Ok (mkAckResponse (fenceRejectTip verdict) verdict [], db)
      else
        rows ← readItemsBySeq db player domain (rp_seq <$> aq_decisions req);
        let nowMs := tx_now env in
        '(results, finalized, db) ← fold_res (ack_one original rows player domain reqEpoch nowMs) ([], 0, db) (aq_decisions req);
        let '(write, newOpen, newFence, _) := ackStreamUpdate verdict (st_open_count st) finalized lockedFence reqEpoch in
        db ← (if write then update_stream db (RowShard player, player, domain) (write_open newOpen newFence nowMs)
              else Ok db);
        Ok (mkAckResponse 0 verdict results, db)
  end.

Definition Ack (env : TxEnv) (req : AckRequest) (db : InboxDB) : res (AckResponse * InboxDB) :=
  if bool_decide (Domain reg (aq_domain req) = None) || (aq_player req =? 0)
     || negb (validateAckReports (aq_decisions req) AckMaxDecisions)
  then Ok (mkAckResponse ErrInvalidParameter FENCE_UNSPECIFIED [], db)
  else if aq_owner_epoch req =? 0
  then Ok (mkAckResponse ErrEpochRequired FENCE_EPOCH_REQUIRED [], db)
  else if negb (admission_player (aq_admission req) =? aq_player req)
          || negb (admission_epoch (aq_admission req) =? aq_owner_epoch req)
  then Err ErrOriginalRole
  else withPlayerTx env db (aq_player req) (ack_tx env req).
End store.
