(* ===== verification/InboxAdmin.v ===== *)
(** * Player inbox: operator interface, notifications and scans

    [store_admin.go] (void, forced void, queries), the notification
    bookkeeping of [store.go] and [store_maintenance.go], and the read-only
    scans the background loops and the reconciliation start from. *)

From stdpp Require Import base list gmap strings.
From Stdlib Require Import ZArith Lia.
From S2P Require Import Prelude RoleRoute InboxRow InboxDecide InboxRegistry InboxStore.
Local Open Scope Z_scope.
Local Open Scope go_scope.

(** ** Void *)
Definition VOID_MODE_NORMAL : Z := 0.
Definition VOID_MODE_FORCE_MISMATCH : Z := 1.

Record VoidParams := mkVoidParams {
  vp_player : Z; vp_domain : Z; vp_seq : Z; vp_reason : Z; vp_operator : string; vp_note : string;
  vp_peer_addr : string; vp_mode : Z }.

Record VoidResponse := mkVoidResponse {
  vr_tip : Z; vr_state : Z; vr_requested : bool; vr_verdict : PlayerInboxForceVoidVerdict }.

Definition void_tip (code : Z) : VoidResponse := mkVoidResponse code ITEM_UNSPECIFIED false forceVoidUnspecified.

Definition void_response (action : voidAction) (state : Z) (verdict : PlayerInboxForceVoidVerdict) : VoidResponse :=
  let out := voidOutcomeOf action state in
  mkVoidResponse (vo_tip out) (vo_state out) (vo_requested out) verdict.

(** [state], [finalized_by], [void_reason], [updated_ms] of an administrative end. *)
Definition admin_void (reason nowMs : Z) (r : PlayerInboxItemRow) : PlayerInboxItemRow :=
  {| it_shard := it_shard r; it_player := it_player r; it_domain := it_domain r; it_seq := it_seq r;
     it_msg_type := it_msg_type r; it_producer := it_producer r; it_request_id := it_request_id r;
     it_content_sha256 := it_content_sha256 r; it_payload := it_payload r; it_state := ITEM_VOIDED;
     it_directive := it_directive r; it_void_reason := reason;
     it_delivery_count := it_delivery_count r; it_last_delivered_epoch := it_last_delivered_epoch r;
     it_last_delivered_ms := it_last_delivered_ms r; it_outcome_reason := it_outcome_reason r;
     it_finalized_by := FINALIZER_ADMIN; it_decided_epoch := it_decided_epoch r;
     it_issued_at_ms := it_issued_at_ms r; it_created_ms := it_created_ms r; it_updated_ms := nowMs;
     it_operator_name := it_operator_name r; it_note := it_note r; it_owner_account := it_owner_account r;
     it_owner_revision := it_owner_revision r |}.

Definition attach_directive (reason nowMs : Z) (r : PlayerInboxItemRow) : PlayerInboxItemRow :=
  {| it_shard := it_shard r; it_player := it_player r; it_domain := it_domain r; it_seq := it_seq r;
     it_msg_type := it_msg_type r; it_producer := it_producer r; it_request_id := it_request_id r;
     it_content_sha256 := it_content_sha256 r; it_payload := it_payload r; it_state := it_state r;
     it_directive := DIRECTIVE_VOID; it_void_reason := reason;
     it_delivery_count := it_delivery_count r; it_last_delivered_epoch := it_last_delivered_epoch r;
     it_last_delivered_ms := it_last_delivered_ms r; it_outcome_reason := it_outcome_reason r;
     it_finalized_by := it_finalized_by r; it_decided_epoch := it_decided_epoch r;
     it_issued_at_ms := it_issued_at_ms r; it_created_ms := it_created_ms r; it_updated_ms := nowMs;
     it_operator_name := it_operator_name r; it_note := it_note r; it_owner_account := it_owner_account r;
     it_owner_revision := it_owner_revision r |}.

Definition drop_open (st0 : PlayerInboxStream) (nowMs : Z) (st : PlayerInboxStream) : PlayerInboxStream :=
  {| st_shard := st_shard st; st_player := st_player st; st_domain := st_domain st; st_next_seq := st_next_seq st;
     st_fence_epoch := st_fence_epoch st; st_open_count := (subtractOpenCount (st_open_count st0) 1).1;
     st_notify_due_ms := st_notify_due_ms st; st_created_ms := st_created_ms st; st_updated_ms := nowMs |}.

Definition void_audit (p : VoidParams) (action nowMs : Z) : PlayerInboxAudit :=
  mkAudit 0 (vp_player p) (vp_domain p) (vp_seq p) action (vp_operator p) (vp_peer_addr p) (vp_note p) nowMs
    0 0 0 [] [] (vp_reason p).

Definition void_key (p : VoidParams) : Z * Z * Z * Z := (RowShard (vp_player p), vp_player p, vp_domain p, vp_seq p).

(** The writes of [voidDirect]: row, then stream. *)
Definition void_direct (p : VoidParams) (st : PlayerInboxStream) (nowMs : Z) (db : InboxDB) : res InboxDB :=
  db ← update_item db (void_key p) (fun r => is_pending r && (it_delivery_count r =? 0)) (admin_void (vp_reason p) nowMs);
  update_stream db (RowShard (vp_player p), vp_player p, vp_domain p) (drop_open st nowMs).

Definition void_tx (env : TxEnv) (p : VoidParams) (original : AccountRoleOwnership) (db : InboxDB)
    : res (VoidResponse * InboxDB) :=
  _ ← requirePendingOriginalsTx db original;
  st ← lockStream db (vp_player p) (vp_domain p);
  match st with
  | None => Ok (void_response voidNotFound ITEM_UNSPECIFIED forceVoidUnspecified, db)
  | Some st =>
      row ← readItem db (vp_player p) (vp_domain p) (vp_seq p);
      _ ← requireItemOriginal row original;
      let action := decideVoid row in
      let nowMs := tx_now env in
      match row, action with
      | None, _ | _, voidNotFound => Ok (void_response voidNotFound ITEM_UNSPECIFIED forceVoidUnspecified, db)
      | Some row, voidTerminal => Ok (void_response voidTerminal (it_state row) forceVoidUnspecified, db)
      | Some row, voidDirect =>
          db ← void_direct p st nowMs db;
          db ← insertAuditForItem db row (void_audit p AUDIT_VOID nowMs);
          Ok (void_response voidDirect ITEM_VOIDED forceVoidUnspecified, db)
      | Some row, voidDirective =>
          db ← update_item db (void_key p) is_pending (attach_directive (vp_reason p) nowMs);
          db ← insertAuditForItem db row (void_audit p AUDIT_VOID nowMs);
          Ok (void_response voidDirective ITEM_PENDING forceVoidUnspecified, db)
      | Some row, action =>
          db ← insertAuditForItem db row (void_audit p AUDIT_VOID nowMs);
          Ok (void_response action ITEM_PENDING forceVoidUnspecified, db)
      end
  end.

Definition force_void_tx (env : TxEnv) (p : VoidParams) (ledger : option PlayerInboxLedgerComp) (found : bool)
    (original : AccountRoleOwnership) (db : InboxDB) : res (VoidResponse * InboxDB) :=
  _ ← requirePendingOriginalsTx db original;
  st ← lockStream db (vp_player p) (vp_domain p);
  match st with
  | None => Ok (void_response voidNotFound ITEM_UNSPECIFIED forceVoidUnspecified, db)
  | Some st =>
      row ← readItem db (vp_player p) (vp_domain p) (vp_seq p);
      _ ← requireItemOriginal row original;
      let '(action, proof) := decideForceVoidLocked row ledger found in
      match row, action with
      | Some row, voidForced =>
          let nowMs := tx_now env in
          db ← update_item db (void_key p)
                 (fun r => is_pending r && (0 <? it_delivery_count r) && (it_request_id r =? it_request_id row))
                 (admin_void (vp_reason p) nowMs);
          db ← update_stream db (RowShard (vp_player p), vp_player p, vp_domain p) (drop_open st nowMs);
          db ← insertAuditForItem db row (void_audit p AUDIT_FORCE_VOID nowMs);
          Ok (void_response voidForced ITEM_VOIDED (fp_verdict proof), db)
      | _, _ => Ok (void_response action (default ITEM_UNSPECIFIED (it_state <$> row)) (fp_verdict proof), db)
      end
  end.

(** [ReadInboxLedger] of data_service: the persisted ledger, if the player has one. *)
Definition LedgerReader : Type := Z -> res (option PlayerInboxLedgerComp * bool).

Section admin.
Context (reg : Registry).

Definition void_reason_known (r : Z) : bool := (r =? VOID_CANCELLED) || (r =? VOID_QUARANTINED).
Definition void_mode_known (m : Z) : bool := (m =? VOID_MODE_NORMAL) || (m =? VOID_MODE_FORCE_MISMATCH).

Definition forceVoid (env : TxEnv) (p : VoidParams) (ledgers : option LedgerReader) (db : InboxDB)
    : res (VoidResponse * InboxDB) :=
  let code := ValidateText (vp_note p) MaxReasonBytes true in
  if negb (code =? 0) then Ok (void_tip code, db)
  else match ledgers with
  | None => Err ErrNoLedgerReader
  | Some read =>
      '(ledger, found) ← read (vp_player p);
      withPlayerTx env db (vp_player p) (force_void_tx env p ledger found)
  end.

Definition Void (env : TxEnv) (p : VoidParams) (ledgers : option LedgerReader) (db : InboxDB)
    : res (VoidResponse * InboxDB) :=
  if vp_domain p =? DOMAIN_SCENE_BATTLE_SETTLEMENT then Ok (void_tip ErrItemStateConflict, db)
  else if bool_decide (Domain reg (vp_domain p) = None) || (vp_player p =? 0) || (vp_seq p =? 0)
     || (vp_reason p =? VOID_UNSPECIFIED) || negb (void_reason_known (vp_reason p)) || negb (void_mode_known (vp_mode p))
  then Ok (void_tip ErrInvalidParameter, db)
  else
    let code := ValidateText (vp_operator p) MaxOperatorBytes true in
    if negb (code =? 0) then Ok (void_tip code, db)
    else
      let code := ValidateText (vp_note p) MaxReasonBytes false in
      if negb (code =? 0) then Ok (void_tip code, db)
      else if vp_mode p =? VOID_MODE_FORCE_MISMATCH then forceVoid env p ledgers db
      else withPlayerTx env db (vp_player p) (void_tx env p).

(** ** Queries *)
Definition ListDefaultLimit : Z := 50.
Definition ListMaxLimit : Z := 200.

Definition item_state_known (s : Z) : bool := (0 <=? s) && (s <=? 5).

(** Tip code, page, more. The view of a row is the row. *)
Definition List_ (player domain state after limit : Z) (db : InboxDB) : res (Z * list PlayerInboxItemRow * bool) :=
  if bool_decide (Domain reg domain = None) || (player =? 0) then Ok (ErrInvalidParameter, [], false)
  else if negb (state =? ITEM_UNSPECIFIED) && negb (item_state_known state) then Ok (ErrInvalidParameter, [], false)
  else
    let limit := clampFetchItems limit ListDefaultLimit ListMaxLimit in
    rows ← query_by_seq db (fun r =>
      (it_shard r =? RowShard player) && (it_player r =? player) && (it_domain r =? domain) && (after <? it_seq r)
      && ((state =? ITEM_UNSPECIFIED) || (it_state r =? state))) (limit + 1);
    let '(page, more) := splitPage rows limit in
    Ok (0, page, more).

Definition Lookup (player producer request : Z) (db : InboxDB) : res (Z * option PlayerInboxItemRow) :=
  if (player =? 0) || (request =? 0) || negb (validProducer producer) then Ok (ErrInvalidParameter, None)
  else
    row ← readItemByRequest db player producer request;
    match row with
    | None => Ok (ErrItemNotFound, None)
    | Some r => Ok (0, Some r)
    end.
End admin.

(** ** Notification bookkeeping *)
Definition set_notify (due : Z) (st : PlayerInboxStream) : PlayerInboxStream :=
  {| st_shard := st_shard st; st_player := st_player st; st_domain := st_domain st; st_next_seq := st_next_seq st;
     st_fence_epoch := st_fence_epoch st; st_open_count := st_open_count st;
     st_notify_due_ms := due; st_created_ms := st_created_ms st; st_updated_ms := st_updated_ms st |}.

(** [UPDATE ... SET notify_due_ms = due WHERE pk AND next_seq = ? AND notify_due_ms <> 0],
    with whether it changed a row. *)
Definition cas_notify (db : InboxDB) (player domain expectNextSeq due : Z) : bool * InboxDB :=
  let key := (RowShard player, player, domain) in
  match ib_stream db !! key with
  | Some st =>
      if (st_next_seq st =? expectNextSeq) && negb (st_notify_due_ms st =? 0) && negb (st_notify_due_ms st =? due)
      then (true, with_stream db (<[key := set_notify due st]> (ib_stream db)))
      else (false, db)
  | None => (false, db)
  end.

Definition DeferNotifyDue (env : TxEnv) (player domain expectNextSeq due : Z) (db : InboxDB) : res (bool * InboxDB) :=
  withPlayerTx env db player (fun original db =>
    _ ← requirePendingOriginalsTx db original;
    Ok (cas_notify db player domain expectNextSeq due)).

Definition ClearNotifyDue (env : TxEnv) (player domain expectNextSeq : Z) (db : InboxDB) : res (bool * InboxDB) :=
  DeferNotifyDue env player domain expectNextSeq 0 db.

(** A failed write is logged; the caller goes on with the database it had. *)
Definition committed {A} (db : InboxDB) (r : res (A * InboxDB)) : InboxDB :=
  match r with Ok (_, db') => db' | Err _ => db end.

(** [answer]: what the notifier returned, [None] when none is installed. *)
Definition notifyAndClear (env : TxEnv) (answer : option NotifyResult) (player domain expectNextSeq : Z) (db : InboxDB)
    : NotifyResult * InboxDB :=
  match answer with
  | None => (NotifyError, db)
  | Some result =>
      if negb (Settled result) then (result, db)
      else (result, committed db (ClearNotifyDue env player domain expectNextSeq db))
  end.

Record NotifyDue := mkDue { nd_player : Z; nd_domain : Z; nd_next_seq : Z; nd_pending_since : Z }.

Definition ResendNotify (env : TxEnv) (answer : option NotifyResult) (d : NotifyDue) (db : InboxDB)
    : NotifyResult * InboxDB :=
  let '(result, db) := notifyAndClear env answer (nd_player d) (nd_domain d) (nd_next_seq d) db in
  if Settled result then (result, db)
  else
    let nowMs := tx_now2 env in
    if notifyGivesUp result nowMs (nd_pending_since d)
    then (result, committed db (ClearNotifyDue env (nd_player d) (nd_domain d) (nd_next_seq d) db))
    else (result, committed db (DeferNotifyDue env (nd_player d) (nd_domain d) (nd_next_seq d)
                                  (notifyRetryDueMs nowMs (nd_pending_since d)) db)).

(** [Enqueue] with its step 8: the reminder after the commit of a new item. *)
Section enqueue.
Context (sha256 : bytes -> bytes) (unmarshal : string -> bytes -> option (Payload * bool)).
Context (PlayerExists : Z -> res bool) (reg : Registry) (allowed : gset Z).

Definition enqueue_domain (p : EnqueueParams) : Z :=
  default 0 ((fun e => ts_domain (te_spec e)) <$> rg_types reg !! ep_type p).

Definition Enqueue (env env' : TxEnv) (answer : option NotifyResult) (p : EnqueueParams)
    (hook : option (Z -> PlayerInboxAudit)) (db : InboxDB) : res (EnqueueResult * InboxDB) :=
  '(r, db) ← enqueue sha256 unmarshal PlayerExists reg allowed env p hook db;
  if er_created r then
    Ok (r, (notifyAndClear env' answer (ep_player p) (enqueue_domain p) (er_seq r +64 1) db).2)
  else Ok (r, db).

Definition EnqueueBattleSettlement (env env' : TxEnv) (answer : option NotifyResult)
    (req : BattleSettlementInboxRequest) (db : InboxDB) : res (BattleSettlementInboxResponse * InboxDB) :=
  _ ← validateBattleOriginal unmarshal req;
  let p := battle_params req in
  '(r, db) ← Enqueue env env' answer p None db;
  Ok (mkBattleResponse (er_seq r) (er_state r) (ContentSHA256 sha256 (ep_type p) (ep_issued_at_ms p) (ep_payload p))
        (er_code r), db).
End enqueue.

(** ** Scans *)

(** [SweepTerminal]: terminal items stay, as permanent receipts. *)
Definition SweepTerminal (ctxErr : option error) (cutoffMs budget : Z) (db : InboxDB) : res (Z * InboxDB) :=
  match ctxErr with Some e => Err e | None => Ok (0, db) end.

(** [BETWEEN 1 AND dueBeforeMs LIMIT limit], in the storage order [order]. *)
Definition DueNotifications (db : InboxDB) (shard dueBeforeMs : Z) (limit : nat) : res (list NotifyDue) :=
  let rows := take limit (keep_if (fun st => (st_shard st =? shard) && (1 <=? st_notify_due_ms st)
                                   && (st_notify_due_ms st <=? dueBeforeMs)) (map_to_list (ib_stream db)).*2) in
  fold_res (fun out st =>
    if negb (RowShard (st_player st) =? shard) then Err ErrCorruptShard
    else Ok (out ++ [mkDue (st_player st) (st_domain st) (st_next_seq st) (st_updated_ms st)])) [] rows.

(** The order of [RecentlyFinalized], newest first; a strict total order on the
    keys of one shard. *)
Definition newer (a b : FinalizedRef) : bool :=
  if negb (fr_updated_ms a =? fr_updated_ms b) then fr_updated_ms b <? fr_updated_ms a
  else if negb (fr_player a =? fr_player b) then fr_player b <? fr_player a
  else if negb (fr_domain a =? fr_domain b) then fr_domain b <? fr_domain a
  else fr_seq b <? fr_seq a.

(** The rows of the window: finalized by the consumer at or after [sinceMs]. *)
Definition finalized_window (db : InboxDB) (shard sinceMs : Z) : list FinalizedRef :=
  finalizedRefOfRow <$>
    keep_if (fun r => (it_shard r =? shard) && IsTerminalState (it_state r) && (sinceMs <=? it_updated_ms r)
                      && (it_finalized_by r =? FINALIZER_CONSUMER)) (item_rows db).

(** The cursor condition, written out as the query writes it. *)
Definition before_cond (before f : FinalizedRef) : bool :=
  (fr_updated_ms f <? fr_updated_ms before)
  || ((fr_updated_ms f =? fr_updated_ms before)
      && ((fr_player f <? fr_player before)
          || ((fr_player f =? fr_player before)
              && ((fr_domain f <? fr_domain before)
                  || ((fr_domain f =? fr_domain before) && (fr_seq f <? fr_seq before)))))).

Definition RecentlyFinalized (db : InboxDB) (shard sinceMs : Z) (before : option FinalizedRef) (limit : nat)
    : list FinalizedRef :=
  take limit (sort_stable newer
    (match before with
     | None => finalized_window db shard sinceMs
     | Some b => keep_if (before_cond b) (finalized_window db shard sinceMs)
     end)).

(** ** Per-player summaries *)
Record PlayerInboxStreamSummary := mkSummary {
  ss_domain : Z; ss_open_count : Z; ss_next_seq : Z; ss_fence_epoch : Z;
  ss_delivered_unacked : Z; ss_oldest_pending_ms : Z; ss_notify_due_ms : Z }.

Record pendingAggregate := mkAgg { pa_delivered : Z; pa_oldest : Z }.

Definition stream_summary (aggs : gmap Z pendingAggregate) (st : PlayerInboxStream) : PlayerInboxStreamSummary :=
  let a := default (mkAgg 0 0) (aggs !! st_domain st) in
  mkSummary (st_domain st) (st_open_count st) (st_next_seq st) (st_fence_epoch st)
    (pa_delivered a) (pa_oldest a) (st_notify_due_ms st).

(** The summaries in the order read and the largest fence. *)
Definition summarizeStreams (streams : list PlayerInboxStream) (aggs : gmap Z pendingAggregate)
    : list PlayerInboxStreamSummary * Z :=
  (stream_summary aggs <$> streams, foldl (fun m st => Z.max m (st_fence_epoch st)) 0 streams).

(** [GROUP BY domain] over the player's PENDING rows. *)
Definition add_pending (aggs : gmap Z pendingAggregate) (r : PlayerInboxItemRow) : gmap Z pendingAggregate :=
  let delivered := if 0 <? it_delivery_count r then 1 else 0 in
  match aggs !! it_domain r with
  | None => <[it_domain r := mkAgg delivered (it_created_ms r)]> aggs
  | Some a => <[it_domain r := mkAgg (pa_delivered a + delivered) (Z.min (pa_oldest a) (it_created_ms r))]> aggs
  end.

Definition player_streams (db : InboxDB) (player : Z) : list PlayerInboxStream :=
  sort_stable (fun a b => st_domain a <? st_domain b)
    (keep_if (fun st => (st_shard st =? RowShard player) && (st_player st =? player)) (map_to_list (ib_stream db)).*2).

Definition Summary (player : Z) (db : InboxDB) : res (Z * list PlayerInboxStreamSummary * Z) :=
  if player =? 0 then Ok (ErrInvalidParameter, [], 0)
  else
    let streams := player_streams db player in
    _ ← fold_res (fun _ st => _ ← scanStream st; Ok ()) () streams;
    let aggs := foldl add_pending ∅
      (keep_if (fun r => (it_shard r =? RowShard player) && (it_player r =? player) && is_pending r) (item_rows db)) in
    let '(sums, fence) := summarizeStreams streams aggs in
    Ok (0, sums, fence).
