(* ===== verification/InboxInv.v ===== *)
(** * Player inbox: the invariant of the tables and the writes that keep it

    What every transaction of the inbox may rely on ([inbox_wf]), how rows and
    streams may change ([evolves]), and what each elementary write of
    [InboxStore] does to both. *)

From stdpp Require Import base list gmap strings.
From Stdlib Require Import ZArith Lia.
From S2P Require Import Prelude RoleRoute InboxRow InboxDecide InboxRegistry InboxStore.
Local Open Scope Z_scope.
Local Open Scope go_scope.

(** ** Counting rows of a map *)
Section count.
Context {K A : Type} `{Countable K}.
Implicit Types (m : gmap K A) (p : A -> bool).

Definition count (p : A -> bool) (m : gmap K A) : Z := count_rows (fun _ => p) m.

Lemma count_empty p : count p ∅ = 0.
Proof. apply count_rows_empty. Qed.

Lemma count_insert_new p m k x : m !! k = None -> count p (<[k:=x]> m) = b2z (p x) + count p m.
Proof. apply count_rows_insert. Qed.

Lemma count_update p m k x y : m !! k = Some y -> count p (<[k:=x]> m) = count p m - b2z (p y) + b2z (p x).
Proof. apply count_rows_update. Qed.

Lemma count_nonneg p m : 0 <= count p m.
Proof. apply count_rows_nonneg. Qed.

Lemma count_pos p m k y : m !! k = Some y -> p y = true -> 1 <= count p m.
Proof. apply (count_rows_pos (fun _ => p)). Qed.
End count.

(** ** Rows *)

(** The columns no transaction changes after the insert. *)
Definition content (r : PlayerInboxItemRow) :=
  (item_key r, (it_msg_type r, it_producer r, it_request_id r, it_content_sha256 r, it_payload r),
   (it_issued_at_ms r, it_created_ms r, it_operator_name r, it_note r), (it_owner_account r, it_owner_revision r)).

(** One row alone. *)
Record row_ok (r : PlayerInboxItemRow) : Prop := {
  ro_shard : it_shard r = RowShard (it_player r);
  ro_seq : 0 < it_seq r;
  ro_delivery : 0 <= it_delivery_count r;
  ro_state :
    (it_state r = ITEM_PENDING /\ it_finalized_by r = FINALIZER_UNSPECIFIED) \/
    (IsTerminalState (it_state r) = true /\ it_finalized_by r = FINALIZER_CONSUMER /\ 0 < it_delivery_count r) \/
    (it_state r = ITEM_VOIDED /\ it_finalized_by r = FINALIZER_ADMIN);
  ro_battle : it_msg_type r = MSG_BATTLE_SETTLEMENT -> it_domain r = DOMAIN_SCENE_BATTLE_SETTLEMENT ->
    it_state r = ITEM_PENDING \/ (it_state r = ITEM_APPLIED /\ it_finalized_by r = FINALIZER_CONSUMER) }.

Definition pend_in (k : Z * Z * Z) (r : PlayerInboxItemRow) : bool :=
  (it_shard r =? k.1.1) && (it_player r =? k.1.2) && (it_domain r =? k.2) && is_pending r.

Lemma stream_pending_pend_in player domain : stream_pending player domain = pend_in (RowShard player, player, domain).
Proof. done. Qed.

Definition pending_count (db : InboxDB) (k : Z * Z * Z) : Z := count (pend_in k) (ib_item db).

(** ** The invariant *)
Record items_wf (db : InboxDB) : Prop := {
  iw_key : forall k r, ib_item db !! k = Some r -> item_key r = k /\ row_ok r;
  iw_stream : forall k st, ib_stream db !! k = Some st ->
    stream_key st = k /\ st_shard st = RowShard (st_player st) /\ 0 <= st_fence_epoch st /\ 1 <= st_next_seq st /\ is_u64 (st_next_seq st);
  iw_below : forall k r, ib_item db !! k = Some r -> exists st,
    ib_stream db !! (it_shard r, it_player r, it_domain r) = Some st /\ it_seq r < st_next_seq st;
  iw_unique : forall k k' r r', ib_item db !! k = Some r -> ib_item db !! k' = Some r' ->
    it_player r = it_player r' -> it_producer r = it_producer r' -> it_request_id r = it_request_id r' -> k = k' }.

Definition open_exact (db : InboxDB) : Prop :=
  forall k st, ib_stream db !! k = Some st -> st_open_count st = pending_count db k.

(** [quota d]: [max_pending] of domain [d]. *)
Record inbox_wf (reg : Registry) (db : InboxDB) : Prop := {
  wf_items : items_wf db;
  wf_open : open_exact db;
  wf_quota : forall k st, ib_stream db !! k = Some st ->
    exists spec, Domain reg (st_domain st) = Some spec /\ st_open_count st <= ds_max_pending spec }.

(** ** Evolution *)
Record row_evolves (r r' : PlayerInboxItemRow) : Prop := {
  re_content : content r' = content r;
  re_terminal : IsTerminalState (it_state r) = true -> r' = r;
  re_delivery : it_delivery_count r <= it_delivery_count r' }.

Record stream_evolves (st st' : PlayerInboxStream) : Prop := {
  se_key : stream_key st' = stream_key st;
  se_next : st_next_seq st <= st_next_seq st';
  se_fence : st_fence_epoch st <= st_fence_epoch st' }.

Record evolves (a b : InboxDB) : Prop := {
  ev_item : forall k r, ib_item a !! k = Some r -> exists r', ib_item b !! k = Some r' /\ row_evolves r r';
  ev_stream : forall k st, ib_stream a !! k = Some st -> exists st', ib_stream b !! k = Some st' /\ stream_evolves st st';
  ev_audit : ib_audit a ⊆ ib_audit b }.

#[global] Instance row_evolves_preorder : PreOrder row_evolves.
Proof.
  split; [intros r; by constructor|]. intros a b c [] []. constructor; [congruence| |lia].
  intros Ht. rewrite re_terminal1; rewrite re_terminal0; done.
Qed.

#[global] Instance stream_evolves_preorder : PreOrder stream_evolves.
Proof. split; [intros st; constructor; done|]. intros a b c [] []. constructor; [congruence|lia..]. Qed.

#[global] Instance evolves_preorder : PreOrder evolves.
Proof.
  split.
  - intros a. constructor; [intros k r H; exists r; by split|intros k r H; exists r; by split|done].
  - intros a b c [] []. constructor; [| |by etrans].
    + intros k r (r' & Hr' & ?)%ev_item0. destruct (ev_item1 _ _ Hr') as (r'' & ? & ?).
      exists r''. split; [done|by etrans].
    + intros k r (r' & Hr' & ?)%ev_stream0. destruct (ev_stream1 _ _ Hr') as (r'' & ? & ?).
      exists r''. split; [done|by etrans].
Qed.

(** Two databases with the same inbox tables. *)
Definition same_tables (a b : InboxDB) : Prop :=
  ib_stream b = ib_stream a /\ ib_item b = ib_item a /\ ib_audit b = ib_audit a.

Lemma same_tables_evolves a b : same_tables a b -> evolves a b.
Proof.
  intros (Hs & Hi & Ha). constructor.
  - rewrite Hi. intros k r H. exists r. by split.
  - rewrite Hs. intros k r H. exists r. by split.
  - by rewrite Ha.
Qed.

Lemma same_tables_items_wf a b : same_tables a b -> items_wf a -> items_wf b.
Proof. intros (Hs & Hi & _) []. constructor; rewrite ?Hs, ?Hi; done. Qed.

Lemma same_tables_open a b : same_tables a b -> open_exact a -> open_exact b.
Proof. intros (Hs & Hi & _) Ho. unfold open_exact, pending_count. by rewrite Hs, Hi. Qed.

Lemma same_tables_wf reg a b : same_tables a b -> inbox_wf reg a -> inbox_wf reg b.
Proof.
  intros Hsame []. constructor; [by eapply same_tables_items_wf|by eapply same_tables_open|].
  destruct Hsame as (-> & _). done.
Qed.

(** ** Writes, inverted *)
Lemma update_item_Ok db key cond f db' :
  update_item db key cond f = Ok db' ->
  exists r, ib_item db !! key = Some r /\ cond r = true /\ f r <> r /\
    db' = with_item db (<[key := f r]> (ib_item db)).
Proof.
  unfold update_item. destruct (ib_item db !! key) as [r|] eqn:Hr; [|done].
  destruct (cond r && _) eqn:Hc; [|done]. intros Heq. simplify_eq. zbool. eauto.
Qed.

Lemma update_stream_Ok db key f db' :
  update_stream db key f = Ok db' ->
  exists st, ib_stream db !! key = Some st /\ f st <> st /\
    db' = with_stream db (<[key := f st]> (ib_stream db)).
Proof.
  unfold update_stream. destruct (ib_stream db !! key) as [st|] eqn:Hr; [|done].
  case_bool_decide; [done|]. intros Heq. simplify_eq. eauto.
Qed.

Lemma insert_item_Ok db it db' :
  insert_item db it = Ok db' ->
  ib_item db !! item_key it = None /\
  (forall k r, ib_item db !! k = Some r -> it_shard r = it_shard it -> it_player r = it_player it ->
     it_producer r = it_producer it -> it_request_id r = it_request_id it -> False) /\
  db' = with_item db (<[item_key it := it]> (ib_item db)).
Proof.
  unfold insert_item. destruct (_ || _) eqn:Hc; [done|]. intros Heq. simplify_eq. zbool.
  split_and!; [by apply dec_stable| |done].
  intros k r Hr H1 H2 H3 H4. match goal with H : existsb _ _ = false |- _ => rename H into Hex end.
  assert (existsb (fun r => (it_shard r =? it_shard it) && (it_player r =? it_player it)
          && (it_producer r =? it_producer it) && (it_request_id r =? it_request_id it)) (item_rows db) = true); [|congruence].
  apply existsb_exists. exists r. split.
  - apply list_elem_of_In, list_elem_of_fmap. exists (k, r). split; [done|by apply elem_of_map_to_list].
  - by rewrite H1, H2, H3, H4, !Z.eqb_refl.
Qed.

Lemma insertAuditForItem_Ok db it a db' :
  insertAuditForItem db it a = Ok db' ->
  exists row audit, auditRowFor it a = Ok row /\ db' = with_audit db audit /\ ib_audit db ⊆ audit /\
    is_Some (audit !! audit_key row) /\ (ib_audit db !! audit_key row = None -> audit !! audit_key row = Some row).
Proof.
  unfold insertAuditForItem. intros (row & Hrow & H)%bind_Ok.
  destruct (ib_audit db !! audit_key row) eqn:Hk; simplify_eq.
  - exists row, (ib_audit db'). split_and!; [done|by destruct db'|done|eauto|congruence].
  - eexists row, _. split_and!; [done|reflexivity|by apply insert_subseteq| |].
    + rewrite lookup_insert_eq. eauto.
    + by rewrite lookup_insert_eq.
Qed.

Lemma InsertAudit_Ok db a db' :
  InsertAudit db a = Ok db' -> exists audit, db' = with_audit db audit /\ ib_audit db ⊆ audit.
Proof.
  unfold InsertAudit. intros (o & _ & H)%bind_Ok. destruct o; [|done].
  apply insertAuditForItem_Ok in H as (? & audit & _ & ? & ? & _). eauto.
Qed.

(** ** Audit writes touch nothing else *)
Lemma with_audit_items_wf db audit : items_wf db -> items_wf (with_audit db audit).
Proof. intros []. by constructor. Qed.

Lemma with_audit_evolves db audit : ib_audit db ⊆ audit -> evolves db (with_audit db audit).
Proof.
  intros Ha. constructor; [| |done].
  - intros k r H. exists r. by split.
  - intros k r H. exists r. by split.
Qed.

(** ** A changed row *)
Lemma content_key r r' : content r' = content r -> item_key r' = item_key r.
Proof. unfold content, item_key. congruence. Qed.

Lemma content_fields r r' :
  content r' = content r ->
  it_shard r' = it_shard r /\ it_player r' = it_player r /\ it_domain r' = it_domain r /\ it_seq r' = it_seq r /\
  it_producer r' = it_producer r /\ it_request_id r' = it_request_id r /\ it_msg_type r' = it_msg_type r /\
  it_content_sha256 r' = it_content_sha256 r /\ it_owner_account r' = it_owner_account r /\ it_owner_revision r' = it_owner_revision r.
Proof. unfold content, item_key. intros Hc. split_and!; congruence. Qed.

Lemma set_item_items_wf db k r r' :
  items_wf db -> ib_item db !! k = Some r -> content r' = content r -> row_ok r' ->
  items_wf (with_item db (<[k := r']> (ib_item db))).
Proof.
  intros [] Hk Hc Hok. pose proof (content_fields _ _ Hc) as (Hsh & Hpl & Hdo & Hse & Hpr & Hrq & _).
  destruct (iw_key0 _ _ Hk) as [Hkey _].
  assert (forall k0 r0, <[k := r']> (ib_item db) !! k0 = Some r0 ->
            exists r1, ib_item db !! k0 = Some r1 /\ (r0 = r1 \/ (k0 = k /\ r0 = r' /\ r1 = r))) as Hlook.
  { intros k0 r0. destruct (decide (k0 = k)) as [->|].
    - rewrite lookup_insert_eq. intros [= <-]. eauto 10.
    - rewrite lookup_insert_ne by done. eauto. }
  constructor; simpl; [|done| |].
  - intros k0 r0 (r1 & H1 & [->|(-> & -> & ->)])%Hlook; [auto|].
    split; [|done]. by rewrite (content_key _ _ Hc).
  - intros k0 r0 (r1 & H1 & [->|(-> & -> & ->)])%Hlook; [eauto|].
    rewrite Hsh, Hpl, Hdo, Hse. eauto.
  - intros k0 k1 r0 r1 (a & Ha & Hra)%Hlook (b & Hb & Hrb)%Hlook ? ? ?.
    eapply (iw_unique0 _ _ _ _ Ha Hb);
      destruct Hra as [->|(-> & -> & ->)], Hrb as [->|(-> & -> & ->)]; congruence.
Qed.

Lemma set_item_evolves db k r r' :
  ib_item db !! k = Some r -> row_evolves r r' -> evolves db (with_item db (<[k := r']> (ib_item db))).
Proof.
  intros Hk Hr. constructor; simpl; [| |done].
  - intros k0 r0 H0. destruct (decide (k0 = k)) as [->|].
    + rewrite lookup_insert_eq. simplify_eq. eauto.
    + rewrite lookup_insert_ne by done. exists r0. by split.
  - intros k0 st H0. exists st. by split.
Qed.

Lemma set_item_pending_count db k r r' k' :
  ib_item db !! k = Some r ->
  pending_count (with_item db (<[k := r']> (ib_item db))) k' = pending_count db k' - b2z (pend_in k' r) + b2z (pend_in k' r').
Proof. intros Hk. by apply count_update. Qed.

(** ** A changed stream *)
Lemma set_stream_items_wf db k st st' :
  items_wf db -> ib_stream db !! k = Some st -> stream_evolves st st' -> is_u64 (st_next_seq st') ->
  items_wf (with_stream db (<[k := st']> (ib_stream db))).
Proof.
  intros [] Hk [Hkey Hnext Hfence] Hu.
  destruct (iw_stream0 _ _ Hk) as (Hk0 & Hsh & Hf & Hn & _).
  constructor; simpl; [done| | |done].
  - intros k0 st0. destruct (decide (k0 = k)) as [->|].
    + rewrite lookup_insert_eq. intros [= <-]. unfold stream_key in *. simplify_eq.
      split_and!; [congruence|congruence|lia|lia|done..].
    + rewrite lookup_insert_ne by done. auto.
  - intros k0 r0 H0. destruct (iw_below0 _ _ H0) as (st0 & Hst0 & Hlt).
    destruct (decide ((it_shard r0, it_player r0, it_domain r0) = k)) as [Heq|].
    + rewrite Heq in *. rewrite lookup_insert_eq. simplify_eq. exists st'. split; [done|lia].
    + rewrite lookup_insert_ne by done. eauto.
Qed.

Lemma set_stream_evolves db k st st' :
  ib_stream db !! k = Some st -> stream_evolves st st' -> evolves db (with_stream db (<[k := st']> (ib_stream db))).
Proof.
  intros Hk Hr. constructor; simpl; [| |done].
  - intros k0 r0 H0. exists r0. by split.
  - intros k0 r0 H0. destruct (decide (k0 = k)) as [->|].
    + rewrite lookup_insert_eq. simplify_eq. eauto.
    + rewrite lookup_insert_ne by done. exists r0. by split.
Qed.

(** Restoring the count of one stream after its rows changed. *)
Lemma open_exact_restore (a b : InboxDB) k st' :
  (forall k', k' <> k -> ib_stream b !! k' = ib_stream a !! k') -> ib_stream b !! k = Some st' ->
  st_open_count st' = pending_count b k ->
  (forall k', k' <> k -> pending_count b k' = pending_count a k') ->
  open_exact a -> open_exact b.
Proof.
  intros Hs Hk Hc Hp Ho k' st Hst. destruct (decide (k' = k)) as [->|Hne]; [by simplify_eq|].
  rewrite Hp by done. apply Ho. by rewrite <- Hs.
Qed.

Lemma pend_in_iff k r : pend_in k r = true <-> (it_shard r, it_player r, it_domain r) = k /\ it_state r = ITEM_PENDING.
Proof.
  unfold pend_in, is_pending. destruct k as [[a b] c]. simpl.
  rewrite !andb_true_iff, !Z.eqb_eq. naive_solver.
Qed.

Lemma pend_in_other k r : (it_shard r, it_player r, it_domain r) <> k -> pend_in k r = false.
Proof. intros Hne. destruct (pend_in k r) eqn:Hp; [|done]. apply pend_in_iff in Hp. naive_solver. Qed.

Lemma pend_in_self r :
  pend_in (it_shard r, it_player r, it_domain r) r = (it_state r =? ITEM_PENDING).
Proof. unfold pend_in, is_pending. simpl. by rewrite !Z.eqb_refl. Qed.

(** ** A new row *)
Lemma insert_item_items_wf db it st :
  items_wf db -> ib_item db !! item_key it = None -> row_ok it ->
  ib_stream db !! (it_shard it, it_player it, it_domain it) = Some st -> it_seq it < st_next_seq st ->
  (forall k r, ib_item db !! k = Some r -> it_player r = it_player it ->
     it_producer r = it_producer it -> it_request_id r = it_request_id it -> False) ->
  items_wf (with_item db (<[item_key it := it]> (ib_item db))).
Proof.
  intros [] Hnew Hok Hst Hlt Hno. constructor; simpl; [|done| |].
  - intros k r. destruct (decide (k = item_key it)) as [->|].
    + rewrite lookup_insert_eq. by intros [= <-].
    + rewrite lookup_insert_ne by done. auto.
  - intros k r. destruct (decide (k = item_key it)) as [->|].
    + rewrite lookup_insert_eq. intros [= <-]. eauto.
    + rewrite lookup_insert_ne by done. eauto.
  - intros k k' r r'.
    destruct (decide (k = item_key it)) as [->|], (decide (k' = item_key it)) as [->|];
      rewrite ?lookup_insert_eq, ?lookup_insert_ne by done; [done| | |eauto].
    + intros [= <-] Hr' ? ? ?. exfalso. by eapply Hno.
    + intros Hr [= <-] ? ? ?. exfalso. by eapply Hno.
Qed.

Lemma insert_item_evolves db k it : ib_item db !! k = None -> evolves db (with_item db (<[k := it]> (ib_item db))).
Proof.
  intros Hk. constructor; simpl; [| |done].
  - intros k0 r0 H0. rewrite lookup_insert_ne by congruence. exists r0. by split.
  - intros k0 st H0. exists st. by split.
Qed.

Lemma ensureStreamTx_spec db player domain nowMs :
  let db' := ensureStreamTx db player domain nowMs in
  let key := (RowShard player, player, domain) in
  ib_item db' = ib_item db /\ ib_audit db' = ib_audit db /\
  (forall k, k <> key -> ib_stream db' !! k = ib_stream db !! k) /\
  ib_stream db' !! key = Some (default (mkStream (RowShard player) player domain 1 0 0 0 nowMs nowMs) (ib_stream db !! key)).
Proof.
  simpl. unfold ensureStreamTx. destruct (ib_stream db !! _) as [st|] eqn:Hst; simpl; [by rewrite Hst|].
  split_and!; try done; [|by rewrite lookup_insert_eq]. intros k Hk. by rewrite lookup_insert_ne.
Qed.

(** ** The roles prefix *)
Lemma LockCurrent_Ok env db player original db' :
  LockCurrent env db player = Ok (original, db') ->
  player <> 0 /\ exists roles r,
    LockRoleRoutes (tx_snap env) (ib_roles db) (tx_dbnow env) [player] = Ok roles /\
    rd_account_role roles !! player = Some r /\ ValidAccount (ar_account r) = true /\
    ar_owner_revision r <> 0 /\ ar_trade_listing_id r = 0 /\
    original = mkOwner player (ar_account r) (ar_owner_revision r) /\ db' = with_roles db roles.
Proof.
  unfold LockCurrent. destruct (player =? 0) eqn:Hp; [done|].
  intros (roles & Hroles & H)%bind_Ok. destruct (rd_account_role roles !! player) as [r|] eqn:Hr; [|done].
  destruct (_ || _) eqn:Hc; [done|]. simplify_eq. zbool. eauto 15.
Qed.

Lemma withPlayerTx_Ok {A} env db player action (a : A) db' :
  withPlayerTx env db player action = Ok (a, db') ->
  exists original roles, LockCurrent env db player = Ok (original, with_roles db roles) /\
    ow_player original = player /\ action original (with_roles db roles) = Ok (a, db').
Proof.
  unfold withPlayerTx. intros ([original db0] & Hl & H)%bind_Ok.
  pose proof (LockCurrent_Ok _ _ _ _ _ Hl) as (_ & roles & r & _ & _ & _ & _ & _ & -> & ->).
  destruct (_ || _); [done|]. eauto 10.
Qed.

Lemma with_roles_same db roles : same_tables db (with_roles db roles).
Proof. done. Qed.

(** ** Reads under the invariant *)
Lemma scan_opt_Ok {A} (scan : A -> res A) o o' :
  (forall x y, scan x = Ok y -> y = x) -> scan_opt scan o = Ok o' -> o' = o.
Proof.
  intros Hs. destruct o as [x|]; simpl; [|by intros [= <-]].
  destruct (scan x) as [y|] eqn:Hx; simpl; [|done]. intros [= <-]. by rewrite (Hs _ _ Hx).
Qed.

Lemma scanItem_Ok r r' : scanItem r = Ok r' -> r' = r.
Proof. unfold scanItem, checkRowShard. destruct (guard_err _ _); simpl; congruence. Qed.
Lemma scanStream_Ok r r' : scanStream r = Ok r' -> r' = r.
Proof. unfold scanStream, checkRowShard. destruct (guard_err _ _); simpl; congruence. Qed.

Lemma lockStream_Ok db player domain o :
  lockStream db player domain = Ok o -> o = ib_stream db !! (RowShard player, player, domain).
Proof. apply scan_opt_Ok. apply scanStream_Ok. Qed.

Lemma readItem_Ok db player domain seq o :
  readItem db player domain seq = Ok o -> o = ib_item db !! (RowShard player, player, domain, seq).
Proof. apply scan_opt_Ok. apply scanItem_Ok. Qed.

Lemma elem_of_item_rows db r : r ∈ item_rows db <-> exists k, ib_item db !! k = Some r.
Proof.
  unfold item_rows. rewrite list_elem_of_fmap. split.
  - intros ([k r'] & -> & Hin). apply elem_of_map_to_list in Hin. eauto.
  - intros [k Hk]. exists (k, r). split; [done|by apply elem_of_map_to_list].
Qed.

Lemma readItemByRequest_Some db player producer request r :
  readItemByRequest db player producer request = Ok (Some r) ->
  (exists k, ib_item db !! k = Some r) /\ it_player r = player /\ it_producer r = producer /\ it_request_id r = request.
Proof.
  intros Hr. apply scan_opt_Ok in Hr; [|apply scanItem_Ok]. symmetry in Hr.
  apply find_first_Some in Hr as [Hin Hm]. unfold request_matches in Hm. zbool.
  split_and!; [by apply elem_of_item_rows|done..].
Qed.

Lemma readItemByRequest_None db player producer request k r :
  readItemByRequest db player producer request = Ok None -> ib_item db !! k = Some r ->
  it_shard r = RowShard player -> it_player r = player -> it_producer r = producer -> it_request_id r = request -> False.
Proof.
  intros Hr Hk H1 H2 H3 H4. apply scan_opt_Ok in Hr; [|apply scanItem_Ok]. symmetry in Hr.
  rewrite find_first_None in Hr. specialize (Hr r). rewrite elem_of_item_rows in Hr.
  specialize (Hr (ex_intro _ k Hk)). unfold request_matches in Hr. by rewrite H1, H2, H3, H4, !Z.eqb_refl in Hr.
Qed.

(** The unique row of a request, found again. *)
Lemma readItemByRequest_find db k r :
  items_wf db -> ib_item db !! k = Some r ->
  readItemByRequest db (it_player r) (it_producer r) (it_request_id r) = Ok (Some r).
Proof.
  intros [] Hk. unfold readItemByRequest.
  destruct (find_first _ (item_rows db)) as [r'|] eqn:Hf.
  - apply find_first_Some in Hf as [Hin Hm]. apply elem_of_item_rows in Hin as [k' Hk'].
    unfold request_matches in Hm. zbool.
    assert (k' = k) as -> by eauto. assert (r' = r) as -> by congruence. simpl.
    unfold scanItem, checkRowShard. destruct (iw_key0 _ _ Hk) as [_ []]. by rewrite ro_shard0, Z.eqb_refl.
  - rewrite find_first_None in Hf. specialize (Hf r). rewrite elem_of_item_rows in Hf.
    specialize (Hf (ex_intro _ k Hk)). unfold request_matches in Hf.
    destruct (iw_key0 _ _ Hk) as [_ []]. by rewrite ro_shard0, !Z.eqb_refl in Hf.
Qed.
