(* ===== verification/InboxOps.v ===== *)
(** * Player inbox: every transaction keeps the invariant

    For each operation of the store: what a committed attempt wrote
    ([..._Ok] lemmas), that it keeps [inbox_wf], and that rows and streams only
    [evolves]. The results feed the properties of [InboxProps]. *)

From stdpp Require Import base list gmap strings sorting.
From Stdlib Require Import ZArith Lia.
From S2P Require Import Prelude RoleRoute InboxRow InboxDecide InboxRegistry InboxStore InboxAdmin InboxInv.
Local Open Scope Z_scope.
Local Open Scope go_scope.

(** The integer columns are away from the end of their type. *)
Definition room (db : InboxDB) : Prop :=
  (forall k st, ib_stream db !! k = Some st -> st_next_seq st < u64_mod - 1) /\
  (forall k r, ib_item db !! k = Some r -> it_delivery_count r < u32_mod - 1).

Definition reg_ok (reg : Registry) : Prop :=
  forall d spec, Domain reg d = Some spec -> 0 < ds_max_pending spec < u32_mod.

(** One attempt kept everything. *)
Definition keeps (reg : Registry) (a b : InboxDB) : Prop := inbox_wf reg b /\ evolves a b.

Lemma keeps_refl reg a : inbox_wf reg a -> keeps reg a a.
Proof. by split. Qed.

Lemma keeps_trans reg a b c : keeps reg a b -> keeps reg b c -> keeps reg a c.
Proof. intros [_ ?] [? ?]. split; [done|by etrans]. Qed.

Lemma keeps_roles reg a roles : inbox_wf reg a -> keeps reg a (with_roles a roles).
Proof.
  intros. split; [eapply same_tables_wf; [|done]|apply same_tables_evolves]; apply with_roles_same.
Qed.

Lemma keeps_audit reg a audit : inbox_wf reg a -> ib_audit a ⊆ audit -> keeps reg a (with_audit a audit).
Proof.
  intros [] Ha. split; [|by apply with_audit_evolves].
  constructor; [by apply with_audit_items_wf|exact wf_open|exact wf_quota].
Qed.

Lemma withPlayerTx_keeps {A} reg env db player action (a : A) db' :
  inbox_wf reg db -> withPlayerTx env db player action = Ok (a, db') ->
  (forall original roles, inbox_wf reg (with_roles db roles) -> ow_player original = player ->
     action original (with_roles db roles) = Ok (a, db') -> keeps reg (with_roles db roles) db') ->
  keeps reg db db'.
Proof.
  intros Hwf (original & roles & _ & Ho & Ha)%withPlayerTx_Ok Hact.
  eapply keeps_trans; [by apply keeps_roles|]. eapply Hact; [by apply keeps_roles|done|done].
Qed.

(** ** Enqueue *)
Lemma count_none {K A} `{Countable K} (p : A -> bool) (m : gmap K A) :
  (forall k x, m !! k = Some x -> p x = false) -> count p m = 0.
Proof.
  intros Hn. unfold count, count_rows. rewrite keep_if_none; [done|].
  intros [k y] Hin%elem_of_map_to_list. cbn. eauto.
Qed.

Lemma new_stream_items_wf db k st :
  items_wf db -> ib_stream db !! k = None -> stream_key st = k -> st_shard st = RowShard (st_player st) ->
  0 <= st_fence_epoch st -> 1 <= st_next_seq st -> is_u64 (st_next_seq st) ->
  items_wf (with_stream db (<[k := st]> (ib_stream db))).
Proof.
  intros Hw Hk Hkey Hsh Hf Hn Hu. constructor; simpl; [apply Hw| | |apply Hw].
  - intros k0 st0. destruct (decide (k0 = k)) as [->|].
    + rewrite lookup_insert_eq. by intros [= <-].
    + rewrite lookup_insert_ne by done. apply Hw.
  - intros k0 r0 H0. destruct (iw_below _ Hw _ _ H0) as (st0 & Hst0 & Hlt).
    rewrite lookup_insert_ne by congruence. eauto.
Qed.

Lemma no_stream_no_pending db k : items_wf db -> ib_stream db !! k = None -> pending_count db k = 0.
Proof.
  intros Hwf Hk. apply count_none. intros k0 r H0. apply pend_in_other. intros Heq.
  destruct (iw_below _ Hwf _ _ H0) as (st & Hst & _). congruence.
Qed.

Lemma ensure_keeps reg db player domain spec nowMs :
  reg_ok reg -> inbox_wf reg db -> Domain reg domain = Some spec ->
  keeps reg db (ensureStreamTx db player domain nowMs).
Proof.
  intros Hreg [Hi Ho Hq] Hd. unfold ensureStreamTx.
  destruct (ib_stream db !! _) as [st|] eqn:Hst; [by apply keeps_refl|].
  set (k := (RowShard player, player, domain)) in *. set (st := mkStream _ _ _ _ _ _ _ _ _).
  split; [constructor|constructor]; simpl.
  - apply new_stream_items_wf; try done.
  - intros k0 st0. simpl. destruct (decide (k0 = k)) as [->|].
    + rewrite lookup_insert_eq. intros [= <-]. symmetry. by apply (no_stream_no_pending db).
    + rewrite lookup_insert_ne by done. apply Ho.
  - intros k0 st0. destruct (decide (k0 = k)) as [->|].
    + rewrite lookup_insert_eq. intros [= <-]. exists spec. split; [done|]. specialize (Hreg _ _ Hd). simpl. lia.
    + rewrite lookup_insert_ne by done. apply Hq.
  - intros k0 r0 H0. by exists r0.
  - intros k0 st0 H0. rewrite lookup_insert_ne by congruence. by exists st0.
  - done.
Qed.

Section enqueue.
Context (sha256 : bytes -> bytes) (unmarshal : string -> bytes -> option (Payload * bool)).
Context (PlayerExists : Z -> res bool) (reg : Registry) (allowed : gset Z).

Local Abbreviation digest_of p := (ContentSHA256 sha256 (ep_type p) (ep_issued_at_ms p) (ep_payload p)).
Local Abbreviation key_of p domain := (RowShard (ep_player p), ep_player p, domain).

(** What a created item committed. *)
Record created (env : TxEnv) (p : EnqueueParams) (domain : Z) (spec : PlayerInboxDomainSpec)
    (original : AccountRoleOwnership) (db : InboxDB) (res : EnqueueResult) (db' : InboxDB)
    (st : PlayerInboxStream) (seq : Z) (audit : gmap (Z * Z * Z * Z * Z) PlayerInboxAudit) : Prop := {
  cr_stream : ib_stream (ensureStreamTx db (ep_player p) domain (tx_now env)) !! key_of p domain = Some st;
  cr_seq : NextSeq (st_next_seq st) (tx_now2 env) = Ok seq;
  cr_room : st_open_count st < ds_max_pending spec;
  cr_absent : readItemByRequest db (ep_player p) (ep_producer p) (ep_request_id p) = Ok None;
  cr_fresh : ib_item db !! item_key (new_item p domain seq (tx_now2 env) (digest_of p) original) = None;
  cr_res : res = mkEnqueueResult 0 seq true ITEM_PENDING;
  cr_audit : ib_audit db ⊆ audit;
  cr_db : db' = mkInboxDB (ib_roles db) (ib_admission db)
    (<[key_of p domain := advance_stream st seq (tx_now2 env) st]>
       (ib_stream (ensureStreamTx db (ep_player p) domain (tx_now env))))
    (<[item_key (new_item p domain seq (tx_now2 env) (digest_of p) original)
        := new_item p domain seq (tx_now2 env) (digest_of p) original]> (ib_item db))
    audit }.

Lemma run_hook_Ok hook db seq db' :
  run_hook hook db seq = Ok db' -> exists audit, db' = with_audit db audit /\ ib_audit db ⊆ audit.
Proof.
  destruct hook as [h|]; simpl; [apply InsertAudit_Ok|]. intros Heq. simplify_eq.
  exists (ib_audit db'). split; [by destruct db'|done].
Qed.

Lemma ensure_roles db player domain now :
  ib_roles (ensureStreamTx db player domain now) = ib_roles db /\
  ib_admission (ensureStreamTx db player domain now) = ib_admission db.
Proof. unfold ensureStreamTx. by destruct (ib_stream db !! _). Qed.

Lemma enqueue_tx_Ok env p domain spec hook original db res db' :
  enqueue_tx sha256 env p domain spec hook original db = Ok (res, db') ->
  (er_created res = false /\ (db' = db \/ db' = ensureStreamTx db (ep_player p) domain (tx_now env))) \/
  (exists st seq audit, created env p domain spec original db res db' st seq audit).
Proof.
  unfold enqueue_tx.
  assert (exists b : bool, match ep_battle p with Some req => negb (battleOriginalMatches req original) | None => false end = b)
    as [b ->] by eauto.
  destruct b; [done|].
  intros (ex & Hex & (u & _ & H)%bind_Ok)%bind_Ok. destruct ex as [row|].
  { left. simplify_eq. split; [|by left]. unfold resultForExisting. by case_bool_decide. }
  destruct (negb _); [left; simplify_eq; split; [done|by left]|].
  apply bind_Ok in H as (u' & _ & H).
  set (db1 := ensureStreamTx _ _ _ _) in *. apply bind_Ok in H as (ost & Hst & H).
  apply lockStream_Ok in Hst. destruct ost as [st|]; [|done].
  apply bind_Ok in H as (ex' & Hex' & (u'' & _ & H)%bind_Ok).
  destruct (decideEnqueueLocked ex' _ _ _) as [dec|] eqn:Hdec.
  { left. simplify_eq. split; [|by right]. unfold decideEnqueueLocked in Hdec. destruct ex' as [row|].
    - simplify_eq. unfold resultForExisting. by case_bool_decide.
    - destruct (_ <=? _); [|done]. by simplify_eq. }
  right. unfold decideEnqueueLocked in Hdec. destruct ex' as [|]; [done|].
  destruct (ds_max_pending spec <=? st_open_count st) eqn:Hroom; [done|]. zbool.
  unfold enqueue_insert in H. apply bind_Ok in H as (seq & Hseq & (db2 & Hins & (db3 & Hupd & (db4 & Hhook & Hfin)%bind_Ok)%bind_Ok)%bind_Ok).
  simplify_eq. apply insert_item_Ok in Hins as (Hfresh & Hnodup & ->).
  apply update_stream_Ok in Hupd as (st' & Hst' & _ & ->). simpl in Hst'.
  assert (st' = st) as -> by congruence.
  apply run_hook_Ok in Hhook as (audit & -> & Haud).
  destruct (ensureStreamTx_spec db (ep_player p) domain (tx_now env)) as (Hit & Hau & _).
  destruct (ensure_roles db (ep_player p) domain (tx_now env)) as [Hro Had].
  fold db1 in Hit, Hau, Hro, Had.
  exists st, seq, audit. constructor; try done.
  - by rewrite <- Hit.
  - by rewrite <- Hau.
  - unfold with_audit, with_stream, with_item. simpl. by rewrite Hit, Hro, Had.
Qed.

Lemma advance_evolves st seq now :
  st_next_seq st <= seq -> 0 <= seq < u64_mod - 1 -> stream_evolves st (advance_stream st seq now st).
Proof.
  intros. constructor; simpl; [done| |done]. rewrite u64_small; [lia|]. unfold is_u64. lia.
Qed.

Lemma created_below env p domain spec original db res db' st seq audit :
  0 <= tx_now2 env -> inbox_wf reg db -> room db ->
  created env p domain spec original db res db' st seq audit ->
  st_next_seq st <= seq /\ 1 <= seq < u64_mod - 1 /\ 0 < tx_now2 env < 2 ^ 51.
Proof.
  intros Hnow [Hi _ _] [Hroom _] [].
  assert (st_next_seq st < u64_mod - 1) as Hlt.
  { destruct (ensureStreamTx_spec db (ep_player p) domain (tx_now env)) as (_ & _ & _ & Hk).
    rewrite Hk in cr_stream0. destruct (ib_stream db !! _) as [st0|] eqn:Hst0; simplify_eq/=; [by eapply Hroom|].
    by unfold u64_mod. }
  destruct (NextSeq_Ok _ _ _ Hnow cr_seq0) as (H1 & H2 & H3 & H4). split_and!; [done..| |lia|lia].
  unfold NextSeq in cr_seq0. destruct (_ || _); [done|]. simplify_eq.
  rewrite u64_small by (rewrite Z.shiftl_mul_pow2 by done; change (2 ^ seqClockShift) with 4096; unfold is_u64, u64_mod; lia).
  rewrite Z.shiftl_mul_pow2 by done. change (2 ^ seqClockShift) with 4096. unfold u64_mod in *. lia.
Qed.

Lemma created_keeps env p domain spec original db res db' st seq audit :
  reg_ok reg -> 0 <= tx_now2 env -> inbox_wf reg db -> room db -> Domain reg domain = Some spec ->
  created env p domain spec original db res db' st seq audit -> keeps reg db db'.
Proof.
  intros Hreg Hnow Hwf Hroom Hd Hcr.
  destruct (created_below _ _ _ _ _ _ _ _ _ _ _ Hnow Hwf Hroom Hcr) as (Hle & Hseq & _). destruct Hcr.
  pose proof (ensure_keeps reg db (ep_player p) domain spec (tx_now env) Hreg Hwf Hd) as [Hwf1 Hev1].
  set (db1 := ensureStreamTx db (ep_player p) domain (tx_now env)) in *.
  destruct (ensureStreamTx_spec db (ep_player p) domain (tx_now env)) as (Hit & Hau & _). fold db1 in Hit, Hau.
  destruct (ensure_roles db (ep_player p) domain (tx_now env)) as [Hro Had]. fold db1 in Hro, Had.
  set (it := new_item _ _ _ _ _ _) in *. set (k := key_of p domain) in *.
  set (st' := advance_stream _ _ _ _) in *.
  destruct Hwf1 as [Hi1 Ho1 Hq1].
  assert (stream_evolves st st') as Hse by (apply advance_evolves; lia).
  assert (st_next_seq st' = seq + 1) as Hnext by (simpl; rewrite u64_small; [done|unfold is_u64; lia]).
  set (db2 := with_stream db1 (<[k := st']> (ib_stream db1))).
  assert (items_wf db2) as Hi2.
  { apply (set_stream_items_wf _ _ st); [done..|]. rewrite Hnext. unfold is_u64. lia. }
  assert (ib_item db2 !! item_key it = None) as Hfr2 by (simpl; by rewrite Hit).
  assert (db' = with_audit (with_item db2 (<[item_key it := it]> (ib_item db2))) audit) as Hdb'.
  { subst db'. unfold with_audit, with_item, db2, with_stream. simpl. by rewrite Hro, Had, Hit. }
  assert (open_exact (with_item db2 (<[item_key it := it]> (ib_item db2)))) as Ho2.
  { assert (forall k', pending_count (with_item db2 (<[item_key it := it]> (ib_item db2))) k' = b2z (pend_in k' it) + pending_count db1 k') as Hc
      by (intros; by apply count_insert_new).
    apply (open_exact_restore db1 _ k st'); simpl; try done.
    - intros k' Hne. by rewrite lookup_insert_ne.
    - by rewrite lookup_insert_eq.
    - rewrite Hc. assert (pend_in k it = true) as -> by by apply pend_in_iff.
      rewrite (Ho1 _ _ cr_stream0). rewrite u32_small; [simpl; lia|].
      rewrite <- (Ho1 _ _ cr_stream0). specialize (Hreg _ _ Hd).
      pose proof (count_nonneg (pend_in k) (ib_item db1)). rewrite (Ho1 _ _ cr_stream0) in *.
      unfold is_u32, pending_count in *. lia.
    - intros k' Hne. rewrite Hc, pend_in_other; [simpl; lia|done]. }
  split; [rewrite Hdb'; constructor|].
  - apply with_audit_items_wf. eapply (insert_item_items_wf _ _ st'); try done.
    + constructor; simpl; try done; [lia|by left|by left].
    + simpl. by rewrite lookup_insert_eq.
    + rewrite Hnext. simpl. lia.
    + intros k0 r0 H0 ? ? ?. simpl in H0. rewrite Hit in H0.
      eapply readItemByRequest_None; [exact cr_absent0|exact H0|..]; try done.
      destruct (iw_key _ (wf_items _ _ Hwf) _ _ H0) as [_ []]. simpl in *. congruence.
  - exact Ho2.
  - intros k0 st0. simpl. destruct (decide (k0 = k)) as [->|].
    + rewrite lookup_insert_eq. intros [= <-]. exists spec. split.
      * simpl. destruct (iw_stream _ Hi1 _ _ cr_stream0) as (Hk & _). unfold stream_key, k in Hk. by simplify_eq.
      * simpl. specialize (Hreg _ _ Hd). rewrite u32_small; [lia|]. unfold is_u32.
        pose proof (count_nonneg (pend_in k) (ib_item db1)). rewrite (Ho1 _ _ cr_stream0) in *.
        unfold pending_count in *. lia.
    + rewrite lookup_insert_ne by done. apply Hq1.
  - etrans; [exact Hev1|]. rewrite Hdb'.
    etrans; [by apply (set_stream_evolves _ k st st')|].
    etrans; [by apply (insert_item_evolves db2 (item_key it) it)|].
    apply with_audit_evolves. simpl. by rewrite Hau.
Qed.

Lemma enqueue_checks_inr p domain spec :
  enqueue_checks unmarshal PlayerExists reg allowed p = Ok (inr (domain, spec)) -> Domain reg domain = Some spec.
Proof.
  unfold enqueue_checks. destruct (_ || negb (validProducer _)); [done|]. destruct (negb (Bool.eqb _ _)); [done|].
  destruct (ValidatePayload _ _ _ _ _); [done|].
  destruct (negb (ValidateText (ep_operator p) _ _ =? 0)); [done|].
  destruct (negb (ValidateText (ep_note p) _ _ =? 0)); [done|].
  destruct (Domain reg _) as [s|] eqn:Hd; [|done]. intros (b & _ & H)%bind_Ok.
  destruct (negb b); simplify_eq. done.
Qed.

Lemma enqueue_keeps env p hook db r db' :
  reg_ok reg -> 0 <= tx_now2 env -> inbox_wf reg db -> room db ->
  enqueue sha256 unmarshal PlayerExists reg allowed env p hook db = Ok (r, db') -> keeps reg db db'.
Proof.
  intros Hreg Hnow Hwf Hroom. unfold enqueue. intros (ch & Hch & H)%bind_Ok.
  destruct ch as [ans|[domain spec]]; [simplify_eq; by apply keeps_refl|].
  apply enqueue_checks_inr in Hch. eapply withPlayerTx_keeps; [done|exact H|]. clear H.
  intros original roles Hwf' _ [[_ [->| ->]]|(st & seq & audit & Hcr)]%enqueue_tx_Ok.
  - by apply keeps_refl.
  - by eapply ensure_keeps.
  - by eapply created_keeps.
Qed.
End enqueue.

(** ** The stream after its rows *)
Lemma update_stream_or_same db k st write f db' :
  ib_stream db !! k = Some st ->
  (if write : bool then update_stream db k f else Ok db) = Ok db' ->
  (write = false -> st_open_count (f st) = st_open_count st /\ st_fence_epoch (f st) = st_fence_epoch st /\ st_next_seq (f st) = st_next_seq st /\ stream_key (f st) = stream_key st) ->
  exists st', ib_stream db' = <[k := st']> (ib_stream db) /\ ib_item db' = ib_item db /\ ib_audit db' = ib_audit db /\
    st_open_count st' = st_open_count (f st) /\ st_fence_epoch st' = st_fence_epoch (f st) /\ st_next_seq st' = st_next_seq (f st) /\
    stream_key st' = stream_key (f st).
Proof.
  intros Hk. destruct write.
  - intros (st0 & Hst0 & _ & ->)%update_stream_Ok _. assert (st0 = st) as -> by congruence. by exists (f st).
  - intros [= <-] Hf. exists st. rewrite insert_id by done. destruct (Hf eq_refl) as (? & ? & ? & ?). by split_and!.
Qed.

(** Putting a stream back in order after its rows changed. *)
Lemma restore_stream reg db db1 db2 k st st' :
  inbox_wf reg db -> ib_stream db !! k = Some st -> items_wf db1 -> evolves db db1 -> ib_stream db1 = ib_stream db ->
  ib_stream db2 = <[k := st']> (ib_stream db1) -> ib_item db2 = ib_item db1 -> ib_audit db2 = ib_audit db1 ->
  stream_evolves st st' -> is_u64 (st_next_seq st') ->
  st_open_count st' = pending_count db1 k -> st_open_count st' <= st_open_count st ->
  (forall k', k' <> k -> pending_count db1 k' = pending_count db k') ->
  keeps reg db db2.
Proof.
  intros [Hi Ho Hq] Hst Hw1 Hev1 Hs1 Hs2 Hit Hau Hse Hu Hop Hle Hpc.
  assert (same_tables (with_stream db1 (<[k := st']> (ib_stream db1))) db2) as Hsame
    by (split_and!; by rewrite ?Hs2, ?Hit, ?Hau).
  assert (ib_stream db1 !! k = Some st) as Hst1 by by rewrite Hs1.
  split.
  - eapply same_tables_wf; [exact Hsame|]. constructor.
    + by apply (set_stream_items_wf _ _ st).
    + intros k0 st0. simpl. destruct (decide (k0 = k)) as [->|Hne].
      * rewrite lookup_insert_eq. by intros [= <-].
      * rewrite lookup_insert_ne by done. rewrite Hs1. intros H0. unfold pending_count. simpl.
        fold (pending_count db1 k0). rewrite Hpc by done. by apply Ho.
    + intros k0 st0. simpl. destruct (decide (k0 = k)) as [->|Hne].
      * rewrite lookup_insert_eq. intros [= <-]. destruct (Hq _ _ Hst) as (spec & Hsp & Hm).
        exists spec. destruct Hse as [Hk _ _]. unfold stream_key in Hk. split; [congruence|lia].
      * rewrite lookup_insert_ne by done. rewrite Hs1. apply Hq.
  - etrans; [exact Hev1|]. etrans; [by apply (set_stream_evolves _ k st st')|]. by apply same_tables_evolves.
Qed.
