(* ===== verification/InboxConsume.v ===== *)
(** * Player inbox: fetch and acknowledgement keep the invariant

    The two consumer transactions, loop by loop: what [Fetch] marks delivered and
    returns, what [Ack] finalizes and answers, and that both keep [inbox_wf]. *)
From stdpp Require Import base list gmap strings sorting.
From Stdlib Require Import ZArith Lia.
From S2P Require Import Prelude RoleRoute InboxRow InboxDecide InboxRegistry InboxStore InboxInv InboxOps.
Local Open Scope Z_scope.
Local Open Scope go_scope.

#[local] Abbreviation row_key player domain seq := (RowShard player%Z, player%Z, domain%Z, seq%Z).

(** ** The pending page *)
Lemma NoDup_item_keys db : items_wf db -> NoDup (item_key <$> item_rows db).
Proof.
  intros Hw. assert (item_key <$> item_rows db = (map_to_list (ib_item db)).*1) as ->; [|apply NoDup_fst_map_to_list].
  unfold item_rows. rewrite <- list_fmap_compose. apply list_fmap_ext. intros i [k r] Hi. simpl.
  apply list_elem_of_lookup_2, elem_of_map_to_list in Hi. by apply (iw_key _ Hw).
Qed.

Lemma NoDup_seqs k (l : list PlayerInboxItemRow) :
  NoDup (item_key <$> l) -> (forall r, r ∈ l -> pend_in k r = true) -> NoDup (it_seq <$> l).
Proof.
  induction l as [|r l IH]; csimpl; intros Hnd Hall; [constructor|].
  inversion Hnd as [|? ? Hnin Hnd']; subst. constructor; [|apply IH; [done|]; intros x Hx; apply Hall; by right].
  intros (x & Hs & Hx)%list_elem_of_fmap. apply Hnin, list_elem_of_fmap. exists x. split; [|done].
  pose proof (proj1 (pend_in_iff _ _) (Hall r ltac:(left))) as [Hr _].
  pose proof (proj1 (pend_in_iff _ _) (Hall x ltac:(by right))) as [Hx' _].
  unfold item_key. congruence.
Qed.

Definition pending_sorted (db : InboxDB) (player domain : Z) : list PlayerInboxItemRow :=
  sort_stable seq_less (keep_if (stream_pending player domain) (item_rows db)).

Lemma query_by_seq_Ok db p limit rows :
  query_by_seq db p limit = Ok rows -> rows = take (Z.to_nat limit) (sort_stable seq_less (keep_if p (item_rows db))).
Proof. unfold query_by_seq. by intros (u & _ & Heq)%bind_Ok; simplify_eq. Qed.

Lemma elem_of_pending_sorted db player domain r :
  items_wf db ->
  r ∈ pending_sorted db player domain <->
  ib_item db !! row_key player domain (it_seq r) = Some r /\ it_state r = ITEM_PENDING.
Proof.
  intros Hw. unfold pending_sorted.
  rewrite elem_of_sort_stable, elem_of_keep_if, elem_of_item_rows, stream_pending_pend_in, pend_in_iff. split.
  - intros ([k Hk] & Hd & Hp). split; [|done]. destruct (iw_key _ Hw _ _ Hk) as [Hkey _].
    assert (k = row_key player domain (it_seq r)) as ->; [|done]. rewrite <- Hkey. unfold item_key. congruence.
  - intros (Hk & Hp). destruct (iw_key _ Hw _ _ Hk) as [Hkey _]. unfold item_key in Hkey.
    split; [eauto|]. split; [congruence|done].
Qed.

(** Ascending by sequence number, strictly. *)
Lemma pending_sorted_ascending db player domain :
  items_wf db -> StronglySorted (fun a b => it_seq a < it_seq b) (pending_sorted db player domain).
Proof.
  intros Hw. unfold pending_sorted. set (l := keep_if _ _).
  assert (NoDup (it_seq <$> sort_stable seq_less l)) as Hnd.
  { apply NoDup_fmap_sort. apply (NoDup_seqs (RowShard player, player, domain)).
    - by apply NoDup_fmap_keep_if, NoDup_item_keys.
    - intros r Hr. apply elem_of_keep_if in Hr as [_ Hr]. done. }
  assert (StronglySorted (fun a b => seq_less b a = false) (sort_stable seq_less l)) as Hs.
  { apply sort_stable_sorted; unfold seq_less; intros; zlia. }
  revert Hnd Hs. generalize (sort_stable seq_less l). clear.
  induction l as [|r l IH]; csimpl; intros Hnd Hs; [constructor|].
  inversion Hnd as [|? ? Hnin Hnd']; subst. inversion Hs as [|? ? Hs' Hall]; subst.
  constructor; [by apply IH|]. rewrite Forall_forall in *. intros x Hx.
  specialize (Hall x Hx). unfold seq_less in Hall. zbool.
  assert (it_seq r <> it_seq x); [|lia]. intros Heq. apply Hnin, list_elem_of_fmap. eauto.
Qed.

Lemma ascending_NoDup (l : list PlayerInboxItemRow) :
  StronglySorted (fun a b => it_seq a < it_seq b) l -> NoDup (it_seq <$> l).
Proof.
  induction 1 as [|r l Hs IH Hall]; csimpl; constructor; [|done].
  intros (x & Hx & Hin)%list_elem_of_fmap. rewrite Forall_forall in Hall. specialize (Hall _ Hin). lia.
Qed.

Lemma splitPage_spec {T} (rows : list T) n :
  0 <= n -> splitPage rows n = (take (Z.to_nat n) rows, Z.ltb n (Z.of_nat (length rows))).
Proof.
  intros Hn. unfold splitPage. rewrite (proj2 (Z.ltb_ge n 0)) by done.
  destruct (n <? _) eqn:Hl; [done|]. zbool. rewrite take_ge by lia. done.
Qed.

(** The page is the first [n] pending rows, [hasMore] says there are others. *)
Lemma splitPage_take {T} (rows : list T) n :
  0 <= n ->
  splitPage (take (Z.to_nat (n + 1)) rows) n = (take (Z.to_nat n) rows, Z.ltb n (Z.of_nat (length rows))).
Proof.
  intros Hn. rewrite splitPage_spec by done. rewrite take_take.
  replace (Z.to_nat n `min` Z.to_nat (n + 1))%nat with (Z.to_nat n) by lia. f_equal.
  rewrite length_take. destruct (n <? Z.of_nat (length rows)) eqn:H; zbool; [apply Z.ltb_lt|apply Z.ltb_ge]; lia.
Qed.

(** ** Delivery *)
Lemma set_delivered_evolves epoch now r :
  it_state r = ITEM_PENDING -> it_delivery_count r < u32_mod - 1 -> 0 <= it_delivery_count r ->
  row_evolves r (set_delivered epoch now r).
Proof.
  intros Hp Hr H0. constructor; [done|by rewrite Hp|]. simpl. rewrite u32_small; [lia|]. unfold is_u32. lia.
Qed.

Lemma set_delivered_ok epoch now r : it_state r = ITEM_PENDING -> row_ok r -> row_ok (set_delivered epoch now r).
Proof.
  intros Hp []. constructor; simpl; try done; [apply u32_range|].
  left. split; [done|]. rewrite Hp in ro_state. naive_solver.
Qed.

Lemma deliver_page original player domain epoch now page : forall items0 db items db',
  fold_res (deliver_one original player domain epoch now) (items0, db) page = Ok (items, db') ->
  items_wf db -> NoDup (it_seq <$> page) ->
  (forall r, r ∈ page -> ib_item db !! row_key player domain (it_seq r) = Some r /\ it_delivery_count r < u32_mod - 1) ->
  items = items0 ++ (deliveredItem <$> page) /\ items_wf db' /\ evolves db db' /\
  ib_stream db' = ib_stream db /\ (forall k, pending_count db' k = pending_count db k) /\
  (forall r, r ∈ page -> ib_item db' !! row_key player domain (it_seq r) = Some (set_delivered epoch now r)) /\
  (forall k, (forall r, r ∈ page -> k <> row_key player domain (it_seq r)) -> ib_item db' !! k = ib_item db !! k).
Proof.
  induction page as [|r page IH]; intros items0 db items db'; csimpl.
  { intros [= <- <-] ? _ _. rewrite app_nil_r. split_and!; try done. set_solver. }
  intros ([items1 db1] & Hone & Hrec)%bind_Ok Hw Hnd Hpage. inversion Hnd as [|? ? Hnin Hnd']; subst.
  unfold deliver_one in Hone. apply bind_Ok in Hone as (u & _ & (db1' & Hupd & Heq)%bind_Ok).
  simpl in Hupd. injection Heq as <- ->.
  apply update_item_Ok in Hupd as (r' & Hr' & Hp & _ & Hdb1).
  destruct (Hpage r ltac:(left)) as [Hr Hcnt]. assert (r' = r) as -> by congruence.
  unfold is_pending in Hp. zbool. destruct (iw_key _ Hw _ _ Hr) as [Hkey Hok].
  assert (row_evolves r (set_delivered epoch now r)) as Hev by (apply set_delivered_evolves; [done|done|apply Hok]).
  assert (items_wf db1) as Hw1.
  { subst db1. apply (set_item_items_wf _ _ r); [done|done|done|by apply set_delivered_ok]. }
  destruct (IH _ _ _ _ Hrec Hw1 Hnd') as (-> & Hw' & Hev' & Hst & Hpc & Hin & Hout).
  { intros x Hx. rewrite Hdb1. simpl. rewrite lookup_insert_ne; [apply Hpage; by right|].
    intros Heq. apply Hnin, list_elem_of_fmap. exists x. split; [congruence|done]. }
  rewrite <- app_assoc. split_and!; try done.
  - etrans; [|exact Hev']. rewrite Hdb1. by apply (set_item_evolves _ _ r).
  - rewrite Hst. by subst db1.
  - intros k. rewrite Hpc, Hdb1, (set_item_pending_count _ _ r) by done.
    assert (pend_in k (set_delivered epoch now r) = pend_in k r) as ->; [done|lia].
  - intros x [->|Hx]%elem_of_cons; [|auto].
    rewrite Hout, Hdb1; simpl; [by rewrite lookup_insert_eq|].
    intros y Hy Heq. apply Hnin, list_elem_of_fmap. exists y. split; [congruence|done].
  - intros k Hk. rewrite Hout by (intros x Hx; apply Hk; by right). rewrite Hdb1. simpl.
    apply lookup_insert_ne. intros <-. by apply (Hk r ltac:(left)).
Qed.

(** ** Fetch *)
Definition fetch_limit (req : FetchRequest) : Z := clampFetchItems (fq_max_items req) FetchDefaultItems FetchMaxItems.
Definition fetch_page (db : InboxDB) (req : FetchRequest) : list PlayerInboxItemRow :=
  take (Z.to_nat (fetch_limit req)) (pending_sorted db (fq_player req) (fq_domain req)).

(** A request as the wire types bound it, with a watermark that has a successor. *)
Definition fetch_req_ok (req : FetchRequest) : Prop :=
  0 <= fq_max_items req /\ 0 <= fq_decided_through req < u64_mod - 1 /\ 0 <= fq_owner_epoch req.

Lemma fetch_limit_range req : fetch_req_ok req -> 1 <= fetch_limit req <= 16.
Proof.
  intros [Hm _]. unfold fetch_limit, clampFetchItems, FetchDefaultItems, FetchMaxItems.
  destruct (_ =? 0) eqn:?; zlia.
Qed.

(** What a delivering fetch committed. *)
Record fetched (env : TxEnv) (req : FetchRequest) (db : InboxDB) (resp : FetchResponse) (db' : InboxDB)
    (st : PlayerInboxStream) : Prop := {
  ft_stream : ib_stream db !! (RowShard (fq_player req), fq_player req, fq_domain req) = Some st;
  ft_verdict : fs_fence resp = DecideFence (fq_owner_epoch req) (st_fence_epoch st) (fq_owner_epoch req);
  ft_allowed : FenceAllows (fs_fence resp) = true;
  ft_tip : fs_tip resp = 0;
  ft_items : fs_items resp = deliveredItem <$> fetch_page db req;
  ft_more : fs_has_more resp = (fetch_limit req <? Z.of_nat (length (pending_sorted db (fq_player req) (fq_domain req))));
  ft_delivered : forall r, r ∈ fetch_page db req ->
    ib_item db' !! row_key (fq_player req) (fq_domain req) (it_seq r) = Some (set_delivered (fq_owner_epoch req) (tx_now env) r);
  ft_others : forall k, (forall r, r ∈ fetch_page db req -> k <> row_key (fq_player req) (fq_domain req) (it_seq r)) ->
    ib_item db' !! k = ib_item db !! k;
  ft_other_streams : forall k, k <> (RowShard (fq_player req), fq_player req, fq_domain req) ->
    ib_stream db' !! k = ib_stream db !! k;
  ft_stream' : exists st', ib_stream db' !! (RowShard (fq_player req), fq_player req, fq_domain req) = Some st' /\
    st_fence_epoch st' = fq_owner_epoch req /\
    st_next_seq st' = Z.max (st_next_seq st) (fq_decided_through req + 1) /\ st_open_count st' = st_open_count st /\
    stream_evolves st st' }.

Lemma RaiseNextSeq_spec next dt :
  0 <= dt < u64_mod - 1 ->
  (RaiseNextSeq next dt).1 = Z.max next (dt + 1) /\ ((RaiseNextSeq next dt).2 = false -> (RaiseNextSeq next dt).1 = next).
Proof.
  intros Hd. unfold RaiseNextSeq. destruct (dt <? next) eqn:H; simpl; zbool; [lia|].
  rewrite u64_small by (unfold is_u64; lia). split; [lia|done].
Qed.

Section fetch.
Context (reg : Registry).

Lemma fetch_page_facts db req r :
  items_wf db -> room db -> r ∈ fetch_page db req ->
  ib_item db !! row_key (fq_player req) (fq_domain req) (it_seq r) = Some r /\ it_delivery_count r < u32_mod - 1.
Proof.
  intros Hw [_ Hroom] Hr.
  assert (r ∈ pending_sorted db (fq_player req) (fq_domain req)) as Hin.
  { eapply elem_of_sublist; [exact Hr|apply sublist_take]. }
  apply elem_of_pending_sorted in Hin as [Hk _]; [|done]. split; [done|by eapply Hroom].
Qed.

Lemma fetch_tx_Ok env req original db resp db' :
  inbox_wf reg db -> room db -> fetch_req_ok req ->
  fetch_tx env req original db = Ok (resp, db') ->
  (db' = db /\ fs_items resp = [] /\ FenceAllows (fs_fence resp) = false) \/
  (keeps reg db db' /\ exists st, fetched env req db resp db' st).
Proof.
  intros [Hi Ho Hq] Hroom Hreq. unfold fetch_tx.
  intros (u1 & _ & (u2 & _ & (ost & Hst & H)%bind_Ok)%bind_Ok)%bind_Ok.
  apply lockStream_Ok in Hst. destruct ost as [st|]; [|left; by simplify_eq/=]. symmetry in Hst.
  destruct (negb (FenceAllows _)) eqn:Hal; [left; simplify_eq/=; zbool; done|]. right. zbool.
  pose proof (RaiseNextSeq_spec (st_next_seq st) (fq_decided_through req) (proj1 (proj2 Hreq))) as [Hnext Hnr].
  destruct (RaiseNextSeq _ _) as [nextSeq raised]. simpl in Hnext, Hnr.
  apply bind_Ok in H as (pending & Hp & H). apply query_by_seq_Ok in Hp.
  destruct (fetch_limit_range req Hreq) as [Hl1 Hl2].
  rewrite Hp, splitPage_take in H by (fold (fetch_limit req); lia).
  apply bind_Ok in H as ([items db1] & Hdel & H).
  fold (fetch_limit req) (pending_sorted db (fq_player req) (fq_domain req)) (fetch_page db req) in *.
  destruct (iw_stream _ Hi _ _ Hst) as (Hkey & _ & Hf0 & Hn1 & Hu).
  assert (NoDup (it_seq <$> fetch_page db req)) as Hnd.
  { apply ascending_NoDup. eapply StronglySorted_sublist; [apply sublist_take|by apply pending_sorted_ascending]. }
  destruct (deliver_page _ _ _ _ _ _ _ _ _ _ Hdel Hi Hnd (fun r => fetch_page_facts db req r Hi Hroom))
    as (Hitems & Hw1 & Hev1 & Hs1 & Hpc & Hin & Hout). simpl in Hitems.
  pose proof (FenceAllows_true _ _ _ Hf0 Hal) as (Hreq0 & Hge & Hwr & Hnw).
  unfold fetchStreamUpdate in H. set (v := DecideFence _ _ _) in *.
  set (newFence := if FenceWrites v then _ else _) in *.
  assert (newFence = fq_owner_epoch req) as HnF.
  { unfold newFence. destruct (FenceWrites v) eqn:Hfw; [done|]. by apply Hnw. }
  assert (Hst1 : ib_stream db1 !! (RowShard (fq_player req), fq_player req, fq_domain req) = Some st) by by rewrite Hs1.
  apply bind_Ok in H as (db2 & Hupd & Hfin). injection Hfin as <- <-.
  destruct (update_stream_or_same db1 _ st _ _ _ Hst1 Hupd) as (st' & Hs2 & Hit & Hau & Hop & Hfe & Hne & Hke).
  { intros [? ?]%orb_false_iff. simpl. split_and!; [done|rewrite HnF; symmetry; by apply Hnw|auto|done]. }
  simpl in Hop, Hfe, Hne.
  assert (stream_evolves st st') as Hse by (constructor; [done|lia|lia]). split.
  - apply (restore_stream reg db db1 db2 (RowShard (fq_player req), fq_player req, fq_domain req) st st'); try done.
    + rewrite Hne, Hnext. unfold is_u64 in *. destruct Hreq as (_ & ? & _). lia.
    + rewrite Hop, Hpc. by apply Ho.
    + lia.
  - exists st. constructor; simpl; try done.
    + intros r Hr. rewrite Hit. auto.
    + intros k Hk. rewrite Hit. auto.
    + intros k Hk. rewrite Hs2, lookup_insert_ne by done. by rewrite Hs1.
    + exists st'. rewrite Hs2, lookup_insert_eq, Hfe, HnF, Hne, Hnext, Hop. by split_and!.
Qed.
End fetch.

(** * Player inbox: acknowledgement keeps the invariant

    The loop of [Ack] over the reports: the answer and the row of each report,
    the number of rows that leave PENDING, and the stream's open count that
    follows it. *)


(** ** One report *)

(** Whether the report ends the row, the row it leaves, and the answer. *)
Definition ack_ends (row : option PlayerInboxItemRow) (report : PlayerInboxDecisionReport) : bool :=
  negb (battle_refused row report) && ad_finalize (decideAck row report).

Definition ack_row (epoch nowMs : Z) (report : PlayerInboxDecisionReport) (r : PlayerInboxItemRow) : PlayerInboxItemRow :=
  if ack_ends (Some r) report
  then finalize_row (ad_newState (decideAck (Some r) report)) FINALIZER_CONSUMER epoch (ackOutcomeReason report) nowMs r
  else r.

Definition ack_answer (row : option PlayerInboxItemRow) (report : PlayerInboxDecisionReport) : PlayerInboxAckItem :=
  if battle_refused row report
  then mkAckItem (rp_seq report) ACK_CONFLICT (default ITEM_UNSPECIFIED (it_state <$> row))
  else mkAckItem (rp_seq report) (ad_result (decideAck row report)) (ad_state (decideAck row report)).

Definition known_outcome (report : PlayerInboxDecisionReport) : Prop :=
  outcomeToState (rp_outcome report) <> ITEM_UNSPECIFIED.

Lemma outcomeToState_terminal o : outcomeToState o <> ITEM_UNSPECIFIED -> IsTerminalState (outcomeToState o) = true.
Proof. unfold outcomeToState. repeat case_match; done. Qed.

(** The reports that end a row: only a delivered PENDING one with the reported request. *)
Lemma ack_ends_inv row report :
  ack_ends row report = true -> exists r, row = Some r /\ it_state r = ITEM_PENDING /\ it_delivery_count r <> 0 /\
    it_request_id r = rp_request_id report /\
    decideAck row report = mkAck ACK_FINALIZED true (outcomeToState (rp_outcome report)) (outcomeToState (rp_outcome report)) /\
    (rp_outcome report = OUTCOME_SKIPPED -> it_directive r = DIRECTIVE_VOID) /\
    (it_msg_type r = MSG_BATTLE_SETTLEMENT -> rp_outcome report = OUTCOME_APPLIED).
Proof.
  unfold ack_ends. intros [Hb Hf]%andb_true_iff. destruct row as [r|]; [|done].
  exists r. unfold decideAck in *. unfold battle_refused in Hb.
  destruct (negb (it_request_id r =? _)) eqn:Hr; [done|]. destruct (it_state r =? ITEM_PENDING) eqn:Hs.
  - destruct (it_delivery_count r =? 0) eqn:Hd; [done|]. destruct (_ && negb (it_directive r =? _)) eqn:Hk; [done|].
    zbool. split_and!; try done.
    + intros Ho. destruct Hk as [Hk|Hk]; zbool; done.
    + intros Ho. destruct Hb as [Hb|Hb]; zbool; done.
  - by destruct (sameOutcome _ _ _ _).
Qed.

(** FINALIZED is the answer exactly to the reports that end their row. *)
Lemma ack_ends_answer row report : ack_ends row report = true <-> ai_result (ack_answer row report) = ACK_FINALIZED.
Proof.
  unfold ack_ends, ack_answer. destruct (battle_refused row report); [done|]. simpl.
  unfold decideAck. destruct row as [r|]; [|done]. repeat case_match; done.
Qed.

Lemma ack_row_ok epoch nowMs report r :
  known_outcome report -> row_ok r -> row_ok (ack_row epoch nowMs report r).
Proof.
  intros Hk Hr. unfold ack_row. destruct (ack_ends _ _) eqn:He; [|done].
  apply ack_ends_inv in He as (r0 & [= <-] & Hs & Hd & _ & -> & _ & Hb). simpl.
  destruct Hr. constructor; simpl; try done.
  - right. left. split_and!; [by apply outcomeToState_terminal|done|lia].
  - intros Hm _. right. by rewrite (Hb Hm).
Qed.

Lemma ack_row_content epoch nowMs report r : content (ack_row epoch nowMs report r) = content r.
Proof. unfold ack_row. by destruct (ack_ends _ _). Qed.

Lemma ack_row_evolves epoch nowMs report r : row_evolves r (ack_row epoch nowMs report r).
Proof.
  constructor; [apply ack_row_content| |].
  - unfold ack_row. destruct (ack_ends _ _) eqn:He; [|done].
    apply ack_ends_inv in He as (r0 & [= <-] & Hs & _). by rewrite Hs.
  - unfold ack_row. by destruct (ack_ends _ _).
Qed.

(** A row that ends leaves the pending count. *)
Lemma ack_row_pending k epoch nowMs report r :
  known_outcome report ->
  b2z (pend_in k (ack_row epoch nowMs report r)) =
  b2z (pend_in k r) - (if bool_decide ((it_shard r, it_player r, it_domain r) = k) then b2z (ack_ends (Some r) report) else 0).
Proof.
  intros Hk. unfold ack_row. destruct (ack_ends (Some r) report) eqn:He; [|case_bool_decide; simpl; lia].
  apply ack_ends_inv in He as (r0 & [= <-] & Hs & _ & _ & Hd & _). rewrite Hd. simpl.
  set (r' := finalize_row _ _ _ _ _ _). case_bool_decide as Heq.
  - assert (pend_in k r = true) as -> by by apply pend_in_iff.
    assert (pend_in k r' = false) as ->; [|done]. destruct (pend_in k r') eqn:Hp; [|done].
    apply pend_in_iff in Hp as [_ Hp]. simpl in Hp. unfold known_outcome in Hk.
    apply outcomeToState_terminal in Hk. by rewrite Hp in Hk.
  - rewrite !pend_in_other; [simpl; lia|done|done].
Qed.

(** ** The loop *)
Fixpoint ack_ended (rows : gmap Z PlayerInboxItemRow) (reports : list PlayerInboxDecisionReport) : Z :=
  match reports with
  | [] => 0
  | rep :: reports' => b2z (ack_ends (rows !! rp_seq rep) rep) + ack_ended rows reports'
  end.

Lemma ack_ended_range rows reports : 0 <= ack_ended rows reports <= Z.of_nat (length reports).
Proof.
  induction reports as [|rep reports IH]; cbn [ack_ended length]; [lia|].
  destruct (ack_ends _ _); unfold b2z; lia.
Qed.

(** One report of the loop: the write it makes, stated on the row. *)
Lemma ack_one_Ok original rows player domain epoch nowMs results fin db report acc' :
  rows !! rp_seq report = ib_item db !! row_key player domain (rp_seq report) ->
  ack_one original rows player domain epoch nowMs (results, fin, db) report = Ok acc' ->
  acc' = (results ++ [ack_answer (rows !! rp_seq report) report],
          (if ack_ends (rows !! rp_seq report) report then fin +32 1 else fin), acc'.2) /\
  (acc'.2 = db /\ (forall r, rows !! rp_seq report = Some r -> ack_row epoch nowMs report r = r) \/
   exists r, rows !! rp_seq report = Some r /\
     acc'.2 = with_item db (<[row_key player domain (rp_seq report) := ack_row epoch nowMs report r]> (ib_item db))).
Proof.
  intros Hrow. unfold ack_one. intros (u & _ & H)%bind_Ok. destruct (battle_refused _ _) eqn:Hb.
  { injection H as <-. unfold ack_answer, ack_row, ack_ends. rewrite Hb. split; [done|]. left.
    split; [done|]. intros r Hr. rewrite Hr in Hb. by rewrite Hb. }
  destruct (ad_finalize _) eqn:Hf.
  - apply bind_Ok in H as (db1 & Hupd & Heq). injection Heq as <-.
    apply update_item_Ok in Hupd as (r & Hr & _ & _ & ->). rewrite <- Hrow in Hr. rewrite Hr in *.
    unfold ack_answer, ack_row, ack_ends. rewrite Hb, Hf. split; [done|]. right.
    exists r. split; [done|]. by rewrite Hb, Hf.
  - injection H as <-. unfold ack_answer, ack_row, ack_ends. rewrite Hb, Hf. split; [done|]. left.
    split; [done|]. intros r Hr. rewrite Hr in Hf. by rewrite Hf, andb_false_r.
Qed.

Lemma ack_row_fixed epoch nowMs report r :
  known_outcome report -> ack_row epoch nowMs report r = r -> ack_ends (Some r) report = false.
Proof.
  intros Hk. unfold ack_row. destruct (ack_ends (Some r) report) eqn:He; [|done].
  apply ack_ends_inv in He as (r0 & [= <-] & Hs & _ & _ & -> & _). intros Heq.
  apply outcomeToState_terminal in Hk. rewrite <- Heq in Hs. simpl in Hs. by rewrite Hs in Hk.
Qed.

Lemma ack_loop original rows player domain epoch nowMs reports : forall results0 fin0 db results fin db',
  fold_res (ack_one original rows player domain epoch nowMs) (results0, fin0, db) reports = Ok (results, fin, db') ->
  items_wf db -> NoDup (rp_seq <$> reports) -> Forall known_outcome reports ->
  (forall rep, rep ∈ reports -> rows !! rp_seq rep = ib_item db !! row_key player domain (rp_seq rep)) ->
  0 <= fin0 -> fin0 + Z.of_nat (length reports) < u32_mod ->
  results = results0 ++ ((fun rep => ack_answer (rows !! rp_seq rep) rep) <$> reports) /\
  fin = fin0 + ack_ended rows reports /\ items_wf db' /\ evolves db db' /\
  ib_stream db' = ib_stream db /\
  (forall k, pending_count db' k = pending_count db k -
     (if bool_decide (k = (RowShard player, player, domain)) then ack_ended rows reports else 0)) /\
  (forall rep, rep ∈ reports ->
     ib_item db' !! row_key player domain (rp_seq rep) = ack_row epoch nowMs rep <$> rows !! rp_seq rep) /\
  (forall k, (forall rep, rep ∈ reports -> k <> row_key player domain (rp_seq rep)) -> ib_item db' !! k = ib_item db !! k).
Proof.
  induction reports as [|rep reports IH]; intros results0 fin0 db results fin db'; csimpl.
  { intros [= <- <- <-] ? _ _ _ _ _. rewrite app_nil_r. split_and!; try done; [lia| |set_solver].
    intros k. case_bool_decide; lia. }
  intros ([[results1 fin1] db1] & Hone & Hrec)%bind_Ok Hw Hnd Hko Hrows Hf0 Hlen.
  inversion Hnd as [|? ? Hnin Hnd']; subst. inversion Hko as [|? ? Hk Hko']; subst.
  pose proof (Hrows rep ltac:(left)) as Hrow.
  apply (ack_one_Ok _ _ _ _ _ _ _ _ _ _ _ Hrow) in Hone as [Heq Hdb]. simpl in Heq, Hdb. injection Heq as -> Hfin1.
  pose proof (ack_ended_range rows reports) as Hrange.
  assert (fin1 = fin0 + b2z (ack_ends (rows !! rp_seq rep) rep)) as Hfin.
  { rewrite Hfin1. destruct (ack_ends _ _); simpl; [|lia]. apply u32_small. unfold is_u32. lia. }
  assert (items_wf db1 /\ evolves db db1 /\ ib_stream db1 = ib_stream db /\
    (forall k, pending_count db1 k = pending_count db k -
       (if bool_decide (k = (RowShard player, player, domain)) then b2z (ack_ends (rows !! rp_seq rep) rep) else 0)) /\
    ib_item db1 !! row_key player domain (rp_seq rep) = ack_row epoch nowMs rep <$> rows !! rp_seq rep /\
    (forall k, k <> row_key player domain (rp_seq rep) -> ib_item db1 !! k = ib_item db !! k))
    as (Hw1 & Hev1 & Hst1 & Hpc1 & Hin1 & Hout1).
  { destruct Hdb as [[-> Hsame]|(r & Hr & ->)].
    - split_and!; try done.
      + intros k. assert (ack_ends (rows !! rp_seq rep) rep = false) as ->; [|case_bool_decide; simpl; lia].
        destruct (rows !! rp_seq rep) as [r|] eqn:Hr; [eapply ack_row_fixed; eauto|]. done.
      + rewrite <- Hrow. destruct (rows !! rp_seq rep) as [r|]; [|done]. simpl. by rewrite Hsame.
    - rewrite Hr in *. symmetry in Hrow. destruct (iw_key _ Hw _ _ Hrow) as [Hkey Hok]. split_and!.
      + apply (set_item_items_wf _ _ r); [done|done|apply ack_row_content|by apply ack_row_ok].
      + apply (set_item_evolves _ _ r); [done|apply ack_row_evolves].
      + done.
      + intros k. rewrite (set_item_pending_count _ _ r) by done. rewrite ack_row_pending by done.
        unfold item_key in Hkey. assert ((it_shard r, it_player r, it_domain r) = (RowShard player, player, domain)) as -> by congruence.
        repeat case_bool_decide; try congruence; lia.
      + simpl. by rewrite lookup_insert_eq.
      + intros k Hne. simpl. by rewrite lookup_insert_ne. }
  destruct (IH _ _ _ _ _ _ Hrec Hw1 Hnd' Hko') as (-> & -> & Hw' & Hev' & Hst' & Hpc' & Hin' & Hout').
  - intros x Hx. rewrite Hout1; [apply Hrows; by right|]. intros Heq. apply Hnin, list_elem_of_fmap.
    exists x. split; [congruence|done].
  - rewrite Hfin. destruct (ack_ends _ rep); simpl; lia.
  - rewrite Hfin. simpl length in Hlen. destruct (ack_ends _ rep); simpl; lia.
  - rewrite <- app_assoc. split_and!; try done.
    + lia.
    + by etrans.
    + by rewrite Hst'.
    + intros k. rewrite Hpc', Hpc1. case_bool_decide; lia.
    + intros x [->|Hx]%elem_of_cons; [|auto]. rewrite Hout'; [done|].
      intros y Hy Heq. apply Hnin, list_elem_of_fmap. exists y. split; [congruence|done].
    + intros k Hne. rewrite Hout' by (intros x Hx; apply Hne; by right). apply Hout1. apply Hne. left.
Qed.

(** ** The request *)
Lemma reports_ascending_spec reports : forall prev,
  reports_ascending prev reports = true ->
  NoDup (rp_seq <$> reports) /\ Forall known_outcome reports /\ forall r, r ∈ reports -> prev < rp_seq r.
Proof.
  induction reports as [|r reports IH]; intros prev; csimpl; [by intros; split_and!; [constructor|constructor|set_solver]|].
  destruct (_ || _) eqn:Hc; [done|]. destruct (outcomeToState (rp_outcome r) =? ITEM_UNSPECIFIED) eqn:Ho; [done|].
  intros (Hnd & Hk & Hlt)%IH. zbool. split_and!.
  - constructor; [|done]. intros (x & Hx & Hin)%list_elem_of_fmap. specialize (Hlt x Hin). lia.
  - by constructor.
  - intros x [->|Hx]%elem_of_cons; [lia|]. specialize (Hlt x Hx). lia.
Qed.

Lemma validateAckReports_spec reports n :
  validateAckReports reports n = true ->
  NoDup (rp_seq <$> reports) /\ Forall known_outcome reports /\ Z.of_nat (length reports) <= n /\ reports <> [].
Proof.
  unfold validateAckReports. destruct (_ || _) eqn:Hc; [done|]. intros (? & ? & _)%reports_ascending_spec. zbool. done.
Qed.

Lemma readItemsBySeq_Ok db player domain seqs : forall rows,
  items_wf db -> readItemsBySeq db player domain seqs = Ok rows ->
  (forall s, s ∈ seqs -> rows !! s = ib_item db !! row_key player domain s) /\
  (forall s, s ∉ seqs -> rows !! s = None).
Proof.
  induction seqs as [|s seqs IH]; intros rows Hw; simpl.
  { intros [= <-]. split; [set_solver|]. intros. apply lookup_empty. }
  intros (out & Hout & (o & Ho & Heq)%bind_Ok)%bind_Ok. apply readItem_Ok in Ho.
  destruct (IH _ Hw Hout) as [Hin Hnin]. injection Heq as <-. destruct o as [r|].
  - symmetry in Ho. destruct (iw_key _ Hw _ _ Ho) as [Hkey _]. unfold item_key in Hkey.
    assert (it_seq r = s) as -> by congruence. split.
    + intros x Hx. destruct (decide (x = s)) as [->|]; [by rewrite lookup_insert_eq|].
      rewrite lookup_insert_ne by done. apply Hin. by apply elem_of_cons in Hx as [?|?].
    + intros x Hx. apply not_elem_of_cons in Hx as [Hne Hx]. rewrite lookup_insert_ne by done. auto.
  - split.
    + intros x Hx. destruct (decide (x ∈ seqs)); [auto|]. apply elem_of_cons in Hx as [->|?]; [|done].
      rewrite Hnin by done. done.
    + intros x Hx. apply not_elem_of_cons in Hx as [Hne Hx]. auto.
Qed.

(** What an accepted acknowledgement committed. *)
Record acked (env : TxEnv) (req : AckRequest) (db : InboxDB) (resp : AckResponse) (db' : InboxDB)
    (st : PlayerInboxStream) : Prop := {
  ak_stream : ib_stream db !! (RowShard (aq_player req), aq_player req, aq_domain req) = Some st;
  ak_verdict : as_fence resp = DecideFence (aq_owner_epoch req) (st_fence_epoch st) (aq_owner_epoch req);
  ak_allowed : FenceAllows (as_fence resp) = true;
  ak_tip : as_tip resp = 0;
  ak_known : Forall known_outcome (aq_decisions req);
  ak_results : as_results resp = (fun rep => ack_answer (ib_item db !! row_key (aq_player req) (aq_domain req) (rp_seq rep)) rep) <$> aq_decisions req;
  ak_rows : forall rep, rep ∈ aq_decisions req ->
    ib_item db' !! row_key (aq_player req) (aq_domain req) (rp_seq rep) =
    ack_row (aq_owner_epoch req) (tx_now env) rep <$> ib_item db !! row_key (aq_player req) (aq_domain req) (rp_seq rep);
  ak_others : forall k, (forall rep, rep ∈ aq_decisions req -> k <> row_key (aq_player req) (aq_domain req) (rp_seq rep)) ->
    ib_item db' !! k = ib_item db !! k;
  ak_stream' : exists st', ib_stream db' !! (RowShard (aq_player req), aq_player req, aq_domain req) = Some st' /\
    st_fence_epoch st' = aq_owner_epoch req /\ st_next_seq st' = st_next_seq st }.

(** The write of the stream at the end of [Ack]: the count follows the rows, the
    fence follows the request. *)
Lemma ack_stream_write v open n fence epoch :
  0 <= n <= open -> (FenceWrites v = false -> fence = epoch) ->
  exists write underflow, ackStreamUpdate v open n fence epoch = (write, open - n, epoch, underflow) /\
    (write = false -> n = 0 /\ fence = epoch).
Proof.
  intros Hn Hf. unfold ackStreamUpdate, subtractOpenCount.
  destruct ((n =? 0) && negb (FenceWrites v)) eqn:Hc.
  - apply andb_true_iff in Hc as [Hn0 Hw]. zbool. pose proof (Hf Hw) as ->.
    exists false, false. split; [|done]. by replace (open - n) with open by lia.
  - rewrite (proj2 (Z.ltb_ge open n)) by lia. exists true, false. split; [|done].
    destruct (FenceWrites v); [done|]. by rewrite Hf.
Qed.

Section ack.
Context (reg : Registry).

Lemma ack_tx_Ok env req original db resp db' :
  inbox_wf reg db -> 0 <= aq_owner_epoch req -> validateAckReports (aq_decisions req) AckMaxDecisions = true ->
  ack_tx env req original db = Ok (resp, db') ->
  (db' = db /\ FenceAllows (as_fence resp) = false /\
     (forall a, a ∈ as_results resp -> ai_result a = ACK_UNKNOWN_SEQ)) \/
  (keeps reg db db' /\ exists st, acked env req db resp db' st).
Proof.
  intros Hwf He (Hnd & Hko & Hlen & _)%validateAckReports_spec. unfold ack_tx.
  intros (u1 & _ & (u2 & _ & (ost & Hst & H)%bind_Ok)%bind_Ok)%bind_Ok.
  apply lockStream_Ok in Hst. destruct ost as [st|].
  2: { left. simplify_eq/=. split_and!; [done..|]. by intros a (r & -> & _)%list_elem_of_fmap. }
  symmetry in Hst. destruct (negb (FenceAllows _)) eqn:Hal; [left; simplify_eq/=; zbool; split_and!; [done..|set_solver]|].
  right. zbool. apply bind_Ok in H as (rows & Hrows & H). pose proof Hwf as [Hi Ho Hq].
  apply readItemsBySeq_Ok in Hrows as [Hrows _]; [|done].
  apply bind_Ok in H as ([[results n] db1] & Hloop & H).
  assert (forall rep, rep ∈ aq_decisions req -> rows !! rp_seq rep = ib_item db !! row_key (aq_player req) (aq_domain req) (rp_seq rep)) as Hrow
    by (intros rep Hrep; apply Hrows, list_elem_of_fmap; eauto).
  destruct (ack_loop _ _ _ _ _ _ _ _ _ _ _ _ _ Hloop Hi Hnd Hko Hrow) as (Hres & Hn & Hw1 & Hev1 & Hs1 & Hpc & Hin & Hout);
    [lia|unfold AckMaxDecisions, u32_mod in *; lia|]. simpl in Hres, Hn.
  destruct (iw_stream _ Hi _ _ Hst) as (_ & _ & Hf0 & _ & Hu).
  pose proof (FenceAllows_true _ _ _ Hf0 Hal) as (_ & Hge & _ & Hnw).
  pose proof (Hpc (RowShard (aq_player req), aq_player req, aq_domain req)) as Hpk.
  rewrite bool_decide_eq_true_2 in Hpk by done. rewrite <- (Ho _ _ Hst) in Hpk.
  pose proof (count_nonneg (pend_in (RowShard (aq_player req), aq_player req, aq_domain req)) (ib_item db1)) as Hcn.
  pose proof (ack_ended_range rows (aq_decisions req)) as Hnr.
  destruct (ack_stream_write (DecideFence (aq_owner_epoch req) (st_fence_epoch st) (aq_owner_epoch req)) (st_open_count st) n (st_fence_epoch st) (aq_owner_epoch req))
    as (write & uf & Hwr & Hsame); [unfold pending_count in Hpk; lia|done|].
  rewrite Hwr in H. apply bind_Ok in H as (db2 & Hupd & Hfin). injection Hfin as <- <-.
  destruct (update_stream_or_same db1 _ st _ _ _ ltac:(by rewrite Hs1) Hupd) as (st' & Hs2 & Hit & Hau & Hop & Hfe & Hne & Hke).
  { intros ->. destruct (Hsame eq_refl). simpl. split_and!; [lia|done..]. }
  simpl in Hop, Hfe, Hne.
  assert (stream_evolves st st') as Hse by (constructor; [done|lia|lia]). split.
  - apply (restore_stream reg db db1 db2 (RowShard (aq_player req), aq_player req, aq_domain req) st st');
      try done; [by rewrite Hne|lia|lia|].
    intros k Hk. rewrite Hpc, bool_decide_eq_false_2 by done. lia.
  - exists st. constructor; simpl; try done.
    + rewrite Hres. apply list_fmap_ext. intros i rep Hrep. apply list_elem_of_lookup_2 in Hrep. by rewrite Hrow.
    + intros rep Hrep. rewrite Hit, Hin by done. by rewrite Hrow.
    + intros k Hk. rewrite Hit. auto.
    + exists st'. by rewrite Hs2, lookup_insert_eq.
Qed.
End ack.
