(* ===== verification/InboxSteps.v ===== *)
(** * Player inbox: operator writes and notification bookkeeping, and runs

    That these keep the invariant too; then the step relation over all operations. *)
From stdpp Require Import base list gmap strings sorting relations.
From Stdlib Require Import ZArith Lia.
From S2P Require Import Prelude RoleRoute InboxRow InboxDecide InboxRegistry InboxStore InboxAdmin InboxInv InboxOps InboxConsume.
Local Open Scope Z_scope.
Local Open Scope go_scope.

#[local] Abbreviation skey p := (RowShard (vp_player p), vp_player p, vp_domain p).

Lemma void_key_stream p r :
  item_key r = void_key p -> (it_shard r, it_player r, it_domain r) = skey p.
Proof. unfold item_key, void_key. congruence. Qed.

Lemma admin_void_ok reason now r :
  it_state r = ITEM_PENDING -> row_ok r -> it_domain r <> DOMAIN_SCENE_BATTLE_SETTLEMENT ->
  row_ok (admin_void reason now r).
Proof. intros Hp [] Hd. constructor; simpl; try done. right. by right. Qed.

Lemma admin_void_evolves reason now r : it_state r = ITEM_PENDING -> row_evolves r (admin_void reason now r).
Proof. intros Hp. by constructor; rewrite ?Hp. Qed.

Lemma attach_directive_ok reason now r : row_ok r -> row_ok (attach_directive reason now r).
Proof. intros []. by constructor. Qed.

Lemma attach_directive_evolves reason now r : it_state r = ITEM_PENDING -> row_evolves r (attach_directive reason now r).
Proof. intros Hp. by constructor; rewrite ?Hp. Qed.

Lemma drop_open_keeps reg db p r st now db2 :
  inbox_wf reg db -> ib_stream db !! skey p = Some st -> ib_item db !! void_key p = Some r ->
  it_state r = ITEM_PENDING -> vp_domain p <> DOMAIN_SCENE_BATTLE_SETTLEMENT ->
  update_stream (with_item db (<[void_key p := admin_void (vp_reason p) now r]> (ib_item db))) (skey p) (drop_open st now) = Ok db2 ->
  keeps reg db db2 /\ ib_item db2 = <[void_key p := admin_void (vp_reason p) now r]> (ib_item db) /\
  ib_audit db2 = ib_audit db.
Proof.
  intros Hwf Hst Hr Hp Hd (st0 & Hst0 & _ & ->)%update_stream_Ok. simpl in Hst0. assert (st0 = st) as -> by congruence.
  split; [|done]. pose proof Hwf as [Hi Ho Hq]. destruct (iw_key _ Hi _ _ Hr) as [Hkey Hok].
  pose proof (void_key_stream _ _ Hkey) as Hsk.
  assert (pend_in (skey p) r = true) as Hpin by by apply pend_in_iff.
  pose proof (count_pos _ _ _ _ Hr Hpin) as Hpos. fold (pending_count db (skey p)) in Hpos.
  rewrite <- (Ho _ _ Hst) in Hpos.
  assert (forall k, pending_count (with_item db (<[void_key p := admin_void (vp_reason p) now r]> (ib_item db))) k =
    pending_count db k - b2z (pend_in k r)) as Hpc.
  { intros k. rewrite (set_item_pending_count _ _ r) by done.
    assert (pend_in k (admin_void (vp_reason p) now r) = false) as ->; [|simpl; lia].
    destruct (pend_in k _) eqn:Hx; [|done]. by apply pend_in_iff in Hx as [_ ?]. }
  apply (restore_stream reg db (with_item db (<[void_key p := admin_void (vp_reason p) now r]> (ib_item db))) _ (skey p) st (drop_open st now st)); try done.
  - apply (set_item_items_wf _ _ r); [done|done|done|]. apply admin_void_ok; [done|done|].
    unfold void_key, item_key in Hkey. congruence.
  - apply (set_item_evolves _ _ r); [done|by apply admin_void_evolves].
  - by apply (iw_stream _ Hi _ _ Hst).
  - simpl. unfold subtractOpenCount. rewrite (proj2 (Z.ltb_ge _ _)) by lia. simpl.
    rewrite Hpc, Hpin, <- (Ho _ _ Hst). done.
  - simpl. unfold subtractOpenCount. rewrite (proj2 (Z.ltb_ge _ _)) by lia. simpl. lia.
  - intros k Hne. rewrite Hpc, pend_in_other; [simpl; lia|congruence].
Qed.

Lemma attach_keeps reg db p r now :
  inbox_wf reg db -> ib_item db !! void_key p = Some r -> it_state r = ITEM_PENDING ->
  keeps reg db (with_item db (<[void_key p := attach_directive (vp_reason p) now r]> (ib_item db))).
Proof.
  intros [Hi Ho Hq] Hr Hp. split; [constructor|].
  - apply (set_item_items_wf _ _ r); [done|done|done|]. apply attach_directive_ok. by apply (iw_key _ Hi _ _ Hr).
  - intros k st Hst. rewrite (set_item_pending_count _ _ r) by done. rewrite (Ho _ _ Hst).
    assert (pend_in k (attach_directive (vp_reason p) now r) = pend_in k r) as -> by done. lia.
  - exact Hq.
  - apply (set_item_evolves _ _ r); [done|by apply attach_directive_evolves].
Qed.

Lemma audit_keeps reg db r a db' :
  inbox_wf reg db -> insertAuditForItem db r a = Ok db' -> keeps reg db db' /\ ib_item db' = ib_item db /\ ib_stream db' = ib_stream db.
Proof.
  intros Hwf (row & audit & _ & -> & Hsub & _)%insertAuditForItem_Ok. by split; [apply keeps_audit|].
Qed.

(** ** Void *)

(** What a normal void did to the row it names. *)
Inductive voided (p : VoidParams) (now : Z) (db : InboxDB) (resp : VoidResponse) (db' : InboxDB) : Prop :=
  | voided_refused : same_tables db db' -> vr_tip resp <> 0 -> voided p now db resp db'
  | voided_direct r : ib_item db !! void_key p = Some r -> it_state r = ITEM_PENDING -> it_delivery_count r = 0 ->
      ib_item db' = <[void_key p := admin_void (vp_reason p) now r]> (ib_item db) ->
      vr_tip resp = 0 -> vr_state resp = ITEM_VOIDED -> vr_requested resp = false -> voided p now db resp db'
  | voided_directive r : ib_item db !! void_key p = Some r -> it_state r = ITEM_PENDING -> it_delivery_count r <> 0 ->
      it_directive r <> DIRECTIVE_VOID ->
      ib_item db' = <[void_key p := attach_directive (vp_reason p) now r]> (ib_item db) ->
      vr_tip resp = 0 -> vr_state resp = ITEM_PENDING -> vr_requested resp = true -> voided p now db resp db'
  | voided_already r : ib_item db !! void_key p = Some r -> it_state r = ITEM_PENDING -> it_delivery_count r <> 0 ->
      it_directive r = DIRECTIVE_VOID -> ib_item db' = ib_item db ->
      vr_tip resp = 0 -> vr_state resp = ITEM_PENDING -> vr_requested resp = true -> voided p now db resp db'.

Lemma void_tx_Ok reg env p original db resp db' :
  inbox_wf reg db -> vp_domain p <> DOMAIN_SCENE_BATTLE_SETTLEMENT ->
  void_tx env p original db = Ok (resp, db') -> keeps reg db db' /\ voided p (tx_now env) db resp db'.
Proof.
  intros Hwf Hd. unfold void_tx. intros (u1 & _ & (ost & Hst & H)%bind_Ok)%bind_Ok.
  apply lockStream_Ok in Hst. destruct ost as [st|].
  2: { injection H as <- <-. split; [by apply keeps_refl|by apply voided_refused]. }
  apply bind_Ok in H as (row & Hrow & (u2 & _ & H)%bind_Ok). apply readItem_Ok in Hrow. fold (void_key p) in Hrow.
  destruct row as [r|]; [|injection H as <- <-; split; [by apply keeps_refl|by apply voided_refused]].
  symmetry in Hst, Hrow. simpl in H.
  destruct (negb (it_state r =? ITEM_PENDING)) eqn:Hp.
  { injection H as <- <-. split; [by apply keeps_refl|by apply voided_refused]. }
  zbool. destruct (it_delivery_count r =? 0) eqn:Hdc; zbool.
  - apply bind_Ok in H as (db1 & Hdir & (db2 & Haud & Hfin)%bind_Ok). injection Hfin as <- <-.
    unfold void_direct in Hdir. apply bind_Ok in Hdir as (db0 & Hupd & Hstr).
    apply update_item_Ok in Hupd as (r0 & Hr0 & _ & _ & ->). assert (r0 = r) as -> by congruence.
    destruct (drop_open_keeps reg _ _ _ _ _ _ Hwf Hst Hrow Hp Hd Hstr) as (Hk1 & Hit1 & _).
    destruct (audit_keeps reg _ _ _ _ (proj1 Hk1) Haud) as (Hk2 & Hit2 & _).
    split; [by eapply keeps_trans|]. eapply voided_direct; [done..| |done|done|done]. by rewrite Hit2.
  - destruct (it_directive r =? DIRECTIVE_VOID) eqn:Hv; zbool.
    + apply bind_Ok in H as (db1 & Haud & Hfin). injection Hfin as <- <-.
      destruct (audit_keeps reg _ _ _ _ Hwf Haud) as (Hk & Hit & _). split; [done|].
      by eapply voided_already.
    + apply bind_Ok in H as (db1 & Hupd & (db2 & Haud & Hfin)%bind_Ok). injection Hfin as <- <-.
      apply update_item_Ok in Hupd as (r0 & Hr0 & _ & _ & ->). assert (r0 = r) as -> by congruence.
      pose proof (attach_keeps reg db p r (tx_now env) Hwf Hrow Hp) as Hk1.
      destruct (audit_keeps reg _ _ _ _ (proj1 Hk1) Haud) as (Hk2 & Hit2 & _).
      split; [by eapply keeps_trans|]. eapply voided_directive; [done..| |done|done|done]. by rewrite Hit2.
Qed.

(** ** Forced void *)
Lemma force_void_tx_Ok reg env p ledger found original db resp db' :
  inbox_wf reg db -> vp_domain p <> DOMAIN_SCENE_BATTLE_SETTLEMENT ->
  force_void_tx env p ledger found original db = Ok (resp, db') ->
  keeps reg db db' /\
  (same_tables db db' /\ vr_tip resp <> 0 \/
   exists r, ib_item db !! void_key p = Some r /\ it_state r = ITEM_PENDING /\
     fp_verdict (proveNeverExecuted r ledger found) = forceVoidProven /\
     ib_item db' = <[void_key p := admin_void (vp_reason p) (tx_now env) r]> (ib_item db) /\
     vr_tip resp = 0 /\ vr_verdict resp = forceVoidProven).
Proof.
  intros Hwf Hd. unfold force_void_tx. intros (u1 & _ & (ost & Hst & H)%bind_Ok)%bind_Ok.
  apply lockStream_Ok in Hst. destruct ost as [st|].
  2: { injection H as <- <-. split; [by apply keeps_refl|by left]. }
  apply bind_Ok in H as (row & Hrow & (u2 & _ & H)%bind_Ok). apply readItem_Ok in Hrow. fold (void_key p) in Hrow.
  destruct row as [r|]; [|injection H as <- <-; split; [by apply keeps_refl|by left]].
  symmetry in Hst, Hrow. unfold decideForceVoidLocked in H.
  destruct (negb (it_state r =? ITEM_PENDING)) eqn:Hp.
  { injection H as <- <-. split; [by apply keeps_refl|by left]. }
  destruct (negb (bool_decide _)) eqn:Hv.
  { injection H as <- <-. split; [by apply keeps_refl|by left]. }
  zbool. apply bind_Ok in H as (db0 & Hupd & (db1 & Hstr & (db2 & Haud & Hfin)%bind_Ok)%bind_Ok).
  injection Hfin as <- <-. apply update_item_Ok in Hupd as (r0 & Hr0 & _ & _ & ->).
  assert (r0 = r) as -> by congruence.
  destruct (drop_open_keeps reg _ _ _ _ _ _ Hwf Hst Hrow Hp Hd Hstr) as (Hk1 & Hit1 & _).
  destruct (audit_keeps reg _ _ _ _ (proj1 Hk1) Haud) as (Hk2 & Hit2 & _).
  split; [by eapply keeps_trans|]. right. exists r. split_and!; try done. by rewrite Hit2.
Qed.

Section void.
Context (reg : Registry).

(** The request as far as the transaction: battles are refused before it. *)
Lemma Void_cases env p ledgers db resp db' :
  Void reg env p ledgers db = Ok (resp, db') ->
  (db' = db /\ vr_tip resp <> 0) \/
  (vp_domain p <> DOMAIN_SCENE_BATTLE_SETTLEMENT /\
   ((vp_mode p = VOID_MODE_NORMAL /\ withPlayerTx env db (vp_player p) (void_tx env p) = Ok (resp, db')) \/
    exists read ledger found, vp_mode p = VOID_MODE_FORCE_MISMATCH /\ ledgers = Some read /\
      read (vp_player p) = Ok (ledger, found) /\
      withPlayerTx env db (vp_player p) (force_void_tx env p ledger found) = Ok (resp, db'))).
Proof.
  unfold Void. destruct (vp_domain p =? _) eqn:Hd; [intros [= <- <-]; by left|].
  destruct (_ || _) eqn:Hc; [intros [= <- <-]; by left|].
  destruct (negb (_ =? 0)) eqn:Ht1; [intros [= <- <-]; left; zbool; done|].
  destruct (negb (ValidateText (vp_note p) _ false =? 0)) eqn:Ht2; [intros [= <- <-]; left; zbool; done|].
  zbool. destruct (vp_mode p =? VOID_MODE_FORCE_MISMATCH) eqn:Hm; zbool.
  - unfold forceVoid. destruct (negb (ValidateText (vp_note p) _ true =? 0)) eqn:Ht3; [intros [= <- <-]; left; zbool; done|].
    destruct ledgers as [read|]; [|done]. intros ([ledger found] & Hl & Htx)%bind_Ok. right. split; [done|]. right.
    by exists read, ledger, found.
  - intros Htx. right. split; [done|]. left. split; [|done].
    unfold void_mode_known in *. zbool. destruct_or?; zbool; done.
Qed.

Lemma Void_keeps env p ledgers db resp db' :
  inbox_wf reg db -> Void reg env p ledgers db = Ok (resp, db') -> keeps reg db db'.
Proof.
  intros Hwf [[-> _]|(Hd & [[_ H]|(read & ledger & found & _ & _ & _ & H)])]%Void_cases; [by apply keeps_refl|..];
    (eapply withPlayerTx_keeps; [done|exact H|]; intros original roles Hwf' _ Htx).
  - by apply (void_tx_Ok reg _ _ _ _ _ _ Hwf' Hd) in Htx as [? _].
  - by apply (force_void_tx_Ok reg _ _ _ _ _ _ _ _ Hwf' Hd) in Htx as [? _].
Qed.

(** ** Notifications *)
Lemma cas_notify_keeps db player domain next due changed db' :
  inbox_wf reg db -> cas_notify db player domain next due = (changed, db') ->
  keeps reg db db' /\ ib_item db' = ib_item db /\ ib_audit db' = ib_audit db /\ (changed = false -> db' = db).
Proof.
  intros Hwf. unfold cas_notify.
  destruct (ib_stream db !! _) as [st|] eqn:Hst; [|intros [= <- <-]; by split_and!; [apply keeps_refl|..]].
  destruct (_ && _) eqn:Hc; intros [= <- <-]; [|by split_and!; [apply keeps_refl|..]].
  split_and!; try done. pose proof Hwf as [Hi Ho Hq].
  apply (restore_stream reg db db _ (RowShard player, player, domain) st (set_notify due st)); try done.
  - by apply (iw_stream _ Hi _ _ Hst).
  - simpl. by apply Ho.
Qed.

Lemma DeferNotifyDue_keeps env player domain next due db changed db' :
  inbox_wf reg db -> DeferNotifyDue env player domain next due db = Ok (changed, db') -> keeps reg db db'.
Proof.
  intros Hwf H. eapply withPlayerTx_keeps; [done|exact H|]. intros original roles Hwf' _ (u & _ & [= Hc])%bind_Ok.
  by eapply cas_notify_keeps.
Qed.

Lemma committed_keeps {A} db (r : res (A * InboxDB)) :
  inbox_wf reg db -> (forall a db', r = Ok (a, db') -> keeps reg db db') -> keeps reg db (committed db r).
Proof. intros Hwf Hr. destruct r as [[a db']|]; simpl; [eauto|by apply keeps_refl]. Qed.

Lemma notifyAndClear_keeps env answer player domain next db :
  inbox_wf reg db -> keeps reg db (notifyAndClear env answer player domain next db).2.
Proof.
  intros Hwf. destruct answer as [r|]; simpl; [|by apply keeps_refl].
  destruct (negb (Settled r)); simpl; [by apply keeps_refl|].
  apply committed_keeps; [done|]. intros. by eapply DeferNotifyDue_keeps.
Qed.

Lemma ResendNotify_keeps env answer d db : inbox_wf reg db -> keeps reg db (ResendNotify env answer d db).2.
Proof.
  intros Hwf. unfold ResendNotify.
  pose proof (notifyAndClear_keeps env answer (nd_player d) (nd_domain d) (nd_next_seq d) db Hwf) as Hk.
  destruct (notifyAndClear _ _ _ _ _ _) as [r db1]. simpl in Hk.
  destruct (Settled r); [done|]. destruct (notifyGivesUp _ _ _); simpl;
    (eapply keeps_trans; [exact Hk|]); (apply committed_keeps; [apply Hk|]); intros; by eapply DeferNotifyDue_keeps; [apply Hk|].
Qed.
End void.

(** * Player inbox: runs

    Every way the tables change, as a step relation: the four operations, the
    reminder bookkeeping, the sweep, and whatever other services do to the role
    schema between transactions. A run is a sequence of steps inside the integer
    widths; it keeps the invariant and only evolves rows and streams. *)

Section steps.
Context (sha256 : bytes -> bytes) (unmarshal : string -> bytes -> option (Payload * bool)).
Context (PlayerExists : Z -> res bool) (reg : Registry) (allowed : gset Z).

Inductive step : InboxDB -> InboxDB -> Prop :=
  | step_enqueue env p hook db r db' : 0 <= tx_now2 env ->
      enqueue sha256 unmarshal PlayerExists reg allowed env p hook db = Ok (r, db') -> step db db'
  | step_fetch env req db resp db' : fetch_req_ok req -> Fetch reg env req db = Ok (resp, db') -> step db db'
  | step_ack env req db resp db' : 0 <= aq_owner_epoch req -> Ack reg env req db = Ok (resp, db') -> step db db'
  | step_void env p ledgers db resp db' : Void reg env p ledgers db = Ok (resp, db') -> step db db'
  | step_remind env answer player domain next db :
      step db (notifyAndClear env answer player domain next db).2
  | step_resend env answer d db : step db (ResendNotify env answer d db).2
  | step_sweep err cutoff budget db n db' : SweepTerminal err cutoff budget db = Ok (n, db') -> step db db'
  | step_elsewhere db roles admission :
      step db (mkInboxDB roles admission (ib_stream db) (ib_item db) (ib_audit db)).

Definition run : relation InboxDB := rtc (fun a b => room a /\ step a b).

Lemma fetch_answer env req db resp db' :
  Fetch reg env req db = Ok (resp, db') ->
  (db' = db /\ fs_items resp = [] /\ FenceAllows (fs_fence resp) = false) \/
  withPlayerTx env db (fq_player req) (fetch_tx env req) = Ok (resp, db').
Proof.
  unfold Fetch. destruct (_ || (fq_player req =? 0)); [intros [= <- <-]; by left|].
  destruct (fq_owner_epoch req =? 0); [intros [= <- <-]; by left|]. destruct (_ || _); [done|]. by right.
Qed.

Lemma ack_answered env req db resp db' :
  Ack reg env req db = Ok (resp, db') ->
  (db' = db /\ as_results resp = [] /\ FenceAllows (as_fence resp) = false) \/
  (validateAckReports (aq_decisions req) AckMaxDecisions = true /\
   withPlayerTx env db (aq_player req) (ack_tx env req) = Ok (resp, db')).
Proof.
  unfold Ack. destruct (_ || negb (validateAckReports _ _)) eqn:Hc; [intros [= <- <-]; by left|].
  destruct (aq_owner_epoch req =? 0); [intros [= <- <-]; by left|]. destruct (_ || negb (admission_epoch _ =? _)); [done|].
  intros Htx. right. split; [|done]. by apply orb_false_iff in Hc as [_ ?%negb_false_iff].
Qed.

Lemma step_keeps a b : reg_ok reg -> inbox_wf reg a -> room a -> step a b -> keeps reg a b.
Proof.
  intros Hreg Hwf Hroom Hs. destruct Hs as [env p hook db r db' Hnow H|env req db resp db' Hreq H
    |env req db resp db' He H|env p ledgers db resp db' H|env answer player domain next db|env answer d db
    |err cutoff budget db n db' H|db roles admission].
  - by eapply enqueue_keeps.
  - apply fetch_answer in H as [(-> & _)|H]; [by apply keeps_refl|].
    eapply withPlayerTx_keeps; [done|exact H|]. intros original roles Hwf' _ Htx.
    apply (fetch_tx_Ok reg) in Htx as [(-> & _)|[? _]]; done.
  - apply ack_answered in H as [(-> & _)|[Hv H]]; [by apply keeps_refl|].
    eapply withPlayerTx_keeps; [done|exact H|]. intros original roles Hwf' _ Htx.
    apply (ack_tx_Ok reg) in Htx as [(-> & _)|[? _]]; done.
  - by eapply Void_keeps.
  - by apply notifyAndClear_keeps.
  - by apply ResendNotify_keeps.
  - unfold SweepTerminal in H. destruct err; simplify_eq. by apply keeps_refl.
  - split; [eapply same_tables_wf; [|exact Hwf]; done|by apply same_tables_evolves].
Qed.

Lemma run_keeps a b : reg_ok reg -> inbox_wf reg a -> run a b -> keeps reg a b.
Proof.
  intros Hreg Hwf. induction 1 as [a|a b c [Hroom Hs] _ IH]; [by apply keeps_refl|].
  pose proof (step_keeps _ _ Hreg Hwf Hroom Hs) as Hk. eapply keeps_trans; [exact Hk|]. by apply IH, Hk.
Qed.
End steps.

(** The tables as [-migrate] creates them. *)
Definition fresh (roles : RoleDB) (admission : gmap (Z * string) AdmissionRow) : InboxDB :=
  mkInboxDB roles admission ∅ ∅ ∅.

Lemma fresh_wf reg roles admission : inbox_wf reg (fresh roles admission).
Proof. constructor; [constructor|..]; intros *; simpl; rewrite ?lookup_empty; done. Qed.
