(* ===== verification/InboxProps.v ===== *)
(** * Player inbox: what the store guarantees

    The properties of the whole store, over any run of its operations by any
    number of producers, scenes and operators. *)

From stdpp Require Import base list gmap strings relations sorting.
From Stdlib Require Import ZArith Lia.
From S2P Require Import Prelude RoleRoute InboxRow InboxDecide InboxRegistry InboxStore InboxAdmin InboxInv.
From S2P Require Import InboxOps InboxConsume InboxSteps.
Local Open Scope Z_scope.
Local Open Scope go_scope.

(** ** A concrete deployment for the witnesses *)
Definition sample_roles : RoleDB :=
  mkRoleDB (Some 1) {[(7, 7) := mkRoute (Some 3) 1 None]} ∅ {[7 := mkRole "acct" 1 0]}.
Definition sample_admission : RoleAdmissionIdentity :=
  mkAdmission 7 "01234567-89ab-cdef-0123-456789abcdef" 1 1 5 "scene-1" 1 1 1 1.
Definition sample_db : InboxDB :=
  fresh sample_roles {[(7, "01234567-89ab-cdef-0123-456789abcdef"%string) := mkAdmissionRow 1 0 (Some sample_admission)]}.
Definition sample_env (now : Z) : TxEnv := mkEnv sample_roles 1000 now now.
Definition sample_now : Z := 1700000000000.
Definition sample_sha (b : bytes) : bytes := take 32 (b ++ replicate 32 0).
Definition sample_unmarshal (m : string) (b : bytes) : option (Payload * bool) :=
  if bool_decide (m = "player_inbox.GmCurrencyGainPayload"%string) then Some (GmCurrencyGainPayload 0, false) else None.
Definition sample_exists (_ : Z) : res bool := Ok true.
Definition sample_allowed : gset Z := {[MSG_GM_BLOCK_CURRENCY_GAIN]}.
Definition sample_params (request : Z) (payload : bytes) : EnqueueParams :=
  mkParams 7 MSG_GM_BLOCK_CURRENCY_GAIN PRODUCER_GM request sample_now payload "gm" "why" None.

Definition sample_enqueue (now request : Z) (payload : bytes) (db : InboxDB) : res (EnqueueResult * InboxDB) :=
  enqueue sample_sha sample_unmarshal sample_exists the_registry sample_allowed (sample_env now)
    (sample_params request payload) None db.
Definition sample_fetch (epoch : Z) : FetchRequest :=
  mkFetch 7 DOMAIN_SCENE_GM_SANCTION epoch 0 0
    (Some (mkAdmission 7 "01234567-89ab-cdef-0123-456789abcdef" 1 1 epoch "scene-1" 1 1 1 1)).
Definition sample_ack (seq request outcome : Z) : AckRequest :=
  mkAckRequest 7 DOMAIN_SCENE_GM_SANCTION 5 [mkReport seq outcome 0 request] (Some sample_admission).

Definition db_of {A} (r : res (A * InboxDB)) : InboxDB := match r with Ok (_, db) => db | Err _ => sample_db end.
(** One item, then delivered, then applied. *)
Definition sample_db1 : InboxDB := db_of (sample_enqueue sample_now 100 [] sample_db).
Definition sample_seq : Z := sample_now * 4096.
Definition sample_db2 : InboxDB := db_of (Fetch the_registry (sample_env (sample_now + 5)) (sample_fetch 5) sample_db1).
Definition sample_db3 : InboxDB :=
  db_of (Ack the_registry (sample_env (sample_now + 9)) (sample_ack sample_seq 100 OUTCOME_APPLIED) sample_db2).

Lemma the_registry_ok : reg_ok the_registry.
Proof.
  assert (map_Forall (fun _ spec => 0 < ds_max_pending spec < u32_mod) (rg_domains the_registry)) as H.
  { apply (bool_decide_unpack _). vm_compute. exact I. }
  intros d spec Hd. by apply (H d spec).
Qed.

Section props.
Context (sha256 : bytes -> bytes) (unmarshal : string -> bytes -> option (Payload * bool)).
Context (PlayerExists : Z -> res bool) (reg : Registry) (allowed : gset Z).

Local Abbreviation Enq := (enqueue sha256 unmarshal PlayerExists reg allowed).
Local Abbreviation Run := (run sha256 unmarshal PlayerExists reg allowed).
Local Abbreviation digest p := (ContentSHA256 sha256 (ep_type p) (ep_issued_at_ms p) (ep_payload p)).
Local Abbreviation stream_of player domain := (RowShard player%Z, player%Z, domain%Z).

(** C24: the invariant of the inbox. After any run from the freshly created
    tables, whatever interleaving of producers, scenes, operators, reminders and
    outside changes of the role schema: every row sits under its own key in the
    shard of its player, below its stream's next number, the only row of its
    (player, producer, request); a pending row has no finalizer, a consumer's
    end was delivered and an administrative end is VOIDED; each stream's
    [open_count] is exactly the number of its PENDING rows and at most the
    domain's quota. *)
Theorem inbox_invariant roles admission db :
  reg_ok reg -> Run (fresh roles admission) db -> inbox_wf reg db.
Proof. intros Hreg Hrun. by eapply run_keeps in Hrun as [? _]; [|done|apply fresh_wf]. Qed.

(** C19: a terminal state never flips (IB-4). A row that is APPLIED, REJECTED,
    VOIDED or SETTLED_UNKNOWN is the identical row, in every column, after any
    further run. *)
Theorem terminal_never_flips a b k r :
  reg_ok reg -> inbox_wf reg a -> Run a b ->
  ib_item a !! k = Some r -> IsTerminalState (it_state r) = true -> ib_item b !! k = Some r.
Proof.
  intros Hreg Hwf Hrun Hk Ht. destruct (run_keeps _ _ _ _ _ _ _ Hreg Hwf Hrun) as [_ [Hi _ _]].
  destruct (Hi _ _ Hk) as (r' & Hr' & [_ Hev _]). by rewrite <- (Hev Ht).
Qed.

(** The created case of an enqueue that committed. *)
Lemma enqueue_created env p hook a r a' :
  0 <= tx_now2 env -> inbox_wf reg a -> Enq env p hook a = Ok (r, a') -> er_created r = true ->
  exists domain spec original a0 st audit, same_tables a a0 /\ inbox_wf reg a0 /\ Domain reg domain = Some spec /\
    enqueue_checks unmarshal PlayerExists reg allowed p = Ok (inr (domain, spec)) /\
    created sha256 env p domain spec original a0 r a' st (er_seq r) audit.
Proof.
  intros Hnow Hwf. unfold enqueue. intros (ch & Hch & H)%bind_Ok Hc.
  destruct ch as [ans|[domain spec]].
  { injection H as -> ->. exfalso. unfold enqueue_checks in Hch. revert Hch.
    repeat first [case_match; simpl; try (intros [= <-]; done); try done | destruct (PlayerExists _) as [[]|]; simpl]; try (intros [= <-]; done). }
  pose proof (enqueue_checks_inr _ _ _ _ _ _ _ Hch) as Hd.
  apply withPlayerTx_Ok in H as (original & roles & _ & _ & Htx).
  apply enqueue_tx_Ok in Htx as [[? _]|(st & seq & audit & Hcr)]; [congruence|].
  assert (er_seq r = seq) as -> by (destruct Hcr; by subst).
  exists domain, spec, original, (with_roles a roles), st, audit. split_and!; try done.
  eapply same_tables_wf; [apply with_roles_same|done].
Qed.

Lemma created_row env p domain spec original a0 r a' st seq audit :
  created sha256 env p domain spec original a0 r a' st seq audit ->
  let row := new_item p domain seq (tx_now2 env) (digest p) original in ib_item a' !! item_key row = Some row.
Proof. intros []. subst a'. simpl. by rewrite lookup_insert_eq. Qed.

(** A request whose row exists is answered from the row and writes nothing. *)
Lemma enqueue_replay env p hook b r b' k row domain spec :
  items_wf b -> ib_item b !! k = Some row ->
  it_player row = ep_player p -> it_producer row = ep_producer p -> it_request_id row = ep_request_id p ->
  enqueue_checks unmarshal PlayerExists reg allowed p = Ok (inr (domain, spec)) ->
  Enq env p hook b = Ok (r, b') -> r = resultForExisting row (digest p) /\ same_tables b b'.
Proof.
  intros Hw Hk Hp Hpr Hrq Hch. unfold enqueue. rewrite Hch. simpl.
  intros (original & roles & _ & _ & Htx)%withPlayerTx_Ok. unfold enqueue_tx in Htx.
  assert (exists c : bool, match ep_battle p with Some req => negb (battleOriginalMatches req original) | None => false end = c)
    as [c Hc] by eauto. rewrite Hc in Htx. destruct c; [done|].
  apply bind_Ok in Htx as (ex & Hex & (u & _ & Htx)%bind_Ok).
  rewrite <- Hp, <- Hpr, <- Hrq, (readItemByRequest_find (with_roles b roles) k row) in Hex; [|eapply same_tables_items_wf; [apply with_roles_same|done]|done].
  injection Hex as <-. injection Htx as <- <-. by split.
Qed.

(** C6: exactly one item per request (IB-2). Once a request has created an item,
    then after any further run - deliveries, the end of the item, other requests,
    a full box, an expired time window, another clock - a retry that reaches the
    transaction and commits creates nothing and writes nothing: with the same
    content it gets DUPLICATE, the original sequence number and the item's
    present state; with any other content it gets the idempotency conflict. *)
Theorem enqueue_exactly_once env p hook a r a' b env2 p2 hook2 r2 b' domain spec :
  (forall x, length (sha256 x) = 32%nat) ->
  reg_ok reg -> 0 <= tx_now2 env -> inbox_wf reg a -> room a ->
  Enq env p hook a = Ok (r, a') -> er_created r = true -> Run a' b ->
  ep_player p2 = ep_player p -> ep_producer p2 = ep_producer p -> ep_request_id p2 = ep_request_id p ->
  enqueue_checks unmarshal PlayerExists reg allowed p2 = Ok (inr (domain, spec)) ->
  Enq env2 p2 hook2 b = Ok (r2, b') ->
  same_tables b b' /\ er_created r2 = false /\
  exists k row, ib_item b !! k = Some row /\ it_seq row = er_seq r /\ it_player row = ep_player p /\
    it_producer row = ep_producer p /\ it_request_id row = ep_request_id p /\
    (digest p2 = digest p -> r2 = mkEnqueueResult 0 (er_seq r) false (it_state row)) /\
    (digest p2 <> digest p -> r2 = mkEnqueueResult ErrIdempotencyConflict 0 false ITEM_UNSPECIFIED).
Proof.
  intros Hsha Hreg Hnow Hwf Hroom Henq Hc Hrun Hpl Hpr Hrq Hch2 Henq2.
  pose proof (enqueue_keeps _ _ _ reg allowed _ _ _ _ _ _ Hreg Hnow Hwf Hroom Henq) as [Hwf' _].
  destruct (enqueue_created _ _ _ _ _ _ Hnow Hwf Henq Hc) as (dom & sp & original & a0 & st & audit & _ & _ & _ & _ & Hcr).
  pose proof (created_row _ _ _ _ _ _ _ _ _ _ _ Hcr) as Hrow. simpl in Hrow.
  destruct (run_keeps _ _ _ _ _ _ _ Hreg Hwf' Hrun) as [[Hwb _ _] [Hev _ _]].
  destruct (Hev _ _ Hrow) as (row & Hb & [Hcont _ _]).
  apply content_fields in Hcont as (_ & H1 & _ & Hseq & H2 & H3 & _ & Hdig & _). simpl in *.
  destruct (enqueue_replay env2 p2 hook2 b r2 b' _ row domain spec Hwb Hb) as [-> Hsame];
    [congruence..|done|done|].
  unfold resultForExisting, decideExisting. rewrite Hdig.
  assert (length (digest p) = 32%nat) as -> by apply Hsha.
  change (Z.of_nat 32 =? sha256_Size) with true. simpl.
  destruct (decide (digest p = digest p2)) as [Heq|Hne].
  - rewrite !(bool_decide_eq_true_2 (digest p = _)) by done. simpl. split_and!; [done|done|].
    eexists _, row. split; [exact Hb|]. by split_and!; try congruence.
  - rewrite !(bool_decide_eq_false_2 (digest p = _)) by done. simpl. split_and!; [done|done|].
    eexists _, row. split; [exact Hb|]. by split_and!; try congruence.
Qed.

Lemma created_stream env p domain spec original a r a' st seq audit :
  0 <= tx_now2 env -> inbox_wf reg a -> room a -> created sha256 env p domain spec original a r a' st seq audit ->
  exists st', ib_stream a' !! stream_of (ep_player p) domain = Some st' /\ st_next_seq st' = seq + 1 /\
    st_notify_due_ms st' = tx_now2 env.
Proof.
  intros Hnow Hwf Hroom Hcr.
  destruct (created_below _ reg _ _ _ _ _ _ _ _ _ _ _ Hnow Hwf Hroom Hcr) as (_ & Hseq & _).
  destruct Hcr. subst a'. simpl. rewrite lookup_insert_eq. eexists. split; [done|]. simpl.
  rewrite u64_small; [done|]. unfold is_u64. lia.
Qed.

(** Sequence numbers are never reused and follow time (IB-6). An item created
    after any run that follows the creation of another item of the same stream
    has a larger number, also when the clock has gone back, and at least the
    clock's milliseconds shifted by 12 bits. *)
Theorem seq_strictly_increasing env p hook a r a' b env2 p2 hook2 r2 b' domain spec spec2 :
  reg_ok reg -> 0 <= tx_now2 env -> 0 <= tx_now2 env2 -> inbox_wf reg a -> room a ->
  Enq env p hook a = Ok (r, a') -> er_created r = true -> Run a' b ->
  Enq env2 p2 hook2 b = Ok (r2, b') -> er_created r2 = true -> ep_player p2 = ep_player p ->
  enqueue_checks unmarshal PlayerExists reg allowed p = Ok (inr (domain, spec)) ->
  enqueue_checks unmarshal PlayerExists reg allowed p2 = Ok (inr (domain, spec2)) ->
  er_seq r < er_seq r2 /\ tx_now2 env2 * 4096 <= er_seq r2.
Proof.
  intros Hreg Hnow Hnow2 Hwf Hroom Henq Hc Hrun Henq2 Hc2 Hpl Hch Hch2.
  pose proof (enqueue_keeps _ _ _ reg allowed _ _ _ _ _ _ Hreg Hnow Hwf Hroom Henq) as [Hwf' _].
  destruct (run_keeps _ _ _ _ _ _ _ Hreg Hwf' Hrun) as [Hwb [_ Hev _]].
  destruct (enqueue_created _ _ _ _ _ _ Hnow Hwf Henq Hc) as (d1 & s1 & o1 & a0 & st1 & au1 & Hs0 & Hw0 & _ & Hch' & Hcr).
  destruct (enqueue_created _ _ _ _ _ _ Hnow2 Hwb Henq2 Hc2) as (d2 & s2 & o2 & b0 & st2 & au2 & (Hs1 & _) & _ & _ & Hch2' & Hcr2).
  assert (d1 = domain /\ d2 = domain) as [-> ->] by (split; congruence).
  assert (room a0) as Hroom0 by (destruct Hs0 as (He1 & He2 & _); unfold room; by rewrite He1, He2).
  destruct (created_stream _ _ _ _ _ _ _ _ _ _ _ Hnow Hw0 Hroom0 Hcr) as (st' & Hst' & Hnext & _).
  destruct (Hev _ _ Hst') as (stb & Hstb & [_ Hle _]).
  destruct Hcr2. rewrite <- Hs1, <- Hpl in Hstb.
  destruct (ensureStreamTx_spec b0 (ep_player p2) domain (tx_now env2)) as (_ & _ & _ & Hk).
  rewrite Hk, Hstb in cr_stream. simpl in cr_stream. injection cr_stream as <-.
  destruct (NextSeq_Ok _ _ _ Hnow2 cr_seq) as (? & ? & _). lia.
Qed.

(** A reminder for a new item cannot be lost. A reminder cleared or
    postponed with the token read before the item was created (its stream's
    next number then) changes nothing after the creation, whatever ran in
    between: the due time the creation wrote stays for the resend loop. *)
Theorem reminder_not_lost env p hook a r a' b env2 domain spec token due changed b' :
  reg_ok reg -> 0 <= tx_now2 env -> inbox_wf reg a -> room a ->
  Enq env p hook a = Ok (r, a') -> er_created r = true ->
  enqueue_checks unmarshal PlayerExists reg allowed p = Ok (inr (domain, spec)) -> token <= er_seq r ->
  Run a' b -> DeferNotifyDue env2 (ep_player p) domain token due b = Ok (changed, b') ->
  changed = false /\ same_tables b b' /\
  exists st, ib_stream a' !! stream_of (ep_player p) domain = Some st /\ st_notify_due_ms st = tx_now2 env.
Proof.
  intros Hreg Hnow Hwf Hroom Henq Hc Hch Htok Hrun Hdef.
  pose proof (enqueue_keeps _ _ _ reg allowed _ _ _ _ _ _ Hreg Hnow Hwf Hroom Henq) as [Hwf' _].
  destruct (run_keeps _ _ _ _ _ _ _ Hreg Hwf' Hrun) as [_ [_ Hev _]].
  destruct (enqueue_created _ _ _ _ _ _ Hnow Hwf Henq Hc) as (d1 & s1 & o1 & a0 & st1 & au1 & Hs0 & Hw0 & _ & Hch' & Hcr).
  assert (d1 = domain) as -> by congruence.
  assert (room a0) as Hroom0 by (destruct Hs0 as (He1 & He2 & _); unfold room; by rewrite He1, He2).
  destruct (created_stream _ _ _ _ _ _ _ _ _ _ _ Hnow Hw0 Hroom0 Hcr) as (st' & Hst' & Hnext & Hdue).
  destruct (Hev _ _ Hst') as (stb & Hstb & [_ Hle _]).
  apply withPlayerTx_Ok in Hdef as (original & roles & _ & _ & (u & _ & [= Hcas])%bind_Ok).
  unfold cas_notify in Hcas. simpl in Hcas. rewrite Hstb in Hcas.
  rewrite (proj2 (Z.eqb_neq (st_next_seq stb) token)) in Hcas by lia. simpl in Hcas. injection Hcas as <- <-.
  split_and!; [done..|]. eauto.
Qed.

(** ** The fence *)

(** A fetch or an acknowledgement of [epoch] was accepted. *)
Definition accepted (player domain epoch : Z) (a a' : InboxDB) : Prop :=
  (exists env req resp, fetch_req_ok req /\ Fetch reg env req a = Ok (resp, a') /\ FenceAllows (fs_fence resp) = true /\
     fq_player req = player /\ fq_domain req = domain /\ fq_owner_epoch req = epoch) \/
  (exists env req resp, 0 <= aq_owner_epoch req /\ Ack reg env req a = Ok (resp, a') /\ FenceAllows (as_fence resp) = true /\
     aq_player req = player /\ aq_domain req = domain /\ aq_owner_epoch req = epoch).

Lemma fetch_committed env req a resp a' :
  inbox_wf reg a -> room a -> fetch_req_ok req -> Fetch reg env req a = Ok (resp, a') -> FenceAllows (fs_fence resp) = true ->
  keeps reg a a' /\ exists st, fetched env req a resp a' st.
Proof.
  intros Hwf Hroom Hreq [(_ & _ & H)|H]%fetch_answer Hal; [congruence|].
  apply withPlayerTx_Ok in H as (original & roles & _ & _ & Htx).
  apply (fetch_tx_Ok reg) in Htx as [(_ & _ & H)|[Hk [st Hf]]]; [congruence| |by apply keeps_roles|done|done].
  split; [eapply keeps_trans; [by apply keeps_roles|exact Hk]|]. exists st. by destruct Hf.
Qed.

Lemma ack_committed env req a resp a' :
  inbox_wf reg a -> 0 <= aq_owner_epoch req -> Ack reg env req a = Ok (resp, a') -> FenceAllows (as_fence resp) = true ->
  keeps reg a a' /\ exists st, acked env req a resp a' st.
Proof.
  intros Hwf He [(_ & _ & H)|[Hv H]]%ack_answered Hal; [congruence|].
  apply withPlayerTx_Ok in H as (original & roles & _ & _ & Htx).
  apply (ack_tx_Ok reg) in Htx as [(_ & H & _)|[Hk [st Hf]]]; [congruence| |by apply keeps_roles|done|done].
  split; [eapply keeps_trans; [by apply keeps_roles|exact Hk]|]. exists st. by destruct Hf.
Qed.

Lemma accepted_fence player domain epoch a a' :
  inbox_wf reg a -> room a -> accepted player domain epoch a a' ->
  inbox_wf reg a' /\ exists st, ib_stream a' !! stream_of player domain = Some st /\ st_fence_epoch st = epoch.
Proof.
  intros Hwf Hroom [(env & req & resp & Hreq & H & Hal & <- & <- & <-)|(env & req & resp & He & H & Hal & <- & <- & <-)].
  - apply fetch_committed in H as [[Hw _] [st []]]; [|done..]. split; [done|].
    destruct ft_stream' as (st' & ? & ? & _). eauto.
  - apply ack_committed in H as [[Hw _] [st []]]; [|done..]. split; [done|].
    destruct ak_stream' as (st' & ? & ? & _). eauto.
Qed.

Lemma DecideFence_stale req fence r : req <> 0 -> req < fence -> DecideFence req fence r = FENCE_STALE.
Proof. intros Hr Hf. unfold DecideFence. by rewrite (proj2 (Z.eqb_neq _ _)), (proj2 (Z.ltb_lt _ _)). Qed.

(** C23: a scene that lost the player is locked out (IB-8). Once a request of
    owner epoch [epoch] was accepted on a stream, then after any run every fetch
    or acknowledgement with a smaller epoch that is answered from the stream is
    answered STALE: no item is delivered, no report is decided, no table
    changes. *)
Theorem stale_owner_locked_out player domain epoch a a' b :
  reg_ok reg -> inbox_wf reg a -> room a -> accepted player domain epoch a a' -> Run a' b ->
  (forall env req resp b', fq_player req = player -> fq_domain req = domain -> 0 < fq_owner_epoch req < epoch ->
     Fetch reg env req b = Ok (resp, b') ->
     same_tables b b' /\ fs_items resp = [] /\ (fs_tip resp = ErrInvalidParameter \/ fs_fence resp = FENCE_STALE)) /\
  (forall env req resp b', aq_player req = player -> aq_domain req = domain -> 0 < aq_owner_epoch req < epoch ->
     Ack reg env req b = Ok (resp, b') ->
     same_tables b b' /\ as_results resp = [] /\ (as_tip resp = ErrInvalidParameter \/ as_fence resp = FENCE_STALE)).
Proof.
  intros Hreg Hwf Hroom Hacc Hrun. destruct (accepted_fence _ _ _ _ _ Hwf Hroom Hacc) as [Hwf' (st & Hst & Hfe)].
  destruct (run_keeps _ _ _ _ _ _ _ Hreg Hwf' Hrun) as [_ [_ Hev _]].
  destruct (Hev _ _ Hst) as (stb & Hstb & [_ _ Hle]).
  split; intros env req resp b' Hp Hd He.
  - unfold Fetch. destruct (_ || _); [by intros [= <- <-]; split_and!; [done|done|left]|].
    rewrite (proj2 (Z.eqb_neq _ _)) by lia. destruct (_ || _); [done|].
    intros (original & roles & _ & _ & Htx)%withPlayerTx_Ok. unfold fetch_tx in Htx.
    apply bind_Ok in Htx as (u1 & _ & (u2 & _ & (ost & Ho & Htx)%bind_Ok)%bind_Ok).
    apply lockStream_Ok in Ho. simpl in Ho. rewrite Hp, Hd, Hstb in Ho. subst ost.
    rewrite DecideFence_stale in Htx by lia. injection Htx as <- <-. split_and!; [done..|by right].
  - unfold Ack. destruct (_ || _); [by intros [= <- <-]; split_and!; [done|done|left]|].
    rewrite (proj2 (Z.eqb_neq _ _)) by lia. destruct (_ || _); [done|].
    intros (original & roles & _ & _ & Htx)%withPlayerTx_Ok. unfold ack_tx in Htx.
    apply bind_Ok in Htx as (u1 & _ & (u2 & _ & (ost & Ho & Htx)%bind_Ok)%bind_Ok).
    apply lockStream_Ok in Ho. simpl in Ho. rewrite Hp, Hd, Hstb in Ho. subst ost.
    rewrite DecideFence_stale in Htx by lia. injection Htx as <- <-. split_and!; [done..|by right].
Qed.

(** ** What each operation promises *)

(** C33: An accepted fetch. The items are the first PENDING rows of the stream in
    strictly ascending order, at most 16 and the requested number; each is
    recorded as delivered once more, under this epoch, before it leaves; every
    other row is untouched; [has_more] is exact; a row under a directive travels
    without its payload; the fence becomes the request's epoch and [next_seq] is
    raised above the consumer's watermark, never lowered. *)
Theorem fetch_contract env req db resp db' :
  inbox_wf reg db -> room db -> fetch_req_ok req ->
  Fetch reg env req db = Ok (resp, db') -> FenceAllows (fs_fence resp) = true ->
  (exists st, fetched env req db resp db' st) /\ (length (fs_items resp) <= 16)%nat /\
  StronglySorted (fun a b => it_seq a < it_seq b) (fetch_page db req) /\
  (forall i, i ∈ fs_items resp -> pi_directive i <> DIRECTIVE_NONE -> pi_payload i = []) /\
  (fs_has_more resp = false <-> fetch_page db req = pending_sorted db (fq_player req) (fq_domain req)).
Proof.
  intros Hwf Hroom Hreq H Hal. destruct (fetch_committed _ _ _ _ _ Hwf Hroom Hreq H Hal) as [_ [st Hf]].
  destruct (fetch_limit_range req Hreq) as [Hl1 Hl2]. split; [by exists st|]. destruct Hf.
  rewrite ft_items, ft_more. unfold fetch_page. split_and!.
  - rewrite length_fmap, length_take. lia.
  - eapply StronglySorted_sublist; [apply sublist_take|]. apply pending_sorted_ascending, Hwf.
  - intros i (r & -> & _)%list_elem_of_fmap Hd. unfold deliveredItem in *. simpl in *.
    by rewrite (proj2 (Z.eqb_neq _ _)).
  - rewrite Z.ltb_ge. split; [intros; apply take_ge; lia|]. intros Heq.
    apply (f_equal length) in Heq. rewrite length_take in Heq. lia.
Qed.

(** What an outcome of the consumer ends a row as. *)
Definition ends_as (outcome state : Z) : Prop :=
  (outcome = OUTCOME_APPLIED /\ state = ITEM_APPLIED) \/ (outcome = OUTCOME_REJECTED /\ state = ITEM_REJECTED) \/
  (outcome = OUTCOME_SKIPPED /\ state = ITEM_VOIDED) \/ (outcome = OUTCOME_UNKNOWN /\ state = ITEM_SETTLED_UNKNOWN).

(** The row records the reported outcome, and for a rejection the reported reason. *)
Definition records (r : PlayerInboxItemRow) (rep : PlayerInboxDecisionReport) : Prop :=
  ends_as (rp_outcome rep) (it_state r) /\ (rp_outcome rep = OUTCOME_REJECTED -> it_outcome_reason r = rp_reason rep).

(** What one report does to its row, and how it is answered: result, state and the row afterwards. *)
Inductive ack_case (epoch now : Z) (r : PlayerInboxItemRow) (rep : PlayerInboxDecisionReport) :
    PlayerInboxAckResult -> Z -> PlayerInboxItemRow -> Prop :=
  | ack_battle : it_msg_type r = MSG_BATTLE_SETTLEMENT -> rp_outcome rep <> OUTCOME_APPLIED ->
      ack_case epoch now r rep ACK_CONFLICT (it_state r) r
  | ack_other_request : it_request_id r <> rp_request_id rep -> ack_case epoch now r rep ACK_MISMATCH (it_state r) r
  | ack_undelivered : it_request_id r = rp_request_id rep -> it_state r = ITEM_PENDING -> it_delivery_count r = 0 ->
      ack_case epoch now r rep ACK_NOT_DELIVERED (it_state r) r
  | ack_unasked_skip : it_request_id r = rp_request_id rep -> it_state r = ITEM_PENDING -> it_delivery_count r <> 0 ->
      rp_outcome rep = OUTCOME_SKIPPED -> it_directive r <> DIRECTIVE_VOID ->
      ack_case epoch now r rep ACK_SKIP_NOT_REQUESTED (it_state r) r
  | ack_ended state r' : it_request_id r = rp_request_id rep -> it_state r = ITEM_PENDING -> it_delivery_count r <> 0 ->
      (rp_outcome rep = OUTCOME_SKIPPED -> it_directive r = DIRECTIVE_VOID) ->
      (it_msg_type r = MSG_BATTLE_SETTLEMENT -> rp_outcome rep = OUTCOME_APPLIED) ->
      ends_as (rp_outcome rep) state -> it_state r' = state -> it_finalized_by r' = FINALIZER_CONSUMER ->
      it_decided_epoch r' = epoch -> it_updated_ms r' = now -> it_outcome_reason r' = ackOutcomeReason rep ->
      r' = finalize_row state FINALIZER_CONSUMER epoch (ackOutcomeReason rep) now r ->
      ack_case epoch now r rep ACK_FINALIZED state r'
  | ack_repeated : it_request_id r = rp_request_id rep -> it_state r <> ITEM_PENDING -> records r rep ->
      ack_case epoch now r rep ACK_ALREADY_SAME (it_state r) r
  | ack_contradicted : it_request_id r = rp_request_id rep -> it_state r <> ITEM_PENDING -> ~ records r rep ->
      ack_case epoch now r rep ACK_CONFLICT (it_state r) r.

Lemma outcomeToState_ends o : outcomeToState o <> ITEM_UNSPECIFIED -> forall s, ends_as o s <-> s = outcomeToState o.
Proof.
  unfold ends_as, outcomeToState, OUTCOME_APPLIED, OUTCOME_REJECTED, OUTCOME_SKIPPED, OUTCOME_UNKNOWN. intros Hk s.
  repeat split_if; zbool; subst; first [done | split; [intros H; destruct_or?; destruct_and?; (done || lia)|intros ->; tauto]].
Qed.

Lemma sameOutcome_records r rep : known_outcome rep ->
  sameOutcome (it_state r) (it_outcome_reason r) (rp_outcome rep) (rp_reason rep) = true <-> records r rep.
Proof.
  intros Hk. unfold records. rewrite (outcomeToState_ends _ Hk). unfold sameOutcome, known_outcome in *.
  assert (outcomeToState (rp_outcome rep) = ITEM_REJECTED <-> rp_outcome rep = OUTCOME_REJECTED) as Hrej.
  { clear. unfold outcomeToState, OUTCOME_APPLIED, OUTCOME_REJECTED, OUTCOME_SKIPPED, OUTCOME_UNKNOWN,
      ITEM_APPLIED, ITEM_REJECTED, ITEM_VOIDED, ITEM_SETTLED_UNKNOWN, ITEM_UNSPECIFIED. repeat split_if; zbool; lia. }
  destruct (outcomeToState (rp_outcome rep) =? ITEM_UNSPECIFIED) eqn:E; cbn; [zbool; done|].
  destruct (Z.eqb_spec (it_state r) (outcomeToState (rp_outcome rep))); cbn; [|split; [done|tauto]].
  rewrite orb_true_iff, negb_true_iff, Z.eqb_neq, Z.eqb_eq. rewrite Hrej. destruct (decide (rp_outcome rep = OUTCOME_REJECTED)); tauto.
Qed.

Lemma ack_answer_case epoch now r rep : known_outcome rep ->
  ack_case epoch now r rep (ai_result (ack_answer (Some r) rep)) (ai_state (ack_answer (Some r) rep)) (ack_row epoch now rep r).
Proof.
  intros Hk. unfold ack_row, ack_ends, ack_answer. destruct (battle_refused (Some r) rep) eqn:Hb; cbn in Hb.
  { cbn. zbool. by apply ack_battle. }
  assert (it_msg_type r = MSG_BATTLE_SETTLEMENT -> rp_outcome rep = OUTCOME_APPLIED) as Hbat by (intros ?; zbool; destruct Hb; zbool; congruence).
  cbn. destruct (Z.eqb_spec (it_request_id r) (rp_request_id rep)) as [Hr|Hr]; cbn; [|by apply ack_other_request].
  destruct (Z.eqb_spec (it_state r) ITEM_PENDING) as [Hs|Hs].
  - destruct (Z.eqb_spec (it_delivery_count r) 0) as [Hd|Hd]; cbn; [by apply ack_undelivered|].
    destruct ((rp_outcome rep =? OUTCOME_SKIPPED) && negb (it_directive r =? DIRECTIVE_VOID)) eqn:Hsk; cbn.
    + zbool. by apply ack_unasked_skip.
    + apply ack_ended; try done; [|by apply (outcomeToState_ends _ Hk)]. intros Ho. zbool. destruct Hsk; zbool; congruence.
  - destruct (sameOutcome _ _ _ _) eqn:Hso; cbn; [apply ack_repeated|apply ack_contradicted]; try done.
    + by apply sameOutcome_records.
    + rewrite <- sameOutcome_records by done. by rewrite Hso.
Qed.

(** C32: an accepted acknowledgement. Every report is answered in its place, by the case that
    its row is in: no such row; a battle receipt reported otherwise than as applied;
    another request; not delivered; a skip that no void asked for; a delivered PENDING row
    of the request, which ends as the outcome says, by the consumer, under this epoch and at
    this time; a row that already records this outcome - ALREADY_SAME - or another one -
    CONFLICT. Only the case that ends a row changes it, and rows without a report are
    untouched. *)
Theorem ack_contract env req db resp db' :
  inbox_wf reg db -> 0 <= aq_owner_epoch req ->
  Ack reg env req db = Ok (resp, db') -> FenceAllows (as_fence resp) = true ->
  let key (seq : Z) := (RowShard (aq_player req), aq_player req, aq_domain req, seq) in
  length (as_results resp) = length (aq_decisions req) /\
  (forall i rep, aq_decisions req !! i = Some rep -> exists a, as_results resp !! i = Some a /\ ai_seq a = rp_seq rep /\
     match ib_item db !! key (rp_seq rep) with
     | None => ai_result a = ACK_UNKNOWN_SEQ /\ ib_item db' !! key (rp_seq rep) = None
     | Some r => exists r', ib_item db' !! key (rp_seq rep) = Some r' /\
         ack_case (aq_owner_epoch req) (tx_now env) r rep (ai_result a) (ai_state a) r'
     end) /\
  (forall k, (forall rep, rep ∈ aq_decisions req -> k <> key (rp_seq rep)) -> ib_item db' !! k = ib_item db !! k).
Proof.
  intros Hwf He H Hal key. destruct (ack_committed _ _ _ _ _ Hwf He H Hal) as [_ [st Hf]]. destruct Hf.
  split_and!; [by rewrite ak_results, length_fmap| |exact ak_others]. intros i rep Hi. eexists. split.
  { rewrite ak_results, list_lookup_fmap, Hi. reflexivity. }
  assert (forall row, ai_seq (ack_answer row rep) = rp_seq rep) as Hseq by (intros row; unfold ack_answer; by split_if).
  split; [apply Hseq|]. apply list_elem_of_lookup_2 in Hi. specialize (ak_rows rep Hi).
  rewrite Forall_forall in ak_known. specialize (ak_known rep Hi). unfold key in *.
  destruct (ib_item db !! _) as [r|] eqn:Hr; [|done]. exists (ack_row (aq_owner_epoch req) (tx_now env) rep r).
  split; [exact ak_rows|by apply ack_answer_case].
Qed.

(** A normal void. The transaction voids the row itself only when it was
    never delivered; a delivered row only gets the directive (once) and stays
    PENDING for the consumer to decide; a terminal or missing row, and any row of
    the battle domain, is refused and nothing changes. *)
Theorem void_contract env p ledgers db resp db' :
  inbox_wf reg db -> vp_mode p = VOID_MODE_NORMAL ->
  Void reg env p ledgers db = Ok (resp, db') ->
  voided p (tx_now env) db resp db' /\
  (vp_domain p = DOMAIN_SCENE_BATTLE_SETTLEMENT -> same_tables db db' /\ vr_tip resp = ErrItemStateConflict).
Proof.
  intros Hwf Hm H. split; [|intros Hd; revert H; unfold Void; rewrite Hd; by intros [= <- <-]].
  apply Void_cases in H as [[-> Ht]|(Hd & [[_ H]|(read & l & f & Hf & _)])]; [by apply voided_refused| |by rewrite Hm in Hf].
  apply withPlayerTx_Ok in H as (original & roles & _ & _ & Htx).
  apply (void_tx_Ok reg) in Htx as [_ Hv]; [|by apply keeps_roles|done].
  destruct Hv; [by apply voided_refused|by eapply voided_direct|by eapply voided_directive|by eapply voided_already].
Qed.

(** A forced void ends a row only on the evidence of the persisted ledger:
    either nothing changes, or the row was PENDING, [proveNeverExecuted] answered
    PROVEN on the ledger that was read for this player, and the row is VOIDED by
    the administrator with no other row touched. *)
Theorem force_void_contract env p ledgers db resp db' :
  inbox_wf reg db -> vp_mode p = VOID_MODE_FORCE_MISMATCH ->
  Void reg env p ledgers db = Ok (resp, db') ->
  (same_tables db db' /\ vr_tip resp <> 0) \/
  exists read ledger r, ledgers = Some read /\ read (vp_player p) = Ok (ledger, true) /\
    ib_item db !! void_key p = Some r /\ it_state r = ITEM_PENDING /\ it_delivery_count r <> 0 /\
    fp_verdict (proveNeverExecuted r ledger true) = forceVoidProven /\
    ib_item db' = <[void_key p := admin_void (vp_reason p) (tx_now env) r]> (ib_item db).
Proof.
  intros Hwf Hm [[-> Ht]|(Hd & [[Hf _]|(read & l & f & _ & -> & Hl & H)])]%Void_cases; [by left|by rewrite Hm in Hf|].
  apply withPlayerTx_Ok in H as (original & roles & _ & _ & Htx).
  apply (force_void_tx_Ok reg) in Htx as [_ [[? ?]|(r & Hr & Hp & Hv & Hit & _)]]; [by left| |by apply keeps_roles|done].
  right. unfold proveNeverExecuted in Hv. destruct (it_delivery_count r =? 0) eqn:Hdc; [done|].
  destruct l as [ledger|]; [|done]. destruct f; [|done]. zbool.
  exists read, (Some ledger), r. split_and!; try done. unfold proveNeverExecuted. by rewrite (proj2 (Z.eqb_neq _ _)).
Qed.

(** A battle receipt is never cancelled: after any run from the fresh tables,
    a battle settlement of the battle domain is PENDING or was applied by the
    consumer; neither an operator nor a consumer's SKIPPED, REJECTED or UNKNOWN
    can end it. *)
Theorem battle_ends_applied roles admission db k r :
  reg_ok reg -> Run (fresh roles admission) db -> ib_item db !! k = Some r ->
  it_msg_type r = MSG_BATTLE_SETTLEMENT -> it_domain r = DOMAIN_SCENE_BATTLE_SETTLEMENT ->
  it_state r = ITEM_PENDING \/ (it_state r = ITEM_APPLIED /\ it_finalized_by r = FINALIZER_CONSUMER).
Proof.
  intros Hreg Hrun Hk. eapply run_keeps in Hrun as [[Hi _ _] _]; [|done|apply fresh_wf].
  destruct (iw_key _ Hi _ _ Hk) as [_ []]. done.
Qed.

Lemma LockCurrent_listed env db player role :
  rd_account_role (ib_roles db) !! player = Some role -> ar_trade_listing_id role <> 0 ->
  forall o db', LockCurrent env db player <> Ok (o, db').
Proof.
  intros Hr Hl o db' (_ & roles & r & Hlock & Hr' & _ & _ & Hz & _)%LockCurrent_Ok.
  apply LockRoleRoutes_clear in Hlock as (_ & _ & Hg & _). rewrite (fg_account _ _ Hg) in Hr'. congruence.
Qed.

(** A role that is frozen for sale is frozen for the inbox too: while
    [account_role] carries a listing, no fetch, acknowledgement, void or enqueue
    for that player that is answered at all changes any table. *)
Theorem sold_role_untouchable db player role :
  rd_account_role (ib_roles db) !! player = Some role -> ar_trade_listing_id role <> 0 ->
  (forall env req resp db', fq_player req = player -> Fetch reg env req db = Ok (resp, db') -> db' = db) /\
  (forall env req resp db', aq_player req = player -> Ack reg env req db = Ok (resp, db') -> db' = db) /\
  (forall env p ledgers resp db', vp_player p = player -> Void reg env p ledgers db = Ok (resp, db') -> db' = db) /\
  (forall env p hook r db', ep_player p = player -> Enq env p hook db = Ok (r, db') -> db' = db /\ er_created r = false).
Proof.
  intros Hr Hl.
  assert (forall A env (f : AccountRoleOwnership -> InboxDB -> res (A * InboxDB)) x db',
    withPlayerTx env db player f <> Ok (x, db')) as Hno.
  { intros A env f x db' (o & roles & Hlock & _)%withPlayerTx_Ok. by eapply LockCurrent_listed. }
  split_and!; intros env.
  - intros req resp db' <- [(-> & _)|H]%fetch_answer; [done|by apply Hno in H].
  - intros req resp db' <- [(-> & _)|[_ H]]%ack_answered; [done|by apply Hno in H].
  - intros p ledgers resp db' <- [[-> _]|(_ & [[_ H]|(? & ? & ? & _ & _ & _ & H)])]%Void_cases; [done|by apply Hno in H..].
  - intros p hook r db' <- H. unfold enqueue in H. apply bind_Ok in H as (ch & Hch & H).
    destruct ch as [ans|[domain spec]]; [|by apply Hno in H]. injection H as <- <-. split; [done|].
    revert Hch. unfold enqueue_checks.
    repeat first [case_match; simpl; try (intros [= <-]; done); try done | destruct (PlayerExists _) as [[]|]; simpl];
      try (intros [= <-]; done).
Qed.

(** Fetch and Ack pass the request's own epoch as the bound, so the verdict the
    tip table reserves for an epoch ahead of the core cannot come out. *)
Lemma epoch_ahead_unreachable req fence : DecideFence req fence req <> FENCE_EPOCH_AHEAD.
Proof. unfold DecideFence. rewrite Z.ltb_irrefl. by repeat case_match. Qed.
End props.

(** The raise is not monotone at the last 64-bit number: a consumer that reports
    it sets [next_seq] to zero. *)
Lemma RaiseNextSeq_wraps next : is_u64 next -> RaiseNextSeq next (u64_mod - 1) = (0, true).
Proof.
  unfold RaiseNextSeq, is_u64. intros Hn. rewrite (proj2 (Z.ltb_ge _ _)) by lia. reflexivity.
Qed.

(** The shard of a player is a function onto 0..63 of a bijective mix: no two
    players share a mixed value, whatever the layout of their ids, and the mix
    stays within 64 bits. *)
Theorem Mix64_bijective x y :
  is_u64 x -> is_u64 y ->
  (Mix64 x = Mix64 y -> x = y) /\ is_u64 (Mix64 x) /\ 0 <= RowShard x < ShardCount.
Proof.
  intros Hx Hy. split_and!; [|by apply Mix64_range|apply RowShard_range..].
  unfold Mix64. intros Heq.
  assert (forall z, is_u64 z -> is_u64 (xorshift 30 z)) as H1 by (intros; by apply xorshift_range).
  assert (forall z, is_u64 (xorshift 27 (z *64 mix_c1))) as H2 by (intros; apply xorshift_range; [apply u64_range|done]).
  assert (forall z k, 1 <= k -> is_u64 z -> 0 <= z) as H0 by (unfold is_u64; intros; lia).
  apply xorshift_inj in Heq; [|done|apply u64_range..].
  apply (mul64_inj _ 0x319642b2d24d8ec3) in Heq; [|reflexivity|apply H2..].
  apply xorshift_inj in Heq; [|done|apply u64_range..].
  apply (mul64_inj _ 0x96de1b173f119089) in Heq; [|reflexivity|by apply H1..].
  apply xorshift_inj in Heq; [done|done|by eapply (H0 _ 1)..].
Qed.

Lemma Mix64_bijective_witness : is_u64 7 /\ is_u64 8 /\ 0 <= RowShard 7 < ShardCount.
Proof.
  assert (is_u64 7 /\ is_u64 8) as [H7 H8] by (split; split; done).
  split_and!; [done|done|apply (Mix64_bijective 7 8 H7 H8)..].
Defined.

(** The reminder back-off. A reminder that did not settle is tried again
    after at least 30 seconds and at most 30 minutes, after exactly the time it
    has been pending when that lies between; and it is given up only when the
    node has been missing for an hour. *)
Theorem notify_backoff result now since :
  0 <= now < u64_mod - notifyRetryMax -> 0 <= since < u64_mod ->
  now + 30000 <= notifyRetryDueMs now since <= now + 1800000 /\
  (0 < since -> 30000 <= now - since <= 1800000 -> notifyRetryDueMs now since = now + (now - since)) /\
  (notifyGivesUp result now since = true -> result = NotifyNodeMissing /\ 0 < since /\ 3600000 <= now - since).
Proof.
  unfold notifyRetryDueMs, notifyGivesUp, notifyRetryMin, notifyRetryMax, notifyNodeMissingSettleAfter.
  intros Hn Hs. change (30 * 60 * 1000) with 1800000 in *. change (30 * 1000) with 30000. change (3600 * 1000) with 3600000.
  assert (since < now -> now -64 since = now - since) as Hsub by (intros; apply u64_small; unfold is_u64; lia).
  assert (forall b, 0 <= b <= 1800000 -> now +64 b = now + b) as Hadd by (intros; apply u64_small; unfold is_u64; lia).
  split_and!.
  - destruct (negb (since =? 0) && _) eqn:Hc; [zbool; rewrite Hsub by done|]; rewrite Hadd; lia.
  - destruct (negb (since =? 0) && _) eqn:Hc; [zbool; rewrite Hsub by done|]; rewrite Hadd; lia.
  - intros H0 H1. destruct (negb (since =? 0) && _) eqn:Hc; [|zlia]. zbool. rewrite Hsub by done. rewrite Hadd; lia.
  - destruct (_ || _) eqn:Hc; [done|]. zbool. intros Hle. zbool. rewrite Hsub in Hle by done.
    split_and!; [done|lia|lia].
Qed.

Lemma notify_backoff_witness :
  30000 <= notifyRetryDueMs 1700000000000 1699999000000 - 1700000000000 /\
  notifyGivesUp NotifyNodeMissing 1700000000000 1699996000000 = true.
Proof.
  split; [|reflexivity].
  pose proof (notify_backoff NotifyError 1700000000000 1699999000000 ltac:(done) ltac:(done)) as [[H _] _]. lia.
Defined.

(** ** The sample run: the theorems at a concrete input *)
Local Abbreviation SRun := (run sample_sha sample_unmarshal sample_exists the_registry sample_allowed).
Local Abbreviation SEnq := (enqueue sample_sha sample_unmarshal sample_exists the_registry sample_allowed).

Definition room_check (db : InboxDB) : bool :=
  bool_decide (map_Forall (fun _ st => st_next_seq st < u64_mod - 1) (ib_stream db))
  && bool_decide (map_Forall (fun _ r => it_delivery_count r < u32_mod - 1) (ib_item db)).

Lemma room_by_check db : room_check db = true -> room db.
Proof. intros [H1%bool_decide_eq_true H2%bool_decide_eq_true]%andb_true_iff. split; [exact H1|exact H2]. Qed.

Definition sample_spec : PlayerInboxDomainSpec := mkDomainSpec 64 true.
Definition sample_created : EnqueueResult := mkEnqueueResult 0 sample_seq true ITEM_PENDING.
Definition sample_key : Z * Z * Z * Z := (RowShard 7, 7, DOMAIN_SCENE_GM_SANCTION, sample_seq).
(** The row after its creation, its delivery and its end. *)
Definition sample_row1 : PlayerInboxItemRow :=
  new_item (sample_params 100 []) DOMAIN_SCENE_GM_SANCTION sample_seq sample_now
    (ContentSHA256 sample_sha MSG_GM_BLOCK_CURRENCY_GAIN sample_now []) (mkOwner 7 "acct" 1).
Definition sample_row2 : PlayerInboxItemRow := set_delivered 5 (sample_now + 5) sample_row1.
Definition sample_row3 : PlayerInboxItemRow :=
  finalize_row ITEM_APPLIED FINALIZER_CONSUMER 5 0 (sample_now + 9) sample_row2.
(** A second item, created when the clock has gone back. *)
Definition sample_created4 : EnqueueResult := mkEnqueueResult 0 (sample_seq + 1) true ITEM_PENDING.
Definition sample_db4 : InboxDB := db_of (sample_enqueue (sample_now - 1) 101 [] sample_db3).

Lemma sample_reg : reg_ok the_registry.
Proof. exact the_registry_ok. Qed.
Lemma sample_wf0 : inbox_wf the_registry sample_db.
Proof. apply fresh_wf. Qed.
Lemma sample_room0 : room sample_db.
Proof. apply room_by_check. by vm_compute. Qed.
Lemma sample_room1 : room sample_db1.
Proof. apply room_by_check. by vm_compute. Qed.
Lemma sample_room2 : room sample_db2.
Proof. apply room_by_check. by vm_compute. Qed.
Lemma sample_room3 : room sample_db3.
Proof. apply room_by_check. by vm_compute. Qed.

Lemma sample_checks :
  enqueue_checks sample_unmarshal sample_exists the_registry sample_allowed (sample_params 100 [])
  = Ok (inr (DOMAIN_SCENE_GM_SANCTION, sample_spec)).
Proof. vm_compute. reflexivity. Qed.
Lemma sample_checks4 :
  enqueue_checks sample_unmarshal sample_exists the_registry sample_allowed (sample_params 101 [])
  = Ok (inr (DOMAIN_SCENE_GM_SANCTION, sample_spec)).
Proof. vm_compute. reflexivity. Qed.

Lemma sample_enqueued : SEnq (sample_env sample_now) (sample_params 100 []) None sample_db = Ok (sample_created, sample_db1).
Proof. vm_compute. reflexivity. Qed.
Lemma sample_enqueued4 :
  SEnq (sample_env (sample_now - 1)) (sample_params 101 []) None sample_db3 = Ok (sample_created4, sample_db4).
Proof. vm_compute. reflexivity. Qed.

Definition sample_fetched : FetchResponse :=
  mkFetchResponse 0 FENCE_FIRST [mkInboxItem sample_seq MSG_GM_BLOCK_CURRENCY_GAIN 0 0 100 1 sample_now []] false.
Lemma sample_delivery :
  Fetch the_registry (sample_env (sample_now + 5)) (sample_fetch 5) sample_db1 = Ok (sample_fetched, sample_db2).
Proof. vm_compute. reflexivity. Qed.
Lemma sample_fetch_ok : fetch_req_ok (sample_fetch 5).
Proof. by vm_compute. Qed.

Definition sample_acked : AckResponse := mkAckResponse 0 FENCE_MATCH [mkAckItem sample_seq ACK_FINALIZED ITEM_APPLIED].
Lemma sample_end :
  Ack the_registry (sample_env (sample_now + 9)) (sample_ack sample_seq 100 OUTCOME_APPLIED) sample_db2
  = Ok (sample_acked, sample_db3).
Proof. vm_compute. reflexivity. Qed.

Lemma sample_rows :
  ib_item sample_db1 !! sample_key = Some sample_row1 /\ ib_item sample_db2 !! sample_key = Some sample_row2 /\
  ib_item sample_db3 !! sample_key = Some sample_row3.
Proof. split_and!; vm_compute; reflexivity. Qed.

Lemma sample_run34 : SRun sample_db3 sample_db4.
Proof.
  apply rtc_once. split; [exact sample_room3|]. eapply step_enqueue; [|exact sample_enqueued4]. by vm_compute.
Qed.
Lemma sample_run23 : SRun sample_db2 sample_db3.
Proof. apply rtc_once. split; [exact sample_room2|]. eapply step_ack; [|exact sample_end]. by vm_compute. Qed.
Lemma sample_run13 : SRun sample_db1 sample_db3.
Proof.
  eapply rtc_l; [split; [exact sample_room1|]|exact sample_run23].
  eapply step_fetch; [exact sample_fetch_ok|exact sample_delivery].
Qed.
Lemma sample_run03 : SRun sample_db sample_db3.
Proof.
  eapply rtc_l; [split; [exact sample_room0|]|exact sample_run13].
  eapply step_enqueue; [|exact sample_enqueued]. by vm_compute.
Qed.
Lemma sample_wf1 : inbox_wf the_registry sample_db1.
Proof.
  refine (proj1 (step_keeps sample_sha sample_unmarshal sample_exists the_registry sample_allowed _ _ sample_reg sample_wf0 sample_room0 _)).
  eapply step_enqueue; [|exact sample_enqueued]. by vm_compute.
Qed.
Lemma sample_wf2 : inbox_wf the_registry sample_db2.
Proof.
  refine (proj1 (step_keeps sample_sha sample_unmarshal sample_exists the_registry sample_allowed _ _ sample_reg sample_wf1 sample_room1 _)).
  eapply step_fetch; [exact sample_fetch_ok|exact sample_delivery].
Qed.
Lemma sample_wf3 : inbox_wf the_registry sample_db3.
Proof. exact (proj1 (run_keeps _ _ _ _ _ _ _ sample_reg sample_wf2 sample_run23)). Qed.

Lemma inbox_invariant_witness : SRun sample_db sample_db3 /\ inbox_wf the_registry sample_db3.
Proof. split; [exact sample_run03|]. apply (inbox_invariant _ _ _ _ _ _ _ _ sample_reg sample_run03). Defined.

Lemma terminal_never_flips_witness :
  IsTerminalState (it_state sample_row3) = true /\ ib_item sample_db4 !! sample_key = Some sample_row3.
Proof.
  split; [reflexivity|].
  exact (terminal_never_flips _ _ _ _ _ _ _ _ _ sample_reg sample_wf3 sample_run34 (proj2 (proj2 sample_rows)) eq_refl).
Defined.

(** The retry of the applied request, after its time window. *)
Definition sample_late : Z := sample_now + 900000000.
Definition sample_retry : EnqueueResult := mkEnqueueResult 0 sample_seq false ITEM_APPLIED.
Lemma sample_sha_length x : length (sample_sha x) = 32%nat.
Proof. unfold sample_sha. rewrite length_take, length_app, length_replicate. lia. Qed.
Definition sample_retry_db : InboxDB := db_of (sample_enqueue sample_late 100 [] sample_db3).
Lemma sample_retried :
  SEnq (sample_env sample_late) (sample_params 100 []) None sample_db3 = Ok (sample_retry, sample_retry_db).
Proof. vm_compute. reflexivity. Qed.

Lemma enqueue_exactly_once_witness :
  same_tables sample_db3 sample_retry_db /\ er_created sample_retry = false /\
  exists k row, ib_item sample_db3 !! k = Some row /\ sample_retry = mkEnqueueResult 0 sample_seq false (it_state row).
Proof.
  pose proof (enqueue_exactly_once _ _ _ _ _ _ _ _ _ _ _ _ _ _ _ _ _ _ _ sample_sha_length sample_reg
    (Zle_0_pos _ : 0 <= tx_now2 (sample_env sample_now)) sample_wf0 sample_room0 sample_enqueued eq_refl sample_run13
    eq_refl eq_refl eq_refl sample_checks sample_retried) as (H1 & H2 & k & row & Hk & _ & _ & _ & _ & H3 & _).
  split; [exact H1|]. split; [exact H2|]. exists k, row. split; [exact Hk|]. exact (H3 eq_refl).
Defined.

Lemma seq_strictly_increasing_witness :
  sample_seq < er_seq sample_created4 /\ (sample_now - 1) * 4096 <= er_seq sample_created4.
Proof.
  exact (seq_strictly_increasing _ _ _ _ _ _ _ _ _ _ _ _ _ _ _ _ _ _ _ _ sample_reg
    (Zle_0_pos _ : 0 <= tx_now2 (sample_env sample_now)) (Zle_0_pos _ : 0 <= tx_now2 (sample_env (sample_now - 1)))
    sample_wf0 sample_room0 sample_enqueued eq_refl sample_run13 sample_enqueued4 eq_refl eq_refl
    sample_checks sample_checks4).
Defined.

(** The reminder of an earlier round carries the token 1. *)
Definition sample_defer : res (bool * InboxDB) :=
  DeferNotifyDue (sample_env (sample_now + 20)) 7 DOMAIN_SCENE_GM_SANCTION 1 (sample_now + 60000) sample_db3.
Lemma sample_deferred : sample_defer = Ok (false, db_of sample_defer).
Proof. vm_compute. reflexivity. Qed.

Lemma reminder_not_lost_witness :
  same_tables sample_db3 (db_of sample_defer) /\
  exists st, ib_stream sample_db1 !! (RowShard 7, 7, DOMAIN_SCENE_GM_SANCTION) = Some st /\ st_notify_due_ms st = sample_now.
Proof.
  assert (1 <= er_seq sample_created) as Htoken by (apply Z.leb_le; vm_compute; reflexivity).
  exact (proj2 (reminder_not_lost _ _ _ _ _ _ _ _ _ _ _ _ _ _ _ _ _ _ _ sample_reg
    (Zle_0_pos _ : 0 <= tx_now2 (sample_env sample_now)) sample_wf0 sample_room0 sample_enqueued eq_refl
    sample_checks Htoken sample_run13 sample_deferred)).
Defined.

(** The session moves to epoch 6, then the scene of epoch 5 is still admitted
    when it comes back. *)
Definition sample_admission6 : RoleAdmissionIdentity :=
  mkAdmission 7 "01234567-89ab-cdef-0123-456789abcdef" 1 1 6 "scene-1" 1 1 1 1.
Definition register_admission (a : RoleAdmissionIdentity) (db : InboxDB) : InboxDB :=
  mkInboxDB (ib_roles db) {[(ra_player a, ra_instance a) := mkAdmissionRow 1 0 (Some a)]} (ib_stream db) (ib_item db) (ib_audit db).
Definition sample_db6 : InboxDB := register_admission sample_admission6 sample_db3.
Definition sample_takeover : res (FetchResponse * InboxDB) :=
  Fetch the_registry (sample_env (sample_now + 30)) (sample_fetch 6) sample_db6.
Definition sample_db7 : InboxDB := db_of sample_takeover.
Definition sample_db8 : InboxDB := register_admission sample_admission sample_db7.
Definition sample_stale : res (FetchResponse * InboxDB) :=
  Fetch the_registry (sample_env (sample_now + 31)) (sample_fetch 5) sample_db8.

Lemma sample_taken_over : sample_takeover = Ok (mkFetchResponse 0 FENCE_ADVANCE [] false, sample_db7).
Proof. vm_compute. reflexivity. Qed.
Lemma sample_stale_answer : sample_stale = Ok (mkFetchResponse ErrStaleOwner FENCE_STALE [] false, db_of sample_stale).
Proof. vm_compute. reflexivity. Qed.
Lemma sample_accepted : accepted the_registry 7 DOMAIN_SCENE_GM_SANCTION 6 sample_db6 sample_db7.
Proof.
  left. exists (sample_env (sample_now + 30)), (sample_fetch 6), (mkFetchResponse 0 FENCE_ADVANCE [] false).
  split; [by vm_compute|]. split; [exact sample_taken_over|done].
Qed.
Lemma sample_wf6 : inbox_wf the_registry sample_db6.
Proof.
  refine (proj1 (step_keeps sample_sha sample_unmarshal sample_exists the_registry sample_allowed _ _ sample_reg sample_wf3 sample_room3 _)).
  apply step_elsewhere.
Qed.
Lemma sample_room6 : room sample_db6.
Proof. exact sample_room3. Qed.
Lemma sample_run78 : SRun sample_db7 sample_db8.
Proof. apply rtc_once. split; [apply room_by_check; by vm_compute|apply step_elsewhere]. Qed.

Lemma stale_owner_locked_out_witness :
  same_tables sample_db8 (db_of sample_stale) /\ FENCE_STALE = fs_fence (mkFetchResponse ErrStaleOwner FENCE_STALE [] false).
Proof.
  split; [|reflexivity].
  assert (0 < fq_owner_epoch (sample_fetch 5) < 6) as He by (split; reflexivity).
  exact (proj1 (proj1 (stale_owner_locked_out _ _ _ _ _ _ _ _ _ _ _ sample_reg sample_wf6 sample_room6 sample_accepted sample_run78)
    (sample_env (sample_now + 31)) (sample_fetch 5) _ _ eq_refl eq_refl He sample_stale_answer)).
Defined.

Lemma fetch_contract_witness :
  exists st, fetched (sample_env (sample_now + 5)) (sample_fetch 5) sample_db1 sample_fetched sample_db2 st.
Proof. exact (proj1 (fetch_contract _ _ _ _ _ _ sample_wf1 sample_room1 sample_fetch_ok sample_delivery eq_refl)). Defined.

Lemma ack_contract_witness :
  exists r', ib_item sample_db3 !! sample_key = Some r' /\
    ack_case 5 (sample_now + 9) sample_row2 (mkReport sample_seq OUTCOME_APPLIED 0 100) ACK_FINALIZED ITEM_APPLIED r'.
Proof.
  assert (0 <= aq_owner_epoch (sample_ack sample_seq 100 OUTCOME_APPLIED)) as He by (apply Z.leb_le; vm_compute; reflexivity).
  destruct (ack_contract _ _ _ _ _ _ sample_wf2 He sample_end eq_refl) as (_ & H & _).
  destruct (H 0%nat _ eq_refl) as (a & Ha & _ & Hrow). injection Ha as <-. cbn [rp_seq] in Hrow.
  pose proof (proj1 (proj2 sample_rows)) as Hr. unfold sample_key, sample_ack in *. cbn [aq_player aq_domain aq_owner_epoch] in Hrow.
  rewrite Hr in Hrow. exact Hrow.
Defined.

Definition sample_void (mode : Z) : VoidParams :=
  mkVoidParams 7 DOMAIN_SCENE_GM_SANCTION sample_seq VOID_CANCELLED "gm" "mistake" "10.0.0.1" mode.
Definition sample_voiding : res (VoidResponse * InboxDB) :=
  Void the_registry (sample_env (sample_now + 3)) (sample_void VOID_MODE_NORMAL) None sample_db1.
Definition sample_voided : VoidResponse := mkVoidResponse 0 ITEM_VOIDED false forceVoidUnspecified.
Lemma sample_void_Ok : sample_voiding = Ok (sample_voided, db_of sample_voiding).
Proof. vm_compute. reflexivity. Qed.

Lemma void_contract_witness :
  voided (sample_void VOID_MODE_NORMAL) (sample_now + 3) sample_db1 sample_voided (db_of sample_voiding).
Proof. exact (proj1 (void_contract the_registry (sample_env (sample_now + 3)) (sample_void VOID_MODE_NORMAL) None sample_db1
  sample_voided (db_of sample_voiding) sample_wf1 eq_refl sample_void_Ok)). Defined.

(** The persisted ledger decided this number for another request. *)
Definition sample_reader (_ : Z) : res (option PlayerInboxLedgerComp * bool) :=
  Ok (Some [mkCursor DOMAIN_SCENE_GM_SANCTION sample_seq [mkDecision sample_seq OUTCOME_APPLIED 0 999 MSG_GM_BLOCK_CURRENCY_GAIN]], true).
Definition sample_forcing : res (VoidResponse * InboxDB) :=
  Void the_registry (sample_env (sample_now + 7)) (sample_void VOID_MODE_FORCE_MISMATCH) (Some sample_reader) sample_db2.
Definition sample_forced : VoidResponse := mkVoidResponse 0 ITEM_VOIDED false forceVoidProven.
Lemma sample_force_Ok : sample_forcing = Ok (sample_forced, db_of sample_forcing).
Proof. vm_compute. reflexivity. Qed.

Lemma force_void_contract_witness :
  exists r, ib_item sample_db2 !! sample_key = Some r /\
    ib_item (db_of sample_forcing) = <[sample_key := admin_void VOID_CANCELLED (sample_now + 7) r]> (ib_item sample_db2).
Proof.
  destruct (force_void_contract the_registry (sample_env (sample_now + 7)) (sample_void VOID_MODE_FORCE_MISMATCH)
    (Some sample_reader) sample_db2 sample_forced (db_of sample_forcing) sample_wf2 eq_refl sample_force_Ok)
    as [[_ Ht]|(read & ledger & r & _ & _ & Hr & _ & _ & _ & Hit)]; [destruct (Ht eq_refl)|].
  exists r. split; [exact Hr|exact Hit].
Defined.

(** A battle settlement, created, delivered and applied. *)
Definition battle_request : BattleSettlementInboxRequest := mkBattle 7 55 "acct" 1 sample_now [1] false.
Definition battle_unmarshal (m : string) (b : bytes) : option (Payload * bool) :=
  if bool_decide (m = "BattleSettlementData"%string) then Some (BattleSettlementData 7 55 1 false, false) else None.
Definition battle_allowed : gset Z := {[MSG_BATTLE_SETTLEMENT]}.
Definition battle_enqueue : res (EnqueueResult * InboxDB) :=
  enqueue sample_sha battle_unmarshal sample_exists the_registry battle_allowed (sample_env sample_now)
    (battle_params battle_request) None sample_db.
Definition battle_db1 : InboxDB := db_of battle_enqueue.
Definition battle_fetch : FetchRequest := mkFetch 7 DOMAIN_SCENE_BATTLE_SETTLEMENT 5 0 0 (Some sample_admission).
Definition battle_delivery : res (FetchResponse * InboxDB) :=
  Fetch the_registry (sample_env (sample_now + 5)) battle_fetch battle_db1.
Definition battle_db2 : InboxDB := db_of battle_delivery.
Definition battle_ack : AckRequest :=
  mkAckRequest 7 DOMAIN_SCENE_BATTLE_SETTLEMENT 5 [mkReport sample_seq OUTCOME_APPLIED 0 55] (Some sample_admission).
Definition battle_end : res (AckResponse * InboxDB) := Ack the_registry (sample_env (sample_now + 9)) battle_ack battle_db2.
Definition battle_db3 : InboxDB := db_of battle_end.
Definition battle_key : Z * Z * Z * Z := (RowShard 7, 7, DOMAIN_SCENE_BATTLE_SETTLEMENT, sample_seq).
Definition battle_row : PlayerInboxItemRow := default sample_row1 (ib_item battle_db3 !! battle_key).

Definition battle_params1 : EnqueueParams := battle_params battle_request.
Lemma battle_run :
  run sample_sha battle_unmarshal sample_exists the_registry battle_allowed sample_db battle_db3.
Proof.
  eapply (rtc_l _ _ battle_db1); [split; [exact sample_room0|]|].
  { eapply (step_enqueue _ _ _ _ _ (sample_env sample_now) battle_params1 None _ sample_created); [by vm_compute|].
    vm_compute. reflexivity. }
  eapply (rtc_l _ _ battle_db2); [split; [apply room_by_check; by vm_compute|]|].
  { eapply (step_fetch _ _ _ _ _ (sample_env (sample_now + 5)) battle_fetch _
      (mkFetchResponse 0 FENCE_FIRST [mkInboxItem sample_seq MSG_BATTLE_SETTLEMENT 0 0 55 1 sample_now [1]] false)); [by vm_compute|].
    vm_compute. reflexivity. }
  apply rtc_once. split; [apply room_by_check; by vm_compute|].
  eapply (step_ack _ _ _ _ _ (sample_env (sample_now + 9)) battle_ack _
    (mkAckResponse 0 FENCE_MATCH [mkAckItem sample_seq ACK_FINALIZED ITEM_APPLIED])); [by vm_compute|].
  vm_compute. reflexivity.
Qed.
Lemma battle_row_found : ib_item battle_db3 !! battle_key = Some battle_row.
Proof. vm_compute. reflexivity. Qed.

Lemma battle_ends_applied_witness :
  it_state battle_row = ITEM_PENDING \/ (it_state battle_row = ITEM_APPLIED /\ it_finalized_by battle_row = FINALIZER_CONSUMER).
Proof.
  assert (it_msg_type battle_row = MSG_BATTLE_SETTLEMENT /\ it_domain battle_row = DOMAIN_SCENE_BATTLE_SETTLEMENT) as [Ht Hd]
    by (vm_compute; split; reflexivity).
  exact (battle_ends_applied sample_sha battle_unmarshal sample_exists the_registry battle_allowed _ _ _ battle_key battle_row
    sample_reg battle_run battle_row_found Ht Hd).
Defined.

(** A listed role. *)
Definition sold_db : InboxDB :=
  with_roles sample_db (mkRoleDB (Some 1) {[(7, 7) := mkRoute (Some 3) 1 None]} ∅ {[7 := mkRole "acct" 1 9]}).
Definition sold_fetch : FetchRequest := mkFetch 7 DOMAIN_SCENE_GM_SANCTION 0 0 0 None.

Lemma sold_role_untouchable_witness :
  ar_trade_listing_id (mkRole "acct" 1 9) <> 0 /\
  forall resp db', Fetch the_registry (sample_env sample_now) sold_fetch sold_db = Ok (resp, db') -> db' = sold_db.
Proof.
  split; [discriminate|].
  assert (rd_account_role (ib_roles sold_db) !! 7 = Some (mkRole "acct" 1 9)) as Hr by reflexivity.
  assert (ar_trade_listing_id (mkRole "acct" 1 9) <> 0) as Hl by discriminate.
  intros resp db' H.
  exact (proj1 (sold_role_untouchable sample_sha sample_unmarshal sample_exists the_registry sample_allowed sold_db 7 _ Hr Hl)
    (sample_env sample_now) sold_fetch resp db' eq_refl H).
Defined.
