(* ===== verification/CommerceData.v ===== *)
(** * Trade: contracts, legs and assets

    [go/trade/internal/commerce/engine.go] with the messages of
    [proto/trade/trade_table.proto], [proto/trade/commerce.proto] and
    [proto/common/asset/asset_op.proto]. A contract is a row of
    [trade_commerce] with its workflow; a leg of the workflow is one asset
    command: a debit takes assets from a player into custody, a credit hands
    them out. This file holds the data, the asset policy, [Bundle], [Transfer]
    and the leg helpers. A protobuf message behind a Go pointer is an [option];
    the workflow column is kept decoded, [None] when its bytes do not decode. *)

From stdpp Require Import base list gmap strings pretty.
From Stdlib Require Import ZArith Lia.
From S2P Require Import Prelude.
Local Open Scope Z_scope.

(** ** Constants *)
Definition MaxInt64 : Z := 9223372036854775807.

Definition Waiting : Z := 1.
Definition Escrowing : Z := 3.
Definition Delivering : Z := 4.
Definition CancelPending : Z := 6.
Definition Cancelled : Z := 7.
Definition RefundPending : Z := 8.
Definition Manual : Z := 10.
Definition Settled : Z := 11.

Definition OfficialKind : Z := 1.
Definition PlayerTradeKind : Z := 2.
Definition ConsignmentKind : Z := 3.
Definition MarketKind : Z := 4.
Definition LotKind : Z := 5.
Definition RmbKind : Z := 6.
Definition BidKind : Z := 100.

Definition StreamDebit : Z := 3.
Definition StreamCredit : Z := 4.

(** ** Errors

    The sentinels; [roleConflict], [staleObservation] and [corrupt] wrap others,
    which [is_conflict] accounts for. *)
Definition ErrInvalid : error := "commerce: ErrInvalid"%string.
Definition ErrMissing : error := "commerce: ErrMissing"%string.
Definition ErrConflict : error := "commerce: ErrConflict"%string.
Definition ErrReplay : error := "commerce: ErrReplay"%string.
Definition ErrSelf : error := "commerce: ErrSelf"%string.
Definition ErrNotTradable : error := "commerce: ErrNotTradable"%string.
Definition ErrBid : error := "commerce: ErrBid"%string.
Definition ErrEnded : error := "commerce: ErrEnded"%string.
Definition errCorruptContract : error := "commerce: errCorruptContract"%string.
Definition errRoleConflict : error := "commerce: errRoleConflict"%string.
Definition errStaleObservation : error := "commerce: errStaleObservation"%string.
Definition ErrCustody : error := "commerce: custody does not match the contract"%string.
Definition ErrNilLeg : error := "panic: nil pointer dereference"%string.

(** [errors.Is(err, ErrConflict)] *)
Definition is_conflict (e : error) : bool :=
  bool_decide (e ∈ [ErrConflict; errRoleConflict; errStaleObservation]).

Definition asRoleConflict (e : error) : error :=
  if is_conflict e && negb (bool_decide (e = errRoleConflict)) then errRoleConflict else e.

(** [corrupt(err)] *)
Definition corrupt {A} (m : res A) : res A :=
  match m with Ok a => Ok a | Err _ => Err errCorruptContract end.

(** ** Assets *)

(** [sel_items]: the entries of a Go map, in the order in which one run ranges
    over them; its keys are distinct. *)
Record TradeAssetSelection := mkSelection {
  sel_items : list (Z * Z); sel_uuids : list Z; sel_pet : Z; sel_currency : Z; sel_amount : Z }.

Record AssetItemInstance := mkItemInstance {
  ii_uuid : Z; ii_config : Z; ii_stack : Z; ii_proto : string }.
Record AssetPetInstance := mkPetInstance {
  pi_pet_id : Z; pi_table : Z; pi_name : string; pi_level : Z; pi_proto : string }.

(** [b_currencies]: (currency_type, amount); [b_items]: (config_id, count). *)
Record AssetBundle := mkBundle {
  b_currencies : list (Z * Z); b_items : list (Z * Z); b_uuids : list Z; b_pet : Z;
  b_instances : list AssetItemInstance; b_pet_instance : option AssetPetInstance }.

Record AssetSnapshot := mkSnapshot {
  as_items : list AssetItemInstance; as_pet : option AssetPetInstance; as_currency : option (Z * Z) }.

Definition no_selection : TradeAssetSelection := mkSelection [] [] 0 0 0.
Definition no_bundle : AssetBundle := mkBundle [] [] [] 0 [] None.
Definition currency_bundle (c n : Z) : AssetBundle := mkBundle [(c, n)] [] [] 0 [] None.
Definition item_bundle (id n : Z) : AssetBundle := mkBundle [] [(id, n)] [] 0 [] None.

(** ** Contracts *)
Record TradeRoleIdentity := mkIdentity { ti_account : string; ti_owner_revision : Z }.

(** Fields 14 to 16, 18 and 19 of the workflow: the terms of an official order. *)
Record OfficialTerms := mkOfficial {
  of_order_sn : string; of_sku : Z; of_sku_quantity : Z; of_currency : string; of_amount : Z }.
Definition no_official : OfficialTerms := mkOfficial "" 0 0 "" 0.

(** The stage is a string; every literal the code compares with has a
    constructor, [SOther] is any other string. *)
Inductive stage :=
  | SOfficialDeliver | SOfficialRefund | SOfferEscrow | SBuyerEscrow | SConfirm
  | SEscrow | SOpen | SPay | SLotOpen | SMarketOpen | SMarketWait
  | SBidFreeze | SBidReady | SBidHeld | SBidRefund | SDeliver | SReturn | SDone | SManual
  | SRmbFreezing | SRmbEscrow | SRmbReady | SRmbRegistering | SRmbListed | SRmbDelivery
  | SRmbDelivered | SRmbReturn | SRmbReturned | SRmbRefund | SOther (s : string).
#[global] Instance stage_eq_dec : EqDecision stage.
Proof. solve_decision. Defined.

Record RmbConsignmentView := mkRmbView {
  rv_listing_id : Z; rv_seller_player_id : Z; rv_market_zone : Z; rv_asset_kind : string;
  rv_title : string; rv_price_fen : Z; rv_fee_bps : Z; rv_cooling_ms : Z; rv_notice_end_ms : Z;
  rv_sale_end_ms : Z; rv_state : string; rv_phase : string; rv_order_id : string }.


Record TradeRmbConsignmentWorkflow := mkRmb {
  rb_seller_account : string; rb_seller_owner_revision : Z; rb_character_player_id : Z;
  rb_title : string; rb_asset_kind : string; rb_escrow_reference : string;
  rb_escrow_proof : string; rb_buyer_account : string; rb_mall_order_id : string;
  rb_transfer_tx_id : Z; rb_freeze_receipt : string; rb_market_zone : Z; rb_price_fen : Z;
  rb_client_request_id : string; rb_registered_listing : option RmbConsignmentView;
  rb_delivery_digest : string; rb_buyer_owner_revision : Z }.

Definition set_escrow_reference (x : TradeRmbConsignmentWorkflow) (v : string) : TradeRmbConsignmentWorkflow :=
  mkRmb (rb_seller_account x) (rb_seller_owner_revision x) (rb_character_player_id x) (rb_title
    x) (rb_asset_kind x) v (rb_escrow_proof x) (rb_buyer_account x) (rb_mall_order_id x)
    (rb_transfer_tx_id x) (rb_freeze_receipt x) (rb_market_zone x) (rb_price_fen x)
    (rb_client_request_id x) (rb_registered_listing x) (rb_delivery_digest x)
    (rb_buyer_owner_revision x).
Definition set_escrow_proof (x : TradeRmbConsignmentWorkflow) (v : string) : TradeRmbConsignmentWorkflow :=
  mkRmb (rb_seller_account x) (rb_seller_owner_revision x) (rb_character_player_id x) (rb_title
    x) (rb_asset_kind x) (rb_escrow_reference x) v (rb_buyer_account x) (rb_mall_order_id x)
    (rb_transfer_tx_id x) (rb_freeze_receipt x) (rb_market_zone x) (rb_price_fen x)
    (rb_client_request_id x) (rb_registered_listing x) (rb_delivery_digest x)
    (rb_buyer_owner_revision x).
Definition set_buyer_account (x : TradeRmbConsignmentWorkflow) (v : string) : TradeRmbConsignmentWorkflow :=
  mkRmb (rb_seller_account x) (rb_seller_owner_revision x) (rb_character_player_id x) (rb_title
    x) (rb_asset_kind x) (rb_escrow_reference x) (rb_escrow_proof x) v (rb_mall_order_id x)
    (rb_transfer_tx_id x) (rb_freeze_receipt x) (rb_market_zone x) (rb_price_fen x)
    (rb_client_request_id x) (rb_registered_listing x) (rb_delivery_digest x)
    (rb_buyer_owner_revision x).
Definition set_mall_order_id (x : TradeRmbConsignmentWorkflow) (v : string) : TradeRmbConsignmentWorkflow :=
  mkRmb (rb_seller_account x) (rb_seller_owner_revision x) (rb_character_player_id x) (rb_title
    x) (rb_asset_kind x) (rb_escrow_reference x) (rb_escrow_proof x) (rb_buyer_account x) v
    (rb_transfer_tx_id x) (rb_freeze_receipt x) (rb_market_zone x) (rb_price_fen x)
    (rb_client_request_id x) (rb_registered_listing x) (rb_delivery_digest x)
    (rb_buyer_owner_revision x).
Definition set_transfer_tx_id (x : TradeRmbConsignmentWorkflow) (v : Z) : TradeRmbConsignmentWorkflow :=
  mkRmb (rb_seller_account x) (rb_seller_owner_revision x) (rb_character_player_id x) (rb_title
    x) (rb_asset_kind x) (rb_escrow_reference x) (rb_escrow_proof x) (rb_buyer_account x)
    (rb_mall_order_id x) v (rb_freeze_receipt x) (rb_market_zone x) (rb_price_fen x)
    (rb_client_request_id x) (rb_registered_listing x) (rb_delivery_digest x)
    (rb_buyer_owner_revision x).
Definition set_freeze_receipt (x : TradeRmbConsignmentWorkflow) (v : string) : TradeRmbConsignmentWorkflow :=
  mkRmb (rb_seller_account x) (rb_seller_owner_revision x) (rb_character_player_id x) (rb_title
    x) (rb_asset_kind x) (rb_escrow_reference x) (rb_escrow_proof x) (rb_buyer_account x)
    (rb_mall_order_id x) (rb_transfer_tx_id x) v (rb_market_zone x) (rb_price_fen x)
    (rb_client_request_id x) (rb_registered_listing x) (rb_delivery_digest x)
    (rb_buyer_owner_revision x).
Definition set_registered_listing (x : TradeRmbConsignmentWorkflow) (v : option RmbConsignmentView) : TradeRmbConsignmentWorkflow :=
  mkRmb (rb_seller_account x) (rb_seller_owner_revision x) (rb_character_player_id x) (rb_title
    x) (rb_asset_kind x) (rb_escrow_reference x) (rb_escrow_proof x) (rb_buyer_account x)
    (rb_mall_order_id x) (rb_transfer_tx_id x) (rb_freeze_receipt x) (rb_market_zone x)
    (rb_price_fen x) (rb_client_request_id x) v (rb_delivery_digest x) (rb_buyer_owner_revision
    x).
Definition set_delivery_digest (x : TradeRmbConsignmentWorkflow) (v : string) : TradeRmbConsignmentWorkflow :=
  mkRmb (rb_seller_account x) (rb_seller_owner_revision x) (rb_character_player_id x) (rb_title
    x) (rb_asset_kind x) (rb_escrow_reference x) (rb_escrow_proof x) (rb_buyer_account x)
    (rb_mall_order_id x) (rb_transfer_tx_id x) (rb_freeze_receipt x) (rb_market_zone x)
    (rb_price_fen x) (rb_client_request_id x) (rb_registered_listing x) v
    (rb_buyer_owner_revision x).
Definition set_buyer_owner_revision (x : TradeRmbConsignmentWorkflow) (v : Z) : TradeRmbConsignmentWorkflow :=
  mkRmb (rb_seller_account x) (rb_seller_owner_revision x) (rb_character_player_id x) (rb_title
    x) (rb_asset_kind x) (rb_escrow_reference x) (rb_escrow_proof x) (rb_buyer_account x)
    (rb_mall_order_id x) (rb_transfer_tx_id x) (rb_freeze_receipt x) (rb_market_zone x)
    (rb_price_fen x) (rb_client_request_id x) (rb_registered_listing x) (rb_delivery_digest x)
    v.


Record TradeCommerceLeg := mkLeg {
  l_role : string; l_player : Z; l_stream : Z; l_bundle : option AssetBundle; l_op : Z;
  l_snapshot : option AssetSnapshot; l_outcome : Z }.

Definition set_l_op (x : TradeCommerceLeg) (v : Z) : TradeCommerceLeg :=
  mkLeg (l_role x) (l_player x) (l_stream x) (l_bundle x) v (l_snapshot x) (l_outcome x).
Definition set_l_snapshot (x : TradeCommerceLeg) (v : option AssetSnapshot) : TradeCommerceLeg :=
  mkLeg (l_role x) (l_player x) (l_stream x) (l_bundle x) (l_op x) v (l_outcome x).
Definition set_l_outcome (x : TradeCommerceLeg) (v : Z) : TradeCommerceLeg :=
  mkLeg (l_role x) (l_player x) (l_stream x) (l_bundle x) (l_op x) (l_snapshot x) v.


Record TradeCommerceWorkflow := mkWorkflow {
  w_seller_assets : option TradeAssetSelection; w_buyer_assets : option TradeAssetSelection;
  w_seller_confirmed : bool; w_buyer_confirmed : bool; w_cancel_requested : bool;
  w_legs : list TradeCommerceLeg; w_stage : stage; w_minimum_increment : Z; w_highest_bid : Z;
  w_highest_bidder : Z; w_winning_bid_id : Z; w_quantity_reserved : Z;
  w_official : OfficialTerms; w_official_bundle : option AssetBundle;
  w_rmb : option TradeRmbConsignmentWorkflow; w_seller_identity : option TradeRoleIdentity;
  w_buyer_identity : option TradeRoleIdentity }.

Definition set_buyer_assets (x : TradeCommerceWorkflow) (v : option TradeAssetSelection) : TradeCommerceWorkflow :=
  mkWorkflow (w_seller_assets x) v (w_seller_confirmed x) (w_buyer_confirmed x)
    (w_cancel_requested x) (w_legs x) (w_stage x) (w_minimum_increment x) (w_highest_bid x)
    (w_highest_bidder x) (w_winning_bid_id x) (w_quantity_reserved x) (w_official x)
    (w_official_bundle x) (w_rmb x) (w_seller_identity x) (w_buyer_identity x).
Definition set_seller_confirmed (x : TradeCommerceWorkflow) (v : bool) : TradeCommerceWorkflow :=
  mkWorkflow (w_seller_assets x) (w_buyer_assets x) v (w_buyer_confirmed x) (w_cancel_requested
    x) (w_legs x) (w_stage x) (w_minimum_increment x) (w_highest_bid x) (w_highest_bidder x)
    (w_winning_bid_id x) (w_quantity_reserved x) (w_official x) (w_official_bundle x) (w_rmb x)
    (w_seller_identity x) (w_buyer_identity x).
Definition set_buyer_confirmed (x : TradeCommerceWorkflow) (v : bool) : TradeCommerceWorkflow :=
  mkWorkflow (w_seller_assets x) (w_buyer_assets x) (w_seller_confirmed x) v
    (w_cancel_requested x) (w_legs x) (w_stage x) (w_minimum_increment x) (w_highest_bid x)
    (w_highest_bidder x) (w_winning_bid_id x) (w_quantity_reserved x) (w_official x)
    (w_official_bundle x) (w_rmb x) (w_seller_identity x) (w_buyer_identity x).
Definition set_cancel_requested (x : TradeCommerceWorkflow) (v : bool) : TradeCommerceWorkflow :=
  mkWorkflow (w_seller_assets x) (w_buyer_assets x) (w_seller_confirmed x) (w_buyer_confirmed
    x) v (w_legs x) (w_stage x) (w_minimum_increment x) (w_highest_bid x) (w_highest_bidder x)
    (w_winning_bid_id x) (w_quantity_reserved x) (w_official x) (w_official_bundle x) (w_rmb x)
    (w_seller_identity x) (w_buyer_identity x).
Definition set_legs (x : TradeCommerceWorkflow) (v : list TradeCommerceLeg) : TradeCommerceWorkflow :=
  mkWorkflow (w_seller_assets x) (w_buyer_assets x) (w_seller_confirmed x) (w_buyer_confirmed
    x) (w_cancel_requested x) v (w_stage x) (w_minimum_increment x) (w_highest_bid x)
    (w_highest_bidder x) (w_winning_bid_id x) (w_quantity_reserved x) (w_official x)
    (w_official_bundle x) (w_rmb x) (w_seller_identity x) (w_buyer_identity x).
Definition set_stage (x : TradeCommerceWorkflow) (v : stage) : TradeCommerceWorkflow :=
  mkWorkflow (w_seller_assets x) (w_buyer_assets x) (w_seller_confirmed x) (w_buyer_confirmed
    x) (w_cancel_requested x) (w_legs x) v (w_minimum_increment x) (w_highest_bid x)
    (w_highest_bidder x) (w_winning_bid_id x) (w_quantity_reserved x) (w_official x)
    (w_official_bundle x) (w_rmb x) (w_seller_identity x) (w_buyer_identity x).
Definition set_highest_bid (x : TradeCommerceWorkflow) (v : Z) : TradeCommerceWorkflow :=
  mkWorkflow (w_seller_assets x) (w_buyer_assets x) (w_seller_confirmed x) (w_buyer_confirmed
    x) (w_cancel_requested x) (w_legs x) (w_stage x) (w_minimum_increment x) v
    (w_highest_bidder x) (w_winning_bid_id x) (w_quantity_reserved x) (w_official x)
    (w_official_bundle x) (w_rmb x) (w_seller_identity x) (w_buyer_identity x).
Definition set_highest_bidder (x : TradeCommerceWorkflow) (v : Z) : TradeCommerceWorkflow :=
  mkWorkflow (w_seller_assets x) (w_buyer_assets x) (w_seller_confirmed x) (w_buyer_confirmed
    x) (w_cancel_requested x) (w_legs x) (w_stage x) (w_minimum_increment x) (w_highest_bid x)
    v (w_winning_bid_id x) (w_quantity_reserved x) (w_official x) (w_official_bundle x) (w_rmb
    x) (w_seller_identity x) (w_buyer_identity x).
Definition set_winning_bid_id (x : TradeCommerceWorkflow) (v : Z) : TradeCommerceWorkflow :=
  mkWorkflow (w_seller_assets x) (w_buyer_assets x) (w_seller_confirmed x) (w_buyer_confirmed
    x) (w_cancel_requested x) (w_legs x) (w_stage x) (w_minimum_increment x) (w_highest_bid x)
    (w_highest_bidder x) v (w_quantity_reserved x) (w_official x) (w_official_bundle x) (w_rmb
    x) (w_seller_identity x) (w_buyer_identity x).
Definition set_quantity_reserved (x : TradeCommerceWorkflow) (v : Z) : TradeCommerceWorkflow :=
  mkWorkflow (w_seller_assets x) (w_buyer_assets x) (w_seller_confirmed x) (w_buyer_confirmed
    x) (w_cancel_requested x) (w_legs x) (w_stage x) (w_minimum_increment x) (w_highest_bid x)
    (w_highest_bidder x) (w_winning_bid_id x) v (w_official x) (w_official_bundle x) (w_rmb x)
    (w_seller_identity x) (w_buyer_identity x).
Definition set_rmb (x : TradeCommerceWorkflow) (v : option TradeRmbConsignmentWorkflow) : TradeCommerceWorkflow :=
  mkWorkflow (w_seller_assets x) (w_buyer_assets x) (w_seller_confirmed x) (w_buyer_confirmed
    x) (w_cancel_requested x) (w_legs x) (w_stage x) (w_minimum_increment x) (w_highest_bid x)
    (w_highest_bidder x) (w_winning_bid_id x) (w_quantity_reserved x) (w_official x)
    (w_official_bundle x) v (w_seller_identity x) (w_buyer_identity x).
Definition set_seller_identity (x : TradeCommerceWorkflow) (v : option TradeRoleIdentity) : TradeCommerceWorkflow :=
  mkWorkflow (w_seller_assets x) (w_buyer_assets x) (w_seller_confirmed x) (w_buyer_confirmed
    x) (w_cancel_requested x) (w_legs x) (w_stage x) (w_minimum_increment x) (w_highest_bid x)
    (w_highest_bidder x) (w_winning_bid_id x) (w_quantity_reserved x) (w_official x)
    (w_official_bundle x) (w_rmb x) v (w_buyer_identity x).
Definition set_buyer_identity (x : TradeCommerceWorkflow) (v : option TradeRoleIdentity) : TradeCommerceWorkflow :=
  mkWorkflow (w_seller_assets x) (w_buyer_assets x) (w_seller_confirmed x) (w_buyer_confirmed
    x) (w_cancel_requested x) (w_legs x) (w_stage x) (w_minimum_increment x) (w_highest_bid x)
    (w_highest_bidder x) (w_winning_bid_id x) (w_quantity_reserved x) (w_official x)
    (w_official_bundle x) (w_rmb x) (w_seller_identity x) v.


Record TradeCommerceRecord := mkCommerce {
  r_id : Z; r_request_key : string; r_request_digest : string; r_kind : Z; r_status : Z;
  r_seller : Z; r_buyer : Z; r_market_id : Z; r_item_config : Z; r_side : Z; r_unit_price : Z;
  r_quantity : Z; r_filled : Z; r_currency : Z; r_expires : Z; r_created : Z; r_updated : Z;
  r_version : Z; r_workflow : option TradeCommerceWorkflow; r_parent : Z; r_counterparty : Z }.

Definition set_r_id (x : TradeCommerceRecord) (v : Z) : TradeCommerceRecord :=
  mkCommerce v (r_request_key x) (r_request_digest x) (r_kind x) (r_status x) (r_seller x)
    (r_buyer x) (r_market_id x) (r_item_config x) (r_side x) (r_unit_price x) (r_quantity x)
    (r_filled x) (r_currency x) (r_expires x) (r_created x) (r_updated x) (r_version x)
    (r_workflow x) (r_parent x) (r_counterparty x).
Definition set_r_request_key (x : TradeCommerceRecord) (v : string) : TradeCommerceRecord :=
  mkCommerce (r_id x) v (r_request_digest x) (r_kind x) (r_status x) (r_seller x) (r_buyer x)
    (r_market_id x) (r_item_config x) (r_side x) (r_unit_price x) (r_quantity x) (r_filled x)
    (r_currency x) (r_expires x) (r_created x) (r_updated x) (r_version x) (r_workflow x)
    (r_parent x) (r_counterparty x).
Definition set_r_request_digest (x : TradeCommerceRecord) (v : string) : TradeCommerceRecord :=
  mkCommerce (r_id x) (r_request_key x) v (r_kind x) (r_status x) (r_seller x) (r_buyer x)
    (r_market_id x) (r_item_config x) (r_side x) (r_unit_price x) (r_quantity x) (r_filled x)
    (r_currency x) (r_expires x) (r_created x) (r_updated x) (r_version x) (r_workflow x)
    (r_parent x) (r_counterparty x).
Definition set_r_status (x : TradeCommerceRecord) (v : Z) : TradeCommerceRecord :=
  mkCommerce (r_id x) (r_request_key x) (r_request_digest x) (r_kind x) v (r_seller x) (r_buyer
    x) (r_market_id x) (r_item_config x) (r_side x) (r_unit_price x) (r_quantity x) (r_filled
    x) (r_currency x) (r_expires x) (r_created x) (r_updated x) (r_version x) (r_workflow x)
    (r_parent x) (r_counterparty x).
Definition set_r_buyer (x : TradeCommerceRecord) (v : Z) : TradeCommerceRecord :=
  mkCommerce (r_id x) (r_request_key x) (r_request_digest x) (r_kind x) (r_status x) (r_seller
    x) v (r_market_id x) (r_item_config x) (r_side x) (r_unit_price x) (r_quantity x) (r_filled
    x) (r_currency x) (r_expires x) (r_created x) (r_updated x) (r_version x) (r_workflow x)
    (r_parent x) (r_counterparty x).
Definition set_r_filled (x : TradeCommerceRecord) (v : Z) : TradeCommerceRecord :=
  mkCommerce (r_id x) (r_request_key x) (r_request_digest x) (r_kind x) (r_status x) (r_seller
    x) (r_buyer x) (r_market_id x) (r_item_config x) (r_side x) (r_unit_price x) (r_quantity x)
    v (r_currency x) (r_expires x) (r_created x) (r_updated x) (r_version x) (r_workflow x)
    (r_parent x) (r_counterparty x).
Definition set_r_created (x : TradeCommerceRecord) (v : Z) : TradeCommerceRecord :=
  mkCommerce (r_id x) (r_request_key x) (r_request_digest x) (r_kind x) (r_status x) (r_seller
    x) (r_buyer x) (r_market_id x) (r_item_config x) (r_side x) (r_unit_price x) (r_quantity x)
    (r_filled x) (r_currency x) (r_expires x) v (r_updated x) (r_version x) (r_workflow x)
    (r_parent x) (r_counterparty x).
Definition set_r_updated (x : TradeCommerceRecord) (v : Z) : TradeCommerceRecord :=
  mkCommerce (r_id x) (r_request_key x) (r_request_digest x) (r_kind x) (r_status x) (r_seller
    x) (r_buyer x) (r_market_id x) (r_item_config x) (r_side x) (r_unit_price x) (r_quantity x)
    (r_filled x) (r_currency x) (r_expires x) (r_created x) v (r_version x) (r_workflow x)
    (r_parent x) (r_counterparty x).
Definition set_r_version (x : TradeCommerceRecord) (v : Z) : TradeCommerceRecord :=
  mkCommerce (r_id x) (r_request_key x) (r_request_digest x) (r_kind x) (r_status x) (r_seller
    x) (r_buyer x) (r_market_id x) (r_item_config x) (r_side x) (r_unit_price x) (r_quantity x)
    (r_filled x) (r_currency x) (r_expires x) (r_created x) (r_updated x) v (r_workflow x)
    (r_parent x) (r_counterparty x).
Definition set_r_workflow (x : TradeCommerceRecord) (v : option TradeCommerceWorkflow) : TradeCommerceRecord :=
  mkCommerce (r_id x) (r_request_key x) (r_request_digest x) (r_kind x) (r_status x) (r_seller
    x) (r_buyer x) (r_market_id x) (r_item_config x) (r_side x) (r_unit_price x) (r_quantity x)
    (r_filled x) (r_currency x) (r_expires x) (r_created x) (r_updated x) (r_version x) v
    (r_parent x) (r_counterparty x).

Definition no_workflow : TradeCommerceWorkflow :=
  mkWorkflow None None false false false [] (SOther "") 0 0 0 0 0 no_official None None None None.

Definition no_commerce : TradeCommerceRecord :=
  mkCommerce 0 "" "" 0 0 0 0 0 0 0 0 0 0 0 0 0 0 0 None 0 0.

Definition stage_is (w : TradeCommerceWorkflow) (s : stage) : bool := bool_decide (w_stage w = s).

(** [data.Workflow] *)
Definition Workflow (r : TradeCommerceRecord) : res TradeCommerceWorkflow :=
  match r_workflow r with Some w => Ok w | None => Err "workflow does not decode"%string end.

(** ** Policy *)
Record Policy := mkPolicy {
  po_items : list Z; po_pets : list Z; po_currencies : list Z; po_allow_instances : bool }.

Fixpoint contains (values : list Z) (n : Z) : bool :=
  match values with
  | [] => false
  | v :: values' => if v =? n then true else contains values' n
  end.

(** The two loops of [Policy.Selection]. *)
Fixpoint selection_items (p : Policy) (total : Z) (items : list (Z * Z)) : res () :=
  match items with
  | [] => Ok ()
  | (id, n) :: items' =>
      if (id =? 0) || (n =? 0) || (4096 <? n) || negb (contains (po_items p) id) then Err ErrNotTradable
      else if 4096 <? total + n then Err ErrInvalid
      else selection_items p (total + n) items'
  end.

Fixpoint selection_uuids (seen : list Z) (ids : list Z) : res () :=
  match ids with
  | [] => Ok ()
  | id :: ids' =>
      if (id =? 0) || contains seen id then Err ErrInvalid else selection_uuids (id :: seen) ids'
  end.

Definition Selection (p : Policy) (v : option TradeAssetSelection) : res () :=
  match v with
  | None => Err ErrInvalid
  | Some v =>
      let items := Z.of_nat (length (sel_items v)) in
      let uuids := Z.of_nat (length (sel_uuids v)) in
      if (16 <? items) || (8 <? uuids)
         || ((items + uuids =? 0) && (sel_pet v =? 0) && (sel_amount v =? 0))
      then Err ErrInvalid
      else if ((sel_amount v =? 0) && negb (sel_currency v =? 0)) || (MaxInt64 <? sel_amount v)
      then Err ErrInvalid
      else if (0 <? sel_amount v) && ((sel_currency v =? 2) || negb (contains (po_currencies p) (sel_currency v)))
      then Err ErrNotTradable
      else
        _ ← selection_items p 0 (sel_items v);
        _ ← selection_uuids [] (sel_uuids v);
        if ((0 <? uuids) || negb (sel_pet v =? 0)) && negb (po_allow_instances p)
        then Err ErrNotTradable else Ok ()
  end.

(** [Policy.Snapshot] *)
Definition Snapshot (p : Policy) (v : option AssetSnapshot) : bool :=
  match v with
  | None => true
  | Some v =>
      forallb (fun i => contains (po_items p) (ii_config i)) (as_items v)
      && match as_pet v with None => true | Some pet => contains (po_pets p) (pi_table pet) end
  end.

Definition validPrice (price c : Z) (p : Policy) : bool :=
  (0 <? price) && (price <=? MaxInt64) && negb (c =? 2) && contains (po_currencies p) c.

(** ** Bundles *)
Definition key_less (a b : Z * Z) : bool := a.1 <? b.1.

Definition Bundle (v : option TradeAssetSelection) : AssetBundle :=
  let v := default no_selection v in
  mkBundle (if 0 <? sel_amount v then [(sel_currency v, sel_amount v)] else [])
    (sort_stable key_less (sel_items v)) (sel_uuids v) (sel_pet v) [] None.

(** The set of wanted instances, and the pass that crosses them off. *)
Fixpoint wanted_ids (wanted : gset Z) (ids : list Z) : res (gset Z) :=
  match ids with
  | [] => Ok wanted
  | id :: ids' =>
      if (id =? 0) || bool_decide (id ∈ wanted) then Err ErrCustody
      else wanted_ids ({[id]} ∪ wanted) ids'
  end.

Fixpoint cross_off (wanted : gset Z) (items : list AssetItemInstance) : res (gset Z) :=
  match items with
  | [] => Ok wanted
  | item :: items' =>
      if bool_decide (ii_uuid item ∈ wanted) then cross_off (wanted ∖ {[ii_uuid item]}) items'
      else Err ErrCustody
  end.

Definition is_some {A} (o : option A) : bool := match o with Some _ => true | None => false end.

(** The custody of a debit as the bundle of a credit: the instances of the
    snapshot in the place of the identifiers of the request. *)
Definition Transfer (b : option AssetBundle) (s : option AssetSnapshot) : res AssetBundle :=
  match b with
  | None => Err ErrCustody
  | Some b =>
      if negb (bool_decide (length (b_instances b) = 0%nat)) || is_some (b_pet_instance b)
      then Err ErrCustody
      else if (negb (bool_decide (length (b_uuids b) = 0%nat)) || (0 <? b_pet b)) && negb (is_some s)
      then Err ErrCustody
      else
        let instances := match s with Some s => as_items s | None => [] end in
        let pet := match s with Some s => as_pet s | None => None end in
        if negb (bool_decide (length (b_uuids b) = length instances))
           || negb (Bool.eqb (negb (b_pet b =? 0)) (is_some pet))
        then Err ErrCustody
        else
          wanted ← wanted_ids ∅ (b_uuids b);
          wanted ← cross_off wanted instances;
          if negb (bool_decide (wanted = ∅))
             || match pet with Some p => negb (pi_pet_id p =? b_pet b) | None => false end
          then Err ErrCustody
          else Ok (mkBundle (b_currencies b) (b_items b) [] 0 instances pet)
  end.

(** ** Keys and numbers in strings *)

(** [strings.HasPrefix] and [strings.HasSuffix] *)
Definition HasPrefix (s prefix : string) : bool := String.prefix prefix s.
Definition HasSuffix (s suffix : string) : bool :=
  (String.length suffix <=? String.length s)%nat
  && bool_decide (String.substring (String.length s - String.length suffix) (String.length suffix) s = suffix).

Definition hex_digit (n : N) : Ascii.ascii :=
  Ascii.ascii_of_N (if (n <? 10)%N then 48 + n else 87 + n).

(** [hex.EncodeToString] *)
Fixpoint EncodeToString (s : string) : string :=
  match s with
  | EmptyString => EmptyString
  | String a s' =>
      let n := Ascii.N_of_ascii a in
      String (hex_digit (n / 16)) (String (hex_digit (n mod 16)) (EncodeToString s'))
  end.

(** [sha256] is [sha256.Sum256]. *)
Definition RequestKey (sha256 : string -> string) (scope : string) (player : Z) (id : string) : string :=
  EncodeToString (sha256 (scope +:+ ":" +:+ FormatUint player +:+ ":" +:+ id)%string).

(** ** Legs *)
Definition role_is (role : string) (l : TradeCommerceLeg) : bool := bool_decide (l_role l = role).

Definition leg (w : TradeCommerceWorkflow) (role : string) : option TradeCommerceLeg :=
  find_first (role_is role) (w_legs w).

Definition addLeg (w : TradeCommerceWorkflow) (role : string) (player stream : Z)
    (bundle : option AssetBundle) : TradeCommerceWorkflow :=
  match leg w role with
  | Some _ => w
  | None => set_legs w (w_legs w ++ [mkLeg role player stream bundle 0 None 0])
  end.

(** [from] is the pointer the caller got from [leg]. *)
Definition transferLeg (w : TradeCommerceWorkflow) (role : string) (to : Z)
    (from : option TradeCommerceLeg) : res TradeCommerceWorkflow :=
  match from with
  | None => Err ErrNilLeg
  | Some from =>
      b ← Transfer (l_bundle from) (l_snapshot from);
      Ok (addLeg w role to StreamCredit (Some b))
  end.

Definition done (l : option TradeCommerceLeg) : bool :=
  match l with Some l => negb (l_outcome l =? 0) | None => false end.

Definition applied (l : option TradeCommerceLeg) : bool :=
  match l with Some l => l_outcome l =? 2 | None => false end.

Fixpoint final_credits (legs : list TradeCommerceLeg) : bool * bool :=
  match legs with
  | [] => (true, true)
  | l :: legs' =>
      if l_stream l =? StreamCredit then
        if negb (done (Some l)) then (false, false)
        else if negb (applied (Some l)) then (true, false)
        else final_credits legs'
      else final_credits legs'
  end.

Definition finalCredits (w : TradeCommerceWorkflow) : bool * bool := final_credits (w_legs w).
