(* ===== verification/CommercePlan.v ===== *)
(** * Trade: the planning of a contract

    [Engine.plan] and [RmbConsignments.planRmb]
    ([go/trade/internal/commerce/engine.go], [rmb.go]): the pure function of a
    contract, the outcomes of its legs and the time, which decides the next legs
    and the next stage. The blocks of [plan] run one after the other on the same
    contract; a block that returns ends the function. *)

From stdpp Require Import base list gmap strings.
From Stdlib Require Import ZArith Lia.
From S2P Require Import Prelude CommerceData.
Local Open Scope Z_scope.

(** ** Control flow of the blocks *)
Definition contract : Type := TradeCommerceRecord * TradeCommerceWorkflow.

Inductive flow :=
  | Next (r : TradeCommerceRecord) (w : TradeCommerceWorkflow)
  | Return (r : TradeCommerceRecord) (w : TradeCommerceWorkflow)
  | Fail (e : error).

Definition then_block (f : flow) (k : TradeCommerceRecord -> TradeCommerceWorkflow -> flow) : flow :=
  match f with Next r w => k r w | Return r w => Return r w | Fail e => Fail e end.
Notation "f >>> k" := (then_block f k) (at level 50, left associativity).

Definition finish_flow (f : flow) : res contract :=
  match f with Next r w => Ok (r, w) | Return r w => Ok (r, w) | Fail e => Err e end.

Definition of_res (m : res contract) : flow :=
  match m with Ok c => Next c.1 c.2 | Err e => Fail e end.

(** ** Transfers the blocks share *)

(** [if applied(from) { transferLeg(w, role, to, from) }] *)
Definition return_leg (w : TradeCommerceWorkflow) (role : string) (to : Z)
    (from : option TradeCommerceLeg) : res TradeCommerceWorkflow :=
  if applied from then transferLeg w role to from else Ok w.

(** ** The blocks of [plan] *)
Definition plan_official (r : TradeCommerceRecord) (w : TradeCommerceWorkflow) : flow :=
  if stage_is w SOfficialDeliver then
    let w := addLeg w "official_credit" (r_buyer r) StreamCredit (w_official_bundle w) in
    let l := leg w "official_credit" in
    if negb (done l) then Return r w
    else if applied l then Return (set_r_status r Settled) (set_stage w SDone)
    else Return (set_r_status r RefundPending) (set_stage w SOfficialRefund)
  else Next r w.

Definition plan_offer_escrow (p : Policy) (r : TradeCommerceRecord) (w : TradeCommerceWorkflow) : flow :=
  if stage_is w SOfferEscrow then
    let w := addLeg w "seller_debit" (r_seller r) StreamDebit (Some (Bundle (w_seller_assets w))) in
    let a := leg w "seller_debit" in
    if negb (done a) then Return r w
    else if negb (applied a) then Return (set_r_status r Cancelled) (set_stage w SDone)
    else
      let w := if negb (Snapshot p (a ≫= l_snapshot)) then set_cancel_requested w true else w in
      Next (set_r_status r Waiting) (set_stage w SConfirm)
  else Next r w.

Definition plan_buyer_escrow (p : Policy) (r : TradeCommerceRecord) (w : TradeCommerceWorkflow) : flow :=
  if stage_is w SBuyerEscrow then
    let w := addLeg w "buyer_debit" (r_buyer r) StreamDebit (Some (Bundle (w_buyer_assets w))) in
    let b := leg w "buyer_debit" in
    if negb (done b) then Return r w
    else
      let w := if negb (applied b) || negb (Snapshot p (b ≫= l_snapshot))
               then set_cancel_requested w true else w in
      Next (set_r_status r Waiting) (set_stage w SConfirm)
  else Next r w.

Definition plan_confirm (now : Z) (r : TradeCommerceRecord) (w : TradeCommerceWorkflow) : flow :=
  if (r_kind r =? PlayerTradeKind) && stage_is w SConfirm
     && (w_cancel_requested w || (r_expires r <=? now)) then
    let w := set_stage w SReturn in
    let r := set_r_status r CancelPending in
    of_res (
      w ← return_leg w "seller_return" (r_seller r) (leg w "seller_debit");
      w ← return_leg w "buyer_return" (r_buyer r) (leg w "buyer_debit");
      Ok (r, w))
  else Next r w.

Definition plan_bid_freeze (r : TradeCommerceRecord) (w : TradeCommerceWorkflow) : flow :=
  if stage_is w SBidFreeze then
    let w := addLeg w "bid_debit" (r_seller r) StreamDebit (Some (Bundle (w_seller_assets w))) in
    let b := leg w "bid_debit" in
    if done b then
      if applied b then Next r (set_stage w SBidReady)
      else Next (set_r_status r Cancelled) (set_stage w SDone)
    else Next r w
  else Next r w.

Definition ErrBidRefund : error := "commerce: refund without an applied debit"%string.

Definition plan_bid_refund (r : TradeCommerceRecord) (w : TradeCommerceWorkflow) : flow :=
  if stage_is w SBidRefund then
    let b := leg w "bid_debit" in
    if negb (applied b) then Fail ErrBidRefund
    else of_res (
      w ← transferLeg w "bid_return" (r_seller r) b;
      Ok (set_r_status r CancelPending, set_stage w SReturn))
  else Next r w.

Definition plan_escrow (p : Policy) (r : TradeCommerceRecord) (w : TradeCommerceWorkflow) : flow :=
  if stage_is w SEscrow then
    let both := r_kind r =? PlayerTradeKind in
    let w := addLeg w "seller_debit" (r_seller r) StreamDebit (Some (Bundle (w_seller_assets w))) in
    let w := if both then addLeg w "buyer_debit" (r_buyer r) StreamDebit (Some (Bundle (w_buyer_assets w)))
             else w in
    let a := leg w "seller_debit" in
    let b := leg w "buyer_debit" in
    if negb (done a) || (both && negb (done b)) then Return r w
    else if negb (applied a) || (both && negb (applied b))
            || (applied a && negb (Snapshot p (a ≫= l_snapshot)))
            || (applied b && negb (Snapshot p (b ≫= l_snapshot))) then
      let w := set_stage w SReturn in
      let r := set_r_status r CancelPending in
      of_res (
        w ← return_leg w "seller_return" (r_seller r) a;
        w ← return_leg w "buyer_return" (r_buyer r) b;
        Ok (r, w))
    else if both then
      let w := set_stage w SDeliver in
      let r := set_r_status r Delivering in
      of_res (
        w ← transferLeg w "seller_receive" (r_seller r) b;
        w ← transferLeg w "buyer_receive" (r_buyer r) a;
        Ok (r, w))
    else if r_kind r =? MarketKind then Next r (set_stage w SMarketOpen)
    else if r_kind r =? LotKind then Next r (set_stage w SLotOpen)
    else Next r (set_stage w SOpen)
  else Next r w.

(** The leg of the purchase in progress: a leg of the plain role, or the first
    one whose role carries the request key after it. *)
Definition pay_role (w : TradeCommerceWorkflow) : string :=
  ("buyer_debit_" +:+ FormatUint (w_quantity_reserved w))%string.

Definition pay_leg (w : TradeCommerceWorkflow) : option TradeCommerceLeg :=
  match find_first (fun l => HasPrefix (l_role l) (pay_role w +:+ "_")) (w_legs w) with
  | Some l => Some l
  | None => leg w (pay_role w)
  end.

Definition plan_pay (r : TradeCommerceRecord) (w : TradeCommerceWorkflow) : flow :=
  if stage_is w SPay then
    let name := pay_role w in
    let w := match pay_leg w with
             | Some _ => w
             | None => addLeg w name (r_buyer r) StreamDebit (Some (Bundle (w_buyer_assets w)))
             end in
    let b := pay_leg w in
    if negb (done b) then Return r w
    else if negb (applied b) then Next (set_r_buyer r 0) (set_stage w SOpen)
    else
      let w := set_stage w SDeliver in
      let r := set_r_status r Delivering in
      of_res (
        w ← transferLeg w "buyer_receive" (r_buyer r) (leg w "seller_debit");
        w ← transferLeg w "seller_receive" (r_seller r) b;
        Ok (r, w))
  else Next r w.

Definition plan_lot_sold (now : Z) (r : TradeCommerceRecord) (w : TradeCommerceWorkflow) : flow :=
  if stage_is w SLotOpen && (r_expires r <=? now) && negb (w_highest_bidder w =? 0) then
    let w := set_stage w SDeliver in
    let r := set_r_status r Delivering in
    of_res (
      w ← transferLeg w "buyer_receive" (w_highest_bidder w) (leg w "seller_debit");
      Ok (r, addLeg w "seller_receive" (r_seller r) StreamCredit (Some (Bundle (w_buyer_assets w)))))
  else Next r w.

Definition plan_expire (now : Z) (r : TradeCommerceRecord) (w : TradeCommerceWorkflow) : flow :=
  if (stage_is w SOpen || stage_is w SLotOpen) && (r_expires r <=? now)
  then Next r (set_cancel_requested w true) else Next r w.

(** What a cancelled market order gets back: its unfilled remainder. *)
Definition market_remainder (r : TradeCommerceRecord) : AssetBundle :=
  let remaining := u32 (r_quantity r - r_filled r) in
  if remaining =? 0 then no_bundle
  else if r_side r =? 1 then currency_bundle (r_currency r) (u64 (remaining * r_unit_price r))
  else item_bundle (r_item_config r) remaining.

Definition has_assets (b : AssetBundle) : bool :=
  (0 <? length (b_currencies b) + length (b_items b) + length (b_instances b))%nat
  || is_some (b_pet_instance b).

Definition plan_cancel (r : TradeCommerceRecord) (w : TradeCommerceWorkflow) : flow :=
  if w_cancel_requested w
     && (stage_is w SOpen || (stage_is w SLotOpen && (w_highest_bidder w =? 0)) || stage_is w SMarketOpen)
  then
    let w := set_stage w SReturn in
    let r := set_r_status r CancelPending in
    match leg w "seller_debit" with
    | None => Fail ErrNilLeg
    | Some a =>
        match Transfer (l_bundle a) (l_snapshot a) with
        | Err e => Fail e
        | Ok b =>
            let b := if r_kind r =? MarketKind then market_remainder r else b in
            if has_assets b
            then Next r (addLeg w "seller_return" (r_seller r) StreamCredit (Some b))
            else Next r w
        end
    end
  else Next r w.

Definition plan_finish (r : TradeCommerceRecord) (w : TradeCommerceWorkflow) : flow :=
  if stage_is w SDeliver || stage_is w SReturn then
    let '(ready, ok) := finalCredits w in
    if ready then
      let w := set_stage w SDone in
      if negb ok then Next (set_r_status r Manual) w
      else if r_status r =? CancelPending then Next (set_r_status r Cancelled) w
      else Next (set_r_status r Settled) w
    else Next r w
  else Next r w.

(** ** [planRmb] *)
Definition ErrRmbTerms : error := "commerce: rmb contract without terms"%string.
Definition ErrRmbDelivery : error := "commerce: rmb delivery without an applied debit"%string.

Definition rmb_escrow (p : Policy) (r : TradeCommerceRecord) (w : TradeCommerceWorkflow) : res contract :=
  let w := addLeg w "seller_debit" (r_seller r) StreamDebit (Some (Bundle (w_seller_assets w))) in
  let a := leg w "seller_debit" in
  if negb (done a) then Ok (r, w)
  else if negb (applied a) then Ok (set_r_status r Cancelled, set_stage w SRmbReturned)
  else if w_cancel_requested w || negb (Snapshot p (a ≫= l_snapshot)) then
    w ← transferLeg (set_stage w SRmbReturn) "seller_return" (r_seller r) a;
    Ok (set_r_status r CancelPending, w)
  else Ok (set_r_status r Escrowing, set_stage w SRmbReady).

Definition rmb_delivery (r : TradeCommerceRecord) (w : TradeCommerceWorkflow) : res contract :=
  let a := leg w "seller_debit" in
  if negb (applied a) then Err ErrRmbDelivery
  else
    w ← transferLeg w "rmb_buyer_credit" (r_buyer r) a;
    let l := leg w "rmb_buyer_credit" in
    if done l then
      if applied l then Ok (set_r_status r Settled, set_stage w SRmbDelivered)
      else Ok (set_r_status r RefundPending, set_stage w SRmbRefund)
    else Ok (r, w).

Definition rmb_return (r : TradeCommerceRecord) (w : TradeCommerceWorkflow) : res contract :=
  w ← return_leg w "seller_return" (r_seller r) (leg w "seller_debit");
  let returned := leg w "seller_return" in
  if negb (is_some returned) || done returned then
    if negb (is_some returned) || applied returned
    then Ok (set_r_status r Cancelled, set_stage w SRmbReturned)
    else Ok (set_r_status r Manual, set_stage w SManual)
  else Ok (r, w).

Definition planRmb (p : Policy) (r : TradeCommerceRecord) (w : TradeCommerceWorkflow) : res contract :=
  match w_rmb w with
  | None => Err ErrRmbTerms
  | Some t =>
      if stage_is w SRmbEscrow then rmb_escrow p r w
      else if stage_is w SRmbDelivery then
        if negb (rb_character_player_id t =? 0) then Ok (r, w) else rmb_delivery r w
      else if stage_is w SRmbReturn then
        if negb (rb_character_player_id t =? 0) then Ok (r, w) else rmb_return r w
      else Ok (r, w)
  end.

(** ** [plan] *)
Definition plan (p : Policy) (r : TradeCommerceRecord) (w : TradeCommerceWorkflow) (now : Z) : res contract :=
  if r_kind r =? RmbKind then planRmb p r w
  else finish_flow (
    plan_official r w
    >>> plan_offer_escrow p
    >>> plan_buyer_escrow p
    >>> plan_confirm now
    >>> plan_bid_freeze
    >>> plan_bid_refund
    >>> plan_escrow p
    >>> plan_pay
    >>> plan_lot_sold now
    >>> plan_expire now
    >>> plan_cancel
    >>> plan_finish).
