(* ===== verification/AssetOps.v ===== *)
(** * Trade: the asset command outbox

    [go/trade/internal/data/asset_op_repo.go] with the sequence numbers of
    [go/shared/assetop/seq.go] and [types.go]: the tables [trade_player_op_seq]
    and [trade_asset_op]. A row of the second is one command that a delivery loop
    repeats until the scene answers; it leaves PENDING once, through the loop, by
    hand or by abandonment. An operation is one transaction attempt on the two
    tables; [Claim] and [ReleaseLease] are single statements. *)

From stdpp Require Import base list gmap strings.
From Stdlib Require Import ZArith Lia.
From S2P Require Import Prelude CommerceData.
Local Open Scope Z_scope.

(** ** Rows *)

(** Column [status], and [assetop.Status], which has the same numbers. *)
Definition OpUnspecified : Z := 0.
Definition OpPending : Z := 1.
Definition OpApplied : Z := 2.
Definition OpRejected : Z := 3.
Definition OpAborted : Z := 4.
Definition OpAppliedPartial : Z := 5.
Definition OpAbandoned : Z := 6.

Definition KindEscrowDebit : Z := 1.
Definition KindDeliverCredit : Z := 2.
Definition RefKindOrder : Z := 2.

(** A blob column: empty, bytes that do not decode, or a message. *)
Inductive snapshot_blob := NoBlob | BadBlob | Blob (s : AssetSnapshot).

(** [trade_asset_op]; [op_payload] is [None] when its bytes do not decode. *)
Record TradeAssetOpRecord := mkOp {
  op_id : Z; op_player : Z; op_stream : Z; op_epoch : Z; op_seq : Z; op_kind : Z; op_status : Z;
  op_durable : bool; op_attempts : Z; op_next_attempt : Z; op_deadline : Z; op_lease_until : Z;
  op_lease_token : Z; op_tx_type : Z; op_ref_kind : Z; op_ref_id : Z; op_payload : option AssetBundle;
  op_last_outcome : Z; op_last_reason : Z; op_created : Z; op_updated : Z; op_resolved_by : string;
  op_resolve_reason : string; op_last_send : Z; op_snapshot : snapshot_blob; op_ack_pending : bool;
  op_consumed : bool }.

(** [trade_player_op_seq] *)
Record SeqRow := mkSeqRow { sq_next : Z; sq_epoch : Z; sq_updated : Z }.

Record Outbox := mkOutbox {
  ob_seq : gmap (Z * Z) SeqRow;
  ob_op : gmap Z TradeAssetOpRecord }.

Definition with_seq (o : Outbox) s : Outbox := mkOutbox s (ob_op o).
Definition with_op (o : Outbox) m : Outbox := mkOutbox (ob_seq o) m.

(** The columns the statements write. *)
Definition op_lease (r : TradeAssetOpRecord) (last until token now : Z) : TradeAssetOpRecord :=
  mkOp (op_id r) (op_player r) (op_stream r) (op_epoch r) (op_seq r) (op_kind r) (op_status r)
    (op_durable r) (op_attempts r) (op_next_attempt r) (op_deadline r) until token (op_tx_type r)
    (op_ref_kind r) (op_ref_id r) (op_payload r) (op_last_outcome r) (op_last_reason r)
    (op_created r) now (op_resolved_by r) (op_resolve_reason r) last (op_snapshot r)
    (op_ack_pending r) (op_consumed r).

Definition op_close (r : TradeAssetOpRecord) (status : Z) (durable : bool) (outcome reason : Z)
    (by_ why : string) (now : Z) : TradeAssetOpRecord :=
  mkOp (op_id r) (op_player r) (op_stream r) (op_epoch r) (op_seq r) (op_kind r) status
    durable (op_attempts r) now (op_deadline r) 0 (op_lease_token r) (op_tx_type r)
    (op_ref_kind r) (op_ref_id r) (op_payload r) outcome reason
    (op_created r) now by_ why (op_last_send r) (op_snapshot r)
    (op_ack_pending r) (op_consumed r).

Definition op_defer (r : TradeAssetOpRecord) (attempts next : Z) (durable : bool)
    (outcome reason now last : Z) : TradeAssetOpRecord :=
  mkOp (op_id r) (op_player r) (op_stream r) (op_epoch r) (op_seq r) (op_kind r) (op_status r)
    durable attempts next (op_deadline r) 0 (op_lease_token r) (op_tx_type r)
    (op_ref_kind r) (op_ref_id r) (op_payload r) outcome reason
    (op_created r) now (op_resolved_by r) (op_resolve_reason r) last (op_snapshot r)
    (op_ack_pending r) (op_consumed r).

Definition op_marks (r : TradeAssetOpRecord) (deadline : Z) (snap : snapshot_blob)
    (ack consumed : bool) : TradeAssetOpRecord :=
  mkOp (op_id r) (op_player r) (op_stream r) (op_epoch r) (op_seq r) (op_kind r) (op_status r)
    (op_durable r) (op_attempts r) (op_next_attempt r) deadline (op_lease_until r) (op_lease_token r)
    (op_tx_type r) (op_ref_kind r) (op_ref_id r) (op_payload r) (op_last_outcome r) (op_last_reason r)
    (op_created r) (op_updated r) (op_resolved_by r) (op_resolve_reason r) (op_last_send r) snap
    ack consumed.

(** ** Errors *)
Definition ErrTooManyPending : error := "assetop: ErrTooManyPending"%string.
Definition ErrSeqRowMissing : error := "assetop: ErrSeqRowMissing"%string.
Definition ErrSeqRowCorrupt : error := "assetop: ErrSeqRowCorrupt"%string.
Definition ErrSeqKey : error := "trade: invalid seq key"%string.
Definition ErrSeqGuardRowMissing : error := "trade: ErrSeqGuardRowMissing"%string.
Definition ErrSeqRowMissingInTx : error := "trade: ErrSeqRowMissingInTx"%string.
Definition ErrEpoch : error := "assetop: epoch must be positive"%string.
Definition ErrDuplicateKey : error := "duplicate key"%string.
Definition ErrFinalStatus : error := "trade: invalid final status"%string.
Definition ErrPartialApplied : error := "trade: partial result finalized as applied"%string.
Definition ErrNoCommitProof : error := "trade: no proof of the player's commit"%string.
Definition ErrLeaseLost : error := "assetop: ErrLeaseLost"%string.
Definition ErrPoisonRow : error := "assetop: ErrPoisonRow"%string.
Definition ErrAbandon : error := "trade: abandon refused"%string.

(** ** Sequence rows *)
Notation SeqKey := (Z * Z)%type.

Definition seqkey_less (a b : SeqKey) : bool :=
  if negb (a.1 =? b.1) then a.1 <? b.1 else a.2 <? b.2.

(** [slices.Compact]: equal neighbours become one. *)
Fixpoint compact (l : list SeqKey) : list SeqKey :=
  match l with
  | [] => []
  | a :: l' =>
      match l' with
      | b :: _ => if bool_decide (a = b) then compact l' else a :: compact l'
      | [] => [a]
      end
  end.

Definition normalizeSeqKeys (keys : list SeqKey) : res (list SeqKey) :=
  if existsb (fun k => (k.1 =? 0) || (k.2 =? 0)) keys then Err ErrSeqKey
  else Ok (compact (sort_stable seqkey_less keys)).

Definition missingSeqRows (o : Outbox) (keys : list SeqKey) : list SeqKey :=
  keep_if (fun k => negb (is_some (ob_seq o !! k))) keys.

(** [INSERT IGNORE ... next_seq = 1] *)
Definition ensureSeqRow (o : Outbox) (k : SeqKey) (nowMs : Z) : res Outbox :=
  if nowMs =? 0 then Err ErrEpoch
  else match ob_seq o !! k with
  | Some _ => Ok o
  | None => Ok (with_seq o (<[k := mkSeqRow 1 nowMs nowMs]> (ob_seq o)))
  end.

Definition EnsureSeqGuardRow (o : Outbox) (nowMs : Z) : res Outbox := ensureSeqRow o (0, 0) nowMs.

Definition ensureSeqRowsTx (o : Outbox) (nowMs : Z) (keys : list SeqKey) : res Outbox :=
  let missing := missingSeqRows o keys in
  if bool_decide (missing = []) then Ok o
  else match ob_seq o !! (0, 0) with
  | None => Err ErrSeqGuardRowMissing
  | Some _ => fold_res (fun o k => ensureSeqRow o k nowMs) o missing
  end.

(** [probe] is the state the unlocked read sees, before the transaction on [o]. *)
Definition EnsureSeqRows (probe o : Outbox) (nowMs : Z) (keys : list SeqKey) : res Outbox :=
  ordered ← normalizeSeqKeys keys;
  let missing := missingSeqRows probe ordered in
  if bool_decide (missing = []) then Ok o else ensureSeqRowsTx o nowMs missing.

(** ** Allocation *)
Record Limits := mkLimits { MaxPending : Z; MaxSpan : Z }.
Definition DefaultLimits : Limits := mkLimits 16 512.

Definition pending_of (k : SeqKey) (epoch : Z) (r : TradeAssetOpRecord) : bool :=
  (op_player r =? k.1) && (op_stream r =? k.2) && (op_epoch r =? epoch) && (op_status r =? OpPending).

Definition op_rows (o : Outbox) : list TradeAssetOpRecord := (map_to_list (ob_op o)).*2.

(** [SELECT seq ... ORDER BY seq LIMIT MaxPending+1] *)
Definition pending_seqs (o : Outbox) (k : SeqKey) (epoch limit : Z) : list Z :=
  take (Z.to_nat (limit + 1))
    (sort_stable Z.ltb (op_seq <$> keep_if (pending_of k epoch) (op_rows o))).

Record Alloc := mkAlloc { al_epoch : Z; al_seq : Z }.

Definition AllocateSeq (lim : Limits) (o : Outbox) (k : SeqKey) (nowMs : Z) : res (Alloc * Outbox) :=
  match ob_seq o !! k with
  | None => Err ErrSeqRowMissing
  | Some row =>
      if sq_epoch row =? 0 then Err ErrSeqRowCorrupt
      else
        let pending := pending_seqs o k (sq_epoch row) (MaxPending lim) in
        if MaxPending lim <=? Z.of_nat (length pending) then Err ErrTooManyPending
        else if match pending with
                | first :: _ => MaxSpan lim <=? u64 (sq_next row - first)
                | [] => false end then Err ErrTooManyPending
        else Ok (mkAlloc (sq_epoch row) (sq_next row),
                 with_seq o (<[k := mkSeqRow (u64 (sq_next row + 1)) (sq_epoch row) nowMs]> (ob_seq o)))
  end.

Definition allocate_one (nowMs : Z) (s : gmap SeqKey Alloc * Outbox) (k : SeqKey)
    : res (gmap SeqKey Alloc * Outbox) :=
  '(a, o) ← AllocateSeq DefaultLimits s.2 k nowMs;
  Ok (<[k := a]> s.1, o).

Definition AllocateSeqsTx (o : Outbox) (nowMs : Z) (keys : list SeqKey)
    : res (gmap SeqKey Alloc * Outbox) :=
  ordered ← normalizeSeqKeys keys;
  if negb (bool_decide (missingSeqRows o ordered = [])) then Err ErrSeqRowMissingInTx
  else fold_res (allocate_one nowMs) (∅, o) ordered.

(** ** Insertion: the primary key and the unique key of the stream *)
Definition same_position (a b : TradeAssetOpRecord) : bool :=
  (op_player a =? op_player b) && (op_stream a =? op_stream b)
  && (op_epoch a =? op_epoch b) && (op_seq a =? op_seq b).

Definition insertLastSendMs (rec : TradeAssetOpRecord) : Z := Z.max (op_last_send rec) (op_created rec).

Definition InsertOp (o : Outbox) (rec : TradeAssetOpRecord) : res Outbox :=
  let rec := op_lease rec (insertLastSendMs rec) (op_lease_until rec) (op_lease_token rec) (op_updated rec) in
  if is_some (ob_op o !! op_id rec) || existsb (same_position rec) (op_rows o) then Err ErrDuplicateKey
  else Ok (with_op o (<[op_id rec := rec]> (ob_op o))).

(** ** The delivery loop's statements *)
Definition FreshAttemptLimit : Z := 3.

Definition due_less (a b : TradeAssetOpRecord) : bool :=
  if negb (op_next_attempt a =? op_next_attempt b) then op_next_attempt a <? op_next_attempt b
  else op_id a <? op_id b.

Definition listDueSegment (o : Outbox) (nowMs : Z) (limit : nat) (freshOnly : bool) : list Z :=
  op_id <$> take limit (sort_stable due_less (keep_if (fun r =>
    (op_status r =? OpPending) && (op_next_attempt r <=? nowMs) && (op_lease_until r <? nowMs)
    && (if freshOnly then op_attempts r <? FreshAttemptLimit else FreshAttemptLimit <=? op_attempts r))
    (op_rows o))).

(** The two segments are two reads, [o2] is the state the second one sees. *)
Definition ListDue (o o2 : Outbox) (nowMs : Z) (limit : nat) : list Z :=
  let fresh := listDueSegment o nowMs limit true in
  if (limit <=? length fresh)%nat then fresh
  else fresh ++ keep_if (fun id => negb (bool_decide (id ∈ fresh)))
                  (listDueSegment o2 nowMs (limit - length fresh) false).

(** [UPDATE ... WHERE op_id = ? AND cond]: [None] when no row is affected. *)
Definition update_op (o : Outbox) (id : Z) (cond : TradeAssetOpRecord -> bool)
    (f : TradeAssetOpRecord -> TradeAssetOpRecord) : option Outbox :=
  match ob_op o !! id with
  | Some r => if cond r then Some (with_op o (<[id := f r]> (ob_op o))) else None
  | None => None
  end.

Definition is_pending (r : TradeAssetOpRecord) : bool := op_status r =? OpPending.
Definition pending_token (token : Z) (r : TradeAssetOpRecord) : bool :=
  is_pending r && (op_lease_token r =? token).

Record Op := mkOpView {
  o_id : Z; o_player : Z; o_stream : Z; o_seq : Z; o_epoch : Z; o_correlation : Z; o_tx_type : Z;
  o_bundle : AssetBundle; o_attempts : Z; o_deadline : Z; o_token : Z; o_last_reason : Z;
  o_created : Z; o_last_send : Z }.

Definition claim_row (now until token : Z) (r : TradeAssetOpRecord) : TradeAssetOpRecord :=
  op_lease r
    (Z.max (if op_last_send r =? 0 then Z.max (op_created r) (op_updated r) else op_last_send r)
       (op_lease_until r))
    until token now.

(** The decoded row of a claim that succeeded. *)
Definition claimed_op (r : TradeAssetOpRecord) (bundle : AssetBundle) (token : Z) : Op :=
  mkOpView (op_id r) (op_player r) (op_stream r) (op_seq r) (op_epoch r) (op_id r) (op_tx_type r)
    bundle (op_attempts r) (op_deadline r) token (op_last_reason r) (op_created r) (op_last_send r).

Definition markPoison (o : Outbox) (id token now poisonUntil : Z) : Outbox :=
  match update_op o id (pending_token token) (fun r =>
    op_defer r (op_attempts r) poisonUntil (op_durable r) 0 (op_last_reason r) now (op_last_send r)) with
  | Some o' => o' | None => o end.

(** The lease is taken whatever the payload; [Ok None]: the row is another
    worker's. *)
Definition Claim (o : Outbox) (id now until poisonUntil token : Z) : Outbox * res (option Op) :=
  match update_op o id (fun r => is_pending r && (op_lease_until r <? now)) (claim_row now until token) with
  | None => (o, Ok None)
  | Some o =>
      match ob_op o !! id with
      | None => (o, Ok None)
      | Some r =>
          match op_payload r with
          | None => (markPoison o id token now poisonUntil, Err ErrPoisonRow)
          | Some bundle => (o, Ok (Some (claimed_op r bundle token)))
          end
      end
  end.

(** ** Final states *)
Definition StatusToRecord (s : Z) : Z :=
  if s =? 1 then OpPending else if s =? 2 then OpApplied else if s =? 3 then OpRejected
  else if s =? 4 then OpAborted else if s =? 5 then OpAppliedPartial else if s =? 6 then OpAbandoned
  else OpUnspecified.

Definition isFinalizableRecord (st : Z) : bool :=
  (st =? OpApplied) || (st =? OpRejected) || (st =? OpAborted) || (st =? OpAppliedPartial).

Record Result := mkResult {
  rs_outcome : Z; rs_reason : Z; rs_durable : bool; rs_committed : bool; rs_partial : bool;
  rs_snapshot : option AssetSnapshot; rs_local : bool; rs_absent : bool }.

(** The bytes of a message: none of an empty one. *)
Definition marshal_snapshot (s : AssetSnapshot) : snapshot_blob :=
  match s with mkSnapshot [] None None => NoBlob | _ => Blob s end.

Definition store_snapshot (op_stream status : Z) (res : Result) (r : TradeAssetOpRecord) : TradeAssetOpRecord :=
  match rs_snapshot res with
  | Some s => if (status =? OpApplied) && (op_stream =? StreamDebit)
              then op_marks r (op_deadline r) (marshal_snapshot s) true (op_consumed r) else r
  | None => r
  end.

(** [stream] is the claimed command's. *)
Definition Finalize (o : Outbox) (id stream status : Z) (res : Result) (now : Z) : Prelude.res (bool * Outbox) :=
  if (status =? OpApplied) && rs_partial res then Err ErrPartialApplied
  else
    let final := StatusToRecord status in
    if negb (isFinalizableRecord final) then Err ErrFinalStatus
    else match ob_op o !! id with
    | None => Ok (false, o)
    | Some r =>
        if (op_ref_kind r =? RefKindOrder) && (negb (rs_committed res) || negb (rs_durable res))
        then Err ErrNoCommitProof
        else match update_op o id is_pending (fun r =>
               store_snapshot stream status res
                 (op_close r final true (rs_outcome res) (rs_reason res) (op_resolved_by r) (op_resolve_reason r) now)) with
        | None => Ok (false, o)
        | Some o' => Ok (true, o')
        end
    end.

Definition ResolveManually (o : Outbox) (id final : Z) (operator reason : string) (now : Z) : res (bool * Outbox) :=
  let final := StatusToRecord final in
  if negb (isFinalizableRecord final) then Err ErrFinalStatus
  else match update_op o id is_pending (fun r =>
         op_close r final (op_durable r) (op_last_outcome r) (op_last_reason r) operator reason now) with
  | None => Ok (false, o)
  | Some o' => Ok (true, o')
  end.

Definition Reschedule (o : Outbox) (id token next : Z) (res : Result) (now : Z) : Prelude.res Outbox :=
  match update_op o id (pending_token token) (fun r =>
    op_defer r (op_attempts r + 1) next (rs_durable res) (rs_outcome res) (rs_reason res) now
      (if negb (rs_local res) then Z.max (op_last_send r) now else op_last_send r)) with
  | Some o' => Ok o'
  | None => Err ErrLeaseLost
  end.

Definition abandonableStream : Z := StreamDebit.

Definition ListAbandonCandidates (o : Outbox) (createdBefore after : Z) (limit : nat) : list Z :=
  take limit (sort_stable Z.ltb (op_id <$> keep_if (fun r =>
    is_pending r && (op_stream r =? abandonableStream) && (op_created r <? createdBefore)
    && (after <? op_id r)) (op_rows o))).

Definition Abandon (o : Outbox) (id stream token now : Z) : res Outbox :=
  if token =? 0 then Err ErrAbandon
  else if negb (stream =? abandonableStream) then Err ErrAbandon
  else match update_op o id (pending_token token) (fun r =>
         op_close r OpAbandoned (op_durable r) (op_last_outcome r) (op_last_reason r)
           (op_resolved_by r) (op_resolve_reason r) now) with
  | Some o' => Ok o'
  | None => Err ErrLeaseLost
  end.

Definition ReleaseLease (o : Outbox) (id token now : Z) : res Outbox :=
  match update_op o id (pending_token token) (fun r =>
    op_lease r (op_last_send r) 0 (op_lease_token r) now) with
  | Some o' => Ok o'
  | None => Err ErrLeaseLost
  end.

(** ** Clean-up of finished rows *)
Definition cleanup_status (s : Z) : bool :=
  (s =? OpApplied) || (s =? OpRejected) || (s =? OpAborted) || (s =? OpAbandoned).

Definition cleanable (cutoff : Z) (r : TradeAssetOpRecord) : bool :=
  cleanup_status (op_status r) && negb (op_ack_pending r)
  && (negb (op_ref_kind r =? RefKindOrder) || op_consumed r) && (op_next_attempt r <? cutoff).

Definition deleteTerminalOp (o : Outbox) (id cutoff : Z) : Z * Outbox :=
  match ob_op o !! id with
  | Some r => if cleanable cutoff r then (1, with_op o (delete id (ob_op o))) else (0, o)
  | None => (0, o)
  end.

(** ** The statements of the contract engine *)
Definition commerce_ops (o : Outbox) (commerceID : Z) : list Z :=
  sort_stable Z.ltb (op_id <$> keep_if (fun r =>
    (op_ref_kind r =? RefKindOrder) && (op_ref_id r =? commerceID)) (op_rows o)).

Definition updateCommerceOpsTx (o : Outbox) (commerceID : Z) (cond : TradeAssetOpRecord -> bool)
    (f : TradeAssetOpRecord -> TradeAssetOpRecord) : Outbox :=
  foldl (fun o id => match update_op o id cond f with Some o' => o' | None => o end) o
    (commerce_ops o commerceID).

Definition ExpireCommerceEscrowDebitsTx (o : Outbox) (commerceID now : Z) : Outbox :=
  updateCommerceOpsTx o commerceID
    (fun r => (op_stream r =? StreamDebit) && (op_status r =? OpPending))
    (fun r => op_marks r now (op_snapshot r) (op_ack_pending r) (op_consumed r)).

Definition MarkCommerceOpsConsumedTx (o : Outbox) (commerceID : Z) : Outbox :=
  updateCommerceOpsTx o commerceID (fun _ => true)
    (fun r => op_marks r (op_deadline r) (op_snapshot r) (op_ack_pending r) true).

(** [CommerceRepo.Acked] *)
Definition Acked (o : Outbox) (id : Z) : Outbox :=
  match update_op o id (fun r => (op_status r =? OpApplied) && op_durable r)
    (fun r => op_marks r (op_deadline r) (op_snapshot r) false (op_consumed r)) with
  | Some o' => o' | None => o end.

(** [CommerceRepo.LegResult] with [LegOutcome.Pending], [Final] and [Source]. *)
Record LegOutcome := mkLegOutcome { lo_status : Z; lo_snapshot : snapshot_blob; lo_resolved_by : string }.

Definition LegResult (o : Outbox) (id : Z) : option LegOutcome :=
  match ob_op o !! id with
  | Some r => Some (mkLegOutcome (op_status r) (op_snapshot r) (op_resolved_by r))
  | None => None
  end.

Definition Pending (o : LegOutcome) : bool := lo_status o =? OpPending.

Definition Final (o : LegOutcome) : bool :=
  (lo_status o =? OpApplied) || (lo_status o =? OpRejected) || (lo_status o =? OpAborted)
  || (lo_status o =? OpAppliedPartial) || (lo_status o =? OpAbandoned).

Definition Source (o : LegOutcome) : string :=
  if lo_status o =? OpAbandoned then "abandoned"%string
  else if negb (bool_decide (lo_resolved_by o = ""%string)) then "manual"%string
  else "scene"%string.

(** [CommerceRepo.AckDue] *)
Definition AckDue (o : Outbox) (after : Z) (limit : nat) : list Z :=
  take limit (sort_stable Z.ltb (op_id <$> keep_if (fun r =>
    op_ack_pending r && (op_status r =? OpApplied) && op_durable r && (after <? op_id r)) (op_rows o))).
