(* ===== verification/AssetLedger.v ===== *)
(** * Asset commands: the player's ledger

    [go/shared/assetop/classify.go]: what the persisted ledger of a player says of
    one command, and of the scene ([cpp/libs/services/scene/player/system/asset_op_ledger.cpp])
    the bitmap and [RecordAssetOpOutcome], which writes it. A stream's ledger is a
    window of 1024 numbers above a watermark; bit [i] of its two bitmaps of sixteen
    words is number [watermark + 1 + i]. *)

From stdpp Require Import base list strings.
From Stdlib Require Import ZArith Lia.
From S2P Require Import Prelude CommerceData.
Local Open Scope Z_scope.

(** ** Data *)

(** [AssetOpOutcome], the enumeration of [asset_op.proto]. *)
Definition OUTCOME_UNKNOWN : Z := 0.
Definition OUTCOME_APPLIED : Z := 1.
Definition OUTCOME_REJECTED : Z := 2.
Definition OUTCOME_RETRY : Z := 3.
Definition OUTCOME_NOT_HERE : Z := 4.

Definition ReasonPlayerNotHere : Z := 27006.
Definition ReasonPartialApplied : Z := 27007.

Record AssetOpReceipt := mkReceipt {
  rc_seq : Z; rc_correlation : Z; rc_digest : string; rc_snapshot : option AssetSnapshot }.

Record AssetOpStreamLedger := mkStreamLedger {
  sl_stream : Z; sl_epoch : Z; sl_watermark : Z; sl_max : Z; sl_seen : list Z; sl_applied : list Z;
  sl_rejections : list (Z * Z); sl_partial : list Z; sl_receipts : list AssetOpReceipt }.

(** [PlayerAssetOpLedgerComp]: its streams. *)
Notation Ledger := (list AssetOpStreamLedger).

Definition WindowBits : Z := 1024.
Definition WindowWords : nat := 16.
Definition MaxSeqJump : Z := 1024.
Definition MaxUint64 : Z := u64_mod - 1.

Inductive SeqState :=
  | SeqInvalid | SeqStaleEpoch | SeqBehindWindow | SeqUnseen | SeqAheadOfWindow | SeqJumpTooFar
  | SeqApplied | SeqRejected.

#[global] Instance SeqState_eq_dec : EqDecision SeqState.
Proof. solve_decision. Defined.

(** ** Classification ([classify.go]) *)

(** The first stream ledger of that stream; [nil] reads as an empty one. *)
Definition FindStream (l : Ledger) (s : Z) : option AssetOpStreamLedger :=
  find_first (fun st => sl_stream st =? s) l.

Definition get_epoch (l : option AssetOpStreamLedger) : Z := from_option sl_epoch 0 l.

(** The [i]th bit: bit [i mod 64] of word [i / 64], none beyond the words. *)
Definition bitAt (words : list Z) (i : Z) : bool :=
  match words !! Z.to_nat (i / 64) with
  | Some w => negb (Z.land w (Z.shiftl 1 (i mod 64)) =? 0)
  | None => false
  end.

Definition ClassifySeq (l : option AssetOpStreamLedger) (epoch seq : Z) : SeqState :=
  if (seq =? 0) || (epoch =? 0) then SeqInvalid
  else if epoch <? get_epoch l then SeqStaleEpoch
  else if get_epoch l <? epoch then (if seq <=? WindowBits then SeqUnseen else SeqJumpTooFar)
  else match l with
  | None => SeqInvalid
  | Some l =>
      if negb ((length (sl_seen l) =? WindowWords)%nat && (length (sl_applied l) =? WindowWords)%nat)
      then SeqInvalid
      else if MaxUint64 - WindowBits <? sl_watermark l then SeqInvalid
      else if seq <=? sl_watermark l then SeqBehindWindow
      else if (sl_max l <=? MaxUint64 - MaxSeqJump) && (sl_max l + MaxSeqJump <? seq) then SeqJumpTooFar
      else if sl_watermark l + WindowBits <? seq then SeqAheadOfWindow
      else
        let i := seq - sl_watermark l - 1 in
        if negb (bitAt (sl_seen l) i) then SeqUnseen
        else if bitAt (sl_applied l) i then SeqApplied
        else SeqRejected
  end.

Definition rejectionReason (l : AssetOpStreamLedger) (seq : Z) : Z :=
  match find_first (fun r => r.1 =? seq) (sl_rejections l) with Some r => r.2 | None => 0 end.

Definition isPartialSeq (l : AssetOpStreamLedger) (seq : Z) : bool :=
  existsb (Z.eqb seq) (sl_partial l).

(** The outcome, whether it was partial, and the reason. *)
Definition ClassifyPersisted (l : Ledger) (s epoch seq : Z) : Z * bool * Z :=
  let stream := FindStream l s in
  match ClassifySeq stream epoch seq, stream with
  | SeqApplied, Some st =>
      if isPartialSeq st seq then (OUTCOME_APPLIED, true, ReasonPartialApplied) else (OUTCOME_APPLIED, false, 0)
  | SeqRejected, Some st => (OUTCOME_REJECTED, false, rejectionReason st seq)
  | _, _ => (OUTCOME_UNKNOWN, false, 0)
  end.

(** [isSceneTerminal] of [caller.go] *)
Definition isSceneTerminal (o : Z) : bool := (o =? OUTCOME_APPLIED) || (o =? OUTCOME_REJECTED).

(** ** The scene's recorder *)

Inductive AssetOpRecordKind := kApplied | kAppliedPartial | kRejected.

Definition with_bits (l : AssetOpStreamLedger) (seen applied : list Z) : AssetOpStreamLedger :=
  mkStreamLedger (sl_stream l) (sl_epoch l) (sl_watermark l) (sl_max l) seen applied (sl_rejections l)
    (sl_partial l) (sl_receipts l).

Definition with_lists (l : AssetOpStreamLedger) (watermark max : Z) (rej : list (Z * Z)) (partial : list Z)
    (receipts : list AssetOpReceipt) : AssetOpStreamLedger :=
  mkStreamLedger (sl_stream l) (sl_epoch l) watermark max (sl_seen l) (sl_applied l) rej partial receipts.

Definition ReadWord (words : list Z) (i : nat) : Z := default 0 (words !! i).

Definition SetBit (words : list Z) (i : Z) : list Z :=
  let w := Z.to_nat (i / 64) in
  <[w := Z.lor (ReadWord words w) (Z.shiftl 1 (i mod 64))]> words.

Definition pad_words (words : list Z) : list Z := words ++ replicate (WindowWords - length words) 0.

Definition EnsureWindowWords (l : AssetOpStreamLedger) : AssetOpStreamLedger :=
  with_bits l (pad_words (sl_seen l)) (pad_words (sl_applied l)).

Definition zero_words (words : list Z) : list Z :=
  imap (fun i w => if (i <? WindowWords)%nat then 0 else w) words.

(** The two groups as 1024-bit numbers, shifted right. *)
Definition shifted_word (words : list Z) (shift : Z) (word : nat) : Z :=
  let src := (word + Z.to_nat (shift / 64))%nat in
  let value := Z.shiftr (if (src <? WindowWords)%nat then ReadWord words src else 0) (shift mod 64) in
  if negb (shift mod 64 =? 0) && (src + 1 <? WindowWords)%nat
  then Z.lor value (u64 (Z.shiftl (ReadWord words (src + 1)) (64 - shift mod 64)))
  else value.

Definition ShiftGroupRight (words : list Z) (shift : Z) : list Z :=
  imap (fun i w => if (i <? WindowWords)%nat then shifted_word words shift i else w) words.

(** Ascending insertion before the first larger element, at most [cap] kept. *)
Fixpoint insert_before {A} (key : A -> Z) (x : A) (l : list A) : list A :=
  match l with
  | [] => [x]
  | y :: l' => if key x <? key y then x :: l else y :: insert_before key x l'
  end.

Definition keep_last {A} (cap : nat) (l : list A) : list A := drop (length l - cap) l.

Definition kAssetOpMaxRejections : nat := 64.
Definition kAssetOpMaxPartialSeqs : nat := 1024.

Definition InsertRejection (rej : list (Z * Z)) (seq reason : Z) : list (Z * Z) :=
  keep_last kAssetOpMaxRejections (insert_before fst (seq, reason) rej).
Definition InsertPartialSeq (partial : list Z) (seq : Z) : list Z :=
  keep_last kAssetOpMaxPartialSeqs (insert_before (fun s => s) seq partial).

Fixpoint drop_while {A} (f : A -> bool) (l : list A) : list A :=
  match l with [] => [] | x :: l' => if f x then drop_while f l' else l end.

Definition PruneBelowWatermark (l : AssetOpStreamLedger) (w : Z) : AssetOpStreamLedger :=
  with_lists l w (sl_max l) (drop_while (fun r => r.1 <=? w) (sl_rejections l))
    (drop_while (fun s => s <=? w) (sl_partial l)) (drop_while (fun r => rc_seq r <=? w) (sl_receipts l)).

Definition ResetAssetOpStreamForEpoch (l : AssetOpStreamLedger) (epoch : Z) : AssetOpStreamLedger :=
  EnsureWindowWords (mkStreamLedger (sl_stream l) epoch 0 0 [] [] [] [] []).

(** The window slides up so that [seq] is its last number. *)
Definition slide (l : AssetOpStreamLedger) (seq : Z) : AssetOpStreamLedger :=
  if sl_watermark l + WindowBits <? seq then
    let shift := seq - (sl_watermark l + WindowBits) in
    let l := if WindowBits <=? shift then with_bits l (zero_words (sl_seen l)) (zero_words (sl_applied l))
             else with_bits l (ShiftGroupRight (sl_seen l) shift) (ShiftGroupRight (sl_applied l) shift) in
    PruneBelowWatermark l (sl_watermark l + shift)
  else l.

Definition mark (l : AssetOpStreamLedger) (seq : Z) (kind : AssetOpRecordKind) (reason : Z) : AssetOpStreamLedger :=
  let i := seq - sl_watermark l - 1 in
  let l := with_bits l (SetBit (sl_seen l) i)
             (match kind with kRejected => sl_applied l | _ => SetBit (sl_applied l) i end) in
  with_lists l (sl_watermark l) (Z.max (sl_max l) seq)
    (match kind with kRejected => if reason =? 0 then sl_rejections l else InsertRejection (sl_rejections l) seq reason
                   | _ => sl_rejections l end)
    (match kind with kAppliedPartial => InsertPartialSeq (sl_partial l) seq | _ => sl_partial l end)
    (sl_receipts l).

(** [ClassifyAssetOpSeq], the original [ClassifySeq] mirrors: missing words read as
    zero. *)
Definition TestBit (words : list Z) (i : Z) : bool :=
  negb (Z.land (Z.shiftr (ReadWord words (Z.to_nat (i / 64))) (i mod 64)) 1 =? 0).

Definition ExceedsJumpCap (maxSeq seq : Z) : bool :=
  if MaxUint64 - MaxSeqJump <? maxSeq then false else maxSeq + MaxSeqJump <? seq.

Definition ClassifyAssetOpSeq (l : option AssetOpStreamLedger) (epoch seq : Z) : SeqState :=
  if (seq =? 0) || (epoch =? 0) then SeqInvalid
  else if epoch <? get_epoch l then SeqStaleEpoch
  else if get_epoch l <? epoch then (if seq <=? MaxSeqJump then SeqUnseen else SeqJumpTooFar)
  else match l with
  | None => SeqInvalid
  | Some l =>
      if MaxUint64 - WindowBits <? sl_watermark l then SeqInvalid
      else if seq <=? sl_watermark l then SeqBehindWindow
      else if ExceedsJumpCap (sl_max l) seq then SeqJumpTooFar
      else if sl_watermark l + WindowBits <? seq then SeqAheadOfWindow
      else
        let i := seq - sl_watermark l - 1 in
        if negb (TestBit (sl_seen l) i) then SeqUnseen
        else if TestBit (sl_applied l) i then SeqApplied else SeqRejected
  end.

(** [None]: not recorded, the ledger stays. *)
Definition RecordAssetOpOutcome (l : AssetOpStreamLedger) (epoch seq : Z) (kind : AssetOpRecordKind) (reason : Z)
    : option AssetOpStreamLedger :=
  match ClassifyAssetOpSeq (Some l) epoch seq with
  | SeqUnseen | SeqAheadOfWindow =>
      let l := if sl_epoch l <? epoch then ResetAssetOpStreamForEpoch l epoch else l in
      Some (mark (slide (EnsureWindowWords l) seq) seq kind reason)
  | _ => None
  end.

(** [MutableAssetOpStream] on a stream that is not there yet. *)
Definition new_stream_ledger (s : Z) : AssetOpStreamLedger :=
  EnsureWindowWords (mkStreamLedger s 0 0 0 [] [] [] [] []).
