(* ===== verification/AssetLedgerThms.v ===== *)
(** * Asset commands: the ledger is a book of outcomes

    The bitmap ledger of [AssetLedger] refines a plain book: for the current epoch,
    a finite map from the numbers answered so far to their outcomes. What slides out
    of the window is forgotten, everything else is remembered exactly. *)

From stdpp Require Import base list gmap strings sorting.
From Stdlib Require Import ZArith Lia.
From S2P Require Import Prelude CommerceData AssetLedger.
Local Open Scope Z_scope.

(** ** Bits *)

Definition words_ok (ws : list Z) : Prop := length ws = WindowWords /\ Forall is_u64 ws.

Lemma land_bit w k : 0 <= k -> negb (Z.land w (Z.shiftl 1 k) =? 0) = Z.testbit w k.
Proof.
  intros Hk. destruct (Z.testbit w k) eqn:Hb.
  - apply negb_true_iff, Z.eqb_neq. intros H0. apply (f_equal (fun z => Z.testbit z k)) in H0.
    rewrite Z.land_spec, Hb, Z.shiftl_spec, Z.sub_diag, Z.bits_0 in H0 by lia. done.
  - apply negb_false_iff, Z.eqb_eq. apply Z.bits_inj'. intros n Hn.
    rewrite Z.land_spec, Z.bits_0, Z.shiftl_spec by lia. destruct (decide (n = k)) as [->|Hne]; [by rewrite Hb|].
    destruct (decide (n < k)); [by rewrite (Z.testbit_neg_r 1 (n - k)), andb_false_r by lia|].
    assert (Z.testbit 1 (n - k) = false) as -> by (apply Z.bits_above_log2; cbn; lia). apply andb_false_r.
Qed.

Lemma bitAt_testbit ws i : 0 <= i -> bitAt ws i = Z.testbit (ReadWord ws (Z.to_nat (i / 64))) (i mod 64).
Proof.
  intros Hi. unfold bitAt, ReadWord. assert (0 <= i mod 64 < 64) by (apply Z.mod_pos_bound; lia).
  destruct (ws !! Z.to_nat (i / 64)); cbn; [by apply land_bit; lia|by rewrite Z.bits_0].
Qed.

Lemma TestBit_bitAt ws i : 0 <= i -> TestBit ws i = bitAt ws i.
Proof.
  intros Hi. rewrite bitAt_testbit by done. unfold TestBit.
  assert (0 <= i mod 64 < 64) by (apply Z.mod_pos_bound; lia).
  change 1 with (Z.shiftl 1 0). rewrite land_bit by lia. by rewrite Z.shiftr_spec by lia.
Qed.

(** The Go classifier answers what the scene's answers, on sixteen words. *)
Lemma ClassifySeq_mirror l epoch seq :
  (forall st, l = Some st -> length (sl_seen st) = WindowWords /\ length (sl_applied st) = WindowWords) ->
  ClassifySeq l epoch seq = ClassifyAssetOpSeq l epoch seq.
Proof.
  intros Hw. unfold ClassifySeq, ClassifyAssetOpSeq. split_if; [done|]. split_if; [done|]. split_if; [done|].
  destruct l as [l|]; [|done]. destruct (Hw l eq_refl) as [-> ->]. cbn [Nat.eqb WindowWords andb negb].
  split_if; [done|]. destruct (seq <=? sl_watermark l) eqn:Hlow; [done|]. zbool. unfold ExceedsJumpCap.
  rewrite !TestBit_bitAt by lia. destruct (MaxUint64 - MaxSeqJump <? sl_max l) eqn:Hm; zbool.
  - by rewrite (proj2 (Z.leb_gt _ _)) by lia.
  - by rewrite (proj2 (Z.leb_le _ _)) by lia.
Qed.

Lemma div_words i : 0 <= i < WindowBits -> (Z.to_nat (i / 64) < WindowWords)%nat.
Proof.
  unfold WindowBits, WindowWords. intros Hi. assert (i / 64 < 16) by (apply Z.div_lt_upper_bound; lia).
  assert (0 <= i / 64) by (apply Z.div_pos; lia). lia.
Qed.

Lemma ReadWord_u64 ws k : words_ok ws -> is_u64 (ReadWord ws k).
Proof.
  intros [_ Hall]. unfold ReadWord. destruct (ws !! k) as [w|] eqn:Hk; cbn; [|done].
  eapply Forall_lookup_1; eauto.
Qed.

Lemma u64_testbit_high w n : is_u64 w -> 64 <= n -> Z.testbit w n = false.
Proof.
  intros [H0 H1] Hn. destruct (decide (w = 0)) as [->|]; [apply Z.bits_0|]. apply Z.bits_above_log2; [lia|].
  apply Z.log2_lt_pow2; [lia|]. apply Z.lt_le_trans with u64_mod; [done|]. change u64_mod with (2 ^ 64).
  apply Z.pow_le_mono_r; lia.
Qed.

Lemma is_u64_bits w : 0 <= w -> (forall n, 64 <= n -> Z.testbit w n = false) -> is_u64 w.
Proof.
  intros H0 Hb. split; [done|]. change u64_mod with (2 ^ 64).
  assert (w = w mod 2 ^ 64) as ->; [|by apply Z.mod_pos_bound]. apply Z.bits_inj'. intros n Hn.
  destruct (decide (n < 64)); [by rewrite Z.mod_pow2_bits_low by lia|]. by rewrite Hb, Z.mod_pow2_bits_high by lia.
Qed.

Lemma SetBit_ok ws i : words_ok ws -> 0 <= i < WindowBits -> words_ok (SetBit ws i).
Proof.
  intros Hws Hi. pose proof (ReadWord_u64 ws (Z.to_nat (i / 64)) Hws) as Hu. destruct Hws as [Hl Hall].
  assert (0 <= i mod 64 < 64) by (apply Z.mod_pos_bound; lia).
  split; [by unfold SetBit; rewrite length_insert|]. apply Forall_insert; [done|]. apply is_u64_bits.
  - apply Z.lor_nonneg. split; [apply Hu|]. by apply Z.shiftl_nonneg.
  - intros n Hn. rewrite Z.lor_spec, (u64_testbit_high _ n Hu Hn), Z.shiftl_spec by lia.
    apply Z.bits_above_log2; cbn; lia.
Qed.

Lemma testbit_one n : Z.testbit 1 n = (n =? 0).
Proof.
  destruct (n =? 0) eqn:H; zbool; [by subst|]. destruct (decide (n < 0)); [by apply Z.testbit_neg_r|].
  apply Z.bits_above_log2; cbn; lia.
Qed.

Lemma SetBit_bit ws i j : words_ok ws -> 0 <= i < WindowBits -> 0 <= j -> bitAt (SetBit ws i) j = (i =? j) || bitAt ws j.
Proof.
  intros [Hl _] Hi Hj. rewrite !bitAt_testbit by done. unfold SetBit, ReadWord.
  pose proof (div_words i Hi) as Hd. assert (0 <= i mod 64 < 64) by (apply Z.mod_pos_bound; lia).
  assert (0 <= j mod 64 < 64) by (apply Z.mod_pos_bound; lia).
  assert (0 <= i / 64) by (apply Z.div_pos; lia). assert (0 <= j / 64) by (apply Z.div_pos; lia).
  pose proof (Z.div_mod i 64 ltac:(lia)). pose proof (Z.div_mod j 64 ltac:(lia)).
  destruct (decide (i / 64 = j / 64)) as [He|Hne].
  - rewrite He, list_lookup_insert_eq by (rewrite Hl; rewrite <- He; exact Hd). cbn.
    rewrite Z.lor_spec, Z.shiftl_spec, testbit_one by lia. rewrite orb_comm. f_equal.
    destruct (i =? j) eqn:E; zbool; [apply Z.eqb_eq; subst; lia|apply Z.eqb_neq; lia].
  - rewrite list_lookup_insert_ne by (intros E%Z2Nat.inj; lia).
    by rewrite (proj2 (Z.eqb_neq i j)) by (intros ->; done).
Qed.

(** ** The shift *)
Lemma ShiftGroupRight_length ws s : length (ShiftGroupRight ws s) = length ws.
Proof. apply length_imap. Qed.

Lemma u64_lo x n : 0 <= n < 64 -> Z.testbit (u64 x) n = Z.testbit x n.
Proof. intros Hn. unfold u64. change u64_mod with (2 ^ 64). by rewrite Z.mod_pow2_bits_low by lia. Qed.

Lemma shifted_word_bit ws s k b :
  words_ok ws -> 0 < s < WindowBits -> 0 <= b < 64 ->
  Z.testbit (shifted_word ws s k) b =
    (if b + s mod 64 <? 64 then Z.testbit (ReadWord ws (k + Z.to_nat (s / 64))) (b + s mod 64)
     else Z.testbit (ReadWord ws (k + Z.to_nat (s / 64) + 1)) (b + s mod 64 - 64)).
Proof.
  intros Hws Hs Hb. unfold shifted_word. cbv zeta. set (src := (k + Z.to_nat (s / 64))%nat). set (r := s mod 64).
  assert (0 <= r < 64) by (apply Z.mod_pos_bound; lia).
  assert (Hout : forall n, (n <? WindowWords)%nat = false -> ReadWord ws n = 0).
  { intros n Hn%Nat.ltb_ge. unfold ReadWord. rewrite lookup_ge_None_2; [done|]. destruct Hws as [-> _]. done. }
  assert (Hsrc : Z.testbit (Z.shiftr (if (src <? WindowWords)%nat then ReadWord ws src else 0) r) b
            = Z.testbit (ReadWord ws src) (b + r)).
  { rewrite Z.shiftr_spec by lia. destruct (src <? WindowWords)%nat eqn:E; [done|by rewrite (Hout src E)]. }
  destruct (b + r <? 64) eqn:Hbr; zbool.
  - destruct (negb (r =? 0) && (src + 1 <? WindowWords)%nat) eqn:E; [|exact Hsrc].
    rewrite Z.lor_spec, Hsrc, u64_lo, Z.shiftl_spec, (Z.testbit_neg_r _ (b - (64 - r))) by lia. apply orb_false_r.
  - assert (Hhi : Z.testbit (ReadWord ws src) (b + r) = false) by (apply u64_testbit_high; [by apply ReadWord_u64|lia]).
    destruct (negb (r =? 0) && (src + 1 <? WindowWords)%nat) eqn:E.
    + rewrite Z.lor_spec, Hsrc, Hhi, u64_lo, Z.shiftl_spec by lia. cbn. f_equal. lia.
    + rewrite Hsrc, Hhi. apply andb_false_iff in E as [E|E]; [apply negb_false_iff, Z.eqb_eq in E; lia|].
      by rewrite (Hout _ E), Z.bits_0.
Qed.

Lemma ShiftGroupRight_bit ws s j :
  words_ok ws -> 0 < s < WindowBits -> 0 <= j < WindowBits -> bitAt (ShiftGroupRight ws s) j = bitAt ws (j + s).
Proof.
  intros Hws Hs Hj. rewrite !bitAt_testbit by lia.
  assert (0 <= j mod 64 < 64) by (apply Z.mod_pos_bound; lia). assert (0 <= s mod 64 < 64) by (apply Z.mod_pos_bound; lia).
  assert (0 <= j / 64) by (apply Z.div_pos; lia). assert (0 <= s / 64) by (apply Z.div_pos; lia).
  pose proof (Z.div_mod j 64 ltac:(lia)) as Ej. pose proof (Z.div_mod s 64 ltac:(lia)) as Es.
  assert (ReadWord (ShiftGroupRight ws s) (Z.to_nat (j / 64)) = shifted_word ws s (Z.to_nat (j / 64))) as ->.
  { unfold ReadWord at 1, ShiftGroupRight. rewrite list_lookup_imap.
    destruct (lookup_lt_is_Some_2 ws (Z.to_nat (j / 64))) as [w Hw].
    { destruct Hws as [-> _]. by apply div_words. }
    rewrite Hw. cbn. pose proof (div_words j Hj) as Hd. unfold WindowWords in Hd.
    by rewrite (proj2 (Nat.leb_le _ 15)) by lia. }
  rewrite shifted_word_bit by done. destruct (j mod 64 + s mod 64 <? 64) eqn:E; zbool.
  - destruct (Z.div_mod_unique 64 ((j + s) / 64) (j / 64 + s / 64) ((j + s) mod 64) (j mod 64 + s mod 64)) as [-> ->].
    { left. apply Z.mod_pos_bound. lia. } { left. lia. }
    { rewrite <- Z.div_mod by lia. lia. }
    by rewrite Z2Nat.inj_add by lia.
  - destruct (Z.div_mod_unique 64 ((j + s) / 64) (j / 64 + s / 64 + 1) ((j + s) mod 64) (j mod 64 + s mod 64 - 64)) as [-> ->].
    { left. apply Z.mod_pos_bound. lia. } { left. lia. }
    { rewrite <- Z.div_mod by lia. lia. }
    rewrite !Z2Nat.inj_add by lia. done.
Qed.

Lemma ShiftGroupRight_ok ws s : words_ok ws -> 0 < s < WindowBits -> words_ok (ShiftGroupRight ws s).
Proof.
  intros Hws Hs. split; [rewrite ShiftGroupRight_length; apply Hws|]. apply Forall_lookup. intros k w Hk.
  unfold ShiftGroupRight in Hk. rewrite list_lookup_imap in Hk. destruct (ws !! k) as [x|] eqn:Hx; [|done].
  injection Hk as <-. assert (0 <= s mod 64 < 64) by (apply Z.mod_pos_bound; lia).
  split_if; [|by eapply Forall_lookup_1; [apply Hws|]]. unfold shifted_word. cbv zeta.
  assert (Hv : is_u64 (Z.shiftr (if (k + Z.to_nat (s / 64) <? WindowWords)%nat then ReadWord ws (k + Z.to_nat (s / 64)) else 0) (s mod 64))).
  { split_if; [|by rewrite Z.shiftr_0_l]. destruct (ReadWord_u64 ws (k + Z.to_nat (s / 64)) Hws) as [H0 H1].
    apply is_u64_bits; [by apply Z.shiftr_nonneg|]. intros n Hn. rewrite Z.shiftr_spec by lia.
    apply u64_testbit_high; [done|lia]. }
  split_if; [|done]. apply is_u64_bits.
  - apply Z.lor_nonneg. split; [apply Hv|apply u64_range].
  - intros n Hn. rewrite Z.lor_spec, (u64_testbit_high _ n Hv Hn). by apply u64_testbit_high; [apply u64_range|].
Qed.

Lemma zero_words_ok ws : words_ok ws -> words_ok (zero_words ws).
Proof.
  intros [Hl Hall]. split; [by unfold zero_words; rewrite length_imap|]. apply Forall_lookup. intros k w Hk.
  unfold zero_words in Hk. rewrite list_lookup_imap in Hk. destruct (ws !! k) as [x|] eqn:Hx; [|done].
  injection Hk as <-. split_if; [done|]. by eapply Forall_lookup_1.
Qed.

Lemma zero_words_bit ws j : words_ok ws -> 0 <= j -> bitAt (zero_words ws) j = false.
Proof.
  intros [Hl _] Hj. rewrite bitAt_testbit by done. unfold ReadWord, zero_words. rewrite list_lookup_imap.
  destruct (ws !! Z.to_nat (j / 64)) as [w|] eqn:Hw; cbn; [|apply Z.bits_0].
  apply lookup_lt_Some in Hw. rewrite Hl in Hw. unfold WindowWords in Hw.
  by rewrite (proj2 (Nat.leb_le _ 15)), Z.bits_0 by lia.
Qed.

Lemma bitAt_out ws j : words_ok ws -> WindowBits <= j -> bitAt ws j = false.
Proof.
  intros [Hl _] Hj. unfold bitAt. rewrite lookup_ge_None_2; [done|]. rewrite Hl. unfold WindowWords, WindowBits in *.
  assert (16 <= j / 64) by (apply Z.div_le_lower_bound; lia). lia.
Qed.

(** ** The book *)

#[global] Instance AssetOpRecordKind_eq_dec : EqDecision AssetOpRecordKind.
Proof. solve_decision. Defined.

Record Book := mkBook { bk_epoch : Z; bk_max : Z; bk_out : gmap Z (AssetOpRecordKind * Z) }.

Definition new_book : Book := mkBook 0 0 ∅.
Definition book_floor (b : Book) : Z := Z.max 0 (bk_max b - WindowBits).

Definition is_applied (k : AssetOpRecordKind) : bool := negb (bool_decide (k = kRejected)).

Definition book_state (b : Book) (epoch seq : Z) : SeqState :=
  if (seq =? 0) || (epoch =? 0) then SeqInvalid
  else if epoch <? bk_epoch b then SeqStaleEpoch
  else if bk_epoch b <? epoch then (if seq <=? WindowBits then SeqUnseen else SeqJumpTooFar)
  else if seq <=? book_floor b then SeqBehindWindow
  else match bk_out b !! seq with
  | Some (k, _) => if is_applied k then SeqApplied else SeqRejected
  | None => if bk_max b + MaxSeqJump <? seq then SeqJumpTooFar
            else if book_floor b + WindowBits <? seq then SeqAheadOfWindow else SeqUnseen
  end.

Definition book_record (b : Book) (epoch seq : Z) (kind : AssetOpRecordKind) (reason : Z) : option Book :=
  match book_state b epoch seq with
  | SeqUnseen | SeqAheadOfWindow =>
      let b := if bk_epoch b <? epoch then mkBook epoch 0 ∅ else b in
      Some (mkBook (bk_epoch b) (Z.max (bk_max b) seq) (<[seq := (kind, reason)]> (bk_out b)))
  | _ => None
  end.

(** [l] holds the outcomes of [b] above [w]. *)
Record holds (l : AssetOpStreamLedger) (b : Book) (w : Z) : Prop := {
  ho_epoch : sl_epoch l = bk_epoch b;
  ho_max : sl_max l = bk_max b;
  ho_watermark : sl_watermark l = w;
  ho_bounds : 0 <= w <= bk_max b /\ bk_max b <= w + WindowBits;
  ho_keys : forall s x, bk_out b !! s = Some x -> 1 <= s <= bk_max b;
  ho_seen_ok : words_ok (sl_seen l);
  ho_applied_ok : words_ok (sl_applied l);
  ho_seen : forall i, 0 <= i < WindowBits -> bitAt (sl_seen l) i = is_some (bk_out b !! (w + 1 + i));
  ho_applied : forall i, 0 <= i < WindowBits ->
    bitAt (sl_applied l) i = match bk_out b !! (w + 1 + i) with Some (k, _) => is_applied k | None => false end;
  ho_partial_sorted : StronglySorted Z.lt (sl_partial l);
  ho_partial : forall s, s ∈ sl_partial l <-> w < s /\ exists r, bk_out b !! s = Some (kAppliedPartial, r);
  ho_rej_sorted : StronglySorted (fun a b => a.1 < b.1) (sl_rejections l);
  ho_rej : forall s r, (s, r) ∈ sl_rejections l -> w < s /\ r <> 0 /\ bk_out b !! s = Some (kRejected, r) }.

Definition refines (l : AssetOpStreamLedger) (b : Book) : Prop :=
  holds l b (book_floor b) /\ 0 <= bk_epoch b /\ bk_max b <= MaxUint64 - MaxSeqJump.

(** *** Sorted insertion and the caps *)
Section sorted.
Context {A : Type} (key : A -> Z).

Lemma insert_before_perm (x : A) l : insert_before key x l ≡ₚ x :: l.
Proof.
  induction l as [|y l IH]; cbn; [done|]. split_if; [done|]. rewrite IH. apply Permutation_swap.
Qed.

Lemma insert_before_sorted (x : A) l :
  StronglySorted (fun a b => key a < key b) l -> (forall y, y ∈ l -> key y <> key x) ->
  StronglySorted (fun a b => key a < key b) (insert_before key x l).
Proof.
  induction 1 as [|y l Hs IH Hall]; cbn; intros Hne; [repeat constructor|].
  pose proof (Hne y ltac:(left)) as Hy. split_if; zbool.
  - constructor; [by constructor|]. constructor; [done|]. eapply Forall_impl; [exact Hall|]. cbn. lia.
  - constructor; [apply IH; intros z Hz; apply Hne; by right|]. rewrite insert_before_perm.
    constructor; [lia|done].
Qed.

Lemma drop_while_sublist f (l : list A) : drop_while f l `sublist_of` l.
Proof. induction l as [|x l IH]; cbn; [done|]. split_if; [by constructor|done]. Qed.

Lemma elem_of_drop_while (l : list A) w x :
  StronglySorted (fun a b => key a < key b) l -> x ∈ drop_while (fun y => key y <=? w) l <-> x ∈ l /\ w < key x.
Proof.
  induction 1 as [|y l Hs IH Hall]; cbn; [set_solver|]. destruct (key y <=? w) eqn:E; zbool.
  - rewrite IH, elem_of_cons. split; [tauto|]. intros [[->|?] ?]; [lia|done].
  - split; [|tauto]. intros Hx. split; [done|]. apply elem_of_cons in Hx as [->|Hx]; [done|].
    rewrite Forall_forall in Hall. specialize (Hall x Hx). cbn in Hall. lia.
Qed.

Lemma keep_last_sublist cap (l : list A) : keep_last cap l `sublist_of` l.
Proof. apply sublist_drop. Qed.

Lemma keep_last_all cap (l : list A) : (length l <= cap)%nat -> keep_last cap l = l.
Proof. intros H. unfold keep_last. by rewrite (proj2 (Nat.sub_0_le _ _) H). Qed.
End sorted.

(** Distinct numbers of a window are no more than the window. *)
Lemma window_length (l : list Z) w n :
  NoDup l -> (forall s, s ∈ l -> w < s <= w + Z.of_nat n) -> (length l <= n)%nat.
Proof.
  intros Hnd Hin.
  assert (H : (length l <= length (seqZ (w + 1) (Z.of_nat n)))%nat); [|by rewrite length_seqZ, Nat2Z.id in H].
  apply submseteq_length, NoDup_submseteq; [done|]. intros s Hs%Hin. apply elem_of_seqZ. lia.
Qed.

Lemma sorted_NoDup (l : list Z) : StronglySorted Z.lt l -> NoDup l.
Proof.
  induction 1 as [|x l Hs IH Hall]; constructor; [|done]. intros Hx. rewrite Forall_forall in Hall.
  specialize (Hall x Hx). lia.
Qed.

(** *** The window *)
Lemma holds_above l b w s : holds l b w -> w + WindowBits < s -> bk_out b !! s = None.
Proof.
  intros H Hs. destruct (bk_out b !! s) as [x|] eqn:Hx; [|done]. pose proof (ho_keys _ _ _ H s x Hx).
  pose proof (ho_bounds _ _ _ H). lia.
Qed.

(** Sliding up by [d], whichever way the bits are moved. *)
Lemma holds_slide l b w d seen applied :
  holds l b w -> 0 < d -> w + d <= bk_max b -> words_ok seen -> words_ok applied ->
  (forall i, 0 <= i < WindowBits -> bitAt seen i = bitAt (sl_seen l) (i + d)) ->
  (forall i, 0 <= i < WindowBits -> bitAt applied i = bitAt (sl_applied l) (i + d)) ->
  holds (PruneBelowWatermark (with_bits l seen applied) (w + d)) b (w + d).
Proof.
  intros H Hd Hm Hs Ha Hbs Hba. pose proof (ho_bounds _ _ _ H) as Hb.
  assert (Hmove : forall i, 0 <= i < WindowBits ->
    bitAt (sl_seen l) (i + d) = is_some (bk_out b !! (w + d + 1 + i)) /\
    bitAt (sl_applied l) (i + d) = match bk_out b !! (w + d + 1 + i) with Some (k, _) => is_applied k | None => false end).
  { intros i Hi. replace (w + d + 1 + i) with (w + 1 + (i + d)) by lia. destruct (decide (i + d < WindowBits)).
    - by rewrite (ho_seen _ _ _ H), (ho_applied _ _ _ H) by lia.
    - rewrite !bitAt_out by (first [apply H | lia]). by rewrite (holds_above l b w) by (done || lia). }
  split; cbn; try apply H; try done; try lia.
  - intros i Hi. rewrite Hbs by done. by apply Hmove.
  - intros i Hi. rewrite Hba by done. by apply Hmove.
  - eapply StronglySorted_sublist; [apply drop_while_sublist|apply H].
  - intros s. rewrite (elem_of_drop_while (fun s => s)) by apply H. rewrite (ho_partial _ _ _ H). naive_solver lia.
  - eapply StronglySorted_sublist; [apply drop_while_sublist|apply H].
  - intros s r Hr. apply (elem_of_drop_while fst) in Hr; [|apply H]. destruct Hr as [Hr ?]. cbn in *.
    by destruct (ho_rej _ _ _ H s r Hr) as (_ & ? & ?).
Qed.

Lemma slide_holds l b w seq :
  holds l b w -> w + WindowBits < seq -> seq <= bk_max b + MaxSeqJump -> holds (slide l seq) b (seq - WindowBits).
Proof.
  intros H Hlo Hhi. pose proof (ho_bounds _ _ _ H) as Hb. unfold slide, MaxSeqJump, WindowBits in *.
  rewrite (ho_watermark _ _ _ H). rewrite (proj2 (Z.ltb_lt _ _)) by lia. cbv zeta.
  set (d := seq - (w + 1024)). replace (seq - 1024) with (w + d) by lia.
  pose proof (ho_seen_ok _ _ _ H). pose proof (ho_applied_ok _ _ _ H).
  destruct (1024 <=? d) eqn:E; zbool; cbn [sl_watermark with_bits]; rewrite ?(ho_watermark _ _ _ H).
  - apply holds_slide; [done|lia|lia|by apply zero_words_ok|by apply zero_words_ok|..]; intros i Hi;
      rewrite zero_words_bit by (done || lia); by rewrite bitAt_out by (done || unfold WindowBits in *; lia).
  - assert (0 < d < WindowBits) by (unfold WindowBits; lia).
    apply holds_slide; [done|lia|lia|by apply ShiftGroupRight_ok|by apply ShiftGroupRight_ok|..]; intros i Hi;
      by apply ShiftGroupRight_bit.
Qed.

Lemma slide_stays l b w seq : holds l b w -> seq <= w + WindowBits -> slide l seq = l.
Proof. intros H Hs. unfold slide. rewrite (ho_watermark _ _ _ H). by rewrite (proj2 (Z.ltb_ge _ _)). Qed.

Lemma is_some_insert (m : gmap Z (AssetOpRecordKind * Z)) i j x :
  is_some (<[i := x]> m !! j) = (i =? j) || is_some (m !! j).
Proof.
  destruct (i =? j) eqn:E; zbool; [subst; by rewrite lookup_insert_eq|by rewrite lookup_insert_ne].
Qed.

Definition recorded (b : Book) (seq : Z) (kind : AssetOpRecordKind) (reason : Z) : Book :=
  mkBook (bk_epoch b) (Z.max (bk_max b) seq) (<[seq := (kind, reason)]> (bk_out b)).

Lemma mark_bits l b w seq kind reason :
  holds l b w -> w < seq <= w + WindowBits -> bk_out b !! seq = None ->
  forall i, 0 <= i < WindowBits ->
    bitAt (sl_seen (mark l seq kind reason)) i = is_some (bk_out (recorded b seq kind reason) !! (w + 1 + i)) /\
    bitAt (sl_applied (mark l seq kind reason)) i =
      match bk_out (recorded b seq kind reason) !! (w + 1 + i) with Some (k, _) => is_applied k | None => false end.
Proof.
  intros H Hseq Hnew i Hi. pose proof (ho_seen_ok _ _ _ H). pose proof (ho_applied_ok _ _ _ H).
  unfold mark. rewrite (ho_watermark _ _ _ H). cbn. rewrite SetBit_bit by (done || lia). rewrite is_some_insert.
  rewrite (ho_seen _ _ _ H) by done.
  assert ((seq - w - 1 =? i) = (seq =? w + 1 + i)) as ->.
  { destruct (seq =? w + 1 + i) eqn:E; zbool; [apply Z.eqb_eq|apply Z.eqb_neq]; lia. }
  split; [done|]. destruct (seq =? w + 1 + i) eqn:E; zbool.
  - subst seq. rewrite lookup_insert_eq. destruct kind; cbn; rewrite ?SetBit_bit by (done || lia);
      rewrite ?(proj2 (Z.eqb_eq _ _)) by lia; try done. rewrite (ho_applied _ _ _ H) by done. by rewrite Hnew.
  - rewrite lookup_insert_ne by done. rewrite <- (ho_applied _ _ _ H) by done.
    destruct kind; rewrite ?SetBit_bit by (done || lia); rewrite ?(proj2 (Z.eqb_neq _ _)) by lia; done.
Qed.

#[local] Arguments InsertPartialSeq : simpl never.
#[local] Arguments InsertRejection : simpl never.

(** The list of partial numbers never overflows: the window has room for them. *)
Lemma InsertPartialSeq_elem l b w seq s :
  holds l b w -> w < seq <= w + WindowBits -> bk_out b !! seq = None ->
  s ∈ InsertPartialSeq (sl_partial l) seq <-> s = seq \/ s ∈ sl_partial l.
Proof.
  intros H Hseq Hnew. unfold InsertPartialSeq. rewrite keep_last_all; [by rewrite insert_before_perm, elem_of_cons|].
  rewrite insert_before_perm. apply (window_length _ w).
  - constructor; [|by apply sorted_NoDup, H]. intros (_ & r & Hr)%(ho_partial _ _ _ H). congruence.
  - intros x [->|Hx]%elem_of_cons; [done|]. apply (ho_partial _ _ _ H) in Hx as (? & r & Hr).
    pose proof (ho_keys _ _ _ H _ _ Hr). pose proof (ho_bounds _ _ _ H).
    change (Z.of_nat kAssetOpMaxPartialSeqs) with WindowBits. lia.
Qed.

Lemma mark_holds l b w seq kind reason :
  holds l b w -> 0 < seq -> w < seq <= w + WindowBits -> bk_out b !! seq = None ->
  holds (mark l seq kind reason) (recorded b seq kind reason) w.
Proof.
  intros H Hpos Hseq Hnew. pose proof (ho_bounds _ _ _ H) as Hb.
  pose proof (ho_seen_ok _ _ _ H). pose proof (ho_applied_ok _ _ _ H).
  assert (Hi : 0 <= seq - w - 1 < WindowBits) by lia.
  assert (Hold : forall s x, bk_out b !! s = Some x -> bk_out (recorded b seq kind reason) !! s = Some x).
  { intros s x Hx. cbn. rewrite lookup_insert_ne; [done|]. intros ->. congruence. }
  assert (Hno : seq ∉ sl_partial l) by (intros (_ & r & Hr)%(ho_partial _ _ _ H); congruence).
  split; try (by apply (mark_bits l b w)); cbn; try apply H.
  - by rewrite (ho_max _ _ _ H).
  - lia.
  - intros s x Hx. destruct (decide (s = seq)) as [->|Hne]; [lia|]. rewrite lookup_insert_ne in Hx by done.
    pose proof (ho_keys _ _ _ H s x Hx). lia.
  - rewrite (ho_watermark _ _ _ H). by apply SetBit_ok.
  - rewrite (ho_watermark _ _ _ H). destruct kind; [by apply SetBit_ok|by apply SetBit_ok|done].
  - destruct kind; try apply H. eapply StronglySorted_sublist; [apply keep_last_sublist|].
    apply insert_before_sorted; [apply H|]. by intros y Hy ->.
  - intros s. destruct (decide (s = seq)) as [->|Hne].
    + rewrite lookup_insert_eq.
      destruct kind; [by split; [intros ?|intros (? & ? & ?)]| |by split; [intros ?|intros (? & ? & ?)]].
      rewrite (InsertPartialSeq_elem l b w) by done. split; [intros _|by left]. split; [lia|by exists reason].
    + rewrite lookup_insert_ne by done. rewrite <- (ho_partial _ _ _ H). destruct kind; try done.
      rewrite (InsertPartialSeq_elem l b w) by done. naive_solver.
  - destruct kind; try apply H. split_if; [apply H|]. eapply StronglySorted_sublist; [apply keep_last_sublist|].
    apply insert_before_sorted; [apply H|]. intros [s r] Hr E. cbn in E. subst s.
    destruct (ho_rej _ _ _ H _ _ Hr) as (_ & _ & Hx). congruence.
  - intros s r Hr.
    assert (Hcase : (s, r) ∈ sl_rejections l \/ (s = seq /\ r = reason /\ kind = kRejected /\ reason <> 0)).
    { destruct kind; try (by left). destruct (reason =? 0) eqn:E; zbool; [by left|].
      eapply elem_of_sublist in Hr; [|apply keep_last_sublist]. rewrite insert_before_perm, elem_of_cons in Hr.
      destruct Hr as [[= -> ->]|Hr]; [by right|by left]. }
    destruct Hcase as [Hin|(-> & -> & -> & ?)].
    + destruct (ho_rej _ _ _ H s r Hin) as (? & ? & Hx). split_and!; [done|done|]. by apply Hold.
    + rewrite lookup_insert_eq. split_and!; [lia|done|done].
Qed.

(** ** The refinement *)
Lemma EnsureWindowWords_id l : words_ok (sl_seen l) -> words_ok (sl_applied l) -> EnsureWindowWords l = l.
Proof.
  intros [Hs _] [Ha _]. unfold EnsureWindowWords, pad_words. rewrite Hs, Ha. cbn. rewrite !app_nil_r. by destruct l.
Qed.

Lemma empty_holds s epoch : holds (EnsureWindowWords (mkStreamLedger s epoch 0 0 [] [] [] [] [])) (mkBook epoch 0 ∅) 0.
Proof.
  assert (Hok : words_ok (replicate 16 0)) by (split; [done|repeat constructor; done]).
  assert (Hbit : forall i, 0 <= i < WindowBits -> bitAt (replicate 16 0) i = false).
  { intros i Hi. rewrite bitAt_testbit by lia. unfold ReadWord.
    destruct (replicate 16 0 !! Z.to_nat (i / 64)) as [x|] eqn:E; [|apply Z.bits_0].
    apply lookup_replicate in E as [-> _]. apply Z.bits_0. }
  split; try done; cbn; try (constructor); try lia; try set_solver.
Qed.

Lemma new_refines s : refines (new_stream_ledger s) new_book.
Proof. split; [apply empty_holds|done]. Qed.

Lemma ClassifySeq_refines l b epoch seq :
  refines l b -> 0 <= seq -> ClassifySeq (Some l) epoch seq = book_state b epoch seq.
Proof.
  intros (H & _ & Hm) Hseq. pose proof (ho_bounds _ _ _ H) as Hb.
  unfold ClassifySeq, book_state. cbn [get_epoch from_option]. rewrite (ho_epoch _ _ _ H).
  split_if; [done|]. split_if; [done|]. split_if; [done|].
  destruct (ho_seen_ok _ _ _ H) as [-> _]. destruct (ho_applied_ok _ _ _ H) as [-> _]. cbn [Nat.eqb WindowWords andb negb].
  rewrite (ho_watermark _ _ _ H), (ho_max _ _ _ H). unfold MaxUint64, MaxSeqJump, WindowBits, u64_mod in *.
  rewrite (proj2 (Z.ltb_ge _ _)) by lia. destruct (seq <=? book_floor b) eqn:E1; [done|]. zbool.
  rewrite (proj2 (Z.leb_le _ _)) by lia. cbn [andb].
  destruct (bk_max b + 1024 <? seq) eqn:E2; zbool.
  { rewrite (holds_above l b (book_floor b)); [done|done|]. unfold WindowBits. lia. }
  destruct (book_floor b + 1024 <? seq) eqn:E3; zbool.
  { rewrite (holds_above l b (book_floor b)); [done|done|]. unfold WindowBits. lia. }
  cbv zeta. rewrite (ho_seen _ _ _ H), (ho_applied _ _ _ H) by (unfold WindowBits; lia).
  replace (book_floor b + 1 + (seq - book_floor b - 1)) with seq by lia.
  destruct (bk_out b !! seq) as [[k r]|]; [|done]. cbn. by destruct (is_applied k).
Qed.

Lemma RecordAssetOpOutcome_classify l b epoch seq :
  refines l b -> 0 <= seq -> ClassifyAssetOpSeq (Some l) epoch seq = book_state b epoch seq.
Proof.
  intros Href Hs. rewrite <- ClassifySeq_mirror; [by apply ClassifySeq_refines|]. intros st [= <-].
  destruct Href as (H & _). split; [apply (ho_seen_ok _ _ _ H)|apply (ho_applied_ok _ _ _ H)].
Qed.

Lemma record_holds l b seq kind reason :
  holds l b (book_floor b) -> 0 < seq -> book_floor b < seq <= bk_max b + MaxSeqJump -> bk_out b !! seq = None ->
  holds (mark (slide l seq) seq kind reason) (recorded b seq kind reason) (book_floor (recorded b seq kind reason)).
Proof.
  intros H Hpos [Hlo Hhi] Hnew. pose proof (ho_bounds _ _ _ H) as Hb.
  destruct (decide (seq <= book_floor b + WindowBits)).
  - rewrite (slide_stays l b (book_floor b)) by done.
    assert (book_floor (recorded b seq kind reason) = book_floor b) as ->.
    { unfold book_floor in *. cbn. unfold WindowBits in *. lia. }
    by apply mark_holds.
  - assert (book_floor (recorded b seq kind reason) = seq - WindowBits) as ->.
    { unfold book_floor in *. cbn. unfold WindowBits in *. lia. }
    apply mark_holds; [by eapply slide_holds; [| |]; [exact H|lia|]|done| |done]. unfold WindowBits. lia.
Qed.

(** What may be recorded. *)
Lemma book_state_new b epoch seq :
  0 <= seq -> book_state b epoch seq = SeqUnseen \/ book_state b epoch seq = SeqAheadOfWindow ->
  0 < seq /\
  (bk_epoch b < epoch /\ seq <= WindowBits \/
   epoch = bk_epoch b /\ book_floor b < seq <= bk_max b + MaxSeqJump /\ bk_out b !! seq = None).
Proof.
  intros Hseq. unfold book_state. destruct ((seq =? 0) || (epoch =? 0)) eqn:E0; [naive_solver|]. zbool.
  destruct (epoch <? bk_epoch b) eqn:E1; [naive_solver|]. destruct (bk_epoch b <? epoch) eqn:E2.
  { split_if; [|naive_solver]. intros _. zbool. lia. }
  destruct (seq <=? book_floor b) eqn:E3; [naive_solver|].
  destruct (bk_out b !! seq) as [[k r]|]; [destruct (is_applied k); naive_solver|].
  destruct (bk_max b + MaxSeqJump <? seq) eqn:E4; [naive_solver|]. intros _. zbool.
  split; [lia|]. right. split_and!; [lia|lia|lia|done].
Qed.

Lemma RecordAssetOpOutcome_refines l b epoch seq kind reason :
  refines l b -> 0 <= seq <= MaxUint64 - MaxSeqJump ->
  match RecordAssetOpOutcome l epoch seq kind reason, book_record b epoch seq kind reason with
  | Some l', Some b' => refines l' b'
  | None, None => True
  | _, _ => False
  end.
Proof.
  intros Href Hseq. unfold RecordAssetOpOutcome, book_record. rewrite (RecordAssetOpOutcome_classify l b) by (done || lia).
  assert (Hgo : book_state b epoch seq = SeqUnseen \/ book_state b epoch seq = SeqAheadOfWindow ->
    refines (mark (slide (EnsureWindowWords (if sl_epoch l <? epoch then ResetAssetOpStreamForEpoch l epoch else l)) seq) seq kind reason)
      (recorded (if bk_epoch b <? epoch then mkBook epoch 0 ∅ else b) seq kind reason)).
  2: { destruct (book_state b epoch seq); try done; apply Hgo; auto. }
  destruct Href as (H & He & Hm). intros [Hpos Hnew]%book_state_new; [|lia]. rewrite (ho_epoch _ _ _ H).
  destruct Hnew as [[Hep Hw]|(-> & Hr & Hnone)].
  - rewrite (proj2 (Z.ltb_lt _ _)) by done. unfold ResetAssetOpStreamForEpoch.
    pose proof (empty_holds (sl_stream l) epoch) as H0. rewrite (EnsureWindowWords_id (EnsureWindowWords _)) by apply H0.
    split_and!; [apply (record_holds _ (mkBook epoch 0 ∅)); [exact H0|done| |apply lookup_empty]|cbn; lia|cbn; lia].
    unfold book_floor, MaxSeqJump, WindowBits in *. cbn. lia.
  - rewrite (proj2 (Z.ltb_ge _ _)) by lia. rewrite EnsureWindowWords_id by apply H.
    split_and!; [by apply record_holds|done|cbn; unfold MaxSeqJump in *; lia].
Qed.

(** ** Runs of the recorder *)
Inductive record_step (l : AssetOpStreamLedger) : AssetOpStreamLedger -> Prop :=
  | rs_record epoch seq kind reason l' :
      0 <= seq <= MaxUint64 - MaxSeqJump -> RecordAssetOpOutcome l epoch seq kind reason = Some l' ->
      record_step l l'.

(** A book only gains outcomes, until a later epoch starts a new one. *)
Definition book_grows (b b' : Book) : Prop :=
  bk_epoch b < bk_epoch b' \/ bk_epoch b' = bk_epoch b /\ bk_max b <= bk_max b' /\ bk_out b ⊆ bk_out b'.

#[global] Instance book_grows_refl : Reflexive book_grows.
Proof. intros b. right. split_and!; [done|lia|done]. Qed.

Lemma book_grows_trans a b c : book_grows a b -> book_grows b c -> book_grows a c.
Proof.
  intros [?|(E1 & M1 & H1)] [?|(E2 & M2 & H2)]; [left; lia|left; lia|left; lia|right].
  split_and!; [lia|lia|by etrans].
Qed.

Lemma book_record_grows b epoch seq kind reason b' :
  0 <= seq -> book_record b epoch seq kind reason = Some b' ->
  book_grows b b' /\ bk_epoch b' = epoch /\ bk_out b' !! seq = Some (kind, reason).
Proof.
  intros Hseq. unfold book_record.
  destruct (decide (book_state b epoch seq = SeqUnseen \/ book_state b epoch seq = SeqAheadOfWindow)) as [Hst|Hst].
  2: { destruct (book_state b epoch seq); try done; destruct Hst; auto. }
  intros Hb'. assert (b' = recorded (if bk_epoch b <? epoch then mkBook epoch 0 ∅ else b) seq kind reason) as ->.
  { destruct Hst as [E|E]; rewrite E in Hb'; by injection Hb'. }
  destruct (book_state_new b epoch seq Hseq Hst) as [_ [[He _]|(-> & _ & Hnone)]].
  - rewrite (proj2 (Z.ltb_lt _ _)) by done. cbn. split_and!; [by left|done|by rewrite lookup_insert_eq].
  - rewrite (proj2 (Z.ltb_ge _ _)) by lia. cbn. split_and!; [|done|by rewrite lookup_insert_eq].
    right. cbn. split_and!; [done|lia|by apply insert_subseteq].
Qed.

Lemma record_refines l b epoch seq kind reason l' :
  refines l b -> 0 <= seq <= MaxUint64 - MaxSeqJump -> RecordAssetOpOutcome l epoch seq kind reason = Some l' ->
  exists b', refines l' b' /\ book_grows b b' /\ bk_epoch b' = epoch /\ bk_out b' !! seq = Some (kind, reason).
Proof.
  intros Href Hs Hrec. pose proof (RecordAssetOpOutcome_refines l b epoch seq kind reason Href Hs) as H.
  rewrite Hrec in H. destruct (book_record b epoch seq kind reason) as [b'|] eqn:Hb; [|done].
  exists b'. split; [done|]. apply (book_record_grows b); [lia|done].
Qed.

Lemma run_refines l b l' :
  refines l b -> rtc record_step l l' -> exists b', refines l' b' /\ book_grows b b'.
Proof.
  intros Href Hrun. revert b Href. induction Hrun as [l|l l1 l' Hs _ IH]; intros b Href; [by exists b|].
  destruct Hs as [epoch seq kind reason l1 Hseq Hrec].
  destruct (record_refines _ _ _ _ _ _ _ Href Hseq Hrec) as (b1 & Hr1 & Hg1 & _).
  destruct (IH b1 Hr1) as (b' & Hr' & Hg'). exists b'. split; [done|]. by eapply book_grows_trans.
Qed.

Lemma record_stream l epoch seq kind reason l' :
  RecordAssetOpOutcome l epoch seq kind reason = Some l' -> sl_stream l' = sl_stream l.
Proof.
  unfold RecordAssetOpOutcome. cbv zeta. intros H.
  assert (E : l' = mark (slide (EnsureWindowWords (if sl_epoch l <? epoch then ResetAssetOpStreamForEpoch l epoch else l)) seq) seq kind reason).
  { destruct (ClassifyAssetOpSeq _ _ _); congruence. }
  subst l'. unfold mark, slide. cbn. repeat split_if; done.
Qed.

Lemma run_stream l l' : rtc record_step l l' -> sl_stream l' = sl_stream l.
Proof.
  induction 1 as [|l l1 l' Hs _ IH]; [done|]. rewrite IH. destruct Hs. by eapply record_stream.
Qed.

(** ** What the persisted ledger says *)
Definition outcome_of (k : AssetOpRecordKind) : Z :=
  match k with kRejected => OUTCOME_REJECTED | _ => OUTCOME_APPLIED end.

Lemma isPartialSeq_elem l seq : isPartialSeq l seq = true <-> seq ∈ sl_partial l.
Proof.
  unfold isPartialSeq. rewrite existsb_exists. split.
  - intros (x & Hx & ->%Z.eqb_eq). by apply list_elem_of_In.
  - intros Hs. exists seq. split; [by apply list_elem_of_In|apply Z.eqb_refl].
Qed.

Lemma rejectionReason_book l b w seq r :
  holds l b w -> bk_out b !! seq = Some (kRejected, r) -> rejectionReason l seq = r \/ rejectionReason l seq = 0.
Proof.
  intros H Hr. unfold rejectionReason. destruct (find_first _ _) as [[s r']|] eqn:E; [|by right].
  apply find_first_Some in E as [Hin E]. cbn in *. zbool. subst s.
  destruct (ho_rej _ _ _ H _ _ Hin) as (_ & _ & Hx). left. congruence.
Qed.

(** An outcome in the book is read as it was written, or no longer asked for. *)
Lemma ClassifyPersisted_book l b seq k r :
  refines l b -> 0 < seq -> 0 < bk_epoch b -> bk_out b !! seq = Some (k, r) ->
  ClassifySeq (Some l) (bk_epoch b) seq = SeqBehindWindow \/
  exists reason, ClassifyPersisted [l] (sl_stream l) (bk_epoch b) seq = (outcome_of k, bool_decide (k = kAppliedPartial), reason) /\
    (k = kRejected -> reason = r \/ reason = 0).
Proof.
  intros Href Hseq He Hk. rewrite (ClassifySeq_refines l b) by (done || lia).
  unfold ClassifyPersisted, FindStream. cbn [find_first]. rewrite Z.eqb_refl.
  rewrite (ClassifySeq_refines l b) by (done || lia). destruct Href as (H & _ & Hm).
  unfold book_state. rewrite (proj2 (Z.eqb_neq seq 0)), (proj2 (Z.eqb_neq (bk_epoch b) 0)), Z.ltb_irrefl by lia.
  cbn [orb]. destruct (seq <=? book_floor b) eqn:E; [by left|]. zbool. right. rewrite Hk.
  assert (Hpart : isPartialSeq l seq = bool_decide (k = kAppliedPartial)).
  { apply eq_bool_prop_intro. rewrite !Is_true_true, isPartialSeq_elem, bool_decide_eq_true, (ho_partial _ _ _ H), Hk.
    split; [intros (_ & r' & [= -> _])|intros ->]; [done|]. split; [done|by exists r]. }
  destruct k; cbn [is_applied negb bool_decide decide]; rewrite ?Hpart.
  - exists 0. done.
  - exists ReasonPartialApplied. done.
  - exists (rejectionReason l seq). split; [done|]. intros _. by eapply rejectionReason_book.
Qed.

(** ** The window *)

(** The scene has seen no number beyond the ones given out. *)
Definition scene_behind (l : AssetOpStreamLedger) (epoch next : Z) : Prop :=
  sl_epoch l < epoch \/ sl_epoch l = epoch /\ sl_max l < next.

(** A number less than 512 behind the next one is in the window, whatever the scene
    has recorded. *)
Lemma in_window l b epoch next seq :
  refines l b -> scene_behind l epoch next -> 0 < epoch -> 1 <= seq < next -> next - seq <= 512 ->
  ClassifySeq (Some l) epoch seq ∈ [SeqUnseen; SeqAheadOfWindow; SeqApplied; SeqRejected] \/
  ClassifySeq (Some l) epoch seq = SeqJumpTooFar /\ (sl_epoch l < epoch \/ sl_max l + MaxSeqJump < seq).
Proof.
  intros Href Hb He Hseq Hspan. rewrite (ClassifySeq_refines l b) by (done || lia).
  destruct Href as (H & Hpos & Hm). unfold scene_behind in Hb. rewrite (ho_epoch _ _ _ H), (ho_max _ _ _ H) in *.
  unfold book_state. rewrite (proj2 (Z.eqb_neq seq 0)), (proj2 (Z.eqb_neq epoch 0)) by lia. cbn [orb].
  rewrite (proj2 (Z.ltb_ge epoch (bk_epoch b))) by lia.
  destruct (bk_epoch b <? epoch) eqn:E1; zbool; [split_if; [left; set_solver|right; by auto]|].
  destruct Hb as [?|[_ Hmax]]; [lia|]. rewrite (proj2 (Z.leb_gt _ _)) by (unfold book_floor, WindowBits; lia).
  destruct (bk_out b !! seq) as [[k r]|]; [left; split_if; set_solver|].
  destruct (bk_max b + MaxSeqJump <? seq) eqn:E2; zbool; [right; by auto|]. left. split_if; set_solver.
Qed.
