(* ===== verification/AssetWire.v ===== *)
(** * Asset commands: requests, their signed text and their receipts

    [go/shared/assetop/types.go], [auth.go], [receipt_identity.go] and the receipt
    checks of [reconcile.go]. A command is sent as a request; the text that is
    signed, [Canonical], and its digest, kept in the scene's receipt, name the whole
    command. The protobuf encoding of an item and of a pet, SHA-256 and HMAC are
    parameters. The second part is what an answer to a request means. *)
From stdpp Require Import base list strings pretty.
From Stdlib Require Import ZArith Lia Ascii SpecFloat.
From S2P Require Import Prelude CommerceData AssetOps AssetLedger.
Local Open Scope Z_scope.

(** ** Methods and streams ([types.go]) *)
Inductive RPC := RPCDebit | RPCCredit | RPCAbort | RPCAckReceipt.

#[global] Instance RPC_eq_dec : EqDecision RPC.
Proof. solve_decision. Defined.

Definition RPC_String (r : RPC) : string :=
  match r with
  | RPCDebit => "debit" | RPCCredit => "credit" | RPCAbort => "abort_debit" | RPCAckReceipt => "ack_receipt"
  end.

Definition STREAM_GUILD_DEBIT : Z := 1.
Definition STREAM_GUILD_CREDIT : Z := 2.
Definition STREAM_TRADE_DEBIT : Z := StreamDebit.
Definition STREAM_TRADE_CREDIT : Z := StreamCredit.
Definition STREAM_SYSTEM_CREDIT : Z := 5.

(** [None]: not a stream; the direction is not guessed. *)
Definition ApplyRPCOf (stream : Z) : option RPC :=
  if (stream =? STREAM_GUILD_DEBIT) || (stream =? STREAM_TRADE_DEBIT) then Some RPCDebit
  else if (stream =? STREAM_GUILD_CREDIT) || (stream =? STREAM_TRADE_CREDIT) || (stream =? STREAM_SYSTEM_CREDIT)
  then Some RPCCredit
  else None.

(** [Result.Terminal] *)
Definition Terminal (r : Result) : bool :=
  rs_durable r && ((rs_outcome r =? OUTCOME_APPLIED) || (rs_outcome r =? OUTCOME_REJECTED)).

Definition no_result : Result := mkResult OUTCOME_UNKNOWN 0 false false false None false false.

Record AssetOpAuth := mkAuth { au_caller : string; au_ts : Z; au_signature : string }.

Record AssetOpRequest := mkRequest {
  q_player : Z; q_stream : Z; q_seq : Z; q_correlation : Z; q_tx : Z; q_bundle : AssetBundle; q_epoch : Z;
  q_auth : AssetOpAuth }.

Definition no_auth : AssetOpAuth := mkAuth "" 0 "".

Definition with_auth (q : AssetOpRequest) (a : AssetOpAuth) : AssetOpRequest :=
  mkRequest (q_player q) (q_stream q) (q_seq q) (q_correlation q) (q_tx q) (q_bundle q) (q_epoch q) a.

(** [Op.Request] *)
Definition Request (o : Op) : AssetOpRequest :=
  mkRequest (o_player o) (o_stream o) (o_seq o) (o_correlation o) (o_tx_type o) (o_bundle o) (o_epoch o) no_auth.

(** ** The signed text ([auth.go]) *)
Definition lf : string := String "010"%char EmptyString.

Definition hex_digit (n : N) : ascii :=
  match n with
  | 0 => "0" | 1 => "1" | 2 => "2" | 3 => "3" | 4 => "4" | 5 => "5" | 6 => "6" | 7 => "7"
  | 8 => "8" | 9 => "9" | 10 => "a" | 11 => "b" | 12 => "c" | 13 => "d" | 14 => "e" | _ => "f"
  end%N%char.

(** [hex.EncodeToString] *)
Fixpoint hex (s : string) : string :=
  match s with
  | EmptyString => EmptyString
  | String a s' =>
      let n := N_of_ascii a in
      String (hex_digit (n / 16)%N) (String (hex_digit (n mod 16)%N) (hex s'))
  end.

Definition CanonicalVersion : string := "mmorpg-asset-op/v1".

(** [strconv.FormatUint(x, 10)] *)
Definition dec (x : Z) : string := pretty x.

Section wire.
Context (marshal_item : AssetItemInstance -> string) (marshal_pet : AssetPetInstance -> string).

Definition pair_text (p : Z * Z) : string := dec p.1 +:+ ":" +:+ dec p.2.

(** The elements, separated by commas. *)
Fixpoint commas (l : list string) : string :=
  match l with
  | [] => ""
  | [x] => x
  | x :: l' => x +:+ "," +:+ commas l'
  end.

Definition instances_text (b : AssetBundle) : string :=
  if bool_decide (b_instances b = []) && negb (is_some (b_pet_instance b)) then ""
  else ";v2=" +:+ foldr (fun i s => hex (marshal_item i) +:+ "," +:+ s) "" (b_instances b) +:+ ";"
         +:+ match b_pet_instance b with Some p => hex (marshal_pet p) | None => "" end.

Definition writeBundleCanonical (b : AssetBundle) : string :=
  "c=" +:+ commas (pair_text <$> b_currencies b) +:+ ";i=" +:+ commas (pair_text <$> b_items b)
  +:+ ";u=" +:+ commas (dec <$> b_uuids b) +:+ ";p=" +:+ dec (b_pet b) +:+ instances_text b.

(** The lines of the text. *)
Definition Canonical_lines (rpc : RPC) (q : AssetOpRequest) (ts : Z) : list string :=
  [CanonicalVersion; au_caller (q_auth q); RPC_String rpc; dec (q_player q); dec (q_stream q); dec (q_epoch q);
   dec (q_seq q); dec (q_correlation q); dec (q_tx q); writeBundleCanonical (q_bundle q); dec ts].

Fixpoint join_lines (l : list string) : string :=
  match l with
  | [] => ""
  | [x] => x
  | x :: l' => x +:+ lf +:+ join_lines l'
  end.

Definition Canonical (rpc : RPC) (q : AssetOpRequest) (ts : Z) : string := join_lines (Canonical_lines rpc q ts).

(** [Signer.Sign] *)
Record Signer := mkSigner { sg_caller : string; sg_secret : string }.

Definition Sign (hmac_sha256 : string -> string -> string) (s : Signer) (rpc : RPC) (q : AssetOpRequest) (nowMs : Z)
    : AssetOpRequest :=
  let q := with_auth q (mkAuth (sg_caller s) nowMs "") in
  with_auth q (mkAuth (sg_caller s) nowMs (hex (hmac_sha256 (sg_secret s) (Canonical rpc q nowMs)))).

(** ** Receipts ([receipt_identity.go]) *)
Context (sha256 : string -> string).

Definition sha256_Size : nat := 32.

Definition receipt_caller (stream : Z) : option string :=
  if (stream =? STREAM_GUILD_DEBIT) || (stream =? STREAM_GUILD_CREDIT) then Some "guild"
  else if (stream =? STREAM_TRADE_DEBIT) || (stream =? STREAM_TRADE_CREDIT) then Some "trade"
  else if stream =? STREAM_SYSTEM_CREDIT then Some "mail"
  else None.

Definition receiptDigest (o : Op) : option string :=
  match receipt_caller (o_stream o) with
  | None => None
  | Some caller =>
      if (o_player o =? 0) || (o_epoch o =? 0) || (o_seq o =? 0) || (o_correlation o =? 0) then None
      else Some (sha256 (Canonical RPCDebit (with_auth (Request o) (mkAuth caller 0 "")) 0))
  end.

(** The last stream ledger of the command's stream; none when there are two, or one
    of another epoch. [Some None] is Go's nil [selected]. *)
Fixpoint select_stream (selected : option AssetOpStreamLedger) (l : Ledger) (o : Op)
    : option (option AssetOpStreamLedger) :=
  match l with
  | [] => Some selected
  | st :: l' =>
      if negb (sl_stream st =? o_stream o) then select_stream selected l' o
      else if is_some selected || negb (sl_epoch st =? o_epoch o) then None
      else select_stream (Some st) l' o
  end.

Fixpoint find_receipt (found : option AssetOpReceipt) (l : list AssetOpReceipt) (o : Op) (digest : string)
    : option AssetOpReceipt :=
  match l with
  | [] => found
  | rc :: l' =>
      if negb (rc_seq rc =? o_seq o) then find_receipt found l' o digest
      else if is_some found || negb (rc_correlation rc =? o_correlation o)
              || negb (String.length (rc_digest rc) =? sha256_Size)%nat || negb (String.eqb (rc_digest rc) digest)
      then None
      else find_receipt (Some rc) l' o digest
  end.

Definition matchingReceipt (l : Ledger) (o : Op) : option AssetOpReceipt :=
  match receiptDigest o with
  | None => None
  | Some digest =>
      match select_stream None l o with
      | None => None
      | Some None => None
      | Some (Some st) => find_receipt None (sl_receipts st) o digest
      end
  end.

Definition snapshotHasInstances (s : option AssetSnapshot) : bool :=
  match s with
  | None => false
  | Some s => negb (bool_decide (as_items s = [])) || is_some (as_pet s)
  end.

(** [requestOp] *)
Definition requestOp (q : AssetOpRequest) : Op :=
  mkOpView 0 (q_player q) (q_stream q) (q_seq q) (q_epoch q) (q_correlation q) (q_tx q) (q_bundle q) 0 0 0 0 0 0.

(** ** What a receipt proves ([reconcile.go]) *)
Definition escrowsInstances (o : Op) : bool :=
  (0 <? Z.of_nat (length (b_uuids (o_bundle o)))) || negb (b_pet (o_bundle o) =? 0).

(** The items of the snapshot use up the identities, one each. *)
Fixpoint uses_up (ids : list Z) (items : list AssetItemInstance) : bool :=
  match items with
  | [] => bool_decide (ids = [])
  | i :: items' =>
      negb (ii_uuid i =? 0) && bool_decide (ii_uuid i ∈ ids) && negb (String.eqb (ii_proto i) "")
      && uses_up (keep_if (fun x => negb (x =? ii_uuid i)) ids) items'
  end.

Definition receiptSnapshotMatches (o : Op) (snapshot : option AssetSnapshot) : bool :=
  match snapshot with
  | None => false
  | Some s =>
      (o_stream o =? STREAM_TRADE_DEBIT)
      && (length (as_items s) =? length (b_uuids (o_bundle o)))%nat
      && Bool.eqb (is_some (as_pet s)) (negb (b_pet (o_bundle o) =? 0))
      && uses_up (b_uuids (o_bundle o)) (as_items s)
      && match as_pet s with
         | None => true
         | Some p => (pi_pet_id p =? b_pet (o_bundle o)) && negb (String.eqb (pi_proto p) "")
         end
  end.

Definition with_snapshot (r : Result) (s : option AssetSnapshot) : Result :=
  mkResult (rs_outcome r) (rs_reason r) (rs_durable r) (rs_committed r) (rs_partial r) s (rs_local r) (rs_absent r).
Definition with_durable (r : Result) (d : bool) : Result :=
  mkResult (rs_outcome r) (rs_reason r) d (rs_committed r) (rs_partial r) (rs_snapshot r) (rs_local r) (rs_absent r).
Definition with_reason (r : Result) (reason : Z) : Result :=
  mkResult (rs_outcome r) reason (rs_durable r) (rs_committed r) (rs_partial r) (rs_snapshot r) (rs_local r) (rs_absent r).
Definition with_partial (r : Result) (p : bool) : Result :=
  mkResult (rs_outcome r) (rs_reason r) (rs_durable r) (rs_committed r) p (rs_snapshot r) (rs_local r) (rs_absent r).

Definition resultWithReceipt (l : Ledger) (o : Op) (r : Result) : Result :=
  match matchingReceipt l o with
  | None => no_result
  | Some rc =>
      if (rs_outcome r =? OUTCOME_APPLIED) && escrowsInstances o then
        if negb (receiptSnapshotMatches o (rc_snapshot rc)) then no_result
        else with_snapshot r (rc_snapshot rc)
      else if snapshotHasInstances (rc_snapshot rc) then no_result
      else with_snapshot r None
  end.

Definition escrowAwaitsReceipt (o : Op) (r : Result) : bool :=
  (rs_outcome r =? OUTCOME_APPLIED) && escrowsInstances o && negb (is_some (rs_snapshot r)).

Definition withMatchingReceipt (o : Op) (r : Result) : Result :=
  let r := if is_some (rs_snapshot r) && (negb (escrowsInstances o) || negb (receiptSnapshotMatches o (rs_snapshot r)))
           then with_snapshot r None else r in
  if escrowAwaitsReceipt o r then with_durable r false else r.
End wire.

(** * Asset commands: what an answer means

    [go/shared/assetop/decide.go] and the classification of pending rows of
    [audit.go]. Durations are [int64] nanoseconds, instants milliseconds. The random
    source of the jitter is an argument; [float64] arithmetic is the IEEE 754 one of
    [SpecFloat]. *)

(** ** Actions *)
Inductive Action := ActionFinalize | ActionAwaitDurable | ActionRetry | ActionAlert.

#[global] Instance Action_eq_dec : EqDecision Action.
Proof. solve_decision. Defined.

Definition ErrOutcomeFlip : error := "assetop: ErrOutcomeFlip"%string.

Definition Decide (r : Result) (err : option error) : Action :=
  match err with
  | Some e => if String.eqb e ErrOutcomeFlip then ActionAlert else ActionRetry
  | None =>
      if rs_outcome r =? OUTCOME_UNKNOWN then ActionAlert
      else if (rs_outcome r =? OUTCOME_APPLIED) || (rs_outcome r =? OUTCOME_REJECTED) then
        if rs_durable r then ActionFinalize else ActionAwaitDurable
      else if (rs_outcome r =? OUTCOME_RETRY) || (rs_outcome r =? OUTCOME_NOT_HERE) then ActionRetry
      else ActionAlert
  end.

(** [Status] has the numbers of [AssetOps]. *)
Definition StatusPending : Z := OpPending.

Definition FinalStatus (rpc : RPC) (r : Result) (o : Op) : Z :=
  if rs_outcome r =? OUTCOME_APPLIED then
    if rs_partial r || (o_last_reason o =? ReasonPartialApplied) || (rs_reason r =? ReasonPartialApplied)
    then OpAppliedPartial else OpApplied
  else if rs_outcome r =? OUTCOME_REJECTED then
    if bool_decide (rpc = RPCAbort) && (rs_reason r =? 0) then OpAborted else OpRejected
  else StatusPending.

(** ** Delays *)
(** The constants [0.8], [0.4], [0.5] and [math.Nextafter(1, 0)]. *)
Definition f_08 : spec_float := S754_finite false 7205759403792794 (-53).
Definition f_04 : spec_float := S754_finite false 7205759403792794 (-54).
Definition f_05 : spec_float := S754_finite false 4503599627370496 (-53).
Definition f_below_1 : spec_float := S754_finite false 9007199254740991 (-53).

(** The jitter is [None] when [rnd] is nil. *)
Definition clamp_jitter (j : option spec_float) : spec_float :=
  match j with
  | None => f_05
  | Some f =>
      match f with
      | S754_nan => S754_zero false
      | _ => if SFltb f (S754_zero false) then S754_zero false
             else if SFleb (float_of_Z 1) f then f_below_1 else f
      end
  end.

Definition jitteredMs (delay : Z) (rnd : option spec_float) : Z :=
  trunc_u64 (f_div (f_mul (float_of_Z delay) (f_add f_08 (f_mul f_04 (clamp_jitter rnd)))) (float_of_Z Millisecond)).

(** [int64(base) << shift], in two's complement. *)
Definition i64 (x : Z) : Z := (x + u64_mod / 2) mod u64_mod - u64_mod / 2.
Definition shl_i64 (x k : Z) : Z := i64 (Z.shiftl x k).

(** The exponential delay, before the jitter. *)
Definition backoffDelay (attempts base max : Z) : Z :=
  let base := if base <=? 0 then Second else base in
  let max := if max <? base then base else max in
  let shift := if 16 <? attempts then 16 else attempts in
  let shifted := shl_i64 base shift in
  if (0 <? shifted) && (shifted <=? max) then shifted else max.

Definition NextAttemptMs (nowMs attempts base max : Z) (rnd : option spec_float) : Z :=
  u64 (nowMs + jitteredMs (backoffDelay attempts base max) rnd).

Record OfflineParking := mkParking { AfterAttempts : Z; Backoff : Z }.

Definition Parks (p : OfflineParking) (r : Result) (attempts : Z) : bool :=
  (0 <? AfterAttempts p) && (0 <? Backoff p) && rs_local r && rs_absent r
  && (rs_outcome r =? OUTCOME_NOT_HERE) && (AfterAttempts p <=? attempts).

Definition NextRetryMs (nowMs attempts : Z) (r : Result) (base max : Z) (park : OfflineParking)
    (rnd : option spec_float) : Z :=
  if Parks park r attempts then u64 (nowMs + jitteredMs (Backoff park) rnd)
  else NextAttemptMs nowMs attempts base max rnd.

(** ** The daily audit ([audit.go]) *)
Inductive PendingClass := PendingOnlineRetry | PendingOffline | PendingAlert | PendingAbandonCandidate.

#[global] Instance PendingClass_eq_dec : EqDecision PendingClass.
Proof. solve_decision. Defined.

Record PendingFacts := mkFacts {
  pf_stream : Z; pf_created : Z; pf_attempts : Z; pf_last_outcome : Z; pf_last_reason : Z }.

Definition ClassifyPending (f : PendingFacts) (abandonBeforeMs : Z) : PendingClass :=
  if (0 <? pf_attempts f) && (pf_last_outcome f =? OUTCOME_UNKNOWN) then PendingAlert
  else if negb (abandonBeforeMs =? 0) && (pf_created f <? abandonBeforeMs) then PendingAbandonCandidate
  else if (pf_last_outcome f =? OUTCOME_NOT_HERE) && negb (pf_last_reason f =? ReasonPlayerNotHere) then PendingOffline
  else PendingOnlineRetry.

Record ClassCount := mkCount { cc_stream : Z; cc_class : PendingClass; cc_rows : Z; cc_oldest : Z }.

(** [PendingTally.Add]: the counts are keyed by stream and class. *)
Definition tally_key (s : Z) (c : PendingClass) (x : ClassCount) : bool :=
  (cc_stream x =? s) && bool_decide (cc_class x = c).

Definition tally_row (nowMs : Z) (f : PendingFacts) (x : ClassCount) : ClassCount :=
  mkCount (cc_stream x) (cc_class x) (u64 (cc_rows x + 1))
    (if (pf_created f <? nowMs) && (cc_oldest x <? nowMs - pf_created f) then nowMs - pf_created f else cc_oldest x).

Definition Tally_Add (nowMs abandonBeforeMs : Z) (t : list ClassCount) (f : PendingFacts) : list ClassCount :=
  let class := ClassifyPending f abandonBeforeMs in
  let key := tally_key (pf_stream f) class in
  let t := if existsb key t then t else t ++ [mkCount (pf_stream f) class 0 0] in
  update_first key (tally_row nowMs f) t.

Definition class_number (c : PendingClass) : Z :=
  match c with PendingOnlineRetry => 1 | PendingOffline => 2 | PendingAlert => 3 | PendingAbandonCandidate => 4 end.

Definition count_less (a b : ClassCount) : bool :=
  if negb (cc_stream a =? cc_stream b) then cc_stream a <? cc_stream b
  else class_number (cc_class a) <? class_number (cc_class b).

(** [PendingTally.Counts] after the rows were added. *)
Definition Tally (nowMs abandonBeforeMs : Z) (rows : list PendingFacts) : list ClassCount :=
  sort_stable count_less (foldl (Tally_Add nowMs abandonBeforeMs) [] rows).
