(* ===== verification/AssetWireThms.v ===== *)
(** * Asset commands: the signed text names the command

    [Canonical] is injective: from the text a scene verifies, and from the text a
    receipt's digest is taken of, every field of the command can be read back. *)

From stdpp Require Import base list strings pretty numbers.
From Stdlib Require Import ZArith Lia Ascii.
From S2P Require Import Prelude CommerceData AssetOps AssetLedger AssetWire.
Local Open Scope Z_scope.

(** ** Splitting at a separator *)
Definition lacks (c : ascii) : ascii -> bool := fun a => negb (Ascii.eqb a c).

Lemma app_String a s t : String a s +:+ t = String a (s +:+ t).
Proof. done. Qed.
Lemma app_Empty t : EmptyString +:+ t = t.
Proof. done. Qed.

Lemma chars_app P s t : chars P (s +:+ t) = chars P s && chars P t.
Proof. induction s as [|a s IH]; [done|]. rewrite app_String. cbn. by rewrite IH, andb_assoc. Qed.

Lemma chars_impl (P Q : ascii -> bool) s : (forall a, P a = true -> Q a = true) -> chars P s = true -> chars Q s = true.
Proof. intros H. induction s as [|a s IH]; cbn; [done|]. intros [Ha Hs]%andb_true_iff. by rewrite (H a Ha), IH. Qed.

Lemma split_sep c a b x y :
  chars (lacks c) a = true -> chars (lacks c) b = true ->
  a +:+ String c x = b +:+ String c y -> a = b /\ x = y.
Proof.
  revert b. induction a as [|h a IH]; intros [|h' b]; rewrite ?app_String, ?app_Empty; cbn; intros Ha Hb E.
  - by injection E.
  - injection E as -> _. unfold lacks in Hb. by rewrite Ascii.eqb_refl in Hb.
  - injection E as -> _. unfold lacks in Ha. by rewrite Ascii.eqb_refl in Ha.
  - injection E as -> E. apply andb_true_iff in Ha as [_ Ha], Hb as [_ Hb].
    destruct (IH b Ha Hb E) as [-> ->]. done.
Qed.

Lemma no_sep c a b x : chars (lacks c) b = true -> a +:+ String c x = b -> False.
Proof.
  intros Hb <-. rewrite chars_app in Hb. cbn in Hb. unfold lacks in Hb. rewrite Ascii.eqb_refl in Hb.
  by rewrite andb_false_r in Hb.
Qed.

Lemma string_app_inv_head (a b c : string) : a +:+ b = a +:+ c -> b = c.
Proof. induction a as [|h a IH]; [done|]. rewrite !app_String. intros E. injection E as E. auto. Qed.

(** ** Decimal numbers *)
Definition dec_char (a : ascii) : bool := existsb (Ascii.eqb a) (String.list_ascii_of_string "0123456789-").

Lemma dec_char_N x s : chars dec_char s = true -> chars dec_char (pretty_N_go x s) = true.
Proof.
  revert s. induction (N.lt_wf_0 x) as [x _ IH]. intros s Hs. destruct (decide (0 < x)%N).
  - rewrite pretty_N_go_step by done. apply IH; [by apply N.div_lt|]. cbn. rewrite Hs, andb_true_r.
    assert (x `mod` 10 < 10)%N as Hm by (by apply N.mod_lt). revert Hm. generalize (x `mod` 10)%N. intros n Hn.
    destruct n as [|p]; [done|]. do 4 (destruct p as [p|p|]; [| |done || lia]); lia.
  - assert (x = 0)%N as -> by lia. by rewrite pretty_N_go_0.
Qed.

Lemma dec_chars x : chars dec_char (dec x) = true.
Proof.
  assert (HN : forall n : N, chars dec_char (pretty n) = true).
  { intros n. unfold pretty, pretty_N. case_decide; [done|]. by apply dec_char_N. }
  unfold dec, pretty, pretty_Z. destruct x; [done|apply HN|]. rewrite app_String, app_Empty. cbn. apply HN.
Qed.

Lemma dec_inj x y : dec x = dec y -> x = y.
Proof. apply pretty_Z_inj. Qed.

Lemma dec_lacks c x : dec_char c = false -> chars (lacks c) (dec x) = true.
Proof.
  intros Hc. eapply chars_impl; [|apply dec_chars]. intros a Ha. unfold lacks.
  destruct (Ascii.eqb_spec a c) as [->|]; [congruence|done].
Qed.

Lemma dec_nonempty x : dec x <> "".
Proof.
  assert (Hl : forall m s, s <> "" -> pretty_N_go m s <> "").
  { intros m. induction (N.lt_wf_0 m) as [m _ IH]. intros s Hs. destruct (decide (0 < m)%N).
    - rewrite pretty_N_go_step by done. apply IH; [by apply N.div_lt|done].
    - assert (m = 0)%N as -> by lia. by rewrite pretty_N_go_0. }
  unfold dec, pretty, pretty_Z. destruct x as [|p|p]; [done| |by rewrite app_String].
  unfold pretty, pretty_positive, pretty, pretty_N. rewrite decide_False by done.
  rewrite pretty_N_go_step by done. by apply Hl.
Qed.

(** ** Hexadecimal *)
Definition hex_char (a : ascii) : bool := existsb (Ascii.eqb a) (String.list_ascii_of_string "0123456789abcdef").

Lemma N16 n : (n < 16)%N -> n ∈ [0;1;2;3;4;5;6;7;8;9;10;11;12;13;14;15]%N.
Proof. intros H. rewrite !elem_of_cons. lia. Qed.

(** The sixteen digits, one by one. *)
Ltac digits H :=
  apply N16 in H; repeat (apply elem_of_cons in H as [->|H]); [..|by apply not_elem_of_nil in H].

Lemma hex_digit_char n : (n < 16)%N -> hex_char (hex_digit n) = true.
Proof. intros H. digits H; done. Qed.

Lemma hex_digit_inj n m : (n < 16)%N -> (m < 16)%N -> hex_digit n = hex_digit m -> n = m.
Proof. intros Hn Hm. digits Hn; digits Hm; done. Qed.

Lemma ascii_16 a : (N_of_ascii a / 16 < 16)%N /\ (N_of_ascii a mod 16 < 16)%N.
Proof. split; [apply N.Div0.div_lt_upper_bound; pose proof (N_ascii_bounded a); lia|by apply N.mod_lt]. Qed.

Lemma hex_chars s : chars hex_char (hex s) = true.
Proof.
  induction s as [|a s IH]; [done|]. cbn [hex chars]. destruct (ascii_16 a). by rewrite !hex_digit_char, IH.
Qed.

Lemma hex_inj s t : hex s = hex t -> s = t.
Proof.
  revert t. induction s as [|a s IH]; intros [|b t]; [done|done|done|]. cbn [hex]. intros E. injection E as E1 E2 E3.
  destruct (ascii_16 a), (ascii_16 b). apply hex_digit_inj in E1, E2; [|done..].
  assert (N_of_ascii a = N_of_ascii b) as Hab.
  { rewrite (N.div_mod (N_of_ascii a) 16), (N.div_mod (N_of_ascii b) 16) by done. by rewrite E1, E2. }
  apply (f_equal ascii_of_N) in Hab. rewrite !ascii_N_embedding in Hab. subst. f_equal. auto.
Qed.

Lemma hex_lacks c s : hex_char c = false -> chars (lacks c) (hex s) = true.
Proof.
  intros Hc. eapply chars_impl; [|apply hex_chars]. intros a Ha. unfold lacks.
  destruct (Ascii.eqb_spec a c) as [->|]; [congruence|done].
Qed.

(** ** Lists *)
Lemma pair_text_lacks c p : dec_char c = false -> c <> ":"%char -> chars (lacks c) (pair_text p) = true.
Proof.
  intros Hc Hne. unfold pair_text. rewrite !chars_app, !dec_lacks by done. cbn. unfold lacks.
  destruct (Ascii.eqb_spec ":"%char c); [congruence|done].
Qed.

Lemma pair_text_inj p q : pair_text p = pair_text q -> p = q.
Proof.
  unfold pair_text. destruct p as [a b], q as [c d]. cbn [fst snd]. rewrite !app_String, !app_Empty.
  intros [E1 E2]%split_sep; [|by apply dec_lacks..]. apply dec_inj in E1, E2. congruence.
Qed.

#[global] Instance pair_text_Inj : Inj (=) (=) pair_text := pair_text_inj.
#[global] Instance dec_Inj : Inj (=) (=) dec := dec_inj.

Lemma pair_text_nonempty p : pair_text p <> "".
Proof. unfold pair_text. destruct (dec p.1) eqn:E; [by destruct (dec_nonempty p.1)|by rewrite app_String]. Qed.

Lemma commas_cons x y l : commas (x :: y :: l) = x +:+ String "," (commas (y :: l)).
Proof. done. Qed.

Lemma commas_nonempty x l : x <> "" -> commas (x :: l) <> "".
Proof. intros Hx. destruct l as [|y l]; [done|]. rewrite commas_cons. by destruct x. Qed.

Lemma commas_inj l1 l2 :
  Forall (fun s => s <> "" /\ chars (lacks ",") s = true) l1 -> Forall (fun s => s <> "" /\ chars (lacks ",") s = true) l2 ->
  commas l1 = commas l2 -> l1 = l2.
Proof.
  intros H1. revert l2. induction H1 as [|x l1 [Hx0 Hx] H1 IH]; intros l2 H2.
  - destruct H2 as [|y l2 [Hy0 Hy] H2]; [done|]. intros E. exfalso. by apply (commas_nonempty y l2 Hy0).
  - destruct H2 as [|y l2 [Hy0 Hy] H2]; [intros E; exfalso; by apply (commas_nonempty x l1 Hx0)|].
    destruct l1 as [|x' l1], l2 as [|y' l2].
    + cbn. by intros ->.
    + rewrite commas_cons. change (commas [x]) with x. intros E. symmetry in E. by apply no_sep in E.
    + rewrite commas_cons. change (commas [y]) with y. intros E. by apply no_sep in E.
    + rewrite !commas_cons. intros [-> E]%split_sep; [|done..]. f_equal. by apply IH.
Qed.

Lemma commas_lacks c l : c <> ","%char -> Forall (fun s => chars (lacks c) s = true) l -> chars (lacks c) (commas l) = true.
Proof.
  intros Hc. induction 1 as [|x l Hx Hl IH]; [done|]. destruct l as [|y l]; [done|].
  rewrite commas_cons, chars_app, Hx. cbn [andb]. change (lacks c "," && chars (lacks c) (commas (y :: l)) = true).
  rewrite IH. unfold lacks. destruct (Ascii.eqb_spec ","%char c); [congruence|done].
Qed.

Lemma pairs_good (l : list (Z * Z)) : Forall (fun s => s <> "" /\ chars (lacks ",") s = true) (pair_text <$> l).
Proof. apply Forall_fmap, Forall_true. intros p. split; [apply pair_text_nonempty|by apply pair_text_lacks]. Qed.

Lemma decs_good (l : list Z) : Forall (fun s => s <> "" /\ chars (lacks ",") s = true) (dec <$> l).
Proof. apply Forall_fmap, Forall_true. intros x. split; [apply dec_nonempty|by apply dec_lacks]. Qed.

Lemma pairs_lacks c (l : list (Z * Z)) :
  dec_char c = false -> c <> ":"%char -> c <> ","%char -> chars (lacks c) (commas (pair_text <$> l)) = true.
Proof. intros. apply commas_lacks; [done|]. apply Forall_fmap, Forall_true. intros p. by apply pair_text_lacks. Qed.

Lemma decs_lacks c (l : list Z) : dec_char c = false -> c <> ","%char -> chars (lacks c) (commas (dec <$> l)) = true.
Proof. intros. apply commas_lacks; [done|]. apply Forall_fmap, Forall_true. intros p. by apply dec_lacks. Qed.

(** ** The bundle *)
Section wire.
Context (marshal_item : AssetItemInstance -> string) (marshal_pet : AssetPetInstance -> string).

(** What the text says of the instances: their encodings, in order. *)
Definition instance_bytes (b : AssetBundle) : list string * string :=
  (marshal_item <$> b_instances b, from_option marshal_pet "" (b_pet_instance b)).

Definition hex_items (l : list AssetItemInstance) (rest : string) : string :=
  foldr (fun i s => hex (marshal_item i) +:+ String "," s) rest l.

Lemma hex_items_inj l1 l2 r1 r2 :
  hex_items l1 (String ";" r1) = hex_items l2 (String ";" r2) -> marshal_item <$> l1 = marshal_item <$> l2 /\ r1 = r2.
Proof.
  assert (Hh : forall s rest r, hex s +:+ String "," rest = String ";" r -> False).
  { intros [|a s] rest r E; [done|]. cbn [hex] in E. rewrite app_String in E. injection E as E _.
    destruct (ascii_16 a) as [Ha _]. apply hex_digit_char in Ha. by rewrite E in Ha. }
  revert l2. induction l1 as [|i l1 IH]; intros [|j l2]; cbn; intros E.
  - by injection E.
  - symmetry in E. by apply Hh in E.
  - by apply Hh in E.
  - apply split_sep in E as [E1 E2]; [|by apply hex_lacks..]. apply hex_inj in E1.
    destruct (IH l2 E2) as [-> ->]. by rewrite E1.
Qed.

Lemma instances_text_shape b :
  instances_text marshal_item marshal_pet b = "" /\ instance_bytes b = ([], "") \/
  instances_text marshal_item marshal_pet b = String ";" ("v2=" +:+ hex_items (b_instances b) (String ";" (hex (instance_bytes b).2))).
Proof.
  unfold instances_text, instance_bytes. split_if.
  - left. split; [done|]. zbool. rewrite H. by destruct (b_pet_instance b).
  - right. rewrite (app_String ";" "v2="). do 2 f_equal.
    assert (Hf : forall t, foldr (fun i s => hex (marshal_item i) +:+ "," +:+ s) "" (b_instances b) +:+ t = hex_items (b_instances b) t).
    { intros t. clear. induction (b_instances b) as [|i l IH]; [done|]. cbn. rewrite !string_app_assoc, app_String, app_Empty.
      do 2 f_equal. exact IH. }
    rewrite Hf. f_equal. rewrite app_String, app_Empty. f_equal. by destruct (b_pet_instance b).
Qed.

Lemma instances_text_inj b1 b2 p1 p2 :
  dec p1 +:+ instances_text marshal_item marshal_pet b1 = dec p2 +:+ instances_text marshal_item marshal_pet b2 ->
  p1 = p2 /\ instance_bytes b1 = instance_bytes b2.
Proof.
  assert (Hnil : forall s, s +:+ "" = s) by (induction s as [|a s IHs]; [done|rewrite app_String; by f_equal]).
  destruct (instances_text_shape b1) as [[-> ->]| ->], (instances_text_shape b2) as [[-> ->]| ->]; rewrite ?Hnil.
  - by intros ->%dec_inj.
  - intros E. symmetry in E. apply no_sep in E; [done|by apply dec_lacks].
  - intros E. apply no_sep in E; [done|by apply dec_lacks].
  - intros [->%dec_inj E]%split_sep; [|by apply dec_lacks..]. split; [done|].
    apply string_app_inv_head, hex_items_inj in E as [E1 E2%hex_inj]. unfold instance_bytes in *. cbn in E2. by rewrite E1, E2.
Qed.

Definition same_bundle (b1 b2 : AssetBundle) : Prop :=
  b_currencies b1 = b_currencies b2 /\ b_items b1 = b_items b2 /\ b_uuids b1 = b_uuids b2 /\ b_pet b1 = b_pet b2 /\
  instance_bytes b1 = instance_bytes b2.

Lemma writeBundle_inj b1 b2 :
  writeBundleCanonical marshal_item marshal_pet b1 = writeBundleCanonical marshal_item marshal_pet b2 -> same_bundle b1 b2.
Proof.
  unfold writeBundleCanonical. rewrite !app_String, !app_Empty. intros E. injection E as E.
  apply split_sep in E as [Ec E]; [|by apply pairs_lacks..]. injection E as E.
  apply split_sep in E as [Ei E]; [|by apply pairs_lacks..]. injection E as E.
  apply split_sep in E as [Eu E]; [|by apply decs_lacks..]. injection E as E. apply instances_text_inj in E as [Ep Eb].
  apply commas_inj in Ec; [|apply pairs_good..]. apply commas_inj in Ei; [|apply pairs_good..].
  apply commas_inj in Eu; [|apply decs_good..].
  split_and!; [by apply (inj (fmap pair_text))|by apply (inj (fmap pair_text))|by apply (inj (fmap dec))|done|done].
Qed.
(** ** The lines *)
Definition one_line (s : string) : bool := chars (lacks "010") s.

Lemma hex_items_one_line l t : one_line t = true -> one_line (hex_items l t) = true.
Proof.
  intros Ht. induction l as [|i l IH]; [done|]. cbn. unfold one_line in *. rewrite chars_app, hex_lacks by done. exact IH.
Qed.

Lemma instances_text_one_line b : one_line (instances_text marshal_item marshal_pet b) = true.
Proof.
  destruct (instances_text_shape b) as [[-> _]| ->]; [done|].
  apply (hex_items_one_line (b_instances b) (String ";" (hex (instance_bytes b).2))).
  apply (hex_lacks "010" (instance_bytes b).2). done.
Qed.

Lemma writeBundle_one_line b : one_line (writeBundleCanonical marshal_item marshal_pet b) = true.
Proof.
  unfold writeBundleCanonical, one_line. rewrite !chars_app, !pairs_lacks, decs_lacks, dec_lacks by done.
  apply instances_text_one_line.
Qed.

Lemma join_lines_inj l1 l2 :
  length l1 = length l2 -> Forall (fun s => one_line s = true) l1 -> Forall (fun s => one_line s = true) l2 ->
  join_lines l1 = join_lines l2 -> l1 = l2.
Proof.
  intros Hl H1. revert l2 Hl. induction H1 as [|x l1 Hx H1 IH]; intros [|y l2] Hl H2; [done|done|done|].
  injection Hl as Hl. inversion H2 as [|? ? Hy H2']; subst. destruct l1 as [|x' l1], l2 as [|y' l2]; [|done|done|].
  - cbn. by intros ->.
  - intros E. change (x +:+ String "010" (join_lines (x' :: l1)) = y +:+ String "010" (join_lines (y' :: l2))) in E.
    apply split_sep in E as [-> E]; [|done..]. f_equal. by apply IH.
Qed.

Lemma Canonical_lines_one_line rpc q ts :
  one_line (au_caller (q_auth q)) = true -> Forall (fun s => one_line s = true) (Canonical_lines marshal_item marshal_pet rpc q ts).
Proof.
  intros Hc. unfold Canonical_lines.
  repeat (constructor; [first [exact Hc | apply writeBundle_one_line | by apply dec_lacks | by destruct rpc | done]|]). constructor.
Qed.

Lemma Canonical_inj rpc1 rpc2 q1 q2 t1 t2 :
  one_line (au_caller (q_auth q1)) = true -> one_line (au_caller (q_auth q2)) = true ->
  Canonical marshal_item marshal_pet rpc1 q1 t1 = Canonical marshal_item marshal_pet rpc2 q2 t2 ->
  rpc1 = rpc2 /\ t1 = t2 /\ au_caller (q_auth q1) = au_caller (q_auth q2) /\ q_player q1 = q_player q2 /\
  q_stream q1 = q_stream q2 /\ q_epoch q1 = q_epoch q2 /\ q_seq q1 = q_seq q2 /\
  q_correlation q1 = q_correlation q2 /\ q_tx q1 = q_tx q2 /\ same_bundle (q_bundle q1) (q_bundle q2).
Proof.
  intros H1 H2 E. unfold Canonical in E. apply join_lines_inj in E; [|done|by apply Canonical_lines_one_line..].
  unfold Canonical_lines in E. remember (writeBundleCanonical _ _ (q_bundle q1)) as w1 eqn:W1.
  remember (writeBundleCanonical _ _ (q_bundle q2)) as w2 eqn:W2. injection E as Ec Er Ep Es Ee Eq Ecorr Et Eb Ets. apply dec_inj in Ep, Es, Ee, Eq, Ecorr, Et, Ets.
  subst w1 w2. apply writeBundle_inj in Eb. split_and!; try done. by destruct rpc1, rpc2.
Qed.
End wire.
