(* ===== verification/SceneNode.v ===== *)
(** * Where a player is: the mirror of scene nodes and the locator

    [go/shared/scenenode/watcher.go] and [locator.go]. The watcher mirrors the node
    registrations of etcd by a full read and the events after it; the locator turns a
    player's location record into the endpoint of the one node that holds him. The
    JSON of a registration and the protobuf of a location are parameters or kept
    decoded. *)

From stdpp Require Import base list gmap strings pretty.
From Stdlib Require Import ZArith Lia.
From S2P Require Import Prelude.
Local Open Scope Z_scope.

(** ** Errors *)
Definition ErrNotOnline : error := "scenenode: player location absent"%string.
Definition ErrNodeUnknown : error := "scenenode: scene node not registered or ambiguous"%string.
(** Wraps [ErrNodeUnknown]. *)
Definition ErrNodeAmbiguous : error := "scenenode: node identity ambiguous"%string.
Definition ErrAwaitingPlacement : error := "scenenode: player awaiting cross-zone placement"%string.
Definition ErrLocationDecode : error := "scenenode: player location does not decode"%string.
Definition ErrNodeMissing : error := "scenenode: node not registered"%string.

Definition IsNoHolder (e : error) : bool :=
  bool_decide (e ∈ [ErrNotOnline; ErrAwaitingPlacement; ErrNodeUnknown; ErrNodeAmbiguous]).

(** ** The mirror *)
Record NodeEntry := mkNode { ne_node : Z; ne_zone : Z; ne_uuid : string; ne_endpoint : string }.

#[global] Instance NodeEntry_eq_dec : EqDecision NodeEntry.
Proof. solve_decision. Defined.

(** A registration after [json.Unmarshal]. *)
Record Registration := mkRegistration { rg_node : Z; rg_zone : Z; rg_uuid : string; rg_ip : string; rg_port : Z }.

Inductive event := EventPut (key value : string) | EventDelete (key : string).

(** [strings.Contains] *)
Fixpoint contains (sub s : string) : bool :=
  String.prefix sub s || match s with EmptyString => false | String _ s' => contains sub s' end.

Section mirror.
Context (decode : string -> option Registration).

Definition parse (key value : string) : option NodeEntry :=
  if contains "/allocated/" key then None
  else match decode value with
  | None => None
  | Some reg =>
      if rg_port reg =? 0 then None
      else Some (mkNode (rg_node reg) (rg_zone reg) (rg_uuid reg) (rg_ip reg +:+ ":" +:+ pretty (rg_port reg)))
  end.

(** The registrations under the prefix, and the mirror of them. *)
Notation registry := (gmap string string).
Notation nodes := (gmap string NodeEntry).

Definition fullSync (kvs : registry) : nodes := map_imap parse kvs.

Definition Upsert (w : nodes) (key : string) (entry : NodeEntry) : nodes := <[key := entry]> w.

Definition handleEvent (w : nodes) (ev : event) : nodes :=
  match ev with
  | EventPut key value => match parse key value with Some entry => Upsert w key entry | None => w end
  | EventDelete key => delete key w
  end.

(** What the event did to the registrations. *)
Definition registry_event (kvs : registry) (ev : event) : registry :=
  match ev with EventPut key value => <[key := value]> kvs | EventDelete key => delete key kvs end.

(** The entries whose connection is dropped ([onRemove]). *)
Definition removed_by_sync (prev next : nodes) : list NodeEntry :=
  (map_to_list (map_imap (fun key entry =>
     match next !! key with
     | Some n => if String.eqb (ne_endpoint n) (ne_endpoint entry) then None else Some entry
     | None => Some entry
     end) prev)).*2.
End mirror.

Definition node_matches (zone : Z) (node : string) (e : NodeEntry) : bool :=
  (ne_zone e =? zone) && String.eqb (pretty (ne_node e)) node.

(** [EntryOf], over the entries in the order the range visits them. *)
Fixpoint EntryOf_loop (zone : Z) (node : string) (l : list NodeEntry) (found : option NodeEntry) (matches : nat)
    : res NodeEntry :=
  match l with
  | [] =>
      if (1 <? matches)%nat then Err ErrNodeAmbiguous
      else match found with Some e => Ok e | None => Err ErrNodeMissing end
  | e :: l' =>
      if negb (node_matches zone node e) then EntryOf_loop zone node l' found matches
      else if (1 <? S matches)%nat
              && negb (String.eqb (from_option ne_endpoint "" found) (ne_endpoint e)) then Err ErrNodeAmbiguous
      else EntryOf_loop zone node l' (Some e) (S matches)
  end.

Definition EntryOf (order : list NodeEntry) (zone : Z) (node : string) : res NodeEntry :=
  EntryOf_loop zone node order None 0.

Definition EndpointOf (order : list NodeEntry) (zone : Z) (node : string) : res string :=
  entry ← EntryOf order zone node; Ok (ne_endpoint entry).

(** ** The locator *)
Record PlayerLocation := mkLocation { pl_zone : Z; pl_node : string; pl_epoch : Z }.

(** The location key: absent or empty, or bytes that decode or not. *)
Inductive raw_location := NoLocation | RawLocation (loc : option PlayerLocation).

Record Target := mkTarget { tg_endpoint : string; tg_client : bool }.

Definition Resolve (raw : res raw_location) (synced : bool) (order : list NodeEntry) (dial : string -> res ())
    : res Target :=
  raw ← raw;
  match raw with
  | NoLocation => Err ErrNotOnline
  | RawLocation None => Err ErrLocationDecode
  | RawLocation (Some loc) =>
      if String.eqb (pl_node loc) "" then
        if negb (pl_epoch loc =? 0) then Err ErrAwaitingPlacement else Err ErrNodeUnknown
      else if negb synced then Err ErrNodeUnknown
      else match EndpointOf order (pl_zone loc) (pl_node loc) with
      | Err _ => Err ErrNodeUnknown
      | Ok endpoint => _ ← dial endpoint; Ok (mkTarget endpoint true)
      end
  end.

(** ** Facts *)

(** The mirror is what a full read would give, as long as no registration is
    overwritten by one that does not parse. *)
Definition event_parses (decode : string -> option Registration) (ev : event) : Prop :=
  match ev with EventPut key value => is_Some (parse decode key value) | EventDelete _ => True end.

Lemma handleEvent_mirrors decode kvs ev :
  event_parses decode ev -> handleEvent decode (fullSync decode kvs) ev = fullSync decode (registry_event kvs ev).
Proof.
  unfold fullSync. destruct ev as [key value|key]; cbn.
  - intros [e He]. rewrite He. unfold Upsert. apply map_eq. intros k. destruct (decide (key = k)) as [<-|Hne].
    + by rewrite lookup_insert_eq, map_lookup_imap, lookup_insert_eq.
    + by rewrite lookup_insert_ne, !map_lookup_imap, lookup_insert_ne by done.
  - intros _. apply map_eq. intros k. destruct (decide (key = k)) as [<-|Hne].
    + by rewrite lookup_delete_eq, map_lookup_imap, lookup_delete_eq.
    + by rewrite lookup_delete_ne, !map_lookup_imap, lookup_delete_ne by done.
Qed.

Lemma watch_mirrors decode kvs evs :
  Forall (event_parses decode) evs ->
  foldl (handleEvent decode) (fullSync decode kvs) evs = fullSync decode (foldl registry_event kvs evs).
Proof.
  intros Hall. revert kvs. induction Hall as [|ev evs Hev Hall IH]; intros kvs; [done|]. cbn.
  by rewrite handleEvent_mirrors, IH.
Qed.

(** A node is found exactly when one registration carries its identity, whatever the
    order of the range. *)
Lemma EntryOf_loop_many zone node l found matches :
  (2 <= matches)%nat -> EntryOf_loop zone node l found matches = Err ErrNodeAmbiguous.
Proof.
  revert found matches. induction l as [|e l IH]; intros found matches Hm; cbn [EntryOf_loop].
  - by rewrite (proj2 (Nat.ltb_lt 1 matches)) by lia.
  - split_if; [by apply IH|]. split_if; [done|]. apply IH. lia.
Qed.

Lemma EntryOf_loop_spec zone node l found matches :
  (matches <= 1)%nat -> (matches = 0%nat <-> found = None) ->
  match EntryOf_loop zone node l found matches with
  | Ok e => keep_if (node_matches zone node) l = [] /\ found = Some e \/
            matches = 0%nat /\ keep_if (node_matches zone node) l = [e]
  | Err x => x = ErrNodeMissing /\ matches = 0%nat /\ keep_if (node_matches zone node) l = [] \/
             x = ErrNodeAmbiguous /\ (2 <= matches + length (keep_if (node_matches zone node) l))%nat
  end.
Proof.
  revert found matches. induction l as [|e l IH]; intros found matches Hm Hf; cbn [EntryOf_loop keep_if].
  - rewrite (proj2 (Nat.ltb_ge 1 matches)) by lia. destruct found as [e|]; [by left|].
    left. split_and!; [done|by apply Hf|done].
  - destruct (node_matches zone node e); cbn [negb]; [|by apply IH].
    destruct matches as [|matches].
    + cbn [Nat.ltb andb]. change ((1 <? 1)%nat && _) with false. cbn iota.
      pose proof (IH (Some e) 1%nat ltac:(lia) ltac:(done)) as H.
      destruct (EntryOf_loop zone node l (Some e) 1) as [e'|x].
      * destruct H as [[H1 [= <-]]|[H1 _]]; [|done]. right. by rewrite H1.
      * destruct H as [(_ & H & _)|[H1 H2]]; [done|]. right. cbn. split; [done|lia].
    + assert (matches = 0%nat) as -> by lia. split_if; [right; cbn; split; [done|lia]|].
      rewrite EntryOf_loop_many by lia. right. cbn. split; [done|lia].
Qed.

(** The order of the range does not matter. *)
Lemma EntryOf_perm l1 l2 zone node : l1 ≡ₚ l2 -> EntryOf l1 zone node = EntryOf l2 zone node.
Proof.
  intros Hk%(keep_if_perm (node_matches zone node)).
  pose proof (EntryOf_loop_spec zone node l1 None 0 ltac:(lia) ltac:(done)) as H1.
  pose proof (EntryOf_loop_spec zone node l2 None 0 ltac:(lia) ltac:(done)) as H2. fold (EntryOf l1 zone node) in H1.
  fold (EntryOf l2 zone node) in H2. pose proof (Permutation_length Hk) as Hl.
  destruct (EntryOf l1 zone node) as [e1|x1], (EntryOf l2 zone node) as [e2|x2].
  - destruct H1 as [[_ ?]|[_ E1]]; [done|]. destruct H2 as [[_ ?]|[_ E2]]; [done|]. rewrite E1, E2 in Hk.
    apply Permutation_singleton_inj in Hk. congruence.
  - destruct H1 as [[_ ?]|[_ E1]]; [done|]. rewrite E1 in Hl. destruct H2 as [(_ & _ & E2)|[_ E2]].
    + by rewrite E2 in Hl. + cbn in *; lia.
  - destruct H2 as [[_ ?]|[_ E1]]; [done|]. rewrite E1 in Hl. destruct H1 as [(_ & _ & E2)|[_ E2]].
    + by rewrite E2 in Hl. + cbn in *; lia.
  - destruct H1 as [(-> & _ & E1)|[-> E1]], H2 as [(-> & _ & E2)|[-> E2]]; try done.
    + rewrite E1 in Hl. cbn in *; lia. + rewrite E2 in Hl. cbn in *; lia.
Qed.

(** The locator answers an endpoint only for a node that alone carries the identity of
    the player's record. *)
Lemma Resolve_sound raw synced order dial t :
  Resolve raw synced order dial = Ok t ->
  exists (loc : PlayerLocation) (e : NodeEntry), raw = Ok (RawLocation (Some loc)) /\ synced = true /\ pl_node loc <> ""%string /\
    keep_if (node_matches (pl_zone loc) (pl_node loc)) order = [e] /\ tg_endpoint t = ne_endpoint e /\ tg_client t = true.
Proof.
  unfold Resolve. intros ([|[loc|]] & Hraw & H)%bind_Ok; [done| |done].
  destruct (String.eqb_spec (pl_node loc) "") as [|Hn]; [by split_if|]. destruct synced; [|done]. cbn in H.
  unfold EndpointOf in H. destruct (EntryOf order (pl_zone loc) (pl_node loc)) as [e|] eqn:He; [|done]. cbn in H.
  apply bind_Ok in H as (? & _ & [= <-]). exists loc, e.
  pose proof (EntryOf_loop_spec (pl_zone loc) (pl_node loc) order None 0 ltac:(lia) ltac:(done)) as Hs.
  fold (EntryOf order (pl_zone loc) (pl_node loc)) in Hs. rewrite He in Hs. destruct Hs as [[_ ?]|[_ Hs]]; [done|].
  split_and!; done.
Qed.
