(* ===== verification/AssetCaller.v ===== *)
(** * Asset commands: one delivery

    [Caller.Do] of [go/shared/assetop/caller.go]: find the scene that holds the
    player, send the signed request, follow a player who just moved, and ask again
    until the outcome is durable. The scene, the locator's reads, the timer and the
    clock are an interface, [SceneWorld]; a method threads the world. *)

From stdpp Require Import base list strings.
From Stdlib Require Import ZArith Lia.
From S2P Require Import Prelude CommerceData AssetOps AssetLedger AssetWire SceneNode.
Local Open Scope Z_scope.

Definition ErrNoSigner : error := "assetop: ErrNoSigner"%string.
Definition ErrNoClient : error := "assetop: target has no client"%string.

Record AssetOpResponse := mkResponse {
  rp_outcome : Z; rp_reason : Z; rp_durable : bool; rp_partial : bool; rp_snapshot : option AssetSnapshot }.

(** What one delivery does to the world. [sw_sent] is every request that left so far,
    the last one first; only a call adds to it. *)
Class SceneWorld (W : Type) := {
  sw_resolve : W -> Z -> W * res Target;
  sw_call : W -> string -> RPC -> AssetOpRequest -> W * res AssetOpResponse;
  sw_sleep : W -> Z -> W * res ();
  sw_now : W -> Z;
  sw_sent : W -> list (RPC * AssetOpRequest) }.

Class SceneLaws (W : Type) `{SceneWorld W} := {
  sl_resolve : forall w id, sw_sent (sw_resolve w id).1 = sw_sent w;
  sl_sleep : forall w d, sw_sent (sw_sleep w d).1 = sw_sent w;
  sl_call : forall w e rpc q, sw_sent (sw_call w e rpc q).1 = (rpc, q) :: sw_sent w }.

Definition DefaultRequery : list Z := [100 * Millisecond; 200 * Millisecond; 400 * Millisecond].

(** [Caller]: the signer may be missing; [nil] delays are the default ones. *)
Record Caller := mkCaller { ca_signer : option Signer; ca_requery : option (list Z) }.

Definition requeryDelays (c : Caller) : list Z := default DefaultRequery (ca_requery c).

Definition result_of (r : AssetOpResponse) : Result :=
  mkResult (rp_outcome r) (rp_reason r) (rp_durable r) false (rp_partial r) (rp_snapshot r) false false.

(** The local answer: nobody holds the player, nothing was sent. *)
Definition not_here (e : error) : Result :=
  mkResult OUTCOME_NOT_HERE 0 false false false None true (String.eqb e ErrNotOnline).

Section caller.
Context {W : Type} `{SceneWorld W}.
Context (marshal_item : AssetItemInstance -> string) (marshal_pet : AssetPetInstance -> string).
Context (hmac_sha256 : string -> string -> string).
Context (signer : Signer).

Definition invoke (w : W) (t : Target) (rpc : RPC) (q : AssetOpRequest) : W * res Result :=
  if negb (tg_client t) then (w, Err ErrNoClient)
  else
    let signed := Sign marshal_item marshal_pet hmac_sha256 signer rpc q (sw_now w) in
    let '(w, resp) := sw_call w (tg_endpoint t) rpc signed in
    (w, resp ≫= fun resp => Ok (result_of resp)).

Fixpoint requery (delays : list Z) (w : W) (t : Target) (rpc : RPC) (q : AssetOpRequest) (last : Result)
    : W * (Result * option error) :=
  match delays with
  | [] => (w, (last, None))
  | wait :: delays' =>
      let '(w, slept) := sw_sleep w wait in
      match slept with
      | Err _ => (w, (last, None))
      | Ok _ =>
          let '(w, answer) := invoke w t rpc q in
          match answer with
          | Err _ => (w, (last, None))
          | Ok r =>
              if negb (isSceneTerminal (rs_outcome r)) then (w, (last, None))
              else if negb (rs_outcome r =? rs_outcome last) then (w, (r, Some ErrOutcomeFlip))
              else if rs_durable r then (w, (r, None))
              else requery delays' w t rpc q r
          end
      end
  end.

(** The answer of the first scene, or of the one the player moved to. *)
Definition follow (w : W) (t : Target) (rpc : RPC) (q : AssetOpRequest) (r : Result)
    : W * res (Target * Result) :=
  if rs_outcome r =? OUTCOME_NOT_HERE then
    let '(w, next) := sw_resolve w (q_player q) in
    match next with
    | Err _ => (w, Ok (t, r))
    | Ok next =>
        if String.eqb (tg_endpoint next) (tg_endpoint t) then (w, Ok (t, r))
        else let '(w, r2) := invoke w next rpc q in
             (w, r2 ≫= fun r2 => Ok (next, r2))
    end
  else (w, Ok (t, r)).

Definition Do_signed (delays : list Z) (w : W) (rpc : RPC) (q : AssetOpRequest) : W * (Result * option error) :=
  let '(w, target) := sw_resolve w (q_player q) in
  match target with
  | Err e => if IsNoHolder e then (w, (not_here e, None)) else (w, (no_result, Some e))
  | Ok t =>
      let '(w, answer) := invoke w t rpc q in
      match answer with
      | Err e => (w, (no_result, Some e))
      | Ok r =>
          let '(w, followed) := follow w t rpc q r in
          match followed with
          | Err e => (w, (no_result, Some e))
          | Ok (t, r) =>
              if negb (isSceneTerminal (rs_outcome r)) || rs_durable r then (w, (r, None))
              else requery delays w t rpc q r
          end
      end
  end.
End caller.

Definition Do {W} `{SceneWorld W} marshal_item marshal_pet hmac_sha256 (c : Caller) (w : W) (rpc : RPC)
    (q : AssetOpRequest) : W * (Result * option error) :=
  match ca_signer c with
  | None => (w, (no_result, Some ErrNoSigner))
  | Some s => Do_signed marshal_item marshal_pet hmac_sha256 s (requeryDelays c) w rpc q
  end.

(** ** What a delivery does *)
Section facts.
#[local] Set Default Proof Using "Type*".
Context {W : Type} `{SceneLaws W}.
Context (marshal_item : AssetItemInstance -> string) (marshal_pet : AssetPetInstance -> string).
Context (hmac_sha256 : string -> string -> string).

(** [n] more requests left, each a signed copy of [q] for [rpc]. *)
Definition sends (signer : Signer) (rpc : RPC) (q : AssetOpRequest) (n : nat) (w w' : W) : Prop :=
  exists ts, (length ts <= n)%nat /\
    sw_sent w' = ((fun t => (rpc, Sign marshal_item marshal_pet hmac_sha256 signer rpc q t)) <$> ts) ++ sw_sent w.

Lemma sends_none s rpc q n w w' : sw_sent w' = sw_sent w -> sends s rpc q n w w'.
Proof. intros E. exists []. split; [cbn; lia|done]. Qed.

Lemma sends_from s rpc q n w1 w w' : sw_sent w1 = sw_sent w -> sends s rpc q n w1 w' -> sends s rpc q n w w'.
Proof. intros E (ts & Hl & Et). exists ts. by rewrite <- E. Qed.

Lemma sends_to s rpc q n w w1 w' : sw_sent w' = sw_sent w1 -> sends s rpc q n w w1 -> sends s rpc q n w w'.
Proof. intros E (ts & Hl & Et). exists ts. by rewrite E. Qed.

Lemma sends_mono s rpc q n m w w' : (n <= m)%nat -> sends s rpc q n w w' -> sends s rpc q m w w'.
Proof. intros Hm (ts & Hl & Et). exists ts. split; [lia|done]. Qed.

Lemma sends_trans s rpc q n m w1 w2 w3 : sends s rpc q n w1 w2 -> sends s rpc q m w2 w3 -> sends s rpc q (m + n) w1 w3.
Proof.
  intros (t1 & Hl1 & E1) (t2 & Hl2 & E2). exists (t2 ++ t1). split; [rewrite length_app; lia|].
  by rewrite E2, E1, fmap_app, app_assoc.
Qed.

Lemma invoke_sends s w t rpc q w' a :
  invoke marshal_item marshal_pet hmac_sha256 s w t rpc q = (w', a) ->
  sends s rpc q 1 w w' /\ forall r, a = Ok r -> rs_local r = false /\ rs_committed r = false.
Proof.
  unfold invoke. split_if; [intros [= <- <-]; split; [by apply sends_none|done]|].
  pose proof (sl_call w (tg_endpoint t) rpc (Sign marshal_item marshal_pet hmac_sha256 s rpc q (sw_now w))) as Hc.
  destruct (sw_call _ _ _ _) as [w1 resp]. intros [= <- <-]. split.
  - exists [sw_now w]. split; [done|]. exact Hc.
  - intros r (resp' & _ & [= <-])%bind_Ok. done.
Qed.

Lemma requery_sends s delays w t rpc q last w' r e :
  requery marshal_item marshal_pet hmac_sha256 s delays w t rpc q last = (w', (r, e)) ->
  sends s rpc q (length delays) w w' /\ (rs_local r = rs_local last \/ rs_local r = false) /\
  (rs_committed r = rs_committed last \/ rs_committed r = false) /\
  (isSceneTerminal (rs_outcome last) = true -> isSceneTerminal (rs_outcome r) = true) /\
  (e = None -> rs_outcome r = rs_outcome last) /\
  (forall x, e = Some x -> x = ErrOutcomeFlip /\ rs_outcome r <> rs_outcome last).
Proof.
  revert w last. induction delays as [|d delays IH]; intros w last; cbn [requery].
  { intros [= <- <- <-]. split; [by apply sends_none|]. split_and!; [by left|by left|done|done|done]. }
  pose proof (sl_sleep w d) as Hs. destruct (sw_sleep w d) as [w1 slept]. cbn in Hs.
  destruct slept as [_|]; [|intros [= <- <- <-]; split; [by apply sends_none|split_and!; [by left|by left|done..]]].
  destruct (invoke marshal_item marshal_pet hmac_sha256 s w1 t rpc q) as [w2 a] eqn:Hi.
  destruct (invoke_sends _ _ _ _ _ _ _ Hi) as [Hsend Hloc].
  assert (H2 : sends s rpc q 1 w w2) by (by eapply sends_from).
  assert (Hmore : sends s rpc q (S (length delays)) w w2) by (eapply sends_mono, H2; lia).
  destruct a as [r1|]; [|intros [= <- <- <-]; split; [done|split_and!; [by left|by left|done..]]].
  destruct (Hloc r1 eq_refl) as [Hl1 Hc1].
  destruct (isSceneTerminal (rs_outcome r1)) eqn:Ht; cbn [negb];
    [|intros [= <- <- <-]; split; [done|split_and!; [by left|by left|done..]]].
  destruct (rs_outcome r1 =? rs_outcome last) eqn:Ho; zbool; cbn [negb].
  2: { intros [= <- <- <-]. split; [done|]. split_and!; [by right|by right|done|done|]. intros x [= <-]. done. }
  destruct (rs_durable r1).
  { intros [= <- <- <-]. split; [done|]. split_and!; [by right|by right|done|done|done]. }
  intros Hr. destruct (IH w2 r1 Hr) as (Hsr & Hlr & Hcr & Htr & Hor & Hfr). split.
  { apply (sends_mono _ _ _ (length delays + 1)); [cbn; lia|]. by eapply sends_trans. }
  rewrite Hl1 in Hlr. rewrite Hc1 in Hcr. rewrite Ho in Hor, Hfr. split_and!; [right; tauto|right; tauto|auto|auto|auto].
Qed.

(** One delivery is bounded, and honest about what it sent. It always returns; at
    most two requests and one per re-query delay leave, each a copy of the command that
    was asked for, signed by the caller; a local answer is the answer that the player is
    nowhere and means that nothing left; no answer claims a proof of the SQL commit; an
    error is a changed outcome, or comes with no result; and without a signer nothing
    leaves at all. *)
Theorem Do_contract c w rpc q w' r e :
  Do marshal_item marshal_pet hmac_sha256 c w rpc q = (w', (r, e)) ->
  match ca_signer c with
  | None => w' = w /\ e = Some ErrNoSigner /\ r = no_result
  | Some s =>
      sends s rpc q (2 + length (requeryDelays c)) w w' /\ (rs_local r = true -> sw_sent w' = sw_sent w /\ e = None) /\
      rs_committed r = false /\ (rs_local r = true -> rs_outcome r = OUTCOME_NOT_HERE) /\
      (e = Some ErrOutcomeFlip \/ e = None \/ r = no_result)
  end.
Proof.
  unfold Do. destruct (ca_signer c) as [s|]; [|by intros [= <- <- <-]]. unfold Do_signed. set (delays := requeryDelays c).
  pose proof (sl_resolve w (q_player q)) as Hr. destruct (sw_resolve w (q_player q)) as [w1 target]. cbn in Hr.
  destruct target as [t|x].
  2: { split_if; intros [= <- <- <-].
       - split; [by apply sends_none|]. split_and!; [by intros _|done|done|by right; left].
       - split; [by apply sends_none|]. split_and!; [by intros ?|done|done|by right; right]. }
  destruct (invoke marshal_item marshal_pet hmac_sha256 s w1 t rpc q) as [w2 a] eqn:Hi.
  destruct (invoke_sends _ _ _ _ _ _ _ Hi) as [Hsend Hloc].
  assert (H2 : sends s rpc q 1 w w2) by (by eapply sends_from).
  destruct a as [r1|x]; [|intros [= <- <- <-]; split; [eapply sends_mono; [|done]; lia|split_and!; [done|done|done|by right; right]]].
  destruct (Hloc r1 eq_refl) as [Hl1 Hc1].
  destruct (follow marshal_item marshal_pet hmac_sha256 s w2 t rpc q r1) as [w3 fo] eqn:Hf.
  assert (H3 : sends s rpc q 2 w w3 /\ forall t' r', fo = Ok (t', r') -> rs_local r' = false /\ rs_committed r' = false).
  { unfold follow in Hf. destruct (rs_outcome r1 =? OUTCOME_NOT_HERE).
    2: { injection Hf as <- <-. split; [eapply sends_mono; [|done]; lia|]. by intros t' r' [= <- <-]. }
    pose proof (sl_resolve w2 (q_player q)) as Hr2. destruct (sw_resolve w2 (q_player q)) as [w4 next]. cbn in Hr2.
    assert (H4 : sends s rpc q 1 w w4) by (by eapply sends_to).
    destruct next as [next|]; [|injection Hf as <- <-; split; [eapply sends_mono; [|done]; lia|by intros t' r' [= <- <-]]].
    destruct (String.eqb _ _); [injection Hf as <- <-; split; [eapply sends_mono; [|done]; lia|by intros t' r' [= <- <-]]|].
    destruct (invoke marshal_item marshal_pet hmac_sha256 s w4 next rpc q) as [w5 a2] eqn:Hi2.
    destruct (invoke_sends _ _ _ _ _ _ _ Hi2) as [Hs2 Hl2]. injection Hf as <- <-.
    split; [by eapply (sends_trans _ _ _ 1 1)|]. intros t' r' (r2 & -> & [= <- <-])%bind_Ok. by apply Hl2. }
  destruct H3 as [H3 Hfo]. destruct fo as [[t3 r3]|x].
  2: { intros [= <- <- <-]. split; [eapply sends_mono; [|done]; lia|split_and!; [done|done|done|by right; right]]. }
  destruct (Hfo t3 r3 eq_refl) as [Hl3 Hc3]. split_if.
  { intros [= <- <- <-]. split; [eapply sends_mono; [|done]; lia|]. rewrite Hl3, Hc3. split_and!; [done|done|done|by right; left]. }
  intros Hq. destruct (requery_sends _ _ _ _ _ _ _ _ _ _ Hq) as (Hsr & Hlr & Hcr & _ & _ & Hfl).
  rewrite Hl3 in Hlr. rewrite Hc3 in Hcr.
  assert (rs_local r = false) as -> by tauto. assert (rs_committed r = false) as -> by tauto. split.
  - apply (sends_mono _ _ _ (length delays + 2)); [lia|]. by eapply sends_trans.
  - split_and!; [done|done|done|]. destruct e as [x|]; [|by right; left]. left. by destruct (Hfl x eq_refl) as [-> _].
Qed.
End facts.

(** ** A sample: the scene applies the command and is asked once more for durability *)
#[local] Instance sample_scene : SceneWorld (list (RPC * AssetOpRequest)) := {|
  sw_resolve w _ := (w, Ok (mkTarget "10.0.0.1:5000" true));
  sw_call w _ rpc q := ((rpc, q) :: w, Ok (mkResponse OUTCOME_APPLIED 0 (1 <=? length w)%nat false None));
  sw_sleep w _ := (w, Ok ());
  sw_now _ := 7;
  sw_sent w := w |}.

#[local] Instance sample_scene_laws : SceneLaws (list (RPC * AssetOpRequest)).
Proof. by constructor. Defined.

Definition sample_request : AssetOpRequest := mkRequest 11 3 1 900 3 no_bundle 5 no_auth.

Lemma Do_contract_witness :
  let caller := mkCaller (Some (mkSigner "trade" "secret")) None in
  let answer := Do (fun _ => ""%string) (fun _ => ""%string) (fun _ _ => ""%string) caller [] RPCDebit sample_request in
  length answer.1 = 2%nat /\ rs_durable answer.2.1 = true /\ rs_committed answer.2.1 = false.
Proof.
  cbv zeta. split; [vm_compute; reflexivity|]. split; [vm_compute; reflexivity|].
  destruct (Do _ _ _ (mkCaller (Some (mkSigner "trade" "secret")) None) [] RPCDebit sample_request) as [w' [r e]] eqn:E.
  pose proof (Do_contract _ _ _ _ _ _ _ _ _ _ E) as H. exact (proj1 (proj2 (proj2 H))).
Defined.
