(* ===== verification/AssetLoop.v ===== *)
(** * Asset commands: the delivery loop

    [go/shared/assetop/reconcile.go] with [receipt_ack.go]: claim a due command,
    deliver it once, and write back what the answer proves: final, or another
    attempt. The tables of the business, the scene, the ledgers, the clock and the
    random sources are an interface, [LoopWorld]; between any two calls of it other
    replicas may act. Metrics and logs are left out. The second part is how it
    gives up. *)

From stdpp Require Import base list strings.
From Stdlib Require Import ZArith Lia SpecFloat.
From S2P Require Import Prelude CommerceData AssetOps AssetLedger AssetWire SceneNode.
Local Open Scope Z_scope.

(** ** Configuration *)
Definition settleBudget : Z := 700 * Millisecond.
Definition leaseHeadroom : Z := 2 * Second.
Definition maxWorkers : Z := 64.
Definition maxWakeOpsPerPlayer : nat := 32.
Definition maxOfflineBackoff : Z := 24 * Hour.
Definition minAbandonAfter : Z := 30 * 24 * Hour.
Definition minAbandonSafetyGap : Z := 10 * Minute.
Definition maxAbandonBatch : Z := 1000.

Record LoopConfig := mkLoopConfig {
  Interval : Z; Batch : Z; Workers : Z; Lease : Z; OpBudget : Z; BaseBackoff : Z; MaxBackoff : Z;
  AwaitDurableDelay : Z; PoisonDelay : Z; LedgerReadMinAttempts : Z; Streams : list Z;
  OfflineAfterAttempts : Z; OfflineBackoff : Z; AbandonAfter : Z; AbandonSafetyGap : Z; AbandonBatch : Z;
  AbandonInterval : Z; AuditInterval : Z; RequireSQLCommit : bool; RequireVerifiedRedisCopy : bool }.

Definition DefaultLoopConfig : LoopConfig :=
  mkLoopConfig (2 * Second) 100 8 (10 * Second) (2500 * Millisecond) Second (60 * Second) (500 * Millisecond) Hour 3 []
    5 (30 * Minute) (180 * 24 * Hour) Hour 200 Hour (24 * Hour) false true.

Definition offlineParking (c : LoopConfig) : OfflineParking := mkParking (OfflineAfterAttempts c) (OfflineBackoff c).

Definition ErrConfig : error := "assetop: invalid configuration"%string.

Definition validateAbandon (c : LoopConfig) : res () :=
  if AbandonAfter c =? 0 then Ok ()
  else
    _ ← guard_err (AbandonAfter c <? minAbandonAfter) ErrConfig;
    _ ← guard_err ((AbandonSafetyGap c <? minAbandonSafetyGap) || (AbandonSafetyGap c <? Lease c)) ErrConfig;
    _ ← guard_err ((AbandonBatch c <? 1) || (maxAbandonBatch <? AbandonBatch c)) ErrConfig;
    guard_err (AbandonInterval c <=? 0) ErrConfig.

(** [LoopConfig.validate] *)
Definition validate (c : LoopConfig) : res () :=
  _ ← guard_err (Interval c <=? 0) ErrConfig;
  _ ← guard_err ((Workers c <? 1) || (maxWorkers <? Workers c)) ErrConfig;
  _ ← guard_err (Batch c <? Workers c) ErrConfig;
  _ ← guard_err (OpBudget c <=? 0) ErrConfig;
  _ ← guard_err (OpBudget c <=? settleBudget) ErrConfig;
  _ ← guard_err (Lease c <? OpBudget c + leaseHeadroom) ErrConfig;
  _ ← guard_err ((BaseBackoff c <=? 0) || (MaxBackoff c <? BaseBackoff c)) ErrConfig;
  _ ← guard_err (AwaitDurableDelay c <=? 0) ErrConfig;
  _ ← guard_err (PoisonDelay c <=? 0) ErrConfig;
  _ ← guard_err ((0 <? OfflineAfterAttempts c) && (OfflineBackoff c <? MaxBackoff c)) ErrConfig;
  _ ← guard_err ((0 <? OfflineAfterAttempts c) && (maxOfflineBackoff <? OfflineBackoff c)) ErrConfig;
  _ ← guard_err (AuditInterval c <? 0) ErrConfig;
  validateAbandon c.

Definition to_ms (d : Z) : Z := Z.quot d Millisecond.

(** ** The world of the loop *)
Class LoopWorld (W : Type) := {
  lw_now : W -> Z;                                  (* the clock, in milliseconds *)
  lw_done : W -> bool;                              (* the context has ended *)
  lw_budget : W -> bool;                            (* a whole [OpBudget] is left *)
  lw_slot : W -> bool;                              (* a delivery slot was obtained *)
  lw_token : W -> W * res Z;                        (* eight random bytes *)
  lw_rand : W -> option spec_float;
  lw_do : W -> RPC -> AssetOpRequest -> W * (Result * option error);
  lw_persisted : W -> Z -> W * res (option Ledger);
  lw_sql : W -> Z -> W * res (option Ledger);
  lw_verified : W -> Z -> W * res (option Ledger * bool);
  lw_locate : W -> Z -> W * res Target;
  lw_list_due : W -> Z -> nat -> W * res (list Z);
  lw_list_player : W -> Z -> nat -> W * res (list Z);
  lw_list_abandon : W -> Z -> Z -> nat -> W * res (list Z);
  lw_claim : W -> Z -> Z -> Z -> Z -> Z -> W * res (option Op);
  lw_finalize : W -> Op -> Z -> Result -> Z -> W * res bool;
  lw_reschedule : W -> Op -> Z -> Result -> Z -> W * option error;
  lw_abandon : W -> Op -> Z -> W * option error;
  lw_release : W -> Op -> Z -> W * option error }.

(** [Loop]: the configuration, and which optional parts are attached. *)
Record Loop := mkLoop {
  lp_cfg : LoopConfig; lp_ledger : bool; lp_sql : bool; lp_verified : bool; lp_locator : bool;
  lp_abandoner : bool; lp_lister : bool }.

Definition sqlLedger (l : Loop) : bool := lp_ledger l && lp_sql l.
Definition verifiedLedger (l : Loop) : bool := lp_ledger l && lp_verified l.

Definition ErrWiring : error := "assetop: RequireSQLCommit without a reader of SQL evidence"%string.

Definition CheckWiring (l : Loop) : res () :=
  guard_err (RequireSQLCommit (lp_cfg l) && negb (sqlLedger l)) ErrWiring.

(** ** Pure parts *)
Record Processed := mkProcessed { p_result : Result; p_finalized : bool; p_status : Z }.

Definition rpcFor (o : Op) (nowMs : Z) : option RPC :=
  if negb (o_deadline o =? 0) && (o_deadline o <=? nowMs) then Some RPCAbort else ApplyRPCOf (o_stream o).

Definition alertNextMs (l : Loop) (nowMs : Z) : Z := u64 (nowMs + to_ms (MaxBackoff (lp_cfg l))).

Definition carryPartialReason (o : Op) (r : Result) : Result :=
  if (o_last_reason o =? ReasonPartialApplied) && negb (rs_reason r =? ReasonPartialApplied)
  then with_reason r ReasonPartialApplied else r.

Definition ErrNoReader : error := "assetop: no reader of SQL evidence"%string.

Section loop.
Context {W : Type} `{LoopWorld W}.
Context (marshal_item : AssetItemInstance -> string) (marshal_pet : AssetPetInstance -> string).
Context (sha256 : string -> string).
Context (l : Loop).

Notation cfg := (lp_cfg l).
Notation resultWithReceipt := (resultWithReceipt marshal_item marshal_pet sha256).

(** ** Writing back *)
Definition reschedule (w : W) (o : Op) (next : Z) (r : Result) (nowMs : Z) : W * res Processed :=
  let '(w, err) := lw_reschedule w o next (carryPartialReason o r) nowMs in
  (w, match err with
      | Some e => if String.eqb e ErrLeaseLost then Ok (mkProcessed r false 0) else Err e
      | None => Ok (mkProcessed r false 0)
      end).

Definition rescheduleTransportFailure (w : W) (o : Op) (next : Z) (r : Result) (nowMs : Z) : W * res Processed :=
  let stored := mkResult OUTCOME_RETRY 0 false false false None false false in
  let '(w, processed) := reschedule w o next stored nowMs in
  (w, processed ≫= fun p => Ok (mkProcessed r (p_finalized p) (p_status p))).

Definition finalize (w : W) (o : Op) (rpc : RPC) (r : Result) (nowMs : Z) : W * res Processed :=
  let status := FinalStatus rpc r o in
  if status =? StatusPending then reschedule w o (alertNextMs l nowMs) r nowMs
  else
    let '(w, finalized) := lw_finalize w o status r nowMs in
    (w, finalized ≫= fun f => Ok (mkProcessed r f status)).

(** ** Evidence *)
Definition readFinalLedger (w : W) (player : Z) : W * res (option Ledger) :=
  if negb (RequireSQLCommit cfg) then lw_persisted w player
  else if negb (sqlLedger l) then (w, Err ErrNoReader)
  else lw_sql w player.

Definition proved_by (o : Op) (ledger : Ledger) (committed : bool) : Result :=
  let '(outcome, partial, reason) := ClassifyPersisted ledger (o_stream o) (o_epoch o) (o_seq o) in
  resultWithReceipt ledger o (mkResult outcome reason true committed partial None false false).

Definition persisted_outcome (o : Op) (ledger : Ledger) : Z :=
  (ClassifyPersisted ledger (o_stream o) (o_epoch o) (o_seq o)).1.1.

Definition tryPersistedLedger (w : W) (o : Op) (r : Result) : W * Result :=
  if negb (lp_ledger l) || (o_attempts o <? LedgerReadMinAttempts cfg) then (w, r)
  else
    let '(w, ledger) := readFinalLedger w (o_player o) in
    match ledger with
    | Err _ => (w, r)
    | Ok None => (w, r)
    | Ok (Some ledger) =>
        if negb (isSceneTerminal (persisted_outcome o ledger)) then (w, r)
        else (w, proved_by o ledger (RequireSQLCommit cfg))
    end.

(** The scene's outcome against the evidence of the player's SQL commit. *)
Definition verifySQLCommit (w : W) (o : Op) (r : Result) : W * (Result * option error) :=
  let r := with_snapshot (with_durable r false) None in
  if lw_done w then (w, (r, None))
  else if negb (sqlLedger l) then (w, (r, None))
  else
    let '(w, ledger) := lw_sql w (o_player o) in
    match ledger with
    | Err _ => (w, (r, None))
    | Ok None => (w, (r, None))
    | Ok (Some ledger) =>
        if negb (isSceneTerminal (persisted_outcome o ledger)) then (w, (r, None))
        else
          let proved := proved_by o ledger true in
          if negb (Terminal proved) then (w, (proved, None))
          else if negb (persisted_outcome o ledger =? rs_outcome r) then (w, (r, Some ErrOutcomeFlip))
          else
            let proved := with_partial proved (rs_partial proved || rs_partial r) in
            (w, (if rs_reason proved =? 0 then with_reason proved (rs_reason r) else proved, None))
    end.

(** ** One command *)

(** The delivery and what can be said of its answer. *)
Definition deliver (w : W) (o : Op) (rpc : RPC) : W * (Result * option error) :=
  let '(w, (r, err)) := lw_do w rpc (Request o) in
  let '(w, r) := if negb (is_some err) && rs_local r then tryPersistedLedger w o r else (w, r) in
  if negb (is_some err) && negb (rs_committed r) && isSceneTerminal (rs_outcome r) then
    if RequireSQLCommit cfg then verifySQLCommit w o r
    else (w, (withMatchingReceipt o r, err))
  else (w, (r, err)).

Definition settle (w : W) (o : Op) (rpc : RPC) (r : Result) (err : option error) (nowMs : Z) : W * res Processed :=
  match Decide r err with
  | ActionFinalize => finalize w o rpc r nowMs
  | ActionAwaitDurable => reschedule w o (u64 (nowMs + to_ms (AwaitDurableDelay cfg))) r nowMs
  | ActionRetry =>
      let next := NextRetryMs nowMs (o_attempts o) r (BaseBackoff cfg) (MaxBackoff cfg) (offlineParking cfg) (lw_rand w) in
      if is_some err then rescheduleTransportFailure w o next r nowMs else reschedule w o next r nowMs
  | ActionAlert => reschedule w o (alertNextMs l nowMs) r nowMs
  end.

Definition ProcessOne (w : W) (o : Op) : W * res Processed :=
  let nowMs := lw_now w in
  match rpcFor o nowMs with
  | None => reschedule w o (alertNextMs l nowMs) no_result nowMs
  | Some rpc =>
      let '(w, (r, err)) := deliver w o rpc in
      settle w o rpc r err nowMs
  end.

(** ** Claiming *)
Inductive claimResult := claimOK (o : Op) | claimLost | claimFailed.

(** [newLeaseToken]: the last bit is set. *)
Definition newLeaseToken (w : W) : W * res Z :=
  let '(w, bytes) := lw_token w in (w, bytes ≫= fun b => Ok (Z.lor b 1)).

Definition claim (w : W) (id : Z) : W * claimResult :=
  let '(w, token) := newLeaseToken w in
  match token with
  | Err _ => (w, claimFailed)
  | Ok token =>
      let nowMs := lw_now w in
      let '(w, claimed) :=
        lw_claim w id nowMs (u64 (nowMs + to_ms (Lease cfg))) (u64 (nowMs + to_ms (PoisonDelay cfg))) token in
      (w, match claimed with
          | Err e => if String.eqb e ErrPoisonRow then claimLost else claimFailed
          | Ok None => claimLost
          | Ok (Some o) => claimOK o
          end)
  end.

Definition claimAndProcess (w : W) (id : Z) : W * bool :=
  if negb (lw_slot w) || negb (lw_budget w) then (w, false)
  else
    let '(w, claimed) := claim w id in
    match claimed with
    | claimOK o => ((ProcessOne w o).1, true)
    | _ => (w, false)
    end.

(** ** Rounds *)

(** One worker; several workers share the queue, and what the others do meanwhile
    happens in the world. *)
Fixpoint drain (w : W) (queue : list Z) (processed : Z) : W * Z :=
  match queue with
  | [] => (w, processed)
  | id :: queue' =>
      if lw_done w then (w, processed)
      else
        let '(w, ok) := claimAndProcess w id in
        drain w queue' (if ok then processed + 1 else processed)
  end.

Definition Tick (w : W) : W * Z :=
  let '(w, ids) := lw_list_due w (lw_now w) (Z.to_nat (Batch cfg)) in
  match ids with
  | Err _ => (w, 0)
  | Ok ids => drain w ids 0
  end.

Definition ErrWakeBudget : error := "assetop: wake budget below one OpBudget"%string.

Fixpoint wake_loop (w : W) (ids : list Z) (processed : Z) : W * Z :=
  match ids with
  | [] => (w, processed)
  | id :: ids' =>
      if negb (lw_budget w) then (w, processed)
      else
        let '(w, ok) := claimAndProcess w id in
        wake_loop w ids' (if ok then processed + 1 else processed)
  end.

Definition WakePlayer (w : W) (player : Z) : W * res Z :=
  if negb (lp_lister l) || (player =? 0) then (w, Ok 0)
  else if negb (lw_done w) && negb (lw_budget w) then (w, Err ErrWakeBudget)
  else
    let '(w, ids) := lw_list_player w player maxWakeOpsPerPlayer in
    match ids with
    | Err e => (w, Err e)
    | Ok ids => let '(w, n) := wake_loop w (take maxWakeOpsPerPlayer ids) 0 in (w, Ok n)
    end.

(** ** Receipts ([receipt_ack.go]) *)
Definition ErrAckIdentity : error := "assetop: incomplete receipt acknowledgement"%string.

(** What the evidence says of the receipt. *)
Fixpoint ack_streams (all : Ledger) (q : AssetOpRequest) (streams : Ledger) : bool :=
  match streams with
  | [] => false
  | st :: streams' =>
      if negb (sl_stream st =? q_stream q) || negb (sl_epoch st =? q_epoch q) then ack_streams all q streams'
      else if q_seq q <=? sl_watermark st then negb (existsb (fun rc => rc_seq rc =? q_seq q) (sl_receipts st))
      else match matchingReceipt marshal_item marshal_pet sha256 all (requestOp q) with
      | None => false
      | Some rc =>
          if snapshotHasInstances (rc_snapshot rc) then false
          else
            let '(outcome, partial, _) := ClassifyPersisted all (q_stream q) (q_epoch q) (q_seq q) in
            (outcome =? OUTCOME_APPLIED) && negb partial
      end
  end.

Definition AcknowledgeReceipt (w : W) (q : AssetOpRequest) : W * res bool :=
  if lw_done w then (w, Err "context ended"%string)
  else if (q_seq q =? 0) || (q_correlation q =? 0) || negb (sqlLedger l) then (w, Err ErrAckIdentity)
  else
    let '(w, (r, err)) := lw_do w RPCAckReceipt q in
    match err with
    | Some e => (w, Err e)
    | None =>
        if negb (rs_outcome r =? OUTCOME_APPLIED) then (w, Ok false)
        else
          let '(w, ledger) := lw_sql w (q_player q) in
          (w, match ledger with
              | Err e => Err e
              | Ok None => Ok false
              | Ok (Some ledger) => Ok (ack_streams ledger q ledger)
              end)
    end.
End loop.

(** * Asset commands: giving up

    [go/shared/assetop/abandon.go]: a command that stayed pending for [AbandonAfter]
    is closed as abandoned when it is certain that the scene never applied it and
    never will: the lease is held, the player is nowhere, the last possible request
    is old, and the persisted ledger has not seen the number. Anything less keeps it
    pending. *)

Inductive abandonSkip :=
  | abandonSkipLocated | abandonSkipLocateError | abandonSkipRecent | abandonSkipLedgerSeen
  | abandonSkipLedgerError | abandonSkipLedgerUnknown | abandonSkipNotCandidate
  | abandonSkipSQLEvidenceBehind | abandonSkipRedisUnverified.

#[global] Instance abandonSkip_eq_dec : EqDecision abandonSkip.
Proof. solve_decision. Defined.

(** [judgeAbandon] answers [0] (abandon), or why not, with the outcome that was seen. *)
Inductive judgement := Abandonable | Skip (why : abandonSkip) | Seen (r : Result).

Inductive ledgerVerdict := ledgerUnknown | ledgerUnseen | ledgerSeen.

Definition abandonVerdict (ledger : option Ledger) (o : Op) : ledgerVerdict :=
  match ledger with
  | None => ledgerUnknown
  | Some ledger =>
      match ClassifySeq (FindStream ledger (o_stream o)) (o_epoch o) (o_seq o) with
      | SeqUnseen | SeqAheadOfWindow => ledgerUnseen
      | SeqApplied | SeqRejected => ledgerSeen
      | _ => ledgerUnknown
      end
  end.

Definition nextAbandonCursor (ids : list Z) (batch : Z) : Z :=
  if Z.of_nat (length ids) <? batch then 0 else foldl Z.max 0 ids.

Definition ErrNoVerifiedReader : error := "assetop: no reader of the verified copy"%string.

Section abandon.
Context {W : Type} `{LoopWorld W}.
Context (marshal_item : AssetItemInstance -> string) (marshal_pet : AssetPetInstance -> string).
Context (sha256 : string -> string).
Context (l : Loop).

Notation cfg := (lp_cfg l).

(** Everything the abandonment needs is attached. *)
Definition abandoner : bool :=
  (0 <? AbandonAfter cfg) && lp_abandoner l && lp_ledger l
  && (negb (RequireSQLCommit cfg) || sqlLedger l)
  && (negb (RequireVerifiedRedisCopy cfg) || verifiedLedger l) && lp_locator l.

Definition abandonCutoffMs (nowMs : Z) : Z :=
  if AbandonAfter cfg <=? 0 then 0
  else if nowMs <=? to_ms (AbandonAfter cfg) then 0 else nowMs - to_ms (AbandonAfter cfg).

Definition playerAbsent (w : W) (player : Z) : W * res bool :=
  let '(w, target) := lw_locate w player in
  (w, match target with
      | Ok _ => Ok false
      | Err e => if String.eqb e ErrNotOnline then Ok true else if IsNoHolder e then Ok false else Err e
      end).

Definition readAbandonBlob (w : W) (player : Z) : W * res (option Ledger * bool) :=
  if negb (RequireVerifiedRedisCopy cfg) then
    let '(w, ledger) := lw_persisted w player in (w, ledger ≫= fun b => Ok (b, true))
  else if negb (verifiedLedger l) then (w, Err ErrNoVerifiedReader)
  else lw_verified w player.

Definition seenForFinalize (ledger : Ledger) (o : Op) (committed : bool) : judgement :=
  let r := proved_by marshal_item marshal_pet sha256 o ledger committed in
  if negb (rs_durable r) then Skip abandonSkipLedgerUnknown else Seen r.

Definition judgePlayerBlob (w : W) (o : Op) : W * judgement :=
  let '(w, blob) := readAbandonBlob w (o_player o) in
  (w, match blob with
      | Err _ => Skip abandonSkipLedgerError
      | Ok (None, _) => Skip abandonSkipLedgerUnknown
      | Ok (Some ledger, verified) =>
          match abandonVerdict (Some ledger) o with
          | ledgerUnseen => if negb verified then Skip abandonSkipRedisUnverified else Abandonable
          | ledgerSeen => seenForFinalize ledger o false
          | ledgerUnknown => Skip abandonSkipLedgerUnknown
          end
      end).

Definition judgeWithSQLCommit (w : W) (o : Op) : W * judgement :=
  let '(w, evidence) := lw_sql w (o_player o) in
  match evidence with
  | Err _ => (w, Skip abandonSkipLedgerError)
  | Ok evidence =>
      match abandonVerdict evidence o, evidence with
      | ledgerSeen, Some ledger => (w, seenForFinalize ledger o true)
      | ledgerUnseen, _ =>
          let '(w, blob) := readAbandonBlob w (o_player o) in
          (w, match blob with
              | Err _ => Skip abandonSkipLedgerError
              | Ok (blob, verified) =>
                  match abandonVerdict blob o with
                  | ledgerUnseen => if negb verified then Skip abandonSkipRedisUnverified else Abandonable
                  | ledgerSeen => Skip abandonSkipSQLEvidenceBehind
                  | ledgerUnknown => Skip abandonSkipLedgerUnknown
                  end
              end)
      | _, _ => (w, Skip abandonSkipLedgerUnknown)
      end
  end.

Definition judgeAbandon (w : W) (o : Op) (cutoffMs nowMs : Z) : W * judgement :=
  if negb (is_some (ApplyRPCOf (o_stream o))) || (o_created o =? 0) || (o_last_send o =? 0)
  then (w, Skip abandonSkipNotCandidate)
  else if cutoffMs <=? o_created o then (w, Skip abandonSkipNotCandidate)
  else
    let '(w, absent) := playerAbsent w (o_player o) in
    match absent with
    | Err _ => (w, Skip abandonSkipLocateError)
    | Ok false => (w, Skip abandonSkipLocated)
    | Ok true =>
        if (nowMs <=? o_last_send o) || (nowMs - o_last_send o <? to_ms (AbandonSafetyGap cfg))
        then (w, Skip abandonSkipRecent)
        else if RequireSQLCommit cfg then judgeWithSQLCommit w o else judgePlayerBlob w o
    end.

Definition releaseAbandonLease (w : W) (o : Op) (nowMs : Z) : W := (lw_release w o nowMs).1.

Definition commitAbandon (w : W) (o : Op) (nowMs : Z) : W * bool :=
  let '(w, err) := lw_abandon w o nowMs in
  match err with
  | None => (w, true)
  | Some e => if String.eqb e ErrLeaseLost then (w, false) else (releaseAbandonLease w o nowMs, false)
  end.

Definition finalizeSeen (w : W) (o : Op) (seen : Result) (nowMs : Z) : W :=
  match rpcFor o nowMs with
  | None => releaseAbandonLease w o nowMs
  | Some rpc =>
      let '(w, done) := finalize l w o rpc seen nowMs in
      match done with Ok _ => w | Err _ => releaseAbandonLease w o nowMs end
  end.

Definition abandonOne (w : W) (id cutoffMs nowMs : Z) : W * bool :=
  let '(w, claimed) := claim l w id in
  match claimed with
  | claimOK o =>
      let '(w, judged) := judgeAbandon w o cutoffMs nowMs in
      match judged with
      | Abandonable => commitAbandon w o nowMs
      | Seen r => (finalizeSeen w o r nowMs, false)
      | Skip _ => (releaseAbandonLease w o nowMs, false)
      end
  | _ => (w, false)
  end.

Fixpoint abandon_loop (w : W) (ids : list Z) (cutoffMs nowMs n : Z) : W * Z :=
  match ids with
  | [] => (w, n)
  | id :: ids' =>
      if lw_done w then (w, n)
      else let '(w, ok) := abandonOne w id cutoffMs nowMs in
           abandon_loop w ids' cutoffMs nowMs (if ok then n + 1 else n)
  end.

(** [abandonCursor] is where the next page starts. *)
Definition AbandonOnce (w : W) (abandonCursor nowMs : Z) : W * (Z * res Z) :=
  if negb abandoner then (w, (abandonCursor, Ok 0))
  else
    let cutoffMs := abandonCutoffMs nowMs in
    if cutoffMs =? 0 then (w, (abandonCursor, Ok 0))
    else
      let '(w, ids) := lw_list_abandon w cutoffMs abandonCursor (Z.to_nat (AbandonBatch cfg)) in
      match ids with
      | Err e => (w, (abandonCursor, Err e))
      | Ok ids =>
          let '(w, n) := abandon_loop w ids cutoffMs nowMs 0 in
          (w, (nextAbandonCursor ids (AbandonBatch cfg), Ok n))
      end.
End abandon.
