(* ===== verification/CommerceStore.v ===== *)
(** * Trade: the contract store and the operations on one contract

    [go/trade/internal/data/commerce_repo.go], [role_authority.go] and of
    [engine.go] the creation of contracts, [Mutate] and [advance]. A database is
    the contracts, the outbox, the guards and the account directory; an operation
    is one transaction attempt on it. What the code reads before its transaction
    comes from a state of its own, [probe]. *)

From stdpp Require Import base list gmap strings.
From Stdlib Require Import ZArith Lia.
From S2P Require Import Prelude RoleRoute CommerceData CommercePlan AssetOps.
Local Open Scope Z_scope.
Local Open Scope go_scope.

(** ** Database *)
Record TradeDB := mkTradeDB {
  tr_commerce : gmap Z TradeCommerceRecord;
  tr_outbox : Outbox;
  tr_guard : gset Z;
  tr_role : gmap Z AccountRole }.

Definition with_commerce (db : TradeDB) c := mkTradeDB c (tr_outbox db) (tr_guard db) (tr_role db).
Definition with_outbox (db : TradeDB) o := mkTradeDB (tr_commerce db) o (tr_guard db) (tr_role db).
Definition with_guard (db : TradeDB) g := mkTradeDB (tr_commerce db) (tr_outbox db) g (tr_role db).

(** [roleidentity.Original]: the ownership captured with the caller's session. *)
Record Actor := mkActor { ac_player : Z; ac_account : string; ac_owner_revision : Z }.

(** What one attempt sees besides the tables: the caller's original role, the
    engine's clock and the database clock. *)
Record Env := mkEnv { en_actor : option Actor; en_now : Z; en_dbnow : Z }.

Definition ErrVersion : error := "commerce: version changed"%string.
Definition ErrRoles : error := "commerce: role authority"%string.

(** ** [CommerceRepo] *)
Definition Get (db : TradeDB) (id : Z) : res TradeCommerceRecord :=
  match tr_commerce db !! id with Some r => Ok r | None => Err ErrNoRows end.

Definition commerce_rows (db : TradeDB) : list TradeCommerceRecord := (map_to_list (tr_commerce db)).*2.

Definition ByRequest (db : TradeDB) (key : string) : option TradeCommerceRecord :=
  find_first (fun r => bool_decide (r_request_key r = key)) (commerce_rows db).

Definition Insert (db : TradeDB) (r : TradeCommerceRecord) : res TradeDB :=
  if is_some (tr_commerce db !! r_id r) || is_some (ByRequest db (r_request_key r)) then Err ErrDuplicateKey
  else Ok (with_commerce db (<[r_id r := r]> (tr_commerce db))).

(** The columns [Save] writes, on the row that is there. *)
Definition saved_row (row r : TradeCommerceRecord) (w : TradeCommerceWorkflow) (now : Z) : TradeCommerceRecord :=
  mkCommerce (r_id row) (r_request_key row) (r_request_digest row) (r_kind row) (r_status r)
    (r_seller row) (r_buyer r) (r_market_id row) (r_item_config row) (r_side row) (r_unit_price row)
    (r_quantity row) (r_filled r) (r_currency row) (r_expires r) (r_created row) now
    (r_version row + 1) (Some w) (r_parent row) (r_counterparty row).

Definition Save (db : TradeDB) (r : TradeCommerceRecord) (w : TradeCommerceWorkflow) (now : Z) : res TradeDB :=
  match tr_commerce db !! r_id r with
  | Some row =>
      if r_version row =? r_version r
      then Ok (with_commerce db (<[r_id r := saved_row row r w now]> (tr_commerce db)))
      else Err ErrVersion
  | None => Err ErrVersion
  end.

Definition SaveStatus (db : TradeDB) (r : TradeCommerceRecord) (status now : Z) : res TradeDB :=
  match tr_commerce db !! r_id r with
  | Some row =>
      if r_version row =? r_version r
      then Ok (with_commerce db (<[r_id r :=
             set_r_version (set_r_updated (set_r_status row status) now) (r_version row + 1)]> (tr_commerce db)))
      else Err ErrVersion
  | None => Err ErrVersion
  end.

Definition Defer (db : TradeDB) (id version until : Z) : bool * TradeDB :=
  match tr_commerce db !! id with
  | Some row =>
      if r_version row =? version
      then (true, with_commerce db (<[id := set_r_updated row until]> (tr_commerce db)))
      else (false, db)
  | None => (false, db)
  end.

Definition due_status (s : Z) : bool :=
  (s =? Waiting) || (s =? Escrowing) || (s =? Delivering) || (s =? CancelPending) || (s =? RefundPending).

Definition commerce_due_less (a b : TradeCommerceRecord) : bool :=
  if negb (r_updated a =? r_updated b) then r_updated a <? r_updated b else r_id a <? r_id b.

Definition Due (db : TradeDB) (now : Z) (limit : nat) : list TradeCommerceRecord :=
  take limit (sort_stable commerce_due_less
    (keep_if (fun r => due_status (r_status r) && (r_updated r <=? now)) (commerce_rows db))).

(** ** [RoleAuthority] *)
Definition Ownership (db : TradeDB) (player : Z) : res AccountRole :=
  if player =? 0 then Err ErrRoles
  else match tr_role db !! player with
  | None => Err ErrNoRows
  | Some role =>
      if negb (ValidAccount (ar_account role)) || (ar_owner_revision role =? 0) then Err ErrConflict
      else Ok role
  end.

(** The loop over the sorted identifiers; [previous] skips repetitions. *)
Fixpoint lock_sorted (db : TradeDB) (allow previous : Z) (ids : list Z) : res () :=
  match ids with
  | [] => Ok ()
  | id :: ids' =>
      if (id =? 0) || (id =? previous) then lock_sorted db allow previous ids'
      else
        role ← Ownership db id;
        if negb (ar_trade_listing_id role =? 0) && negb (ar_trade_listing_id role =? allow)
        then Err ErrConflict else lock_sorted db allow id ids'
  end.

Definition LockRoles (db : TradeDB) (allow : Z) (players : list Z) : res () :=
  lock_sorted db allow 0 (sort_stable Z.ltb players).

Definition role_error {A} (m : res A) : res A :=
  match m with Ok a => Ok a | Err e => Err (asRoleConflict e) end.

Definition lockRoles (env : Env) (db : TradeDB) (allow : Z) (players : list Z) : res () :=
  match en_actor env with
  | None => role_error (LockRoles db allow players)
  | Some a =>
      _ ← role_error (LockRoles db allow (players ++ [ac_player a]));
      current ← role_error (Ownership db (ac_player a));
      if negb (bool_decide (ar_account current = ac_account a))
         || negb (ar_owner_revision current =? ac_owner_revision a)
      then Err errRoleConflict else Ok ()
  end.

Definition check_party (db : TradeDB) (_ : ()) (party : Z * option TradeRoleIdentity) : res () :=
  let '(player, identity) := party in
  if player =? 0 then Ok ()
  else match identity with
  | None => Err errCorruptContract
  | Some i =>
      if negb (ValidAccount (ti_account i)) || (ti_owner_revision i =? 0) then Err errCorruptContract
      else
        owned ← role_error (Ownership db player);
        if negb (bool_decide (ar_account owned = ti_account i))
           || negb (ar_owner_revision owned =? ti_owner_revision i)
        then Err errRoleConflict else Ok ()
  end.

Definition checkContractIdentities (db : TradeDB) (r : TradeCommerceRecord) (w : TradeCommerceWorkflow) : res () :=
  fold_res (check_party db) () [(r_seller r, w_seller_identity w); (r_buyer r, w_buyer_identity w)].

Definition OwnsRecord (env : Env) (r : TradeCommerceRecord) (w : TradeCommerceWorkflow) : bool :=
  match en_actor env with
  | None => false
  | Some a =>
      existsb (fun party : Z * option TradeRoleIdentity =>
        (party.1 =? ac_player a) &&
        match party.2 with
        | Some i => bool_decide (ti_account i = ac_account a) && (ti_owner_revision i =? ac_owner_revision a)
        | None => false
        end) [(r_seller r, w_seller_identity w); (r_buyer r, w_buyer_identity w)]
  end.

(** ** Requests that were answered before *)
Definition verifyReplayActor (env : Env) (db : TradeDB) (old : TradeCommerceRecord) : res () :=
  match en_actor env with
  | None => Ok ()
  | Some _ =>
      allow ← (if r_kind old =? RmbKind then
                 w ← Workflow old;
                 Ok match w_rmb w with
                    | Some t => if negb (rb_character_player_id t =? 0) then r_id old else 0
                    | None => 0
                    end
               else Ok 0);
      lockRoles env db allow []
  end.

Definition replayed (env : Env) (db : TradeDB) (old : TradeCommerceRecord) (digest : string)
    : res TradeCommerceRecord :=
  if negb (bool_decide (r_request_digest old = digest)) then Err ErrReplay
  else _ ← verifyReplayActor env db old; Ok old.

Definition string_len (s : string) : Z := Z.of_nat (String.length s).

(** ** Operations *)
Section engine.
Context (sha256 : string -> string) (p : Policy).

Definition priorRequest (env : Env) (db : TradeDB) (player : Z) (id digest : string)
    : res (option TradeCommerceRecord) :=
  if (player =? 0) || (string_len id <? 8) || (80 <? string_len id) then Err ErrInvalid
  else match ByRequest db (RequestKey sha256 "player" player id) with
  | Some old => old ← replayed env db old digest; Ok (Some old)
  | None => Ok None
  end.

(** The identity a party signs the contract with. *)
Definition party_identity (db : TradeDB) (player : Z) : res (option TradeRoleIdentity) :=
  if player =? 0 then Ok None
  else
    owned ← Ownership db player;
    Ok (Some (mkIdentity (ar_account owned) (ar_owner_revision owned))).

Definition create_tx (env : Env) (db : TradeDB) (r : TradeCommerceRecord) (w : TradeCommerceWorkflow)
    : res (TradeCommerceRecord * TradeDB) :=
  _ ← lockRoles env db 0 [r_seller r; r_buyer r];
  _ ← (if r_kind r =? RmbKind then
         match w_rmb w with
         | None => Err ErrInvalid
         | Some t =>
             owned ← Ownership db (r_seller r);
             if negb (bool_decide (ar_account owned = rb_seller_account t))
                || negb (ar_owner_revision owned =? rb_seller_owner_revision t)
                || negb (ar_trade_listing_id owned =? 0)
             then Err ErrConflict else Ok ()
         end
       else Ok ());
  seller ← party_identity db (r_seller r);
  let w := if r_seller r =? 0 then w else set_seller_identity w seller in
  buyer ← party_identity db (r_buyer r);
  let w := if r_buyer r =? 0 then w else set_buyer_identity w buyer in
  let r := set_r_workflow r (Some w) in
  db ← Insert db r;
  Ok (r, db).

(** [probe] is the state of the first look-up; [newid] the identifier the
    allocator gave. The look-up after a failed transaction sees the state the
    transaction saw. *)
Definition Create (env : Env) (probe db : TradeDB) (newid player : Z) (id digest : string)
    (r : TradeCommerceRecord) (w : TradeCommerceWorkflow) : res (TradeCommerceRecord * TradeDB) :=
  old ← priorRequest env probe player id digest;
  match old with
  | Some old => Ok (old, db)
  | None =>
      let r := set_r_request_key r (RequestKey sha256 "player" player id) in
      let r := set_r_request_digest r digest in
      let r := set_r_id r newid in
      let r := set_r_created r (en_now env) in
      let r := set_r_updated r (en_now env) in
      let r := set_r_version r 1 in
      match create_tx env db r w with
      | Ok answer => Ok answer
      | Err e =>
          match ByRequest db (r_request_key r) with
          | Some old => old ← replayed env db old digest; Ok (old, db)
          | None => Err e
          end
      end
  end.

Definition player_trade (env : Env) (me buyer : Z) (seller_assets buyer_assets : option TradeAssetSelection)
    : contract :=
  (mkCommerce 0 "" "" PlayerTradeKind Escrowing me buyer 0 0 0 0 0 0 0 (en_now env + 15 * 60 * 1000)
     0 0 0 None 0 0,
   mkWorkflow seller_assets buyer_assets false false false [] SOfferEscrow 0 0 0 0 0 no_official
     None None None None).

Definition CreatePlayerTrade (env : Env) (probe db : TradeDB) (newid me : Z) (id digest : string)
    (buyer : Z) (seller_assets buyer_assets : option TradeAssetSelection)
    : res (TradeCommerceRecord * TradeDB) :=
  if buyer =? 0 then Err ErrInvalid
  else if buyer =? me then Err ErrSelf
  else
    _ ← Selection p seller_assets;
    _ ← Selection p buyer_assets;
    let '(r, w) := player_trade env me buyer seller_assets buyer_assets in
    Create env probe db newid me id digest r w.

Definition consignment (env : Env) (me price currency duration : Z) (assets : option TradeAssetSelection)
    : contract :=
  (mkCommerce 0 "" "" ConsignmentKind Escrowing me 0 0 0 0 price 0 0 currency (en_now env + duration)
     0 0 0 None 0 0,
   mkWorkflow assets None false false false [] SEscrow 0 0 0 0 0 no_official None None None None).

Definition CreateConsignment (env : Env) (probe db : TradeDB) (newid me : Z) (id digest : string)
    (assets : option TradeAssetSelection) (price currency duration : Z)
    : res (TradeCommerceRecord * TradeDB) :=
  _ ← Selection p assets;
  if negb (validPrice price currency p) || (duration <? 60000) || (30 * 24 * 3600000 <? duration)
  then Err ErrInvalid
  else
    let '(r, w) := consignment env me price currency duration assets in
    Create env probe db newid me id digest r w.

Definition lot (env : Env) (me price currency increment duration : Z) (assets : option TradeAssetSelection)
    : contract :=
  (mkCommerce 0 "" "" LotKind Escrowing me 0 0 0 0 price 0 0 currency (en_now env + duration)
     0 0 0 None 0 0,
   mkWorkflow assets None false false false [] SEscrow increment 0 0 0 0 no_official None None None None).

Definition CreateLot (env : Env) (probe db : TradeDB) (newid me : Z) (id digest : string)
    (assets : option TradeAssetSelection) (price currency increment duration : Z)
    : res (TradeCommerceRecord * TradeDB) :=
  _ ← Selection p assets;
  if negb (validPrice price currency p) || (increment =? 0) || (MaxInt64 <? increment)
     || (duration <? 60000) || (7 * 24 * 3600000 <? duration)
  then Err ErrInvalid
  else
    let '(r, w) := lot env me price currency increment duration assets in
    Create env probe db newid me id digest r w.

Definition market_order (me market item side price quantity currency : Z) : contract :=
  (mkCommerce 0 "" "" MarketKind Escrowing me 0 market item side price quantity 0 currency 0 0 0 0 None 0 0,
   mkWorkflow
     (Some (if side =? 1 then mkSelection [] [] 0 currency (price *64 quantity)
            else mkSelection [(item, quantity)] [] 0 0 0))
     None false false false [] SEscrow 0 0 0 0 0 no_official None None None None).

Definition PlaceMarket (env : Env) (probe db : TradeDB) (newid me : Z) (id digest : string)
    (market item side price quantity currency : Z) : res (TradeCommerceRecord * TradeDB) :=
  if (quantity =? 0) || (4096 <? quantity) || negb (market =? 1)
     || match po_currencies p with [] => true | c :: _ => negb (currency =? c) end
     || negb (contains (po_items p) item) || negb (validPrice price currency p)
     || (MaxInt64 / quantity <? price) || (negb (side =? 1) && negb (side =? 2))
  then Err ErrInvalid
  else
    let '(r, w) := market_order me market item side price quantity currency in
    Create env probe db newid me id digest r w.

(** ** [Mutate] *)
Inductive action := Confirm | Buy (requestID : list string) | CancelAction | OtherAction.

(** [Some] contract is to be saved, [None] answers with the row as it is. *)
Definition mutate_confirm (now me : Z) (r : TradeCommerceRecord) (w : TradeCommerceWorkflow)
    : res contract :=
  if negb (r_kind r =? PlayerTradeKind) || negb (stage_is w SConfirm) then Err ErrConflict
  else if (r_expires r <=? now) || w_cancel_requested w then Err ErrConflict
  else
    '(r, w) ← (if me =? r_seller r then
        if negb (w_buyer_confirmed w) || negb (applied (leg w "buyer_debit")) then Err ErrConflict
        else Ok (r, set_seller_confirmed w true)
      else if me =? r_buyer r then
        if negb (applied (leg w "seller_debit")) then Err ErrConflict
        else
          let w := set_buyer_confirmed w true in
          if negb (applied (leg w "buyer_debit"))
          then Ok (set_r_status r Escrowing, set_stage w SBuyerEscrow)
          else Ok (r, w)
      else Err ErrMissing);
    if w_seller_confirmed w && w_buyer_confirmed w
    then Ok (set_r_status r Escrowing, set_stage w SEscrow) else Ok (r, w).

Definition buy_replay (me : Z) (r : TradeCommerceRecord) (w : TradeCommerceWorkflow) : bool :=
  (r_buyer r =? me) && (stage_is w SPay || stage_is w SDeliver || stage_is w SDone).

Definition mutate_buy (db : TradeDB) (now me : Z) (requestID : list string)
    (r : TradeCommerceRecord) (w : TradeCommerceWorkflow) : res (option contract) :=
  match requestID with
  | [request] =>
      if (string_len request <? 8) || (80 <? string_len request) then Err ErrInvalid
      else
        let key := RequestKey sha256 "consignment_buy" me request in
        if existsb (fun l => HasSuffix (l_role l) ("_" +:+ key)) (w_legs w) then
          if buy_replay me r w then Ok None else Err ErrConflict
        else if (r_kind r =? ConsignmentKind) && buy_replay me r w then Ok None
        else if negb (r_kind r =? ConsignmentKind) || negb (stage_is w SOpen) || (r_expires r <=? now)
                || negb (r_buyer r =? 0) then Err ErrConflict
        else if me =? r_seller r then Err ErrSelf
        else if 32 <=? w_quantity_reserved w then Err ErrConflict
        else
          let r := set_r_buyer r me in
          owned ← Ownership db me;
          let w := set_buyer_identity w (Some (mkIdentity (ar_account owned) (ar_owner_revision owned))) in
          let w := set_buyer_assets w (Some (mkSelection [] [] 0 (r_currency r) (r_unit_price r))) in
          let w := set_quantity_reserved w (w_quantity_reserved w + 1) in
          let w := addLeg w (pay_role w +:+ "_" +:+ key) me StreamDebit (Some (Bundle (w_buyer_assets w))) in
          Ok (Some (set_r_status r Escrowing, set_stage w SPay))
  | _ => Err ErrInvalid
  end.

Definition mutate_cancel (me : Z) (r : TradeCommerceRecord) (w : TradeCommerceWorkflow)
    : res (option contract) :=
  if negb (me =? r_seller r) && negb (me =? r_buyer r) then Err ErrMissing
  else if r_status r =? Cancelled then Ok None
  else if ((r_kind r =? PlayerTradeKind)
           && (stage_is w SConfirm || stage_is w SOfferEscrow || stage_is w SBuyerEscrow))
       || ((me =? r_seller r)
           && (stage_is w SOpen || stage_is w SMarketOpen
               || (stage_is w SLotOpen && (w_highest_bidder w =? 0))))
  then Ok (Some (set_r_status r CancelPending, set_cancel_requested w true))
  else Err ErrConflict.

Definition mutate_tx (env : Env) (before : TradeCommerceRecord) (db : TradeDB) (me id : Z) (a : action)
    : res (TradeCommerceRecord * TradeDB) :=
  _ ← lockRoles env db 0 [me; r_seller before; r_buyer before];
  match tr_commerce db !! id with
  | None => Err ErrMissing
  | Some r =>
      w ← Workflow r;
      if negb (r_seller r =? r_seller before) || negb (r_buyer r =? r_buyer before) then Err ErrConflict
      else
        _ ← checkContractIdentities db r w;
        let now := en_dbnow env in
        '(decided, outbox) ← match a with
          | Confirm => c ← mutate_confirm now me r w; Ok (Some c, tr_outbox db)
          | Buy requestID => c ← mutate_buy db now me requestID r w; Ok (c, tr_outbox db)
          | CancelAction =>
              c ← mutate_cancel me r w;
              Ok (c, match c with
                     | Some _ => ExpireCommerceEscrowDebitsTx (tr_outbox db) (r_id r) now
                     | None => tr_outbox db
                     end)
          | OtherAction => Err ErrInvalid
          end;
        match decided with
        | None => Ok (r, db)
        | Some (r', w') =>
            db' ← Save (with_outbox db outbox) r' w' (en_now env);
            Ok (saved_row r r' w' (en_now env), db')
        end
  end.

Definition Mutate (env : Env) (probe db : TradeDB) (me id : Z) (a : action)
    : res (TradeCommerceRecord * TradeDB) :=
  before ← Get probe id;
  mutate_tx env before db me id a.

(** ** [advance] *)

(** What the outbox says of a leg; [None] stops the contract: the command was
    applied in part. *)
Definition observe_leg (o : Outbox) (l : TradeCommerceLeg) : res (option TradeCommerceLeg) :=
  if (l_op l =? 0) || negb (l_outcome l =? 0) then Ok (Some l)
  else match LegResult o (l_op l) with
  | None => Err errCorruptContract
  | Some out =>
      if Pending out then Ok (Some l)
      else if negb (Final out) then Err errCorruptContract
      else if lo_status out =? OpAppliedPartial then Ok None
      else
        let l := set_l_outcome l (lo_status out) in
        l ← match lo_snapshot out with
            | NoBlob => Ok l
            | BadBlob => Err errCorruptContract
            | Blob s => Ok (set_l_snapshot l (Some s))
            end;
        if (l_stream l =? StreamDebit) && applied (Some l) then
          _ ← corrupt (Transfer (l_bundle l) (l_snapshot l)); Ok (Some l)
        else Ok (Some l)
  end.

(** The flag is raised by a partly applied leg, which ends the loop. *)
Fixpoint observe_legs (o : Outbox) (legs : list TradeCommerceLeg) : res (list TradeCommerceLeg * bool) :=
  match legs with
  | [] => Ok ([], false)
  | l :: legs' =>
      out ← observe_leg o l;
      match out with
      | None => Ok (l :: legs', true)
      | Some l =>
          '(legs', partial) ← observe_legs o legs';
          Ok (l :: legs', partial)
      end
  end.

Definition is_child (id : Z) (c : TradeCommerceRecord) : bool :=
  (r_kind c =? MarketKind) && (r_side c =? 0) && ((r_parent c =? id) || (r_counterparty c =? id)).

Definition child_open (c : TradeCommerceRecord) : bool :=
  negb ((r_status c =? Cancelled) || (r_status c =? Settled)).

Definition marketBarrier (db : TradeDB) (r : TradeCommerceRecord) (w : TradeCommerceWorkflow) : contract :=
  if negb (r_kind r =? MarketKind) || (r_side r =? 0) then (r, w)
  else
    let children := keep_if (is_child (r_id r)) (commerce_rows db) in
    let pending := existsb child_open children in
    if existsb (fun c => r_status c =? Manual) children
    then (set_r_status r Manual, set_stage w SManual)
    else
      let '(r, w) := if stage_is w SDone && pending
                     then (set_r_status r CancelPending, set_stage w SMarketWait) else (r, w) in
      let '(r, w) := if stage_is w SMarketWait && negb pending
                     then (set_r_status r Cancelled, set_stage w SDone) else (r, w) in
      if stage_is w SMarketOpen && (r_quantity r =? r_filled r) && negb pending
      then (set_r_status r Settled, set_stage w SDone) else (r, w).

(** [sort.Slice] on (player, stream, role); the roles of a contract differ. *)
Definition leg_less (a b : nat * TradeCommerceLeg) : bool :=
  if negb (l_player a.2 =? l_player b.2) then l_player a.2 <? l_player b.2
  else if negb (l_stream a.2 =? l_stream b.2) then l_stream a.2 <? l_stream b.2
  else String.ltb (l_role a.2) (l_role b.2).

Definition pending_legs (legs : list TradeCommerceLeg) : list (nat * TradeCommerceLeg) :=
  sort_stable leg_less (keep_if (fun il : nat * TradeCommerceLeg => l_op il.2 =? 0) (imap pair legs)).

Definition TX_AUCTION_BUY : Z := 4.
Definition TX_AUCTION_SELL : Z := 3.

(** The outbox row of a leg. *)
Definition leg_op (env : Env) (r : TradeCommerceRecord) (w : TradeCommerceWorkflow)
    (l : TradeCommerceLeg) (opID : Z) (n : Alloc) : TradeAssetOpRecord :=
  let debit := l_stream l =? StreamDebit in
  let deadline := if debit then if w_cancel_requested w then en_dbnow env else r_expires r else 0 in
  mkOp opID (l_player l) (l_stream l) (al_epoch n) (al_seq n)
    (if debit then KindEscrowDebit else KindDeliverCredit) OpPending false 0 (en_now env) deadline 0 0
    (if debit then TX_AUCTION_SELL else TX_AUCTION_BUY) RefKindOrder (r_id r)
    (Some (default no_bundle (l_bundle l))) 0 0 (en_now env) (en_now env) "" "" 0 NoBlob false false.

Fixpoint issue_legs (env : Env) (r : TradeCommerceRecord) (w : TradeCommerceWorkflow)
    (o : Outbox) (legs : list TradeCommerceLeg) (pending : list (nat * TradeCommerceLeg)) (ids : list Z)
    : res (Outbox * list TradeCommerceLeg) :=
  match pending with
  | [] => Ok (o, legs)
  | (i, l) :: pending' =>
      match ids with
      | [] => Err errCorruptContract
      | opID :: ids' =>
          let key := (l_player l, l_stream l) in
          '(allocs, o) ← AllocateSeqsTx o (en_now env) [key];
          let n := default (mkAlloc 0 0) (allocs !! key) in
          o ← InsertOp o (leg_op env r w l opID n);
          issue_legs env r w o (<[i := set_l_op l opID]> legs) pending' ids'
      end
  end.

(** The sequence rows [advance] asks for before its transaction. *)
Definition advance_keys (old : TradeCommerceRecord) (w : TradeCommerceWorkflow) : list SeqKey :=
  flat_map (fun player => if 0 <? player then [(player, StreamDebit); (player, StreamCredit)] else [])
    [r_seller old; r_buyer old; w_highest_bidder w].

Definition consumes (w : TradeCommerceWorkflow) : bool :=
  stage_is w SDone || stage_is w SRmbDelivered || stage_is w SRmbReturned.

(** From the observed legs to the saved contract. *)
Definition advance_planned (env : Env) (ids : list Z) (db : TradeDB) (r : TradeCommerceRecord)
    (w : TradeCommerceWorkflow) : res TradeDB :=
  '(r, w) ← corrupt (plan p r w (en_dbnow env));
  let '(r, w) := marketBarrier db r w in
  '(o, legs) ← issue_legs env r w (tr_outbox db) (w_legs w) (pending_legs (w_legs w)) ids;
  let w := set_legs w legs in
  let o := if consumes w then MarkCommerceOpsConsumedTx o (r_id r) else o in
  Save (with_outbox db o) r w (en_now env).

Definition advance_tx (env : Env) (ids : list Z) (old : TradeCommerceRecord) (db : TradeDB) : res TradeDB :=
  w0 ← corrupt (Workflow old);
  _ ← lockRoles env db 0 [r_seller old; r_buyer old; w_highest_bidder w0];
  r ← Get db (r_id old);
  w ← corrupt (Workflow r);
  if negb (r_seller r =? r_seller old) || negb (r_buyer r =? r_buyer old) then Err errStaleObservation
  else
    _ ← checkContractIdentities db r w;
    '(legs, partial) ← observe_legs (tr_outbox db) (w_legs w);
    let w := set_legs w legs in
    if (partial : bool) then
      let o := ExpireCommerceEscrowDebitsTx (tr_outbox db) (r_id r) (en_now env) in
      Save (with_outbox db o) (set_r_status r Manual) (set_stage w SManual) (en_now env)
    else advance_planned env ids db r w.

(** The rows are there when the transaction starts; [probe] is the state of the
    unlocked reads of [EnsureSeqRows]. *)
Definition advance_ensure (env : Env) (old : TradeCommerceRecord) (probe db : TradeDB) : res TradeDB :=
  w ← corrupt (Workflow old);
  o ← EnsureSeqRows (tr_outbox probe) (tr_outbox db) (en_now env) (advance_keys old w);
  Ok (with_outbox db o).
End engine.
