(* ===== verification/CommerceMarket.v ===== *)
(** * Trade: market, auction and the row-by-row tick

    [go/trade/internal/commerce/market.go], [auction.go] and
    [tick_isolation.go]: matching two market orders, a bid that is placed,
    accepted, held and settled, the quarantine of a contract whose data are
    broken, and how a failed row is put off. *)

From stdpp Require Import base list gmap strings.
From Stdlib Require Import ZArith Lia.
From S2P Require Import Prelude RoleRoute CommerceData CommercePlan AssetOps CommerceStore.
Local Open Scope Z_scope.
Local Open Scope go_scope.

(** ** Quarantine *)
Definition quarantineLockedTx (env : Env) (db : TradeDB) (cur : TradeCommerceRecord) : res TradeDB :=
  let o := ExpireCommerceEscrowDebitsTx (tr_outbox db) (r_id cur) (en_now env) in
  let db := with_outbox db o in
  match r_workflow cur with
  | None => SaveStatus db cur Manual (en_now env)
  | Some w => Save db (set_r_status cur Manual) (set_stage w SManual) (en_now env)
  end.

(** Whether the row was quarantined; [r] is the row [Due] returned. *)
Definition quarantine (env : Env) (db : TradeDB) (r : TradeCommerceRecord) : res (bool * TradeDB) :=
  match tr_commerce db !! r_id r with
  | None => Ok (false, db)
  | Some cur =>
      if negb (r_version cur =? r_version r) || (r_status cur =? Manual) then Ok (false, db)
      else db ← quarantineLockedTx env db cur; Ok (true, db)
  end.

(** ** Market *)

(** [fmt.Sprintf("market:%d:%d:%d", ...)] *)
Definition market_name (market item currency : Z) : string :=
  ("market:" +:+ FormatUint market +:+ ":" +:+ FormatUint item +:+ ":" +:+ FormatUint currency)%string.

(** [binary.BigEndian.Uint64(key[:8])] *)
Fixpoint big_endian (n : nat) (acc : Z) (s : string) : Z :=
  match n, s with
  | S n, String a s => big_endian n (acc * 256 + Z.of_N (Ascii.N_of_ascii a)) s
  | _, _ => acc
  end.

Definition guard_id (key : string) : Z := Z.lor (big_endian 8 0 key) (Z.shiftl 1 63).

(** The best opposite order of a taker. *)
Definition opposite (taker : TradeCommerceRecord) : Z := if r_side taker =? 1 then 2 else 1.

Definition counterparty_of (taker c : TradeCommerceRecord) : bool :=
  (r_kind c =? MarketKind) && (r_side c =? opposite taker) && (r_market_id c =? r_market_id taker)
  && (r_item_config c =? r_item_config taker) && (r_currency c =? r_currency taker)
  && (r_status c =? Escrowing) && (r_filled c <? r_quantity c) && negb (r_seller c =? r_seller taker)
  && (if r_side taker =? 1 then r_unit_price c <=? r_unit_price taker
      else r_unit_price taker <=? r_unit_price c).

Definition counterparty_less (taker a b : TradeCommerceRecord) : bool :=
  if negb (r_unit_price a =? r_unit_price b) then
    if r_side taker =? 1 then r_unit_price a <? r_unit_price b else r_unit_price b <? r_unit_price a
  else if negb (r_created a =? r_created b) then r_created a <? r_created b
  else r_id a <? r_id b.

Definition marketCounterparty (db : TradeDB) (taker : TradeCommerceRecord) : option Z :=
  match sort_stable (counterparty_less taker) (keep_if (counterparty_of taker) (commerce_rows db)) with
  | c :: _ => Some (r_id c)
  | [] => None
  end.

(** A counterparty that can never trade, because of its own data. *)
Definition counterpartyDefect (db : TradeDB) (r : TradeCommerceRecord) : res (option error) :=
  match r_workflow r with
  | None => Ok (Some errCorruptContract)
  | Some w =>
      match checkContractIdentities db r w with
      | Ok _ => Ok None
      | Err e => if bool_decide (e = errCorruptContract) || bool_decide (e = errRoleConflict)
                 then Ok (Some e) else Err e
      end
  end.

Definition older (a b : TradeCommerceRecord) : TradeCommerceRecord :=
  if (r_created b <? r_created a) || ((r_created b =? r_created a) && (r_id b <? r_id a)) then b else a.

Section engine.
Context (sha256 : string -> string) (p : Policy).

(** The child contract of a match of [qty] at [price]. *)
Definition match_record (env : Env) (matchID price qty : Z) (key : string) (buy sell : TradeCommerceRecord)
    : TradeCommerceRecord :=
  mkCommerce matchID (EncodeToString key +:+ ":" +:+ FormatUint matchID)%string "" MarketKind Delivering
    (r_seller sell) (r_seller buy) (r_market_id buy) (r_item_config buy) 0 price qty 0 (r_currency buy)
    0 (en_now env) (en_now env) 1 None (r_id buy) (r_id sell).

Definition match_workflow (price qty : Z) (buy sell : TradeCommerceRecord)
    (buyer seller : option TradeRoleIdentity) : TradeCommerceWorkflow :=
  let w := mkWorkflow None None false false false [] SDeliver 0 0 0 0 0 no_official None None seller buyer in
  let w := addLeg w "buyer_receive" (r_seller buy) StreamCredit
             (Some (item_bundle (r_item_config buy) qty)) in
  let w := addLeg w "seller_receive" (r_seller sell) StreamCredit
             (Some (currency_bundle (r_currency buy) (qty *64 price))) in
  if price <? r_unit_price buy
  then addLeg w "buyer_surplus" (r_seller buy) StreamCredit
         (Some (currency_bundle (r_currency buy) (qty *64 (r_unit_price buy -64 price))))
  else w.

Definition fill (r : TradeCommerceRecord) (qty : Z) : TradeCommerceRecord :=
  let r := set_r_filled r (r_filled r +32 qty) in
  if r_filled r =? r_quantity r then set_r_status r Delivering else r.

(** The trade itself, between the two locked orders [a] (the smaller identifier)
    and [b]. *)
Definition match_orders (env : Env) (matchID : Z) (key : string) (db : TradeDB)
    (a : TradeCommerceRecord) (aw : TradeCommerceWorkflow)
    (b : TradeCommerceRecord) (bw : TradeCommerceWorkflow) : res TradeDB :=
  if negb (stage_is aw SMarketOpen) || negb (stage_is bw SMarketOpen)
     || w_cancel_requested aw || w_cancel_requested bw
     || (r_quantity a <=? r_filled a) || (r_quantity b <=? r_filled b)
  then Ok db
  else
    let '((buy, bwf), (sell, swf)) :=
      if r_side a =? 1 then ((a, aw), (b, bw)) else ((b, bw), (a, aw)) in
    if (r_unit_price buy <? r_unit_price sell) || (r_seller buy =? r_seller sell) then Ok db
    else
      let price := r_unit_price (older a b) in
      let qty := Z.min (r_quantity buy - r_filled buy) (r_quantity sell - r_filled sell) in
      if negb (is_some (w_seller_identity bwf)) || negb (is_some (w_seller_identity swf))
      then Err errCorruptContract
      else
        let m := match_record env matchID price qty key buy sell in
        let mw := match_workflow price qty buy sell (w_seller_identity bwf) (w_seller_identity swf) in
        db ← Insert db (set_r_workflow m (Some mw));
        db ← Save db (fill a qty) aw (en_now env);
        Save db (fill b qty) bw (en_now env).

(** [taker] and [observed] are the rows read before the transaction; the answer
    names the defect of a counterparty taken off the book. *)
Definition match_tx (env : Env) (matchID : Z) (taker observed : TradeCommerceRecord) (db : TradeDB)
    : res (option error * TradeDB) :=
  _ ← lockRoles env db 0 [r_seller taker; r_seller observed];
  let key := sha256 (market_name (r_market_id taker) (r_item_config taker) (r_currency taker)) in
  let db := with_guard db ({[guard_id key]} ∪ tr_guard db) in
  match marketCounterparty db taker with
  | None => Ok (None, db)
  | Some otherID =>
      if negb (otherID =? r_id observed) then Err errStaleObservation
      else
        a ← Get db (Z.min (r_id taker) otherID);
        b ← Get db (Z.max (r_id taker) otherID);
        let other := if r_id b =? otherID then b else a in
        found ← counterpartyDefect db other;
        match found with
        | Some defect => db ← quarantineLockedTx env db other; Ok (Some defect, db)
        | None =>
            aw ← Workflow a;
            bw ← Workflow b;
            _ ← checkContractIdentities db a aw;
            _ ← checkContractIdentities db b bw;
            db ← match_orders env matchID key db a aw b bw;
            Ok (None, db)
        end
  end.

(** [probe]: the state of the reads before the transaction. *)
Definition matchMarket (env : Env) (matchID id : Z) (probe db : TradeDB) : res (option error * TradeDB) :=
  taker ← Get probe id;
  if negb (r_kind taker =? MarketKind) || (r_side taker =? 0) || (r_filled taker =? r_quantity taker)
  then Ok (None, db)
  else match marketCounterparty probe taker with
  | None => Ok (None, db)
  | Some observedID =>
      observed ← Get probe observedID;
      match_tx env matchID taker observed db
  end.

(** ** Auction *)

(** An amount that may become the highest bid of a lot. *)
Definition outbids (lot : TradeCommerceRecord) (w : TradeCommerceWorkflow) (amount : Z) : bool :=
  (r_unit_price lot <=? amount)
  && ((w_highest_bid w =? 0)
      || ((w_minimum_increment w <=? (MaxInt64 -64 w_highest_bid w))
          && ((w_highest_bid w +64 w_minimum_increment w) <=? amount))).

Definition bid_contract (lot : TradeCommerceRecord) (me amount : Z) : contract :=
  (mkCommerce 0 "" "" BidKind Escrowing me 0 0 0 0 amount 0 0 (r_currency lot) (r_expires lot) 0 0 0 None
     (r_id lot) 0,
   mkWorkflow (Some (mkSelection [] [] 0 (r_currency lot) amount)) None false false false [] SBidFreeze
     0 0 0 0 0 no_official None None None None).

Definition PlaceBid (env : Env) (probe db : TradeDB) (newid me lotID : Z) (id digest : string) (amount : Z)
    : res (TradeCommerceRecord * TradeDB) :=
  lot ← Get probe lotID;
  old ← priorRequest sha256 env probe me id digest;
  match old with
  | Some old => Ok (old, db)
  | None =>
      w ← Workflow lot;
      if negb (r_kind lot =? LotKind) || negb (stage_is w SLotOpen) || (r_expires lot <=? en_now env)
      then Err ErrEnded
      else if me =? r_seller lot then Err ErrSelf
      else if (MaxInt64 <? amount) || negb (outbids lot w amount) then Err ErrBid
      else
        let '(r, w) := bid_contract lot me amount in
        Create sha256 env probe db newid me id digest r w
  end.

(** The lot as the acceptance sees it: [None] when it cannot accept bids. *)
Definition lot_for_bid (db : TradeDB) (lot : option TradeCommerceRecord)
    : res (option (TradeCommerceRecord * TradeCommerceWorkflow)) :=
  match lot with
  | Some l =>
      match r_workflow l with
      | Some lw =>
          match checkContractIdentities db l lw with
          | Ok _ => Ok (Some (l, lw))
          | Err e => if bool_decide (e = errCorruptContract) || bool_decide (e = errRoleConflict)
                     then Ok None else Err e
          end
      | None => Ok None
      end
  | None => Ok None
  end.

Definition eligible (now : Z) (lot : TradeCommerceRecord) (lw : TradeCommerceWorkflow)
    (bid : TradeCommerceRecord) : bool :=
  stage_is lw SLotOpen && negb (w_cancel_requested lw) && (now <? r_expires lot)
  && outbids lot lw (r_unit_price bid).

Definition ErrHeldBid : error := "commerce: the highest bid is not held"%string.

(** The bid that is overtaken is sent to its refund. *)
Definition release_winner (env : Env) (db : TradeDB) (id : Z) : res TradeDB :=
  if id =? 0 then Ok db
  else
    old ← Get db id;
    ow ← Workflow old;
    if negb (stage_is ow SBidHeld) then Err ErrHeldBid
    else Save db (set_r_status old CancelPending) (set_stage ow SBidRefund) (en_now env).

Definition crown_lot (lot : TradeCommerceRecord) (lw : TradeCommerceWorkflow)
    (bid : TradeCommerceRecord) (bw : TradeCommerceWorkflow) : contract :=
  let lw := set_highest_bid lw (r_unit_price bid) in
  let lw := set_highest_bidder lw (r_seller bid) in
  let lw := set_winning_bid_id lw (r_id bid) in
  let lw := set_buyer_assets lw (w_seller_assets bw) in
  (set_r_buyer lot (r_seller bid), set_buyer_identity lw (w_seller_identity bw)).

(** [candidate] and [parent] are the rows read before the transaction, [parent]
    [None] when there was none. *)
Definition acceptBid_tx (env : Env) (candidate : TradeCommerceRecord) (parent : option TradeCommerceRecord)
    (db : TradeDB) : res TradeDB :=
  let parentSeller := match parent with Some l => r_seller l | None => 0 end in
  let parentBuyer := match parent with Some l => r_buyer l | None => 0 end in
  _ ← lockRoles env db 0 [r_seller candidate; parentSeller; parentBuyer];
  let db := with_guard db ({[r_parent candidate]} ∪ tr_guard db) in
  let lot := tr_commerce db !! r_parent candidate in
  if match lot with
     | Some l => negb (r_seller l =? parentSeller) || negb (r_buyer l =? parentBuyer)
     | None => false
     end then Err errStaleObservation
  else
    bid ← Get db (r_id candidate);
    bw ← corrupt (Workflow bid);
    if negb (stage_is bw SBidReady) then Ok db
    else
      _ ← checkContractIdentities db bid bw;
      target ← lot_for_bid db lot;
      match target with
      | Some (l, lw) =>
          if eligible (en_dbnow env) l lw bid then
            db ← release_winner env db (w_winning_bid_id lw);
            if negb (is_some (w_seller_identity bw)) then Err errCorruptContract
            else
              let '(l', lw') := crown_lot l lw bid bw in
              db ← Save db l' lw' (en_now env);
              Save db bid (set_stage bw SBidHeld) (en_now env)
          else Save db (set_r_status bid CancelPending) (set_stage bw SBidRefund) (en_now env)
      | None => Save db (set_r_status bid CancelPending) (set_stage bw SBidRefund) (en_now env)
      end.

Definition acceptBid (env : Env) (bidID : Z) (probe db : TradeDB) : res TradeDB :=
  candidate ← Get probe bidID;
  acceptBid_tx env candidate (tr_commerce probe !! r_parent candidate) db.

(** ** A held bid *)
Definition bidHeldRecheck : Z := 30000.
Definition bidHeldMaxWait : Z := 3600000.

Definition held_until (now expires : Z) : Z :=
  Z.min (Z.max expires (now + bidHeldRecheck)) (now + bidHeldMaxWait).

Definition settle_tx (env : Env) (id : Z) (db : TradeDB) : res TradeDB :=
  current ← Get db id;
  cw ← corrupt (Workflow current);
  if negb (stage_is cw SBidHeld) then Ok db
  else
    let db := with_outbox db (MarkCommerceOpsConsumedTx (tr_outbox db) id) in
    Save db (set_r_status current Settled) (set_stage cw SDone) (en_now env).

Definition settleHeldBid (env : Env) (r : TradeCommerceRecord) (probe db : TradeDB) : res TradeDB :=
  match tr_commerce probe !! r_parent r with
  | None => Err errCorruptContract
  | Some parent =>
      if negb (r_status parent =? Settled)
      then Ok (Defer db (r_id r) (r_version r) (held_until (en_now env) (r_expires parent))).2
      else settle_tx env (r_id r) db
  end.

(** ** Failed rows *)
Inductive failure := FailureRetry | FailureTooManyPending | FailureCorrupt | FailureRoleConflict | FailureConflict.

Definition failureClass (e : error) : failure :=
  if bool_decide (e = errCorruptContract) then FailureCorrupt
  else if bool_decide (e = ErrTooManyPending) then FailureTooManyPending
  else if bool_decide (e = errRoleConflict) then FailureRoleConflict
  else if bool_decide (e = errStaleObservation) then FailureConflict
  else FailureRetry.

Definition tickRetryBackoff : Z := 10000.
Definition tickPendingBackoff : Z := 60000.
Definition tickRoleConflictBackoff : Z := 300000.

(** The middle of the delay; [NextAttemptMs] spreads it by a fifth each way. *)
Definition tick_base (cause : error) : Z :=
  match failureClass cause with
  | FailureTooManyPending => tickPendingBackoff
  | FailureRoleConflict => tickRoleConflictBackoff
  | _ => tickRetryBackoff
  end.

(** [delay] is the jittered [tick_base]; a quarantine that fails falls back to
    the delay. *)
Definition deferCommerce (env : Env) (r : TradeCommerceRecord) (cause : error) (delay : Z) (db : TradeDB) : TradeDB :=
  let put_off := (Defer db (r_id r) (r_version r) (en_now env + delay)).2 in
  match failureClass cause with
  | FailureConflict => db
  | FailureCorrupt => match quarantine env db r with Ok (true, db') => db' | _ => put_off end
  | _ => put_off
  end.

(** The budget of the next row, in nanoseconds; [None]: no row is started. *)
Definition tickAckReserve : Z := 500000000.
Definition tickDeferBudget : Z := 300000000.
Definition tickRowBudget : Z := 5000000000.
Definition tickRowMinBudget : Z := 200000000.

(** [time_left]: the time to the deadline of the round, [None] without a deadline. *)
Definition rowBudgetFor (time_left : option Z) : option Z :=
  match time_left with
  | None => Some tickRowBudget
  | Some rest =>
      let budget := Z.min (Z.quot (rest - tickAckReserve - tickDeferBudget) 2) tickRowBudget in
      if budget <? tickRowMinBudget then None else Some budget
  end.
End engine.
