(* ===== verification/CommerceInv.v ===== *)
(** * Trade: what a bundle is worth and what the legs of a contract add up to

    An asset is a currency, a stackable item, one instance or one pet. A debit is
    worth what its request names, a credit what it hands out. [Transfer] turns
    the one into the other without gain or loss; the sums over the legs of a
    contract are computed from its roles. The second part is the balance of one
    contract. *)
From stdpp Require Import base list gmap strings.
From Stdlib Require Import ZArith Lia.
From S2P Require Import Prelude CommerceData CommercePlan.
Local Open Scope Z_scope.

(** ** Worth *)
Inductive asset := Cur (c : Z) | Itm (id : Z) | Inst (uuid : Z) | Pet (id : Z).
#[global] Instance asset_eq_dec : EqDecision asset.
Proof. solve_decision. Defined.

Fixpoint sumZ {A} (f : A -> Z) (l : list A) : Z :=
  match l with [] => 0 | x :: l' => f x + sumZ f l' end.

Lemma sumZ_app {A} (f : A -> Z) l k : sumZ f (l ++ k) = sumZ f l + sumZ f k.
Proof. induction l; simpl; lia. Qed.

Lemma sumZ_perm {A} (f : A -> Z) l k : l ≡ₚ k -> sumZ f l = sumZ f k.
Proof. induction 1; simpl; lia. Qed.

Lemma sumZ_ext {A} (f g : A -> Z) l : (forall x, x ∈ l -> f x = g x) -> sumZ f l = sumZ g l.
Proof.
  induction l as [|x l IH]; simpl; [done|]; intros H.
  rewrite (H x) by left. rewrite IH; [done|]. intros y Hy. apply H. by right.
Qed.

Lemma sumZ_0 {A} (f : A -> Z) l : (forall x, x ∈ l -> f x = 0) -> sumZ f l = 0.
Proof.
  intros H. rewrite (sumZ_ext f (fun _ => 0) l H). induction l as [|x l IH]; simpl; [done|].
  apply IH. intros y Hy. apply H. by right.
Qed.

Lemma sumZ_nonneg {A} (f : A -> Z) l : (forall x, x ∈ l -> 0 <= f x) -> 0 <= sumZ f l.
Proof.
  induction l as [|x l IH]; simpl; [done|]; intros H.
  pose proof (H x ltac:(left)). enough (0 <= sumZ f l) by lia. apply IH. intros y Hy. apply H. by right.
Qed.

Lemma sumZ_le {A} (f g : A -> Z) l : (forall x, x ∈ l -> f x <= g x) -> sumZ f l <= sumZ g l.
Proof.
  induction l as [|x l IH]; simpl; [done|]; intros H.
  pose proof (H x ltac:(left)). enough (sumZ f l <= sumZ g l) by lia. apply IH. intros y Hy. apply H. by right.
Qed.

Lemma sumZ_plus {A} (f g : A -> Z) l : sumZ (fun x => f x + g x) l = sumZ f l + sumZ g l.
Proof. induction l; simpl; lia. Qed.

Lemma sumZ_fmap {A B} (h : A -> B) (f : B -> Z) l : sumZ f (h <$> l) = sumZ (fun x => f (h x)) l.
Proof. induction l; csimpl; [done|]. by f_equal. Qed.

(** The sum over the rows of a table. *)
Definition msum {A} (f : A -> Z) (m : gmap Z A) : Z := sumZ f (map_to_list m).*2.

Lemma msum_insert {A} (f : A -> Z) m k v : m !! k = None -> msum f (<[k := v]> m) = f v + msum f m.
Proof. intros H. unfold msum. by rewrite (sumZ_perm _ _ _ (fmap_Permutation _ _ _ (map_to_list_insert m k v H))). Qed.

Lemma msum_delete {A} (f : A -> Z) m k v : m !! k = Some v -> msum f m = f v + msum f (delete k m).
Proof. intros H. rewrite <- (insert_delete_id m k v H) at 1. apply msum_insert, lookup_delete_eq. Qed.

Lemma msum_update {A} (f : A -> Z) m k v0 v : m !! k = Some v0 -> msum f (<[k := v]> m) = msum f m - f v0 + f v.
Proof.
  intros H. rewrite (msum_delete f m k v0 H), <- (insert_delete_eq m k v), msum_insert by apply lookup_delete_eq. lia.
Qed.

Lemma msum_keep {A} (f : A -> Z) m k v0 v : m !! k = Some v0 -> f v = f v0 -> msum f (<[k := v]> m) = msum f m.
Proof. intros H Hf. rewrite (msum_update _ _ _ _ _ H), Hf. lia. Qed.

Definition amount_of (k : Z) (l : list (Z * Z)) : Z := sumZ (fun e => if e.1 =? k then e.2 else 0) l.
Definition count_of (k : Z) (l : list Z) : Z := sumZ (fun x => if x =? k then 1 else 0) l.

(** What a debit of [b] takes, and what a credit of [b] gives. *)
Definition worth_in (b : AssetBundle) (a : asset) : Z :=
  match a with
  | Cur c => amount_of c (b_currencies b)
  | Itm id => amount_of id (b_items b)
  | Inst u => count_of u (b_uuids b)
  | Pet i => if (b_pet b =? i) && negb (i =? 0) then 1 else 0
  end.

Definition worth_out (b : AssetBundle) (a : asset) : Z :=
  match a with
  | Cur c => amount_of c (b_currencies b)
  | Itm id => amount_of id (b_items b)
  | Inst u => count_of u (ii_uuid <$> b_instances b)
  | Pet i => match b_pet_instance b with Some x => if pi_pet_id x =? i then 1 else 0 | None => 0 end
  end.

(** Amounts are unsigned. *)
Definition bundle_nonneg (b : AssetBundle) : Prop :=
  Forall (fun e => 0 <= e.2) (b_currencies b) /\ Forall (fun e => 0 <= e.2) (b_items b).

Lemma amount_of_nonneg k l : Forall (fun e : Z * Z => 0 <= e.2) l -> 0 <= amount_of k l.
Proof.
  intros H. apply sumZ_nonneg. intros e He. rewrite Forall_forall in H. specialize (H e He).
  split_if; lia.
Qed.

Lemma count_of_nonneg k l : 0 <= count_of k l.
Proof. apply sumZ_nonneg. intros x _. split_if; lia. Qed.

Lemma worth_in_nonneg b a : bundle_nonneg b -> 0 <= worth_in b a.
Proof.
  intros [Hc Hi]. destruct a; simpl; auto using amount_of_nonneg, count_of_nonneg. split_if; lia.
Qed.

(** ** [Transfer] neither adds nor drops *)
Lemma wanted_ids_Ok ids : forall wanted wanted',
  wanted_ids wanted ids = Ok wanted' ->
  wanted' = wanted ∪ list_to_set ids /\ NoDup ids /\ (forall i, i ∈ ids -> i ∉ wanted).
Proof.
  induction ids as [|i ids IH]; intros wanted wanted'; simpl.
  - intros [= <-]. split_and!; [set_solver|constructor|set_solver].
  - destruct ((i =? 0) || bool_decide (i ∈ wanted)) eqn:Hc; [done|].
    apply orb_false_iff in Hc as [_ Hc]. apply bool_decide_eq_false in Hc.
    intros (-> & Hnd & Hni)%IH. split_and!; [set_solver| |set_solver].
    constructor; [|done]. intros Hin. specialize (Hni i Hin). set_solver.
Qed.

Lemma cross_off_Ok items : forall wanted left_over,
  cross_off wanted items = Ok left_over ->
  NoDup (ii_uuid <$> items) /\ list_to_set (ii_uuid <$> items) ⊆ wanted /\
  left_over = wanted ∖ list_to_set (ii_uuid <$> items).
Proof.
  induction items as [|it items IH]; intros wanted left_over; csimpl.
  - intros [= <-]. split_and!; [constructor|set_solver|set_solver].
  - case_bool_decide as Hin; [|done]. intros (Hnd & Hsub & ->)%IH.
    split_and!; [|set_solver|set_solver].
    constructor; [|done]. intros Hx. apply (elem_of_list_to_set (C := gset Z)) in Hx. set_solver.
Qed.

Lemma count_of_perm k l1 l2 : l1 ≡ₚ l2 -> count_of k l1 = count_of k l2.
Proof. apply sumZ_perm. Qed.

(** A credit made of a debit: same currencies and items, the named instances. *)
Lemma Transfer_Ok b s b' :
  Transfer b s = Ok b' ->
  exists b0, b = Some b0 /\ b_currencies b' = b_currencies b0 /\ b_items b' = b_items b0 /\
    b_uuids b' = [] /\ b_pet b' = 0 /\ ii_uuid <$> b_instances b' ≡ₚ b_uuids b0 /\
    (b_pet b0 = 0 /\ b_pet_instance b' = None \/
     b_pet b0 <> 0 /\ exists x, b_pet_instance b' = Some x /\ pi_pet_id x = b_pet b0) /\
    (forall s0, s = Some s0 -> b_instances b' = as_items s0 /\ b_pet_instance b' = as_pet s0).
Proof.
  destruct b as [b0|]; [|done]. unfold Transfer.
  set (items := match s with Some s0 => as_items s0 | None => [] end).
  set (pet := match s with Some s0 => as_pet s0 | None => None end).
  do 2 (match goal with |- (if ?c then _ else _) = _ -> _ => destruct c; [done|] end).
  match goal with |- (if ?c then _ else _) = _ -> _ => destruct c eqn:Hlen; [done|] end.
  intros (w1 & Hw1 & (w2 & Hw2 & Hf)%bind_Ok)%bind_Ok.
  match type of Hf with (if ?c then _ else _) = _ => destruct c eqn:Hlast; [done|] end.
  injection Hf as <-.
  apply wanted_ids_Ok in Hw1 as (-> & Hnd & _). apply cross_off_Ok in Hw2 as (Hnd2 & Hsub & ->).
  apply orb_false_iff in Hlen as [_ Hpet], Hlast as [Hall Hid].
  apply negb_false_iff in Hpet, Hall. apply bool_decide_eq_true in Hall. apply eqb_prop in Hpet.
  exists b0. cbn. split_and!; try done.
  - apply NoDup_Permutation; [done..|]. intros x. split; intros Hx.
    + apply (elem_of_list_to_set (C := gset Z)) in Hx. apply Hsub in Hx. set_solver.
    + apply (elem_of_list_to_set (C := gset Z)). apply dec_stable. intros Hn.
      assert (x ∈ (∅ : gset Z)) by (rewrite <- Hall; set_solver). set_solver.
  - destruct pet as [x|] eqn:Hp; cbn in Hpet, Hid; zbool.
    + right. split; [lia|]. exists x. split; [done|]. lia.
    + left. split; [lia|done].
  - intros s0 ->. done.
Qed.

Lemma Transfer_worth b s b' a :
  Transfer b s = Ok b' -> worth_out b' a = match b with Some b0 => worth_in b0 a | None => 0 end.
Proof.
  intros (b0 & -> & Hc & Hi & _ & _ & Hu & Hp & _)%Transfer_Ok. destruct a; simpl.
  - by rewrite Hc.
  - by rewrite Hi.
  - by apply count_of_perm.
  - destruct Hp as [[Hz ->]|(Hz & x & -> & Hx)].
    + rewrite Hz. destruct (0 =? id) eqn:E; zbool; [|done]. by subst id.
    + rewrite Hx. destruct (b_pet b0 =? id) eqn:E; zbool; [|done]. subst id.
      by rewrite (proj2 (Z.eqb_neq _ _)).
Qed.

(** A request without instances is handed out as it is. *)
Lemma worth_out_in b a :
  b_uuids b = [] -> b_pet b = 0 -> b_instances b = [] -> b_pet_instance b = None ->
  worth_out b a = worth_in b a.
Proof.
  intros Hu Hp Hi Hpi. destruct a; simpl; rewrite ?Hu, ?Hp, ?Hi, ?Hpi; try done.
  destruct (0 =? id) eqn:E; zbool; [|done]. by subst id.
Qed.

(** ** Sums over legs *)
Definition leg_in (l : TradeCommerceLeg) (a : asset) : Z :=
  if (l_stream l =? StreamDebit) && (l_outcome l =? 2)
  then match l_bundle l with Some b => worth_in b a | None => 0 end else 0.

Definition leg_out (l : TradeCommerceLeg) (a : asset) : Z :=
  if l_stream l =? StreamCredit
  then match l_bundle l with Some b => worth_out b a | None => 0 end else 0.

(** What a contract took from its parties and what it gives out, whether or not
    the credit has arrived. *)
Definition inflow (w : TradeCommerceWorkflow) (a : asset) : Z := sumZ (fun l => leg_in l a) (w_legs w).
Definition outflow (w : TradeCommerceWorkflow) (a : asset) : Z := sumZ (fun l => leg_out l a) (w_legs w).

Definition opt_in (l : option TradeCommerceLeg) (a : asset) : Z :=
  match l with Some l => leg_in l a | None => 0 end.
Definition opt_out (l : option TradeCommerceLeg) (a : asset) : Z :=
  match l with Some l => leg_out l a | None => 0 end.

Definition roles (w : TradeCommerceWorkflow) : list string := l_role <$> w_legs w.

Lemma role_is_true role l : l_role l = role -> role_is role l = true.
Proof. apply bool_decide_eq_true_2. Qed.
Lemma role_is_false role l : l_role l <> role -> role_is role l = false.
Proof. apply bool_decide_eq_false_2. Qed.

Lemma find_role_None legs role :
  find_first (role_is role) legs = None <-> role ∉ l_role <$> legs.
Proof.
  rewrite find_first_None, list_elem_of_fmap. unfold role_is. split.
  - intros H (l & -> & Hl). specialize (H l Hl). by apply bool_decide_eq_false in H.
  - intros H l Hl. apply bool_decide_eq_false_2. intros Heq. apply H. eauto.
Qed.

Lemma leg_Some w role l : leg w role = Some l -> l ∈ w_legs w /\ l_role l = role.
Proof. intros [? H]%find_first_Some. split; [done|]. by apply bool_decide_eq_true in H. Qed.

Lemma leg_None w role : leg w role = None <-> role ∉ roles w.
Proof. apply find_role_None. Qed.

(** With distinct roles a leg is found by its role. *)
Lemma find_role_in legs l :
  NoDup (l_role <$> legs) -> l ∈ legs -> find_first (role_is (l_role l)) legs = Some l.
Proof.
  induction legs as [|x legs IH]; [set_solver|]; csimpl. intros [Hn Hnd]%NoDup_cons [->|Hl]%elem_of_cons.
  - by rewrite role_is_true.
  - rewrite role_is_false; [auto|]. intros Heq. apply Hn. rewrite Heq. by apply list_elem_of_fmap_2.
Qed.

Lemma leg_in_legs w l : NoDup (roles w) -> l ∈ w_legs w -> leg w (l_role l) = Some l.
Proof. apply find_role_in. Qed.

Lemma sum_skip (f : TradeCommerceLeg -> Z) x legs R :
  l_role x ∉ R ->
  sumZ (fun r => match find_first (role_is r) (x :: legs) with Some l => f l | None => 0 end) R
  = sumZ (fun r => match find_first (role_is r) legs with Some l => f l | None => 0 end) R.
Proof.
  intros HR. apply sumZ_ext. intros r Hr. simpl. rewrite role_is_false; [done|]. intros <-. done.
Qed.

Lemma sum_by_role (f : TradeCommerceLeg -> Z) legs : forall R,
  NoDup R -> NoDup (l_role <$> legs) ->
  (forall l, l ∈ legs -> l_role l ∉ R -> f l = 0) ->
  sumZ f legs = sumZ (fun r => match find_first (role_is r) legs with Some l => f l | None => 0 end) R.
Proof.
  induction legs as [|x legs IH]; intros R HR Hnd Hf; csimpl.
  { rewrite sumZ_0; done. }
  apply NoDup_cons in Hnd as [Hx Hnd].
  rewrite (IH R HR Hnd) by (intros l Hl; apply Hf; by right).
  destruct (decide (l_role x ∈ R)) as [Hin|Hnin].
  - apply list_elem_of_split_l in Hin as (R1 & R2 & HRR & H1). subst R.
    apply NoDup_app in HR as (HR1 & Hdis & HR2). apply NoDup_cons in HR2 as [Hx2 HR2].
    rewrite !sumZ_app. simpl. rewrite (proj2 (find_role_None legs (l_role x)) Hx).
    rewrite (role_is_true (l_role x)) by done.
    pose proof (sum_skip f x legs R1 H1) as E1. pose proof (sum_skip f x legs R2 Hx2) as E2.
    simpl in E1, E2. lia.
  - rewrite (Hf x) by (done || left). symmetry. apply (sum_skip f x legs R Hnin).
Qed.

(** ** Growing a workflow by credits *)
Lemma addLeg_have w role p s b l : leg w role = Some l -> addLeg w role p s b = w.
Proof. unfold addLeg. by intros ->. Qed.

Lemma addLeg_fresh w role p s b :
  leg w role = None -> addLeg w role p s b = set_legs w (w_legs w ++ [mkLeg role p s b 0 None 0]).
Proof. unfold addLeg. by intros ->. Qed.

Lemma leg_app w legs role :
  leg (set_legs w (w_legs w ++ legs)) role =
  match leg w role with Some l => Some l | None => find_first (role_is role) legs end.
Proof. apply find_first_app. Qed.

Lemma inflow_app w legs a :
  inflow (set_legs w (w_legs w ++ legs)) a = inflow w a + sumZ (fun l => leg_in l a) legs.
Proof. apply sumZ_app. Qed.

Lemma outflow_app w legs a :
  outflow (set_legs w (w_legs w ++ legs)) a = outflow w a + sumZ (fun l => leg_out l a) legs.
Proof. apply sumZ_app. Qed.

(** * Trade: the balance of one contract

    [contract_ok] says, for every kind and stage of a contract, which legs it may
    have and how what it gave out relates to what it took: nothing while assets
    are collected, exactly the same once they are returned or delivered. The
    blocks of [plan] preserve it one by one. *)

(** ** Legs *)
Definition selection_ok (s : option TradeAssetSelection) : Prop :=
  match s with
  | Some v => 0 <= sel_amount v /\ Forall (fun e => 0 <= e.2) (sel_items v)
  | None => True
  end.

Lemma Bundle_nonneg s : selection_ok s -> bundle_nonneg (Bundle s).
Proof.
  destruct s as [v|]; [|by repeat constructor]. intros [Ha Hi]. split; simpl.
  - split_if; [repeat constructor; done|constructor].
  - rewrite sort_stable_perm. done.
Qed.

Definition debit_ok (l : TradeCommerceLeg) : Prop :=
  exists b, l_bundle l = Some b /\ bundle_nonneg b /\
    (l_outcome l = 2 -> exists b', Transfer (l_bundle l) (l_snapshot l) = Ok b').

Definition credit_ok (l : TradeCommerceLeg) : Prop :=
  exists b, l_bundle l = Some b /\ bundle_nonneg b.

Definition leg_ok (l : TradeCommerceLeg) : Prop :=
  (l_stream l = StreamDebit /\ debit_ok l) \/ (l_stream l = StreamCredit /\ credit_ok l).

Definition legs_ok (w : TradeCommerceWorkflow) : Prop :=
  NoDup (roles w) /\ forall l, l ∈ w_legs w -> leg_ok l.

(** Properties of the legs of a workflow. *)
Definition collecting (w : TradeCommerceWorkflow) : Prop :=
  forall l, l ∈ w_legs w -> l_stream l = StreamDebit.
Definition debits_in (R : list string) (w : TradeCommerceWorkflow) : Prop :=
  forall l, l ∈ w_legs w -> l_stream l = StreamDebit -> l_role l ∈ R.
Definition done_except (R : list string) (w : TradeCommerceWorkflow) : Prop :=
  forall l, l ∈ w_legs w -> l_stream l = StreamDebit -> l_role l ∉ R -> l_outcome l <> 0.
Definition credits_applied (w : TradeCommerceWorkflow) : Prop :=
  forall l, l ∈ w_legs w -> l_stream l = StreamCredit -> l_outcome l = 2.

Definition balanced (w : TradeCommerceWorkflow) : Prop := forall a, outflow w a = inflow w a.
Definition conserved (w : TradeCommerceWorkflow) : Prop := forall a, outflow w a <= inflow w a.

(** A contract that ended well handed everything out. *)
Definition ended (r : TradeCommerceRecord) (w : TradeCommerceWorkflow) : Prop :=
  r_status r = Settled \/ r_status r = Cancelled -> credits_applied w.

(** ** Kinds *)
Definition player_trade_inv (r : TradeCommerceRecord) (w : TradeCommerceWorkflow) : Prop :=
  debits_in ["seller_debit"; "buyer_debit"]%string w /\
  match w_stage w with
  | SOfferEscrow => collecting w /\ debits_in ["seller_debit"%string] w
  | SBuyerEscrow => collecting w /\ done_except ["buyer_debit"%string] w
  | SConfirm => collecting w /\ done_except [] w
  | SEscrow => collecting w
  | SDeliver | SReturn => done_except [] w /\ balanced w
  | SDone => done_except [] w /\ balanced w /\ ended r w
  | SManual => conserved w
  | _ => False
  end.

Definition buyer_role (n : Z) (role : string) : Prop :=
  exists i key, 1 <= i <= n /\ role = ("buyer_debit_" +:+ FormatUint i +:+ "_" +:+ key)%string.

Definition unpaid_except (R : list string) (w : TradeCommerceWorkflow) : Prop :=
  forall l, l ∈ w_legs w -> l_stream l = StreamDebit -> l_role l ∉ R ->
    l_outcome l <> 0 /\ l_outcome l <> 2.

(** The price of a consignment and the number of purchases tried. *)
Definition price_ok (price tried : Z) : Prop := 0 <= price /\ 0 <= tried.

Definition consignment_inv (r : TradeCommerceRecord) (w : TradeCommerceWorkflow) : Prop :=
  price_ok (r_unit_price r) (w_quantity_reserved w) /\
  (forall l, l ∈ w_legs w -> l_stream l = StreamDebit ->
     l_role l = "seller_debit"%string \/ buyer_role (w_quantity_reserved w) (l_role l)) /\
  match w_stage w with
  | SEscrow => collecting w /\ debits_in ["seller_debit"%string] w
  | SOpen => collecting w /\ applied (leg w "seller_debit") = true /\
             unpaid_except ["seller_debit"%string] w
  | SPay => collecting w /\ applied (leg w "seller_debit") = true /\
            exists l, l ∈ w_legs w /\ pay_leg w = Some l /\ l_role l <> "seller_debit"%string /\
              unpaid_except ["seller_debit"%string; l_role l] w
  | SDeliver | SReturn => done_except [] w /\ balanced w
  | SDone => done_except [] w /\ balanced w /\ ended r w
  | SManual => conserved w
  | _ => False
  end.

Definition currency_only (s : option TradeAssetSelection) : Prop :=
  forall v, s = Some v -> sel_uuids v = [] /\ sel_pet v = 0.

(** What the seller of a lot is paid, from the custody of the winning bid. *)
Definition lot_claim (w : TradeCommerceWorkflow) (a : asset) : Z :=
  if negb (w_highest_bidder w =? 0) && is_some (leg w "seller_receive")
  then worth_in (Bundle (w_buyer_assets w)) a else 0.

Definition lot_inv (r : TradeCommerceRecord) (w : TradeCommerceWorkflow) : Prop :=
  debits_in ["seller_debit"%string] w /\
  currency_only (w_buyer_assets w) /\
  match w_stage w with
  | SEscrow => collecting w
  | SLotOpen => collecting w /\ applied (leg w "seller_debit") = true
  | SDeliver | SReturn => done_except [] w /\ forall a, outflow w a = inflow w a + lot_claim w a
  | SDone => done_except [] w /\ (forall a, outflow w a = inflow w a + lot_claim w a) /\ ended r w
  | SManual => forall a, outflow w a <= inflow w a + lot_claim w a
  | _ => False
  end.

(** The leg [role] debits what the contract's creator offered. *)
Definition own_debit (w : TradeCommerceWorkflow) (role : string) : Prop :=
  forall l, leg w role = Some l ->
    l_stream l = StreamDebit /\ l_bundle l = Some (Bundle (w_seller_assets w)).

Definition bid_inv (r : TradeCommerceRecord) (w : TradeCommerceWorkflow) : Prop :=
  debits_in ["bid_debit"%string] w /\
  currency_only (w_seller_assets w) /\
  own_debit w "bid_debit" /\
  match w_stage w with
  | SBidFreeze => collecting w
  | SBidReady | SBidHeld | SBidRefund => collecting w /\ applied (leg w "bid_debit") = true
  | SReturn => done_except [] w /\ balanced w
  | SDone => done_except [] w /\ ended r w /\
      (balanced w \/ r_status r = Settled /\ collecting w /\ applied (leg w "bid_debit") = true)
  | SManual => conserved w
  | _ => False
  end.

(** One unit of a market order: the price of a buyer, an item of a seller. *)
Definition unit_worth (r : TradeCommerceRecord) (a : asset) : Z :=
  if r_side r =? 1 then if bool_decide (a = Cur (r_currency r)) then r_unit_price r else 0
  else if bool_decide (a = Itm (r_item_config r)) then 1 else 0.

Record order_terms (r : TradeCommerceRecord) (w : TradeCommerceWorkflow) : Prop := {
  ot_side : r_side r = 1 \/ r_side r = 2;
  ot_quantity : 0 < r_quantity r <= 4096;
  ot_price : 0 < r_unit_price r /\ r_unit_price r * r_quantity r <= MaxInt64;
  ot_filled : 0 <= r_filled r <= r_quantity r;
  ot_assets : forall a, worth_in (Bundle (w_seller_assets w)) a = r_quantity r * unit_worth r a }.

Definition order_remainder (r : TradeCommerceRecord) (w : TradeCommerceWorkflow) (a : asset) : Z :=
  if applied (leg w "seller_debit") then (r_quantity r - r_filled r) * unit_worth r a else 0.

Definition order_inv (r : TradeCommerceRecord) (w : TradeCommerceWorkflow) : Prop :=
  order_terms r w /\ debits_in ["seller_debit"%string] w /\
  own_debit w "seller_debit" /\
  (r_filled r = 0 \/ applied (leg w "seller_debit") = true) /\
  match w_stage w with
  | SEscrow => collecting w /\ r_filled r = 0
  | SMarketOpen => collecting w /\ applied (leg w "seller_debit") = true
  | SReturn | SMarketWait | SDone => done_except [] w /\ forall a, outflow w a = order_remainder r w a
  | SManual => forall a, outflow w a <= order_remainder r w a
  | _ => False
  end.

Definition child_inv (r : TradeCommerceRecord) (w : TradeCommerceWorkflow) : Prop :=
  debits_in [] w /\
  match w_stage w with
  | SDeliver | SManual => True
  | SDone => ended r w
  | _ => False
  end.

Definition official_inv (w : TradeCommerceWorkflow) : Prop :=
  debits_in [] w /\ (exists b, w_official_bundle w = Some b /\ bundle_nonneg b) /\
  match w_stage w with
  | SOfficialDeliver | SOfficialRefund | SDone | SManual => True
  | _ => False
  end.

(** A failed credit of a sale for real money is followed by a return. *)
Definition credit_failed (l : option TradeCommerceLeg) : Prop :=
  match l with Some l => l_outcome l <> 0 /\ l_outcome l <> 2 | None => True end.

Definition backed_by_seller (w : TradeCommerceWorkflow) (role : string) : Prop :=
  forall l, leg w role = Some l -> applied (leg w "seller_debit") = true /\
    forall a, leg_out l a = opt_in (leg w "seller_debit") a.

Definition rmb_inv (r : TradeCommerceRecord) (w : TradeCommerceWorkflow) : Prop :=
  debits_in ["seller_debit"%string] w /\
  (forall l, l ∈ w_legs w -> l_stream l = StreamCredit ->
     l_role l ∈ ["seller_return"; "rmb_buyer_credit"]%string) /\
  backed_by_seller w "seller_return" /\ backed_by_seller w "rmb_buyer_credit" /\
  match w_stage w with
  | SRmbFreezing | SRmbEscrow => collecting w
  | SRmbReady | SRmbRegistering | SRmbListed => collecting w /\ done_except [] w
  | SRmbDelivery | SRmbDelivered => done_except [] w /\ leg w "seller_return" = None
  | SRmbRefund => done_except [] w /\ leg w "seller_return" = None /\
      credit_failed (leg w "rmb_buyer_credit")
  | SRmbReturn => credit_failed (leg w "rmb_buyer_credit")
  | SRmbReturned => credit_failed (leg w "rmb_buyer_credit")
  | SManual => leg w "seller_return" = None \/ credit_failed (leg w "rmb_buyer_credit")
  | _ => False
  end.

Definition kind_inv (r : TradeCommerceRecord) (w : TradeCommerceWorkflow) : Prop :=
  if r_kind r =? OfficialKind then official_inv w
  else if r_kind r =? PlayerTradeKind then player_trade_inv r w
  else if r_kind r =? ConsignmentKind then consignment_inv r w
  else if r_kind r =? MarketKind then if r_side r =? 0 then child_inv r w else order_inv r w
  else if r_kind r =? LotKind then lot_inv r w
  else if r_kind r =? RmbKind then rmb_inv r w
  else if r_kind r =? BidKind then bid_inv r w
  else False.

Record contract_ok (r : TradeCommerceRecord) (w : TradeCommerceWorkflow) : Prop := {
  co_legs : legs_ok w;
  co_seller : selection_ok (w_seller_assets w);
  co_buyer : selection_ok (w_buyer_assets w);
  co_kind : kind_inv r w }.

(** ** Consequences of the shape of the legs *)
Lemma leg_ok_stream l : leg_ok l -> l_stream l = StreamDebit \/ l_stream l = StreamCredit.
Proof. intros [[? _]|[? _]]; auto. Qed.

Lemma leg_in_credit l a : l_stream l = StreamCredit -> leg_in l a = 0.
Proof. unfold leg_in. by intros ->. Qed.

Lemma leg_in_unapplied l a : l_outcome l <> 2 -> leg_in l a = 0.
Proof. unfold leg_in. intros H. by rewrite (proj2 (Z.eqb_neq _ _) H), andb_false_r. Qed.

Lemma leg_out_debit l a : l_stream l = StreamDebit -> leg_out l a = 0.
Proof. unfold leg_out. by intros ->. Qed.

Lemma leg_in_nonneg l a : leg_ok l -> 0 <= leg_in l a.
Proof.
  unfold leg_in. intros [[Hs (b & -> & Hb & _)]|[Hs (b & -> & Hb)]];
    (split_if; [by apply worth_in_nonneg|lia]).
Qed.

Lemma inflow_nonneg w a : legs_ok w -> 0 <= inflow w a.
Proof. intros [_ H]. apply sumZ_nonneg. auto using leg_in_nonneg. Qed.

Lemma collecting_outflow w a : collecting w -> outflow w a = 0.
Proof. intros H. apply sumZ_0. auto using leg_out_debit. Qed.

Lemma collecting_conserved w : legs_ok w -> collecting w -> conserved w.
Proof. intros Hl Hc a. rewrite collecting_outflow by done. by apply inflow_nonneg. Qed.

Lemma collecting_leg_None R w role :
  collecting w -> debits_in R w -> role ∉ R -> leg w role = None.
Proof.
  intros Hc Hd Hr. destruct (leg w role) as [l|] eqn:Hl; [|done].
  apply leg_Some in Hl as [Hl <-]. destruct Hr. auto.
Qed.

Lemma collecting_leg_stream w role l :
  collecting w -> leg w role = Some l -> l_stream l = StreamDebit.
Proof. intros Hc [Hl _]%leg_Some. auto. Qed.

Lemma inflow_by_role R w a :
  NoDup R -> NoDup (roles w) ->
  (forall l, l ∈ w_legs w -> l_role l ∉ R -> leg_in l a = 0) ->
  inflow w a = sumZ (fun r => opt_in (leg w r) a) R.
Proof. intros HR Hnd Hf. apply (sum_by_role (fun l => leg_in l a)); auto. Qed.

(** The inflow is the debits of the roles the contract has. *)
Lemma inflow_debits R w a :
  NoDup R -> legs_ok w -> debits_in R w -> inflow w a = sumZ (fun r => opt_in (leg w r) a) R.
Proof.
  intros HR [Hnd Hok] Hd. apply inflow_by_role; [done..|]. intros l Hl Hr.
  destruct (leg_ok_stream l (Hok l Hl)) as [Hs|Hs]; [|by apply leg_in_credit].
  destruct Hr. auto.
Qed.

(** ** Growing a contract by credits *)
Definition fresh_credit (l : TradeCommerceLeg) : Prop :=
  l_stream l = StreamCredit /\ l_op l = 0 /\ l_outcome l = 0 /\ credit_ok l.

Definition grows (w w' : TradeCommerceWorkflow) (cs : list TradeCommerceLeg) : Prop :=
  w' = set_legs w (w_legs w ++ cs) /\ (forall c, c ∈ cs -> fresh_credit c) /\
  NoDup (l_role <$> cs) /\ (forall c, c ∈ cs -> leg w (l_role c) = None).

Lemma grows_nil w : grows w w [].
Proof.
  split_and!; [|set_solver|constructor|set_solver]. rewrite app_nil_r. by destruct w.
Qed.

Lemma grows_one w role to b :
  leg w role = None -> bundle_nonneg b ->
  grows w (addLeg w role to StreamCredit (Some b)) [mkLeg role to StreamCredit (Some b) 0 None 0].
Proof.
  intros Hl Hb. rewrite addLeg_fresh by done. split_and!; [done|..].
  - intros c ->%list_elem_of_singleton. split_and!; [done..|]. by exists b.
  - apply NoDup_singleton.
  - by intros c ->%list_elem_of_singleton.
Qed.

Lemma grows_trans w w1 w2 c1 c2 : grows w w1 c1 -> grows w1 w2 c2 -> grows w w2 (c1 ++ c2).
Proof.
  intros (-> & Hf1 & Hn1 & Hl1) (-> & Hf2 & Hn2 & Hl2). split_and!.
  - cbn. by rewrite app_assoc.
  - intros c [?|?]%elem_of_app; auto.
  - rewrite fmap_app. apply NoDup_app. split_and!; [done| |done].
    intros r (c & -> & Hc)%list_elem_of_fmap (c' & Heq & Hc')%list_elem_of_fmap.
    specialize (Hl2 c' Hc'). rewrite leg_app in Hl2. rewrite <- Heq in Hl2.
    destruct (leg w (l_role c)); [done|]. apply find_role_None in Hl2. apply Hl2.
    by apply list_elem_of_fmap_2.
  - intros c [Hc|Hc]%elem_of_app; [auto|]. specialize (Hl2 c Hc). rewrite leg_app in Hl2.
    by destruct (leg w (l_role c)).
Qed.

Section grows.
Context (w w' : TradeCommerceWorkflow) (cs : list TradeCommerceLeg) (Hg : grows w w' cs).

Lemma grows_leg role : role ∉ l_role <$> cs -> leg w' role = leg w role.
Proof using Hg.
  intros Hr. destruct Hg as (-> & _). rewrite leg_app. apply find_role_None in Hr as ->.
  by destruct (leg w role).
Qed.

Lemma grows_leg_have role l : leg w role = Some l -> leg w' role = Some l.
Proof using Hg. destruct Hg as (-> & _). rewrite leg_app. by intros ->. Qed.

Lemma grows_legs_ok : legs_ok w -> legs_ok w'.
Proof using Hg.
  destruct Hg as (-> & Hf & Hn & Hl). intros [Hnd Hok]. split.
  - unfold roles. cbn. rewrite fmap_app. apply NoDup_app. split_and!; [done| |done].
    intros r Hr (c & -> & Hc)%list_elem_of_fmap. by apply (proj1 (leg_None w _) (Hl c Hc)).
  - intros l [?|Hc]%elem_of_app; [auto|]. right. destruct (Hf l Hc) as (? & _ & _ & ?). auto.
Qed.

Lemma grows_inflow a : inflow w' a = inflow w a.
Proof using Hg.
  destruct Hg as (-> & Hf & _). rewrite inflow_app, (sumZ_0 _ cs); [lia|].
  intros c Hc. apply leg_in_credit. by destruct (Hf c Hc).
Qed.

Lemma grows_outflow a : outflow w' a = outflow w a + sumZ (fun l => leg_out l a) cs.
Proof using Hg. destruct Hg as (-> & _). apply outflow_app. Qed.

Lemma grows_debits_in R : debits_in R w -> debits_in R w'.
Proof using Hg.
  destruct Hg as (-> & Hf & _). intros Hd l [?|Hc]%elem_of_app Hs; [auto|].
  destruct (Hf l Hc) as [Hs' _]. by rewrite Hs in Hs'.
Qed.

Lemma grows_done R : done_except R w -> done_except R w'.
Proof using Hg.
  destruct Hg as (-> & Hf & _). intros Hd l [?|Hc]%elem_of_app Hs; [auto|].
  destruct (Hf l Hc) as [Hs' _]. by rewrite Hs in Hs'.
Qed.
End grows.

(** A transfer of an applied debit is one credit of the same worth. *)
Lemma transferLeg_grows w w' role to d :
  leg_ok d -> leg w role = None -> transferLeg w role to (Some d) = Ok w' ->
  exists c, grows w w' [c] /\ l_role c = role /\ l_player c = to /\
    (l_stream d = StreamDebit -> l_outcome d = 2 -> forall a, leg_out c a = leg_in d a).
Proof.
  intros Hd Hl (b & Hb & [= <-])%bind_Ok.
  pose proof (Transfer_Ok _ _ _ Hb) as (b0 & Hb0 & Hc & Hi & _).
  assert (Hn : bundle_nonneg b).
  { unfold bundle_nonneg. rewrite Hc, Hi.
    destruct Hd as [[_ (b1 & H1 & ? & _)]|[_ (b1 & H1 & ?)]]; by simplify_eq. }
  eexists. split; [by apply grows_one|]. split_and!; [done..|]. intros Hs Ho a.
  unfold leg_out, leg_in. cbn. rewrite Hs, Ho. cbn. by rewrite (Transfer_worth _ _ _ a Hb), Hb0.
Qed.

Lemma opt_in_unapplied l a : applied l = false -> opt_in l a = 0.
Proof.
  destruct l as [l|]; [|done]. cbn. intros H%Z.eqb_neq. by apply leg_in_unapplied.
Qed.

Lemma applied_Some l : applied l = true -> exists d, l = Some d /\ l_outcome d = 2.
Proof. destruct l as [d|]; [|done]. cbn. intros ?%Z.eqb_eq. eauto. Qed.

Lemma done_Some l : done l = true -> exists d, l = Some d /\ l_outcome d <> 0.
Proof. destruct l as [d|]; [|done]. cbn. intros ?%negb_true_iff%Z.eqb_neq. eauto. Qed.

(** [return_leg]: one credit if the debit was applied, worth it in any case. *)
Lemma return_leg_grows w w' role to from :
  (forall d, from = Some d -> leg_ok d /\ l_stream d = StreamDebit) ->
  leg w role = None -> return_leg w role to from = Ok w' ->
  exists cs, grows w w' cs /\ (forall c, c ∈ cs -> l_role c = role) /\
    forall a, sumZ (fun l => leg_out l a) cs = opt_in from a.
Proof.
  unfold return_leg. intros Hok Hl. destruct (applied from) eqn:Ha.
  - apply applied_Some in Ha as (d & -> & Ho). destruct (Hok d eq_refl) as [Hd Hs]. intros Ht.
    apply transferLeg_grows in Ht as (c & Hg & Hr & _ & Hw); [|done..].
    exists [c]. split_and!; [done|by intros ? ->%list_elem_of_singleton|].
    intros a. simpl. rewrite Hw by done. lia.
  - intros [= <-]. exists []. split_and!; [apply grows_nil|set_solver|].
    intros a. by rewrite opt_in_unapplied.
Qed.
