(* ===== verification/CommercePlanThms.v ===== *)
(** * Trade: planning keeps the balance

    Every block of [plan], and [planRmb], preserves [contract_ok] and changes of a
    contract only its status, its buyer, its stage and its cancel flag, and adds
    legs ([planned]). *)

From stdpp Require Import base list gmap strings.
From Stdlib Require Import ZArith Lia.
From S2P Require Import Prelude CommerceData CommercePlan CommerceInv.
Local Open Scope Z_scope.

(** ** What planning may change *)
Definition fresh_leg (l : TradeCommerceLeg) : Prop := l_op l = 0 /\ l_outcome l = 0.

Definition planned (r : TradeCommerceRecord) (w : TradeCommerceWorkflow)
    (r' : TradeCommerceRecord) (w' : TradeCommerceWorkflow) : Prop :=
  (exists s b, r' = set_r_status (set_r_buyer r b) s /\ (b = r_buyer r \/ b = 0)) /\
  exists st cancel legs,
    w' = set_stage (set_cancel_requested (set_legs w (w_legs w ++ legs)) cancel) st /\
    (w_cancel_requested w = true -> cancel = true) /\ forall l, l ∈ legs -> fresh_leg l.

Lemma planned_refl r w : planned r w r w.
Proof.
  split.
  - exists (r_status r), (r_buyer r). split; [by destruct r|auto].
  - exists (w_stage w), (w_cancel_requested w), []. rewrite app_nil_r.
    split_and!; [by destruct w|done|set_solver].
Qed.

Lemma planned_trans r w r1 w1 r2 w2 : planned r w r1 w1 -> planned r1 w1 r2 w2 -> planned r w r2 w2.
Proof.
  intros [(s1 & b1 & -> & H1) (st1 & c1 & l1 & -> & Hc1 & Hl1)]
         [(s2 & b2 & -> & H2) (st2 & c2 & l2 & -> & Hc2 & Hl2)]. split.
  - exists s2, b2. split; [done|]. cbn in H2. destruct H2 as [->| ->]; auto.
  - exists st2, c2, (l1 ++ l2). cbn. rewrite app_assoc. split_and!; [done|auto|].
    intros l [?|?]%elem_of_app; auto.
Qed.

Lemma planned_kind r w r' w' : planned r w r' w' -> r_kind r' = r_kind r /\ r_side r' = r_side r.
Proof. by intros [(s & b & -> & _) _]. Qed.

(** ** Invariants along the blocks *)
Definition flow_inv (I : TradeCommerceRecord -> TradeCommerceWorkflow -> Prop) (f : flow) : Prop :=
  match f with Next r w => I r w | Return r w => I r w | Fail _ => True end.

Lemma then_inv I f k :
  flow_inv I f -> (forall r w, I r w -> flow_inv I (k r w)) -> flow_inv I (f >>> k).
Proof. destruct f; simpl; auto. Qed.

Lemma flow_inv_impl (I J : TradeCommerceRecord -> TradeCommerceWorkflow -> Prop) f :
  (forall r w, I r w -> J r w) -> flow_inv I f -> flow_inv J f.
Proof. destruct f; simpl; auto. Qed.

Lemma of_res_inv (I : TradeCommerceRecord -> TradeCommerceWorkflow -> Prop) m :
  (forall c, m = Ok c -> I c.1 c.2) -> flow_inv I (of_res m).
Proof. destruct m; simpl; auto. Qed.

Definition keeps (r : TradeCommerceRecord) (w : TradeCommerceWorkflow) : flow -> Prop :=
  flow_inv (fun r' w' => contract_ok r' w' /\ planned r w r' w').

Definition keeping (block : TradeCommerceRecord -> TradeCommerceWorkflow -> flow) : Prop :=
  forall r w, contract_ok r w -> keeps r w (block r w).

Lemma keeps_then r w f block : keeps r w f -> keeping block -> keeps r w (f >>> block).
Proof.
  intros Hf Hb. apply then_inv; [done|]. intros r1 w1 [Hok Hp].
  eapply flow_inv_impl; [|apply (Hb r1 w1 Hok)]. intros r2 w2 [Hok2 Hp2].
  split; [done|]. by eapply planned_trans.
Qed.

Lemma keeps_next r w : contract_ok r w -> keeps r w (Next r w).
Proof. split; [done|apply planned_refl]. Qed.

(** ** Kinds and stages *)
Ltac kind_cases H :=
  unfold kind_inv in H;
  repeat match type of H with
         | context [if ?c then _ else _] => destruct c eqn:?
         end;
  unfold official_inv, player_trade_inv, consignment_inv, child_inv, order_inv, lot_inv, rmb_inv,
    bid_inv in H.

Lemma kind_official r w : r_kind r = OfficialKind -> kind_inv r w = official_inv w.
Proof. unfold kind_inv. by intros ->. Qed.
Lemma kind_player r w : r_kind r = PlayerTradeKind -> kind_inv r w = player_trade_inv r w.
Proof. unfold kind_inv. by intros ->. Qed.
Lemma kind_consignment r w : r_kind r = ConsignmentKind -> kind_inv r w = consignment_inv r w.
Proof. unfold kind_inv. by intros ->. Qed.
Lemma kind_child r w : r_kind r = MarketKind -> r_side r = 0 -> kind_inv r w = child_inv r w.
Proof. unfold kind_inv. by intros -> ->. Qed.
Lemma kind_order r w : r_kind r = MarketKind -> r_side r <> 0 -> kind_inv r w = order_inv r w.
Proof. unfold kind_inv. intros -> H. cbn. by rewrite (proj2 (Z.eqb_neq _ _) H). Qed.
Lemma kind_lot r w : r_kind r = LotKind -> kind_inv r w = lot_inv r w.
Proof. unfold kind_inv. by intros ->. Qed.
Lemma kind_rmb r w : r_kind r = RmbKind -> kind_inv r w = rmb_inv r w.
Proof. unfold kind_inv. by intros ->. Qed.
Lemma kind_bid r w : r_kind r = BidKind -> kind_inv r w = bid_inv r w.
Proof. unfold kind_inv. by intros ->. Qed.

(** The kind of a contract is one of eight, each with its invariant. *)
Lemma contract_kind r w : contract_ok r w ->
  (r_kind r = OfficialKind /\ official_inv w) \/
  (r_kind r = PlayerTradeKind /\ player_trade_inv r w) \/
  (r_kind r = ConsignmentKind /\ consignment_inv r w) \/
  (r_kind r = MarketKind /\ r_side r = 0 /\ child_inv r w) \/
  (r_kind r = MarketKind /\ r_side r <> 0 /\ order_inv r w) \/
  (r_kind r = LotKind /\ lot_inv r w) \/
  (r_kind r = RmbKind /\ rmb_inv r w) \/
  (r_kind r = BidKind /\ bid_inv r w).
Proof.
  intros [_ _ _ Hk]. unfold kind_inv in Hk.
  repeat match type of Hk with context [if ?c then _ else _] => destruct c eqn:? end; zbool; try done; tauto.
Qed.

(** Case analysis on the kind at a known stage: the impossible kinds go away. *)
Ltac by_kind Hok Hst :=
  let H := fresh "Hk" in
  pose proof (contract_kind _ _ Hok) as H;
  destruct H as [[? H]|[[? H]|[[? H]|[[? [? H]]|[[? [? H]]|[[? H]|[[? H]|[? H]]]]]]]];
  unfold official_inv, player_trade_inv, consignment_inv, child_inv, order_inv, lot_inv, rmb_inv,
    bid_inv in H; rewrite Hst in H; destruct_and?; try done; try contradiction;
  try (exfalso; match goal with
       | H1 : r_kind ?r = _, H2 : r_kind ?r = _ |- _ => rewrite H1 in H2; discriminate H2
       end).

(** ** Growing by a debit *)
Section debit.
Context (w : TradeCommerceWorkflow) (role : string) (player : Z) (s : option TradeAssetSelection).
Let w' := addLeg w role player StreamDebit (Some (Bundle s)).

Lemma debit_legs l : l ∈ w_legs w' ->
  l ∈ w_legs w \/ (leg w role = None /\ l = mkLeg role player StreamDebit (Some (Bundle s)) 0 None 0).
Proof.
  unfold w', addLeg. destruct (leg w role) eqn:Hl; [auto|]. cbn.
  intros [?| ->%list_elem_of_singleton]%elem_of_app; auto.
Qed.

Lemma debit_legs_ok : legs_ok w -> selection_ok s -> legs_ok w'.
Proof.
  intros [Hnd Hok] Hs. split.
  - unfold w', addLeg. destruct (leg w role) eqn:Hl; [done|]. unfold roles. cbn. rewrite fmap_app.
    apply NoDup_app. split_and!; [done| |apply NoDup_singleton].
    intros r Hr ->%list_elem_of_singleton. by apply (proj1 (leg_None w role) Hl).
  - intros l [?|[_ ->]]%debit_legs; [auto|]. left. split; [done|]. eexists. split_and!; [done| |done].
    by apply Bundle_nonneg.
Qed.

Lemma debit_collecting : collecting w -> collecting w'.
Proof. intros Hc l [?|[_ ->]]%debit_legs; auto. Qed.

Lemma debit_debits_in R : role ∈ R -> debits_in R w -> debits_in R w'.
Proof. intros Hr Hd l [?|[_ ->]]%debit_legs Hs; auto. Qed.

Lemma debit_done R : role ∈ R -> done_except R w -> done_except R w'.
Proof. intros Hr Hd l [?|[_ ->]]%debit_legs Hs; [auto|]. done. Qed.

Lemma debit_leg role' : role' <> role -> leg w' role' = leg w role'.
Proof.
  intros Hr. unfold w', addLeg. destruct (leg w role) eqn:Hl; [done|]. rewrite leg_app.
  cbn. rewrite role_is_false by (cbn; congruence). by destruct (leg w role').
Qed.

Lemma debit_planned r : planned r w r w'.
Proof.
  unfold w', addLeg. destruct (leg w role); [apply planned_refl|]. split.
  - exists (r_status r), (r_buyer r). split; [by destruct r|auto].
  - eexists (w_stage w), (w_cancel_requested w), [_]. split_and!; [by destruct w|done|].
    intros l ->%list_elem_of_singleton. done.
Qed.
End debit.

(** All debits of the named roles are done. *)
Lemma done_by_roles R w :
  legs_ok w -> debits_in R w -> (forall role, role ∈ R -> is_Some (leg w role) -> done (leg w role) = true) ->
  done_except [] w.
Proof.
  intros [Hnd _] Hd HR l Hl Hs _. pose proof (leg_in_legs w l Hnd Hl) as Hf.
  specialize (HR (l_role l) (Hd l Hl Hs) ltac:(eauto)). rewrite Hf in HR.
  cbn in HR. by apply negb_true_iff, Z.eqb_neq in HR.
Qed.

Lemma legs_ok_leg w role l : legs_ok w -> leg w role = Some l -> leg_ok l.
Proof. intros [_ H] [Hl _]%leg_Some. auto. Qed.

(** Setting fields and adding credits is planning. *)
Lemma planned_grows r w w' cs s st :
  grows w w' cs -> planned r w (set_r_status r s) (set_stage w' st).
Proof.
  intros (-> & Hf & _). split.
  - exists s, (r_buyer r). split; [by destruct r|auto].
  - exists st, (w_cancel_requested w), cs. split_and!; [by destruct w|done|].
    intros l Hl. destruct (Hf l Hl) as (_ & ? & ? & _). done.
Qed.

Lemma planned_stage_grows r w w' cs s st :
  grows (set_stage w st) w' cs -> planned r w (set_r_status r s) w'.
Proof.
  intros (-> & Hf & _). split.
  - exists s, (r_buyer r). split; [by destruct r|auto].
  - exists st, (w_cancel_requested w), cs. split_and!; [by destruct w|done|].
    intros l Hl. destruct (Hf l Hl) as (_ & ? & ? & _). done.
Qed.

Lemma nodup_roles (R : list string) : bool_decide (NoDup R) = true -> NoDup R.
Proof. apply bool_decide_eq_true_1. Qed.

(** A credit role of a contract whose debits have other roles is free. *)
Lemma credit_role_free R w role :
  collecting w -> debits_in R w -> bool_decide (role ∈ R) = false -> leg w role = None.
Proof. intros Hc Hd Hr%bool_decide_eq_false_1. by eapply collecting_leg_None. Qed.

Lemma addLeg_other w role p s b role' : role' <> role -> leg (addLeg w role p s b) role' = leg w role'.
Proof.
  intros Hr. unfold addLeg. destruct (leg w role); [done|]. rewrite leg_app. cbn.
  rewrite role_is_false by (cbn; congruence). by destruct (leg w role').
Qed.

Lemma transferLeg_other w role to from w' role' :
  transferLeg w role to from = Ok w' -> role' <> role -> leg w' role' = leg w role'.
Proof.
  destruct from as [d|]; [|done]. intros (b & _ & [= <-])%bind_Ok. apply addLeg_other.
Qed.

Lemma return_leg_other w role to from w' role' :
  return_leg w role to from = Ok w' -> role' <> role -> leg w' role' = leg w role'.
Proof. unfold return_leg. split_if; [apply transferLeg_other|by intros [= <-]]. Qed.

(** Two custodies are handed out in full, in whatever direction. *)
Lemma release_pair r1 r2 d1 d2 w w1 w2 p1 p2 :
  bool_decide (NoDup [r1; r2; d1; d2]) = true ->
  legs_ok w -> collecting w -> debits_in [d1; d2] w ->
  return_leg w r1 p1 (leg w d1) = Ok w1 ->
  return_leg w1 r2 p2 (leg w d2) = Ok w2 ->
  exists cs, grows w w2 cs /\ balanced w2.
Proof.
  intros Hnd%bool_decide_eq_true_1 Hl Hc Hd H1 H2.
  assert (Hdis : r1 ∉ [r2; d1; d2] /\ r2 ∉ [d1; d2] /\ NoDup [d1; d2])
    by (by apply NoDup_cons in Hnd as [? [? ?]%NoDup_cons]).
  destruct Hdis as (Hr1 & Hr2 & Hdd).
  assert (Hfrom : forall role d, leg w role = Some d -> leg_ok d /\ l_stream d = StreamDebit).
  { intros role d Hd'. split; [by eapply legs_ok_leg|by eapply collecting_leg_stream]. }
  assert (Hf1 : leg w r1 = None) by (eapply collecting_leg_None; [done..|set_solver]).
  assert (Hf2 : leg w1 r2 = None).
  { rewrite (return_leg_other _ _ _ _ _ _ H1) by set_solver. by eapply collecting_leg_None. }
  apply return_leg_grows in H1 as (c1 & Hg1 & _ & Hw1); [|by apply Hfrom|done].
  apply return_leg_grows in H2 as (c2 & Hg2 & _ & Hw2); [|by apply Hfrom|done].
  exists (c1 ++ c2). pose proof (grows_trans _ _ _ _ _ Hg1 Hg2) as Hg. split; [done|]. intros a.
  rewrite (grows_outflow _ _ _ Hg), (grows_inflow _ _ _ Hg), collecting_outflow by done.
  rewrite (inflow_debits [d1; d2]) by done. rewrite sumZ_app, Hw1, Hw2. simpl. lia.
Qed.

(** What one party handed over goes to [to]. *)
Lemma return_one w w' role to rd :
  legs_ok w -> collecting w -> debits_in [rd] w -> rd <> role ->
  return_leg w role to (leg w rd) = Ok w' ->
  exists cs, grows w w' cs /\ balanced w' /\ forall c, c ∈ cs -> l_role c = role.
Proof.
  intros Hl Hc Hd Hne H.
  apply return_leg_grows in H as (cs & Hg & Hr & Hw); cycle 1.
  { intros d Hd'. split; [by eapply legs_ok_leg|by eapply collecting_leg_stream]. }
  { eapply collecting_leg_None; [done..|]. by intros ->%list_elem_of_singleton. }
  exists cs. split_and!; [done| |done]. intros a.
  rewrite (grows_outflow _ _ _ Hg), (grows_inflow _ _ _ Hg), collecting_outflow by done.
  rewrite (inflow_debits [rd]) by (done || apply NoDup_singleton). rewrite Hw. simpl. lia.
Qed.

Lemma flag_if (b : bool) w :
  (if b then set_cancel_requested w true else w) = set_cancel_requested w (b || w_cancel_requested w).
Proof. destruct b; by destruct w. Qed.

Lemma planned_set r w s st b :
  planned r w (set_r_status r s) (set_stage (set_cancel_requested w (b || w_cancel_requested w)) st).
Proof.
  split.
  - exists s, (r_buyer r). split; [by destruct r|auto].
  - exists st, (b || w_cancel_requested w), []. rewrite app_nil_r.
    split_and!; [by destruct w|intros ->; by rewrite orb_true_r|set_solver].
Qed.

Lemma planned_stage r w s st : planned r w (set_r_status r s) (set_stage w st).
Proof. eapply planned_grows, grows_nil. Qed.

(** The workflow after a debit was asked for. *)
Record debited (r : TradeCommerceRecord) (w w1 : TradeCommerceWorkflow) : Prop := {
  db_legs : legs_ok w1;
  db_collecting : collecting w -> collecting w1;
  db_planned : planned r w r w1;
  db_seller : w_seller_assets w1 = w_seller_assets w;
  db_buyer : w_buyer_assets w1 = w_buyer_assets w;
  db_stage : w_stage w1 = w_stage w;
  db_reserved : w_quantity_reserved w1 = w_quantity_reserved w }.

Lemma debited_add r w role player s :
  legs_ok w -> selection_ok s ->
  debited r w (addLeg w role player StreamDebit (Some (Bundle s))).
Proof.
  intros Hl Hs. constructor.
  - by apply debit_legs_ok.
  - apply debit_collecting.
  - apply debit_planned.
  - unfold addLeg. by destruct (leg w role).
  - unfold addLeg. by destruct (leg w role).
  - unfold addLeg. by destruct (leg w role).
  - unfold addLeg. by destruct (leg w role).
Qed.

(** A contract that took nothing and gave nothing. *)
Lemma nothing_balanced R w :
  NoDup R -> legs_ok w -> collecting w -> debits_in R w ->
  (forall role, role ∈ R -> applied (leg w role) = false) -> balanced w.
Proof.
  intros HR Hl Hc Hd Hn a. rewrite collecting_outflow, (inflow_debits R) by done.
  symmetry. apply sumZ_0. intros role Hr. by apply opt_in_unapplied, Hn.
Qed.

Lemma collecting_ended r w : collecting w -> ended r w.
Proof. intros Hc _ l Hin Hcr. rewrite (Hc l Hin) in Hcr. done. Qed.

Lemma collecting_grown r w w' st :
  w_legs w' = w_legs w -> collecting w -> collecting (set_stage w' st) /\ planned r w r w.
Proof. intros Hw Hc. split; [unfold collecting; cbn; by rewrite Hw|apply planned_refl]. Qed.

(** ** The blocks *)
Lemma keeps_official : keeping plan_official.
Proof.
  intros r w Hok. unfold plan_official, stage_is. case_bool_decide as Hst; [|by apply keeps_next].
  by_kind Hok Hst. destruct Hok as [Hl Hs Hb _].
  match goal with H : exists b, _ |- _ => destruct H as (b & Hob & Hnn) end.
  set (w1 := addLeg w "official_credit" (r_buyer r) StreamCredit (w_official_bundle w)).
  assert (Hw1 : legs_ok w1 /\ debits_in [] w1 /\ w_official_bundle w1 = Some b /\
                forall s st, planned r w (set_r_status r s) (set_stage w1 st)).
  { unfold w1. rewrite Hob. destruct (leg w "official_credit") as [l|] eqn:Hleg.
    - rewrite (addLeg_have _ _ _ _ _ _ Hleg). split_and!; [done..|]. intros s st.
      eapply planned_grows, grows_nil.
    - pose proof (grows_one w _ (r_buyer r) b Hleg Hnn) as Hg. split_and!.
      + by eapply grows_legs_ok.
      + by eapply grows_debits_in.
      + destruct Hg as (-> & _). done.
      + intros s st. by eapply planned_grows. }
  destruct Hw1 as (Hl1 & Hd1 & Hob1 & Hp1).
  assert (Hsel : w_seller_assets w1 = w_seller_assets w /\ w_buyer_assets w1 = w_buyer_assets w
                 /\ w_stage w1 = w_stage w).
  { unfold w1, addLeg. by destruct (leg w "official_credit"). }
  destruct Hsel as (Hs1 & Hb1 & Hst1).
  assert (Hkeep : forall s st, (match st with SOfficialDeliver | SOfficialRefund | SDone | SManual => True
                               | _ => False end) ->
    contract_ok (set_r_status r s) (set_stage w1 st) /\ planned r w (set_r_status r s) (set_stage w1 st)).
  { intros s st Hstage. split; [|done]. constructor; [done|cbn; by rewrite Hs1|cbn; by rewrite Hb1|].
    rewrite kind_official by done. split_and!; [done|by exists b|done]. }
  destruct (negb (done (leg w1 "official_credit"))).
  - specialize (Hkeep (r_status r) SOfficialDeliver I).
    assert (Hr : set_r_status r (r_status r) = r) by (by destruct r).
    assert (Hw : set_stage w1 SOfficialDeliver = w1) by (rewrite <- Hst, <- Hst1; by destruct w1).
    rewrite Hr, Hw in Hkeep. done.
  - destruct (applied (leg w1 "official_credit")); by apply Hkeep.
Qed.

Lemma keeps_offer_escrow p : keeping (plan_offer_escrow p).
Proof.
  intros r w Hok. unfold plan_offer_escrow, stage_is. case_bool_decide as Hst; [|by apply keeps_next].
  by_kind Hok Hst. destruct Hok as [Hl Hs Hb _].
  set (w1 := addLeg w "seller_debit" (r_seller r) StreamDebit (Some (Bundle (w_seller_assets w)))).
  destruct (debited_add r w "seller_debit" (r_seller r) _ Hl Hs) as [Hl1 Hc1 Hp1 Hs1 Hb1 Hst1 _].
  fold w1 in Hl1, Hc1, Hp1, Hs1, Hb1, Hst1. specialize (Hc1 ltac:(done)). rewrite Hst in Hst1.
  assert (Hd1 : debits_in ["seller_debit"%string] w1) by (apply debit_debits_in; [set_solver|done]).
  assert (Hd2 : debits_in ["seller_debit"; "buyer_debit"]%string w1)
    by (apply debit_debits_in; [set_solver|done]).
  destruct (done (leg w1 "seller_debit")) eqn:Hdone; simpl.
  2: { split; [|done]. constructor; [done|by rewrite Hs1|by rewrite Hb1|].
       rewrite kind_player by done. split; [done|]. by rewrite Hst1. }
  assert (Hall : done_except [] w1).
  { apply (done_by_roles ["seller_debit"%string]); [done..|]. by intros role ->%list_elem_of_singleton _. }
  destruct (applied (leg w1 "seller_debit")) eqn:Happ; simpl.
  - rewrite flag_if. split; [|eapply planned_trans; [exact Hp1|apply planned_set]].
    constructor; [done|cbn; by rewrite Hs1|cbn; by rewrite Hb1|]. rewrite kind_player by done. done.
  - split; [|eapply planned_trans; [exact Hp1|apply planned_stage]].
    constructor; [done|cbn; by rewrite Hs1|cbn; by rewrite Hb1|].
    rewrite kind_player by done. split; [done|]. cbn. split_and!; [done| |by apply collecting_ended].
    apply (nothing_balanced ["seller_debit"%string]); [apply NoDup_singleton|done..|].
    by intros role ->%list_elem_of_singleton.
Qed.

Lemma keeps_buyer_escrow p : keeping (plan_buyer_escrow p).
Proof.
  intros r w Hok. unfold plan_buyer_escrow, stage_is. case_bool_decide as Hst; [|by apply keeps_next].
  by_kind Hok Hst. destruct Hok as [Hl Hs Hb _].
  set (w1 := addLeg w "buyer_debit" (r_buyer r) StreamDebit (Some (Bundle (w_buyer_assets w)))).
  destruct (debited_add r w "buyer_debit" (r_buyer r) _ Hl Hb) as [Hl1 Hc1 Hp1 Hs1 Hb1 Hst1 _].
  fold w1 in Hl1, Hc1, Hp1, Hs1, Hb1, Hst1. specialize (Hc1 ltac:(done)). rewrite Hst in Hst1.
  assert (Hd2 : debits_in ["seller_debit"; "buyer_debit"]%string w1)
    by (apply debit_debits_in; [set_solver|done]).
  assert (He1 : done_except ["buyer_debit"%string] w1) by (apply debit_done; [set_solver|done]).
  destruct (done (leg w1 "buyer_debit")) eqn:Hdone; simpl.
  2: { split; [|done]. constructor; [done|by rewrite Hs1|by rewrite Hb1|].
       rewrite kind_player by done. split; [done|]. by rewrite Hst1. }
  rewrite flag_if. split; [|eapply planned_trans; [exact Hp1|apply planned_set]].
  constructor; [done|cbn; by rewrite Hs1|cbn; by rewrite Hb1|]. rewrite kind_player by done.
  split; [done|]. cbn. split; [done|]. intros l Hin Hs' _.
  destruct (decide (l_role l = "buyer_debit"%string)) as [Hr|Hr].
  - destruct Hl1 as [Hnd _]. pose proof (leg_in_legs w1 l Hnd Hin) as Hf. rewrite Hr in Hf.
    rewrite Hf in Hdone. cbn in Hdone. by apply negb_true_iff, Z.eqb_neq in Hdone.
  - apply (He1 l); [done..|]. by intros ?%list_elem_of_singleton.
Qed.

Lemma keeps_confirm now : keeping (plan_confirm now).
Proof.
  intros r w Hok. unfold plan_confirm, stage_is. destruct (_ && _) eqn:Hc; [|by apply keeps_next].
  apply andb_true_iff in Hc as [[Hk2 Hst]%andb_true_iff _]. zbool.
  apply of_res_inv. intros [r2 w2] (w1 & H1 & (w2' & H2 & [= <- <-])%bind_Ok)%bind_Ok. cbn.
  by_kind Hok Hst. destruct Hok as [Hl Hs Hb _].
  change (leg (set_stage w SReturn) "seller_debit") with (leg w "seller_debit") in H1.
  destruct (release_pair "seller_return" "buyer_return" "seller_debit" "buyer_debit"
    (set_stage w SReturn) w1 w2' (r_seller r) (r_buyer r)) as (cs & Hg & Hbal); try done.
  { by rewrite <- H2, (return_leg_other _ _ _ _ _ _ H1). }
  split; [|by eapply planned_stage_grows].
  pose proof (grows_legs_ok _ _ _ Hg Hl) as Hl2.
  assert (Hfields : w_seller_assets w2' = w_seller_assets w /\ w_buyer_assets w2' = w_buyer_assets w /\
    w_stage w2' = SReturn) by (destruct Hg as (-> & _); done). destruct Hfields as (Hs2 & Hb2 & Hst2).
  constructor; [done|cbn; by rewrite Hs2|cbn; by rewrite Hb2|]. rewrite kind_player by done.
  split; [by eapply grows_debits_in|]. rewrite Hst2. split; [by eapply grows_done|done].
Qed.

Lemma own_debit_add w role player :
  own_debit w role ->
  own_debit (addLeg w role player StreamDebit (Some (Bundle (w_seller_assets w)))) role.
Proof.
  intros Hb l. destruct (leg w role) as [l0|] eqn:Hl.
  - rewrite (addLeg_have _ _ _ _ _ _ Hl), Hl. intros [= <-]. by apply Hb.
  - rewrite addLeg_fresh, leg_app, Hl by done. cbn. rewrite role_is_true by done. by intros [= <-].
Qed.

Lemma own_debit_eq w w' role :
  leg w' role = leg w role -> w_seller_assets w' = w_seller_assets w -> own_debit w role -> own_debit w' role.
Proof. unfold own_debit. by intros -> ->. Qed.

Lemma applied_done l : applied l = true -> done l = true.
Proof. intros (d & -> & Ho)%applied_Some. cbn. by rewrite Ho. Qed.

(** The one debit of a contract is done once it is applied. *)
Lemma done_one role w :
  legs_ok w -> debits_in [role] w -> done (leg w role) = true -> done_except [] w.
Proof.
  intros Hl Hd Ha. apply (done_by_roles [role]); [done..|]. by intros r ->%list_elem_of_singleton _.
Qed.

Lemma transfer_return w role to from :
  applied from = true -> transferLeg w role to from = return_leg w role to from.
Proof. unfold return_leg. by intros ->. Qed.

Ltac contract_build := constructor; [done|cbn; congruence|cbn; congruence|].

Lemma keeps_bid_freeze : keeping plan_bid_freeze.
Proof.
  intros r w Hok. unfold plan_bid_freeze, stage_is. case_bool_decide as Hst; [|by apply keeps_next].
  by_kind Hok Hst. destruct Hok as [Hl Hs Hb _].
  set (w1 := addLeg w "bid_debit" (r_seller r) StreamDebit (Some (Bundle (w_seller_assets w)))).
  destruct (debited_add r w "bid_debit" (r_seller r) _ Hl Hs) as [Hl1 Hc1 Hp1 Hs1 Hb1 Hst1 _].
  fold w1 in Hl1, Hc1, Hp1, Hs1, Hb1, Hst1. specialize (Hc1 ltac:(done)). rewrite Hst in Hst1.
  assert (Hd1 : debits_in ["bid_debit"%string] w1) by (apply debit_debits_in; [set_solver|done]).
  assert (Hbun : own_debit w1 "bid_debit") by (by apply own_debit_add).
  assert (Hcur : currency_only (w_seller_assets w1)) by (by rewrite Hs1).
  destruct (done (leg w1 "bid_debit")) eqn:Hdone.
  2: { split; [|done]. contract_build. rewrite kind_bid by done. split_and!; [done..|]. by rewrite Hst1. }
  destruct (applied (leg w1 "bid_debit")) eqn:Happ.
  - split; [|eapply planned_trans; [exact Hp1|]].
    + contract_build. rewrite kind_bid by done. done.
    + replace r with (set_r_status r (r_status r)) at 2 by (by destruct r). apply planned_stage.
  - split; [|eapply planned_trans; [exact Hp1|apply planned_stage]].
    contract_build. rewrite kind_bid by done. split_and!; [done..|]. cbn. split_and!.
    + by eapply done_one.
    + by apply collecting_ended.
    + left. apply (nothing_balanced ["bid_debit"%string]); [apply NoDup_singleton|done..|].
      by intros role ->%list_elem_of_singleton.
Qed.

(** A contract whose legs only grew by credits keeps what is said of its debits. *)
Lemma grows_fields w w' cs : grows w w' cs ->
  w_seller_assets w' = w_seller_assets w /\ w_buyer_assets w' = w_buyer_assets w /\
  w_stage w' = w_stage w /\ w_quantity_reserved w' = w_quantity_reserved w /\ w_rmb w' = w_rmb w.
Proof. by intros (-> & _). Qed.

Lemma keeps_bid_refund : keeping plan_bid_refund.
Proof.
  intros r w Hok. unfold plan_bid_refund, stage_is. case_bool_decide as Hst; [|by apply keeps_next].
  by_kind Hok Hst. destruct Hok as [Hl Hs Hb _].
  destruct (applied (leg w "bid_debit")) eqn:Happ; [|done]. simpl.
  apply of_res_inv. intros c (w' & Ht & [= <-])%bind_Ok. cbn.
  rewrite transfer_return in Ht by done.
  destruct (return_one w w' "bid_return" (r_seller r) "bid_debit") as (cs & Hg & Hbal & _); try done.
  destruct (grows_fields _ _ _ Hg) as (Hs2 & Hb2 & _). pose proof (grows_legs_ok _ _ _ Hg Hl) as Hl2.
  split; [|by eapply planned_grows]. contract_build. rewrite kind_bid by done.
  split_and!; [by apply (grows_debits_in _ _ _ Hg)|cbn; by rewrite Hs2|..].
  - intros l Hleg. change (leg w' "bid_debit" = Some l) in Hleg. cbn. rewrite Hs2.
    destruct (applied_Some _ Happ) as (d & Hd & _).
    rewrite (grows_leg_have _ _ _ Hg _ _ Hd) in Hleg. simplify_eq. auto.
  - cbn. split; [|done]. apply (grows_done _ _ _ Hg). eapply done_one; [done..|]. by apply applied_done.
Qed.

(** ** The escrow block *)
Lemma keeps_escrow_pair p r w :
  contract_ok r w -> w_stage w = SEscrow -> r_kind r = PlayerTradeKind -> keeps r w (plan_escrow p r w).
Proof.
  intros Hok Hst Hk2. unfold plan_escrow, stage_is. rewrite bool_decide_eq_true_2 by done.
  rewrite Hk2. change (PlayerTradeKind =? PlayerTradeKind) with true. cbv zeta.
  by_kind Hok Hst. destruct Hok as [Hl Hs Hb _].
  set (w1 := addLeg w "seller_debit" (r_seller r) StreamDebit (Some (Bundle (w_seller_assets w)))).
  destruct (debited_add r w "seller_debit" (r_seller r) _ Hl Hs) as [Hl1 Hc1 Hp1 Hs1 Hb1 Hst1 _].
  fold w1 in Hl1, Hc1, Hp1, Hs1, Hb1, Hst1. specialize (Hc1 ltac:(done)). rewrite Hst in Hst1.
  rewrite Hb1.
  assert (Hb' : selection_ok (w_buyer_assets w)) by done.
  set (w2 := addLeg w1 "buyer_debit" (r_buyer r) StreamDebit (Some (Bundle (w_buyer_assets w)))).
  destruct (debited_add r w1 "buyer_debit" (r_buyer r) _ Hl1 Hb') as [Hl2 Hc2 Hp2 Hs2 Hb2 Hst2 _].
  fold w2 in Hl2, Hc2, Hp2, Hs2, Hb2, Hst2. specialize (Hc2 Hc1). rewrite Hst1 in Hst2.
  assert (Hd2 : debits_in ["seller_debit"; "buyer_debit"]%string w2).
  { apply debit_debits_in; [set_solver|]. apply debit_debits_in; [set_solver|done]. }
  pose proof (planned_trans _ _ _ _ _ _ Hp1 Hp2) as Hp.
  assert (Hw2 : w_seller_assets w2 = w_seller_assets w /\ w_buyer_assets w2 = w_buyer_assets w)
    by (split; congruence).
  clearbody w2. clear Hs1 Hb1 Hst1 Hp1 Hp2 Hs2 Hb2. destruct Hw2 as [Hs2 Hb2].
  destruct (negb (done (leg w2 "seller_debit")) || _) eqn:Hdone; simpl.
  { split; [|done]. contract_build. rewrite kind_player by done. split; [done|]. by rewrite Hst2. }
  apply orb_false_iff in Hdone as [Ha Hbd]. apply negb_false_iff in Ha, Hbd.
  assert (Hall : done_except [] w2).
  { eapply done_by_roles; [done|exact Hd2|]. intros role Hr _. set_unfold in Hr. by destruct Hr as [->|[->|?]]. }
  assert (Hfin : forall w' cs st s, grows (set_stage w2 st) w' cs -> balanced w' ->
            (match st with SDeliver | SReturn => True | _ => False end) ->
            contract_ok (set_r_status r s) w' /\ planned r w (set_r_status r s) w').
  { intros w' cs st s Hg Hbal Hstage. split.
    - destruct (grows_fields _ _ _ Hg) as (Hs3 & Hb3 & Hst3 & _). cbn in Hs3, Hb3, Hst3.
      pose proof (grows_legs_ok _ _ _ Hg Hl2) as Hl3. contract_build. rewrite kind_player by done.
      split; [by apply (grows_debits_in _ _ _ Hg)|]. rewrite Hst3.
      assert (done_except [] w') by (by apply (grows_done _ _ _ Hg)). by destruct st.
    - eapply planned_trans; [exact Hp|]. by eapply planned_stage_grows. }
  unfold keeps. match goal with |- flow_inv _ (if ?c then _ else _) => destruct c eqn:Hbad end.
  - apply of_res_inv. intros c (w3 & Ht1 & (w4 & Ht2 & [= <-])%bind_Ok)%bind_Ok. cbn.
    destruct (release_pair "seller_return" "buyer_return" "seller_debit" "buyer_debit"
      (set_stage w2 SReturn) w3 w4 (r_seller r) (r_buyer r)) as (cs & Hg & Hbal); try done.
    by eapply (Hfin w4 cs SReturn).
  - apply of_res_inv. intros c (w3 & Ht1 & (w4 & Ht2 & [= <-])%bind_Ok)%bind_Ok. cbn.
    repeat (apply orb_false_iff in Hbad as [Hbad ?]). zbool.
    rewrite transfer_return in Ht1, Ht2 by done.
    destruct (release_pair "seller_receive" "buyer_receive" "buyer_debit" "seller_debit"
      (set_stage w2 SDeliver) w3 w4 (r_seller r) (r_buyer r)) as (cs & Hg & Hbal); try done.
    { intros l Hin Hs'. specialize (Hd2 l Hin Hs'). set_solver. }
    by eapply (Hfin w4 cs SDeliver).
Qed.

(** The outcome of the escrow of a contract with one party. *)
Lemma escrow_return r w w' to :
  legs_ok w -> collecting w -> debits_in ["seller_debit"%string] w ->
  (w1 ← return_leg (set_stage w SReturn) "seller_return" to (leg w "seller_debit");
   return_leg w1 "buyer_return" (r_buyer r) (leg w "buyer_debit")) = Ok w' ->
  exists cs, grows (set_stage w SReturn) w' cs /\ balanced w' /\
    forall c, c ∈ cs -> l_role c = "seller_return"%string.
Proof.
  intros Hl Hc Hd (w1 & H1 & H2)%bind_Ok.
  rewrite (credit_role_free ["seller_debit"%string] w "buyer_debit") in H2 by done.
  injection H2 as ->. by apply (return_one (set_stage w SReturn) w' "seller_return" to "seller_debit").
Qed.

(** What the escrow block leaves behind, for the three kinds with one party. *)
Lemma escrow_single p r w :
  contract_ok r w -> w_stage w = SEscrow -> r_kind r <> PlayerTradeKind -> debits_in ["seller_debit"%string] w ->
  collecting w ->
  match plan_escrow p r w with
  | Next r' w' =>
      (exists w1, debited r w w1 /\ collecting w1 /\ debits_in ["seller_debit"%string] w1 /\
        w1 = addLeg w "seller_debit" (r_seller r) StreamDebit (Some (Bundle (w_seller_assets w))) /\
        (exists cs, r' = set_r_status r CancelPending /\ grows (set_stage w1 SReturn) w' cs /\ balanced w' /\
           (forall c, c ∈ cs -> l_role c = "seller_return"%string) /\ done_except [] w1 \/
         r' = r /\ applied (leg w1 "seller_debit") = true /\
           w' = set_stage w1 (if r_kind r =? MarketKind then SMarketOpen
                              else if r_kind r =? LotKind then SLotOpen else SOpen)))
  | Return r' w' => r' = r /\ debited r w w' /\ collecting w' /\ debits_in ["seller_debit"%string] w' /\
      w' = addLeg w "seller_debit" (r_seller r) StreamDebit (Some (Bundle (w_seller_assets w)))
  | Fail _ => True
  end.
Proof.
  intros Hok Hst Hk2 Hd Hc. unfold plan_escrow, stage_is. rewrite bool_decide_eq_true_2 by done.
  rewrite (proj2 (Z.eqb_neq _ _) Hk2). cbv zeta. destruct Hok as [Hl Hs Hb _].
  set (w1 := addLeg w "seller_debit" (r_seller r) StreamDebit (Some (Bundle (w_seller_assets w)))).
  pose proof (debited_add r w "seller_debit" (r_seller r) _ Hl Hs) as Hdb. fold w1 in Hdb.
  assert (Hc1 : collecting w1) by (by apply Hdb).
  assert (Hd1 : debits_in ["seller_debit"%string] w1) by (apply debit_debits_in; [set_solver|done]).
  rewrite !(credit_role_free ["seller_debit"%string] w1 "buyer_debit") by done.
  cbn [done applied andb orb].
  destruct (negb (done (leg w1 "seller_debit")) || false) eqn:Hdone; [done|].
  apply orb_false_iff in Hdone as [Ha _]. apply negb_false_iff in Ha.
  match goal with |- context [if ?c then of_res _ else _] => destruct c eqn:Hbad end.
  - match goal with |- context [of_res ?m] => destruct m as [[r' w']|e] eqn:Hm end; [|exact I].
    cbn. exists w1. split_and!; [done..|].
    apply bind_Ok in Hm as (w3 & H1 & (w4 & H2 & [= <- <-])%bind_Ok).
    destruct (escrow_return r w1 w4 (r_seller r)) as (cs & Hg & Hbal & Hcs); [apply Hdb|done..| |].
    { change (r_seller r) with (r_seller (set_r_status r CancelPending)). rewrite H1. cbn.
      by rewrite (credit_role_free ["seller_debit"%string] w1 "buyer_debit"). }
    exists cs. left. split_and!; [done..|]. eapply done_one; [apply Hdb|done..].
  - repeat (apply orb_false_iff in Hbad as [Hbad ?]). zbool.
    assert (applied (leg w1 "seller_debit") = true) by done.
    destruct (r_kind r =? MarketKind); [|destruct (r_kind r =? LotKind)];
      exists w1; (split_and!; [done..|]); exists []; right; done.
Qed.

Lemma debited_fields r w w1 : debited r w w1 ->
  w_seller_assets w1 = w_seller_assets w /\ w_buyer_assets w1 = w_buyer_assets w /\
  w_stage w1 = w_stage w /\ w_quantity_reserved w1 = w_quantity_reserved w.
Proof. by intros []. Qed.

(** What is left to show for each of the three kinds. *)
Lemma keeps_escrow_single p r w :
  contract_ok r w -> w_stage w = SEscrow -> r_kind r <> PlayerTradeKind ->
  debits_in ["seller_debit"%string] w -> collecting w ->
  (forall w1, w1 = addLeg w "seller_debit" (r_seller r) StreamDebit (Some (Bundle (w_seller_assets w))) ->
     debited r w w1 -> collecting w1 -> debits_in ["seller_debit"%string] w1 ->
     kind_inv r w1 /\
     (applied (leg w1 "seller_debit") = true ->
        kind_inv r (set_stage w1 (if r_kind r =? MarketKind then SMarketOpen
                                  else if r_kind r =? LotKind then SLotOpen else SOpen))) /\
     (forall w' cs, grows (set_stage w1 SReturn) w' cs -> balanced w' ->
        (forall c, c ∈ cs -> l_role c = "seller_return"%string) -> done_except [] w1 ->
        kind_inv (set_r_status r CancelPending) w')) ->
  keeps r w (plan_escrow p r w).
Proof.
  intros Hok Hst Hk Hd Hc HK. pose proof (escrow_single p r w Hok Hst Hk Hd Hc) as H.
  destruct Hok as [Hl Hs Hb _].
  destruct (plan_escrow p r w) as [r' w'|r' w'|]; [|destruct H as (-> & Hdb & Hc1 & Hd1 & Heq)|done].
  - destruct H as (w1 & Hdb & Hc1 & Hd1 & Heq & cs & Hcase).
    destruct (HK w1 Heq Hdb Hc1 Hd1) as (_ & Hopen & Hret).
    destruct (debited_fields _ _ _ Hdb) as (Hs1 & Hb1 & _). pose proof (db_legs _ _ _ Hdb) as Hl1.
    destruct Hcase as [(-> & Hg & Hbal & Hcs & Hdone)|(-> & Ha & ->)].
    + destruct (grows_fields _ _ _ Hg) as (Hs2 & Hb2 & _). cbn in Hs2, Hb2.
      split; [constructor; [by apply (grows_legs_ok _ _ _ Hg)|congruence|congruence|by eapply Hret]|].
      eapply planned_trans; [apply Hdb|]. by eapply planned_stage_grows.
    + split; [constructor; [done|cbn; congruence|cbn; congruence|auto]|].
      eapply planned_trans; [apply Hdb|].
      match goal with |- planned r w1 r (set_stage w1 ?st) =>
        replace r with (set_r_status r (r_status r)) at 2 by (by destruct r) end.
      apply planned_stage.
  - destruct (HK w' Heq Hdb Hc1 Hd1) as (Hkind & _).
    destruct (debited_fields _ _ _ Hdb) as (Hs1 & Hb1 & _).
    split; [constructor; [apply Hdb|congruence|congruence|done]|apply Hdb].
Qed.

Lemma debits_of_seller w w' cs l :
  grows w w' cs -> debits_in ["seller_debit"%string] w -> l ∈ w_legs w' -> l_stream l = StreamDebit ->
  l_role l = "seller_debit"%string.
Proof. intros Hg Hd Hin Hs. apply list_elem_of_singleton. by apply (grows_debits_in _ _ _ Hg _ Hd). Qed.

Lemma escrow_consignment r w w1 :
  r_kind r = ConsignmentKind -> price_ok (r_unit_price r) (w_quantity_reserved w) -> w_stage w = SEscrow ->
  debited r w w1 -> collecting w1 -> debits_in ["seller_debit"%string] w1 ->
  kind_inv r w1 /\
  (applied (leg w1 "seller_debit") = true -> kind_inv r (set_stage w1 SOpen)) /\
  (forall w' cs, grows (set_stage w1 SReturn) w' cs -> balanced w' ->
        (forall c, c ∈ cs -> l_role c = "seller_return"%string) -> done_except [] w1 ->
     kind_inv (set_r_status r CancelPending) w').
Proof.
  intros Hk Hq Hst Hdb Hc Hd. destruct (debited_fields _ _ _ Hdb) as (_ & _ & Hst1 & Hq1).
  assert (Hroles : forall w' cs, grows w1 w' cs -> forall l, l ∈ w_legs w' -> l_stream l = StreamDebit ->
    l_role l = "seller_debit"%string \/ buyer_role (w_quantity_reserved w) (l_role l))
    by (intros w' cs Hg l Hin Hs; left; by eapply debits_of_seller).
  rewrite !kind_consignment by done. unfold consignment_inv. cbn. rewrite Hst1, Hst, Hq1.
  split_and!; [done|by eapply Hroles, grows_nil|done|done|..].
  - intros Ha. split_and!; [done|by eapply Hroles, grows_nil|done|done|].
    intros l Hin Hs Hr. by destruct Hr; apply Hd.
  - intros w' cs Hg Hbal _ Hdone. rewrite kind_consignment by done. unfold consignment_inv.
    destruct (grows_fields _ _ _ Hg) as (_ & _ & -> & Hq2 & _). cbn in Hq2 |- *. rewrite Hq2, Hq1.
    split_and!; [done| |by apply (grows_done _ _ _ Hg)|done].
    intros l Hin Hs. left. by apply (debits_of_seller _ _ _ _ Hg).
Qed.

Lemma escrow_lot r w w1 :
  r_kind r = LotKind -> currency_only (w_buyer_assets w) -> w_stage w = SEscrow ->
  debited r w w1 -> collecting w1 -> debits_in ["seller_debit"%string] w1 ->
  kind_inv r w1 /\
  (applied (leg w1 "seller_debit") = true -> kind_inv r (set_stage w1 SLotOpen)) /\
  (forall w' cs, grows (set_stage w1 SReturn) w' cs -> balanced w' ->
     (forall c, c ∈ cs -> l_role c = "seller_return"%string) -> done_except [] w1 ->
     kind_inv (set_r_status r CancelPending) w').
Proof.
  intros Hk Hcur Hst Hdb Hc Hd. destruct (debited_fields _ _ _ Hdb) as (_ & Hb1 & Hst1 & _).
  rewrite !kind_lot by done. unfold lot_inv. cbn. rewrite Hst1, Hst, Hb1.
  split_and!; [done..|]. intros w' cs Hg Hbal Hcs Hdone. rewrite kind_lot by done. unfold lot_inv.
  destruct (grows_fields _ _ _ Hg) as (_ & -> & -> & _). cbn. rewrite Hb1.
  split_and!; [by apply (grows_debits_in _ _ _ Hg)|done|by apply (grows_done _ _ _ Hg)|].
  intros a. unfold lot_claim. rewrite (grows_leg _ _ _ Hg).
  - change (leg (set_stage w1 SReturn) "seller_receive") with (leg w1 "seller_receive").
    rewrite (credit_role_free ["seller_debit"%string] w1) by done. rewrite Hbal, andb_false_r. lia.
  - intros (c & Hr & Hin%Hcs)%list_elem_of_fmap. by rewrite Hin in Hr.
Qed.

(** What an order that never filled gets back is what was taken of it. *)
Lemma order_unfilled r w :
  order_terms r w -> own_debit w "seller_debit" -> legs_ok w -> r_filled r = 0 ->
  debits_in ["seller_debit"%string] w ->
  forall a, inflow w a = order_remainder r w a.
Proof.
  intros Ht Hbun Hl Hf Hd a. rewrite (inflow_debits ["seller_debit"%string]) by (done || apply NoDup_singleton).
  simpl. unfold order_remainder. destruct (applied (leg w "seller_debit")) eqn:Ha.
  - apply applied_Some in Ha as (d & Hd' & Ho). rewrite Hd'. cbn. unfold leg_in.
    destruct (Hbun d Hd') as [-> ->]. rewrite Ho. cbn. rewrite (ot_assets _ _ Ht), Hf. lia.
  - rewrite opt_in_unapplied by done. lia.
Qed.

Lemma escrow_order r w w1 :
  r_kind r = MarketKind -> r_side r <> 0 -> order_terms r w ->
  own_debit w "seller_debit" ->
  r_filled r = 0 -> w_stage w = SEscrow ->
  w1 = addLeg w "seller_debit" (r_seller r) StreamDebit (Some (Bundle (w_seller_assets w))) ->
  debited r w w1 -> collecting w1 -> debits_in ["seller_debit"%string] w1 ->
  kind_inv r w1 /\
  (applied (leg w1 "seller_debit") = true -> kind_inv r (set_stage w1 SMarketOpen)) /\
  (forall w' cs, grows (set_stage w1 SReturn) w' cs -> balanced w' ->
     (forall c, c ∈ cs -> l_role c = "seller_return"%string) -> done_except [] w1 ->
     kind_inv (set_r_status r CancelPending) w').
Proof.
  intros Hk Hside Ht Hbun Hf Hst -> Hdb Hc Hd.
  destruct (debited_fields _ _ _ Hdb) as (Hs1 & _ & Hst1 & _). pose proof (db_legs _ _ _ Hdb) as Hl1.
  set (w1 := addLeg _ _ _ _ _) in *.
  assert (Hbun1 : own_debit w1 "seller_debit") by (by apply own_debit_add).
  assert (Ht1 : order_terms r w1) by (destruct Ht as [? ? ? ? Ha]; split; by rewrite ?Hs1).
  pose proof (order_unfilled r w1 Ht1 Hbun1 Hl1 Hf Hd) as Hin. clearbody w1.
  rewrite !kind_order by done. unfold order_inv. rewrite Hst1, Hst. split_and!; [done|done|done|by left|done|done|..].
  - intros Ha. cbn. split_and!; [|done|done|by left|done|done]. by destruct Ht1.
  - intros w' cs Hg Hbal Hcs Hdone. rewrite kind_order by done. unfold order_inv.
    destruct (grows_fields _ _ _ Hg) as (Hs2 & _ & Hst2 & _). rewrite Hst2. cbn in Hs2 |- *.
    assert (Hleg : leg w' "seller_debit" = leg w1 "seller_debit").
    { rewrite (grows_leg _ _ _ Hg); [done|]. intros (c & Hr & Hc'%Hcs)%list_elem_of_fmap. by rewrite Hc' in Hr. }
    split_and!; [|by apply (grows_debits_in _ _ _ Hg)|by eapply own_debit_eq|by left|by apply (grows_done _ _ _ Hg)|].
    + destruct Ht1 as [? ? ? ? Ha]; split; try done. by rewrite Hs2.
    + intros a. rewrite Hbal, (grows_inflow _ _ _ Hg). unfold order_remainder. rewrite Hleg.
      cbn. apply Hin.
Qed.

Lemma keeps_escrow p : keeping (plan_escrow p).
Proof.
  intros r w Hok. destruct (decide (w_stage w = SEscrow)) as [Hst|Hst].
  2: { unfold plan_escrow, stage_is. rewrite bool_decide_eq_false_2 by done. by apply keeps_next. }
  pose proof Hok as Hok'. by_kind Hok' Hst; [by apply keeps_escrow_pair|..];
    (apply keeps_escrow_single; [done|done|by rewrite H|done|done|]); rewrite H; cbn;
    intros w1 Heq Hdb Hc1 Hd1.
  - by apply (escrow_consignment r w).
  - by apply (escrow_order r w).
  - by apply (escrow_lot r w).
Qed.

(** ** The payment of a consignment *)
Lemma planned_status_stage r w w' cs s b st :
  grows (set_stage w st) w' cs -> (b = r_buyer r \/ b = 0) ->
  planned r w (set_r_status (set_r_buyer r b) s) w'.
Proof.
  intros (-> & Hf & _) Hb. split.
  - exists s, b. split; [done|auto].
  - exists st, (w_cancel_requested w), cs. split_and!; [by destruct w|done|].
    intros l Hl. destruct (Hf l Hl) as (_ & ? & ? & _). done.
Qed.

(** Two paid debits, each handed to the other side, are a balanced delivery. *)
Lemma swap_pair r1 r2 p1 p2 d1 d2 w w1 w2 :
  bool_decide (NoDup [r1; r2]) = true -> legs_ok w -> collecting w ->
  leg w r1 = None -> leg w r2 = None ->
  d1 ∈ w_legs w -> d2 ∈ w_legs w -> l_role d1 <> l_role d2 -> l_outcome d1 = 2 -> l_outcome d2 = 2 ->
  unpaid_except [l_role d1; l_role d2] w ->
  transferLeg w r1 p1 (Some d1) = Ok w1 -> transferLeg w1 r2 p2 (Some d2) = Ok w2 ->
  exists cs, grows w w2 cs /\ balanced w2.
Proof.
  intros Hr12%bool_decide_eq_true_1 Hl Hc Hf1 Hf2 Hi1 Hi2 Hne Ho1 Ho2 Hun H1 H2.
  assert (Hok : forall d, d ∈ w_legs w -> leg_ok d /\ l_stream d = StreamDebit)
    by (intros d Hd; split; [by apply Hl|by apply Hc]).
  destruct (Hok d1 Hi1) as [Hok1 Hs1], (Hok d2 Hi2) as [Hok2 Hs2].
  assert (Hf2' : leg w1 r2 = None).
  { rewrite (transferLeg_other _ _ _ _ _ r2 H1); [done|]. apply NoDup_cons in Hr12 as [Hn _]. set_solver. }
  apply transferLeg_grows in H1 as (c1 & Hg1 & _ & _ & Hw1); [|done..].
  apply transferLeg_grows in H2 as (c2 & Hg2 & _ & _ & Hw2); [|done..].
  exists ([c1] ++ [c2]). pose proof (grows_trans _ _ _ _ _ Hg1 Hg2) as Hg. split; [done|]. intros a.
  rewrite (grows_outflow _ _ _ Hg), (grows_inflow _ _ _ Hg), collecting_outflow by done.
  destruct Hl as [Hnd _].
  rewrite (inflow_by_role [l_role d1; l_role d2]); [|by apply NoDup_cons; split;
    [set_solver|apply NoDup_singleton]|done|].
  - simpl. rewrite !leg_in_legs by done. cbn. rewrite Hw1, Hw2 by done. lia.
  - intros l Hin Hr. apply leg_in_unapplied. by apply Hun; [|apply Hc|].
Qed.

Lemma not_buyer_role n role :
  HasPrefix role "buyer_debit_" = false -> ~ buyer_role n role.
Proof. 
  intros Hp (i & key & _ & ->). unfold HasPrefix in Hp.
  replace (String.prefix _ _) with true in Hp; [done|]. symmetry. apply prefix_app_true.
Qed.

Lemma consignment_credit_free w role n :
  collecting w ->
  (forall l, l ∈ w_legs w -> l_stream l = StreamDebit ->
     l_role l = "seller_debit"%string \/ buyer_role n (l_role l)) ->
  role <> "seller_debit"%string -> HasPrefix role "buyer_debit_" = false -> leg w role = None.
Proof.
  intros Hc Hr Hn Hp. destruct (leg w role) as [l|] eqn:Hl; [|done].
  apply leg_Some in Hl as [Hin <-]. destruct (Hr l Hin (Hc l Hin)) as [?|Hb]; [done|].
  by apply not_buyer_role in Hb.
Qed.

Lemma keeps_pay : keeping plan_pay.
Proof.
  intros r w Hok. unfold plan_pay, stage_is. case_bool_decide as Hst; [|by apply keeps_next].
  pose proof Hok as Hok'. by_kind Hok' Hst. rename H2 into Hroles, H1 into Hc, H3 into Hsell.
  destruct H5 as (l & Hin & Hpay & Hnr & Hun). rewrite !Hpay. destruct Hok as [Hl Hs Hb _].
  destruct (done (Some l)) eqn:Hdone; [|by (split; [done|apply planned_refl])].
  destruct (applied (Some l)) eqn:Happ; cbn in Hdone, Happ; zbool.
  - apply of_res_inv. intros [r2 w2] (w1 & H1 & (w2' & H2 & [= <- <-])%bind_Ok)%bind_Ok. cbn.
    apply applied_Some in Hsell as (d & Hd & Hod). cbv zeta in H1.
    change (leg (set_stage w SDeliver) "seller_debit") with (leg w "seller_debit") in H1. rewrite Hd in H1.
    apply leg_Some in Hd as [Hdin Hdr].
    destruct (swap_pair "buyer_receive" "seller_receive" (r_buyer r) (r_seller r) d l
      (set_stage w SDeliver) w1 w2') as (cs & Hg & Hbal); try done.
    1,2: by eapply consignment_credit_free.
    { rewrite Hdr. congruence. }
    { by rewrite Hdr. }
    destruct (grows_fields _ _ _ Hg) as (Hs2 & Hb2 & Hst2 & Hq2 & _). cbn in Hs2, Hb2, Hq2.
    split; [|by eapply planned_stage_grows]. constructor; [by apply (grows_legs_ok _ _ _ Hg)|cbn; congruence..|].
    rewrite kind_consignment by done. unfold consignment_inv. rewrite Hst2, Hq2. cbn.
    split_and!; [done| | |done].
    + intros l' Hin' Hs'. destruct Hg as (-> & Hf & _). apply elem_of_app in Hin' as [?|Hx]; [auto|].
      apply Hf in Hx as [Hx _]. by rewrite Hs' in Hx.
    + apply (grows_done _ _ _ Hg). intros l' Hin' Hs' _.
      destruct (decide (l_role l' ∈ ["seller_debit"%string; l_role l])) as [Hr'|Hr']; [|by apply Hun].
      destruct Hl as [Hnd _]. pose proof (leg_in_legs w l' Hnd Hin') as Hf1.
      apply elem_of_cons in Hr' as [Hr'|Hr'%list_elem_of_singleton].
      * pose proof (leg_in_legs w d Hnd Hdin) as Hf2. rewrite Hdr in Hf2. rewrite Hr', Hf2 in Hf1.
        simplify_eq. lia.
      * pose proof (leg_in_legs w l Hnd Hin) as Hf2. rewrite Hr', Hf2 in Hf1. simplify_eq. lia.
  - split.
    + constructor; [done..|]. rewrite kind_consignment by done. split_and!; [done..|]. cbn.
      split_and!; [done..|]. intros l' Hin' Hs' Hr'.
      destruct (decide (l_role l' = l_role l)) as [Heq|Hne].
      * destruct Hl as [Hnd _]. pose proof (leg_in_legs w l Hnd Hin) as Hf1.
        pose proof (leg_in_legs w l' Hnd Hin') as Hf2. rewrite Heq, Hf1 in Hf2. by simplify_eq.
      * apply Hun; [done..|]. set_solver.
    + split.
      * exists (r_status r), 0. split; [by destruct r|auto].
      * exists SOpen, (w_cancel_requested w), []. rewrite app_nil_r.
        split_and!; [by destruct w|done|set_solver].
Qed.

(** ** The sale of a lot *)
Lemma keeps_lot_sold now : keeping (plan_lot_sold now).
Proof.
  intros r w Hok. unfold plan_lot_sold, stage_is. destruct (_ && _) eqn:Hc; [|by apply keeps_next].
  apply andb_true_iff in Hc as [[Hst%bool_decide_eq_true_1 _]%andb_true_iff Hhb].
  pose proof Hok as Hok'. by_kind Hok' Hst. destruct Hok as [Hl Hs Hb _].
  rename H0 into Hd, H2 into Hcur, H1 into Hcol, H4 into Hap.
  apply of_res_inv. intros c (w1 & Ht & [= <-])%bind_Ok. cbn.
  change (leg (set_stage w SDeliver) "seller_debit") with (leg w "seller_debit") in Ht.
  pose proof Hap as Hap'. apply applied_Some in Hap' as (d & Hleg & Hod). rewrite Hleg in Ht.
  assert (Hdok : leg_ok d) by (by eapply legs_ok_leg).
  assert (Hds : l_stream d = StreamDebit) by (by eapply collecting_leg_stream).
  assert (Hfree : forall role, role <> "seller_debit"%string -> leg w role = None).
  { intros role Hr. eapply collecting_leg_None; [done..|]. by intros ?%list_elem_of_singleton. }
  apply transferLeg_grows in Ht as (c1 & Hg1 & Hr1 & _ & Hw1); [|done|by apply Hfree].
  assert (Hfree2 : leg w1 "seller_receive" = None).
  { rewrite (grows_leg _ _ _ Hg1); [by apply Hfree|]. by intros ?%list_elem_of_singleton; congruence. }
  assert (Hb1 : w_buyer_assets w1 = w_buyer_assets w) by (by destruct (grows_fields _ _ _ Hg1) as (_ & ? & _)).
  rewrite Hb1.
  pose proof (grows_one w1 "seller_receive" (r_seller r) (Bundle (w_buyer_assets w)) Hfree2
    (Bundle_nonneg _ Hb)) as Hg2.
  pose proof (grows_trans _ _ _ _ _ Hg1 Hg2) as Hg. set (w2 := addLeg _ _ _ _ _) in *.
  destruct (grows_fields _ _ _ Hg) as (Hs2 & Hb2 & Hst2 & _). cbn in Hs2, Hb2, Hst2.
  split; [|by eapply planned_stage_grows].
  constructor; [by apply (grows_legs_ok _ _ _ Hg)|cbn; congruence..|].
  rewrite kind_lot by done. unfold lot_inv. rewrite Hst2, Hb2.
  split_and!; [by apply (grows_debits_in _ _ _ Hg)|done| |].
  - apply (grows_done _ _ _ Hg). eapply done_one; [done..|]. by apply applied_done.
  - intros a. rewrite (grows_outflow _ _ _ Hg), (grows_inflow _ _ _ Hg).
    change (outflow (set_stage w SDeliver) a) with (outflow w a).
    change (inflow (set_stage w SDeliver) a) with (inflow w a). rewrite collecting_outflow by done.
    rewrite (inflow_debits ["seller_debit"%string]) by (done || apply NoDup_singleton).
    rewrite sumZ_app. simpl. rewrite Hleg. cbn. rewrite Hw1 by done.
    assert (Hcl : is_Some (leg w2 "seller_receive")).
    { subst w2. rewrite addLeg_fresh, leg_app, Hfree2 by done. cbn. rewrite role_is_true by done. eauto. }
    assert (Hh2 : w_highest_bidder w2 = w_highest_bidder w) by (by destruct Hg as (-> & _)).
    unfold lot_claim. destruct Hcl as [x ->]. rewrite Hb2, Hh2, Hhb. cbn [andb is_some]. unfold leg_out. cbn.
    rewrite (worth_out_in (Bundle (w_buyer_assets w))); [lia|..]; try done;
      destruct (w_buyer_assets w) as [v|] eqn:E; try done; by destruct (Hcur v eq_refl).
Qed.

(** ** Expiry and cancellation *)
Lemma kind_cancel_requested r w b : kind_inv r w -> kind_inv r (set_cancel_requested w b).
Proof.
  unfold kind_inv. repeat match goal with |- context [if ?c then _ else _] => destruct c end; try done.
  unfold order_inv. by intros ([] & ?).
Qed.

Lemma keeps_expire now : keeping (plan_expire now).
Proof.
  intros r w Hok. unfold plan_expire. destruct (_ && _); [|by apply keeps_next]. split.
  - destruct Hok as [? ? ? ?]. constructor; [done..|]. by apply kind_cancel_requested.
  - split.
    + exists (r_status r), (r_buyer r). split; [by destruct r|auto].
    + exists (w_stage w), true, []. rewrite app_nil_r. split_and!; [by destruct w|done|set_solver].
Qed.

Lemma has_assets_false b a : has_assets b = false -> worth_out b a = 0.
Proof.
  unfold has_assets. intros [H Hp]%orb_false_iff. apply Nat.ltb_ge in H.
  destruct (b_currencies b) eqn:E1, (b_items b) eqn:E2, (b_instances b) eqn:E3; simpl in H; try lia.
  destruct a; simpl; rewrite ?E1, ?E2, ?E3; try done. by destruct (b_pet_instance b).
Qed.

Lemma market_remainder_worth r w a :
  order_terms r w -> worth_out (market_remainder r) a = (r_quantity r - r_filled r) * unit_worth r a /\
  bundle_nonneg (market_remainder r).
Proof.
  intros [Hside Hq Hp Hf _]. unfold market_remainder, u32, u64, unit_worth, MaxInt64 in *.
  rewrite Z.mod_small by (unfold u32_mod; lia).
  destruct (r_quantity r - r_filled r =? 0) eqn:E; zbool.
  { rewrite E. split; [|by repeat constructor]. by destruct a. }
  destruct (r_side r =? 1) eqn:Es.
  - assert (r_unit_price r * r_quantity r < u64_mod) by (unfold u64_mod; lia).
    rewrite Z.mod_small by nia. split; [|repeat constructor; cbn; nia].
    case_bool_decide as Ha; [subst a|]; unfold worth_out, amount_of, count_of; simpl.
    + rewrite Z.eqb_refl. lia.
    + destruct a as [c| | |]; simpl; try lia.
      destruct (r_currency r =? c) eqn:Ec; zbool; [by subst c|lia].
  - split; [|repeat constructor; cbn; lia].
    case_bool_decide as Ha; [subst a|]; unfold worth_out, amount_of, count_of; simpl.
    + rewrite Z.eqb_refl. lia.
    + destruct a as [|i| |]; simpl; try lia.
      destruct (r_item_config r =? i) eqn:Ec; zbool; [by subst i|lia].
Qed.

Definition return_bundle (w : TradeCommerceWorkflow) (to : Z) (b : AssetBundle) : TradeCommerceWorkflow :=
  if has_assets b then addLeg w "seller_return" to StreamCredit (Some b) else w.

Lemma return_bundle_grows w to b :
  leg w "seller_return" = None -> bundle_nonneg b ->
  exists cs, grows w (return_bundle w to b) cs /\ (forall c, c ∈ cs -> l_role c = "seller_return"%string) /\
    forall a, sumZ (fun l => leg_out l a) cs = worth_out b a.
Proof.
  intros Hl Hb. unfold return_bundle. destruct (has_assets b) eqn:Ha.
  - eexists. split; [by apply grows_one|]. split; [by intros c ->%list_elem_of_singleton|].
    intros a. simpl. unfold leg_out. cbn. lia.
  - exists []. split; [apply grows_nil|]. split; [set_solver|]. intros a. by rewrite has_assets_false.
Qed.

(** The bundle a cancellation hands back. *)
Definition cancel_bundle (r : TradeCommerceRecord) (b : AssetBundle) : AssetBundle :=
  if r_kind r =? MarketKind then market_remainder r else b.

Lemma plan_cancel_spec r w :
  plan_cancel r w = Next r w \/ (exists e, plan_cancel r w = Fail e) \/
  (w_cancel_requested w = true /\
   (w_stage w = SOpen \/ w_stage w = SLotOpen \/ w_stage w = SMarketOpen) /\
   exists d b, leg w "seller_debit" = Some d /\ Transfer (l_bundle d) (l_snapshot d) = Ok b /\
     plan_cancel r w = Next (set_r_status r CancelPending)
       (return_bundle (set_stage w SReturn) (r_seller r) (cancel_bundle r b))).
Proof.
  unfold plan_cancel. destruct (w_cancel_requested w && _) eqn:Hc; [|by left].
  apply andb_true_iff in Hc as [Hreq Hst]. right.
  change (leg (set_stage w SReturn) "seller_debit") with (leg w "seller_debit").
  destruct (leg w "seller_debit") as [d|] eqn:Hd; [|left; by eexists].
  destruct (Transfer (l_bundle d) (l_snapshot d)) as [b|e] eqn:Ht; [|left; by eexists].
  right. split; [done|]. split.
  - unfold stage_is in Hst. apply orb_true_iff in Hst as [[H|[H _]%andb_true_iff]%orb_true_iff|H];
      apply bool_decide_eq_true_1 in H; auto.
  - exists d, b. split_and!; [done..|]. unfold return_bundle, cancel_bundle. cbn.
    change (market_remainder (set_r_status r CancelPending)) with (market_remainder r).
    destruct (r_kind r =? MarketKind); by destruct (has_assets _).
Qed.

Lemma cancel_consignment r w w' cs :
  contract_ok r w -> r_kind r = ConsignmentKind -> w_stage w = SOpen ->
  grows (set_stage w SReturn) w' cs -> (forall a, sumZ (fun l => leg_out l a) cs = opt_in (leg w "seller_debit") a) ->
  kind_inv (set_r_status r CancelPending) w'.
Proof.
  intros [Hl _ _ Hk] Hkind Hst Hg Hsum. rewrite kind_consignment in Hk |- * by done.
  unfold consignment_inv in *. rewrite Hst in Hk. destruct Hk as (Hq & Hroles & Hc & Ha & Hun).
  destruct (grows_fields _ _ _ Hg) as (_ & _ & -> & -> & _). cbn. split_and!; [done|..].
  - intros l Hin Hs. destruct Hg as (-> & Hf & _). apply elem_of_app in Hin as [?|Hx]; [auto|].
    apply Hf in Hx as [Hx _]. by rewrite Hs in Hx.
  - apply (grows_done _ _ _ Hg). intros l Hin Hs _.
    destruct (decide (l_role l = "seller_debit"%string)) as [Hr|Hr].
    + destruct Hl as [Hnd _]. pose proof (leg_in_legs w l Hnd Hin) as Hf. rewrite Hr in Hf.
      rewrite Hf in Ha. cbn in Ha. zbool. lia.
    + apply (Hun l); [done..|]. by intros ?%list_elem_of_singleton.
  - intros a. rewrite (grows_outflow _ _ _ Hg), (grows_inflow _ _ _ Hg), Hsum.
    change (outflow (set_stage w SReturn) a) with (outflow w a). rewrite collecting_outflow by done.
    change (inflow (set_stage w SReturn) a) with (inflow w a). destruct Hl as [Hnd _].
    rewrite (inflow_by_role ["seller_debit"%string]); [simpl; lia|apply NoDup_singleton|done|].
    intros l Hin Hr. apply leg_in_unapplied. by apply Hun; [|apply Hc|].
Qed.

Lemma cancel_lot r w w' cs :
  contract_ok r w -> r_kind r = LotKind -> w_stage w = SLotOpen ->
  grows (set_stage w SReturn) w' cs -> (forall c, c ∈ cs -> l_role c = "seller_return"%string) ->
  (forall a, sumZ (fun l => leg_out l a) cs = opt_in (leg w "seller_debit") a) ->
  kind_inv (set_r_status r CancelPending) w'.
Proof.
  intros [Hl _ _ Hk] Hkind Hst Hg Hcs Hsum. rewrite kind_lot in Hk |- * by done.
  unfold lot_inv in *. rewrite Hst in Hk. destruct Hk as (Hd & Hcur & Hc & Ha).
  destruct (grows_fields _ _ _ Hg) as (_ & Hb & -> & _). rewrite Hb. cbn.
  split_and!; [by apply (grows_debits_in _ _ _ Hg)|done|..].
  - apply (grows_done _ _ _ Hg). eapply done_one; [done..|]. by apply applied_done.
  - intros a. unfold lot_claim. rewrite (grows_leg _ _ _ Hg).
    2: { intros (c & Hr & Hin%Hcs)%list_elem_of_fmap. by rewrite Hin in Hr. }
    change (leg (set_stage w SReturn) "seller_receive") with (leg w "seller_receive").
    rewrite (credit_role_free ["seller_debit"%string] w), andb_false_r by done.
    rewrite (grows_outflow _ _ _ Hg), (grows_inflow _ _ _ Hg), Hsum.
    change (outflow (set_stage w SReturn) a) with (outflow w a). rewrite collecting_outflow by done.
    change (inflow (set_stage w SReturn) a) with (inflow w a).
    rewrite (inflow_debits ["seller_debit"%string]) by (done || apply NoDup_singleton). simpl. lia.
Qed.

Lemma cancel_order r w w' cs :
  contract_ok r w -> r_kind r = MarketKind -> r_side r <> 0 -> w_stage w = SMarketOpen ->
  grows (set_stage w SReturn) w' cs -> (forall c, c ∈ cs -> l_role c = "seller_return"%string) ->
  (forall a, sumZ (fun l => leg_out l a) cs = (r_quantity r - r_filled r) * unit_worth r a) ->
  kind_inv (set_r_status r CancelPending) w'.
Proof.
  intros [Hl _ _ Hk] Hkind Hside Hst Hg Hcs Hsum. rewrite kind_order in Hk |- * by done.
  unfold order_inv in *. rewrite Hst in Hk. destruct Hk as (Ht & Hd & Hbun & Hf & Hc & Ha).
  destruct (grows_fields _ _ _ Hg) as (Hs & _ & -> & _). cbn in Hs |- *.
  assert (Hleg : leg w' "seller_debit" = leg w "seller_debit").
  { rewrite (grows_leg _ _ _ Hg); [done|]. intros (c & Hr & Hin%Hcs)%list_elem_of_fmap. by rewrite Hin in Hr. }
  split_and!; [|by apply (grows_debits_in _ _ _ Hg)|by eapply own_debit_eq|by rewrite Hleg|..].
  - destruct Ht as [? ? ? ? Hw]; split; try done. by rewrite Hs.
  - apply (grows_done _ _ _ Hg). eapply done_one; [done..|]. by apply applied_done.
  - intros a. rewrite (grows_outflow _ _ _ Hg), Hsum.
    change (outflow (set_stage w SReturn) a) with (outflow w a). rewrite collecting_outflow by done.
    unfold order_remainder. rewrite Hleg, Ha. cbn. unfold unit_worth. cbn. lia.
Qed.

Lemma keeps_cancel : keeping plan_cancel.
Proof.
  intros r w Hok. destruct (plan_cancel_spec r w) as [->|[[e ->]|(_ & Hst & d & b & Hd & Ht & ->)]];
    [by apply keeps_next|done|].
  assert (Hdok : leg_ok d) by (eapply legs_ok_leg; [apply Hok|done]).
  assert (Hres : forall w', leg (set_stage w SReturn) "seller_return" = None -> bundle_nonneg (cancel_bundle r b) ->
      w' = return_bundle (set_stage w SReturn) (r_seller r) (cancel_bundle r b) ->
      (forall cs, grows (set_stage w SReturn) w' cs -> (forall c, c ∈ cs -> l_role c = "seller_return"%string) ->
         (forall a, sumZ (fun l => leg_out l a) cs = worth_out (cancel_bundle r b) a) ->
         kind_inv (set_r_status r CancelPending) w') ->
      keeps r w (Next (set_r_status r CancelPending) w')).
  { intros w' Hfree Hn -> HK. destruct (return_bundle_grows _ (r_seller r) _ Hfree Hn) as (cs & Hg & Hcs & Hsum).
    destruct (grows_fields _ _ _ Hg) as (Hs & Hb & _). destruct Hok as [Hl Hs' Hb' _].
    split; [|by eapply planned_stage_grows].
    constructor; [by apply (grows_legs_ok _ _ _ Hg)|cbn in *; congruence..|by eapply HK]. }
  assert (Hbn : bundle_nonneg b).
  { pose proof (Transfer_Ok _ _ _ Ht) as (b0 & Hb0 & Hcc & Hii & _). unfold bundle_nonneg. rewrite Hcc, Hii.
    destruct Hdok as [[_ (b1 & H1 & ? & _)]|[_ (b1 & H1 & ?)]]; by simplify_eq. }
  assert (Hsell : collecting w -> applied (leg w "seller_debit") = true ->
      forall a, worth_out b a = opt_in (leg w "seller_debit") a).
  { intros Hc Ha a. rewrite (Transfer_worth _ _ _ a Ht), Hd. cbn. unfold leg_in.
    rewrite (collecting_leg_stream _ _ _ Hc Hd). rewrite Hd in Ha. cbn in Ha. rewrite Ha. done. }
  destruct Hst as [Hst|[Hst|Hst]]; pose proof Hok as Hok'; by_kind Hok' Hst; apply Hres; try done.
  all: try (unfold cancel_bundle; rewrite H; done).
  - by eapply (consignment_credit_free w).
  - intros cs Hg Hcs Hsum. apply (cancel_consignment _ _ _ _ Hok H Hst Hg).
    intros a. rewrite Hsum. unfold cancel_bundle. rewrite H. by apply Hsell.
  - by eapply (credit_role_free ["seller_debit"%string] w).
  - intros cs Hg Hcs Hsum. apply (cancel_lot _ _ _ _ Hok H Hst Hg Hcs).
    intros a. rewrite Hsum. unfold cancel_bundle. rewrite H. by apply Hsell.
  - by eapply (credit_role_free ["seller_debit"%string] w).
  - unfold cancel_bundle. rewrite H. by eapply (market_remainder_worth r w (Cur 0)).
  - intros cs Hg Hcs Hsum. apply (cancel_order _ _ _ _ Hok H H0 Hst Hg Hcs).
    intros a. rewrite Hsum. unfold cancel_bundle. rewrite H. by eapply (market_remainder_worth r w a).
Qed.

(** ** The last stage *)
Lemma final_credits_Ok legs :
  final_credits legs = (true, true) -> forall l, l ∈ legs -> l_stream l = StreamCredit -> l_outcome l = 2.
Proof.
  induction legs as [|x legs IH]; [set_solver|]. simpl.
  destruct (l_stream x =? StreamCredit) eqn:Hs.
  - destruct (negb (negb (l_outcome x =? 0))); [done|].
    destruct (negb (l_outcome x =? 2)) eqn:Ho; [done|]. intros H l [->|Hl]%elem_of_cons Hc; [|auto].
    by apply negb_false_iff, Z.eqb_eq in Ho.
  - intros H l [->|Hl]%elem_of_cons Hc; [|auto]. by rewrite Hc in Hs.
Qed.

Lemma finish_kind r w s :
  kind_inv r w -> w_stage w = SDeliver \/ w_stage w = SReturn ->
  (s = Manual \/ credits_applied w) -> kind_inv (set_r_status r s) (set_stage w SDone).
Proof.
  intros Hk Hst Hs.
  assert (Hended : ended (set_r_status r s) (set_stage w SDone)).
  { destruct Hs as [->|Hs]; [intros [?|?]; done|]. intros _. exact Hs. }
  unfold kind_inv in *. change (r_kind (set_r_status r s)) with (r_kind r).
  change (r_side (set_r_status r s)) with (r_side r).
  repeat match goal with |- context [if ?c then _ else _] => destruct c end; try done;
    unfold official_inv, player_trade_inv, consignment_inv, child_inv, order_inv, lot_inv, rmb_inv,
      bid_inv in *; destruct Hst as [Hst|Hst]; rewrite Hst in Hk; cbn; destruct_and?; try done.
  - split_and!; try done. by destruct H.
  - split_and!; try done. by left.
Qed.

Lemma keeps_finish : keeping plan_finish.
Proof.
  intros r w Hok. unfold plan_finish, stage_is. destruct (_ || _) eqn:Hc; [|by apply keeps_next].
  assert (Hst : w_stage w = SDeliver \/ w_stage w = SReturn)
    by (apply orb_true_iff in Hc as [H%bool_decide_eq_true_1|H%bool_decide_eq_true_1]; auto).
  destruct (finalCredits w) as [ready okay] eqn:Hf. destruct ready; [|by apply keeps_next].
  assert (HK : forall s, (s = Manual \/ credits_applied w) -> keeps r w (Next (set_r_status r s) (set_stage w SDone))).
  { intros s Hs. destruct Hok as [Hl Hs' Hb' Hk]. split; [|apply planned_stage].
    constructor; [done..|]. by apply finish_kind. }
  destruct okay; cbn [negb]; [|apply HK; auto].
  assert (credits_applied w) by exact (final_credits_Ok _ Hf). split_if; apply HK; auto.
Qed.

(** ** Sales for real money *)
(** A transfer that may have been planned before. *)
Lemma transferLeg_cases w role to from w' :
  (forall d, from = Some d -> leg_ok d) ->
  transferLeg w role to from = Ok w' ->
  (is_Some (leg w role) /\ w' = w) \/
  (leg w role = None /\ exists c, grows w w' [c] /\ l_role c = role /\
     (forall d, from = Some d -> l_stream d = StreamDebit -> l_outcome d = 2 ->
        forall a, leg_out c a = leg_in d a)).
Proof.
  intros Hok Ht. destruct (leg w role) as [l|] eqn:Hl.
  - left. split; [eauto|]. destruct from as [d|]; [|done].
    apply bind_Ok in Ht as (b & _ & [= <-]). by eapply addLeg_have.
  - right. split; [done|]. destruct from as [d|]; [|done].
    apply transferLeg_grows in Ht as (c & Hg & Hr & _ & Hw); [|by apply Hok|done].
    exists c. split_and!; [done..|]. intros d' [= <-]. auto.
Qed.

Definition rmb_credits (w : TradeCommerceWorkflow) : Prop :=
  (forall l, l ∈ w_legs w -> l_stream l = StreamCredit ->
     l_role l ∈ ["seller_return"; "rmb_buyer_credit"]%string) /\
  backed_by_seller w "seller_return" /\ backed_by_seller w "rmb_buyer_credit".

(** A credit made of the seller's custody keeps the shape of the legs. *)
Lemma rmb_credit w w' role to :
  role ∈ ["seller_return"; "rmb_buyer_credit"]%string ->
  legs_ok w -> debits_in ["seller_debit"%string] w -> rmb_credits w ->
  applied (leg w "seller_debit") = true ->
  transferLeg w role to (leg w "seller_debit") = Ok w' ->
  (exists cs, grows w w' cs /\ forall c, c ∈ cs -> l_role c = role) /\ rmb_credits w' /\
  (forall r, r <> role -> leg w' r = leg w r).
Proof.
  intros Hrole Hl Hd (Hcr & Hb1 & Hb2) Ha Ht.
  pose proof Ht as Ht'. apply transferLeg_cases in Ht as [[Hs ->]|(Hfree & c & Hg & Hr & Hw)].
  { split_and!; [|done|done]. exists []. split; [apply grows_nil|set_solver]. }
  2: { intros d Hd'. by eapply legs_ok_leg. }
  assert (Hother : forall r, r <> role -> leg w' r = leg w r) by (intros r ?; by eapply transferLeg_other).
  split; [|split; [|done]].
  { exists [c]. split; [done|]. by intros ? ->%list_elem_of_singleton. }
  assert (Hsd : leg w' "seller_debit" = leg w "seller_debit")
    by (apply Hother; intros <-; set_unfold in Hrole; naive_solver).
  assert (Hback : forall r, backed_by_seller w r -> backed_by_seller w' r).
  { intros r Hb l Hleg. rewrite Hsd. destruct (decide (r = role)) as [->|Hne].
    - apply applied_Some in Ha as (d & Hds & Hod).
      assert (Hlc : leg w' role = Some c).
      { destruct Hg as (-> & _). rewrite leg_app, Hfree. cbn. by rewrite role_is_true. }
      rewrite Hlc in Hleg. injection Hleg as <-. split; [rewrite Hds; cbn; by rewrite Hod|].
      intros a. rewrite Hds. cbn. apply (Hw d Hds); [|done].
      destruct (legs_ok_leg _ _ _ Hl Hds) as [[? _]|[Hc (b & Hb' & _)]]; [done|].
      exfalso. apply leg_Some in Hds as [Hin Hrd]. specialize (Hcr d Hin Hc). rewrite Hrd in Hcr.
      set_unfold in Hcr. naive_solver.
    - rewrite Hother in Hleg by done. by apply Hb. }
  split_and!; [|by apply Hback|by apply Hback].
  intros l Hin Hs. destruct Hg as (-> & Hf & _). apply elem_of_app in Hin as [?| ->%list_elem_of_singleton]; [auto|].
  by rewrite Hr.
Qed.

Lemma rmb_no_credit w R role :
  collecting w -> debits_in R w -> bool_decide (role ∈ R) = false -> credit_failed (leg w role).
Proof. intros Hc Hd Hr. by rewrite (credit_role_free R w). Qed.

Lemma grows_debits w w' cs R : grows w w' cs -> debits_in R w -> debits_in R w'.
Proof. intros Hg. apply (grows_debits_in _ _ _ Hg). Qed.

Lemma collecting_rmb_credits w : collecting w -> debits_in ["seller_debit"%string] w -> rmb_credits w.
Proof.
  intros Hc Hd. split_and!.
  - intros l Hin Hs. by rewrite (Hc l Hin) in Hs.
  - intros l Hl. by rewrite (credit_role_free ["seller_debit"%string] w) in Hl.
  - intros l Hl. by rewrite (credit_role_free ["seller_debit"%string] w) in Hl.
Qed.

Lemma rmb_escrow_ok p r w r' w' :
  contract_ok r w -> r_kind r = RmbKind -> w_stage w = SRmbEscrow -> rmb_escrow p r w = Ok (r', w') ->
  contract_ok r' w' /\ planned r w r' w'.
Proof.
  intros Hok Hk Hst. unfold rmb_escrow. cbv zeta. pose proof Hok as Hok'. by_kind Hok' Hst.
  destruct Hok as [Hl Hs Hb _]. rename H0 into Hd, H5 into Hc.
  set (w1 := addLeg w "seller_debit" (r_seller r) StreamDebit (Some (Bundle (w_seller_assets w)))).
  destruct (debited_add r w "seller_debit" (r_seller r) _ Hl Hs) as [Hl1 Hc1 Hp1 Hs1 Hb1 Hst1 _].
  fold w1 in Hl1, Hc1, Hp1, Hs1, Hb1, Hst1. specialize (Hc1 Hc). rewrite Hst in Hst1.
  assert (Hd1 : debits_in ["seller_debit"%string] w1) by (apply debit_debits_in; [set_solver|done]).
  destruct (collecting_rmb_credits w1 Hc1 Hd1) as (Hcr1 & Hbk1 & Hbk2).
  assert (Hpl : forall s st, planned r w (set_r_status r s) (set_stage w1 st))
    by (intros s st; eapply planned_trans; [exact Hp1|apply planned_stage]).
  clearbody w1. destruct (done (leg w1 "seller_debit")) eqn:Hdone; cbn [negb].
  2: { intros [= <- <-]. split; [|done]. contract_build. rewrite kind_rmb by done. split_and!; try done.
       by rewrite Hst1. }
  assert (Hall : done_except [] w1) by (by eapply done_one).
  destruct (applied (leg w1 "seller_debit")) eqn:Ha; cbn [negb].
  2: { intros [= <- <-]. split; [|done]. contract_build. rewrite kind_rmb by done. split_and!; try done.
       by eapply rmb_no_credit. }
  destruct (w_cancel_requested w1 || _).
  - intros (w2 & Ht & [= <- <-])%bind_Ok.
    change (leg w1 "seller_debit") with (leg (set_stage w1 SRmbReturn) "seller_debit") in Ht.
    apply rmb_credit in Ht as ((cs & Hg & Hcs) & (Hcr2 & Hbk3 & Hbk4) & Hother); try done; [|set_solver].
    destruct (grows_fields _ _ _ Hg) as (Hs2 & Hb2 & Hst2 & _). cbn in Hs2, Hb2, Hst2.
    split; [|eapply planned_trans; [exact Hp1|by eapply planned_stage_grows]].
    constructor; [by apply (grows_legs_ok _ _ _ Hg)|cbn; congruence..|]. rewrite kind_rmb by done.
    split_and!; try done; [by apply (grows_debits _ _ _ _ Hg)|]. rewrite Hst2, Hother by done.
    by apply (rmb_no_credit w1 ["seller_debit"%string]).
  - intros [= <- <-]. split; [|done]. contract_build. rewrite kind_rmb by done. by split_and!.
Qed.

Lemma planned_grown r w w' cs : grows w w' cs -> planned r w r w'.
Proof.
  intros Hg. pose proof (planned_grows r w w' cs (r_status r) (w_stage w) Hg) as H.
  destruct (grows_fields _ _ _ Hg) as (_ & _ & Hst & _). rewrite <- Hst in H. by destruct r, w'.
Qed.

Lemma rmb_delivery_ok r w r' w' :
  contract_ok r w -> r_kind r = RmbKind -> w_stage w = SRmbDelivery -> rmb_delivery r w = Ok (r', w') ->
  contract_ok r' w' /\ planned r w r' w'.
Proof.
  intros Hok Hk Hst. unfold rmb_delivery. cbv zeta. pose proof Hok as Hok'. by_kind Hok' Hst.
  destruct Hok as [Hl Hs Hb _].
  destruct (applied (leg w "seller_debit")) eqn:Ha; cbn [negb]; [|done].
  intros (w1 & Ht & Hres)%bind_Ok.
  apply rmb_credit in Ht as ((cs & Hg & Hcs) & (Hcr1 & Hbk1 & Hbk2) & Hother); try done; [|set_solver].
  destruct (grows_fields _ _ _ Hg) as (Hs2 & Hb2 & Hst2 & _). rewrite Hst in Hst2.
  assert (Hret : leg w1 "seller_return" = None) by (by rewrite Hother).
  assert (Hdn : done_except [] w1) by (by apply (grows_done _ _ _ Hg)).
  assert (HK : forall s st,
    match st with
    | SRmbDelivery | SRmbDelivered => True
    | SRmbRefund => credit_failed (leg w1 "rmb_buyer_credit")
    | _ => False
    end -> contract_ok (set_r_status r s) (set_stage w1 st) /\ planned r w (set_r_status r s) (set_stage w1 st)).
  { intros s st Hst'. split; [|by eapply planned_grows].
    constructor; [by apply (grows_legs_ok _ _ _ Hg)|cbn; congruence..|]. rewrite kind_rmb by done.
    split_and!; try done; [by apply (grows_debits _ _ _ _ Hg)|]. cbn. by destruct st. }
  destruct (done (leg w1 "rmb_buyer_credit")) eqn:Hdone.
  - destruct (applied (leg w1 "rmb_buyer_credit")) eqn:Hap; injection Hres as <- <-; apply HK; [done|].
    apply done_Some in Hdone as (l & Hleg & Ho). rewrite Hleg in Hap |- *. cbn in Hap. zbool. done.
  - injection Hres as <- <-. pose proof (HK (r_status r) SRmbDelivery I) as HK'.
    rewrite <- Hst2 in HK'. by destruct r, w1.
Qed.

Lemma rmb_return_ok r w r' w' :
  contract_ok r w -> r_kind r = RmbKind -> w_stage w = SRmbReturn -> rmb_return r w = Ok (r', w') ->
  contract_ok r' w' /\ planned r w r' w'.
Proof.
  intros Hok Hk Hst. unfold rmb_return. cbv zeta. pose proof Hok as Hok'. by_kind Hok' Hst.
  destruct Hok as [Hl Hs Hb _]. intros (w1 & Ht & Hres)%bind_Ok.
  assert (Hg : (exists cs, grows w w1 cs) /\ rmb_credits w1 /\
    leg w1 "rmb_buyer_credit" = leg w "rmb_buyer_credit").
  { unfold return_leg in Ht. destruct (applied (leg w "seller_debit")) eqn:Ha.
    - apply rmb_credit in Ht as ((cs & Hg & Hcs) & Hcr & Hother); try done; [|set_solver].
      split_and!; eauto.
    - injection Ht as <-. split_and!; [|done|done]. exists []. apply grows_nil. }
  destruct Hg as ((cs & Hg) & (Hcr1 & Hbk1 & Hbk2) & Hbuy).
  destruct (grows_fields _ _ _ Hg) as (Hs2 & Hb2 & Hst2 & _). rewrite Hst in Hst2.
  assert (HK : forall s st, match st with SRmbReturn | SRmbReturned | SManual => True | _ => False end ->
    contract_ok (set_r_status r s) (set_stage w1 st) /\ planned r w (set_r_status r s) (set_stage w1 st)).
  { intros s st Hst'. split; [|by eapply planned_grows].
    constructor; [by apply (grows_legs_ok _ _ _ Hg)|cbn; congruence..|]. rewrite kind_rmb by done.
    split_and!; try done; [by apply (grows_debits _ _ _ _ Hg)|]. cbn.
    unfold leg in Hbuy. rewrite Hbuy. destruct st; try done. by right. }
  destruct (_ || done _); [|injection Hres as <- <-].
  - destruct (_ || applied _); injection Hres as <- <-; by apply HK.
  - pose proof (HK (r_status r) SRmbReturn I) as HK'. rewrite <- Hst2 in HK'. by destruct r, w1.
Qed.

Lemma planRmb_ok p r w r' w' :
  contract_ok r w -> r_kind r = RmbKind -> planRmb p r w = Ok (r', w') ->
  contract_ok r' w' /\ planned r w r' w'.
Proof.
  intros Hok Hk. unfold planRmb, stage_is. destruct (w_rmb w) as [t|]; [|done].
  assert (Hsame : Ok (r, w) = Ok (r', w') -> contract_ok r' w' /\ planned r w r' w')
    by (intros [= <- <-]; split; [done|apply planned_refl]).
  case_bool_decide as H1; [by apply rmb_escrow_ok|].
  case_bool_decide as H2; [split_if; [done|by apply rmb_delivery_ok]|].
  case_bool_decide as H3; [split_if; [done|by apply rmb_return_ok]|done].
Qed.

(** [plan] preserves the balance of a contract, and of the contract changes only
    what [planned] says. *)
Lemma plan_ok p r w now r' w' :
  contract_ok r w -> plan p r w now = Ok (r', w') -> contract_ok r' w' /\ planned r w r' w'.
Proof.
  intros Hok. unfold plan. destruct (r_kind r =? RmbKind) eqn:Hk; zbool; [by apply planRmb_ok|].
  assert (Hf : forall f, keeps r w f -> finish_flow f = Ok (r', w') -> contract_ok r' w' /\ planned r w r' w').
  { intros [r1 w1|r1 w1|e]; simpl; [| |done]; intros H [= <- <-]; exact H. }
  apply Hf. repeat apply keeps_then; [by apply keeps_official|..];
    auto using keeps_offer_escrow, keeps_buyer_escrow, keeps_confirm, keeps_bid_freeze, keeps_bid_refund,
      keeps_escrow, keeps_pay, keeps_lot_sold, keeps_expire, keeps_cancel, keeps_finish.
Qed.
