(* ===== verification/CommerceObserve.v ===== *)
(** * Trade: outcomes and command numbers on the legs of a contract

    The engine changes a leg twice: it writes the number of the command it
    issued, and later the outcome the outbox reports. Both are a [leg_step], and
    [contract_ok] survives any of them. *)

From stdpp Require Import base list gmap strings.
From Stdlib Require Import ZArith Lia.
From S2P Require Import Prelude CommerceData CommercePlan AssetOps CommerceStore CommerceInv.
Local Open Scope Z_scope.

Record leg_step (l l' : TradeCommerceLeg) : Prop := {
  ls_role : l_role l' = l_role l;
  ls_stream : l_stream l' = l_stream l;
  ls_bundle : l_bundle l' = l_bundle l;
  ls_outcome : l_outcome l <> 0 -> l_outcome l' = l_outcome l;
  ls_debit : l_stream l = StreamDebit -> l_outcome l' = 2 ->
             l_outcome l = 2 /\ l_snapshot l' = l_snapshot l \/
             exists b, Transfer (l_bundle l') (l_snapshot l') = Ok b }.

Lemma leg_step_refl l : leg_step l l.
Proof. by split; auto. Qed.

Lemma leg_step_op l op : leg_step l (set_l_op l op).
Proof. by split; auto. Qed.

(** ** What a step keeps of one leg *)
Lemma leg_step_ok l l' : leg_step l l' -> leg_ok l -> leg_ok l'.
Proof.
  intros [Hr Hs Hb Ho Hd] [[Hst (b & Hbu & Hn & Ht)]|[Hst (b & Hbu & Hn)]]; [left|right];
    (split; [congruence|]); exists b; split_and!; [congruence|done| |congruence|done].
  intros H2. destruct (Hd Hst H2) as [[Hl Hsn]|?]; [|done]. rewrite Hb, Hsn. auto.
Qed.

Lemma leg_step_out l l' a : leg_step l l' -> leg_out l' a = leg_out l a.
Proof. intros [_ Hs Hb _ _]. unfold leg_out. by rewrite Hs, Hb. Qed.

Lemma leg_step_in l l' a : leg_step l l' -> l_outcome l <> 0 -> leg_in l' a = leg_in l a.
Proof. intros [_ Hs Hb Ho _] Hne. unfold leg_in. by rewrite Hs, Hb, Ho. Qed.

Lemma leg_step_in_le l l' a : leg_step l l' -> leg_ok l -> leg_in l a <= leg_in l' a.
Proof.
  intros Hst Hok. destruct (Z.eq_dec (l_outcome l) 0) as [Hz|Hz]; [|rewrite (leg_step_in l l' a Hst Hz); lia].
  rewrite (leg_in_unapplied l) by lia. apply leg_in_nonneg. by eapply leg_step_ok.
Qed.

(** Induction along the two lists of legs, with what is known of the first. *)
Ltac by_legs H w' :=
  subst w'; cbn;
  match type of H with
  | Forall2 _ ?ls ?ls' => revert H; generalize ls ls'
  end;
  let a := fresh in let b := fresh in let H' := fresh in
  intros a b H'; induction H' as [|l l' ls ls' Hst _ IH]; [done|]; csimpl.

(** ** All legs of a workflow *)
Section steps.
Context (w : TradeCommerceWorkflow) (legs : list TradeCommerceLeg)
  (Hsteps : Forall2 leg_step (w_legs w) legs).
Let w' := set_legs w legs.

Lemma steps_roles : roles w' = roles w.
Proof using Hsteps.
  unfold roles. by_legs Hsteps w'.
  by rewrite IH, (ls_role _ _ Hst).
Qed.

Lemma steps_inv l' : l' ∈ legs -> exists l, l ∈ w_legs w /\ leg_step l l'.
Proof using Hsteps.
  intros Hin. apply list_elem_of_lookup in Hin as [i Hi].
  destruct (Forall2_lookup_r _ _ _ _ _ Hsteps Hi) as (l & Hl & Hst). exists l.
  split; [by eapply list_elem_of_lookup_2|done].
Qed.

Lemma steps_find f :
  (forall l l', leg_step l l' -> f l' = f l) ->
  match find_first f (w_legs w), find_first f legs with
  | Some l, Some l' => leg_step l l'
  | None, None => True
  | _, _ => False
  end.
Proof using Hsteps.
  intros Hf. by_legs Hsteps w'. rewrite (Hf _ _ Hst). by destruct (f l).
Qed.

Lemma steps_leg role :
  match leg w role, leg w' role with
  | Some l, Some l' => leg_step l l'
  | None, None => True
  | _, _ => False
  end.
Proof using Hsteps.
  apply steps_find. intros l l' Hst. unfold role_is. by rewrite (ls_role _ _ Hst).
Qed.

Lemma steps_pay_leg l : pay_leg w = Some l -> exists l', pay_leg w' = Some l' /\ leg_step l l'.
Proof using Hsteps.
  unfold pay_leg. change (pay_role w') with (pay_role w). change (w_legs w') with legs.
  pose proof (steps_find (fun l => HasPrefix (l_role l) (pay_role w +:+ "_"))) as H.
  destruct (find_first _ (w_legs w)) as [l0|], (find_first _ legs) as [l1|];
    try (specialize (H ltac:(intros ? ? Hst; by rewrite (ls_role _ _ Hst)))); try done.
  - intros [= ->]. eauto.
  - pose proof (steps_leg (pay_role w)) as H'. intros Hl. rewrite Hl in H'.
    destruct (leg w' (pay_role w)); [eauto|done].
Qed.

Lemma steps_leg_Some role l : leg w role = Some l -> exists l', leg w' role = Some l' /\ leg_step l l'.
Proof using Hsteps.
  intros Hl. pose proof (steps_leg role) as H. rewrite Hl in H. destruct (leg w' role); [eauto|done].
Qed.

Lemma steps_leg_back role l' : leg w' role = Some l' -> exists l, leg w role = Some l /\ leg_step l l'.
Proof using Hsteps.
  intros Hl. pose proof (steps_leg role) as H. rewrite Hl in H. destruct (leg w role); [eauto|done].
Qed.

Lemma steps_leg_None role : leg w role = None -> leg w' role = None.
Proof using Hsteps.
  intros Hl. pose proof (steps_leg role) as H. rewrite Hl in H. by destruct (leg w' role).
Qed.

Lemma steps_legs_ok : legs_ok w -> legs_ok w'.
Proof using Hsteps.
  intros [Hnd Hok]. split; [by rewrite steps_roles|]. intros l' (l & Hl & Hst)%steps_inv.
  eapply leg_step_ok; eauto.
Qed.

Lemma steps_collecting : collecting w -> collecting w'.
Proof using Hsteps. intros Hc l' (l & Hl & Hst)%steps_inv. rewrite (ls_stream _ _ Hst). auto. Qed.

Lemma steps_debits_in R : debits_in R w -> debits_in R w'.
Proof using Hsteps.
  intros Hd l' (l & Hl & Hst)%steps_inv. rewrite (ls_stream _ _ Hst), (ls_role _ _ Hst). auto.
Qed.

Lemma steps_done R : done_except R w -> done_except R w'.
Proof using Hsteps.
  intros Hd l' (l & Hl & Hst)%steps_inv. rewrite (ls_stream _ _ Hst), (ls_role _ _ Hst). intros Hs Hr.
  rewrite (ls_outcome _ _ Hst); by apply (Hd l).
Qed.

Lemma steps_unpaid R : unpaid_except R w -> unpaid_except R w'.
Proof using Hsteps.
  intros Hd l' (l & Hl & Hst)%steps_inv. rewrite (ls_stream _ _ Hst), (ls_role _ _ Hst). intros Hs Hr.
  destruct (Hd l Hl Hs Hr) as [H0 H2]. by rewrite (ls_outcome _ _ Hst).
Qed.

Lemma steps_credits : credits_applied w -> credits_applied w'.
Proof using Hsteps.
  intros Hc l' (l & Hl & Hst)%steps_inv. rewrite (ls_stream _ _ Hst). intros Hs.
  rewrite (ls_outcome _ _ Hst); [auto|]. by rewrite (Hc l).
Qed.

Lemma steps_ended r : ended r w -> ended r w'.
Proof using Hsteps. intros He Hr. by apply steps_credits, He. Qed.

Lemma steps_applied role : applied (leg w role) = true -> applied (leg w' role) = true.
Proof using Hsteps.
  intros (l & Hl & Ho)%applied_Some. destruct (steps_leg_Some _ _ Hl) as (l' & -> & Hst). cbn.
  rewrite (ls_outcome _ _ Hst); by rewrite Ho.
Qed.

Lemma steps_outflow a : outflow w' a = outflow w a.
Proof using Hsteps.
  unfold outflow. by_legs Hsteps w'.
  by rewrite IH, (leg_step_out _ _ _ Hst).
Qed.

Lemma steps_inflow_le a : legs_ok w -> inflow w a <= inflow w' a.
Proof using Hsteps.
  intros [_ Hok]. unfold inflow. revert Hok. by_legs Hsteps w'. intros Hok.
  pose proof (leg_step_in_le l l' a Hst (Hok l ltac:(left))).
  enough (sumZ (fun l => leg_in l a) ls <= sumZ (fun l => leg_in l a) ls') by lia.
  apply IH; intros x Hx; apply Hok; by right.
Qed.

Lemma steps_inflow a : legs_ok w -> done_except [] w -> inflow w' a = inflow w a.
Proof using Hsteps.
  intros [_ Hok] Hd. unfold inflow, done_except in *. revert Hok Hd.
  by_legs Hsteps w'. intros Hok Hd.
  rewrite IH by (intros x Hx; (apply Hok || apply Hd); by right). f_equal.
  destruct (leg_ok_stream l (Hok l ltac:(left))) as [Hs|Hs].
  - apply leg_step_in; [done|]. apply Hd; [by left|done|]. set_solver.
  - rewrite !leg_in_credit; [done..|]. by rewrite (ls_stream _ _ Hst).
Qed.

Lemma steps_own_debit role : own_debit w role -> own_debit w' role.
Proof using Hsteps.
  intros Hb l' (l & Hl & Hst)%steps_leg_back. rewrite (ls_bundle _ _ Hst), (ls_stream _ _ Hst).
  by apply Hb.
Qed.

(** A leg that is there keeps whether it was applied, once it is done. *)
Lemma steps_applied_done R role :
  done_except R w -> role ∉ R -> (forall l, leg w role = Some l -> l_stream l = StreamDebit) ->
  applied (leg w' role) = applied (leg w role).
Proof using Hsteps.
  intros Hd HR Hs. pose proof (steps_leg role) as H.
  destruct (leg w role) as [l|] eqn:El, (leg w' role) as [l'|]; try done. cbn.
  rewrite (ls_outcome _ _ H); [done|]. pose proof (Hs l eq_refl). apply leg_Some in El as [Hin Hr].
  apply Hd; [done|done|by rewrite Hr].
Qed.

Lemma steps_opt_in role a :
  applied (leg w role) = true -> opt_in (leg w' role) a = opt_in (leg w role) a.
Proof using Hsteps.
  intros (l & Hl & Ho)%applied_Some. destruct (steps_leg_Some _ _ Hl) as (l' & -> & Hst). rewrite Hl. cbn.
  apply leg_step_in; [done|]. by rewrite Ho.
Qed.

Lemma steps_credit_failed role : credit_failed (leg w role) -> credit_failed (leg w' role).
Proof using Hsteps.
  pose proof (steps_leg role) as H. destruct (leg w role) as [l|], (leg w' role) as [l'|]; try done. cbn.
  intros [H0 H2]. by rewrite (ls_outcome _ _ H).
Qed.

Lemma steps_backed role : backed_by_seller w role -> backed_by_seller w' role.
Proof using Hsteps.
  intros Hb l' (l & Hl & Hst)%steps_leg_back. destruct (Hb l Hl) as [Ha Hw].
  split; [by apply steps_applied|]. intros a. by rewrite (leg_step_out _ _ _ Hst), steps_opt_in.
Qed.
End steps.

(** ** The invariant of the contract *)
Lemma steps_kind_inv r w legs :
  Forall2 leg_step (w_legs w) legs -> contract_ok r w -> kind_inv r (set_legs w legs).
Proof.
  intros Hst [Hl _ _ Hk]. set (w' := set_legs w legs).
  assert (Hcol : collecting w -> collecting w') by (by apply steps_collecting).
  assert (Hdeb : forall R, debits_in R w -> debits_in R w') by (intros R; by apply steps_debits_in).
  assert (Hdone : forall R, done_except R w -> done_except R w') by (intros R; by apply steps_done).
  assert (Hend : ended r w -> ended r w') by (by apply steps_ended).
  assert (Happ : forall role, applied (leg w role) = true -> applied (leg w' role) = true)
    by (intros role; by apply steps_applied).
  assert (Hbal : done_except [] w -> balanced w -> balanced w').
  { intros Hd Hb a. rewrite (steps_outflow w legs Hst), (steps_inflow w legs Hst) by done. apply Hb. }
  assert (Hcons : conserved w -> conserved w').
  { intros Hb a. rewrite (steps_outflow w legs Hst). pose proof (steps_inflow_le w legs Hst a Hl) as Hle.
    fold w' in Hle.    specialize (Hb a). lia. }
  unfold kind_inv in *.
  repeat match goal with |- context [if ?c then _ else _] => destruct c end; try done.
  - unfold official_inv in *. change (w_stage w') with (w_stage w). destruct_and!. split_and!; auto.
  - unfold player_trade_inv in *. change (w_stage w') with (w_stage w). destruct Hk as [Hd Hk]. split; [auto|].
    destruct (w_stage w); destruct_and?; auto.
  - unfold consignment_inv in *. change (w_stage w') with (w_stage w). destruct Hk as (Hq & Hr & Hk). split_and!; [done|..].
    + intros l' Hin Hs. destruct (steps_inv w legs Hst l' Hin) as (l & Hl' & H).
      rewrite (ls_role _ _ H). apply Hr; [done|]. by rewrite <- (ls_stream _ _ H).
    + destruct (w_stage w); try (destruct_and?; by auto).
      * destruct Hk as (Hc & Ha & Hu). split_and!; auto. by apply (steps_unpaid w legs Hst).
      * destruct Hk as (Hc & Ha & l & Hin & Hp & Hne & Hu). split_and!; auto.
        destruct (steps_pay_leg w legs Hst l Hp) as (l' & Hp' & H). exists l'.
        rewrite (ls_role _ _ H). split_and!; try done; [|by apply (steps_unpaid w legs Hst)].
        unfold pay_leg in Hp'. destruct (find_first _ (w_legs _)) eqn:Hf.
        -- apply find_first_Some in Hf as [? _]. by simplify_eq.
        -- by apply leg_Some in Hp' as [? _].
  - unfold child_inv in *. change (w_stage w') with (w_stage w). destruct Hk as [Hd Hk]. split; [auto|]. destruct (w_stage w); auto.
  - unfold order_inv in *. destruct Hk as (Ht & Hd & Hb & Hf & Hk).
    assert (Hrem : done_except [] w -> forall a, order_remainder r w' a = order_remainder r w a).
    { intros Hdn a. unfold order_remainder, w'.
      rewrite (steps_applied_done w legs Hst []); [done..|set_solver|]. intros l Hl'. by apply Hb. }
    split_and!; [by destruct Ht|auto|by apply (steps_own_debit w legs Hst)| |].
    { destruct Hf; [by left|right; auto]. }
    change (w_stage w') with (w_stage w). destruct (w_stage w); destruct_and?; try done; auto.
    all: try (split; [auto|intros a; unfold w'; rewrite (steps_outflow w legs Hst); fold w';
      rewrite Hrem by done; auto]).
    intros a. unfold w' at 1. rewrite (steps_outflow w legs Hst). specialize (Hk a).
    unfold order_remainder in *. destruct (applied (leg w "seller_debit")) eqn:Ea.
    + rewrite (Happ "seller_debit"%string) by done. done.
    + destruct (applied (leg w' "seller_debit")); [|done]. destruct Ht as [? ? [? ?] ? ?].
      unfold unit_worth in *. destruct (r_side r =? 1); split_if; nia.
  - unfold lot_inv in *. destruct Hk as (Hd & Hc & Hk).
    assert (Hcl : forall a, lot_claim w' a = lot_claim w a).
    { intros a. unfold lot_claim. pose proof (steps_leg w legs Hst "seller_receive") as H. fold w' in H.
      change (w_highest_bidder w') with (w_highest_bidder w). by destruct (leg w "seller_receive"), (leg w' "seller_receive"). }
    assert (Hlot : done_except [] w -> (forall a, outflow w a = inflow w a + lot_claim w a) ->
      forall a, outflow w' a = inflow w' a + lot_claim w' a).
    { intros Hdn Ho a. rewrite Hcl. unfold w'. rewrite (steps_outflow w legs Hst), (steps_inflow w legs Hst) by done.
      apply Ho. }
    split_and!; [auto|done|]. change (w_stage w') with (w_stage w). destruct (w_stage w); destruct_and?; try done; auto.
    intros a. rewrite Hcl. unfold w'. rewrite (steps_outflow w legs Hst).
    pose proof (steps_inflow_le w legs Hst a Hl). specialize (Hk a). lia.
  - unfold rmb_inv in *. destruct Hk as (Hd & Hcr & Hb1 & Hb2 & Hk).
    assert (Hcf : credit_failed (leg w "rmb_buyer_credit") -> credit_failed (leg w' "rmb_buyer_credit"))
      by (apply (steps_credit_failed w legs Hst)).
    assert (Hno : leg w "seller_return" = None -> leg w' "seller_return" = None)
      by (apply (steps_leg_None w legs Hst)).
    split_and!; [auto| |by apply (steps_backed w legs Hst)|by apply (steps_backed w legs Hst)|].
    + intros l' Hin Hs. destruct (steps_inv w legs Hst l' Hin) as (l & Hl' & H).
      rewrite (ls_role _ _ H). apply Hcr; [done|]. by rewrite <- (ls_stream _ _ H).
    + change (w_stage w') with (w_stage w). destruct (w_stage w); destruct_and?; try done; auto. destruct Hk; auto.
  - unfold bid_inv in *. destruct Hk as (Hd & Hc & Hb & Hk).
    split_and!; [auto|done|by apply (steps_own_debit w legs Hst)|].
    change (w_stage w') with (w_stage w). destruct (w_stage w); destruct_and?; try done; auto.
    split_and!; auto. destruct H2 as [?|(? & ? & ?)]; [left; auto|right; auto].
Qed.

Lemma steps_contract_ok r w legs :
  Forall2 leg_step (w_legs w) legs -> contract_ok r w -> contract_ok r (set_legs w legs).
Proof.
  intros Hst Hok. pose proof Hok as [Hl Hs Hb _]. constructor; [by apply (steps_legs_ok w legs Hst)|done|done|].
  by apply steps_kind_inv.
Qed.

(** ** The engine's two passes *)
Lemma observe_leg_step o l l' : observe_leg o l = Ok (Some l') -> leg_step l l'.
Proof.
  unfold observe_leg. destruct ((l_op l =? 0) || _) eqn:Hc; [intros [= <-]; apply leg_step_refl|].
  apply orb_false_iff in Hc as [_ Ho%negb_false_iff%Z.eqb_eq].
  destruct (LegResult o (l_op l)) as [out|]; [|done].
  destruct (Pending out); [intros [= <-]; apply leg_step_refl|].
  destruct (negb (Final out)); [done|]. split_if; [done|].
  intros (l1 & H1 & H2)%bind_Ok.
  assert (Hl1 : exists s, l1 = set_l_snapshot (set_l_outcome l (lo_status out)) s).
  { destruct (lo_snapshot out); simplify_eq; [|by eexists]. exists (l_snapshot l). by destruct l. }
  destruct Hl1 as [s ->]. clear H1.
  assert (Hl' : l' = set_l_snapshot (set_l_outcome l (lo_status out)) s /\
     (l_stream l = StreamDebit -> lo_status out = 2 ->
      exists b, Transfer (l_bundle l') (l_snapshot l') = Ok b)).
  { destruct (_ && _) eqn:Hd in H2.
    - apply bind_Ok in H2 as (b & Hb & [= <-]). split; [done|]. intros _ _. exists b.
      destruct (Transfer _ _) eqn:Ht in Hb; [|done]. cbn in Hb. by simplify_eq.
    - injection H2 as <-. split; [done|]. intros Hs H2. cbn in Hd. by rewrite Hs, H2 in Hd. }
  destruct Hl' as [-> Hl']. split; [done|done|done|by rewrite Ho|]. cbn. auto.
Qed.

Lemma observe_legs_steps o legs : forall legs' partial,
  observe_legs o legs = Ok (legs', partial) -> Forall2 leg_step legs legs'.
Proof.
  induction legs as [|l legs IH]; intros legs' partial; cbn; [by intros [= <- <-]|].
  intros (out & Ho & H)%bind_Ok. destruct out as [l1|].
  - apply bind_Ok in H as ([legs1 b] & H1 & [= <- <-]). constructor; [by eapply observe_leg_step|by eapply IH].
  - injection H as <- <-. apply Forall2_same_length_lookup_2; [done|]. intros i x y Hx Hy. simplify_eq.
    apply leg_step_refl.
Qed.

Lemma steps_trans l1 l2 l3 :
  Forall2 leg_step l1 l2 -> Forall2 (fun a b => exists op, b = set_l_op a op) l2 l3 -> Forall2 leg_step l1 l3.
Proof.
  intros H12. revert l3. induction H12 as [|x y l1 l2 Hst _ IH]; intros l3 H23; inversion H23; subst; [constructor|].
  constructor; [|auto]. match goal with H : exists op, _ |- _ => destruct H as [op ->] end.
  destruct Hst as [? ? ? ? ?]. split; done.
Qed.

Definition numbered (l l' : list TradeCommerceLeg) : Prop := Forall2 (fun a b => exists op, b = set_l_op a op) l l'.

Lemma numbered_refl l : numbered l l.
Proof.
  apply Forall2_same_length_lookup_2; [done|]. intros i x y Hx Hy. rewrite Hx in Hy. injection Hy as <-.
  exists (l_op x). by destruct x.
Qed.

Lemma numbered_trans l1 l2 l3 : numbered l1 l2 -> numbered l2 l3 -> numbered l1 l3.
Proof.
  intros H12. revert l3. induction H12 as [|x y l1 l2 [op ->] _ IH]; intros l3 H23; inversion H23; subst; [constructor|].
  constructor; [|by apply IH]. match goal with H : exists op, _ |- _ => destruct H as [op' ->] end. by exists op'.
Qed.

Lemma numbered_steps l1 l2 : numbered l1 l2 -> Forall2 leg_step l1 l2.
Proof. intros H. eapply Forall2_impl; [exact H|]. intros x y [op ->]. apply leg_step_op. Qed.

(** The legs to number are those of the contract, up to their numbers. *)
Definition pends (legs : list TradeCommerceLeg) (pending : list (nat * TradeCommerceLeg)) : Prop :=
  forall i l, (i, l) ∈ pending -> exists l0 op, legs !! i = Some l0 /\ l0 = set_l_op l op.

Lemma numbered_insert legs i l op pending :
  pends legs ((i, l) :: pending) ->
  numbered legs (<[i := set_l_op l op]> legs) /\ pends (<[i := set_l_op l op]> legs) pending.
Proof.
  intros Hp. destruct (Hp i l ltac:(left)) as (l0 & op0 & Hl0 & ->). split.
  - apply Forall2_same_length_lookup_2; [by rewrite length_insert|]. intros j x y Hx Hy.
    destruct (decide (i = j)) as [<-|Hne].
    + rewrite list_lookup_insert_eq in Hy by (by eapply lookup_lt_Some). simplify_eq. by exists op.
    + rewrite list_lookup_insert_ne in Hy by done. rewrite Hx in Hy. injection Hy as <-.
      exists (l_op x). by destruct x.
  - intros j l2 Hin. destruct (Hp j l2 ltac:(by right)) as (l3 & op3 & Hl3 & ->).
    destruct (decide (i = j)) as [<-|Hne].
    + rewrite list_lookup_insert_eq by (by eapply lookup_lt_Some). eexists _, op. split; [done|].
      rewrite Hl0 in Hl3. apply (f_equal (fun x => set_l_op (default l x) op)) in Hl3. exact Hl3.
    + rewrite list_lookup_insert_ne by done. eauto.
Qed.

Lemma issue_legs_numbered env r w pending : forall o legs ids o' legs',
  pends legs pending -> issue_legs env r w o legs pending ids = Ok (o', legs') -> numbered legs legs'.
Proof.
  induction pending as [|[i l] pending IH]; intros o legs ids o' legs' Hp; cbn.
  { intros [= <- <-]. apply numbered_refl. }
  destruct ids as [|op ids]; [done|]. intros ([allocs o1] & _ & (o2 & _ & H)%bind_Ok)%bind_Ok.
  destruct (numbered_insert legs i l op pending Hp) as [Hn Hp']. eapply numbered_trans; [done|]. by eapply IH.
Qed.

Lemma pending_legs_pends legs : pends legs (pending_legs legs).
Proof.
  intros i l Hin. unfold pending_legs in Hin. rewrite sort_stable_perm in Hin.
  apply elem_of_keep_if in Hin as [Hin _].
  apply elem_of_lookup_imap in Hin as (j & x & [= -> ->] & Hx). exists x, (l_op x). split; [done|]. by destruct x.
Qed.
