(* ===== verification/CommerceSteps.v ===== *)
(** * Trade: what one operation does to the contracts

    [evolves]: how the row of a contract may change while no other row is
    involved. Every operation but the creation of a row, the acceptance of a bid
    and a match of two orders changes each row this way ([db_evolves]). *)

From stdpp Require Import base list gmap strings.
From Stdlib Require Import ZArith Lia.
From S2P Require Import Prelude RoleRoute CommerceData CommercePlan AssetOps CommerceStore CommerceMarket CommerceInv CommercePlanThms CommerceObserve.
Local Open Scope Z_scope.

(** ** The terms of a contract *)
Record same_terms (r r' : TradeCommerceRecord) : Prop := {
  st_id : r_id r' = r_id r;
  st_kind : r_kind r' = r_kind r;
  st_seller : r_seller r' = r_seller r;
  st_market : r_market_id r' = r_market_id r;
  st_item : r_item_config r' = r_item_config r;
  st_side : r_side r' = r_side r;
  st_price : r_unit_price r' = r_unit_price r;
  st_quantity : r_quantity r' = r_quantity r;
  st_currency : r_currency r' = r_currency r;
  st_expires : r_expires r' = r_expires r;
  st_parent : r_parent r' = r_parent r;
  st_counterparty : r_counterparty r' = r_counterparty r;
  st_key : r_request_key r' = r_request_key r;
  st_digest : r_request_digest r' = r_request_digest r }.

#[global] Instance same_terms_refl : Reflexive same_terms.
Proof. by split. Qed.
#[global] Instance same_terms_trans : Transitive same_terms.
Proof. intros a b c [] []. split; congruence. Qed.

(** [contract_ok] reads of a record its terms, its status and its fill. *)
Definition same_goods (r r' : TradeCommerceRecord) : Prop :=
  r_kind r' = r_kind r /\ r_item_config r' = r_item_config r /\ r_side r' = r_side r /\
  r_unit_price r' = r_unit_price r /\ r_quantity r' = r_quantity r /\ r_currency r' = r_currency r.

Lemma contract_ok_goods r r' w :
  same_goods r r' -> r_status r' = r_status r -> r_filled r' = r_filled r ->
  contract_ok r w -> contract_ok r' w.
Proof.
  intros (Hk & Hi & Hs & Hp & Hq & Hc) Hst Hf [Hl Hse Hb Hkind]. constructor; [done..|].
  unfold kind_inv in *. rewrite Hk, Hs. clear Hl Hse Hb.
  assert (Hu : forall a, unit_worth r' a = unit_worth r a) by (intros a; unfold unit_worth; by rewrite Hs, Hc, Hp, Hi).
  assert (Hr : forall a, order_remainder r' w a = order_remainder r w a)
    by (intros a; unfold order_remainder; by rewrite Hq, Hf, Hu).
  assert (He : ended r w -> ended r' w) by (unfold ended; by rewrite Hst).
  repeat match goal with |- context [if ?c then _ else _] => destruct c end; try done.
  - unfold player_trade_inv in *. destruct Hkind as [? H]. split; [done|].
    destruct (w_stage w); naive_solver.
  - unfold consignment_inv in *. destruct Hkind as (? & ? & H). rewrite Hp. split_and!; [done..|].
    destruct (w_stage w); naive_solver.
  - unfold child_inv in *. destruct Hkind as [? H]. split; [done|]. destruct (w_stage w); naive_solver.
  - unfold order_inv in *. destruct Hkind as ([] & ? & ? & ? & H). rewrite Hf.
    split_and!; [|done..|].
    + constructor; rewrite ?Hs, ?Hq, ?Hp, ?Hf; try done. intros a. by rewrite Hu.
    + destruct (w_stage w); try done; destruct_and?; split_and?; try done; intros a; rewrite Hr; done.
  - unfold lot_inv in *. destruct Hkind as (? & ? & H). split_and!; [done..|]. destruct (w_stage w); naive_solver.
  - unfold bid_inv in *. destruct Hkind as (? & ? & ? & H). split_and!; [done..|]. rewrite Hst.
    destruct (w_stage w); naive_solver.
Qed.

Lemma contract_ok_terms r r' w :
  same_terms r r' -> r_status r' = r_status r -> r_filled r' = r_filled r ->
  contract_ok r w -> contract_ok r' w.
Proof. intros []. by apply contract_ok_goods. Qed.

(** ** How one row may change *)

(** A bid whose custody backs a lot, now or for good. *)
Definition held_bid (r : TradeCommerceRecord) (w : TradeCommerceWorkflow) : Prop :=
  r_kind r = BidKind /\ (w_stage w = SBidHeld \/ w_stage w = SDone \/ w_stage w = SManual) /\
  collecting w /\ applied (leg w "bid_debit") = true.

Record evolves (r : TradeCommerceRecord) (w : TradeCommerceWorkflow)
    (r' : TradeCommerceRecord) (w' : TradeCommerceWorkflow) : Prop := {
  ev_ok : contract_ok r' w';
  ev_terms : same_terms r r';
  ev_filled : r_filled r' = r_filled r;
  ev_assets : w_seller_assets w' = w_seller_assets w;
  ev_lot : r_kind r = LotKind -> w_highest_bidder w' = w_highest_bidder w /\
           w_winning_bid_id w' = w_winning_bid_id w /\ w_buyer_assets w' = w_buyer_assets w;
  ev_bid : held_bid r w -> held_bid r' w';
  ev_child : r_kind r = MarketKind -> r_side r = 0 -> forall a, outflow w' a = outflow w a }.

Lemma evolves_refl r w : contract_ok r w -> evolves r w r w.
Proof. by split. Qed.

Lemma evolves_trans r w r1 w1 r2 w2 : evolves r w r1 w1 -> evolves r1 w1 r2 w2 -> evolves r w r2 w2.
Proof.
  intros [? Ht ? ? Hl Hb Hc] [? Ht2 ? ? Hl2 Hb2 Hc2].
  split; [done|by etrans|congruence|congruence|..].
  - intros Hk. rewrite (st_kind _ _ Ht) in Hl2. destruct (Hl Hk) as (? & ? & ?), (Hl2 Hk) as (? & ? & ?).
    split_and!; congruence.
  - auto.
  - intros Hk Hs a. rewrite Hc2, Hc; [done..| |]; by rewrite ?(st_kind _ _ Ht), ?(st_side _ _ Ht).
Qed.

(** A change of status and stage alone, where the invariant allows it. *)
Lemma evolves_restage r w s st :
  contract_ok (set_r_status r s) (set_stage w st) ->
  (held_bid r w -> st = SBidHeld \/ st = SDone \/ st = SManual) ->
  evolves r w (set_r_status r s) (set_stage w st).
Proof. intros Hok Hb. split; try done. intros H. destruct (Hb H), H as (? & _ & ? & ?); by split_and!; auto. Qed.

Lemma evolves_legs r w legs :
  Forall2 leg_step (w_legs w) legs -> contract_ok r w -> evolves r w r (set_legs w legs).
Proof.
  intros Hst Hok. split; try done; [by apply steps_contract_ok| |].
  - intros (? & ? & ? & ?). split_and!; [done..|by apply steps_collecting|by apply steps_applied].
  - intros _ _ a. by apply steps_outflow.
Qed.

(** ** [plan] *)
(** From delivery on, only the last block of [plan] has work; at the idle stages
    not even that one. *)
Definition idle (st : stage) : bool :=
  match st with
  | SBidReady | SBidHeld | SMarketWait | SDone | SManual => true
  | _ => false
  end.
Definition late (st : stage) : bool :=
  match st with SDeliver | SReturn => true | _ => idle st end.

Lemma plan_late p r w now :
  r_kind r <> RmbKind -> late (w_stage w) = true -> plan p r w now = finish_flow (plan_finish r w).
Proof.
  intros Hk Hst. unfold plan. rewrite (proj2 (Z.eqb_neq _ _) Hk).
  assert (H : forall s, late s = false -> stage_is w s = false).
  { intros s Hs. apply bool_decide_eq_false_2. intros Heq. by rewrite Heq, Hs in Hst. }
  unfold plan_official. rewrite H by done. cbn [then_block].
  unfold plan_offer_escrow. rewrite H by done. cbn [then_block].
  unfold plan_buyer_escrow. rewrite H by done. cbn [then_block].
  unfold plan_confirm. rewrite (H SConfirm), andb_false_r by done. cbn [andb then_block].
  unfold plan_bid_freeze. rewrite H by done. cbn [then_block].
  unfold plan_bid_refund. rewrite H by done. cbn [then_block].
  unfold plan_escrow. rewrite H by done. cbn [then_block].
  unfold plan_pay. rewrite H by done. cbn [then_block].
  unfold plan_lot_sold. rewrite H by done. cbn [andb then_block].
  unfold plan_expire. rewrite (H SOpen), (H SLotOpen) by done. cbn [andb orb then_block].
  unfold plan_cancel. by rewrite (H SOpen), (H SLotOpen), (H SMarketOpen), andb_false_r by done.
Qed.

Lemma plan_idle p r w now :
  r_kind r <> RmbKind -> idle (w_stage w) = true -> plan p r w now = Ok (r, w).
Proof.
  intros Hk Hst. rewrite plan_late; [|done|by destruct (w_stage w)]. unfold plan_finish, stage_is.
  by rewrite !bool_decide_eq_false_2 by (intros Heq; by rewrite Heq in Hst).
Qed.

(** A child contract only waits for its credits. *)
Lemma plan_child p r w now r' w' :
  r_kind r = MarketKind -> w_stage w = SDeliver -> plan p r w now = Ok (r', w') -> w_legs w' = w_legs w.
Proof.
  intros Hk Hst. rewrite plan_late; [|by rewrite Hk|by rewrite Hst].
  unfold plan_finish. destruct (_ || _); [|by intros [= <- <-]].
  destruct (finalCredits w) as [[] []]; cbn; try destruct (_ =? _); by intros [= <- <-].
Qed.

Lemma planned_terms r w r' w' : planned r w r' w' -> same_terms r r' /\ r_filled r' = r_filled r.
Proof. by intros [(s & b & -> & _) _]. Qed.

Lemma plan_evolves p r w now r' w' :
  contract_ok r w -> plan p r w now = Ok (r', w') -> evolves r w r' w'.
Proof.
  intros Hok Hp. destruct (plan_ok _ _ _ _ _ _ Hok Hp) as [Hok' Hpl].
  destruct (planned_terms _ _ _ _ Hpl) as [Ht Hf]. destruct Hpl as [_ (st & c & legs & Hw & _)].
  split; [done|done|done|by rewrite Hw|by rewrite Hw|..].
  - intros (Hk & Hst & Hc & Ha). rewrite plan_idle in Hp; [|by rewrite Hk|by destruct Hst as [->|[->| ->]]].
    by injection Hp as <- <-.
  - intros Hk Hs a. assert (Hl : w_legs w' = w_legs w); [|unfold outflow; by rewrite Hl].
    destruct Hok as [_ _ _ Hkind]. rewrite kind_child in Hkind by done. destruct Hkind as [_ Hstage].
    destruct (w_stage w) eqn:E; try done; [by eapply plan_child|..].
    1,2: rewrite plan_idle in Hp; [by injection Hp as <- <-|by rewrite Hk|by rewrite E].
Qed.

(** ** A contract set aside *)
Lemma balanced_conserved w : balanced w -> conserved w.
Proof. intros H a. by rewrite H. Qed.

Lemma order_remainder_nonneg r w a : order_terms r w -> 0 <= order_remainder r w a.
Proof. intros [_ ? [? _] ? _]. unfold order_remainder, unit_worth. repeat split_if; nia. Qed.

Lemma lot_claim_nonneg w a : selection_ok (w_buyer_assets w) -> 0 <= lot_claim w a.
Proof. intros H. unfold lot_claim. split_if; [|done]. by apply worth_in_nonneg, Bundle_nonneg. Qed.

Lemma manual_kind r w :
  contract_ok r w -> kind_inv (set_r_status r Manual) (set_stage w SManual).
Proof.
  intros [Hl Hs Hb Hk]. pose proof (fun Hc => collecting_conserved w Hl Hc) as Hcc.
  unfold kind_inv in *. change (r_kind (set_r_status r Manual)) with (r_kind r).
  change (r_side (set_r_status r Manual)) with (r_side r).
  repeat match goal with |- context [if ?c then _ else _] => destruct c end; try done.
  - unfold official_inv in *. naive_solver.
  - unfold player_trade_inv in *. destruct Hk as [? H]. split; [done|]. change (conserved w).
    destruct (w_stage w); destruct_and?; try done; auto using balanced_conserved.
  - unfold consignment_inv in *. destruct Hk as (? & ? & H). split_and!; [done..|]. change (conserved w).
    destruct (w_stage w); destruct_and?; try done; auto using balanced_conserved.
  - unfold child_inv in *. naive_solver.
  - unfold order_inv in *. destruct Hk as (Ht & ? & ? & ? & H).
    assert (Hrem : forall a, 0 <= order_remainder r w a) by (intros a; by apply order_remainder_nonneg).
    split_and!; [by destruct Ht|done..|]. intros a. change (outflow (set_stage w SManual) a) with (outflow w a).
    change (order_remainder (set_r_status r Manual) (set_stage w SManual) a) with (order_remainder r w a).
    specialize (Hrem a).
    destruct (w_stage w); destruct_and?; try done; rewrite ?collecting_outflow by done; auto;
      match goal with H : forall a, outflow w a = _ |- _ => rewrite H; lia end.
  - unfold lot_inv in *. destruct Hk as (? & ? & H). split_and!; [done..|]. intros a.
    change (outflow (set_stage w SManual) a) with (outflow w a).
    change (inflow (set_stage w SManual) a) with (inflow w a).
    change (lot_claim (set_stage w SManual) a) with (lot_claim w a).
    pose proof (lot_claim_nonneg w a Hb). pose proof (inflow_nonneg w a Hl).
    destruct (w_stage w); destruct_and?; try done; rewrite ?collecting_outflow by done; auto with lia;
      match goal with H : forall a, outflow w a = _ |- _ => rewrite H; lia end.
  - unfold rmb_inv in *. destruct Hk as (? & ? & ? & ? & H). split_and!; [done..|].
    assert (Hcol : collecting w -> leg w "seller_return" = None)
      by (intros Hc; by apply (credit_role_free ["seller_debit"%string] w)).
    change (leg w "seller_return" = None \/ credit_failed (leg w "rmb_buyer_credit")).
    destruct (w_stage w); destruct_and?; try done; auto.
  - unfold bid_inv in *. destruct Hk as (? & ? & ? & H). split_and!; [done..|]. change (conserved w).
    destruct (w_stage w); destruct_and?; try done; auto using balanced_conserved.
    match goal with H : _ \/ _ |- _ => destruct H as [?|(_ & ? & _)] end; auto using balanced_conserved.
Qed.

Lemma manual_evolves r w : contract_ok r w -> evolves r w (set_r_status r Manual) (set_stage w SManual).
Proof.
  intros Hok. apply evolves_restage; [|auto]. pose proof (manual_kind r w Hok). destruct Hok. by constructor.
Qed.

(** ** The barrier of a market order *)
Lemma barrier_cases db r w :
  marketBarrier db r w = (r, w) \/
  (r_kind r = MarketKind /\ r_side r <> 0 /\
   ((exists s st, marketBarrier db r w = (set_r_status r s, set_stage w st) /\
      (st = SManual /\ s = Manual \/ st = SMarketWait /\ w_stage w = SDone \/
       st = SDone /\ s = Cancelled /\ (w_stage w = SMarketWait \/ w_stage w = SDone) \/
       st = SDone /\ w_stage w = SMarketOpen /\ r_quantity r = r_filled r)))).
Proof.
  unfold marketBarrier. destruct (negb (r_kind r =? MarketKind) || _) eqn:Hk; [by left|].
  apply orb_false_iff in Hk as [Hk Hs]. zbool. destruct (existsb _ _); zbool.
  { right. split_and!; [done|done|]. eexists _, _. split; [done|auto]. }
  unfold stage_is. set (pending := existsb child_open _). destruct pending; cbn; rewrite ?andb_false_r, ?andb_true_r.
  - case_bool_decide as H1; cbn; rewrite ?andb_false_r; cbn; [|by left].
    right. split_and!; [done|done|]. eexists _, _. split; [done|auto].
  - case_bool_decide as H1; cbn.
    + right. split_and!; [done|done|]. rewrite !(bool_decide_eq_false_2 (SDone = SMarketOpen)) by done. cbn.
      eexists _, _. split; [done|auto 10].
    + rewrite andb_true_r. case_bool_decide as H2; cbn; [|by left].
      destruct (r_quantity r =? r_filled r) eqn:Hq; [|by left]. zbool.
      right. split_and!; [done|done|]. eexists _, _. split; [done|auto 10].
Qed.

Lemma order_done_remainder r w a :
  order_terms r w -> applied (leg w "seller_debit") = true -> r_quantity r = r_filled r -> order_remainder r w a = 0.
Proof. intros _ Ha Hq. unfold order_remainder. rewrite Ha, Hq. lia. Qed.

Lemma barrier_evolves db r w r' w' :
  contract_ok r w -> marketBarrier db r w = (r', w') -> evolves r w r' w'.
Proof.
  intros Hok Hb. destruct (barrier_cases db r w) as [Heq|(Hk & Hs & s & st & Heq & Hst)]; rewrite Heq in Hb;
    injection Hb as <- <-; [by apply evolves_refl|].
  destruct Hst as [[-> ->]|Hst]; [by apply manual_evolves|].
  apply evolves_restage; [|by intros (Hk' & _); rewrite Hk in Hk'].
  destruct Hok as [Hl Hse Hbu Hkind]. constructor; [done..|].
  rewrite kind_order in Hkind |- * by done. unfold order_inv in *.
  destruct Hkind as (Ht & Hd & Hown & Hf & Hstage). cbn [w_stage set_stage].
  assert (Ht' : order_terms (set_r_status r s) (set_stage w st)) by (by destruct Ht).
  split_and!; [done..|].
  destruct Hst as [[-> Hw]|[(-> & -> & Hw)|(-> & Hw & Hq)]].
  - by rewrite Hw in Hstage.
  - destruct Hw as [Hw|Hw]; by rewrite Hw in Hstage.
  - rewrite Hw in Hstage. destruct Hstage as [Hc Ha]. split.
    + eapply done_one; [done..|]. by apply applied_done.
    + intros a. rewrite collecting_outflow by done.
      change (order_remainder (set_r_status r s) (set_stage w SDone) a) with (order_remainder r w a).
      by rewrite order_done_remainder.
Qed.

(** ** Saving and advancing *)
Lemma saved_evolves r w r' w' now :
  evolves r w r' w' -> evolves r w (saved_row r r' w' now) w'.
Proof.
  intros [Hok Ht Hf Ha Hl Hb Hc]. pose proof Ht as [? ? ? ? ? ? ? ? ? ? ? ?]. split; try done.
  - eapply contract_ok_terms; [|..|exact Hok]; [|done|done]. by split.
  - intros H. destruct (Hb H) as (? & ?). split; [|done]. cbn. congruence.
Qed.

(** The last steps of [advance] on the row it locked. *)
Definition advanced (env : Env) (p : Policy) (ids : list Z) (db : TradeDB)
    (r : TradeCommerceRecord) (w : TradeCommerceWorkflow) (db' : TradeDB) : Prop :=
  exists o r' w', evolves r w r' w' /\ db' = with_commerce (with_outbox db o)
    (<[r_id r := saved_row r r' w' (en_now env)]> (tr_commerce db)).

Lemma Save_row db o r w r' w' now db' :
  tr_commerce db !! r_id r = Some r -> evolves r w r' w' ->
  Save (with_outbox db o) r' w' now = Ok db' ->
  db' = with_commerce (with_outbox db o) (<[r_id r := saved_row r r' w' now]> (tr_commerce db)).
Proof.
  intros Hr Hev. unfold Save. rewrite (st_id _ _ (ev_terms _ _ _ _ Hev)). cbn. rewrite Hr.
  split_if; [by intros [= <-]|done].
Qed.

Lemma corrupt_Ok {A} (m : res A) a : corrupt m = Ok a -> m = Ok a.
Proof. by destruct m. Qed.

Lemma numbered_evolves r w legs : numbered (w_legs w) legs -> contract_ok r w -> evolves r w r (set_legs w legs).
Proof. intros Hn. apply evolves_legs. by apply numbered_steps. Qed.

Lemma advance_planned_row p env ids db r w db' :
  tr_commerce db !! r_id r = Some r -> contract_ok r w ->
  advance_planned p env ids db r w = Ok db' -> advanced env p ids db r w db'.
Proof.
  intros Hr Hok. unfold advance_planned. intros ([r1 w1] & Hp%corrupt_Ok & H)%bind_Ok. revert H.
  destruct (marketBarrier db r1 w1) as [r2 w2] eqn:Hb. intros ([o legs] & Hi & H)%bind_Ok.
  assert (Hev : evolves r w r2 (set_legs w2 legs)).
  { pose proof (plan_evolves _ _ _ _ _ _ Hok Hp) as H1.
    pose proof (barrier_evolves _ _ _ _ _ (ev_ok _ _ _ _ H1) Hb) as H2.
    eapply evolves_trans; [exact H1|]. eapply evolves_trans; [exact H2|].
    apply numbered_evolves; [|apply H2]. eapply issue_legs_numbered, Hi. apply pending_legs_pends. }
  eexists _, r2, (set_legs w2 legs). split; [done|]. by eapply Save_row.
Qed.

Lemma advance_tx_row p env ids old db db' r w :
  tr_commerce db !! r_id old = Some r -> r_id r = r_id old -> r_workflow r = Some w -> contract_ok r w ->
  advance_tx p env ids old db = Ok db' -> advanced env p ids db r w db'.
Proof.
  intros Hr Hid Hw Hok. unfold advance_tx. intros (w0 & _ & (u & _ & (r1 & Hg & H)%bind_Ok)%bind_Ok)%bind_Ok.
  unfold Get in Hg. rewrite Hr in Hg. injection Hg as <-.
  apply bind_Ok in H as (w1 & Hw1%corrupt_Ok & H). unfold Workflow in Hw1. rewrite Hw in Hw1. injection Hw1 as <-.
  revert H. split_if; [done|]. intros (u2 & _ & ([legs partial] & Ho & H)%bind_Ok)%bind_Ok.
  pose proof (observe_legs_steps _ _ _ _ Ho) as Hst. pose proof (evolves_legs r w legs Hst Hok) as Hev.
  rewrite <- Hid in Hr. destruct partial.
  - assert (Hev2 : evolves r w (set_r_status r Manual) (set_stage (set_legs w legs) SManual))
      by (eapply evolves_trans; [exact Hev|]; apply manual_evolves, Hev).
    eexists _, _, _. split; [exact Hev2|]. by eapply Save_row.
  - apply advance_planned_row in H as (o & r' & w' & Hev2 & ->); [|done|apply Hev].
    eexists o, r', w'. split; [|done]. by eapply evolves_trans.
Qed.
