(* ===== verification/CommerceMutate.v ===== *)
(** * Trade: what the players' actions do to a contract

    The decisions of [Mutate] - confirm, buy, cancel - and the rows they save.
    The purchase of a consignment adds a debit whose role carries the number of
    the attempt; the numbers being distinct, [pay_leg] finds that debit and no
    older one. The last part puts the contracts of a database together. *)
From stdpp Require Import base list gmap strings pretty.
From Stdlib Require Import ZArith Lia.
From S2P Require Import Prelude RoleRoute CommerceData CommercePlan AssetOps CommerceStore CommerceMarket CommerceInv CommercePlanThms CommerceObserve CommerceSteps.
Local Open Scope Z_scope.

(** ** Roles are found by their number *)
Fixpoint no_char (c : Ascii.ascii) (s : string) : Prop :=
  match s with String.EmptyString => True | String.String a s' => a <> c /\ no_char c s' end.

Definition underscore : Ascii.ascii := Ascii.ascii_of_nat 95.

Lemma no_underscore_go x : forall s, no_char underscore s -> no_char underscore (pretty_N_go x s).
Proof.
  induction (N.lt_wf_0 x) as [x _ IH]; intros s Hs.
  destruct (decide (0 < x)%N) as [Hx|Hx]; [|by replace x with 0%N by lia].
  rewrite pretty_N_go_step by done. apply IH; [by apply N.div_lt|]. split; [|done].
  unfold pretty_N_char, underscore. by repeat case_match.
Qed.

Lemma FormatUint_no_underscore n : no_char underscore (FormatUint n).
Proof.
  unfold FormatUint, pretty, pretty_N. case_decide; [by split|]. by apply no_underscore_go.
Qed.

Lemma split_at_underscore a : forall b x y,
  no_char underscore a -> no_char underscore b -> (a +:+ "_" +:+ x = b +:+ "_" +:+ y)%string -> a = b.
Proof.
  induction a as [|c a IH]; intros [|d b] x y Ha Hb; cbn; [done|..].
  - intros [= <- _]. by destruct Hb.
  - intros [= -> _]. by destruct Ha.
  - intros [= -> H]. destruct Ha, Hb. f_equal. eapply IH; [done..|]. exact H.
Qed.

Lemma prefix_split s t : String.prefix s t = true -> exists u, t = (s +:+ u)%string.
Proof.
  revert t. induction s as [|c s IH]; intros t; [by intros _; exists t|]. destruct t as [|d t]; [done|]. cbn.
  destruct (Ascii.ascii_dec c d) as [->|]; [|done]. intros [u ->]%IH. by exists u.
Qed.

(** The role of an attempt starts like that of another only if the numbers agree. *)
Lemma pay_prefix_inj n i key :
  0 <= n -> 0 <= i ->
  HasPrefix ("buyer_debit_" +:+ FormatUint i +:+ "_" +:+ key)%string
    (("buyer_debit_" +:+ FormatUint n) +:+ "_")%string = true -> i = n.
Proof.
  intros Hn Hi [u Hu]%prefix_split. rewrite !string_app_assoc in Hu.
  apply (inj (String.app "buyer_debit_")) in Hu. symmetry in Hu.
  apply split_at_underscore in Hu; [|apply FormatUint_no_underscore..].
  unfold FormatUint in Hu. apply (inj pretty) in Hu. lia.
Qed.

(** ** The actions *)
Lemma evolves_player r w r' w' :
  r_kind r = PlayerTradeKind -> same_terms r r' -> r_filled r' = r_filled r ->
  w_legs w' = w_legs w -> w_seller_assets w' = w_seller_assets w -> w_buyer_assets w' = w_buyer_assets w ->
  contract_ok r w -> player_trade_inv r' w' -> evolves r w r' w'.
Proof.
  intros Hk Ht Hf Hl Hs Hb [Hlo Hso Hbo _] Hinv. split; try done.
  - constructor; [unfold legs_ok, roles; by rewrite Hl|by rewrite Hs|by rewrite Hb|].
    rewrite kind_player; [done|]. by rewrite (st_kind _ _ Ht).
  - by rewrite Hk.
  - intros (Hk' & _). by rewrite Hk in Hk'.
  - by rewrite Hk.
Qed.

Lemma confirm_evolves now me r w r' w' :
  contract_ok r w -> mutate_confirm now me r w = Ok (r', w') -> evolves r w r' w'.
Proof.
  intros Hok. unfold mutate_confirm.
  destruct (negb (r_kind r =? PlayerTradeKind) || _) eqn:Hc; [done|].
  apply orb_false_iff in Hc as [Hk Hst]. zbool. unfold stage_is in Hst.
  apply bool_decide_eq_true_1 in Hst. split_if; [done|]. intros ([r1 w1] & H1 & H2)%bind_Ok.
  pose proof Hok as [_ _ _ Hkind]. rewrite kind_player in Hkind by done. destruct Hkind as [Hd Hinv].
  rewrite Hst in Hinv. destruct Hinv as [Hcol Hdone].
  assert (Hbuy : done_except ["buyer_debit"%string] w)
    by (intros l ? ? _; apply Hdone; [done..|set_solver]).
  assert (Hmid : same_terms r r1 /\ r_filled r1 = r_filled r /\ w_legs w1 = w_legs w /\
    w_seller_assets w1 = w_seller_assets w /\ w_buyer_assets w1 = w_buyer_assets w /\
    (w_stage w1 = SConfirm \/ w_stage w1 = SBuyerEscrow)).
  { revert H1. repeat split_if; try done; intros [= <- <-]; cbn; by split_and!; auto. }
  destruct Hmid as (Ht & Hf & Hl & Hs & Hb & Hst1).
  assert (Hp : player_trade_inv r1 w1).
  { unfold player_trade_inv, debits_in, collecting, done_except. rewrite Hl. split; [done|].
    by destruct Hst1 as [->| ->]. }
  revert H2. split_if; intros [= <- <-]; apply evolves_player; try done.
  { by etrans; [exact Ht|]. }
  unfold player_trade_inv, debits_in, collecting, done_except. cbn. by rewrite Hl.
Qed.

Lemma contract_ok_cancel r w b : contract_ok r w -> contract_ok r (set_cancel_requested w b).
Proof. intros [? ? ? ?]. constructor; [done..|]. by apply kind_cancel_requested. Qed.

(** The stages from which a contract may be cancelled say nothing of its status. *)
Lemma cancel_evolves me r w r' w' :
  contract_ok r w -> mutate_cancel me r w = Ok (Some (r', w')) -> evolves r w r' w'.
Proof.
  intros Hok. unfold mutate_cancel. do 2 (split_if; [done|]).
  destruct (_ || _) eqn:Hc; [|done]. intros [= <- <-].
  assert (Hst : w_stage w <> SDone).
  { unfold stage_is in Hc. intros Heq; rewrite Heq in Hc;
      repeat (rewrite bool_decide_eq_false_2 in Hc by done); cbn in Hc; rewrite ?andb_false_r in Hc; done. }
  split; try done. pose proof (contract_ok_cancel _ _ true Hok) as [Hl Hs Hb Hk]. constructor; [done..|].
  unfold kind_inv in *. change (r_kind (set_r_status r CancelPending)) with (r_kind r).
  change (r_side (set_r_status r CancelPending)) with (r_side r).
  repeat match goal with |- context [if ?c then _ else _] => destruct c end; try done.
  - unfold player_trade_inv in *. cbn in *. destruct Hk. split; [done|]. by destruct (w_stage w); try naive_solver.
  - unfold consignment_inv in *. cbn in *. destruct Hk as (? & ? & ?). split_and!; [done..|].
    by destruct (w_stage w); try naive_solver.
  - unfold child_inv in *. cbn in *. destruct Hk. split; [done|]. by destruct (w_stage w); try naive_solver.
  - unfold order_inv in *. cbn in *. destruct Hk as ([] & ? & ? & ? & ?). split_and!; try done.
  - unfold lot_inv in *. cbn in *. destruct Hk as (? & ? & ?). split_and!; [done..|].
    by destruct (w_stage w); try naive_solver.
  - unfold bid_inv in *. cbn in *. destruct Hk as (? & ? & ? & ?). split_and!; [done..|].
    by destruct (w_stage w); try naive_solver.
Qed.

(** A purchase: the debit of the attempt is new, and [pay_leg] is that debit. *)
Section buy.
Context (r : TradeCommerceRecord) (w : TradeCommerceWorkflow) (key : string) (me : Z)
  (Hok : contract_ok r w) (Hk : r_kind r = ConsignmentKind) (Hst : w_stage w = SOpen).
Let n := w_quantity_reserved w + 1.
Let role := (("buyer_debit_" +:+ FormatUint n) +:+ "_" +:+ key)%string.
Let payment := Some (mkSelection [] [] 0 (r_currency r) (r_unit_price r)).
Let l := mkLeg role me StreamDebit (Some (Bundle payment)) 0 None 0.

Lemma buy_open :
  price_ok (r_unit_price r) (w_quantity_reserved w) /\
  (forall l, l ∈ w_legs w -> l_stream l = StreamDebit ->
     l_role l = "seller_debit"%string \/ buyer_role (w_quantity_reserved w) (l_role l)) /\
  collecting w /\ applied (leg w "seller_debit") = true /\ unpaid_except ["seller_debit"%string] w.
Proof using Hok Hk Hst.
  destruct Hok as [_ _ _ H]. rewrite kind_consignment in H by done. unfold consignment_inv in H.
  by rewrite Hst in H.
Qed.

Lemma buy_role_form : role = ("buyer_debit_" +:+ FormatUint n +:+ "_" +:+ key)%string.
Proof. apply string_app_assoc. Qed.

Lemma buy_prefix : HasPrefix role (("buyer_debit_" +:+ FormatUint n) +:+ "_")%string = true.
Proof.
  unfold HasPrefix. replace role with ((("buyer_debit_" +:+ FormatUint n) +:+ "_") +:+ key)%string
    by (unfold role; by rewrite !string_app_assoc). apply prefix_app_true.
Qed.

(** No older leg has the number of this attempt. *)
Lemma buy_old_leg x : x ∈ w_legs w -> HasPrefix (l_role x) (("buyer_debit_" +:+ FormatUint n) +:+ "_")%string = false.
Proof using Hok Hk Hst.
  destruct buy_open as ([_ Hq] & Hroles & Hcol & _). intros Hx.
  destruct (Hroles x Hx (Hcol x Hx)) as [->|(i & k & Hi & ->)]; [done|].
  destruct (HasPrefix _ _) eqn:E; [|done]. apply pay_prefix_inj in E; unfold n in *; lia.
Qed.

Lemma buy_fresh : leg w role = None.
Proof using Hok Hk Hst.
  apply leg_None. unfold roles. intros (x & Hr & Hx)%list_elem_of_fmap.
  pose proof (buy_old_leg x Hx) as H. rewrite <- Hr, buy_prefix in H. done.
Qed.

Lemma buy_contract w' :
  w_legs w' = w_legs w ++ [l] -> w_seller_assets w' = w_seller_assets w -> w_buyer_assets w' = payment ->
  w_quantity_reserved w' = n -> w_stage w' = SPay ->
  contract_ok (set_r_status (set_r_buyer r me) Escrowing) w'.
Proof using Hok Hk Hst.
  intros Hl Hs Hb Hq Hst'. destruct buy_open as ([Hprice Hn] & Hroles & Hcol & Hap & Hun).
  destruct Hok as [[Hnd Hlegs] Hso _ _].
  assert (Hpay : selection_ok payment) by (split; [done|constructor]).
  constructor.
  - split.
    + unfold roles. rewrite Hl, fmap_app. apply NoDup_app. split_and!; [done| |apply NoDup_singleton].
      intros x Hx ->%list_elem_of_singleton. by apply (proj1 (leg_None w role) buy_fresh).
    + intros x. rewrite Hl. intros [?| ->%list_elem_of_singleton]%elem_of_app; [auto|]. left. split; [done|].
      eexists. split_and!; [done|by apply Bundle_nonneg|done].
  - by rewrite Hs.
  - by rewrite Hb.
  - rewrite kind_consignment by done. unfold consignment_inv. rewrite Hst', Hq. cbn.
    assert (Hleg : forall r', leg w' r' = match leg w r' with Some x => Some x | None => find_first (role_is r') [l] end)
      by (intros r'; unfold leg; by rewrite Hl, find_first_app).
    split_and!; [split; [done|unfold n; lia]|..].
    + intros x. rewrite Hl. intros [Hx| ->%list_elem_of_singleton]%elem_of_app Hs'.
      * destruct (Hroles x Hx Hs') as [?|(i & k & ? & ?)]; [by left|right]. exists i, k. split; [unfold n; lia|done].
      * right. exists n, key. split; [unfold n; lia|apply buy_role_form].
    + intros x. rewrite Hl. by intros [?| ->%list_elem_of_singleton]%elem_of_app; [apply Hcol|].
    + rewrite Hleg. apply applied_Some in Hap as (d & -> & Ho). cbn. by rewrite Ho.
    + exists l. rewrite Hl. split_and!; [set_solver| |done|].
      * unfold pay_leg, pay_role. rewrite Hl, Hq, find_first_app.
        rewrite (proj2 (find_first_None _ _)); [|by intros x Hx; apply buy_old_leg].
        cbn [find_first].
        assert (HasPrefix (l_role l) (("buyer_debit_" +:+ FormatUint n) +:+ "_")%string = true) as ->
          by apply buy_prefix. done.
      * intros x. rewrite Hl. intros [Hx| ->%list_elem_of_singleton]%elem_of_app Hs' Hr; [|set_solver].
        apply Hun; [done..|set_solver].
Qed.
End buy.

Lemma buy_evolves sha256 db now me req r w r' w' :
  contract_ok r w -> mutate_buy sha256 db now me req r w = Ok (Some (r', w')) -> evolves r w r' w'.
Proof.
  intros Hok. unfold mutate_buy. destruct req as [|request [|]]; [done| |done].
  split_if; [done|]. cbv zeta. split_if; [split_if; done|]. split_if; [done|].
  destruct (negb (r_kind r =? ConsignmentKind) || _ || _ || _) eqn:Hc; [done|].
  do 2 (split_if; [done|]). repeat (apply orb_false_iff in Hc as [Hc ?]). zbool.
  unfold stage_is in *. match goal with H : bool_decide _ = true |- _ => apply bool_decide_eq_true_1 in H as Hst end.
  intros (owned & _ & [= <- <-])%bind_Ok.
  pose proof (buy_fresh r w (RequestKey sha256 "consignment_buy" me request) Hok Hc Hst) as Hfresh.
  rewrite addLeg_fresh by exact Hfresh. split; try done.
  - by apply (buy_contract r w (RequestKey sha256 "consignment_buy" me request) me).
  - by rewrite Hc.
  - intros (Hk & _). by rewrite Hc in Hk.
  - by rewrite Hc.
Qed.

(** ** [Mutate] on the row it locks *)
Lemma mutate_tx_row sha256 env before db me id a r w answer db' :
  tr_commerce db !! id = Some r -> r_id r = id -> r_workflow r = Some w -> contract_ok r w ->
  mutate_tx sha256 env before db me id a = Ok (answer, db') ->
  db' = db \/
  exists o r' w', evolves r w r' w' /\ db' = with_commerce (with_outbox db o)
    (<[id := saved_row r r' w' (en_now env)]> (tr_commerce db)).
Proof.
  intros Hr Hid Hw Hok. unfold mutate_tx. intros (u & _ & H)%bind_Ok. rewrite Hr in H.
  apply bind_Ok in H as (w1 & Hw1 & H). unfold Workflow in Hw1. rewrite Hw in Hw1. injection Hw1 as <-.
  revert H. split_if; [done|]. intros (u2 & _ & ([decided o] & Hd & H)%bind_Ok)%bind_Ok.
  destruct decided as [[r' w']|]; [|left; by injection H]. right.
  apply bind_Ok in H as (db1 & Hs & [= _ <-]).
  assert (Hev : evolves r w r' w').
  { destruct a; [| | |done].
    - apply bind_Ok in Hd as ([r1 w1] & Hc & [= -> -> _]). by eapply confirm_evolves.
    - apply bind_Ok in Hd as (c & Hc & [= -> _]). by eapply buy_evolves.
    - apply bind_Ok in Hd as (c & Hc & [= -> _]). by eapply cancel_evolves. }
  exists o, r', w'. split; [done|]. rewrite <- Hid in Hr |- *. by eapply Save_row.
Qed.

(** * Trade: the contracts of a database

    [ledger]: every row is balanced ([contract_ok]), every lot with a highest bid
    names a bid whose custody backs it, and what the market orders gave up in
    fills is what their child contracts pay out. Every operation preserves it. *)

(** ** The invariant *)

(** What the fills of an order are worth, against what a child pays out. *)
Definition fill_row (a : asset) (r : TradeCommerceRecord) : Z :=
  if r_kind r =? MarketKind then
    if r_side r =? 0 then match r_workflow r with Some w => - outflow w a | None => 0 end
    else r_filled r * unit_worth r a
  else 0.

Definition row_ok (id : Z) (r : TradeCommerceRecord) : Prop :=
  r_id r = id /\ exists w, r_workflow r = Some w /\ contract_ok r w.

(** The bid behind the highest bid of a lot. *)
Definition backed (m : gmap Z TradeCommerceRecord) (id : Z) (lw : TradeCommerceWorkflow) : Prop :=
  exists b bw, m !! w_winning_bid_id lw = Some b /\ r_workflow b = Some bw /\ held_bid b bw /\
    r_parent b = id /\ w_seller_assets bw = w_buyer_assets lw.

Definition has_bid (lw : TradeCommerceWorkflow) : Prop := w_winning_bid_id lw <> 0 \/ w_highest_bidder lw <> 0.

(** [but]: a lot whose bid is being exchanged. *)
Record ledger_but (but : Z -> Prop) (m : gmap Z TradeCommerceRecord) : Prop := {
  lg_rows : forall id r, m !! id = Some r -> row_ok id r;
  lg_lots : forall id r w, m !! id = Some r -> r_kind r = LotKind -> r_workflow r = Some w ->
            has_bid w -> ~ but id -> backed m id w;
  lg_fills : forall a, msum (fill_row a) m = 0 }.

Definition ledger : gmap Z TradeCommerceRecord -> Prop := ledger_but (fun _ => False).

Lemma ledger_empty : ledger ∅.
Proof. split; [done|done|]. intros a. unfold msum. by rewrite map_to_list_empty. Qed.

Lemma ledger_weaken (P Q : Z -> Prop) m : (forall id, P id -> Q id) -> ledger_but P m -> ledger_but Q m.
Proof. intros H [? Hl ?]. split; [done| |done]. intros id r w ? ? ? ? Hn. eapply Hl; eauto. Qed.

Section ledger.
Context (but : Z -> Prop) (m : gmap Z TradeCommerceRecord) (Hm : ledger_but but m).

(** ** A row that evolves *)
Lemma evolves_fill a r w r' w' :
  r_workflow r = Some w -> r_workflow r' = Some w' -> evolves r w r' w' -> fill_row a r' = fill_row a r.
Proof.
  intros Hw Hw' [_ Ht Hf _ _ _ Hc]. pose proof Ht as [_ Hk _ _ Hi Hs Hp _ Hcu _ _ _].
  unfold fill_row. rewrite Hk, Hs, Hw, Hw', Hf.
  destruct (r_kind r =? MarketKind) eqn:E; [|done]. destruct (r_side r =? 0) eqn:E2; zbool.
  - by rewrite Hc.
  - unfold unit_worth. by rewrite Hs, Hcu, Hp, Hi.
Qed.

Lemma ledger_evolves id r w r' w' :
  m !! id = Some r -> r_workflow r = Some w -> r_workflow r' = Some w' -> evolves r w r' w' ->
  ledger_but but (<[id := r']> m).
Proof using Hm.
  intros Hr Hw Hw' Hev. destruct Hm as [Hrows Hlots Hfills]. pose proof Hev as [Hok Ht Hf Ha Hl Hb Hc].
  destruct (Hrows id r Hr) as [Hid _]. split.
  - intros id' x [[<- <-]|[Hne Hx]]%lookup_insert_Some; [|by apply Hrows].
    split; [by rewrite (st_id _ _ Ht)|eauto].
  - intros id' x wx Hx Hk Hwx Hbid Hn.
    assert (Hback : backed m id' wx).
    { apply lookup_insert_Some in Hx as [[<- <-]|[Hne Hx]].
      - rewrite Hw' in Hwx. injection Hwx as <-. rewrite (st_kind _ _ Ht) in Hk.
        destruct (Hl Hk) as (Hh & Hwin & Hbuy). unfold has_bid in Hbid. rewrite Hh, Hwin in Hbid.
        destruct (Hlots _ _ _ Hr Hk Hw Hbid Hn) as (b & bw & Hbm & Hbw & Hh' & Hp & Has).
        exists b, bw. rewrite Hwin, Hbuy. split_and!; congruence || done.
      - by eapply Hlots. }
    destruct Hback as (b & bw & Hbm & Hbw & Hh & Hp & Has).
    destruct (decide (w_winning_bid_id wx = id)) as [Heq|Hne].
    + rewrite Heq in Hbm. rewrite Hr in Hbm. injection Hbm as <-. rewrite Hw in Hbw. injection Hbw as <-.
      exists r', w'. rewrite Heq, lookup_insert_eq. split_and!; [done|done|by apply Hb| |congruence].
      by rewrite (st_parent _ _ Ht).
    + exists b, bw. by rewrite lookup_insert_ne.
  - intros a. rewrite (msum_keep _ _ _ r); [done..|]. by eapply evolves_fill.
Qed.

(** ** A row that is created *)
Lemma ledger_create r w :
  m !! r_id r = None -> r_workflow r = Some w -> contract_ok r w ->
  (r_kind r = LotKind -> ~ has_bid w) -> (forall a, fill_row a r = 0) ->
  ledger_but but (<[r_id r := r]> m).
Proof using Hm.
  intros Hnone Hw Hok Hnobid Hfill. destruct Hm as [Hrows Hlots Hfills]. split.
  - intros id' x [[<- <-]|[Hne Hx]]%lookup_insert_Some; [|by apply Hrows]. split; eauto.
  - intros id' x wx [[<- <-]|[Hne Hx]]%lookup_insert_Some Hk Hwx Hbid Hn.
    + rewrite Hw in Hwx. injection Hwx as <-. by destruct (Hnobid Hk).
    + destruct (Hlots _ _ _ Hx Hk Hwx Hbid Hn) as (b & bw & Hbm & ?). exists b, bw.
      rewrite lookup_insert_ne; [done|]. congruence.
  - intros a. by rewrite msum_insert, Hfill, Hfills.
Qed.
End ledger.
