(* ===== verification/CommerceAuction.v ===== *)
(** * Trade: bids

    A bid that is accepted, refused, overtaken or settled leaves the ledger of
    contracts as it has to be: the lot always names a bid whose custody is worth
    what its seller will be paid. *)

From stdpp Require Import base list gmap strings.
From Stdlib Require Import ZArith Lia.
From S2P Require Import Prelude RoleRoute CommerceData CommercePlan AssetOps CommerceStore CommerceMarket CommerceInv CommercePlanThms CommerceObserve CommerceSteps CommerceMutate.
Local Open Scope Z_scope.

(** ** Stages that only one kind of contract has *)
Lemma bid_stage r w : contract_ok r w ->
  w_stage w = SBidReady \/ w_stage w = SBidHeld -> r_kind r = BidKind.
Proof. intros Hok [Hst|Hst]; by_kind Hok Hst; done. Qed.

Lemma lot_stage r w : contract_ok r w -> w_stage w = SLotOpen -> r_kind r = LotKind.
Proof. intros Hok Hst. by_kind Hok Hst; done. Qed.

(** ** The transitions of a bid *)
Lemma bid_restage r w s st :
  contract_ok r w -> w_stage w = SBidReady \/ w_stage w = SBidHeld ->
  st = SBidHeld \/ st = SBidRefund \/ st = SDone /\ s = Settled ->
  contract_ok (set_r_status r s) (set_stage w st).
Proof.
  intros Hok Hst Hst'. pose proof (bid_stage r w Hok Hst) as Hk. destruct Hok as [Hl Hs Hb Hkind].
  constructor; [done..|]. rewrite kind_bid in Hkind |- * by done. unfold bid_inv in *.
  destruct Hkind as (Hd & Hc & Hown & Hstage).
  assert (Hca : collecting w /\ applied (leg w "bid_debit") = true) by (by destruct Hst as [Hst|Hst]; rewrite Hst in Hstage).
  split_and!; [done..|]. destruct Hst' as [->|[->|[-> ->]]]; [done|done|]. destruct Hca as [Hcol Ha].
  split_and!; [|by apply collecting_ended|by right].
  eapply done_one; [done|exact Hd|]. by apply applied_done.
Qed.

Lemma refuse_evolves r w :
  contract_ok r w -> w_stage w = SBidReady ->
  evolves r w (set_r_status r CancelPending) (set_stage w SBidRefund).
Proof.
  intros Hok Hst. apply evolves_restage; [by apply bid_restage; auto|].
  intros (_ & H & _). rewrite Hst in H. naive_solver.
Qed.

Lemma settle_evolves r w :
  contract_ok r w -> w_stage w = SBidHeld -> evolves r w (set_r_status r Settled) (set_stage w SDone).
Proof. intros Hok Hst. apply evolves_restage; [by apply bid_restage; auto 10|auto]. Qed.

Lemma hold_evolves r w :
  contract_ok r w -> w_stage w = SBidReady -> evolves r w r (set_stage w SBidHeld).
Proof.
  intros Hok Hst. pose proof (bid_restage r w (r_status r) SBidHeld Hok ltac:(auto) ltac:(auto)) as H.
  pose proof (evolves_restage r w (r_status r) SBidHeld H ltac:(auto)) as He. by destruct r.
Qed.

Lemma ready_backs r w : contract_ok r w -> w_stage w = SBidReady ->
  held_bid r (set_stage w SBidHeld) /\ currency_only (w_seller_assets w) /\ selection_ok (w_seller_assets w).
Proof.
  intros Hok Hst. pose proof (bid_stage r w Hok ltac:(auto)) as Hk. destruct Hok as [_ Hs _ Hkind].
  rewrite kind_bid in Hkind by done. unfold bid_inv in Hkind. rewrite Hst in Hkind.
  destruct Hkind as (_ & Hc & _ & Hcol & Ha). split; [|done]. split; [done|]. split; [by left|done].
Qed.

(** ** The overtaken bid *)
Lemma fill_other a r : r_kind r <> MarketKind -> fill_row a r = 0.
Proof. intros Hk. unfold fill_row. by rewrite (proj2 (Z.eqb_neq _ _) Hk). Qed.

Lemma Save_self db r r' w' now db' :
  tr_commerce db !! r_id r = Some r -> r_id r' = r_id r -> Save db r' w' now = Ok db' ->
  db' = with_commerce db (<[r_id r := saved_row r r' w' now]> (tr_commerce db)).
Proof. intros Hr Hid. unfold Save. rewrite Hid, Hr. split_if; [by intros [= <-]|done]. Qed.

Lemma get_row m id r : ledger m -> m !! id = Some r ->
  r_id r = id /\ exists w, r_workflow r = Some w /\ contract_ok r w.
Proof. intros H. apply (lg_rows _ _ H). Qed.

Section accept.
Context (env : Env) (db : TradeDB) (Hm : ledger (tr_commerce db)).

Lemma release_ledger l lw lotid db1 :
  tr_commerce db !! lotid = Some l -> r_kind l = LotKind -> r_workflow l = Some lw ->
  release_winner env db (w_winning_bid_id lw) = Ok db1 ->
  ledger_but (fun id => id = lotid) (tr_commerce db1) /\
  (forall id r w, tr_commerce db !! id = Some r -> r_workflow r = Some w -> w_stage w <> SBidHeld ->
     tr_commerce db1 !! id = Some r).
Proof using Hm.
  assert (HBL : BidKind <> LotKind) by done. intros Hl Hk Hlw. unfold release_winner. destruct (w_winning_bid_id lw =? 0) eqn:Hz; zbool.
  { intros [= <-]. split; [|done]. eapply ledger_weaken; [|exact Hm]. done. }
  intros (old & Hg & (ow & How & H)%bind_Ok)%bind_Ok. revert H. split_if; [done|]. intros Hsave.
  unfold Get in Hg. destruct (tr_commerce db !! w_winning_bid_id lw) as [old'|] eqn:Hold; [|done]. injection Hg as ->.
  destruct (get_row _ _ _ Hm Hold) as (Hid & ow' & How' & Hok).
  unfold Workflow in How. rewrite How' in How. injection How as ->.
  assert (Hst : w_stage ow = SBidHeld) by (by apply negb_false_iff, bool_decide_eq_true_1 in Heqb).
  pose proof (bid_stage _ _ Hok ltac:(auto)) as Hbk.
  pose proof (bid_restage old ow CancelPending SBidRefund Hok ltac:(auto) ltac:(auto)) as Hok'.
  apply (Save_self _ old) in Hsave; [|by rewrite Hid|done]. subst db1. cbn. rewrite Hid.
  destruct Hm as [Hrows Hlots Hfills].
  destruct (Hlots _ _ _ Hl Hk Hlw ltac:(by left) ltac:(auto)) as (b & bw & Hbm & _ & _ & Hp & _).
  rewrite Hold in Hbm. injection Hbm as <-. split; [split|].
  - intros id' x [[<- <-]|[Hne Hx]]%lookup_insert_Some; [|by apply Hrows].
    split; [done|]. eexists. split; [done|]. eapply contract_ok_terms; [|..|exact Hok']; by try split.
  - intros id' x wx [[<- <-]|[Hne Hx]]%lookup_insert_Some Hkx Hwx Hbid Hn; [cbn in Hkx; congruence|].
    destruct (Hlots _ _ _ Hx Hkx Hwx Hbid ltac:(auto)) as (b & bw1 & Hbm & Hbw & Hh & Hpb & Has).
    exists b, bw1. rewrite lookup_insert_ne; [done|]. intros Heq. rewrite <- Heq, Hold in Hbm.
    injection Hbm as <-. apply Hn. congruence.
  - intros a. rewrite (msum_keep _ _ _ old); [done..|]. rewrite !fill_other; [done|by rewrite Hbk|cbn; by rewrite Hbk].
  - intros id r w Hr Hw Hns. rewrite lookup_insert_ne; [done|]. intros <-. rewrite Hold in Hr. injection Hr as <-.
    rewrite How' in Hw. injection Hw as <-. done.
Qed.

(** ** The new highest bid *)
Lemma crown_ok l lw bid bw now :
  contract_ok l lw -> w_stage lw = SLotOpen -> contract_ok bid bw -> w_stage bw = SBidReady ->
  contract_ok (saved_row l (crown_lot l lw bid bw).1 (crown_lot l lw bid bw).2 now) (crown_lot l lw bid bw).2.
Proof.
  intros Hok Hst Hbok Hbst. pose proof (lot_stage _ _ Hok Hst) as Hk. destruct Hok as [Hl Hs Hb Hkind].
  destruct (ready_backs _ _ Hbok Hbst) as (_ & Hcur & Hsel).
  constructor; [done|done|done|]. rewrite kind_lot in Hkind |- * by done. unfold lot_inv in *.
  destruct Hkind as (Hd & _ & Hstage). rewrite Hst in Hstage. split_and!; [done|done|].
  unfold crown_lot. cbn. by rewrite Hst.
Qed.

Lemma accept_ledger lotid l lw bid bw db1 db2 db3 now :
  tr_commerce db !! lotid = Some l -> r_workflow l = Some lw -> w_stage lw = SLotOpen ->
  tr_commerce db !! r_id bid = Some bid -> r_workflow bid = Some bw -> w_stage bw = SBidReady ->
  r_parent bid = lotid ->
  release_winner env db (w_winning_bid_id lw) = Ok db1 ->
  Save db1 (crown_lot l lw bid bw).1 (crown_lot l lw bid bw).2 now = Ok db2 ->
  Save db2 bid (set_stage bw SBidHeld) now = Ok db3 ->
  ledger (tr_commerce db3).
Proof using Hm.
  assert (HBL : BidKind <> LotKind) by done. intros Hl Hlw Hst Hbid Hbw Hbst Hpar Hrel Hs1 Hs2.
  destruct (get_row _ _ _ Hm Hl) as (Hlid & lw' & Hlw' & Hlok). rewrite Hlw in Hlw'. injection Hlw' as <-.
  destruct (get_row _ _ _ Hm Hbid) as (_ & bw' & Hbw' & Hbok). rewrite Hbw in Hbw'. injection Hbw' as <-.
  pose proof (lot_stage _ _ Hlok Hst) as Hlk. pose proof (bid_stage _ _ Hbok ltac:(auto)) as Hbk.
  destruct (release_ledger _ _ _ _ Hl Hlk Hlw Hrel) as [[Hrows Hlots Hfills] Hkeep].
  pose proof (Hkeep _ _ _ Hl Hlw ltac:(congruence)) as Hl1.
  pose proof (Hkeep _ _ _ Hbid Hbw ltac:(congruence)) as Hbid1. clear Hkeep.
  assert (Hne : lotid <> r_id bid) by (intros Heq; rewrite Heq in Hl; congruence).
  apply (Save_self _ l) in Hs1; [|by rewrite Hlid|done]. subst db2.
  pose proof (crown_ok l lw bid bw now Hlok Hst Hbok Hbst) as Hcok.
  rewrite Hlid in Hs2. set (cl := crown_lot l lw bid bw) in *. set (l' := saved_row l cl.1 cl.2 now) in *.
  apply (Save_self _ bid) in Hs2; [|cbn; by rewrite lookup_insert_ne|done]. subst db3. cbn.
  set (bid' := saved_row bid bid (set_stage bw SBidHeld) now).
  assert (Hbok' : contract_ok bid' (set_stage bw SBidHeld)).
  { apply (ev_ok _ _ _ _ (saved_evolves bid bw bid (set_stage bw SBidHeld) now (hold_evolves bid bw Hbok Hbst))). }
  destruct (ready_backs _ _ Hbok Hbst) as (Hheld & _ & _).
  split.
  - intros id x [[<- <-]|[Hn [[<- <-]|[Hn' Hx]]%lookup_insert_Some]]%lookup_insert_Some; [..|by apply Hrows].
    + split; [done|eauto].
    + split; [done|]. exists cl.2. done.
  - intros id x wx [[<- <-]|[Hn [[<- <-]|[Hn' Hx]]%lookup_insert_Some]]%lookup_insert_Some Hkx Hwx Hhas _.
    + cbn in Hkx. congruence.
    + cbn in Hwx. injection Hwx as <-. exists bid', (set_stage bw SBidHeld). unfold cl. cbn.
      rewrite lookup_insert_eq. split_and!; [done|done|exact Hheld|done|done].
    + destruct (Hlots _ _ _ Hx Hkx Hwx Hhas ltac:(congruence)) as (b & bw1 & Hbm & Hbw1 & Hh & Hpb & Has).
      exists b, bw1. rewrite !lookup_insert_ne; [done|..].
      * intros Heq. rewrite <- Heq in Hbm. rewrite Hl1 in Hbm. injection Hbm as <-.
        destruct Hh as [Hh _]. congruence.
      * intros Heq. rewrite <- Heq in Hbm. rewrite Hbid1 in Hbm. injection Hbm as <-.
        rewrite Hbw in Hbw1. injection Hbw1 as <-. destruct Hh as (_ & Hh & _). rewrite Hbst in Hh. naive_solver.
  - intros a. rewrite (msum_keep _ _ _ bid).
    + rewrite (msum_keep _ _ _ l); [done..|]. rewrite !fill_other; [done|by rewrite Hlk|cbn; by rewrite Hlk].
    + by rewrite lookup_insert_ne.
    + rewrite !fill_other; [done|by rewrite Hbk|cbn; by rewrite Hbk].
Qed.
End accept.

(** ** [acceptBid] *)

(** No two contracts of a request. *)
Definition keys_unique (m : gmap Z TradeCommerceRecord) : Prop :=
  forall i j x y, m !! i = Some x -> m !! j = Some y -> r_request_key x = r_request_key y -> i = j.

Definition new_key (m : gmap Z TradeCommerceRecord) (key : string) : Prop :=
  forall id x, m !! id = Some x -> r_request_key x <> key.

(** The row read before the transaction is still there, with its terms. *)
Record observed (probe db : gmap Z TradeCommerceRecord) : Prop := {
  ob_rows : forall id r, probe !! id = Some r -> exists r', db !! id = Some r' /\ same_terms r r';
  ob_keys : keys_unique probe -> keys_unique db }.

Lemma observed_refl m : observed m m.
Proof. split; [|done]. intros id r Hr. exists r. split; [done|reflexivity]. Qed.

Lemma observed_trans m1 m2 m3 : observed m1 m2 -> observed m2 m3 -> observed m1 m3.
Proof.
  intros [H12 Hk1] [H23 Hk2]. split; [|by auto]. intros id r Hr.
  destruct (H12 id r Hr) as (r2 & Hr2 & Ht2), (H23 id r2 Hr2) as (r3 & Hr3 & Ht3).
  exists r3. split; [done|]. by etrans.
Qed.

Lemma observed_update m id r r' : m !! id = Some r -> same_terms r r' -> observed m (<[id := r']> m).
Proof.
  intros Hr Ht. split.
  - intros id' x Hx. destruct (decide (id = id')) as [<-|Hne].
    + exists r'. rewrite lookup_insert_eq. rewrite Hr in Hx. by injection Hx as <-.
    + exists x. rewrite lookup_insert_ne by done. split; [done|reflexivity].
  - intros Hu i j x y [[<- <-]|[Hi Hx]]%lookup_insert_Some [[<- <-]|[Hj Hy]]%lookup_insert_Some;
      [done|rewrite (st_key _ _ Ht)..|]; by eauto.
Qed.

Lemma observed_create m id r : m !! id = None -> new_key m (r_request_key r) -> observed m (<[id := r]> m).
Proof.
  intros Hn Hnew. split.
  - intros id' x Hx. exists x. rewrite lookup_insert_ne; [split; [done|reflexivity]|]. intros <-. congruence.
  - intros Hu i j x y [[<- <-]|[Hi Hx]]%lookup_insert_Some [[<- <-]|[Hj Hy]]%lookup_insert_Some Hk;
      [done| | |by eauto].
    + by destruct (Hnew _ _ Hy).
    + by destruct (Hnew _ _ Hx).
Qed.

Lemma ByRequest_None db key : ByRequest db key = None <-> new_key (tr_commerce db) key.
Proof.
  unfold ByRequest. rewrite find_first_None. split.
  - intros H id x Hx E. specialize (H x). rewrite bool_decide_eq_true_2 in H by done.
    discriminate H. unfold commerce_rows. apply list_elem_of_fmap. exists (id, x). split; [done|].
    by apply elem_of_map_to_list.
  - intros H x ([id y] & -> & Hx%elem_of_map_to_list)%list_elem_of_fmap. apply bool_decide_eq_false_2. by apply (H id).
Qed.

Lemma ByRequest_Some db key r :
  ByRequest db key = Some r -> (exists id, tr_commerce db !! id = Some r) /\ r_request_key r = key.
Proof.
  intros [Hr Hk%bool_decide_eq_true_1]%find_first_Some. split; [|done].
  apply list_elem_of_fmap in Hr as ([id y] & -> & Hx%elem_of_map_to_list). by exists id.
Qed.

Lemma Insert_Ok db r db' :
  Insert db r = Ok db' -> tr_commerce db !! r_id r = None /\ new_key (tr_commerce db) (r_request_key r) /\
    db' = with_commerce db (<[r_id r := r]> (tr_commerce db)).
Proof.
  unfold Insert. destruct (tr_commerce db !! r_id r); [done|].
  destruct (ByRequest db (r_request_key r)) eqn:E; [done|]. cbn. intros [= <-]. by rewrite <- ByRequest_None.
Qed.

Lemma saved_terms r r' w now :
  r_seller r' = r_seller r -> r_expires r' = r_expires r -> same_terms r (saved_row r r' w now).
Proof. by split. Qed.

Lemma Save_observed db row r w now db' :
  tr_commerce db !! r_id r = Some row -> r_seller r = r_seller row -> r_expires r = r_expires row ->
  Save db r w now = Ok db' -> observed (tr_commerce db) (tr_commerce db').
Proof.
  intros Hr Hs He. unfold Save. rewrite Hr.
  split_if; [intros [= <-]|done]. eapply observed_update; [exact Hr|by apply saved_terms].
Qed.

Lemma release_observed env db id db' :
  ledger (tr_commerce db) -> release_winner env db id = Ok db' -> observed (tr_commerce db) (tr_commerce db').
Proof.
  intros Hm. unfold release_winner. split_if; [intros [= <-]; apply observed_refl|].
  intros (old & Hg & (ow & _ & H)%bind_Ok)%bind_Ok. revert H. split_if; [done|]. unfold Get in Hg.
  destruct (tr_commerce db !! id) as [x|] eqn:Hx; [|done]. injection Hg as ->.
  destruct (get_row _ _ _ Hm Hx) as (Hid & _). apply (Save_observed db old); [|done..]. cbn. by rewrite Hid.
Qed.

Definition ledger_step (db db' : TradeDB) : Prop :=
  ledger (tr_commerce db) -> ledger (tr_commerce db') /\ observed (tr_commerce db) (tr_commerce db').

Lemma step_same db db' : tr_commerce db' = tr_commerce db -> ledger_step db db'.
Proof. intros H Hm. rewrite H. split; [done|apply observed_refl]. Qed.

Lemma step_trans db1 db2 db3 : ledger_step db1 db2 -> ledger_step db2 db3 -> ledger_step db1 db3.
Proof.
  intros H12 H23 Hm. destruct (H12 Hm) as [Hm2 Ho2], (H23 Hm2) as [Hm3 Ho3]. split; [done|].
  by eapply observed_trans.
Qed.

(** A row that evolves and is saved. *)
Lemma step_save db id r w r' w' now db' :
  tr_commerce db !! id = Some r -> r_workflow r = Some w -> (contract_ok r w -> evolves r w r' w') ->
  Save db r' w' now = Ok db' -> ledger_step db db'.
Proof.
  intros Hr Hw Hev Hs Hm. destruct (get_row _ _ _ Hm Hr) as (Hid & w1 & Hw1 & Hok).
  rewrite Hw in Hw1. injection Hw1 as <-. specialize (Hev Hok).
  pose proof (ev_terms _ _ _ _ Hev) as [Hi _ Hse _ _ _ _ _ _ He _ _]. split.
  2: { eapply (Save_observed db r); [|done|done|exact Hs]. by rewrite Hi, Hid. }
  apply (Save_self _ r) in Hs; [|by rewrite Hid|by rewrite (st_id _ _ (ev_terms _ _ _ _ Hev))].
  subst db'. cbn. rewrite Hid. eapply ledger_evolves; [exact Hm|exact Hr|exact Hw|done|].
  by apply saved_evolves.
Qed.

Lemma accept_step env candidate parent db db' :
  ledger (tr_commerce db) ->
  (forall bid, tr_commerce db !! r_id candidate = Some bid -> r_parent bid = r_parent candidate) ->
  acceptBid_tx env candidate parent db = Ok db' ->
  ledger (tr_commerce db') /\ observed (tr_commerce db) (tr_commerce db').
Proof.
  intros Hm Hpar. unfold acceptBid_tx. intros (u & _ & H)%bind_Ok. cbv zeta in H.
  set (db0 := with_guard db _) in H. assert (Hm0 : ledger (tr_commerce db0)) by done.
  match type of H with (if ?c then _ else _) = _ => destruct c; [done|] end.
  apply bind_Ok in H as (bid & Hg & (bw & Hbw%corrupt_Ok & H)%bind_Ok). unfold Get in Hg.
  destruct (tr_commerce db0 !! r_id candidate) as [bid'|] eqn:Hbid; [|done]. injection Hg as ->.
  unfold Workflow in Hbw. destruct (r_workflow bid) as [bw'|] eqn:Hbw'; [|done]. injection Hbw as ->.
  destruct (negb (stage_is bw SBidReady)) eqn:Hst.
  { injection H as <-. by split; [|apply observed_refl]. }
  apply negb_false_iff, bool_decide_eq_true_1 in Hst.
  apply bind_Ok in H as (u2 & _ & (target & Htgt & H)%bind_Ok).
  assert (Hrefuse : forall db', Save db0 (set_r_status bid CancelPending) (set_stage bw SBidRefund) (en_now env) = Ok db' ->
    ledger (tr_commerce db') /\ observed (tr_commerce db0) (tr_commerce db')).
  { intros db1 Hs. apply (step_save db0 _ bid bw _ _ _ _ Hbid Hbw'
      (fun Hok => refuse_evolves _ _ Hok Hst) Hs Hm0). }
  destruct target as [[l lw]|]; [|by apply Hrefuse]. destruct (eligible _ _ _ _) eqn:Hel; [|by apply Hrefuse].
  apply bind_Ok in H as (db1 & Hrel & H). revert H. split_if; [done|].
  destruct (crown_lot l lw bid bw) as [l' lw'] eqn:Hcr. intros (db2 & Hs1 & Hs2)%bind_Ok.
  unfold lot_for_bid in Htgt. change (tr_commerce db) with (tr_commerce db0) in *.
  destruct (tr_commerce db0 !! r_parent candidate) as [l0|] eqn:Hl; [|done].
  destruct (r_workflow l0) as [lw0|] eqn:Hlw; [|done].
  assert (l0 = l /\ lw0 = lw) as [-> ->].
  { destruct (checkContractIdentities _ _ _); [by simplify_eq|]. revert Htgt. by split_if. }
  unfold eligible in Hel. repeat (apply andb_true_iff in Hel as [Hel ?]). apply bool_decide_eq_true_1 in Hel.
  destruct (get_row _ _ _ Hm0 Hbid) as (Hbid_id & _).
  split.
  - eapply (accept_ledger env db0 Hm0 (r_parent candidate) l lw bid bw db1 db2 db' (en_now env)); try done.
    + by rewrite Hbid_id.
    + by apply Hpar.
    + by rewrite Hcr.
  - destruct (get_row _ _ _ Hm0 Hl) as (Hlid & lw1 & Hlw1 & Hlok). rewrite Hlw in Hlw1. injection Hlw1 as <-.
    destruct (release_ledger env db0 Hm0 l lw _ db1 Hl (lot_stage _ _ Hlok Hel) Hlw Hrel) as [_ Hkeep].
    pose proof (Hkeep _ _ _ Hl Hlw ltac:(congruence)) as Hl1.
    pose proof (Hkeep _ _ _ Hbid Hbw' ltac:(congruence)) as Hb1.
    injection Hcr as <- <-.
    eapply observed_trans; [by eapply release_observed|].
    eapply observed_trans; [eapply (Save_observed db1 l); [..|exact Hs1]; cbn; by rewrite ?Hlid|].
    apply (Save_self _ l) in Hs1; [|by rewrite Hlid|done]. subst db2.
    eapply (Save_observed _ bid); [..|exact Hs2]; [|done|done]. cbn. rewrite Hlid, Hbid_id.
    rewrite lookup_insert_ne; [done|]. intros Heq. rewrite Heq, Hbid in Hl. injection Hl as ->. congruence.
Qed.
