(* ===== verification/CommerceBook.v ===== *)
(** * Trade: matches of market orders

    A match fills two orders of opposite sides with the same quantity and creates
    the child contract that pays both: what it pays is what the two fills give
    up. The price is that of the older order, within both limits, and no product
    wraps around. *)

From stdpp Require Import base list gmap strings.
From Stdlib Require Import ZArith Lia.
From S2P Require Import Prelude RoleRoute CommerceData CommercePlan AssetOps CommerceStore CommerceMarket CommerceInv CommercePlanThms CommerceObserve CommerceSteps CommerceMutate CommerceAuction.
Local Open Scope Z_scope.
Local Open Scope go_scope.

(** ** The two orders *)
Record pair (buy sell : TradeCommerceRecord) : Prop := {
  pr_buy : r_side buy = 1;
  pr_sell : r_side sell = 2;
  pr_item : r_item_config sell = r_item_config buy;
  pr_currency : r_currency sell = r_currency buy;
  pr_prices : r_unit_price sell <= r_unit_price buy }.

(** An order that may be filled. *)
Record open_order (r : TradeCommerceRecord) (w : TradeCommerceWorkflow) : Prop := {
  oo_ok : contract_ok r w;
  oo_kind : r_kind r = MarketKind;
  oo_side : r_side r <> 0;
  oo_stage : w_stage w = SMarketOpen }.

Lemma open_terms r w : open_order r w ->
  order_terms r w /\ debits_in ["seller_debit"%string] w /\ own_debit w "seller_debit" /\
  collecting w /\ applied (leg w "seller_debit") = true.
Proof.
  intros [[_ _ _ H] Hk Hs Hst]. rewrite kind_order in H by done. unfold order_inv in H. rewrite Hst in H.
  destruct H as (? & ? & ? & _ & ? & ?). done.
Qed.

Lemma fill_filled r w qty :
  open_order r w -> 0 <= qty <= r_quantity r - r_filled r ->
  r_filled (fill r qty) = r_filled r + qty /\ same_terms r (fill r qty).
Proof.
  intros Ho Hq. destruct (open_terms r w Ho) as ([_ ? _ ? _] & _).
  assert (Hf : r_filled r +32 qty = r_filled r + qty) by (unfold u32; apply Z.mod_small; unfold u32_mod; lia).
  unfold fill. cbn. rewrite Hf. split_if; by split.
Qed.

Lemma fill_ok r w qty :
  open_order r w -> 0 <= qty <= r_quantity r - r_filled r -> contract_ok (fill r qty) w.
Proof.
  intros Ho Hq. destruct (open_terms r w Ho) as ([? ? ? ? ?] & Hd & Hown & Hc & Ha).
  destruct (fill_filled r w qty Ho Hq) as [Hf [_ Hk _ _ Hi Hs Hp Hqq Hcu _ _ _]].
  destruct Ho as [[Hl Hse Hb _] Hkind Hside Hst]. constructor; [done..|].
  rewrite kind_order by congruence. unfold order_inv. rewrite Hf, Hst. split_and!; [|done|done|by right|done|done].
  constructor; rewrite ?Hs, ?Hqq, ?Hp, ?Hf; try done; [lia|]. intros a. unfold unit_worth. by rewrite Hs, Hcu, Hp, Hi.
Qed.

(** ** The child contract *)
Section match_.
Context (env : Env) (buy sell : TradeCommerceRecord) (bw sw : TradeCommerceWorkflow) (price qty : Z)
  (buyer seller : option TradeRoleIdentity)
  (Hbuy : open_order buy bw) (Hsell : open_order sell sw) (Hpair : pair buy sell)
  (Hprice : r_unit_price sell <= price <= r_unit_price buy)
  (Hqty : 0 < qty /\ qty <= r_quantity buy - r_filled buy /\ qty <= r_quantity sell - r_filled sell).
Let mw := match_workflow price qty buy sell buyer seller.

Lemma match_bounds :
  0 < price /\ qty *64 price = qty * price /\
  qty *64 (r_unit_price buy -64 price) = qty * (r_unit_price buy - price) /\ qty <= 4096 /\
  qty * r_unit_price buy <= MaxInt64.
Proof using Hbuy Hsell Hpair Hprice Hqty.
  destruct (open_terms _ _ Hbuy) as ([_ ? [? Hmax] ? _] & _).
  destruct (open_terms _ _ Hsell) as ([_ ? [? _] ? _] & _).
  unfold MaxInt64 in Hmax |- *. assert (qty * r_unit_price buy <= 9223372036854775807) by nia.
  assert (r_unit_price buy < u64_mod) by (unfold u64_mod; nia).
  unfold u64. rewrite (Z.mod_small (r_unit_price buy - price)) by (unfold u64_mod in *; lia).
  rewrite !Z.mod_small by (unfold u64_mod in *; nia). split_and!; try done; lia.
Qed.

Definition match_legs : list TradeCommerceLeg :=
  [mkLeg "buyer_receive" (r_seller buy) StreamCredit (Some (item_bundle (r_item_config buy) qty)) 0 None 0;
   mkLeg "seller_receive" (r_seller sell) StreamCredit (Some (currency_bundle (r_currency buy) (qty * price))) 0 None 0]
  ++ if price <? r_unit_price buy
     then [mkLeg "buyer_surplus" (r_seller buy) StreamCredit
            (Some (currency_bundle (r_currency buy) (qty * (r_unit_price buy - price)))) 0 None 0]
     else [].

Lemma match_workflow_legs : w_legs mw = match_legs /\ w_stage mw = SDeliver.
Proof using Hbuy Hsell Hpair Hprice Hqty.
  destruct match_bounds as (_ & E1 & E2 & _). unfold mw, match_workflow, match_legs.
  rewrite E1, E2. destruct (price <? r_unit_price buy); done.
Qed.

Lemma match_legs_credit l : l ∈ match_legs ->
  l_stream l = StreamCredit /\ l_op l = 0 /\ l_outcome l = 0 /\ leg_ok l.
Proof using Hbuy Hsell Hpair Hprice Hqty.
  destruct match_bounds as (? & _). unfold match_legs. intros Hl.
  assert (Hc : forall role p b, bundle_nonneg b -> let l := mkLeg role p StreamCredit (Some b) 0 None 0 in
    l_stream l = StreamCredit /\ l_op l = 0 /\ l_outcome l = 0 /\ leg_ok l).
  { intros role p b Hb. split_and!; [done..|]. right. split; [done|]. by exists b. }
  assert (Hcur : forall c n, 0 <= n -> bundle_nonneg (currency_bundle c n)) by (intros; by repeat constructor).
  assert (Hitm : forall c n, 0 <= n -> bundle_nonneg (item_bundle c n)) by (intros; by repeat constructor).
  apply elem_of_app in Hl as [[->|[->|?]%elem_of_cons]%elem_of_cons|Hl]; [| |set_solver|].
  - apply Hc, Hitm. lia.
  - apply Hc, Hcur. nia.
  - destruct (price <? r_unit_price buy) eqn:E; [|set_solver]. zbool.
    apply list_elem_of_singleton in Hl as ->. apply Hc, Hcur. nia.
Qed.

Lemma match_outflow a : outflow mw a = qty * unit_worth buy a + qty * unit_worth sell a.
Proof using Hbuy Hsell Hpair Hprice Hqty.
  destruct match_workflow_legs as [Hl _]. unfold outflow. rewrite Hl. destruct Hpair as [Hs1 Hs2 Hi Hc _].
  unfold unit_worth, match_legs. rewrite Hs1, Hs2, Hi. cbn [Z.eqb Pos.eqb]. rewrite sumZ_app.
  cbn [sumZ]. unfold leg_out. cbn [l_stream l_bundle]. change (StreamCredit =? StreamCredit) with true. cbv iota.
  assert (Hsur : sumZ (fun l : TradeCommerceLeg => if l_stream l =? StreamCredit
        then match l_bundle l with Some b => worth_out b a | None => 0 end else 0)
      (if price <? r_unit_price buy then [mkLeg "buyer_surplus" (r_seller buy) StreamCredit
            (Some (currency_bundle (r_currency buy) (qty * (r_unit_price buy - price)))) 0 None 0] else [])
      = worth_out (currency_bundle (r_currency buy) (qty * (r_unit_price buy - price))) a).
  { destruct (price <? r_unit_price buy) eqn:E; zbool.
    - cbn [sumZ l_stream l_bundle]. change (StreamCredit =? StreamCredit) with true. cbv iota. lia.
    - replace (r_unit_price buy - price) with 0 by lia. rewrite Z.mul_0_r. simpl.
      destruct a; simpl; unfold amount_of, count_of; simpl; try lia. by destruct (_ =? _). }
  rewrite Hsur. destruct a as [c|i|u|i]; unfold worth_out, amount_of, count_of; cbn.
  - rewrite (bool_decide_eq_false_2 (Cur c = Itm _)) by done. case_bool_decide as E.
    + injection E as ->. rewrite Z.eqb_refl. lia.
    + assert ((r_currency buy =? c) = false) as -> by (apply Z.eqb_neq; congruence). lia.
  - rewrite (bool_decide_eq_false_2 (Itm i = Cur _)) by done. case_bool_decide as E.
    + injection E as ->. rewrite Z.eqb_refl. lia.
    + assert ((r_item_config buy =? i) = false) as -> by (apply Z.eqb_neq; congruence). lia.
  - rewrite !bool_decide_eq_false_2 by done. lia.
  - rewrite !bool_decide_eq_false_2 by done. lia.
Qed.

Lemma match_child_ok mid key : contract_ok (set_r_workflow (match_record env mid price qty key buy sell) (Some mw)) mw.
Proof using Hbuy Hsell Hpair Hprice Hqty.
  destruct match_workflow_legs as [Hl Hst].
  assert (Hcred : forall l, l ∈ w_legs mw -> l_stream l = StreamCredit /\ leg_ok l).
  { intros l. rewrite Hl. by intros (? & _ & _ & ?)%match_legs_credit. }
  assert (Hassets : w_seller_assets mw = None /\ w_buyer_assets mw = None).
  { unfold mw, match_workflow. destruct (price <? r_unit_price buy); done. }
  destruct Hassets as [Ha1 Ha2]. constructor.
  - split; [|intros l Hin; by apply Hcred]. unfold roles. rewrite Hl. unfold match_legs.
    destruct (price <? r_unit_price buy); by apply nodup_roles.
  - by rewrite Ha1.
  - by rewrite Ha2.
  - rewrite kind_child by done. unfold child_inv. rewrite Hst. split; [|done].
    intros l Hin Hs. destruct (Hcred l Hin) as [Hc _]. by rewrite Hc in Hs.
Qed.
End match_.

(** ** The rows of a match *)

(** Replacing or adding a row of the market touches no lot and no bid. *)
Lemma market_rows m id r' :
  (forall id r, m !! id = Some r -> row_ok id r) ->
  (forall r, m !! id = Some r -> r_kind r = MarketKind) -> r_kind r' = MarketKind -> row_ok id r' ->
  (forall id r w, m !! id = Some r -> r_kind r = LotKind -> r_workflow r = Some w -> has_bid w -> backed m id w) ->
  (forall id' r, <[id := r']> m !! id' = Some r -> row_ok id' r) /\
  (forall id' r w, <[id := r']> m !! id' = Some r -> r_kind r = LotKind -> r_workflow r = Some w -> has_bid w ->
     backed (<[id := r']> m) id' w).
Proof.
  intros Hrows Hold Hk Hok Hlots.
  assert (HML : MarketKind <> LotKind) by done. assert (HMB : MarketKind <> BidKind) by done. split.
  - intros id' x [[<- <-]|[_ Hx]]%lookup_insert_Some; auto.
  - intros id' x w [[<- <-]|[_ Hx]]%lookup_insert_Some Hkx Hw Hb; [congruence|].
    destruct (Hlots _ _ _ Hx Hkx Hw Hb) as (b & bw & Hbm & Hbw & Hh & ?). exists b, bw.
    rewrite lookup_insert_ne; [done|]. intros Heq. rewrite <- Heq in Hbm. specialize (Hold b Hbm).
    destruct Hh as [Hh _]. congruence.
Qed.

Lemma saved_fill r w qty now :
  open_order r w -> r_workflow r = Some w -> 0 <= qty <= r_quantity r - r_filled r ->
  row_ok (r_id r) (saved_row r (fill r qty) w now) /\ same_terms r (saved_row r (fill r qty) w now) /\
  forall a, fill_row a (saved_row r (fill r qty) w now) = fill_row a r + qty * unit_worth r a.
Proof.
  intros Ho Hw Hq. destruct (fill_filled r w qty Ho Hq) as [Hf [_ _ Hse _ _ _ _ _ _ He _ _]].
  assert (Ht : same_terms r (saved_row r (fill r qty) w now)) by (by apply saved_terms).
  split_and!; [|done|].
  - split; [done|]. exists w. split; [done|]. pose proof (fill_ok r w qty Ho Hq) as Hok.
    destruct (fill_filled r w qty Ho Hq) as [_ Ht2]. eapply contract_ok_terms; [|..|exact Hok]; [|done|done].
    destruct Ht, Ht2. split; congruence.
  - intros a. unfold fill_row. cbn. rewrite (oo_kind _ _ Ho). change (MarketKind =? MarketKind) with true. cbv iota.
    rewrite (proj2 (Z.eqb_neq _ _) (oo_side _ _ Ho)), Hf.
    change (unit_worth (saved_row r (fill r qty) w now) a) with (unit_worth r a). lia.
Qed.

Lemma match_rows env mid key (db : TradeDB) a aw b bw buy bwf sell swf price qty db1 db2 db3 :
  ledger (tr_commerce db) ->
  tr_commerce db !! r_id a = Some a -> r_workflow a = Some aw -> open_order a aw ->
  tr_commerce db !! r_id b = Some b -> r_workflow b = Some bw -> open_order b bw ->
  r_id a <> r_id b ->
  (a = buy /\ aw = bwf /\ b = sell /\ bw = swf \/ b = buy /\ bw = bwf /\ a = sell /\ aw = swf) ->
  pair buy sell -> r_unit_price sell <= price <= r_unit_price buy ->
  0 < qty /\ qty <= r_quantity buy - r_filled buy /\ qty <= r_quantity sell - r_filled sell ->
  Insert db (set_r_workflow (match_record env mid price qty key buy sell)
    (Some (match_workflow price qty buy sell (w_seller_identity bwf) (w_seller_identity swf)))) = Ok db1 ->
  Save db1 (fill a qty) aw (en_now env) = Ok db2 ->
  Save db2 (fill b qty) bw (en_now env) = Ok db3 ->
  ledger (tr_commerce db3) /\ observed (tr_commerce db) (tr_commerce db3).
Proof.
  intros [Hrows Hlots Hfills] Ha Haw Hao Hb Hbw Hbo Hne Hab Hp Hpr Hq Hi Hs1 Hs2.
  assert (Hopen : open_order buy bwf /\ open_order sell swf) by (by destruct Hab as [(-> & -> & -> & ->)|(-> & -> & -> & ->)]).
  destruct Hopen as [Hbuy Hsell].
  assert (Hqa : 0 <= qty <= r_quantity a - r_filled a) by (destruct Hab as [(-> & _ & -> & _)|(-> & _ & -> & _)]; lia).
  assert (Hqb : 0 <= qty <= r_quantity b - r_filled b) by (destruct Hab as [(-> & _ & -> & _)|(-> & _ & -> & _)]; lia).
  set (mw := match_workflow _ _ _ _ _ _) in Hi. set (child := set_r_workflow _ _) in Hi.
  pose proof (match_child_ok env buy sell bwf swf price qty (w_seller_identity bwf) (w_seller_identity swf)
    Hbuy Hsell Hp Hpr Hq mid key) as Hcok. fold mw child in Hcok.
  pose proof (match_outflow buy sell bwf swf price qty (w_seller_identity bwf) (w_seller_identity swf)
    Hbuy Hsell Hp Hpr Hq) as Hout. fold mw in Hout.
  apply Insert_Ok in Hi as (Hnone & Hnew & ->). change (r_id child) with mid in *.
  assert (Hma : mid <> r_id a) by congruence. assert (Hmb : mid <> r_id b) by congruence.
  destruct (saved_fill a aw qty (en_now env) Hao Haw Hqa) as (Hra & Hta & Hfa).
  destruct (saved_fill b bw qty (en_now env) Hbo Hbw Hqb) as (Hrb & Htb & Hfb).
  assert (Hida : r_id (fill a qty) = r_id a) by (unfold fill; cbn; by split_if).
  assert (Hidb : r_id (fill b qty) = r_id b) by (unfold fill; cbn; by split_if).
  apply (Save_self _ a) in Hs1; [|cbn; by rewrite lookup_insert_ne|done]. subst db2.
  apply (Save_self _ b) in Hs2; [|cbn; by rewrite !lookup_insert_ne|done]. subst db3. cbn.
  set (a' := saved_row a (fill a qty) aw (en_now env)) in *.
  set (b' := saved_row b (fill b qty) bw (en_now env)) in *.
  destruct (market_rows (tr_commerce db) mid child) as [Hr1 Hl1]; [done|by rewrite Hnone|done| | |].
  { split; [done|]. by exists mw. }
  { intros id r w ? ? ? ?. by apply (Hlots id r w); auto. }
  destruct (market_rows (<[mid := child]> (tr_commerce db)) (r_id a) a') as [Hr2 Hl2]; [done| | |done|done|].
  { intros r. rewrite lookup_insert_ne, Ha by done. intros [= <-]. apply Hao. }
  { apply Hao. }
  destruct (market_rows (<[r_id a := a']> (<[mid := child]> (tr_commerce db))) (r_id b) b') as [Hr3 Hl3]; [done| | |done|done|].
  { intros r. rewrite !lookup_insert_ne, Hb by done. intros [= <-]. apply Hbo. }
  { apply Hbo. }
  split.
  - split; [done|intros id r w ? ? ? ? _; by eapply Hl3|]. intros x.
    rewrite (msum_update _ _ _ b) by (by rewrite !lookup_insert_ne).
    rewrite (msum_update _ _ _ a) by (by rewrite lookup_insert_ne).
    rewrite msum_insert by done. rewrite Hfills, Hfa, Hfb. unfold fill_row at 1. cbn.
    change (w_legs mw) with (w_legs mw). rewrite Hout.
    destruct Hab as [(-> & _ & -> & _)|(-> & _ & -> & _)]; lia.
  - apply (observed_trans _ (<[mid := child]> (tr_commerce db))); [by apply observed_create|].
    apply (observed_trans _ (<[r_id a := a']> (<[mid := child]> (tr_commerce db)))).
    + eapply observed_update; [by rewrite lookup_insert_ne|done].
    + eapply observed_update; [by rewrite !lookup_insert_ne|done].
Qed.

(** ** [matchMarket] *)
Lemma commerce_row db r : r ∈ commerce_rows db <-> exists id, tr_commerce db !! id = Some r.
Proof.
  unfold commerce_rows. rewrite list_elem_of_fmap. split.
  - intros ([id x] & -> & Hx%elem_of_map_to_list). by exists id.
  - intros [id Hid]. exists (id, r). split; [done|]. by apply elem_of_map_to_list.
Qed.

Lemma counterparty_row db taker id :
  marketCounterparty db taker = Some id ->
  exists k c, tr_commerce db !! k = Some c /\ r_id c = id /\ counterparty_of taker c = true.
Proof.
  unfold marketCounterparty. destruct (sort_stable _ _) as [|c l] eqn:E; [done|]. intros [= <-].
  assert (Hc : c ∈ c :: l) by left. rewrite <- E, elem_of_sort_stable, elem_of_keep_if in Hc.
  destruct Hc as [[k Hk]%commerce_row Hc]. by exists k, c.
Qed.

Lemma quarantine_step env db cur db' id :
  tr_commerce db !! id = Some cur -> quarantineLockedTx env db cur = Ok db' -> ledger_step db db'.
Proof.
  intros Hr Hq Hm. destruct (get_row _ _ _ Hm Hr) as (Hid & w & Hw & Hok).
  unfold quarantineLockedTx in Hq. rewrite Hw in Hq.
  apply (step_save (with_outbox db (ExpireCommerceEscrowDebitsTx (tr_outbox db) (r_id cur) (en_now env)))
    id cur w _ _ _ _ Hr Hw (manual_evolves cur w) Hq Hm).
Qed.

(** The two locked orders, as the buyer and the seller, and what the trade writes. *)
Record trade (env : Env) (mid : Z) (key : string) (db : TradeDB) (a : TradeCommerceRecord)
    (aw : TradeCommerceWorkflow) (b : TradeCommerceRecord) (bw : TradeCommerceWorkflow)
    (buy : TradeCommerceRecord) (bwf : TradeCommerceWorkflow) (sell : TradeCommerceRecord)
    (swf : TradeCommerceWorkflow) (price qty : Z) (db' : TradeDB) : Prop := {
  td_roles : a = buy /\ aw = bwf /\ b = sell /\ bw = swf \/ b = buy /\ bw = bwf /\ a = sell /\ aw = swf;
  td_open : open_order a aw /\ open_order b bw;
  td_pair : pair buy sell;
  td_price : price = r_unit_price (older a b) /\ r_unit_price sell <= price <= r_unit_price buy;
  td_qty : qty = Z.min (r_quantity buy - r_filled buy) (r_quantity sell - r_filled sell) /\ 0 < qty;
  td_rows : exists db1 db2,
    Insert db (set_r_workflow (match_record env mid price qty key buy sell)
      (Some (match_workflow price qty buy sell (w_seller_identity bwf) (w_seller_identity swf)))) = Ok db1 /\
    Save db1 (fill a qty) aw (en_now env) = Ok db2 /\ Save db2 (fill b qty) bw (en_now env) = Ok db' }.

(** Why two orders do not trade: one is not open, is cancelled or is filled, their
    prices do not meet, or they are of one player. *)
Definition no_trade (a : TradeCommerceRecord) (aw : TradeCommerceWorkflow) (b : TradeCommerceRecord)
    (bw : TradeCommerceWorkflow) : Prop :=
  w_stage aw <> SMarketOpen \/ w_stage bw <> SMarketOpen \/
  w_cancel_requested aw = true \/ w_cancel_requested bw = true \/
  r_quantity a <= r_filled a \/ r_quantity b <= r_filled b \/
  (if r_side a =? 1 then r_unit_price a < r_unit_price b else r_unit_price b < r_unit_price a) \/
  r_seller a = r_seller b.

Lemma no_trade_guard a aw b bw :
  (negb (stage_is aw SMarketOpen) || negb (stage_is bw SMarketOpen) || w_cancel_requested aw || w_cancel_requested bw
   || (r_quantity a <=? r_filled a) || (r_quantity b <=? r_filled b)) = true -> no_trade a aw b bw.
Proof.
  unfold no_trade, stage_is. intros H. repeat (apply orb_true_iff in H as [H|H]); zbool;
    repeat match goal with E : bool_decide _ = false |- _ => apply bool_decide_eq_false_1 in E end; tauto.
Qed.

Lemma match_orders_trade env mid key db a aw b bw db' :
  ledger (tr_commerce db) ->
  tr_commerce db !! r_id a = Some a -> r_workflow a = Some aw ->
  tr_commerce db !! r_id b = Some b -> r_workflow b = Some bw ->
  r_kind a = MarketKind -> r_kind b = MarketKind ->
  (r_side a = 1 /\ r_side b = 2 \/ r_side a = 2 /\ r_side b = 1) ->
  r_item_config a = r_item_config b -> r_currency a = r_currency b ->
  match_orders env mid key db a aw b bw = Ok db' ->
  db' = db /\ no_trade a aw b bw \/
  exists buy bwf sell swf price qty, trade env mid key db a aw b bw buy bwf sell swf price qty db'.
Proof.
  intros Hm Ha Haw Hb Hbw Hka Hkb Hsides Hitem Hcur. unfold match_orders.
  destruct (_ || _ || _ || _ || _ || _) eqn:Hguard; [intros [= <-]; left; split; [done|by apply no_trade_guard]|].
  repeat (apply orb_false_iff in Hguard as [Hguard ?]). zbool. unfold stage_is in *.
  repeat match goal with H : bool_decide _ = true |- _ => apply bool_decide_eq_true_1 in H end.
  destruct (get_row _ _ _ Hm Ha) as (_ & aw' & Haw' & Haok). rewrite Haw in Haw'. injection Haw' as <-.
  destruct (get_row _ _ _ Hm Hb) as (_ & bw' & Hbw' & Hbok). rewrite Hbw in Hbw'. injection Hbw' as <-.
  assert (Hao : open_order a aw) by (constructor; [done|done|destruct Hsides; lia|done]).
  assert (Hbo : open_order b bw) by (constructor; [done|done|destruct Hsides; lia|done]).
  destruct (if r_side a =? 1 then ((a, aw), (b, bw)) else ((b, bw), (a, aw))) as [[buy bwf] [sell swf]] eqn:Hab.
  assert (Hcase : (a = buy /\ aw = bwf /\ b = sell /\ bw = swf \/ b = buy /\ bw = bwf /\ a = sell /\ aw = swf) /\
    r_side buy = 1 /\ r_side sell = 2).
  { destruct Hsides as [[Hx1 Hx2]|[Hx1 Hx2]]; rewrite Hx1 in Hab; cbn in Hab; simplify_eq; auto 10. }
  destruct Hcase as (Hcase & Hs1 & Hs2). clear Hab.
  destruct ((r_unit_price buy <? r_unit_price sell) || _) eqn:Hx.
  { intros [= <-]. left. split; [done|]. unfold no_trade. apply orb_true_iff in Hx.
    destruct Hcase as [(-> & _ & -> & _)|(-> & _ & -> & _)]; rewrite ?Hs1, ?Hs2; cbn; destruct Hx as [Hx|Hx]; zbool; auto 10. }
  apply orb_false_iff in Hx as [Hpr Hsell]. zbool. cbv zeta. split_if; [done|].
  intros (db1 & Hi & (db2 & Hs & Hs')%bind_Ok)%bind_Ok. right.
  exists buy, bwf, sell, swf, (r_unit_price (older a b)),
    (Z.min (r_quantity buy - r_filled buy) (r_quantity sell - r_filled sell)).
  split; [done|done|..|by exists db1, db2].
  - constructor; [done|done|..|done]; destruct Hcase as [(-> & _ & -> & _)|(-> & _ & -> & _)]; done.
  - split; [done|]. unfold older. destruct Hcase as [(-> & _ & -> & _)|(-> & _ & -> & _)]; split_if; lia.
  - split; [done|]. destruct Hcase as [(-> & _ & -> & _)|(-> & _ & -> & _)]; lia.
Qed.

Lemma match_orders_step env mid key db a aw b bw db' :
  ledger (tr_commerce db) ->
  tr_commerce db !! r_id a = Some a -> r_workflow a = Some aw ->
  tr_commerce db !! r_id b = Some b -> r_workflow b = Some bw ->
  r_kind a = MarketKind -> r_kind b = MarketKind ->
  (r_side a = 1 /\ r_side b = 2 \/ r_side a = 2 /\ r_side b = 1) ->
  r_item_config a = r_item_config b -> r_currency a = r_currency b ->
  match_orders env mid key db a aw b bw = Ok db' ->
  ledger (tr_commerce db') /\ observed (tr_commerce db) (tr_commerce db').
Proof.
  intros Hm Ha Haw Hb Hbw Hka Hkb Hsides Hitem Hcur H.
  destruct (match_orders_trade _ _ _ _ _ _ _ _ _ Hm Ha Haw Hb Hbw Hka Hkb Hsides Hitem Hcur H)
    as [[-> _]|(buy & bwf & sell & swf & price & qty & [Hcase [Hao Hbo] Hp [_ Hpr] [Hq Hq0] (db1 & db2 & Hi & Hs & Hs')])].
  { by split; [|apply observed_refl]. }
  apply (match_rows env mid key db a aw b bw buy bwf sell swf price qty db1 db2 db'); try done; [|lia].
  intros Heq. rewrite Heq, Hb in Ha. injection Ha as ->. destruct Hsides; lia.
Qed.

Lemma match_tx_step sha256 env mid taker seen db d db' :
  ledger (tr_commerce db) ->
  (forall r, tr_commerce db !! r_id taker = Some r -> same_terms taker r) ->
  r_kind taker = MarketKind -> r_side taker <> 0 ->
  match_tx sha256 env mid taker seen db = Ok (d, db') ->
  ledger (tr_commerce db') /\ observed (tr_commerce db) (tr_commerce db').
Proof.
  intros Hm Hterms Hk Hside. unfold match_tx. intros (u & _ & H)%bind_Ok. cbv zeta in H.
  set (db0 := with_guard db _) in H. change (tr_commerce db) with (tr_commerce db0) in *.
  destruct (marketCounterparty db0 taker) as [otherID|] eqn:Hother.
  2: { injection H as _ <-. by split; [|apply observed_refl]. }
  revert H. split_if; [done|]. intros (a & Ha & (b & Hb & (found & _ & H)%bind_Ok)%bind_Ok)%bind_Ok.
  unfold Get in Ha, Hb.
  destruct (tr_commerce db0 !! Z.min (r_id taker) otherID) as [a'|] eqn:Ham; [|done]. injection Ha as ->.
  destruct (tr_commerce db0 !! Z.max (r_id taker) otherID) as [b'|] eqn:Hbm; [|done]. injection Hb as ->.
  destruct found as [defect|].
  { apply bind_Ok in H as (db1 & Hq & [= _ <-]). revert Hq. split_if; intros Hq.
    - apply (quarantine_step _ _ _ _ _ Hbm Hq Hm).
    - apply (quarantine_step _ _ _ _ _ Ham Hq Hm). }
  apply bind_Ok in H as (aw & Haw & (bw & Hbw & (u1 & _ & (u2 & _ & (db1 & Hmo & [= _ <-])%bind_Ok)%bind_Ok)%bind_Ok)%bind_Ok).
  unfold Workflow in Haw, Hbw. destruct (r_workflow a) as [aw'|] eqn:Haw'; [|done]. injection Haw as ->.
  destruct (r_workflow b) as [bw'|] eqn:Hbw'; [|done]. injection Hbw as ->.
  destruct (get_row _ _ _ Hm Ham) as (Hida & _), (get_row _ _ _ Hm Hbm) as (Hidb & _).
  destruct (counterparty_row _ _ _ Hother) as (k & c & Hc & Hcid & Hcp).
  destruct (get_row _ _ _ Hm Hc) as (Hck & _). rewrite Hcid in Hck. subst k.
  unfold counterparty_of in Hcp. repeat (apply andb_true_iff in Hcp as [Hcp ?]). zbool.
  assert (Ht : exists t tw, tr_commerce db0 !! r_id taker = Some t /\ same_terms taker t /\ contract_ok t tw /\
    r_seller c <> r_seller t).
  { assert (exists t, tr_commerce db0 !! r_id taker = Some t) as [t Ht].
    { destruct (Z.min_spec (r_id taker) otherID) as [[_ E]|[_ E]]; rewrite E in Ham; [by eexists|].
      destruct (Z.max_spec (r_id taker) otherID) as [[? E2]|[_ E2]]; [lia|]. rewrite E2 in Hbm. by eexists. }
    destruct (get_row _ _ _ Hm Ht) as (_ & tw & _ & Htok). exists t, tw.
    pose proof (Hterms t Ht) as Hte. split_and!; [done..|]. by rewrite (st_seller _ _ Hte). }
  destruct Ht as (t & tw & Htm & Hte & Htok & Hsel). pose proof Hte as [_ Htk _ _ Hti Hts _ _ Htc _ _ _].
  assert (Htside : r_side t = 1 \/ r_side t = 2).
  { destruct Htok as [_ _ _ Hkind]. rewrite kind_order in Hkind by congruence. by destruct Hkind as ([] & _). }
  assert (Hsides : r_side t = 1 /\ r_side c = 2 \/ r_side t = 2 /\ r_side c = 1).
  { match goal with H : r_side c = opposite taker |- _ => rewrite H end. unfold opposite. rewrite <- Hts.
    destruct Htside as [->| ->]; auto. }
  assert (Hab : a = t /\ b = c \/ a = c /\ b = t).
  { destruct (Z.min_spec (r_id taker) otherID) as [[? E]|[? E]]; rewrite E in Ham;
      destruct (Z.max_spec (r_id taker) otherID) as [[? E2]|[? E2]]; rewrite E2 in Hbm; try lia;
      simplify_eq; auto. }
  rewrite <- Hida in Ham. rewrite <- Hidb in Hbm.
  eapply (match_orders_step env mid _ db0 a aw b bw); try done;
    destruct Hab as [[-> ->]|[-> ->]]; try congruence; tauto.
Qed.
