(* ===== verification/CommerceRun.v ===== *)
(** * Trade: every operation, in any order

    [trade_step] is one transaction of the commerce engine; [run] a sequence of
    them, each with its unlocked reads made on any earlier database. The ledger
    of contracts holds in every database of a run. *)

From stdpp Require Import base list gmap strings.
From Stdlib Require Import ZArith Lia.
From S2P Require Import Prelude RoleRoute CommerceData CommercePlan AssetOps CommerceStore CommerceMarket CommerceInv CommercePlanThms CommerceObserve CommerceSteps CommerceMutate CommerceAuction CommerceBook.
Local Open Scope Z_scope.
Local Open Scope go_scope.

(** ** Creation *)

(** The contracts the operations create have no leg and no fill. *)
Definition newborn (r : TradeCommerceRecord) (w : TradeCommerceWorkflow) : Prop :=
  contract_ok r w /\ w_legs w = [] /\ r_filled r = 0 /\ ~ has_bid w /\ r_kind r <> RmbKind.

Lemma contract_ok_buyer_identity r w i : contract_ok r w -> contract_ok r (set_buyer_identity w i).
Proof.
  intros [Hl Hs Hb Hk]. constructor; [done..|]. unfold kind_inv in *.
  repeat match goal with |- context [if ?c then _ else _] => destruct c end; try done.
  unfold order_inv in *. by destruct Hk as ([] & ?).
Qed.

Lemma contract_ok_seller_identity r w i : contract_ok r w -> contract_ok r (set_seller_identity w i).
Proof.
  intros [Hl Hs Hb Hk]. constructor; [done..|]. unfold kind_inv in *.
  repeat match goal with |- context [if ?c then _ else _] => destruct c end; try done.
  unfold order_inv in *. by destruct Hk as ([] & ?).
Qed.

Definition signed (w w' : TradeCommerceWorkflow) : Prop :=
  w_legs w' = w_legs w /\ w_winning_bid_id w' = w_winning_bid_id w /\ w_highest_bidder w' = w_highest_bidder w /\
  forall r, contract_ok r w -> contract_ok r w'.

Lemma create_tx_row env db r w answer db' :
  create_tx env db r w = Ok (answer, db') -> r_kind r <> RmbKind ->
  exists w', signed w w' /\ answer = set_r_workflow r (Some w') /\ tr_commerce db !! r_id r = None /\
    new_key (tr_commerce db) (r_request_key r) /\ tr_commerce db' = <[r_id r := answer]> (tr_commerce db).
Proof.
  intros H Hk. unfold create_tx in H. apply bind_Ok in H as (u & _ & (u2 & _ & H)%bind_Ok).
  apply bind_Ok in H as (seller & _ & H). cbv zeta in H. apply bind_Ok in H as (buyer & _ & H). cbv zeta in H.
  apply bind_Ok in H as (db1 & Hi & [= <- <-]).
  match type of Hi with Insert _ (set_r_workflow _ (Some ?x)) = _ => exists x; split end.
  { do 2 split_if; (split_and!; [done..|]); intros r' Hok;
      repeat (apply contract_ok_buyer_identity || apply contract_ok_seller_identity); done. }
  split; [done|]. by apply Insert_Ok in Hi as (Hn & Hnew & ->).
Qed.

Lemma create_step sha256 env probe db newid player id digest r w answer db' :
  newborn r w -> Create sha256 env probe db newid player id digest r w = Ok (answer, db') ->
  ledger_step db db'.
Proof.
  intros (Hok & Hlegs & Hf & Hb & Hk). unfold Create. intros (old & _ & H)%bind_Ok. destruct old as [old|].
  { injection H as _ <-. by apply step_same. }
  cbv zeta in H. set (r0 := set_r_version _ _) in H.
  destruct (create_tx env db r0 w) as [[a0 db0]|e] eqn:Hc.
  - injection H as <- <-. intros Hm. apply create_tx_row in Hc as (w' & (Hl & Hwin & Hhb & Hs) & -> & Hnone & Hnew & Heq); [|done].
    rewrite Heq. split; [|by apply observed_create].
    apply (ledger_create _ _ Hm (set_r_workflow r0 (Some w')) w'); [done|done|..].
    + apply (contract_ok_goods r); [done..|by apply Hs].
    + intros _. unfold has_bid. by rewrite Hwin, Hhb.
    + intros a. unfold fill_row. cbn. rewrite Hf. unfold outflow. rewrite Hl, Hlegs. simpl. repeat split_if; done.
  - destruct (ByRequest db (r_request_key r0)); [|done]. apply bind_Ok in H as (x & _ & [= _ <-]). by apply step_same.
Qed.

(** ** The contracts of the five requests *)
Lemma newborn_legs w : w_legs w = [] -> legs_ok w /\ collecting w /\ (forall R, debits_in R w) /\
  (forall role, leg w role = None).
Proof.
  intros Hl. unfold legs_ok, collecting, debits_in, roles, leg. rewrite Hl.
  split_and!; [apply NoDup_nil_2|set_solver..].
Qed.

Lemma player_trade_newborn env me buyer sa ba :
  selection_ok sa -> selection_ok ba ->
  newborn (player_trade env me buyer sa ba).1 (player_trade env me buyer sa ba).2.
Proof.
  intros Hs Hb. destruct (newborn_legs (player_trade env me buyer sa ba).2 eq_refl) as (Hl & Hc & Hd & _).
  split; [|split_and!; [done|done|unfold has_bid; cbn; lia|done]].
  constructor; [done..|]. rewrite kind_player by done. by split.
Qed.

Lemma consignment_newborn env me price currency duration assets :
  selection_ok assets -> 0 <= price ->
  newborn (consignment env me price currency duration assets).1 (consignment env me price currency duration assets).2.
Proof.
  intros Hs Hp. set (c := consignment _ _ _ _ _ _).
  destruct (newborn_legs c.2 eq_refl) as (Hl & Hc & Hd & _).
  split; [|split_and!; [done|done|unfold has_bid; cbn; lia|done]].
  constructor; [done..|]. rewrite kind_consignment by done. unfold consignment_inv.
  split; [by split|]. split; [set_solver|by split].
Qed.

Lemma lot_newborn env me price currency increment duration assets :
  selection_ok assets ->
  newborn (lot env me price currency increment duration assets).1 (lot env me price currency increment duration assets).2.
Proof.
  intros Hs. set (c := lot _ _ _ _ _ _ _).
  destruct (newborn_legs c.2 eq_refl) as (Hl & Hc & Hd & _).
  split; [|split_and!; [done|done|unfold has_bid; cbn; lia|done]].
  constructor; [done..|]. rewrite kind_lot by done. unfold lot_inv. split_and!; [done| |done]. by intros v [=].
Qed.

Lemma bid_newborn l me amount :
  0 <= amount -> newborn (bid_contract l me amount).1 (bid_contract l me amount).2.
Proof.
  intros Ha. set (c := bid_contract _ _ _).
  destruct (newborn_legs c.2 eq_refl) as (Hl & Hc & Hd & Hleg).
  split; [|split_and!; [done|done|unfold has_bid; cbn; lia|done]].
  constructor; [done|by split|done|]. rewrite kind_bid by done. unfold bid_inv.
  split_and!; [done|by intros v [= <-]| |done]. intros x. by rewrite Hleg.
Qed.

Lemma market_newborn me market item side price quantity currency :
  side = 1 \/ side = 2 -> 0 < quantity <= 4096 -> 0 < price -> price <= MaxInt64 / quantity ->
  newborn (market_order me market item side price quantity currency).1
    (market_order me market item side price quantity currency).2.
Proof.
  intros Hside Hq Hp Hmax. set (c := market_order _ _ _ _ _ _ _).
  assert (Hprod : price * quantity <= MaxInt64).
  { pose proof (Z.mul_div_le MaxInt64 quantity ltac:(lia)). nia. }
  assert (Hm : price *64 quantity = price * quantity).
  { unfold u64, MaxInt64 in *. apply Z.mod_small. unfold u64_mod. nia. }
  destruct (newborn_legs c.2 eq_refl) as (Hl & Hc & Hd & Hleg).
  split; [|split_and!; [done|done|unfold has_bid; cbn; lia|done]].
  constructor; [done| |done|].
  - unfold c, market_order. cbn. rewrite Hm. destruct Hside as [->| ->]; cbn; split; try (repeat constructor; cbn; lia); cbn; nia.
  - rewrite kind_order; [|done|by cbn; lia]. unfold order_inv. split_and!; [|done| |by left|done].
    2: { intros x. by rewrite Hleg. }
    constructor; cbn; [done|lia|lia|lia|]. intros a. rewrite Hm. unfold unit_worth. cbn.
    destruct Hside as [->| ->]; cbn [Z.eqb Pos.eqb]; unfold Bundle; cbn.
    + assert ((0 <? price * quantity) = true) as -> by (apply Z.ltb_lt; nia).
      destruct a as [k|k|k|k]; unfold amount_of, count_of; cbn.
      * case_bool_decide as E; [injection E as ->; rewrite Z.eqb_refl; lia|].
        assert ((currency =? k) = false) as -> by (apply Z.eqb_neq; congruence). lia.
      * rewrite bool_decide_eq_false_2 by done. lia.
      * rewrite bool_decide_eq_false_2 by done. lia.
      * rewrite bool_decide_eq_false_2 by done. destruct k; cbn; lia.
    + destruct a as [k|k|k|k]; unfold amount_of, count_of; cbn.
      * rewrite bool_decide_eq_false_2 by done. lia.
      * case_bool_decide as E; [injection E as ->; rewrite Z.eqb_refl; lia|].
        assert ((item =? k) = false) as -> by (apply Z.eqb_neq; congruence). lia.
      * rewrite bool_decide_eq_false_2 by done. lia.
      * rewrite bool_decide_eq_false_2 by done. destruct k; cbn; lia.
Qed.

(** ** The operations as steps *)

(** One transaction. [probe] is the database of the reads made before it. The
    amounts of a request are unsigned. Everything that does not write contracts -
    the delivery loop, abandonment, the directory of roles - is [s_outside]. *)
Section steps.
Context (sha256 : string -> string) (p : Policy).

Inductive trade_step (probe db db' : TradeDB) : Prop :=
  | s_outside : tr_commerce db' = tr_commerce db -> trade_step probe db db'
  | s_player_trade env newid me id digest buyer sa ba r :
      selection_ok sa -> selection_ok ba ->
      CreatePlayerTrade sha256 p env probe db newid me id digest buyer sa ba = Ok (r, db') -> trade_step probe db db'
  | s_consignment env newid me id digest assets price currency duration r :
      selection_ok assets ->
      CreateConsignment sha256 p env probe db newid me id digest assets price currency duration = Ok (r, db') ->
      trade_step probe db db'
  | s_lot env newid me id digest assets price currency increment duration r :
      selection_ok assets ->
      CreateLot sha256 p env probe db newid me id digest assets price currency increment duration = Ok (r, db') ->
      trade_step probe db db'
  | s_market env newid me id digest market item side price quantity currency r :
      0 <= quantity ->
      PlaceMarket sha256 p env probe db newid me id digest market item side price quantity currency = Ok (r, db') ->
      trade_step probe db db'
  | s_mutate env me id a r :
      Mutate sha256 env probe db me id a = Ok (r, db') -> trade_step probe db db'
  | s_advance env ids old :
      advance_tx p env ids old db = Ok db' -> trade_step probe db db'
  | s_match env matchID id defect :
      matchMarket sha256 env matchID id probe db = Ok (defect, db') -> trade_step probe db db'
  | s_bid env newid me lotID id digest amount r :
      0 <= amount ->
      PlaceBid sha256 env probe db newid me lotID id digest amount = Ok (r, db') -> trade_step probe db db'
  | s_accept env bidID : acceptBid env bidID probe db = Ok db' -> trade_step probe db db'
  | s_settle env r : settleHeldBid env r probe db = Ok db' -> trade_step probe db db'
  | s_defer env r cause delay : db' = deferCommerce env r cause delay db -> trade_step probe db db'.

(** [past]: the databases before [db]; the reads of a step see one of them, or
    [db] itself. *)
Inductive run : list TradeDB -> TradeDB -> Prop :=
  | run_start db : tr_commerce db = ∅ -> run [] db
  | run_step past probe db db' :
      run past db -> probe ∈ db :: past -> trade_step probe db db' -> run (db :: past) db'.
End steps.

(** ** Every step keeps the ledger *)
Lemma defer_step db id version until : ledger_step db (Defer db id version until).2.
Proof.
  unfold Defer. destruct (tr_commerce db !! id) as [row|] eqn:Hr; [|by apply step_same].
  split_if; [|by apply step_same]. intros Hm. destruct (get_row _ _ _ Hm Hr) as (Hid & w & Hw & Hok). cbn. split.
  - eapply ledger_evolves; [exact Hm|exact Hr|exact Hw|done|]. split; try done.
    by apply (contract_ok_goods row).
  - by eapply observed_update.
Qed.

Lemma quarantine_keeps env db r answer : quarantine env db r = Ok answer -> ledger_step db answer.2.
Proof.
  unfold quarantine. destruct (tr_commerce db !! r_id r) as [cur|] eqn:Hr; [|intros [= <-]; by apply step_same].
  split_if; [intros [= <-]; by apply step_same|]. intros (db1 & Hq & [= <-])%bind_Ok.
  by eapply quarantine_step.
Qed.

Lemma deferCommerce_step env r cause delay db : ledger_step db (deferCommerce env r cause delay db).
Proof.
  unfold deferCommerce. destruct (failureClass cause); try apply defer_step; [|by apply step_same].
  destruct (quarantine env db r) as [[[] db']|] eqn:Hq; try apply defer_step.
  exact (quarantine_keeps _ _ _ _ Hq).
Qed.

Lemma settle_step env id db db' : settle_tx env id db = Ok db' -> ledger_step db db'.
Proof.
  unfold settle_tx. intros (r & Hg & (w & Hw%corrupt_Ok & H)%bind_Ok)%bind_Ok. unfold Get in Hg.
  destruct (tr_commerce db !! id) as [x|] eqn:Hr; [|done]. injection Hg as ->.
  unfold Workflow in Hw. destruct (r_workflow r) as [w'|] eqn:Hw'; [|done]. injection Hw as ->.
  destruct (negb (stage_is w SBidHeld)) eqn:Hst; [injection H as <-; by apply step_same|].
  apply negb_false_iff, bool_decide_eq_true_1 in Hst. intros Hm.
  apply (step_save (with_outbox db (MarkCommerceOpsConsumedTx (tr_outbox db) id)) id r w _ _ _ _ Hr Hw'
    (fun Hok => settle_evolves r w Hok Hst) H Hm).
Qed.

Lemma one_row_step db (id : Z) r w r' w' now o :
  tr_commerce db !! id = Some r -> r_workflow r = Some w -> (contract_ok r w -> evolves r w r' w') ->
  ledger_step db (with_commerce (with_outbox db o) (<[id := saved_row r r' w' now]> (tr_commerce db))).
Proof.
  intros Hr Hw Hev Hm. destruct (get_row _ _ _ Hm Hr) as (Hid & w1 & Hw1 & Hok).
  rewrite Hw in Hw1. injection Hw1 as <-. specialize (Hev Hok). split.
  - eapply ledger_evolves; [exact Hm|exact Hr|exact Hw|done|]. by apply saved_evolves.
  - pose proof (ev_terms _ _ _ _ Hev) as [_ _ Hse _ _ _ _ _ _ He _ _].
    eapply observed_update; [exact Hr|by apply saved_terms].
Qed.

Lemma advance_step p env ids old db db' : advance_tx p env ids old db = Ok db' -> ledger_step db db'.
Proof.
  intros H Hm. pose proof H as Hrun.
  unfold advance_tx in H. apply bind_Ok in H as (w0 & _ & (u & _ & (r & Hg & _)%bind_Ok)%bind_Ok).
  unfold Get in Hg. destruct (tr_commerce db !! r_id old) as [x|] eqn:Hr; [|done]. injection Hg as ->.
  destruct (get_row _ _ _ Hm Hr) as (Hid & w & Hw & Hok).
  destruct (advance_tx_row _ _ _ _ _ _ _ _ Hr Hid Hw Hok Hrun) as (o & r' & w' & Hev & ->).
  rewrite Hid. by apply (one_row_step db (r_id old) r w r' w').
Qed.

Lemma mutate_step sha256 env probe db me id a r db' :
  Mutate sha256 env probe db me id a = Ok (r, db') -> ledger_step db db'.
Proof.
  unfold Mutate. intros (before & _ & H)%bind_Ok. intros Hm. pose proof H as Hrun. unfold mutate_tx in H.
  apply bind_Ok in H as (u & _ & H). destruct (tr_commerce db !! id) as [row|] eqn:Hr; [|done]. clear H.
  destruct (get_row _ _ _ Hm Hr) as (Hid & w & Hw & Hok).
  destruct (mutate_tx_row _ _ _ _ _ _ _ _ _ _ _ Hr Hid Hw Hok Hrun) as [->|(o & r' & w' & Hev & ->)].
  - by apply step_same.
  - by apply (one_row_step db id row w r' w').
Qed.

Lemma trade_step_keeps sha256 p probe db db' :
  observed (tr_commerce probe) (tr_commerce db) -> ledger (tr_commerce probe) ->
  trade_step sha256 p probe db db' -> ledger_step db db'.
Proof.
  intros Hobs Hpm Hstep Hm. destruct Hstep.
  - by apply step_same.
  - revert H1. unfold CreatePlayerTrade. do 2 (split_if; [done|]). intros (? & _ & (? & _ & Hc)%bind_Ok)%bind_Ok.
    eapply create_step; [|exact Hc|done]. by apply (player_trade_newborn env me buyer sa ba).
  - revert H0. unfold CreateConsignment. intros (? & _ & Hc)%bind_Ok. revert Hc.
    destruct (negb (validPrice price currency p) || _ || _) eqn:Hv; [done|]. intros Hc.
    eapply create_step; [|exact Hc|done]. apply (consignment_newborn env me price currency duration assets); [done|].
    unfold validPrice in Hv. repeat (apply orb_false_iff in Hv as [Hv _]). zbool. lia.
  - revert H0. unfold CreateLot. intros (? & _ & Hc)%bind_Ok. revert Hc. split_if; [done|]. intros Hc.
    eapply create_step; [|exact Hc|done]. by apply (lot_newborn env me price currency increment duration assets).
  - revert H0. unfold PlaceMarket. destruct (_ || _ || _ || _ || _ || _ || _ || _) eqn:Hv; [done|]. intros Hc.
    eapply create_step; [|exact Hc|done].
    repeat (apply orb_false_iff in Hv as [Hv ?]). unfold validPrice in *. zbool.
    apply (market_newborn me market item side price quantity currency); try lia.
  - by eapply mutate_step.
  - by eapply advance_step.
  - unfold matchMarket in H. apply bind_Ok in H as (taker & Hg & H). unfold Get in Hg.
    destruct (tr_commerce probe !! id) as [t|] eqn:Ht; [|done]. injection Hg as ->.
    destruct (negb (r_kind taker =? MarketKind) || _ || _) eqn:Hk.
    { injection H as _ <-. by apply step_same. }
    repeat (apply orb_false_iff in Hk as [Hk ?]). zbool.
    destruct (marketCounterparty probe taker) as [oid|]; [|injection H as _ <-; by apply step_same].
    apply bind_Ok in H as (seen & _ & H).
    eapply match_tx_step; [exact Hm| |exact Hk|done|exact H].
    intros r Hr. destruct (get_row _ _ _ Hpm Ht) as (Hid & _).
    destruct (ob_rows _ _ Hobs _ _ Ht) as (r' & Hr' & Hte). rewrite Hid, Hr' in Hr. by injection Hr as <-.
  - unfold PlaceBid in H0. apply bind_Ok in H0 as (l & _ & (old & _ & H0)%bind_Ok). destruct old as [old|].
    { injection H0 as _ <-. by apply step_same. }
    apply bind_Ok in H0 as (w & _ & H0). revert H0. do 3 (split_if; [done|]). intros Hc.
    eapply create_step; [|exact Hc|done]. by apply (bid_newborn l me amount).
  - unfold acceptBid in H. apply bind_Ok in H as (candidate & Hg & H). unfold Get in Hg.
    destruct (tr_commerce probe !! bidID) as [c|] eqn:Hc; [|done]. injection Hg as ->.
    eapply accept_step; [exact Hm| |exact H]. intros bid Hb.
    destruct (get_row _ _ _ Hpm Hc) as (Hid & _). destruct (ob_rows _ _ Hobs _ _ Hc) as (r' & Hr' & Hte).
    rewrite Hid, Hr' in Hb. injection Hb as <-. by rewrite (st_parent _ _ Hte).
  - unfold settleHeldBid in H. destruct (tr_commerce probe !! r_parent r) as [parent|]; [|done].
    revert H. split_if; [intros [= <-]; by apply defer_step|]. intros H. by eapply settle_step.
  - subst db'. by apply deferCommerce_step.
Qed.

(** Every database of a run keeps the ledger, and every earlier row is still
    there with its terms. *)
Lemma run_ledger sha256 p past db :
  run sha256 p past db ->
  ledger (tr_commerce db) /\
  forall probe, probe ∈ db :: past -> ledger (tr_commerce probe) /\ observed (tr_commerce probe) (tr_commerce db).
Proof.
  induction 1 as [db Hdb|past probe db db' Hrun [Hm Hpast] Hin Hstep].
  - rewrite Hdb. split; [apply ledger_empty|]. intros probe ->%list_elem_of_singleton. rewrite Hdb.
    split; [apply ledger_empty|apply observed_refl].
  - destruct (Hpast probe Hin) as [Hpm Hpo]. destruct (trade_step_keeps _ _ _ _ _ Hpo Hpm Hstep Hm) as [Hm' Ho'].
    split; [done|]. intros x [->|Hx]%elem_of_cons; [split; [done|apply observed_refl]|].
    destruct (Hpast x Hx) as [Hxm Hxo]. split; [done|]. by eapply observed_trans.
Qed.

Lemma run_contract sha256 p past db id r w :
  run sha256 p past db -> tr_commerce db !! id = Some r -> r_workflow r = Some w -> contract_ok r w.
Proof.
  intros [Hm _]%run_ledger Hr Hw. destruct (get_row _ _ _ Hm Hr) as (_ & w' & Hw' & Hok). congruence.
Qed.
