(* ===== verification/CommerceCustody.v ===== *)
(** * Trade: custody covers what is handed out

    Over all contracts of a database that a run reaches: what the contracts hand
    out is covered by what they took. The three links between contracts - a
    child and its two orders, a lot and its winning bid - are where one contract
    pays with another's custody. *)

From stdpp Require Import base list gmap strings.
From Stdlib Require Import ZArith Lia.
From S2P Require Import Prelude RoleRoute CommerceData CommercePlan AssetOps CommerceStore CommerceMarket CommerceInv CommercePlanThms CommerceObserve CommerceSteps CommerceMutate CommerceAuction CommerceBook CommerceRun.
Local Open Scope Z_scope.

(** ** What one contract hands out and takes *)

(** A credit that was applied, or may still be. *)
Definition leg_live (l : TradeCommerceLeg) (a : asset) : Z :=
  if (l_outcome l =? 0) || (l_outcome l =? 2) then leg_out l a else 0.

Definition handed_out (a : asset) (r : TradeCommerceRecord) : Z :=
  match r_workflow r with
  | Some w => sumZ (fun l => leg_live l a) (w_legs w)
  | None => 0
  end.

Definition taken (a : asset) (r : TradeCommerceRecord) : Z :=
  match r_workflow r with Some w => inflow w a | None => 0 end.

Lemma leg_out_nonneg l a : leg_ok l -> 0 <= leg_out l a.
Proof.
  unfold leg_out. intros [[Hs (b & -> & Hb & _)]|[Hs (b & -> & Hb)]]; split_if; try lia.
  - by rewrite Hs in Heqb0.
  - destruct Hb as [Hc Hi]. destruct a; simpl; auto using amount_of_nonneg, count_of_nonneg.
    destruct (b_pet_instance b); [|done]. split_if; lia.
Qed.

Lemma live_le_out w a : legs_ok w -> sumZ (fun l => leg_live l a) (w_legs w) <= outflow w a.
Proof.
  intros [_ Hok]. apply sumZ_le. intros l Hl. unfold leg_live. split_if; [lia|]. by apply leg_out_nonneg, Hok.
Qed.

(** A sale for real money pays its custody out once: to the buyer, or back after
    the buyer's credit failed. *)
Lemma rmb_live r w a :
  contract_ok r w -> r_kind r = RmbKind -> sumZ (fun l => leg_live l a) (w_legs w) <= inflow w a.
Proof.
  intros [Hl Hs Hb Hk] Hkind. rewrite kind_rmb in Hk by done. unfold rmb_inv in Hk.
  destruct Hk as (Hd & Hcr & Hb1 & Hb2 & Hstage). destruct Hl as [Hnd Hok].
  assert (Hone : leg w "seller_return" = None \/ credit_failed (leg w "rmb_buyer_credit")).
  { assert (Hc : collecting w -> leg w "seller_return" = None)
      by (intros Hc; by apply (credit_role_free ["seller_debit"%string] w)).
    destruct (w_stage w); destruct_and?; auto; done. }
  assert (Hin : inflow w a = opt_in (leg w "seller_debit") a).
  { rewrite (inflow_debits ["seller_debit"%string]); [simpl; lia|apply NoDup_singleton|done|done]. }
  assert (Hnn : 0 <= opt_in (leg w "seller_debit") a).
  { destruct (leg w "seller_debit") as [d|] eqn:E; [|done]. apply leg_in_nonneg. eapply legs_ok_leg; [by split|done]. }
  set (R := ["seller_return"; "rmb_buyer_credit"]%string).
  assert (Hsum : sumZ (fun l => leg_live l a) (w_legs w) =
    sumZ (fun role => match leg w role with Some l => leg_live l a | None => 0 end) R).
  { apply sum_by_role; [by apply nodup_roles|done|]. intros l Hl Hr.
    unfold leg_live. split_if; [|done]. apply leg_out_debit.
    destruct (leg_ok_stream l (Hok l Hl)) as [?|Hsc]; [done|]. destruct Hr. by apply Hcr. }
  rewrite Hsum, Hin. simpl.
  assert (Hbk : forall role, backed_by_seller w role ->
    match leg w role with Some l => leg_live l a | None => 0 end <= opt_in (leg w "seller_debit") a).
  { intros role Hb'. destruct (leg w role) as [l|] eqn:E; [|lia]. destruct (Hb' l E) as [_ Hw].
    unfold leg_live. split_if; [rewrite Hw; lia|lia]. }
  pose proof (Hbk _ Hb1). pose proof (Hbk _ Hb2).
  destruct Hone as [->|Hf]; [lia|].
  destruct (leg w "rmb_buyer_credit") as [l|]; [|lia]. destruct Hf as [Hf0 Hf2].
  unfold leg_live in *. rewrite (proj2 (Z.eqb_neq _ _) Hf0), (proj2 (Z.eqb_neq _ _) Hf2) in *. cbn [orb]. lia.
Qed.

(** ** The claim of each contract on the others *)

(** What the seller of a lot is paid from a bid. *)
Definition claim_row (a : asset) (r : TradeCommerceRecord) : Z :=
  match r_workflow r with
  | Some w => if r_kind r =? LotKind then lot_claim w a else 0
  | None => 0
  end.

(** The custody of a bid that pays nothing out itself. *)
Definition spare_row (a : asset) (r : TradeCommerceRecord) : Z :=
  match r_workflow r with
  | Some w => if (r_kind r =? BidKind) && (outflow w a =? 0) then inflow w a else 0
  | None => 0
  end.

Lemma order_conserved r w a :
  contract_ok r w -> r_kind r = MarketKind -> r_side r <> 0 ->
  outflow w a <= inflow w a - r_filled r * unit_worth r a.
Proof.
  intros Hok Hk Hs. pose proof (manual_kind r w Hok) as Hm. destruct Hok as [Hl _ _ Hkind].
  rewrite kind_order in Hkind, Hm by done. destruct Hkind as (Ht & Hd & Hown & Hf & _).
  destruct Hm as (_ & _ & _ & _ & Hm). specialize (Hm a). change (outflow (set_stage w SManual) a) with (outflow w a) in Hm.
  change (order_remainder (set_r_status r Manual) (set_stage w SManual) a) with (order_remainder r w a) in Hm.
  unfold order_remainder in Hm.
  rewrite (inflow_debits ["seller_debit"%string]) by (done || apply NoDup_singleton). simpl.
  destruct (applied (leg w "seller_debit")) eqn:Ha.
  - apply applied_Some in Ha as (d & Hleg & Ho). rewrite Hleg. cbn. unfold leg_in.
    destruct (Hown d Hleg) as [-> ->]. rewrite Ho. cbn. rewrite (ot_assets _ _ Ht). lia.
  - rewrite opt_in_unapplied by done. destruct Hf as [Hf|Hf]; [rewrite Hf; lia|congruence].
Qed.

Lemma row_balance r w a :
  r_workflow r = Some w -> contract_ok r w -> r_kind r <> OfficialKind ->
  handed_out a r - taken a r <= claim_row a r - spare_row a r - fill_row a r.
Proof.
  intros Hw Hok Hno. pose proof (live_le_out w a (co_legs _ _ Hok)) as Hlive.
  pose proof (inflow_nonneg w a (co_legs _ _ Hok)) as Hin.
  unfold handed_out, taken, claim_row, spare_row, fill_row. rewrite Hw.
  pose proof (manual_kind r w Hok) as Hm.
  destruct (contract_kind r w Hok) as [[Hk H]|[[Hk H]|[[Hk H]|[[Hk [Hs H]]|[[Hk [Hs H]]|[[Hk H]|[[Hk H]|[Hk H]]]]]]]];
    rewrite Hk; cbn [Z.eqb Pos.eqb andb OfficialKind PlayerTradeKind ConsignmentKind MarketKind LotKind RmbKind BidKind].
  - done.
  - rewrite kind_player in Hm by done. destruct Hm as [_ Hm]. specialize (Hm a).
    change (outflow (set_stage w SManual) a) with (outflow w a) in Hm.
    change (inflow (set_stage w SManual) a) with (inflow w a) in Hm. lia.
  - rewrite kind_consignment in Hm by done. destruct Hm as (_ & _ & Hm). specialize (Hm a).
    change (outflow (set_stage w SManual) a) with (outflow w a) in Hm.
    change (inflow (set_stage w SManual) a) with (inflow w a) in Hm. lia.
  - rewrite Hs. cbn [Z.eqb]. lia.
  - rewrite (proj2 (Z.eqb_neq _ _) Hs). pose proof (order_conserved r w a Hok Hk Hs). lia.
  - rewrite kind_lot in Hm by done. destruct Hm as (_ & _ & Hm). specialize (Hm a).
    change (outflow (set_stage w SManual) a) with (outflow w a) in Hm.
    change (inflow (set_stage w SManual) a) with (inflow w a) in Hm.
    change (lot_claim (set_stage w SManual) a) with (lot_claim w a) in Hm. lia.
  - pose proof (rmb_live r w a Hok Hk). lia.
  - rewrite kind_bid in Hm by done. destruct Hm as (_ & _ & _ & Hm). specialize (Hm a).
    change (outflow (set_stage w SManual) a) with (outflow w a) in Hm.
    change (inflow (set_stage w SManual) a) with (inflow w a) in Hm.
    destruct (outflow w a =? 0) eqn:E; zbool; lia.
Qed.

Lemma sum_le_inj {A B} (f : A -> Z) (g : B -> Z) (h : A -> B) l k :
  NoDup (h <$> l) -> (forall x, x ∈ l -> h x ∈ k) -> (forall x, x ∈ l -> f x <= g (h x)) ->
  (forall y, y ∈ k -> 0 <= g y) -> sumZ f l <= sumZ g k.
Proof.
  intros Hnd Hin Hle Hpos.
  assert (Hsub : h <$> l ⊆+ k).
  { apply NoDup_submseteq; [done|]. intros y (x & -> & Hx)%list_elem_of_fmap. auto. }
  apply submseteq_Permutation in Hsub as [k' Hk]. rewrite (sumZ_perm _ _ _ Hk), sumZ_app, sumZ_fmap.
  pose proof (sumZ_le f (fun x => g (h x)) l Hle). enough (0 <= sumZ g k') by lia.
  apply sumZ_nonneg. intros y Hy. apply Hpos. rewrite Hk. apply elem_of_app. by right.
Qed.

Lemma sum_drop_zero {A} (f : A -> Z) (keep : A -> bool) l :
  (forall x, keep x = false -> f x = 0) -> sumZ f l = sumZ f (keep_if keep l).
Proof.
  intros H. induction l as [|x l IH]; [done|]. simpl. destruct (keep x) eqn:E; simpl; [lia|].
  rewrite (H x E). lia.
Qed.

Section database.
Context (db : TradeDB) (Hm : ledger (tr_commerce db)).

Lemma rows_ids : r_id <$> commerce_rows db = (map_to_list (tr_commerce db)).*1.
Proof using Hm.
  unfold commerce_rows. rewrite <- list_fmap_compose. apply list_fmap_ext. intros i [k r] Hi.
  apply list_elem_of_lookup_2, elem_of_map_to_list in Hi. cbn. by destruct (get_row _ _ _ Hm Hi).
Qed.

Lemma row_of r : r ∈ commerce_rows db -> exists w, r_workflow r = Some w /\ contract_ok r w /\
  tr_commerce db !! r_id r = Some r.
Proof using Hm.
  intros [id Hid]%commerce_row. destruct (get_row _ _ _ Hm Hid) as (Heq & w & Hw & Hok). exists w.
  by rewrite Heq.
Qed.

Definition winner (r : TradeCommerceRecord) : TradeCommerceRecord :=
  match r_workflow r with
  | Some w => default no_commerce (tr_commerce db !! w_winning_bid_id w)
  | None => no_commerce
  end.

Lemma spare_nonneg a r : r ∈ commerce_rows db -> 0 <= spare_row a r.
Proof using Hm.
  intros (w & Hw & Hok & _)%row_of. unfold spare_row. rewrite Hw. split_if; [|done].
  apply inflow_nonneg, Hok.
Qed.

(** A lot that pays its seller has a bid that is worth the payment. *)
Lemma claim_backed a r :
  r ∈ commerce_rows db -> claim_row a r <> 0 ->
  winner r ∈ commerce_rows db /\ r_parent (winner r) = r_id r /\ claim_row a r <= spare_row a (winner r).
Proof using Hm.
  intros Hr Hc. destruct (row_of r Hr) as (w & Hw & Hok & Hrow). unfold claim_row in *. rewrite Hw in *.
  destruct (r_kind r =? LotKind) eqn:Hk; [|done]. zbool. unfold lot_claim in *.
  destruct (negb (w_highest_bidder w =? 0) && _) eqn:Hhb; [|done]. apply andb_true_iff in Hhb as [Hhb _]. zbool.
  destruct (lg_lots _ _ Hm _ _ _ Hrow Hk Hw ltac:(by right) ltac:(auto)) as (b & bw & Hb & Hbw & Hheld & Hp & Has).
  unfold winner. rewrite Hw, Hb. cbn. split; [apply commerce_row; eauto|]. split; [done|].
  destruct (get_row _ _ _ Hm Hb) as (_ & bw' & Hbw' & Hbok). rewrite Hbw in Hbw'. injection Hbw' as <-.
  destruct Hheld as (Hbk & _ & Hcol & Ha). unfold spare_row. rewrite Hbw, Hbk, collecting_outflow by done.
  cbn [Z.eqb Pos.eqb andb BidKind]. destruct Hbok as [Hl _ _ Hkind]. rewrite kind_bid in Hkind by done.
  destruct Hkind as (Hd & _ & Hown & _).
  rewrite (inflow_debits ["bid_debit"%string]) by (done || apply NoDup_singleton).
  apply applied_Some in Ha as (d & Hleg & Ho). destruct (Hown d Hleg) as [Hs Hbun].
  simpl. rewrite Hleg. cbn. unfold leg_in. rewrite Hs, Ho, Hbun. cbn. rewrite Has. lia.
Qed.

Lemma claims_backed a : sumZ (claim_row a) (commerce_rows db) <= sumZ (spare_row a) (commerce_rows db).
Proof using Hm.
  set (lots := keep_if (fun r => negb (claim_row a r =? 0)) (commerce_rows db)).
  assert (Hl : sumZ (claim_row a) (commerce_rows db) = sumZ (claim_row a) lots).
  { apply sum_drop_zero. intros r H. by apply negb_false_iff, Z.eqb_eq in H. }
  assert (Hlots : forall r, r ∈ lots -> r ∈ commerce_rows db /\ claim_row a r <> 0).
  { intros r [Hr Hc]%elem_of_keep_if. zbool. done. }
  rewrite Hl. apply (sum_le_inj _ _ winner).
  - apply (NoDup_fmap_1 r_parent). rewrite <- list_fmap_compose.
    assert (Hids : r_parent ∘ winner <$> lots = r_id <$> lots).
    { apply list_fmap_ext. intros i r [Hr Hc]%list_elem_of_lookup_2%Hlots. cbn.
      by destruct (claim_backed a r Hr Hc) as (_ & ? & _). }
    rewrite Hids. apply NoDup_fmap_keep_if. rewrite rows_ids. apply NoDup_fst_map_to_list.
  - intros r [Hr Hc]%Hlots. by destruct (claim_backed a r Hr Hc) as (? & _).
  - intros r [Hr Hc]%Hlots. by destruct (claim_backed a r Hr Hc) as (_ & _ & ?).
  - intros r. apply spare_nonneg.
Qed.
End database.

(** The contracts that are paid for in the game; an official order hands out what
    was bought for real money. *)
Definition player_rows (db : TradeDB) : list TradeCommerceRecord :=
  keep_if (fun r => negb (r_kind r =? OfficialKind)) (commerce_rows db).

Lemma custody db a :
  ledger (tr_commerce db) -> sumZ (handed_out a) (player_rows db) <= sumZ (taken a) (player_rows db).
Proof.
  intros Hm.
  assert (Hdiff : sumZ (fun r => handed_out a r - taken a r) (player_rows db) <=
    sumZ (fun r => claim_row a r - spare_row a r - fill_row a r) (player_rows db)).
  { apply sumZ_le. intros r [Hr Hk]%elem_of_keep_if. destruct (row_of db Hm r Hr) as (w & Hw & Hok & _).
    zbool. by apply (row_balance r w). }
  assert (Hall : sumZ (fun r => claim_row a r - spare_row a r - fill_row a r) (player_rows db) =
    sumZ (fun r => claim_row a r - spare_row a r - fill_row a r) (commerce_rows db)).
  { symmetry. apply sum_drop_zero. intros r Hk. apply negb_false_iff, Z.eqb_eq in Hk.
    unfold claim_row, spare_row, fill_row. rewrite Hk. by destruct (r_workflow r). }
  pose proof (claims_backed db Hm a) as Hcl. pose proof (lg_fills _ _ Hm a) as Hf. unfold msum in Hf.
  fold (commerce_rows db) in Hf.
  assert (Hsplit : forall f g h : TradeCommerceRecord -> Z, forall l,
    sumZ (fun r => f r - g r - h r) l = sumZ f l - sumZ g l - sumZ h l) by (intros f g h l; induction l; simpl; lia).
  assert (Hsplit2 : forall f g : TradeCommerceRecord -> Z, forall l,
    sumZ (fun r => f r - g r) l = sumZ f l - sumZ g l) by (intros f g l; induction l; simpl; lia).
  rewrite Hall, Hsplit2, Hsplit, Hf in Hdiff. lia.
Qed.
