(* ===== verification/CommerceLiveness.v ===== *)
(** * Trade: planning always succeeds, and a contract past its deadline ends

    No block of [plan] fails on a contract that is in order: the legs it reads
    are there and their snapshots match. Once every command is answered, a trade,
    a consignment or a lot past its deadline ends within a few rounds. *)

From stdpp Require Import base list gmap strings.
From Stdlib Require Import ZArith Lia.
From S2P Require Import Prelude CommerceData CommercePlan AssetOps CommerceStore CommerceInv CommercePlanThms CommerceObserve CommerceSteps.
Local Open Scope Z_scope.

(** ** No failure *)
Definition sound (f : flow) : Prop := forall e, f <> Fail e.

Lemma leg_transfers w d :
  legs_ok w -> d ∈ w_legs w -> l_stream d = StreamDebit -> l_outcome d = 2 ->
  exists b, Transfer (l_bundle d) (l_snapshot d) = Ok b.
Proof.
  intros [_ Hok] Hin Hs Ho. destruct (Hok d Hin) as [[_ (b & _ & _ & Ht)]|[Hc _]]; [auto|].
  by rewrite Hs in Hc.
Qed.

Lemma transferLeg_total w w0 role to d :
  legs_ok w0 -> d ∈ w_legs w0 -> l_stream d = StreamDebit -> l_outcome d = 2 ->
  exists w', transferLeg w role to (Some d) = Ok w'.
Proof.
  intros Hl Hin Hs Ho. destruct (leg_transfers w0 d Hl Hin Hs Ho) as [b Hb]. cbn. rewrite Hb. by eexists.
Qed.

Lemma transfer_applied_total w w0 role to r :
  legs_ok w0 -> collecting w0 -> applied (leg w0 r) = true -> exists w', transferLeg w role to (leg w0 r) = Ok w'.
Proof.
  intros Hl Hc (d & Hd & Ho)%applied_Some. rewrite Hd. pose proof Hd as [Hin _]%leg_Some.
  by eapply transferLeg_total; [..|apply Hc|].
Qed.

Lemma return_leg_total w w0 role to r :
  legs_ok w0 -> collecting w0 -> exists w', return_leg w role to (leg w0 r) = Ok w'.
Proof.
  intros Hl Hc. unfold return_leg. destruct (applied (leg w0 r)) eqn:Ha; [|by eexists].
  by apply transfer_applied_total.
Qed.

(** Both custodies go back: no step of the block fails. *)
Lemma returns_sound w w0 r1 r2 p1 p2 d1 d2 (k : TradeCommerceWorkflow -> contract) :
  legs_ok w0 -> collecting w0 ->
  sound (of_res (w1 ← return_leg w r1 p1 (leg w0 d1); w2 ← return_leg w1 r2 p2 (leg w0 d2); Ok (k w2))).
Proof.
  intros Hl Hc. destruct (return_leg_total w w0 r1 p1 d1 Hl Hc) as [w1 H1]. rewrite H1. cbn.
  destruct (return_leg_total w1 w0 r2 p2 d2 Hl Hc) as [w2 H2]. rewrite H2. by cbn.
Qed.

Definition sounds (block : TradeCommerceRecord -> TradeCommerceWorkflow -> flow) : Prop :=
  forall r w, contract_ok r w -> sound (block r w).

Lemma sound_official : sounds plan_official.
Proof. intros r w _ e. unfold plan_official. cbv zeta. repeat split_if; done. Qed.

Lemma sound_offer_escrow p : sounds (plan_offer_escrow p).
Proof. intros r w _ e. unfold plan_offer_escrow. cbv zeta. repeat split_if; done. Qed.

Lemma sound_buyer_escrow p : sounds (plan_buyer_escrow p).
Proof. intros r w _ e. unfold plan_buyer_escrow. cbv zeta. repeat split_if; done. Qed.

Lemma sound_confirm now : sounds (plan_confirm now).
Proof.
  intros r w Hok. unfold plan_confirm, stage_is. destruct (_ && _) eqn:Hc; [|done].
  apply andb_true_iff in Hc as [[_ Hst]%andb_true_iff _]. zbool.
  pose proof Hok as Hok'. by_kind Hok' Hst.
  change (leg (set_stage w SReturn) "seller_debit") with (leg w "seller_debit").
  destruct (return_leg_total (set_stage w SReturn) w "seller_return" (r_seller r) "seller_debit" (co_legs _ _ Hok))
    as [w1 H1]; [done|].
  change (r_seller (set_r_status r CancelPending)) with (r_seller r). rewrite H1. cbn [res_bind mbind].
  rewrite (return_leg_other _ _ _ _ _ "buyer_debit" H1) by done.
  destruct (return_leg_total w1 w "buyer_return" (r_buyer r) "buyer_debit" (co_legs _ _ Hok)) as [w2 Hw2]; [done|].
  change (leg (set_stage w SReturn) "buyer_debit") with (leg w "buyer_debit"). cbn -[return_leg]. by rewrite Hw2.
Qed.

Lemma sound_bid_freeze : sounds plan_bid_freeze.
Proof. intros r w _ e. unfold plan_bid_freeze. cbv zeta. repeat split_if; done. Qed.

Lemma sound_bid_refund : sounds plan_bid_refund.
Proof.
  intros r w Hok. unfold plan_bid_refund, stage_is. case_bool_decide as Hst; [|done].
  pose proof Hok as Hok'. by_kind Hok' Hst. cbv zeta.
  match goal with Ha : applied _ = true |- _ => rewrite Ha; cbn [negb];
    destruct (transfer_applied_total w w "bid_return" (r_seller r) "bid_debit" (co_legs _ _ Hok)) as [w' Hw];
    [done|exact Ha|] end.
  by rewrite Hw.
Qed.

Lemma sound_escrow p : sounds (plan_escrow p).
Proof.
  intros r w Hok. unfold plan_escrow, stage_is. case_bool_decide as Hst; [|done].
  assert (Hcol : collecting w) by (pose proof Hok as Hok'; by by_kind Hok' Hst).
  destruct Hok as [Hl Hs Hb _]. cbv zeta.
  set (w1 := addLeg w "seller_debit" _ _ _).
  assert (Hl1 : legs_ok w1) by (by apply debit_legs_ok). assert (Hc1 : collecting w1) by (by apply debit_collecting).
  set (w2 := if r_kind r =? PlayerTradeKind then _ else w1).
  assert (Hl2 : legs_ok w2 /\ collecting w2).
  { unfold w2. split_if; [|done]. split; [|by apply debit_collecting]. apply debit_legs_ok; [done|].
    unfold w1, addLeg. by destruct (leg w "seller_debit"). }
  destruct Hl2 as [Hl2 Hc2]. clearbody w2. split_if; [done|].
  match goal with |- sound (if ?c then _ else _) => destruct c eqn:Hbad end.
  { by apply (returns_sound _ w2 _ _ _ _ _ _ (fun x => (set_r_status r CancelPending, x))). }
  split_if; [|by repeat split_if]. repeat (apply orb_false_iff in Hbad as [Hbad ?]). cbn [andb] in *. zbool.
  destruct (transfer_applied_total (set_stage w2 SDeliver) w2 "seller_receive" (r_seller r) "buyer_debit" Hl2 Hc2) as [w3 Hw3]; [done|].
  change (r_seller (set_r_status r Delivering)) with (r_seller r). rewrite Hw3. cbn.
  destruct (transfer_applied_total w3 w2 "buyer_receive" (r_buyer r) "seller_debit" Hl2 Hc2) as [w4 Hw4]; [done|].
  change (r_buyer (set_r_status r Delivering)) with (r_buyer r). by rewrite Hw4.
Qed.

Lemma sound_pay : sounds plan_pay.
Proof.
  intros r w Hok. unfold plan_pay, stage_is. case_bool_decide as Hst; [|done].
  pose proof Hok as Hok'. by_kind Hok' Hst. cbv zeta.
  match goal with H : exists l, _ |- _ => destruct H as (l & Hin & Hpay & Hne & Hun) end.
  rewrite !Hpay. split_if; [done|]. split_if; [done|]. zbool.
  match goal with H : applied (leg w "seller_debit") = true |- _ =>
    destruct (transfer_applied_total (set_stage w SDeliver) w "buyer_receive" (r_buyer r) "seller_debit"
      (co_legs _ _ Hok)) as [w3 Hw3]; [done|exact H|] end.
  change (leg (set_stage w SDeliver) "seller_debit") with (leg w "seller_debit").
  change (r_buyer (set_r_status r Delivering)) with (r_buyer r). rewrite Hw3. cbn [of_res].
  match goal with H : applied (Some l) = true |- _ => cbn in H; apply Z.eqb_eq in H as Ho end.
  assert (Hls : l_stream l = StreamDebit) by auto.
  destruct (transferLeg_total w3 w "seller_receive" (r_seller r) l (co_legs _ _ Hok) Hin Hls Ho) as [w4 Hw4].
  change (r_seller (set_r_status r Delivering)) with (r_seller r). cbn -[transferLeg]. by rewrite Hw4.
Qed.

Lemma sound_lot_sold now : sounds (plan_lot_sold now).
Proof.
  intros r w Hok. unfold plan_lot_sold, stage_is. destruct (_ && _) eqn:Hc; [|done].
  apply andb_true_iff in Hc as [[Hst%bool_decide_eq_true_1 _]%andb_true_iff _].
  pose proof Hok as Hok'. by_kind Hok' Hst. cbv zeta.
  match goal with H : applied (leg w "seller_debit") = true |- _ =>
    destruct (transfer_applied_total (set_stage w SDeliver) w "buyer_receive" (w_highest_bidder w) "seller_debit"
      (co_legs _ _ Hok)) as [w3 Hw3]; [done|exact H|] end.
  change (leg (set_stage w SDeliver) "seller_debit") with (leg w "seller_debit").
  change (w_highest_bidder (set_stage w SDeliver)) with (w_highest_bidder w). by rewrite Hw3.
Qed.

Lemma sound_expire now : sounds (plan_expire now).
Proof. intros r w _ e. unfold plan_expire. by split_if. Qed.

Lemma sound_cancel : sounds plan_cancel.
Proof.
  intros r w Hok. unfold plan_cancel, stage_is. destruct (_ && _) eqn:Hc; [|done].
  assert (Hst : w_stage w = SOpen \/ w_stage w = SLotOpen \/ w_stage w = SMarketOpen).
  { apply andb_true_iff in Hc as [_ [[H|[H _]%andb_true_iff]%orb_true_iff|H]%orb_true_iff];
      apply bool_decide_eq_true_1 in H; auto. }
  assert (Hin : collecting w /\ applied (leg w "seller_debit") = true).
  { pose proof Hok as Hok'. by destruct Hst as [Hst|[Hst|Hst]]; by_kind Hok' Hst. }
  destruct Hin as [Hcol (d & Hd & Ho)%applied_Some]. cbv zeta.
  change (leg (set_stage w SReturn) "seller_debit") with (leg w "seller_debit"). rewrite Hd.
  pose proof Hd as [Hin _]%leg_Some.
  destruct (leg_transfers w d (co_legs _ _ Hok) Hin (Hcol d Hin) Ho) as [b ->]. by repeat split_if.
Qed.

Lemma sound_finish : sounds plan_finish.
Proof.
  intros r w _ e. unfold plan_finish. split_if; [|done]. destruct (finalCredits w) as [[] []]; cbn; by repeat split_if.
Qed.

Lemma sound_then r w f block :
  sound f -> keeps r w f -> sounds block -> sound (f >>> block).
Proof. intros Hf Hk Hb. destruct f as [r' w'|r' w'|e]; [|done|done]. apply Hb, Hk. Qed.

Lemma plan_sound p r w now :
  contract_ok r w -> r_kind r <> RmbKind -> exists r' w', plan p r w now = Ok (r', w').
Proof.
  intros Hok Hk. unfold plan. rewrite (proj2 (Z.eqb_neq _ _) Hk).
  assert (Hfin : forall f, sound f -> exists r' w', finish_flow f = Ok (r', w')).
  { intros [r' w'|r' w'|e] H; [by eexists _, _..|]. by destruct (H e). }
  apply Hfin. match goal with |- sound ?f => enough (sound f /\ keeps r w f) as [H _] by exact H end.
  assert (Hstep : forall f block, sound f /\ keeps r w f -> sounds block -> keeping block ->
    sound (f >>> block) /\ keeps r w (f >>> block)).
  { intros f block [Hs Hks] Hb Hkb. split; [by eapply sound_then|by apply keeps_then]. }
  repeat (apply Hstep;
    [|auto using sound_official, sound_offer_escrow, sound_buyer_escrow, sound_confirm, sound_bid_freeze, sound_bid_refund,
       sound_escrow, sound_pay, sound_lot_sold, sound_expire, sound_cancel, sound_finish
     |auto using keeps_official, keeps_offer_escrow, keeps_buyer_escrow, keeps_confirm, keeps_bid_freeze, keeps_bid_refund,
       keeps_escrow, keeps_pay, keeps_lot_sold, keeps_expire, keeps_cancel, keeps_finish]).
  split; [by apply sound_official|by apply keeps_official].
Qed.

(** ** Progress *)
Definition ending (st : stage) : bool :=
  match st with SDeliver | SReturn | SDone | SManual => true | _ => false end.

(** The debits a stage waits for were asked for. *)
Definition asked (r : TradeCommerceRecord) (w : TradeCommerceWorkflow) : bool :=
  match w_stage w with
  | SOfferEscrow => is_some (leg w "seller_debit")
  | SBuyerEscrow => is_some (leg w "buyer_debit")
  | SEscrow => is_some (leg w "seller_debit")
               && (negb (r_kind r =? PlayerTradeKind) || is_some (leg w "buyer_debit"))
  | _ => true
  end.

Definition answered (w : TradeCommerceWorkflow) : Prop := forall l, l ∈ w_legs w -> l_outcome l <> 0.

(** What holds when a block falls through, and when it ends the function. *)
Definition flow_post (N R : TradeCommerceRecord -> TradeCommerceWorkflow -> Prop) (f : flow) : Prop :=
  match f with Next r w => N r w | Return r w => R r w | Fail _ => True end.

Lemma post_then N N' R f k :
  flow_post N R f -> (forall r w, N r w -> flow_post N' R (k r w)) -> flow_post N' R (f >>> k).
Proof. destruct f; simpl; auto. Qed.

Lemma answered_done w role : answered w -> is_some (leg w role) = true -> done (leg w role) = true.
Proof.
  intros Ha. destruct (leg w role) as [l|] eqn:Hl; [|done]. intros _. apply leg_Some in Hl as [Hin _]. cbn.
  by apply negb_true_iff, Z.eqb_neq, Ha.
Qed.

Lemma addLeg_asked w role player stream b : is_some (leg w role) = true -> addLeg w role player stream b = w.
Proof. unfold addLeg. by destruct (leg w role). Qed.

Definition player_stage (st : stage) : bool :=
  match st with SOfferEscrow | SBuyerEscrow | SConfirm => true | _ => false end.

(** The stages still ahead of each block. *)
Definition from_buyer (st : stage) : bool :=
  match st with SBuyerEscrow | SConfirm | SEscrow | SOpen | SPay | SLotOpen => true | _ => false end.
Definition from_offer (st : stage) : bool := match st with SOfferEscrow => true | _ => from_buyer st end.
Definition from_confirm (st : stage) : bool :=
  match st with SConfirm | SEscrow | SOpen | SPay | SLotOpen => true | _ => false end.
Definition from_escrow (st : stage) : bool :=
  match st with SEscrow | SOpen | SPay | SLotOpen => true | _ => false end.
Definition from_pay (st : stage) : bool := match st with SOpen | SPay | SLotOpen => true | _ => false end.
Definition from_open (st : stage) : bool := match st with SOpen | SLotOpen => true | _ => false end.

Section expired.
Context (p : Policy) (now : Z).

(** On the way to the end: the stage is one of those in [L]. *)
Record going (L : stage -> bool) (r : TradeCommerceRecord) (w : TradeCommerceWorkflow) : Prop := {
  go_kind : r_kind r = PlayerTradeKind \/ r_kind r = ConsignmentKind \/ r_kind r = LotKind;
  go_expired : r_expires r <= now;
  go_answered : answered w;
  go_asked : asked r w = true;
  go_player : player_stage (w_stage w) = true -> r_kind r = PlayerTradeKind;
  go_pay : w_stage w = SPay -> is_Some (pay_leg w);
  go_stage : L (w_stage w) = true }.

Definition on_way (L : stage -> bool) (r : TradeCommerceRecord) (w : TradeCommerceWorkflow) : Prop :=
  ending (w_stage w) = true \/ going L r w.
Definition is_ending (r : TradeCommerceRecord) (w : TradeCommerceWorkflow) : Prop := ending (w_stage w) = true.

(** A block that has nothing to do at the stage. *)
Lemma on_way_next (L L' : stage -> bool) r w :
  on_way L r w -> (L (w_stage w) = true -> L' (w_stage w) = true) -> on_way L' r w.
Proof. intros [?|[]] HL; [by left|right]. constructor; auto. Qed.

Lemma on_way_not L r w s : on_way L r w -> ending s = false -> L s = false -> stage_is w s = false.
Proof.
  intros H He Hs. apply bool_decide_eq_false_2. intros Heq. destruct H as [H|[_ _ _ _ _ _ H]]; congruence.
Qed.

(** The stage is the one of the block: the contract is not ending yet. *)
Lemma on_way_at L r w s : on_way L r w -> w_stage w = s -> ending s = false -> going L r w.
Proof. intros [H|H] Hs He; [|done]. congruence. Qed.

Lemma way_official r w : on_way from_offer r w -> flow_post (on_way from_offer) is_ending (plan_official r w).
Proof. intros H. unfold plan_official. by rewrite (on_way_not _ _ _ _ H). Qed.

Lemma way_offer r w : on_way from_offer r w -> flow_post (on_way from_buyer) is_ending (plan_offer_escrow p r w).
Proof.
  intros H. unfold plan_offer_escrow, stage_is. case_bool_decide as Hst.
  - pose proof (on_way_at _ _ _ _ H Hst eq_refl) as [Hk Hx Han Has Hpl Hpy Hs].
    unfold asked in Has. rewrite Hst in Has, Hpl. rewrite (addLeg_asked _ _ _ _ _ Has). cbv zeta.
    rewrite (answered_done _ _ Han Has). cbn [negb]. destruct (applied (leg w "seller_debit")) eqn:Ha; [|done].
    right. cbn [negb]. destruct (negb (Snapshot p _)); by constructor.
  - eapply on_way_next; [exact H|]. by destruct (w_stage w).
Qed.

Lemma way_buyer r w : on_way from_buyer r w -> flow_post (on_way from_confirm) is_ending (plan_buyer_escrow p r w).
Proof.
  intros H. unfold plan_buyer_escrow, stage_is. case_bool_decide as Hst.
  - pose proof (on_way_at _ _ _ _ H Hst eq_refl) as [Hk Hx Han Has Hpl Hpy Hs].
    unfold asked in Has. rewrite Hst in Has, Hpl. rewrite (addLeg_asked _ _ _ _ _ Has). cbv zeta.
    rewrite (answered_done _ _ Han Has). cbn [negb].
    right. destruct (negb (applied _) || _); by constructor.
  - eapply on_way_next; [exact H|]. by destruct (w_stage w).
Qed.

Lemma transferLeg_stage w role to from w' : transferLeg w role to from = Ok w' -> w_stage w' = w_stage w.
Proof.
  destruct from as [d|]; [|done]. intros (b & _ & [= <-])%bind_Ok. unfold addLeg. by destruct (leg w role).
Qed.

Lemma return_leg_stage w role to from w' : return_leg w role to from = Ok w' -> w_stage w' = w_stage w.
Proof. unfold return_leg. split_if; [apply transferLeg_stage|by intros [= <-]]. Qed.

(** Blocks that end in a transfer of both custodies. *)
Lemma ending_flow L (m : res contract) :
  (forall c, m = Ok c -> ending (w_stage c.2) = true) -> flow_post (on_way L) is_ending (of_res m).
Proof. intros H. destruct m as [c|]; [|done]. left. by apply H. Qed.

Lemma way_confirm r w : on_way from_confirm r w -> flow_post (on_way from_escrow) is_ending (plan_confirm now r w).
Proof.
  intros H. unfold plan_confirm. destruct (_ && _) eqn:Hc.
  - apply ending_flow. intros c (w1 & H1%return_leg_stage & (w2 & H2%return_leg_stage & [= <-])%bind_Ok)%bind_Ok. cbn.
    by rewrite H2, H1.
  - eapply on_way_next; [exact H|]. destruct (decide (w_stage w = SConfirm)) as [Hst|Hst]; [|by destruct (w_stage w)].
    exfalso. pose proof (on_way_at _ _ _ _ H Hst eq_refl) as [Hk Hx _ _ Hpl _ _].
    rewrite Hpl in Hc by (by rewrite Hst). unfold stage_is in Hc. rewrite bool_decide_eq_true_2 in Hc by done.
    rewrite (proj2 (Z.leb_le _ _) Hx), orb_true_r in Hc. done.
Qed.

Lemma way_bid_freeze r w : on_way from_escrow r w -> flow_post (on_way from_escrow) is_ending (plan_bid_freeze r w).
Proof. intros H. unfold plan_bid_freeze. by rewrite (on_way_not _ _ _ _ H). Qed.

Lemma way_bid_refund r w : on_way from_escrow r w -> flow_post (on_way from_escrow) is_ending (plan_bid_refund r w).
Proof. intros H. unfold plan_bid_refund. by rewrite (on_way_not _ _ _ _ H). Qed.

Lemma way_escrow r w : on_way from_escrow r w -> flow_post (on_way from_pay) is_ending (plan_escrow p r w).
Proof.
  intros H. unfold plan_escrow, stage_is. case_bool_decide as Hst.
  - pose proof (on_way_at _ _ _ _ H Hst eq_refl) as [Hk Hx Han Has Hpl Hpy Hs].
    unfold asked in Has. rewrite Hst in Has, Hpl. apply andb_true_iff in Has as [Hse Hbu].
    rewrite (addLeg_asked _ _ _ _ _ Hse). cbv zeta.
    assert (Hw : (if r_kind r =? PlayerTradeKind
      then addLeg w "buyer_debit" (r_buyer r) StreamDebit (Some (Bundle (w_buyer_assets w))) else w) = w).
    { destruct (r_kind r =? PlayerTradeKind); [|done]. by apply addLeg_asked. }
    rewrite Hw, (answered_done _ _ Han Hse).
    assert (Hb : (r_kind r =? PlayerTradeKind) && negb (done (leg w "buyer_debit")) = false).
    { destruct (r_kind r =? PlayerTradeKind); [|done]. cbn in Hbu. by rewrite (answered_done _ _ Han Hbu). }
    rewrite Hb. cbn [negb orb].
    match goal with |- flow_post _ _ (if ?c then _ else _) => destruct c end.
    { apply ending_flow. intros c (w1 & H1%return_leg_stage & (w2 & H2%return_leg_stage & [= <-])%bind_Ok)%bind_Ok. cbn.
      by rewrite H2, H1. }
    destruct (r_kind r =? PlayerTradeKind) eqn:Hk2.
    { apply ending_flow. intros c (w1 & H1%transferLeg_stage & (w2 & H2%transferLeg_stage & [= <-])%bind_Ok)%bind_Ok. cbn.
      by rewrite H2, H1. }
    destruct (r_kind r =? MarketKind) eqn:Hk4; zbool; [exfalso; rewrite Hk4 in Hk; naive_solver|].
    destruct (r_kind r =? LotKind); right; by constructor.
  - eapply on_way_next; [exact H|]. by destruct (w_stage w).
Qed.

Lemma way_pay r w : on_way from_pay r w -> flow_post (on_way from_open) is_ending (plan_pay r w).
Proof.
  intros H. unfold plan_pay, stage_is. case_bool_decide as Hst.
  - pose proof (on_way_at _ _ _ _ H Hst eq_refl) as [Hk Hx Han Has Hpl Hpy Hs].
    destruct (Hpy Hst) as [l Hl]. rewrite !Hl. cbv zeta.
    assert (Hd : done (Some l) = true).
    { cbn. apply negb_true_iff, Z.eqb_neq, Han. unfold pay_leg in Hl.
      destruct (find_first _ (w_legs w)) eqn:E; [apply find_first_Some in E as [? _]; by simplify_eq|].
      by apply leg_Some in Hl as [? _]. }
    rewrite Hd. cbn [negb]. destruct (applied (Some l)); cbn [negb].
    + apply ending_flow. intros c (w1 & H1%transferLeg_stage & (w2 & H2%transferLeg_stage & [= <-])%bind_Ok)%bind_Ok. cbn.
      by rewrite H2, H1.
    + right. by constructor.
  - eapply on_way_next; [exact H|]. by destruct (w_stage w).
Qed.

(** A lot with a highest bid is sold, everything else goes back. *)
Definition unsold (r : TradeCommerceRecord) (w : TradeCommerceWorkflow) : Prop :=
  ending (w_stage w) = true \/
  (w_stage w = SOpen \/ w_stage w = SLotOpen /\ w_highest_bidder w = 0) /\ r_expires r <= now.

Lemma way_lot_sold r w : on_way from_open r w -> flow_post unsold is_ending (plan_lot_sold now r w).
Proof.
  intros H. unfold plan_lot_sold, stage_is. destruct (_ && _) eqn:Hc.
  - destruct (transferLeg _ _ _ _) as [w1|] eqn:Ht; [|done]. cbn. left. apply transferLeg_stage in Ht.
    unfold addLeg. by destruct (leg w1 "seller_receive"); cbn; rewrite Ht.
  - destruct H as [H|[Hk Hx _ _ _ _ Hs]]; [by left|]. right. split; [|done].
    destruct (w_stage w) eqn:Hst; try done; [by left|right]. split; [done|].
    rewrite bool_decide_eq_true_2, (proj2 (Z.leb_le _ _) Hx) in Hc by done. cbn in Hc. by zbool.
Qed.

Definition closing (r : TradeCommerceRecord) (w : TradeCommerceWorkflow) : Prop :=
  ending (w_stage w) = true \/
  (w_stage w = SOpen \/ w_stage w = SLotOpen /\ w_highest_bidder w = 0) /\ w_cancel_requested w = true.

Lemma way_expire r w : unsold r w -> flow_post closing is_ending (plan_expire now r w).
Proof.
  intros H. unfold plan_expire, stage_is. destruct (_ && _) eqn:Hc.
  - destruct H as [H|[Hs _]]; [by left|right]. split; [|done]. exact Hs.
  - destruct H as [H|[Hs Hx]]; [by left|]. rewrite (proj2 (Z.leb_le _ _) Hx), andb_true_r in Hc.
    apply orb_false_iff in Hc as [H1%bool_decide_eq_false_1 H2%bool_decide_eq_false_1]. naive_solver.
Qed.

Lemma way_cancel r w : closing r w -> flow_post is_ending is_ending (plan_cancel r w).
Proof.
  intros H. unfold plan_cancel, stage_is. destruct (_ && _) eqn:Hc.
  - destruct (leg (set_stage w SReturn) "seller_debit") as [d|]; [|done].
    destruct (Transfer _ _) as [b|]; [|done]. cbv zeta. split_if; [|done]. cbn. unfold is_ending, addLeg.
    by destruct (leg (set_stage w SReturn) "seller_return").
  - destruct H as [H|[Hs Hreq]]; [done|]. exfalso. rewrite Hreq in Hc. cbn in Hc.
    apply orb_false_iff in Hc as [[H1%bool_decide_eq_false_1 H2]%orb_false_iff _].
    destruct Hs as [Hs|[Hs Hz]]; [done|]. rewrite bool_decide_eq_true_2, Hz in H2 by done. done.
Qed.

Lemma way_finish r w : is_ending r w -> flow_post is_ending is_ending (plan_finish r w).
Proof.
  intros H. unfold plan_finish. split_if; [|done]. destruct (finalCredits w) as [[] []]; cbn; by repeat split_if.
Qed.

(** A contract past its deadline whose commands are answered comes to an end. *)
Lemma plan_ends r w r' w' :
  r_kind r <> RmbKind -> on_way from_offer r w -> plan p r w now = Ok (r', w') -> ending (w_stage w') = true.
Proof.
  intros Hk H. unfold plan. rewrite (proj2 (Z.eqb_neq _ _) Hk).
  match goal with |- finish_flow ?f = _ -> _ => enough (Hf : flow_post is_ending is_ending f) end.
  { destruct (_ >>> _); simpl in *; [| |done]; intros [= <- <-]; exact Hf. }
  eapply post_then; [|apply way_finish]. eapply post_then; [|apply way_cancel].
  eapply post_then; [|apply way_expire]. eapply post_then; [|apply way_lot_sold].
  eapply post_then; [|apply way_pay]. eapply post_then; [|apply way_escrow].
  eapply post_then; [|apply way_bid_refund]. eapply post_then; [|apply way_bid_freeze].
  eapply post_then; [|apply way_confirm]. eapply post_then; [|apply way_buyer].
  eapply post_then; [|apply way_offer]. by apply way_official.
Qed.
End expired.

(** ** Every plan asks for the debits its stage waits for *)
Definition escrow_stage (st : stage) : bool :=
  match st with SOfferEscrow | SBuyerEscrow | SEscrow => true | _ => false end.

Definition calm (r : TradeCommerceRecord) (w : TradeCommerceWorkflow) : Prop := escrow_stage (w_stage w) = false.
Definition has_asked (r : TradeCommerceRecord) (w : TradeCommerceWorkflow) : Prop := asked r w = true.

Lemma calm_asked r w : calm r w -> has_asked r w.
Proof. unfold calm, has_asked, asked. by destruct (w_stage w). Qed.

Lemma calm_not r w s : calm r w -> escrow_stage s = true -> stage_is w s = false.
Proof. intros H Hs. apply bool_decide_eq_false_2. intros Heq. unfold calm in H. congruence. Qed.

Lemma calm_of_res (m : res contract) :
  (forall c, m = Ok c -> calm c.1 c.2) -> flow_post calm has_asked (of_res m).
Proof. intros H. destruct m as [c|]; [|done]. by apply H. Qed.

Lemma addLeg_stage w role player stream b : w_stage (addLeg w role player stream b) = w_stage w.
Proof. unfold addLeg. by destruct (leg w role). Qed.

Lemma calm_official r w : flow_post (fun _ w' => w_stage w' = w_stage w) has_asked (plan_official r w).
Proof.
  unfold plan_official, stage_is. case_bool_decide as Hst; [|done]. cbv zeta.
  repeat split_if; cbn; apply calm_asked; unfold calm; rewrite ?addLeg_stage, ?Hst; done.
Qed.

Lemma calm_offer p r w : calm r w -> flow_post calm has_asked (plan_offer_escrow p r w).
Proof. intros H. unfold plan_offer_escrow. by rewrite (calm_not _ _ _ H). Qed.
Lemma calm_buyer p r w : calm r w -> flow_post calm has_asked (plan_buyer_escrow p r w).
Proof. intros H. unfold plan_buyer_escrow. by rewrite (calm_not _ _ _ H). Qed.
Lemma calm_escrow p r w : calm r w -> flow_post calm has_asked (plan_escrow p r w).
Proof. intros H. unfold plan_escrow. by rewrite (calm_not _ _ _ H). Qed.

Lemma calm_confirm now r w : flow_post (fun _ w' => w_stage w' = w_stage w \/ w_stage w' = SReturn) has_asked (plan_confirm now r w).
Proof.
  unfold plan_confirm. destruct (_ && _); [|by left].
  destruct (_ ≫= _) as [c|] eqn:Hm; [|exact I]. right.
  apply bind_Ok in Hm as (w1 & H1%return_leg_stage & (w2 & H2%return_leg_stage & [= <-])%bind_Ok). cbn.
  by rewrite H2, H1.
Qed.

Lemma calm_bid_freeze r w : calm r w -> flow_post calm has_asked (plan_bid_freeze r w).
Proof.
  intros H. unfold plan_bid_freeze. split_if; [|done]. cbv zeta.
  repeat split_if; cbn; unfold calm; rewrite ?addLeg_stage; done.
Qed.

Lemma calm_bid_refund r w : calm r w -> flow_post calm has_asked (plan_bid_refund r w).
Proof.
  intros H. unfold plan_bid_refund. split_if; [|done]. cbv zeta. split_if; [done|].
  apply calm_of_res. by intros c (w1 & _ & [= <-])%bind_Ok.
Qed.

Lemma calm_pay r w : calm r w -> flow_post calm has_asked (plan_pay r w).
Proof.
  intros H. unfold plan_pay. destruct (stage_is w SPay) eqn:Hst; [|done]. apply bool_decide_eq_true_1 in Hst. cbv zeta.
  repeat split_if; try done; try apply calm_of_res.
  all: try (cbn; apply calm_asked; unfold calm; destruct (pay_leg w); rewrite ?addLeg_stage, Hst; done).
  all: intros c (w1 & H1%transferLeg_stage & (w2 & H2%transferLeg_stage & [= <-])%bind_Ok)%bind_Ok;
    cbn; unfold calm; by rewrite H2, H1.
Qed.

Lemma calm_lot_sold now r w : calm r w -> flow_post calm has_asked (plan_lot_sold now r w).
Proof.
  intros H. unfold plan_lot_sold. split_if; [|done]. apply calm_of_res.
  intros c (w1 & H1%transferLeg_stage & [= <-])%bind_Ok. unfold calm. cbn. by rewrite addLeg_stage, H1.
Qed.

Lemma calm_expire now r w : calm r w -> flow_post calm has_asked (plan_expire now r w).
Proof. intros H. unfold plan_expire. by split_if. Qed.

Lemma calm_cancel r w : calm r w -> flow_post calm has_asked (plan_cancel r w).
Proof.
  intros H. unfold plan_cancel. split_if; [|done]. destruct (leg _ _) as [d|]; [|exact I].
  destruct (Transfer _ _) as [b|]; [|exact I]. cbv zeta. split_if; cbn; unfold calm; by rewrite ?addLeg_stage.
Qed.

Lemma calm_finish r w : calm r w -> flow_post calm has_asked (plan_finish r w).
Proof.
  intros H. unfold plan_finish. split_if; [|done]. destruct (finalCredits w) as [[] []]; cbn; by repeat split_if.
Qed.

(** The escrow blocks leave their stage or wait for what they asked for. *)
Lemma leave_offer p r w : w_stage w = SOfferEscrow -> flow_post calm has_asked (plan_offer_escrow p r w).
Proof.
  intros Hst. unfold plan_offer_escrow, stage_is. rewrite bool_decide_eq_true_2 by done. cbv zeta.
  repeat split_if; cbn; try done. unfold has_asked, asked. rewrite addLeg_stage, Hst.
  unfold addLeg. destruct (leg w "seller_debit") eqn:E; [by rewrite E|]. rewrite leg_app, E. cbn. by rewrite role_is_true.
Qed.

Lemma added_leg w role player stream b : is_some (leg (addLeg w role player stream b) role) = true.
Proof.
  unfold addLeg. destruct (leg w role) eqn:E; [by rewrite E|]. rewrite leg_app, E. cbn. by rewrite role_is_true.
Qed.

Lemma leave_buyer p r w : w_stage w = SBuyerEscrow -> flow_post calm has_asked (plan_buyer_escrow p r w).
Proof.
  intros Hst. unfold plan_buyer_escrow, stage_is. rewrite bool_decide_eq_true_2 by done. cbv zeta.
  repeat split_if; cbn; try done; unfold has_asked, asked; rewrite addLeg_stage, Hst; apply added_leg.
Qed.

Lemma leave_escrow p r w : w_stage w = SEscrow -> flow_post calm has_asked (plan_escrow p r w).
Proof.
  intros Hst. unfold plan_escrow, stage_is. rewrite bool_decide_eq_true_2 by done. cbv zeta.
  set (w1 := addLeg w "seller_debit" _ _ _). set (w2 := if r_kind r =? PlayerTradeKind then _ else w1).
  assert (Hasked : has_asked r w2).
  { unfold has_asked, asked. assert (w_stage w2 = SEscrow) as ->
      by (unfold w2, w1; split_if; rewrite !addLeg_stage; done).
    apply andb_true_iff. unfold w2. split.
    - split_if; [|apply added_leg]. rewrite addLeg_other by done. apply added_leg.
    - destruct (r_kind r =? PlayerTradeKind); [apply added_leg|done]. }
  clearbody w2. split_if; [exact Hasked|].
  match goal with |- flow_post _ _ (if ?c then _ else _) => destruct c end.
  { apply calm_of_res. intros c (w3 & H1%return_leg_stage & (w4 & H2%return_leg_stage & [= <-])%bind_Ok)%bind_Ok.
    unfold calm. cbn. by rewrite H2, H1. }
  split_if; [|by repeat split_if].
  apply calm_of_res. intros c (w3 & H1%transferLeg_stage & (w4 & H2%transferLeg_stage & [= <-])%bind_Ok)%bind_Ok.
  unfold calm. cbn. by rewrite H2, H1.
Qed.

(** The escrow stages are left one after the other. *)
Definition to_escrow (r : TradeCommerceRecord) (w : TradeCommerceWorkflow) : Prop := w_stage w = SEscrow \/ calm r w.
Definition to_buyer (r : TradeCommerceRecord) (w : TradeCommerceWorkflow) : Prop := w_stage w = SBuyerEscrow \/ to_escrow r w.

Lemma post_impl (N N' R : TradeCommerceRecord -> TradeCommerceWorkflow -> Prop) f :
  (forall r w, N r w -> N' r w) -> flow_post N R f -> flow_post N' R f.
Proof. destruct f; simpl; auto. Qed.

Lemma to_escrow_bid_freeze r w : to_escrow r w -> flow_post to_escrow has_asked (plan_bid_freeze r w).
Proof.
  intros [Hst|Hst].
  - unfold plan_bid_freeze, stage_is. rewrite bool_decide_eq_false_2 by congruence. by left.
  - eapply post_impl; [|by apply calm_bid_freeze]. by right.
Qed.

Lemma to_escrow_bid_refund r w : to_escrow r w -> flow_post to_escrow has_asked (plan_bid_refund r w).
Proof.
  intros [Hst|Hst].
  - unfold plan_bid_refund, stage_is. rewrite bool_decide_eq_false_2 by congruence. by left.
  - eapply post_impl; [|by apply calm_bid_refund]. by right.
Qed.

Lemma to_escrow_confirm now r w : to_escrow r w -> flow_post to_escrow has_asked (plan_confirm now r w).
Proof.
  intros H. eapply post_impl; [|apply calm_confirm]. intros r1 w1. unfold to_escrow, calm.
  destruct H as [H|H]; unfold calm in *; intros [->| ->]; auto.
Qed.

Lemma to_buyer_buyer p r w : to_buyer r w -> flow_post to_escrow has_asked (plan_buyer_escrow p r w).
Proof.
  intros [Hst|[Hst|Hst]].
  - eapply post_impl; [|by apply leave_buyer]. by right.
  - unfold plan_buyer_escrow, stage_is. rewrite bool_decide_eq_false_2 by congruence. by left.
  - eapply post_impl; [|by apply calm_buyer]. by right.
Qed.

Lemma any_offer p r w : flow_post to_buyer has_asked (plan_offer_escrow p r w).
Proof.
  destruct (decide (w_stage w = SOfferEscrow)) as [Hst|Hst].
  - eapply post_impl; [|by apply leave_offer]. by right; right.
  - unfold plan_offer_escrow, stage_is. rewrite bool_decide_eq_false_2 by done. cbn.
    unfold to_buyer, to_escrow, calm. destruct (w_stage w); auto; done.
Qed.

Lemma plan_asks p r w now r' w' : r_kind r <> RmbKind -> plan p r w now = Ok (r', w') -> asked r' w' = true.
Proof.
  intros Hk. unfold plan. rewrite (proj2 (Z.eqb_neq _ _) Hk).
  match goal with |- finish_flow ?f = _ -> _ => enough (Hf : flow_post calm has_asked f) end.
  { destruct (_ >>> _); simpl in *; [| |done]; intros [= <- <-]; [by apply calm_asked|exact Hf]. }
  eapply post_then; [|apply calm_finish]. eapply post_then; [|apply calm_cancel].
  eapply post_then; [|apply calm_expire]. eapply post_then; [|apply calm_lot_sold].
  eapply post_then; [|apply calm_pay]. apply (post_then to_escrow).
  2: { intros r1 w1 [Hst|Hst]; [by apply leave_escrow|by apply calm_escrow]. }
  eapply post_then; [|apply to_escrow_bid_refund]. eapply post_then; [|apply to_escrow_bid_freeze].
  eapply post_then; [|apply to_escrow_confirm]. eapply post_then; [|apply to_buyer_buyer].
  apply (post_then (fun _ _ => True)); [|intros; apply any_offer].
  pose proof (calm_official r w). by destruct (plan_official r w).
Qed.

(** ** [plan] sets no contract aside *)
Definition kept (r : TradeCommerceRecord) (w : TradeCommerceWorkflow) : Prop := w_stage w <> SManual.

Lemma kept_of_res (m : res contract) : (forall c, m = Ok c -> kept c.1 c.2) -> flow_post kept kept (of_res m).
Proof. intros H. destruct m as [c|]; [|done]. by apply H. Qed.

(** The cases of a block: the stage of each of its results. *)
Ltac kept_block :=
  cbv zeta; repeat match goal with |- flow_post _ _ (if ?c then _ else _) => destruct c end;
  try exact I; try (cbn; unfold kept; cbn; rewrite ?addLeg_stage; done).

Lemma kept_official r w : kept r w -> flow_post kept kept (plan_official r w).
Proof. intros H. unfold plan_official. kept_block. Qed.
Lemma kept_offer p r w : kept r w -> flow_post kept kept (plan_offer_escrow p r w).
Proof. intros H. unfold plan_offer_escrow. kept_block. Qed.
Lemma kept_buyer p r w : kept r w -> flow_post kept kept (plan_buyer_escrow p r w).
Proof. intros H. unfold plan_buyer_escrow. kept_block. Qed.
Lemma kept_confirm now r w : kept r w -> flow_post kept kept (plan_confirm now r w).
Proof.
  intros H. unfold plan_confirm. kept_block. apply kept_of_res.
  intros c (w1 & H1%return_leg_stage & (w2 & H2%return_leg_stage & [= <-])%bind_Ok)%bind_Ok. unfold kept. cbn. by rewrite H2, H1.
Qed.
Lemma kept_bid_freeze r w : kept r w -> flow_post kept kept (plan_bid_freeze r w).
Proof. intros H. unfold plan_bid_freeze. kept_block. Qed.
Lemma kept_bid_refund r w : kept r w -> flow_post kept kept (plan_bid_refund r w).
Proof.
  intros H. unfold plan_bid_refund. kept_block. apply kept_of_res. by intros c (w1 & _ & [= <-])%bind_Ok.
Qed.
Lemma kept_escrow p r w : kept r w -> flow_post kept kept (plan_escrow p r w).
Proof.
  intros H. unfold plan_escrow. cbv zeta. set (w1 := addLeg w _ _ _ _).
  set (w2 := if r_kind r =? PlayerTradeKind then _ else w1).
  assert (Hw2 : w_stage w2 = w_stage w) by (unfold w2, w1; split_if; by rewrite !addLeg_stage).
  clearbody w2. kept_block; try (cbn; unfold kept; cbn; by rewrite Hw2).
  - apply kept_of_res. intros c (w3 & H1%return_leg_stage & (w4 & H2%return_leg_stage & [= <-])%bind_Ok)%bind_Ok.
    unfold kept. cbn. by rewrite H2, H1.
  - apply kept_of_res. intros c (w3 & H1%transferLeg_stage & (w4 & H2%transferLeg_stage & [= <-])%bind_Ok)%bind_Ok.
    unfold kept. cbn. by rewrite H2, H1.
Qed.
Lemma kept_pay r w : kept r w -> flow_post kept kept (plan_pay r w).
Proof.
  intros H. unfold plan_pay. kept_block.
  - cbn. unfold kept. destruct (pay_leg w); by rewrite ?addLeg_stage.
  - apply kept_of_res. intros c (w3 & H1%transferLeg_stage & (w4 & H2%transferLeg_stage & [= <-])%bind_Ok)%bind_Ok.
    unfold kept. cbn. by rewrite H2, H1.
Qed.
Lemma kept_lot_sold now r w : kept r w -> flow_post kept kept (plan_lot_sold now r w).
Proof.
  intros H. unfold plan_lot_sold. kept_block. apply kept_of_res.
  intros c (w1 & H1%transferLeg_stage & [= <-])%bind_Ok. unfold kept. cbn. by rewrite addLeg_stage, H1.
Qed.
Lemma kept_expire now r w : kept r w -> flow_post kept kept (plan_expire now r w).
Proof. intros H. unfold plan_expire. kept_block. Qed.
Lemma kept_cancel r w : kept r w -> flow_post kept kept (plan_cancel r w).
Proof.
  intros H. unfold plan_cancel. kept_block. destruct (leg _ _) as [d|]; [|exact I].
  destruct (Transfer _ _) as [b|]; [|exact I]. kept_block.
Qed.
Lemma kept_finish r w : kept r w -> flow_post kept kept (plan_finish r w).
Proof. intros H. unfold plan_finish. kept_block. destruct (finalCredits w) as [ready okay]. kept_block. Qed.

Lemma plan_kept p r w now r' w' : r_kind r <> RmbKind -> kept r w -> plan p r w now = Ok (r', w') -> kept r' w'.
Proof.
  intros Hk H. unfold plan. rewrite (proj2 (Z.eqb_neq _ _) Hk).
  match goal with |- finish_flow ?f = _ -> _ => enough (Hf : flow_post kept kept f) end.
  { destruct (_ >>> _); simpl in *; [| |done]; intros [= <- <-]; exact Hf. }
  eapply post_then; [|apply kept_finish]. eapply post_then; [|apply kept_cancel].
  eapply post_then; [|apply kept_expire]. eapply post_then; [|apply kept_lot_sold].
  eapply post_then; [|apply kept_pay]. eapply post_then; [|apply kept_escrow].
  eapply post_then; [|apply kept_bid_refund]. eapply post_then; [|apply kept_bid_freeze].
  eapply post_then; [|apply kept_confirm]. eapply post_then; [|apply kept_buyer].
  eapply post_then; [|apply kept_offer]. by apply kept_official.
Qed.

(** ** Rounds *)

(** The answers to the commands that are under way: final outcomes, and a
    snapshot that matches the request for a debit that was applied. *)
Definition answers_ok (answer : TradeCommerceLeg -> Z * option AssetSnapshot) : Prop :=
  forall l, leg_ok l -> (answer l).1 <> 0 /\
    (l_stream l = StreamDebit -> (answer l).1 = 2 -> exists b, Transfer (l_bundle l) (answer l).2 = Ok b).

Definition answer_leg (answer : TradeCommerceLeg -> Z * option AssetSnapshot) (l : TradeCommerceLeg) : TradeCommerceLeg :=
  if l_outcome l =? 0 then set_l_snapshot (set_l_outcome l (answer l).1) (answer l).2 else l.

Definition answer_all (answer : TradeCommerceLeg -> Z * option AssetSnapshot) (w : TradeCommerceWorkflow) : TradeCommerceWorkflow :=
  set_legs w (answer_leg answer <$> w_legs w).

(** A round plans the contract and has its commands answered. *)
Fixpoint rounds (p : Policy) (now : Z) (answer : TradeCommerceLeg -> Z * option AssetSnapshot) (n : nat)
    (r : TradeCommerceRecord) (w : TradeCommerceWorkflow) : res contract :=
  match n with
  | O => Ok (r, w)
  | S n =>
      '(r, w) ← plan p r w now;
      rounds p now answer n r (answer_all answer w)
  end.

Lemma answer_steps answer w : answers_ok answer -> legs_ok w -> Forall2 leg_step (w_legs w) (answer_leg answer <$> w_legs w).
Proof.
  intros Ha [_ Hok]. induction (w_legs w) as [|l ls IH]; csimpl; [constructor|]. constructor.
  - unfold answer_leg. destruct (l_outcome l =? 0) eqn:Ho; [|apply leg_step_refl]. zbool.
    destruct (Ha l ltac:(apply Hok; by left)) as [_ Hd]. split; try done. cbn. auto.
  - apply IH. intros x Hx. apply Hok. by right.
Qed.

Lemma answer_answered answer w : answers_ok answer -> legs_ok w -> answered (answer_all answer w).
Proof.
  intros Ha [_ Hok] l (x & -> & Hx)%list_elem_of_fmap. unfold answer_leg.
  destruct (l_outcome x =? 0) eqn:Ho; zbool; [|done]. by destruct (Ha x (Hok x Hx)).
Qed.

Lemma final_credits_ready legs : (forall l, l ∈ legs -> l_outcome l <> 0) -> (final_credits legs).1 = true.
Proof.
  induction legs as [|l legs IH]; intros H; [done|]. cbn. specialize (IH ltac:(intros x Hx; apply H; by right)).
  pose proof (H l ltac:(left)) as Hl. rewrite (proj2 (Z.eqb_neq _ _) Hl). cbn. by repeat split_if.
Qed.

(** From delivery or return, one more round with every answer ends the contract. *)
Lemma finish_done r w : w_stage w = SDeliver \/ w_stage w = SReturn -> answered w ->
  exists s, plan_finish r w = Next (set_r_status r s) (set_stage w SDone).
Proof.
  intros Hst Ha. unfold plan_finish, stage_is.
  assert (bool_decide (w_stage w = SDeliver) || bool_decide (w_stage w = SReturn) = true) as ->
    by (apply orb_true_iff; destruct Hst; [left|right]; by apply bool_decide_eq_true_2).
  pose proof (final_credits_ready (w_legs w) Ha) as Hr. unfold finalCredits.
  destruct (final_credits (w_legs w)) as [ready okay]. cbn in Hr. subst ready.
  destruct okay; cbn; [split_if|]; by eexists.
Qed.

Definition with_deadline (r : TradeCommerceRecord) : Prop :=
  r_kind r = PlayerTradeKind \/ r_kind r = ConsignmentKind \/ r_kind r = LotKind.

Lemma on_way_ok now r w :
  contract_ok r w -> with_deadline r -> r_expires r <= now -> answered w -> asked r w = true ->
  on_way now from_offer r w.
Proof.
  intros [_ _ _ Hk] Hd Hx Ha Has. destruct (ending (w_stage w)) eqn:He; [by left|right].
  destruct Hd as [Hkind|[Hkind|Hkind]].
  - rewrite kind_player in Hk by done. destruct Hk as [_ Hk].
    constructor; [by left|done|done|done|done|..]; by destruct (w_stage w).
  - rewrite kind_consignment in Hk by done. destruct Hk as (_ & _ & Hk).
    constructor; [by right; left|done|done|done|..]; destruct (w_stage w); try done.
    intros _. destruct Hk as (_ & _ & l & _ & Hl & _). by exists l.
  - rewrite kind_lot in Hk by done. destruct Hk as (_ & _ & Hk).
    constructor; [by right; right|done|done|done|..]; by destruct (w_stage w).
Qed.

Lemma asked_answer answer r w :
  answers_ok answer -> legs_ok w -> asked r (answer_all answer w) = asked r w.
Proof.
  intros Ha Hl. pose proof (answer_steps answer w Ha Hl) as Hst. unfold asked. cbn [w_stage answer_all set_legs].
  assert (Hleg : forall role, is_some (leg (answer_all answer w) role) = is_some (leg w role)).
  { intros role. pose proof (steps_leg w _ Hst role) as H. fold (answer_all answer w) in H.
    by destruct (leg w role), (leg (answer_all answer w) role). }
  by rewrite !Hleg.
Qed.

Section rounds.
Context (p : Policy) (now : Z) (answer : TradeCommerceLeg -> Z * option AssetSnapshot) (Hanswer : answers_ok answer).

(** What one round keeps of a contract with a deadline. *)
Lemma round_ok r w :
  contract_ok r w -> with_deadline r -> r_expires r <= now ->
  exists r' w', plan p r w now = Ok (r', w') /\ contract_ok r' (answer_all answer w') /\ with_deadline r' /\
    r_expires r' <= now /\ answered (answer_all answer w') /\ asked r' (answer_all answer w') = true /\ r_kind r' = r_kind r.
Proof using Hanswer.
  intros Hok Hd Hx. assert (Hk : r_kind r <> RmbKind) by (by destruct Hd as [->|[->| ->]]).
  destruct (plan_sound p r w now Hok Hk) as (r' & w' & Hp). exists r', w'.
  destruct (plan_ok _ _ _ _ _ _ Hok Hp) as [Hok' Hpl].
  destruct (planned_terms _ _ _ _ Hpl) as [[_ Ht _ _ _ _ _ _ _ He _ _] _].
  pose proof (co_legs _ _ Hok') as Hl.
  split_and!; [done| |by unfold with_deadline; rewrite Ht|by rewrite He|by apply answer_answered| |].
  - apply steps_contract_ok; [by apply answer_steps|done].
  - rewrite asked_answer by done. by eapply plan_asks.
  - done.
Qed.

Lemma rounds_end r w :
  contract_ok r w -> with_deadline r -> r_expires r <= now -> w_stage w <> SManual ->
  exists r' w', rounds p now answer 3 r w = Ok (r', w') /\ contract_ok r' w' /\ w_stage w' = SDone /\
    r_kind r' = r_kind r /\ answered w'.
Proof using Hanswer.
  intros Hok Hd Hx Hnm.
  destruct (round_ok r w Hok Hd Hx) as (r1 & w1 & Hp1 & Hok1 & Hd1 & Hx1 & Ha1 & Has1 & Hr1).
  set (v1 := answer_all answer w1) in *.
  destruct (round_ok r1 v1 Hok1 Hd1 Hx1) as (r2 & w2 & Hp2 & Hok2 & Hd2 & Hx2 & Ha2 & Has2 & Hr2).
  set (v2 := answer_all answer w2) in *.
  destruct (round_ok r2 v2 Hok2 Hd2 Hx2) as (r3 & w3 & Hp3 & Hok3 & _ & _ & Ha3 & _ & Hr3).
  exists r3, (answer_all answer w3). split; [|split; [done|split; [|split; [congruence|done]]]].
  { cbn. rewrite Hp1. cbn. fold v1. rewrite Hp2. cbn. fold v2. by rewrite Hp3. }
  assert (Hk1 : r_kind r1 <> RmbKind) by (by destruct Hd1 as [->|[->| ->]]).
  assert (Hk2 : r_kind r2 <> RmbKind) by (by destruct Hd2 as [->|[->| ->]]).
  pose proof (plan_ends p now r1 v1 r2 w2 Hk1 (on_way_ok _ _ _ Hok1 Hd1 Hx1 Ha1 Has1) Hp2) as He.
  assert (Hk0 : r_kind r <> RmbKind) by (by destruct Hd as [->|[->| ->]]).
  assert (Hkept : kept r2 v2) by (change (kept r2 w2); apply (plan_kept p r1 v1 now); [done| |done]; by apply (plan_kept p r w now r1 w1)).
  change (w_stage w2) with (w_stage v2) in He. unfold kept in Hkept. change (w_stage (answer_all answer w3)) with (w_stage w3).
  destruct (w_stage v2) eqn:Hst; try done.
  1,2: rewrite plan_late in Hp3 by (done || by rewrite Hst);
    destruct (finish_done r2 v2 ltac:(auto) Ha2) as [s Hs]; rewrite Hs in Hp3; by injection Hp3 as _ <-.
  rewrite plan_idle in Hp3 by (done || by rewrite Hst). by injection Hp3 as _ <-.
Qed.
End rounds.
