(* ===== verification/AssetOpsThms.v ===== *)
(** * Trade: the command outbox over its operations

    The rows a command goes through: it is inserted with the next number of its
    stream, delivered and repeated while pending, closed once, and deleted when
    nobody needs it. The numbers of a stream are distinct, and the window of
    pending commands stays within the limits. *)

From stdpp Require Import base list gmap strings sorting relations.
From Stdlib Require Import ZArith Lia.
From S2P Require Import Prelude CommerceData AssetOps CommerceInv.
Local Open Scope Z_scope.

(** ** Operations *)

(** One command: its number is allocated and its row inserted, as the contract
    engine does in one transaction. *)
Definition issue (o : Outbox) (now : Z) (rec : TradeAssetOpRecord) : res Outbox :=
  let key := (op_player rec, op_stream rec) in
  '(allocs, o) ← AllocateSeqsTx o now [key];
  match allocs !! key with
  | Some n =>
      if (op_epoch rec =? al_epoch n) && (op_seq rec =? al_seq n) then InsertOp o rec else Err ErrSeqKey
  | None => Err ErrSeqKey
  end.

Inductive outbox_step (o : Outbox) : Outbox -> Prop :=
  | os_guard now o' : EnsureSeqGuardRow o now = Ok o' -> outbox_step o o'
  | os_ensure probe now keys o' : EnsureSeqRows probe o now keys = Ok o' -> outbox_step o o'
  | os_issue now rec o' :
      op_status rec = OpPending ->
      (forall row, ob_seq o !! (op_player rec, op_stream rec) = Some row -> sq_next row + 1 < u64_mod) ->
      issue o now rec = Ok o' -> outbox_step o o'
  | os_claim id now until poisonUntil token : outbox_step o (Claim o id now until poisonUntil token).1
  | os_finalize id stream status res now b o' :
      Finalize o id stream status res now = Ok (b, o') -> outbox_step o o'
  | os_manual id final operator reason now b o' :
      ResolveManually o id final operator reason now = Ok (b, o') -> outbox_step o o'
  | os_reschedule id token next res now o' : Reschedule o id token next res now = Ok o' -> outbox_step o o'
  | os_abandon id stream token now o' : Abandon o id stream token now = Ok o' -> outbox_step o o'
  | os_release id token now o' : ReleaseLease o id token now = Ok o' -> outbox_step o o'
  | os_expire commerceID now : outbox_step o (ExpireCommerceEscrowDebitsTx o commerceID now)
  | os_consumed commerceID : outbox_step o (MarkCommerceOpsConsumedTx o commerceID)
  | os_acked id : outbox_step o (Acked o id)
  | os_delete id cutoff : outbox_step o (deleteTerminalOp o id cutoff).2.

(** ** How a row changes *)

(** The command itself: what the scene is asked to do, and under which number. *)
Record same_command (r r' : TradeAssetOpRecord) : Prop := {
  sc_id : op_id r' = op_id r;
  sc_player : op_player r' = op_player r;
  sc_stream : op_stream r' = op_stream r;
  sc_epoch : op_epoch r' = op_epoch r;
  sc_seq : op_seq r' = op_seq r;
  sc_kind : op_kind r' = op_kind r;
  sc_tx : op_tx_type r' = op_tx_type r;
  sc_ref_kind : op_ref_kind r' = op_ref_kind r;
  sc_ref_id : op_ref_id r' = op_ref_id r;
  sc_payload : op_payload r' = op_payload r }.

#[global] Instance same_command_refl : Reflexive same_command.
Proof. by split. Qed.
#[global] Instance same_command_trans : Transitive same_command.
Proof. intros a b c [] []. split; congruence. Qed.

(** A closed command keeps its status, its answer and its snapshot. *)
Definition row_step (r r' : TradeAssetOpRecord) : Prop :=
  same_command r r' /\
  (op_status r <> OpPending -> op_status r' = op_status r /\ op_snapshot r' = op_snapshot r /\
     op_last_outcome r' = op_last_outcome r /\ op_resolved_by r' = op_resolved_by r).

#[global] Instance row_step_refl : Reflexive row_step.
Proof. by split. Qed.
#[global] Instance row_step_trans : Transitive row_step.
Proof.
  intros a b c [Hc1 H1] [Hc2 H2]. split; [by etrans|]. intros Hp. destruct (H1 Hp) as (E1 & ? & ? & ?).
  destruct (H2 ltac:(by rewrite E1)) as (? & ? & ? & ?). split_and!; congruence.
Qed.

(** The rows change in place, and the numbering not at all. *)
Definition in_place (o o' : Outbox) : Prop :=
  ob_seq o' = ob_seq o /\
  forall id, match ob_op o !! id, ob_op o' !! id with
             | Some r, Some r' => row_step r r'
             | None, None => True
             | _, _ => False
             end.

#[global] Instance in_place_refl : Reflexive in_place.
Proof. intros o. split; [done|]. intros id. destruct (ob_op o !! id); [reflexivity|done]. Qed.

Lemma in_place_trans o1 o2 o3 : in_place o1 o2 -> in_place o2 o3 -> in_place o1 o3.
Proof.
  intros [Hs1 H1] [Hs2 H2]. split; [congruence|]. intros id. specialize (H1 id). specialize (H2 id).
  destruct (ob_op o1 !! id), (ob_op o2 !! id), (ob_op o3 !! id); try done. by etrans.
Qed.

Lemma update_op_in_place o id cond f o' :
  (forall r, cond r = true -> row_step r (f r)) -> update_op o id cond f = Some o' -> in_place o o'.
Proof.
  unfold update_op. intros Hf. destruct (ob_op o !! id) as [r|] eqn:Hr; [|done].
  destruct (cond r) eqn:Hc; [|done]. intros [= <-]. split; [done|]. intros id'. cbn.
  destruct (decide (id = id')) as [<-|Hne].
  - rewrite Hr, lookup_insert_eq. by apply Hf.
  - rewrite lookup_insert_ne by done. by destruct (ob_op o !! id').
Qed.

Lemma pending_row_step r r' : same_command r r' -> is_pending r = true -> row_step r r'.
Proof. intros Hc Hp. split; [done|]. unfold is_pending in Hp. zbool. done. Qed.

Lemma pending_token_pending token r : pending_token token r = true -> is_pending r = true.
Proof. unfold pending_token. intros [? _]%andb_true_iff. done. Qed.

#[export] Hint Resolve pending_row_step pending_token_pending : go.

(** Marks that leave status and answer alone. *)
Lemma op_marks_step r deadline ack consumed : row_step r (op_marks r deadline (op_snapshot r) ack consumed).
Proof. by split; [split|]. Qed.

Lemma updates_in_place cond f ids o :
  (forall r, row_step r (f r)) ->
  in_place o (foldl (fun o id => match update_op o id cond f with Some o' => o' | None => o end) o ids).
Proof.
  intros Hf. revert o. induction ids as [|i ids IH]; intros o; [reflexivity|]. cbn.
  destruct (update_op o i cond f) as [o'|] eqn:Hu; [|by apply IH].
  eapply in_place_trans; [|apply IH]. by eapply update_op_in_place.
Qed.

(** ** Each operation *)
Lemma claim_in_place o id now until poisonUntil token : in_place o (Claim o id now until poisonUntil token).1.
Proof.
  unfold Claim. destruct (update_op o id _ _) as [o1|] eqn:Hu; [|reflexivity].
  assert (H1 : in_place o o1).
  { eapply update_op_in_place; [|exact Hu]. intros r [Hp _]%andb_true_iff. by apply pending_row_step. }
  destruct (ob_op o1 !! id) as [r|]; [|done]. destruct (op_payload r); [done|]. cbn.
  unfold markPoison. destruct (update_op o1 id _ _) as [o2|] eqn:Hu2; [|done].
  eapply in_place_trans; [done|]. eapply update_op_in_place; [|exact Hu2].
  intros r' Hp%pending_token_pending. by apply pending_row_step.
Qed.

Lemma store_snapshot_command stream status res r : same_command r (store_snapshot stream status res r).
Proof. unfold store_snapshot. destruct (rs_snapshot res); [|reflexivity]. by split_if. Qed.

Lemma finalize_in_place o id stream status res now b o' :
  Finalize o id stream status res now = Ok (b, o') -> in_place o o'.
Proof.
  unfold Finalize. split_if; [done|]. cbv zeta. split_if; [done|].
  destruct (ob_op o !! id) as [r|]; [|by intros [= _ <-]]. split_if; [done|].
  destruct (update_op o id _ _) as [o1|] eqn:Hu; intros [= _ <-]; [|reflexivity].
  eapply update_op_in_place; [|exact Hu]. intros x Hp. apply pending_row_step; [|done].
  etrans; [|apply store_snapshot_command]. by split.
Qed.

Lemma manual_in_place o id final operator reason now b o' :
  ResolveManually o id final operator reason now = Ok (b, o') -> in_place o o'.
Proof.
  unfold ResolveManually. cbv zeta. split_if; [done|].
  destruct (update_op o id _ _) as [o1|] eqn:Hu; intros [= _ <-]; [|reflexivity].
  eapply update_op_in_place; [|exact Hu]. intros x Hp. by apply pending_row_step.
Qed.

Lemma reschedule_in_place o id token next res now o' :
  Reschedule o id token next res now = Ok o' -> in_place o o'.
Proof.
  unfold Reschedule. destruct (update_op o id _ _) as [o1|] eqn:Hu; intros [= <-].
  eapply update_op_in_place; [|exact Hu]. intros x Hp%pending_token_pending. by apply pending_row_step.
Qed.

Lemma abandon_in_place o id stream token now o' : Abandon o id stream token now = Ok o' -> in_place o o'.
Proof.
  unfold Abandon. do 2 (split_if; [done|]). destruct (update_op o id _ _) as [o1|] eqn:Hu; intros [= <-].
  eapply update_op_in_place; [|exact Hu]. intros x Hp%pending_token_pending. by apply pending_row_step.
Qed.

Lemma release_in_place o id token now o' : ReleaseLease o id token now = Ok o' -> in_place o o'.
Proof.
  unfold ReleaseLease. destruct (update_op o id _ _) as [o1|] eqn:Hu; intros [= <-].
  eapply update_op_in_place; [|exact Hu]. intros x Hp%pending_token_pending. by apply pending_row_step.
Qed.

Lemma acked_in_place o id : in_place o (Acked o id).
Proof.
  unfold Acked. destruct (update_op o id _ _) as [o1|] eqn:Hu; [|reflexivity].
  eapply update_op_in_place; [|exact Hu]. intros r _. apply op_marks_step.
Qed.

Lemma expire_in_place o id now : in_place o (ExpireCommerceEscrowDebitsTx o id now).
Proof. apply updates_in_place. intros r. apply op_marks_step. Qed.

Lemma consumed_in_place o id : in_place o (MarkCommerceOpsConsumedTx o id).
Proof. apply updates_in_place. intros r. apply op_marks_step. Qed.

(** ** The numbers of the streams *)

Definition op_key (r : TradeAssetOpRecord) : Z * Z := (op_player r, op_stream r).

Definition pends_on (o : Outbox) (k : Z * Z) (id : Z) : Prop :=
  exists r, ob_op o !! id = Some r /\ op_key r = k /\ op_status r = OpPending.

Definition window_ok (o : Outbox) (k : Z * Z) (row : SeqRow) : Prop :=
  (forall ids, NoDup ids -> Forall (pends_on o k) ids -> (Z.of_nat (length ids) <= MaxPending DefaultLimits)) /\
  (forall id r, ob_op o !! id = Some r -> op_key r = k -> op_status r = OpPending ->
     sq_next row - op_seq r <= MaxSpan DefaultLimits).

Record outbox_wf (o : Outbox) : Prop := {
  ow_id : forall id r, ob_op o !! id = Some r -> op_id r = id;
  ow_row : forall id r, ob_op o !! id = Some r -> exists row, ob_seq o !! op_key r = Some row /\
    op_epoch r = sq_epoch row /\ 1 <= op_seq r < sq_next row;
  ow_seq : forall k row, ob_seq o !! k = Some row -> 1 <= sq_next row < u64_mod;
  ow_unique : forall id1 id2 r1 r2, ob_op o !! id1 = Some r1 -> ob_op o !! id2 = Some r2 ->
    op_key r1 = op_key r2 -> op_seq r1 = op_seq r2 -> id1 = id2;
  ow_window : forall k row, ob_seq o !! k = Some row -> window_ok o k row }.

(** The next numbers only grow, and epochs stay. *)
Definition seq_grows (o o' : Outbox) : Prop :=
  forall k row, ob_seq o !! k = Some row ->
    exists row', ob_seq o' !! k = Some row' /\ sq_epoch row' = sq_epoch row /\ sq_next row <= sq_next row'.

#[global] Instance seq_grows_refl : Reflexive seq_grows.
Proof. intros o k row Hr. by exists row. Qed.
#[global] Instance seq_grows_trans : Transitive seq_grows.
Proof.
  intros a b c H1 H2 k row Hr. destruct (H1 k row Hr) as (r1 & Hr1 & He1 & Hn1).
  destruct (H2 k r1 Hr1) as (r2 & Hr2 & He2 & Hn2). exists r2. split_and!; [done|congruence|lia].
Qed.

(** Whatever carries a number given out before is the row that carried it then. *)
Definition traces (o o' : Outbox) : Prop :=
  forall id r' row, ob_op o' !! id = Some r' -> ob_seq o !! op_key r' = Some row -> op_seq r' < sq_next row ->
    exists r, ob_op o !! id = Some r /\ row_step r r'.

#[global] Instance traces_refl : Reflexive traces.
Proof. intros o id r' row Hr _ _. by exists r'. Qed.

Lemma row_step_key r r' : row_step r r' -> op_key r' = op_key r /\ op_seq r' = op_seq r.
Proof. intros [[] _]. unfold op_key. split; congruence. Qed.

Lemma traces_trans a b c : seq_grows a b -> traces a b -> traces b c -> traces a c.
Proof.
  intros Hg H1 H2 id r' row Hr' Hrow Hlt. destruct (Hg _ _ Hrow) as (row1 & Hrow1 & _ & Hn).
  destruct (H2 id r' row1) as (r1 & Hr1 & Hs1); [done|done|lia|].
  destruct (row_step_key _ _ Hs1) as [Hk Hq].
  destruct (H1 id r1 row) as (r0 & Hr0 & Hs0); [done|by rewrite <- Hk|lia|].
  exists r0. split; [done|]. by etrans.
Qed.

(** Fewer and closed commands fill no window. *)
Lemma window_ok_shrinks o o' k row :
  window_ok o k row ->
  (forall id r', ob_op o' !! id = Some r' -> exists r, ob_op o !! id = Some r /\ row_step r r') ->
  window_ok o' k row.
Proof.
  intros [Hn Hs] Hback.
  assert (Hp : forall id r', ob_op o' !! id = Some r' -> op_key r' = k -> op_status r' = OpPending ->
            exists r, ob_op o !! id = Some r /\ op_key r = k /\ op_status r = OpPending /\ op_seq r = op_seq r').
  { intros id r' Hr' Hk Hp. destruct (Hback id r' Hr') as (r & Hr & Hst). exists r.
    destruct (row_step_key _ _ Hst) as [Hk' Hq']. split_and!; [done|congruence| |done].
    destruct (decide (op_status r = OpPending)) as [|Hc]; [done|].
    destruct Hst as [_ Hcl]. destruct (Hcl Hc) as [E _]. congruence. }
  split.
  - intros ids Hnd Hall. apply Hn; [done|]. eapply Forall_impl; [exact Hall|].
    intros id (r' & Hr' & Hk & Hst). destruct (Hp id r' Hr' Hk Hst) as (r & Hr & ? & ? & _). by exists r.
  - intros id r' Hr' Hk Hst. destruct (Hp id r' Hr' Hk Hst) as (r & Hr & ? & ? & <-). eauto.
Qed.

(** Rows that change in place or go keep the invariant. *)
Lemma outbox_wf_back o o' :
  outbox_wf o -> ob_seq o' = ob_seq o ->
  (forall id r', ob_op o' !! id = Some r' -> exists r, ob_op o !! id = Some r /\ row_step r r') ->
  outbox_wf o' /\ seq_grows o o' /\ traces o o'.
Proof.
  intros Hwf Hs Hback.
  assert (Hseq : forall id r', ob_op o' !! id = Some r' -> exists r, ob_op o !! id = Some r /\
            op_id r' = op_id r /\ op_epoch r' = op_epoch r /\ op_key r' = op_key r /\ op_seq r' = op_seq r).
  { intros id r' Hr'. destruct (Hback id r' Hr') as (r & Hr & Hst). exists r. split; [done|].
    destruct (row_step_key _ _ Hst) as [-> ->]. destruct Hst as [[] _]. done. }
  split_and!.
  - split.
    + intros id r' Hr'. destruct (Hseq id r' Hr') as (r & Hr & -> & _). by apply (ow_id o).
    + intros id r' Hr'. destruct (Hseq id r' Hr') as (r & Hr & _ & -> & -> & ->). rewrite Hs. by eapply ow_row.
    + rewrite Hs. apply (ow_seq o Hwf).
    + intros id1 id2 r1 r2 H1 H2 Hk Hq. destruct (Hseq id1 r1 H1) as (a & Ha & _ & _ & E1 & E2).
      destruct (Hseq id2 r2 H2) as (b & Hb & _ & _ & E3 & E4).
      apply (ow_unique o Hwf id1 id2 a b); [done|done|by rewrite <- E1, <- E3|by rewrite <- E2, <- E4].
    + intros k row. rewrite Hs. intros Hrow. eapply window_ok_shrinks; [by apply (ow_window o Hwf)|done].
  - intros k row Hr. exists row. by rewrite Hs.
  - intros id r' row Hr' _ _. by apply Hback.
Qed.

Lemma in_place_back o o' id r' :
  in_place o o' -> ob_op o' !! id = Some r' -> exists r, ob_op o !! id = Some r /\ row_step r r'.
Proof.
  intros [_ H] Hr'. specialize (H id). rewrite Hr' in H. destruct (ob_op o !! id) as [r|]; [|done]. by exists r.
Qed.

Lemma in_place_wf o o' : outbox_wf o -> in_place o o' -> outbox_wf o' /\ seq_grows o o' /\ traces o o'.
Proof.
  intros Hwf Hi. apply outbox_wf_back; [done|apply Hi|]. intros id r'. by apply in_place_back.
Qed.

Lemma delete_wf o id cutoff :
  outbox_wf o -> let o' := (deleteTerminalOp o id cutoff).2 in outbox_wf o' /\ seq_grows o o' /\ traces o o'.
Proof.
  intros Hwf. cbv zeta. unfold deleteTerminalOp. destruct (ob_op o !! id) as [r|]; [split_if|];
    try by apply in_place_wf.
  apply outbox_wf_back; [done..|]. cbn. intros id' r' [_ Hr']%lookup_delete_Some. by exists r'.
Qed.

(** New streams start at one, with an epoch. *)
Lemma ensureSeqRow_wf o (k : Z * Z) now o' :
  outbox_wf o -> ensureSeqRow o k now = Ok o' -> outbox_wf o' /\ seq_grows o o' /\ traces o o'.
Proof.
  intros Hwf. unfold ensureSeqRow. split_if; [done|].
  destruct (ob_seq o !! k) as [row|] eqn:Hk; intros [= <-]; [by apply in_place_wf|].
  assert (Hg : seq_grows o (with_seq o (<[k := mkSeqRow 1 now now]> (ob_seq o)))).
  { intros k' row Hr. exists row. cbn. rewrite lookup_insert_ne; [done|]. intros E. subst k'. by rewrite Hk in Hr. }
  assert (Hfree : forall id r, ob_op o !! id = Some r -> op_key r <> k).
  { intros id r Hr E. destruct (ow_row o Hwf id r Hr) as (row & Hrow & _). subst k. by rewrite Hk in Hrow. }
  split_and!; [|done|intros id r' row Hr' _ _; by exists r'].
  split; cbn.
  - apply (ow_id o Hwf).
  - intros id r Hr. destruct (ow_row o Hwf id r Hr) as (row & Hrow & He & Hq).
    exists row. by rewrite lookup_insert_ne by (intros E; by eapply Hfree).
  - intros k' row [[<- <-]|[_ Hr]]%lookup_insert_Some; [done|]. by eapply ow_seq.
  - apply (ow_unique o Hwf).
  - intros k' row [[<- <-]|[_ Hr]]%lookup_insert_Some; [|by apply (ow_window o Hwf)].
    split.
    + intros [|id ids] _; [done|]. intros [(r & Hr & Hkey & _) _]%Forall_cons_1. by destruct (Hfree id r Hr).
    + intros id r Hr Hkey. by destruct (Hfree id r Hr).
Qed.

(** ** Issuing a command *)
Definition inserted (rec : TradeAssetOpRecord) : TradeAssetOpRecord :=
  op_lease rec (insertLastSendMs rec) (op_lease_until rec) (op_lease_token rec) (op_updated rec).

Lemma normalize_one k l : normalizeSeqKeys [k] = Ok l -> l = [k].
Proof. unfold normalizeSeqKeys. split_if; [done|]. by intros [= <-]. Qed.

Lemma issue_inv o now rec o' :
  issue o now rec = Ok o' ->
  exists row, ob_seq o !! op_key rec = Some row /\ op_epoch rec = sq_epoch row /\ op_seq rec = sq_next row /\
    Z.of_nat (length (pending_seqs o (op_key rec) (sq_epoch row) (MaxPending DefaultLimits))) < MaxPending DefaultLimits /\
    match pending_seqs o (op_key rec) (sq_epoch row) (MaxPending DefaultLimits) with
    | first :: _ => u64 (sq_next row - first) < MaxSpan DefaultLimits
    | [] => True
    end /\
    ob_op o !! op_id rec = None /\
    o' = mkOutbox (<[op_key rec := mkSeqRow (u64 (sq_next row + 1)) (sq_epoch row) now]> (ob_seq o))
                  (<[op_id rec := inserted rec]> (ob_op o)).
Proof.
  unfold issue, AllocateSeqsTx. fold (op_key rec). intros (p & Hp & Hi)%bind_Ok.
  apply bind_Ok in Hp as (l & ->%normalize_one & Hp). split_if; [done|]. cbn in Hp.
  apply bind_Ok in Hp as (s & Hs & [= <-]). unfold allocate_one in Hs. cbn in Hs.
  apply bind_Ok in Hs as ([a o1] & Ha & [= <-]). unfold AllocateSeq in Ha.
  destruct (ob_seq o !! op_key rec) as [row|] eqn:Hrow; [|done]. split_if; [done|]. cbv zeta in Ha.
  split_if; [done|]. split_if; [done|]. injection Ha as <- <-. cbn in Hi.
  rewrite lookup_insert_eq in Hi. split_if; [|done]. zbool. cbn in *.
  unfold InsertOp in Hi. cbv zeta in Hi. split_if; [done|]. injection Hi as <-. zbool. cbn in *.
  exists row. split_and!; try done.
  - destruct (pending_seqs _ _ _ _); [done|]. by zbool.
  - destruct (ob_op o !! op_id rec); done.
Qed.

(** The list the allocation reads bounds every list of pending commands. *)
Lemma pending_listed o k row :
  outbox_wf o -> ob_seq o !! k = Some row ->
  forall id, pends_on o k id -> exists r, ob_op o !! id = Some r /\
    r ∈ keep_if (pending_of k (sq_epoch row)) (op_rows o).
Proof.
  intros Hwf Hrow id (r & Hr & <- & Hst). exists r. split; [done|]. apply elem_of_keep_if. split.
  - unfold op_rows. apply list_elem_of_fmap. exists (id, r). split; [done|]. by apply elem_of_map_to_list.
  - destruct (ow_row o Hwf id r Hr) as (row' & Hrow' & He & _). unfold op_key in *.
    assert (row' = row) as -> by congruence. unfold pending_of. cbn. rewrite He, Hst, !Z.eqb_refl. done.
Qed.

Lemma pending_count o k row ids :
  outbox_wf o -> ob_seq o !! k = Some row -> NoDup ids -> Forall (pends_on o k) ids ->
  (length ids <= length (keep_if (pending_of k (sq_epoch row)) (op_rows o)))%nat.
Proof.
  intros Hwf Hrow Hnd Hall. rewrite <- (length_fmap op_id (keep_if _ _)).
  apply submseteq_length, NoDup_submseteq; [done|]. intros id Hid.
  rewrite Forall_forall in Hall. destruct (pending_listed o k row Hwf Hrow id (Hall id Hid)) as (r & Hr & Hin).
  apply list_elem_of_fmap. exists r. split; [|done]. symmetry. by apply (ow_id o Hwf).
Qed.

Lemma length_pending_seqs o k epoch limit :
  0 <= limit -> Z.of_nat (length (pending_seqs o k epoch limit)) < limit ->
  length (pending_seqs o k epoch limit) = length (keep_if (pending_of k epoch) (op_rows o)).
Proof.
  intros H0. unfold pending_seqs. rewrite length_take, length_sort_stable, length_fmap. lia.
Qed.

Lemma ltb_sorted l : StronglySorted (fun a b => (b <? a) = false) (sort_stable Z.ltb l).
Proof. apply sort_stable_sorted; intros *; rewrite ?Z.ltb_ge, ?Z.ltb_lt; lia. Qed.

(** The first number of the list is the least pending one. *)
Lemma first_pending_least o k row id r :
  outbox_wf o -> ob_seq o !! k = Some row -> ob_op o !! id = Some r -> op_key r = k -> op_status r = OpPending ->
  exists first rest, pending_seqs o k (sq_epoch row) (MaxPending DefaultLimits) = first :: rest /\
    1 <= first <= op_seq r.
Proof.
  intros Hwf Hrow Hr Hk Hst.
  destruct (pending_listed o k row Hwf Hrow id) as (r' & Hr' & Hin); [by exists r|].
  assert (r' = r) as -> by congruence.
  set (l := op_seq <$> keep_if (pending_of k (sq_epoch row)) (op_rows o)).
  assert (Hl : op_seq r ∈ sort_stable Z.ltb l).
  { rewrite elem_of_sort_stable. apply list_elem_of_fmap. by exists r. }
  pose proof (ltb_sorted l) as Hs. unfold pending_seqs. fold l.
  destruct (sort_stable Z.ltb l) as [|first rest] eqn:E; [by apply elem_of_nil in Hl|].
  exists first. eexists. split; [by cbn|].
  assert (Hf : first ∈ l) by (rewrite <- (elem_of_sort_stable Z.ltb), E; left).
  apply list_elem_of_fmap in Hf as (r0 & -> & [Hin0 Hp0]%elem_of_keep_if). unfold op_rows in Hin0.
  apply list_elem_of_fmap in Hin0 as ([id0 r1] & E1 & Hm%elem_of_map_to_list). cbn in E1. subst r1.
  destruct (ow_row o Hwf id0 r0 Hm) as (row0 & _ & _ & Hq). split; [lia|].
  apply elem_of_cons in Hl as [->|Hl]; [lia|].
  apply StronglySorted_inv in Hs as [_ Hs]. rewrite Forall_forall in Hs. specialize (Hs _ Hl). zbool. lia.
Qed.

Lemma issue_window o now rec o' k row :
  outbox_wf o -> issue o now rec = Ok o' -> ob_seq o !! op_key rec = Some row -> sq_next row + 1 < u64_mod ->
  k = op_key rec -> window_ok o' k (mkSeqRow (u64 (sq_next row + 1)) (sq_epoch row) now).
Proof.
  intros Hwf Hi Hrow Hroom ->. apply issue_inv in Hi as (row' & Hrow' & _ & Hq & Hlen & Hspan & Hfree & ->).
  assert (row' = row) as -> by congruence. pose proof (ow_seq o Hwf _ _ Hrow) as Hpos.
  rewrite u64_small by (unfold is_u64; lia).
  assert (Hlen' := Hlen). rewrite length_pending_seqs in Hlen' by done.
  split.
  - intros ids Hnd Hall. set (ids' := filter (fun id => id <> op_id rec) ids).
    assert (Hc : (length ids <= S (length ids'))%nat).
    { rewrite <- (length_cons (op_id rec) ids'). apply submseteq_length, NoDup_submseteq; [done|]. intros x Hx.
      destruct (decide (x = op_id rec)) as [->|Hne]; [left|right]. by apply list_elem_of_filter. }
    assert (Hb := pending_count o (op_key rec) row ids' Hwf Hrow (NoDup_filter _ _ Hnd)).
    assert (Hold : Forall (pends_on o (op_key rec)) ids').
    { apply Forall_forall. intros x [Hne Hx]%list_elem_of_filter. rewrite Forall_forall in Hall.
      destruct (Hall x Hx) as (r & Hr & ?). cbn in Hr. rewrite lookup_insert_ne in Hr by done. by exists r. }
    specialize (Hb Hold). cbn in *. lia.
  - intros id r Hr Hk Hst. cbn [ob_op sq_next] in *. apply lookup_insert_Some in Hr as [[<- <-]|[Hne Hr]].
    + cbn in *. lia.
    + destruct (first_pending_least o _ row id r Hwf Hrow Hr Hk Hst) as (first & rest & E & Hb).
      rewrite E in Hspan. destruct (ow_row o Hwf id r Hr) as (row1 & Hrow1 & _ & Hq1). rewrite Hk in Hrow1.
      assert (row1 = row) as -> by congruence. cbn in *.
      rewrite u64_small in Hspan by (unfold is_u64; lia). lia.
Qed.

Lemma issue_wf o now rec o' :
  outbox_wf o -> op_status rec = OpPending ->
  (forall row, ob_seq o !! op_key rec = Some row -> sq_next row + 1 < u64_mod) ->
  issue o now rec = Ok o' -> outbox_wf o' /\ seq_grows o o' /\ traces o o'.
Proof.
  intros Hwf Hst Hroom Hi. assert (Hi' := Hi).
  apply issue_inv in Hi as (row & Hrow & He & Hq & _ & _ & Hfree & ->).
  specialize (Hroom _ Hrow). pose proof (ow_seq o Hwf _ _ Hrow) as Hpos.
  assert (Hu : u64 (sq_next row + 1) = sq_next row + 1) by (apply u64_small; unfold is_u64; lia).
  assert (Hold : forall id r, ob_op o !! id = Some r -> op_key r = op_key rec -> op_seq r < op_seq rec).
  { intros id r Hr Hk. destruct (ow_row o Hwf id r Hr) as (row1 & Hrow1 & _ & Hq1). rewrite Hk in Hrow1.
    assert (row1 = row) as -> by congruence. lia. }
  assert (Hkey : op_key (inserted rec) = op_key rec) by done.
  split_and!.
  - split; cbn [ob_op ob_seq].
    + intros id r [[<- <-]|[_ Hr]]%lookup_insert_Some; [done|]. by apply (ow_id o).
    + intros id r [[<- <-]|[_ Hr]]%lookup_insert_Some.
      * rewrite Hkey, lookup_insert_eq. eexists. split; [done|]. cbn. rewrite Hu. split; [done|lia].
      * destruct (ow_row o Hwf id r Hr) as (row1 & Hrow1 & He1 & Hq1).
        destruct (decide (op_key r = op_key rec)) as [Hk|Hk].
        -- rewrite Hk in *. assert (row1 = row) as -> by congruence. rewrite lookup_insert_eq.
           eexists. split; [done|]. cbn. rewrite Hu. split; [done|lia].
        -- exists row1. by rewrite lookup_insert_ne.
    + intros k r [[<- <-]|[_ Hr]]%lookup_insert_Some; [cbn; lia|]. by eapply ow_seq.
    + intros id1 id2 r1 r2 [[<- <-]|[_ H1]]%lookup_insert_Some [[<- <-]|[_ H2]]%lookup_insert_Some Hk Hs;
        [done| | |by eapply (ow_unique o)].
      * rewrite Hkey in Hk. pose proof (Hold _ _ H2 (eq_sym Hk)). cbn in Hs. lia.
      * rewrite Hkey in Hk. pose proof (Hold _ _ H1 Hk). cbn in Hs. lia.
    + intros k r [[<- <-]|[Hne Hr]]%lookup_insert_Some; [by eapply issue_window|].
      destruct (ow_window o Hwf k r Hr) as [Hn Hsp].
      assert (Hback : forall id x, <[op_id rec := inserted rec]> (ob_op o) !! id = Some x -> op_key x = k ->
                ob_op o !! id = Some x).
      { intros id x [[_ <-]|[_ Hx]]%lookup_insert_Some Hk; [|done]. by rewrite Hkey in Hk. }
      split.
      * intros ids Hnd Hall. apply Hn; [done|]. eapply Forall_impl; [exact Hall|].
        intros id (x & Hx & Hk & Hp). exists x. split; [|done]. by apply Hback.
      * intros id x Hx Hk. apply (Hsp id x); [|done]. by apply Hback.
  - intros k r Hr. cbn. destruct (decide (op_key rec = k)) as [<-|Hne].
    + rewrite lookup_insert_eq. assert (r = row) as -> by congruence. eexists. split; [done|]. cbn. split; [done|lia].
    + exists r. by rewrite lookup_insert_ne.
  - intros id r r0 Hr Hr0 Hlt. cbn [ob_op] in Hr. apply lookup_insert_Some in Hr as [[<- <-]|[_ Hr]]; [|by exists r].
    rewrite Hkey in Hr0. assert (r0 = row) as -> by congruence. cbn in Hlt. lia.
Qed.

(** ** Every operation *)
Lemma outbox_step_wf o o' : outbox_wf o -> outbox_step o o' -> outbox_wf o' /\ seq_grows o o' /\ traces o o'.
Proof.
  intros Hwf. destruct 1 as [now o' H|probe now keys o' H|now rec o' Hst Hroom H| | | | | | | | | |].
  - by eapply ensureSeqRow_wf.
  - unfold EnsureSeqRows in H. apply bind_Ok in H as (l & _ & H). cbv zeta in H.
    split_if; [injection H as <-; by apply in_place_wf|]. unfold ensureSeqRowsTx in H. cbv zeta in H.
    split_if; [injection H as <-; by apply in_place_wf|]. destruct (ob_seq o !! (0, 0)); [|done].
    eapply (fold_res_ind (fun x => outbox_wf x /\ seq_grows o x /\ traces o x)) in H; [done| |].
    { by apply in_place_wf. }
    intros x k x' _ (Hx & Hg & Ht) Hk. destruct (ensureSeqRow_wf x k now x' Hx Hk) as (? & ? & ?).
    split_and!; [done|by etrans|by eapply traces_trans].
  - by eapply issue_wf.
  - apply in_place_wf; [done|]. apply claim_in_place.
  - apply in_place_wf; [done|]. by eapply finalize_in_place.
  - apply in_place_wf; [done|]. by eapply manual_in_place.
  - apply in_place_wf; [done|]. by eapply reschedule_in_place.
  - apply in_place_wf; [done|]. by eapply abandon_in_place.
  - apply in_place_wf; [done|]. by eapply release_in_place.
  - apply in_place_wf; [done|]. apply expire_in_place.
  - apply in_place_wf; [done|]. apply consumed_in_place.
  - apply in_place_wf; [done|]. apply acked_in_place.
  - by apply delete_wf.
Qed.

Lemma outbox_run_wf o o' :
  outbox_wf o -> rtc outbox_step o o' -> outbox_wf o' /\ seq_grows o o' /\ traces o o'.
Proof.
  intros Hwf Hrun. induction Hrun as [o|o o1 o2 Hs _ IH]; [by apply in_place_wf|].
  destruct (outbox_step_wf o o1 Hwf Hs) as (Hwf1 & Hg1 & Ht1). destruct (IH Hwf1) as (Hwf2 & Hg2 & Ht2).
  split_and!; [done|by etrans|by eapply traces_trans].
Qed.

Definition empty_outbox : Outbox := mkOutbox ∅ ∅.

Lemma empty_outbox_wf : outbox_wf empty_outbox.
Proof. split; intros *; cbn; rewrite ?lookup_empty; done. Qed.
