(* ===== verification/AssetSend.v ===== *)
(** * Asset commands: the requests that leave

    The command outbox, the deliveries that hold a lease on one of its rows, and the
    requests they sent, as a transition system: one step is one statement of
    [AssetOps], or one request. Replicas interleave freely. The columns
    [last_send_ms] and [lease_until_ms] bound when a request of a row can have left;
    so a command that is given up after the safety gap is silent from then on. *)

From stdpp Require Import base list gmap strings relations.
From Stdlib Require Import ZArith Lia.
From S2P Require Import Prelude CommerceData AssetOps CommerceInv AssetOpsThms.
Local Open Scope Z_scope.

(** ** The system *)

(** A claim that was answered: when, the row as it was read, and whether a request
    left since. *)
Record Delivery := mkDelivery { dl_claim : Z; dl_op : Op; dl_sent : bool }.

(** A request: the command, the lease it was sent under, when that was taken, and when
    the request left. *)
Record Send := mkSend { sd_id : Z; sd_token : Z; sd_claim : Z; sd_time : Z }.

(** [sy_given]: the commands given up, and when that was judged. [sy_ids] and
    [sy_tokens]: the identifiers and lease tokens that were ever used. *)
Record Sys := mkSys {
  sy_out : Outbox; sy_held : gmap Z Delivery; sy_sends : list Send; sy_given : list (Z * Z);
  sy_ids : gset Z; sy_tokens : gset Z }.

Definition with_out (s : Sys) (o : Outbox) : Sys :=
  mkSys o (sy_held s) (sy_sends s) (sy_given s) (sy_ids s) (sy_tokens s).
Definition with_held (s : Sys) (h : gmap Z Delivery) : Sys :=
  mkSys (sy_out s) h (sy_sends s) (sy_given s) (sy_ids s) (sy_tokens s).

(** Statements that take no lease and give none back: the other producers of the
    table, closing a row, and the clean-up. *)
Inductive table_step (o : Outbox) : Outbox -> Prop :=
  | ts_guard now o' : EnsureSeqGuardRow o now = Ok o' -> table_step o o'
  | ts_ensure probe now keys o' : EnsureSeqRows probe o now keys = Ok o' -> table_step o o'
  | ts_finalize id stream status res now b o' :
      Finalize o id stream status res now = Ok (b, o') -> table_step o o'
  | ts_manual id final operator reason now b o' :
      ResolveManually o id final operator reason now = Ok (b, o') -> table_step o o'
  | ts_expire commerceID now : table_step o (ExpireCommerceEscrowDebitsTx o commerceID now)
  | ts_consumed commerceID : table_step o (MarkCommerceOpsConsumedTx o commerceID)
  | ts_acked id : table_step o (Acked o id)
  | ts_delete id cutoff : table_step o (deleteTerminalOp o id cutoff).2.

(** A claim: the token was not used before. *)
Definition claimed (s : Sys) (id now until poison token : Z) : Sys :=
  let '(o, answer) := Claim (sy_out s) id now until poison token in
  mkSys o (match answer with Ok (Some op) => <[token := mkDelivery now op false]> (sy_held s) | _ => sy_held s end)
    (sy_sends s) (sy_given s) (sy_ids s) ({[token]} ∪ sy_tokens s).

Definition sent (s : Sys) (token : Z) (d : Delivery) (t : Z) : Sys :=
  mkSys (sy_out s) (<[token := mkDelivery (dl_claim d) (dl_op d) true]> (sy_held s))
    (mkSend (o_id (dl_op d)) token (dl_claim d) t :: sy_sends s) (sy_given s) (sy_ids s) (sy_tokens s).

Definition done_with (s : Sys) (token : Z) (o : Outbox) : Sys := with_held (with_out s o) (delete token (sy_held s)).

Definition given_up (s : Sys) (token id now : Z) (o : Outbox) : Sys :=
  mkSys o (delete token (sy_held s)) (sy_sends s) ((id, now) :: sy_given s) (sy_ids s) (sy_tokens s).

(** [D] is the longest time from a claim to a request under it, [gap] the safety gap
    of the abandonment. The label is the delivery that acts, if one does. *)
Inductive delivery_step (D gap : Z) (s : Sys) : option Z -> Sys -> Prop :=
  | ds_table o : table_step (sy_out s) o -> delivery_step D gap s None (with_out s o)
  | ds_issue now rec o :
      op_id rec ∉ sy_ids s -> op_status rec = OpPending -> 0 < op_created rec -> issue (sy_out s) now rec = Ok o ->
      delivery_step D gap s None
        (mkSys o (sy_held s) (sy_sends s) (sy_given s) ({[op_id rec]} ∪ sy_ids s) (sy_tokens s))
  | ds_claim id now until poison token :
      token ∉ sy_tokens s -> now <= until ->
      delivery_step D gap s (Some token) (claimed s id now until poison token)
  | ds_send token d t :
      sy_held s !! token = Some d -> dl_claim d <= t <= dl_claim d + D ->
      delivery_step D gap s (Some token) (sent s token d t)
  | ds_reschedule token d next r now o :
      sy_held s !! token = Some d -> (dl_sent d = true -> rs_local r = false /\ dl_claim d <= now) ->
      Reschedule (sy_out s) (o_id (dl_op d)) (o_token (dl_op d)) next r now = Ok o ->
      delivery_step D gap s (Some token) (done_with s token o)
  | ds_release token d now o :
      sy_held s !! token = Some d -> dl_sent d = false ->
      ReleaseLease (sy_out s) (o_id (dl_op d)) (o_token (dl_op d)) now = Ok o ->
      delivery_step D gap s (Some token) (done_with s token o)
  | ds_abandon token d now o :
      sy_held s !! token = Some d -> dl_sent d = false -> gap <= now - o_last_send (dl_op d) ->
      Abandon (sy_out s) (o_id (dl_op d)) (o_stream (dl_op d)) (o_token (dl_op d)) now = Ok o ->
      delivery_step D gap s (Some token) (given_up s token (o_id (dl_op d)) now o).

Definition any_step (D gap : Z) (s s' : Sys) : Prop := exists label, delivery_step D gap s label s'.

Definition empty_sys : Sys := mkSys empty_outbox ∅ [] [] ∅ ∅.

(** ** What a statement leaves of a row's lease *)
Record keeps (r r' : TradeAssetOpRecord) : Prop := {
  kp_id : op_id r' = op_id r;
  kp_lease : op_status r' = OpPending -> op_status r = OpPending /\ op_last_send r' = op_last_send r /\
    op_lease_until r' = op_lease_until r /\ op_lease_token r' = op_lease_token r;
  kp_given : op_status r' = OpAbandoned -> op_status r = OpAbandoned /\ op_updated r' = op_updated r }.

#[global] Instance keeps_refl : Reflexive keeps.
Proof. by split. Qed.
#[global] Instance keeps_trans : Transitive keeps.
Proof.
  intros a b c [i1 l1 g1] [i2 l2 g2]. split; [congruence| |].
  - intros H. destruct (l2 H) as (H2 & ? & ? & ?). destruct (l1 H2) as (? & ? & ? & ?). split_and!; congruence.
  - intros H. destruct (g2 H) as (H2 & ?). destruct (g1 H2) as (? & ?). split; congruence.
Qed.

Definition keeps_rows (o o' : Outbox) : Prop :=
  forall id r', ob_op o' !! id = Some r' -> exists r, ob_op o !! id = Some r /\ keeps r r'.

#[global] Instance keeps_rows_refl : Reflexive keeps_rows.
Proof. intros o id r Hr. by exists r. Qed.
#[global] Instance keeps_rows_trans : Transitive keeps_rows.
Proof.
  intros a b c H1 H2 id r Hr. destruct (H2 id r Hr) as (r1 & Hr1 & K1). destruct (H1 id r1 Hr1) as (r0 & Hr0 & K0).
  exists r0. split; [done|by etrans].
Qed.

Lemma same_rows_keep o o' : ob_op o' = ob_op o -> keeps_rows o o'.
Proof. intros E id r. rewrite E. intros Hr. by exists r. Qed.

Lemma update_op_keeps o id cond f o' :
  update_op o id cond f = Some o' -> (forall r, cond r = true -> keeps r (f r)) -> keeps_rows o o'.
Proof.
  unfold update_op. intros H Hf. destruct (ob_op o !! id) as [r|] eqn:Hr; [|done]. destruct (cond r) eqn:Hc; [|done].
  injection H as <-. intros id' r'. cbn. rewrite lookup_insert_Some. intros [[<- <-]|[_ H]]; [|by exists r'].
  exists r. auto.
Qed.

(** Closing a row with another status than the abandoned one. *)
Lemma close_keeps r st durable outcome reason by_ why now :
  isFinalizableRecord st = true -> keeps r (op_close r st durable outcome reason by_ why now).
Proof. intros Hf. split; [done| |]; cbn; intros ->; by vm_compute in Hf. Qed.

Lemma marks_keeps r deadline snap ack consumed : keeps r (op_marks r deadline snap ack consumed).
Proof. by split. Qed.

Lemma updates_keep cond f ids o :
  (forall r, keeps r (f r)) ->
  keeps_rows o (foldl (fun o id => match update_op o id cond f with Some o' => o' | None => o end) o ids).
Proof.
  intros Hf. revert o. induction ids as [|id ids IH]; intros o; [done|]. cbn. etrans; [|apply IH].
  destruct (update_op o id cond f) as [o'|] eqn:Hu; [|done]. eapply update_op_keeps; [done|]. auto.
Qed.

Lemma ensureSeqRow_rows o k now o' : ensureSeqRow o k now = Ok o' -> ob_op o' = ob_op o.
Proof. unfold ensureSeqRow. intros H. split_if; [done|]. destruct (ob_seq o !! k); by injection H as <-. Qed.

Lemma store_snapshot_keeps stream status res r : keeps r (store_snapshot stream status res r).
Proof. unfold store_snapshot. destruct (rs_snapshot res); [|done]. split_if; [apply marks_keeps|done]. Qed.

Lemma table_step_keeps o o' : table_step o o' -> keeps_rows o o'.
Proof.
  destruct 1 as [now o' H|probe now keys o' H|id stream status res now b o' H|id final operator reason now b o' H| | | |].
  - by eapply same_rows_keep, ensureSeqRow_rows.
  - unfold EnsureSeqRows in H. apply bind_Ok in H as (l & _ & H). cbv zeta in H. split_if; [by injection H as <-|].
    unfold ensureSeqRowsTx in H. cbv zeta in H. split_if; [by injection H as <-|]. destruct (ob_seq o !! (0, 0)); [|done].
    eapply (fold_res_ind (fun x => keeps_rows o x)) in H; [done|done|]. intros x k x' _ Hx Hk. etrans; [done|].
    by eapply same_rows_keep, ensureSeqRow_rows.
  - unfold Finalize in H. split_if; [done|]. cbv zeta in H. destruct (isFinalizableRecord (StatusToRecord status)) eqn:Hf; [|done].
    cbn in H. destruct (ob_op o !! id) as [r|]; [|by injection H as _ <-]. split_if; [done|].
    destruct (update_op _ _ _ _) as [o1|] eqn:Hu; [|by injection H as _ <-]. injection H as _ <-.
    eapply update_op_keeps; [done|]. intros r1 _. etrans; [by apply close_keeps|]. apply store_snapshot_keeps.
  - unfold ResolveManually in H. cbv zeta in H. destruct (isFinalizableRecord (StatusToRecord final)) eqn:Hf; [|done].
    cbn in H. destruct (update_op _ _ _ _) as [o1|] eqn:Hu; [|by injection H as _ <-]. injection H as _ <-.
    eapply update_op_keeps; [done|]. intros r1 _. by apply close_keeps.
  - apply updates_keep. intros r. apply marks_keeps.
  - apply updates_keep. intros r. apply marks_keeps.
  - unfold Acked. destruct (update_op _ _ _ _) as [o1|] eqn:Hu; [|done]. eapply update_op_keeps; [done|].
    intros r _. apply marks_keeps.
  - unfold deleteTerminalOp. destruct (ob_op o !! id) as [r|]; [|done]. split_if; [|done]. intros id' r'. cbn.
    rewrite lookup_delete_Some. intros [_ Hr']. by exists r'.
Qed.

(** ** The invariant *)

(** A lease on the command taken at [claim] sent something, or still may. *)
Definition trace (s : Sys) (id claim token : Z) : Prop :=
  (exists sd, sd ∈ sy_sends s /\ sd_id sd = id /\ sd_claim sd = claim /\ sd_token sd = token) \/
  (exists d, sy_held s !! token = Some d /\ o_id (dl_op d) = id /\ dl_claim d = claim).

(** The row accounts for it. *)
Definition covered (r : TradeAssetOpRecord) (claim token : Z) : Prop :=
  claim <= op_last_send r \/ token = op_lease_token r /\ claim <= op_lease_until r.

Record quiet (D gap : Z) (s : Sys) : Prop := {
  qt_time : forall sd, sd ∈ sy_sends s -> sd_claim sd <= sd_time sd <= sd_claim sd + D;
  qt_sends : forall sd, sd ∈ sy_sends s -> sd_token sd ∈ sy_tokens s /\ sd_id sd ∈ sy_ids s;
  qt_held : forall token d, sy_held s !! token = Some d ->
    o_token (dl_op d) = token /\ token ∈ sy_tokens s /\ o_id (dl_op d) ∈ sy_ids s;
  qt_sent : forall token d sd, sy_held s !! token = Some d -> sd ∈ sy_sends s -> sd_token sd = token ->
    sd_claim sd = dl_claim d /\ dl_sent d = true;
  qt_row : forall id r, ob_op (sy_out s) !! id = Some r -> op_id r = id /\ id ∈ sy_ids s;
  qt_last : forall id r, ob_op (sy_out s) !! id = Some r -> op_status r = OpPending -> 0 < op_last_send r;
  qt_cover : forall id r claim token, ob_op (sy_out s) !! id = Some r -> op_status r = OpPending ->
    trace s id claim token -> covered r claim token;
  qt_view : forall token d r, sy_held s !! token = Some d -> ob_op (sy_out s) !! o_id (dl_op d) = Some r ->
    op_status r = OpPending -> op_lease_token r = token -> o_last_send (dl_op d) = op_last_send r;
  qt_given : forall id t, (id, t) ∈ sy_given s -> id ∈ sy_ids s /\
    (forall r, ob_op (sy_out s) !! id = Some r -> op_status r <> OpPending) /\
    (forall claim token, trace s id claim token -> claim <= t - gap);
  qt_abandoned : forall id r, ob_op (sy_out s) !! id = Some r -> op_status r = OpAbandoned ->
    (id, op_updated r) ∈ sy_given s }.

Lemma empty_quiet D gap : quiet D gap empty_sys.
Proof. split; intros *; cbn; rewrite ?lookup_empty; try done; by intros ?%elem_of_nil. Qed.

(** Fewer deliveries are held. *)
Lemma trace_less s h id claim token : h ⊆ sy_held s -> trace (with_held s h) id claim token -> trace s id claim token.
Proof. intros Hh [H|(d & Hd & H)]; [by left|]. right. exists d. split; [|done]. by eapply lookup_weaken. Qed.

Lemma quiet_less D gap s h : h ⊆ sy_held s -> quiet D gap s -> quiet D gap (with_held s h).
Proof.
  intros Hh Q. pose proof (fun t d (H : h !! t = Some d) => lookup_weaken _ _ _ _ H Hh) as Hw. destruct Q.
  split; cbn [with_held sy_out sy_held sy_sends sy_given sy_ids sy_tokens]; eauto.
  - intros id r claim token Hr Hp Ht. eapply qt_cover0; [done|done|]. by eapply trace_less.
  - intros id t Ht. destruct (qt_given0 id t Ht) as (? & ? & Hc). split_and!; [done|done|]. intros claim token Htr.
    eapply Hc. by eapply trace_less.
Qed.

(** A statement that leaves the leases alone. *)
Lemma quiet_table D gap s o : keeps_rows (sy_out s) o -> quiet D gap s -> quiet D gap (with_out s o).
Proof.
  intros Hk Q. assert (Htr : forall id claim token, trace (with_out s o) id claim token <-> trace s id claim token) by done.
  destruct Q. split; cbn [with_out sy_out sy_held sy_sends sy_given sy_ids sy_tokens]; try done.
  - intros id r' Hr'. destruct (Hk id r' Hr') as (r & Hr & K). destruct (qt_row0 id r Hr) as [<- ?].
    split; [apply K|done].
  - intros id r' Hr' Hp. destruct (Hk id r' Hr') as (r & Hr & K). destruct (kp_lease _ _ K Hp) as (Hp0 & -> & _). eauto.
  - intros id r' claim token Hr' Hp Ht. destruct (Hk id r' Hr') as (r & Hr & K).
    destruct (kp_lease _ _ K Hp) as (Hp0 & E1 & E2 & E3). unfold covered. rewrite E1, E2, E3.
    eapply qt_cover0; [done|done|]. by apply Htr.
  - intros token d r' Hd Hr' Hp Htk. destruct (Hk _ r' Hr') as (r & Hr & K).
    destruct (kp_lease _ _ K Hp) as (Hp0 & E1 & E2 & E3). rewrite E1. eapply qt_view0; try done. congruence.
  - intros id t Ht. destruct (qt_given0 id t Ht) as (? & Hn & Hc). split_and!; [done| |done].
    intros r' Hr' Hp. destruct (Hk id r' Hr') as (r & Hr & K). apply (Hn r Hr). by apply K.
  - intros id r' Hr' Ha. destruct (Hk id r' Hr') as (r & Hr & K). destruct (kp_given _ _ K Ha) as (? & ->). eauto.
Qed.

(** A delivery gives its lease back: the row accounts for what was sent under it. *)
Lemma quiet_return D gap s token d id r r' :
  quiet D gap s -> sy_held s !! token = Some d -> ob_op (sy_out s) !! id = Some r ->
  op_status r = OpPending -> op_status r' = OpPending -> op_id r' = op_id r -> op_lease_token r = token ->
  op_lease_token r' = token -> o_id (dl_op d) = id ->
  op_last_send r <= op_last_send r' -> (dl_sent d = true -> dl_claim d <= op_last_send r') ->
  quiet D gap (done_with s token (with_op (sy_out s) (<[id := r']> (ob_op (sy_out s))))).
Proof.
  intros Q Hd Hr Hp Hp' Hid Htk Htk' Hdid Hle Hsent.
  assert (Htr : forall x c t, trace (done_with s token (with_op (sy_out s) (<[id := r']> (ob_op (sy_out s))))) x c t ->
                  trace s x c t /\ (t = token -> exists sd, sd ∈ sy_sends s /\ sd_token sd = token /\ sd_claim sd = c)).
  { intros x c t [(sd & H & E1 & E2 & E3)|(e & He & E)]; cbn in *.
    - split; [left; by exists sd|]. intros ->. by exists sd.
    - apply lookup_delete_Some in He as [Hne He]. split; [right; by exists e|]. intros ->. done. }
  destruct Q. split; cbn [done_with with_held with_out sy_out sy_held sy_sends sy_given sy_ids sy_tokens with_op ob_op]; try done.
  - intros t e [_ He]%lookup_delete_Some. eauto.
  - intros t e sd [_ He]%lookup_delete_Some. eauto.
  - intros x y. rewrite lookup_insert_Some. intros [[<- <-]|[_ Hy]]; [|eauto]. destruct (qt_row0 _ _ Hr) as [<- ?].
    split; congruence.
  - intros x y. rewrite lookup_insert_Some. intros [[<- <-]|[_ Hy]] Hpy; [|eauto]. pose proof (qt_last0 _ _ Hr Hp). lia.
  - intros x y c t. rewrite lookup_insert_Some. intros Hy Hpy [Ht Hown]%Htr.
    destruct Hy as [[<- <-]|[_ Hy]]; [|eauto]. left.
    destruct (qt_cover0 _ _ _ _ Hr Hp Ht) as [H|[H _]]; [lia|]. rewrite Htk in H. destruct (Hown H) as (sd & Hsd & Et & <-).
    destruct (qt_sent0 _ _ _ Hd Hsd Et) as [-> ?]. auto.
  - intros t e y [Hne He]%lookup_delete_Some. rewrite lookup_insert_Some. intros [[E <-]|[_ Hy]] Hpy Hty; [|eauto]. congruence.
  - intros x t Hx. destruct (qt_given0 x t Hx) as (? & Hn & Hc). split_and!; [done| |].
    + intros y. rewrite lookup_insert_Some. intros [[<- <-]|[_ Hy]]; [|eauto]. by destruct (Hn r Hr).
    + intros c tk [Ht _]%Htr. eauto.
  - intros x y. rewrite lookup_insert_Some. intros [[<- <-]|[_ Hy]] Ha; [by rewrite Hp' in Ha|eauto].
Qed.

(** A request leaves. *)
Lemma quiet_send D gap s token d t :
  quiet D gap s -> sy_held s !! token = Some d -> dl_claim d <= t <= dl_claim d + D -> quiet D gap (sent s token d t).
Proof.
  intros Q Hd Ht.
  assert (Htr : forall x c tk, trace (sent s token d t) x c tk -> trace s x c tk).
  { intros x c tk [(sd & H & E1 & E2 & E3)|(e & He & E1 & E2)]; cbn in *.
    - apply elem_of_cons in H as [->|H]; [right|left; by exists sd]. cbn in *. subst. by exists d.
    - apply lookup_insert_Some in He as [[<- <-]|[_ He]]; right; [|by exists e]. by exists d. }
  destruct Q. split; cbn [sent sy_out sy_held sy_sends sy_given sy_ids sy_tokens]; try done.
  - intros sd [->|H]%elem_of_cons; [done|eauto].
  - intros sd [->|H]%elem_of_cons; [|eauto]. cbn. destruct (qt_held0 _ _ Hd) as (_ & ? & ?). done.
  - intros tk e. rewrite lookup_insert_Some. intros [[<- <-]|[_ He]]; [|eauto]. cbn. eauto.
  - intros tk e sd. rewrite lookup_insert_Some. intros He [->|Hs]%elem_of_cons E; cbn in E.
    + destruct He as [[_ <-]|[? _]]; [done|congruence].
    + destruct He as [[<- <-]|[_ He]]; [|eauto]. cbn. split; [|done]. by destruct (qt_sent0 _ _ _ Hd Hs E).
  - intros x r c tk Hr Hp ?%Htr. eauto.
  - intros tk e r. rewrite lookup_insert_Some. intros [[<- <-]|[_ He]]; cbn; eauto.
  - intros x u Hx. destruct (qt_given0 x u Hx) as (? & ? & Hc). split_and!; [done|done|]. intros c tk ?%Htr. eauto.
Qed.

(** A command is issued. *)
Lemma quiet_issue D gap s now rec o :
  quiet D gap s -> op_id rec ∉ sy_ids s -> op_status rec = OpPending -> 0 < op_created rec ->
  issue (sy_out s) now rec = Ok o ->
  quiet D gap (mkSys o (sy_held s) (sy_sends s) (sy_given s) ({[op_id rec]} ∪ sy_ids s) (sy_tokens s)).
Proof.
  intros Q Hnew Hst Hc (row & _ & _ & _ & _ & _ & _ & ->)%issue_inv.
  assert (Hno : forall c tk, ~ trace s (op_id rec) c tk).
  { intros c tk [(sd & H & E & _)|(d & H & E & _)]; apply Hnew; rewrite <- E; [by apply Q|]. by eapply Q. }
  destruct Q. split; cbn [sy_out sy_held sy_sends sy_given sy_ids sy_tokens ob_op]; try done.
  - intros sd H. destruct (qt_sends0 sd H). set_solver.
  - intros tk d H. destruct (qt_held0 tk d H) as (? & ? & ?). set_solver.
  - intros x y. rewrite lookup_insert_Some. intros [[<- <-]|[_ Hy]]; [split; [done|set_solver]|].
    destruct (qt_row0 x y Hy). set_solver.
  - intros x y. rewrite lookup_insert_Some. intros [[<- <-]|[_ Hy]] Hp; [|eauto]. cbn. unfold insertLastSendMs. lia.
  - intros x y c tk. rewrite lookup_insert_Some. intros [[<- <-]|[_ Hy]] Hp Ht; [|eauto]. by destruct (Hno c tk).
  - intros tk d y Hd. rewrite lookup_insert_Some. intros [[E <-]|[_ Hy]] Hp Htk; [|eauto].
    destruct (Hno (dl_claim d) tk). right. by exists d.
  - intros x t Hx. destruct (qt_given0 x t Hx) as (? & Hn & Hg). split_and!; [set_solver| |done].
    intros y. rewrite lookup_insert_Some. intros [[<- _]|[_ Hy]]; [done|eauto].
  - intros x y. rewrite lookup_insert_Some. intros [[<- <-]|[_ Hy]] Ha; [|eauto]. cbn in Ha. by rewrite Hst in Ha.
Qed.

(** What a claim does. *)
Lemma Claim_cases o id now until poison token o' a :
  Claim o id now until poison token = (o', a) ->
  (o' = o /\ a = Ok None) \/
  exists r r', ob_op o !! id = Some r /\ op_status r = OpPending /\ op_lease_until r < now /\
    o' = with_op o (<[id := r']> (ob_op o)) /\ op_id r' = op_id r /\ op_status r' = OpPending /\
    op_last_send r' = Z.max (if op_last_send r =? 0 then Z.max (op_created r) (op_updated r) else op_last_send r)
                        (op_lease_until r) /\
    op_lease_token r' = token /\
    ((a = Err ErrPoisonRow /\ op_lease_until r' = 0) \/
     (op_lease_until r' = until /\ exists bundle, a = Ok (Some (claimed_op r' bundle token)))).
Proof.
  unfold Claim, update_op, is_pending. destruct (ob_op o !! id) as [r|] eqn:Hr; [|intros [= <- <-]; by left].
  split_if; [|intros [= <- <-]; by left]. zbool. cbn. rewrite lookup_insert_eq. cbn. intros Hc. right. exists r.
  destruct (op_payload r) as [bundle|] eqn:Hb.
  - injection Hc as <- <-. exists (claim_row now until token r). split_and!; try done. right. split; [done|].
    by exists bundle.
  - unfold markPoison, update_op, pending_token, is_pending in Hc. cbn in Hc. rewrite lookup_insert_eq in Hc. cbn in Hc.
    rewrite (proj2 (Z.eqb_eq _ _)) in Hc by done. rewrite Z.eqb_refl in Hc. cbn in Hc. injection Hc as <- <-.
    eexists. split; [done|]. split_and!; [done|done|by unfold with_op; cbn; rewrite insert_insert_eq|done..|by left].
Qed.

Lemma quiet_claim D gap s id now until poison token :
  quiet D gap s -> token ∉ sy_tokens s -> now <= until -> quiet D gap (claimed s id now until poison token).
Proof.
  intros Q Hnew Hle. unfold claimed. destruct (Claim _ _ _ _ _ _) as [o a] eqn:Hc.
  assert (Hnone : sy_held s !! token = None).
  { destruct (sy_held s !! token) as [d|] eqn:Hd; [|done]. destruct Hnew. by eapply Q. }
  assert (Hs : forall sd, sd ∈ sy_sends s -> sd_token sd <> token) by (intros sd H <-; apply Hnew; by apply Q).
  destruct (Claim_cases _ _ _ _ _ _ _ _ Hc) as [[-> ->]|(r & r' & Hr & Hp & Hlt & -> & Hid & Hp' & Hlast & Htk & Ha)].
  { destruct Q. split; cbn [sy_out sy_held sy_sends sy_given sy_ids sy_tokens]; try done.
    - intros sd H. destruct (qt_sends0 sd H). set_solver.
    - intros tk d H. destruct (qt_held0 tk d H) as (? & ? & ?). set_solver. }
  assert (Hgrow : op_last_send r <= op_last_send r' /\ op_lease_until r <= op_last_send r').
  { pose proof (qt_last _ _ _ Q id r Hr Hp). rewrite Hlast. split_if; zbool; lia. }
  assert (Hids : op_id r = id /\ id ∈ sy_ids s) by (by apply Q). destruct Hids as [Hrid Hin].
  assert (Hcov : forall c tk, trace s id c tk -> c <= op_last_send r').
  { intros c tk Ht. destruct (qt_cover _ _ _ Q id r c tk Hr Hp Ht) as [?|[_ ?]]; lia. }
  set (h := match a with Ok (Some op) => <[token := mkDelivery now op false]> (sy_held s) | _ => sy_held s end).
  assert (Hh : forall tk d, h !! tk = Some d -> sy_held s !! tk = Some d \/
      tk = token /\ (exists b, d = mkDelivery now (claimed_op r' b token) false) /\ op_lease_until r' = until).
  { intros tk d. subst h. destruct Ha as [[-> _]|(Hu & b & ->)]; [by left|]. rewrite lookup_insert_Some.
    intros [[<- <-]|[_ H]]; [right|by left]. eauto. }
  assert (Htr : forall x c tk, trace (mkSys (with_op (sy_out s) (<[id := r']> (ob_op (sy_out s)))) h (sy_sends s)
      (sy_given s) (sy_ids s) ({[token]} ∪ sy_tokens s)) x c tk -> trace s x c tk \/ x = id /\ c = now /\ tk = token /\
      op_lease_until r' = until).
  { intros x c tk [H|(d & Hd & E1 & E2)]; [left; by left|]. cbn in Hd.
    destruct (Hh tk d Hd) as [H|(-> & (b & ->) & Hu)]; [left; right; by exists d|]. cbn in *. right.
    split_and!; [congruence|done..]. }
  clearbody h. clear Ha Hc. split; cbn [sy_out sy_held sy_sends sy_given sy_ids sy_tokens with_op ob_op].
  - apply Q.
  - intros sd H. destruct (qt_sends _ _ _ Q sd H). set_solver.
  - intros tk d [H|(-> & (b & ->) & _)]%Hh.
    + destruct (qt_held _ _ _ Q tk d H) as (? & ? & ?). set_solver.
    + cbn. rewrite Hid, Hrid. set_solver.
  - intros tk d sd [H|(-> & _)]%Hh Hsd E; [by eapply Q|]. by destruct (Hs sd Hsd).
  - intros x y. rewrite lookup_insert_Some. intros [[<- <-]|[_ Hy]]; [split; [congruence|done]|]. by apply Q.
  - intros x y. rewrite lookup_insert_Some. intros [[<- <-]|[_ Hy]] Hpy; [|by eapply Q].
    pose proof (qt_last _ _ _ Q id r Hr Hp). lia.
  - intros x y c tk. rewrite lookup_insert_Some. intros Hy Hpy [Ht|(-> & -> & -> & Hu)]%Htr.
    + destruct Hy as [[<- <-]|[_ Hy]]; [left; eauto|]. by eapply Q.
    + destruct Hy as [[_ <-]|[? _]]; [|done]. right. by rewrite Hu.
  - intros tk d y Hd. rewrite lookup_insert_Some. intros Hy Hpy Hty. apply Hh in Hd as [Hd|(-> & (b & ->) & _)].
    + destruct Hy as [[E <-]|[_ Hy]]; [congruence|]. by eapply Q.
    + cbn in *. destruct Hy as [[_ <-]|[? _]]; [done|congruence].
  - intros x t Hx. destruct (qt_given _ _ _ Q x t Hx) as (? & Hn & Hg). split_and!; [done| |].
    + intros y. rewrite lookup_insert_Some. intros [[<- _]|[_ Hy]]; [by destruct (Hn r Hr)|eauto].
    + intros c tk [Ht|(-> & _)]%Htr; [eauto|]. by destruct (Hn r Hr).
  - intros x y. rewrite lookup_insert_Some. intros [[<- <-]|[_ Hy]] Ha; [by rewrite Hp' in Ha|]. by apply Q.
Qed.

(** A command is given up. *)
Lemma pending_token_row o id token f o' :
  update_op o id (pending_token token) f = Some o' ->
  exists r, ob_op o !! id = Some r /\ op_status r = OpPending /\ op_lease_token r = token /\
    o' = with_op o (<[id := f r]> (ob_op o)).
Proof.
  unfold update_op, pending_token, is_pending. destruct (ob_op o !! id) as [r|]; [|done]. split_if; [|done].
  intros [= <-]. zbool. by exists r.
Qed.

Lemma quiet_abandon D gap s token d now o :
  quiet D gap s -> sy_held s !! token = Some d -> dl_sent d = false -> gap <= now - o_last_send (dl_op d) ->
  Abandon (sy_out s) (o_id (dl_op d)) (o_stream (dl_op d)) (o_token (dl_op d)) now = Ok o ->
  quiet D gap (given_up s token (o_id (dl_op d)) now o).
Proof.
  intros Q Hd Hun Hgap Ha. unfold Abandon in Ha. split_if; [done|]. split_if; [done|].
  destruct (update_op _ _ _ _) as [o1|] eqn:Hu; [|done]. injection Ha as <-.
  destruct (qt_held _ _ _ Q token d Hd) as (Htok & _ & Hin). rewrite Htok in Hu.
  apply pending_token_row in Hu as (r & Hr & Hp & Htk & ->).
  assert (Hns : forall sd, sd ∈ sy_sends s -> sd_token sd <> token).
  { intros sd H E. destruct (qt_sent _ _ _ Q token d sd Hd H E). congruence. }
  set (s' := given_up _ _ _ _ _).
  assert (Htr : forall x c tk, trace s' x c tk -> trace s x c tk /\ tk <> token).
  { intros x c tk [(sd & H & E1 & E2 & E3)|(e & He & E)]; cbn in *.
    - split; [left; by exists sd|]. rewrite <- E3. by apply Hns.
    - apply lookup_delete_Some in He as [Hne He]. split; [right; by exists e|done]. }
  pose proof (qt_view _ _ _ Q token d r Hd Hr Hp Htk) as Hview.
  split; cbn [s' given_up sy_out sy_held sy_sends sy_given sy_ids sy_tokens with_op ob_op].
  - apply Q. - apply Q.
  - intros t e [_ He]%lookup_delete_Some. by eapply Q.
  - intros t e sd [_ He]%lookup_delete_Some. by eapply Q.
  - intros x y. rewrite lookup_insert_Some. intros [[<- <-]|[_ Hy]]; [|by apply Q]. cbn. by apply Q.
  - intros x y. rewrite lookup_insert_Some. intros [[<- <-]|[_ Hy]] Hpy; [done|by eapply Q].
  - intros x y c t. rewrite lookup_insert_Some. intros [[<- <-]|[_ Hy]] Hpy [Ht _]%Htr; [done|by eapply Q].
  - intros t e y [_ He]%lookup_delete_Some. rewrite lookup_insert_Some. intros [[_ <-]|[_ Hy]] Hpy; [done|by eapply Q].
  - intros x t [[= -> ->]|Hx]%elem_of_cons.
    + split_and!; [done| |].
      * intros y. rewrite lookup_insert_Some. intros [[_ <-]|[? _]]; done.
      * intros c tk [Ht Hne]%Htr. destruct (qt_cover _ _ _ Q _ r c tk Hr Hp Ht) as [?|[? _]]; [lia|congruence].
    + destruct (qt_given _ _ _ Q x t Hx) as (? & Hn & Hg). split_and!; [done| |].
      * intros y. rewrite lookup_insert_Some. intros [[_ <-]|[_ Hy]]; [done|eauto].
      * intros c tk [Ht _]%Htr. eauto.
  - intros x y. rewrite lookup_insert_Some. intros [[<- <-]|[_ Hy]] Hy'; [by left|right; by apply Q].
Qed.

Lemma delivery_step_quiet D gap s label s' : quiet D gap s -> delivery_step D gap s label s' -> quiet D gap s'.
Proof.
  intros Q. destruct 1 as [o H|now rec o H1 H2 H3 H|id now until poison token H1 H2|token d t Hd Ht
    |token d next r now o Hd Hs H|token d now o Hd Hs H|token d now o Hd Hs Hg H].
  - apply quiet_table; [by apply table_step_keeps|done].
  - by eapply quiet_issue.
  - by apply quiet_claim.
  - by apply quiet_send.
  - unfold Reschedule in H. destruct (update_op _ _ _ _) as [o1|] eqn:Hu; [|done]. injection H as <-.
    destruct (qt_held _ _ _ Q token d Hd) as (Htok & _). rewrite Htok in Hu.
    apply pending_token_row in Hu as (x & Hx & Hp & Htk & ->). eapply quiet_return; try done; cbn.
    + split_if; lia.
    + intros Hsent. destruct (Hs Hsent) as [-> ?]. cbn. lia.
  - unfold ReleaseLease in H. destruct (update_op _ _ _ _) as [o1|] eqn:Hu; [|done]. injection H as <-.
    destruct (qt_held _ _ _ Q token d Hd) as (Htok & _). rewrite Htok in Hu.
    apply pending_token_row in Hu as (x & Hx & Hp & Htk & ->). eapply quiet_return; try done; cbn. congruence.
  - by apply quiet_abandon.
Qed.

Lemma delivery_run_quiet D gap s s' : quiet D gap s -> rtc (any_step D gap) s s' -> quiet D gap s'.
Proof. intros Q H. induction H as [|s s1 s2 [label Hs] _ IH]; [done|]. apply IH. by eapply delivery_step_quiet. Qed.
