(* ===== verification/AssetSim.v ===== *)
(** * Asset commands: the loop's rounds are runs of the delivery system

    The laws that tie the interface of the delivery loop to the system of [AssetSend]:
    a call of the store is its statement, and between any two calls the other
    deliveries of the system may act. Under them every round of [AssetLoop] is a run
    of the system. *)

From stdpp Require Import base list gmap strings relations.
From Stdlib Require Import ZArith Lia.
From S2P Require Import Prelude CommerceData AssetOps AssetLedger AssetWire SceneNode AssetLoop AssetOpsThms AssetSend.
Local Open Scope Z_scope.

(** ** The laws *)

(** A step of any delivery but mine. *)
Definition other_step (D gap : Z) (me : option Z) (s s' : Sys) : Prop :=
  exists label, (forall token, me = Some token -> label <> Some token) /\ delivery_step D gap s label s'.

(** One of mine leaves a request. *)
Definition send_step (D : Z) (token : Z) (s s' : Sys) : Prop :=
  exists d t, sy_held s !! token = Some d /\ dl_claim d <= t <= dl_claim d + D /\ s' = sent s token d t.

(** [dw_me]: the lease this worker acts under. [dw_fresh]: a token that was drawn and
    is not in use. A store call that reports a failure may still have been carried
    out. *)
Class DeliveryLaws (W : Type) `{LoopWorld W} (D gap : Z) := {
  dw_sys : W -> Sys;
  dw_me : W -> option Z;
  dw_fresh : W -> Z -> Prop;
  dw_idle (w w' : W) : Prop := dw_me w' = dw_me w /\ lw_now w <= lw_now w' /\
    rtc (other_step D gap (dw_me w)) (dw_sys w) (dw_sys w');
  dw_during (w w' : W) (P : Sys -> Sys -> Prop) : Prop := lw_now w <= lw_now w' /\ exists s1 s2,
    rtc (other_step D gap (dw_me w)) (dw_sys w) s1 /\ P s1 s2 /\ rtc (other_step D gap (dw_me w')) s2 (dw_sys w');
  dwl_clock : forall w : W, 0 <= lw_now w < 2 ^ 62;
  dwl_token : forall w w' r, lw_token w = (w', r) -> dw_idle w w' /\ forall b, r = Ok b -> dw_fresh w' (Z.lor b 1);
  dwl_persisted : forall w p, dw_idle w (lw_persisted w p).1;
  dwl_sql : forall w p, dw_idle w (lw_sql w p).1;
  dwl_verified : forall w p, dw_idle w (lw_verified w p).1;
  dwl_locate : forall w p, dw_idle w (lw_locate w p).1;
  dwl_list_due : forall w now n, dw_idle w (lw_list_due w now n).1;
  dwl_list_player : forall w p n, dw_idle w (lw_list_player w p n).1;
  dwl_list_abandon : forall w before after n, dw_idle w (lw_list_abandon w before after n).1;
  dwl_do : forall w w' rpc o r err, lw_do w rpc (Request o) = (w', (r, err)) -> dw_me w = Some (o_token o) ->
    dw_me w' = dw_me w /\ lw_now w <= lw_now w' /\
    rtc (fun s s' => other_step D gap (dw_me w) s s' \/ rs_local r = false /\ send_step D (o_token o) s s')
      (dw_sys w) (dw_sys w');
  dwl_claim : forall w w' id now until poison token r,
    lw_claim w id now until poison token = (w', r) -> dw_fresh w token ->
    dw_during w w' (fun s s' => token ∉ sy_tokens s /\ s' = claimed s id now until poison token /\
      (forall o, r = Ok (Some o) -> (Claim (sy_out s) id now until poison token).2 = Ok (Some o) /\ dw_me w' = Some token)
      \/ (s' = s /\ forall o, r <> Ok (Some o)));
  dwl_finalize : forall w o status r now, dw_me (lw_finalize w o status r now).1 = dw_me w /\
    dw_during w (lw_finalize w o status r now).1 (fun s s' => s' = s \/
      exists b out, Finalize (sy_out s) (o_id o) (o_stream o) status r now = Ok (b, out) /\ s' = with_out s out);
  dwl_reschedule : forall w o next r now,
    dw_during w (lw_reschedule w o next r now).1 (fun s s' => s' = s \/
      exists out, Reschedule (sy_out s) (o_id o) (o_token o) next r now = Ok out /\ s' = done_with s (o_token o) out);
  dwl_abandon : forall w o now, dw_me (lw_abandon w o now).1 = dw_me w /\
    dw_during w (lw_abandon w o now).1 (fun s s' => s' = s \/
      exists out, Abandon (sy_out s) (o_id o) (o_stream o) (o_token o) now = Ok out /\
        s' = given_up s (o_token o) (o_id o) now out);
  dwl_release : forall w o now, dw_during w (lw_release w o now).1 (fun s s' => s' = s \/
      exists out, ReleaseLease (sy_out s) (o_id o) (o_token o) now = Ok out /\ s' = done_with s (o_token o) out) }.

(** ** My delivery is mine *)
Lemma other_step_any D gap me s s' : other_step D gap me s s' -> any_step D gap s s'.
Proof. intros (l & _ & H). by exists l. Qed.

Lemma others_any D gap me s s' : rtc (other_step D gap me) s s' -> rtc (any_step D gap) s s'.
Proof. induction 1 as [|a b c H _ IH]; [done|]. eapply rtc_l; [by eapply other_step_any|done]. Qed.

Lemma other_step_held D gap token s s' :
  other_step D gap (Some token) s s' -> sy_held s' !! token = sy_held s !! token.
Proof.
  intros (l & Hl & H). specialize (Hl token eq_refl). destruct H; cbn; try done; try (rewrite lookup_delete_ne; congruence).
  - unfold claimed. destruct (Claim _ _ _ _ _ _) as [o' [[op|]|]]; cbn; try done. rewrite lookup_insert_ne; congruence.
  - rewrite lookup_insert_ne; congruence.
Qed.

Lemma others_held D gap token s s' :
  rtc (other_step D gap (Some token)) s s' -> sy_held s' !! token = sy_held s !! token.
Proof. induction 1 as [|a b c H _ IH]; [done|]. rewrite IH. by eapply other_step_held. Qed.

Section rounds.
Context {W : Type} `{Hworld : LoopWorld W} (D : Z) (l : Loop).
Notation cfg := (lp_cfg l).
Notation gap := (to_ms (AbandonSafetyGap cfg)).
Context `{!DeliveryLaws W D gap}.
Context (marshal_item : AssetItemInstance -> string) (marshal_pet : AssetPetInstance -> string).
Context (sha256 : string -> string).
#[local] Set Default Proof Using "Type*".

(** What a round is: the clock goes on and the system runs. *)
Definition goes (w w' : W) : Prop := lw_now w <= lw_now w' /\ rtc (any_step D gap) (dw_sys w) (dw_sys w').

#[local] Instance goes_refl : Reflexive goes.
Proof using. split; [lia|done]. Qed.
#[local] Instance goes_trans : Transitive goes.
Proof using. intros a b c [? ?] [? ?]. split; [lia|by etrans]. Qed.

#[local] Instance idle_refl : Reflexive dw_idle.
Proof using. intros w. unfold dw_idle. split_and!; [done|lia|done]. Qed.
#[local] Instance idle_trans : Transitive dw_idle.
Proof using.
  intros a b c (E1 & ? & H1) (E2 & ? & H2). unfold dw_idle. split_and!; [congruence|lia|]. rewrite E1 in H2. by etrans.
Qed.

Lemma idle_goes w w' : dw_idle w w' -> goes w w'.
Proof. intros (_ & ? & ?). split; [done|by eapply others_any]. Qed.

(** I hold the lease of [o], taken at [since] or before; if a request left, then [P]. *)
Definition holding (w : W) (o : Op) (since : Z) (P : Prop) : Prop :=
  dw_me w = Some (o_token o) /\ exists d, sy_held (dw_sys w) !! o_token o = Some d /\ dl_op d = o /\
    dl_claim d <= since /\ (dl_sent d = true -> P).

Lemma holding_impl w o since since' (P Q : Prop) :
  holding w o since P -> since <= since' -> (P -> Q) -> holding w o since' Q.
Proof. intros (Hm & d & Hd & Ho & Hc & HP) Hs HQ. split; [done|]. exists d. split_and!; [done..|lia|auto]. Qed.

Lemma idle_holding w w' o since P : dw_idle w w' -> holding w o since P -> holding w' o since P.
Proof.
  intros (E & _ & H) (Hm & d & Hd & HP). rewrite Hm in *. split; [done|]. exists d. by erewrite others_held.
Qed.

(** A statement of mine: the system runs, whatever the call answers. *)
Lemma mine_goes w w' o since (P : Prop) (Q : Sys -> Sys -> Prop) :
  dw_during w w' Q -> holding w o since P ->
  (forall s s' d, Q s s' -> sy_held s !! o_token o = Some d -> dl_op d = o -> dl_claim d <= since ->
     (dl_sent d = true -> P) -> s' = s \/ any_step D gap s s') ->
  goes w w'.
Proof.
  intros (Hn & s1 & s2 & H1 & HQ & H2) (Hm & d & Hd & Ho & Hc & HP) Hstep. split; [done|]. rewrite Hm in H1.
  etrans; [by eapply others_any|]. rewrite <- (others_held _ _ _ _ _ H1) in Hd.
  etrans; [|by eapply others_any]. destruct (Hstep s1 s2 d HQ Hd Ho Hc HP) as [->|H]; [done|by apply rtc_once].
Qed.

(** ** Writing back *)
Lemma reschedule_goes w o next r now since :
  holding w o since (rs_local r = false /\ since <= now) -> goes w (reschedule w o next r now).1.
Proof.
  intros Hh. assert (goes w (lw_reschedule w o next (carryPartialReason o r) now).1) as Hg.
  { eapply mine_goes; [apply dwl_reschedule|done|]. cbn beta. intros s s' d [->|(out & H & ->)] Hd Ho Hc HP; [by left|right].
    exists (Some (o_token o)). eapply ds_reschedule; [done| |by rewrite Ho]. intros Hs. destruct (HP Hs) as [Hl ?].
    split; [|lia]. unfold carryPartialReason. by split_if. }
  unfold reschedule. by destruct (lw_reschedule _ _ _ _ _).
Qed.

Lemma finalize_goes w o rpc r now since :
  holding w o since (rs_local r = false /\ since <= now) -> goes w (finalize l w o rpc r now).1.
Proof.
  intros Hh. unfold finalize. cbv zeta. split_if; [by eapply reschedule_goes|].
  destruct (dwl_finalize w o (FinalStatus rpc r o) r now) as [_ Hd].
  destruct (lw_finalize _ _ _ _ _) as [w' a]. cbn in *. eapply mine_goes; [done|done|].
  intros s s' d [->|(b & out & H & ->)] _ _ _ _; [by left|right]. exists None. apply ds_table. by eapply ts_finalize.
Qed.

Lemma release_goes w o now since : holding w o since False -> goes w (releaseAbandonLease w o now).
Proof.
  intros Hh. unfold releaseAbandonLease. eapply mine_goes; [apply dwl_release|done|]. cbn beta.
  intros s s' d [->|(out & H & ->)] Hd Ho _ HP; [by left|right]. exists (Some (o_token o)).
  eapply ds_release; [done| |by rewrite Ho]. by destruct (dl_sent d); [destruct (HP eq_refl)|].
Qed.

(** ** One command *)
Lemma readFinalLedger_idle w p : dw_idle w (readFinalLedger l w p).1.
Proof. unfold readFinalLedger. repeat split_if; [apply dwl_persisted|done|apply dwl_sql]. Qed.

Lemma proved_local o ledger c : rs_local (proved_by marshal_item marshal_pet sha256 o ledger c) = false.
Proof.
  unfold proved_by. destruct (ClassifyPersisted _ _ _ _) as [[? ?] ?]. unfold resultWithReceipt.
  destruct (matchingReceipt _ _ _ _ _); [|done]. by repeat split_if.
Qed.

Lemma tryPersistedLedger_idle w o r w' r' :
  tryPersistedLedger marshal_item marshal_pet sha256 l w o r = (w', r') ->
  dw_idle w w' /\ (rs_local r' = rs_local r \/ rs_local r' = false).
Proof.
  unfold tryPersistedLedger. split_if; [intros [= <- <-]; by split; [|left]|].
  pose proof (readFinalLedger_idle w (o_player o)) as Hi. destruct (readFinalLedger _ _ _) as [w1 [[ledger|]|]]; cbn in Hi;
    [|by intros [= <- <-]; split; [|left]..].
  split_if; intros [= <- <-]; (split; [done|]); [by left|right]. apply proved_local.
Qed.

Lemma verifySQLCommit_idle w o r w' r' err :
  verifySQLCommit marshal_item marshal_pet sha256 l w o r = (w', (r', err)) ->
  dw_idle w w' /\ (rs_local r' = rs_local r \/ rs_local r' = false).
Proof.
  unfold verifySQLCommit. cbv zeta. split_if; [intros [= <- <- <-]; by split; [|left]|].
  split_if; [intros [= <- <- <-]; by split; [|left]|].
  pose proof (dwl_sql w (o_player o)) as Hi. destruct (lw_sql w (o_player o)) as [w1 [[ledger|]|]]; cbn in Hi;
    [|by intros [= <- <- <-]; split; [|left]..].
  pose proof (proved_local o ledger true) as Hl. split_if; [intros [= <- <- <-]; by split; [|left]|].
  split_if; [intros [= <- <- <-]; by split; [|right]|]. split_if; [intros [= <- <- <-]; by split; [|left]|].
  intros [= <- <- <-]. split; [done|right]. by split_if.
Qed.

Lemma do_holding w o rpc since w' r err :
  lw_do w rpc (Request o) = (w', (r, err)) -> holding w o since False ->
  goes w w' /\ holding w' o since (rs_local r = false).
Proof.
  intros Hdo (Hm & d & Hd & Ho & Hc & HP). destruct (dwl_do w w' rpc o r err Hdo Hm) as (Hm' & Hn & Hrun).
  assert (Hun : dl_sent d = true -> rs_local r = false) by tauto. clear HP Hdo. rewrite Hm in Hrun.
  assert (Hall : rtc (any_step D gap) (dw_sys w) (dw_sys w') /\ exists d, sy_held (dw_sys w') !! o_token o = Some d /\
    dl_op d = o /\ dl_claim d <= since /\ (dl_sent d = true -> rs_local r = false)).
  { clear Hn Hm Hm'. revert d Hd Ho Hc Hun.
    induction Hrun as [s|s s1 s2 [Hs|[Hl (d1 & t & Hd1 & Ht & ->)]] _ IH]; intros d Hd Ho Hc Hun.
    - split; [done|]. by exists d.
    - destruct (IH d) as [H1 H2]; [by erewrite other_step_held|done..|]. split; [|done].
      eapply rtc_l; [by eapply other_step_any|done].
    - assert (d1 = d) as -> by congruence. destruct (IH (mkDelivery (dl_claim d) (dl_op d) true)) as [H1 H2];
        [by cbn; rewrite lookup_insert_eq|done..|]. split; [|done]. eapply rtc_l; [|done].
      exists (Some (o_token o)). by apply ds_send. }
  destruct Hall as [Hrun' Hd']. split; [by split|]. split; [congruence|done].
Qed.

Lemma deliver_holding w o rpc since w' r err :
  deliver marshal_item marshal_pet sha256 l w o rpc = (w', (r, err)) -> holding w o since False ->
  goes w w' /\ holding w' o since (rs_local r = false).
Proof.
  unfold deliver. destruct (lw_do w rpc (Request o)) as [w1 [r1 e1]] eqn:Hdo. intros Hd Hh.
  destruct (do_holding _ _ _ _ _ _ _ Hdo Hh) as [Hg1 Hh1]. clear Hdo Hh.
  set (x := if negb (is_some e1) && rs_local r1 then tryPersistedLedger _ _ _ l w1 o r1 else (w1, r1)) in Hd.
  destruct x as [w2 r2] eqn:Hx. subst x.
  assert (H2 : goes w w2 /\ holding w2 o since (rs_local r2 = false)).
  { revert Hx. split_if; [|by intros [= <- <-]]. intros Hx. apply tryPersistedLedger_idle in Hx as [Hi Hl].
    split; [etrans; [done|by apply idle_goes]|]. eapply holding_impl; [by eapply idle_holding|lia|].
    intros E. destruct Hl as [-> | ->]; done. }
  clear Hx Hg1 Hh1. destruct H2 as [Hg2 Hh2]. revert Hd. split_if; [|by intros [= <- <- <-]]. split_if.
  - intros [Hi Hl]%verifySQLCommit_idle. split; [etrans; [done|by apply idle_goes]|].
    eapply holding_impl; [by eapply idle_holding|lia|]. intros E. destruct Hl as [-> | ->]; done.
  - intros [= <- <- <-]. split; [done|]. eapply holding_impl; [done|lia|]. intros E. unfold withMatchingReceipt.
    by repeat split_if.
Qed.

Lemma settle_goes w o rpc r err now since :
  holding w o since (rs_local r = false) -> since <= now -> goes w (settle l w o rpc r err now).1.
Proof.
  intros Hh Hs. assert (Hh' : holding w o since (rs_local r = false /\ since <= now)) by (by eapply holding_impl).
  unfold settle. cbv zeta. destruct (Decide r err); [by eapply finalize_goes|by eapply reschedule_goes| |by eapply reschedule_goes].
  split_if; [|by eapply reschedule_goes]. unfold rescheduleTransportFailure. cbv zeta.
  match goal with |- context [reschedule w o ?n ?s now] =>
    assert (Hg : goes w (reschedule w o n s now).1); [eapply reschedule_goes|] end.
  { by eapply holding_impl. }
  destruct (reschedule w o _ _ now). done.
Qed.

Lemma ProcessOne_goes w o since :
  holding w o since False -> since <= lw_now w -> goes w (ProcessOne marshal_item marshal_pet sha256 l w o).1.
Proof.
  intros Hh Hs. unfold ProcessOne. cbv zeta. destruct (rpcFor o (lw_now w)) as [rpc|].
  - destruct (deliver _ _ _ l w o rpc) as [w1 [r err]] eqn:Hd.
    destruct (deliver_holding _ _ _ _ _ _ _ Hd Hh) as [Hg Hh1]. etrans; [done|]. by eapply settle_goes.
  - eapply reschedule_goes, holding_impl; [done|done|tauto].
Qed.

(** ** Claiming *)
Context (Hlease : 0 <= Lease cfg < 2 ^ 63).

Lemma claim_holding w id w' r :
  claim l w id = (w', r) ->
  goes w w' /\ forall o, r = claimOK o -> holding w' o (lw_now w') False.
Proof.
  unfold claim, newLeaseToken. destruct (lw_token w) as [w1 bytes] eqn:Htok. destruct (dwl_token _ _ _ Htok) as [Hi Hf].
  destruct bytes as [b|e]; cbn; [|intros [= <- <-]; by split; [apply idle_goes|]]. specialize (Hf b eq_refl).
  set (token := Z.lor b 1) in *. clearbody token. destruct (lw_claim w1 id _ _ _ token) as [w2 a] eqn:Hc.
  destruct (dwl_claim _ _ _ _ _ _ _ _ Hc Hf) as (Hn & s1 & s2 & H1 & HP & H2). pose proof (dwl_clock w1) as Hclock.
  assert (Hle : lw_now w1 <= u64 (lw_now w1 + to_ms (Lease cfg))).
  { unfold to_ms, Millisecond. rewrite Z.quot_div_nonneg by lia.
    pose proof (Z.div_pos (Lease cfg) 1000000 ltac:(lia) ltac:(lia)).
    pose proof (Z.div_le_upper_bound (Lease cfg) 1000000 (2 ^ 63) ltac:(lia) ltac:(lia)).
    rewrite u64_small; [lia|unfold is_u64, u64_mod; lia]. }
  set (s' := claimed s1 id _ _ _ token) in HP.
  assert (Hstep : s2 = s1 \/ any_step D gap s1 s2).
  { destruct HP as [(Ht & -> & _)|[-> _]]; [right|by left]. exists (Some token). by apply ds_claim. }
  assert (Hg : goes w w2).
  { etrans; [by apply idle_goes|]. split; [done|]. etrans; [by eapply others_any|].
    etrans; [|by eapply others_any]. destruct Hstep as [->|]; [done|by apply rtc_once]. }
  intros [= <- <-]. split; [done|]. intros o Ho. assert (a = Ok (Some o)) as ->.
  { destruct a as [[o1|]|e]; [by injection Ho as ->|done|]. by destruct (String.eqb e ErrPoisonRow). }
  destruct HP as [(Ht & -> & Hans)|[_ Hno]]; [|by destruct (Hno o)]. destruct (Hans o eq_refl) as [Hcl Hme].
  clear Ho Hans Hstep. subst s'. unfold claimed in H2. destruct (Claim _ _ _ _ _ _) as [o' a'] eqn:Hcs. cbn in Hcl. subst a'.
  assert (o_token o = token) as Etok.
  { destruct (Claim_cases _ _ _ _ _ _ _ _ Hcs) as [[_ ?]|(x & x' & _ & _ & _ & _ & _ & _ & _ & _ & [[? _]|(_ & bd & E)])]; [done..|].
    by injection E as ->. }
  split; [by rewrite Etok|]. rewrite Etok. exists (mkDelivery (lw_now w1) o false). rewrite Hme in H2.
  rewrite (others_held _ _ _ _ _ H2). cbn. rewrite lookup_insert_eq. split_and!; done.
Qed.

Lemma claimAndProcess_goes w id : goes w (claimAndProcess marshal_item marshal_pet sha256 l w id).1.
Proof.
  unfold claimAndProcess. split_if; [done|]. destruct (claim l w id) as [w1 r] eqn:Hc.
  destruct (claim_holding _ _ _ _ Hc) as [Hg Hh]. destruct r as [o| |]; [|done..]. cbn. etrans; [done|].
  eapply ProcessOne_goes; [by apply Hh|lia].
Qed.

(** ** Rounds *)
Lemma drain_goes ids w n : goes w (drain marshal_item marshal_pet sha256 l w ids n).1.
Proof.
  revert w n. induction ids as [|id ids IH]; intros w n; cbn [drain]; [done|]. split_if; [done|].
  pose proof (claimAndProcess_goes w id) as Hg. destruct (claimAndProcess _ _ _ l w id) as [w1 ok]. etrans; [done|apply IH].
Qed.

Lemma wake_loop_goes ids w n : goes w (wake_loop marshal_item marshal_pet sha256 l w ids n).1.
Proof.
  revert w n. induction ids as [|id ids IH]; intros w n; cbn [wake_loop]; [done|]. split_if; [done|].
  pose proof (claimAndProcess_goes w id) as Hg. destruct (claimAndProcess _ _ _ l w id) as [w1 ok]. etrans; [done|apply IH].
Qed.

Lemma Tick_goes w : goes w (Tick marshal_item marshal_pet sha256 l w).1.
Proof.
  unfold Tick. pose proof (dwl_list_due w (lw_now w) (Z.to_nat (Batch cfg))) as Hi.
  destruct (lw_list_due _ _ _) as [w1 [ids|e]]; [|by apply idle_goes]. etrans; [by apply idle_goes|apply drain_goes].
Qed.

Lemma WakePlayer_goes w player : goes w (WakePlayer marshal_item marshal_pet sha256 l w player).1.
Proof.
  unfold WakePlayer. split_if; [done|]. split_if; [done|].
  pose proof (dwl_list_player w player maxWakeOpsPerPlayer) as Hi.
  destruct (lw_list_player _ _ _) as [w1 [ids|e]]; [|by apply idle_goes].
  pose proof (wake_loop_goes (take maxWakeOpsPerPlayer ids) w1 0) as Hg. destruct (wake_loop _ _ _ _ _ _ _) as [w2 n].
  etrans; [by apply idle_goes|done].
Qed.

(** ** Abandonment *)
Lemma readAbandonBlob_idle w p : dw_idle w (readAbandonBlob l w p).1.
Proof.
  unfold readAbandonBlob. split_if.
  - pose proof (dwl_persisted w p). by destruct (lw_persisted w p).
  - split_if; [done|apply dwl_verified].
Qed.

Lemma judgePlayerBlob_idle w o : dw_idle w (judgePlayerBlob marshal_item marshal_pet sha256 l w o).1.
Proof. unfold judgePlayerBlob. pose proof (readAbandonBlob_idle w (o_player o)). by destruct (readAbandonBlob _ _ _). Qed.

Lemma judgeWithSQLCommit_idle w o : dw_idle w (judgeWithSQLCommit marshal_item marshal_pet sha256 l w o).1.
Proof.
  unfold judgeWithSQLCommit. pose proof (dwl_sql w (o_player o)) as Hi. destruct (lw_sql _ _) as [w1 [ev|e]]; [|done].
  destruct (abandonVerdict ev o), ev as [ledger|]; try done.
  all: pose proof (readAbandonBlob_idle w1 (o_player o)); destruct (readAbandonBlob _ _ _) as [w2 b]; by etrans.
Qed.

(** An abandonment is judged on the row as it was claimed, after the safety gap; what
    was seen in a ledger is an outcome that closes the row. *)
Definition closing (r : Result) : Prop := rs_local r = false /\ isSceneTerminal (rs_outcome r) = true.

Lemma seen_final ledger o c r :
  abandonVerdict (Some ledger) o = ledgerSeen ->
  seenForFinalize marshal_item marshal_pet sha256 ledger o c = Seen r -> closing r.
Proof.
  intros Hv. unfold seenForFinalize. cbv zeta. split_if; [done|]. intros [= <-]. split; [apply proved_local|]. zbool.
  unfold proved_by in *. assert (Ht : isSceneTerminal (persisted_outcome o ledger) = true).
  { unfold persisted_outcome, ClassifyPersisted. unfold abandonVerdict in Hv.
    destruct (ClassifySeq _ _ _) eqn:Hc; try done; destruct (FindStream ledger (o_stream o)) as [st|] eqn:Hf; try done; cbn.
    - by destruct (isPartialSeq st (o_seq o)).
    - unfold ClassifySeq in Hc. by repeat split_if.
    - unfold ClassifySeq in Hc. by repeat split_if. }
  unfold persisted_outcome in Ht. destruct (ClassifyPersisted _ _ _ _) as [[outcome partial] reason]. cbn in Ht.
  unfold resultWithReceipt in *. destruct (matchingReceipt _ _ _ _ _); [|done]. by repeat split_if.
Qed.

Lemma judgePlayerBlob_seen w o r : (judgePlayerBlob marshal_item marshal_pet sha256 l w o).2 = Seen r -> closing r.
Proof.
  unfold judgePlayerBlob. destruct (readAbandonBlob _ _ _) as [w1 [[[ledger|] v]|]]; cbn -[abandonVerdict]; try done.
  destruct (abandonVerdict _ _) eqn:Hv; [done|by split_if|by apply seen_final].
Qed.

Lemma judgeWithSQLCommit_seen w o r :
  (judgeWithSQLCommit marshal_item marshal_pet sha256 l w o).2 = Seen r -> closing r.
Proof.
  unfold judgeWithSQLCommit. destruct (lw_sql _ _) as [w1 [ev|e]]; [|done].
  destruct (abandonVerdict ev o) eqn:Hv, ev as [ledger|]; try done; try by apply seen_final.
  all: clear Hv; destruct (readAbandonBlob _ _ _) as [w2 [[blob v]|]]; cbn -[abandonVerdict]; try done.
  all: destruct (abandonVerdict _ _); [done|by split_if|done].
Qed.

Lemma judgeAbandon_idle w o cutoff now w' j :
  judgeAbandon marshal_item marshal_pet sha256 l w o cutoff now = (w', j) ->
  dw_idle w w' /\ (forall r, j = Seen r -> closing r) /\ (j = Abandonable -> gap <= now - o_last_send o).
Proof.
  unfold judgeAbandon. split_if; [by intros [= <- <-]|]. split_if; [by intros [= <- <-]|].
  destruct (playerAbsent w (o_player o)) as [w1 absent] eqn:Hp.
  assert (Hi1 : dw_idle w w1).
  { unfold playerAbsent in Hp. pose proof (dwl_locate w (o_player o)). destruct (lw_locate _ _). by injection Hp as <- _. }
  clear Hp. destruct absent as [[|]|]; [|by intros [= <- <-]..]. split_if; [by intros [= <- <-]|]. zbool.
  split_if; intros Hj.
  - pose proof (judgeWithSQLCommit_idle w1 o) as Hi. pose proof (judgeWithSQLCommit_seen w1 o) as Hs.
    rewrite Hj in Hi, Hs. cbn in *. split_and!; [by etrans|intros r ->; by apply Hs|lia].
  - pose proof (judgePlayerBlob_idle w1 o) as Hi. pose proof (judgePlayerBlob_seen w1 o) as Hs.
    rewrite Hj in Hi, Hs. cbn in *. split_and!; [by etrans|intros r ->; by apply Hs|lia].
Qed.

(** A command once given up stays closed. *)
Lemma step_given s label s' : delivery_step D gap s label s' -> sy_given s ⊆ sy_given s'.
Proof.
  destruct 1; cbn; try done; [|set_solver]. unfold claimed. by destruct (Claim _ _ _ _ _ _) as [? [[?|]|?]].
Qed.

Lemma others_given me s s' : rtc (other_step D gap me) s s' -> sy_given s ⊆ sy_given s'.
Proof. induction 1 as [|a b c (l' & _ & H) _ IH]; [done|]. etrans; [by eapply step_given|done]. Qed.

(** The lease of a row that was given up is not there to give back. *)
Lemma release_given w o now t :
  quiet D gap (dw_sys w) -> (o_id o, t) ∈ sy_given (dw_sys w) -> goes w (releaseAbandonLease w o now).
Proof.
  intros Q Ht. unfold releaseAbandonLease. destruct (dwl_release w o now) as (Hn & s1 & s2 & H1 & HP & H2).
  split; [done|]. assert (Q1 : quiet D gap s1) by (eapply delivery_run_quiet; [done|by eapply others_any]).
  apply (others_given _ _ _ H1) in Ht. etrans; [by eapply others_any|]. destruct HP as [->|(out & H & _)]; [by eapply others_any|].
  exfalso. unfold ReleaseLease in H. destruct (update_op _ _ _ _) eqn:Hu; [|done].
  apply pending_token_row in Hu as (r & Hr & Hp & _). by destruct (qt_given _ _ _ Q1 _ _ Ht) as (_ & Hno & _), (Hno r Hr).
Qed.

Lemma commitAbandon_goes w o now since :
  quiet D gap (dw_sys w) -> holding w o since False -> gap <= now - o_last_send o -> goes w (commitAbandon w o now).1.
Proof.
  intros Q (Hm & d & Hd & Ho & Hc & HP) Hgap. assert (Hun : dl_sent d = false) by (by destruct (dl_sent d); [destruct (HP eq_refl)|]).
  unfold commitAbandon. destruct (dwl_abandon w o now) as [Hme (Hn & s1 & s2 & H1 & HQ & H2)].
  destruct (lw_abandon w o now) as [w1 err]. cbn in *. rewrite Hm in H1. rewrite <- (others_held _ _ _ _ _ H1) in Hd.
  assert (Hg : goes w w1 /\ (holding w1 o since False \/ (o_id o, now) ∈ sy_given (dw_sys w1))).
  { destruct HQ as [->|(out & H & ->)].
    - split; [split; [done|]; etrans; by eapply others_any|]. left. rewrite Hme, Hm in H2. split; [congruence|].
      exists d. by rewrite (others_held _ _ _ _ _ H2).
    - split; [split; [done|]|right; eapply (others_given _ _ _ H2); cbn; by left].
      etrans; [by eapply others_any|]. etrans; [|by eapply others_any]. apply rtc_once. exists (Some (o_token o)).
      subst o. by eapply ds_abandon. }
  destruct Hg as [Hg Hcase]. destruct err as [e|]; [|done]. split_if; [done|]. cbn. etrans; [done|].
  destruct Hcase as [Hh|Hgiven]; [by eapply release_goes|]. eapply release_given; [|done].
  eapply delivery_run_quiet; [done|apply Hg].
Qed.

Lemma finalizeSeen_goes w o r now since :
  holding w o since False -> closing r -> goes w (finalizeSeen l w o r now).
Proof.
  intros Hh [_ Hr]. unfold finalizeSeen. destruct (rpcFor o now) as [rpc|]; [|by eapply release_goes].
  unfold finalize. cbv zeta. assert (Hst : (FinalStatus rpc r o =? StatusPending) = false).
  { unfold isSceneTerminal in Hr. unfold FinalStatus. destruct (rs_outcome r =? OUTCOME_APPLIED); [by split_if|].
    cbn in Hr. rewrite Hr. by split_if. }
  rewrite Hst. clear Hst. destruct (dwl_finalize w o (FinalStatus rpc r o) r now) as [Hme Hd].
  destruct (lw_finalize _ _ _ _ _) as [w1 a]. cbn in Hme, Hd. assert (Hg : goes w w1 /\ holding w1 o since False).
  { split; [eapply mine_goes; [done|done|]; intros s s' d [->|(b & out & H & ->)] _ _ _ _;
      [by left|right; exists None; apply ds_table; by eapply ts_finalize]|].
    destruct Hh as (Hm & d & Hd' & HP), Hd as (_ & s1 & s2 & H1 & HQ & H2). rewrite Hme, Hm in H2. rewrite Hm in H1.
    split; [congruence|]. exists d. rewrite (others_held _ _ _ _ _ H2).
    rewrite <- (others_held _ _ _ _ _ H1) in Hd'. by destruct HQ as [->|(b & out & _ & ->)]. }
  destruct Hg as [Hg Hh1]. destruct a as [f|e]; cbn; [done|]. etrans; [done|by eapply release_goes].
Qed.

Lemma abandonOne_goes w id cutoff now :
  quiet D gap (dw_sys w) -> goes w (abandonOne marshal_item marshal_pet sha256 l w id cutoff now).1.
Proof.
  intros Q. unfold abandonOne. destruct (claim l w id) as [w1 c] eqn:Hc.
  destruct (claim_holding _ _ _ _ Hc) as [Hg Hh]. destruct c as [o| |]; [|done..]. specialize (Hh o eq_refl).
  destruct (judgeAbandon _ _ _ l w1 o cutoff now) as [w2 j] eqn:Hj.
  destruct (judgeAbandon_idle _ _ _ _ _ _ Hj) as (Hi & Hseen & Hgap). apply (idle_holding _ _ _ _ _ Hi) in Hh.
  assert (Hg2 : goes w w2) by (etrans; [done|by apply idle_goes]). destruct j as [|why|r]; cbn; (etrans; [done|]).
  - eapply commitAbandon_goes; [|done|by apply Hgap]. eapply delivery_run_quiet; [done|apply Hg2].
  - by eapply release_goes.
  - eapply finalizeSeen_goes; [done|by apply Hseen].
Qed.

Lemma abandon_loop_goes ids w cutoff now n :
  quiet D gap (dw_sys w) -> goes w (abandon_loop marshal_item marshal_pet sha256 l w ids cutoff now n).1.
Proof.
  revert w n. induction ids as [|id ids IH]; intros w n Q; cbn [abandon_loop]; [done|]. split_if; [done|].
  pose proof (abandonOne_goes w id cutoff now Q) as Hg. destruct (abandonOne _ _ _ l w id cutoff now) as [w1 ok]. cbn in Hg.
  etrans; [done|]. apply IH. eapply delivery_run_quiet; [done|apply Hg].
Qed.

Lemma AbandonOnce_goes w cursor now :
  quiet D gap (dw_sys w) -> goes w (AbandonOnce marshal_item marshal_pet sha256 l w cursor now).1.
Proof.
  intros Q. unfold AbandonOnce. split_if; [done|]. cbv zeta. split_if; [done|].
  match goal with |- context [lw_list_abandon w ?b cursor ?n] =>
    pose proof (dwl_list_abandon w b cursor n) as Hi; destruct (lw_list_abandon w b cursor n) as [w1 [ids|e]] end;
    [|by apply idle_goes].
  apply idle_goes in Hi. cbn in Hi. match goal with |- context [abandon_loop _ _ _ l w1 ids ?b now 0] =>
    pose proof (abandon_loop_goes ids w1 b now 0) as Hg; destruct (abandon_loop _ _ _ l w1 ids b now 0) as [w2 n] end.
  cbn in *. etrans; [done|]. apply Hg. eapply delivery_run_quiet; [done|apply Hi].
Qed.
End rounds.
