(* ===== verification/CommerceTick.v ===== *)
(** * Trade: the worker's round

    [Engine.Get], [step], [Tick] and [ackReceipts]
    ([go/trade/internal/commerce/engine.go], [tick_isolation.go]): one round takes
    the due contracts, advances each in transactions of its own, puts off or
    quarantines the ones that fail, and then sends a page of receipts. A round is
    modelled without other writers in between; with them it is a sequence of steps
    of [CommerceRun.run]. *)

From stdpp Require Import base list gmap strings sorting.
From Stdlib Require Import ZArith Lia.
From S2P Require Import Prelude RoleRoute CommerceData CommercePlan AssetOps CommerceStore CommerceMarket CommerceInv CommerceSteps CommerceMutate CommerceAuction CommerceBook CommerceRun AssetOpsThms.
Local Open Scope Z_scope.

(** ** Reading one contract *)
Definition Engine_Get (env : Env) (db : TradeDB) (me id : Z) : res TradeCommerceRecord :=
  match tr_commerce db !! id with
  | None => Err ErrMissing
  | Some r =>
      let open := (r_kind r =? ConsignmentKind) || (r_kind r =? LotKind) in
      if negb (r_seller r =? me) && negb (r_buyer r =? me) && negb open then Err ErrMissing
      else if is_some (en_actor env) && negb open then
        w ← Workflow r;
        if OwnsRecord env r w then Ok r else Err ErrMissing
      else Ok r
  end.

(** ** One row *)
Definition tickDueLimit : nat := 100.
Definition tickAckLimit : nat := 100.

Definition ErrRmbRecovery : error := "commerce: no recovery of real-money sales"%string.

(** What a row is given: the clock, the time left to the round's deadline, the
    identifiers drawn for it, and the jittered delay should it fail. *)
Record RowInput := mkRowInput {
  ri_env : Env; ri_time_left : option Z; ri_ops : list Z; ri_match : Z; ri_delay : error -> Z }.

Section engine.
Context (sha256 : string -> string) (p : Policy).

(** [advance] with its two transactions; the second one may fail alone. *)
Definition advance (env : Env) (ids : list Z) (r : TradeCommerceRecord) (db : TradeDB) : TradeDB * option error :=
  match advance_ensure env r db db with
  | Err e => (db, Some e)
  | Ok db1 =>
      match advance_tx p env ids r db1 with
      | Err e => (db1, Some e)
      | Ok db2 => (db2, None)
      end
  end.

Definition committed (m : res TradeDB) (db : TradeDB) : TradeDB * option error :=
  match m with Ok db' => (db', None) | Err e => (db, Some e) end.

(** An engine without the recovery of real-money sales ([Rmb == nil]); a match
    that fails is only counted. *)
Definition step (i : RowInput) (r : TradeCommerceRecord) (db : TradeDB) : TradeDB * option error :=
  if r_kind r =? RmbKind then (db, Some ErrRmbRecovery)
  else match r_workflow r with
  | None => (db, Some errCorruptContract)
  | Some w =>
      if stage_is w SBidReady then committed (acceptBid (ri_env i) (r_id r) db db) db
      else if stage_is w SBidHeld then committed (settleHeldBid (ri_env i) r db db) db
      else
        let '(db, err) := advance (ri_env i) (ri_ops i) r db in
        match err with
        | Some e => (db, Some e)
        | None =>
            if (r_kind r =? MarketKind) && negb (r_side r =? 0) then
              match matchMarket sha256 (ri_env i) (ri_match i) (r_id r) db db with
              | Ok (_, db') => (db', None)
              | Err _ => (db, None)
              end
            else (db, None)
        end
  end.

Definition step_row (i : RowInput) (r : TradeCommerceRecord) (db : TradeDB) : TradeDB :=
  let '(db, err) := step i r db in
  match err with
  | None => db
  | Some cause => deferCommerce (ri_env i) r cause (ri_delay i cause) db
  end.

(** The loop over the due rows; it stops when the time is up, or with the inputs
    when the round is cancelled. *)
Fixpoint tick_rows (inputs : list RowInput) (rows : list TradeCommerceRecord) (db : TradeDB) : TradeDB :=
  match rows, inputs with
  | r :: rows', i :: inputs' =>
      match rowBudgetFor (ri_time_left i) with
      | None => db
      | Some _ => tick_rows inputs' rows' (step_row i r db)
      end
  | _, _ => db
  end.

(** ** Receipts *)

(** [acknowledge] is [assetop.AcknowledgeReceipt] on a command: [None] when it
    fails, otherwise whether the receipt was taken. *)
Context (acknowledge : Z -> option bool).

Definition ack_one (o : Outbox) (id : Z) : Outbox :=
  match ob_op o !! id with
  | Some r =>
      match op_payload r with
      | None => o
      | Some _ => if bool_decide (acknowledge id = Some true) then Acked o id else o
      end
  | None => o
  end.

(** The outbox and the cursor after one page. *)
Definition ackReceipts (o : Outbox) (ackAfterOpID : Z) : Outbox * Z :=
  let ops := AckDue o ackAfterOpID tickAckLimit in
  let o' := foldl ack_one o ops in
  (o', if (length ops <? tickAckLimit)%nat then 0 else List.last ops ackAfterOpID).

Definition Tick (now : Z) (inputs : list RowInput) (cursor : Z) (db : TradeDB) : TradeDB * Z :=
  let db := tick_rows inputs (Due db now tickDueLimit) db in
  let '(o, cursor) := ackReceipts (tr_outbox db) cursor in
  (with_outbox db o, cursor).

(** ** A round is a run *)

(** [db'] is reached from [db] by steps whose reads see the current database. *)
Definition continues (db db' : TradeDB) : Prop :=
  forall past, run sha256 p past db -> exists past', run sha256 p past' db' /\ forall x, x ∈ db :: past -> x ∈ db' :: past'.

#[local] Instance continues_refl : Reflexive continues.
Proof. intros db past H. by exists past. Qed.

Lemma continues_trans a b c : continues a b -> continues b c -> continues a c.
Proof.
  intros H1 H2 past H. destruct (H1 past H) as (past1 & Hr1 & Hs1). destruct (H2 past1 Hr1) as (past2 & Hr2 & Hs2).
  exists past2. auto.
Qed.

Lemma continues_step db db' : trade_step sha256 p db db db' -> continues db db'.
Proof.
  intros Hs past H. exists (db :: past). split; [|by right]. eapply run_step; [exact H| |exact Hs]. by left.
Qed.

Lemma advance_continues env ids r db : continues db (advance env ids r db).1.
Proof.
  unfold advance. destruct (advance_ensure env r db db) as [db1|] eqn:H1; [|reflexivity].
  assert (H : continues db db1).
  { apply continues_step, s_outside. unfold advance_ensure in H1.
    by apply bind_Ok in H1 as (w & _ & (o & _ & [= <-])%bind_Ok). }
  destruct (advance_tx p env ids r db1) as [db2|] eqn:H2; [|done]. cbn.
  eapply continues_trans; [exact H|]. by eapply continues_step, s_advance.
Qed.

Lemma committed_continues m db :
  (forall db', m = Ok db' -> trade_step sha256 p db db db') -> continues db (committed m db).1.
Proof. intros H. destruct m as [db'|]; cbn; [by apply continues_step, H|reflexivity]. Qed.

Lemma step_continues i r db : continues db (step i r db).1.
Proof.
  unfold step. split_if; [reflexivity|]. destruct (r_workflow r) as [w|]; [|reflexivity].
  split_if; [apply committed_continues; intros; by eapply s_accept|].
  split_if; [apply committed_continues; intros; by eapply s_settle|].
  pose proof (advance_continues (ri_env i) (ri_ops i) r db) as H. destruct (advance _ _ _ _) as [db1 [e|]]; [done|].
  cbn in H. split_if; [|done]. destruct (matchMarket _ _ _ _ _ _) as [[d db2]|] eqn:Hm; [|done]. cbn.
  eapply continues_trans; [exact H|]. by eapply continues_step, s_match.
Qed.

Lemma step_row_continues i r db : continues db (step_row i r db).
Proof.
  unfold step_row. pose proof (step_continues i r db) as H. destruct (step i r db) as [db1 [e|]]; [|done].
  cbn in H. eapply continues_trans; [exact H|]. by eapply continues_step, s_defer.
Qed.

Lemma tick_rows_continues inputs rows db : continues db (tick_rows inputs rows db).
Proof.
  revert inputs db. induction rows as [|r rows IH]; intros inputs db; [by destruct inputs|].
  destruct inputs as [|i inputs]; [reflexivity|]. cbn. destruct (rowBudgetFor _); [|reflexivity].
  eapply continues_trans; [apply step_row_continues|apply IH].
Qed.

Lemma Tick_continues now inputs cursor db : continues db (Tick now inputs cursor db).1.
Proof.
  unfold Tick. cbn. eapply continues_trans; [apply tick_rows_continues|]. by apply continues_step, s_outside.
Qed.
End engine.

(** ** A failed row leaves the queue *)
Lemma Defer_row db r until :
  tr_commerce db !! r_id r = Some r ->
  (Defer db (r_id r) (r_version r) until).2 = with_commerce db (<[r_id r := set_r_updated r until]> (tr_commerce db)).
Proof. intros Hr. unfold Defer. by rewrite Hr, Z.eqb_refl. Qed.

Lemma quarantine_row env db r b db' :
  tr_commerce db !! r_id r = Some r -> quarantine env db r = Ok (b, db') ->
  if b then (exists r', tr_commerce db' = <[r_id r := r']> (tr_commerce db) /\ r_status r' = Manual) else db' = db.
Proof.
  intros Hr. unfold quarantine. rewrite Hr, Z.eqb_refl. cbn. split_if; [by intros [= <- <-]|].
  intros (db1 & Hq & [= <- <-])%bind_Ok. revert Hq. unfold quarantineLockedTx. destruct (r_workflow r).
  - unfold Save. cbn. rewrite Hr, Z.eqb_refl. intros [= <-]. by eexists.
  - unfold SaveStatus. cbn. rewrite Hr, Z.eqb_refl. intros [= <-]. by eexists.
Qed.

Lemma deferred_row env r cause delay db :
  tr_commerce db !! r_id r = Some r -> failureClass cause <> FailureConflict -> 0 < delay ->
  exists r', tr_commerce (deferCommerce env r cause delay db) = <[r_id r := r']> (tr_commerce db) /\
    (r_status r' = Manual \/ en_now env < r_updated r').
Proof.
  intros Hr Hc Hd. unfold deferCommerce.
  assert (Hput : exists r', tr_commerce (Defer db (r_id r) (r_version r) (en_now env + delay)).2 = <[r_id r := r']> (tr_commerce db) /\
            (r_status r' = Manual \/ en_now env < r_updated r')).
  { rewrite Defer_row by done. eexists. split; [done|]. right. cbn. lia. }
  destruct (failureClass cause); try done.
  destruct (quarantine env db r) as [[[] db']|] eqn:Hq; [|done..].
  destruct (quarantine_row _ _ _ _ _ Hr Hq) as (r' & -> & Hm). exists r'. auto.
Qed.

Lemma Due_row db now limit r : r ∈ Due db now limit -> r ∈ commerce_rows db /\ due_status (r_status r) = true /\ r_updated r <= now.
Proof.
  unfold Due. intros H. pose proof (elem_of_sublist _ _ _ H (sublist_take _ _)) as Hs.
  apply elem_of_sort_stable, elem_of_keep_if in Hs as [Hin Hd]. zbool. done.
Qed.

(** ** The rotation of the receipts *)
Definition ackable (r : TradeAssetOpRecord) : bool := op_ack_pending r && (op_status r =? OpApplied) && op_durable r.

Definition ack_due (o : Outbox) : gset Z := dom (filter (fun kv => ackable kv.2 = true) (ob_op o)).

Definition keyed (o : Outbox) : Prop := forall id r, ob_op o !! id = Some r -> op_id r = id.

Lemma elem_of_ack_due o id : id ∈ ack_due o <-> exists r, ob_op o !! id = Some r /\ ackable r = true.
Proof.
  unfold ack_due. rewrite elem_of_dom. split.
  - intros [r Hr]. apply map_lookup_filter_Some in Hr as [Hr Ha]. by exists r.
  - intros (r & Hr & Ha). exists r. by apply map_lookup_filter_Some.
Qed.

Lemma last_elem {A} (l : list A) c : l <> [] -> List.last l c ∈ l.
Proof.
  induction l as [|a [|b l] IH]; intros H; [done|by left|]. right. by apply IH.
Qed.

Lemma AckDue_page o c limit :
  keyed o ->
  let ops := AckDue o c limit in
  NoDup ops /\ (forall x, x ∈ ops -> x ∈ ack_due o /\ c < x) /\
  (forall x, x ∈ ops -> x <= List.last ops c) /\
  (forall d, d ∈ ack_due o -> c < d -> d ∈ ops \/ (length ops = limit /\ forall x, x ∈ ops -> x < d)).
Proof.
  intros Hk. cbv zeta. unfold AckDue. set (l := op_id <$> keep_if _ (op_rows o)).
  assert (Hl : forall x, x ∈ l <-> x ∈ ack_due o /\ c < x).
  { intros x. unfold l. rewrite list_elem_of_fmap, elem_of_ack_due. split.
    - intros (r & -> & [Hr Hp]%elem_of_keep_if). unfold op_rows in Hr.
      apply list_elem_of_fmap in Hr as ([id r'] & -> & Hm%elem_of_map_to_list). cbn in *.
      zbool. split; [|done]. exists r'. rewrite (Hk id r' Hm). split; [done|]. unfold ackable. zbool.
      rewrite !andb_true_iff, Z.eqb_eq. done.
    - intros ((r & Hr & Ha) & Hc). exists r. rewrite (Hk x r Hr). split; [done|]. apply elem_of_keep_if. split.
      + unfold op_rows. apply list_elem_of_fmap. exists (x, r). split; [done|]. by apply elem_of_map_to_list.
      + unfold ackable in Ha. rewrite Ha, (Hk x r Hr). by apply Z.ltb_lt. }
  assert (Hnd : NoDup (sort_stable Z.ltb l)).
  { rewrite sort_stable_perm. unfold l. apply NoDup_fmap_keep_if. unfold op_rows. rewrite <- list_fmap_compose.
    rewrite (list_fmap_ext _ fst); [apply NoDup_fst_map_to_list|]. intros i [id r] Hi. cbn.
    apply Hk. by apply elem_of_map_to_list, list_elem_of_lookup_2 with i. }
  assert (Hin : forall x, x ∈ sort_stable Z.ltb l <-> x ∈ ack_due o /\ c < x) by (intros x; by rewrite elem_of_sort_stable).
  pose proof (ltb_sorted l) as Hs. set (s := sort_stable Z.ltb l) in *. clearbody s. clear Hl l.
  split_and!.
  - eapply sublist_NoDup; [exact Hnd|apply sublist_take].
  - intros x Hx. apply Hin. eapply elem_of_sublist; [exact Hx|apply sublist_take].
  - assert (Hst : StronglySorted (fun a b => (b <? a) = false) (take limit s)).
    { eapply StronglySorted_sublist; [apply sublist_take|exact Hs]. }
    revert Hst. generalize (take limit s) as t. clear. intros t Hst. revert c.
    induction Hst as [|a t Hst IH Hall]; intros c x Hx; [by apply elem_of_nil in Hx|].
    destruct t as [|b t]; [apply list_elem_of_singleton in Hx as ->; cbn; lia|].
    change (List.last (a :: b :: t) c) with (List.last (b :: t) c).
    apply elem_of_cons in Hx as [->|Hx]; [|by apply IH].
    transitivity b; [|apply IH; left]. apply Forall_cons_1 in Hall as [Hab _]. by apply Z.ltb_ge.
  - intros d Hd Hc. assert (Hds : d ∈ s) by by apply Hin. rewrite <- (take_drop limit s) in Hds, Hs, Hnd.
    apply elem_of_app in Hds as [Hds|Hds]; [by left|right]. split.
    + rewrite length_take. apply list_elem_of_lookup in Hds as [i Hi]. rewrite lookup_drop in Hi.
      apply lookup_lt_Some in Hi. lia.
    + intros x Hx. apply NoDup_app in Hnd as (_ & Hdis & _). apply StronglySorted_app in Hs as (Hx' & _ & _).
      specialize (Hx' x d Hx Hds). assert (x <> d) by (intros ->; by apply (Hdis d)). zbool. lia.
Qed.

(** What a page of receipts leaves due. *)
Lemma ack_one_keyed ack o id : keyed o -> keyed (ack_one ack o id).
Proof.
  intros Hk. unfold ack_one. destruct (ob_op o !! id) as [r|]; [|done]. destruct (op_payload r); [|done].
  split_if; [|done]. intros id' r' Hr'. destruct (in_place_back _ _ _ _ (acked_in_place o id) Hr') as (r0 & Hr0 & [[Hid] _]).
  rewrite Hid. by apply Hk.
Qed.

Lemma Acked_row o id id' :
  ob_op (Acked o id) !! id' = ob_op o !! id' \/
  id' = id /\ exists r, ob_op (Acked o id) !! id' = Some r /\ ackable r = false.
Proof.
  unfold Acked, update_op. destruct (ob_op o !! id) as [r|] eqn:Hr; [|by left]. split_if; [|by left].
  destruct (decide (id' = id)) as [->|Hne].
  - right. split; [done|]. eexists. cbn. rewrite lookup_insert_eq. by split.
  - left. cbn. by rewrite lookup_insert_ne.
Qed.

Lemma ack_one_due ack o id d :
  (d ∈ ack_due (ack_one ack o id) -> d ∈ ack_due o) /\ (d ∈ ack_due o -> d <> id -> d ∈ ack_due (ack_one ack o id)).
Proof.
  rewrite !elem_of_ack_due. unfold ack_one. destruct (ob_op o !! id) as [r|] eqn:Hr; [|done].
  destruct (op_payload r); [|done]. split_if; [|done]. destruct (Acked_row o id d) as [->|(-> & x & -> & Hx)]; [done|].
  split; [|done]. intros (y & [= <-] & Hy). by rewrite Hx in Hy.
Qed.

Lemma ack_page_due ack ops o d :
  keyed o ->
  keyed (foldl (ack_one ack) o ops) /\ (d ∈ ack_due (foldl (ack_one ack) o ops) -> d ∈ ack_due o) /\
  (d ∈ ack_due o -> d ∉ ops -> d ∈ ack_due (foldl (ack_one ack) o ops)).
Proof.
  revert o. induction ops as [|id ops IH]; intros o Hk; [done|]. cbn.
  destruct (IH (ack_one ack o id) (ack_one_keyed _ _ _ Hk)) as (Hk' & H1 & H2).
  destruct (ack_one_due ack o id d) as [H3 H4]. split_and!; [done|by auto|].
  intros Hd Hn. apply H2; [apply H4; [done|]|]; set_solver.
Qed.

(** The receipts tried in successive rounds, each with answers of its own. *)
Fixpoint ack_rounds (answers : list (Z -> option bool)) (o : Outbox) (cursor : Z) : list Z :=
  match answers with
  | [] => []
  | ack :: answers' =>
      AckDue o cursor tickAckLimit ++ ack_rounds answers' (ackReceipts ack o cursor).1 (ackReceipts ack o cursor).2
  end.

Section rotation.
Context (d : Z).

Definition due_between (o : Outbox) (a b : Z) : gset Z := filter (fun x => a < x /\ x <= b) (ack_due o).

(** A full page is taken off what is due. *)
Lemma page_shrinks (X Y : gset Z) (ops : list Z) n :
  NoDup ops -> length ops = tickAckLimit -> (forall x, x ∈ ops -> x ∈ X) -> (forall x, x ∈ Y -> x ∈ X /\ x ∉ ops) ->
  (size X <= S n * tickAckLimit)%nat -> (size Y <= n * tickAckLimit)%nat.
Proof.
  intros Hnd Hlen HX HY Hs.
  assert (Hsz : size (list_to_set ops : gset Z) = tickAckLimit) by (by rewrite size_list_to_set).
  assert (Hsub : (size (Y ∪ list_to_set ops) <= size X)%nat).
  { apply subseteq_size. intros x [Hx|Hx]%elem_of_union; [by apply HY|]. apply HX. by apply elem_of_list_to_set in Hx. }
  rewrite size_union in Hsub; [lia|]. intros x Hx Ho. apply elem_of_list_to_set in Ho. by apply (HY x).
Qed.

Lemma rotation_ahead n answers o c :
  keyed o -> d ∈ ack_due o -> c < d -> (size (due_between o c d) <= n * tickAckLimit)%nat ->
  (n <= length answers)%nat -> d ∈ ack_rounds answers o c.
Proof.
  revert answers o c. induction n as [|n IH]; intros answers o c Hk Hd Hc Hs Hn.
  { assert (E : due_between o c d ≡ ∅) by (apply size_empty_iff; lia). exfalso.
    apply (not_elem_of_empty (C := gset Z) d). rewrite <- E. apply elem_of_filter. split; [lia|done]. }
  destruct answers as [|ack answers]; [cbn in Hn; lia|]. cbn [ack_rounds]. apply elem_of_app.
  destruct (AckDue_page o c tickAckLimit Hk) as (Hnd & Hops & Hlast & Hpage).
  destruct (Hpage d Hd Hc) as [|[Hlen Hlt]]; [by left|right]. unfold ackReceipts. cbv zeta. cbn [fst snd].
  set (ops := AckDue o c tickAckLimit) in *. rewrite Hlen, Nat.ltb_irrefl.
  assert (Hlin : List.last ops c ∈ ops).
  { apply last_elem. intros E. by rewrite E in Hlen. }
  assert (Hnot : d ∉ ops) by (intros Hin; specialize (Hlt d Hin); lia).
  destruct (ack_page_due ack ops o d Hk) as (Hk' & _ & Hd'). apply IH; [done|by apply Hd'|by apply Hlt| |cbn in Hn; lia].
  apply (page_shrinks (due_between o c d) _ ops); [done|done| | |done].
  - intros x Hx. apply elem_of_filter. destruct (Hops x Hx). specialize (Hlt x Hx). split; [lia|done].
  - intros x [[Hx1 Hx2] Hx3]%elem_of_filter. destruct (ack_page_due ack ops o x Hk) as (_ & Hx & _).
    split; [|intros Hin; specialize (Hlast x Hin); lia]. apply elem_of_filter. split; [|by apply Hx].
    destruct (Hops _ Hlin). lia.
Qed.

Lemma rotation_behind n m answers o (c : Z) :
  keyed o -> d ∈ ack_due o -> 0 < d -> d <= c -> (size (filter (fun x => c < x)%Z (ack_due o)) <= n * tickAckLimit)%nat ->
  (size (ack_due o) <= m * tickAckLimit)%nat -> (n + 1 + m <= length answers)%nat -> d ∈ ack_rounds answers o c.
Proof.
  revert answers o c. induction n as [|n IH]; intros answers o c Hk Hd H0 Hc Hs Hm Hn;
    (destruct answers as [|ack answers]; [cbn in Hn; lia|]); cbn [ack_rounds]; apply elem_of_app; right;
    destruct (AckDue_page o c tickAckLimit Hk) as (Hnd & Hops & Hlast & Hpage); unfold ackReceipts; cbv zeta; cbn [fst snd];
    set (ops := AckDue o c tickAckLimit) in *;
    assert (Hnot : d ∉ ops) by (intros Hin; destruct (Hops d Hin); lia);
    destruct (ack_page_due ack ops o d Hk) as (Hk' & _ & Hd');
    (destruct (length ops <? tickAckLimit)%nat eqn:Hl;
      [apply (rotation_ahead m); [done|by apply Hd'|done| |cbn in Hn; lia];
       transitivity (size (ack_due o)); [|done]; apply subseteq_size; intros x [_ Hx]%elem_of_filter;
       by apply (ack_page_due ack ops o x Hk)|]); apply Nat.ltb_ge in Hl.
  - exfalso. destruct ops as [|a l]; [cbn in Hl; unfold tickAckLimit in Hl; lia|]. destruct (Hops a ltac:(left)) as [Ha1 Ha2].
    assert (E : filter (fun x => c < x) (ack_due o) ≡ ∅) by (apply size_empty_iff; lia).
    apply (not_elem_of_empty (C := gset Z) a). rewrite <- E. by apply elem_of_filter.
  - assert (Hlen : length ops = tickAckLimit).
    { apply Nat.le_antisymm; [|done]. unfold ops, AckDue. rewrite length_take. lia. }
    assert (Hlin : List.last ops c ∈ ops).
    { apply last_elem. intros E. by rewrite E in Hlen. }
    destruct (Hops _ Hlin) as [_ Hcl].
    apply IH; [done|by apply Hd'|done|lia| | |cbn in Hn; lia].
    + apply (page_shrinks (filter (fun x => c < x) (ack_due o)) _ ops); [done|done| | |done].
      * intros x Hx. apply elem_of_filter. by destruct (Hops x Hx).
      * intros x [Hx1 Hx2]%elem_of_filter. split; [|intros Hin; specialize (Hlast x Hin); lia].
        apply elem_of_filter. split; [lia|]. by apply (ack_page_due ack ops o x Hk).
    + transitivity (size (ack_due o)); [|done]. apply subseteq_size. intros x Hx. by apply (ack_page_due ack ops o x Hk).
Qed.

(** A receipt that stays due is tried within twice the number of pages and one
    round more, wherever the cursor is. *)
Lemma rotation m answers o c :
  keyed o -> d ∈ ack_due o -> 0 < d -> (size (ack_due o) <= m * tickAckLimit)%nat -> (2 * m + 1 <= length answers)%nat ->
  d ∈ ack_rounds answers o c.
Proof.
  intros Hk Hd H0 Hs Hn. destruct (decide (c < d)) as [Hc|Hc].
  - apply (rotation_ahead m); [done..| |lia]. transitivity (size (ack_due o)); [|done]. apply subseteq_size.
    intros x Hx. by apply elem_of_filter in Hx as [_ Hx].
  - apply (rotation_behind m m); [done..|lia| |done|lia]. transitivity (size (ack_due o)); [|done]. apply subseteq_size.
    intros x Hx. by apply elem_of_filter in Hx as [_ Hx].
Qed.
End rotation.
