(* ===== verification/CommerceProps.v ===== *)
(** * Trade: sample runs

    A trade between two players from the request to the delivery, two market
    orders that are ready to trade, and a lot that is bid for twice: computed by
    the operations of the model, the runs the properties are instantiated with. *)
From stdpp Require Import base list gmap strings sorting relations.
From Stdlib Require Import ZArith Lia.
From S2P Require Import Prelude RoleRoute CommerceData CommercePlan AssetOps CommerceStore CommerceMarket CommerceInv CommerceRun CommercePlanThms CommerceObserve CommerceSteps CommerceMutate CommerceAuction CommerceBook CommerceCustody CommerceLiveness AssetOpsThms CommerceTick.
Local Open Scope Z_scope.
Local Open Scope go_scope.

Definition ex_policy : Policy := mkPolicy [7] [] [1] false.
Definition ex_hash (s : string) : string := s.
Definition ex_env (now : Z) : Env := mkEnv None now now.
Definition ex_roles : gmap Z AccountRole :=
  {[ 11 := mkRole "alice"%string 1 0; 22 := mkRole "bob"%string 1 0; 33 := mkRole "carol"%string 1 0 ]}.

Definition ex_db0 : TradeDB := mkTradeDB ∅ (mkOutbox {[ (0, 0) := mkSeqRow 1 1 1 ]} ∅) ∅ ex_roles.

Definition ex_offer : option TradeAssetSelection := Some (mkSelection [(7, 3)] [] 0 0 0).
Definition ex_price : option TradeAssetSelection := Some (mkSelection [] [] 0 1 500).

(** An operation that fails leaves the database as it was. *)
Definition or_stay (m : res TradeDB) (db : TradeDB) : TradeDB := match m with Ok x => x | Err _ => db end.

(** Requests and rounds of the worker; [XEnsure] asks for the rows of the streams,
    [XAnswer] applies commands. *)
Inductive ex_op :=
  | XTrade (newid me : Z) (id : string) (buyer : Z)
  | XOrder (newid me : Z) (id : string) (side price quantity : Z)
  | XLot (newid me : Z) (id : string) (price increment : Z)
  | XBid (newid me lotID : Z) (id : string) (amount : Z)
  | XConfirm (me id : Z)
  | XEnsure (id : Z)
  | XAdvance (id : Z) (ids : list Z)
  | XAnswer (ids : list Z)
  | XAccept (id : Z).

Definition ex_finalize (o : Outbox) (id : Z) : Outbox :=
  match Finalize o id StreamDebit OpApplied (mkResult 0 0 true true false None false false) 0 with
  | Ok (_, o') => o'
  | Err _ => o
  end.

Definition ex_exec (now : Z) (op : ex_op) (db : TradeDB) : TradeDB :=
  let env := ex_env now in
  match op with
  | XTrade newid me id buyer =>
      or_stay (snd <$> CreatePlayerTrade ex_hash ex_policy env db db newid me id "d" buyer ex_offer ex_price) db
  | XOrder newid me id side price quantity =>
      or_stay (snd <$> PlaceMarket ex_hash ex_policy env db db newid me id "d" 1 7 side price (Z.max 0 quantity) 1) db
  | XLot newid me id price increment =>
      or_stay (snd <$> CreateLot ex_hash ex_policy env db db newid me id "d" ex_offer price 1 increment 60000) db
  | XBid newid me lotID id amount =>
      or_stay (snd <$> PlaceBid ex_hash env db db newid me lotID id "d" (Z.max 0 amount)) db
  | XConfirm me id => or_stay (snd <$> Mutate ex_hash env db db me id Confirm) db
  | XEnsure id => or_stay (old ← Get db id; advance_ensure env old db db) db
  | XAdvance id ids => or_stay (old ← Get db id; advance_tx ex_policy env ids old db) db
  | XAnswer ids => with_outbox db (foldl ex_finalize (tr_outbox db) ids)
  | XAccept id => or_stay (acceptBid env id db db) db
  end.

Lemma or_stay_step (m : res TradeDB) db :
  (forall db', m = Ok db' -> trade_step ex_hash ex_policy db db db') ->
  trade_step ex_hash ex_policy db db (or_stay m db).
Proof. intros H. destruct m as [db'|e]; cbn; [by apply H|by apply s_outside]. Qed.

Lemma snd_Ok {A B} (m : res (A * B)) b : snd <$> m = Ok b -> exists a, m = Ok (a, b).
Proof. destruct m as [[a' b']|e]; cbn; [|done]. intros [= ->]. by eexists. Qed.

Lemma ex_offer_ok : selection_ok ex_offer.
Proof. split; [done|]. repeat constructor; done. Qed.
Lemma ex_price_ok : selection_ok ex_price.
Proof. split; [done|constructor]. Qed.

Lemma ex_exec_step now op db : trade_step ex_hash ex_policy db db (ex_exec now op db).
Proof.
  destruct op; cbn [ex_exec]; cbv zeta.
  - apply or_stay_step. intros db' [r H]%snd_Ok. eapply s_player_trade; [exact ex_offer_ok|exact ex_price_ok|exact H].
  - apply or_stay_step. intros db' [r H]%snd_Ok. eapply s_market; [|exact H]. lia.
  - apply or_stay_step. intros db' [r H]%snd_Ok. eapply s_lot; [exact ex_offer_ok|exact H].
  - apply or_stay_step. intros db' [r H]%snd_Ok. eapply s_bid; [|exact H]. lia.
  - apply or_stay_step. intros db' [r H]%snd_Ok. by eapply s_mutate.
  - apply or_stay_step. intros db' (old & _ & H)%bind_Ok. apply s_outside. unfold advance_ensure in H.
    by apply bind_Ok in H as (w & _ & (o & _ & [= <-])%bind_Ok).
  - apply or_stay_step. intros db' (old & _ & H)%bind_Ok. by eapply s_advance.
  - by apply s_outside.
  - apply or_stay_step. intros db' H. by eapply s_accept.
Qed.

(** ** Runs of such operations, one per millisecond from 1000 on *)
Fixpoint ex_ops (now : Z) (ops : list ex_op) (past : list TradeDB) (db : TradeDB) : list TradeDB * TradeDB :=
  match ops with
  | [] => (past, db)
  | op :: ops' => ex_ops (now + 1) ops' (db :: past) (ex_exec now op db)
  end.

Definition ex_past (ops : list ex_op) : list TradeDB := (ex_ops 1000 ops [] ex_db0).1.
Definition ex_db (ops : list ex_op) : TradeDB := (ex_ops 1000 ops [] ex_db0).2.

Lemma ex_run ops : run ex_hash ex_policy (ex_past ops) (ex_db ops).
Proof.
  unfold ex_past, ex_db. assert (H : run ex_hash ex_policy [] ex_db0) by by apply run_start.
  revert H. generalize 1000, (@nil TradeDB), ex_db0. induction ops as [|op ops IH]; intros now past db H; cbn; [done|].
  apply IH. eapply run_step; [exact H| |apply ex_exec_step]. by left.
Qed.

Definition ex_row (ops : list ex_op) (id : Z) : TradeCommerceRecord := default no_commerce (tr_commerce (ex_db ops) !! id).
Definition ex_work (ops : list ex_op) (id : Z) : TradeCommerceWorkflow := default no_workflow (r_workflow (ex_row ops id)).

(** A player trade of three items against 500, complete. *)
Definition ex_trade : list ex_op :=
  [ XTrade 100 11 "request-1" 22;
    XEnsure 100; XAdvance 100 [501]; XAnswer [501]; XAdvance 100 []; XConfirm 22 100;
    XAdvance 100 [502]; XAnswer [502]; XAdvance 100 []; XConfirm 11 100;
    XAdvance 100 [503; 504]; XAnswer [503; 504]; XAdvance 100 [] ].

(** A buyer's order for five at 10 and a younger seller's order of three at 8. *)
Definition ex_market : list ex_op :=
  [ XOrder 201 11 "request-2" 1 10 5; XOrder 202 22 "request-3" 2 8 3;
    XEnsure 201; XAdvance 201 [601]; XAnswer [601]; XAdvance 201 [];
    XEnsure 202; XAdvance 202 [602]; XAnswer [602]; XAdvance 202 [] ].


(** * Trade: the properties of the commerce engine

    What the contracts of a run pay out, where a contract ends, what a market and
    a lot accept, and how the commands behind them are numbered and closed. Each
    property has a witness on one of the runs above or on rows of its own. *)

(** ** Assets of a run *)

(** The sample trade with both sides debited, before and after both confirmed. *)
Definition ex_offered : list ex_op := take 9 ex_trade.
Definition ex_escrowed : list ex_op := take 10 ex_trade.

(** C1: in every database that operations of the engine reach, in any order and
    with reads as old as they may be, the credits the contracts between players
    have issued (those answered with a failure excepted) are worth no more than
    the debits that were applied: of no currency, stack, instance or pet is more
    given out than was taken. *)
Theorem custody_covers_payments sha256 p past db :
  run sha256 p past db ->
  forall a, sumZ (handed_out a) (player_rows db) <= sumZ (taken a) (player_rows db).
Proof. intros [Hm _]%run_ledger a. by apply custody. Qed.

Lemma custody_covers_payments_witness :
  run ex_hash ex_policy (ex_past ex_trade) (ex_db ex_trade) /\
  sumZ (handed_out (Cur 1)) (player_rows (ex_db ex_trade)) <= sumZ (taken (Cur 1)) (player_rows (ex_db ex_trade)).
Proof. split; [exact (ex_run ex_trade)|]. exact (custody_covers_payments ex_hash ex_policy (ex_past ex_trade) (ex_db ex_trade) (ex_run ex_trade) (Cur 1)). Defined.

(** What the answered credits of a contract paid. *)
Definition paid_out (a : asset) (w : TradeCommerceWorkflow) : Z :=
  sumZ (fun l => if l_outcome l =? 2 then leg_out l a else 0) (w_legs w).

Lemma paid_all w a : legs_ok w -> credits_applied w -> paid_out a w = outflow w a.
Proof.
  intros [_ Hok] Hc. unfold paid_out, outflow. apply sumZ_ext. intros l Hl.
  destruct (leg_ok_stream l (Hok l Hl)) as [Hs|Hs].
  - rewrite leg_out_debit by done. by split_if.
  - by rewrite (Hc l Hl Hs).
Qed.

(** C27: a trade between two players or a consignment that ended, as settled or
    as cancelled, has paid out exactly what was taken for it: of every asset the
    applied credits equal the applied debits. *)
Theorem ended_deal_balances sha256 p past db id r w :
  run sha256 p past db -> tr_commerce db !! id = Some r -> r_workflow r = Some w ->
  r_kind r = PlayerTradeKind \/ r_kind r = ConsignmentKind -> w_stage w = SDone ->
  r_status r = Settled \/ r_status r = Cancelled ->
  forall a, paid_out a w = inflow w a.
Proof.
  intros [Hm _]%run_ledger Hr Hw Hk Hst Hs a. destruct (get_row _ _ _ Hm Hr) as (_ & w' & Hw' & Hok).
  rewrite Hw in Hw'. injection Hw' as <-. destruct Hok as [Hl _ _ Hkind].
  assert (balanced w /\ ended r w) as [Hb He].
  { destruct Hk as [Hk|Hk].
    - rewrite kind_player in Hkind by done. destruct Hkind as [_ Hi]. rewrite Hst in Hi. tauto.
    - rewrite kind_consignment in Hkind by done. destruct Hkind as (_ & _ & Hi). rewrite Hst in Hi. tauto. }
  rewrite paid_all by auto. apply Hb.
Qed.

Lemma ended_deal_balances_witness :
  exists w, r_workflow (ex_row ex_trade 100) = Some w /\ w_stage w = SDone /\ r_status (ex_row ex_trade 100) = Settled /\
    paid_out (Itm 7) w = 3 /\ paid_out (Itm 7) w = inflow w (Itm 7).
Proof.
  exists (ex_work ex_trade 100). do 4 (split; [vm_compute; reflexivity|]).
  refine (ended_deal_balances ex_hash ex_policy (ex_past ex_trade) (ex_db ex_trade) 100 (ex_row ex_trade 100) _ (ex_run ex_trade) _ _ _ _ _ (Itm 7));
    first [vm_compute; reflexivity | left; vm_compute; reflexivity].
Defined.

(** The planning of a contract never fails on a row of a run: every row
    decodes, and for every kind but the sales for real money [plan] yields a
    contract, which is well formed again, whatever the time. *)
Theorem plan_never_fails sha256 p past db id r now :
  run sha256 p past db -> tr_commerce db !! id = Some r -> r_kind r <> RmbKind ->
  exists w, r_workflow r = Some w /\ exists r' w', plan p r w now = Ok (r', w') /\ contract_ok r' w'.
Proof.
  intros [Hm _]%run_ledger Hr Hk. destruct (get_row _ _ _ Hm Hr) as (_ & w & Hw & Hok). exists w. split; [done|].
  destruct (plan_sound p r w now Hok Hk) as (r' & w' & Hp). exists r', w'. split; [done|]. by eapply plan_ok.
Qed.

Lemma plan_never_fails_witness :
  exists w, r_workflow (ex_row ex_offered 100) = Some w /\ exists r' w', plan ex_policy (ex_row ex_offered 100) w 5000 = Ok (r', w') /\ contract_ok r' w'.
Proof.
  refine (plan_never_fails ex_hash ex_policy (ex_past ex_offered) (ex_db ex_offered) 100 (ex_row ex_offered 100) 5000 _ _ _).
  - exact (ex_run ex_offered).
  - vm_compute; reflexivity.
  - vm_compute; discriminate.
Defined.

(** C21: a player trade, consignment or lot past its deadline ends, from any stage it
    reaches in a run but the one that waits for an operator, SManual, where a
    quarantine or a deferral puts it: three rounds of planning it and having its
    commands answered bring it to its last stage with every command answered. The
    answers may be any final outcomes, where a debit that was applied comes with a
    snapshot the debited bundle can be transferred from. At the end the credits that
    were issued are worth what was taken, plus, for a sold lot, the winning bid. *)
Theorem expired_contract_ends sha256 p past db id r w now answer :
  run sha256 p past db -> tr_commerce db !! id = Some r -> r_workflow r = Some w ->
  with_deadline r -> r_expires r <= now -> w_stage w <> SManual -> answers_ok answer ->
  exists r' w', rounds p now answer 3 r w = Ok (r', w') /\ w_stage w' = SDone /\ answered w' /\
    forall a, outflow w' a = inflow w' a + (if r_kind r =? LotKind then lot_claim w' a else 0).
Proof.
  intros [Hm _]%run_ledger Hr Hw Hd Hx Hst Ha. destruct (get_row _ _ _ Hm Hr) as (_ & w0 & Hw0 & Hok).
  rewrite Hw in Hw0. injection Hw0 as <-.
  destruct (rounds_end p now answer Ha r w Hok Hd Hx Hst) as (r' & w' & Hro & [_ _ _ Hk] & Hs & Hkind & Hans).
  exists r', w'. split_and!; [done..|]. intros a. destruct Hd as [Hd|[Hd|Hd]]; rewrite Hd in Hkind; rewrite Hd.
  - rewrite kind_player in Hk by done. destruct Hk as [_ Hi]. rewrite Hs in Hi. destruct Hi as (_ & Hb & _).
    cbn. rewrite Hb. lia.
  - rewrite kind_consignment in Hk by done. destruct Hk as (_ & _ & Hi). rewrite Hs in Hi. destruct Hi as (_ & Hb & _).
    cbn. rewrite Hb. lia.
  - rewrite kind_lot in Hk by done. destruct Hk as (_ & _ & Hi). rewrite Hs in Hi. by destruct Hi as (_ & Hb & _).
Qed.

(** Every command refused. *)
Definition ex_refuse (l : TradeCommerceLeg) : Z * option AssetSnapshot := (3, None).

Lemma expired_contract_ends_witness :
  exists w, r_workflow (ex_row ex_offered 100) = Some w /\
  exists r' w', rounds ex_policy 2000000 ex_refuse 3 (ex_row ex_offered 100) w = Ok (r', w') /\ w_stage w' = SDone /\ answered w' /\
    forall a, outflow w' a = inflow w' a + (if r_kind (ex_row ex_offered 100) =? LotKind then lot_claim w' a else 0).
Proof.
  exists (ex_work ex_offered 100). split; [vm_compute; reflexivity|].
  refine (expired_contract_ends ex_hash ex_policy (ex_past ex_offered) (ex_db ex_offered) 100 (ex_row ex_offered 100) _ 2000000 ex_refuse _ _ _ _ _ _ _).
  - exact (ex_run ex_offered).
  - vm_compute; reflexivity.
  - vm_compute; reflexivity.
  - left; vm_compute; reflexivity.
  - vm_compute; discriminate.
  - vm_compute; discriminate.
  - intros l _. split; [discriminate|]. intros _ [=].
Defined.

(** ** What a trade delivers *)
Definition credit (role : string) (to : Z) (b : AssetBundle) : TradeCommerceLeg :=
  mkLeg role to StreamCredit (Some b) 0 None 0.

Lemma applied_custody w role l :
  legs_ok w -> collecting w -> leg w role = Some l -> l_outcome l = 2 ->
  exists b, Transfer (l_bundle l) (l_snapshot l) = Ok b.
Proof.
  intros [_ Hok] Hc [Hl <-]%leg_Some Ho. destruct (Hok l Hl) as [[_ (b & _ & _ & Ht)]|[Hs _]]; [auto|].
  by rewrite (Hc l Hl) in Hs.
Qed.

Lemma addLeg_there w role l player stream b : leg w role = Some l -> addLeg w role player stream b = w.
Proof. unfold addLeg. by intros ->. Qed.

Lemma leg_set_stage w s role : leg (set_stage w s) role = leg w role.
Proof. done. Qed.

Lemma final_credits_skip w ls : collecting w -> final_credits (w_legs w ++ ls) = final_credits ls.
Proof.
  unfold collecting. induction (w_legs w) as [|l legs IH]; intros Hc; [done|]. cbn.
  rewrite (Hc l) by left. cbn. apply IH. intros x Hx. apply Hc. by right.
Qed.

(** The blocks before and after the one at work fall through. *)
Lemma plan_before_escrow p now r w :
  w_stage w = SEscrow ->
  plan_official r w >>> plan_offer_escrow p >>> plan_buyer_escrow p >>> plan_confirm now
    >>> plan_bid_freeze >>> plan_bid_refund = Next r w.
Proof.
  intros Hst. assert (H : forall s, s <> SEscrow -> stage_is w s = false).
  { intros s Hn. apply bool_decide_eq_false_2. congruence. }
  unfold plan_official. rewrite H by done. cbn [then_block].
  unfold plan_offer_escrow. rewrite H by done. cbn [then_block].
  unfold plan_buyer_escrow. rewrite H by done. cbn [then_block].
  unfold plan_confirm. rewrite (H SConfirm), andb_false_r by done. cbn [andb then_block].
  unfold plan_bid_freeze. rewrite H by done. cbn [then_block].
  unfold plan_bid_refund. by rewrite H.
Qed.

Lemma plan_after_escrow now r w :
  w_stage w = SDeliver ->
  Next r w >>> plan_pay >>> plan_lot_sold now >>> plan_expire now >>> plan_cancel >>> plan_finish = plan_finish r w.
Proof.
  intros Hs. assert (H : forall s, s <> SDeliver -> stage_is w s = false).
  { intros s Hn. apply bool_decide_eq_false_2. congruence. }
  cbn [then_block]. unfold plan_pay. rewrite H by done. cbn [then_block].
  unfold plan_lot_sold. rewrite H by done. cbn [andb then_block].
  unfold plan_expire. rewrite (H SOpen), (H SLotOpen) by done. cbn [andb orb then_block].
  unfold plan_cancel. rewrite (H SOpen), (H SLotOpen), (H SMarketOpen), andb_false_r by done. done.
Qed.

Lemma escrow_crosswise p r w a b ca cb :
  legs_ok w -> player_trade_inv r w -> r_kind r = PlayerTradeKind -> w_stage w = SEscrow ->
  leg w "seller_debit" = Some a -> leg w "buyer_debit" = Some b -> l_outcome a = 2 -> l_outcome b = 2 ->
  Snapshot p (l_snapshot a) = true -> Snapshot p (l_snapshot b) = true ->
  Transfer (l_bundle a) (l_snapshot a) = Ok ca -> Transfer (l_bundle b) (l_snapshot b) = Ok cb ->
  plan_escrow p r w = Next (set_r_status r Delivering)
    (set_stage (set_legs w (w_legs w ++ [credit "seller_receive" (r_seller r) cb;
                                         credit "buyer_receive" (r_buyer r) ca])) SDeliver).
Proof.
  intros Hl [Hd Hc] Hkind Hst Ha Hb Hoa Hob Hsa Hsb Hca Hcb. rewrite Hst in Hc.
  assert (Hfresh : forall role, role ∉ ["seller_debit"; "buyer_debit"]%string -> leg w role = None).
  { intros role. by apply collecting_leg_None. }
  unfold plan_escrow, stage_is. rewrite bool_decide_eq_true_2 by done. rewrite Hkind. cbn [Z.eqb Pos.eqb].
  rewrite (addLeg_there w _ _ _ _ _ Ha). cbv zeta. cbn. rewrite (addLeg_there w _ _ _ _ _ Hb), Ha, Hb.
  cbn. rewrite Hoa, Hob. cbn. rewrite Hsa, Hsb. cbn. rewrite Hcb. cbn. rewrite Hca. cbn.
  rewrite (addLeg_fresh (set_stage w SDeliver)) by (apply Hfresh; set_solver).
  rewrite addLeg_fresh; [cbn; by rewrite <- app_assoc|].
  rewrite (leg_app (set_stage w SDeliver)), leg_set_stage, Hfresh by set_solver. done.
Qed.

(** When both sides of a player trade are escrowed and allowed, planning
    the contract issues exactly two credits, crosswise: the buyer's custody to
    the seller and the seller's custody to the buyer. *)
Theorem escrow_delivers_crosswise p r w now a b :
  contract_ok r w -> r_kind r = PlayerTradeKind -> w_stage w = SEscrow ->
  leg w "seller_debit" = Some a -> leg w "buyer_debit" = Some b ->
  l_outcome a = 2 -> l_outcome b = 2 ->
  Snapshot p (l_snapshot a) = true -> Snapshot p (l_snapshot b) = true ->
  exists ca cb, Transfer (l_bundle a) (l_snapshot a) = Ok ca /\ Transfer (l_bundle b) (l_snapshot b) = Ok cb /\
    plan p r w now = Ok (set_r_status r Delivering,
      set_stage (set_legs w (w_legs w ++ [credit "seller_receive" (r_seller r) cb;
                                          credit "buyer_receive" (r_buyer r) ca])) SDeliver).
Proof.
  intros [Hl _ _ Hk] Hkind Hst Ha Hb Hoa Hob Hsa Hsb. rewrite kind_player in Hk by done.
  assert (Hc : collecting w) by (destruct Hk as [_ Hc]; by rewrite Hst in Hc).
  destruct (applied_custody _ _ _ Hl Hc Ha Hoa) as [ca Hca]. destruct (applied_custody _ _ _ Hl Hc Hb Hob) as [cb Hcb].
  exists ca, cb. split_and!; [done..|]. unfold plan. rewrite Hkind. change (PlayerTradeKind =? RmbKind) with false. cbv iota.
  rewrite plan_before_escrow by done. cbn [then_block]. rewrite (escrow_crosswise p r w a b ca cb) by done.
  rewrite plan_after_escrow by done. unfold plan_finish, finalCredits. cbn. by rewrite final_credits_skip.
Qed.

Definition ex_leg (role : string) : TradeCommerceLeg :=
  default (mkLeg "" 0 0 None 0 None 0) (leg (ex_work ex_escrowed 100) role).

Lemma escrow_delivers_crosswise_witness :
  exists ca cb, Transfer (l_bundle (ex_leg "seller_debit")) (l_snapshot (ex_leg "seller_debit")) = Ok ca /\
    Transfer (l_bundle (ex_leg "buyer_debit")) (l_snapshot (ex_leg "buyer_debit")) = Ok cb /\
    plan ex_policy (ex_row ex_escrowed 100) (ex_work ex_escrowed 100) 1007 = Ok (set_r_status (ex_row ex_escrowed 100) Delivering,
      set_stage (set_legs (ex_work ex_escrowed 100) (w_legs (ex_work ex_escrowed 100)
        ++ [credit "seller_receive" 11 cb; credit "buyer_receive" 22 ca])) SDeliver).
Proof.
  refine (escrow_delivers_crosswise ex_policy (ex_row ex_escrowed 100) (ex_work ex_escrowed 100) 1007
    (ex_leg "seller_debit") (ex_leg "buyer_debit") _ _ _ _ _ _ _ _ _); try (vm_compute; reflexivity).
  apply (run_contract ex_hash ex_policy (ex_past ex_escrowed) (ex_db ex_escrowed) 100); [exact (ex_run ex_escrowed)|vm_compute; reflexivity..].
Defined.

(** ** The market *)
Lemma counterparty_total taker : 
  (forall a b c, counterparty_less taker b a = false -> counterparty_less taker c b = false ->
     counterparty_less taker c a = false) /\
  (forall a b, counterparty_less taker a b = true -> counterparty_less taker b a = false).
Proof.
  split.
  - intros a b c. unfold counterparty_less. repeat split_if; zbool; try done; try lia.
  - intros a b. unfold counterparty_less. repeat split_if; zbool; try done; try lia.
Qed.

(** The counterparty of a market order is the best one of the book: it is an
    order of the other side for the same goods at an acceptable price, of another
    player, with a remainder; no such order has a better price, and none of the
    same price is older. Without one the book has no such order. *)
Theorem best_counterparty db taker :
  match marketCounterparty db taker with
  | Some id => exists c, c ∈ commerce_rows db /\ r_id c = id /\ counterparty_of taker c = true /\
      forall o, o ∈ commerce_rows db -> counterparty_of taker o = true ->
        (if r_side taker =? 1 then r_unit_price c <= r_unit_price o else r_unit_price o <= r_unit_price c) /\
        (r_unit_price o = r_unit_price c -> r_created c <= r_created o)
  | None => forall o, o ∈ commerce_rows db -> counterparty_of taker o = false
  end.
Proof.
  unfold marketCounterparty. set (l := keep_if _ _). destruct (counterparty_total taker) as [Ht Ha].
  pose proof (sort_stable_sorted (counterparty_less taker) l Ht Ha) as Hs.
  pose proof (elem_of_sort_stable (counterparty_less taker) l) as Hin.
  destruct (sort_stable (counterparty_less taker) l) as [|c rest].
  - intros o Ho. destruct (counterparty_of taker o) eqn:E; [|done].
    assert (o ∈ @nil TradeCommerceRecord) as []%elem_of_nil by (apply Hin, elem_of_keep_if; done).
  - assert (Hc : c ∈ l) by (apply Hin; left). apply elem_of_keep_if in Hc as [Hc1 Hc2]. exists c. split_and!; [done..|].
    intros o Ho Heo. assert (Hol : o ∈ c :: rest) by (apply Hin, elem_of_keep_if; done).
    assert (Hl : counterparty_less taker o c = false \/ o = c).
    { apply elem_of_cons in Hol as [->|Hol]; [by right|left]. apply StronglySorted_inv in Hs as [_ Hs].
      rewrite Forall_forall in Hs. by apply Hs. }
    destruct Hl as [Hl| ->]; [|split_if; lia]. revert Hl. unfold counterparty_less.
    repeat split_if; zbool; try lia.
Qed.

(** The order that was made first, by its time and then by its number. *)
Definition made_before (a b : TradeCommerceRecord) : Prop :=
  r_created a < r_created b \/ r_created a = r_created b /\ r_id a < r_id b.

Lemma older_first a b : (made_before a b -> older a b = a) /\ (made_before b a -> older a b = b).
Proof. unfold older, made_before. split; intros H; split_if; zbool; try done; lia. Qed.

(** C29: two open orders of a run, a purchase and a sale of the same goods, trade
    whenever neither is cancelled or filled, their prices meet and their players
    differ; when they do not trade nothing changes. A trade is at the price of the
    order that was made first, which both accept, for the smaller of the two
    remainders: the goods go to the buyer, quantity times price to the seller, and
    the difference to what the buyer had put up back to him, in exactly these
    amounts, without overflow; both orders are filled by the quantity, and neither
    beyond its own. *)
Theorem match_at_older_price sha256 p past db env mid key a aw b bw db' :
  run sha256 p past db ->
  tr_commerce db !! r_id a = Some a -> r_workflow a = Some aw ->
  tr_commerce db !! r_id b = Some b -> r_workflow b = Some bw ->
  r_kind a = MarketKind -> r_kind b = MarketKind ->
  r_side a = 1 /\ r_side b = 2 \/ r_side a = 2 /\ r_side b = 1 ->
  r_item_config a = r_item_config b -> r_currency a = r_currency b ->
  match_orders env mid key db a aw b bw = Ok db' ->
  db' = db /\ no_trade a aw b bw \/
  exists buy sell price qty child cw a' b',
    (a = buy /\ b = sell \/ b = buy /\ a = sell) /\ r_side buy = 1 /\
    (made_before a b -> price = r_unit_price a) /\ (made_before b a -> price = r_unit_price b) /\ r_unit_price sell <= price <= r_unit_price buy /\
    0 < qty /\ qty = Z.min (r_quantity buy - r_filled buy) (r_quantity sell - r_filled sell) /\
    tr_commerce db' !! mid = Some child /\ r_workflow child = Some cw /\ w_legs cw = match_legs buy sell price qty /\
    tr_commerce db' !! r_id a = Some a' /\ r_filled a' = r_filled a + qty /\ r_filled a' <= r_quantity a' /\
    tr_commerce db' !! r_id b = Some b' /\ r_filled b' = r_filled b + qty /\ r_filled b' <= r_quantity b'.
Proof.
  intros [Hm _]%run_ledger Ha Haw Hb Hbw Hka Hkb Hsides Hitem Hcur H.
  destruct (match_orders_trade _ _ _ _ _ _ _ _ _ Hm Ha Haw Hb Hbw Hka Hkb Hsides Hitem Hcur H)
    as [Hno|(buy & bwf & sell & swf & price & qty & [Hcase [Hao Hbo] Hp [Hpe Hpr] [Hq Hq0] (db1 & db2 & Hi & Hs & Hs')])];
    [by left|right].
  assert (Hopen : open_order buy bwf /\ open_order sell swf) by (by destruct Hcase as [(-> & -> & -> & ->)|(-> & -> & -> & ->)]).
  destruct (fill_filled a aw qty Hao) as [Hfa Hta]; [destruct Hcase as [(-> & _ & -> & _)|(-> & _ & -> & _)]; lia|].
  destruct (fill_filled b bw qty Hbo) as [Hfb Htb]; [destruct Hcase as [(-> & _ & -> & _)|(-> & _ & -> & _)]; lia|].
  assert (Hne : r_id b <> r_id a).
  { intros Heq. rewrite Heq, Ha in Hb. injection Hb as ->. destruct Hsides; lia. }
  apply Insert_Ok in Hi as (Hmid & _ & ->). cbn in Hmid. assert (Hma : mid <> r_id a) by congruence. assert (Hmb : mid <> r_id b) by congruence.
  apply (Save_self _ a) in Hs; [|cbn; by rewrite lookup_insert_ne|by rewrite (st_id _ _ Hta)]. subst db2.
  apply (Save_self _ b) in Hs'; [|cbn; by rewrite !lookup_insert_ne|by rewrite (st_id _ _ Htb)]. subst db'.
  exists buy, sell, price, qty. do 4 eexists. split_and!.
  - destruct Hcase; tauto.
  - apply Hp.
  - intros Hfirst. by rewrite Hpe, (proj1 (older_first a b) Hfirst).
  - intros Hfirst. by rewrite Hpe, (proj2 (older_first a b) Hfirst).
  - lia.
  - lia.
  - done.
  - done.
  - cbn. rewrite !lookup_insert_ne by done. apply lookup_insert_eq.
  - done.
  - by eapply match_workflow_legs; try apply Hopen; try done; lia.
  - cbn. rewrite lookup_insert_ne by done. apply lookup_insert_eq.
  - done.
  - cbn. rewrite Hfa. destruct Hcase as [(-> & _ & -> & _)|(-> & _ & -> & _)]; lia.
  - cbn. apply lookup_insert_eq.
  - done.
  - cbn. rewrite Hfb. destruct Hcase as [(-> & _ & -> & _)|(-> & _ & -> & _)]; lia.
Qed.

Definition ex_matched : TradeDB :=
  or_stay (match_orders (ex_env 1100) 400 "key" (ex_db ex_market) (ex_row ex_market 201) (ex_work ex_market 201)
             (ex_row ex_market 202) (ex_work ex_market 202)) (ex_db ex_market).

Lemma match_at_older_price_witness :
  exists child cw, tr_commerce ex_matched !! 400 = Some child /\ r_workflow child = Some cw /\
    w_legs cw = match_legs (ex_row ex_market 201) (ex_row ex_market 202) 10 3.
Proof.
  destruct (match_at_older_price ex_hash ex_policy (ex_past ex_market) (ex_db ex_market) (ex_env 1100) 400 "key"
    (ex_row ex_market 201) (ex_work ex_market 201) (ex_row ex_market 202) (ex_work ex_market 202) ex_matched)
    as [[H _]|(buy & sell & price & qty & child & cw & a' & b' & Hr & Hs & Hp & _ & _ & _ & Hq & Hc & Hw & Hl & _)];
    try (vm_compute; reflexivity).
  - exact (ex_run ex_market).
  - left; split; vm_compute; reflexivity.
  - apply (f_equal (fun d => is_some (tr_commerce d !! 400))) in H. vm_compute in H. discriminate H.
  - exists child, cw. split; [exact Hc|]. split; [exact Hw|].
    destruct Hr as [[<- <-]|[<- <-]]; [|vm_compute in Hs; discriminate Hs].
    specialize (Hp ltac:(vm_compute; by auto)). vm_compute in Hp. vm_compute in Hq. rewrite Hl, Hp, Hq. reflexivity.
Defined.












(** ** Requests *)
Lemma run_keys sha256 p past db : run sha256 p past db -> keys_unique (tr_commerce db).
Proof.
  induction 1 as [db Hdb|past probe db db' Hrun IH Hin Hstep].
  - rewrite Hdb. intros i j x y Hx. by rewrite lookup_empty in Hx.
  - destruct (run_ledger _ _ _ _ Hrun) as [Hm Hpast]. destruct (Hpast probe Hin) as [Hpm Hpo].
    destruct (trade_step_keeps _ _ _ _ _ Hpo Hpm Hstep Hm) as [_ Ho]. by apply (ob_keys _ _ Ho).
Qed.

Lemma replayed_inv env db old digest answer :
  replayed env db old digest = Ok answer -> answer = old /\ r_request_digest old = digest.
Proof.
  unfold replayed. split_if; [done|]. zbool. by intros (u & _ & [= <-])%bind_Ok.
Qed.

Lemma priorRequest_inv sha256 env db player id digest answer :
  priorRequest sha256 env db player id digest = Ok answer ->
  match answer with
  | Some old => ByRequest db (RequestKey sha256 "player" player id) = Some old /\ r_request_digest old = digest
  | None => ByRequest db (RequestKey sha256 "player" player id) = None
  end.
Proof.
  unfold priorRequest. split_if; [done|]. destruct (ByRequest db _) as [old|] eqn:E; [|by intros [= <-]].
  by intros (x & [-> Hd]%replayed_inv & [= <-])%bind_Ok.
Qed.

(** C25: a request is answered once: when a contract of a request is in an earlier
    database of a run, repeating the request, with whatever reads and terms,
    creates nothing. It answers with that contract, and only if its digest is the
    one the contract was created with. *)
Theorem request_answered_once sha256 p past db env probe seen newid player id digest r w r0 answer db' :
  run sha256 p past db -> probe ∈ db :: past -> seen ∈ db :: past ->
  r0 ∈ commerce_rows seen -> r_request_key r0 = RequestKey sha256 "player" player id ->
  Create sha256 env probe db newid player id digest r w = Ok (answer, db') ->
  db' = db /\ r_id answer = r_id r0 /\ r_request_digest r0 = digest.
Proof.
  intros Hrun Hp Hs [i Hi]%commerce_row Hk H. pose proof (run_keys _ _ _ _ Hrun) as Hu.
  destruct (run_ledger _ _ _ _ Hrun) as [Hm Hpast]. destruct (Hpast _ Hs) as [Hsm Hso]. destruct (Hpast _ Hp) as [Hpm Hpo].
  destruct (ob_rows _ _ Hso _ _ Hi) as (r1 & Hr1 & Ht1).
  assert (Hone : forall j x, tr_commerce db !! j = Some x -> r_request_key x = RequestKey sha256 "player" player id ->
            r_id x = r_id r0 /\ r_request_digest x = r_request_digest r0).
  { intros j x Hx Hkx. assert (j = i) as -> by (eapply Hu; [exact Hx|exact Hr1|]; by rewrite (st_key _ _ Ht1), Hk).
    rewrite Hr1 in Hx. injection Hx as <-. by rewrite (st_id _ _ Ht1), (st_digest _ _ Ht1). }
  unfold Create in H. apply bind_Ok in H as (old & Hold%priorRequest_inv & H). destruct old as [old|].
  - injection H as <- <-. destruct Hold as [[[j Hj] Hkey]%ByRequest_Some Hd].
    destruct (ob_rows _ _ Hpo _ _ Hj) as (x & Hx & Htx). destruct (Hone j x Hx) as [H1 H2]; [by rewrite (st_key _ _ Htx)|].
    rewrite <- H1, <- H2, (st_id _ _ Htx), (st_digest _ _ Htx). done.
  - cbv zeta in H. set (rn := set_r_version _ _) in H.
    destruct (create_tx env db rn w) as [[a0 db0]|e] eqn:Hc.
    { exfalso. unfold create_tx in Hc. apply bind_Ok in Hc as (u & _ & (u2 & _ & Hc)%bind_Ok).
      apply bind_Ok in Hc as (s & _ & Hc). cbv zeta in Hc. apply bind_Ok in Hc as (b & _ & Hc). cbv zeta in Hc.
      apply bind_Ok in Hc as (db1 & (_ & Hnew & _)%Insert_Ok & _). apply (Hnew _ _ Hr1). by rewrite (st_key _ _ Ht1). }
    destruct (ByRequest db (r_request_key rn)) as [x|] eqn:Hx; [|done].
    apply bind_Ok in H as (y & [-> Hd]%replayed_inv & [= <- <-]).
    apply ByRequest_Some in Hx as [[j Hj] Hkx]. destruct (Hone j x Hj Hkx) as [-> <-]. done.
Qed.

Lemma request_answered_once_witness :
  Create ex_hash (ex_env 5000) (ex_db ex_trade) (ex_db ex_trade) 999 11 "request-1" "d" no_commerce no_workflow
      = Ok (ex_row ex_trade 100, ex_db ex_trade) /\
  ex_db ex_trade = ex_db ex_trade /\ r_id (ex_row ex_trade 100) = r_id (ex_row ex_trade 100) /\
  r_request_digest (ex_row ex_trade 100) = "d"%string.
Proof.
  split; [vm_compute; reflexivity|].
  apply (request_answered_once ex_hash ex_policy (ex_past ex_trade) (ex_db ex_trade) (ex_env 5000) (ex_db ex_trade)
    (ex_db ex_trade) 999 11 "request-1" "d" no_commerce no_workflow (ex_row ex_trade 100) (ex_row ex_trade 100)
    (ex_db ex_trade) (ex_run ex_trade)).
  - by left.
  - by left.
  - apply commerce_row. exists 100. vm_compute. reflexivity.
  - vm_compute. reflexivity.
  - vm_compute. reflexivity.
Defined.

(** A contract that ended is final: no request of a player changes the
    database, and, unless it is a market order, which may still be waiting for
    its fills, planning it again gives it back as it is. *)
Theorem ended_contract_is_final sha256 p env probe db me id a answer db' r w :
  tr_commerce db !! id = Some r -> r_workflow r = Some w -> w_stage w = SDone ->
  (Mutate sha256 env probe db me id a = Ok (answer, db') -> db' = db) /\
  (forall now, r_kind r <> RmbKind -> plan p r w now = Ok (r, w)) /\
  (r_kind r <> MarketKind \/ r_side r = 0 -> marketBarrier db r w = (r, w)).
Proof.
  intros Hr Hw Hst.
  assert (Hs : forall s, s <> SDone -> stage_is w s = false) by (intros s Hn; apply bool_decide_eq_false_2; congruence).
  split_and!.
  - unfold Mutate, mutate_tx. intros (before & _ & (u & _ & H)%bind_Ok)%bind_Ok. rewrite Hr in H.
    unfold Workflow in H. rewrite Hw in H. cbn in H. revert H. split_if; [done|]. intros (u1 & _ & H)%bind_Ok.
    apply bind_Ok in H as ([decided o] & Ha & H).
    assert (decided = None) as ->; [|by injection H as _ <-].
    destruct a as [|ids| |]; [| | |done].
    + apply bind_Ok in Ha as (c & Hc & _). unfold mutate_confirm in Hc. rewrite (Hs SConfirm), orb_true_r in Hc by done. done.
    + apply bind_Ok in Ha as (c & Hc & [= <- _]). unfold mutate_buy in Hc. destruct ids as [|request [|]]; try done.
      revert Hc. split_if; [done|]. cbv zeta. split_if; [split_if; [by intros [= <-]|done]|]. split_if; [by intros [= <-]|].
      rewrite (Hs SOpen), orb_true_r by done. done.
    + apply bind_Ok in Ha as (c & Hc & [= <- _]). unfold mutate_cancel in Hc.
      revert Hc. split_if; [done|]. split_if; [by intros [= <-]|]. rewrite !Hs by done.
      by rewrite ?orb_false_r, ?andb_false_r.
  - intros now Hk. apply plan_idle; [done|by rewrite Hst].
  - intros Hm. unfold marketBarrier. destruct (negb (r_kind r =? MarketKind) || (r_side r =? 0)) eqn:E; [done|]. exfalso. zlia.
Qed.

Lemma ended_contract_is_final_witness :
  (Mutate ex_hash (ex_env 5000) (ex_db ex_trade) (ex_db ex_trade) 11 100 CancelAction = Ok (no_commerce, ex_db0) -> ex_db0 = ex_db ex_trade) /\
  (forall now, r_kind (ex_row ex_trade 100) <> RmbKind -> plan ex_policy (ex_row ex_trade 100) (ex_work ex_trade 100) now = Ok (ex_row ex_trade 100, ex_work ex_trade 100)) /\
  (r_kind (ex_row ex_trade 100) <> MarketKind \/ r_side (ex_row ex_trade 100) = 0 ->
     marketBarrier (ex_db ex_trade) (ex_row ex_trade 100) (ex_work ex_trade 100) = (ex_row ex_trade 100, ex_work ex_trade 100)).
Proof.
  refine (ended_contract_is_final ex_hash ex_policy (ex_env 5000) (ex_db ex_trade) (ex_db ex_trade) 11 100 CancelAction
    no_commerce ex_db0 (ex_row ex_trade 100) (ex_work ex_trade 100) _ _ _); vm_compute; reflexivity.
Defined.

(** ** The worker *)

(** A round of the worker is a run: whatever contracts are due, whatever
    fails, and wherever its time ends, the database it leaves is one that single
    transactions reach, after all the databases before it. *)
Theorem round_is_run sha256 p ack now inputs cursor past db :
  run sha256 p past db ->
  exists past', run sha256 p past' (Tick sha256 p ack now inputs cursor db).1 /\
    forall x, x ∈ db :: past -> x ∈ (Tick sha256 p ack now inputs cursor db).1 :: past'.
Proof. intros H. by apply (Tick_continues sha256 p ack now inputs cursor db). Qed.

Definition ex_input (ops : list Z) : RowInput := mkRowInput (ex_env 2000) (Some 3000000000) ops 400 (fun _ => 10000).

Lemma round_is_run_witness :
  exists past', run ex_hash ex_policy past'
    (Tick ex_hash ex_policy (fun _ => None) 2000 [ex_input [801]; ex_input [802]] 0 (ex_db (take 2 ex_market))).1 /\
    forall x, x ∈ ex_db (take 2 ex_market) :: ex_past (take 2 ex_market) ->
      x ∈ (Tick ex_hash ex_policy (fun _ => None) 2000 [ex_input [801]; ex_input [802]] 0 (ex_db (take 2 ex_market))).1 :: past'.
Proof.
  exact (round_is_run ex_hash ex_policy (fun _ => None) 2000 [ex_input [801]; ex_input [802]] 0
    (ex_past (take 2 ex_market)) (ex_db (take 2 ex_market)) (ex_run (take 2 ex_market))).
Defined.

(** A contract whose step fails leaves the queue: unless the failure was a
    race with another writer, it is not among the due contracts of that moment any
    more, because it is put off or quarantined; and no other contract changes. A
    row that always fails cannot keep the others from their turn. *)
Theorem failed_row_leaves_queue sha256 p past db env limit r cause delay :
  run sha256 p past db -> r ∈ Due db (en_now env) limit ->
  failureClass cause <> FailureConflict -> 0 < delay ->
  (forall limit' r', r' ∈ Due (deferCommerce env r cause delay db) (en_now env) limit' -> r_id r' <> r_id r) /\
  (forall id, id <> r_id r -> tr_commerce (deferCommerce env r cause delay db) !! id = tr_commerce db !! id).
Proof.
  intros [Hm _]%run_ledger (Hin & _ & _)%Due_row Hc Hd. apply commerce_row in Hin as [id Hid].
  destruct (get_row _ _ _ Hm Hid) as (<- & _). destruct (deferred_row env r cause delay db Hid Hc Hd) as (r1 & Heq & Hr1).
  split.
  - intros limit' r' (Hin' & Hs & Hu)%Due_row Hr'. apply commerce_row in Hin' as [id' Hid'].
    assert (Hm' : ledger (tr_commerce (deferCommerce env r cause delay db))) by by apply deferCommerce_step.
    destruct (get_row _ _ _ Hm' Hid') as (Hid2 & _). subst id'.
    rewrite Heq, Hr', lookup_insert_eq in Hid'. injection Hid' as <-. destruct Hr1 as [Hr1|Hr1]; [|lia].
    by rewrite Hr1 in Hs.
  - intros id Hne. by rewrite Heq, lookup_insert_ne.
Qed.

Lemma failed_row_leaves_queue_witness :
  ex_row ex_market 201 ∈ Due (ex_db ex_market) 1100 100 /\
  (forall limit' r', r' ∈ Due (deferCommerce (ex_env 1100) (ex_row ex_market 201) "timeout" 10000 (ex_db ex_market)) 1100 limit' ->
     r_id r' <> 201) /\
  (forall id, id <> 201 -> tr_commerce (deferCommerce (ex_env 1100) (ex_row ex_market 201) "timeout" 10000 (ex_db ex_market)) !! id
     = tr_commerce (ex_db ex_market) !! id).
Proof.
  assert (H : ex_row ex_market 201 ∈ Due (ex_db ex_market) 1100 100) by (vm_compute; left).
  split; [exact H|].
  apply (failed_row_leaves_queue ex_hash ex_policy (ex_past ex_market) (ex_db ex_market) (ex_env 1100) 100 (ex_row ex_market 201)
    "timeout" 10000 (ex_run ex_market) H); [vm_compute; discriminate|lia].
Defined.
