(* ===== verification/AssetOpsProps.v ===== *)
(** * Trade: the properties of the command outbox

    A command is closed once and for all, its number is never given again, the
    window of pending commands keeps its limits, and a lease shuts others out. The last
    part is the transaction that is run again after a retryable error. *)

From stdpp Require Import base list gmap strings sorting relations.
From Stdlib Require Import ZArith Lia SpecFloat.
From S2P Require Import Prelude CommerceData AssetOps CommerceInv AssetOpsThms CommerceTick AssetWire.
Local Open Scope Z_scope.

(** ** A sample run: two streams, one command issued, claimed and applied *)
Definition ex_op (id seq : Z) : TradeAssetOpRecord :=
  mkOp id 11 StreamDebit 5 seq KindEscrowDebit OpPending false 0 10 1000 0 0 3 RefKindOrder 100
    (Some no_bundle) 0 0 10 10 "" "" 0 NoBlob false false.

Definition ex_result : Result := mkResult 1 0 true true false None false false.

Definition ok_or {A} (m : res A) (a : A) : A := match m with Ok x => x | Err _ => a end.

Definition ex_o1 : Outbox := ok_or (EnsureSeqGuardRow empty_outbox 5) empty_outbox.
Definition ex_o2 : Outbox := ok_or (EnsureSeqRows ex_o1 ex_o1 5 [(11%Z, StreamDebit); (11%Z, StreamCredit)]) ex_o1.
Definition ex_o3 : Outbox := ok_or (issue ex_o2 10 (ex_op 900 1)) ex_o2.
Definition ex_o4 : Outbox := (Claim ex_o3 900 20 50 70 1234).1.
Definition ex_o5 : Outbox := (ok_or (Finalize ex_o4 900 StreamDebit OpApplied ex_result 30) (false, ex_o4)).2.
Definition ex_o6 : Outbox := ok_or (issue ex_o5 40 (ex_op 901 2)) ex_o5.

Lemma ex_room o k n :
  (forall row, ob_seq o !! k = Some row -> sq_next row = n) -> n + 1 < u64_mod ->
  forall row, ob_seq o !! k = Some row -> sq_next row + 1 < u64_mod.
Proof. intros H Hn row Hr. by rewrite (H row Hr). Qed.

Lemma ex_outbox_4 : rtc outbox_step empty_outbox ex_o4.
Proof.
  eapply rtc_l; [apply (os_guard _ 5 ex_o1); vm_compute; reflexivity|].
  eapply rtc_l; [apply (os_ensure _ ex_o1 5 [(11%Z, StreamDebit); (11%Z, StreamCredit)] ex_o2); vm_compute; reflexivity|].
  eapply rtc_l; [apply (os_issue _ 10 (ex_op 900 1) ex_o3)|].
  { reflexivity. }
  { apply (ex_room _ _ 1); [|reflexivity]. intros row Hr. vm_compute in Hr. by injection Hr as <-. }
  { vm_compute. reflexivity. }
  eapply rtc_l; [apply (os_claim _ 900 20 50 70 1234)|]. apply rtc_refl.
Qed.

Lemma ex_outbox_5 : rtc outbox_step empty_outbox ex_o5.
Proof.
  eapply rtc_r; [exact ex_outbox_4|].
  apply (os_finalize _ 900 StreamDebit OpApplied ex_result 30 true ex_o5). vm_compute. reflexivity.
Qed.

Lemma ex_outbox_6 : rtc outbox_step ex_o5 ex_o6.
Proof.
  eapply rtc_l; [apply (os_issue _ 40 (ex_op 901 2) ex_o6)|apply rtc_refl].
  - reflexivity.
  - apply (ex_room _ _ 2); [|reflexivity]. intros row Hr. vm_compute in Hr. by injection Hr as <-.
  - vm_compute. reflexivity.
Qed.

Definition ex_closed : TradeAssetOpRecord := default (ex_op 0 0) (ob_op ex_o5 !! 900).

(** ** The properties *)

(** C22: a command that was closed stays closed: whatever the delivery loop, the
    operators, the engine and the clean-up do afterwards, a row at its place in
    the player's stream is the row of that very command, with the status, the
    answer and the custody it was closed with; it is not executed under another
    identifier, either, once its row is gone. *)
Theorem command_closed_once o o' id r id' r' :
  rtc outbox_step empty_outbox o -> rtc outbox_step o o' ->
  ob_op o !! id = Some r -> op_status r <> OpPending ->
  ob_op o' !! id' = Some r' -> same_position r r' = true ->
  id' = id /\ same_command r r' /\ op_status r' = op_status r /\ op_snapshot r' = op_snapshot r /\
  op_last_outcome r' = op_last_outcome r /\ op_resolved_by r' = op_resolved_by r.
Proof.
  intros H0 H1 Hr Hc Hr' Hp. destruct (outbox_run_wf _ _ empty_outbox_wf H0) as (Hwf & _).
  destruct (outbox_run_wf _ _ Hwf H1) as (_ & _ & Ht). destruct (ow_row o Hwf id r Hr) as (row & Hrow & _ & Hq).
  unfold same_position in Hp. zbool.
  assert (Hkey : op_key r' = op_key r) by (unfold op_key; congruence).
  destruct (Ht id' r' row Hr') as (r1 & Hr1 & Hs1); [by rewrite Hkey|lia|].
  destruct (row_step_key _ _ Hs1) as [Hk1 Hq1].
  assert (id' = id) as -> by (eapply (ow_unique o Hwf); [exact Hr1|exact Hr|congruence|lia]).
  assert (r1 = r) as -> by congruence. destruct Hs1 as [Hcmd Hcl]. split; [done|]. split; [done|]. by apply Hcl.
Qed.

Lemma command_closed_once_witness :
  exists r', ob_op ex_o6 !! 900 = Some r' /\ 900 = 900 /\ same_command ex_closed r' /\ op_status r' = op_status ex_closed /\
    op_snapshot r' = op_snapshot ex_closed /\ op_last_outcome r' = op_last_outcome ex_closed /\
    op_resolved_by r' = op_resolved_by ex_closed.
Proof.
  exists ex_closed. split; [vm_compute; reflexivity|].
  apply (command_closed_once ex_o5 ex_o6 900 ex_closed 900 ex_closed); [exact ex_outbox_5|exact ex_outbox_6|..];
    vm_compute; first [reflexivity | discriminate].
Defined.

(** The commands of a player's stream carry distinct numbers of the stream's
    one epoch, each below the next number to give, which never goes back. *)
Theorem stream_numbers_unique o o' :
  rtc outbox_step empty_outbox o -> outbox_step o o' ->
  (forall id1 id2 r1 r2, ob_op o !! id1 = Some r1 -> ob_op o !! id2 = Some r2 ->
     op_player r1 = op_player r2 -> op_stream r1 = op_stream r2 -> op_seq r1 = op_seq r2 -> id1 = id2) /\
  (forall id r, ob_op o !! id = Some r -> exists row, ob_seq o !! (op_player r, op_stream r) = Some row /\
     op_epoch r = sq_epoch row /\ 1 <= op_seq r < sq_next row) /\
  (forall k row, ob_seq o !! k = Some row -> exists row', ob_seq o' !! k = Some row' /\
     sq_epoch row' = sq_epoch row /\ sq_next row <= sq_next row').
Proof.
  intros H0 Hs. destruct (outbox_run_wf _ _ empty_outbox_wf H0) as (Hwf & _).
  destruct (outbox_step_wf _ _ Hwf Hs) as (_ & Hg & _). split_and!; [|apply (ow_row o Hwf)|exact Hg].
  intros id1 id2 r1 r2 H1 H2 Hp Hst. apply (ow_unique o Hwf id1 id2 r1 r2); [done|done|]. unfold op_key. congruence.
Qed.

Lemma stream_numbers_unique_witness :
  (exists row', ob_seq (Claim ex_o5 900 60 90 95 1).1 !! (11%Z, StreamDebit) = Some row' /\ sq_epoch row' = 5 /\ 2 <= sq_next row') /\
  outbox_step ex_o5 (Claim ex_o5 900 60 90 95 1).1.
Proof.
  split; [|apply os_claim].
  destruct (stream_numbers_unique ex_o5 (Claim ex_o5 900 60 90 95 1).1 ex_outbox_5 (os_claim _ 900 60 90 95 1)) as (_ & _ & H).
  apply (H (11%Z, StreamDebit) (mkSeqRow 2 5 10)). vm_compute. reflexivity.
Defined.

(** A stream never has more than 16 pending commands, and none of them is
    more than 512 numbers behind the next one, so the scene's window of remembered
    answers covers every command that may still be repeated. *)
Theorem pending_window o k row :
  rtc outbox_step empty_outbox o -> ob_seq o !! k = Some row ->
  (length (keep_if (pending_of k (sq_epoch row)) (op_rows o)) <= 16)%nat /\
  forall id r, ob_op o !! id = Some r -> pending_of k (sq_epoch row) r = true -> sq_next row - op_seq r <= 512.
Proof.
  intros H0 Hrow. destruct (outbox_run_wf _ _ empty_outbox_wf H0) as (Hwf & _).
  destruct (ow_window o Hwf k row Hrow) as [Hn Hs].
  assert (Hpend : forall r, pending_of k (sq_epoch row) r = true -> op_key r = k /\ op_status r = OpPending).
  { intros r Hp. unfold pending_of in Hp. zbool. split; [|done]. unfold op_key. destruct k. cbn in *. congruence. }
  split.
  - rewrite <- (length_fmap op_id (keep_if _ _)). apply Nat2Z.inj_le. apply Hn.
    + apply NoDup_fmap_keep_if. unfold op_rows. rewrite <- list_fmap_compose.
      rewrite (list_fmap_ext _ fst); [apply NoDup_fst_map_to_list|]. intros i [id r] Hi. cbn.
      apply (ow_id o Hwf). by apply elem_of_map_to_list, list_elem_of_lookup_2 with i.
    + apply Forall_forall. intros id (r & -> & [Hr Hp]%elem_of_keep_if)%list_elem_of_fmap.
      unfold op_rows in Hr. apply list_elem_of_fmap in Hr as ([id' r'] & -> & Hm%elem_of_map_to_list). cbn in *.
      exists r'. destruct (Hpend _ Hp). by rewrite (ow_id o Hwf id' r' Hm).
  - intros id r Hr Hp. destruct (Hpend r Hp). by apply (Hs id r).
Qed.

Lemma pending_window_witness :
  (length (keep_if (pending_of (11%Z, StreamDebit) 5) (op_rows ex_o5)) <= 16)%nat /\
  forall id r, ob_op ex_o5 !! id = Some r -> pending_of (11%Z, StreamDebit) 5 r = true -> 2 - op_seq r <= 512.
Proof.
  apply (pending_window ex_o5 (11%Z, StreamDebit) (mkSeqRow 2 5 10)); [exact ex_outbox_5|vm_compute; reflexivity].
Defined.

(** A lease is exclusive: while it lasts a second claim of the command gets
    nothing and changes nothing, and a worker with another token can neither put
    the command off, nor release it, nor abandon it. *)
Theorem lease_excludes o id now until poison token o' view now' until' poison' token' next res :
  Claim o id now until poison token = (o', Ok (Some view)) -> now' <= until -> token' <> token ->
  Claim o' id now' until' poison' token' = (o', Ok None) /\
  Reschedule o' id token' next res now' = Err ErrLeaseLost /\
  ReleaseLease o' id token' now' = Err ErrLeaseLost /\
  exists e, Abandon o' id StreamDebit token' now' = Err e.
Proof.
  unfold Claim. destruct (update_op o id _ _) as [o1|] eqn:Hu; [|done]. unfold update_op in Hu.
  destruct (ob_op o !! id) as [r|] eqn:Hr; [|done]. revert Hu. split_if; [|done]. intros [= <-]. cbn.
  rewrite lookup_insert_eq. destruct (op_payload (claim_row now until token r)); [|done]. intros [= <- _] Hn Ht.
  assert (Hlost : forall f, update_op (with_op o (<[id := claim_row now until token r]> (ob_op o))) id
            (pending_token token') f = None).
  { intros f. unfold update_op. cbn. rewrite lookup_insert_eq. unfold pending_token. cbn.
    by rewrite (proj2 (Z.eqb_neq token token') (not_eq_sym Ht)), andb_false_r. }
  split_and!.
  - unfold update_op. cbn. rewrite lookup_insert_eq. unfold is_pending. cbn.
    by rewrite (proj2 (Z.ltb_ge until now') Hn), andb_false_r.
  - unfold Reschedule. by rewrite Hlost.
  - unfold ReleaseLease. by rewrite Hlost.
  - unfold Abandon. split_if; [by eexists|]. split_if; [by eexists|]. rewrite Hlost. by eexists.
Qed.

Lemma lease_excludes_witness :
  exists view, Claim ex_o3 900 20 50 70 1234 = (ex_o4, Ok (Some view)) /\
  Claim ex_o4 900 50 80 90 77 = (ex_o4, Ok None) /\
  Reschedule ex_o4 900 77 99 ex_result 50 = Err ErrLeaseLost /\ ReleaseLease ex_o4 900 77 50 = Err ErrLeaseLost /\
  exists e, Abandon ex_o4 900 StreamDebit 77 50 = Err e.
Proof.
  eexists. split; [vm_compute; reflexivity|].
  eapply (lease_excludes ex_o3 900 20 50 70 1234 ex_o4 _ 50 80 90 77 99 ex_result); [vm_compute; reflexivity|lia|lia].
Defined.

(** No receipt is passed over for ever: with [m] pages of due receipts,
    every one of them is tried within [2 m + 1] rounds, wherever the cursor stands
    and whatever the players' servers answer in between. *)
Theorem every_receipt_is_tried o cursor answers d m :
  rtc outbox_step empty_outbox o -> d ∈ ack_due o -> 0 < d ->
  (size (ack_due o) <= m * 100)%nat -> (2 * m + 1 <= length answers)%nat ->
  d ∈ ack_rounds answers o cursor.
Proof.
  intros H0 Hd Hpos Hs Hn. destruct (outbox_run_wf _ _ empty_outbox_wf H0) as (Hwf & _).
  apply (rotation d m); [exact (ow_id o Hwf)|done..].
Qed.

(** The sample command, applied with a custody. *)
Definition ex_custody : Result :=
  mkResult 1 0 true true false (Some (mkSnapshot [] (Some (mkPetInstance 4 7 "" 1 "")) None)) false false.
Definition ex_o7 : Outbox := (ok_or (Finalize ex_o4 900 StreamDebit OpApplied ex_custody 30) (false, ex_o4)).2.

Lemma every_receipt_is_tried_witness :
  900 ∈ ack_rounds [fun _ => None; fun _ => Some false; fun _ => None] ex_o7 5000.
Proof.
  apply (every_receipt_is_tried ex_o7 5000 [fun _ => None; fun _ => Some false; fun _ => None] 900 1).
  - eapply rtc_r; [exact ex_outbox_4|].
    apply (os_finalize _ 900 StreamDebit OpApplied ex_custody 30 true ex_o7). vm_compute. reflexivity.
  - apply elem_of_ack_due. eexists. split; vm_compute; reflexivity.
  - lia.
  - apply Nat.leb_le. vm_compute. reflexivity.
  - cbn. lia.
Defined.

(** * Asset commands: the retried transaction

    [retryWithBackoff], [runTx] and [WithTxRetryConfig] of
    [go/shared/assetop/seq.go], the entry of every transaction of the trade outbox and
    of the inbox: a whole transaction is run again after a retryable error, a bounded
    number of times, with a wait between two attempts. The database driver, the
    context, the timer and the body of the transaction are an interface, [TxWorld]. *)

Record TxRetryConfig := mkTxRetry { Attempts : Z; BaseBackoff : Z; MaxBackoff : Z }.

Definition defaultTxAttempts : Z := 3.
Definition defaultTxBaseBackoff : Z := 10 * Millisecond.
Definition defaultTxMaxBackoff : Z := 200 * Millisecond.
Definition minTxBaseBackoff : Z := 2 * Millisecond.

Definition DefaultTxRetryConfig : TxRetryConfig :=
  mkTxRetry defaultTxAttempts defaultTxBaseBackoff defaultTxMaxBackoff.

Definition ErrTxConfig : error := "assetop: invalid retry configuration"%string.
Definition ErrExhausted : error := "assetop: retries exhausted"%string.

(** [TxRetryConfig.validate] *)
Definition validateTx (c : TxRetryConfig) : res () :=
  _ ← guard_err (Attempts c <? 1) ErrTxConfig;
  _ ← guard_err (BaseBackoff c <? minTxBaseBackoff) ErrTxConfig;
  guard_err (MaxBackoff c <? BaseBackoff c) ErrTxConfig.

Definition txBackoff (attempt base max : Z) (rnd : option spec_float) : Z :=
  NextAttemptMs 0 attempt base max rnd * Millisecond.

(** An answer of Go: [None] is success. *)
Notation answer := (option error).

(** [tx_body]: the statements of the transaction that was begun. *)
Class TxWorld (W : Type) := {
  tx_done : W -> answer;
  tx_sleep : W -> Z -> W * answer;
  tx_rand : W -> option spec_float;
  tx_begin : W -> W * answer;
  tx_body : W -> W * answer;
  tx_rollback : W -> W * answer;
  tx_commit : W -> W * answer;
  tx_retryable : error -> bool }.

Section retry.
Context {W : Type} `{TxWorld W}.

Definition runTx (w : W) : W * answer :=
  let '(w, err) := tx_begin w in
  match err with
  | Some e => (w, Some e)
  | None =>
      let '(w, err) := tx_body w in
      match err with
      | Some e => let '(w, _) := tx_rollback w in (w, Some e)
      | None => tx_commit w
      end
  end.

(** [left] attempts are left; [i] is the number of this one. *)
Fixpoint retry_loop (c : TxRetryConfig) (op : W -> W * answer) (left : nat) (i : Z) (w : W) (lastErr : answer)
    : W * answer :=
  match left with
  | O => (w, Some ErrExhausted)
  | S left' =>
      match tx_done w with
      | Some e => (w, Some (default e lastErr))
      | None =>
          let '(w, err) := op w in
          match err with
          | None => (w, None)
          | Some e =>
              if negb (tx_retryable e) then (w, Some e)
              else if i =? Attempts c - 1 then (w, Some ErrExhausted)
              else
                let '(w, waited) := tx_sleep w (txBackoff i (BaseBackoff c) (MaxBackoff c) (tx_rand w)) in
                match waited with
                | Some _ => (w, Some e)
                | None => retry_loop c op left' (i + 1) w (Some e)
                end
          end
      end
  end.

Definition retryWithBackoff (c : TxRetryConfig) (op : W -> W * answer) (w : W) : W * answer :=
  retry_loop c op (Z.to_nat (Attempts c)) 0 w None.

Definition WithTxRetryConfig (c : TxRetryConfig) (w : W) : W * answer :=
  match validateTx c with
  | Err e => (w, Some e)
  | Ok _ => retryWithBackoff c runTx w
  end.
End retry.

(** ** What a retry does *)

(** [tx_begun] and [tx_mine] count the transactions begun, and those of them that took
    effect. A commit that fails with a retryable error took none ("the transaction was
    rolled back as a whole"); any other failed commit may have. *)
Class TxLaws (W : Type) `{TxWorld W} := {
  tx_begun : W -> Z;
  tx_mine : W -> Z;
  tx_same (w w' : W) : Prop := tx_begun w' = tx_begun w /\ tx_mine w' = tx_mine w;
  tl_sleep : forall w d, tx_same w (tx_sleep w d).1;
  tl_body : forall w, tx_same w (tx_body w).1;
  tl_rollback : forall w, tx_same w (tx_rollback w).1;
  tl_begin : forall w, tx_mine (tx_begin w).1 = tx_mine w /\ tx_begun (tx_begin w).1 = tx_begun w + 1;
  tl_commit : forall w w' e, tx_commit w = (w', e) -> tx_begun w' = tx_begun w /\
    match e with
    | None => tx_mine w' = tx_mine w + 1
    | Some e => tx_mine w' = tx_mine w \/ tx_retryable e = false /\ tx_mine w' = tx_mine w + 1
    end }.

Section facts.
Context {W : Type} `{Hlaws : TxLaws W}.
#[local] Set Default Proof Using "Type*".

(** One success is one effect; a failure has none, unless it is a commit whose fate is
    unknown, and that is not tried again. *)
Definition effect (w w' : W) (e : answer) : Prop :=
  match e with
  | None => tx_mine w' = tx_mine w + 1
  | Some e => tx_mine w' = tx_mine w \/ tx_retryable e = false /\ tx_mine w' = tx_mine w + 1
  end.

Lemma runTx_effect w w' e : runTx w = (w', e) -> tx_begun w' = tx_begun w + 1 /\ effect w w' e.
Proof.
  unfold runTx. destruct (tl_begin w) as [Hm Hb]. destruct (tx_begin w) as [w1 [x|]]; cbn in *.
  { intros [= <- <-]. split; [done|by left]. }
  destruct (tl_body w1) as [Hb2 Hm2]. destruct (tx_body w1) as [w2 [x|]]; cbn in *.
  { destruct (tl_rollback w2) as [Hb3 Hm3]. destruct (tx_rollback w2) as [w3 y]. cbn in *. intros [= <- <-].
    split; [lia|left; lia]. }
  intros Hc. destruct (tl_commit _ _ _ Hc) as [Hb3 He]. split; [lia|]. unfold effect. destruct e as [x|]; [|lia].
  destruct He as [?|[? ?]]; [left; lia|right; split; [done|lia]].
Qed.

Lemma retry_loop_effect c left i w last w' e :
  retry_loop c runTx left i w last = (w', e) ->
  tx_begun w <= tx_begun w' <= tx_begun w + Z.of_nat left /\
  (match e with None => tx_mine w' = tx_mine w + 1 | Some _ => tx_mine w' = tx_mine w \/ tx_mine w' = tx_mine w + 1 end).
Proof.
  revert i w last. induction left as [|left IH]; intros i w last; cbn [retry_loop].
  { intros [= <- <-]. split; [lia|by left]. }
  destruct (tx_done w); [intros [= <- <-]; split; [lia|by left]|].
  destruct (runTx w) as [w1 err] eqn:Hrun. destruct (runTx_effect _ _ _ Hrun) as [Hb He]. cbn in He.
  destruct err as [x|]; [|intros [= <- <-]; split; [lia|done]].
  destruct (tx_retryable x) eqn:Hr; cbn [negb]; [|intros [= <- <-]; split; [lia|unfold effect in He; lia]].
  destruct He as [He|[? _]]; [|congruence].
  split_if; [intros [= <- <-]; split; [lia|by left]|].
  match goal with |- context [tx_sleep w1 ?d] => destruct (tl_sleep w1 d) as [Hb2 Hm2]; destruct (tx_sleep w1 d) as [w2 waited] end.
  cbn in *. destruct waited as [y|]; [intros [= <- <-]; split; [lia|left; lia]|].
  intros Hl. destruct (IH _ _ _ Hl) as [Hb3 He3]. split; [lia|]. destruct e; lia.
Qed.

(** C37: A retried transaction ends, and is carried out at most once: not more
    transactions are begun than attempts are allowed, the answer is success only if
    exactly one of them took effect, and a failure is answered with at most one that
    did, the last one; an invalid configuration begins none. *)
Theorem retried_transaction_once c (w w' : W) e :
  WithTxRetryConfig c w = (w', e) ->
  tx_begun w <= tx_begun w' <= tx_begun w + Z.max 0 (Attempts c) /\
  (e = None -> tx_mine w' = tx_mine w + 1) /\
  tx_mine w <= tx_mine w' <= tx_mine w + 1 /\
  (validateTx c <> Ok () -> w' = w /\ e <> None).
Proof.
  unfold WithTxRetryConfig. destruct (validateTx c) as [[]|x]; [|intros [= <- <-]; split_and!; [lia|lia|done|lia|lia|done]].
  unfold retryWithBackoff. intros [Hb He]%retry_loop_effect. split; [lia|].
  split_and!; [by intros ->|destruct e; lia|destruct e; lia|done].
Qed.
End facts.

(** ** A sample: the first commit meets a deadlock, the second one succeeds *)
Record TxToy := mkTxToy { tt_begun : Z; tt_mine : Z; tt_answers : list answer }.

Definition deadlock : error := "1213"%string.

#[local] Instance tx_toy : TxWorld TxToy := {|
  tx_done _ := None; tx_sleep w _ := (w, None); tx_rand _ := None;
  tx_begin w := (mkTxToy (tt_begun w + 1) (tt_mine w) (tt_answers w), None);
  tx_body w := (w, None); tx_rollback w := (w, None);
  tx_commit w := match tt_answers w with
    | Some e :: l => (mkTxToy (tt_begun w) (tt_mine w) l, Some e)
    | _ :: l => (mkTxToy (tt_begun w) (tt_mine w + 1) l, None)
    | [] => (mkTxToy (tt_begun w) (tt_mine w + 1) [], None) end;
  tx_retryable e := String.eqb e deadlock |}.

#[local] Instance tx_toy_laws : TxLaws TxToy.
Proof.
  unshelve refine {| tx_begun := tt_begun; tx_mine := tt_mine |}; try done.
  intros w w' e. cbn. destruct (tt_answers w) as [|[x|] l]; intros [= <- <-]; cbn; auto.
Defined.

Lemma retried_transaction_once_witness :
  let w := mkTxToy 0 0 [Some deadlock; None] in let w' := mkTxToy 2 1 [] in
  WithTxRetryConfig DefaultTxRetryConfig w = (w', None) /\ 0 <= 2 <= 0 + 3 /\ tt_mine w' = tt_mine w + 1.
Proof.
  assert (Hrun : WithTxRetryConfig DefaultTxRetryConfig (mkTxToy 0 0 [Some deadlock; None]) = (mkTxToy 2 1 [], None))
    by (vm_compute; reflexivity).
  split; [exact Hrun|]. destruct (retried_transaction_once _ _ _ _ Hrun) as (H & Ho & _).
  split; [exact H|]. exact (Ho eq_refl).
Defined.
