(* ===== verification/AssetSendProps.v ===== *)
(** * Asset commands: what giving up a command guarantees

    The two halves of the argument of [abandon.go]: the loop's rounds are runs of the
    delivery system, and in such a run no request of a command is under way when the
    command is given up. A small world in which the laws of the interface hold shows
    that they can. *)

From stdpp Require Import base list gmap strings relations.
From Stdlib Require Import ZArith Lia SpecFloat.
From S2P Require Import Prelude CommerceData AssetOps AssetLedger AssetWire SceneNode AssetLoop AssetOpsThms AssetSend AssetSim.
Local Open Scope Z_scope.

(** ** A sample world: one replica, no ledger, nobody online *)
Record Toy := mkToy { ty_sys : Sys; ty_me : option Z; ty_next : Z; ty_now : Z }.

Definition toy (w : Toy) (s : Sys) : Toy := mkToy s (ty_me w) (ty_next w) (ty_now w).

Definition toy_clock (t : Z) : Z := Z.max 0 (Z.min t (2 ^ 62 - 1)).

Definition toy_token (w : Toy) : Toy * res Z :=
  let b := 2 * ty_next w in
  if decide (Z.lor b 1 ∈ sy_tokens (ty_sys w)) then (w, Err "used"%string)
  else (mkToy (ty_sys w) (ty_me w) (ty_next w + 1) (ty_now w), Ok b).

(** The request of the delivery at hand is sent, and the scene asks to try again. *)
Definition toy_do (w : Toy) (rpc : RPC) (q : AssetOpRequest) : Toy * (Result * option error) :=
  match ty_me w with
  | Some token =>
      match sy_held (ty_sys w) !! token with
      | Some d => (toy w (sent (ty_sys w) token d (dl_claim d)), (mkResult OUTCOME_RETRY 0 false false false None false false, None))
      | None => (w, (mkResult OUTCOME_NOT_HERE 0 false false false None true true, None))
      end
  | None => (w, (mkResult OUTCOME_NOT_HERE 0 false false false None true true, None))
  end.

Definition toy_claim (w : Toy) (id now until poison token : Z) : Toy * res (option Op) :=
  let s := ty_sys w in
  if decide (token ∈ sy_tokens s) then (w, Err "used"%string)
  else
    let answer := (Claim (sy_out s) id now until poison token).2 in
    (mkToy (claimed s id now until poison token) (match answer with Ok (Some _) => Some token | _ => ty_me w end)
       (ty_next w) (ty_now w), answer).

Definition toy_finalize (w : Toy) (o : Op) (status : Z) (r : Result) (now : Z) : Toy * res bool :=
  match Finalize (sy_out (ty_sys w)) (o_id o) (o_stream o) status r now with
  | Ok (b, out) => (toy w (AssetSend.with_out (ty_sys w) out), Ok b)
  | Err e => (w, Err e)
  end.

Definition toy_write (w : Toy) (m : res Outbox) (f : Outbox -> Sys) : Toy * option error :=
  match m with Ok out => (toy w (f out), None) | Err e => (w, Some e) end.

#[local] Instance toy_world : LoopWorld Toy := {|
  lw_now w := toy_clock (ty_now w);
  lw_done _ := false; lw_budget _ := true; lw_slot _ := true;
  lw_token := toy_token;
  lw_rand _ := None;
  lw_do := toy_do;
  lw_persisted w _ := (w, Ok (Some []));
  lw_sql w _ := (w, Ok (Some []));
  lw_verified w _ := (w, Ok (Some [], true));
  lw_locate w _ := (w, Err ErrNotOnline);
  lw_list_due w now n := (w, Ok (ListDue (sy_out (ty_sys w)) (sy_out (ty_sys w)) now n));
  lw_list_player w _ _ := (w, Ok []);
  lw_list_abandon w before after n := (w, Ok (ListAbandonCandidates (sy_out (ty_sys w)) before after n));
  lw_claim := toy_claim;
  lw_finalize := toy_finalize;
  lw_reschedule w o next r now :=
    toy_write w (Reschedule (sy_out (ty_sys w)) (o_id o) (o_token o) next r now) (done_with (ty_sys w) (o_token o));
  lw_abandon w o now :=
    toy_write w (Abandon (sy_out (ty_sys w)) (o_id o) (o_stream o) (o_token o) now)
      (given_up (ty_sys w) (o_token o) (o_id o) now);
  lw_release w o now :=
    toy_write w (ReleaseLease (sy_out (ty_sys w)) (o_id o) (o_token o) now) (done_with (ty_sys w) (o_token o)) |}.

Lemma toy_step (c : Z) (s s' : Sys) (P : Sys -> Sys -> Prop) me me' D gap :
  P s s' ->
  c <= c /\ exists s1 s2, rtc (other_step D gap me) s s1 /\ P s1 s2 /\ rtc (other_step D gap me') s2 s'.
Proof. intros HP. split; [lia|]. by exists s, s'. Qed.

#[local] Instance toy_laws : DeliveryLaws Toy 0 3600000.
Proof.
  unshelve refine {| dw_sys := ty_sys; dw_me := ty_me; dw_fresh w token := token ∉ sy_tokens (ty_sys w) |};
    try (cbn; intros; split_and!; [done|lia|done]).
  - intros w. cbn. unfold toy_clock. lia.
  - intros w w' r. cbn. unfold toy_token. cbv zeta. destruct (decide _) as [Hin|Hout].
    + intros [= <- <-]. cbn. split; [split_and!; [done|lia|done]|done].
    + intros [= <- <-]. cbn. split; [split_and!; [done|lia|done]|]. by intros b [= <-].
  - intros w w' rpc o r err. cbn. unfold toy_do. intros Hdo Hme. rewrite Hme in Hdo.
    destruct (sy_held (ty_sys w) !! o_token o) as [d|] eqn:Hd; injection Hdo as <- <- <-; cbn; (split; [done|]); (split; [lia|]);
      [|done]. apply rtc_once. right. split; [done|]. exists d, (dl_claim d). split_and!; [done|lia|lia|done].
  - intros w w' id now until poison token r. cbn. unfold toy_claim. cbv zeta. intros Hc Hf.
    destruct (decide _) as [Hin|Hout]; [done|]. injection Hc as <- <-. apply toy_step. left.
    split_and!; [done|done|]. intros o ->. done.
  - intros w o status r now. cbn. unfold toy_finalize. destruct (Finalize _ _ _ _ _ _) as [[b out]|e] eqn:Hf; cbn;
      (split; [done|]); apply toy_step; [|by left]. right. by exists b, out.
  - intros w o next r now. cbn. unfold toy_write. destruct (Reschedule _ _ _ _ _ _) as [out|e] eqn:Hf;
      apply toy_step; [|by left]. right. by exists out.
  - intros w o now. cbn. unfold toy_write. destruct (Abandon _ _ _ _ _) as [out|e] eqn:Hf; (split; [done|]);
      apply toy_step; [|by left]. right. by exists out.
  - intros w o now. cbn. unfold toy_write. destruct (ReleaseLease _ _ _ _) as [out|e] eqn:Hf;
      apply toy_step; [|by left]. right. by exists out.
Defined.

(** ** The properties *)

(** C3: giving up a command is safe. With a configuration the loop accepts, whatever
    the replicas of the service do and in whatever order, no request of a command that
    was given up left within the last two seconds before the instant at which this was
    decided, and none leaves ever after; and a row with the status of a command given
    up is one that was given up this way. The only assumption is that a request leaves
    within the budget of one command after its lease was taken. *)
Theorem abandoned_is_silent (c : LoopConfig) D s :
  validate c = Ok () -> 0 < AbandonAfter c -> D <= to_ms (OpBudget c) ->
  rtc (any_step D (to_ms (AbandonSafetyGap c))) empty_sys s ->
  (forall id r, ob_op (sy_out s) !! id = Some r -> op_status r = OpAbandoned -> (id, op_updated r) ∈ sy_given s) /\
  (forall id t sd, (id, t) ∈ sy_given s -> sd ∈ sy_sends s -> sd_id sd = id -> sd_time sd + 2000 <= t).
Proof.
  intros Hv Ha HD Hrun. pose proof (delivery_run_quiet _ _ _ _ (empty_quiet _ _) Hrun) as Q.
  split; [apply Q|]. intros id t sd Hg Hsd Hid. pose proof (qt_time _ _ _ Q sd Hsd) as Ht.
  destruct (qt_given _ _ _ Q id t Hg) as (_ & _ & Hc).
  assert (sd_claim sd <= t - to_ms (AbandonSafetyGap c)) as Hle by (apply (Hc _ (sd_token sd)); left; by exists sd).
  assert (0 < OpBudget c /\ OpBudget c + leaseHeadroom <= AbandonSafetyGap c) as [Hb Hgap].
  { unfold validate, validateAbandon in Hv. rewrite (proj2 (Z.eqb_neq _ _)) in Hv by lia.
    repeat (apply bind_Ok in Hv as ([] & ?%guard_Ok & Hv)). apply guard_Ok in Hv. zbool. lia. }
  unfold to_ms in *. assert (0 <= leaseHeadroom) by done.
  rewrite Z.quot_div_nonneg in HD, Hle by (unfold Millisecond; lia). assert (OpBudget c / Millisecond + 2000 <= AbandonSafetyGap c / Millisecond).
  { rewrite <- Z.div_add by done. apply Z.div_le_mono; [done|].
    unfold leaseHeadroom, Second, Millisecond in *. lia. }
  lia.
Qed.

(** C15: every round of the delivery loop, of the wake-up and of the abandonment is a
    run of the delivery system, from any state such runs reach, whatever other
    replicas do between its calls: so what holds of the runs holds of the code. *)
Theorem rounds_are_runs (W : Type) (world : LoopWorld W) (D : Z) (l : Loop)
    (laws : DeliveryLaws W D (to_ms (AbandonSafetyGap (lp_cfg l)))) marshal_item marshal_pet sha256 (w : W) :
  0 <= Lease (lp_cfg l) < 2 ^ 63 ->
  rtc (any_step D (to_ms (AbandonSafetyGap (lp_cfg l)))) empty_sys (dw_sys w) ->
  let run w' := rtc (any_step D (to_ms (AbandonSafetyGap (lp_cfg l)))) (dw_sys w) (dw_sys w') in
  run (Tick marshal_item marshal_pet sha256 l w).1 /\
  (forall player, run (WakePlayer marshal_item marshal_pet sha256 l w player).1) /\
  (forall id, run (claimAndProcess marshal_item marshal_pet sha256 l w id).1) /\
  (forall cursor now, run (AbandonOnce marshal_item marshal_pet sha256 l w cursor now).1).
Proof.
  intros Hl Hreach. pose proof (delivery_run_quiet _ _ _ _ (empty_quiet _ _) Hreach) as Q.
  split_and!; intros.
  - by apply Tick_goes. - by apply WakePlayer_goes. - by apply claimAndProcess_goes. - by apply AbandonOnce_goes.
Qed.

(** ** They apply *)
Definition toy_op : TradeAssetOpRecord :=
  mkOp 900 11 StreamDebit 5 1 KindEscrowDebit OpPending false 0 10 1000 0 0 3 RefKindOrder 100
    (Some no_bundle) 0 0 10 10 "" "" 0 NoBlob false false.

Definition ok_out (m : res Outbox) : Outbox := match m with Ok o => o | Err _ => empty_outbox end.

Definition toy_o2 : Outbox := ok_out (EnsureSeqGuardRow empty_outbox 5).
Definition toy_o3 : Outbox := ok_out (EnsureSeqRows toy_o2 toy_o2 5 [(11, StreamDebit)]).
Definition toy_s3 : Sys := mkSys (ok_out (issue toy_o3 10 toy_op)) ∅ [] [] ({[900]} ∪ ∅) ∅.
Definition toy_s4 : Sys := claimed toy_s3 900 20 10020 3600020 7.
Definition toy_d4 : Delivery :=
  default (mkDelivery 0 (mkOpView 0 0 0 0 0 0 0 no_bundle 0 0 0 0 0 0) false) (sy_held toy_s4 !! 7).
Definition toy_s5 : Sys := sent toy_s4 7 toy_d4 25.
Definition toy_s6 : Sys := done_with toy_s5 7
  (ok_out (Reschedule (sy_out toy_s5) 900 7 3000 (mkResult OUTCOME_RETRY 0 false false false None false false) 20)).
Definition toy_s7 : Sys := claimed toy_s6 900 16000000000 16000010000 16003600000 9.
Definition toy_s8 : Sys := given_up toy_s7 9 900 16000000001
  (ok_out (Abandon (sy_out toy_s7) 900 StreamDebit 9 16000000001)).

Lemma toy_run_issued D gap : rtc (any_step D gap) empty_sys toy_s3.
Proof.
  eapply rtc_l; [exists None; apply (ds_table _ _ _ toy_o2), (ts_guard _ 5); vm_compute; reflexivity|].
  eapply rtc_l; [exists None; apply (ds_table _ _ _ toy_o3), (ts_ensure _ toy_o2 5 [(11, StreamDebit)]); vm_compute; reflexivity|].
  eapply rtc_l; [exists None; apply (ds_issue _ _ _ 10 toy_op (sy_out toy_s3)); vm_compute; try reflexivity; by intros ?|].
  reflexivity.
Qed.

Lemma toy_run_given_up : rtc (any_step 2500 3600000) empty_sys toy_s8.
Proof.
  etrans; [apply toy_run_issued|].
  eapply rtc_l; [exists (Some 7); apply (ds_claim _ _ _ 900 20 10020 3600020 7); vm_compute; by try intros ?|].
  eapply rtc_l; [exists (Some 7); apply (ds_send _ _ _ 7 toy_d4 25); [vm_compute; reflexivity|split; vm_compute; discriminate]|].
  eapply rtc_l.
  { exists (Some 7). apply (ds_reschedule _ _ toy_s5 7 (mkDelivery 20 (dl_op toy_d4) true) 3000
      (mkResult OUTCOME_RETRY 0 false false false None false false) 20); [vm_compute; reflexivity| |vm_compute; reflexivity].
    intros _. split; [reflexivity|vm_compute; discriminate]. }
  eapply rtc_l; [exists (Some 9); apply (ds_claim _ _ _ 900 16000000000 16000010000 16003600000 9)|].
  { by apply (bool_decide_unpack _); vm_compute. } { by vm_compute. }
  eapply rtc_l; [exists (Some 9)|reflexivity].
  pose (d := default toy_d4 (sy_held toy_s7 !! 9)).
  apply (ds_abandon _ _ toy_s7 9 d 16000000001); vm_compute; try reflexivity. discriminate.
Qed.

Lemma abandoned_is_silent_witness :
  (900, 16000000001) ∈ sy_given toy_s8 /\ sd_time (mkSend 900 7 20 25) + 2000 <= 16000000001.
Proof.
  split; [by left|].
  apply (proj2 (abandoned_is_silent DefaultLoopConfig 2500 toy_s8 ltac:(vm_compute; reflexivity) ltac:(vm_compute; reflexivity)
    ltac:(vm_compute; discriminate) toy_run_given_up) 900 16000000001 (mkSend 900 7 20 25)).
  - by left. - by left. - reflexivity.
Defined.

Definition toy_w : Toy := mkToy toy_s3 None 4 20.
Definition toy_loop : Loop := mkLoop DefaultLoopConfig true true true true true true.

Lemma rounds_are_runs_witness :
  let round w := (Tick (fun _ => ""%string) (fun _ => ""%string) (fun s => s) toy_loop w).1 in
  sy_sends (ty_sys (round toy_w)) = [mkSend 900 9 20 20] /\
  rtc (any_step 0 3600000) (ty_sys toy_w) (ty_sys (round toy_w)).
Proof.
  split; [vm_compute; reflexivity|].
  apply (rounds_are_runs Toy toy_world 0 toy_loop toy_laws (fun _ => ""%string) (fun _ => ""%string) (fun s => s) toy_w).
  - split; vm_compute; [discriminate|reflexivity].
  - apply toy_run_issued.
Defined.
