(* ===== verification/AssetLoopProps.v ===== *)
(** * Asset commands: the properties of the protocol between the loop and the scene

    What the scene records is read back and never changes; a command that pends stays
    in the scene's window; the signed text and the receipt name one command; an order
    is closed only on the evidence of the player's commit; and where a command is sent. *)

From stdpp Require Import base list gmap strings relations.
From Stdlib Require Import ZArith Lia.
From S2P Require Import Prelude CommerceData AssetOps AssetLedger AssetLedgerThms AssetWire AssetWireThms AssetOpsThms AssetOpsProps SceneNode AssetLoop.
Local Open Scope Z_scope.

(** ** The ledger *)

(** What the loop reads depends on the player's stream alone. *)
Lemma ClassifyPersisted_stream L s l epoch seq :
  FindStream L s = Some l -> ClassifyPersisted L s epoch seq = ClassifyPersisted [l] s epoch seq.
Proof.
  intros Hf. unfold ClassifyPersisted. rewrite Hf. unfold FindStream. cbn [find_first].
  apply find_first_Some in Hf as [_ Hs]. by rewrite Hs.
Qed.

(** The state of a recorded number, from then on. *)
Lemma recorded_state b b' epoch seq k r :
  book_grows b b' -> 0 < seq -> 0 < epoch -> bk_epoch b = epoch -> bk_out b !! seq = Some (k, r) ->
  book_state b' epoch seq ∈ [SeqStaleEpoch; SeqBehindWindow; SeqApplied; SeqRejected] /\
  (bk_epoch b' = epoch -> bk_out b' !! seq = Some (k, r)).
Proof.
  intros Hg Hs He Hb Hk. unfold book_state. rewrite (proj2 (Z.eqb_neq seq 0)), (proj2 (Z.eqb_neq epoch 0)) by lia. cbn [orb].
  destruct Hg as [?|(E & _ & Hsub)].
  - rewrite (proj2 (Z.ltb_lt _ _)) by lia. split; [set_solver|lia].
  - assert (Hk' : bk_out b' !! seq = Some (k, r)) by (by eapply lookup_weaken). rewrite E, Hb, Z.ltb_irrefl, Hk'.
    split; [|done]. split_if; [set_solver|]. split_if; set_solver.
Qed.

(** C8: the scene's ledger never takes an outcome back. Whatever is recorded after it,
    in whatever order and with whatever epochs, what the loop reads of a recorded
    number in the persisted ledger is that outcome, with its mark of a partial grant
    and its reason (at worst no reason), until the number leaves the window or a later
    epoch starts, and then it reads nothing; and nothing is ever recorded under that
    number again. *)
Theorem recorded_outcome_final s l epoch seq kind reason l1 l' L :
  rtc record_step (new_stream_ledger s) l -> 0 <= seq <= MaxUint64 - MaxSeqJump ->
  RecordAssetOpOutcome l epoch seq kind reason = Some l1 -> rtc record_step l1 l' -> FindStream L s = Some l' ->
  (ClassifyPersisted L s epoch seq = (OUTCOME_UNKNOWN, false, 0) /\
     ClassifySeq (Some l') epoch seq ∈ [SeqStaleEpoch; SeqBehindWindow] \/
   exists reason', ClassifyPersisted L s epoch seq = (outcome_of kind, bool_decide (kind = kAppliedPartial), reason') /\
     (kind = kRejected -> reason' = reason \/ reason' = 0)) /\
  (forall kind2 reason2, RecordAssetOpOutcome l' epoch seq kind2 reason2 = None).
Proof.
  intros Hrun Hseq Hrec Hrun' Hf. destruct (run_refines _ _ _ (new_refines s) Hrun) as (b & Href & _).
  destruct (record_refines _ _ _ _ _ _ _ Href Hseq Hrec) as (b1 & Href1 & _ & He1 & Hk1).
  destruct (run_refines _ _ _ Href1 Hrun') as (b' & Href' & Hg).
  assert (Hpos : 0 < seq) by (destruct Href1 as (H1 & _); destruct (ho_keys _ _ _ H1 _ _ Hk1); lia).
  assert (Hepos : 0 < epoch).
  { destruct Href1 as (_ & H0 & _). rewrite He1 in H0. destruct (decide (epoch = 0)) as [->|]; [|lia].
    exfalso. pose proof (RecordAssetOpOutcome_refines l b 0 seq kind reason Href Hseq) as Hr. rewrite Hrec in Hr.
    unfold book_record, book_state in Hr. by rewrite orb_true_r in Hr. }
  destruct (recorded_state _ _ _ _ _ _ Hg Hpos Hepos He1 Hk1) as [Hst Hsame].
  rewrite (ClassifyPersisted_stream L s l' epoch seq Hf).
  assert (Hstream : sl_stream l' = s) by (by apply find_first_Some in Hf as [_ ?%Z.eqb_eq]).
  pose proof (ClassifySeq_refines l' b' epoch seq Href' ltac:(lia)) as Hcl. split.
  - destruct (decide (bk_epoch b' = epoch)) as [E|Hne].
    + destruct (ClassifyPersisted_book l' b' seq kind reason Href' Hpos) as [Hbehind|(r' & Hp & Hr')]; [lia|auto|..].
      * left. rewrite E in Hbehind. split; [|rewrite Hbehind; set_solver].
        unfold ClassifyPersisted, FindStream. cbn [find_first]. by rewrite Hstream, Z.eqb_refl, Hbehind.
      * right. rewrite E, Hstream in Hp. by exists r'.
    + left. assert (Hstale : book_state b' epoch seq = SeqStaleEpoch).
      { unfold book_state. rewrite (proj2 (Z.eqb_neq seq 0)), (proj2 (Z.eqb_neq epoch 0)) by lia. cbn [orb].
        destruct Hg as [?|(? & _)]; [|lia]. by rewrite (proj2 (Z.ltb_lt _ _)) by lia. }
      rewrite Hcl, Hstale. split; [|set_solver]. unfold ClassifyPersisted, FindStream. cbn [find_first].
      by rewrite Hstream, Z.eqb_refl, Hcl, Hstale.
  - intros k2 r2. pose proof (RecordAssetOpOutcome_refines l' b' epoch seq k2 r2 Href' ltac:(lia)) as Hr.
    assert (book_record b' epoch seq k2 r2 = None) as Hn.
    { unfold book_record. rewrite !elem_of_cons, elem_of_nil in Hst. by destruct Hst as [E|[E|[E|[E|[]]]]]; rewrite E. }
    rewrite Hn in Hr. by destruct (RecordAssetOpOutcome l' epoch seq k2 r2).
Qed.

Definition ex_l1 : AssetOpStreamLedger :=
  default (new_stream_ledger 3) (RecordAssetOpOutcome (new_stream_ledger 3) 5 1 kAppliedPartial 0).
Definition ex_l2 : AssetOpStreamLedger := default ex_l1 (RecordAssetOpOutcome ex_l1 5 1000 kRejected 27001).

Lemma recorded_outcome_final_witness :
  exists r, ClassifyPersisted [ex_l2] 3 5 1 = (OUTCOME_APPLIED, true, r) /\
    RecordAssetOpOutcome ex_l2 5 1 kRejected 0 = None.
Proof.
  destruct (recorded_outcome_final 3 (new_stream_ledger 3) 5 1 kAppliedPartial 0 ex_l1 ex_l2 [ex_l2])
    as [[[H _]|(r & H & _)] Hn].
  - apply rtc_refl. - split; vm_compute; discriminate. - vm_compute; reflexivity.
  - eapply rtc_once, (rs_record _ 5 1000 kRejected 27001); [split; vm_compute; discriminate|vm_compute; reflexivity].
  - vm_compute; reflexivity.
  - vm_compute in H. discriminate.
  - exists r. split; [exact H|apply Hn].
Defined.

(** C38: The loop and the scene agree on every number of every ledger whose bitmaps
    have their sixteen words: the Go classifier and the scene's own give the same
    verdict, and on a stream that is not there as well. *)
Theorem classifiers_agree (l : option AssetOpStreamLedger) epoch seq :
  (forall st, l = Some st -> length (sl_seen st) = WindowWords /\ length (sl_applied st) = WindowWords) ->
  ClassifySeq l epoch seq = ClassifyAssetOpSeq l epoch seq.
Proof. apply ClassifySeq_mirror. Qed.

Lemma classifiers_agree_witness : ClassifyAssetOpSeq (Some ex_l2) 5 1000 = SeqRejected.
Proof.
  rewrite <- (classifiers_agree (Some ex_l2) 5 1000); [vm_compute; reflexivity|].
  intros st E. injection E as <-. split; vm_compute; reflexivity.
Defined.

(** A pending command is not behind the window of the scene. In any state the
    outbox reaches, and for any ledger the scene can have written with numbers the
    outbox gave out, a pending command's number is not recorded yet or recorded; it is
    never older than the window nor of a stale epoch. It is too far ahead only for a
    ledger that still has an older epoch, or whose greatest number is more than
    [MaxSeqJump] below it. *)
Theorem pending_stays_decidable o id r row s l :
  rtc outbox_step empty_outbox o -> ob_op o !! id = Some r -> op_status r = OpPending ->
  ob_seq o !! op_key r = Some row -> 0 < sq_epoch row ->
  rtc record_step (new_stream_ledger s) l -> scene_behind l (sq_epoch row) (sq_next row) ->
  ClassifySeq (Some l) (op_epoch r) (op_seq r) ∈ [SeqUnseen; SeqAheadOfWindow; SeqApplied; SeqRejected] \/
  ClassifySeq (Some l) (op_epoch r) (op_seq r) = SeqJumpTooFar /\
    (sl_epoch l < sq_epoch row \/ sl_max l + MaxSeqJump < op_seq r).
Proof.
  intros Hrun Hr Hp Hrow He Hl Hb. destruct (outbox_run_wf _ _ empty_outbox_wf Hrun) as (Hwf & _).
  destruct (ow_row _ Hwf id r Hr) as (row' & Hrow' & -> & Hseq). assert (row' = row) as -> by congruence.
  destruct (ow_window _ Hwf _ _ Hrow) as [_ Hspan]. specialize (Hspan id r Hr eq_refl Hp). cbn in Hspan.
  destruct (run_refines _ _ _ (new_refines s) Hl) as (b & Href & _). by apply (in_window l b _ (sq_next row)).
Qed.

(** ** The signed text and the receipts *)
Lemma find_receipt_found x l o digest rc :
  find_receipt (Some x) l o digest = Some rc -> rc = x /\ forall y, y ∈ l -> rc_seq y <> o_seq o.
Proof.
  induction l as [|y l IH]; cbn [find_receipt]; [intros [= ->]; split; [done|by intros ? ?%not_elem_of_nil]|].
  split_if; [|done]. zbool. intros [-> Hl]%IH. split; [done|]. intros z [->|Hz]%elem_of_cons; [done|by apply Hl].
Qed.

(** The receipt found is the only one of its number, and names the command and the digest. *)
Lemma find_receipt_only l o digest rc : find_receipt None l o digest = Some rc ->
  rc ∈ l /\ rc_seq rc = o_seq o /\ rc_correlation rc = o_correlation o /\ rc_digest rc = digest /\
  forall y, y ∈ l -> rc_seq y = o_seq o -> y = rc.
Proof.
  induction l as [|x l IH]; cbn [find_receipt]; [done|]. split_if.
  - zbool. intros (Hin & Hs & Hc & Hd & Hu)%IH. split_and!; try done; [by right|].
    intros y [->|Hy]%elem_of_cons Hys; [done|by apply Hu].
  - zbool. cbn [is_some orb]. split_if; [done|]. intros [-> Hl]%find_receipt_found.
    match goal with E : _ || _ = false |- _ => apply orb_false_iff in E as [[Hc _]%orb_false_iff Hd] end. zbool.
    apply String.eqb_eq in Hd. split_and!; try done; [by left|].
    intros y [->|Hy]%elem_of_cons Hys; [done|]. by apply Hl in Hy.
Qed.

(** The ledger of the command's stream is the only one, and of its epoch. *)
Lemma select_stream_found x l o r : select_stream (Some x) l o = Some r -> r = Some x /\ forall st, st ∈ l -> sl_stream st <> o_stream o.
Proof.
  induction l as [|y l IH]; cbn [select_stream]; [intros [= ->]; split; [done|by intros ? ?%not_elem_of_nil]|].
  split_if; [|done]. zbool. intros [-> Hl]%IH. split; [done|]. intros z [->|Hz]%elem_of_cons; [done|by apply Hl].
Qed.

Lemma select_stream_only l o st : select_stream None l o = Some (Some st) ->
  st ∈ l /\ sl_stream st = o_stream o /\ sl_epoch st = o_epoch o /\ forall y, y ∈ l -> sl_stream y = o_stream o -> y = st.
Proof.
  induction l as [|x l IH]; cbn [select_stream]; [done|]. split_if.
  - zbool. intros (Hin & Hs & He & Hu)%IH. split_and!; try done; [by right|].
    intros y [->|Hy]%elem_of_cons Hys; [done|by apply Hu].
  - zbool. cbn [is_some orb]. split_if; [done|]. zbool. intros [[= ->] Hl]%select_stream_found. split_and!; try done; [by left|].
    intros y [->|Hy]%elem_of_cons Hys; [done|]. by apply Hl in Hy.
Qed.

Section wire.
Context (marshal_item : AssetItemInstance -> string) (marshal_pet : AssetPetInstance -> string).
(** C36: the signed text names one request. Two requests with the same text are for the
    same method, by the same caller, at the same time, and carry the same command: the
    player, the stream, the epoch, the number, the correlation, the transaction type
    and the whole bundle, down to the encoded bytes of every instance in it. Only the
    callers' names must be single lines. *)
Theorem signed_text_binds rpc1 rpc2 q1 q2 t1 t2 :
  one_line (au_caller (q_auth q1)) = true -> one_line (au_caller (q_auth q2)) = true ->
  Canonical marshal_item marshal_pet rpc1 q1 t1 = Canonical marshal_item marshal_pet rpc2 q2 t2 ->
  rpc1 = rpc2 /\ t1 = t2 /\ au_caller (q_auth q1) = au_caller (q_auth q2) /\ q_player q1 = q_player q2 /\
  q_stream q1 = q_stream q2 /\ q_epoch q1 = q_epoch q2 /\ q_seq q1 = q_seq q2 /\
  q_correlation q1 = q_correlation q2 /\ q_tx q1 = q_tx q2 /\ same_bundle marshal_item marshal_pet (q_bundle q1) (q_bundle q2).
Proof. apply Canonical_inj. Qed.

Definition digest_text (o : Op) (caller : string) : string :=
  Canonical marshal_item marshal_pet RPCDebit (with_auth (Request o) (mkAuth caller 0 "")) 0.
Context (sha256 : string -> string).

(** The ledger has one stream of the command's kind, of its epoch, and in it one receipt
    of its number, with its correlation and the digest of its text. *)
Definition names_command (ledger : Ledger) (o : Op) (rc : AssetOpReceipt) : Prop :=
  exists st caller, st ∈ ledger /\ sl_stream st = o_stream o /\ sl_epoch st = o_epoch o /\
    (forall y, y ∈ ledger -> sl_stream y = o_stream o -> y = st) /\
    rc ∈ sl_receipts st /\ rc_seq rc = o_seq o /\ rc_correlation rc = o_correlation o /\
    (forall y, y ∈ sl_receipts st -> rc_seq y = o_seq o -> y = rc) /\
    receipt_caller (o_stream o) = Some caller /\ rc_digest rc = sha256 (digest_text o caller).

Lemma matchingReceipt_names l o rc :
  matchingReceipt marshal_item marshal_pet sha256 l o = Some rc -> names_command l o rc.
Proof.
  unfold matchingReceipt, receiptDigest. destruct (receipt_caller (o_stream o)) as [caller|] eqn:Hc; [|done].
  split_if; [done|]. destruct (select_stream None l o) as [[st|]|] eqn:Hsel; [|done..].
  apply select_stream_only in Hsel as (Hin & Hstr & Hep & Hone). intros (Hrc & Hs & Hco & Hd & Hu)%find_receipt_only.
  by exists st, caller.
Qed.

End wire.

(** ** Evidence *)
(** The snapshot names exactly the instances that the command took. *)
Definition names_instances (o : Op) (s : AssetSnapshot) : Prop :=
  (ii_uuid <$> as_items s) ≡ₚ b_uuids (o_bundle o) /\
  match as_pet s with Some p => pi_pet_id p = b_pet (o_bundle o) /\ b_pet (o_bundle o) <> 0 | None => b_pet (o_bundle o) = 0 end.

Lemma uses_up_spec ids items : uses_up ids items = true ->
  NoDup (ii_uuid <$> items) /\ forall x, x ∈ ii_uuid <$> items <-> x ∈ ids.
Proof.
  revert ids. induction items as [|i items IH]; intros ids; csimpl.
  { intros ->%bool_decide_eq_true_1. split; [constructor|done]. }
  intros [[[_ Hin%bool_decide_eq_true_1]%andb_true_iff _]%andb_true_iff Hu]%andb_true_iff.
  destruct (IH _ Hu) as [Hnd Hiff]. split.
  - constructor; [|done]. rewrite Hiff, elem_of_keep_if. intros [_ Hx]. by rewrite Z.eqb_refl in Hx.
  - intros x. rewrite elem_of_cons, Hiff, elem_of_keep_if. destruct (Z.eqb_spec x (ii_uuid i)) as [->|]; cbn; naive_solver.
Qed.

Lemma snapshot_names o s : receiptSnapshotMatches o (Some s) = true -> names_instances o s.
Proof.
  unfold receiptSnapshotMatches. intros [[[[_ Hl]%andb_true_iff Hp]%andb_true_iff Hu]%andb_true_iff Hpet]%andb_true_iff.
  apply Nat.eqb_eq in Hl. apply eqb_prop in Hp. destruct (uses_up_spec _ _ Hu) as [Hnd Hiff]. split.
  - apply submseteq_length_Permutation; [|rewrite length_fmap; lia]. apply NoDup_submseteq; [done|]. intros x. by rewrite Hiff.
  - destruct (as_pet s) as [pet|]; cbn in Hp.
    + apply andb_true_iff in Hpet as [Hid _]. symmetry in Hp. zbool. done.
    + symmetry in Hp. by zbool.
Qed.

Section evidence.
Context {W : Type} `{LoopWorld W}.
Context (marshal_item : AssetItemInstance -> string) (marshal_pet : AssetPetInstance -> string).
Context (sha256 : string -> string).
Context (l : Loop).

(** Where one delivery of [o] reads: after the scene's answer, or after the first such read. *)
Definition reads_in (w : W) (o : Op) (w1 : W) : Prop :=
  exists rpc, rpcFor o (lw_now w) = Some rpc /\
    let answered := lw_do w rpc (Request o) in
    w1 = answered.1 \/ w1 = (tryPersistedLedger marshal_item marshal_pet sha256 l answered.1 o answered.2.1).1.

(** A read of the player's committed ledger in one of the states [At] proves the answer [r] for [o]. *)
Definition evidence (At : W -> Prop) (o : Op) (r : Result) : Prop :=
  exists (w1 w2 : W) ledger rc, At w1 /\ lw_sql w1 (o_player o) = (w2, Ok (Some ledger)) /\
    names_command marshal_item marshal_pet sha256 ledger o rc /\
    persisted_outcome o ledger = rs_outcome r /\ isSceneTerminal (rs_outcome r) = true /\
    rs_durable r = true /\ rs_committed r = true /\
    (if (rs_outcome r =? OUTCOME_APPLIED) && escrowsInstances o
     then exists s, rc_snapshot rc = Some s /\ rs_snapshot r = Some s /\ names_instances o s
     else rs_snapshot r = None).

Lemma Terminal_terminal r : Terminal r = true -> rs_durable r = true /\ isSceneTerminal (rs_outcome r) = true.
Proof. unfold Terminal, isSceneTerminal. by intros [? ?]%andb_true_iff. Qed.

Lemma proved_evidence (At : W -> Prop) w1 w2 o ledger : At w1 ->
  lw_sql w1 (o_player o) = (w2, Ok (Some ledger)) ->
  Terminal (proved_by marshal_item marshal_pet sha256 o ledger true) = true ->
  evidence At o (proved_by marshal_item marshal_pet sha256 o ledger true).
Proof.
  intros Hat Hsql [Hd Ht]%Terminal_terminal. exists w1, w2, ledger. unfold proved_by, persisted_outcome in *.
  destruct (ClassifyPersisted _ _ _ _) as [[outcome partial] reason]. cbn. unfold resultWithReceipt in *.
  destruct (matchingReceipt _ _ _ ledger o) as [rc|] eqn:Hm; [|done]. apply matchingReceipt_names in Hm. exists rc. cbn [rs_outcome] in *.
  destruct ((outcome =? OUTCOME_APPLIED) && escrowsInstances o) eqn:E.
  - destruct (receiptSnapshotMatches o (rc_snapshot rc)) eqn:Hs; [|done]. cbn in *. rewrite E.
    destruct (rc_snapshot rc) as [s|] eqn:Hrc; [|done]. split_and!; try done. exists s. split_and!; try done. by apply snapshot_names.
  - destruct (snapshotHasInstances (rc_snapshot rc)); [done|]. cbn in *. rewrite E. split_and!; done.
Qed.

Lemma Terminal_proved o ledger c :
  isSceneTerminal (persisted_outcome o ledger) = true ->
  rs_durable (proved_by marshal_item marshal_pet sha256 o ledger c) = true ->
  Terminal (proved_by marshal_item marshal_pet sha256 o ledger c) = true.
Proof.
  unfold proved_by, persisted_outcome. destruct (ClassifyPersisted _ _ _ _) as [[outcome partial] reason]. cbn.
  unfold resultWithReceipt, Terminal. intros Ho. destruct (matchingReceipt _ _ _ _ _); [|done].
  by repeat (split_if; cbn); intros.
Qed.

Lemma tryPersisted_evidence w o r w' r' :
  RequireSQLCommit (lp_cfg l) = true -> tryPersistedLedger marshal_item marshal_pet sha256 l w o r = (w', r') ->
  r' = r \/ (Terminal r' = true -> evidence (eq w) o r').
Proof.
  intros Hreq. unfold tryPersistedLedger, readFinalLedger. rewrite Hreq. cbn [negb]. split_if; [by intros [= <- <-]; left|].
  split_if; [by intros [= <- <-]; left|]. destruct (lw_sql w (o_player o)) as [w1 [[ledger|]|]] eqn:Hs;
    [|by intros [= <- <-]; left..]. split_if; intros [= <- <-]; [by left|right]. by apply (proved_evidence _ w w1).
Qed.

Lemma verify_evidence w o r w' r' :
  verifySQLCommit marshal_item marshal_pet sha256 l w o r = (w', (r', None)) -> rs_durable r' = true -> evidence (eq w) o r'.
Proof.
  unfold verifySQLCommit. cbv zeta. split_if; [by intros [= <- <-]|]. split_if; [by intros [= <- <-]|].
  destruct (lw_sql w (o_player o)) as [w1 [[ledger|]|]] eqn:Hs; [|by intros [= <- <-]..].
  split_if; [by intros [= <- <-]|].
  destruct (Terminal (proved_by marshal_item marshal_pet sha256 o ledger true)) eqn:Ht; cbn [negb].
  2: { intros [= <- <-] Hd. rewrite Terminal_proved in Ht; [done| |done]. by zbool. }
  split_if; [done|]. destruct (proved_evidence (eq w) w w1 o ledger eq_refl Hs Ht) as (u1 & u2 & lg & rc & Hev).
  set (p := proved_by _ _ _ o ledger true) in *. clearbody p. intros [= <- <-] _. exists u1, u2, lg, rc.
  by split_if.
Qed.

Lemma evidence_at (At At' : W -> Prop) o r : evidence At o r -> (forall w, At w -> At' w) -> evidence At' o r.
Proof. intros (w1 & w2 & lg & rc & Hat & Hx) Hsub. exists w1, w2, lg, rc. split; [by apply Hsub|done]. Qed.

Lemma settle_finalized w o rpc r err now w' p :
  settle l w o rpc r err now = (w', Ok p) -> p_finalized p = true -> Decide r err = ActionFinalize /\ p_result p = r.
Proof.
  assert (Hre : forall w o n r now w' p, reschedule w o n r now = (w', Ok p) -> p_finalized p = false).
  { clear. intros w o n r now w' p. unfold reschedule. destruct (lw_reschedule _ _ _ _ _) as [w1 [e|]]; [split_if|]; by intros [= <- <-]. }
  unfold settle. cbv zeta. destruct (Decide r err) eqn:Hd; intros Hs Hf.
  - unfold finalize in Hs. cbv zeta in Hs. split_if; [apply Hre in Hs; congruence|].
    destruct (lw_finalize _ _ _ _ _) as [w1 [f|]]; [|done]. by injection Hs as <- <-.
  - apply Hre in Hs. congruence.
  - split_if; [|apply Hre in Hs; congruence]. unfold rescheduleTransportFailure in Hs. cbv zeta in Hs.
    destruct (reschedule _ _ _ _ _) as [w1 [q|]] eqn:Hq; [|done]. apply Hre in Hq. injection Hs as <- <-. cbn in Hf. congruence.
  - apply Hre in Hs. congruence.
Qed.

(** C7: with the switch on, a command is closed only on the evidence of the player's
    SQL commit. If one delivery closes a command then this delivery has read the committed
    ledger of the player, after the scene answered; the ledger has one stream of the
    command's kind and epoch, which records exactly the outcome that is written, and in it
    one receipt of its number, with its correlation and the digest of its text; and the
    snapshot that
    is handed on is the receipt's, naming exactly the items and the pet that the command
    took. That an answer of the scene does not bring the mark of a committed read itself is
    what [AssetCaller] proves of its caller, and assumed here. *)
Theorem closed_on_committed_evidence w o w' p :
  RequireSQLCommit (lp_cfg l) = true -> (forall w rpc q, rs_committed (lw_do w rpc q).2.1 = false) ->
  ProcessOne marshal_item marshal_pet sha256 l w o = (w', Ok p) -> p_finalized p = true ->
  evidence (reads_in w o) o (p_result p).
Proof.
  intros Hreq Hdo. unfold ProcessOne. cbv zeta. destruct (rpcFor o (lw_now w)) as [rpc|] eqn:Hrpc.
  2: { unfold reschedule. destruct (lw_reschedule _ _ _ _ _) as [w1 [e|]]; [split_if|]; by intros [= <- <-]. }
  destruct (deliver _ _ _ l w o rpc) as [w1 [r err]] eqn:Hd. intros Hs Hf.
  destruct (settle_finalized _ _ _ _ _ _ _ _ Hs Hf) as [Hdec ->]. clear Hs Hf.
  assert (Hok : err = None /\ Terminal r = true).
  { unfold Decide in Hdec. destruct err as [e|]; [by split_if|]. split; [done|]. unfold Terminal.
    destruct (rs_outcome r =? OUTCOME_UNKNOWN); [done|]. split_if; [|by split_if].
    destruct (rs_durable r); [done|done]. }
  destruct Hok as [-> Ht]. pose proof (Terminal_terminal _ Ht) as [Hdur Hterm]. unfold deliver in Hd.
  assert (forall w1, w1 = (lw_do w rpc (Request o)).1 \/
      w1 = (tryPersistedLedger marshal_item marshal_pet sha256 l (lw_do w rpc (Request o)).1 o (lw_do w rpc (Request o)).2.1).1 ->
    reads_in w o w1) as Hread by (intros u Hu; by exists rpc).
  specialize (Hdo w rpc (Request o)). destruct (lw_do w rpc (Request o)) as [w2 [r0 e0]]. cbn in Hdo, Hread.
  set (x := if negb (is_some e0) && rs_local r0 then tryPersistedLedger _ _ _ l w2 o r0 else (w2, r0)) in Hd.
  destruct x as [w3 r3] eqn:Hx. subst x.
  assert (Hr3 : r3 = r0 \/ (Terminal r3 = true -> evidence (eq w2) o r3)).
  { revert Hx. split_if; [|by intros [= <- <-]; left]. by apply tryPersisted_evidence. }
  destruct (negb (is_some e0) && negb (rs_committed r3) && isSceneTerminal (rs_outcome r3)) eqn:Hv; rewrite ?Hreq in Hd.
  - eapply evidence_at; [by eapply verify_evidence|]. intros u <-. apply Hread.
    revert Hx. split_if; intros E; [right; by rewrite E|left; by injection E].
  - injection Hd as <- <- ->. destruct Hr3 as [->|Hev]; [|eapply evidence_at; [by apply Hev|intros u <-; apply Hread; by left]]. rewrite Hdo, Hterm in Hv. done.
Qed.
End evidence.

(** ** Delays *)

(** The delay from which [NextAttemptMs] takes its jitter is the base doubled per
    attempt, sixteen times at most, and capped: it lies between the base and the cap
    whatever the number of attempts, and the [int64] shift does not overflow for a base
    below 39 hours. The jitter of up to a fifth either way comes after it. *)
Theorem backoff_bounds attempts base max :
  0 <= attempts -> 0 < base <= max -> max < 2 ^ 63 -> base < 2 ^ 47 ->
  backoffDelay attempts base max = Z.min (base * 2 ^ Z.min attempts 16) max /\
  base <= backoffDelay attempts base max <= max.
Proof.
  intros Ha Hb Hm Hs. assert (Hpow : 1 <= 2 ^ Z.min attempts 16 <= 2 ^ 16).
  { split; [|apply Z.pow_le_mono_r; lia]. change 1 with (2 ^ 0). apply Z.pow_le_mono_r; lia. }
  assert (backoffDelay attempts base max = Z.min (base * 2 ^ Z.min attempts 16) max) as ->; [|nia].
  unfold backoffDelay, shl_i64. rewrite (proj2 (Z.leb_gt base 0)), (proj2 (Z.ltb_ge max base)) by lia. cbv zeta.
  assert ((if 16 <? attempts then 16 else attempts) = Z.min attempts 16) as -> by (split_if; zbool; lia).
  rewrite Z.shiftl_mul_pow2 by lia. set (p := 2 ^ Z.min attempts 16) in *. clearbody p.
  assert (base * p < 2 ^ 63) by (change (2 ^ 63) with (2 ^ 47 * 2 ^ 16); nia).
  assert (i64 (base * p) = base * p) as ->.
  { unfold i64, u64_mod. rewrite Z.mod_small; [lia|]. change (18446744073709551616 / 2) with (2 ^ 63). nia. }
  rewrite (proj2 (Z.ltb_lt 0 (base * p))) by nia. cbn [andb]. destruct (base * p <=? max) eqn:E; zbool; lia.
Qed.

(** ** Where a command is sent *)

(** A command is sent only to the node that holds the player. When the mirror was
    built by a full read and the events since, all of which parse, and the locator
    answers an endpoint, then the player's location names a zone and a node, exactly
    one registration in the directory carries that identity, and the endpoint is its
    own, in whatever order the mirror is visited. *)
Theorem located_node_is_registered decode kvs evs raw synced order dial t :
  Forall (event_parses decode) evs ->
  order ≡ₚ (map_to_list (foldl (handleEvent decode) (fullSync decode kvs) evs)).*2 ->
  Resolve raw synced order dial = Ok t ->
  exists loc key value e, raw = Ok (RawLocation (Some loc)) /\ pl_node loc <> ""%string /\
    foldl registry_event kvs evs !! key = Some value /\ parse decode key value = Some e /\
    node_matches (pl_zone loc) (pl_node loc) e = true /\ tg_endpoint t = ne_endpoint e /\
    forall key' value' e', foldl registry_event kvs evs !! key' = Some value' -> parse decode key' value' = Some e' ->
      node_matches (pl_zone loc) (pl_node loc) e' = true -> key' = key.
Proof.
  intros Hevs Hord Hres. rewrite watch_mirrors in Hord by done. set (reg := foldl registry_event kvs evs) in *.
  destruct (Resolve_sound _ _ _ _ _ Hres) as (loc & e & Hraw & _ & Hn & Hone & Hep & _).
  assert (Hin : forall e', e' ∈ order <-> exists key value, reg !! key = Some value /\ parse decode key value = Some e').
  { intros e'. rewrite Hord, list_elem_of_fmap. unfold fullSync. split.
    - intros ([key x] & -> & Hx%elem_of_map_to_list). rewrite map_lookup_imap in Hx.
      destruct (reg !! key) as [value|] eqn:Hk; [|done]. by exists key, value.
    - intros (key & value & Hk & Hp). exists (key, e'). split; [done|]. apply elem_of_map_to_list.
      by rewrite map_lookup_imap, Hk. }
  assert (He : e ∈ order /\ node_matches (pl_zone loc) (pl_node loc) e = true).
  { assert (He : e ∈ keep_if (node_matches (pl_zone loc) (pl_node loc)) order) by (rewrite Hone; set_solver).
    by apply elem_of_keep_if in He. }
  destruct He as [He Hm]. destruct (proj1 (Hin e) He) as (key & value & Hk & Hp). exists loc, key, value, e.
  split_and!; try done. intros key' value' e' Hk' Hp' Hm'. destruct (decide (key' = key)) as [|Hne]; [done|exfalso].
  assert (Hsub : [e; e'] ⊆+ order).
  { rewrite Hord. change [e; e'] with ([(key, e); (key', e')].*2). apply fmap_submseteq, NoDup_submseteq.
    - apply NoDup_cons; split; [|apply NoDup_singleton]. rewrite list_elem_of_singleton. by intros [= -> _].
    - intros [k x]. rewrite !elem_of_cons, elem_of_nil, elem_of_map_to_list. unfold fullSync. rewrite map_lookup_imap.
      intros [[= -> ->]|[[= -> ->]|[]]]; [by rewrite Hk|by rewrite Hk']. }
  apply submseteq_Permutation in Hsub as [rest Hrest].
  assert (Hlen : length (keep_if (node_matches (pl_zone loc) (pl_node loc)) order) = 1%nat) by (by rewrite Hone).
  assert (Hkp : keep_if (node_matches (pl_zone loc) (pl_node loc)) order ≡ₚ
    keep_if (node_matches (pl_zone loc) (pl_node loc)) ([e; e'] ++ rest)) by (by apply keep_if_perm).
  rewrite Hkp in Hlen. cbn in Hlen. rewrite Hm, Hm' in Hlen. cbn in Hlen. lia.
Qed.

(** ** They apply *)
Lemma pending_stays_decidable_witness :
  ob_op ex_o4 !! 900 = Some (default (ex_op 0 0) (ob_op ex_o4 !! 900)) /\
  ClassifySeq (Some (new_stream_ledger 3)) 5 1 ∈ [SeqUnseen; SeqAheadOfWindow; SeqApplied; SeqRejected].
Proof.
  split; [vm_compute; reflexivity|].
  destruct (pending_stays_decidable ex_o4 900 (default (ex_op 0 0) (ob_op ex_o4 !! 900)) (mkSeqRow 2 5 10) 3
    (new_stream_ledger 3)) as [H|[H _]].
  - exact ex_outbox_4. - vm_compute; reflexivity. - vm_compute; reflexivity. - vm_compute; reflexivity. - reflexivity.
  - apply rtc_refl. - left. reflexivity. - exact H. - vm_compute in H. discriminate.
Defined.

Definition ex_request (amount : Z) : AssetOpRequest :=
  mkRequest 11 3 1 900 3 (mkBundle [(1, amount)] [] [] 0 [] None) 5 (mkAuth "trade" 0 "").

(** A changed amount changes the text. *)
Lemma signed_text_binds_witness :
  Canonical (fun _ => ""%string) (fun _ => ""%string) RPCDebit (ex_request 10) 7 <>
  Canonical (fun _ => ""%string) (fun _ => ""%string) RPCDebit (ex_request 1000) 7.
Proof.
  intros E. destruct (signed_text_binds (fun _ => ""%string) (fun _ => ""%string) RPCDebit RPCDebit (ex_request 10)
    (ex_request 1000) 7 7 ltac:(reflexivity) ltac:(reflexivity) E) as (_ & _ & _ & _ & _ & _ & _ & _ & _ & Hb & _).
  discriminate Hb.
Defined.

(** A digest function of 32 bytes for the samples. *)
Definition ex_sha (s : string) : string := "00000000000000000000000000000000".
Definition ex_view : Op := mkOpView 900 11 3 1 5 900 3 no_bundle 0 0 7 0 10 10.
Definition ex_bits : list Z := 1 :: replicate 15 0.
Definition ex_committed : Ledger := [mkStreamLedger 3 5 0 1 ex_bits ex_bits [] [] [mkReceipt 1 900 (ex_sha "") None]].

(** A world in which the scene says it applied the command and the commit shows it. *)
#[local] Instance ex_world : LoopWorld () := {|
  lw_now _ := 500; lw_done _ := false; lw_budget _ := true; lw_slot _ := true; lw_token w := (w, Ok 7); lw_rand _ := None;
  lw_do w _ _ := (w, (mkResult OUTCOME_APPLIED 0 true false false None false false, None));
  lw_persisted w _ := (w, Ok None); lw_sql w _ := (w, Ok (Some ex_committed)); lw_verified w _ := (w, Ok (None, false));
  lw_locate w _ := (w, Err ErrNotOnline); lw_list_due w _ _ := (w, Ok []); lw_list_player w _ _ := (w, Ok []);
  lw_list_abandon w _ _ _ := (w, Ok []); lw_claim w _ _ _ _ _ := (w, Ok None);
  lw_finalize w _ _ _ _ := (w, Ok true); lw_reschedule w _ _ _ _ := (w, None); lw_abandon w _ _ := (w, None);
  lw_release w _ _ := (w, None) |}.

Definition ex_loop : Loop :=
  mkLoop (mkLoopConfig (2 * Second) 100 8 (10 * Second) (2500 * Millisecond) Second (60 * Second) (500 * Millisecond) Hour 3 []
    5 (30 * Minute) (180 * 24 * Hour) Hour 200 Hour (24 * Hour) true true) true true true true true true.

Definition ex_applied : Result := mkResult OUTCOME_APPLIED 0 true true false None false false.

Lemma closed_on_committed_evidence_witness :
  ProcessOne (fun _ => ""%string) (fun _ => ""%string) ex_sha ex_loop () ex_view = ((), Ok (mkProcessed ex_applied true OpApplied)) /\
  evidence (W := ()) (fun _ => ""%string) (fun _ => ""%string) ex_sha
    (reads_in (fun _ => ""%string) (fun _ => ""%string) ex_sha ex_loop () ex_view) ex_view ex_applied.
Proof.
  assert (Hrun : ProcessOne (fun _ => ""%string) (fun _ => ""%string) ex_sha ex_loop () ex_view =
    ((), Ok (mkProcessed ex_applied true OpApplied))) by (vm_compute; reflexivity).
  split; [exact Hrun|].
  apply (closed_on_committed_evidence (fun _ => ""%string) (fun _ => ""%string) ex_sha ex_loop () ex_view ()
    (mkProcessed ex_applied true OpApplied)); [reflexivity|intros [] rpc q; reflexivity|exact Hrun|reflexivity].
Defined.

Lemma backoff_bounds_witness : backoffDelay 4 Second (60 * Second) = Z.min (Second * 2 ^ Z.min 4 16) (60 * Second).
Proof. apply (backoff_bounds 4 Second (60 * Second)); vm_compute; try split; try reflexivity; discriminate. Defined.

Definition ex_decode (value : string) : option Registration := Some (mkRegistration 7 1 "u" value 5000).
Definition ex_registry : gmap string string := {["/scene/1"%string := "10.0.0.1"%string]}.
Definition ex_events : list event := [EventPut "/scene/2" "10.0.0.2"; EventDelete "/scene/1"].
Definition ex_order : list NodeEntry := (map_to_list (foldl (handleEvent ex_decode) (fullSync ex_decode ex_registry) ex_events)).*2.

Lemma located_node_is_registered_witness :
  exists key value e, foldl registry_event ex_registry ex_events !! key = Some value /\ parse ex_decode key value = Some e /\
    ne_endpoint e = "10.0.0.2:5000"%string.
Proof.
  destruct (located_node_is_registered ex_decode ex_registry ex_events (Ok (RawLocation (Some (mkLocation 1 "7" 3)))) true
    ex_order (fun _ => Ok ()) (mkTarget "10.0.0.2:5000" true)) as (loc & key & value & e & _ & _ & Hk & Hp & _ & He & _).
  - constructor; [by eexists|constructor; [exact I|constructor]].
  - reflexivity.
  - vm_compute. reflexivity.
  - exists key, value, e. split; [exact Hk|split; [exact Hp|]]. symmetry. exact He.
Defined.
