(* ===== verification/DbTask.v ===== *)
(** * Database tasks: what one message of the write stream carries

    Scenes and logins send a player's rows to [go/db] as [DBTask] messages through
    Kafka. This file holds the pure part of [key_ordered_consumer.go]: the task, the
    applied cursor and its text, the decision whether a task is newer than the
    cursor, the owner epoch and its guard, the decimal comparison of the Redis
    scripts, the payload of the retry queue and the choice of a sub-shard. *)

From stdpp Require Import base list strings pretty.
From Stdlib Require Import ZArith Lia Ascii.
From S2P Require Import Prelude.
Local Open Scope Z_scope.

Definition DB_OP_READ : Z := 1.
Definition DB_OP_WRITE : Z := 2.

(** [DBTask] of [proto/db/db_task.proto]. *)
Record DBTask := mkDBTask {
  dt_key : Z; dt_where : string; dt_op : Z; dt_type : string; dt_body : string; dt_id : string;
  dt_retry : Z; dt_epoch : Z; dt_save : Z; dt_reply : string }.

#[global] Instance DBTask_eq_dec : EqDecision DBTask.
Proof. solve_decision. Defined.

Definition is_write (t : DBTask) : bool := dt_op t =? DB_OP_WRITE.
Definition is_read (t : DBTask) : bool := dt_op t =? DB_OP_READ.
(** [_, ok := dbOpHandlers[task.Op]] *)
Definition has_handler (op : Z) : bool := (op =? DB_OP_READ) || (op =? DB_OP_WRITE).

Definition set_retry (t : DBTask) (n : Z) : DBTask :=
  mkDBTask (dt_key t) (dt_where t) (dt_op t) (dt_type t) (dt_body t) (dt_id t) n (dt_epoch t) (dt_save t) (dt_reply t).

(** ** The applied cursor *)
Record appliedCursor := mkCursor { cu_partition : Z; cu_seq : Z; cu_has : bool }.

Inductive orderingDecision := orderingApply | orderingStale | orderingIncomparable.

(** [%d] of an [int32], and [strconv.ParseInt(s, 10, 32)]. *)
Definition FormatInt (n : Z) : string := if n <? 0 then ("-" +:+ FormatUint (- n))%string else FormatUint n.
Definition ParseInt32 (s : string) : option Z :=
  let '(sign, digits) :=
    match s with
    | String a s' => if Ascii.eqb a "-" then (-1, s') else if Ascii.eqb a "+" then (1, s') else (1, s)
    | EmptyString => (1, s)
    end in
  n ← ParseUint digits;
  let v := sign * n in
  if (- 2147483648 <=? v) && (v <? 2147483648) then Some v else None.

(** [strings.Split(s, ":")] *)
Fixpoint split_colons (s : string) : list string :=
  match s with
  | EmptyString => [EmptyString]
  | String a s' =>
      if Ascii.eqb a ":" then EmptyString :: split_colons s'
      else match split_colons s' with
      | p :: ps => String a p :: ps
      | [] => [String a EmptyString]
      end
  end.

Definition encodeAppliedCursor (c : appliedCursor) : string :=
  if negb (cu_has c) then FormatUint (cu_seq c)
  else ("v2:" +:+ FormatInt (cu_partition c) +:+ ":" +:+ FormatUint (cu_seq c))%string.

Definition ErrBadCursor : error := "invalid applied cursor"%string.

Definition parseAppliedCursor (raw : string) : res appliedCursor :=
  if String.prefix "v2:" raw then
    match split_colons raw with
    | [_; p; s] =>
        match ParseInt32 p with
        | Some partition =>
            if partition <? 0 then Err ErrBadCursor
            else match ParseUint s with
            | Some seq => if seq =? 0 then Err ErrBadCursor else Ok (mkCursor partition seq true)
            | None => Err ErrBadCursor
            end
        | None => Err ErrBadCursor
        end
    | _ => Err ErrBadCursor
    end
  else match ParseUint raw with
  | Some seq => if seq =? 0 then Err ErrBadCursor else Ok (mkCursor 0 seq false)
  | None => Err ErrBadCursor
  end.

(** ** Tasks on their way through a worker

    A [workerTask] comes from Kafka with its message, or from the retry queue with
    the exact receipt that was claimed. [wt_claim] names the claim whose acker the
    message belongs to, [wt_claimed] says whether it has a [claimCtx]. [retryDone] and
    the enqueue time are left out. *)
Record KafkaMsg := mkMsg { km_partition : Z; km_offset : Z; km_value : string }.

Record workerTask := mkTask {
  wt_msg : option KafkaMsg; wt_task : option DBTask; wt_seq : Z;
  wt_origin : Z; wt_has_origin : bool; wt_from_retry : bool; wt_receipt : string; wt_claimed : bool;
  wt_claim : Z }.

Definition set_task (k : workerTask) (t : DBTask) : workerTask :=
  mkTask (wt_msg k) (Some t) (wt_seq k) (wt_origin k) (wt_has_origin k) (wt_from_retry k) (wt_receipt k) (wt_claimed k)
    (wt_claim k).

(** [orderingForTask], before it reads the cursor... *)
Definition ordering_unread (t : DBTask) (k : workerTask) : option orderingDecision :=
  if wt_from_retry k && ((wt_seq k =? 0) || negb (wt_has_origin k)) then Some orderingIncomparable
  else if negb (is_write t) then Some orderingApply
  else None.

(** ... and once it has read it. *)
Definition ordering_read (raw : option string) (k : workerTask) : res orderingDecision :=
  match raw with
  | None => Ok orderingApply
  | Some raw =>
      previous ← parseAppliedCursor raw;
      if (wt_seq k =? 0) || negb (wt_has_origin k) then Ok orderingIncomparable
      else if negb (cu_has previous) then Ok orderingIncomparable
      else if negb (cu_partition previous =? wt_origin k) then Ok orderingIncomparable
      else if wt_seq k <=? cu_seq previous then Ok orderingStale
      else Ok orderingApply
  end.

(** ** The owner epoch *)
Inductive epochOutcome := LegacyZero | First | Match | Advance | Stale.

Definition ErrEpochText : error := "applied owner epoch is not a decimal integer"%string.

Definition epoch_of_text (raw : option string) : res (option Z) :=
  match raw with
  | None => Ok None
  | Some raw => match ParseUint raw with Some e => Ok (Some e) | None => Err ErrEpochText end
  end.

(** [checkOwnerEpoch] once the stored epoch is read: the outcome and that epoch. *)
Definition epoch_verdict (t : DBTask) (applied : option Z) : epochOutcome * Z :=
  match applied with
  | None => (First, 0)
  | Some e => if dt_epoch t <? e then (Stale, e) else if e <? dt_epoch t then (Advance, e) else (Match, e)
  end.

Definition ownerEpochsDiverge (a b : Z) : bool := negb (a =? 0) && negb (b =? 0) && negb (a =? b).

(** ** Comparing decimals in Lua ([luaDecimalGreaterFn]) *)
Definition is_digit (a : ascii) : bool := bool_decide (is_Some (digit a)).

Definition is_dec (s : string) : bool :=
  String.eqb s "0" ||
  match s with
  | String a s' => is_digit a && negb (Ascii.eqb a "0") && chars is_digit s'
  | EmptyString => false
  end.

(** The byte loop, which is also [version_gt] of the save barrier. *)
Fixpoint bytes_gt (a b : string) : bool :=
  match a, b with
  | String x a', String y b' => if Ascii.eqb x y then bytes_gt a' b' else (N_of_ascii y <? N_of_ascii x)%N
  | _, _ => false
  end.

Definition dec_gt (a b : string) : bool :=
  if negb (String.length a =? String.length b)%nat then (String.length b <? String.length a)%nat
  else bytes_gt a b.

(** ** The payload of the retry queue *)
Definition byte_of (z : Z) : ascii := ascii_of_N (Z.to_N (z mod 256)).
Definition of_byte (a : ascii) : Z := Z.of_N (N_of_ascii a).

(** [binary.BigEndian.PutUint64] and [PutUint32], of [n] bytes. *)
Fixpoint put_be (n : nat) (z : Z) : string :=
  match n with O => EmptyString | S n' => String (byte_of (Z.shiftr z (8 * Z.of_nat n'))) (put_be n' z) end.
Fixpoint get_be (acc : Z) (n : nat) (s : string) : Z :=
  match n, s with
  | S n', String a s' => get_be (acc * 256 + of_byte a) n' s'
  | _, _ => acc
  end.
Fixpoint drop_bytes (n : nat) (s : string) : string :=
  match n, s with S n', String _ s' => drop_bytes n' s' | _, _ => s end.

(** An [int32], as the number of retries is. *)
Definition is_i32 (z : Z) : Prop := - 2147483648 <= z < 2147483648.

Definition int32 (z : Z) : Z := if z <? 2147483648 then z else z - u32_mod.

Definition retryPayloadMagic : ascii := "001".
Definition retryPayloadMagicV2 : ascii := "002".

Definition wrapRetryPayload (seq partition : Z) (taskBytes : string) : string :=
  String retryPayloadMagicV2 (put_be 8 seq +:+ (put_be 4 (u32 partition) +:+ taskBytes))%string.

(** Sequence number, partition, whether the partition is known, the task's bytes. *)
Definition unwrapRetryPayload (payload : string) : Z * Z * bool * string :=
  match payload with
  | String m rest =>
      if (13 <=? Z.of_nat (String.length payload)) && Ascii.eqb m retryPayloadMagicV2 then
        (get_be 0 8 rest, int32 (get_be 0 4 (drop_bytes 8 rest)), true, drop_bytes 12 rest)
      else if (9 <=? Z.of_nat (String.length payload)) && Ascii.eqb m retryPayloadMagic then
        (get_be 0 8 rest, 0, false, drop_bytes 8 rest)
      else (0, 0, false, payload)
  | EmptyString => (0, 0, false, payload)
  end.

(** [encodeRetryPayload] over the bytes of the marshalled task. *)
Definition encodeRetryPayload (taskBytes : string) (seq partition : Z) (hasPartition : bool) : string :=
  if hasPartition then wrapRetryPayload seq partition taskBytes
  else if 0 <? seq then String retryPayloadMagic (put_be 8 seq +:+ taskBytes)%string
  else taskBytes.

(** ** Sub-shards *)
Definition spreadKey (key : Z) : Z :=
  let z := (key +64 11400714819323198485)%go in
  let z := (Z.lxor z (Z.shiftr z 30) *64 13787848793156543929)%go in
  let z := (Z.lxor z (Z.shiftr z 27) *64 10723151780598845931)%go in
  Z.lxor z (Z.shiftr z 31).

Definition subShardIndex (routingKey shardCount : Z) : Z := spreadKey routingKey mod shardCount.

(** ** Facts *)
#[local] Arguments Ascii.eqb : simpl never.
Definition no_colon (s : string) : Prop := chars (fun a => negb (Ascii.eqb a ":")) s = true.

Lemma split_colon_app s k : no_colon s -> split_colons (s +:+ String ":" k)%string = s :: split_colons k.
Proof.
  unfold no_colon. induction s as [|a s IH]; [done|]. cbn. intros [Ha Hs]%andb_true_iff.
  apply negb_true_iff in Ha. change (String a s +:+ String ":" k)%string with (String a (s +:+ String ":" k)).
  cbn [split_colons]. by rewrite Ha, (IH Hs).
Qed.

Lemma split_colon_none s : no_colon s -> split_colons s = [s].
Proof.
  unfold no_colon. induction s as [|a s IH]; [done|]. cbn. intros [Ha Hs]%andb_true_iff.
  apply negb_true_iff in Ha. by rewrite Ha, (IH Hs).
Qed.

Lemma digits_no_colon s : chars is_digit s = true -> no_colon s.
Proof.
  unfold no_colon. induction s as [|a s IH]; [done|]. cbn. intros [Ha Hs]%andb_true_iff.
  rewrite (IH Hs), andb_true_r. destruct (Ascii.eqb a ":") eqn:E; [|done]. apply Ascii.eqb_eq in E. by subst.
Qed.

Lemma FormatUint_no_colon n : no_colon (FormatUint n).
Proof. apply digits_no_colon, FormatUint_digits. Qed.

Lemma FormatUint_unsigned n : exists a s, FormatUint n = String a s /\ is_digit a = true.
Proof.
  pose proof (FormatUint_digits n) as Hd. destruct (FormatUint n) as [|a s] eqn:Hs.
  - unfold FormatUint, pretty, pretty_N in Hs. case_decide; [done|].
    rewrite pretty_N_go_step in Hs by lia. by apply pretty_N_nonempty in Hs.
  - cbn in Hd. apply andb_true_iff in Hd as [Ha _]. by exists a, s.
Qed.

Lemma ParseInt32_FormatInt n : 0 <= n < 2147483648 -> ParseInt32 (FormatInt n) = Some n.
Proof.
  intros Hn. unfold FormatInt. destruct (n <? 0) eqn:Hneg; zbool; [lia|]. unfold ParseInt32.
  destruct (FormatUint_unsigned n) as (a & s & Hs & Ha). rewrite Hs.
  destruct (Ascii.eqb a "-") eqn:E1; [apply Ascii.eqb_eq in E1; by subst|].
  destruct (Ascii.eqb a "+") eqn:E2; [apply Ascii.eqb_eq in E2; by subst|]. rewrite <- Hs.
  rewrite ParseUint_FormatUint by (unfold is_u64, u64_mod; lia). cbn [mbind option_bind].
  rewrite Z.mul_1_l. by replace ((-2147483648 <=? n) && (n <? 2147483648)) with true by (symmetry; zlia).
Qed.

(** What is written is read back: a cursor of a message that has a partition. *)
Lemma parse_encode_cursor p s :
  0 <= p < 2147483648 -> 0 < s < u64_mod ->
  parseAppliedCursor (encodeAppliedCursor (mkCursor p s true)) = Ok (mkCursor p s true).
Proof.
  intros Hp Hs. unfold encodeAppliedCursor, parseAppliedCursor. cbn [cu_has negb cu_partition cu_seq].
  rewrite (prefix_app_true "v2:").
  replace ("v2:" +:+ FormatInt p +:+ ":" +:+ FormatUint s)%string
    with ("v2" +:+ String ":" (FormatInt p +:+ String ":" (FormatUint s)))%string by done.
  rewrite split_colon_app by done.
  assert (no_colon (FormatInt p)) as Hc.
  { unfold FormatInt. destruct (p <? 0) eqn:Hneg; zbool; [lia|]. apply FormatUint_no_colon. }
  rewrite split_colon_app by done. rewrite split_colon_none by apply FormatUint_no_colon.
  rewrite ParseInt32_FormatInt by done. destruct (p <? 0) eqn:Hneg; zbool; [lia|].
  rewrite ParseUint_FormatUint by (unfold is_u64; lia). destruct (s =? 0) eqn:Hz; zbool; [lia|done].
Qed.

(** ** The payload of the retry queue is read back *)
Lemma of_byte_of z : of_byte (byte_of z) = z mod 256.
Proof.
  unfold of_byte, byte_of. pose proof (Z.mod_pos_bound z 256 ltac:(lia)).
  rewrite N_ascii_embedding by lia. lia.
Qed.

Lemma string_app_length (s t : string) : String.length (s +:+ t)%string = (String.length s + String.length t)%nat.
Proof. induction s as [|a s IH]; [done|]. change (String a s +:+ t)%string with (String a (s +:+ t)). cbn. by rewrite IH. Qed.

Lemma put_be_length n z : String.length (put_be n z) = n.
Proof. induction n as [|n IH]; cbn; [done|by rewrite IH]. Qed.

Lemma get_put_be n z acc s :
  get_be acc n (put_be n z +:+ s)%string = acc * 256 ^ Z.of_nat n + z mod 256 ^ Z.of_nat n.
Proof.
  revert acc. induction n as [|n IH]; intros acc.
  - cbn. rewrite Z.mod_1_r. lia.
  - change (put_be (S n) z +:+ s)%string with (String (byte_of (Z.shiftr z (8 * Z.of_nat n))) (put_be n z +:+ s)).
    cbn [get_be]. rewrite IH, of_byte_of, Z.shiftr_div_pow2 by lia. rewrite Z.pow_mul_r by lia.
    change (2 ^ 8) with 256. replace (Z.of_nat (S n)) with (Z.of_nat n + 1) by lia.
    rewrite Z.pow_add_r, Z.pow_1_r by lia. rewrite Z.rem_mul_r by lia. ring.
Qed.

Lemma drop_put_be n z s : drop_bytes n (put_be n z +:+ s)%string = s.
Proof.
  induction n as [|n IH]; [by destruct s|].
  by change (put_be (S n) z +:+ s)%string with (String (byte_of (Z.shiftr z (8 * Z.of_nat n))) (put_be n z +:+ s)).
Qed.

Lemma int32_u32 p : - 2147483648 <= p < 2147483648 -> int32 (u32 p) = p.
Proof.
  intros Hp. unfold int32, u32, u32_mod. destruct (decide (0 <= p)).
  - rewrite Z.mod_small by lia. destruct (p <? _) eqn:E; zbool; lia.
  - rewrite <- (Z.mod_add p 1), Z.mod_small by lia. destruct (_ <? _) eqn:E; zbool; lia.
Qed.

Lemma drop_bytes_add n m s : drop_bytes (n + m) s = drop_bytes m (drop_bytes n s).
Proof. revert s. induction n as [|n IH]; intros [|a s]; cbn; [done..|by destruct m|done]. Qed.

(** What a deferred write leaves in the queue names the message it came from. *)
Lemma unwrap_wrap seq p bytes :
  0 <= seq < u64_mod -> - 2147483648 <= p < 2147483648 ->
  unwrapRetryPayload (wrapRetryPayload seq p bytes) = (seq, p, true, bytes).
Proof.
  intros Hs Hp. unfold unwrapRetryPayload, wrapRetryPayload.
  replace (13 <=? _) with true.
  - cbn [andb Ascii.eqb]. change (Ascii.eqb retryPayloadMagicV2 retryPayloadMagicV2) with true. cbv iota.
    rewrite (drop_bytes_add 8 4), !drop_put_be, !get_put_be. cbn [Z.of_nat].
    rewrite !Z.mul_0_l, !Z.add_0_l. rewrite Z.mod_small by done.
    rewrite (Z.mod_small (u32 p)) by apply (u32_range p). by rewrite int32_u32.
  - symmetry. cbn [String.length]. rewrite !string_app_length, !put_be_length. apply Z.leb_le. lia.
Qed.

(** ** The Lua comparison is the comparison of numbers *)
Fixpoint dec_val (acc : Z) (s : string) : Z :=
  match s with
  | EmptyString => acc
  | String a s' => dec_val (acc * 10 + (of_byte a - 48)) s'
  end.

Lemma is_digit_range a : is_digit a = true <-> 48 <= of_byte a <= 57.
Proof.
  unfold is_digit, digit, of_byte. rewrite bool_decide_eq_true.
  destruct ((48 <=? Z.of_N (N_of_ascii a)) && (Z.of_N (N_of_ascii a) <=? 57)) eqn:E.
  - zbool. split; [lia|]. intros _. by eexists.
  - split; [by intros [? ?]|]. intros ?. exfalso. zlia.
Qed.

Lemma dec_val_spec acc s : chars is_digit s = true ->
  dec_val acc s = acc * 10 ^ Z.of_nat (String.length s) + dec_val 0 s /\
  0 <= dec_val 0 s < 10 ^ Z.of_nat (String.length s).
Proof.
  revert acc. induction s as [|a s IH]; intros acc; [cbn; lia|].
  cbn [chars String.length]. intros [Ha Hs]%andb_true_iff. apply is_digit_range in Ha.
  cbn [dec_val]. destruct (IH (acc * 10 + (of_byte a - 48)) Hs) as [-> Hr].
  destruct (IH (0 * 10 + (of_byte a - 48)) Hs) as [-> _].
  replace (Z.of_nat (S (String.length s))) with (Z.of_nat (String.length s) + 1) by lia.
  rewrite Z.pow_add_r, Z.pow_1_r by lia. split; [ring|nia].
Qed.

Lemma bytes_gt_spec a b :
  chars is_digit a = true -> chars is_digit b = true -> String.length a = String.length b ->
  bytes_gt a b = (dec_val 0 b <? dec_val 0 a).
Proof.
  revert b. induction a as [|x a IH]; intros [|y b]; cbn [chars String.length bytes_gt dec_val];
    [intros; by rewrite Z.ltb_irrefl|done..|].
  intros [Hx Ha]%andb_true_iff [Hy Hb]%andb_true_iff [= Hl].
  pose proof (is_digit_range x) as [Rx _]. pose proof (is_digit_range y) as [Ry _].
  specialize (Rx Hx). specialize (Ry Hy).
  destruct (dec_val_spec (0 * 10 + (of_byte x - 48)) a Ha) as [-> Va].
  destruct (dec_val_spec (0 * 10 + (of_byte y - 48)) b Hb) as [-> Vb]. rewrite <- Hl in *.
  set (p := 10 ^ Z.of_nat (String.length a)) in *.
  destruct (Ascii.eqb x y) eqn:Hxy.
  - apply Ascii.eqb_eq in Hxy as ->. rewrite (IH b Ha Hb Hl).
    destruct (dec_val 0 b <? dec_val 0 a) eqn:E; symmetry; zlia.
  - apply Ascii.eqb_neq in Hxy. unfold of_byte in *.
    assert (N_of_ascii x <> N_of_ascii y) as Hn.
    { intros Hn. apply Hxy. by rewrite <- (ascii_N_embedding x), <- (ascii_N_embedding y), Hn. }
    destruct (N_of_ascii y <? N_of_ascii x)%N eqn:E; symmetry.
    + apply N.ltb_lt in E. apply Z.ltb_lt. nia.
    + apply N.ltb_ge in E. apply Z.ltb_ge. nia.
Qed.

Lemma is_dec_digits s : is_dec s = true ->
  chars is_digit s = true /\ (s = "0"%string \/ 10 ^ (Z.of_nat (String.length s) - 1) <= dec_val 0 s) /\
  (0 < String.length s)%nat.
Proof.
  unfold is_dec. intros [->%String.eqb_eq|H]%orb_true_iff; [split; [done|split; [by left|cbn; lia]]|].
  destruct s as [|a s]; [done|]. zbool. cbn [chars]. split; [by apply andb_true_iff|].
  split; [|cbn; lia]. right. cbn [String.length dec_val].
  destruct (dec_val_spec (0 * 10 + (of_byte a - 48)) s) as [-> Hv]; [done|].
  pose proof (is_digit_range a) as [Ra _]. specialize (Ra ltac:(done)).
  assert (of_byte a <> 48) as Hz.
  { intros Hz. match goal with H : Ascii.eqb a "0" = false |- _ => apply Ascii.eqb_neq in H; apply H end.
    unfold of_byte in Hz. rewrite <- (ascii_N_embedding a). by replace (N_of_ascii a) with 48%N by lia. }
  replace (Z.of_nat (S (String.length s)) - 1) with (Z.of_nat (String.length s)) by lia. nia.
Qed.

Lemma dec_gt_spec a b : is_dec a = true -> is_dec b = true -> dec_gt a b = (dec_val 0 b <? dec_val 0 a).
Proof.
  intros Ha Hb. destruct (is_dec_digits a Ha) as (Da & La & Na). destruct (is_dec_digits b Hb) as (Db & Lb & Nb).
  unfold dec_gt. destruct (String.length a =? String.length b)%nat eqn:El; cbn [negb].
  { apply Nat.eqb_eq in El. by apply bytes_gt_spec. }
  apply Nat.eqb_neq in El. destruct (dec_val_spec 0 a Da) as [_ Va]. destruct (dec_val_spec 0 b Db) as [_ Vb].
  assert (forall s t, (String.length s < String.length t)%nat -> (0 < String.length s)%nat ->
    dec_val 0 s < 10 ^ Z.of_nat (String.length s) ->
    (t = "0"%string \/ 10 ^ (Z.of_nat (String.length t) - 1) <= dec_val 0 t) -> dec_val 0 s < dec_val 0 t) as Hlt.
  { intros s t Hst Hs Vs [->|Ht]; [cbn in Hst; lia|].
    pose proof (Z.pow_le_mono_r 10 (Z.of_nat (String.length s)) (Z.of_nat (String.length t) - 1)). lia. }
  destruct (String.length b <? String.length a)%nat eqn:E; symmetry.
  - apply Nat.ltb_lt in E. apply Z.ltb_lt. apply Hlt; tauto || lia.
  - apply Nat.ltb_ge in E. apply Z.ltb_ge. enough (dec_val 0 a < dec_val 0 b) by lia. apply Hlt; tauto || lia.
Qed.

Lemma parse_digits_val acc s n : parse_digits acc s = Some n -> n = dec_val acc s.
Proof.
  revert acc. induction s as [|a s IH]; intros acc; cbn; [by intros [=]|].
  unfold digit. destruct (_ && _); [|done]. destruct (u64_mod <=? _); [done|]. apply IH.
Qed.

Lemma FormatUint_val n : is_u64 n -> dec_val 0 (FormatUint n) = n.
Proof.
  intros Hn. pose proof (ParseUint_FormatUint n Hn) as Hp. unfold ParseUint in Hp.
  destruct (FormatUint n); [done|]. symmetry. by apply parse_digits_val.
Qed.

Lemma FormatUint_inj n m : is_u64 n -> is_u64 m -> FormatUint n = FormatUint m -> n = m.
Proof. intros Hn Hm Heq. pose proof (ParseUint_FormatUint n Hn) as Hp. rewrite Heq, ParseUint_FormatUint in Hp by done. congruence. Qed.

(** Whatever bytes are unwrapped, the numbers have their widths. *)
Definition wire_range (seq partition : Z) : Prop := 0 <= seq < u64_mod /\ - 2147483648 <= partition < 2147483648.

Lemma get_be_range acc n s : 0 <= acc -> 0 <= get_be acc n s < (acc + 1) * 256 ^ Z.of_nat n.
Proof.
  revert acc s. induction n as [|n IH]; intros acc [|a s] Ha; cbn [get_be]; [lia..|nia|].
  assert (0 <= of_byte a < 256) as Hb by (unfold of_byte; pose proof (N_ascii_bounded a); lia).
  specialize (IH (acc * 256 + of_byte a) s). rewrite Nat2Z.inj_succ, Z.pow_succ_r by lia. nia.
Qed.

Lemma unwrap_range payload seq partition has bytes :
  unwrapRetryPayload payload = (seq, partition, has, bytes) -> wire_range seq partition.
Proof.
  assert (forall z, 0 <= z < 4294967296 -> - 2147483648 <= int32 z < 2147483648) as Hint.
  { intros z Hz. unfold int32, u32_mod. destruct (_ <? _) eqn:E; zbool; lia. }
  unfold unwrapRetryPayload, wire_range, u64_mod. destruct payload as [|m rest]; [intros [= <- <- _ _]; lia|].
  pose proof (get_be_range 0 8 rest ltac:(done)) as H8. pose proof (get_be_range 0 4 (drop_bytes 8 rest) ltac:(done)) as H4.
  change ((0 + 1) * 256 ^ Z.of_nat 8) with 18446744073709551616 in H8. change ((0 + 1) * 256 ^ Z.of_nat 4) with 4294967296 in H4.
  specialize (Hint _ H4). clear H4. revert H8 Hint. generalize (get_be 0 8 rest), (int32 (get_be 0 4 (drop_bytes 8 rest))).
  intros a b Ha Hb. destruct (_ && Ascii.eqb m retryPayloadMagicV2); [by intros [= <- <- _ _]|].
  destruct (_ && _); intros [= <- <- _ _]; lia.
Qed.
