(* ===== verification/DbAcker.v ===== *)
(** * The acknowledgement of a claim's messages

    Kafka keeps one committed offset per partition, and marking a message commits
    everything before it. [claimAcker] of [key_ordered_consumer.go] lets the workers
    finish in any order and marks only the longest finished prefix. [Spec] says what
    it promises, over the list of all messages it was given with their fate;
    [refines_step] shows the code, with its moving head and the compaction of
    its list, keeps the promise. *)

From stdpp Require Import base list gmap sets.
From Stdlib Require Import ZArith Lia.
From S2P Require Import Prelude.
Local Open Scope Z_scope.

(** [ak_marked] is what the session was asked to mark, in order; [ak_pending] the
    counter of the wait group; [ak_failure] the first error sent to [failureCh]. *)
Record claimAcker := mkAcker {
  ak_order : list Z; ak_head : nat; ak_tracked : gset Z; ak_completed : gset Z; ak_failed : bool;
  ak_canceled : bool; ak_failure : option error; ak_pending : Z; ak_marked : list Z }.

Definition newClaimAcker : claimAcker := mkAcker [] 0 ∅ ∅ false false None 0 [].

Definition track (a : claimAcker) (o : Z) : claimAcker :=
  if bool_decide (o ∈ ak_tracked a) then a
  else mkAcker (ak_order a ++ [o]) (ak_head a) ({[o]} ∪ ak_tracked a) (ak_completed a) (ak_failed a)
         (ak_canceled a) (ak_failure a) (ak_pending a + 1) (ak_marked a).

(** The new state, and whether the message was taken off. *)
Definition untrack (a : claimAcker) (o : Z) : claimAcker * bool :=
  let last := (Z.of_nat (length (ak_order a)) - 1)%Z in
  if negb (bool_decide (o ∈ ak_tracked a)) || (last <? Z.of_nat (ak_head a))
     || negb (bool_decide (ak_order a !! Z.to_nat last = Some o)) then (a, false)
  else (mkAcker (take (Z.to_nat last) (ak_order a)) (ak_head a) (ak_tracked a ∖ {[o]}) (ak_completed a) (ak_failed a)
         (ak_canceled a) (ak_failure a) (ak_pending a - 1) (ak_marked a), true).

(** The loop of [ack]: from [order[head:]], how many are marked. *)
Fixpoint mark_loop (rest : list Z) (completed : gset Z) (marked : list Z) : nat * gset Z * list Z :=
  match rest with
  | o :: rest' =>
      if bool_decide (o ∈ completed) then
        let '(n, completed, marked) := mark_loop rest' (completed ∖ {[o]}) (marked ++ [o]) in
        (S n, completed, marked)
      else (0%nat, completed, marked)
  | [] => (0%nat, completed, marked)
  end.

Definition compact (order : list Z) (head : nat) : list Z * nat :=
  if (1024 <=? Z.of_nat head) && (Z.of_nat (length order) <=? Z.of_nat head * 2) then (drop head order, 0%nat)
  else (order, head).

Definition ack (a : claimAcker) (o : Z) : claimAcker :=
  if negb (bool_decide (o ∈ ak_tracked a)) then a
  else
    let tracked := ak_tracked a ∖ {[o]} in
    if ak_failed a then
      mkAcker (ak_order a) (ak_head a) tracked (ak_completed a) true (ak_canceled a) (ak_failure a)
        (ak_pending a - 1) (ak_marked a)
    else
      let '(n, completed, marked) := mark_loop (drop (ak_head a) (ak_order a)) ({[o]} ∪ ak_completed a) (ak_marked a) in
      let '(order, head) := compact (ak_order a) (ak_head a + n) in
      mkAcker order head tracked completed false (ak_canceled a) (ak_failure a) (ak_pending a - 1) marked.

Definition fail (a : claimAcker) (o : Z) (e : error) : claimAcker :=
  if negb (bool_decide (o ∈ ak_tracked a)) then a
  else mkAcker (ak_order a) (ak_head a) (ak_tracked a ∖ {[o]}) ∅ true true
         (match ak_failure a with None => Some e | f => f end) (ak_pending a - 1) (ak_marked a).

Definition stop (a : claimAcker) : claimAcker :=
  mkAcker (ak_order a) (ak_head a) (ak_tracked a) (if ak_failed a then ak_completed a else ∅) true true
    (ak_failure a) (ak_pending a) (ak_marked a).

Inductive AckOp := Track (o : Z) | Untrack (o : Z) | Ack (o : Z) | Fail (o : Z) (e : error) | Stop.

Definition acker_step (a : claimAcker) (op : AckOp) : claimAcker * bool :=
  match op with
  | Track o => (track a o, true)
  | Untrack o => untrack a o
  | Ack o => (ack a o, true)
  | Fail o e => (fail a o e, true)
  | Stop => (stop a, true)
  end.

(** ** What it promises *)
Module Spec.

(** A message given to the claim is pending, finished, or closed without being
    finished: it failed, or was finished after the claim had failed. *)
Inductive fate := Pending | Done | Closed.
#[global] Instance fate_eq_dec : EqDecision fate.
Proof. solve_decision. Defined.

Record state := mk { items : list (Z * fate); failed : bool; marked : list Z }.

Definition init : state := mk [] false [].

Fixpoint done_prefix (l : list (Z * fate)) : list Z :=
  match l with (o, Done) :: l' => o :: done_prefix l' | _ => [] end.

Definition put (l : list (Z * fate)) (o : Z) (f : fate) : list (Z * fate) :=
  (fun i => if (i.1 =? o) && bool_decide (i.2 = Pending) then (i.1, f) else i) <$> l.

Definition pending (l : list (Z * fate)) : list Z :=
  (filter (fun i => i.2 = Pending) l).*1.

(** A claim that has not failed has marked exactly the finished prefix; once it
    failed, it marks nothing more. *)
Definition settle (l : list (Z * fate)) (s : state) : state :=
  mk l (failed s) (if failed s then marked s else done_prefix l).

Definition step (s : state) (op : AckOp) : state * bool :=
  match op with
  | Track o => (mk (items s ++ [(o, Pending)]) (failed s) (marked s), true)
  | Untrack o =>
      match last (items s) with
      | Some (o', Pending) =>
          if o' =? o then (mk (take (length (items s) - 1) (items s)) (failed s) (marked s), true) else (s, false)
      | _ => (s, false)
      end
  | Ack o => (settle (put (items s) o (if failed s then Closed else Done)) s, true)
  | Fail o _ =>
      (if bool_decide ((o, Pending) ∈ items s) then mk (put (items s) o Closed) true (marked s) else s, true)
  | Stop => (mk (items s) true (marked s), true)
  end.

End Spec.

(** Kafka delivers a partition in ascending order: what a claim tracks is beyond all
    that it tracked before. *)
Definition in_order (s : Spec.state) (op : AckOp) : Prop :=
  match op with Track o => forall i, i ∈ (Spec.items s).*1 -> i < o | _ => True end.

(** A run of operations on both, with their answers. *)
Inductive ack_run : list AckOp -> claimAcker -> Spec.state -> Prop :=
  | ar_init : ack_run [] newClaimAcker Spec.init
  | ar_step ops a s op :
      ack_run ops a s -> in_order s op ->
      ack_run (ops ++ [op]) (acker_step a op).1 (Spec.step s op).1.

(** ** The refinement *)
Record refines (a : claimAcker) (s : Spec.state) : Prop := {
  rf_items : (Spec.items s).*1 = Spec.marked s ++ drop (ak_head a) (ak_order a);
  rf_nodup : NoDup (Spec.items s).*1;
  rf_head : (ak_head a <= length (ak_order a))%nat;
  rf_marked : ak_marked a = Spec.marked s;
  rf_failed : ak_failed a = Spec.failed s;
  rf_tracked : forall o, o ∈ ak_tracked a <-> (o, Spec.Pending) ∈ Spec.items s;
  rf_pending : ak_pending a = Z.of_nat (length (Spec.pending (Spec.items s)));
  rf_done : Forall (fun o => (o, Spec.Done) ∈ Spec.items s) (Spec.marked s);
  rf_prefix : Spec.failed s = false -> Spec.marked s = Spec.done_prefix (Spec.items s);
  rf_completed : Spec.failed s = false ->
    forall o, o ∈ ak_completed a <-> (o, Spec.Done) ∈ Spec.items s /\ o ∉ Spec.marked s }.

(** *** The list of messages and their fates *)
Section fates.
Import Spec.
Implicit Types (l : list (Z * fate)) (o : Z).

Lemma fate_unique l o f g : NoDup l.*1 -> (o, f) ∈ l -> (o, g) ∈ l -> f = g.
Proof.
  induction l as [|[x h] l IH]; [set_solver|]. cbn. rewrite NoDup_cons, !elem_of_cons.
  intros [Hx Hl] [?|Hf] [?|Hg]; simplify_eq; [done| | |by apply IH];
    exfalso; apply Hx; apply list_elem_of_fmap; eexists; (split; [|done]); done.
Qed.

Lemma put_fst l o f : (put l o f).*1 = l.*1.
Proof. unfold put. rewrite <- list_fmap_compose. apply list_fmap_ext. intros i [x g] _. cbn. by destruct (_ && _). Qed.

Lemma elem_of_put l o f x g :
  (x, g) ∈ put l o f <-> ((x, g) ∈ l /\ (x <> o \/ g <> Pending)) \/ (x = o /\ g = f /\ (o, Pending) ∈ l).
Proof.
  unfold put. rewrite list_elem_of_fmap. split.
  - intros ([y h] & Heq & Hin). cbn in Heq. destruct (y =? o) eqn:E1, (bool_decide (h = Pending)) eqn:E2; cbn in Heq;
      zbool; simplify_eq; naive_solver.
  - intros [[Hin Hne]|(-> & -> & Hin)].
    + exists (x, g). split; [|done]. cbn. destruct (x =? o) eqn:E1, (bool_decide (g = Pending)) eqn:E2; zbool; naive_solver.
    + exists (o, Pending). split; [|done]. cbn. by rewrite Z.eqb_refl.
Qed.

Lemma pending_put l o f : NoDup l.*1 -> f <> Pending -> (o, Pending) ∈ l ->
  S (length (pending (put l o f))) = length (pending l).
Proof.
  intros Hn Hf. unfold pending. rewrite !length_fmap. induction l as [|[x h] l IH]; [set_solver|].
  cbn in Hn. apply NoDup_cons in Hn as [Hx Hn]. rewrite elem_of_cons. cbn [put fmap list_fmap].
  change ((fun i => if (i.1 =? o) && bool_decide (i.2 = Pending) then (i.1, f) else i) <$> l) with (put l o f). cbn [fst snd].
  intros [[= <- <-]|Hin].
  - rewrite Z.eqb_refl, bool_decide_true by done. cbn [andb].
    rewrite filter_cons_False, filter_cons_True by done. cbn [length]. f_equal.
    assert (put l o f = l) as ->; [|done]. unfold put. rewrite <- (list_fmap_id l) at 2.
    apply list_fmap_ext. intros i [y g] Hi. cbn. destruct (y =? o) eqn:E; [|done]. zbool. subst. exfalso. apply Hx.
    apply list_elem_of_fmap. exists (o, g). split; [done|]. by eapply list_elem_of_lookup_2.
  - destruct (x =? o) eqn:E; zbool.
    + subst. exfalso. apply Hx. apply list_elem_of_fmap. by exists (o, Pending).
    + cbn [andb]. destruct (decide (h = Pending));
        [rewrite !filter_cons_True by done; cbn [length]|rewrite !filter_cons_False by done]; by rewrite <- IH by done.
Qed.

Lemma done_prefix_unique l p q :
  NoDup l.*1 -> l.*1 = p ++ q -> Forall (fun o => (o, Done) ∈ l) p ->
  (forall o, head q = Some o -> (o, Done) ∉ l) -> done_prefix l = p.
Proof.
  revert p. induction l as [|[x h] l IH]; intros p Hn Hl Hp Hq.
  - by destruct p.
  - cbn in Hn. pose proof Hn as [Hx Hn']%NoDup_cons. destruct p as [|y p]; cbn in Hl.
    + destruct q as [|y q]; [done|]. injection Hl as <- Hl. cbn. destruct h; try done. exfalso. apply (Hq x); [done|left].
    + injection Hl as <- Hl. apply Forall_cons in Hp as [Hy Hp]. cbn.
      assert (h = Done) as ->. { apply (fate_unique ((x, h) :: l) x); [done|left|done]. }
      f_equal. apply IH; [done|done| |].
      * apply Forall_forall. intros o Ho. pose proof (proj1 (Forall_forall _ _) Hp o Ho) as Hin.
        apply elem_of_cons in Hin as [[= ->]|Hin]; [|done]. exfalso. apply Hx. rewrite Hl, elem_of_app. by left.
      * intros o Ho Hin. apply (Hq o Ho). by right.
Qed.
End fates.

Lemma mark_loop_spec rest C m n C' m' :
  NoDup rest -> mark_loop rest C m = (n, C', m') ->
  (n <= length rest)%nat /\ m' = m ++ take n rest /\ Forall (.∈ C) (take n rest) /\
  (forall o, head (drop n rest) = Some o -> o ∉ C) /\ (forall o, o ∈ C' <-> o ∈ C /\ o ∉ take n rest).
Proof.
  revert C m n C' m'. induction rest as [|x rest IH]; intros C m n C' m' Hn; cbn.
  - intros [= <- <- <-]. rewrite app_nil_r. split_and!; [lia|done|done|done|set_solver].
  - apply NoDup_cons in Hn as [Hx Hn]. case_bool_decide as Hc.
    + destruct (mark_loop rest _ _) as [[n0 C0] m0] eqn:E. intros [= <- <- <-].
      destruct (IH _ _ _ _ _ Hn E) as (Hlen & -> & Hall & Hhead & HC). cbn.
      assert (x ∉ take n0 rest) as Hxt by (intros Hin; apply Hx; rewrite <- (take_drop n0 rest), elem_of_app; by left).
      split_and!.
      * lia.
      * by rewrite <- app_assoc.
      * constructor; [done|]. eapply Forall_impl; [exact Hall|]. set_solver.
      * intros o Ho. specialize (Hhead o Ho). intros HoC. apply Hhead.
        assert (o <> x); [|set_solver]. intros ->. apply Hx. apply head_Some_elem_of in Ho.
        rewrite <- (take_drop n0 rest), elem_of_app. by right.
      * intros o. rewrite HC, elem_of_difference, elem_of_singleton, elem_of_cons. naive_solver.
    + intros [= <- <- <-]. cbn. rewrite app_nil_r. split_and!; [lia|done|done| |set_solver].
      by intros o [= <-].
Qed.

Lemma compact_drop order head order' head' :
  (head <= length order)%nat -> compact order head = (order', head') ->
  drop head' order' = drop head order /\ (head' <= length order')%nat.
Proof.
  intros Hle. unfold compact. destruct (_ && _); intros [= <- <-]; [|done]. split; [by rewrite drop_0|lia].
Qed.

(** *** One operation *)
#[local] Arguments Spec.pending : simpl never.
#[local] Arguments Spec.put : simpl never.

Lemma pending_snoc l o : Spec.pending (l ++ [(o, Spec.Pending)]) = Spec.pending l ++ [o].
Proof. unfold Spec.pending. by rewrite filter_app, fmap_app. Qed.

Lemma done_prefix_snoc l o : Spec.done_prefix (l ++ [(o, Spec.Pending)]) = Spec.done_prefix l.
Proof. induction l as [|[x []] l IH]; cbn; [done|done|by rewrite IH|done]. Qed.

Lemma untracked_put l o f : (o, Spec.Pending) ∉ l -> Spec.put l o f = l.
Proof.
  intros Hn. unfold Spec.put. rewrite <- (list_fmap_id l) at 2. apply list_fmap_ext. intros i [x g] Hi. cbn.
  destruct ((x =? o) && bool_decide (g = Spec.Pending)) eqn:E; [|done]. zbool. subst.
  exfalso. apply Hn. by eapply list_elem_of_lookup_2.
Qed.

Section step.
Context (a : claimAcker) (s : Spec.state) (R : refines a s).
#[local] Set Default Proof Using "Type*".

Lemma fresh_untracked o : (forall i, i ∈ (Spec.items s).*1 -> i < o) -> o ∉ (Spec.items s).*1.
Proof. intros Hf Hin. specialize (Hf o Hin). lia. Qed.

Lemma refines_track o : (forall i, i ∈ (Spec.items s).*1 -> i < o) -> refines (track a o) (Spec.step s (Track o)).1.
Proof.
  intros Hf%fresh_untracked. assert (o ∉ ak_tracked a) as Ht.
  { rewrite (rf_tracked _ _ R). intros Hin. apply Hf. apply list_elem_of_fmap. by exists (o, Spec.Pending). }
  unfold track. rewrite bool_decide_false by done. destruct R. split; cbn.
  - by rewrite fmap_app, rf_items0, drop_app_le, app_assoc by done.
  - rewrite fmap_app. apply NoDup_app. split_and!; [done| |apply NoDup_singleton]. intros x Hx ->%list_elem_of_singleton. done.
  - rewrite length_app. lia.
  - done.
  - done.
  - intros x. rewrite elem_of_union, elem_of_singleton, rf_tracked0, elem_of_app, list_elem_of_singleton. naive_solver.
  - rewrite pending_snoc, length_app, rf_pending0. cbn. lia.
  - eapply Forall_impl; [done|]. intros x Hx. apply elem_of_app. by left.
  - intros H. by rewrite done_prefix_snoc, rf_prefix0.
  - intros H x. rewrite rf_completed0, elem_of_app, list_elem_of_singleton by done. naive_solver.
Qed.

Lemma refines_stop : refines (stop a) (Spec.step s Stop).1.
Proof. destruct R. unfold stop. split; cbn; try done; naive_solver. Qed.

Lemma put_keeps_done l o f x : (x, Spec.Done) ∈ l -> (x, Spec.Done) ∈ Spec.put l o f.
Proof. intros H. apply elem_of_put. left. split; [done|by right]. Qed.

Lemma tracked_put o f x : f <> Spec.Pending ->
  x ∈ ak_tracked a ∖ {[o]} <-> (x, Spec.Pending) ∈ Spec.put (Spec.items s) o f.
Proof.
  intros Hf. rewrite elem_of_difference, elem_of_singleton, (rf_tracked _ _ R), elem_of_put. naive_solver.
Qed.

Lemma pending_less o f : f <> Spec.Pending -> o ∈ ak_tracked a ->
  ak_pending a - 1 = Z.of_nat (length (Spec.pending (Spec.put (Spec.items s) o f))).
Proof.
  intros Hf Ho%(rf_tracked _ _ R). rewrite (rf_pending _ _ R).
  pose proof (pending_put (Spec.items s) o f (rf_nodup _ _ R) Hf Ho). lia.
Qed.

Lemma refines_fail o e : refines (fail a o e) (Spec.step s (Fail o e)).1.
Proof.
  unfold fail. cbn. case_bool_decide as Ht; cbn.
  - rewrite bool_decide_true by by apply (rf_tracked _ _ R).
    pose proof (pending_less o Spec.Closed ltac:(done) Ht). pose proof (tracked_put o Spec.Closed) as Htr.
    destruct R. split; cbn; try done.
    + by rewrite put_fst.
    + by rewrite put_fst.
    + intros x. by apply Htr.
    + eapply Forall_impl; [done|]. intros x. apply put_keeps_done.
  - by rewrite bool_decide_false by by rewrite <- (rf_tracked _ _ R).
Qed.

End step.

Section step_ack.
Context (a : claimAcker) (s : Spec.state) (R : refines a s).
#[local] Set Default Proof Using "Type*".

Lemma refines_settled o : o ∈ ak_tracked a -> Spec.failed s = false ->
  refines (ack a o) (Spec.settle (Spec.put (Spec.items s) o Spec.Done) s).
Proof.
  intros Ht Hf. unfold ack. rewrite bool_decide_true by done. cbn [negb].
  rewrite (rf_failed _ _ R), Hf.
  destruct (mark_loop _ _ _) as [[n C'] m'] eqn:Hm.
  destruct (compact _ _) as [order' head'] eqn:Hc.
  pose proof (rf_nodup _ _ R) as Hn. rewrite (rf_items _ _ R) in Hn. apply NoDup_app in Hn as (_ & Hdis & Hnd).
  destruct (mark_loop_spec _ _ _ _ _ _ Hnd Hm) as (Hlen & -> & Hall & Hhead & HC).
  rewrite length_drop in Hlen. pose proof (rf_head _ _ R).
  apply compact_drop in Hc as [Hd Hh]; [|lia]. rewrite <- drop_drop in Hd.
  set (rest := drop (ak_head a) (ak_order a)) in *. set (l' := Spec.put (Spec.items s) o Spec.Done).
  assert (forall x, x ∈ {[o]} ∪ ak_completed a <-> (x, Spec.Done) ∈ l' /\ x ∉ Spec.marked s) as Hcomp.
  { intros x. unfold l'. rewrite elem_of_union, elem_of_singleton, (rf_completed _ _ R), elem_of_put by done.
    apply (rf_tracked _ _ R) in Ht. split; [|naive_solver].
    intros [->|[Hx Hm']]; [|naive_solver]. split; [by right|]. intros Hin.
    pose proof (proj1 (Forall_forall _ _) (rf_done _ _ R) o Hin) as Hd'.
    pose proof (fate_unique _ _ _ _ (rf_nodup _ _ R) Ht Hd'). done. }
  assert (Spec.marked s ++ take n rest = Spec.done_prefix l') as Hpre.
  { symmetry. apply done_prefix_unique with (q := drop n rest).
    - unfold l'. rewrite put_fst. apply R.
    - unfold l'. rewrite put_fst, (rf_items _ _ R). fold rest. by rewrite <- app_assoc, take_drop.
    - apply Forall_app. split.
      + eapply Forall_impl; [apply R|]. intros x. apply put_keeps_done.
      + eapply Forall_impl; [exact Hall|]. intros x Hx%Hcomp. tauto.
    - intros x Hx Hin. apply (Hhead x Hx), Hcomp. split; [done|]. intros Hmk. apply (Hdis x Hmk).
      rewrite <- (take_drop n rest), elem_of_app. right. by apply head_Some_elem_of. }
  split; cbn; rewrite ?Hf; try done.
  - rewrite Hd, <- Hpre. unfold l'. rewrite put_fst, (rf_items _ _ R). fold rest. by rewrite <- app_assoc, take_drop.
  - unfold l'. rewrite put_fst. apply R.
  - by rewrite (rf_marked _ _ R).
  - intros x. by apply tracked_put.
  - by apply pending_less.
  - rewrite <- Hpre. apply Forall_app. split.
    + eapply Forall_impl; [apply R|]. intros x. apply put_keeps_done.
    + eapply Forall_impl; [exact Hall|]. intros x Hx%Hcomp. tauto.
  - intros _ x. rewrite HC, Hcomp, <- Hpre, not_elem_of_app. tauto.
Qed.

Lemma refines_ack o : refines (ack a o) (Spec.step s (Ack o)).1.
Proof.
  cbn. destruct (decide (o ∈ ak_tracked a)) as [Ht|Ht].
  - destruct (Spec.failed s) eqn:Hf; [|by apply refines_settled].
    pose proof (pending_less a s R o Spec.Closed ltac:(done) Ht). pose proof (tracked_put a s R o Spec.Closed) as Htr.
    unfold ack. rewrite bool_decide_true by done. cbn [negb]. rewrite (rf_failed _ _ R), Hf.
    destruct R. split; cbn; rewrite ?Hf; try done.
    + by rewrite put_fst.
    + by rewrite put_fst.
    + intros x. by apply Htr.
    + eapply Forall_impl; [done|]. intros x. apply put_keeps_done.
  - unfold ack. rewrite bool_decide_false by done. cbn [negb].
    rewrite untracked_put by by rewrite <- (rf_tracked _ _ R).
    unfold Spec.settle. destruct R. destruct s as [l f m]. cbn in *. destruct f; [by split|].
    rewrite <- rf_prefix0 by done. by split.
Qed.

(** What [untrack] looks for is there exactly when the last message is [o] and pending. *)
Lemma untrack_found o :
  (o ∈ ak_tracked a /\ exists O, ak_order a = O ++ [o] /\ (ak_head a <= length O)%nat) <->
  exists l, Spec.items s = l ++ [(o, Spec.Pending)].
Proof.
  pose proof (rf_items _ _ R) as Hit. pose proof (rf_nodup _ _ R) as Hnd. split.
  - intros (Ht & O & HO & Hh). rewrite HO, drop_app_le, app_assoc in Hit by done.
    destruct (Spec.items s) as [|i l _] eqn:Hs using rev_ind; [by destruct (Spec.marked s ++ drop _ O)|].
    rewrite fmap_app in Hit. apply app_inj_2 in Hit as [_ Hi]; [|done]. destruct i as [x f]. cbn in Hi. simplify_eq.
    exists l. repeat f_equal. apply (rf_tracked _ _ R) in Ht. rewrite Hs in Ht.
    eapply fate_unique; [exact Hnd| |exact Ht]. apply elem_of_app. right. by apply list_elem_of_singleton.
  - intros [l Hs]. rewrite Hs, fmap_app in Hit. cbn in Hit. split.
    { apply (rf_tracked _ _ R). rewrite Hs. apply elem_of_app. right. by apply list_elem_of_singleton. }
    destruct (drop (ak_head a) (ak_order a)) as [|x D _] eqn:HD using rev_ind.
    + exfalso. rewrite app_nil_r in Hit.
      assert ((o, Spec.Done) ∈ Spec.items s) as Hd.
      { apply (proj1 (Forall_forall _ _) (rf_done _ _ R)). rewrite <- Hit. apply elem_of_app. right. by apply list_elem_of_singleton. }
      assert (Spec.Done = Spec.Pending); [|done]. apply (fate_unique _ _ _ _ Hnd Hd).
      rewrite Hs. apply elem_of_app. right. by apply list_elem_of_singleton.
    + rewrite app_assoc in Hit. apply app_inj_2 in Hit as [_ Hx]; [|done]. injection Hx as <-.
      exists (take (ak_head a) (ak_order a) ++ D). split.
      * by rewrite <- app_assoc, <- HD, take_drop.
      * rewrite length_app, length_take. pose proof (rf_head _ _ R). lia.
Qed.

Lemma refines_untracked o l O :
  Spec.items s = l ++ [(o, Spec.Pending)] -> ak_order a = O ++ [o] -> (ak_head a <= length O)%nat ->
  refines (mkAcker O (ak_head a) (ak_tracked a ∖ {[o]}) (ak_completed a) (ak_failed a)
    (ak_canceled a) (ak_failure a) (ak_pending a - 1) (ak_marked a)) (Spec.mk l (Spec.failed s) (Spec.marked s)).
Proof.
  intros Hs HO Hh. destruct R. rewrite Hs in *. rewrite fmap_app in *. cbn in *.
  apply NoDup_app in rf_nodup0 as (Hnd & Hdis & _).
  assert (forall f, (o, f) ∉ l) as Hno.
  { intros f Hin. apply (Hdis o); [|by apply list_elem_of_singleton]. apply list_elem_of_fmap. by exists (o, f). }
  rewrite HO, drop_app_le, app_assoc in rf_items0 by done. apply app_inj_2 in rf_items0 as [Hit _]; [|done].
  split; cbn; try done.
  - intros x. rewrite elem_of_difference, elem_of_singleton, rf_tracked0, elem_of_app, list_elem_of_singleton.
    split; [intros [[?|?] ?]; by simplify_eq|]. intros Hx. split; [by left|]. intros ->. by apply (Hno Spec.Pending).
  - rewrite pending_snoc, length_app in rf_pending0. cbn in rf_pending0. lia.
  - eapply Forall_impl; [exact rf_done0|]. intros x [?|?%list_elem_of_singleton]%elem_of_app; by simplify_eq.
  - intros Hf. by rewrite rf_prefix0, done_prefix_snoc.
  - intros Hf x. rewrite rf_completed0, elem_of_app, list_elem_of_singleton by done.
    split; [intros [[?|?] ?]; by simplify_eq|]. intros [? ?]. split; [by left|done].
Qed.

Lemma untrack_snoc o O : o ∈ ak_tracked a -> ak_order a = O ++ [o] -> (ak_head a <= length O)%nat ->
  untrack a o = (mkAcker O (ak_head a) (ak_tracked a ∖ {[o]}) (ak_completed a) (ak_failed a)
    (ak_canceled a) (ak_failure a) (ak_pending a - 1) (ak_marked a), true).
Proof.
  intros Ht HO Hh. unfold untrack. rewrite HO, length_app. cbn [length].
  replace (Z.of_nat (length O + 1) - 1) with (Z.of_nat (length O)) by lia. rewrite Nat2Z.id.
  rewrite list_lookup_middle by done. rewrite !bool_decide_true by done. destruct (_ <? _) eqn:E; zbool; [lia|].
  cbn [negb orb]. by rewrite take_app_length.
Qed.

Lemma untrack_refused o :
  ~ (o ∈ ak_tracked a /\ exists O, ak_order a = O ++ [o] /\ (ak_head a <= length O)%nat) -> untrack a o = (a, false).
Proof.
  intros Hn. unfold untrack. destruct (_ || _ || _) eqn:E; [done|]. zbool. exfalso. apply Hn. split; [done|].
  destruct (ak_order a) as [|x O _] eqn:HO using rev_ind; [done|]. rewrite length_app in *. cbn [length] in *.
  replace (Z.of_nat (length O + 1) - 1) with (Z.of_nat (length O)) in * by lia. rewrite Nat2Z.id, list_lookup_middle in * by done.
  simplify_eq. exists O. split; [done|lia].
Qed.

Lemma refines_untrack o :
  refines (untrack a o).1 (Spec.step s (Untrack o)).1 /\ (untrack a o).2 = (Spec.step s (Untrack o)).2.
Proof.
  destruct (Spec.items s) as [|[x f] l _] eqn:Hs using rev_ind.
  { rewrite untrack_refused; [cbn; by rewrite Hs|]. rewrite untrack_found, Hs. intros [l ?]. by destruct l. }
  destruct (decide ((x, f) = (o, Spec.Pending))) as [[= -> ->]|Hne].
  - destruct (proj2 (untrack_found o)) as (Ht & O & HO & Hh); [by exists l|].
    rewrite (untrack_snoc _ O) by done. cbn [Spec.step fst snd].
    rewrite Hs, last_snoc, Z.eqb_refl, length_app, Nat.add_sub, take_app_length. split; [|done].
    by apply refines_untracked.
  - rewrite untrack_refused.
    + cbn [Spec.step fst snd]. rewrite Hs, last_snoc. destruct f; try done. destruct (x =? o) eqn:E; [|done].
      zbool. by subst.
    + rewrite untrack_found, Hs. intros [l' Hl]. apply app_inj_2 in Hl as [_ Hl]; [|done]. by simplify_eq.
Qed.
End step_ack.

Lemma refines_init : refines newClaimAcker Spec.init.
Proof. split; cbn; try done; try constructor; set_solver. Qed.

Lemma refines_step a s op : refines a s -> in_order s op ->
  refines (acker_step a op).1 (Spec.step s op).1 /\ (acker_step a op).2 = (Spec.step s op).2.
Proof.
  intros R Ho. destruct op; [| |split; [|done]..].
  - split; [by apply refines_track|done].
  - by apply refines_untrack.
  - by apply refines_ack.
  - by apply refines_fail.
  - by apply refines_stop.
Qed.

Lemma ack_run_refines ops a s : ack_run ops a s -> refines a s.
Proof. induction 1; [apply refines_init|]. by apply refines_step. Qed.

Lemma done_prefix_prefix l : exists rest, l.*1 = Spec.done_prefix l ++ rest.
Proof.
  induction l as [|[o f] l [rest IH]]; cbn; [by exists []|]. destruct f; [by eexists| |by eexists].
  exists rest. cbn. by rewrite <- IH.
Qed.
