(* ===== verification/DbProg.v ===== *)
(** * Concurrent programs over a shared world

    A worker of [go/db] alternates between its own computation and single calls to
    Redis, MySQL or the consumer group, and any number of workers of any number of
    instances run at the same time. A [prog] is such a sequence of calls, with what
    is done after each answer. Between two calls anything may happen that the others
    are allowed to do: [safe] is the rely-guarantee judgement, [sys_step_ok] its
    soundness for any number of programs side by side. *)

From stdpp Require Import base list gmap relations.
From Stdlib Require Import Lia.
From S2P Require Import Prelude.

Inductive prog (E : Type -> Type) (A : Type) : Type :=
  | Ret (a : A)
  | Do (X : Type) (e : E X) (k : X -> prog E A).
Arguments Ret {E A} a.
Arguments Do {E A X} e k.

Fixpoint prog_bind {E A B} (f : A -> prog E B) (p : prog E A) : prog E B :=
  match p with
  | Ret a => f a
  | Do e k => Do e (fun x => prog_bind f (k x))
  end.

#[global] Instance prog_mret {E} : MRet (prog E) := fun A a => Ret a.
#[global] Instance prog_mbind {E} : MBind (prog E) := fun A B f p => prog_bind f p.

Definition call {E A} (e : E A) : prog E A := Do e Ret.

Lemma lookup_mid_other {A} (l1 l2 : list A) x y i :
  i <> length l1 -> (l1 ++ x :: l2) !! i = (l1 ++ y :: l2) !! i.
Proof.
  intros Hi. destruct (decide (i < length l1)); [by rewrite !lookup_app_l by lia|].
  rewrite !lookup_app_r by lia. by destruct (i - length l1) eqn:E; [lia|].
Qed.

(** ** Rely and guarantee

    A thread owns things, [O]: what it owns grows by what nobody owned before. [rely]
    is what the others may do, [guar] what the thread may do itself. *)
Section rely_guarantee.
Context {E : Type -> Type} {W O : Type}.
Context (run : forall X, E X -> W -> X -> W -> Prop).
Context (rely guar : O -> relation W).
Context (acquires : O -> W -> O -> W -> Prop).

(** From [w] on, whatever the others do, every call of [p] is allowed, and when [p]
    ends with [a], owning [o], the state satisfies [Q]. *)
Fixpoint safe {A} (o : O) (p : prog E A) (Q : O -> A -> W -> Prop) (w : W) : Prop :=
  match p with
  | Ret a => forall w', rely o w w' -> Q o a w'
  | Do e k =>
      forall w', rely o w w' -> forall x w'', run _ e w' x w'' ->
        guar o w' w'' /\ exists o', acquires o w' o' w'' /\ safe o' (k x) Q w''
  end.

Context (rely_refl : forall o, Reflexive (rely o)) (rely_trans : forall o, Transitive (rely o)).

Lemma safe_rely {A} o (p : prog E A) Q w w' : safe o p Q w -> rely o w w' -> safe o p Q w'.
Proof using rely_trans.
  destruct p; cbn; intros H Hr w2 Hw2; apply H; by etrans.
Qed.

Lemma safe_bind {A B} o (p : prog E A) (f : A -> prog E B) Q R w :
  safe o p Q w -> (forall o' a w', Q o' a w' -> safe o' (f a) R w') -> safe o (p ≫= f) R w.
Proof using rely_refl rely_trans.
  intros Hp Hf. revert o w Hp. induction p as [a|X e k IH]; cbn; intros o w Hp.
  - apply Hf. by apply Hp.
  - intros w' Hr x w'' Hrun. destruct (Hp _ Hr _ _ Hrun) as (Hg & o' & Ho & Hs). eauto.
Qed.

Lemma safe_mono {A} o (p : prog E A) (Q R : O -> A -> W -> Prop) w :
  safe o p Q w -> (forall o a w, Q o a w -> R o a w) -> safe o p R w.
Proof.
  intros Hp Hf. revert o w Hp. induction p as [a|X e k IH]; cbn; intros o w Hp; [eauto|].
  intros w' Hr x w'' Hrun. destruct (Hp _ Hr _ _ Hrun) as (Hg & o' & Ho & Hs). eauto.
Qed.

(** ** Any number of threads

    [env] is what the world does by itself, [starts] when a program may be started.
    What the threads own is chosen by the proof: the system does not see it. *)
Context (env : relation W) (starts : W -> prog E () -> W -> Prop).

Notation system := (list (prog E ()) * W)%type.

Inductive sys_step : system -> system -> Prop :=
  | sys_env ts w w' : env w w' -> sys_step (ts, w) (ts, w')
  | sys_start ts w p w' : starts w p w' -> sys_step (ts, w) (p :: ts, w')
  | sys_call ts1 ts2 w w' X (e : E X) k x :
      run _ e w x w' -> sys_step (ts1 ++ Do e k :: ts2, w) (ts1 ++ k x :: ts2, w').

(** [owned o w]: all of [o] has been handed out; [disj] of two threads: nothing is owned twice. *)
Context (owned : O -> W -> Prop) (disj : O -> O -> Prop).
Context (owned_rely : forall o w w', owned o w -> rely o w w' -> owned o w').
Context (owned_acquires : forall o w o' w', acquires o w o' w' -> owned o w -> owned o' w').
Context (disj_sym : forall o1 o2, disj o1 o2 -> disj o2 o1).
Context (disj_acquires : forall o w o' w' o2, acquires o w o' w' -> owned o2 w -> disj o o2 -> disj o' o2).
Context (guar_rely : forall o1 o2 w w', disj o1 o2 -> owned o2 w -> guar o1 w w' -> rely o2 w w').
Context (env_rely : forall o w w', owned o w -> env w w' -> rely o w w').
Context (good : W -> Prop).
Context (start_safe : forall w p w', good w -> starts w p w' ->
  exists o, safe o p (fun _ _ _ => True) w' /\ owned o w' /\ forall o2, owned o2 w -> disj o o2 /\ rely o2 w w').

Definition runs_ok (w : W) (t : O * prog E ()) : Prop := owned t.1 w /\ safe t.1 t.2 (fun _ _ _ => True) w.

Record sys_ok (s : system) : Prop := {
  so_world : good s.2;
  so_threads : exists ots : list (O * prog E ()), ots.*2 = s.1 /\ Forall (runs_ok s.2) ots /\
    forall i j a b, ots !! i = Some a -> ots !! j = Some b -> i <> j -> disj a.1 b.1 }.

Context (env_good : forall w w', good w -> env w w' -> good w').
Context (start_good : forall w p w', good w -> starts w p w' -> good w').
Context (guar_good : forall o w w', good w -> guar o w w' -> good w').

Lemma runs_ok_rely w w' t : runs_ok w t -> rely t.1 w w' -> runs_ok w' t.
Proof using owned_rely rely_trans. intros [Ho Hs] Hr. split; [eauto|]. by eapply safe_rely. Qed.

Lemma sys_step_ok s s' : sys_ok s -> sys_step s s' -> sys_ok s'.
Proof using All.
  intros [Hg (ots & Hts & Hok & Hdis)] Hstep. destruct Hstep as [ts w w' He|ts w p w' He|ts1 ts2 w w' X e k x Hrun]; cbn in *.
  - split; [eauto|]. exists ots. split_and!; [done| |done]. eapply Forall_impl; [exact Hok|].
    intros t Ht. eapply runs_ok_rely; [done|]. apply env_rely; [apply Ht|done].
  - split; [eauto|]. destruct (start_safe _ _ _ Hg He) as (o & Hs & Ho & Ho2). exists ((o, p) :: ots). split_and!.
    + cbn. by rewrite Hts.
    + constructor; [done|]. eapply Forall_impl; [exact Hok|]. intros t Ht. eapply runs_ok_rely; [done|]. apply Ho2, Ht.
    + rewrite Forall_lookup in Hok. intros [|i] [|j] a b; cbn; intros Ha Hb Hne; simplify_eq; [| |eapply Hdis; eauto].
      * apply Ho2. by apply (Hok _ _ Hb).
      * apply disj_sym, Ho2. by apply (Hok _ _ Ha).
  - apply fmap_app_inv in Hts as (ots1 & ots2' & Ht1 & Ht2 & ->).
    destruct ots2' as [|[o p] ots2]; cbn in Ht2; [done|]. simplify_eq.
    apply Forall_app in Hok as [Hok1 Hok2]. apply Forall_cons in Hok2 as [[Ho Hs] Hok2]. cbn in Ho, Hs.
    rewrite Forall_lookup in Hok1. rewrite Forall_lookup in Hok2.
    destruct (Hs w (rely_refl o w) x w' Hrun) as (Hguar & o' & Hacq & Hs').
    assert (forall i a, (ots1 ++ (o, Do e k) :: ots2) !! i = Some a -> i <> length ots1 -> disj o a.1) as Hd.
    { intros i a Ha Hi. apply (Hdis (length ots1) i (o, Do e k) a); [by apply list_lookup_middle|done|done]. }
    assert (forall i a, ots1 !! i = Some a -> runs_ok w a /\ disj o a.1) as H1.
    { intros i a Ha. pose proof (Hok1 i a Ha) as Hr. split; [done|]. pose proof (lookup_lt_Some _ _ _ Ha).
      apply (Hd i); [by apply lookup_app_l_Some|lia]. }
    assert (forall i a, ots2 !! i = Some a -> runs_ok w a /\ disj o a.1) as H2.
    { intros i a Ha. pose proof (Hok2 i a Ha) as Hr. split; [done|].
      apply (Hd (length ots1 + S i)); [|lia].
      rewrite lookup_app_r by lia. by replace (length ots1 + S i - length ots1) with (S i) by lia. }
    assert (forall a, runs_ok w a /\ disj o a.1 -> runs_ok w' a) as Hkeep.
    { intros a [Ha Hda]. eapply runs_ok_rely; [done|]. eapply guar_rely; [exact Hda|apply Ha|done]. }
    split; [eauto|]. cbn. exists (ots1 ++ (o', k x) :: ots2). split_and!.
    + by rewrite fmap_app.
    + apply Forall_app. split; [|constructor].
      * apply Forall_lookup. eauto.
      * split; cbn; [eauto|done].
      * apply Forall_lookup. eauto.
    + assert (forall i a, (ots1 ++ (o', k x) :: ots2) !! i = Some a -> i <> length ots1 -> disj o' a.1) as Hnew.
      { intros i a Ha Hi. assert (disj o a.1 /\ owned a.1 w) as [Hda Hoa]; [|by eapply disj_acquires].
        apply lookup_app_Some in Ha as [Ha|[Hl Ha]].
        - by destruct (H1 _ _ Ha) as [[? _] ?].
        - destruct (i - length ots1) as [|n] eqn:En; [lia|]. cbn in Ha.
          by destruct (H2 _ _ Ha) as [[? _] ?]. }
      intros i j a b Ha Hb Hij. destruct (decide (i = length ots1)) as [->|Hi].
      { rewrite list_lookup_middle in Ha by done. simplify_eq. by apply (Hnew j). }
      destruct (decide (j = length ots1)) as [->|Hj].
      { rewrite list_lookup_middle in Hb by done. simplify_eq. apply disj_sym. by apply (Hnew i). }
      apply (Hdis i j); [| |done].
      * rewrite <- Ha. by apply lookup_mid_other.
      * rewrite <- Hb. by apply lookup_mid_other.
Qed.

Lemma sys_run_ok s s' : sys_ok s -> rtc sys_step s s' -> sys_ok s'.
Proof using All. intros Hs Hr. by eapply (rtc_keeps _ sys_ok); [intros; by eapply sys_step_ok|exact Hr|]. Qed.

(** What one step does to the world. *)
Lemma sys_step_world s s' : sys_ok s -> sys_step s s' ->
  env s.2 s'.2 \/ (exists p, starts s.2 p s'.2) \/ exists o, guar o s.2 s'.2.
Proof using rely_refl.
  intros [_ (ots & Hts & Hok & _)] Hstep. destruct Hstep as [ts w w' He|ts w p w' He|ts1 ts2 w w' X e k x Hrun]; cbn in *.
  - by left.
  - right. left. by exists p.
  - right. right. apply fmap_app_inv in Hts as (ots1 & ots2' & _ & Ht2 & ->).
    destruct ots2' as [|[o p] ots2]; cbn in Ht2; [done|]. simplify_eq.
    apply Forall_app in Hok as [_ Hok]. apply Forall_cons in Hok as [[_ Hs] _]. cbn in Hs.
    destruct (Hs w (rely_refl o w) x w' Hrun) as (Hg & _). by exists o.
Qed.
End rely_guarantee.
