(* ===== verification/DbWorld.v ===== *)
(** * The versioned player rows

    [savePlayerRow] of [player_row_fence.go] and the checks of [persist_schema.go].
    A row of a player's tables carries the version that wrote it, the owner epoch
    and the save number, and the generation of the schema. A write locks the row,
    compares, and refuses to go back. What MySQL does to the table of one message
    type is written out; the protobuf runtime that parses a task's body is a class. The second part is the
    world the workers share. *)
From stdpp Require Import base list gmap strings.
From Stdlib Require Import ZArith Lia.
From S2P Require Import Prelude DbTask DbAcker.
Local Open Scope Z_scope.

(** A message of a stored type: the fields the code reads, and everything else. *)
Record Msg := mkMsgRow { ms_player : Z; ms_epoch : Z; ms_seq : Z; ms_gen : Z; ms_data : string }.

#[global] Instance Msg_eq_dec : EqDecision Msg.
Proof. solve_decision. Defined.

Definition set_fence (m : Msg) (epoch seq : Z) : Msg :=
  mkMsgRow (ms_player m) epoch seq (ms_gen m) (ms_data m).

(** [protoregistry] and the runtime: which types exist, which have the fence columns,
    which have a generation, which are the two player tables, and the body's message. *)
Class DbTypes := {
  ty_known : string -> bool;
  ty_fence : string -> bool;
  ty_gen : string -> bool;
  ty_player : string -> bool;
  ty_ledger : string -> bool;
  ty_decode : string -> string -> option Msg;
  ty_encode : string -> Msg -> string;
  ty_too_large : string -> Msg -> bool;
  ty_evidence : DBTask -> Msg -> string }.

(** The settings of one instance: [fencingDual], [fencingEpochOverride],
    [persistBootstrapClosed], [persistschema.Gen], the zone, [Placement.Required], the
    budget of retries, the number of partitions, and whether retries go to their owner. *)
Record DbConfig := mkDbConfig {
  cf_dual : bool; cf_override : bool; cf_bootstrap_closed : bool; cf_gen : Z; cf_zone : Z; cf_required : bool;
  cf_max_retry : Z; cf_partitions : Z; cf_owner_routing : bool; cf_expand : bool }.

Inductive writeKind :=
  writeApplied | writeEqual | writeOlder | writeStaleOwner | writeLegacyAfterSeq
  | writePersistUnstamped | writeSchemaRegression.
#[global] Instance writeKind_eq_dec : EqDecision writeKind.
Proof. solve_decision. Defined.

Record writeOutcome := mkOutcome { wo_kind : writeKind; wo_epoch : Z }.

Definition publishes (o : writeOutcome) : bool :=
  match wo_kind o with writeApplied | writeEqual => true | _ => false end.

Definition ErrSchemaTooNew : error := "persist schema generation is newer than this go/db binary"%string.
Definition ErrRowIdentity : error := "player row identity differs from the task"%string.
Definition ErrSeqWithoutEpoch : error := "save sequence without owner epoch"%string.
Definition ErrPlayerRowVanished : error := "player row vanished between probe and lock"%string.
Definition ErrDuplicateKey : error := "duplicate key"%string.

Section fence.
Context `{DbTypes}.
Implicit Types (cf : DbConfig) (t : DBTask) (m : Msg).

Definition effectiveGen (raw : Z) : Z := if raw =? 0 then 1 else raw.

(** [checkWriteSchema]: a refusal for good, an error that defers, or neither. *)
Definition checkWriteSchema cf t m : res (option writeKind) :=
  if negb (is_write t) || negb (ty_fence (dt_type t)) then Ok None
  else if negb (ty_gen (dt_type t)) then Err ErrSchemaTooNew
  else
    let raw := ms_gen m in
    if (raw =? 0) && cf_bootstrap_closed cf then Ok (Some writePersistUnstamped)
    else if cf_gen cf <? effectiveGen raw then Err ErrSchemaTooNew
    else Ok None.

Definition schemaRegressed (ty : string) (target current : Msg) : bool :=
  ty_gen ty && (effectiveGen (ms_gen target) <? effectiveGen (ms_gen current)).

Definition checkReadSchema cf t m : res () :=
  if negb (ty_gen (dt_type t)) || negb (ty_fence (dt_type t)) then Ok ()
  else if cf_gen cf <? effectiveGen (ms_gen m) then Err ErrSchemaTooNew else Ok ().

(** [savePlayerRow], up to the first statement: the row to write. *)
Definition stamp_row cf t m : res Msg :=
  if negb (ms_player m =? dt_key t) then Err ErrRowIdentity
  else if negb (dt_save t =? 0) && (dt_epoch t =? 0) then Err ErrSeqWithoutEpoch
  else if cf_dual cf then Ok (set_fence m (dt_epoch t) (dt_save t)) else Ok (set_fence m 0 0).

(** The body of the transaction, on the row it has locked: the outcome, and what is
    saved, if anything. *)
Definition fence_decide cf t (target current : Msg) : writeOutcome * option Msg :=
  let epoch := if cf_dual cf then dt_epoch t else 0 in
  let seq := if cf_dual cf then dt_save t else 0 in
  let oldEpoch := ms_epoch current in
  let oldSeq := ms_seq current in
  let refuse k := (mkOutcome k oldEpoch, None) in
  if negb (cf_dual cf) then
    if schemaRegressed (dt_type t) target current then refuse writeSchemaRegression
    else (mkOutcome writeApplied oldEpoch, Some (set_fence target oldEpoch oldSeq))
  else if (epoch =? 0) && (negb (oldEpoch =? 0) || negb (oldSeq =? 0)) then refuse writeLegacyAfterSeq
  else if epoch <? oldEpoch then refuse writeStaleOwner
  else if negb (epoch =? 0) && negb (seq =? 0) && (epoch =? oldEpoch) && (seq <? oldSeq) then refuse writeOlder
  else if negb (epoch =? 0) && negb (seq =? 0) && (epoch =? oldEpoch) && (seq =? oldSeq) then refuse writeEqual
  else if schemaRegressed (dt_type t) target current then refuse writeSchemaRegression
  else
    let target := if (seq =? 0) && negb (epoch =? 0) && (oldEpoch =? epoch) then set_fence target epoch oldSeq else target in
    (mkOutcome writeApplied oldEpoch, Some target).

(** ** The statements on a table of messages, by primary key *)
Notation table := (gmap Z Msg).

Definition sql_insert (tb : table) (m : Msg) : res table :=
  match tb !! ms_player m with
  | Some _ => Err ErrDuplicateKey
  | None => Ok (<[ms_player m := m]> tb)
  end.

(** The transaction: lock, decide, save. *)
Definition sql_fence_txn cf t (target : Msg) (tb : table) : res (writeOutcome * option Msg * table) :=
  match tb !! dt_key t with
  | None => Err ErrPlayerRowVanished
  | Some current =>
      let '(o, saved) := fence_decide cf t target current in
      Ok (o, Some current, match saved with Some m => <[dt_key t := m]> tb | None => tb end)
  end.

(** ** The version of a row *)
Definition version m : Z * Z := (ms_epoch m, ms_seq m).

(** Lexicographic: first the epoch, then the save number. *)
Definition ver_le (a b : Z * Z) : Prop := a.1 < b.1 \/ (a.1 = b.1 /\ a.2 <= b.2).

#[global] Instance ver_le_preorder : PreOrder ver_le.
Proof. split; unfold ver_le; red; lia. Qed.

(** A version that the scenes mint: a save number comes with an epoch. *)
Definition versioned t : Prop := 0 <= dt_epoch t /\ 0 <= dt_save t /\ (dt_epoch t = 0 -> dt_save t = 0).

Lemma stamp_row_spec cf t m target : stamp_row cf t m = Ok target ->
  ms_player target = dt_key t /\ ms_data target = ms_data m /\ ms_gen target = ms_gen m /\
  version target = (if cf_dual cf then (dt_epoch t, dt_save t) else (0, 0)) /\
  (dt_epoch t = 0 -> dt_save t = 0).
Proof.
  unfold stamp_row. destruct (ms_player m =? dt_key t) eqn:Hk; [|done]. cbn [negb].
  destruct (negb (dt_save t =? 0) && (dt_epoch t =? 0)) eqn:Hs; [done|].
  destruct (cf_dual cf); intros [= <-]; cbn; zbool; (split_and!; [done..|]); destruct_or?; zbool; lia.
Qed.

(** The four refusals of the versioned mode, and what is left. *)
Lemma fence_decide_dual cf t target current : cf_dual cf = true ->
  fence_decide cf t target current =
    let e := dt_epoch t in let q := dt_save t in
    let refuse k := (mkOutcome k (ms_epoch current), None) in
    if (e =? 0) && (negb (ms_epoch current =? 0) || negb (ms_seq current =? 0)) then refuse writeLegacyAfterSeq
    else if e <? ms_epoch current then refuse writeStaleOwner
    else if negb (e =? 0) && negb (q =? 0) && (e =? ms_epoch current) && (q <? ms_seq current) then refuse writeOlder
    else if negb (e =? 0) && negb (q =? 0) && (e =? ms_epoch current) && (q =? ms_seq current) then refuse writeEqual
    else if schemaRegressed (dt_type t) target current then refuse writeSchemaRegression
    else (mkOutcome writeApplied (ms_epoch current),
          Some (if (q =? 0) && negb (e =? 0) && (ms_epoch current =? e) then set_fence target e (ms_seq current) else target)).
Proof. unfold fence_decide. by intros ->. Qed.

(** What the decision may save over the row it found: never an older version, and the
    same version only for a task without a save number. *)
Lemma fence_decide_saved cf t target current o saved :
  version target = (if cf_dual cf then (dt_epoch t, dt_save t) else (0, 0)) ->
  versioned t -> fence_decide cf t target current = (o, Some saved) ->
  wo_kind o = writeApplied /\ ms_data saved = ms_data target /\ ms_player saved = ms_player target /\
  ver_le (version current) (version saved) /\
  (cf_dual cf = true -> dt_save t <> 0 -> version saved = (dt_epoch t, dt_save t) /\ version saved <> version current).
Proof.
  intros Hv (He & Hq & H0). unfold ver_le, version in *. destruct (cf_dual cf) eqn:Hd.
  - rewrite fence_decide_dual by done. cbv zeta.
    destruct ((dt_epoch t =? 0) && _) eqn:E1; [done|]. destruct (dt_epoch t <? _) eqn:E2; [done|].
    destruct (_ && _ && _ && (dt_save t <? _)) eqn:E3; [done|]. destruct (_ && _ && _ && (dt_save t =? _)) eqn:E4; [done|].
    destruct (schemaRegressed _ _ _); [done|]. intros [= <- <-].
    destruct ((dt_save t =? 0) && _ && _) eqn:E5; cbn; (split_and!; [done..| |]); simplify_eq;
      repeat (zbool; destruct_or?); try lia; intros _ ?; (split; [congruence|intros [=]; lia]).
  - unfold fence_decide. rewrite Hd. cbn. destruct (schemaRegressed _ _ _); [done|]. intros [= <- <-]. cbn.
    split_and!; [done..|lia|done].
Qed.
End fence.

(** * What a worker works on: Kafka, Redis and MySQL

    The state that the workers of all instances of [go/db] share, and one call per
    command they send: the ordering lock, the applied cursor and epoch, the retry and
    dead-letter lists, the player tables, the acker of a claim. A call that fails may
    have been carried out all the same ([lossy]); a SQL statement whose connection
    broke may even be committed later, when its lock is long gone ([w_stuck]). *)

(** A player's row of one table: the ordering lock, the cursor and the epoch are kept per row. *)
Definition rowkey := (Z * string)%type.
Definition row_of (t : DBTask) : rowkey := (dt_key t, dt_type t).

(** The protobuf encoding of a task, the JSON of a message that has none, and whether a
    driver error is one of the store's own ([storeerr.KindOf]). *)
Class DbCodec := {
  Marshal : DBTask -> string;
  Unmarshal : string -> option DBTask;
  PoisonJSON : KafkaMsg -> string;
  KindOf : error -> bool }.

(** The claim of a partition: its generation, the committed offset it starts from, the
    next offset to fetch, and its acker. *)
Record Claim := mkClaim { cl_gen : Z; cl_base : Z; cl_next : Z; cl_acker : claimAcker }.

Definition no_claim : Claim := mkClaim 0 0 0 newClaimAcker.

Inductive stmt :=
  | SInsert (db : Z) (t : DBTask) (m : Msg)
  | SFence (db : Z) (t : DBTask) (m : Msg)
  | SSave (db : Z) (t : DBTask) (m : Msg).

(** A receipt that could not be moved, to be moved later ([strandedRetry]). *)
Record strandedRetry := mkStranded { sr_processing : string; sr_dest : string; sr_receipt : string; sr_replacement : string }.

Record world := mkWorld {
  w_log : gmap (Z * Z) string;
  w_claims : gmap Z Claim;
  w_locks : gmap rowkey Z;
  w_token : Z;
  w_cursor : gmap rowkey string;
  w_epoch : gmap rowkey string;
  w_lists : gmap string (list string);
  w_stranded : list strandedRetry;
  w_tables : gmap (Z * string) (gmap Z Msg);
  w_stuck : list stmt;
  w_binlog : list (Z * DBTask) }.

Definition set_log w x := mkWorld x (w_claims w) (w_locks w) (w_token w) (w_cursor w) (w_epoch w) (w_lists w) (w_stranded w) (w_tables w) (w_stuck w) (w_binlog w).
Definition set_claims w x := mkWorld (w_log w) x (w_locks w) (w_token w) (w_cursor w) (w_epoch w) (w_lists w) (w_stranded w) (w_tables w) (w_stuck w) (w_binlog w).
Definition set_locks w x n := mkWorld (w_log w) (w_claims w) x n (w_cursor w) (w_epoch w) (w_lists w) (w_stranded w) (w_tables w) (w_stuck w) (w_binlog w).
Definition set_applied w c e := mkWorld (w_log w) (w_claims w) (w_locks w) (w_token w) c e (w_lists w) (w_stranded w) (w_tables w) (w_stuck w) (w_binlog w).
Definition set_lists w x := mkWorld (w_log w) (w_claims w) (w_locks w) (w_token w) (w_cursor w) (w_epoch w) x (w_stranded w) (w_tables w) (w_stuck w) (w_binlog w).
Definition set_stranded w x := mkWorld (w_log w) (w_claims w) (w_locks w) (w_token w) (w_cursor w) (w_epoch w) (w_lists w) x (w_tables w) (w_stuck w) (w_binlog w).
Definition set_sql w x l b := mkWorld (w_log w) (w_claims w) (w_locks w) (w_token w) (w_cursor w) (w_epoch w) (w_lists w) (w_stranded w) x l b.

Definition claim_of (w : world) (p : Z) : Claim := default no_claim (w_claims w !! p).
Definition set_claim (w : world) (p : Z) (c : Claim) : world := set_claims w (<[p := c]> (w_claims w)).
Definition table_of (w : world) (db : Z) (ty : string) : gmap Z Msg := default ∅ (w_tables w !! (db, ty)).
Definition list_of (w : world) (k : string) : list string := default [] (w_lists w !! k).

(** ** Redis lists *)
Fixpoint remove1 (v : string) (l : list string) : list string :=
  match l with [] => [] | x :: l' => if String.eqb x v then l' else x :: remove1 v l' end.

Definition LPUSH (w : world) (k v : string) : world := set_lists w (<[k := v :: list_of w k]> (w_lists w)).
(** [LREM k 1 v] *)
Definition LREM (w : world) (k v : string) : world := set_lists w (<[k := remove1 v (list_of w k)]> (w_lists w)).
Definition in_list (w : world) (k v : string) : bool := bool_decide (v ∈ list_of w k).

(** [moveRetryReceiptScript] *)
Definition move_script (w : world) (processing dest receipt replacement : string) : bool * world :=
  if in_list w processing receipt then (true, LREM (LPUSH w dest replacement) processing receipt) else (false, w).

(** [ackRetryReceiptScript]: how many were removed. *)
Definition ack_script (w : world) (processing receipt : string) : bool * world :=
  if in_list w processing receipt then (true, LREM w processing receipt) else (false, w).

(** ** The ordering lock, and the scripts that check its token *)
Definition owns_lock (w : world) (k : rowkey) (tok : Z) : bool := bool_decide (w_locks w !! k = Some tok).

Definition ErrNotCanonical : error := "owner epoch is not canonical uint64"%string.

Definition canonical_u64 (s : string) : bool :=
  is_dec s && negb ((20 <? Z.of_nat (String.length s)) ||
                    ((Z.of_nat (String.length s) =? 20) && dec_gt s "18446744073709551615")).

(** [appliedAdvanceLua]: 0 when the token is not the lock's, 1 when both are advanced. *)
Definition advance_script (w : world) (k : rowkey) (tok : Z) (cursor epoch : string) : res Z * world :=
  if negb (owns_lock w k tok) then (Ok 0, w)
  else if negb (canonical_u64 epoch) then (Err ErrNotCanonical, w)
  else
    let cur := if String.eqb epoch "0" then None else w_epoch w !! k in
    if match cur with Some c => negb (canonical_u64 c) | None => false end then (Err ErrNotCanonical, w)
    else
      let cursors := if String.eqb cursor "" then w_cursor w else <[k := cursor]> (w_cursor w) in
      let epochs :=
        if negb (String.eqb epoch "0") && match cur with None => true | Some c => dec_gt epoch c end
        then <[k := epoch]> (w_epoch w) else w_epoch w in
      (Ok 1, set_applied w cursors epochs).

(** ** MySQL *)
Section sql.
Context `{DbTypes} (cf : DbConfig).

(** What a statement answers, on the table it works on; [true] when the database holds
    the task's row afterwards, as written now or before. *)
Definition exec_stmt (s : stmt) (w : world) : res (writeOutcome * option Msg) * world :=
  match s with
  | SInsert db t m =>
      match sql_insert (table_of w db (dt_type t)) m with
      | Ok tb => (Ok (mkOutcome writeApplied 0, None),
                  set_sql w (<[(db, dt_type t) := tb]> (w_tables w)) (w_stuck w) (w_binlog w ++ [(db, t)]))
      | Err e => (Err e, w)
      end
  | SFence db t m =>
      match sql_fence_txn cf t m (table_of w db (dt_type t)) with
      | Ok (o, cur, tb) =>
          (Ok (o, cur), if bool_decide (wo_kind o = writeApplied)
                        then set_sql w (<[(db, dt_type t) := tb]> (w_tables w)) (w_stuck w) (w_binlog w ++ [(db, t)]) else w)
      | Err e => (Err e, w)
      end
  | SSave db t m =>
      (Ok (mkOutcome writeApplied 0, None),
       set_sql w (<[(db, dt_type t) := <[ms_player m := m]> (table_of w db (dt_type t))]> (w_tables w)) (w_stuck w)
         (w_binlog w ++ [(db, t)]))
  end.

(** ** Placement *)
Record placementRecord := mkPlacement { pr_storage : Z; pr_version : Z; pr_frozen : bool }.
Record placementSnapshot := mkSnapshot { sn_rec : option placementRecord; sn_home : option Z }.

(** ** The calls *)
Inductive publishReply := NotOwner | Published | EvidenceAhead | EvidenceConflict.

Inductive dbE : Type -> Type :=
  | ClaimDone (k : workerTask) : dbE bool
  | TryLock (k : rowkey) : dbE (res (option Z))
  | Release (k : rowkey) (tok : Z) : dbE ()
  | Verify (k : rowkey) (tok : Z) : dbE (res bool)
  | LeaseLost (tok : Z) : dbE bool
  | GetCursor (k : rowkey) : dbE (res (option string))
  | GetEpoch (k : rowkey) : dbE (res (option string))
  | GetOwnerCounter (player : Z) : dbE (res (option string))
  | PlacementLookup (player : Z) : dbE (res placementSnapshot)
  | OpenStore (db : Z) : dbE (res ())
  | GetExpandStatus : dbE (res bool)
  | TryExpandLock (player : Z) : dbE (res bool)
  | ReleaseExpandLock (player : Z) : dbE ()
  | SqlExists (db : Z) (t : DBTask) : dbE (res bool)
  | SqlExec (s : stmt) : dbE (res (writeOutcome * option Msg))
  | SqlFind (db : Z) (t : DBTask) : dbE (res (option Msg))
  | SqlCanceled : dbE bool
  | PublishCache (k : rowkey) (tok : Z) (t : DBTask) (m : Msg) : dbE (res publishReply)
  | AdvanceApplied (k : rowkey) (tok : Z) (cursor epoch : string) : dbE (res Z)
  | SetCacheNX (t : DBTask) (m : Msg) : dbE ()
  | PushResult (t : DBTask) (result : option Msg) : dbE (res ())
  | MoveReceipt (processing dest receipt replacement : string) : dbE (res bool)
  | Strand (r : strandedRetry) : dbE bool
  | AckReceipt (processing receipt : string) : dbE (res bool)
  | Enqueue (queue payload : string) : dbE (option error)
  | AckMsg (claim : Z) (m : KafkaMsg) : dbE ()
  | FailMsg (claim : Z) (m : KafkaMsg) (e : error) : dbE ().

(** A call whose answer may be lost: it was carried out, or not. *)
Definition lossy {A} (f : world -> res A * world) (w : world) (x : res A) (w' : world) : Prop :=
  (x, w') = f w \/ ((exists e, x = Err e) /\ (w' = w \/ w' = (f w).2)).

(** A statement, beside this, may be left to commit later. *)
Definition stick (w : world) (s : stmt) : world := set_sql w (w_tables w) (s :: w_stuck w) (w_binlog w).

Definition on_acker (w : world) (p claim : Z) (f : claimAcker -> claimAcker) : world :=
  let c := claim_of w p in
  if cl_gen c =? claim then set_claim w p (mkClaim (cl_gen c) (cl_base c) (cl_next c) (f (cl_acker c))) else w.

Definition pushes (w : world) (k v : string) (n : nat) : world := Nat.iter n (fun w => LPUSH w k v) w.

Definition db_run (X : Type) (e : dbE X) : world -> X -> world -> Prop :=
  match e in dbE X return world -> X -> world -> Prop with
  | TryLock k => lossy (fun w =>
      match w_locks w !! k with
      | Some _ => (Ok None, w)
      | None => (Ok (Some (w_token w)), set_locks w (<[k := w_token w]> (w_locks w)) (w_token w + 1))
      end)
  | Release k tok => fun w _ w' => w' = w \/ owns_lock w k tok = true /\ w' = set_locks w (delete k (w_locks w)) (w_token w)
  | Verify k tok => fun w x w' => w' = w /\ (x = Ok (owns_lock w k tok) \/ exists e, x = Err e)
  | GetCursor k => fun w x w' => w' = w /\ (x = Ok (w_cursor w !! k) \/ exists e, x = Err e)
  | GetEpoch k => fun w x w' => w' = w /\ (x = Ok (w_epoch w !! k) \/ exists e, x = Err e)
  | SqlExists db t => fun w x w' =>
      w' = w /\ (x = Ok (bool_decide (is_Some (table_of w db (dt_type t) !! dt_key t))) \/ exists e, x = Err e)
  | SqlExec s => fun w x w' =>
      lossy (exec_stmt s) w x w' \/ (exists e, x = Err e) /\ w' = stick w s
  | SqlFind db t => fun w x w' => w' = w
  | PublishCache k tok _ _ => fun w x w' =>
      w' = w /\ (owns_lock w k tok = true \/ x = Ok NotOwner \/ exists e, x = Err e)
  | AdvanceApplied k tok cursor epoch => lossy (fun w => advance_script w k tok cursor epoch)
  | MoveReceipt processing dest receipt replacement => lossy (fun w =>
      let '(moved, w') := move_script w processing dest receipt replacement in (Ok moved, w'))
  | Strand r => fun w x w' => w' = if x then set_stranded w (r :: w_stranded w) else w
  | AckReceipt processing receipt => lossy (fun w =>
      let '(removed, w') := ack_script w processing receipt in (Ok removed, w'))
  | Enqueue queue payload => fun w x w' =>
      exists n, w' = pushes w queue payload n /\ (x = None -> (0 < n)%nat)
  | AckMsg claim m => fun w _ w' => w' = on_acker w (km_partition m) claim (fun a => ack a (km_offset m))
  | FailMsg claim m e => fun w _ w' => w' = on_acker w (km_partition m) claim (fun a => fail a (km_offset m) e)
  | _ => fun w _ w' => w' = w
  end.
End sql.
