(* ===== verification/DbHandle.v ===== *)
(** * One task, from the worker's hands to its end

    [handleTask] of [key_ordered_consumer.go] with everything it calls, as programs
    over [DbWorld]: the guards in their order, the choice of the database
    ([placement_route.go]), the SQL and what follows it, and every way a task can end -
    acknowledged, deferred into the retry queue, quarantined, or left unacknowledged.
    Metrics, logs and the hints to the save outbox are left out. *)

From stdpp Require Import base list gmap strings.
From Stdlib Require Import ZArith Lia Ascii.
From S2P Require Import Prelude DbTask DbAcker DbProg DbWorld.
Local Open Scope Z_scope.

Definition ErrOrderingLockBusy : error := "cross-instance ordering lock is occupied"%string.
Definition ErrOrderingLeaseLost : error := "ordering lock ownership lost"%string.
Definition ErrTaskDeferred : error := "per-key expansion lock is occupied"%string.
Definition ErrPlacementFrozen : error := "placement record is frozen for relocation"%string.
Definition ErrPlacementMoved : error := "placement changed between store selection and the recheck"%string.
Definition ErrPlacementStoreUnavailable : error := "placement store is unavailable"%string.
Definition ErrRouteNotReady : error := "the mapping replica is not trusted"%string.
Definition ErrFenceRedis : error := "fence redis step failed"%string.
Definition ErrFenceEvidenceConflict : error := "asset evidence of one version differs"%string.
Definition ErrMissingPlayerSQLRow : error := "player SQL row is missing"%string.
Definition ErrBlobTooLarge : error := "blob too large"%string.
Definition ErrOther : error := "task failed"%string.
Definition ErrClaimCanceled : error := "claim canceled before task execution"%string.

(** An instance: its settings, its topic, and the list its claimed receipts live in. *)
Record Instance_ := mkInstance { in_cf : DbConfig; in_topic : string; in_processing : string }.

Section handle.
Context `{DbTypes} `{DbCodec} (it : Instance_).
Notation cf := (in_cf it).
Notation db_prog := (prog dbE).
Notation "'skip'" := (Ret () : db_prog ()).

Definition retryReadyKey : string := ("kafka:retry:queue:" +:+ in_topic it)%string.
Definition retryDeadKey : string := ("kafka:dead:queue:" +:+ in_topic it)%string.

(** [retryReadyKeyFor]: the owner's list, or the shared inbox. *)
Definition retryReadyKeyFor (partition : Z) : string :=
  if cf_owner_routing cf && (0 <=? partition) && (partition <? cf_partitions cf)
  then (retryReadyKey +:+ ":p" +:+ FormatInt partition)%string else retryReadyKey.

(** ** Ends of a task *)
Definition ackKafkaTask (k : workerTask) : db_prog () :=
  match wt_msg k with Some m => call (AckMsg (wt_claim k) m) | None => skip end.

Definition failKafkaTask (k : workerTask) (e : error) : db_prog () :=
  match wt_msg k with Some m => call (FailMsg (wt_claim k) m e) | None => skip end.

(** [if task.fromRetry { ackRetryReceipt(...) }]: a failure is logged. *)
Definition ackReceipt (k : workerTask) : db_prog () :=
  if wt_from_retry k && negb (String.eqb (wt_receipt k) "") then
    _ ← call (AckReceipt (in_processing it) (wt_receipt k)); skip
  else skip.

Definition finish (k : workerTask) : db_prog () := ackReceipt k ≫= fun _ => ackKafkaTask k.

(** Move the task's receipt; when Redis fails, leave it to the stranded table. *)
Definition moveOrStrand (k : workerTask) (dest payload : string) : db_prog () :=
  moved ← call (MoveReceipt (in_processing it) dest (wt_receipt k) payload);
  match moved with
  | Ok _ => skip
  | Err _ => _ ← call (Strand (mkStranded (in_processing it) dest (wt_receipt k) payload)); skip
  end.

Definition requeueRevokedRetry (k : workerTask) : db_prog () :=
  moveOrStrand k (retryReadyKeyFor (wt_origin k)) (wt_receipt k).

(** The only copy of a Kafka task goes to a list before its message is acknowledged. *)
Definition persistBeforeAck (k : workerTask) (queue payload : string) : db_prog () :=
  e ← call (Enqueue queue payload);
  match e with None => ackKafkaTask k | Some e => failKafkaTask k e end.

(** [retryBudgetExempt] *)
Definition retryBudgetExempt (t : DBTask) (cause : error) : bool :=
  if bool_decide (cause ∈ [ErrOrderingLockBusy; ErrPlacementFrozen; ErrPlacementMoved]) then true
  else if bool_decide (cause ∈ [ErrPlacementStoreUnavailable; ErrRouteNotReady; ErrSchemaTooNew]) || KindOf cause
  then is_write t
  else false.

Definition deferFailedTask (k : workerTask) (t : DBTask) (cause : error) : db_prog () :=
  if wt_from_retry k then
    let t := if retryBudgetExempt t cause && (0 <? dt_retry t) then set_retry t (dt_retry t - 1) else t in
    let payload := encodeRetryPayload (Marshal t) (wt_seq k) (wt_origin k) (wt_has_origin k) in
    moveOrStrand k (retryReadyKeyFor (wt_origin k)) payload
  else
    let payload := encodeRetryPayload (Marshal t) (wt_seq k) (wt_origin k) true in
    persistBeforeAck k (retryReadyKeyFor (wt_origin k)) payload.

Definition quarantineOrderingConflict (k : workerTask) (t : DBTask) : db_prog () :=
  let payload := encodeRetryPayload (Marshal t) (wt_seq k) (wt_origin k) (wt_has_origin k) in
  if wt_from_retry k then moveOrStrand k retryDeadKey payload
  else persistBeforeAck k retryDeadKey payload.

(** [encodePoisonMessage]: the message itself, behind a magic byte that no task starts with. *)
Definition poisonPayload (m : KafkaMsg) : string := String "003" (PoisonJSON m).

Definition quarantinePoisonTask (k : workerTask) : db_prog () :=
  match wt_msg k with
  | Some m => persistBeforeAck k retryDeadKey (poisonPayload m)
  | None => skip
  end.

(** [failRead], [failReadAuthority]: tell the reader, then end the task. *)
Definition failRead (k : workerTask) (t : DBTask) : db_prog () :=
  told ← (if String.eqb (dt_id t) "" then Ret (Ok ()) else call (PushResult t None));
  match told with
  | Err _ => deferFailedTask k t ErrOther
  | Ok _ => finish k
  end.

(** ** The guards *)
Definition orderingForTask (t : DBTask) (k : workerTask) : db_prog (res orderingDecision) :=
  match ordering_unread t k with
  | Some d => Ret (Ok d)
  | None =>
      raw ← call (GetCursor (row_of t));
      Ret (raw ≫= fun raw => ordering_read raw k)
  end.

Definition checkOwnerEpoch (t : DBTask) : db_prog (res (epochOutcome * Z)) :=
  if dt_epoch t =? 0 then Ret (Ok (LegacyZero, 0))
  else
    raw ← call (GetEpoch (row_of t));
    Ret (applied ← (raw ≫= epoch_of_text); Ok (epoch_verdict t applied)).

(** [ownerCounterRegressed]: the counter the epochs are minted from is behind a stored one. *)
Definition ownerCounterRegressed (player stored : Z) : db_prog (res bool) :=
  raw ← call (GetOwnerCounter player);
  Ret (match raw with
  | Err _ => Err ErrFenceRedis
  | Ok None => Ok (0 <? stored)
  | Ok (Some raw) =>
      match (if String.eqb raw "" then Some 0 else ParseUint raw) with
      | Some e => if String.eqb (FormatUint e) raw then Ok (e <? stored) else Err ErrFenceRedis
      | None => Err ErrFenceRedis
      end
  end).

(** [guardOwnerEpoch]: true when the task may go on. *)
Definition guardOwnerEpoch (k : workerTask) (t : DBTask) : db_prog bool :=
  v ← checkOwnerEpoch t;
  match v with
  | Err e => deferFailedTask k t e ≫= fun _ => Ret false
  | Ok (Stale, applied) =>
      let drop := finish k ≫= fun _ => Ret false in
      if cf_dual cf then
        regressed ← ownerCounterRegressed (dt_key t) applied;
        match regressed with
        | Err e => deferFailedTask k t e ≫= fun _ => Ret false
        | Ok true => quarantineOrderingConflict k t ≫= fun _ => Ret false
        | Ok false => drop
        end
      else drop
  | Ok _ => Ret true
  end.

(** ** Where the row lives *)
Inductive placementDecision :=
  | StaleTopic | FrozenDeferred | MissingRequired | Use (storage : Z).

Definition decideWritePlacement (s : placementSnapshot) : placementDecision :=
  match sn_home s, sn_rec s with
  | Some h, r =>
      if negb (h =? cf_zone cf) then StaleTopic
      else match r with
      | Some r => if pr_frozen r then FrozenDeferred else Use (pr_storage r)
      | None => if cf_required cf then MissingRequired else Use h
      end
  | None, Some r => if pr_frozen r then FrozenDeferred else Use (pr_storage r)
  | None, None => if cf_required cf then MissingRequired else Use (cf_zone cf)
  end.

Definition decideReadPlacement (s : placementSnapshot) : placementDecision :=
  match sn_rec s with
  | Some r => Use (pr_storage r)
  | None =>
      if cf_required cf then MissingRequired
      else match sn_home s with Some h => Use h | None => Use (cf_zone cf) end
  end.

Definition EffectiveStorage (s : placementSnapshot) : Z :=
  match sn_rec s, sn_home s with
  | Some r, _ => pr_storage r
  | None, Some h => h
  | None, None => cf_zone cf
  end.

Definition sameRoute (a b : placementSnapshot) : bool :=
  match sn_rec a, sn_rec b with
  | Some r, Some q => (pr_storage r =? pr_storage q) && (pr_version r =? pr_version q)
  | None, None => EffectiveStorage a =? EffectiveStorage b
  | _, _ => false
  end.

Definition recheckPasses (write : bool) (selected current : placementSnapshot) : bool :=
  sameRoute selected current &&
  negb (write && match sn_rec current with Some r => pr_frozen r | None => false end).

(** A route: the database, and the records it was chosen by. *)
Definition routeTask (k : workerTask) (t : DBTask) : db_prog (option (Z * placementSnapshot)) :=
  snap ← call (PlacementLookup (dt_key t));
  match snap with
  | Err e => deferFailedTask k t e ≫= fun _ => Ret None
  | Ok snap =>
      match (if is_write t then decideWritePlacement snap else decideReadPlacement snap) with
      | StaleTopic => quarantineOrderingConflict k t ≫= fun _ => Ret None
      | FrozenDeferred => deferFailedTask k t ErrPlacementFrozen ≫= fun _ => Ret None
      | MissingRequired =>
          (if is_write t then quarantineOrderingConflict k t else failRead k t) ≫= fun _ => Ret None
      | Use db =>
          store ← call (OpenStore db);
          match store with
          | Ok _ => Ret (Some (db, snap))
          | Err _ =>
              (if is_read t then failRead k t else deferFailedTask k t ErrPlacementStoreUnavailable) ≫= fun _ => Ret None
          end
      end
  end.

Definition confirm (t : DBTask) (selected : placementSnapshot) : db_prog (res ()) :=
  current ← call (PlacementLookup (dt_key t));
  Ret (match current with
  | Err e => if String.eqb e ErrRouteNotReady then Err ErrPlacementMoved else Err ErrOther
  | Ok current => if recheckPasses (is_write t) selected current then Ok () else Err ErrPlacementMoved
  end).

(** ** The SQL half *)
(** [savePlayerRow]: the outcome, and the message to publish. *)
Definition savePlayerRow (db : Z) (t : DBTask) (m : Msg) : db_prog (res (writeOutcome * Msg)) :=
  match stamp_row cf t m with
  | Err e => Ret (Err e)
  | Ok target =>
      let transaction :=
        r ← call (SqlExec (SFence db t target));
        Ret (match r with
        | Err e => Err e
        | Ok (o, current) =>
            Ok (o, match wo_kind o, current with writeEqual, Some c => c | _, _ => target end)
        end) in
      exists_ ← call (SqlExists db t);
      match exists_ with
      | Err e => Ret (Err e)
      | Ok true => transaction
      | Ok false =>
          r ← call (SqlExec (SInsert db t target));
          match r with
          | Ok _ => Ret (Ok (mkOutcome writeApplied 0, target))
          | Err e => if String.eqb e ErrDuplicateKey then transaction else Ret (Err e)
          end
      end
  end.

Definition handleDBWriteOp (db : Z) (t : DBTask) (m : Msg) : db_prog (res (writeOutcome * Msg)) :=
  if ty_too_large (dt_type t) m then Ret (Err ErrBlobTooLarge)
  else if ty_fence (dt_type t) then savePlayerRow db t m
  else
    r ← call (SqlExec (SSave db t m));
    Ret (match r with Ok _ => Ok (mkOutcome writeApplied 0, m) | Err e => Err e end).

Definition handleDBReadOp (db : Z) (t : DBTask) (m : Msg) : db_prog (res (writeOutcome * Msg)) :=
  r ← call (SqlFind db t);
  Ret (match r with
  | Err e => Err e
  | Ok None =>
      if ty_player (dt_type t) then Err ErrMissingPlayerSQLRow
      else _ ← checkReadSchema cf t m; Ok (mkOutcome writeApplied 0, m)
  | Ok (Some row) => _ ← checkReadSchema cf t row; Ok (mkOutcome writeApplied 0, row)
  end).

Definition publishDBWriteResult (tok : Z) (t : DBTask) (m : Msg) : db_prog (res ()) :=
  r ← call (PublishCache (row_of t) tok t m);
  Ret (match r with
  | Ok Published | Ok EvidenceAhead => Ok ()
  | Ok NotOwner => Err ErrOrderingLeaseLost
  | Ok EvidenceConflict => Err ErrFenceEvidenceConflict
  | Err _ => Err ErrFenceRedis
  end).

Definition publishDBReadResult (t : DBTask) (m : Msg) : db_prog (res ()) :=
  _ ← call (SetCacheNX t m);
  if String.eqb (dt_id t) "" then Ret (Ok ()) else call (PushResult t (Some m)).

(** [verify]: the lock's token is still ours. *)
Definition verify (tok : Z) (t : DBTask) : db_prog (res ()) :=
  r ← call (Verify (row_of t) tok);
  Ret (match r with Ok true => Ok () | _ => Err ErrOrderingLeaseLost end).

(** [runDBOp], once the statement has answered. *)
Definition afterSQL (t : DBTask) (selected : placementSnapshot) (tok : option Z) (r : res (writeOutcome * Msg))
    : db_prog (res writeOutcome) :=
  canceled ← call SqlCanceled;
  if (canceled : bool) then Ret (Err (if is_write t then ErrOrderingLeaseLost else ErrOther))
  else match r with
  | Err e => Ret (Err e)
  | Ok (o, m) =>
      if is_write t && bool_decide (wo_kind o ∈ [writeStaleOwner; writeLegacyAfterSeq; writeSchemaRegression])
      then Ret (Ok o)
      else
        c ← confirm t selected;
        match c with
        | Err e => Ret (Err e)
        | Ok _ =>
            finished ← (match is_write t, tok with
                        | true, Some tok => if bool_decide (wo_kind o = writeOlder) then verify tok t else publishDBWriteResult tok t m
                        | true, None => Ret (Err ErrOther)
                        | false, _ => publishDBReadResult t m
                        end);
            Ret (match finished with Ok _ => Ok o | Err e => Err e end)
        end
  end.

(** [runDBOp]; a write holds the ordering lock under [tok]. *)
Definition runDBOp (t : DBTask) (m : Msg) (route : Z * placementSnapshot) (tok : option Z) : db_prog (res writeOutcome) :=
  let '(db, selected) := route in
  if is_write t then
    match tok with
    | None => Ret (Err ErrOther)
    | Some tok' =>
        lost ← call (LeaseLost tok');
        if (lost : bool) then Ret (Err ErrOrderingLeaseLost)
        else handleDBWriteOp db t m ≫= afterSQL t selected tok
    end
  else handleDBReadOp db t m ≫= afterSQL t selected tok.

Definition processTaskWithoutLock (t : DBTask) (route : Z * placementSnapshot) (tok : option Z) : db_prog (res writeOutcome) :=
  if negb (ty_known (dt_type t)) then Ret (Err ErrOther)
  else match ty_decode (dt_type t) (dt_body t) with
  | None => Ret (Err ErrOther)
  | Some m =>
      match checkWriteSchema cf t m with
      | Err e => Ret (Err e)
      | Ok (Some kind) => Ret (Ok (mkOutcome kind 0))
      | Ok None => runDBOp t m route tok
      end
  end.

Definition tryLockAndProcess (t : DBTask) (route : Z * placementSnapshot) (tok : option Z) : db_prog (res writeOutcome) :=
  locked ← call (TryExpandLock (dt_key t));
  match locked with
  | Err _ => Ret (Err ErrOther)
  | Ok false => Ret (Err ErrTaskDeferred)
  | Ok true =>
      r ← processTaskWithoutLock t route tok;
      _ ← call (ReleaseExpandLock (dt_key t));
      Ret r
  end.

Definition processDBTask (t : DBTask) (route : Z * placementSnapshot) (tok : option Z) : db_prog (res writeOutcome) :=
  if cf_expand cf then processTaskWithoutLock t route tok
  else
    status ← call GetExpandStatus;
    match status with
    | Err _ | Ok true => tryLockAndProcess t route tok
    | Ok false => processTaskWithoutLock t route tok
    end.

Definition cursor_text (k : workerTask) : string :=
  if wt_seq k =? 0 then "" else encodeAppliedCursor (mkCursor (wt_origin k) (wt_seq k) (wt_has_origin k)).

Definition advanceApplied (tok : option Z) (t : DBTask) (k : workerTask) : db_prog (res ()) :=
  match is_write t, tok with
  | true, Some tok =>
      r ← call (AdvanceApplied (row_of t) tok (cursor_text k) (FormatUint (dt_epoch t)));
      Ret (match r with Ok n => if n =? 0 then Err ErrOrderingLeaseLost else Ok () | Err _ => Err ErrFenceRedis end)
  | _, _ => Ret (Ok ())
  end.

(** ** The task *)

(** What follows the SQL: [handleTask] from [processDBTask] on. *)
Definition settle (k : workerTask) (t : DBTask) (tok : option Z) (r : res writeOutcome) : db_prog () :=
  match r with
  | Err e =>
      if is_read t && bool_decide (e ∈ [ErrSchemaTooNew; ErrMissingPlayerSQLRow]) then failRead k t
      else
        lost ← (match tok with Some tok => call (LeaseLost tok) | None => Ret false end);
        deferFailedTask k t (if (lost : bool) then ErrOrderingLeaseLost else e)
  | Ok o =>
      match wo_kind o with
      | writeApplied | writeEqual =>
          marked ← advanceApplied tok t k;
          match marked with
          | Err e => deferFailedTask k t e
          | Ok _ => finish k
          end
      | writeOlder => finish k
      | writeStaleOwner =>
          regressed ← ownerCounterRegressed (dt_key t) (wo_epoch o);
          match regressed with
          | Err e => deferFailedTask k t e
          | Ok _ => quarantineOrderingConflict k t
          end
      | writeLegacyAfterSeq | writePersistUnstamped | writeSchemaRegression => quarantineOrderingConflict k t
      end
  end.

(** From the choice of the database to the end. *)
Definition execute (k : workerTask) (t : DBTask) (tok : option Z) : db_prog () :=
  route ← routeTask k t;
  match route with
  | None => skip
  | Some route =>
      revoked ← (if wt_from_retry k && wt_claimed k then call (ClaimDone k) else Ret false);
      if (revoked : bool) then requeueRevokedRetry k
      else processDBTask t route tok ≫= settle k t tok
  end.

(** [epochOverride]: a stale cursor does not stop the first write of a newer owner. *)
Definition epochOverride (t : DBTask) : db_prog (res bool) :=
  if cf_dual cf && cf_override cf && negb (dt_epoch t =? 0) && negb (dt_save t =? 0)
     && ty_known (dt_type t) && ty_fence (dt_type t) then
    v ← checkOwnerEpoch t;
    Ret (match v with
    | Err _ => Err ErrFenceRedis
    | Ok (Advance, _) => Ok true
    | Ok _ => Ok false
    end)
  else Ret (Ok false).

(** From the ordering guard on; a write holds its lock. *)
Definition guarded (k : workerTask) (t : DBTask) (tok : option Z) : db_prog () :=
  let passed :=
    may ← (if is_write t then guardOwnerEpoch k t else Ret true);
    if (may : bool) then execute k t tok else skip in
  d ← orderingForTask t k;
  match d with
  | Err e => deferFailedTask k t e
  | Ok orderingIncomparable => quarantineOrderingConflict k t
  | Ok orderingApply => passed
  | Ok orderingStale =>
      o ← epochOverride t;
      match o with
      | Err e => deferFailedTask k t e
      | Ok true => passed
      | Ok false => finish k
      end
  end.

Definition handleDecoded (k : workerTask) (t : DBTask) : db_prog () :=
  if negb (has_handler (dt_op t)) then
    if wt_from_retry k then quarantineOrderingConflict k t else quarantinePoisonTask k
  else if is_write t then
    lock ← call (TryLock (row_of t));
    match lock with
    | Err _ => deferFailedTask k t ErrOther
    | Ok None => deferFailedTask k t ErrOrderingLockBusy
    | Ok (Some tok) =>
        _ ← guarded k t (Some tok);
        call (Release (row_of t) tok)
    end
  else guarded k t None.

Definition handleTask (k : workerTask) : db_prog () :=
  revoked ← (if wt_claimed k then call (ClaimDone k) else Ret false);
  if (revoked : bool) then
    if wt_from_retry k then requeueRevokedRetry k else failKafkaTask k ErrClaimCanceled
  else match wt_task k with
  | Some t => handleDecoded k t
  | None =>
      match wt_msg k with
      | None => skip
      | Some m =>
          match Unmarshal (km_value m) with
          | None => quarantinePoisonTask k
          | Some t => handleDecoded (set_task k t) t
          end
      end
  end.
End handle.
