(* ===== verification/DbCoalesce.v ===== *)
(** * A batch of tasks

    [processTaskBatch] of [key_ordered_consumer.go]: a sub-worker takes what has piled
    up and, of several writes of one row without a read between them, executes only
    the newest. [coalesce] is its second pass, from the last task to the first;
    [processTaskBatch] the whole of it. [coalesce_covered] is what justifies it.
    The last part counts the ends a task makes. *)
From stdpp Require Import base list gmap strings.
From Stdlib Require Import ZArith Lia.
From S2P Require Import Prelude DbTask DbAcker DbProg DbWorld DbHandle.
Local Open Scope Z_scope.

Notation parsedTask := (workerTask * DBTask)%type.

Section coalesce.
Context `{DbTypes} (cf : DbConfig).

(** [preferBest]: by the position in the partition; between two versions of one owner by
    the save number. *)
Definition preferBest (p best : parsedTask) : bool :=
  if cf_dual cf && negb (dt_epoch p.2 =? 0) && negb (dt_save p.2 =? 0) && negb (dt_save best.2 =? 0)
     && (dt_epoch p.2 =? dt_epoch best.2) && ty_known (dt_type p.2) && ty_fence (dt_type p.2)
  then dt_save p.2 <=? dt_save best.2
  else wt_seq p.1 <=? wt_seq best.1.

(** [liveBestWrite]: by row and partition, the best write of the segment, and where it is. *)
Notation live := (gmap rowkey (gmap Z (nat * parsedTask))).

Definition coalesce_step (i : nat) (p : parsedTask) (st : live * gset nat) : live * gset nat :=
  let '(best, superseded) := st in
  let ck := row_of p.2 in
  if is_write p.2 then
    if (wt_seq p.1 =? 0) || negb (wt_has_origin p.1) then st
    else
      let byPartition := default ∅ (best !! ck) in
      let take_over := <[ck := <[wt_origin p.1 := (i, p)]> byPartition]> best in
      match byPartition !! wt_origin p.1 with
      | None => (take_over, superseded)
      | Some (j, b) =>
          if ownerEpochsDiverge (dt_epoch p.2) (dt_epoch b.2) then (take_over, superseded)
          else if preferBest p b then (best, {[i]} ∪ superseded)
          else (take_over, {[j]} ∪ superseded)
      end
  else (delete ck best, superseded).

(** [parsed[n:]], the first of which has index [n]. *)
Fixpoint coalesce_from (n : nat) (parsed : list parsedTask) : live * gset nat :=
  match parsed with
  | [] => (∅, ∅)
  | p :: rest => coalesce_step n p (coalesce_from (S n) rest)
  end.

Definition coalesce (parsed : list parsedTask) : gset nat := (coalesce_from 0 parsed).2.
End coalesce.

Section batch.
Context `{DbTypes} `{DbCodec} (it : Instance_).
Notation db_prog := (prog dbE).

(** The first pass: what does not decode is quarantined at once. *)
Fixpoint parse_batch (batch : list workerTask) : db_prog (list parsedTask) :=
  match batch with
  | [] => Ret []
  | k :: rest =>
      match wt_task k, wt_msg k with
      | Some t, _ => ps ← parse_batch rest; Ret ((k, t) :: ps)
      | None, Some m =>
          match Unmarshal (km_value m) with
          | Some t => ps ← parse_batch rest; Ret ((set_task k t, t) :: ps)
          | None => _ ← quarantinePoisonTask it k; parse_batch rest
          end
      | None, None => parse_batch rest
      end
  end.

(** The third pass: a superseded task ends without being executed. *)
Fixpoint execute_batch (n : nat) (superseded : gset nat) (parsed : list parsedTask) : db_prog () :=
  match parsed with
  | [] => Ret ()
  | (k, t) :: rest =>
      _ ← (if bool_decide (n ∈ superseded) then finish it k else handleTask it k);
      execute_batch (S n) superseded rest
  end.

Definition processTaskBatch (batch : list workerTask) : db_prog () :=
  match batch with
  | [k] => handleTask it k
  | _ =>
      parsed ← parse_batch batch;
      execute_batch 0 (coalesce (in_cf it) parsed) parsed
  end.
End batch.

(** ** What is superseded *)
Section covered.
Context `{DbTypes} (cf : DbConfig).
#[local] Set Default Proof Using "Type*".
Implicit Types (p b : parsedTask).

(** Tasks that the second pass compares: writes of one row from one known partition. *)
Definition comparable p b : Prop :=
  row_of p.2 = row_of b.2 /\ wt_origin p.1 = wt_origin b.1 /\
  (is_write p.2 = true /\ wt_has_origin p.1 = true /\ wt_seq p.1 <> 0) /\
  (is_write b.2 = true /\ wt_has_origin b.1 = true /\ wt_seq b.1 <> 0).

(** [b] may stand for [p]: later in the partition, or a version of the same owner that
    is at least as new. *)
Definition newer p b : Prop :=
  comparable p b /\
  (wt_seq p.1 <= wt_seq b.1 \/
   cf_dual cf = true /\ dt_epoch p.2 = dt_epoch b.2 /\ dt_epoch p.2 <> 0 /\
   dt_save p.2 <> 0 /\ dt_save b.2 <> 0 /\ dt_save p.2 <= dt_save b.2).

(** No read of the row stands between two positions. *)
Definition no_read_between (parsed : list parsedTask) (r : rowkey) (i j : nat) : Prop :=
  forall k p, (i < k < j)%nat -> parsed !! k = Some p -> row_of p.2 = r -> is_write p.2 = true.

Lemma comparable_sym p b : comparable p b -> comparable b p.
Proof. intros (? & ? & ? & ?). by split. Qed.

Lemma preferBest_newer p b : comparable p b ->
  if preferBest cf p b then newer p b else newer b p.
Proof.
  intros Hc. unfold newer. pose proof (comparable_sym _ _ Hc) as Hc'.
  unfold preferBest. destruct (_ && _) eqn:E.
  - zbool. destruct (_ <=? _) eqn:El; zbool; (split; [done|]); right; (split_and!; first [done|lia|congruence]).
  - destruct (_ <=? _) eqn:El; zbool; (split; [done|]); left; lia.
Qed.

(** A position in the tail of the batch, counted from the whole batch. *)
Record stands (n : nat) (parsed : list parsedTask) (j : nat) (p : parsedTask) : Prop := {
  st_from : (n <= j)%nat;
  st_at : parsed !! (j - n)%nat = Some p }.

Lemma stands_cons n p0 parsed j p : stands (S n) parsed j p -> stands n (p0 :: parsed) j p.
Proof. intros [Hj Hp]. split; [lia|]. by replace (j - n)%nat with (S (j - S n)) by lia. Qed.

Lemma stands_head n p0 parsed : stands n (p0 :: parsed) n p0.
Proof. split; [lia|]. by rewrite Nat.sub_diag. Qed.

Definition calm (n : nat) (parsed : list parsedTask) (r : rowkey) (i j : nat) : Prop :=
  forall k p, (i < k < j)%nat -> stands n parsed k p -> row_of p.2 = r -> is_write p.2 = true.

Lemma calm_cons n p0 parsed r i j : (n <= i)%nat -> calm (S n) parsed r i j -> calm n (p0 :: parsed) r i j.
Proof.
  intros Hi Hc k p Hk [Hn Hp]. apply (Hc k); [done|]. split; [lia|].
  by replace (k - n)%nat with (S (k - S n)) in Hp by lia.
Qed.

(** One task of the batch stands for another, directly or through others of it. *)
Definition covers (l : list parsedTask) : relation parsedTask := tc (fun p b => newer p b /\ p ∈ l /\ b ∈ l).

Lemma stands_elem n l j p : stands n l j p -> p ∈ l.
Proof. intros [_ Hp]. by eapply list_elem_of_lookup_2. Qed.

Lemma covers_once n l i p j b : newer p b -> stands n l i p -> stands n l j b -> covers l p b.
Proof. intros Hn Hp Hb. apply tc_once. split_and!; [done|by eapply stands_elem..]. Qed.

Lemma covers_cons p0 l p b : covers l p b -> covers (p0 :: l) p b.
Proof.
  intros Hc. induction Hc as [p b (Hn & Hp & Hb)|p q b (Hn & Hp & Hq) _ IH]; [apply tc_once|eapply tc_l; [|exact IH]];
    (split_and!; [done|by right..]).
Qed.

Lemma covers_step n l p j q j' b : covers l p q -> newer q b -> stands n l j q -> stands n l j' b -> covers l p b.
Proof. intros Hc Hn Hq Hb. eapply tc_r; [exact Hc|]. split_and!; [done|by eapply stands_elem..]. Qed.

Lemma covers_row l p b : covers l p b -> row_of p.2 = row_of b.2.
Proof. induction 1 as [p b [[[-> _] _] _]|p q b [[[-> _] _] _] _ IH]; [done|exact IH]. Qed.

(** The tail [parsed] of a batch, from index [n] on. *)
Record coalesced (n : nat) (parsed : list parsedTask) (best : gmap rowkey (gmap Z (nat * parsedTask))) (sup : gset nat) : Prop := {
  co_best : forall (r : rowkey) (q : Z) byp j b, best !! r = Some byp -> byp !! q = Some (j, b) ->
    stands n parsed j b /\ j ∉ sup /\ row_of b.2 = r /\ wt_origin b.1 = q /\
    (is_write b.2 = true /\ wt_has_origin b.1 = true /\ wt_seq b.1 <> 0) /\
    forall k p, (k < j)%nat -> stands n parsed k p -> row_of p.2 = r -> is_write p.2 = true;
  co_sup : forall i, i ∈ sup -> exists p j b,
    stands n parsed i p /\ stands n parsed j b /\ j ∉ sup /\ covers parsed p b /\
    calm n parsed (row_of p.2) (i `min` j) (i `max` j) }.

Lemma coalesced_skip n p0 parsed best sup :
  coalesced (S n) parsed best sup ->
  coalesced n (p0 :: parsed) (if is_write p0.2 then best else delete (row_of p0.2) best) sup.
Proof.
  intros [Hb Hs]. split.
  - intros r q byp j b Hr Hq. assert (best !! r = Some byp /\ (row_of p0.2 = r -> is_write p0.2 = true)) as [Hr' Hp0].
    { destruct (is_write p0.2); [done|]. apply lookup_delete_Some in Hr as [? ?]. done. }
    destruct (Hb _ _ _ _ _ Hr' Hq) as (Hst & Hj & ? & ? & (? & ? & ?) & Hc). split_and!; try done; [by apply stands_cons|].
    intros k p Hk [Hn Hp]. destruct (decide (k = n)) as [->|].
    + rewrite Nat.sub_diag in Hp. cbn in Hp. simplify_eq. done.
    + apply (Hc k); [done|]. split; [lia|]. by replace (k - n)%nat with (S (k - S n)) in Hp by lia.
  - intros i Hi. destruct (Hs i Hi) as (p & j & b & Hsi & Hsj & Hj & Ht & Hc). exists p, j, b.
    split_and!; [by apply stands_cons|by apply stands_cons|done|by apply covers_cons|].
    apply calm_cons; [destruct Hsi, Hsj; lia|done].
Qed.

(** The head becomes the best of its row. *)
Lemma coalesced_take n p0 parsed best sup sup' :
  coalesced n (p0 :: parsed) best sup -> n ∉ sup' ->
  is_write p0.2 = true -> wt_has_origin p0.1 = true -> wt_seq p0.1 <> 0 ->
  (forall r q byp j b, best !! r = Some byp -> byp !! q = Some (j, b) -> (r, q) <> (row_of p0.2, wt_origin p0.1) -> j ∉ sup') ->
  (forall i, i ∈ sup' -> exists p j b,
    stands n (p0 :: parsed) i p /\ stands n (p0 :: parsed) j b /\ j ∉ sup' /\ covers (p0 :: parsed) p b /\
    calm n (p0 :: parsed) (row_of p.2) (i `min` j) (i `max` j)) ->
  coalesced n (p0 :: parsed)
    (<[row_of p0.2 := <[wt_origin p0.1 := (n, p0)]> (default ∅ (best !! row_of p0.2))]> best) sup'.
Proof.
  intros [Hb _] Hn Hw Ho Hq Hkeep Hs. split; [|done]. intros r q byp j b Hr Hb'.
  assert ((r, q) = (row_of p0.2, wt_origin p0.1) /\ (j, b) = (n, p0) \/
    (r, q) <> (row_of p0.2, wt_origin p0.1) /\ exists byp, best !! r = Some byp /\ byp !! q = Some (j, b)) as Hcase.
  { apply lookup_insert_Some in Hr as [[<- <-]|[Hr1 Hr2]].
    - apply lookup_insert_Some in Hb' as [[<- [= <- <-]]|[Hq1 Hq2]]; [by left|]. right.
      split; [congruence|]. destruct (best !! row_of p0.2) as [m|]; [by exists m|done].
    - right. split; [congruence|]. by exists byp. }
  destruct Hcase as [[[= -> ->] [= -> ->]]|(Hne & byp' & Hr' & Hq')].
  - split_and!; try done; [apply stands_head|]. intros k p Hk [Hk' _]. lia.
  - destruct (Hb _ _ _ _ _ Hr' Hq') as (? & ? & ? & ? & (? & ? & ?) & ?). split_and!; try done; by eapply Hkeep.
Qed.

Lemma stands_unique n parsed j p q : stands n parsed j p -> stands n parsed j q -> p = q.
Proof. intros [_ ?] [_ ?]. by simplify_eq. Qed.

(** The head is superseded by the best of its row. *)
Lemma coalesced_drop n p0 parsed best sup j b :
  coalesced (S n) parsed best sup -> coalesced n (p0 :: parsed) best sup ->
  stands (S n) parsed j b -> j ∉ sup -> newer p0 b -> calm n (p0 :: parsed) (row_of p0.2) n j ->
  coalesced n (p0 :: parsed) best ({[n]} ∪ sup).
Proof.
  intros HS [Hb _] Hst Hj Hn Hc. split.
  - intros r q byp i c Hr Hq. destruct (Hb _ _ _ _ _ Hr Hq) as (? & ? & ? & ? & (? & ? & ?) & ?).
    destruct (co_best _ _ _ _ HS _ _ _ _ _ Hr Hq) as ([? _] & _). split_and!; try done.
    apply not_elem_of_union. split; [|done]. apply not_elem_of_singleton. lia.
  - intros i [->%elem_of_singleton|Hi]%elem_of_union.
    + exists p0, j, b. destruct Hst as [Hle Hat]. split_and!.
      * apply stands_head.
      * by apply stands_cons.
      * apply not_elem_of_union. split; [|done]. apply not_elem_of_singleton. lia.
      * eapply covers_once; [done|apply stands_head|by apply stands_cons].
      * by replace (n `min` j)%nat with n by lia; replace (n `max` j)%nat with j by lia.
    + destruct (co_sup _ _ _ _ HS i Hi) as (p & j' & b' & Hsi & Hsj & Hj' & Ht & Hc'). exists p, j', b'.
      split_and!; [by apply stands_cons|by apply stands_cons| |by apply covers_cons|].
      * destruct Hsj. apply not_elem_of_union. split; [|done]. apply not_elem_of_singleton. lia.
      * destruct Hsi, Hsj. apply calm_cons; [lia|done].
Qed.

(** The head supersedes the best of its row, and whatever that one stood for. *)
Lemma coalesced_replace n p0 parsed best sup j b :
  coalesced (S n) parsed best sup -> coalesced n (p0 :: parsed) best sup ->
  stands (S n) parsed j b -> newer b p0 -> is_write b.2 = true -> calm n (p0 :: parsed) (row_of p0.2) n j ->
  forall i, i ∈ {[j]} ∪ sup -> exists p j' b',
    stands n (p0 :: parsed) i p /\ stands n (p0 :: parsed) j' b' /\ j' ∉ {[j]} ∪ sup /\ covers (p0 :: parsed) p b' /\
    calm n (p0 :: parsed) (row_of p.2) (i `min` j') (i `max` j').
Proof.
  intros HS Hn Hst Hnew Hw Hc i Hi. pose proof Hst as [Hle Hat]. assert (n ∉ {[j]} ∪ sup) as Hno.
  { apply not_elem_of_union. rewrite not_elem_of_singleton. split; [lia|]. intros Hin.
    destruct (co_sup _ _ _ _ HS n Hin) as (? & ? & ? & [? _] & _). lia. }
  assert (row_of b.2 = row_of p0.2) as Hrow by (by apply Hnew).
  apply elem_of_union in Hi as [->%elem_of_singleton|Hi].
  - exists b, n, p0. split_and!; [by apply stands_cons|apply stands_head|done|by eapply covers_once; [|apply stands_cons|apply stands_head]|].
    rewrite Hrow. by replace (j `min` n)%nat with n by lia; replace (j `max` n)%nat with j by lia.
  - destruct (co_sup _ _ _ _ HS i Hi) as (p & j' & b' & Hsi & Hsj & Hj' & Ht & Hc').
    destruct (decide (j' = j)) as [->|Hne].
    + pose proof (stands_unique _ _ _ _ _ Hsj Hst) as ->. exists p, n, p0.
      split_and!; [by apply stands_cons|apply stands_head|done|by eapply covers_step; [apply covers_cons| |apply stands_cons|apply stands_head]|].
      pose proof (covers_row _ _ _ Ht) as Hr. pose proof Hsi as [Hi' _]. rewrite Hr, Hrow.
      intros k q Hk Hq Hqr. replace (i `min` n)%nat with n in Hk by lia. replace (i `max` n)%nat with i in Hk by lia.
      destruct (decide (k = j)) as [->|]; [by rewrite (stands_unique _ _ _ _ _ Hq (stands_cons _ p0 _ _ _ Hst))|].
      destruct (decide (k < j)%nat); [eapply Hc; [|done|done]; lia|].
      apply (calm_cons _ p0) in Hc'; [|lia]. eapply (Hc' k); [lia|done|congruence].
    + exists p, j', b'. split_and!; [by apply stands_cons|by apply stands_cons| |by apply covers_cons|].
      * apply not_elem_of_union. split; [by apply not_elem_of_singleton|done].
      * destruct Hsi, Hsj. apply calm_cons; [lia|done].
Qed.

Lemma coalesce_from_ok n parsed : coalesced n parsed (coalesce_from cf n parsed).1 (coalesce_from cf n parsed).2.
Proof.
  revert n. induction parsed as [|p0 parsed IH]; intros n; [split; cbn; [done|set_solver]|].
  cbn. specialize (IH (S n)). destruct (coalesce_from cf (S n) parsed) as [best sup]. cbn in IH.
  pose proof (coalesced_skip n p0 parsed best sup IH) as Hskip. unfold coalesce_step.
  destruct (is_write p0.2) eqn:Hw; [|done].
  destruct (wt_seq p0.1 =? 0) eqn:Hq; cbn [orb]; [done|]. destruct (wt_has_origin p0.1) eqn:Ho; cbn [negb]; [|done]. zbool.
  assert (n ∉ sup) as Hn.
  { intros Hin. destruct (co_sup _ _ _ _ IH n Hin) as (p & j & b & [? _] & _). lia. }
  assert (forall r q byp j b, best !! r = Some byp -> byp !! q = Some (j, b) ->
    (r, q) <> (row_of p0.2, wt_origin p0.1) -> j ∉ sup) as Hkeep.
  { intros r q byp j b Hr Hb _. by destruct (co_best _ _ _ _ Hskip _ _ _ _ _ Hr Hb) as (_ & ? & _). }
  destruct (default ∅ (best !! row_of p0.2) !! wt_origin p0.1) as [[j b]|] eqn:Hbest.
  2: { apply (coalesced_take n p0 parsed best sup sup); [done..|apply Hskip]. }
  assert (exists byp, best !! row_of p0.2 = Some byp /\ byp !! wt_origin p0.1 = Some (j, b)) as (byp & Hrow & Hb).
  { destruct (best !! row_of p0.2) as [byp|]; [by exists byp|done]. }
  destruct (co_best _ _ _ _ IH _ _ _ _ _ Hrow Hb) as (HstS & _).
  destruct (co_best _ _ _ _ Hskip _ _ _ _ _ Hrow Hb) as (Hst & Hj & Hr & Horg & Hbw & Hcalm).
  assert (comparable p0 b) as Hcomp by (split_and!; try done; apply Hbw).
  assert (calm n (p0 :: parsed) (row_of p0.2) n j) as Hc by (intros k p Hk; apply Hcalm; lia).
  destruct (ownerEpochsDiverge _ _).
  { apply (coalesced_take n p0 parsed best sup sup); [done..|apply Hskip]. }
  pose proof (preferBest_newer p0 b Hcomp) as Hpref. destruct (preferBest cf p0 b).
  { by apply (coalesced_drop n p0 parsed best sup j b). }
  apply (coalesced_take n p0 parsed best sup ({[j]} ∪ sup)); try done.
  - apply not_elem_of_union. rewrite not_elem_of_singleton. split; [destruct HstS; lia|done].
  - intros r q byp' i c Hr' Hq' Hne. pose proof (co_best _ _ _ _ Hskip _ _ _ _ _ Hr' Hq') as (Hsi & Hi & Hri & Hqi & _).
    apply not_elem_of_union. split; [|done]. apply not_elem_of_singleton. intros ->.
    pose proof (stands_unique _ _ _ _ _ Hsi Hst). subst. apply Hne. congruence.
  - by apply (coalesced_replace n p0 parsed best sup j b); [..|apply Hbw|].
Qed.

(** What a batch leaves out: a later or newer write of the same row from the same
    partition stays in, with no read of the row between the two. *)
Lemma coalesce_covered parsed i : i ∈ coalesce cf parsed ->
  exists p j b, parsed !! i = Some p /\ parsed !! j = Some b /\ j ∉ coalesce cf parsed /\ covers parsed p b /\
    no_read_between parsed (row_of p.2) (i `min` j) (i `max` j).
Proof.
  intros Hi. destruct (co_sup _ _ _ _ (coalesce_from_ok 0 parsed) i Hi) as (p & j & b & [_ Hp] & [_ Hb] & Hj & Ht & Hc).
  rewrite Nat.sub_0_r in Hp, Hb. exists p, j, b. split_and!; try done.
  intros k q Hk Hq. apply (Hc k); [done|]. split; [lia|]. by rewrite Nat.sub_0_r.
Qed.
End covered.

(** * Every task ends exactly once

    A claim waits until all its messages are closed, and a claimed receipt stays claimed
    until it is acknowledged or moved. [every] runs a program against all possible
    answers and collects the ends it makes: on every path of [processTaskBatch] each
    task of the batch makes exactly one. *)

(** The end of a message of a claim, or of a claimed receipt. *)
Inductive ending := EMsg (claim : Z) (m : KafkaMsg) | EReceipt (receipt : string).

Section once.
Context `{DbTypes} `{DbCodec}.
Implicit Types (x : workerTask) (t : DBTask).

Definition event_of {X} (e : dbE X) : list ending :=
  match e with
  | AckMsg c m | FailMsg c m _ => [EMsg c m]
  | AckReceipt _ r | MoveReceipt _ _ r _ => [EReceipt r]
  | _ => []
  end.

(** Whatever is answered, the program ends with [Q] of its result and its ends. *)
Fixpoint every {A} (p : prog dbE A) (Q : A -> list ending -> Prop) : Prop :=
  match p with
  | Ret a => Q a []
  | Do e k => forall ans, every (k ans) (fun a l => Q a (event_of e ++ l))
  end.

Lemma every_mono {A} (p : prog dbE A) (Q R : A -> list ending -> Prop) :
  every p Q -> (forall a l, Q a l -> R a l) -> every p R.
Proof.
  revert Q R. induction p as [a|X e k IH]; cbn; intros Q R Hp HQ; [by apply HQ|]. intros x. eapply IH; [apply Hp|].
  intros a l. apply HQ.
Qed.

Lemma every_bind {A B} (p : prog dbE A) (f : A -> prog dbE B) (Q : B -> list ending -> Prop) :
  every p (fun a l => every (f a) (fun b l' => Q b (l ++ l'))) -> every (p ≫= f) Q.
Proof.
  revert Q. induction p as [a|X e k IH]; cbn; intros Q Hp; [exact Hp|]. intros x. apply IH.
  eapply every_mono; [apply Hp|]. intros a l Ha. eapply every_mono; [exact Ha|]. intros b l' Hb. by rewrite app_assoc.
Qed.

(** Programs that end nothing, and programs that make one end. *)
Definition silent {A} (p : prog dbE A) : Prop := every p (fun _ l => l = []).
Definition ends {A} (o : list ending) (p : prog dbE A) : Prop := every p (fun _ l => l = o).

Lemma silent_ret {A} (a : A) : silent (Ret a).
Proof. done. Qed.

Lemma silent_call {X} (e : dbE X) : event_of e = [] -> silent (call e).
Proof. intros He x. cbn. by rewrite He. Qed.

Lemma silent_bind {A B} (p : prog dbE A) (f : A -> prog dbE B) (Q : B -> list ending -> Prop) :
  silent p -> (forall a, every (f a) Q) -> every (p ≫= f) Q.
Proof. intros Hp Hf. apply every_bind. eapply every_mono; [exact Hp|]. by intros a l ->. Qed.

Lemma ends_bind {A B} o (p : prog dbE A) (f : A -> prog dbE B) :
  ends o p -> (forall a, silent (f a)) -> ends o (p ≫= f).
Proof.
  intros Hp Hf. apply every_bind. eapply every_mono; [exact Hp|]. intros a l ->. eapply every_mono; [apply Hf|].
  intros b l ->. by rewrite app_nil_r.
Qed.

Context (it : Instance_).

(** A message comes with its claim, a retried task with its receipt. *)
Definition whole x : Prop :=
  match wt_msg x with
  | Some _ => wt_from_retry x = false
  | None => wt_from_retry x = true /\ wt_receipt x <> ""%string /\ is_Some (wt_task x)
  end.

Definition end_of x : list ending :=
  match wt_msg x with Some m => [EMsg (wt_claim x) m] | None => [EReceipt (wt_receipt x)] end.

(** *** The ends *)
Lemma ends_ackKafkaTask x : ends (match wt_msg x with Some m => [EMsg (wt_claim x) m] | None => [] end) (ackKafkaTask x).
Proof. unfold ackKafkaTask. destruct (wt_msg x); [by intros ?|done]. Qed.

Lemma ends_failKafkaTask x e : ends (match wt_msg x with Some m => [EMsg (wt_claim x) m] | None => [] end) (failKafkaTask x e).
Proof. unfold failKafkaTask. destruct (wt_msg x); [by intros ?|done]. Qed.

Lemma ends_finish x : whole x -> ends (end_of x) (finish it x).
Proof.
  unfold whole, finish, ackReceipt, ackKafkaTask, end_of. destruct (wt_msg x) as [m|].
  - intros ->. cbn. by intros [].
  - intros (-> & Hr & _). destruct (String.eqb (wt_receipt x) "") eqn:E; [by apply String.eqb_eq in E|]. cbn. by intros ?.
Qed.

Lemma ends_moveOrStrand x dest payload : ends [EReceipt (wt_receipt x)] (moveOrStrand it x dest payload).
Proof. unfold moveOrStrand. intros [b|e]; cbn; [done|by intros ?]. Qed.

Lemma ends_persistBeforeAck x m queue payload : wt_msg x = Some m -> ends [EMsg (wt_claim x) m] (persistBeforeAck x queue payload).
Proof. unfold persistBeforeAck, ackKafkaTask, failKafkaTask. intros ->. intros [e|]; cbn; by intros ?. Qed.

Lemma ends_deferFailedTask x t cause : whole x -> ends (end_of x) (deferFailedTask it x t cause).
Proof.
  unfold deferFailedTask, whole, end_of. destruct (wt_msg x) as [m|] eqn:Hm.
  - intros ->. by apply ends_persistBeforeAck.
  - intros (-> & _). apply ends_moveOrStrand.
Qed.

Lemma ends_quarantine x t : whole x -> ends (end_of x) (quarantineOrderingConflict it x t).
Proof.
  unfold quarantineOrderingConflict, whole, end_of. destruct (wt_msg x) as [m|] eqn:Hm.
  - intros ->. by apply ends_persistBeforeAck.
  - intros (-> & _). apply ends_moveOrStrand.
Qed.

Lemma ends_poison x m : wt_msg x = Some m -> ends (end_of x) (quarantinePoisonTask it x).
Proof. intros Hm. unfold quarantinePoisonTask, end_of. rewrite Hm. by apply ends_persistBeforeAck. Qed.

Lemma ends_failRead x t : whole x -> ends (end_of x) (failRead it x t).
Proof.
  intros Hx. unfold failRead. apply silent_bind; [by destruct (String.eqb _ _); [|apply silent_call]|].
  intros [u|e]; [by apply ends_finish|by apply ends_deferFailedTask].
Qed.

(** *** What ends nothing *)
Lemma silent_orderingForTask t x : silent (orderingForTask t x).
Proof. unfold orderingForTask. destruct (ordering_unread t x); [done|]. by apply silent_bind; [apply silent_call|]. Qed.

Lemma silent_checkOwnerEpoch t : silent (checkOwnerEpoch t).
Proof. unfold checkOwnerEpoch. destruct (_ =? _); [done|]. by apply silent_bind; [apply silent_call|]. Qed.

Lemma silent_ownerCounterRegressed p e : silent (ownerCounterRegressed p e).
Proof. by apply silent_bind; [apply silent_call|]. Qed.

Lemma silent_epochOverride t : silent (epochOverride it t).
Proof. unfold epochOverride. destruct (_ && _); [|done]. by apply silent_bind; [apply silent_checkOwnerEpoch|]. Qed.

Lemma silent_savePlayerRow db t m : silent (savePlayerRow it db t m).
Proof.
  unfold savePlayerRow. destruct (stamp_row _ _ _); [|done]. cbv zeta.
  apply silent_bind; [by apply silent_call|]. intros [[]|]; [by apply silent_bind; [apply silent_call|]| |done].
  apply silent_bind; [by apply silent_call|]. intros [|]; [done|]. destruct (String.eqb _ _); [|done].
  by apply silent_bind; [apply silent_call|].
Qed.

Lemma silent_handleDBWriteOp db t m : silent (handleDBWriteOp it db t m).
Proof.
  unfold handleDBWriteOp. destruct (ty_too_large _ _); [done|]. destruct (ty_fence _); [apply silent_savePlayerRow|].
  by apply silent_bind; [apply silent_call|].
Qed.

Lemma silent_afterSQL t snap tok r : silent (afterSQL it t snap tok r).
Proof.
  unfold afterSQL. apply silent_bind; [by apply silent_call|]. intros []; [done|]. destruct r as [[o m]|]; [|done].
  destruct (_ && _); [done|]. apply silent_bind; [by apply silent_bind; [apply silent_call|]|]. intros [|]; [|done].
  apply silent_bind; [|done]. destruct (is_write t), tok; try (by apply silent_bind; [apply silent_call|]); try done.
  - destruct (bool_decide _); by apply silent_bind; [apply silent_call|].
  - apply silent_bind; [by apply silent_call|]. intros _. destruct (String.eqb _ _); [done|by apply silent_call].
  - apply silent_bind; [by apply silent_call|]. intros _. destruct (String.eqb _ _); [done|by apply silent_call].
Qed.

Lemma silent_processTaskWithoutLock t route tok : silent (processTaskWithoutLock it t route tok).
Proof.
  unfold processTaskWithoutLock. destruct (negb _); [done|]. destruct (ty_decode _ _) as [m|]; [|done].
  destruct (checkWriteSchema _ _ _) as [[k|]|]; [done| |done]. destruct route as [db snap]. unfold runDBOp. cbv beta iota.
  destruct (is_write t).
  - destruct tok; [|done]. apply silent_bind; [by apply silent_call|]. intros []; [done|].
    apply silent_bind; [apply silent_handleDBWriteOp|]. intros r. apply silent_afterSQL.
  - apply silent_bind; [by apply silent_bind; [apply silent_call|]|]. intros r. apply silent_afterSQL.
Qed.

Lemma silent_processDBTask t route tok : silent (processDBTask it t route tok).
Proof.
  unfold processDBTask. destruct (cf_expand _); [apply silent_processTaskWithoutLock|].
  assert (silent (tryLockAndProcess it t route tok)) as Hl.
  { apply silent_bind; [by apply silent_call|]. intros [[]|]; [|done..]. apply silent_bind; [apply silent_processTaskWithoutLock|].
    intros r. by apply silent_bind; [apply silent_call|]. }
  apply silent_bind; [by apply silent_call|]. intros [[]|]; [done| |done]. apply silent_processTaskWithoutLock.
Qed.

(** *** The task *)

(** Either nothing ended and the task goes on, or it ended. *)
Definition gate {A} (goes : A -> bool) x (p : prog dbE A) : Prop := every p (fun a l => l = if goes a then [] else end_of x).

Lemma gate_stop {A} (goes : A -> bool) x (p : prog dbE ()) (a : A) : ends (end_of x) p -> goes a = false ->
  gate goes x (p ≫= fun _ => Ret a).
Proof. intros Hp Ha. apply every_bind. eapply every_mono; [exact Hp|]. intros [] l ->. cbn. by rewrite Ha, app_nil_r. Qed.

Lemma gate_bind {A} (goes : A -> bool) x (p : prog dbE A) (f : A -> prog dbE ()) :
  gate goes x p -> (forall a, ends (if goes a then end_of x else []) (f a)) -> ends (end_of x) (p ≫= f).
Proof.
  intros Hp Hf. apply every_bind. eapply every_mono; [exact Hp|]. intros a l ->. eapply every_mono; [apply Hf|].
  intros [] l' ->. destruct (goes a); [done|]. by rewrite app_nil_r.
Qed.

Lemma gate_guardOwnerEpoch x t : whole x -> gate id x (guardOwnerEpoch it x t).
Proof.
  intros Hx. apply silent_bind; [apply silent_checkOwnerEpoch|]. intros [[[] e]|e]; try done.
  - destruct (cf_dual _); [|by apply gate_stop; [apply ends_finish|]].
    apply silent_bind; [apply silent_ownerCounterRegressed|]. intros [[]|e'].
    + by apply gate_stop; [apply ends_quarantine|].
    + by apply gate_stop; [apply ends_finish|].
    + by apply gate_stop; [apply ends_deferFailedTask|].
  - by apply gate_stop; [apply ends_deferFailedTask|].
Qed.

Lemma gate_routeTask x t : whole x -> gate (fun r => bool_decide (is_Some r)) x (routeTask it x t).
Proof.
  intros Hx. unfold routeTask. apply silent_bind; [by apply silent_call|]. intros [snap|e].
  2: { by apply gate_stop; [apply ends_deferFailedTask|]. }
  destruct (if is_write t then _ else _) as [| | |db].
  - by apply gate_stop; [apply ends_quarantine|].
  - by apply gate_stop; [apply ends_deferFailedTask|].
  - by apply gate_stop; [destruct (is_write t); [apply ends_quarantine|apply ends_failRead]|].
  - apply silent_bind; [by apply silent_call|]. intros [u|e]; [done|].
    by apply gate_stop; [destruct (is_read t); [apply ends_failRead|apply ends_deferFailedTask]|].
Qed.

Lemma ends_settle x t tok r : whole x -> ends (end_of x) (settle it x t tok r).
Proof.
  intros Hx. unfold settle. destruct r as [o|e].
  - assert (ends (end_of x) (marked ← advanceApplied tok t x; match marked with Err e => deferFailedTask it x t e | Ok _ => finish it x end)) as Ha.
    { apply silent_bind; [unfold advanceApplied; destruct (is_write t), tok; try done; by apply silent_bind; [apply silent_call|]|].
      intros [u|e]; [by apply ends_finish|by apply ends_deferFailedTask]. }
    destruct (wo_kind o); try done; try (by apply ends_quarantine); [by apply ends_finish|].
    apply silent_bind; [apply silent_ownerCounterRegressed|]. intros [b|e]; [by apply ends_quarantine|by apply ends_deferFailedTask].
  - destruct (_ && _); [by apply ends_failRead|]. apply silent_bind; [by destruct tok; [apply silent_call|]|].
    intros lost. by apply ends_deferFailedTask.
Qed.

Lemma ends_execute x t tok : whole x -> ends (end_of x) (execute it x t tok).
Proof.
  intros Hx. eapply gate_bind; [by apply gate_routeTask|]. intros [route|]; [|done]. rewrite bool_decide_true by by eexists.
  destruct (wt_from_retry x && wt_claimed x) eqn:Hr.
  - apply silent_bind; [by apply silent_call|]. intros [].
    + zbool. unfold end_of, requeueRevokedRetry. unfold whole in Hx. destruct (wt_msg x); [congruence|]. apply ends_moveOrStrand.
    + apply silent_bind; [apply silent_processDBTask|]. intros r. by apply ends_settle.
  - change (ends (end_of x) (processDBTask it t route tok ≫= settle it x t tok)).
    apply silent_bind; [apply silent_processDBTask|]. intros r. by apply ends_settle.
Qed.

Lemma ends_guarded x t tok : whole x -> ends (end_of x) (guarded it x t tok).
Proof.
  intros Hx. unfold guarded. cbv zeta.
  assert (ends (end_of x) (may ← (if is_write t then guardOwnerEpoch it x t else Ret true);
    if (may : bool) then execute it x t tok else Ret ())) as Hpassed.
  { eapply gate_bind; [destruct (is_write t); [by apply gate_guardOwnerEpoch|done]|].
    intros []; [by apply ends_execute|done]. }
  apply silent_bind; [apply silent_orderingForTask|]. intros [[]|e].
  - exact Hpassed.
  - apply silent_bind; [apply silent_epochOverride|]. intros [[]|e]; [exact Hpassed|by apply ends_finish|by apply ends_deferFailedTask].
  - by apply ends_quarantine.
  - by apply ends_deferFailedTask.
Qed.

Lemma ends_handleDecoded x t : whole x -> ends (end_of x) (handleDecoded it x t).
Proof.
  intros Hx. unfold handleDecoded. destruct (negb _).
  - destruct (wt_from_retry x) eqn:Hr; [by apply ends_quarantine|]. unfold whole in Hx.
    destruct (wt_msg x) as [m|] eqn:Hm; [by eapply ends_poison|]. destruct Hx as [? _]. congruence.
  - destruct (is_write t); [|by apply ends_guarded]. apply silent_bind; [by apply silent_call|].
    intros [[tok|]|e]; [|by apply ends_deferFailedTask..]. apply ends_bind; [by apply ends_guarded|]. intros _. by apply silent_call.
Qed.

Lemma whole_set_task x t : whole x -> whole (set_task x t) /\ end_of (set_task x t) = end_of x.
Proof. unfold whole, end_of, set_task. cbn. destruct (wt_msg x); [done|]. intros (? & ? & _). split; [|done]. split_and!; [done..|by eexists]. Qed.

Lemma ends_handleTask x : whole x -> ends (end_of x) (handleTask it x).
Proof.
  intros Hx. unfold handleTask. apply silent_bind; [by destruct (wt_claimed x); [apply silent_call|]|]. intros [].
  - unfold end_of. unfold whole in Hx. destruct (wt_msg x) as [m|] eqn:Hm.
    + rewrite Hx. unfold failKafkaTask. rewrite Hm. by intros ?.
    + destruct Hx as (-> & _). apply ends_moveOrStrand.
  - destruct (wt_task x) as [t|] eqn:Ht; [by apply ends_handleDecoded|]. pose proof Hx as Hx'. unfold whole in Hx'.
    destruct (wt_msg x) as [m|] eqn:Hm; [|destruct Hx' as (_ & _ & [? ?]); congruence].
    destruct (Unmarshal _) as [t|]; [|by eapply ends_poison].
    destruct (whole_set_task x t Hx) as [Hw <-]. by apply ends_handleDecoded.
Qed.

(** ** The batch *)
Lemma every_parse_batch batch : Forall whole batch ->
  every (parse_batch it batch) (fun ps l => Forall whole ps.*1 /\ l ++ (ps.*1 ≫= end_of) ≡ₚ batch ≫= end_of).
Proof.
  induction 1 as [|x batch Hx Hb IH]; [done|].
  assert (forall t x', whole x' -> end_of x' = end_of x -> every (ps ← parse_batch it batch; Ret ((x', t) :: ps))
    (fun ps l => Forall whole ps.*1 /\ l ++ (ps.*1 ≫= end_of) ≡ₚ (x :: batch) ≫= end_of)) as Hcons.
  { intros t x' Hx' He. apply every_bind. eapply every_mono; [exact IH|]. intros ps l [Hps Hl]. cbn. rewrite app_nil_r.
    split; [by constructor|]. rewrite He, <- Hl. solve_Permutation. }
  cbn [parse_batch]. destruct (wt_task x) as [t|] eqn:Ht; [by apply Hcons|]. pose proof Hx as Hx'. unfold whole in Hx'.
  destruct (wt_msg x) as [m|] eqn:Hm; [|destruct Hx' as (_ & _ & [? ?]); congruence].
  destruct (Unmarshal _) as [t|]; [by destruct (whole_set_task x t Hx); apply Hcons|].
  apply every_bind. eapply every_mono; [by eapply ends_poison|]. intros [] l ->. eapply every_mono; [exact IH|].
  intros ps l [Hps Hl]. split; [done|]. cbn. by rewrite <- Hl, <- app_assoc.
Qed.

Lemma ends_execute_batch n sup parsed : Forall whole parsed.*1 -> ends (parsed.*1 ≫= end_of) (execute_batch it n sup parsed).
Proof.
  revert n. induction parsed as [|[x t] parsed IH]; intros n; [done|]. cbn. intros [Hx Hps]%Forall_cons.
  apply every_bind. eapply every_mono; [by case_bool_decide; [apply ends_finish|apply ends_handleTask]|].
  intros [] l ->. eapply every_mono; [by apply IH|]. by intros [] l ->.
Qed.

Lemma ends_processTaskBatch batch : Forall whole batch ->
  every (processTaskBatch it batch) (fun _ l => l ≡ₚ batch ≫= end_of).
Proof.
  intros Hb. assert (every (parsed ← parse_batch it batch; execute_batch it 0 (coalesce (in_cf it) parsed) parsed)
    (fun _ l => l ≡ₚ batch ≫= end_of)) as Hmany.
  { apply every_bind. eapply every_mono; [by apply every_parse_batch|]. intros ps l [Hps Hl].
    eapply every_mono; [by apply ends_execute_batch|]. by intros [] l' ->. }
  destruct batch as [|x [|y batch]]; [exact Hmany| |exact Hmany]. cbn. apply Forall_cons in Hb as [Hx _].
  eapply every_mono; [by apply ends_handleTask|]. intros [] l ->. by rewrite app_nil_r.
Qed.
End once.
