(* ===== verification/DbSys.v ===== *)
(** * What the workers of go/db keep true together

    The invariant of the shared world of [DbWorld], and what one step of a worker may
    do to it. A write of the log is [settled] once its claim will not deliver it again;
    [covered] says what must then be left of it: a trace of the write itself or of a
    later one of the row. *)

From stdpp Require Import base list gmap strings sorting.
From Stdlib Require Import ZArith Lia.
From S2P Require Import Prelude DbTask DbAcker DbWorld.
Local Open Scope Z_scope.

(** Two copies of one write: only the number of retries may differ. *)
Definition same_write (t t' : DBTask) : Prop := set_retry t 0 = set_retry t' 0.

#[global] Instance same_write_equiv : Equivalence same_write.
Proof. unfold same_write. split; red; congruence. Qed.

Lemma same_write_fields t t' : same_write t t' ->
  dt_key t = dt_key t' /\ dt_op t = dt_op t' /\ dt_type t = dt_type t' /\ dt_body t = dt_body t' /\
  dt_epoch t = dt_epoch t' /\ dt_save t = dt_save t'.
Proof. destruct t, t'. unfold same_write, set_retry. cbn. by intros [=]. Qed.

Lemma same_write_row t t' : same_write t t' -> row_of t = row_of t'.
Proof. intros (Hk & _ & Ht & _)%same_write_fields. unfold row_of. by rewrite Hk, Ht. Qed.

Lemma same_write_is_write t t' : same_write t t' -> is_write t = is_write t'.
Proof. intros (_ & Ho & _)%same_write_fields. unfold is_write. by rewrite Ho. Qed.

Lemma set_retry_same t n : same_write t (set_retry t n).
Proof. by destruct t. Qed.

Definition ver_lt (a b : Z * Z) : Prop := a.1 < b.1 \/ (a.1 = b.1 /\ a.2 < b.2).

Lemma ver_lt_le a b c : ver_lt a b -> ver_le b c -> ver_lt a c.
Proof. unfold ver_lt, ver_le. lia. Qed.

(** The version a task writes. *)
Definition task_version (t : DBTask) : Z * Z := (dt_epoch t, dt_save t).

(** Partitions are [int32]; a sequence number is an offset plus one. *)
Definition in_range (p s : Z) : Prop := 0 <= p < 2147483648 /\ 0 < s < u64_mod.

Definition cursor_of (p s : Z) : string := encodeAppliedCursor (mkCursor p s true).

Section sys.
Context `{DbTypes} `{DbCodec} (cf : DbConfig).
Implicit Types (w : world) (t : DBTask) (p s : Z) (k : rowkey).

(** The write with sequence number [s] of the partition [p]. *)
Definition msg_at w p s t : Prop :=
  exists v, w_log w !! (p, s - 1) = Some v /\ Unmarshal v = Some t /\ is_write t = true.

(** A payload of a retry or dead-letter list that carries a write. *)
Definition holds (v : string) p s t : Prop :=
  exists bytes t', unwrapRetryPayload v = (s, p, true, bytes) /\ Unmarshal bytes = Some t' /\ same_write t t' /\ is_write t = true.

Definition cursor_at w k p s : Prop := w_cursor w !! k = Some (cursor_of p s) /\ in_range p s.

(** The database has the write, or in a versioned table a row at least as new. *)
Definition persisted w t : Prop :=
  (exists db t', (db, t') ∈ w_binlog w /\ same_write t t') \/
  (ty_fence (dt_type t) = true /\ exists db row, table_of w db (dt_type t) !! dt_key t = Some row /\ ver_le (task_version t) (version row)).

(** ** What is left of a write

    That does not go away any more: the cursor of its row is at it or beyond; the row
    belongs to a later owner; the row has a newer version. *)
Definition lasting w p s t : Prop :=
  (exists c, s <= c /\ cursor_at w (row_of t) p c) \/
  (exists e, w_epoch w !! row_of t = Some (FormatUint e) /\ is_u64 e /\ dt_epoch t < e) \/
  (ty_fence (dt_type t) = true /\ exists db row, table_of w db (dt_type t) !! dt_key t = Some row /\ ver_lt (task_version t) (version row)).

Definition queued w p s t : Prop := exists l v, v ∈ list_of w l /\ holds v p s t.

Definition evidence w p s t : Prop := lasting w p s t \/ queued w p s t.

(** A message that its claim, or the claim of its partition, will not deliver again. *)
Definition settled_by (c : Claim) (o : Z) : Prop :=
  o < cl_base c \/ o ∈ ak_marked (cl_acker c) \/ (o ∈ ak_completed (cl_acker c) /\ ak_failed (cl_acker c) = false).
Definition settled w p o : Prop := settled_by (claim_of w p) o.

(** A later write of the row in its partition is in the log. *)
Definition superseded w p s k : Prop := exists s' t', s < s' /\ msg_at w p s' t' /\ row_of t' = k.

Definition covered w p s k : Prop :=
  exists s' t', msg_at w p s' t' /\ row_of t' = k /\
    ((s <= s' /\ evidence w p s' t') \/ (s < s' /\ ~ settled w p (s' - 1))).

(** ** The invariant *)

(** A claim has its messages in the order of their offsets, and all of them from its base on. *)
Definition claim_ok w p (c : Claim) : Prop :=
  cl_base c <= cl_next c /\
  exists st : Spec.state, refines (cl_acker c) st /\ StronglySorted Z.lt (Spec.items st).*1 /\
    Forall (fun o => cl_base c <= o < cl_next c) (Spec.items st).*1 /\
    forall o v, w_log w !! (p, o) = Some v -> cl_base c <= o < cl_next c -> o ∈ (Spec.items st).*1.

(** Replacing one payload by the other loses nothing and makes nothing up. *)
Definition same_payload (v v' : string) : Prop := forall p s t, holds v p s t <-> holds v' p s t.

Definition stmt_task (x : stmt) : DBTask := match x with SInsert _ t _ | SFence _ t _ | SSave _ t _ => t end.

Definition stmt_ok (x : stmt) : Prop :=
  match x with
  | SInsert _ t m | SFence _ t m =>
      ty_fence (dt_type t) = true /\ ms_player m = dt_key t /\ versioned t /\
      version m = (if cf_dual cf then task_version t else (0, 0))
  | SSave _ t _ => ty_fence (dt_type t) = false
  end.

Definition ascending w : Prop :=
  cf_dual cf = false \/ forall p s t s' t', msg_at w p s t -> msg_at w p s' t' -> row_of t = row_of t' ->
    dt_epoch t = dt_epoch t' -> dt_epoch t <> 0 -> dt_save t <> 0 -> dt_save t' <> 0 -> s < s' -> dt_save t < dt_save t'.

Record INV w : Prop := {
  iv_log : forall p o v, w_log w !! (p, o) = Some v -> in_range p (o + 1);
  iv_ascend : ascending w;
  iv_claims : forall p, claim_ok w p (claim_of w p);
  iv_settled : forall p s t, msg_at w p s t -> settled w p (s - 1) -> covered w p s (row_of t);
  iv_lists : forall l v p s t, v ∈ list_of w l -> holds v p s t -> exists t', msg_at w p s t' /\ same_write t t';
  iv_stranded : Forall (fun r => same_payload (sr_receipt r) (sr_replacement r)) (w_stranded w);
  iv_cursor : forall k raw, w_cursor w !! k = Some raw ->
    exists p s t, raw = cursor_of p s /\ in_range p s /\ msg_at w p s t /\ row_of t = k /\ persisted w t;
  iv_epoch : forall k raw, w_epoch w !! k = Some raw -> exists e, raw = FormatUint e /\ is_u64 e;
  iv_locks : forall k tok, w_locks w !! k = Some tok -> tok < w_token w;
  iv_stuck : Forall stmt_ok (w_stuck w) }.

(** No row goes back: neither its cursor, nor its owner, nor its version. *)
Record forward w w' : Prop := {
  fo_cursor : forall k p c, cursor_at w k p c -> exists c', c <= c' /\ cursor_at w' k p c';
  fo_epoch : forall k e, w_epoch w !! k = Some (FormatUint e) -> is_u64 e ->
    exists e', e <= e' /\ is_u64 e' /\ w_epoch w' !! k = Some (FormatUint e');
  fo_rows : forall db ty key row, ty_fence ty = true -> table_of w db ty !! key = Some row ->
    exists row', table_of w' db ty !! key = Some row' /\ ver_le (version row) (version row') }.

#[global] Instance forward_preorder : PreOrder forward.
Proof.
  split.
  - intros w. split.
    + intros k p c Hc. by exists c.
    + intros k e He Hu. by exists e.
    + intros db ty key row _ Hr. by exists row.
  - intros w1 w2 w3 H12 H23. split.
    + intros k p c Hc. destruct (fo_cursor _ _ H12 _ _ _ Hc) as (c' & ? & Hc').
      destruct (fo_cursor _ _ H23 _ _ _ Hc') as (c'' & ? & ?). exists c''. split; [lia|done].
    + intros k e He Hu. destruct (fo_epoch _ _ H12 _ _ He Hu) as (e' & ? & Hu' & He').
      destruct (fo_epoch _ _ H23 _ _ He' Hu') as (e'' & ? & ? & ?). exists e''. split; [lia|done].
    + intros db ty key row Hf Hr. destruct (fo_rows _ _ H12 _ _ _ _ Hf Hr) as (r' & Hr' & ?).
      destruct (fo_rows _ _ H23 _ _ _ _ Hf Hr') as (r'' & ? & ?). exists r''. split; [done|]. by etrans.
Qed.

(** What any step leaves behind. *)
Record mono w w' : Prop := {
  mo_log : w_log w ⊆ w_log w';
  mo_token : w_token w <= w_token w';
  mo_forward : forward w w';
  mo_binlog : forall x, x ∈ w_binlog w -> x ∈ w_binlog w';
  mo_covered : forall p s k, covered w p s k -> covered w' p s k }.

#[global] Instance mono_preorder : PreOrder mono.
Proof. split; [by intros w; split|]. intros w1 w2 w3 [] []. split; eauto; by etrans. Qed.

(** *** Facts that stay *)
Lemma msg_at_mono w w' p s t : w_log w ⊆ w_log w' -> msg_at w p s t -> msg_at w' p s t.
Proof. intros Hl (v & Hv & ?). exists v. split; [|done]. by eapply lookup_weaken. Qed.

Lemma msg_at_unique w p s t t' : msg_at w p s t -> msg_at w p s t' -> t = t'.
Proof. intros (v & ? & ? & _) (v' & ? & ? & _). by simplify_eq. Qed.

Lemma msg_at_write w p s t : msg_at w p s t -> is_write t = true.
Proof. by intros (v & _ & _ & ?). Qed.

Lemma persisted_mono w w' t : mono w w' -> persisted w t -> persisted w' t.
Proof.
  intros Hm [(db & t' & Hin & Hs)|(Hf & db & row & Hr & Hv)].
  - left. exists db, t'. split; [by apply Hm|done].
  - right. split; [done|]. destruct (fo_rows _ _ (mo_forward _ _ Hm) _ _ _ _ Hf Hr) as (row' & ? & ?).
    exists db, row'. split; [done|]. by etrans.
Qed.

Lemma lasting_forward w w' p s t : forward w w' -> lasting w p s t -> lasting w' p s t.
Proof.
  intros Hm [(c & Hc & Hat)|[(e & He & Hu & Hlt)|(Hf & db & row & Hr & Hv)]].
  - destruct (fo_cursor _ _ Hm _ _ _ Hat) as (c' & ? & ?). left. exists c'. split; [lia|done].
  - destruct (fo_epoch _ _ Hm _ _ He Hu) as (e' & ? & ? & ?). right. left. exists e'. split_and!; [done..|lia].
  - destruct (fo_rows _ _ Hm _ _ _ _ Hf Hr) as (row' & ? & ?). right. right. split; [done|]. exists db, row'.
    split; [done|]. by eapply ver_lt_le.
Qed.

Lemma lasting_mono w w' p s t : mono w w' -> lasting w p s t -> lasting w' p s t.
Proof. intros Hm. apply lasting_forward, Hm. Qed.

Lemma superseded_mono w w' p s k : mono w w' -> superseded w p s k -> superseded w' p s k.
Proof. intros Hm (s' & t' & ? & ? & ?). exists s', t'. split_and!; try done. by eapply msg_at_mono; [apply Hm|]. Qed.

Lemma lasting_same w p s t t' : same_write t t' -> lasting w p s t -> lasting w p s t'.
Proof.
  intros Hs. pose proof (same_write_row _ _ Hs) as Hr. destruct (same_write_fields _ _ Hs) as (Hk & _ & Hty & _ & He & Hsv).
  unfold lasting, task_version. by rewrite Hr, Hk, Hty, He, Hsv.
Qed.

Lemma persisted_same w t t' : same_write t t' -> persisted w t -> persisted w t'.
Proof.
  intros Hs. destruct (same_write_fields _ _ Hs) as (Hk & _ & Hty & _ & He & Hsv).
  intros [(db & x & Hin & Hx)|(Hf & db & row & Hr & Hv)].
  - left. exists db, x. split; [done|]. etrans; [|done]. by symmetry.
  - right. unfold task_version. rewrite <- Hty, <- Hk, <- He, <- Hsv. split; [done|]. by exists db, row.
Qed.

Lemma holds_same v p s t t' : same_write t t' -> holds v p s t -> holds v p s t'.
Proof.
  intros Hs (b & x & ? & ? & Hx & Hw). exists b, x. split_and!; try done.
  - etrans; [|done]. by symmetry.
  - by rewrite <- (same_write_is_write _ _ Hs).
Qed.

Lemma holds_unique v p s t p' s' t' : holds v p s t -> holds v p' s' t' -> p = p' /\ s = s' /\ same_write t t'.
Proof.
  intros (b & x & Hu & Hx & Hs & _) (b' & x' & Hu' & Hx' & Hs' & _).
  rewrite Hu in Hu'. simplify_eq. split_and!; [done..|]. by rewrite Hs, Hs'.
Qed.

Lemma covered_weaken w p s s' k : s <= s' -> covered w p s' k -> covered w p s k.
Proof.
  intros Hle (q & t & Hm & Hr & [[Hq He]|[Hq Ho]]); exists q, t; (split_and!; [done..|]);
    [left; split; [lia|done]|right; split; [lia|done]].
Qed.

Lemma evidence_covered w p s t t' : msg_at w p s t' -> same_write t t' -> evidence w p s t -> covered w p s (row_of t).
Proof.
  intros Hm Hs He. exists s, t'. split_and!; [done|by rewrite (same_write_row _ _ Hs)|]. left. split; [done|].
  destruct He as [He|(l & v & Hv & Hh)]; [left; by eapply lasting_same|]. right. exists l, v. split; [done|]. by eapply holds_same.
Qed.

#[global] Instance settled_dec w p o : Decision (settled w p o).
Proof. unfold settled, settled_by. apply _. Defined.

(** A write that a later one of its row supersedes needs no trace of its own. *)
Lemma superseded_covered w p s k : INV w -> superseded w p s k -> covered w p s k.
Proof.
  intros Hinv (s' & t' & Hlt & Hm & <-). destruct (decide (settled w p (s' - 1))) as [Hs|Hs].
  - eapply covered_weaken; [|by apply iv_settled]. lia.
  - exists s', t'. split_and!; [done..|]. by right.
Qed.

(** ** One step

    What has to be shown of a step: evidence stays, or gives way to a later write; and
    what is newly settled was covered before. *)
Record keeps w w' : Prop := {
  ke_log : w_log w ⊆ w_log w';
  ke_evidence : forall p s t, msg_at w p s t -> evidence w p s t -> evidence w' p s t \/ superseded w p s (row_of t);
  ke_settled : forall p s t, msg_at w' p s t -> settled w' p (s - 1) -> msg_at w p s t /\ covered w p s (row_of t) }.

Lemma log_bound w p : exists b, forall o v, w_log w !! (p, o) = Some v -> o < b.
Proof.
  exists (map_fold (fun '(q, o) (_ : string) b => Z.max b (o + 1)) 0 (w_log w)). generalize (w_log w). clear. intros m.
  induction m as [|[q o'] v' m Hn Hf IH] using map_first_key_ind; [by intros o v ?|].
  intros o v. rewrite map_fold_insert_first_key by done. rewrite lookup_insert_Some. intros [[[= <- <-] _]|[_ Hl]]; [lia|].
  pose proof (IH _ _ Hl). lia.
Qed.

Lemma covered_keeps w w' p s k : keeps w w' -> covered w p s k -> covered w' p s k.
Proof.
  intros Hk. destruct (log_bound w p) as [b Hb].
  assert (forall s' t', msg_at w p s' t' -> s' <= b) as Hbound.
  { intros s' t' (v & Hv & _). pose proof (Hb _ _ Hv). lia. }
  remember (Z.to_nat (b + 1 - s)) as n eqn:Hn. revert s Hn. induction n as [n IH] using lt_wf_ind. intros s -> Hc.
  assert (forall s' t', s < s' -> msg_at w p s' t' -> row_of t' = k -> covered w' p s k) as Hlater.
  { intros s' t' Hlt Hm Hr. destruct (decide (settled w' p (s' - 1))) as [Hs|Hs].
    - pose proof (Hbound _ _ Hm). destruct (ke_settled _ _ Hk p s' t') as [_ Hc'];
        [eapply msg_at_mono; [apply Hk|done]|done|]. rewrite Hr in Hc'.
      eapply covered_weaken; [|eapply IH; [|reflexivity|exact Hc']]; lia.
    - exists s', t'. split_and!; [eapply msg_at_mono; [apply Hk|done]|done|]. by right. }
  destruct Hc as (s' & t' & Hm & Hr & [[Hle He]|[Hlt _]]); [|by eapply Hlater].
  destruct (ke_evidence _ _ Hk _ _ _ Hm He) as [He'|(s2 & t2 & Hlt & Hm2 & Hr2)].
  - exists s', t'. split_and!; [eapply msg_at_mono; [apply Hk|done]|done|]. by left.
  - eapply Hlater; [|exact Hm2|by rewrite Hr2]. lia.
Qed.

Lemma keeps_settled w w' p s t : keeps w w' -> msg_at w' p s t -> settled w' p (s - 1) -> covered w' p s (row_of t).
Proof. intros Hk Hm Hs. destruct (ke_settled _ _ Hk _ _ _ Hm Hs) as [_ Hc]. by eapply covered_keeps. Qed.
End sys.
