(* ===== verification/DbStep.v ===== *)
(** * Single steps of the shared world

    For every part of the world: when a change of it keeps the invariant of [DbSys] and
    leaves behind what a step must leave behind. *)
From stdpp Require Import base list gmap strings sorting.
From Stdlib Require Import ZArith Lia.
From S2P Require Import Prelude DbTask DbAcker DbWorld DbSys.
Local Open Scope Z_scope.

(** ** What an operation of the acker settles *)
Lemma mark_loop_sets rest C m n C' m' : mark_loop rest C m = (n, C', m') ->
  (forall x, x ∈ m' -> x ∈ m \/ x ∈ C) /\ C' ⊆ C.
Proof.
  revert C m n C' m'. induction rest as [|o rest IH]; intros C m n C' m'; cbn; [intros [= <- <- <-]; set_solver|].
  case_bool_decide; [|intros [= <- <- <-]; set_solver].
  destruct (mark_loop rest _ _) as [[n0 C0] m0] eqn:E. intros [= <- <- <-]. destruct (IH _ _ _ _ _ E) as [Hm HC]. split; [|set_solver].
  intros x [[?|?]%elem_of_app|?]%Hm; [by left| |set_solver]. set_solver.
Qed.

Definition acker_settled (a : claimAcker) (o : Z) : Prop :=
  o ∈ ak_marked a \/ (o ∈ ak_completed a /\ ak_failed a = false).

(** An operation settles at most the message it acknowledges. *)
Lemma acker_step_settles a op x : acker_settled (acker_step a op).1 x -> acker_settled a x \/ op = Ack x.
Proof.
  unfold acker_settled. destruct op as [o|o|o|o e|]; cbn.
  - unfold track. case_bool_decide; cbn; tauto.
  - unfold untrack. destruct (_ || _ || _); cbn; tauto.
  - unfold ack. case_bool_decide as Ht; cbn [negb]; [|tauto]. destruct (ak_failed a) eqn:Hf; [cbn; tauto|].
    destruct (mark_loop _ _ _) as [[n C] m] eqn:E. destruct (compact _ _). cbn.
    destruct (mark_loop_sets _ _ _ _ _ _ E) as [Hm HC]. intros [Hx|[Hx _]].
    + destruct (Hm _ Hx) as [?|[->%elem_of_singleton|?]%elem_of_union]; tauto.
    + apply HC in Hx. apply elem_of_union in Hx as [->%elem_of_singleton|?]; tauto.
  - unfold fail. case_bool_decide; cbn; [|tauto]. intros [?|[? ?]]; [tauto|done].
  - intros [?|[? ?]]; [tauto|done].
Qed.

Section step.
Context `{DbTypes} `{DbCodec} (cf : DbConfig).
Notation INV := (INV cf) (only parsing).
Implicit Types (w : world) (t : DBTask) (p s : Z) (k : rowkey).

(** What every step has to show. *)
Definition good_step w w' : Prop := INV w' /\ mono w w'.

Lemma good_step_refl w : INV w -> good_step w w.
Proof. done. Qed.

Lemma mono_keeps w w' : keeps w w' -> forward w w' -> w_token w <= w_token w' -> w_binlog w ⊆ w_binlog w' -> mono w w'.
Proof. intros Hk Hf Ht Hb. split; [apply Hk|done..|]. intros p s k. by apply covered_keeps. Qed.

Lemma forward_same w w' : w_cursor w' = w_cursor w -> w_epoch w' = w_epoch w -> w_tables w' = w_tables w -> forward w w'.
Proof.
  intros Hc He Ht. split.
  - intros k p c Hat. exists c. split; [done|]. unfold cursor_at. by rewrite Hc.
  - intros k e Hat Hu. exists e. split_and!; [done..|]. by rewrite He.
  - intros db ty key row _ Hr. exists row. split; [|done]. unfold table_of. by rewrite Ht.
Qed.

(** A step that keeps what the rows depend on. *)
Lemma mono_same w w' : keeps w w' -> w_token w <= w_token w' -> w_cursor w' = w_cursor w -> w_epoch w' = w_epoch w ->
  w_tables w' = w_tables w -> w_binlog w' = w_binlog w -> mono w w'.
Proof. intros Hk Ht Hc He Htb Hb. apply mono_keeps; [done|by apply forward_same|done|by rewrite Hb]. Qed.

(** A step on the rows alone. *)
Lemma rows_step w w' : INV w -> forward w w' -> w_log w' = w_log w -> w_claims w' = w_claims w -> w_lists w' = w_lists w ->
  w_token w <= w_token w' -> w_binlog w ⊆ w_binlog w' -> keeps w w' /\ mono w w'.
Proof.
  intros Hinv Hf Hl Hc Hli Ht Hb. enough (keeps w w') as Hk; [split; [done|by apply mono_keeps]|]. split.
  - by rewrite Hl.
  - intros p s t Hm [?|Hq]; left; [left; by eapply lasting_forward|right]. unfold queued, list_of in *. by rewrite Hli.
  - intros p s t. unfold settled, msg_at, claim_of. rewrite Hl, Hc. intros Hm Hs. split; [done|]. by eapply iv_settled.
Qed.

(** ** The claims *)
Lemma claims_step w p c :
  INV w -> claim_ok w p c ->
  (forall s t, msg_at w p s t -> settled_by c (s - 1) -> covered w p s (row_of t)) ->
  good_step w (set_claim w p c).
Proof.
  intros Hinv Hc Hs. assert (forall q, claim_of (set_claim w p c) q = if decide (q = p) then c else claim_of w q) as Hof.
  { intros q. unfold claim_of, set_claim, set_claims. cbn. case_decide as Hq.
    - subst. by rewrite lookup_insert_eq.
    - by rewrite lookup_insert_ne. }
  assert (keeps w (set_claim w p c)) as Hk.
  { split; [done|intros; by left|]. intros q s t Hm Hst. split; [exact Hm|]. unfold settled in Hst. rewrite Hof in Hst.
    case_decide; [subst; by apply Hs|by eapply iv_settled]. }
  split; [|apply mono_same; [done|cbn; lia|done..]]. pose proof Hinv as Hi; destruct Hi; split; try done.
  - intros q. rewrite Hof. case_decide; [by subst|by eapply iv_claims].
  - intros q s t Hm Hst. by eapply keeps_settled.
Qed.

(** An operation on the acker of a claim. *)
Lemma claim_ok_op w p (c : Claim) op : claim_ok w p c ->
  match op with Ack _ | Fail _ _ | Stop => True | _ => False end ->
  claim_ok w p (mkClaim (cl_gen c) (cl_base c) (cl_next c) (acker_step (cl_acker c) op).1).
Proof.
  intros (Hbn & st & Hr & Hs & Hf & Ha) Hop. split; [done|]. exists (Spec.step st op).1.
  assert ((Spec.items (Spec.step st op).1).*1 = (Spec.items st).*1) as Hi.
  { destruct op; try done; cbn; [by rewrite put_fst|]. case_bool_decide; [|done]. cbn. by rewrite put_fst. }
  rewrite Hi. cbn. split_and!; try done. apply refines_step; [done|]. by destruct op.
Qed.

Lemma acker_op_step w p claim op :
  INV w -> match op with Ack _ | Fail _ _ | Stop => True | _ => False end ->
  (forall o t, op = Ack o -> msg_at w p (o + 1) t -> covered w p (o + 1) (row_of t)) ->
  good_step w (on_acker w p claim (fun a => (acker_step a op).1)).
Proof.
  intros Hinv Hop Hack. unfold on_acker. destruct (_ =? _); [|by apply good_step_refl].
  apply claims_step; [done|apply claim_ok_op; [by eapply iv_claims|done]|]. intros s t Hm Hst.
  assert (settled w p (s - 1) \/ op = Ack (s - 1)) as [Hold| ->]; [|by eapply iv_settled|].
  - destruct Hst as [?|Hst]; [left; by left|]. apply acker_step_settles in Hst as [?|?]; [|by right]. left. by right.
  - specialize (Hack (s - 1) t eq_refl). rewrite Z.sub_add in Hack. by apply Hack.
Qed.

(** ** The lists *)
Lemma list_of_insert w l vs l' : list_of (set_lists w (<[l := vs]> (w_lists w))) l' = if decide (l' = l) then vs else list_of w l'.
Proof.
  unfold list_of, set_lists. cbn. case_decide; [subst; by rewrite lookup_insert_eq|by rewrite lookup_insert_ne].
Qed.

Lemma lists_step w L :
  let w' := set_lists w L in
  INV w ->
  (forall l v p s t, v ∈ list_of w' l -> holds v p s t -> exists t', msg_at w p s t' /\ same_write t t') ->
  (forall p s t, msg_at w p s t -> queued w p s t -> queued w' p s t \/ lasting w p s t \/ superseded w p s (row_of t)) ->
  good_step w w'.
Proof.
  intros w' Hinv Hl Hq. assert (keeps w w') as Hk.
  { split; [done| |].
    - intros p s t Hm [?|Hqu]; [left; by left|]. destruct (Hq _ _ _ Hm Hqu) as [?|[?|?]]; [left; by right|left; by left|by right].
    - intros p s t Hm Hst. split; [exact Hm|]. by eapply iv_settled. }
  split; [|apply mono_same; [done|cbn; lia|done..]]. pose proof Hinv as Hi; destruct Hi; split; try done.
  intros p s t Hm Hst. by eapply keeps_settled.
Qed.

Lemma elem_of_remove1 v x l : x ∈ l -> x <> v -> x ∈ remove1 v l.
Proof.
  induction l as [|y l IH]; [done|]. cbn. rewrite elem_of_cons. intros [->|Hx] Hne.
  - destruct (String.eqb y v) eqn:E; [by apply String.eqb_eq in E|left].
  - destruct (String.eqb y v); [done|right; by apply IH].
Qed.

Lemma remove1_subset v l : remove1 v l ⊆ l.
Proof.
  induction l as [|y l IH]; cbn; [done|]. destruct (String.eqb y v); [set_solver|].
  intros x. rewrite !elem_of_cons. intros [?|?]; [by left|right; by apply IH].
Qed.

Lemma in_list_LPUSH w l v l' x : x ∈ list_of (LPUSH w l v) l' <-> (l' = l /\ x = v) \/ x ∈ list_of w l'.
Proof.
  unfold LPUSH. rewrite list_of_insert. case_decide as Hl; [subst; rewrite elem_of_cons|]; naive_solver.
Qed.

Lemma in_list_LREM w l v l' x : x ∈ list_of (LREM w l v) l' -> x ∈ list_of w l'.
Proof. unfold LREM. rewrite list_of_insert. case_decide; [subst; apply remove1_subset|done]. Qed.

Lemma LREM_keeps w l v l' x : x ∈ list_of w l' -> x <> v -> x ∈ list_of (LREM w l v) l'.
Proof. intros Hx Hne. unfold LREM. rewrite list_of_insert. case_decide; [subst; by apply elem_of_remove1|done]. Qed.

(** A payload that is new: what it carries is in the log. *)
Lemma push_step w l v :
  INV w -> (forall p s t, holds v p s t -> exists t', msg_at w p s t' /\ same_write t t') -> good_step w (LPUSH w l v).
Proof.
  intros Hinv Hv. apply lists_step; [done| |].
  - intros l' x p s t [[-> ->]|Hx]%in_list_LPUSH Hh; [by apply Hv|by eapply iv_lists].
  - intros p s t Hm (l' & x & Hx & Hh). left. exists l', x. split; [|done]. apply in_list_LPUSH. by right.
Qed.

(** A payload that is taken out: what it carried has another trace. *)
Lemma remove_step w l v :
  INV w -> (forall p s t, msg_at w p s t -> holds v p s t -> lasting w p s t \/ superseded w p s (row_of t)) ->
  good_step w (LREM w l v).
Proof.
  intros Hinv Hv. apply lists_step; [done| |].
  - intros l' x p s t Hx%in_list_LREM Hh. by eapply iv_lists.
  - intros p s t Hm (l' & x & Hx & Hh). destruct (decide (x = v)) as [->|Hne]; [right; by apply Hv|].
    left. exists l', x. split; [by apply LREM_keeps|done].
Qed.

Lemma move_step w l l' v v' : INV w -> same_payload v v' -> good_step w (move_script w l l' v v').2.
Proof.
  intros Hinv Hs. unfold move_script, in_list. case_bool_decide as Hin; [|by apply good_step_refl]. cbn [snd].
  assert (forall p s t, holds v p s t -> exists t', msg_at w p s t' /\ same_write t t') as Hg.
  { intros p s t Hh. by eapply iv_lists. }
  destruct (push_step w l' v' Hinv) as [Hinv' _]; [intros p s t Hh; by apply Hg, Hs|].
  change (good_step w (set_lists w (w_lists (LREM (LPUSH w l' v') l v)))). apply lists_step; [done| |].
  - intros q x p s t Hx Hh. change (x ∈ list_of (LREM (LPUSH w l' v') l v) q) in Hx. apply in_list_LREM in Hx.
    apply in_list_LPUSH in Hx as [[-> ->]|Hx]; [by apply Hg, Hs|by eapply iv_lists].
  - intros p s t Hm (q & x & Hx & Hh). left.
    change (queued (LREM (LPUSH w l' v') l v) p s t). destruct (decide (v' = v)) as [->|Hne'].
    + destruct (decide (q = l /\ x = v)) as [[-> ->]|Hqx].
      * exists l', v. split; [|done]. unfold LREM. rewrite list_of_insert. case_decide as Hl; [|apply in_list_LPUSH; by left].
        subst. unfold LPUSH at 1. rewrite list_of_insert, decide_True by done. cbn. by rewrite String.eqb_refl.
      * destruct (decide (q = l)) as [->|Hq]; [exists l, x; split; [|done]; apply LREM_keeps; [apply in_list_LPUSH; by right|naive_solver]|].
        exists q, x. split; [|done]. unfold LREM. rewrite list_of_insert, decide_False by done. apply in_list_LPUSH. by right.
    + destruct (decide (x = v)) as [->|Hx'].
      * exists l', v'. split; [apply LREM_keeps; [apply in_list_LPUSH; by left|done]|by apply Hs].
      * exists q, x. split; [|done]. apply LREM_keeps; [apply in_list_LPUSH; by right|done].
Qed.

(** ** The locks *)
Lemma locks_step w L n : INV w -> w_token w <= n -> (forall k tok, L !! k = Some tok -> tok < n) -> good_step w (set_locks w L n).
Proof.
  intros Hinv Hn HL. assert (keeps w (set_locks w L n)) as Hk.
  { split; [done|intros; by left|]. intros p s t Hm Hst. split; [exact Hm|]. by eapply iv_settled. }
  split; [|apply mono_same; [done|cbn; lia|done..]]. pose proof Hinv as Hi; destruct Hi; split; try done.
Qed.

Lemma stranded_step w x : INV w -> same_payload (sr_receipt x) (sr_replacement x) -> good_step w (set_stranded w (x :: w_stranded w)).
Proof.
  intros Hinv Hx. assert (keeps w (set_stranded w (x :: w_stranded w))) as Hk.
  { split; [done|intros; by left|]. intros p s t Hm Hst. split; [exact Hm|]. by eapply iv_settled. }
  split; [|apply mono_same; [done|cbn; lia|done..]]. pose proof Hinv as Hi; destruct Hi; split; try done. by constructor.
Qed.

Lemma stick_step w x : INV w -> stmt_ok cf x -> good_step w (stick w x).
Proof.
  intros Hinv Hx. assert (keeps w (stick w x)) as Hk.
  { split; [done|intros; by left|]. intros p s t Hm Hst. split; [exact Hm|]. by eapply iv_settled. }
  split; [|apply mono_same; [done|cbn; lia|done..]]. pose proof Hinv as Hi; destruct Hi; split; try done. by constructor.
Qed.
End step.

(** * The steps that change rows

    The script that advances cursor and epoch together ([appliedAdvanceLua]), and the
    statements on the tables, early or late: no row goes back. *)

Section advance.
Context `{DbTypes} `{DbCodec} (cf : DbConfig).
Notation INV := (INV cf) (only parsing).
Implicit Types (w : world) (t : DBTask) (p s : Z) (k : rowkey).

(** ** Cursors *)
Lemma cursor_of_parse p s : in_range p s -> parseAppliedCursor (cursor_of p s) = Ok (mkCursor p s true).
Proof. intros [Hp Hs]. by apply parse_encode_cursor. Qed.

Lemma cursor_at_parse w k p s raw : cursor_at w k p s -> w_cursor w !! k = Some raw ->
  parseAppliedCursor raw = Ok (mkCursor p s true).
Proof. intros [Hc Hr] Hraw. simplify_eq. by apply cursor_of_parse. Qed.

Lemma cursor_at_unique w k p s p' s' : cursor_at w k p s -> cursor_at w k p' s' -> p = p' /\ s = s'.
Proof.
  intros Hc Hc'. pose proof (cursor_at_parse _ _ _ _ _ Hc (proj1 Hc')) as Hp.
  rewrite (cursor_of_parse p' s') in Hp by apply Hc'. by simplify_eq.
Qed.

Lemma cursor_of_nonempty p s : String.eqb (cursor_of p s) "" = false.
Proof. done. Qed.

(** The cursor read is one that was written. *)
Lemma cursor_read w k raw c : INV w -> w_cursor w !! k = Some raw -> parseAppliedCursor raw = Ok c ->
  cu_has c = true /\ cursor_at w k (cu_partition c) (cu_seq c).
Proof.
  intros Hinv Hraw Hc. destruct (iv_cursor _ _ Hinv _ _ Hraw) as (p & s & t & -> & Hr & _).
  rewrite cursor_of_parse in Hc by done. injection Hc as <-. by split.
Qed.

Lemma epoch_read w k raw e : INV w -> w_epoch w !! k = Some raw -> ParseUint raw = Some e -> raw = FormatUint e /\ is_u64 e.
Proof.
  intros Hinv Hraw Hp. destruct (iv_epoch _ _ Hinv _ _ Hraw) as (e' & -> & He').
  rewrite ParseUint_FormatUint in Hp by done. by simplify_eq.
Qed.

(** ** The script *)

(** The map of epochs it leaves. *)
Definition raise_epoch (E : gmap rowkey string) k (epoch : string) : gmap rowkey string :=
  let cur := if String.eqb epoch "0" then None else E !! k in
  if negb (String.eqb epoch "0") && match cur with None => true | Some c => dec_gt epoch c end
  then <[k := epoch]> E else E.

Inductive advanced w k (tok : Z) (cursor epoch : string) : res Z -> world -> Prop :=
  | adv_lost : owns_lock w k tok = false -> advanced w k tok cursor epoch (Ok 0) w
  | adv_refused e : advanced w k tok cursor epoch (Err e) w
  | adv_done : owns_lock w k tok = true -> canonical_u64 epoch = true ->
      (forall c, epoch <> "0"%string -> w_epoch w !! k = Some c -> canonical_u64 c = true) ->
      advanced w k tok cursor epoch (Ok 1)
        (set_applied w (if String.eqb cursor "" then w_cursor w else <[k := cursor]> (w_cursor w)) (raise_epoch (w_epoch w) k epoch)).

Lemma advance_cases w k tok cursor epoch :
  advanced w k tok cursor epoch (advance_script w k tok cursor epoch).1 (advance_script w k tok cursor epoch).2.
Proof.
  unfold advance_script. destruct (owns_lock w k tok) eqn:Ho; cbn [negb]; [|by constructor].
  destruct (canonical_u64 epoch) eqn:Hce; cbn [negb]; [|by constructor].
  destruct (match _ with Some c => _ | None => false end) eqn:Hcur; [by constructor|]. apply adv_done; [done..|].
  intros c Hne Hc. rewrite Hc in Hcur. destruct (String.eqb epoch "0") eqn:E; [by apply String.eqb_eq in E|].
  by apply negb_false_iff in Hcur.
Qed.

Lemma canonical_dec (x : string) : canonical_u64 x = true -> is_dec x = true.
Proof. unfold canonical_u64. by intros [? _]%andb_true_iff. Qed.

Lemma raise_epoch_other E k k' epoch : k <> k' -> raise_epoch E k epoch !! k' = E !! k'.
Proof. intros Hne. unfold raise_epoch. destruct (_ && _); [by apply lookup_insert_ne|done]. Qed.

(** The stored epoch only grows. *)
Lemma raise_epoch_forward E k epoch e0 : is_u64 epoch -> is_u64 e0 -> E !! k = Some (FormatUint e0) ->
  canonical_u64 (FormatUint epoch) = true ->
  (FormatUint epoch <> "0"%string -> canonical_u64 (FormatUint e0) = true) ->
  exists e, e0 <= e /\ is_u64 e /\ raise_epoch E k (FormatUint epoch) !! k = Some (FormatUint e).
Proof.
  intros Hu Hu0 Hk Hce Hc0. unfold raise_epoch. rewrite Hk. destruct (String.eqb (FormatUint epoch) "0") eqn:Ez; cbn [negb andb].
  { by exists e0. }
  apply String.eqb_neq in Ez. destruct (dec_gt _ _) eqn:Hgt; [|by exists e0].
  rewrite dec_gt_spec in Hgt by (apply canonical_dec; auto). rewrite !FormatUint_val in Hgt by done. zbool.
  exists epoch. split_and!; [lia|done|]. apply lookup_insert_eq.
Qed.

Lemma raise_epoch_written E k epoch raw : is_u64 epoch ->
  (forall raw, E !! k = Some raw -> exists e, raw = FormatUint e /\ is_u64 e) ->
  raise_epoch E k (FormatUint epoch) !! k = Some raw -> exists e, raw = FormatUint e /\ is_u64 e.
Proof.
  intros Hu Hk. unfold raise_epoch. destruct (negb _ && _); [|apply Hk].
  rewrite lookup_insert_eq. intros [= <-]. by exists epoch.
Qed.

(** What a worker knows when it advances the cursor of the write it has executed. *)
Record may_advance w t p s (tok : Z) : Prop := {
  ma_range : in_range p s;
  ma_epoch : is_u64 (dt_epoch t);
  ma_genuine : exists t', msg_at w p s t' /\ same_write t' t;
  ma_persisted : persisted w t;
  ma_cursor : w_locks w !! row_of t = Some tok ->
    w_cursor w !! row_of t = None \/ exists c, c <= s /\ cursor_at w (row_of t) p c }.

Lemma advance_forward w t p s tok :
  INV w -> may_advance w t p s tok ->
  forward w (advance_script w (row_of t) tok (cursor_of p s) (FormatUint (dt_epoch t))).2.
Proof.
  intros Hinv Hma. destruct (advance_cases w (row_of t) tok (cursor_of p s) (FormatUint (dt_epoch t))) as [| |Ho Hce Hc]; [done..|].
  unfold owns_lock in Ho. apply bool_decide_eq_true in Ho. pose proof (ma_cursor _ _ _ _ _ Hma Ho) as Hcur.
  rewrite cursor_of_nonempty. split.
  - intros k q c Hat. destruct (decide (row_of t = k)) as [<-|Hne].
    + destruct Hcur as [Hn|(c' & Hle & Hat')]; [by destruct Hat; simplify_eq|].
      destruct (cursor_at_unique _ _ _ _ _ _ Hat Hat') as [-> ->]. exists s. split; [done|].
      split; [by apply lookup_insert_eq|by eapply ma_range].
    + exists c. split; [done|]. destruct Hat. split; [|done]. cbn. by rewrite lookup_insert_ne.
  - intros k e He Hu. cbn. destruct (decide (row_of t = k)) as [<-|Hne].
    + eapply raise_epoch_forward; try done; [by eapply ma_epoch|]. intros Hnz. by apply Hc.
    + exists e. rewrite raise_epoch_other by done. done.
  - intros db ty key row _ Hr. by exists row.
Qed.

Lemma advance_good w t p s tok :
  INV w -> may_advance w t p s tok ->
  good_step cf w (advance_script w (row_of t) tok (cursor_of p s) (FormatUint (dt_epoch t))).2.
Proof.
  intros Hinv Hma. pose proof (advance_forward _ _ _ _ _ Hinv Hma) as Hf.
  destruct (advance_cases w (row_of t) tok (cursor_of p s) (FormatUint (dt_epoch t))) as [| |Ho Hce Hc]; [by apply good_step_refl..|].
  destruct (rows_step _ _ _ Hinv Hf) as [Hk Hm]; try done. split; [|done]. pose proof Hinv as Hi. destruct Hi; split; try done.
  - intros q s' t' Hm' Hst. by eapply keeps_settled.
  - intros k raw. rewrite cursor_of_nonempty. intros Hraw. cbn [w_cursor set_applied] in Hraw. apply lookup_insert_Some in Hraw as [[<- <-]|[_ Hraw]].
    + destruct (ma_genuine _ _ _ _ _ Hma) as (t' & Ht' & Hs). exists p, s, t'. split_and!; [done|by eapply ma_range|done| |].
      * by apply same_write_row.
      * eapply persisted_mono; [done|]. eapply persisted_same; [by symmetry|by eapply ma_persisted].
    + destruct (iv_cursor _ _ Hraw) as (q & s' & t' & -> & ? & ? & ? & Hp). exists q, s', t'. split_and!; try done.
  - intros k raw. cbn. destruct (decide (row_of t = k)) as [<-|Hne].
    + apply raise_epoch_written; [by eapply ma_epoch|by eapply iv_epoch].
    + rewrite raise_epoch_other by done. by eapply iv_epoch.
Qed.

(** Once it is advanced, the write will not be executed again. *)
Lemma advance_lasting w t p s tok n :
  may_advance w t p s tok ->
  (advance_script w (row_of t) tok (cursor_of p s) (FormatUint (dt_epoch t))).1 = Ok n -> n <> 0 ->
  lasting (advance_script w (row_of t) tok (cursor_of p s) (FormatUint (dt_epoch t))).2 p s t.
Proof.
  intros Hma. destruct (advance_cases w (row_of t) tok (cursor_of p s) (FormatUint (dt_epoch t))) as [|e|Ho Hce Hc]; [by intros [= <-]|done|].
  intros _ _. left. exists s. split; [done|]. rewrite cursor_of_nonempty. split; [apply lookup_insert_eq|by eapply ma_range].
Qed.

(** Only the holder of the lock moves the cursor of a row. *)
Lemma advance_cursor w k tok cursor epoch k' :
  w_cursor (advance_script w k tok cursor epoch).2 !! k' = w_cursor w !! k' \/ (k' = k /\ w_locks w !! k = Some tok).
Proof.
  destruct (advance_cases w k tok cursor epoch) as [| |Ho _ _]; [by left..|]. destruct (decide (k' = k)) as [->|Hne].
  - right. split; [done|]. by apply bool_decide_eq_true in Ho.
  - left. cbn. destruct (String.eqb cursor ""); [done|]. by rewrite lookup_insert_ne.
Qed.

(** ** The statements *)
Lemma fence_decide_kinds t target current : let '(o, saved) := fence_decide cf t target current in
  (wo_kind o = writeEqual -> version current = task_version t) /\
  (wo_kind o = writeOlder -> ver_lt (task_version t) (version current)) /\ (saved <> None <-> wo_kind o = writeApplied).
Proof.
  destruct (cf_dual cf) eqn:Hd.
  - rewrite fence_decide_dual by done. cbv zeta. unfold task_version, version, ver_lt.
    repeat (match goal with |- context [if ?b then _ else _] => destruct b eqn:? end; cbn; zbool;
      [split_and!; first [done|intros; first [f_equal; lia|lia]]|]). done.
  - unfold fence_decide. rewrite Hd. cbn. destruct (schemaRegressed _ _ _); done.
Qed.

Lemma table_of_insert w db ty tb b l db' ty' :
  table_of (set_sql w (<[(db, ty) := tb]> (w_tables w)) l b) db' ty' = if decide ((db', ty') = (db, ty)) then tb else table_of w db' ty'.
Proof.
  unfold table_of. cbn. case_decide as Hd; [injection Hd as -> ->; by rewrite lookup_insert_eq|].
  rewrite lookup_insert_ne; [done|congruence].
Qed.

(** A statement that saves a row at least as new. *)
Lemma sql_forward w db ty tb l b :
  (forall key row, ty_fence ty = true -> table_of w db ty !! key = Some row ->
     exists row', tb !! key = Some row' /\ ver_le (version row) (version row')) ->
  forward w (set_sql w (<[(db, ty) := tb]> (w_tables w)) l b).
Proof.
  intros Ht. split.
  - intros k p c Hat. by exists c.
  - intros k e He Hu. by exists e.
  - intros db' ty' key row Hf Hr. rewrite table_of_insert. case_decide as Hd; [|by exists row].
    injection Hd as -> ->. by apply Ht.
Qed.

(** What an answer of the database says of the write. *)
Definition outcome_shows w t (o : writeOutcome) : Prop :=
  match wo_kind o with
  | writeApplied | writeEqual => persisted w t
  | writeOlder => forall p s, lasting w p s t
  | _ => True
  end.

Lemma exec_forward w x : stmt_ok cf x -> forward w (exec_stmt cf x w).2.
Proof.
  destruct x as [db t m|db t m|db t m]; cbn -[fence_decide].
  - intros (Hf & Hk & Hv & _). unfold sql_insert. destruct (_ !! ms_player m) eqn:Hl; [done|]. cbn.
    apply sql_forward. intros key row _ Hr. exists row. split; [|done]. rewrite lookup_insert_ne; [done|]. intros <-. by simplify_eq.
  - intros (Hf & Hk & Hv & Hver). unfold sql_fence_txn. destruct (_ !! dt_key t) as [current|] eqn:Hl; [|done].
    destruct (fence_decide cf t m current) as [o saved] eqn:Hfd. cbn. case_bool_decide; [|done].
    apply sql_forward. intros key row _ Hr. destruct saved as [row'|]; [|by exists row].
    destruct (decide (key = dt_key t)) as [->|Hne]; [|exists row; by rewrite lookup_insert_ne].
    simplify_eq. exists row'. split; [apply lookup_insert_eq|]. by apply (fence_decide_saved _ _ _ _ _ _ Hver Hv Hfd).
  - intros Hf. apply sql_forward. intros key row Hf'. congruence.
Qed.

Lemma exec_frame w x : let w' := (exec_stmt cf x w).2 in
  w_log w' = w_log w /\ w_claims w' = w_claims w /\ w_lists w' = w_lists w /\ w_token w' = w_token w /\ w_cursor w' = w_cursor w /\
  w_epoch w' = w_epoch w /\ w_locks w' = w_locks w /\ w_stranded w' = w_stranded w /\ w_stuck w' = w_stuck w /\
  w_binlog w ⊆ w_binlog w'.
Proof.
  assert (forall db ty tb (b : list (Z * DBTask)), w_binlog w ⊆ b -> let w' := set_sql w (<[(db, ty) := tb]> (w_tables w)) (w_stuck w) b in
    w_log w' = w_log w /\ w_claims w' = w_claims w /\ w_lists w' = w_lists w /\ w_token w' = w_token w /\ w_cursor w' = w_cursor w /\
    w_epoch w' = w_epoch w /\ w_locks w' = w_locks w /\ w_stranded w' = w_stranded w /\ w_stuck w' = w_stuck w /\
    w_binlog w ⊆ w_binlog w') as Hset by done.
  destruct x as [db t m|db t m|db t m]; cbn -[fence_decide set_sql].
  - destruct (sql_insert _ _); [apply Hset; set_solver|done].
  - destruct (sql_fence_txn cf t m _) as [[[o cur] tb]|]; [|done]. cbn [snd]. case_bool_decide; [apply Hset; set_solver|done].
  - apply Hset. set_solver.
Qed.

Lemma exec_good w x : INV w -> stmt_ok cf x -> good_step cf w (exec_stmt cf x w).2.
Proof.
  intros Hinv Hx. pose proof (exec_forward w x Hx) as Hf. destruct (exec_frame w x) as (Hl & Hc & Hli & Ht & Hcu & He & Hlo & Hst & Hsk & Hb).
  destruct (rows_step _ _ _ Hinv Hf) as [Hk Hm]; [done..|lia|done|]. split; [|done].
  set (w' := (exec_stmt cf x w).2) in *. clearbody w'. pose proof Hinv as Hi. destruct Hi; split; unfold msg_at, claim_of, list_of in *;
    rewrite ?Hl, ?Hc, ?Hli, ?Ht, ?Hcu, ?He, ?Hlo, ?Hst, ?Hsk; try done.
  - unfold ascending, msg_at in *. by rewrite Hl.
  - intros p. unfold claim_ok. rewrite Hl. apply iv_claims.
  - intros p s t Hm' Hse. eapply keeps_settled; [done| |done]. unfold msg_at. by rewrite Hl.
  - intros k raw Hraw. destruct (iv_cursor _ _ Hraw) as (p & s & t & -> & ? & ? & ? & Hp). exists p, s, t. split_and!; try done.
    by eapply persisted_mono.
Qed.

Lemma exec_outcome w x o cur : stmt_ok cf x -> (exec_stmt cf x w).1 = Ok (o, cur) ->
  outcome_shows (exec_stmt cf x w).2 (stmt_task x) o.
Proof.
  assert (forall db t w', (db, t) ∈ w_binlog w' -> persisted w' t) as Hlog by (intros db t w' Hin; left; by exists db, t).
  unfold outcome_shows. destruct x as [db t m|db t m|db t m]; cbn -[fence_decide set_sql].
  - intros _. destruct (sql_insert _ _); [|done]. intros [= <- <-]. cbn. apply (Hlog db). set_solver.
  - intros (Hf & Hk & Hv & Hver). unfold sql_fence_txn. destruct (_ !! dt_key t) as [current|] eqn:Hl; [|done].
    pose proof (fence_decide_kinds t m current) as Hkinds. destruct (fence_decide cf t m current) as [o' saved].
    destruct Hkinds as (Heq & Hold & _). cbn [fst snd]. intros [= -> _]. destruct (wo_kind o) eqn:Hkind; cbn -[set_sql]; try done.
    + apply (Hlog db). set_solver.
    + right. split; [done|]. exists db, current. split; [done|]. by rewrite Heq.
    + intros p s. right. right. split; [done|]. exists db, current. split; [done|by apply Hold].
  - intros _ [= <- <-]. cbn. apply (Hlog db). set_solver.
Qed.
End advance.
