(* ===== verification/DbEnv.v ===== *)
(** * Everything that happens around one worker

    [db_env]: what the world does between two calls of a worker - messages arrive,
    claims begin and end, locks expire, receipts are moved, statements commit late.
    [db_starts]: when a worker takes up a batch. [rely] and [guar] are the two sides of
    what the workers of all instances promise each other. *)

From stdpp Require Import base list gmap strings sorting.
From Stdlib Require Import ZArith Lia.
From S2P Require Import Prelude DbTask DbAcker DbProg DbWorld DbHandle DbCoalesce DbSys DbStep.
Local Open Scope Z_scope.

(** What is assumed of protobuf: a decoded task that is encoded again, with another
    number of retries, decodes to itself; the numbers have their widths; and no encoded
    task begins like a wrapped payload. *)
Class DbCodecLaws `{DbCodec} : Prop := {
  marshal_again : forall v t n, Unmarshal v = Some t -> is_i32 n -> Unmarshal (Marshal (set_retry t n)) = Some (set_retry t n);
  decoded_ranges : forall v t, Unmarshal v = Some t -> is_u64 (dt_epoch t) /\ is_u64 (dt_save t) /\ is_i32 (dt_retry t);
  marshal_plain : forall t, unwrapRetryPayload (Marshal t) = (0, 0, false, Marshal t) }.

Section env.
Context `{DbTypes} `{DbCodec} (cf : DbConfig).
Notation INV := (INV cf) (only parsing).
Implicit Types (w : world) (t : DBTask) (p s o : Z) (k : rowkey) (T : gset Z).

(** ** What happens by itself *)
Definition with_acker w p (next : Z) (a : claimAcker) : world :=
  set_claim w p (mkClaim (cl_gen (claim_of w p)) (cl_base (claim_of w p)) next a).

Inductive db_env w : world -> Prop :=
  (** A message is appended; the scenes number the saves of one owner upwards. *)
  | en_produce p o v :
      (forall o' v', w_log w !! (p, o') = Some v' -> o' < o) -> cl_next (claim_of w p) <= o -> in_range p (o + 1) ->
      ascending cf (set_log w (<[(p, o) := v]> (w_log w))) ->
      db_env w (set_log w (<[(p, o) := v]> (w_log w)))
  (** The partition is claimed anew, from the committed offset or an earlier one. *)
  | en_claim p gen base :
      cl_gen (claim_of w p) < gen ->
      base <= cl_base (claim_of w p) \/ (exists o, last (ak_marked (cl_acker (claim_of w p))) = Some o /\ base <= o + 1) ->
      db_env w (set_claim w p (mkClaim gen base base newClaimAcker))
  (** The next message is fetched and tracked... *)
  | en_deliver p o v :
      w_log w !! (p, o) = Some v -> cl_next (claim_of w p) <= o ->
      (forall o' v', w_log w !! (p, o') = Some v' -> ~ (cl_next (claim_of w p) <= o' < o)) ->
      db_env w (with_acker w p (o + 1) (track (cl_acker (claim_of w p)) o))
  (** ... or, before it is handed out, taken off again: the claim fetches nothing more. *)
  | en_untrack p o a : untrack (cl_acker (claim_of w p)) o = (a, true) -> db_env w (with_acker w p o a)
  | en_stop p : db_env w (on_acker w p (cl_gen (claim_of w p)) stop)
  | en_fail p o e : db_env w (on_acker w p (cl_gen (claim_of w p)) (fun a => fail a o e))
  | en_expire k : db_env w (set_locks w (delete k (w_locks w)) (w_token w))
  (** A receipt is claimed, given back, reclaimed or forwarded. *)
  | en_relocate l l' v : db_env w (move_script w l l' v v).2
  | en_stranded r : r ∈ w_stranded w -> db_env w (move_script w (sr_processing r) (sr_dest r) (sr_receipt r) (sr_replacement r)).2
  (** A statement whose connection was lost commits. *)
  | en_late x : x ∈ w_stuck w -> db_env w (exec_stmt cf x w).2.

(** ** What a worker takes up *)
Record kafka_task w (x : workerTask) (m : KafkaMsg) : Prop := {
  kt_msg : wt_msg x = Some m;
  kt_retry : wt_from_retry x = false;
  kt_origin : wt_has_origin x = true /\ wt_origin x = km_partition m /\ wt_seq x = km_offset m + 1;
  kt_log : w_log w !! (km_partition m, km_offset m) = Some (km_value m);
  kt_task : forall t, wt_task x = Some t -> Unmarshal (km_value m) = Some t }.

(** [parseClaimedRetry]: the receipt's task, with the attempt counted. *)
Record retry_task (x : workerTask) t : Prop := {
  rt_msg : wt_msg x = None;
  rt_retry : wt_from_retry x = true;
  rt_task : wt_task x = Some t;
  rt_count : is_i32 (dt_retry t);
  rt_receipt : exists bytes t', unwrapRetryPayload (wt_receipt x) = (wt_seq x, wt_origin x, wt_has_origin x, bytes) /\
    Unmarshal bytes = Some t' /\ same_write t' t }.

Definition incoming w (x : workerTask) : Prop :=
  (exists m, kafka_task w x m) \/ (exists t l, retry_task x t /\ wt_receipt x ∈ list_of w l).

(** No message is twice in one batch: a claim that ends waits for its messages. *)
Definition distinct (batch : list workerTask) : Prop :=
  forall i j x y, batch !! i = Some x -> batch !! j = Some y -> i <> j ->
    wt_has_origin x = true -> wt_has_origin y = true -> (wt_origin x, wt_seq x) <> (wt_origin y, wt_seq y).

Definition db_starts w (prg : prog dbE ()) w' : Prop :=
  w' = w /\ exists it batch, in_cf it = cf /\ prg = processTaskBatch it batch /\ (forall x, x ∈ batch -> incoming w x) /\ distinct batch.

(** ** What the workers promise each other

    A worker owns the tokens of its locks. *)
Record guarantees T w w' : Prop := {
  gu_good : good_step cf w w';
  gu_locks : forall k tok, w_locks w' !! k = Some tok -> w_locks w !! k = Some tok \/ w_token w <= tok;
  gu_cursor : forall k, w_cursor w' !! k = w_cursor w !! k \/ exists tok, tok ∈ T /\ w_locks w !! k = Some tok }.

Record relies T w w' : Prop := {
  re_good : good_step cf w w';
  re_held : forall k tok, tok ∈ T -> w_locks w' !! k = Some tok ->
    w_locks w !! k = Some tok /\ w_cursor w' !! k = w_cursor w !! k }.

Definition guar T w w' : Prop := INV w -> guarantees T w w'.
Definition rely T w w' : Prop := INV w -> relies T w w'.
Definition owned T w : Prop := INV w /\ forall tok, tok ∈ T -> tok < w_token w.
Definition acquires T w T' w' : Prop :=
  (INV w -> good_step cf w w') /\ forall tok, tok ∈ T' -> tok ∈ T \/ w_token w <= tok < w_token w'.

#[global] Instance rely_refl T : Reflexive (rely T).
Proof. intros w Hinv. split; [by apply good_step_refl|done]. Qed.

Lemma good_step_trans w1 w2 w3 : good_step cf w1 w2 -> good_step cf w2 w3 -> good_step cf w1 w3.
Proof. intros [_ H12] [H3 H23]. split; [done|by etrans]. Qed.

#[global] Instance rely_trans T : Transitive (rely T).
Proof.
  intros w1 w2 w3 H12 H23 Hinv. destruct (H12 Hinv) as [Hg Hh]. destruct (H23 (proj1 Hg)) as [Hg' Hh'].
  split; [by eapply good_step_trans|]. intros k tok Ht Hl. destruct (Hh' _ _ Ht Hl) as [Hl2 ->]. by apply (Hh _ tok).
Qed.

Lemma owned_rely T w w' : owned T w -> rely T w w' -> owned T w'.
Proof.
  intros [Hinv Ho] Hr. destruct (Hr Hinv) as [[Hinv' Hm] _]. split; [done|]. intros tok Ht.
  pose proof (Ho _ Ht). pose proof (mo_token _ _ Hm). lia.
Qed.

Lemma owned_acquires T w T' w' : acquires T w T' w' -> owned T w -> owned T' w'.
Proof.
  intros [Hg Ha] [Hinv Ho]. destruct (Hg Hinv) as [Hinv' Hm]. split; [done|]. intros tok Ht.
  destruct (Ha _ Ht) as [Hin|?]; [|lia]. pose proof (Ho _ Hin). pose proof (mo_token _ _ Hm). lia.
Qed.

Lemma disj_acquires T w T' w' T2 : acquires T w T' w' -> owned T2 w -> T ## T2 -> T' ## T2.
Proof.
  intros [_ Ha] [_ Ho] Hd tok Ht Ht2. destruct (Ha _ Ht) as [Hin|?]; [by apply (Hd tok)|]. pose proof (Ho _ Ht2). lia.
Qed.

Lemma guar_rely T1 T2 w w' : T1 ## T2 -> owned T2 w -> guar T1 w w' -> rely T2 w w'.
Proof.
  intros Hd [_ Ho] Hg Hinv. destruct (Hg Hinv) as [Hgood Hl Hc]. split; [done|]. intros k tok Ht Hk.
  destruct (Hl _ _ Hk) as [Hk'|?]; [|pose proof (Ho _ Ht); lia]. split; [done|].
  destruct (Hc k) as [?|(tok' & Ht' & Hk2)]; [done|]. simplify_eq. by destruct (Hd tok).
Qed.

(** ** The steps of the world keep the promise *)
Lemma settled_items w p c o : claim_ok w p c -> settled_by c o -> o < cl_next c.
Proof.
  intros (Hbn & st & Hr & _ & Hf & _) Hs. assert (forall x, x ∈ (Spec.items st).*1 -> x < cl_next c) as Hlt.
  { intros x Hx. by apply (proj1 (Forall_forall _ _) Hf x Hx). }
  destruct Hs as [?|[Hm|[Hc Hfl]]]; [lia|apply Hlt..].
  - rewrite (rf_items _ _ Hr), <- (rf_marked _ _ Hr). apply elem_of_app. by left.
  - rewrite (rf_failed _ _ Hr) in Hfl. apply (rf_completed _ _ Hr Hfl) in Hc as [Hc _].
    apply list_elem_of_fmap. by exists (o, Spec.Done).
Qed.

Lemma produce_good w p o v :
  INV w -> (forall o' v', w_log w !! (p, o') = Some v' -> o' < o) -> cl_next (claim_of w p) <= o -> in_range p (o + 1) ->
  ascending cf (set_log w (<[(p, o) := v]> (w_log w))) ->
  good_step cf w (set_log w (<[(p, o) := v]> (w_log w))).
Proof.
  intros Hinv Hnew Hnext Hr Ha. set (w' := set_log w _) in *.
  assert (w_log w !! (p, o) = None) as Hn.
  { destruct (_ !! _) eqn:E; [|done]. pose proof (Hnew _ _ E). lia. }
  assert (w_log w ⊆ w_log w') as Hsub by by apply insert_subseteq.
  assert (forall q s t, msg_at w' q s t -> settled w' q (s - 1) -> msg_at w q s t) as Hold.
  { intros q s t (x & Hx & Hd & Hw) Hst. exists x. split; [|done]. cbn in Hx.
    apply lookup_insert_Some in Hx as [[[= <- Hs] _]|[_ Hx]]; [|done].
    pose proof (settled_items _ _ _ _ (iv_claims _ _ Hinv p) Hst). lia. }
  assert (keeps w w') as Hk.
  { split; [done|intros; by left|]. intros q s t Hm Hst. pose proof (Hold _ _ _ Hm Hst) as Hm'. split; [done|].
    by eapply (iv_settled _ _ Hinv). }
  split; [|apply mono_same; [done|cbn; lia|done..]]. pose proof Hinv as Hi. destruct Hi; split; try done.
  - intros q o' x Hx. cbn in Hx. apply lookup_insert_Some in Hx as [[[= <- <-] _]|[_ Hx]]; [done|by eapply iv_log].
  - intros q. destruct (iv_claims q) as (Hbn & st & ? & ? & ? & Hall). split; [done|]. exists st. split_and!; [done..|].
    intros o' x Hx Hin. cbn in Hx. apply lookup_insert_Some in Hx as [[[= <- <-] _]|[_ Hx]]; [|by eapply Hall].
    change (claim_of w' p) with (claim_of w p) in *. lia.
  - intros q s t Hm Hst. by eapply keeps_settled.
  - intros l x q s t Hx Hh. destruct (iv_lists _ _ _ _ _ Hx Hh) as (t' & ? & ?). exists t'. split; [by eapply msg_at_mono|done].
  - intros k raw Hraw. destruct (iv_cursor _ _ Hraw) as (q & s & t & ? & ? & ? & ? & ?). exists q, s, t.
    split_and!; try done. by eapply msg_at_mono.
Qed.

Lemma sorted_prefix (l r : list Z) x y : StronglySorted Z.lt (l ++ r) -> last l = Some y -> x ∈ l ++ r -> x <= y -> x ∈ l.
Proof.
  intros Hs Hy Hx Hle. apply elem_of_app in Hx as [?|Hx]; [done|]. apply last_Some in Hy as [l' ->].
  rewrite <- app_assoc in Hs. apply StronglySorted_app in Hs as (_ & _ & Hs). cbn in Hs.
  apply StronglySorted_inv in Hs as [_ Hs]. pose proof (proj1 (Forall_forall _ _) Hs x Hx). lia.
Qed.

(** A claim starts behind nothing that was not settled. *)
Lemma claim_start_settled w p (c : Claim) base o v :
  claim_ok w p c -> w_log w !! (p, o) = Some v ->
  base <= cl_base c \/ (exists m, last (ak_marked (cl_acker c)) = Some m /\ base <= m + 1) ->
  o < base -> settled_by c o.
Proof.
  intros (Hbn & st & Hr & Hs & Hf & Hall) Hv Hbase Hlt. destruct (decide (o < cl_base c)); [by left|].
  destruct Hbase as [?|(m & Hm & Hle)]; [lia|]. right. left. rewrite (rf_marked _ _ Hr) in *. rewrite (rf_items _ _ Hr) in *.
  assert (m < cl_next c) as Hmn.
  { apply (proj1 (Forall_forall _ _) Hf m). apply elem_of_app. left. apply last_Some in Hm as [l' ->]. set_solver. }
  eapply sorted_prefix; [done|done| |]; [|lia]. eapply Hall; [done|lia].
Qed.

Lemma claim_good w p gen base :
  INV w -> base <= cl_base (claim_of w p) \/ (exists o, last (ak_marked (cl_acker (claim_of w p))) = Some o /\ base <= o + 1) ->
  good_step cf w (set_claim w p (mkClaim gen base base newClaimAcker)).
Proof.
  intros Hinv Hb. apply claims_step; [done| |].
  - split; [done|]. exists Spec.init. split_and!; [apply refines_init|by constructor|by constructor|]. cbn. lia.
  - intros s t Hm Hst. apply (iv_settled _ _ Hinv); [done|]. destruct Hm as (v & Hv & _).
    eapply claim_start_settled; [by apply (iv_claims _ _ Hinv)|done|exact Hb|].
    destruct Hst as [?|[Hin|[Hin _]]]; [done|by apply elem_of_nil in Hin|set_solver].
Qed.

Lemma with_acker_good w p next a op :
  INV w -> a = (acker_step (cl_acker (claim_of w p)) op).1 ->
  claim_ok w p (mkClaim (cl_gen (claim_of w p)) (cl_base (claim_of w p)) next a) ->
  (forall o, op <> Ack o) -> good_step cf w (with_acker w p next a).
Proof.
  intros Hinv -> Hc Hop. apply claims_step; [done..|]. intros s t Hm Hst. apply (iv_settled _ _ Hinv); [done|].
  destruct Hst as [?|Hst]; [by left|]. apply acker_step_settles in Hst as [?|?]; [by right|]. by destruct (Hop (s - 1)).
Qed.

Lemma deliver_ok w p o v : INV w -> w_log w !! (p, o) = Some v -> cl_next (claim_of w p) <= o ->
  (forall o' v', w_log w !! (p, o') = Some v' -> ~ (cl_next (claim_of w p) <= o' < o)) ->
  claim_ok w p (mkClaim (cl_gen (claim_of w p)) (cl_base (claim_of w p)) (o + 1) (track (cl_acker (claim_of w p)) o)).
Proof.
  intros Hinv Hv Ho Hgap. destruct (iv_claims _ _ Hinv p) as (Hbn & st & Hr & Hs & Hf & Hall). split; cbn; [lia|].
  assert (forall x, x ∈ (Spec.items st).*1 -> x < cl_next (claim_of w p)) as Hin.
  { intros x Hx. by apply (proj1 (Forall_forall _ _) Hf x Hx). }
  exists (Spec.step st (Track o)).1. cbn. rewrite fmap_app. cbn. split_and!.
  - apply refines_track; [done|]. intros i Hi. pose proof (Hin _ Hi). lia.
  - apply StronglySorted_app_2; [|done|by repeat constructor]. intros x y Hx ->%list_elem_of_singleton. pose proof (Hin _ Hx). lia.
  - apply Forall_app. split; [eapply Forall_impl; [exact Hf|]; cbn; intros; lia|]. repeat constructor; lia.
  - intros o' v' Hv' Ho'. apply elem_of_app. destruct (decide (o' < cl_next (claim_of w p))); [left; eapply Hall; [done|lia]|].
    right. apply list_elem_of_singleton. destruct (decide (o' = o)) as [|Hne]; [assumption|]. exfalso. apply (Hgap _ _ Hv'). lia.
Qed.

Lemma untrack_ok w p o a : INV w -> untrack (cl_acker (claim_of w p)) o = (a, true) ->
  claim_ok w p (mkClaim (cl_gen (claim_of w p)) (cl_base (claim_of w p)) o a).
Proof.
  intros Hinv Hu. destruct (iv_claims _ _ Hinv p) as (Hbn & st & Hr & Hs & Hf & Hall).
  destruct (refines_step _ _ (Untrack o) Hr I) as [Hr' Hb]. cbn in Hr', Hb. rewrite Hu in Hr', Hb. cbn in Hr', Hb.
  destruct (Spec.items st) as [|[o' f] l _] eqn:Hi using rev_ind; [done|]. rewrite last_snoc in *.
  destruct f; [|done..]. destruct (o' =? o) eqn:Eo; [|done]. zbool. subst o'. cbn in Hr'.
  rewrite length_app, Nat.add_sub, take_app_length in Hr'. rewrite fmap_app in *. cbn in *.
  apply Forall_app in Hf as [Hf Hfo]. apply Forall_cons in Hfo as [Hfo _]. cbn in Hfo.
  pose proof Hs as (Hlt & Hs1 & _)%StronglySorted_app.
  split; cbn; [lia|]. exists (Spec.mk l (Spec.failed st) (Spec.marked st)). cbn. split_and!; [done|done| |].
  - apply Forall_forall. intros x Hx. pose proof (proj1 (Forall_forall _ _) Hf x Hx). cbn in *. split; [lia|].
    apply Hlt; [done|by apply list_elem_of_singleton].
  - intros x v Hv Hx. assert (x ∈ l.*1 ++ [o]) as Hin by (eapply Hall; [done|lia]).
    apply elem_of_app in Hin as [?| ->%list_elem_of_singleton]; [done|lia].
Qed.

Lemma db_env_good w w' : INV w -> db_env w w' -> good_step cf w w'.
Proof.
  intros Hinv Hstep. destruct Hstep as [p o v Hnew Hnext Hr Ha|p gen base _ Hb|p o v Hv Ho Hgap|p o a Hu|p|p o e|k|l l' v|r Hr|x Hx].
  - by apply produce_good.
  - by apply claim_good.
  - apply (with_acker_good _ _ _ _ (Track o)); [done|done|by eapply deliver_ok|done].
  - apply (with_acker_good _ _ _ _ (Untrack o)); [done|cbn; by rewrite Hu|by apply untrack_ok|done].
  - by apply (acker_op_step cf w p _ Stop).
  - by apply (acker_op_step cf w p _ (Fail o e)).
  - apply locks_step; [done..|]. intros k' tok [_ Hk]%lookup_delete_Some. by eapply iv_locks.
  - by apply move_step.
  - apply move_step; [done|]. by apply (proj1 (Forall_forall _ _) (iv_stranded _ _ Hinv) r Hr).
  - apply exec_good; [done|]. by apply (proj1 (Forall_forall _ _) (iv_stuck _ _ Hinv) x Hx).
Qed.

Lemma on_acker_frame w p c f : w_locks (on_acker w p c f) = w_locks w /\ w_cursor (on_acker w p c f) = w_cursor w.
Proof. unfold on_acker. by destruct (_ =? _). Qed.

Lemma move_frame w l l' v v' : w_locks (move_script w l l' v v').2 = w_locks w /\ w_cursor (move_script w l l' v v').2 = w_cursor w.
Proof. unfold move_script. by destruct (in_list _ _ _). Qed.

Lemma db_env_frame w w' : db_env w w' -> w_locks w' ⊆ w_locks w /\ w_cursor w' = w_cursor w.
Proof.
  intros Hstep. destruct Hstep as [p o v Hnew Hnext Hr Ha|p gen base _ Hb|p o v Hv Ho Hgap|p o a Hu|p|p o e|k|l l' v|r Hr|x Hx]; try done.
  - by destruct (on_acker_frame w p (cl_gen (claim_of w p)) stop) as [-> ->].
  - by destruct (on_acker_frame w p (cl_gen (claim_of w p)) (fun a => fail a o e)) as [-> ->].
  - split; [|done]. apply delete_subseteq.
  - by destruct (move_frame w l l' v v) as [-> ->].
  - by destruct (move_frame w (sr_processing r) (sr_dest r) (sr_receipt r) (sr_replacement r)) as [-> ->].
  - by destruct (exec_frame cf w x) as (_ & _ & _ & _ & -> & _ & -> & _).
Qed.

Lemma env_rely T w w' : owned T w -> db_env w w' -> rely T w w'.
Proof.
  intros _ He Hinv. split; [by apply db_env_good|]. destruct (db_env_frame _ _ He) as [Hl Hc]. intros k tok _ Hk.
  split; [by eapply lookup_weaken|by rewrite Hc].
Qed.
End env.
