(* ===== verification/DbEnds.v ===== *)
(** * How a task may end

    The rules of the judgement [runs] - what a program does from a world on, whatever
    the others do - and the ends of a task: a receipt or a message is given up only when
    what it carried has left another trace. *)

From stdpp Require Import base list gmap strings sorting.
From Stdlib Require Import ZArith Lia.
From S2P Require Import Prelude DbTask DbAcker DbProg DbWorld DbHandle DbCoalesce DbSys DbStep DbEnv.
Local Open Scope Z_scope.

Create HintDb db discriminated.

Section rules.
Context `{DbTypes} `{DbCodec} (cf : DbConfig).
Notation INV := (INV cf) (only parsing).
Notation relies := (relies cf) (only parsing).
Implicit Types (w : world) (T K : gset Z).

(** From [w] on the program is allowed to run and ends with [R]; the locks of [K] it
    keeps, with the cursors they protect. *)
Definition runs T K {A} w (p : prog dbE A) (R : A -> world -> Prop) : Prop :=
  INV w -> safe (db_run cf) (rely cf) (guar cf) (acquires cf) T p
    (fun T' a w' => T' = T /\ relies K w w' /\ R a w') w.

Lemma relies_trans K w1 w2 w3 : relies K w1 w2 -> relies K w2 w3 -> relies K w1 w3.
Proof.
  intros [Hg Hh] [Hg' Hh']. split; [by eapply good_step_trans|]. intros k tok Ht Hl.
  destruct (Hh' _ _ Ht Hl) as [Hl2 ->]. by apply (Hh _ tok).
Qed.

Lemma relies_subset T K w w' : K ⊆ T -> relies T w w' -> relies K w w'.
Proof. intros Hs [Hg Hh]. split; [done|]. intros k tok Ht. apply Hh. set_solver. Qed.

Lemma relies_mono K w w' : relies K w w' -> mono w w'.
Proof. intros [[_ ?] _]. done. Qed.

Lemma runs_ret {A} T K w (a : A) (R : A -> world -> Prop) : K ⊆ T ->
  (forall w', relies K w w' -> R a w') -> runs T K w (Ret a) R.
Proof.
  intros Hs HR Hinv w' Hr. specialize (Hr Hinv). pose proof (relies_subset _ _ _ _ Hs Hr). split_and!; [done|done|by apply HR].
Qed.

Lemma runs_bind_held {A B} T K K' w (p : prog dbE A) (f : A -> prog dbE B) R S : K' ⊆ K ->
  runs T K w p R -> (forall a w', relies K w w' -> R a w' -> runs T K' w' (f a) S) -> runs T K' w (p ≫= f) S.
Proof.
  intros Hs Hp Hf Hinv. eapply safe_bind; [apply _|apply _|by apply Hp|]. intros T' a w' (-> & Hr & HR).
  pose proof Hr as [[Hinv' _] _]. eapply safe_mono; [by apply (Hf a w' Hr HR Hinv')|].
  intros T' b w'' (-> & Hr' & HS). split_and!; [done| |done]. eapply relies_trans; [|done]. by eapply relies_subset.
Qed.

Lemma runs_bind {A B} T K w (p : prog dbE A) (f : A -> prog dbE B) R S :
  runs T K w p R -> (forall a w', relies K w w' -> R a w' -> runs T K w' (f a) S) -> runs T K w (p ≫= f) S.
Proof. by apply runs_bind_held. Qed.

Lemma runs_weaken {A} T K K' w (p : prog dbE A) (R S : A -> world -> Prop) :
  runs T K w p R -> K' ⊆ K -> (forall a w', relies K w w' -> R a w' -> S a w') -> runs T K' w p S.
Proof.
  intros Hp Hs HRS Hinv. eapply safe_mono; [by apply Hp|]. intros T' a w' (-> & Hr & HR).
  split_and!; [done|by eapply relies_subset|by apply HRS].
Qed.

Lemma runs_do {A B} T K w (e : dbE A) (f : A -> prog dbE B) S : K ⊆ T ->
  (forall w1 x w2, INV w1 -> relies T w w1 -> db_run cf A e w1 x w2 ->
     guarantees cf T w1 w2 /\ relies K w1 w2 /\ runs T K w2 (f x) S) ->
  runs T K w (call e ≫= f) S.
Proof.
  intros Hs He Hinv w1 Hr x w2 Hrun. pose proof (relies_subset _ _ _ _ Hs (Hr Hinv)) as Hr1.
  pose proof Hr1 as [[Hinv1 _] _]. destruct (He w1 x w2 Hinv1 (Hr Hinv) Hrun) as (Hg & Hr2 & Hk).
  split; [by intros _|]. exists T. split.
  - split; [intros _; by apply Hg|by left].
  - pose proof Hr2 as [[Hinv2 _] _]. eapply safe_mono; [by apply Hk|]. intros T' b w'' (-> & Hr3 & HS).
    split_and!; [done| |done]. eapply relies_trans; [exact Hr1|]. by eapply relies_trans.
Qed.

Lemma guarantees_refl T w : INV w -> guarantees cf T w w.
Proof. intros Hinv. split; [done|by left|by left]. Qed.

Lemma relies_refl K w : INV w -> relies K w w.
Proof. intros Hinv. by split. Qed.

(** A call that changes nothing. *)
Lemma runs_quiet {A B} T K w (e : dbE A) (f : A -> prog dbE B) S : K ⊆ T ->
  (forall w1 x w2, db_run cf A e w1 x w2 -> w2 = w1) ->
  (forall w1 x, INV w1 -> relies T w w1 -> db_run cf A e w1 x w1 -> runs T K w1 (f x) S) ->
  runs T K w (call e ≫= f) S.
Proof.
  intros Hs Hq Hf. apply runs_do; [done|]. intros w1 x w2 Hinv Hr Hrun. pose proof (Hq _ _ _ Hrun) as ->.
  split_and!; [by apply guarantees_refl|by apply relies_refl|by apply Hf].
Qed.

(** A call that leaves locks and cursors alone. *)
Lemma runs_step {A B} T K w (e : dbE A) (f : A -> prog dbE B) S : K ⊆ T ->
  (forall w1 x w2, INV w1 -> relies T w w1 -> db_run cf A e w1 x w2 ->
     good_step cf w1 w2 /\ w_locks w2 = w_locks w1 /\ w_cursor w2 = w_cursor w1 /\ runs T K w2 (f x) S) ->
  runs T K w (call e ≫= f) S.
Proof.
  intros Hs He. apply runs_do; [done|]. intros w1 x w2 Hinv Hr Hrun.
  destruct (He _ _ _ Hinv Hr Hrun) as (Hg & Hl & Hc & Hk). split_and!; [| |done].
  - split; [done|rewrite Hl; by left|rewrite Hc; by left].
  - split; [done|]. intros k tok _. by rewrite Hl, Hc.
Qed.

(** The invariant may be used at the start. *)
Lemma runs_inv {A} T K w (p : prog dbE A) R : (INV w -> runs T K w p R) -> runs T K w p R.
Proof. intros Hp Hinv. by apply Hp. Qed.

Lemma call_bind {A} (e : dbE A) : call e = call e ≫= Ret.
Proof. done. Qed.
End rules.

Definition any {A} : A -> world -> Prop := fun _ _ => True.

(** ** The task in hand *)
Section in_hand.
#[local] Set Default Proof Using "Type*".
Context `{DbTypes} `{DbCodec} {HL : DbCodecLaws} (cf : DbConfig).
Implicit Types (w : world) (x : workerTask) (t : DBTask) (p s : Z).

(** A task that came out of protobuf, apart from the number of retries. *)
Record task_wf t : Prop := {
  tw_decoded : exists v t', Unmarshal v = Some t' /\ same_write t' t;
  tw_retry : is_i32 (dt_retry t) }.

Lemma same_write_set t' t : same_write t' t -> t = set_retry t' (dt_retry t).
Proof. destruct t, t'. unfold same_write, set_retry. cbn. by intros [=]; subst. Qed.

Lemma task_wf_codes t : task_wf t -> Unmarshal (Marshal t) = Some t.
Proof.
  intros [(v & t' & Hv & Hs) Hr]. rewrite (same_write_set _ _ Hs). by eapply marshal_again.
Qed.

Lemma task_wf_ranges t : task_wf t -> is_u64 (dt_epoch t) /\ is_u64 (dt_save t).
Proof.
  intros [(v & t' & Hv & Hs) _]. destruct (same_write_fields _ _ Hs) as (_ & _ & _ & _ & <- & <-).
  by destruct (decoded_ranges _ _ Hv) as (? & ? & _).
Qed.

Lemma task_wf_retry t n : task_wf t -> is_i32 n -> task_wf (set_retry t n).
Proof.
  intros [(v & t' & Hv & Hs) _] Hn. split; [|by destruct t]. exists v, t'. split; [done|].
  etrans; [exact Hs|apply set_retry_same].
Qed.

Record in_hand w x t : Prop := {
  ih_wf : task_wf t;
  ih_task : wt_task x = Some t;
  ih_genuine : is_write t = true -> wt_has_origin x = true ->
    exists t', msg_at w (wt_origin x) (wt_seq x) t' /\ same_write t' t;
  ih_source : (exists m, kafka_task w x m) \/ retry_task x t }.

Lemma kafka_task_mono w w' x m : mono w w' -> kafka_task w x m -> kafka_task w' x m.
Proof. intros Hm []. split; try done. by eapply lookup_weaken; [|apply Hm]. Qed.

Lemma in_hand_mono w w' x t : mono w w' -> in_hand w x t -> in_hand w' x t.
Proof.
  intros Hm [Hwf Ht Hg Hs]. split; [done|done| |].
  - intros Hw Ho. destruct (Hg Hw Ho) as (t' & Ht' & ?). exists t'. split; [|done]. by eapply msg_at_mono; [apply Hm|].
  - destruct Hs as [[m Hk]|Hs]; [|by right]. left. exists m. by eapply kafka_task_mono.
Qed.

Lemma kafka_msg_at w x m t p s : kafka_task w x m -> msg_at w p s t ->
  p = km_partition m -> s = km_offset m + 1 -> Unmarshal (km_value m) = Some t.
Proof.
  intros Hk (v & Hv & Ht & _) -> ->. rewrite Z.add_simpl_r, (kt_log _ _ _ Hk) in Hv. by simplify_eq.
Qed.

(** A write has its place in a partition. *)
Lemma in_hand_range w x t : INV cf w -> in_hand w x t -> is_write t = true -> wt_has_origin x = true ->
  in_range (wt_origin x) (wt_seq x).
Proof.
  intros Hinv Hh Hw Ho. destruct (ih_genuine _ _ _ Hh Hw Ho) as (t' & (v & Hv & _) & _).
  pose proof (iv_log _ _ Hinv _ _ _ Hv) as Hr. by rewrite Z.sub_add in Hr.
Qed.

(** ** Payloads *)
Lemma holds_wrapped t p s : task_wf t -> is_write t = true -> wire_range s p ->
  holds (encodeRetryPayload (Marshal t) s p true) p s t.
Proof.
  intros Hwf Hw [Hs Hp]. exists (Marshal t), t. split_and!; [|by apply task_wf_codes|done|done].
  by apply unwrap_wrap.
Qed.

Lemma wrapped_holds t seq origin has p s t' : wire_range seq origin -> task_wf t ->
  holds (encodeRetryPayload (Marshal t) seq origin has) p s t' ->
  has = true /\ p = origin /\ s = seq /\ same_write t' t.
Proof.
  intros Hr Hwf (bytes & x & Hu & Hx & Hs & Hw). unfold encodeRetryPayload in Hu.
  destruct has.
  - rewrite unwrap_wrap in Hu by apply Hr. simplify_eq.
    rewrite task_wf_codes in Hx by done. by simplify_eq.
  - destruct (0 <? seq); [|by rewrite marshal_plain in Hu].
    exfalso. unfold unwrapRetryPayload in Hu. destruct (13 <=? _); cbn in Hu; destruct (9 <=? _) in Hu; cbn in Hu; done.
Qed.

(** The receipt of a retried task carries its write. *)
Lemma receipt_holds x t p s t' : retry_task x t -> holds (wt_receipt x) p s t' ->
  wt_has_origin x = true /\ p = wt_origin x /\ s = wt_seq x /\ same_write t' t /\ is_write t = true.
Proof.
  intros Hr (bytes & y & Hu & Hy & Hs & Hw). destruct (rt_receipt _ _ Hr) as (b & t0 & Hu' & Ht0 & Hs0).
  rewrite Hu in Hu'. injection Hu' as <- <- <- <-. rewrite Hy in Ht0. injection Ht0 as <-.
  assert (same_write t' t) as Hst by (by etrans). split_and!; try done. by rewrite <- (same_write_is_write _ _ Hst).
Qed.

Lemma holds_receipt x t : retry_task x t -> wt_has_origin x = true -> is_write t = true ->
  forall t', same_write t' t -> holds (wt_receipt x) (wt_origin x) (wt_seq x) t'.
Proof.
  intros Hr Ho Hw t' Hs. destruct (rt_receipt _ _ Hr) as (b & t0 & Hu & Ht0 & Hs0). exists b, t0.
  split_and!; [by rewrite Hu, Ho|done| |by rewrite (same_write_is_write _ _ Hs)]. etrans; [exact Hs|by symmetry].
Qed.

Lemma retry_range x t : retry_task x t -> wire_range (wt_seq x) (wt_origin x).
Proof. intros Hr. destruct (rt_receipt _ _ Hr) as (b & t0 & Hu & _). by eapply unwrap_range. Qed.

(** The payload that replaces the receipt of a deferred or quarantined write. *)
Lemma replaced_payload x t t' : retry_task x t -> same_write t t' -> task_wf t' ->
  same_payload (wt_receipt x) (encodeRetryPayload (Marshal t') (wt_seq x) (wt_origin x) (wt_has_origin x)).
Proof.
  intros Hr Hs Hwf p s u. pose proof (retry_range _ _ Hr) as Hrange. split; intros Hp.
  - destruct (receipt_holds _ _ _ _ _ Hr Hp) as (Ho & -> & -> & Hu & Hw). rewrite Ho.
    assert (same_write u t') as Hut by by etrans. eapply holds_same; [by symmetry|]. apply holds_wrapped; [done| |done].
    by rewrite <- (same_write_is_write _ _ Hs).
  - pose proof Hp as (_ & _ & _ & _ & _ & Hw). destruct (wrapped_holds _ _ _ _ _ _ _ Hrange Hwf Hp) as (Ho & -> & -> & Hu).
    assert (same_write u t) as Hut by (etrans; [exact Hu|by symmetry]). apply (holds_receipt _ t); [done..| |done].
    by rewrite <- (same_write_is_write _ _ Hut).
Qed.
End in_hand.

(** ** The calls that end a task *)
Lemma lossy_world {A} (f : world -> res A * world) w x w' : lossy f w x w' -> w' = w \/ w' = (f w).2.
Proof. intros [Hx|[_ Hw]]; [|done]. right. by rewrite <- Hx. Qed.

Section ends.
#[local] Set Default Proof Using "Type*".
Context `{DbTypes} `{DbCodec} {HL : DbCodecLaws} (it : Instance_) (T K : gset Z) (HK : K ⊆ T).
Notation cf := (in_cf it).
Implicit Types (w : world) (x : workerTask) (t : DBTask) (p s : Z).

Lemma runs_any {A} w (a : A) : runs cf T K w (Ret a) any.
Proof. by apply runs_ret. Qed.

Lemma runs_move w x dest payload : same_payload (wt_receipt x) payload -> runs cf T K w (moveOrStrand it x dest payload) any.
Proof.
  intros Hp. apply runs_step; [done|]. intros w1 moved w2 Hinv Hr Hrun%lossy_world.
  assert (w2 = w1 \/ w2 = (move_script w1 (in_processing it) dest (wt_receipt x) payload).2) as Hw.
  { destruct Hrun as [?| ->]; [by left|right]. by destruct (move_script _ _ _ _ _). }
  assert (good_step cf w1 w2 /\ w_locks w2 = w_locks w1 /\ w_cursor w2 = w_cursor w1) as (Hg & Hl & Hc).
  { destruct Hw as [->| ->]; [by split; [apply good_step_refl|]|].
    destruct (move_frame w1 (in_processing it) dest (wt_receipt x) payload). split_and!; [by apply move_step|done|done]. }
  split_and!; [done..|]. destruct moved as [b|e]; [apply runs_any|].
  apply runs_step; [done|]. intros w3 b w4 Hinv3 _ Hrun4. cbn in Hrun4. subst w4.
  destruct b; (split_and!; [|done|done|apply runs_any]); [by apply stranded_step|by apply good_step_refl].
Qed.

(** The message of a task may be acknowledged: if it is a write, it has left a trace. *)
Definition ack_ok w x : Prop :=
  forall m t, wt_msg x = Some m -> msg_at w (km_partition m) (km_offset m + 1) t ->
    covered w (km_partition m) (km_offset m + 1) (row_of t).

Lemma runs_ackKafkaTask w x : (exists m, kafka_task w x m) \/ wt_msg x = None -> ack_ok w x ->
  runs cf T K w (ackKafkaTask x) any.
Proof.
  intros Hx Hok. unfold ackKafkaTask. destruct (wt_msg x) as [m|] eqn:Hm; [|apply runs_any].
  rewrite call_bind. apply runs_step; [done|]. intros w1 [] w2 Hinv Hr ->.
  destruct (on_acker_frame w1 (km_partition m) (wt_claim x) (fun a => ack a (km_offset m))).
  split_and!; [|done|done|apply runs_any]. apply (acker_op_step cf w1 _ _ (Ack (km_offset m))); [done|done|].
  intros o t [= <-] Hat. apply (mo_covered _ _ (relies_mono _ _ _ _ Hr)). apply Hok; [done|].
  destruct Hx as [[m' Hx]|]; [|congruence]. pose proof (kt_msg _ _ _ Hx). simplify_eq.
  pose proof (kafka_task_mono _ _ _ _ (relies_mono _ _ _ _ Hr) Hx) as Hx1.
  pose proof (kafka_msg_at _ _ _ _ _ _ Hx1 Hat eq_refl eq_refl) as Hv. exists (km_value m). rewrite Z.add_simpl_r.
  destruct Hat as (_ & _ & _ & Hw). split_and!; [by eapply kt_log|done|done].
Qed.

Lemma runs_failKafkaTask w x e : runs cf T K w (failKafkaTask x e) any.
Proof.
  unfold failKafkaTask. destruct (wt_msg x) as [m|]; [|apply runs_any].
  rewrite call_bind. apply runs_step; [done|]. intros w1 [] w2 Hinv Hr ->.
  destruct (on_acker_frame w1 (km_partition m) (wt_claim x) (fun a => fail a (km_offset m) e)).
  split_and!; [|done|done|apply runs_any]. by apply (acker_op_step cf w1 _ _ (Fail (km_offset m) e)).
Qed.

(** A task may be given up: a write has a lasting trace, or a later one of its row. *)
Definition disposable w x t : Prop :=
  is_write t = true -> wt_has_origin x = true ->
  lasting w (wt_origin x) (wt_seq x) t \/ superseded w (wt_origin x) (wt_seq x) (row_of t).

Lemma disposable_mono w w' x t : mono w w' -> disposable w x t -> disposable w' x t.
Proof.
  intros Hm Hd Hw Ho. destruct (Hd Hw Ho); [left; by eapply lasting_mono|right; by eapply superseded_mono].
Qed.

Lemma disposable_ack w x t : INV cf w -> in_hand w x t -> disposable w x t -> ack_ok w x.
Proof.
  intros Hinv Hh Hd m t' Hm Hat. destruct (ih_source _ _ _ Hh) as [[m' Hk]|Hr]; [|by rewrite (rt_msg _ _ Hr) in Hm].
  pose proof (kt_msg _ _ _ Hk). simplify_eq. destruct (kt_origin _ _ _ Hk) as (Ho & Hp & Hs).
  pose proof (kafka_msg_at _ _ _ _ _ _ Hk Hat eq_refl eq_refl) as Hv.
  pose proof (kt_task _ _ _ Hk _ (ih_task _ _ _ Hh)). assert (t' = t) as -> by congruence.
  assert (is_write t = true) as Hw by by eapply msg_at_write. destruct (Hd Hw Ho) as [Hl|Hsup]; rewrite Hp, Hs in *.
  - eapply evidence_covered; [exact Hat|done|by left].
  - by eapply superseded_covered.
Qed.

Lemma runs_ackReceipt w x t : in_hand w x t -> disposable w x t -> runs cf T K w (ackReceipt it x) any.
Proof.
  intros Hh Hd. unfold ackReceipt. destruct (_ && _) eqn:Hr; [|apply runs_any]. zbool.
  apply runs_step; [done|]. intros w1 b w2 Hinv Hrel Hrun%lossy_world.
  pose proof (relies_mono _ _ _ _ Hrel) as Hm. pose proof (disposable_mono _ _ _ _ Hm Hd) as Hd1.
  assert (retry_task x t) as Hrt.
  { destruct (ih_source _ _ _ Hh) as [[m Hk]|?]; [|done]. rewrite (kt_retry _ _ _ Hk) in *. done. }
  assert (w2 = w1 \/ w2 = LREM w1 (in_processing it) (wt_receipt x)) as Hw.
  { destruct Hrun as [?|Hw]; [by left|]. unfold ack_script in Hw. destruct (in_list _ _ _); [by right|by left]. }
  destruct Hw as [->| ->]; (split_and!; [|done|done|apply runs_any]); [by apply good_step_refl|].
  apply remove_step; [done|]. intros p s u Hat Hu. destruct (receipt_holds _ _ _ _ _ Hrt Hu) as (Ho & -> & -> & Hs & Hw).
  destruct (Hd1 Hw Ho) as [?|?]; [left|right]; [eapply lasting_same; [|done]; by symmetry|].
  by rewrite (same_write_row _ _ Hs).
Qed.

Lemma runs_finish w x t : in_hand w x t -> disposable w x t -> runs cf T K w (finish it x) any.
Proof.
  intros Hh Hd. eapply runs_bind; [by eapply runs_ackReceipt|]. intros _ w1 Hr _.
  pose proof (relies_mono _ _ _ _ Hr) as Hm. pose proof Hr as [[Hinv _] _].
  pose proof (in_hand_mono _ _ _ _ Hm Hh) as Hh1. apply runs_ackKafkaTask.
  - destruct (ih_source _ _ _ Hh1) as [?|Hrt]; [by left|right]. by apply Hrt.
  - eapply disposable_ack; [done|done|]. by eapply disposable_mono.
Qed.

(** ** Deferring and quarantining *)
Lemma pushes_good w queue payload n : INV cf w ->
  (forall p s t, holds payload p s t -> exists t', msg_at w p s t' /\ same_write t t') ->
  good_step cf w (pushes w queue payload n) /\ w_locks (pushes w queue payload n) = w_locks w /\
  w_cursor (pushes w queue payload n) = w_cursor w /\ w_log (pushes w queue payload n) = w_log w /\
  ((0 < n)%nat -> payload ∈ list_of (pushes w queue payload n) queue).
Proof.
  intros Hinv Hp. induction n as [|n IH]; [split_and!; [by apply good_step_refl|done..|lia]|].
  destruct IH as (Hg & Hl & Hc & Hlog & Hin). change (pushes w queue payload (S n)) with (LPUSH (pushes w queue payload n) queue payload).
  assert (forall p s t, holds payload p s t -> exists t', msg_at (pushes w queue payload n) p s t' /\ same_write t t') as Hp'.
  { intros p s t Hh. unfold msg_at. rewrite Hlog. by apply Hp. }
  split_and!; [|done|done|done|].
  - eapply good_step_trans; [exact Hg|]. apply push_step; [by apply Hg|done].
  - intros _. apply in_list_LPUSH. by left.
Qed.

(** The message is acknowledged only once its payload is in the queue. *)
Lemma runs_persistBeforeAck w x m queue payload : kafka_task w x m ->
  (forall p s t, holds payload p s t -> exists t', msg_at w p s t' /\ same_write t t') ->
  (forall t, msg_at w (km_partition m) (km_offset m + 1) t -> holds payload (km_partition m) (km_offset m + 1) t) ->
  runs cf T K w (persistBeforeAck x queue payload) any.
Proof.
  intros Hk Hgen Hcar. apply runs_step; [done|]. intros w1 e w2 Hinv Hr (n & -> & Hn).
  pose proof (relies_mono _ _ _ _ Hr) as Hm.
  destruct (pushes_good w1 queue payload n Hinv) as (Hg & Hl & Hc & Hlog & Hin).
  { intros p s t Hh. destruct (Hgen _ _ _ Hh) as (t' & ? & ?). exists t'. split; [|done]. by eapply msg_at_mono; [apply Hm|]. }
  split_and!; [done..|]. destruct e as [e|]; [apply runs_failKafkaTask|].
  assert (kafka_task (pushes w1 queue payload n) x m) as Hk2.
  { eapply kafka_task_mono; [|done]. etrans; [exact Hm|by apply Hg]. }
  apply runs_ackKafkaTask; [left; by exists m|]. intros m' t Hm' Hat. pose proof (kt_msg _ _ _ Hk2). assert (m' = m) as -> by congruence.
  eapply evidence_covered; [exact Hat|done|]. right. exists queue, payload. split; [by apply Hin, Hn|]. apply Hcar.
  pose proof (kafka_msg_at _ _ _ _ _ _ Hk2 Hat eq_refl eq_refl) as Hv. exists (km_value m). rewrite Z.add_simpl_r.
  destruct Hat as (_ & _ & _ & Hw). split_and!; [by eapply kt_log|done|done].
Qed.

Lemma runs_persist_task w x t queue : INV cf w -> in_hand w x t -> wt_from_retry x = false ->
  runs cf T K w (persistBeforeAck x queue (encodeRetryPayload (Marshal t) (wt_seq x) (wt_origin x) true)) any.
Proof.
  intros Hinv Hh Hn. destruct (ih_source _ _ _ Hh) as [[m Hk]|Hrt]; [|rewrite (rt_retry _ _ Hrt) in Hn; done].
  destruct (kt_origin _ _ _ Hk) as (Ho & Hp & Hs). pose proof (ih_wf _ _ _ Hh) as Hwf.
  assert (wire_range (wt_seq x) (wt_origin x)) as Hrange.
  { destruct (iv_log _ _ Hinv _ _ _ (kt_log _ _ _ Hk)). rewrite Hp, Hs. split; [lia|lia]. }
  apply (runs_persistBeforeAck w x m); [done| |].
  - intros p s u Hu. pose proof Hu as (_ & _ & _ & _ & _ & Hw). destruct (wrapped_holds _ _ _ _ _ _ _ Hrange Hwf Hu) as (_ & -> & -> & Hut).
    rewrite (same_write_is_write _ _ Hut) in Hw. destruct (ih_genuine _ _ _ Hh Hw Ho) as (t' & ? & ?).
    exists t'. split; [done|]. etrans; [exact Hut|by symmetry].
  - intros u Hat. pose proof (kafka_msg_at _ _ _ _ _ _ Hk Hat eq_refl eq_refl).
    pose proof (kt_task _ _ _ Hk _ (ih_task _ _ _ Hh)). assert (u = t) as -> by congruence. rewrite <- Hp, <- Hs.
    apply holds_wrapped; [done|by eapply msg_at_write|done].
Qed.

Lemma retry_source w x t : in_hand w x t -> wt_from_retry x = true -> retry_task x t.
Proof. intros Hh Hr. destruct (ih_source _ _ _ Hh) as [[m Hk]|?]; [|done]. by rewrite (kt_retry _ _ _ Hk) in Hr. Qed.

Lemma runs_deferFailedTask w x t cause : in_hand w x t -> runs cf T K w (deferFailedTask it x t cause) any.
Proof.
  intros Hh Hinv. revert Hinv. unfold deferFailedTask. destruct (wt_from_retry x) eqn:Hr.
  - pose proof (retry_source _ _ _ Hh Hr) as Hrt. apply runs_move. pose proof (ih_wf _ _ _ Hh) as Hwf.
    destruct (_ && _) eqn:E; [|by apply (replaced_payload _ t)]. zbool.
    apply (replaced_payload _ t); [done|apply set_retry_same|]. apply task_wf_retry; [done|].
    destruct (tw_retry _ Hwf). unfold is_i32. lia.
  - intros Hinv. by apply runs_persist_task.
Qed.

Lemma runs_quarantine w x t : in_hand w x t -> runs cf T K w (quarantineOrderingConflict it x t) any.
Proof.
  intros Hh Hinv. revert Hinv. unfold quarantineOrderingConflict. destruct (wt_from_retry x) eqn:Hr.
  - pose proof (retry_source _ _ _ Hh Hr) as Hrt. apply runs_move. apply (replaced_payload _ t); [done|done|by eapply ih_wf].
  - intros Hinv. destruct (ih_source _ _ _ Hh) as [[m Hk]|Hrt]; [|rewrite (rt_retry _ _ Hrt) in Hr; done].
    destruct (kt_origin _ _ _ Hk) as (-> & _). by apply runs_persist_task.
Qed.

(** What does not decode, or is no write, leaves no trace of a write. *)
Lemma runs_poison w x m : kafka_task w x m -> (forall t, Unmarshal (km_value m) = Some t -> is_write t = false) ->
  runs cf T K w (quarantinePoisonTask it x) any.
Proof.
  intros Hk Hn. unfold quarantinePoisonTask. rewrite (kt_msg _ _ _ Hk). apply (runs_persistBeforeAck w x m); [done| |].
  - intros p s t (bytes & u & Hu & _). exfalso. unfold poisonPayload, unwrapRetryPayload in Hu.
    destruct (13 <=? _), (9 <=? _); cbn in Hu; done.
  - intros t Hat. pose proof (kafka_msg_at _ _ _ _ _ _ Hk Hat eq_refl eq_refl) as Hv. specialize (Hn _ Hv).
    destruct Hat as (_ & _ & _ & Hw). congruence.
Qed.
End ends.
