(* ===== verification/DbSafe.v ===== *)
(** * One task, safely

    [handleTask] of [DbHandle], line by line, with the rules of [DbEnds]: whatever the
    other workers do in between, every call it makes keeps the invariant, and the task
    is given up only on evidence. *)

From stdpp Require Import base list gmap strings sorting.
From Stdlib Require Import ZArith Lia.
From S2P Require Import Prelude DbTask DbAcker DbProg DbWorld DbHandle DbCoalesce DbSys DbStep DbEnv DbEnds.
Local Open Scope Z_scope.

Section safe.
#[local] Set Default Proof Using "Type*".
Context `{DbTypes} `{DbCodec} {HL : DbCodecLaws} (it : Instance_) (T : gset Z).
Notation cf := (in_cf it).
Notation held := (runs cf T T).
Notation loose := (runs cf T ∅).
Implicit Types (w : world) (x : workerTask) (t : DBTask) (p s : Z).

(** A call whose answer tells the proof nothing. *)
Tactic Notation "quiet" "as" simple_intropattern(ans) :=
  apply runs_quiet; [set_solver|first [by intros ??? ->|by intros ??? [-> _]|by intros ??? ?]|];
  let w1 := fresh "w" in let Hinv := fresh "Hinv" in let Hr := fresh "Hr" in
  intros w1 ans Hinv Hr _; pose proof (relies_mono _ _ _ _ Hr).

(** ** The guards *)

(** The cursor of the locked row lies before the task. *)
Definition fresh_cursor w (tok : Z) x t : Prop :=
  w_locks w !! row_of t = Some tok ->
  w_cursor w !! row_of t = None \/ exists c, c <= wt_seq x /\ cursor_at w (row_of t) (wt_origin x) c.

Lemma fresh_cursor_relies w w' tok x t : tok ∈ T -> relies cf T w w' -> fresh_cursor w tok x t -> fresh_cursor w' tok x t.
Proof.
  intros Ht Hr Hf Hl. destruct (re_held _ _ _ _ Hr _ _ Ht Hl) as [Hl' Hc]. destruct (Hf Hl') as [Hn|(c & ? & Hat)].
  - left. by rewrite Hc.
  - right. exists c. split; [done|]. destruct Hat. split; [by rewrite Hc|done].
Qed.

(** The write has its place: what a passed ordering guard leaves. *)
Record placed w x t : Prop := {
  pl_origin : wt_has_origin x = true;
  pl_seq : wt_seq x <> 0;
  pl_fresh : forall tok, tok ∈ T -> fresh_cursor w tok x t }.

Lemma placed_relies w w' x t : relies cf T w w' -> placed w x t -> placed w' x t.
Proof. intros Hr []. split; [done..|]. intros tok Ht. eapply fresh_cursor_relies; eauto. Qed.

Definition ordering_result x t (d : res orderingDecision) w : Prop :=
  match d with
  | Ok orderingApply => is_write t = true -> placed w x t
  | Ok orderingStale => disposable w x t
  | _ => True
  end.

Lemma ordering_result_relies w w' x t d : relies cf T w w' -> ordering_result x t d w -> ordering_result x t d w'.
Proof.
  intros Hr. destruct d as [[]|]; cbn; [|by apply disposable_mono, (relies_mono _ _ _ _ Hr)|done..].
  intros Hp Hw. eapply placed_relies; eauto.
Qed.

Lemma in_hand_placed w x t : INV cf w -> in_hand w x t -> is_write t = true ->
  wt_from_retry x && ((wt_seq x =? 0) || negb (wt_has_origin x)) = false -> wt_has_origin x = true /\ wt_seq x <> 0.
Proof.
  intros Hinv Hh Hw Hn. destruct (ih_source _ _ _ Hh) as [[m Hk]|Hr].
  - destruct (kt_origin _ _ _ Hk) as (Ho & _). split; [done|].
    destruct (in_hand_range _ _ _ _ Hinv Hh Hw Ho). lia.
  - rewrite (rt_retry _ _ Hr) in Hn. cbn in Hn. apply orb_false_iff in Hn as [? ?]. zbool. by destruct (wt_has_origin x).
Qed.

Lemma ordering_read_result w x t raw : INV cf w -> in_hand w x t ->
  (is_write t = true -> wt_has_origin x = true /\ wt_seq x <> 0) ->
  w_cursor w !! row_of t = raw -> ordering_result x t (ordering_read raw x) w.
Proof.
  intros Hinv Hh Hpl Hraw. destruct raw as [raw|].
  - cbn. destruct (parseAppliedCursor raw) as [prev|e] eqn:Hparse; [|done]. cbn.
    destruct (cursor_read _ _ _ _ _ Hinv Hraw Hparse) as [Hhas Hat]. rewrite Hhas. cbn.
    destruct (_ || _); [done|]. destruct (cu_partition prev =? wt_origin x) eqn:Hp; [|done]. cbn. zbool. rewrite Hp in Hat.
    destruct (wt_seq x <=? cu_seq prev) eqn:Hs; zbool; cbn.
    + intros Hw Ho. left. left. exists (cu_seq prev). by split.
    + intros Hw. destruct (Hpl Hw). split; [done..|]. intros tok _ _. right. exists (cu_seq prev). split; [lia|done].
  - cbn. intros Hw. destruct (Hpl Hw). split; [done..|]. intros tok _ _. by left.
Qed.

Lemma runs_orderingForTask w x t : INV cf w -> in_hand w x t -> held w (orderingForTask t x) (ordering_result x t).
Proof.
  intros Hinv Hh. unfold orderingForTask, ordering_unread. destruct (_ && _) eqn:Hn; [by apply runs_ret|].
  destruct (is_write t) eqn:Hw; cbn [negb]; [|apply runs_ret; [done|]; cbn; congruence].
  apply runs_quiet; [done|by intros ??? [-> _]|]. intros w1 raw Hinv1 Hr [_ Hraw]. apply runs_ret; [done|]. intros w2 Hr2.
  eapply ordering_result_relies; [done|]. pose proof (in_hand_mono _ _ _ _ (relies_mono _ _ _ _ Hr) Hh) as Hh1.
  destruct Hraw as [->|[e ->]]; [|done]. cbn. apply ordering_read_result; [done|done| |done].
  intros _. by eapply in_hand_placed.
Qed.

Definition epoch_result t (v : res (epochOutcome * Z)) w : Prop :=
  match v with Ok (Stale, _) => forall p s, lasting w p s t | _ => True end.

Lemma runs_checkOwnerEpoch w t : held w (checkOwnerEpoch t) (epoch_result t).
Proof.
  unfold checkOwnerEpoch. destruct (dt_epoch t =? 0); [by apply runs_ret|].
  apply runs_quiet; [done|by intros ??? [-> _]|]. intros w1 raw Hinv1 Hr [_ Hraw]. apply runs_ret; [done|]. intros w2 Hr2.
  destruct Hraw as [->|[e ->]]; [|done]. cbn. destruct (w_epoch w1 !! row_of t) as [raw|] eqn:He; cbn; [|done].
  destruct (ParseUint raw) as [e|] eqn:Hp; [|done]. cbn. destruct (epoch_read _ _ _ _ _ Hinv1 He Hp) as [-> Hu].
  destruct (dt_epoch t <? e) eqn:Hlt; zbool; [|by destruct (e <? dt_epoch t)]. intros p s.
  eapply lasting_mono; [by eapply relies_mono|]. right. left. by exists e.
Qed.

Lemma runs_ownerCounterRegressed w player e : held w (ownerCounterRegressed player e) any.
Proof. unfold ownerCounterRegressed. quiet as ?. by apply runs_ret. Qed.

Lemma runs_then w (q : prog dbE ()) (b : bool) : held w q any -> held w (q ≫= fun _ => Ret b) any.
Proof. intros Hq. eapply runs_bind; [done|]. intros. by apply runs_ret. Qed.

Lemma runs_guardOwnerEpoch w x t : in_hand w x t -> held w (guardOwnerEpoch it x t) any.
Proof.
  intros Hh. eapply runs_bind; [apply runs_checkOwnerEpoch|]. intros v w1 Hr Hv.
  pose proof (in_hand_mono _ _ _ _ (relies_mono _ _ _ _ Hr) Hh) as Hh1.
  destruct v as [[[] e]|e]; try by apply runs_ret.
  2: { by apply runs_then, runs_deferFailedTask. }
  assert (forall w2, mono w1 w2 -> held w2 (finish it x ≫= fun _ => Ret false) any) as Hdrop.
  { intros w2 Hm. apply runs_then. eapply runs_finish; [done|by eapply in_hand_mono|].
    eapply disposable_mono; [done|]. intros _ _. left. apply Hv. }
  cbv zeta. destruct (cf_dual cf); [|by apply Hdrop]. eapply runs_bind; [apply runs_ownerCounterRegressed|].
  intros b w2 Hr2 _. pose proof (relies_mono _ _ _ _ Hr2) as Hm2. pose proof (in_hand_mono _ _ _ _ Hm2 Hh1).
  destruct b as [[]|]; [by apply runs_then, runs_quarantine|by apply Hdrop|by apply runs_then, runs_deferFailedTask].
Qed.

(** ** The database *)
Lemma runs_failRead w x t : in_hand w x t -> is_write t = false -> held w (failRead it x t) any.
Proof.
  intros Hh Hw. assert (forall w' told, mono w w' ->
    held w' (match (told : res ()) with Err _ => deferFailedTask it x t ErrOther | Ok _ => finish it x end) any) as Htail.
  { intros w' told Hm. pose proof (in_hand_mono _ _ _ _ Hm Hh). destruct told as [u|]; [|by apply runs_deferFailedTask].
    eapply runs_finish; [done..|]. intros Hw'. congruence. }
  unfold failRead. destruct (String.eqb (dt_id t) "").
  - by apply (Htail w (Ok ())).
  - quiet as ?. by apply Htail.
Qed.

Lemma runs_none {A} w (q : prog dbE ()) : held w q any -> held w (q ≫= fun _ => Ret (@None A)) any.
Proof. intros Hq. eapply runs_bind; [done|]. intros. by apply runs_ret. Qed.

Lemma runs_routeTask w x t : in_hand w x t -> held w (routeTask it x t) any.
Proof.
  intros Hh. unfold routeTask. quiet as ans. pose proof (in_hand_mono _ _ _ _ ltac:(eassumption) Hh) as Hh1.
  destruct ans as [snap|e]; [|by apply runs_none, runs_deferFailedTask].
  destruct (is_write t) eqn:Hw.
  - destruct (decideWritePlacement it snap) as [| | |db];
      [by apply runs_none, runs_quarantine|by apply runs_none, runs_deferFailedTask|by apply runs_none, runs_quarantine|].
    quiet as ?. destruct (_ : res ()); [by apply runs_ret|].
    assert (is_read t = false) as ->.
    { unfold is_read, is_write, DB_OP_READ, DB_OP_WRITE in *. apply Z.eqb_neq. zbool. lia. }
    apply runs_none, runs_deferFailedTask; [done|]. by eapply in_hand_mono.
  - destruct (decideReadPlacement it snap) as [| | |db];
      [by apply runs_none, runs_quarantine|by apply runs_none, runs_deferFailedTask|by apply runs_none, runs_failRead|].
    quiet as ?. destruct (_ : res ()); [by apply runs_ret|].
    apply runs_none. assert (in_hand w1 x t) by by eapply in_hand_mono.
    destruct (is_read t); [by apply runs_failRead|by apply runs_deferFailedTask].
Qed.

Lemma runs_confirm w t snap : held w (confirm it t snap) any.
Proof. unfold confirm. quiet as ?. by apply runs_ret. Qed.

Lemma outcome_shows_mono w w' t o : mono w w' -> outcome_shows w t o -> outcome_shows w' t o.
Proof.
  intros Hm. unfold outcome_shows. destruct (wo_kind o); try done; try (by apply persisted_mono).
  intros Hl p s. by eapply lasting_mono.
Qed.

Definition sql_result {A} t (r : res (writeOutcome * A)) w : Prop := forall o a, r = Ok (o, a) -> outcome_shows w t o.

Lemma sql_result_mono {A} w w' t (r : res (writeOutcome * A)) : mono w w' -> sql_result t r w -> sql_result t r w'.
Proof. intros Hm Hr o a Ho. eapply outcome_shows_mono; [done|by eapply Hr]. Qed.

Lemma runs_SqlExec {B} w q (f : res (writeOutcome * option Msg) -> prog dbE B) S : stmt_ok cf q ->
  (forall w' r, mono w w' -> sql_result (stmt_task q) r w' -> (forall v, r = Ok v -> exists w1, (exec_stmt cf q w1).1 = Ok v) ->
     held w' (f r) S) -> held w (call (SqlExec q) ≫= f) S.
Proof.
  intros Hq Hf. apply runs_step; [done|]. intros w1 r w2 Hinv Hr Hrun. pose proof (relies_mono _ _ _ _ Hr) as Hm.
  assert (good_step cf w1 w2 /\ w_locks w2 = w_locks w1 /\ w_cursor w2 = w_cursor w1 /\
    sql_result (stmt_task q) r w2 /\ forall v, r = Ok v -> exists w1, (exec_stmt cf q w1).1 = Ok v) as (Hg & Hl & Hc & Hres & Hfrom).
  { pose proof (exec_good cf w1 q Hinv Hq) as Hex. destruct (exec_frame cf w1 q) as (_ & _ & _ & _ & Hcu & _ & Hlo & _).
    destruct Hrun as [[Hrw|[[e ->] [->| ->]]]|[[e ->] ->]].
    - assert (r = (exec_stmt cf q w1).1 /\ w2 = (exec_stmt cf q w1).2) as [-> ->] by (by rewrite <- Hrw).
      split_and!; [done..| |intros v Hv; by exists w1]. intros o a Ho. by eapply exec_outcome.
    - by split_and!; [apply good_step_refl|..].
    - by split_and!.
    - by split_and!; [apply stick_step|..]. }
  split_and!; [done..|]. apply Hf; [|done..]. etrans; [exact Hm|by apply Hg].
Qed.

Lemma stamped_ok w x t m target db : in_hand w x t -> ty_fence (dt_type t) = true -> stamp_row cf t m = Ok target ->
  stmt_ok cf (SInsert db t target) /\ stmt_ok cf (SFence db t target).
Proof.
  intros Hh Hf Hst. destruct (stamp_row_spec _ _ _ _ Hst) as (Hk & _ & _ & Hv & H0').
  destruct (task_wf_ranges _ (ih_wf _ _ _ Hh)) as [[He _] [Hs _]]. cbn. by split_and!.
Qed.

Lemma runs_savePlayerRow w x t db m : in_hand w x t -> ty_fence (dt_type t) = true ->
  held w (savePlayerRow it db t m) (sql_result t).
Proof.
  intros Hh Hf. unfold savePlayerRow. destruct (stamp_row cf t m) as [target|e] eqn:Hst; [|by apply runs_ret].
  destruct (stamped_ok _ _ _ _ _ db Hh Hf Hst) as [Hins Hfen]. cbv zeta.
  set (txn := call (SqlExec (SFence db t target)) ≫= _).
  assert (forall w', held w' txn (sql_result t)) as Htxn.
  { intros w'. apply runs_SqlExec; [done|]. intros w1 r Hm Hr _. apply runs_ret; [done|]. intros w2 Hr2.
    destruct r as [[o cur]|e]; [|done]. intros o' a [= <- _]. eapply outcome_shows_mono; [by eapply relies_mono|]. by eapply Hr. }
  quiet as ans. destruct ans as [[]|e]; [apply Htxn| |by apply runs_ret].
  apply runs_SqlExec; [done|]. intros w2 r Hm Hres Hfrom. destruct r as [[o cur]|e].
  - apply runs_ret; [done|]. intros w3 Hr3 o' a [= <- _].
    destruct (Hfrom _ eq_refl) as (w' & Hw'). cbn in Hw'. destruct (sql_insert _ _); [|done]. injection Hw' as <- <-.
    eapply outcome_shows_mono; [by eapply relies_mono|]. by eapply Hres.
  - destruct (String.eqb e ErrDuplicateKey); [apply Htxn|by apply runs_ret].
Qed.

Lemma runs_handleDBWriteOp w x t db m : in_hand w x t -> held w (handleDBWriteOp it db t m) (sql_result t).
Proof.
  intros Hh. unfold handleDBWriteOp. destruct (ty_too_large _ _); [by apply runs_ret|].
  destruct (ty_fence (dt_type t)) eqn:Hf; [by eapply runs_savePlayerRow|].
  apply runs_SqlExec; [done|]. intros w1 r Hm Hr Hfrom. apply runs_ret; [done|]. intros w2 Hr2 o a Ho.
  destruct r as [[o' cur]|e]; [|done]. simplify_eq. destruct (Hfrom _ eq_refl) as (w' & Hw'). cbn in Hw'. injection Hw' as <- <-.
  eapply outcome_shows_mono; [by eapply relies_mono|]. by eapply Hr.
Qed.

Lemma runs_handleDBReadOp w t db m : held w (handleDBReadOp it db t m) any.
Proof. unfold handleDBReadOp. quiet as ?. by apply runs_ret. Qed.

Lemma runs_publishDBWriteResult w tok t m : held w (publishDBWriteResult tok t m) any.
Proof. unfold publishDBWriteResult. quiet as ?. by apply runs_ret. Qed.

Lemma runs_publishDBReadResult w t m : held w (publishDBReadResult t m) any.
Proof. unfold publishDBReadResult. quiet as ?. destruct (String.eqb _ _); [by apply runs_ret|]. rewrite call_bind. quiet as ?. by apply runs_ret. Qed.

Lemma runs_verify w tok t : held w (verify tok t) any.
Proof. unfold verify. quiet as ?. by apply runs_ret. Qed.

Definition op_result t (r : res writeOutcome) w : Prop := forall o, r = Ok o -> is_write t = true -> outcome_shows w t o.

Lemma op_result_mono w w' t r : mono w w' -> op_result t r w -> op_result t r w'.
Proof. intros Hm Hr o Ho Hw. eapply outcome_shows_mono; [done|by eapply Hr]. Qed.

Lemma runs_afterSQL w t snap tok r : (is_write t = true -> sql_result t r w) -> held w (afterSQL it t snap tok r) (op_result t).
Proof.
  intros Hsql. assert (forall w' o m, mono w w' -> r = Ok (o, m) -> op_result t (Ok o) w') as Hres.
  { intros w' o m Hm -> o' [= <-] Hw. eapply outcome_shows_mono; [done|]. by eapply Hsql. }
  unfold afterSQL. quiet as ans. destruct ans; [by apply runs_ret|]. destruct r as [[o m]|e]; [|by apply runs_ret].
  destruct (is_write t && bool_decide _).
  { apply runs_ret; [done|]. intros w2 Hr2. eapply Hres; [|done]. etrans; [done|by eapply relies_mono]. }
  eapply runs_bind; [apply runs_confirm|]. intros c w1 Hr1 _. destruct c; [|by apply runs_ret].
  eapply (runs_bind _ _ _ _ _ _ any).
  - destruct (is_write t), tok as [tok|]; try apply runs_publishDBReadResult; [|by apply runs_ret].
    destruct (bool_decide _); [apply runs_verify|apply runs_publishDBWriteResult].
  - intros finished w2 Hr2 _. apply runs_ret; [done|]. intros w3 Hr3. destruct finished; [|done]. eapply Hres; [|done].
    etrans; [done|]. do 2 (etrans; [by eapply relies_mono|]). by eapply relies_mono.
Qed.

Lemma runs_runDBOp w x t m route tok : in_hand w x t -> held w (runDBOp it t m route tok) (op_result t).
Proof.
  intros Hh. destruct route as [db snap]. unfold runDBOp. cbv beta iota. destruct (is_write t) eqn:Hw.
  - destruct tok as [tok|]; [|by apply runs_ret]. quiet as ans. destruct ans; [by apply runs_ret|].
    eapply runs_bind; [eapply runs_handleDBWriteOp; by eapply in_hand_mono|]. intros r w1 Hr1 Hres. by apply runs_afterSQL.
  - eapply runs_bind; [apply runs_handleDBReadOp|]. intros r w1 Hr1 _. apply runs_afterSQL. congruence.
Qed.

Lemma checkWriteSchema_kind t m kind : checkWriteSchema cf t m = Ok (Some kind) -> kind = writePersistUnstamped.
Proof. unfold checkWriteSchema. repeat case_match; by intros [= <-] || done. Qed.

Lemma runs_processTaskWithoutLock w x t route tok : in_hand w x t -> held w (processTaskWithoutLock it t route tok) (op_result t).
Proof.
  intros Hh. unfold processTaskWithoutLock. destruct (ty_known _); [|by apply runs_ret]. cbn.
  destruct (ty_decode _ _) as [m|]; [|by apply runs_ret]. destruct (checkWriteSchema _ _ _) as [[kind|]|e] eqn:Hs.
  - apply checkWriteSchema_kind in Hs as ->. apply runs_ret; [done|]. by intros w' _ o [= <-] _.
  - by eapply runs_runDBOp.
  - by apply runs_ret.
Qed.

Lemma runs_processDBTask w x t route tok : in_hand w x t -> held w (processDBTask it t route tok) (op_result t).
Proof.
  intros Hh. assert (forall w', mono w w' -> held w' (processTaskWithoutLock it t route tok) (op_result t)) as Hplain.
  { intros w' Hm. eapply runs_processTaskWithoutLock. by eapply in_hand_mono. }
  assert (forall w', mono w w' -> held w' (tryLockAndProcess it t route tok) (op_result t)) as Hlocked.
  { intros w' Hm. unfold tryLockAndProcess. quiet as ans. destruct ans as [[]|]; try by apply runs_ret.
    eapply runs_bind; [apply Hplain; by etrans|]. intros r w1 Hr1 Hres. quiet as ?. apply runs_ret; [done|]. intros w3 Hr3.
    eapply op_result_mono; [|done]. etrans; [done|by eapply relies_mono]. }
  unfold processDBTask. destruct (cf_expand _); [by apply Hplain|]. quiet as ans.
  destruct ans as [[]|]; by first [apply Hplain|apply Hlocked].
Qed.

(** ** After the SQL

    From here on the cursor may move, so what was known of it is let go. *)
Lemma no_locks : (∅ : gset Z) ⊆ T.
Proof. apply empty_subseteq. Qed.
#[local] Hint Resolve no_locks : core.

Lemma runs_loosen {A} w (q : prog dbE A) R : held w q R -> loose w q R.
Proof. intros Hq. eapply runs_weaken; [exact Hq|done|done]. Qed.

Lemma runs_advanceApplied w x t tok : tok ∈ T -> in_hand w x t -> is_write t = true -> placed w x t -> persisted w t ->
  loose w (advanceApplied (Some tok) t x) (fun r w' => r = Ok () -> disposable w' x t).
Proof.
  intros Htok Hh Hw Hpl Hper. unfold advanceApplied. rewrite Hw.
  assert (cursor_text x = cursor_of (wt_origin x) (wt_seq x)) as ->.
  { unfold cursor_text. rewrite (pl_origin _ _ _ Hpl). destruct (wt_seq x =? 0) eqn:Hz; [|done]. zbool. by destruct (pl_seq _ _ _ Hpl). }
  apply runs_do; [done|]. intros w1 r w2 Hinv Hr Hrun. pose proof (relies_mono _ _ _ _ Hr) as Hm.
  pose proof (in_hand_mono _ _ _ _ Hm Hh) as Hh1. pose proof (placed_relies _ _ _ _ Hr Hpl) as Hpl1.
  assert (may_advance w1 t (wt_origin x) (wt_seq x) tok) as Hma.
  { split; [by eapply in_hand_range; [| | |apply Hpl]|by eapply task_wf_ranges, ih_wf| |by eapply persisted_mono|by apply Hpl1].
    apply (ih_genuine _ _ _ Hh1 Hw), Hpl. }
  set (f := advance_script w1 (row_of t) tok (cursor_of (wt_origin x) (wt_seq x)) (FormatUint (dt_epoch t))) in *.
  assert (guarantees cf T w1 f.2) as Hg.
  { split; [by apply advance_good| |].
    - intros k tok'. unfold f. destruct (advance_cases w1 (row_of t) tok (cursor_of (wt_origin x) (wt_seq x)) (FormatUint (dt_epoch t))); by left.
    - intros k. destruct (advance_cursor w1 (row_of t) tok (cursor_of (wt_origin x) (wt_seq x)) (FormatUint (dt_epoch t)) k) as [?|[-> Hl]];
        [by left|right; by exists tok]. }
  assert (guarantees cf T w1 w2 /\ forall n, r = Ok n -> n <> 0 -> disposable w2 x t) as [Hg2 Hd].
  { destruct Hrun as [Hrw|[[e ->] [->| ->]]]; [|by split; [apply guarantees_refl|]|by split].
    change ((r, w2) = f) in Hrw. assert (r = f.1 /\ w2 = f.2) as [-> ->] by (by rewrite <- Hrw).
    split; [done|]. intros n Hn Hnz _ _. left. by eapply advance_lasting. }
  split_and!; [done|split; [by apply Hg2|set_solver]|]. apply runs_ret; [done|]. intros w3 Hr3 Hres.
  eapply disposable_mono; [by eapply relies_mono|]. destruct r as [n|e]; [|done]. destruct (n =? 0) eqn:Hz; [done|]. zbool. by eapply Hd.
Qed.

(** The lock a task works under: a write has one. *)
Definition locked t (tok : option Z) : Prop := is_write t = true -> exists tok', tok = Some tok' /\ tok' ∈ T.

Lemma runs_advanced w x t tok : in_hand w x t -> locked t tok -> (is_write t = true -> placed w x t /\ persisted w t) ->
  loose w (marked ← advanceApplied tok t x; match marked with Err e => deferFailedTask it x t e | Ok _ => finish it x end) any.
Proof.
  intros Hh Hl Hp. eapply (runs_bind _ _ _ _ _ _ (fun r w' => r = Ok () -> disposable w' x t)).
  - destruct (is_write t) eqn:Hw.
    + destruct (Hl Hw) as (tok' & -> & Htok). destruct (Hp eq_refl). by apply runs_advanceApplied.
    + unfold advanceApplied. rewrite Hw. apply runs_ret; [done|]. intros w' _ _ Hw'. congruence.
  - intros r w1 Hr Hd. pose proof (in_hand_mono _ _ _ _ (relies_mono _ _ _ _ Hr) Hh). destruct r as [[]|e].
    + eapply runs_finish; [done..|]. by apply Hd.
    + by apply runs_deferFailedTask.
Qed.

Lemma runs_settle w x t tok r : in_hand w x t -> locked t tok -> (is_write t = true -> placed w x t) -> op_result t r w ->
  loose w (settle it x t tok r) any.
Proof.
  intros Hh Hl Hpl Hr. destruct r as [o|e].
  - unfold settle. pose proof (fun Hw => Hr o eq_refl Hw) as Hout. unfold outcome_shows in Hout.
    destruct (wo_kind o); try (by apply runs_loosen, runs_quarantine).
    1,2: apply runs_advanced; [done|done|]; intros Hw; split; [by apply Hpl|by apply Hout].
    + eapply runs_finish; [done..|]. intros Hw _. left. by apply Hout.
    + apply runs_loosen. eapply runs_bind; [apply runs_ownerCounterRegressed|]. intros b w1 Hr1 _.
      pose proof (in_hand_mono _ _ _ _ (relies_mono _ _ _ _ Hr1) Hh). destruct b; [by apply runs_quarantine|by apply runs_deferFailedTask].
  - apply runs_loosen. unfold settle. destruct (is_read t && _) eqn:Hrd.
    + apply runs_failRead; [done|]. unfold is_read, is_write, DB_OP_READ, DB_OP_WRITE in *. apply Z.eqb_neq. zbool. lia.
    + eapply (runs_bind _ _ _ _ _ _ any); [destruct tok; [|by apply runs_ret]; rewrite call_bind; quiet as ?; by apply runs_ret|].
      intros lost w1 Hr1 _. apply runs_deferFailedTask; [done|]. eapply in_hand_mono; [by eapply relies_mono|done].
Qed.

Lemma runs_execute w x t tok : in_hand w x t -> locked t tok -> (is_write t = true -> placed w x t) ->
  loose w (execute it x t tok) any.
Proof.
  intros Hh Hl Hpl. unfold execute. eapply (runs_bind_held _ _ T); [done|by apply runs_routeTask|]. intros route w1 Hr1 _.
  pose proof (in_hand_mono _ _ _ _ (relies_mono _ _ _ _ Hr1) Hh) as Hh1.
  assert (is_write t = true -> placed w1 x t) as Hpl1 by (intros Hw; by eapply placed_relies, Hpl).
  destruct route as [route|]; [|by apply runs_ret].
  eapply (runs_bind_held _ _ T _ _ _ _ any); [done|destruct (_ && _); [rewrite call_bind; quiet as ?; by apply runs_ret|by apply runs_ret]|].
  intros revoked w2 Hr2 _. pose proof (in_hand_mono _ _ _ _ (relies_mono _ _ _ _ Hr2) Hh1) as Hh2.
  assert (is_write t = true -> placed w2 x t) as Hpl2 by (intros Hw; by eapply placed_relies, Hpl1).
  destruct revoked; [by apply runs_move|].
  eapply (runs_bind_held _ _ T); [done|by eapply runs_processDBTask|]. intros r w3 Hr3 Hres.
  apply runs_settle; [by eapply in_hand_mono; [eapply relies_mono|]|done| |done]. intros Hw. by eapply placed_relies, Hpl2.
Qed.

(** A stale cursor stops a write for good, unless the override is on. *)
Lemma runs_guarded w x t tok : cf_override cf = false -> INV cf w -> in_hand w x t -> locked t tok -> loose w (guarded it x t tok) any.
Proof.
  intros Hov Hinv Hh Hl. unfold guarded. cbv zeta.
  eapply (runs_bind_held _ _ T); [done|by apply runs_orderingForTask|]. intros d w1 Hr1 Hd.
  pose proof (in_hand_mono _ _ _ _ (relies_mono _ _ _ _ Hr1) Hh) as Hh1.
  destruct d as [[]|e]; [| |by apply runs_quarantine|by apply runs_deferFailedTask].
  - eapply (runs_bind_held _ _ T _ _ _ _ any); [done|destruct (is_write t); [by apply runs_guardOwnerEpoch|by apply runs_ret]|].
    intros may w2 Hr2 _. destruct may; [|by apply runs_ret].
    apply runs_execute; [by eapply in_hand_mono; [eapply relies_mono|]|done|]. intros Hw. eapply placed_relies; [done|by apply Hd].
  - assert (epochOverride it t = Ret (Ok false)) as ->.
    { unfold epochOverride. rewrite Hov. by rewrite andb_false_r. }
    eapply (runs_bind _ _ _ _ _ _ (fun o _ => o = Ok false)); [by apply runs_ret|]. intros o w2 Hr2 ->.
    eapply runs_finish; [done|by eapply in_hand_mono; [eapply relies_mono|]|by eapply disposable_mono; [eapply relies_mono|]].
Qed.
End safe.
