(* ===== verification/DbSystem.v ===== *)
(** * All workers of all instances

    A batch keeps its promises ([works_processTaskBatch]), and so, by the soundness of
    rely and guarantee in [DbProg], does any number of workers side by side. *)

From stdpp Require Import base list gmap strings sorting relations.
From Stdlib Require Import ZArith Lia.
From S2P Require Import Prelude DbTask DbAcker DbProg DbWorld DbHandle DbCoalesce DbSys DbStep DbEnv DbEnds DbSafe.
Local Open Scope Z_scope.

Lemma NoDup_omap_lookup {A B} (f : A -> option B) (l : list A) i j x y z : NoDup (omap f l) ->
  l !! i = Some x -> l !! j = Some y -> f x = Some z -> f y = Some z -> i = j.
Proof.
  revert i j. induction l as [|a l IH]; intros i j Hn; [done|].
  destruct i as [|i], j as [|j]; cbn; intros Hi Hj Hx Hy; simplify_eq; [done| | |].
  - cbn in Hn. rewrite Hx in Hn. apply NoDup_cons in Hn as [Hz _]. destruct Hz. apply list_elem_of_omap.
    exists y. split; [by eapply list_elem_of_lookup_2|done].
  - cbn in Hn. rewrite Hy in Hn. apply NoDup_cons in Hn as [Hz _]. destruct Hz. apply list_elem_of_omap.
    exists x. split; [by eapply list_elem_of_lookup_2|done].
  - f_equal. apply IH; [|done..]. cbn in Hn. destruct (f a); [by apply NoDup_cons in Hn as [_ ?]|done].
Qed.

Lemma sublist_NoDup_omap {A} (l1 l2 : list (option A)) : sublist l1 l2 -> NoDup (omap id l2) -> NoDup (omap id l1).
Proof.
  induction 1 as [|a l1 l2 Hs IH|a l1 l2 Hs IH]; [done| |].
  - destruct a as [a|]; cbn; [|done]. intros [Ha Hn]%NoDup_cons. constructor; [|by apply IH]. intros Hin. apply Ha.
    apply list_elem_of_omap in Hin as (o & Ho & Hid). apply list_elem_of_omap. exists o. split; [|done].
    eapply elem_of_submseteq; [exact Ho|by apply sublist_submseteq].
  - destruct a as [a|]; cbn; [|done]. intros [Ha Hn]%NoDup_cons. by apply IH.
Qed.

Section system.
#[local] Set Default Proof Using "Type*".
Context `{DbTypes} `{DbCodec} {HL : DbCodecLaws} (it : Instance_) (no_override : cf_override (in_cf it) = false).
Notation cf := (in_cf it).
Implicit Types (w : world) (x : workerTask) (t : DBTask) (T : gset Z).

(** A program that may take and give back locks. *)
Definition works T w (q : prog dbE ()) : Prop :=
  INV cf w -> safe (db_run cf) (rely cf) (guar cf) (acquires cf) T q (fun _ _ w' => good_step cf w w') w.

Lemma works_runs T w q : runs cf T ∅ w q any -> works T w q.
Proof. intros Hq Hinv. eapply safe_mono; [by apply Hq|]. by intros T' [] w' (_ & [? _] & _). Qed.

Lemma works_bind T w (q : prog dbE ()) (f : () -> prog dbE ()) :
  works T w q -> (forall T' w', mono w w' -> works T' w' (f ())) -> works T w (q ≫= f).
Proof.
  intros Hq Hf Hinv. eapply safe_bind; [apply _|apply _|by apply Hq|]. intros T' [] w' [Hinv' Hm].
  eapply safe_mono; [by apply (Hf T' w' Hm Hinv')|]. intros T2 [] w'' Hg. by eapply good_step_trans.
Qed.

(** ** The lock of a row *)
Lemma guarantees_locks T w L n : INV cf w -> w_token w <= n -> (forall k tok, L !! k = Some tok -> tok < n) ->
  (forall k tok, L !! k = Some tok -> w_locks w !! k = Some tok \/ w_token w <= tok) -> guarantees cf T w (set_locks w L n).
Proof. intros Hinv Hn HL' Hk. split; [by apply locks_step|done|by left]. Qed.

Lemma runs_Release T w k tok : runs cf T ∅ w (call (Release k tok)) any.
Proof.
  rewrite call_bind. apply runs_do; [set_solver|]. intros w1 [] w2 Hinv Hr Hrun.
  assert (guarantees cf T w1 w2) as Hg.
  { destruct Hrun as [->|[_ ->]]; [by apply guarantees_refl|]. apply guarantees_locks; [done..| |].
    - intros k' tok' [_ Hl]%lookup_delete_Some. by eapply iv_locks.
    - intros k' tok' [_ Hl]%lookup_delete_Some. by left. }
  split_and!; [done|split; [by apply Hg|set_solver]|]. apply runs_ret; [set_solver|done].
Qed.

Lemma works_TryLock T w k (f : res (option Z) -> prog dbE ()) :
  (forall T' w' ans, mono w w' -> (forall tok, ans = Ok (Some tok) -> tok ∈ T') -> works T' w' (f ans)) ->
  works T w (call (TryLock k) ≫= f).
Proof.
  intros Hf Hinv w1 Hr ans w2 Hrun. destruct (Hr Hinv) as [[Hinv1 Hm1] _].
  assert (w2 = w1 \/ (w_locks w1 !! k = None /\ w2 = set_locks w1 (<[k := w_token w1]> (w_locks w1)) (w_token w1 + 1))) as Hw.
  { destruct (lossy_world _ _ _ _ Hrun) as [->| ->]; [by left|]. destruct (w_locks w1 !! k) eqn:E; [by left|by right]. }
  assert (guarantees cf T w1 w2) as Hg.
  { destruct Hw as [->|[Hn ->]]; [by apply guarantees_refl|]. apply guarantees_locks; [done|lia| |].
    - intros k' tok' [[_ <-]|[_ Hl]]%lookup_insert_Some; [lia|]. pose proof (iv_locks _ _ Hinv1 _ _ Hl). lia.
    - intros k' tok' [[_ <-]|[_ Hl]]%lookup_insert_Some; [right; lia|by left]. }
  pose proof (gu_good _ _ _ _ Hg) as [Hinv2 Hm2].
  assert (forall tok, ans = Ok (Some tok) -> w_token w1 <= tok < w_token w2) as Htok.
  { intros tok ->. destruct Hrun as [Hrun|[[e He] _]]; [|done]. destruct (w_locks w1 !! k); [done|].
    injection Hrun as -> ->. cbn. lia. }
  split; [by intros _|]. exists (match ans with Ok (Some tok) => {[tok]} ∪ T | _ => T end). split.
  - split; [by intros _|]. destruct ans as [[tok|]|e]; [|by left..]. intros tok' [->%elem_of_singleton|?]%elem_of_union; [right; by apply Htok|by left].
  - eapply safe_mono; [apply Hf; [by etrans| |done]|].
    + intros tok ->. set_solver.
    + intros T' [] w3 [? ?]. split; [done|]. by do 2 (etrans; [done|]).
Qed.

(** ** One task *)
Lemma works_handleDecoded T w x t : in_hand w x t -> works T w (handleDecoded it x t).
Proof.
  intros Hh. unfold handleDecoded. destruct (has_handler (dt_op t)) eqn:Hop; cbn [negb].
  - destruct (is_write t) eqn:Hw.
    + apply works_TryLock. intros T' w' r Hm Hr. pose proof (in_hand_mono _ _ _ _ Hm Hh) as Hh'.
      destruct r as [[tok|]|e]; [|by apply works_runs, runs_deferFailedTask..].
      apply works_bind; [|intros T2 w2 _; apply works_runs, runs_Release].
      apply works_runs, runs_inv. intros Hinv'. apply runs_guarded; [done..|]. intros _. exists tok. split; [done|by apply Hr].
    + apply works_runs, runs_inv. intros Hinv. apply runs_guarded; [done..|]. unfold locked. congruence.
  - apply works_runs. destruct (wt_from_retry x) eqn:Hr; [apply runs_quarantine; [set_solver|done]|].
    destruct (ih_source _ _ _ Hh) as [[m Hk]|Hrt]; [|by rewrite (rt_retry _ _ Hrt) in Hr].
    eapply runs_poison; [set_solver|done|]. intros t' Ht'. pose proof (kt_task _ _ _ Hk _ (ih_task _ _ _ Hh)).
    assert (t' = t) as -> by congruence. unfold has_handler in Hop. by apply orb_false_iff in Hop as [_ ?].
Qed.

(** A message that decodes is a task in hand. *)
Lemma kafka_in_hand w x m t : kafka_task w x m -> Unmarshal (km_value m) = Some t -> wt_task x = Some t -> in_hand w x t.
Proof.
  intros Hk Hv Ht. destruct (kt_origin _ _ _ Hk) as (_ & Hp & Hs). split; [|done| |left; by exists m].
  - split; [exists (km_value m), t; by split|by eapply decoded_ranges].
  - intros Hw _. exists t. split; [|done]. exists (km_value m). rewrite Hp, Hs, Z.add_simpl_r. split_and!; [by eapply kt_log|done|done].
Qed.

Lemma kafka_set_task w x m t : kafka_task w x m -> Unmarshal (km_value m) = Some t -> kafka_task w (set_task x t) m.
Proof. intros [] Hv. split; try done. by intros t' [= <-]. Qed.

(** A task that is ready to be handled. *)
Definition ready w x : Prop := (exists t, in_hand w x t) \/ (wt_task x = None /\ exists m, kafka_task w x m).

Lemma ready_mono w w' x : mono w w' -> ready w x -> ready w' x.
Proof.
  intros Hm [[t Hh]|(Hn & m & Hk)]; [left; exists t; by eapply in_hand_mono|right].
  split; [done|]. exists m. by eapply kafka_task_mono.
Qed.

Lemma ready_source w x : ready w x -> (exists m, kafka_task w x m) \/ exists t, retry_task x t.
Proof. intros [[t Hh]|(_ & Hk)]; [|by left]. destruct (ih_source _ _ _ Hh); [by left|right; by exists t]. Qed.

Lemma works_handleTask T w x : ready w x -> works T w (handleTask it x).
Proof.
  intros Hx. unfold handleTask. intros Hinv.
  eapply safe_bind; [apply _|apply _| |].
  - assert (runs cf T ∅ w (if wt_claimed x then call (ClaimDone x) else Ret false) any) as Hc; [|by apply Hc].
    destruct (wt_claimed x); [|by apply runs_ret]. rewrite call_bind.
    apply runs_quiet; [set_solver|by intros ??? ->|]. intros. by apply runs_ret.
  - intros T' revoked w' (-> & [[Hinv' Hm] _] & _). pose proof (ready_mono _ _ _ Hm Hx) as Hx'.
    enough (works T w' (if revoked then if wt_from_retry x then requeueRevokedRetry it x else failKafkaTask x ErrClaimCanceled
      else match wt_task x with
      | Some t => handleDecoded it x t
      | None => match wt_msg x with
        | None => Ret ()
        | Some m => match Unmarshal (km_value m) with
          | None => quarantinePoisonTask it x
          | Some t => handleDecoded it (set_task x t) t end end end)) as Hw.
    { eapply safe_mono; [by apply Hw|]. intros T2 [] w2 Hg. eapply good_step_trans; [|done]. by split. }
    clear w Hinv Hx Hm. destruct revoked.
    + apply works_runs. destruct (wt_from_retry x); [by apply runs_move|by apply runs_failKafkaTask].
    + destruct Hx' as [[t Hh]|(Hn & m & Hk)].
      * rewrite (ih_task _ _ _ Hh). by apply works_handleDecoded.
      * rewrite Hn, (kt_msg _ _ _ Hk). destruct (Unmarshal (km_value m)) as [t|] eqn:Hv.
        -- apply works_handleDecoded. eapply kafka_in_hand; [by eapply kafka_set_task|done|done].
        -- apply works_runs. eapply runs_poison; [set_solver|done|]. congruence.
Qed.

Lemma incoming_ready w x : INV cf w -> incoming w x -> ready w x.
Proof.
  intros Hinv [[m Hk]|(t & l & Hr & Hl)].
  - destruct (wt_task x) as [t|] eqn:Ht; [left; exists t|right; by eauto].
    eapply kafka_in_hand; [done|by eapply kt_task|done].
  - left. exists t. split; [|by eapply rt_task| |by right].
    + destruct (rt_receipt _ _ Hr) as (b & t' & _ & Hb & Hs). split; [by exists b, t'|by eapply rt_count].
    + intros Hw Ho. destruct (iv_lists _ _ Hinv _ _ _ _ _ Hl (holds_receipt _ _ Hr Ho Hw t ltac:(done))) as (t' & ? & ?).
      exists t'. split; [done|]. by symmetry.
Qed.

(** ** A batch *)

(** Where a task has its place, if it is known. *)
Definition place x : option (Z * Z) := if wt_has_origin x then Some (wt_origin x, wt_seq x) else None.

Lemma runs_parse_batch T w batch : (forall x, x ∈ batch -> ready w x) ->
  runs cf T ∅ w (parse_batch it batch) (fun ps w' =>
    Forall (fun q => in_hand w' q.1 q.2) ps /\ sublist (place <$> ps.*1) (place <$> batch)).
Proof.
  assert (∅ ⊆ T) as HT by set_solver. revert w. induction batch as [|x batch IH]; intros w Hb; [by apply runs_ret|].
  assert (forall w' q x', mono w w' -> in_hand w x' q -> place x' = place x ->
    runs cf T ∅ w' (ps ← parse_batch it batch; Ret ((x', q) :: ps)) (fun ps w2 =>
    Forall (fun q => in_hand w2 q.1 q.2) ps /\ sublist (place <$> ps.*1) (place <$> x :: batch))) as Hcons.
  { intros w' q x' Hm Hh Hpl. eapply runs_bind; [apply IH; intros y Hy; eapply ready_mono; [exact Hm|by apply Hb; right]|].
    intros ps w1 Hr [Hps Hsub]. apply runs_ret; [done|]. intros w2 Hr2. split.
    - constructor; [|eapply Forall_impl; [exact Hps|]; intros z Hz; by eapply in_hand_mono; [eapply relies_mono|]].
      eapply in_hand_mono; [|exact Hh]. etrans; [exact Hm|]. etrans; by eapply relies_mono.
    - cbn. rewrite Hpl. by constructor. }
  cbn [parse_batch]. destruct (Hb x) as [[t Hh]|(Hn & m & Hk)]; [left| |].
  - rewrite (ih_task _ _ _ Hh). by apply Hcons.
  - rewrite Hn, (kt_msg _ _ _ Hk). destruct (Unmarshal (km_value m)) as [t|] eqn:Hv.
    + apply Hcons; [done| |done]. eapply kafka_in_hand; [by eapply kafka_set_task|done|done].
    + eapply runs_bind; [eapply runs_poison; [done|done|congruence]|]. intros _ w1 Hr _.
      eapply runs_weaken; [apply IH; intros y Hy; eapply ready_mono; [by eapply relies_mono|by apply Hb; right]|done|].
      intros ps w2 _ [Hps Hsub]. split; [done|]. by constructor.
Qed.

Lemma distinct_NoDup batch : distinct batch -> NoDup (omap id (place <$> batch)).
Proof.
  intros Hd. induction batch as [|x batch IH]; [constructor|].
  assert (distinct batch) as Hd'.
  { intros i j a b Ha Hb Hij. apply (Hd (S i) (S j)); [done|done|congruence]. }
  cbn. unfold place at 1. destruct (wt_has_origin x) eqn:Ho; cbn; [|by apply IH].
  constructor; [|by apply IH]. intros (o & Ho' & Hin)%list_elem_of_omap. apply list_elem_of_fmap in Ho' as (y & -> & Hy).
  apply list_elem_of_lookup_1 in Hy as [j Hj]. unfold place in Hin. destruct (wt_has_origin y) eqn:Hoy; [|done]. cbn in Hin.
  apply (Hd 0%nat (S j) x y); [done|done|done|done|done|]. congruence.
Qed.

(** What [newer] compares comes later in the partition. *)
Lemma newer_later w p b : INV cf w -> in_hand w p.1 p.2 -> in_hand w b.1 b.2 -> newer cf p b -> wt_seq p.1 <= wt_seq b.1.
Proof.
  intros Hinv Hp Hb [(Hrow & Horg & (Hwp & Hop & _) & (Hwb & Hob & _)) [?|(Hd & He & Hez & Hsp & Hsb & Hs)]]; [done|].
  destruct (decide (wt_seq p.1 <= wt_seq b.1)) as [|Hn]; [done|exfalso].
  destruct (ih_genuine _ _ _ Hp Hwp Hop) as (tp & Hmp & Hsame). destruct (ih_genuine _ _ _ Hb Hwb Hob) as (tb & Hmb & Hsameb).
  destruct (same_write_fields _ _ Hsame) as (_ & _ & _ & _ & Hep & Hvp). destruct (same_write_fields _ _ Hsameb) as (_ & _ & _ & _ & Heb & Hvb).
  destruct (iv_ascend _ _ Hinv) as [|Ha]; [congruence|]. rewrite Horg in Hmp.
  assert (dt_save tb < dt_save tp); [|lia]. apply (Ha _ _ _ _ _ Hmb Hmp); [|congruence..|lia].
  by rewrite (same_write_row _ _ Hsame), (same_write_row _ _ Hsameb).
Qed.

Lemma covers_later w l p b : INV cf w -> (forall q, q ∈ l -> in_hand w q.1 q.2) -> covers cf l p b ->
  wt_seq p.1 <= wt_seq b.1 /\ comparable p b.
Proof.
  intros Hinv Hl Hc. induction Hc as [p b (Hn & Hp & Hb)|p q b (Hn & Hp & Hq) _ [IH Hcmp]].
  - split; [apply (newer_later w); auto|apply Hn].
  - pose proof (newer_later w p q Hinv (Hl _ Hp) (Hl _ Hq) Hn). split; [lia|].
    destruct Hn as [(Hr & Ho & Hwp & _) _]. destruct Hcmp as (Hr' & Ho' & _ & Hwb). split; [by etrans|]. split; [by etrans|done].
Qed.

(** What a batch leaves out may be given up. *)
Lemma coalesce_disposable w parsed i p : INV cf w -> (forall q, q ∈ parsed -> in_hand w q.1 q.2) ->
  NoDup (omap id (place <$> parsed.*1)) -> i ∈ coalesce cf parsed -> parsed !! i = Some p -> disposable w p.1 p.2.
Proof.
  intros Hinv Hl Hnd Hi Hp _ _. destruct (coalesce_covered cf parsed i Hi) as (p' & j & b & Hp' & Hb & Hj & Hc & _). simplify_eq.
  destruct (covers_later w parsed p b Hinv Hl Hc) as [Hle (Hrow & Horg & (Hwp & Hop & _) & (Hwb & Hob & _))]. right.
  pose proof (Hl b ltac:(by eapply list_elem_of_lookup_2)) as Hhb.
  destruct (ih_genuine _ _ _ Hhb Hwb Hob) as (t' & Hm & Hs). exists (wt_seq b.1), t'. split_and!.
  - destruct (decide (wt_seq p.1 = wt_seq b.1)) as [Heq|]; [|lia]. exfalso. assert (i = j) as ->; [|done].
    rewrite <- list_fmap_compose in Hnd. change (omap id (?g <$> ?l)) with (omap id (g <$> l)) in Hnd.
    eapply (NoDup_omap_lookup id (place <$> parsed.*1) i j _ _ (wt_origin p.1, wt_seq p.1));
      [by rewrite <- list_fmap_compose|by rewrite !list_lookup_fmap, Hp|by rewrite !list_lookup_fmap, Hb|..]; cbn; unfold place.
    + by rewrite Hop.
    + by rewrite Hob, Horg, Heq.
  - by rewrite Horg.
  - by rewrite (same_write_row _ _ Hs).
Qed.

Lemma works_execute_batch T w n sup parsed :
  (forall i p, parsed !! i = Some p -> in_hand w p.1 p.2 /\ ((n + i)%nat ∈ sup -> disposable w p.1 p.2)) ->
  works T w (execute_batch it n sup parsed).
Proof.
  revert T w n. induction parsed as [|[x t] parsed IH]; intros T w n Hl; [by apply works_runs, runs_ret; [set_solver|]|].
  cbn [execute_batch]. destruct (Hl 0%nat (x, t) eq_refl) as [Hh Hd]. rewrite Nat.add_0_r in Hd. apply works_bind.
  - case_bool_decide as Hsup; [|apply works_handleTask; left; by exists t].
    apply works_runs. eapply runs_finish; [set_solver|done|by apply Hd].
  - intros T' w' Hm. apply IH. intros i p Hp. destruct (Hl (S i) p Hp) as [Hhp Hdp]. split; [by eapply in_hand_mono|].
    intros Hsup. eapply disposable_mono; [done|]. apply Hdp. by replace (n + S i)%nat with (S n + i)%nat by lia.
Qed.

Lemma works_processTaskBatch T w batch : (forall x, x ∈ batch -> incoming w x) -> distinct batch ->
  works T w (processTaskBatch it batch).
Proof.
  intros Hin Hd Hinv. assert (forall x, x ∈ batch -> ready w x) as Hready by (intros x Hx; by apply incoming_ready, Hin).
  assert (works T w (parsed ← parse_batch it batch; execute_batch it 0 (coalesce cf parsed) parsed)) as Hmany.
  { clear Hinv. intros Hinv. eapply safe_bind; [apply _|apply _|by apply runs_parse_batch|].
    intros T' ps w' (-> & [[Hinv' Hm] _] & Hps & Hsub). rewrite Forall_forall in Hps.
    eapply safe_mono; [eapply works_execute_batch; [|done]|].
    - intros i p Hp. split; [apply Hps; by eapply list_elem_of_lookup_2|]. intros Hi.
      eapply coalesce_disposable; [done|done| |exact Hi|done]. eapply sublist_NoDup_omap; [done|by apply distinct_NoDup].
    - intros T2 [] w2 Hg. eapply good_step_trans; [|done]. by split. }
  destruct batch as [|x [|y batch]]; [by apply Hmany| |by apply Hmany].
  cbn. apply works_handleTask; [|done]. apply Hready. by left.
Qed.
End system.

(** ** The system *)
Section all.
#[local] Set Default Proof Using "Type*".
Context `{DbTypes} `{DbCodec} {HL : DbCodecLaws} (cf : DbConfig) (no_override : cf_override cf = false).

Notation db_step := (sys_step (db_run cf) (db_env cf) (db_starts cf)).

Lemma start_safe w prg w' : INV cf w -> db_starts cf w prg w' -> exists T,
  safe (db_run cf) (rely cf) (guar cf) (acquires cf) T prg (fun _ _ _ => True) w' /\ owned cf T w' /\
  forall T2, owned cf T2 w -> T ## T2 /\ rely cf T2 w w'.
Proof.
  intros Hinv (-> & it & batch & Hcf & -> & Hin & Hd). exists ∅. rewrite <- Hcf in *. split_and!.
  - eapply safe_mono; [by apply works_processTaskBatch|done].
  - split; [done|set_solver].
  - intros T2 _. split; [set_solver|reflexivity].
Qed.

Lemma db_step_ok s s' : sys_ok (db_run cf) (rely cf) (guar cf) (acquires cf) (owned cf) (##) (INV cf) s -> db_step s s' ->
  sys_ok (db_run cf) (rely cf) (guar cf) (acquires cf) (owned cf) (##) (INV cf) s'.
Proof.
  apply sys_step_ok.
  - intros T. apply rely_refl.
  - intros T. apply rely_trans.
  - apply owned_rely.
  - apply owned_acquires.
  - intros T1 T2 Hd. by symmetry.
  - intros T w T' w' T2. apply disj_acquires.
  - apply guar_rely.
  - apply env_rely.
  - apply start_safe.
  - intros w w' Hinv He. by apply (db_env_good cf w w').
  - by intros w p w' Hinv [-> _].
  - intros T w w' Hinv Hg. by apply (Hg Hinv).
Qed.

(** Nothing has happened yet; the tables may hold rows. *)
Definition fresh_world (tables : gmap (Z * string) (gmap Z Msg)) : world :=
  mkWorld ∅ ∅ ∅ 1 ∅ ∅ ∅ [] tables [] [].

Definition db_reaches (tables : gmap (Z * string) (gmap Z Msg)) : list (prog dbE ()) * world -> Prop :=
  rtc db_step ([], fresh_world tables).

Lemma fresh_ok tables : INV cf (fresh_world tables).
Proof.
  split; try done.
  - right. intros p s t s' t' (v & Hv & _). cbn in Hv. by rewrite lookup_empty in Hv.
  - intros p. split; [done|]. exists Spec.init. split_and!; [apply refines_init|constructor|constructor|].
    intros o v Hv. cbn in Hv. by rewrite lookup_empty in Hv.
  - intros p s t (v & Hv & _). cbn in Hv. by rewrite lookup_empty in Hv.
  - intros l v p s t Hv. unfold list_of in Hv. cbn in Hv. rewrite lookup_empty in Hv. by apply elem_of_nil in Hv.
Qed.

Lemma reaches_ok tables s : db_reaches tables s ->
  sys_ok (db_run cf) (rely cf) (guar cf) (acquires cf) (owned cf) (##) (INV cf) s.
Proof.
  intros Hr. eapply (rtc_keeps _ (sys_ok (db_run cf) (rely cf) (guar cf) (acquires cf) (owned cf) (##) (INV cf)));
    [|exact Hr|]; [intros; by eapply db_step_ok|].
  split; [apply fresh_ok|]. exists []. split_and!; [done|constructor|by intros []].
Qed.

Lemma reaches_INV tables s : db_reaches tables s -> INV cf s.2.
Proof. intros Hr. by apply (so_world _ _ _ _ _ _ _ _ (reaches_ok _ _ Hr)). Qed.

Lemma db_step_mono s s' : sys_ok (db_run cf) (rely cf) (guar cf) (acquires cf) (owned cf) (##) (INV cf) s -> db_step s s' -> mono s.2 s'.2.
Proof.
  intros Hok Hstep. pose proof (so_world _ _ _ _ _ _ _ _ Hok) as Hinv.
  destruct (sys_step_world _ _ _ _ (fun T => rely_refl cf T) _ _ _ _ _ _ _ Hok Hstep) as [He|[[p [-> _]]|[T Hg]]].
  - by apply (db_env_good cf).
  - done.
  - by apply (Hg Hinv).
Qed.
End all.
