(* ===== verification/DbProps.v ===== *)
(** * What the ordered consumer promises, and a run of one write

    A codec and a table that satisfy what is assumed of protobuf and of the stored
    types, and the run of one write from the log to its acknowledgement: it shows that
    the theorems below are about something. *)
From stdpp Require Import base list gmap strings countable relations sorting.
From Stdlib Require Import ZArith Lia Ascii.
From S2P Require Import Prelude DbTask DbAcker DbProg DbWorld DbHandle DbCoalesce DbSys DbEnv DbSystem DbStep DbEnds DbSafe.
Local Open Scope Z_scope.

Module Demo.

(** Tasks as bits. *)
Definition task_tuple (t : DBTask) :=
  (dt_key t, dt_where t, dt_op t, dt_type t, dt_body t, dt_id t, dt_retry t, dt_epoch t, dt_save t, dt_reply t).

Definition task_of_tuple (x : Z * string * Z * string * string * string * Z * Z * Z * string) : DBTask :=
  let '(k, wh, op, ty, b, i, r, e, s, rep) := x in mkDBTask k wh op ty b i r e s rep.

#[global] Instance DBTask_countable : Countable DBTask.
Proof. apply (inj_countable' task_tuple task_of_tuple). by intros []. Defined.

Fixpoint bits (p : positive) : string :=
  match p with xH => EmptyString | xO p => String "0" (bits p) | xI p => String "1" (bits p) end.

Fixpoint unbits (s : string) : positive :=
  match s with EmptyString => xH | String a s => if Ascii.eqb a "0" then xO (unbits s) else xI (unbits s) end.

Lemma unbits_bits p : unbits (bits p) = p.
Proof. induction p as [p IH|p IH|]; cbn; [by rewrite IH..|done]. Qed.

Definition in_widths (t : DBTask) : bool :=
  (0 <=? dt_epoch t) && (dt_epoch t <? u64_mod) && (0 <=? dt_save t) && (dt_save t <? u64_mod) &&
  (- 2147483648 <=? dt_retry t) && (dt_retry t <? 2147483648).

#[global] Instance codec : DbCodec := {|
  Marshal t := String "T" (bits (encode t));
  Unmarshal v := match v with
    | String a s => if Ascii.eqb a "T" then t ← decode (unbits s); if in_widths t then Some t else None else None
    | EmptyString => None end;
  PoisonJSON m := km_value m;
  KindOf _ := false |}.

#[global] Instance codec_laws : DbCodecLaws.
Proof.
  assert (forall v t, Unmarshal v = Some t -> in_widths t = true) as Hw.
  { intros [|a s] t; cbn; [done|]. destruct (Ascii.eqb a "T"); [|done]. destruct (decode _) as [t'|]; cbn; [|done].
    destruct (in_widths t') eqn:E; [|done]. by intros [= <-]. }
  split.
  - intros v t n Hv Hn. specialize (Hw _ _ Hv). cbn. rewrite unbits_bits, decode_encode. cbn.
    assert (in_widths (set_retry t n) = true) as ->; [|done]. unfold in_widths in *. destruct t. cbn in *.
    unfold is_i32 in Hn. zbool. repeat (apply andb_true_iff; split); zlia.
  - intros v t Hv. specialize (Hw _ _ Hv). unfold in_widths in Hw. unfold is_u64, is_i32. zbool. lia.
  - intros t. unfold Marshal, codec, unwrapRetryPayload.
    change (Ascii.eqb "T" retryPayloadMagicV2) with false. change (Ascii.eqb "T" retryPayloadMagic) with false.
    by rewrite !andb_false_r.
Qed.

(** One versioned table, whose rows are the bodies. *)
#[global] Instance types : DbTypes := {|
  ty_known _ := true; ty_fence _ := true; ty_gen _ := true; ty_player _ := true; ty_ledger _ := false;
  ty_decode _ b := Some (mkMsgRow 7 0 0 1 b);
  ty_encode _ m := ms_data m;
  ty_too_large _ _ := false;
  ty_evidence _ _ := "" |}.

Definition cf : DbConfig := mkDbConfig true false true 1 1 false 3 8 false true.
Definition it : Instance_ := mkInstance cf "db" "kafka:retry:processing:db:1".
Definition write : DBTask := mkDBTask 7 "" DB_OP_WRITE "player_bag" "two swords" "" 0 5 1 "".
Definition value : string := Eval vm_compute in Marshal write.
Definition msg : KafkaMsg := mkMsg 0 0 value.
Definition task : workerTask := mkTask (Some msg) (Some write) 1 0 true false "" false 1.

Notation db_step := (sys_step (db_run cf) (db_env cf) (db_starts cf)).

Definition w0 : world := fresh_world ∅.
Definition w1 : world := set_log w0 (<[(0, 0) := value]> ∅).
Definition w2 : world := set_claim w1 0 (mkClaim 1 0 0 newClaimAcker).
Definition w3 : world := with_acker w2 0 1 (track newClaimAcker 0).

Lemma delivered : rtc db_step ([], w0) ([], w3).
Proof.
  eapply rtc_l; [eapply sys_env, (en_produce cf w0 0 0 value)|].
  - intros o v Hv. cbn in Hv. by rewrite lookup_empty in Hv.
  - done.
  - done.
  - right. intros p s t s' t' (v & Hv & _) (v' & Hv' & _) _ _ _ _ _ Hlt. cbn in Hv, Hv'.
    apply lookup_insert_Some in Hv as [[[= _ Hs] _]|[_ Hv]]; [|by rewrite lookup_empty in Hv].
    apply lookup_insert_Some in Hv' as [[[= _ Hs'] _]|[_ Hv']]; [|by rewrite lookup_empty in Hv']. lia.
  - eapply rtc_l; [eapply sys_env, (en_claim cf w1 0 1 0); [done|by left]|].
    eapply rtc_l; [eapply sys_env, (en_deliver cf w2 0 0 value)|done]; [done|done|].
    intros o v _. change (cl_next (claim_of w2 0)) with 0. lia.
Qed.

Lemma taken : rtc db_step ([], w3) ([processTaskBatch it [task]], w3).
Proof.
  eapply rtc_l; [|done]. apply sys_start. split; [done|]. exists it, [task]. split_and!; [done|done| |].
  - intros x ->%list_elem_of_singleton. left. exists msg. by split; [done..|intros t [= <-]].
  - intros i j x y Hx Hy Hij. destruct i, j; cbn in Hx, Hy; simplify_eq.
Qed.

(** One call of the only worker. *)
Lemma called {X} (e : dbE X) k ans w w' s : db_run cf X e w ans w' -> rtc db_step ([k ans], w') s -> rtc db_step ([Do e k], w) s.
Proof. intros Hr Hs. eapply rtc_l; [|exact Hs]. by apply (sys_call _ _ _ [] []). Qed.

Definition key : rowkey := (7, "player_bag"%string).
Definition home : placementSnapshot := mkSnapshot None None.
Definition stored : Msg := mkMsgRow 7 5 1 1 "two swords".
Definition w4 : world := set_locks w3 (<[key := 1]> ∅) 2.
Definition w5 : world := (exec_stmt cf (SInsert 1 write stored) w4).2.
Definition w6 : world := (advance_script w5 key 1 (cursor_of 0 1) "5").2.
Definition w7 : world := on_acker w6 0 1 (fun a => ack a 0).
Definition w8 : world := set_locks w7 (delete key (w_locks w7)) 2.

Ltac answer e a w' :=
  match goal with |- rtc _ ([?p], _) _ =>
    let p' := eval hnf in p in change p with p'; eapply (called e _ a _ w'); [first [reflexivity|left; reflexivity|split; [reflexivity|left; reflexivity]|left; left; reflexivity]|]
  end.

(** Locked, compared, stored, published, advanced, acknowledged, released. *)
Lemma executed : rtc db_step ([processTaskBatch it [task]], w3) ([Ret ()], w8).
Proof.
  answer (TryLock key) (Ok (Some 1) : res (option Z)) w4.
  answer (GetCursor key) (Ok None : res (option string)) w4.
  answer (GetEpoch key) (Ok None : res (option string)) w4.
  answer (PlacementLookup 7) (Ok home) w4.
  answer (OpenStore 1) (Ok ()) w4.
  answer (LeaseLost 1) false w4.
  answer (SqlExists 1 write) (Ok false) w4.
  answer (SqlExec (SInsert 1 write stored)) (Ok (mkOutcome writeApplied 0, None) : res (writeOutcome * option Msg)) w5.
  answer SqlCanceled false w5.
  answer (PlacementLookup 7) (Ok home) w5.
  answer (PublishCache key 1 write stored) (Ok Published) w5.
  answer (AdvanceApplied key 1 (cursor_of 0 1) "5") (Ok 1) w6.
  answer (AckMsg 1 msg) tt w7.
  match goal with |- rtc _ ([?p], _) _ => let p' := eval hnf in p in change p with p' end.
  eapply (called (Release key 1) _ () _ w8); [right; split; reflexivity|]. reflexivity.
Qed.

Lemma write_run : db_reaches cf ∅ ([Ret ()], w8).
Proof. unfold db_reaches. etrans; [apply delivered|]. etrans; [apply taken|apply executed]. Qed.
End Demo.

(** * The theorems

    The theorems about [go/db]'s consumer of the write stream, each with a concrete
    input or run to which it applies. *)

(** ** All workers together *)

(** C2: a write whose message will not be delivered again is never without a trace.
    With the epoch override of the ordering check off, whatever the workers of all
    instances do, and whenever locks expire, calls fail, answers get lost,
    partitions move or statements commit late: once the offset of a decodable write is
    settled, its partition has a write of the same row, this one or
    a later one, that has left evidence - the row's cursor at or behind which the
    database has the row, a newer owner, a newer version, or a payload in a retry or
    dead-letter list - or a later one that is still to be delivered. And where the cursor
    of the row stands in the partition there is a write of the row that the database has
    committed or, in a versioned table, has a row at least as new as. *)
Theorem committed_write_kept `{DbTypes} `{DbCodec} `{!DbCodecLaws} cf tables ts w p s t :
  cf_override cf = false -> db_reaches cf tables (ts, w) ->
  msg_at w p s t -> settled w p (s - 1) ->
  covered w p s (row_of t) /\
  forall c, cursor_at w (row_of t) p c -> exists t', msg_at w p c t' /\ row_of t' = row_of t /\ persisted w t'.
Proof.
  intros Hov Hr Hm Hs. pose proof (reaches_INV cf Hov _ _ Hr) as Hinv. split; [by apply (iv_settled _ _ Hinv)|].
  intros c Hc. destruct (iv_cursor _ _ Hinv _ _ (proj1 Hc)) as (q & c' & t' & Hraw & Hrange & Hm' & Hrow & Hp).
  destruct (cursor_at_unique w (row_of t) p c q c') as [-> ->]; [done|split; [by rewrite <- Hraw; apply Hc|done]|]. by exists t'.
Qed.

Lemma committed_write_kept_witness :
  db_reaches Demo.cf ∅ ([Ret ()], Demo.w8) /\ msg_at Demo.w8 0 1 Demo.write /\ settled Demo.w8 0 0 /\
  covered Demo.w8 0 1 Demo.key.
Proof.
  assert (msg_at Demo.w8 0 1 Demo.write) as Hm.
  { exists Demo.value. by split_and!; vm_compute. }
  assert (settled Demo.w8 0 0) as Hs by (right; left; vm_compute; left).
  split_and!; [exact Demo.write_run|exact Hm|exact Hs|].
  exact (proj1 (committed_write_kept Demo.cf ∅ [Ret ()] Demo.w8 0 1 Demo.write eq_refl Demo.write_run Hm Hs)).
Defined.

(** C12: no row goes back. From any reachable state on, whatever happens: the cursor of a
    row stays in its partition and only advances, the stored owner epoch only grows, and
    the version of a row of a versioned table never decreases - not even when a
    statement whose lock is long gone commits - as long as the epoch override of the
    ordering check is off. *)
Theorem rows_only_forward `{DbTypes} `{DbCodec} `{!DbCodecLaws} cf tables s s' :
  cf_override cf = false -> db_reaches cf tables s ->
  rtc (sys_step (db_run cf) (db_env cf) (db_starts cf)) s s' -> forward s.2 s'.2.
Proof.
  intros Hov Hr Hs. pose proof (reaches_ok cf Hov _ _ Hr) as Hok. clear Hr. induction Hs as [s|s1 s2 s3 Hstep Hs IH]; [done|].
  pose proof (db_step_mono cf Hov _ _ Hok Hstep) as Hm. etrans; [by apply Hm|]. apply IH. by eapply db_step_ok.
Qed.

Lemma rows_only_forward_witness :
  db_reaches Demo.cf ∅ ([processTaskBatch Demo.it [Demo.task]], Demo.w3) /\ forward Demo.w3 Demo.w8 /\
  cursor_at Demo.w8 Demo.key 0 1.
Proof.
  assert (db_reaches Demo.cf ∅ ([processTaskBatch Demo.it [Demo.task]], Demo.w3)) as Hr.
  { unfold db_reaches. etrans; [apply Demo.delivered|apply Demo.taken]. }
  split_and!; [exact Hr| |split; [vm_compute; reflexivity|split; split; done]].
  exact (rows_only_forward Demo.cf ∅ ([processTaskBatch Demo.it [Demo.task]], Demo.w3) ([Ret ()], Demo.w8) eq_refl Hr Demo.executed).
Defined.

(** ** One batch *)

(** C11: every task of a batch ends exactly once, whatever is answered: a message is
    acknowledged or failed, a claimed receipt acknowledged or moved, on every path
    through poison, coalescing, guards, routing, SQL and publication. The tasks of the
    batch come with the message of a claim or with the receipt of a claimed retry. *)
Theorem batch_ends_every_task `{DbTypes} `{DbCodec} it batch : Forall whole batch ->
  every (processTaskBatch it batch) (fun _ l => l ≡ₚ batch ≫= end_of).
Proof. apply ends_processTaskBatch. Qed.

Lemma batch_ends_every_task_witness :
  whole Demo.task /\ every (processTaskBatch Demo.it [Demo.task]) (fun _ l => l ≡ₚ [EMsg 1 Demo.msg]).
Proof. split; [reflexivity|]. apply (batch_ends_every_task Demo.it [Demo.task]). by repeat constructor. Defined.

(** What a batch leaves out has a newer write of its row that stays in: from the same
    partition, later in it or a version of the same owner that is at least as new - the
    relation is followed through tasks of the batch - and no read of the row stands
    between the two. *)
Theorem left_out_is_superseded `{DbTypes} cf parsed i : i ∈ coalesce cf parsed ->
  exists p j b, parsed !! i = Some p /\ parsed !! j = Some b /\ j ∉ coalesce cf parsed /\ covers cf parsed p b /\
    no_read_between parsed (row_of p.2) (i `min` j) (i `max` j).
Proof. apply coalesce_covered. Qed.

Definition second_save : DBTask := mkDBTask 7 "" DB_OP_WRITE "player_bag" "three swords" "" 0 5 2 "".
Definition two_saves : list parsedTask :=
  [(Demo.task, Demo.write); (mkTask (Some (mkMsg 0 1 "")) (Some second_save) 2 0 true false "" false 1, second_save)].

Lemma left_out_is_superseded_witness :
  0%nat ∈ coalesce Demo.cf two_saves /\ exists j b, two_saves !! j = Some b /\ j ∉ coalesce Demo.cf two_saves /\
    covers Demo.cf two_saves (Demo.task, Demo.write) b.
Proof.
  assert (0%nat ∈ coalesce Demo.cf two_saves) as Hi by (apply (bool_decide_unpack (0%nat ∈ coalesce Demo.cf two_saves)); vm_compute; exact I).
  split; [exact Hi|]. destruct (left_out_is_superseded Demo.cf two_saves 0 Hi) as (p & j & b & Hp & Hb & Hj & Hc & _).
  injection Hp as <-. exists j, b. split_and!; assumption.
Defined.

(** A write without an epoch stands for a versioned one before it, although the row, once
    it has a version, refuses it for good: then neither of the two is stored. *)
Definition unversioned : DBTask := mkDBTask 7 "" DB_OP_WRITE "player_bag" "no swords" "" 0 0 0 "".
Definition save_then_unversioned : list parsedTask :=
  [(Demo.task, Demo.write); (mkTask (Some (mkMsg 0 1 "")) (Some unversioned) 2 0 true false "" false 1, unversioned)].

Example unversioned_supersedes :
  0%nat ∈ coalesce Demo.cf save_then_unversioned /\ 1%nat ∉ coalesce Demo.cf save_then_unversioned /\
  fence_decide Demo.cf unversioned (mkMsgRow 7 0 0 1 "no swords") (mkMsgRow 7 4 9 1 "one sword") = (mkOutcome writeLegacyAfterSeq 4, None).
Proof.
  split_and!; [apply (bool_decide_unpack (0%nat ∈ coalesce Demo.cf save_then_unversioned)); vm_compute; exact I| |reflexivity].
  apply (bool_decide_unpack (1%nat ∉ coalesce Demo.cf save_then_unversioned)). vm_compute. exact I.
Qed.

(** ** The acker *)

(** C13: the acker of a claim, with its moving head and its compaction, is the list of the
    messages it was given and their fates: in any run that tracks ascending offsets it
    has asked for exactly the marks of the specification - the longest finished prefix
    as long as the claim has not failed - its counter is the number of messages still
    pending, and its answers are the same. *)
Theorem claim_marks_finished_prefix ops a s : ack_run ops a s ->
  ak_marked a = Spec.marked s /\ ak_failed a = Spec.failed s /\
  ak_pending a = Z.of_nat (length (Spec.pending (Spec.items s))) /\
  (Spec.failed s = false -> ak_marked a = Spec.done_prefix (Spec.items s)) /\
  (exists rest, (Spec.items s).*1 = ak_marked a ++ rest) /\
  forall op, in_order s op -> (acker_step a op).2 = (Spec.step s op).2.
Proof.
  intros Hr%ack_run_refines. pose proof (rf_marked _ _ Hr) as Hm. split_and!.
  - done.
  - apply Hr.
  - apply Hr.
  - intros Hf. rewrite Hm. by apply Hr.
  - rewrite Hm, (rf_items _ _ Hr). by eexists.
  - intros op Ho. by apply refines_step.
Qed.

Definition acked_out_of_order : list AckOp := [Track 3; Track 4; Track 5; Ack 4; Ack 3].

Definition after (ops : list AckOp) : claimAcker * Spec.state :=
  foldl (fun st op => ((acker_step st.1 op).1, (Spec.step st.2 op).1)) (newClaimAcker, Spec.init) ops.

Lemma after_run ops op : ack_run ops (after ops).1 (after ops).2 -> in_order (after ops).2 op ->
  ack_run (ops ++ [op]) (after (ops ++ [op])).1 (after (ops ++ [op])).2.
Proof. intros Hr Ho. unfold after. rewrite foldl_app. by apply ar_step. Qed.

Lemma claim_marks_finished_prefix_witness :
  ack_run acked_out_of_order (after acked_out_of_order).1 (after acked_out_of_order).2 /\
  ak_marked (after acked_out_of_order).1 = [3; 4] /\
  ak_pending (after acked_out_of_order).1 = Z.of_nat (length (Spec.pending (Spec.items (after acked_out_of_order).2))).
Proof.
  assert (forall l n, forallb (fun i => i <? n) l = true -> forall i, i ∈ l -> i < n) as Hall.
  { intros l n Hl i Hi. apply Z.ltb_lt. apply (proj1 (List.forallb_forall _ l) Hl). by apply list_elem_of_In. }
  assert (ack_run acked_out_of_order (after acked_out_of_order).1 (after acked_out_of_order).2) as Hr.
  { apply (after_run [Track 3; Track 4; Track 5; Ack 4]); [|exact I]. apply (after_run [Track 3; Track 4; Track 5]); [|exact I].
    apply (after_run [Track 3; Track 4]); [|intros i; by apply Hall]. apply (after_run [Track 3]); [|intros i; by apply Hall].
    apply (after_run []); [constructor|intros i; by apply Hall]. }
  split; [exact Hr|]. split; [vm_compute; reflexivity|]. apply (claim_marks_finished_prefix _ _ _ Hr).
Defined.

(** ** Rows, scripts and payloads *)

(** C14: the transaction of a versioned save, on the row it has locked: it either changes
    nothing or writes the task's data over that row alone, under a version that is not
    older, and with a save number under exactly the task's version, which is then newer;
    an answer "equal" means the row has the task's version, "older" that it has a newer
    one. *)
Theorem save_never_goes_back `{DbTypes} cf t m target tb o cur tb' :
  0 <= dt_epoch t -> 0 <= dt_save t -> stamp_row cf t m = Ok target -> sql_fence_txn cf t target tb = Ok (o, cur, tb') ->
  exists current, cur = Some current /\ tb !! dt_key t = Some current /\
    (wo_kind o <> writeApplied -> tb' = tb) /\
    (wo_kind o = writeApplied -> exists row, tb' = <[dt_key t := row]> tb /\ ms_data row = ms_data m /\
       ver_le (version current) (version row) /\
       (cf_dual cf = true -> dt_save t <> 0 -> version row = task_version t /\ version row <> version current)) /\
    (wo_kind o = writeEqual -> version current = task_version t) /\
    (wo_kind o = writeOlder -> ver_lt (task_version t) (version current)).
Proof.
  intros He Hq Hst. destruct (stamp_row_spec _ _ _ _ Hst) as (Hk & Hdata & _ & Hv & H0). unfold sql_fence_txn.
  destruct (tb !! dt_key t) as [current|] eqn:Hcur; [|done]. pose proof (fence_decide_kinds cf t target current) as Hkinds.
  destruct (fence_decide cf t target current) as [o' saved] eqn:Hfd. destruct Hkinds as (Heq & Hold & Happ). intros [= <- <- <-].
  exists current. split_and!; [done|done| | |done|done].
  - intros Hne. destruct saved; [|done]. destruct Hne. by apply Happ.
  - intros Hap. destruct saved as [row|]; [|by apply Happ in Hap].
    destruct (fence_decide_saved _ _ _ _ _ _ Hv (conj He (conj Hq H0)) Hfd) as (_ & Hd & _ & Hle & Hnew). exists row.
    split_and!; [done|congruence|done|done].
Qed.

Definition row_before : Msg := mkMsgRow 7 5 1 1 "two swords".

Lemma save_never_goes_back_witness : exists o tb',
  sql_fence_txn Demo.cf second_save (mkMsgRow 7 5 2 1 "three swords") {[7 := row_before]} = Ok (o, Some row_before, tb') /\
  exists row, tb' = <[7 := row]> {[7 := row_before]} /\ version row = (5, 2).
Proof.
  eexists _, _. split; [vm_compute; reflexivity|].
  destruct (save_never_goes_back Demo.cf second_save (mkMsgRow 7 0 0 1 "three swords") (mkMsgRow 7 5 2 1 "three swords")
    {[7 := row_before]} (mkOutcome writeApplied 5) (Some row_before) (<[7 := mkMsgRow 7 5 2 1 "three swords"]> {[7 := row_before]}))
    as (current & _ & _ & _ & Happ & _ & _); [done|done|vm_compute; reflexivity|vm_compute; reflexivity|].
  destruct (Happ eq_refl) as (row & Htb & _ & _ & Hv). exists row. split; [exact Htb|]. by apply Hv.
Defined.

(** The comparison of the Redis scripts is the comparison of numbers: for canonical
    decimals, by length and then byte by byte, whatever their size - no conversion to a
    floating-point number is needed. *)
Theorem lua_compares_numbers a b : is_dec a = true -> is_dec b = true -> dec_gt a b = (dec_val 0 b <? dec_val 0 a).
Proof. apply dec_gt_spec. Qed.

Lemma lua_compares_numbers_witness :
  is_dec "18446744073709551615" = true /\ is_dec "9999999999999999999" = true /\
  dec_gt "18446744073709551615" "9999999999999999999" = true.
Proof.
  split; [reflexivity|split; [reflexivity|]].
  rewrite (lua_compares_numbers "18446744073709551615" "9999999999999999999" eq_refl eq_refl). reflexivity.
Defined.

(** What is written for later is read back: the cursor of a message and the payload
    of a deferred write name its partition and sequence number, and the payload holds
    the task's bytes unchanged. *)
Theorem place_is_read_back p s bytes : in_range p s ->
  parseAppliedCursor (encodeAppliedCursor (mkCursor p s true)) = Ok (mkCursor p s true) /\
  unwrapRetryPayload (encodeRetryPayload bytes s p true) = (s, p, true, bytes).
Proof.
  intros [Hp Hs]. split; [by apply parse_encode_cursor|]. apply unwrap_wrap; lia.
Qed.

Lemma place_is_read_back_witness :
  in_range 7 258 /\ unwrapRetryPayload (encodeRetryPayload "task" 258 7 true) = (258, 7, true, "task"%string).
Proof. split; [split; split; done|]. apply (place_is_read_back 7 258 "task"). split; split; done. Defined.
