(* ===== verification/FriendStore.v ===== *)
(** * Friends: the tables and the transactions

    [go/friend/internal/data]: [friend_repo.go], [block_repo.go], [request_generation.go]
    and [role_identity.go]. Four tables - the edges of a friendship, one per direction,
    the requests, the number of friends of a player, the block list - and what each
    transaction does to them once it holds the capacity rows of both players, its
    guard. A body is a function of the counts that the guard has read, of the time and
    of the tables. [FriendServe] puts the bodies into the programs that run them. *)

From stdpp Require Import base list gmap strings.
From Stdlib Require Import ZArith Lia.
From S2P Require Import Prelude RoleRoute.
Local Open Scope Z_scope.

(** ** Tables *)
Record FriendRequestRow := mkRequest {
  rq_time_ms : Z; rq_status : Z; rq_updated_ms : Z; rq_id : Z }.

Record CapacityRow := mkCapacity { cp_count : Z; cp_created_ms : Z }.

(** [friend] by (player, friend) with the time it began, [friend_request] by (from, to),
    [friend_capacity] by player, [friend_block] by (player, blocked). *)
Record FriendDB := mkFriendDB {
  fd_friend : gmap (Z * Z) Z;
  fd_request : gmap (Z * Z) FriendRequestRow;
  fd_capacity : gmap Z CapacityRow;
  fd_block : gmap (Z * Z) Z }.

Definition set_friend (db : FriendDB) m := mkFriendDB m (fd_request db) (fd_capacity db) (fd_block db).
Definition set_request (db : FriendDB) m := mkFriendDB (fd_friend db) m (fd_capacity db) (fd_block db).
Definition set_capacity (db : FriendDB) m := mkFriendDB (fd_friend db) (fd_request db) m (fd_block db).
Definition set_block (db : FriendDB) m := mkFriendDB (fd_friend db) (fd_request db) (fd_capacity db) m.

Definition requestStatusPending : Z := 1.
Definition requestStatusAccepted : Z := 2.
Definition requestStatusRejected : Z := 3.

Definition ErrBlocked : error := "blocked between players"%string.
Definition ErrAlreadyFriends : error := "already friends"%string.
Definition ErrRequestAlreadySent : error := "friend request already pending"%string.
Definition ErrTooManyPending : error := "too many outgoing friend requests"%string.
Definition ErrTargetInboxFull : error := "target friend request inbox full"%string.
Definition ErrSenderFriendsFull : error := "sender friend list full"%string.
Definition ErrAcceptorFriendsFull : error := "acceptor friend list full"%string.
Definition ErrRequestNotFound : error := "no pending friend request"%string.
Definition ErrBlockListFull : error := "block list full"%string.
Definition ErrOriginalRole : error := "the role of the session is gone or frozen"%string.
Definition errRequestIDRequired : error := "the request needs a new generation"%string.
Definition errCapacityRowsMissing : error := "friend capacity rows missing"%string.
Definition errInvalidPlayerPair : error := "invalid friend player pair"%string.
Definition errBackfillMissed : error := "the backfill missed the locked row"%string.
Definition errScan : error := "sql: converting driver value to uint32"%string.
Definition errOutOfRange : error := "out of range value for column friend_count"%string.
Definition errInsertCount : error := "unexpected friend insert count"%string.

Record AddFriendLimits := mkLimits {
  MaxFriends : Z; MaxPendingRequests : Z; MaxIncomingRequests : Z }.

Record RequestChange := mkChange {
  RequestID : Z; FromPlayerID : Z; ToPlayerID : Z; Changed : bool }.

Record BlockEffect := mkEffect { EdgeRemoved : bool; OutboundPendingRejected : bool }.

(** ** Reads *)

(** [Scan] of a [COUNT( * )] into a [uint32]. *)
Definition scan_u32 (n : Z) : res Z := if n <? u32_mod then Ok n else Err errScan.

Definition is_pending (r : FriendRequestRow) : bool := rq_status r =? requestStatusPending.

Definition friend_count (db : FriendDB) (p : Z) : Z := count_rows (fun k _ => k.1 =? p) (fd_friend db).
Definition outgoing_pending (db : FriendDB) (p : Z) : Z :=
  count_rows (fun k r => (k.1 =? p) && is_pending r) (fd_request db).
Definition incoming_pending (db : FriendDB) (p : Z) : Z :=
  count_rows (fun k r => (k.2 =? p) && is_pending r) (fd_request db).
Definition block_count (db : FriendDB) (p : Z) : Z := count_rows (fun k _ => k.1 =? p) (fd_block db).

(** A point lookup by the whole primary key, [FOR UPDATE]. *)
Definition lockRowExists {A} (m : gmap (Z * Z) A) (k : Z * Z) : bool := bool_decide (is_Some (m !! k)).

(** Two lookups, one per direction; the second only when the first finds nothing. *)
Definition either_way {A} (m : gmap (Z * Z) A) (a b : Z) : bool :=
  if lockRowExists m (a, b) then true else lockRowExists m (b, a).

Definition blockedEitherWay (db : FriendDB) (a b : Z) : bool := either_way (fd_block db) a b.
Definition friendEdgeExistsForUpdate (db : FriendDB) (a b : Z) : bool := either_way (fd_friend db) a b.
Definition blockExistsForUpdate (db : FriendDB) (p target : Z) : bool := lockRowExists (fd_block db) (p, target).

(** At most two ids, ascending, without repetition. *)
Definition ascendingUniqueIDs (ids : list Z) : list Z :=
  match ids with
  | [] => []
  | [a] => [a]
  | a :: b :: _ =>
      let '(first, second) := if b <? a then (b, a) else (a, b) in
      if first =? second then [first] else [first; second]
  end.

(** The guard: the capacity rows of the players, ascending. A missing row is an error. *)
Definition lock_capacity (db : FriendDB) (counts : gmap Z Z) (id : Z) : res (gmap Z Z) :=
  match fd_capacity db !! id with
  | Some r => Ok (<[id := cp_count r]> counts)
  | None => Err errCapacityRowsMissing
  end.

Definition lockCapacityRows (db : FriendDB) (ids : list Z) : res (gmap Z Z) :=
  fold_res (lock_capacity db) ∅ (ascendingUniqueIDs ids).

Definition counted (counts : gmap Z Z) (p : Z) : Z := default 0 (counts !! p).

(** [if limit > 0 && n >= limit { return e }] *)
Definition at_limit (limit n : Z) (e : error) : res () := guard_err ((0 <? limit) && (limit <=? n)) e.

(** The same with a [COUNT( * )] that is only run when there is a limit. *)
Definition count_at_limit (limit n : Z) (e : error) : res () :=
  if 0 <? limit then n ← scan_u32 n; guard_err (limit <=? n) e else Ok ().

(** ** A request is made *)

(** [UPDATE friend_request SET request_id=? WHERE ... AND status=pending AND request_id=0] *)
Definition backfillPendingRequestID (db : FriendDB) (from to id : Z) : res FriendDB :=
  match fd_request db !! (from, to) with
  | Some r =>
      if is_pending r && (rq_id r =? 0)
      then Ok (set_request db (<[(from, to) := mkRequest (rq_time_ms r) (rq_status r) (rq_updated_ms r) id]> (fd_request db)))
      else Err errBackfillMissed
  | None => Err errBackfillMissed
  end.

Definition pending_row (db : FriendDB) (from to : Z) : option FriendRequestRow :=
  match fd_request db !! (from, to) with
  | Some r => if is_pending r then Some r else None
  | None => None
  end.

(** The closure of [CreateRequest]; [candidate] is 0 until a generation has been drawn. *)
Definition create_body (from to : Z) (lim : AddFriendLimits) (candidate : Z)
    (counts : gmap Z Z) (now : Z) (db : FriendDB) : res (RequestChange * FriendDB) :=
  if blockedEitherWay db from to then Err ErrBlocked
  else if friendEdgeExistsForUpdate db from to then Err ErrAlreadyFriends
  else
    match pending_row db from to with
    | Some r =>
        if negb (rq_id r =? 0) then Ok (mkChange (rq_id r) from to false, db)
        else if candidate =? 0 then Err errRequestIDRequired
        else
          db' ← backfillPendingRequestID db from to candidate;
          Ok (mkChange candidate from to true, db')
    | None =>
        _ ← count_at_limit (MaxPendingRequests lim) (outgoing_pending db from) ErrTooManyPending;
        _ ← count_at_limit (MaxIncomingRequests lim) (incoming_pending db to) ErrTargetInboxFull;
        _ ← at_limit (MaxFriends lim) (counted counts from) ErrSenderFriendsFull;
        _ ← at_limit (MaxFriends lim) (counted counts to) ErrAcceptorFriendsFull;
        if candidate =? 0 then Err errRequestIDRequired
        else Ok (mkChange candidate from to true,
                 set_request db (<[(from, to) := mkRequest now requestStatusPending now candidate]> (fd_request db)))
    end.

(** The closure of [ensurePendingRequest]: the row and whether it is pending. *)
Definition ensure_pending_body (from to : Z) (candidate : Z) (counts : gmap Z Z) (now : Z) (db : FriendDB) :
    res ((FriendRequestRow * bool) * FriendDB) :=
  match fd_request db !! (from, to) with
  | None => Ok ((mkRequest 0 0 0 0, false), db)
  | Some r =>
      if negb (is_pending r) then Ok ((r, false), db)
      else if rq_id r =? 0 then
        if candidate =? 0 then Err errRequestIDRequired
        else
          db' ← backfillPendingRequestID db from to candidate;
          Ok ((mkRequest (rq_time_ms r) (rq_status r) (rq_updated_ms r) candidate, true), db')
      else Ok ((r, true), db)
  end.

(** ** A request is answered *)

(** [UPDATE friend_request SET status=?, updated_ms=? WHERE ... AND status=pending]: whether a
    row was changed. *)
Definition end_pending (status now : Z) (db : FriendDB) (k : Z * Z) : bool * FriendDB :=
  match fd_request db !! k with
  | Some r =>
      if is_pending r
      then (true, set_request db (<[k := mkRequest (rq_time_ms r) status now (rq_id r)]> (fd_request db)))
      else (false, db)
  | None => (false, db)
  end.

(** [INSERT IGNORE INTO friend], and one more friend for the player if it went in. *)
Definition insert_edge (now : Z) (db : FriendDB) (edge : Z * Z) : res FriendDB :=
  let inserted := if lockRowExists (fd_friend db) edge then 0 else 1 in
  if 1 <? inserted then Err errInsertCount
  else if inserted =? 1 then
    let db := set_friend db (<[edge := now]> (fd_friend db)) in
    match fd_capacity db !! edge.1 with
    | Some c =>
        if cp_count c + 1 <? u32_mod
        then Ok (set_capacity db (<[edge.1 := mkCapacity (cp_count c + 1) (cp_created_ms c)]> (fd_capacity db)))
        else Err errOutOfRange
    | None => Ok db
    end
  else Ok db.

(** The closure of [AcceptRequest]: whether something changed. *)
Definition accept_body (requestID from to maxFriends : Z) (counts : gmap Z Z) (now : Z) (db : FriendDB) :
    res (bool * FriendDB) :=
  match fd_request db !! (from, to) with
  | None => Err ErrRequestNotFound
  | Some r =>
      if negb (rq_id r =? requestID) then Err ErrRequestNotFound
      else if rq_status r =? requestStatusAccepted then Ok (false, db)
      else if negb (rq_status r =? requestStatusPending) then Err ErrRequestNotFound
      else if blockedEitherWay db from to then Err ErrBlocked
      else
        _ ← at_limit maxFriends (counted counts from) ErrSenderFriendsFull;
        _ ← at_limit maxFriends (counted counts to) ErrAcceptorFriendsFull;
        let '(affected, db) := end_pending requestStatusAccepted now db (from, to) in
        if negb affected then Err ErrRequestNotFound
        else
          let '(_, db) := end_pending requestStatusAccepted now db (to, from) in
          db ← fold_res (insert_edge now) db [(from, to); (to, from)];
          Ok (true, db)
  end.

(** The closure of [RejectRequest]. *)
Definition reject_body (requestID from to : Z) (counts : gmap Z Z) (now : Z) (db : FriendDB) :
    res (bool * FriendDB) :=
  match fd_request db !! (from, to) with
  | None => Err ErrRequestNotFound
  | Some r =>
      if negb (rq_id r =? requestID) then Err ErrRequestNotFound
      else if rq_status r =? requestStatusRejected then Ok (false, db)
      else if negb (rq_status r =? requestStatusPending) then Err ErrRequestNotFound
      else
        let '(affected, db) := end_pending requestStatusRejected now db (from, to) in
        if negb affected then Err ErrRequestNotFound else Ok (true, db)
  end.

(** ** A friendship ends *)

(** [UPDATE friend_capacity SET friend_count = friend_count - 1, created_ms = ? WHERE player_id = ?
    AND friend_count > 0] *)
Definition decrement_count (now : Z) (db : FriendDB) (p : Z) : FriendDB :=
  match fd_capacity db !! p with
  | Some c =>
      if 0 <? cp_count c
      then set_capacity db (<[p := mkCapacity (cp_count c - 1) now]> (fd_capacity db))
      else db
  | None => db
  end.

Definition delete_edge (now : Z) (acc : Z * FriendDB) (edge : Z * Z) : Z * FriendDB :=
  let '(removed, db) := acc in
  match fd_friend db !! edge with
  | Some _ => (removed + 1, decrement_count now (set_friend db (delete edge (fd_friend db))) edge.1)
  | None => (removed, db)
  end.

Definition deleteFriendEdges (a b now : Z) (db : FriendDB) : Z * FriendDB :=
  fold_left (delete_edge now) [(a, b); (b, a)] (0, db).

(** The closure of [RemoveFriend]: how many edges are gone. *)
Definition remove_body (me target : Z) (counts : gmap Z Z) (now : Z) (db : FriendDB) : res (Z * FriendDB) :=
  Ok (deleteFriendEdges me target now db).

(** ** The block list *)

(** The closure of [Block]. *)
Definition block_body (me target maxBlocks : Z) (counts : gmap Z Z) (now : Z) (db : FriendDB) :
    res (BlockEffect * FriendDB) :=
  db ← (if blockExistsForUpdate db me target then Ok db
        else
          _ ← count_at_limit maxBlocks (block_count db me) ErrBlockListFull;
          Ok (set_block db (<[(me, target) := now]> (fd_block db))));
  let '(removed, db) := deleteFriendEdges me target now db in
  let '(outbound, db) := end_pending requestStatusRejected now db (me, target) in
  let '(_, db) := end_pending requestStatusRejected now db (target, me) in
  Ok (mkEffect (0 <? removed) outbound, db).

(** The one statement of [Unblock]. *)
Definition unblock_body (me target : Z) (now : Z) (db : FriendDB) : res (() * FriendDB) :=
  Ok ((), set_block db (delete (me, target) (fd_block db))).

(** ** The guard around a body *)
Definition guarded {X} (a b : Z) (body : gmap Z Z -> Z -> FriendDB -> res (X * FriendDB))
    (now : Z) (db : FriendDB) : res (X * FriendDB) :=
  counts ← lockCapacityRows db [a; b]; body counts now db.

(** ** Rows that nobody needs any more *)

(** [sweep_repo.go] *)
Definition millisPerDay : Z := 24 * 60 * 60 * 1000.
Definition maxRetentionDays : Z := 36500.
Definition errSweepBatch : error := "sweep batchLimit must be positive"%string.
Definition errSweepRetention : error := "sweep retentionDays out of range"%string.

(** [None]: nothing to do in this round. *)
Definition sweepCutoffMs (retentionDays batchLimit nowMs : Z) : res (option Z) :=
  if batchLimit <=? 0 then Err errSweepBatch
  else if (retentionDays <=? 0) || (maxRetentionDays <? retentionDays) then Err errSweepRetention
  else
    let cutoffMs := nowMs - retentionDays * millisPerDay in
    if cutoffMs <=? 0 then Ok None else Ok (Some cutoffMs).

Definition terminal (r : FriendRequestRow) : bool :=
  (rq_status r =? requestStatusAccepted) || (rq_status r =? requestStatusRejected).

Definition terminal_before (cutoff : Z) (r : FriendRequestRow) : bool := terminal r && (rq_updated_ms r <? cutoff).
Definition terminal_undated (r : FriendRequestRow) : bool := terminal r && (rq_updated_ms r =? 0).
Definition idle_before (cutoff : Z) (c : CapacityRow) : bool := (cp_count c =? 0) && (cp_created_ms c <? cutoff).

(** [deleteOneRowPointLocked]: lock the row, then delete it if it still qualifies. *)
Definition deleteOneRowPointLocked {K A} `{Countable K} (m : gmap K A) (k : K) (ok : A -> bool) : Z * gmap K A :=
  match m !! k with
  | None => (0, m)
  | Some x => if ok x then (1, delete k m) else (0, m)
  end.

Definition delete_terminal_body (k : Z * Z) (cutoff : Z) (now : Z) (db : FriendDB) : res (Z * FriendDB) :=
  let '(n, m) := deleteOneRowPointLocked (fd_request db) k (terminal_before cutoff) in Ok (n, set_request db m).

Definition deleteIdleCapacityRow (p cutoff : Z) (now : Z) (db : FriendDB) : res (Z * FriendDB) :=
  let '(n, m) := deleteOneRowPointLocked (fd_capacity db) p (idle_before cutoff) in Ok (n, set_capacity db m).

(** [ensureCapacityRowSQL]: a row that is there stays as it is. *)
Definition ensureFriendCapacityRow (db : FriendDB) (p count now : Z) : FriendDB :=
  match fd_capacity db !! p with
  | Some _ => db
  | None => set_capacity db (<[p := mkCapacity count now]> (fd_capacity db))
  end.

(** ** The roles of the players *)

(** [roleidentity.Original]: the role a session was opened with. *)
Record OriginalRole := mkOriginal { og_player : Z; og_account : string; og_revision : Z }.

(** [bound]: the role directory is configured, as in every deployed process. *)
Definition requireRoleActor (bound : bool) (s : option OriginalRole) (player : Z) : res () :=
  match bound, s with
  | false, Some _ => Err ErrOriginalRole
  | false, None => Ok ()
  | true, Some o => guard_err ((player =? 0) || negb (og_player o =? player)) ErrOriginalRole
  | true, None => Err ErrOriginalRole
  end.

(** One row of [account_role]; only the acting player must have one. *)
Definition lock_role (roles : gmap Z AccountRole) (o : OriginalRole) (included : bool) (player : Z) : res bool :=
  if player =? 0 then Err ErrOriginalRole
  else
    match roles !! player with
    | None => if player =? og_player o then Err ErrNoRows else Ok included
    | Some r =>
        if negb (ValidAccount (ar_account r)) || (ar_owner_revision r =? 0) || negb (ar_trade_listing_id r =? 0)
        then Err ErrOriginalRole
        else if player =? og_player o then
          if String.eqb (ar_account r) (og_account o) && (ar_owner_revision r =? og_revision o)
          then Ok true else Err ErrOriginalRole
        else Ok included
    end.

Definition lockRolePrefix (bound : bool) (roles : gmap Z AccountRole) (s : option OriginalRole)
    (players : list Z) : res () :=
  match bound, s with
  | false, Some _ => Err ErrOriginalRole
  | false, None => Ok ()
  | true, None => Err ErrOriginalRole
  | true, Some o =>
      let players := match players with [] => [og_player o] | _ => players end in
      included ← fold_res (lock_role roles o) false (ascendingUniqueIDs players);
      guard_err (negb included) ErrOriginalRole
  end.
