(* ===== verification/FriendServe.v ===== *)
(** * Friends: the programs that run the transactions

    [runGuardedWrite], [runRequestWrite], the operations of [FriendRepo] and the handlers
    of [friend_logic.go] with the sweep ([logic/sweep.go], [sweep_repo.go]) and the quota
    ([rate_quota.go]), as programs over what all replicas share. One call is one
    transaction, or one statement where the code commits each by itself; between two
    calls the other replicas run. Any call may fail, and a commit that fails may have
    been carried out. *)

From stdpp Require Import base list gmap strings relations.
From Stdlib Require Import ZArith Lia.
From S2P Require Import Prelude RoleRoute DbProg FriendStore.
Local Open Scope Z_scope.

(** ** Settings, and what is shared *)
Record FriendConf := mkFriendConf {
  fc_bound : bool;
  fc_limits : AddFriendLimits;
  fc_max_blocks : Z;
  fc_read_limit : nat;
  fc_request_quota : Z;
  fc_request_ids : bool;
  fc_sweep_delete : bool;
  fc_retention_days : Z;
  fc_batch_limit : Z;
  (** A request is cut off this long after it began. *)
  fc_patience : Z;
  (** A time that a statement stores is at most this far from the moment it takes effect. *)
  fc_slack : Z }.

Inductive SyncDomain := FRIEND_LIST | FRIEND_REQUEST | FRIEND_BLOCK.
Inductive FriendEventReason := REQUEST_RECEIVED | REQUEST_ACCEPTED.

(** What leaves the service: digests that are raised, events that are pushed. *)
Inductive notice :=
  | Bumped (players : list Z) (domains : list SyncDomain)
  | Pushed (to : Z) (reason : FriendEventReason) (by_ : Z).

(** [fw_now] is the time, [fw_issued] the generations that were drawn, [fw_used] those that
    were ever stored in a request (a history), [fw_quota] the counters in Redis with their
    expiry. *)
Record world := mkWorld {
  fw_now : Z;
  fw_db : FriendDB;
  fw_roles : gmap Z AccountRole;
  fw_issued : gset Z;
  fw_used : gset Z;
  fw_quota : gmap Z (Z * option Z);
  fw_told : list notice }.

Definition with_db (w : world) (db : FriendDB) (used : gset Z) : world :=
  mkWorld (fw_now w) db (fw_roles w) (fw_issued w) used (fw_quota w) (fw_told w).
Definition with_issued (w : world) (ids : gset Z) : world :=
  mkWorld (fw_now w) (fw_db w) (fw_roles w) ids (fw_used w) (fw_quota w) (fw_told w).
Definition with_quota (w : world) q : world :=
  mkWorld (fw_now w) (fw_db w) (fw_roles w) (fw_issued w) (fw_used w) q (fw_told w).
Definition with_told (w : world) l : world :=
  mkWorld (fw_now w) (fw_db w) (fw_roles w) (fw_issued w) (fw_used w) (fw_quota w) l.

(** The generations in a table. *)
Definition ids_of (db : FriendDB) : gset Z := list_to_set (rq_id <$> (map_to_list (fd_request db)).*2).

Definition commit (w : world) (db : FriendDB) : world := with_db w db (fw_used w ∪ ids_of db).

Definition ErrSQL : error := "sql: the statement failed"%string.
Definition ErrDeadlock : error := "Error 1213: Deadlock found"%string.
Definition ErrRedis : error := "redis: the script failed"%string.
Definition ErrIDSource : error := "no generation could be drawn"%string.
Definition ErrNoIDSource : error := "the source of generations is not configured"%string.
Definition ErrZeroID : error := "the source of generations returned zero"%string.
Definition ErrStillRequired : error := "a generation was drawn and is still asked for"%string.
Definition ErrDuplicateID : error := "a generation names several requests"%string.
Definition ErrMixedVersions : error := "a pending request without a generation after the backfill"%string.

(** Whose transaction it is: the sweep's, or that of a session on some players. *)
Inductive prefix := System | Roles (s : option OriginalRole) (players : list Z).

Inductive friendE : Type -> Type :=
  | Now : friendE Z
  | Query {X} (p : prefix) (q : FriendDB -> X -> Prop) : friendE (res X)
  | LockPrefix (p : prefix) : friendE (res ())
  | CountFriends (player : Z) : friendE (res (Z * Z))
  | AddCapacity (rows : list (Z * (Z * Z))) : friendE (res ())
  | WriteTx {X} (p : prefix) (body : Z -> FriendDB -> res (X * FriendDB)) : friendE (res X)
  | NextRequestID : friendE (res Z)
  | QuotaScript (player : Z) : friendE (res Z)
  | Tell (n : notice) : friendE ().

(** Rows in any order, cut off by [LIMIT]. *)
Definition selects {A} (limit : nat) (all l : list A) : Prop :=
  l ⊆+ all /\ length l = Nat.min limit (length all).

(** [requestQuotaScript] *)
Definition requestQuotaWindow : Z := 60000.

Definition live_counter (now : Z) (c : option (Z * option Z)) : option (Z * option Z) :=
  match c with
  | Some (n, Some e) => if e <=? now then None else c
  | _ => c
  end.

Definition requestQuotaScript (now : Z) (c : option (Z * option Z)) : Z * option Z :=
  match live_counter now c with
  | None => (1, Some (now + requestQuotaWindow))
  | Some (n, Some e) => (n + 1, if n + 1 =? 1 then Some (now + requestQuotaWindow) else Some e)
  | Some (n, None) => (n + 1, Some (now + requestQuotaWindow))
  end.

Section serve.
Context (cf : FriendConf).

(** ** One call *)
Definition prefix_ok (w : world) (p : prefix) : res () :=
  match p with
  | System => Ok ()
  | Roles s players => lockRolePrefix (fc_bound cf) (fw_roles w) s players
  end.

Definition near (a b : Z) : Prop := a - fc_slack cf <= b <= a + fc_slack cf.

(** The rows that [COUNT] and [INSERT] of one request add: a player, the number of his friends, and
    when they were counted. The request is cut off before long. *)
Inductive add_rows (now : Z) : list (Z * (Z * Z)) -> FriendDB -> FriendDB -> Prop :=
  | add_nil db : add_rows now [] db db
  | add_cons p c t rows ms db db' :
      now <= t + fc_patience cf -> near now ms ->
      add_rows now rows (ensureFriendCapacityRow db p c ms) db' ->
      add_rows now ((p, (c, t)) :: rows) db db'.

Definition sql_failure (e : error) : Prop := e = ErrSQL \/ e = ErrDeadlock.

(** What a transaction does when nothing fails. *)
Definition tx_result {X} (w : world) (p : prefix) (body : Z -> FriendDB -> res (X * FriendDB)) (ms : Z) :
    res (X * FriendDB) :=
  _ ← prefix_ok w p; body ms (fw_db w).

Definition friend_run X (e : friendE X) : world -> X -> world -> Prop :=
  match e in friendE X return world -> X -> world -> Prop with
  | Now => fun w ms w' => near (fw_now w) ms /\ w' = w
  | Query p q => fun w r w' => w' = w /\
      ((exists e, r = Err e /\ sql_failure e) \/
       match prefix_ok w p with
       | Err e => r = Err e
       | Ok _ => exists x, r = Ok x /\ q (fw_db w) x
       end)
  | LockPrefix p => fun w r w' => w' = w /\ ((exists e, r = Err e /\ sql_failure e) \/ r = prefix_ok w p)
  | CountFriends player => fun w r w' => w' = w /\
      ((exists e, r = Err e /\ sql_failure e) \/
       r = (n ← scan_u32 (friend_count (fw_db w) player); Ok (n, fw_now w)))
  | AddCapacity rows => fun w r w' =>
      (w' = w /\ exists e, r = Err e /\ sql_failure e) \/
      (exists db', add_rows (fw_now w) rows (fw_db w) db' /\ w' = with_db w db' (fw_used w) /\ (r = Ok () \/ r = Err ErrSQL))
  | WriteTx p body => fun w r w' =>
      (w' = w /\ exists e, r = Err e /\ sql_failure e) \/
      (exists ms, near (fw_now w) ms /\
       match tx_result w p body ms with
       | Err e => r = Err e /\ w' = w
       | Ok (x, db') => w' = commit w db' /\ (r = Ok x \/ r = Err ErrSQL)
       end)
  | NextRequestID => fun w r w' =>
      (r = Err ErrIDSource /\ w' = w) \/ (r = Ok 0 /\ w' = w) \/
      (exists id, 0 < id /\ id ∉ fw_issued w /\ r = Ok id /\ w' = with_issued w ({[id]} ∪ fw_issued w))
  | QuotaScript player => fun w r w' =>
      let c := requestQuotaScript (fw_now w) (fw_quota w !! player) in
      (r = Err ErrRedis /\ w' = w) \/
      (w' = with_quota w (<[player := c]> (fw_quota w)) /\ (r = Ok c.1 \/ r = Err ErrRedis))
  | Tell n => fun w _ w' => w' = with_told w (n :: fw_told w)
  end.

(** ** The guarded write *)
Notation friend_prog := (prog friendE).

Definition ensureDeadlockMaxAttempts : nat := 3.
Definition capacityGuardMaxAttempts : nat := 3.

Definition is_error (e : error) {A} (r : res A) : bool :=
  match r with Err e' => String.eqb e' e | Ok _ => false end.

(** One player, without the role directory: [COUNT], then [INSERT], each committed by itself;
    both again after a deadlock. *)
Definition ensure_once (player : Z) : friend_prog (res ()) :=
  n ← call (CountFriends player);
  match n with
  | Err e => Ret (Err e)
  | Ok ct => call (AddCapacity [(player, ct)])
  end.

Fixpoint ensure_attempts (n : nat) (player : Z) : friend_prog (res ()) :=
  match n with
  | O => Ret (Err ErrDeadlock)
  | S n =>
      r ← ensure_once player;
      if is_error ErrDeadlock r then ensure_attempts n player else Ret r
  end.

Fixpoint ensure_each (players : list Z) : friend_prog (res ()) :=
  match players with
  | [] => Ret (Ok ())
  | p :: players =>
      r ← ensure_attempts ensureDeadlockMaxAttempts p;
      match r with Err e => Ret (Err e) | Ok _ => ensure_each players end
  end.

Fixpoint count_each (players : list Z) : friend_prog (res (list (Z * (Z * Z)))) :=
  match players with
  | [] => Ret (Ok [])
  | p :: players =>
      n ← call (CountFriends p);
      match n with
      | Err e => Ret (Err e)
      | Ok ct =>
          rest ← count_each players;
          Ret (rest ≫= fun rest => Ok ((p, ct) :: rest))
      end
  end.

(** [ensureBoundCapacity]: one transaction behind the role locks; its rows appear together. *)
Definition ensureBoundCapacity (s : option OriginalRole) (players : list Z) : friend_prog (res ()) :=
  b ← call (LockPrefix (Roles s players));
  match b with
  | Err e => Ret (Err e)
  | Ok _ =>
      rows ← count_each (ascendingUniqueIDs players);
      match rows with Err e => Ret (Err e) | Ok rows => call (AddCapacity rows) end
  end.

Definition ensureFriendCapacityRows (s : option OriginalRole) (players : list Z) : friend_prog (res ()) :=
  if fc_bound cf then ensureBoundCapacity s players else ensure_each (ascendingUniqueIDs players).

Definition guardedWriteBody X : Type := gmap Z Z -> Z -> FriendDB -> res (X * FriendDB).

Definition runGuardedWriteOnce {X} (s : option OriginalRole) (a b : Z) (body : guardedWriteBody X) : friend_prog (res X) :=
  r ← ensureFriendCapacityRows s [a; b];
  match r with
  | Err e => Ret (Err e)
  | Ok _ => call (WriteTx (Roles s [a; b]) (guarded a b body))
  end.

Fixpoint guarded_attempts {X} (n : nat) (s : option OriginalRole) (a b : Z) (body : guardedWriteBody X) : friend_prog (res X) :=
  match n with
  | O => Ret (Err errCapacityRowsMissing)
  | S n =>
      r ← runGuardedWriteOnce s a b body;
      if is_error errCapacityRowsMissing r then guarded_attempts n s a b body else Ret r
  end.

Definition runGuardedWrite {X} (s : option OriginalRole) (a b : Z) (body : guardedWriteBody X) : friend_prog (res X) :=
  guarded_attempts capacityGuardMaxAttempts s a b body.

(** A generation is drawn outside the transaction, and the transaction run again. *)
Fixpoint request_attempts {X} (n : nat) (s : option OriginalRole) (from to : Z)
    (body : Z -> guardedWriteBody X) (candidate : Z) : friend_prog (res X) :=
  match n with
  | O => Ret (Err ErrStillRequired)
  | S n =>
      r ← runGuardedWrite s from to (body candidate);
      if negb (is_error errRequestIDRequired r) then Ret r
      else if negb (fc_request_ids cf) then Ret (Err ErrNoIDSource)
      else
        id ← call NextRequestID;
        match id with
        | Err e => Ret (Err e)
        | Ok id => if id =? 0 then Ret (Err ErrZeroID) else request_attempts n s from to body id
        end
  end.

Definition runRequestWrite {X} (s : option OriginalRole) (from to : Z) (body : Z -> guardedWriteBody X) : friend_prog (res X) :=
  request_attempts 2 s from to body 0.

(** [roleReader], and the one query the reader is used for. *)
Definition role_query {X} (s : option OriginalRole) (player : Z) (q : FriendDB -> X -> Prop) : friend_prog (res X) :=
  match requireRoleActor (fc_bound cf) s player with
  | Err e => Ret (Err e)
  | Ok _ => call (Query (if fc_bound cf then Roles s [player] else System) q)
  end.

Definition keys_where {A} (f : Z * Z -> A -> bool) (m : gmap (Z * Z) A) : list ((Z * Z) * A) :=
  keep_if (fun kx => f kx.1 kx.2) (map_to_list m).

(** ** The operations of the repository *)
Definition CreateRequest (s : option OriginalRole) (from to : Z) (lim : AddFriendLimits) : friend_prog (res RequestChange) :=
  match requireRoleActor (fc_bound cf) s from with
  | Err e => Ret (Err e)
  | Ok _ =>
      if (to =? 0) || (from =? 0) || (from =? to) then Ret (Err errInvalidPlayerPair)
      else runRequestWrite s from to (fun candidate => create_body from to lim candidate)
  end.

Definition findRequest (s : option OriginalRole) (requestID accepter : Z) : friend_prog (res RequestChange) :=
  rows ← role_query s accepter (fun db l =>
    if (requestID =? 0) || (accepter =? 0) then l = []
    else selects 2 (keys_where (fun _ r => rq_id r =? requestID) (fd_request db)).*1 l);
  Ret (rows ← rows;
    match rows with
    | [] => Err ErrRequestNotFound
    | [(from, to)] =>
        if negb (to =? accepter) || (from =? 0) || (from =? accepter) then Err ErrRequestNotFound
        else Ok (mkChange requestID from to false)
    | _ => Err ErrDuplicateID
    end).

Definition AcceptRequest (s : option OriginalRole) (requestID accepter maxFriends : Z) : friend_prog (res RequestChange) :=
  change ← findRequest s requestID accepter;
  match change with
  | Err e => Ret (Err e)
  | Ok c =>
      let from := FromPlayerID c in let to := ToPlayerID c in
      r ← runGuardedWrite s from to (accept_body requestID from to maxFriends);
      Ret (changed ← r; Ok (mkChange requestID from to changed))
  end.

Definition RejectRequest (s : option OriginalRole) (requestID accepter : Z) : friend_prog (res RequestChange) :=
  change ← findRequest s requestID accepter;
  match change with
  | Err e => Ret (Err e)
  | Ok c =>
      let from := FromPlayerID c in
      r ← runGuardedWrite s from accepter (reject_body requestID from accepter);
      Ret (changed ← r; Ok (mkChange requestID from (ToPlayerID c) changed))
  end.

Definition friendEdgeExists (s : option OriginalRole) (a b : Z) : friend_prog (res bool) :=
  role_query s a (fun db x => x = either_way (fd_friend db) a b).

Definition RemoveFriend (s : option OriginalRole) (player target : Z) : friend_prog (res bool) :=
  match requireRoleActor (fc_bound cf) s player with
  | Err e => Ret (Err e)
  | Ok _ =>
      if player =? target then Ret (Ok false)
      else if (player =? 0) || (target =? 0) then Ret (Err errInvalidPlayerPair)
      else
        e ← friendEdgeExists s player target;
        match e with
        | Err e => Ret (Err e)
        | Ok false => Ret (Ok false)
        | Ok true =>
            r ← runGuardedWrite s player target (remove_body player target);
            Ret (deleted ← r; Ok (0 <? deleted))
        end
  end.

(** The probe before the transaction: the list is full and the target not on it. *)
Definition block_probe (s : option OriginalRole) (player target maxBlocks : Z) : friend_prog (res ()) :=
  if 0 <? maxBlocks then
    n ← role_query s player (fun db x => x = (block_count db player, blockExistsForUpdate db player target));
    Ret (x ← n;
      let '(blocked, already) := x in
      blocked ← scan_u32 blocked;
      guard_err (negb already && (maxBlocks <=? blocked)) ErrBlockListFull)
  else Ret (Ok ()).

Definition Block (s : option OriginalRole) (player target maxBlocks : Z) : friend_prog (res BlockEffect) :=
  match requireRoleActor (fc_bound cf) s player with
  | Err e => Ret (Err e)
  | Ok _ =>
      if (player =? 0) || (target =? 0) || (player =? target) then Ret (Err errInvalidPlayerPair)
      else
        probe ← block_probe s player target maxBlocks;
        match probe with
        | Err e => Ret (Err e)
        | Ok _ => runGuardedWrite s player target (block_body player target maxBlocks)
        end
  end.

Definition Unblock (s : option OriginalRole) (player target : Z) : friend_prog (res ()) :=
  match requireRoleActor (fc_bound cf) s player with
  | Err e => Ret (Err e)
  | Ok _ =>
      if (player =? 0) || (target =? 0) || (player =? target) then Ret (Err errInvalidPlayerPair)
      else call (WriteTx (Roles s [player; target]) (unblock_body player target))
  end.

Definition ListBlocks (s : option OriginalRole) (player : Z) : friend_prog (res (list ((Z * Z) * Z))) :=
  role_query s player (fun db l => selects (fc_read_limit cf) (keys_where (fun k _ => k.1 =? player) (fd_block db)) l).

Definition GetFriendList (s : option OriginalRole) (player : Z) : friend_prog (res (list ((Z * Z) * Z))) :=
  role_query s player (fun db l => selects (fc_read_limit cf) (keys_where (fun k _ => k.1 =? player) (fd_friend db)) l).

Definition queryPendingRequests (s : option OriginalRole) (player : Z) : friend_prog (res (list ((Z * Z) * FriendRequestRow))) :=
  role_query s player (fun db l =>
    selects (fc_read_limit cf) (keys_where (fun k r => (k.2 =? player) && is_pending r) (fd_request db)) l).

Definition ensurePendingRequest (s : option OriginalRole) (from to : Z) : friend_prog (res (FriendRequestRow * bool)) :=
  runRequestWrite s from to (fun candidate => ensure_pending_body from to candidate).

Fixpoint backfill_each (s : option OriginalRole) (player : Z) (l : list ((Z * Z) * FriendRequestRow)) : friend_prog (res bool) :=
  match l with
  | [] => Ret (Ok false)
  | (k, r) :: l =>
      if negb (rq_id r =? 0) then backfill_each s player l
      else
        e ← ensurePendingRequest s k.1 player;
        match e with
        | Err e => Ret (Err e)
        | Ok _ => rest ← backfill_each s player l; Ret (_ ← rest; Ok true)
        end
  end.

(** [loadPendingRequestsFromMySQL] *)
Definition GetPendingRequests (s : option OriginalRole) (player : Z) : friend_prog (res (list ((Z * Z) * FriendRequestRow))) :=
  l ← queryPendingRequests s player;
  match l with
  | Err e => Ret (Err e)
  | Ok l =>
      b ← backfill_each s player l;
      match b with
      | Err e => Ret (Err e)
      | Ok false => Ret (Ok l)
      | Ok true =>
          l ← queryPendingRequests s player;
          Ret (l ← l;
            if existsb (fun kr => rq_id kr.2 =? 0) l then Err ErrMixedVersions else Ok l)
      end
  end.

(** ** The sweep

    [Ok]: rows seen and rows deleted; with an error, the rows deleted so far. *)
Definition sweep_result : Type := Z * Z * option error.

Fixpoint delete_each {K} (one : K -> friend_prog (res Z)) (ks : list K) (deleted : Z) : friend_prog (Z * option error) :=
  match ks with
  | [] => Ret (deleted, None)
  | k :: ks =>
      r ← one k;
      match r with
      | Err e => Ret (deleted, Some e)
      | Ok n => delete_each one ks (deleted + n)
      end
  end.

Definition count_bounded (limit : Z) (f : FriendRequestRow -> bool) : friend_prog (res Z) :=
  call (Query System (fun db n => n = Z.min limit (count_rows (fun _ => f) (fd_request db)))).

Definition deleteTerminalRequestsBefore (cutoff : Z) : friend_prog (Z * option error) :=
  ks ← call (Query System (fun db l =>
    selects (Z.to_nat (fc_batch_limit cf)) (keys_where (fun _ => terminal_before cutoff) (fd_request db)).*1 l));
  match ks with
  | Err e => Ret (0, Some e)
  | Ok ks => delete_each (fun k => call (WriteTx System (delete_terminal_body k cutoff))) ks 0
  end.

Definition SweepTerminalRequests (nowMs : Z) : friend_prog sweep_result :=
  match sweepCutoffMs (fc_retention_days cf) (fc_batch_limit cf) nowMs with
  | Err e => Ret (0, 0, Some e)
  | Ok None => Ret (0, 0, None)
  | Ok (Some cutoff) =>
      n ← count_bounded (fc_batch_limit cf) (terminal_before cutoff);
      match n with
      | Err e => Ret (0, 0, Some e)
      | Ok pending =>
          if (pending =? 0) || negb (fc_sweep_delete cf) then Ret (pending, 0, None)
          else
            m ← count_bounded (fc_batch_limit cf) terminal_undated;
            match m with
            | Err e => Ret (pending, 0, Some e)
            | Ok missing =>
                if 0 <? missing then Ret (pending, 0, None)
                else
                  d ← deleteTerminalRequestsBefore cutoff;
                  Ret (pending, d.1, d.2)
            end
      end
  end.

Definition SweepIdleCapacityRows (nowMs : Z) : friend_prog sweep_result :=
  match sweepCutoffMs (fc_retention_days cf) (fc_batch_limit cf) nowMs with
  | Err e => Ret (0, 0, Some e)
  | Ok None => Ret (0, 0, None)
  | Ok (Some cutoff) =>
      ids ← call (Query System (fun db l =>
        selects (Z.to_nat (fc_batch_limit cf)) (keep_if (fun kx => idle_before cutoff kx.2) (map_to_list (fd_capacity db))).*1 l));
      match ids with
      | Err e => Ret (0, 0, Some e)
      | Ok ids =>
          let idle := Z.of_nat (length ids) in
          if (idle =? 0) || negb (fc_sweep_delete cf) then Ret (idle, 0, None)
          else
            d ← delete_each (fun p => call (WriteTx System (deleteIdleCapacityRow p cutoff))) ids 0;
            Ret (idle, d.1, d.2)
      end
  end.

(** Two parts; the second runs whatever becomes of the first. *)
Definition runSweepRound : friend_prog () :=
  t ← call Now; _ ← SweepTerminalRequests t;
  t ← call Now; _ ← SweepIdleCapacityRows t; Ret ().

(** ** The handlers *)

(** What the interceptors put into the context: the player of the session, and the role. *)
Record Caller := mkCaller { ca_client : option Z; ca_original : option OriginalRole }.

Definition FriendError_kFriendCannotAddSelf : Z := 15000.
Definition FriendError_kFriendAlreadyFriends : Z := 15001.
Definition FriendError_kFriendListFull : Z := 15002.
Definition FriendError_kFriendRequestAlreadySent : Z := 15003.
Definition FriendError_kFriendTargetListFull : Z := 15004.
Definition FriendError_kFriendNoPendingRequest : Z := 15005.
Definition FriendError_kFriendTooManyPending : Z := 15006.
Definition FriendError_kFriendBlocked : Z := 15007.
Definition FriendError_kFriendBlockListFull : Z := 15008.
Definition FriendError_kFriendTargetInboxFull : Z := 15009.
Definition CommonError_kServiceUnavailable : Z := 1003.
Definition CommonError_kInvalidParameter : Z := 1005.
Definition CommonError_kRateLimitExceeded : Z := 1008.

Definition requireCaller (c : Caller) : option Z :=
  match ca_client c with
  | Some me =>
      if me =? 0 then None
      else match ca_original c with Some o => if og_player o =? me then Some me else None | None => None end
  | None => None
  end.

Definition tip_of (table : list (error * Z)) (e : error) : Z :=
  match find_first (fun x => String.eqb x.1 e) table with
  | Some x => x.2
  | None => CommonError_kServiceUnavailable
  end.

(** The adder is the sender, the accepter the acceptor: the two full lists change places. *)
Definition add_tips : list (error * Z) :=
  [(ErrBlocked, FriendError_kFriendBlocked); (ErrAlreadyFriends, FriendError_kFriendAlreadyFriends);
   (ErrRequestAlreadySent, FriendError_kFriendRequestAlreadySent); (ErrTooManyPending, FriendError_kFriendTooManyPending);
   (ErrTargetInboxFull, FriendError_kFriendTargetInboxFull); (ErrSenderFriendsFull, FriendError_kFriendListFull);
   (ErrAcceptorFriendsFull, FriendError_kFriendTargetListFull)].
Definition accept_tips : list (error * Z) :=
  [(ErrBlocked, FriendError_kFriendBlocked); (ErrRequestNotFound, FriendError_kFriendNoPendingRequest);
   (ErrSenderFriendsFull, FriendError_kFriendTargetListFull); (ErrAcceptorFriendsFull, FriendError_kFriendListFull)].
Definition reject_tips : list (error * Z) := [(ErrRequestNotFound, FriendError_kFriendNoPendingRequest)].
Definition block_tips : list (error * Z) := [(ErrBlockListFull, FriendError_kFriendBlockListFull)].

(** A reply: the tip of a refusal, or the number that is returned. *)
Inductive reply := Tip (id : Z) | Done (id : Z).

Definition allowFriendRequest (player : Z) : friend_prog bool :=
  if fc_request_quota cf =? 0 then Ret true
  else
    n ← call (QuotaScript player);
    Ret (match n with Ok count => negb (fc_request_quota cf <? count) | Err _ => true end).

Definition tell (n : notice) : friend_prog () := call (Tell n).

Definition AddFriend (c : Caller) (target : Z) : friend_prog reply :=
  match requireCaller c with
  | None => Ret (Tip CommonError_kInvalidParameter)
  | Some me =>
      if target =? 0 then Ret (Tip CommonError_kInvalidParameter)
      else if me =? target then Ret (Tip FriendError_kFriendCannotAddSelf)
      else
        ok ← allowFriendRequest me;
        if negb ok then Ret (Tip CommonError_kRateLimitExceeded)
        else
          r ← CreateRequest (ca_original c) me target (fc_limits cf);
          match r with
          | Err e => Ret (Tip (tip_of add_tips e))
          | Ok change =>
              _ ← (if Changed change then
                     _ ← tell (Bumped [target] [FRIEND_REQUEST]); tell (Pushed target REQUEST_RECEIVED me)
                   else Ret ());
              Ret (Done (RequestID change))
          end
  end.

Definition AcceptFriend (c : Caller) (requestID : Z) : friend_prog reply :=
  match requireCaller c with
  | None => Ret (Tip CommonError_kInvalidParameter)
  | Some me =>
      if requestID =? 0 then Ret (Tip CommonError_kInvalidParameter)
      else
        r ← AcceptRequest (ca_original c) requestID me (MaxFriends (fc_limits cf));
        match r with
        | Err e => Ret (Tip (tip_of accept_tips e))
        | Ok change =>
            if negb (Changed change) then Ret (Done 0)
            else
              _ ← tell (Bumped [me; FromPlayerID change] [FRIEND_LIST; FRIEND_REQUEST]);
              _ ← tell (Pushed (FromPlayerID change) REQUEST_ACCEPTED me);
              Ret (Done 0)
        end
  end.

Definition RejectFriend (c : Caller) (requestID : Z) : friend_prog reply :=
  match requireCaller c with
  | None => Ret (Tip CommonError_kInvalidParameter)
  | Some me =>
      if requestID =? 0 then Ret (Tip CommonError_kInvalidParameter)
      else
        r ← RejectRequest (ca_original c) requestID me;
        match r with
        | Err e => Ret (Tip (tip_of reject_tips e))
        | Ok change =>
            if negb (Changed change) then Ret (Done 0)
            else _ ← tell (Bumped [me] [FRIEND_REQUEST]); Ret (Done 0)
        end
  end.

Definition RemoveFriendHandler (c : Caller) (target : Z) : friend_prog reply :=
  match requireCaller c with
  | None => Ret (Tip CommonError_kInvalidParameter)
  | Some me =>
      if target =? 0 then Ret (Tip CommonError_kInvalidParameter)
      else
        r ← RemoveFriend (ca_original c) me target;
        match r : res bool with
        | Err e => Ret (Tip CommonError_kServiceUnavailable)
        | Ok removed =>
            _ ← (if removed then tell (Bumped [me; target] [FRIEND_LIST]) else Ret ());
            Ret (Done 0)
        end
  end.

(** The domains of the blocked player: only what really changed for him. *)
Definition peer_domains (e : BlockEffect) : list SyncDomain :=
  (if EdgeRemoved e then [FRIEND_LIST] else []) ++ (if OutboundPendingRejected e then [FRIEND_REQUEST] else []).

Definition BlockHandler (c : Caller) (target : Z) : friend_prog reply :=
  match requireCaller c with
  | None => Ret (Tip CommonError_kInvalidParameter)
  | Some me =>
      if (target =? 0) || (target =? me) then Ret (Tip CommonError_kInvalidParameter)
      else
        r ← Block (ca_original c) me target (fc_max_blocks cf);
        match r with
        | Err e => Ret (Tip (tip_of block_tips e))
        | Ok effect =>
            _ ← tell (Bumped [me] [FRIEND_BLOCK; FRIEND_LIST; FRIEND_REQUEST]);
            _ ← (match peer_domains effect with [] => Ret () | ds => tell (Bumped [target] ds) end);
            Ret (Done 0)
        end
  end.

Definition UnblockHandler (c : Caller) (target : Z) : friend_prog reply :=
  match requireCaller c with
  | None => Ret (Tip CommonError_kInvalidParameter)
  | Some me =>
      if (target =? 0) || (target =? me) then Ret (Tip CommonError_kInvalidParameter)
      else
        r ← Unblock (ca_original c) me target;
        match r with
        | Err e => Ret (Tip CommonError_kServiceUnavailable)
        | Ok _ => _ ← tell (Bumped [me] [FRIEND_BLOCK]); Ret (Done 0)
        end
  end.

(** ** The service: any request at any replica, and the sweep *)
Inductive friend_starts : world -> friend_prog () -> world -> Prop :=
  | start_add w c target : friend_starts w (_ ← AddFriend c target; Ret ()) w
  | start_accept w c id : friend_starts w (_ ← AcceptFriend c id; Ret ()) w
  | start_reject w c id : friend_starts w (_ ← RejectFriend c id; Ret ()) w
  | start_remove w c target : friend_starts w (_ ← RemoveFriendHandler c target; Ret ()) w
  | start_block w c target : friend_starts w (_ ← BlockHandler c target; Ret ()) w
  | start_unblock w c target : friend_starts w (_ ← UnblockHandler c target; Ret ()) w
  | start_pending w s p : friend_starts w (_ ← GetPendingRequests s p; Ret ()) w
  | start_list w s p : friend_starts w (_ ← GetFriendList s p; Ret ()) w
  | start_blocks w s p : friend_starts w (_ ← ListBlocks s p; Ret ()) w
  | start_sweep w : friend_starts w runSweepRound w.

(** Time passes, and the directory of the roles changes. *)
Definition friend_env (w w' : world) : Prop :=
  fw_now w <= fw_now w' /\
  w' = mkWorld (fw_now w') (fw_db w) (fw_roles w') (fw_issued w) (fw_used w) (fw_quota w) (fw_told w).

(** All replicas, and what they share: from tables as they are, with the generations in them
    taken. *)
Definition friend_world (db : FriendDB) : world := mkWorld 0 db ∅ (ids_of db) (ids_of db) ∅ [].

Definition friend_step : relation (list (friend_prog ()) * world) := sys_step friend_run friend_env friend_starts.

Definition friend_reaches (db : FriendDB) : list (friend_prog ()) * world -> Prop := rtc friend_step ([], friend_world db).
End serve.
