(* ===== verification/FriendThms.v ===== *)
(** * Friends: what a transaction does to the tables

    The invariant [db_ok] of the four tables - the two edges of a friendship go together,
    the capacity row of a player counts his edges, friends, pending requests and blocked
    players stay apart, the limits hold - and that every body keeps it. [moves] is what may
    happen to the capacity row of a player in one transaction. *)

From stdpp Require Import base list gmap strings.
From Stdlib Require Import ZArith Lia.
From S2P Require Import Prelude RoleRoute DbProg FriendStore FriendServe.
Local Open Scope Z_scope.

(** ** The invariant *)
Definition counts_ok (db : FriendDB) : Prop :=
  forall p c, fd_capacity db !! p = Some c -> cp_count c = friend_count db p.

Record apart (db : FriendDB) : Prop := {
  ap_sym : forall a b, is_Some (fd_friend db !! (a, b)) -> is_Some (fd_friend db !! (b, a));
  ap_self : forall a, fd_friend db !! (a, a) = None;
  ap_edge : forall a b, is_Some (fd_friend db !! (a, b)) -> pending_row db a b = None;
  ap_block : forall a b, is_Some (fd_block db !! (a, b)) ->
    fd_friend db !! (a, b) = None /\ pending_row db a b = None /\ pending_row db b a = None }.

Definition within (limit n : Z) : Prop := 0 < limit -> n <= limit.

Record quotas_ok (lim : AddFriendLimits) (max_blocks : Z) (db : FriendDB) : Prop := {
  qo_friends : forall p, within (MaxFriends lim) (friend_count db p);
  qo_out : forall p, within (MaxPendingRequests lim) (outgoing_pending db p);
  qo_in : forall p, within (MaxIncomingRequests lim) (incoming_pending db p);
  qo_blocks : forall p, within max_blocks (block_count db p) }.

(** A generation names one request; 0 is none. *)
Definition ids_ok (db : FriendDB) : Prop :=
  forall k1 k2 r1 r2, fd_request db !! k1 = Some r1 -> fd_request db !! k2 = Some r2 ->
    rq_id r1 = rq_id r2 -> rq_id r1 <> 0 -> k1 = k2.

Record db_ok (cf : FriendConf) (db : FriendDB) : Prop := {
  do_counts : counts_ok db;
  do_apart : apart db;
  do_quotas : quotas_ok (fc_limits cf) (fc_max_blocks cf) db;
  do_ids : ids_ok db }.

Lemma ids_of_spec db id : id ∈ ids_of db <-> exists k r, fd_request db !! k = Some r /\ rq_id r = id.
Proof.
  unfold ids_of. rewrite elem_of_list_to_set, list_elem_of_fmap. split.
  - intros (r & -> & Hr). apply list_elem_of_fmap in Hr as ([k r'] & -> & Hkr). apply elem_of_map_to_list in Hkr. eauto.
  - intros (k & r & Hr & <-). exists r. split; [done|]. apply list_elem_of_fmap. exists (k, r). split; [done|].
    by apply elem_of_map_to_list.
Qed.

(** ** Reads *)
Lemma lockRowExists_true {A} (m : gmap (Z * Z) A) k : lockRowExists m k = true <-> is_Some (m !! k).
Proof. apply bool_decide_eq_true. Qed.

Lemma lockRowExists_false {A} (m : gmap (Z * Z) A) k : lockRowExists m k = false <-> m !! k = None.
Proof. unfold lockRowExists. rewrite bool_decide_eq_false. by rewrite eq_None_not_Some. Qed.

Lemma either_way_false {A} (m : gmap (Z * Z) A) a b :
  either_way m a b = false <-> m !! (a, b) = None /\ m !! (b, a) = None.
Proof. unfold either_way. destruct (lockRowExists m (a, b)) eqn:E; rewrite <- ?lockRowExists_false; naive_solver congruence. Qed.

Lemma pending_row_Some db a b r :
  pending_row db a b = Some r <-> fd_request db !! (a, b) = Some r /\ rq_status r = requestStatusPending.
Proof.
  unfold pending_row, is_pending. destruct (fd_request db !! (a, b)) as [r'|]; [|naive_solver].
  destruct (rq_status r' =? requestStatusPending) eqn:E; zbool; naive_solver.
Qed.

Lemma pending_row_None db a b r :
  pending_row db a b = None -> fd_request db !! (a, b) = Some r -> rq_status r <> requestStatusPending.
Proof. intros Hn Hr Hs. assert (pending_row db a b = Some r) by (by apply pending_row_Some). congruence. Qed.

(** ** The capacity row of a player *)
Section caps.
Context (cf : FriendConf) (now : Z).

(** A transaction that holds the guard. *)
Definition moved (db db' : FriendDB) (p : Z) : Prop :=
  match fd_capacity db !! p, fd_capacity db' !! p with
  | None, None => friend_count db' p = friend_count db p
  | Some c, Some c' =>
      (friend_count db' p = friend_count db p /\ cp_created_ms c' = cp_created_ms c) \/
      (friend_count db p < friend_count db' p /\ cp_created_ms c' = cp_created_ms c) \/
      now - fc_slack cf <= cp_created_ms c'
  | _, _ => False
  end.

(** Any transaction, the sweep's and that of [ensure] included. *)
Definition moves (db db' : FriendDB) (p : Z) : Prop :=
  match fd_capacity db !! p, fd_capacity db' !! p with
  | None, Some c => friend_count db' p = friend_count db p /\ now - fc_slack cf <= cp_created_ms c
  | Some c, None =>
      friend_count db' p = friend_count db p /\ cp_count c = 0 /\
      cp_created_ms c < now + fc_slack cf - fc_retention_days cf * millisPerDay
  | _, _ => moved db db' p
  end.

Lemma moved_moves db db' p : moved db db' p -> moves db db' p.
Proof. unfold moved, moves, moved. 
 destruct (fd_capacity db !! p), (fd_capacity db' !! p); [exact id|done|done|exact id]. Qed.

Lemma moved_refl db p : moved db db p.
Proof. unfold moved. destruct (fd_capacity db !! p); [by left|done]. Qed.

Lemma moved_trans a b c p : moved a b p -> moved b c p -> moved a c p.
Proof.
  unfold moved. destruct (fd_capacity a !! p), (fd_capacity b !! p), (fd_capacity c !! p); [|done..|lia].
  intros H1 H2. destruct H1 as [[? ?]|[[? ?]|?]], H2 as [[? ?]|[[? ?]|?]].
  all: (left; split; lia) || (right; left; split; lia) || (right; right; lia).
Qed.

Lemma moved_same db db' p : fd_capacity db' = fd_capacity db -> fd_friend db' = fd_friend db -> moved db db' p.
Proof. unfold moved, friend_count. intros -> ->. destruct (fd_capacity db !! p); [by left|done]. Qed.
End caps.

(** ** Requests end *)

(** Requests are only dropped or ended. *)
Definition reqs_end (db db' : FriendDB) : Prop :=
  forall k r', fd_request db' !! k = Some r' ->
    exists r, fd_request db !! k = Some r /\ rq_id r' = rq_id r /\ (is_pending r' = true -> r' = r).

Lemma reqs_end_refl db : reqs_end db db.
Proof. intros k r Hr. by exists r. Qed.

Lemma reqs_end_trans a b c : reqs_end a b -> reqs_end b c -> reqs_end a c.
Proof.
  intros H1 H2 k r Hr. destruct (H2 _ _ Hr) as (r2 & Hr2 & Hid2 & Hp2). destruct (H1 _ _ Hr2) as (r3 & Hr3 & Hid3 & Hp3).
  exists r3. split_and!; [done|congruence|]. intros Hp. pose proof (Hp2 Hp) as <-. by apply Hp3.
Qed.

Lemma reqs_end_pending db db' a b : reqs_end db db' -> pending_row db a b = None -> pending_row db' a b = None.
Proof.
  intros He Hn. destruct (pending_row db' a b) as [r|] eqn:E; [|done]. apply pending_row_Some in E as [Hr Hs].
  destruct (He _ _ Hr) as (r0 & Hr0 & _ & Hp). assert (is_pending r = true) as Hpr by (unfold is_pending; zlia).
  rewrite <- (Hp Hpr) in Hr0. by pose proof (pending_row_None _ _ _ _ Hn Hr0).
Qed.

Lemma reqs_end_ids db db' : reqs_end db db' -> ids_ok db -> ids_ok db'.
Proof.
  intros He Hi k1 k2 r1 r2 H1 H2 Hid Hn. destruct (He _ _ H1) as (q1 & Hq1 & E1 & _), (He _ _ H2) as (q2 & Hq2 & E2 & _).
  apply (Hi k1 k2 q1 q2); congruence.
Qed.

Lemma reqs_end_ids_of db db' : reqs_end db db' -> ids_of db' ⊆ ids_of db.
Proof.
  intros He id (k & r & Hr & <-)%ids_of_spec. destruct (He _ _ Hr) as (r0 & Hr0 & -> & _). apply ids_of_spec. eauto.
Qed.

Lemma reqs_end_count (f : Z * Z -> bool) db db' : reqs_end db db' ->
  count_rows (fun k r => f k && is_pending r) (fd_request db') <= count_rows (fun k r => f k && is_pending r) (fd_request db).
Proof.
  intros He. apply count_rows_mono. intros k r' Hr' [Hf Hp]%andb_true_iff. destruct (He _ _ Hr') as (r & Hr & _ & Heq).
  exists r. split; [done|]. rewrite <- (Heq Hp), Hf. by rewrite Hp.
Qed.

Lemma reqs_end_out db db' p : reqs_end db db' -> outgoing_pending db' p <= outgoing_pending db p.
Proof. apply (reqs_end_count (fun k => k.1 =? p)). Qed.

Lemma reqs_end_in db db' p : reqs_end db db' -> incoming_pending db' p <= incoming_pending db p.
Proof. apply (reqs_end_count (fun k => k.2 =? p)). Qed.

(** Everything but the requests stays. *)
Definition rest_same (db db' : FriendDB) : Prop :=
  fd_friend db' = fd_friend db /\ fd_capacity db' = fd_capacity db /\ fd_block db' = fd_block db.

Lemma end_pending_spec status now db k hit db' : end_pending status now db k = (hit, db') ->
  status <> requestStatusPending ->
  reqs_end db db' /\ rest_same db db' /\ pending_row db' k.1 k.2 = None /\
  (hit = true <-> is_Some (pending_row db k.1 k.2)) /\
  (forall k', k' <> k -> fd_request db' !! k' = fd_request db !! k') /\
  fd_request db' !! k = (fun r => if is_pending r then mkRequest (rq_time_ms r) status now (rq_id r) else r) <$> fd_request db !! k.
Proof.
  destruct k as [a b]. unfold end_pending, rest_same. intros He Hs. cbn [fst snd].
  assert (pending_row db a b = match fd_request db !! (a, b) with Some r => if is_pending r then Some r else None | None => None end) as Hp by done.
  destruct (fd_request db !! (a, b)) as [r|] eqn:Hr; [destruct (is_pending r) eqn:Hpr|]; simplify_eq; cbn.
  - split_and!; try done.
    + intros k' r'. cbn. intros [[<- <-]|[Hne Hr']]%lookup_insert_Some; [|by exists r'].
      exists r. split_and!; [done|done|]. unfold is_pending. cbn. intros. zbool. congruence.
    + unfold pending_row. cbn. rewrite lookup_insert_eq. unfold is_pending. cbn. by rewrite (proj2 (Z.eqb_neq _ _)).
    + intros k' Hk. by rewrite lookup_insert_ne by congruence.
    + rewrite lookup_insert_eq. cbn. by rewrite Hpr.
  - split_and!; try done; [apply reqs_end_refl|by rewrite Hp; split; [|intros []]|rewrite Hr; cbn; by rewrite Hpr].
  - split_and!; try done; [apply reqs_end_refl|by rewrite Hp; split; [|intros []]].
Qed.

(** ** Edges come and go *)
Section edges.
Context (cf : FriendConf) (at_ now : Z).

Lemma friend_count_nonneg db p : 0 <= friend_count db p.
Proof. apply count_rows_nonneg. Qed.

Lemma friend_count_pos db p q : is_Some (fd_friend db !! (p, q)) -> 1 <= friend_count db p.
Proof. intros [t Ht]. eapply count_rows_pos; [exact Ht|]. by apply Z.eqb_eq. Qed.

Lemma decrement_count_spec db p : (forall c, fd_capacity db !! p = Some c -> 0 < cp_count c) ->
  fd_friend (decrement_count now db p) = fd_friend db /\ fd_request (decrement_count now db p) = fd_request db /\
  fd_block (decrement_count now db p) = fd_block db /\
  (forall q, fd_capacity (decrement_count now db p) !! q =
    if decide (q = p) then (fun c => mkCapacity (cp_count c - 1) now) <$> fd_capacity db !! q else fd_capacity db !! q).
Proof.
  intros Hpos. unfold decrement_count. destruct (fd_capacity db !! p) as [c|] eqn:Hc.
  - rewrite (proj2 (Z.ltb_lt _ _)) by by apply Hpos. split_and!; try done. intros q. cbn. case_decide as Hq.
    + subst. rewrite lookup_insert_eq. by rewrite Hc.
    + by rewrite lookup_insert_ne by congruence.
  - split_and!; try done. intros q. case_decide; [|done]. subst. by rewrite Hc.
Qed.

(** The rows other than friends and capacities stay. *)
Definition social_same (db db' : FriendDB) : Prop := fd_request db' = fd_request db /\ fd_block db' = fd_block db.

Lemma delete_edge_spec n db a b n' db' : counts_ok db -> delete_edge now (n, db) (a, b) = (n', db') ->
  (is_Some (fd_friend db !! (a, b)) -> is_Some (fd_capacity db !! a)) -> at_ - fc_slack cf <= now ->
  fd_friend db' = delete (a, b) (fd_friend db) /\ social_same db db' /\ counts_ok db' /\
  n' = n + b2z (lockRowExists (fd_friend db) (a, b)) /\ (forall p, moved cf at_ db db' p) /\
  (forall p, is_Some (fd_capacity db !! p) -> is_Some (fd_capacity db' !! p)).
Proof.
  intros Hc He Hcap Hslack. unfold delete_edge in He. destruct (fd_friend db !! (a, b)) as [t|] eqn:Ht; simplify_eq.
  - set (db1 := set_friend db (delete (a, b) (fd_friend db))).
    assert (forall p, friend_count db1 p = friend_count db p - b2z (a =? p)) as Hfc.
    { intros p. unfold friend_count, db1. cbn. by rewrite (count_rows_delete _ _ _ t). }
    assert (forall c, fd_capacity db1 !! a = Some c -> 0 < cp_count c) as Hpos.
    { intros c Hcc. rewrite (Hc a c Hcc). assert (1 <= friend_count db a) by (by eapply friend_count_pos). lia. }
    destruct (decrement_count_spec db1 a Hpos) as (Hf & Hr & Hb & Hcs). cbn [fst].
    assert (forall p, friend_count (decrement_count now db1 a) p = friend_count db1 p) as Hfc' by (intros p; unfold friend_count; by rewrite Hf).
    split_and!; [done|split; [by rewrite Hr|by rewrite Hb]| | | |].
    + intros p c Hcc. rewrite Hfc', Hfc. rewrite Hcs in Hcc. case_decide as Hp.
      * subst. apply fmap_Some in Hcc as (c0 & Hc0 & ->). cbn. rewrite (Hc a c0 Hc0), Z.eqb_refl. cbn. lia.
      * rewrite (Hc p c Hcc). rewrite (proj2 (Z.eqb_neq _ _)) by done. cbn. lia.
    + unfold lockRowExists. rewrite Ht. by rewrite bool_decide_eq_true_2.
    + intros p. unfold moved. rewrite Hfc', Hfc, Hcs. cbn. case_decide as Hp.
      * subst. destruct (fd_capacity db !! a) eqn:E; cbn.
        { right. right. lia. } { destruct (Hcap ltac:(done)) as [? ?]. congruence. }
      * rewrite (proj2 (Z.eqb_neq _ _)) by done. cbn. destruct (fd_capacity db !! p); [left; lia|lia].
    + intros p Hp. rewrite Hcs. cbn. case_decide; [by apply fmap_is_Some|done].
  - split_and!; try done; [by rewrite delete_id|unfold lockRowExists; rewrite Ht; cbn; lia|intros; apply moved_refl].
Qed.

Lemma deleteFriendEdges_spec a b db n db' : counts_ok db -> deleteFriendEdges a b now db = (n, db') ->
  is_Some (fd_capacity db !! a) -> is_Some (fd_capacity db !! b) -> a <> b -> at_ - fc_slack cf <= now ->
  fd_friend db' = delete (b, a) (delete (a, b) (fd_friend db)) /\ social_same db db' /\ counts_ok db' /\
  n = b2z (lockRowExists (fd_friend db) (a, b)) + b2z (lockRowExists (fd_friend db) (b, a)) /\
  (forall p, moved cf at_ db db' p).
Proof.
  intros Hc He Ha Hb Hab Hs. unfold deleteFriendEdges in He. cbn [fold_left] in He.
  destruct (delete_edge now (0, db) (a, b)) as [n1 db1] eqn:E1.
  destruct (delete_edge_spec _ _ _ _ _ _ Hc E1 ltac:(done) Hs) as (Hf1 & [Hr1 Hb1] & Hc1 & Hn1 & Hm1 & Hk1).
  destruct (delete_edge_spec _ _ _ _ _ _ Hc1 He ltac:(intros; by apply Hk1) Hs) as (Hf2 & [Hr2 Hb2] & Hc2 & Hn2 & Hm2 & _).
  split_and!; [by rewrite Hf2, Hf1|split; congruence|done| |intros p; by eapply moved_trans].
  rewrite Hn2, Hn1, Hf1. unfold lockRowExists. rewrite lookup_delete_ne by congruence. lia.
Qed.

Lemma insert_edge_spec db a b db' : counts_ok db -> insert_edge now db (a, b) = Ok db' ->
  fd_friend db !! (a, b) = None -> is_Some (fd_capacity db !! a) ->
  fd_friend db' = <[(a, b) := now]> (fd_friend db) /\ social_same db db' /\ counts_ok db' /\
  (forall p, moved cf at_ db db' p) /\ (forall p, friend_count db' p = friend_count db p + b2z (a =? p)) /\
  (forall p, is_Some (fd_capacity db !! p) -> is_Some (fd_capacity db' !! p)).
Proof.
  intros Hc He Hn [c Hcap]. unfold insert_edge, lockRowExists in He. rewrite bool_decide_eq_false_2 in He by (rewrite Hn; by intros []).
  cbn in He. rewrite Hcap in He. destruct (cp_count c + 1 <? u32_mod); [|done]. injection He as <-. cbn.
  assert (forall p, friend_count (set_capacity (set_friend db (<[(a, b):=now]> (fd_friend db)))
    (<[a := mkCapacity (cp_count c + 1) (cp_created_ms c)]> (fd_capacity db))) p = friend_count db p + b2z (a =? p)) as Hfc.
  { intros p. unfold friend_count. cbn. rewrite count_rows_insert by done. cbn. lia. }
  split_and!; try done.
  - intros p c0. cbn. rewrite Hfc. intros [[<- <-]|[Hne H0]]%lookup_insert_Some.
    + cbn. rewrite (Hc a c Hcap), Z.eqb_refl. done.
    + rewrite (Hc p c0 H0). rewrite (proj2 (Z.eqb_neq _ _)) by done. cbn. lia.
  - intros p. unfold moved. rewrite Hfc. cbn. destruct (decide (a = p)) as [<-|Hne].
    + rewrite lookup_insert_eq, Hcap, Z.eqb_refl. cbn. right. left. lia.
    + rewrite lookup_insert_ne by done. rewrite (proj2 (Z.eqb_neq _ _)) by done. cbn. destruct (fd_capacity db !! p); [left; lia|lia].
  - intros p Hp. destruct (decide (a = p)) as [<-|Hne]; [by rewrite lookup_insert_eq|by rewrite lookup_insert_ne].
Qed.
End edges.

(** ** The guard and the limits *)
Lemma ascending_pair a b p : p ∈ ascendingUniqueIDs [a; b] <-> p = a \/ p = b.
Proof. cbn. destruct (b <? a); split_if; zbool; set_solver. Qed.

Lemma lock_capacity_eq db counts id : lock_capacity db counts id =
  match fd_capacity db !! id with Some r => Ok (<[id := cp_count r]> counts) | None => Err errCapacityRowsMissing end.
Proof. done. Qed.

Lemma lock_capacity_fold db ids acc counts : fold_res (lock_capacity db) acc ids = Ok counts ->
  forall p, (p ∈ ids -> exists c, fd_capacity db !! p = Some c /\ counts !! p = Some (cp_count c)) /\
    (p ∉ ids -> counts !! p = acc !! p).
Proof.
  revert acc. induction ids as [|i ids IH]; cbn; intros acc.
  - intros [= <-] p. split; [by intros ?%elem_of_nil|done].
  - rewrite lock_capacity_eq. destruct (fd_capacity db !! i) as [c|] eqn:Hc; cbn; [|intros [=]]. intros Hf p.
    destruct (IH _ Hf p) as [Hin Hout]. split.
    + intros [->|Hp]%elem_of_cons; [|by apply Hin]. destruct (decide (i ∈ ids)); [by apply Hin|].
      exists c. split; [done|]. rewrite Hout by done. by rewrite lookup_insert_eq.
    + intros [Hne Hp]%not_elem_of_cons. rewrite Hout by done. by rewrite lookup_insert_ne.
Qed.

Lemma lockCapacityRows_Ok db a b counts : lockCapacityRows db [a; b] = Ok counts ->
  forall p, p = a \/ p = b -> exists c, fd_capacity db !! p = Some c /\ counted counts p = cp_count c.
Proof.
  intros Hl p Hp. destruct (lock_capacity_fold _ _ _ _ Hl p) as [Hin _].
  destruct Hin as (c & Hc & Hk); [by apply ascending_pair|]. exists c. split; [done|]. unfold counted. by rewrite Hk.
Qed.

(** The guard fails only on a row that is not there. *)
Lemma lockCapacityRows_Err db a b e : lockCapacityRows db [a; b] = Err e ->
  e = errCapacityRowsMissing /\ exists p, (p = a \/ p = b) /\ fd_capacity db !! p = None.
Proof.
  unfold lockCapacityRows. intros Hl. assert (forall ids acc, fold_res (lock_capacity db) acc ids = Err e ->
    e = errCapacityRowsMissing /\ exists p, p ∈ ids /\ fd_capacity db !! p = None) as Hgen.
  { induction ids as [|i ids IH]; cbn; intros acc; [done|]. rewrite lock_capacity_eq.
    destruct (fd_capacity db !! i) eqn:Hi; cbn; intros Hf.
    - destruct (IH _ Hf) as (-> & p & Hp & Hn). split; [done|]. exists p. split; [by right|done].
    - injection Hf as <-. split; [done|]. exists i. split; [left|done]. }
  destruct (Hgen _ _ Hl) as (-> & p & Hp & Hn). split; [done|]. exists p. by rewrite <- ascending_pair.
Qed.

Lemma count_at_limit_Ok limit n e u : count_at_limit limit n e = Ok u -> 0 < limit -> n < limit.
Proof. unfold count_at_limit, scan_u32. repeat split_if; intros; res_inv; zbool; try done; lia. Qed.

Lemma at_limit_Ok limit n e u : at_limit limit n e = Ok u -> 0 < limit -> n < limit.
Proof. unfold at_limit. intros H1%guard_Ok H2. zlia. Qed.

(** ** Every body keeps the invariant *)

(** [o]: the generations the transaction may bring into the table. *)
Definition pending_from (o : gset Z) (db db' : FriendDB) : Prop :=
  forall k r', fd_request db' !! k = Some r' -> is_pending r' = true ->
    rq_id r' ∈ o \/ exists r, fd_request db !! k = Some r /\ is_pending r = true /\ rq_id r = rq_id r'.

Record tx_ok (cf : FriendConf) (at_ : Z) (o : gset Z) (db db' : FriendDB) : Prop := {
  tk_db : db_ok cf db';
  tk_ids : ids_of db' ⊆ ids_of db ∪ o;
  tk_pending : pending_from o db db';
  tk_moves : forall p, moves cf at_ db db' p }.

Section bodies.
Context (cf : FriendConf) (at_ now : Z).
Implicit Types (db : FriendDB) (o : gset Z).

Lemma reqs_end_from o db db' : reqs_end db db' -> pending_from o db db'.
Proof.
  intros He k r' Hr' Hp. right. destruct (He _ _ Hr') as (r & Hr & _ & Heq). pose proof (Heq Hp) as ->. eauto.
Qed.

Lemma tx_ok_refl o db : db_ok cf db -> tx_ok cf at_ o db db.
Proof.
  intros Hd. split; [done|set_solver|by apply reqs_end_from, reqs_end_refl|]. intros p. apply moved_moves, moved_refl.
Qed.

Lemma tx_ok_mono o o' db db' : o ⊆ o' -> tx_ok cf at_ o db db' -> tx_ok cf at_ o' db db'.
Proof.
  intros Ho [? ? Hp ?]. split; [done|set_solver| |done]. intros k r Hr Hpr. destruct (Hp _ _ Hr Hpr); [left; set_solver|by right].
Qed.

(** Requests end, nothing else happens. *)
Lemma reqs_end_tx_ok db db' : db_ok cf db -> reqs_end db db' -> rest_same db db' -> tx_ok cf at_ ∅ db db'.
Proof.
  intros [Hc [Hs Hself He Hb] [Qf Qo Qi Qb] Hi] Hr (Ef & Ec & Eb). split.
  - split.
    + unfold counts_ok, friend_count. by rewrite Ec, Ef.
    + split; rewrite ?Ef, ?Eb; try done.
      * intros a b Hab. eapply reqs_end_pending; [done|by apply He].
      * intros a b Hab. destruct (Hb _ _ Hab) as (? & ? & ?). split_and!; [done|by eapply reqs_end_pending..].
    + split; unfold within in *; intros p Hp.
      * unfold friend_count. rewrite Ef. by apply Qf.
      * pose proof (reqs_end_out _ _ p Hr). specialize (Qo p Hp). lia.
      * pose proof (reqs_end_in _ _ p Hr). specialize (Qi p Hp). lia.
      * unfold block_count. rewrite Eb. by apply Qb.
    + by eapply reqs_end_ids.
  - pose proof (reqs_end_ids_of _ _ Hr). set_solver.
  - by apply reqs_end_from.
  - intros p. by apply moved_moves, moved_same.
Qed.

(** A generation is new: no row has it. *)
Lemma fresh_id_ok db k r : ids_ok db -> rq_id r ∉ ids_of db -> ids_ok (set_request db (<[k := r]> (fd_request db))).
Proof.
  intros Hi Hn k1 k2 r1 r2. cbn. assert (forall k' r', fd_request db !! k' = Some r' -> rq_id r' <> rq_id r) as Hd.
  { intros k' r' Hr' E. apply Hn. apply ids_of_spec. exists k', r'. by split. }
  intros [[<- <-]|[? H1]]%lookup_insert_Some [[<- <-]|[? H2]]%lookup_insert_Some; [done| | |by apply (Hi k1 k2)].
  - intros E. by destruct (Hd _ _ H2).
  - intros E. by destruct (Hd _ _ H1).
Qed.

Lemma set_request_ids db k r : ids_of (set_request db (<[k := r]> (fd_request db))) ⊆ ids_of db ∪ {[rq_id r]}.
Proof.
  intros id (k' & r' & Hr' & <-)%ids_of_spec. cbn in Hr'. apply lookup_insert_Some in Hr' as [[_ <-]|[_ Hr']]; [set_solver|].
  apply elem_of_union_l, ids_of_spec. eauto.
Qed.

Lemma set_request_from o db k r : rq_id r ∈ o -> pending_from o db (set_request db (<[k := r]> (fd_request db))).
Proof. intros Ho k' r'. cbn. intros [[_ <-]|[_ Hr']]%lookup_insert_Some Hp; [by left|right; eauto]. Qed.

Lemma backfill_tx_ok db from to id db' : db_ok cf db -> id ∉ ids_of db -> backfillPendingRequestID db from to id = Ok db' ->
  tx_ok cf at_ {[id]} db db'.
Proof.
  intros [Hc [Hs Hself He Hb] [Qf Qo Qi Qb] Hi] Hid. unfold backfillPendingRequestID.
  destruct (fd_request db !! (from, to)) as [r|] eqn:Hr; [|done]. destruct (is_pending r && (rq_id r =? 0)) eqn:Hp; [|done].
  intros [= <-]. apply andb_true_iff in Hp as [Hp _].
  set (r' := mkRequest (rq_time_ms r) (rq_status r) (rq_updated_ms r) id).
  assert (forall a b, pending_row db a b = None -> pending_row (set_request db (<[(from, to) := r']> (fd_request db))) a b = None) as Hpend.
  { intros a b Hn. unfold pending_row in *. cbn. destruct (decide ((from, to) = (a, b))) as [[= <- <-]|Hne].
    - rewrite lookup_insert_eq. rewrite Hr, Hp in Hn. done.
    - by rewrite lookup_insert_ne. }
  assert (forall f, count_rows (fun k x => f k && is_pending x) (<[(from, to) := r']> (fd_request db)) =
    count_rows (fun k x => f k && is_pending x) (fd_request db)) as Hcount.
  { intros f. rewrite (count_rows_update _ _ _ _ r) by done. unfold is_pending, r'. cbn. lia. }
  split.
  - split; [done| | |by apply fresh_id_ok].
    + split; cbn; try done; [intros a b Hab; apply Hpend; by apply He|].
      intros a b Hab. destruct (Hb _ _ Hab) as (? & ? & ?). split_and!; [done|by apply Hpend..].
    + split; try done; intros p; unfold outgoing_pending, incoming_pending; cbn;
        [rewrite (Hcount (fun k => k.1 =? p)); apply Qo|rewrite (Hcount (fun k => k.2 =? p)); apply Qi].
  - apply set_request_ids.
  - apply set_request_from. set_solver.
  - intros p. by apply moved_moves, moved_same.
Qed.

Lemma new_request_tx_ok db from to id : db_ok cf db -> id ∉ ids_of db ->
  blockedEitherWay db from to = false -> friendEdgeExistsForUpdate db from to = false -> pending_row db from to = None ->
  (0 < MaxPendingRequests (fc_limits cf) -> outgoing_pending db from < MaxPendingRequests (fc_limits cf)) ->
  (0 < MaxIncomingRequests (fc_limits cf) -> incoming_pending db to < MaxIncomingRequests (fc_limits cf)) ->
  tx_ok cf at_ {[id]} db (set_request db (<[(from, to) := mkRequest now requestStatusPending now id]> (fd_request db))).
Proof.
  intros [Hc [Hs Hself He Hb] [Qf Qo Qi Qb] Hi] Hid [Hb1 Hb2]%either_way_false [He1 He2]%either_way_false Hn Ho Hin.
  assert (forall a b, (from, to) <> (a, b) -> pending_row db a b = None ->
    pending_row (set_request db (<[(from, to) := mkRequest now requestStatusPending now id]> (fd_request db))) a b = None) as Hpend.
  { intros a b Hne Hp. unfold pending_row in *. cbn. by rewrite lookup_insert_ne. }
  assert (forall f, count_rows (fun k x => f k && is_pending x) (<[(from, to) := mkRequest now requestStatusPending now id]> (fd_request db)) =
    count_rows (fun k x => f k && is_pending x) (fd_request db) + b2z (f (from, to))) as Hcount.
  { intros f. destruct (fd_request db !! (from, to)) as [r|] eqn:Hr.
    - rewrite (count_rows_update _ _ _ _ r) by done. pose proof (pending_row_None _ _ _ _ Hn Hr) as Hs'.
      unfold is_pending. rewrite (proj2 (Z.eqb_neq _ _) Hs'). cbn. rewrite andb_false_r, andb_true_r. cbn. lia.
    - rewrite count_rows_insert by done. unfold is_pending at 1. cbn. rewrite andb_true_r. lia. }
  split.
  - split; [done| | |by apply fresh_id_ok].
    + split; cbn; try done.
      * intros a b Hab. apply Hpend; [|by apply He]. intros [= <- <-]. rewrite He1 in Hab. by destruct Hab.
      * intros a b Hab. destruct (Hb _ _ Hab) as (? & ? & ?). split_and!; [done|apply Hpend; [|done]..].
        -- intros [= <- <-]. rewrite Hb1 in Hab. by destruct Hab.
        -- intros [= <- <-]. rewrite Hb2 in Hab. by destruct Hab.
    + split; try done; intros p; unfold within, outgoing_pending, incoming_pending in *; cbn; intros Hl.
      * rewrite (Hcount (fun k => k.1 =? p)). cbn. specialize (Qo p Hl). destruct (Z.eqb_spec from p) as [<-|]; cbn; [specialize (Ho Hl)|]; lia.
      * rewrite (Hcount (fun k => k.2 =? p)). cbn. specialize (Qi p Hl). destruct (Z.eqb_spec to p) as [<-|]; cbn; [specialize (Hin Hl)|]; lia.
  - apply set_request_ids.
  - apply set_request_from. set_solver.
  - intros p. by apply moved_moves, moved_same.
Qed.

Lemma create_tx_ok from to cand counts db c db' : db_ok cf db -> (cand = 0 \/ cand ∉ ids_of db) ->
  create_body from to (fc_limits cf) cand counts now db = Ok (c, db') ->
  tx_ok cf at_ (if cand =? 0 then ∅ else {[cand]}) db db'.
Proof.
  intros Hd Hc. unfold create_body. destruct (blockedEitherWay db from to) eqn:Hb; [done|].
  destruct (friendEdgeExistsForUpdate db from to) eqn:He; [done|]. destruct (pending_row db from to) as [r|] eqn:Hp.
  - destruct (rq_id r =? 0); cbn; [|intros [= <- <-]; by apply tx_ok_refl].
    destruct (Z.eqb_spec cand 0) as [->|Hn]; [done|]. intros (db1 & H1 & [= <- <-])%bind_Ok.
    destruct Hc as [->|Hc]; [done|]. by eapply backfill_tx_ok.
  - intros (u1 & H1 & (u2 & H2 & (u3 & H3 & (u4 & H4 & Hr)%bind_Ok)%bind_Ok)%bind_Ok)%bind_Ok.
    destruct (Z.eqb_spec cand 0) as [->|Hn]; [done|]. injection Hr as <- <-. destruct Hc as [->|Hc]; [done|].
    apply new_request_tx_ok; try done; intros; by eapply count_at_limit_Ok.
Qed.

Lemma ensure_pending_tx_ok from to cand counts db x db' : db_ok cf db -> (cand = 0 \/ cand ∉ ids_of db) ->
  ensure_pending_body from to cand counts now db = Ok (x, db') ->
  tx_ok cf at_ (if cand =? 0 then ∅ else {[cand]}) db db'.
Proof.
  intros Hd Hc. unfold ensure_pending_body. destruct (fd_request db !! (from, to)) as [r|]; [|intros [= <- <-]; by apply tx_ok_refl].
  destruct (is_pending r); cbn; [|intros [= <- <-]; by apply tx_ok_refl].
  destruct (rq_id r =? 0); [|intros [= <- <-]; by apply tx_ok_refl].
  destruct (Z.eqb_spec cand 0) as [->|Hn]; [done|]. intros (db1 & H1 & [= <- <-])%bind_Ok.
  destruct Hc as [->|Hc]; [done|]. by eapply backfill_tx_ok.
Qed.
End bodies.

(** ** Answers *)
Definition accepted_at (now id : Z) (r : FriendRequestRow) : FriendRequestRow :=
  mkRequest (rq_time_ms r) requestStatusAccepted now id.

Record accepted (cf : FriendConf) (at_ now id from to : Z) (db db' : FriendDB) : Prop := {
  ac_was : exists r, pending_row db from to = Some r /\ rq_id r = id /\
    fd_request db' !! (from, to) = Some (accepted_at now id r);
  ac_unblocked : blockedEitherWay db from to = false;
  ac_friend : fd_friend db' = <[(to, from) := now]> (<[(from, to) := now]> (fd_friend db));
  ac_new : fd_friend db !! (from, to) = None /\ fd_friend db !! (to, from) = None;
  ac_block : fd_block db' = fd_block db;
  ac_ends : reqs_end db db';
  ac_settled : pending_row db' from to = None /\ pending_row db' to from = None;
  ac_counts : counts_ok db';
  ac_moved : forall p, moved cf at_ db db' p;
  ac_more : forall p, friend_count db' p = friend_count db p + b2z (from =? p) + b2z (to =? p) }.

Section answers.
Context (cf : FriendConf) (at_ now : Z).
Implicit Types (db : FriendDB).

(** A pending request is between strangers. *)
Lemma pending_strangers db a b : apart db -> is_Some (pending_row db a b) ->
  fd_friend db !! (a, b) = None /\ fd_friend db !! (b, a) = None /\ blockedEitherWay db a b = false.
Proof.
  intros [Hs _ He Hb] [r Hr].
  assert (fd_friend db !! (a, b) = None) as H1.
  { destruct (fd_friend db !! (a, b)) eqn:E; [|done]. rewrite (He a b) in Hr by (rewrite E; done). done. }
  split_and!; [done| |].
  - destruct (fd_friend db !! (b, a)) eqn:E; [|done]. destruct (Hs b a) as [t Ht]; [by rewrite E|congruence].
  - apply either_way_false. split.
    + destruct (fd_block db !! (a, b)) eqn:E; [|done]. destruct (Hb a b) as (_ & Hn & _); [by rewrite E|congruence].
    + destruct (fd_block db !! (b, a)) eqn:E; [|done]. destruct (Hb b a) as (_ & _ & Hn); [by rewrite E|congruence].
Qed.

Lemma accept_body_spec id from to max counts db changed db' : counts_ok db -> apart db -> from <> to ->
  is_Some (fd_capacity db !! from) -> is_Some (fd_capacity db !! to) ->
  accept_body id from to max counts now db = Ok (changed, db') ->
  (changed = false /\ db' = db) \/
  (changed = true /\ accepted cf at_ now id from to db db' /\ (0 < max -> counted counts from < max /\ counted counts to < max)).
Proof.
  intros Hc Hap Hne Hf Ht. unfold accept_body. destruct (fd_request db !! (from, to)) as [r|] eqn:Hr; [|done].
  destruct (Z.eqb_spec (rq_id r) id) as [Hid|]; cbn; [|done]. destruct (Z.eqb_spec (rq_status r) requestStatusAccepted) as [Ha|Ha].
  { intros [= <- <-]. by left. }
  destruct (Z.eqb_spec (rq_status r) requestStatusPending) as [Hp|]; cbn; [|done].
  destruct (blockedEitherWay db from to) eqn:Hb; [done|]. intros (u1 & L1 & (u2 & L2 & H)%bind_Ok)%bind_Ok. right.
  destruct (end_pending requestStatusAccepted now db (from, to)) as [hit db1] eqn:E1.
  destruct (end_pending_spec _ _ _ _ _ _ E1 ltac:(done)) as (R1 & (F1 & C1 & B1) & P1 & Hit1 & O1 & Q1). cbn [fst snd] in *.
  destruct hit; cbn in H; [|done].
  destruct (end_pending requestStatusAccepted now db1 (to, from)) as [hit2 db2] eqn:E2.
  destruct (end_pending_spec _ _ _ _ _ _ E2 ltac:(done)) as (R2 & (F2 & C2 & B2) & P2 & _ & O2 & _). cbn [fst snd] in *.
  assert (pending_row db from to = Some r) as Hpr by by apply pending_row_Some.
  destruct (pending_strangers db from to Hap ltac:(by rewrite Hpr)) as (N1 & N2 & _).
  apply bind_Ok in H as (db3 & H3 & [= <- <-]). cbn in H3. apply bind_Ok in H3 as (db4 & H4 & H5).
  assert (counts_ok db2) as Hc2 by (intros p c; unfold friend_count; rewrite C2, C1, F2, F1; apply Hc).
  destruct (insert_edge_spec cf at_ now db2 from to db4 Hc2 H4) as (F4 & [Q4 B4] & Hc4 & M4 & N4 & K4); [by rewrite F2, F1|by rewrite C2, C1|].
  apply bind_Ok in H5 as (db5 & H5 & [= <-]).
  destruct (insert_edge_spec cf at_ now db4 to from db5 Hc4 H5) as (F5 & [Q5 B5] & Hc5 & M5 & N5 & _).
  { rewrite F4, F2, F1. rewrite lookup_insert_ne by congruence. done. } { apply K4. by rewrite C2, C1. }
  assert (reqs_end db2 db5) as R5 by (intros k r0; rewrite Q5, Q4; intros ?; by exists r0).
  assert (reqs_end db db5) as R by (eapply reqs_end_trans; [exact R1|by eapply reqs_end_trans]).
  split; [done|]. split.
  - split; try done.
    + exists r. split_and!; [done|done|]. rewrite Q5, Q4, O2 by congruence. rewrite Q1, Hr. cbn.
      unfold is_pending. rewrite (proj2 (Z.eqb_eq _ _) Hp). unfold accepted_at. by rewrite Hid.
    + by rewrite F5, F4, F2, F1.
    + by rewrite B5, B4, B2, B1.
    + split; (eapply reqs_end_pending; [exact R5|]); [|done]. by eapply reqs_end_pending.
    + intros p. eapply moved_trans; [apply (moved_same cf at_ _ db2); congruence|by eapply moved_trans].
    + intros p. rewrite N5, N4. unfold friend_count. by rewrite F2, F1.
  - intros Hm. split; by eapply at_limit_Ok.
Qed.

Lemma accepted_tx_ok id from to db db' : db_ok cf db -> from <> to -> accepted cf at_ now id from to db db' ->
  (0 < MaxFriends (fc_limits cf) -> friend_count db from < MaxFriends (fc_limits cf) /\ friend_count db to < MaxFriends (fc_limits cf)) ->
  tx_ok cf at_ ∅ db db'.
Proof.
  intros [Hc [Hs Hself He Hb] [Qf Qo Qi Qb] Hi] Hne [_ U F [N1 N2] B R [S1 S2] C M More] Hlim.
  apply either_way_false in U as [U1 U2]. split.
  - split; [done| | |by eapply reqs_end_ids].
    + split; rewrite ?F, ?B.
      * intros a b. rewrite !lookup_insert_is_Some. intros [|[]]; naive_solver congruence.
      * intros a. by rewrite !lookup_insert_ne by congruence.
      * intros a b. destruct (decide ((to, from) = (a, b))) as [[= <- <-]|]; [done|].
        destruct (decide ((from, to) = (a, b))) as [[= <- <-]|]; [done|]. rewrite !lookup_insert_ne by done.
        intros Hab. eapply reqs_end_pending; [done|by apply He].
      * intros a b Hab. destruct (Hb _ _ Hab) as (? & ? & ?). split_and!; [|by eapply reqs_end_pending..].
        rewrite !lookup_insert_ne; [done|intros [= <- <-]|intros [= <- <-]]; [rewrite U1 in Hab|rewrite U2 in Hab]; by destruct Hab.
    + split; unfold within in *; intros p Hp.
      * rewrite More. specialize (Qf p Hp). destruct (Hlim Hp) as [L1 L2].
        destruct (Z.eqb_spec from p), (Z.eqb_spec to p); subst; cbn; done || lia.
      * pose proof (reqs_end_out _ _ p R). specialize (Qo p Hp). lia.
      * pose proof (reqs_end_in _ _ p R). specialize (Qi p Hp). lia.
      * unfold block_count. rewrite B. by apply Qb.
  - pose proof (reqs_end_ids_of _ _ R). set_solver.
  - by apply reqs_end_from.
  - intros p. apply moved_moves, M.
Qed.

Lemma reject_body_spec id from to counts db changed db' : reject_body id from to counts now db = Ok (changed, db') ->
  reqs_end db db' /\ rest_same db db' /\ (changed = true ->
    (exists r, pending_row db from to = Some r /\ rq_id r = id) /\ pending_row db' from to = None).
Proof.
  unfold reject_body. destruct (fd_request db !! (from, to)) as [r|] eqn:Hr; [|done].
  destruct (Z.eqb_spec (rq_id r) id) as [Hid|]; cbn; [|done].
  destruct (rq_status r =? requestStatusRejected) eqn:Ha.
  { intros [= <- <-]. split_and!; [apply reqs_end_refl|done|done]. }
  destruct (Z.eqb_spec (rq_status r) requestStatusPending) as [Hp|]; cbn; [|done].
  destruct (end_pending requestStatusRejected now db (from, to)) as [hit db1] eqn:E1.
  destruct (end_pending_spec _ _ _ _ _ _ E1 ltac:(done)) as (R1 & S1 & P1 & _). destruct hit; cbn; [|done].
  intros [= <- <-]. split_and!; [done..|]. intros _. split; [|done]. exists r. split; [by apply pending_row_Some|done].
Qed.
End answers.

(** ** Friendships end, players are blocked *)

(** The friendship of two players is over in both directions; with [blocked], the one has
    put the other on his list, and no request is left between them. *)
Record parted (cf : FriendConf) (at_ a b removed : Z) (db db' : FriendDB) : Prop := {
  pa_friend : fd_friend db' = delete (b, a) (delete (a, b) (fd_friend db));
  pa_removed : removed = b2z (lockRowExists (fd_friend db) (a, b)) + b2z (lockRowExists (fd_friend db) (b, a));
  pa_counts : counts_ok db';
  pa_moved : forall p, moved cf at_ db db' p }.

Record blocked_now (cf : FriendConf) (at_ now me target max : Z) (e : BlockEffect) (db db' : FriendDB) : Prop := {
  bn_block : fd_block db' = (if blockExistsForUpdate db me target then fd_block db
                             else <[(me, target) := now]> (fd_block db));
  bn_quota : blockExistsForUpdate db me target = false -> 0 < max -> block_count db me < max;
  bn_parted : exists removed, parted cf at_ me target removed db db' /\ EdgeRemoved e = (0 <? removed);
  bn_ends : reqs_end db db';
  bn_settled : pending_row db' me target = None /\ pending_row db' target me = None;
  bn_outbound : OutboundPendingRejected e = true <-> is_Some (pending_row db me target) }.

Section partings.
Context (cf : FriendConf) (at_ now : Z).
Implicit Types (db : FriendDB).

Lemma deleteFriendEdges_parted a b db n db' : counts_ok db -> deleteFriendEdges a b now db = (n, db') ->
  is_Some (fd_capacity db !! a) -> is_Some (fd_capacity db !! b) -> a <> b -> at_ - fc_slack cf <= now ->
  parted cf at_ a b n db db' /\ social_same db db'.
Proof.
  intros Hc He Ha Hb Hab Hs. destruct (deleteFriendEdges_spec cf at_ now _ _ _ _ _ Hc He Ha Hb Hab Hs) as (? & ? & ? & ? & ?).
  by split.
Qed.

Lemma parted_apart a b removed db db' : apart db -> parted cf at_ a b removed db db' -> reqs_end db db' ->
  (forall x y, is_Some (fd_block db' !! (x, y)) -> is_Some (fd_block db !! (x, y)) \/
     ((x, y) = (a, b) /\ pending_row db' a b = None /\ pending_row db' b a = None)) ->
  apart db'.
Proof.
  intros [Hs Hself He Hb] [F _ _ _] R B. split; rewrite ?F.
  - intros x y. rewrite !lookup_delete_is_Some. naive_solver congruence.
  - intros x. rewrite !lookup_delete_None. auto.
  - intros x y. rewrite !lookup_delete_is_Some. intros (_ & _ & Hxy). eapply reqs_end_pending; [done|by apply He].
  - intros x y [Hxy|([= -> ->] & Hp)]%B.
    + destruct (Hb _ _ Hxy) as (? & ? & ?). split_and!; [|by eapply reqs_end_pending..]. rewrite !lookup_delete_None. auto.
    + split; [|done]. rewrite !lookup_delete_None. auto.
Qed.

Lemma parted_count a b removed db db' p : parted cf at_ a b removed db db' -> friend_count db' p <= friend_count db p.
Proof.
  intros [F _ _ _]. unfold friend_count. apply count_rows_mono. intros k t. rewrite F. intros [_ [_ Ht]%lookup_delete_Some]%lookup_delete_Some Hk. eauto.
Qed.

Lemma parted_tx_ok a b removed db db' : db_ok cf db -> parted cf at_ a b removed db db' -> reqs_end db db' ->
  apart db' -> (forall p, within (fc_max_blocks cf) (block_count db' p)) -> tx_ok cf at_ ∅ db db'.
Proof.
  intros [Hc Hap [Qf Qo Qi Qb] Hi] Hpa R Hap' Hq. split.
  - split; [apply Hpa|done| |by eapply reqs_end_ids]. split; [| | |done]; unfold within in *; intros p Hp.
    + pose proof (parted_count _ _ _ _ _ p Hpa). specialize (Qf p Hp). lia.
    + pose proof (reqs_end_out _ _ p R). specialize (Qo p Hp). lia.
    + pose proof (reqs_end_in _ _ p R). specialize (Qi p Hp). lia.
  - pose proof (reqs_end_ids_of _ _ R). set_solver.
  - by apply reqs_end_from.
  - intros p. apply moved_moves, Hpa.
Qed.

Lemma remove_tx_ok me target counts db n db' : db_ok cf db -> remove_body me target counts now db = Ok (n, db') ->
  is_Some (fd_capacity db !! me) -> is_Some (fd_capacity db !! target) -> me <> target -> at_ - fc_slack cf <= now ->
  tx_ok cf at_ ∅ db db'.
Proof.
  intros Hd [= He] Hm Ht Hne Hs. pose proof Hd as [Hc Hap [_ _ _ Qb] _].
  destruct (deleteFriendEdges_parted _ _ _ _ _ Hc He Hm Ht Hne Hs) as [Hpa [Er Eb]].
  assert (reqs_end db db') as R by (intros k r; rewrite Er; intros ?; by exists r).
  eapply parted_tx_ok; [done..| |].
  - eapply parted_apart; [done..|]. intros x y. rewrite Eb. auto.
  - intros p. unfold block_count. rewrite Eb. apply Qb.
Qed.

Lemma block_body_spec me target max counts db e db' : counts_ok db ->
  is_Some (fd_capacity db !! me) -> is_Some (fd_capacity db !! target) -> me <> target -> at_ - fc_slack cf <= now ->
  block_body me target max counts now db = Ok (e, db') -> blocked_now cf at_ now me target max e db db'.
Proof.
  intros Hc Hm Ht Hne Hs. unfold block_body. intros (db1 & H1 & H)%bind_Ok.
  assert (rest_same db1 (set_block db (fd_block db1)) /\ fd_friend db1 = fd_friend db /\ fd_capacity db1 = fd_capacity db /\
    fd_request db1 = fd_request db /\
    fd_block db1 = (if blockExistsForUpdate db me target then fd_block db else <[(me, target) := now]> (fd_block db)) /\
    (blockExistsForUpdate db me target = false -> 0 < max -> block_count db me < max)) as (_ & F1 & C1 & R1 & B1 & Q1).
  { destruct (blockExistsForUpdate db me target); [by injection H1 as <-|].
    apply bind_Ok in H1 as (u & L & [= <-]). split_and!; try done. intros _. by eapply count_at_limit_Ok. }
  destruct (deleteFriendEdges me target now db1) as [n db2] eqn:E2.
  assert (counts_ok db1) as Hc1 by (intros p c; unfold friend_count; rewrite F1, C1; apply Hc).
  destruct (deleteFriendEdges_parted _ _ _ _ _ Hc1 E2 ltac:(by rewrite C1) ltac:(by rewrite C1) Hne Hs) as [[F2 N2 Hc2 M2] [Er Eb]].
  destruct (end_pending requestStatusRejected now db2 (me, target)) as [out db3] eqn:E3.
  destruct (end_pending_spec _ _ _ _ _ _ E3 ltac:(done)) as (R3 & (F3 & C3 & B3) & P3 & H3 & _).
  destruct (end_pending requestStatusRejected now db3 (target, me)) as [in_ db4] eqn:E4.
  destruct (end_pending_spec _ _ _ _ _ _ E4 ltac:(done)) as (R4 & (F4 & C4 & B4) & P4 & _). cbn [fst snd] in *.
  injection H as <- <-. assert (reqs_end db db2) as R2 by (intros k r; rewrite Er, R1; intros ?; by exists r).
  split; cbn.
  - by rewrite B4, B3, Eb.
  - done.
  - exists n. split; [|done]. split.
    + by rewrite F4, F3, F2, F1.
    + by rewrite N2, F1.
    + intros p c. unfold friend_count. rewrite C4, C3, F4, F3. apply Hc2.
    + intros p. eapply moved_trans; [by apply (moved_same cf at_ db db1)|]. eapply moved_trans; [apply M2|]. apply moved_same; congruence.
  - eapply reqs_end_trans; [exact R2|by eapply reqs_end_trans].
  - split; [by eapply reqs_end_pending|done].
  - rewrite H3. unfold pending_row. by rewrite Er, R1.
Qed.

Lemma blocked_tx_ok me target e db db' : db_ok cf db -> me <> target ->
  blocked_now cf at_ now me target (fc_max_blocks cf) e db db' -> tx_ok cf at_ ∅ db db'.
Proof.
  intros Hd Hne [B Q (n & Hpa & _) R [S1 S2] _]. pose proof Hd as [Hc Hap [_ _ _ Qb] _].
  eapply parted_tx_ok; [done..| |].
  - eapply parted_apart; [done..|]. intros x y. rewrite B. destruct (blockExistsForUpdate db me target); [auto|].
    rewrite lookup_insert_is_Some. intros [<-|[_ ?]]; auto.
  - intros p Hp. unfold block_count. rewrite B. destruct (blockExistsForUpdate db me target) eqn:E; [by apply Qb|].
    rewrite count_rows_insert by by apply lockRowExists_false. cbn. specialize (Qb p Hp). unfold block_count in *.
    destruct (Z.eqb_spec me p) as [<-|]; cbn; [|lia]. specialize (Q eq_refl Hp). lia.
Qed.

Lemma unblock_tx_ok me target db u db' : db_ok cf db -> unblock_body me target now db = Ok (u, db') -> tx_ok cf at_ ∅ db db'.
Proof.
  intros [Hc [Hs Hself He Hb] [Qf Qo Qi Qb] Hi] [= <- <-]. split; [|set_solver|intros k r Hr ?; right; by exists r|intros p; by apply moved_moves, moved_same].
  split; [done| | |done].
  - split; try done. cbn. intros a b. rewrite lookup_delete_is_Some. intros [_ Hab]. by apply Hb.
  - split; try done. intros p Hp. specialize (Qb p Hp). etrans; [|exact Qb]. apply count_rows_mono.
    intros k t. cbn. intros [_ Ht]%lookup_delete_Some Hk. eauto.
Qed.

(** ** The sweep and the capacity rows *)
Lemma delete_terminal_tx_ok k cutoff db n db' : db_ok cf db -> delete_terminal_body k cutoff now db = Ok (n, db') ->
  tx_ok cf at_ ∅ db db'.
Proof.
  intros Hd. unfold delete_terminal_body, deleteOneRowPointLocked. intros H. apply reqs_end_tx_ok; [done| |].
  - intros k' r. destruct (fd_request db !! k) as [r0|] eqn:E; [destruct (terminal_before cutoff r0)|]; simplify_eq; cbn; intros Hr.
    + apply lookup_delete_Some in Hr as [_ Hr]. by exists r. + by exists r. + by exists r.
  - destruct (fd_request db !! k) as [r0|]; [destruct (terminal_before cutoff r0)|]; by simplify_eq.
Qed.

Lemma delete_idle_tx_ok p cutoff db n db' : db_ok cf db ->
  cutoff <= at_ + fc_slack cf - fc_retention_days cf * millisPerDay ->
  deleteIdleCapacityRow p cutoff now db = Ok (n, db') -> tx_ok cf at_ ∅ db db'.
Proof.
  intros Hd Hcut. unfold deleteIdleCapacityRow, deleteOneRowPointLocked.
  destruct (fd_capacity db !! p) as [c|] eqn:Hc; [|intros [= <- <-]; destruct db; by apply tx_ok_refl].
  destruct (idle_before cutoff c) eqn:Hi; [|intros [= <- <-]; destruct db; by apply tx_ok_refl].
  intros [= <- <-]. destruct Hd as [Hco Hap Hq Hid]. split; [|set_solver|intros k r Hr ?; right; by exists r|].
  - split; [|destruct Hap; by split|destruct Hq; by split|done]. intros q c'. cbn. intros [_ Hc']%lookup_delete_Some. by apply Hco.
  - intros q. unfold moves, moved. cbn. unfold idle_before in Hi. zbool. destruct (decide (p = q)) as [<-|Hne].
    + rewrite Hc, lookup_delete_eq. split_and!; [done|lia|lia].
    + rewrite lookup_delete_ne by done. destruct (fd_capacity db !! q); [by left|done].
Qed.

Lemma ensure_row_tx_ok p c ms db : db_ok cf db -> at_ - fc_slack cf <= ms ->
  (fd_capacity db !! p = None -> friend_count db p = c) -> tx_ok cf at_ ∅ db (ensureFriendCapacityRow db p c ms).
Proof.
  intros Hd Hms Hcount. unfold ensureFriendCapacityRow. destruct (fd_capacity db !! p) as [r|] eqn:Hp; [by apply tx_ok_refl|].
  destruct Hd as [Hco Hap Hq Hid]. split; [|set_solver|intros k r Hr ?; right; by exists r|].
  - split; [|destruct Hap; by split|destruct Hq; by split|done].
    intros q c'. cbn. intros [[<- <-]|[_ Hc']]%lookup_insert_Some; [by rewrite <- Hcount|by apply Hco].
  - intros q. unfold moves, moved. cbn. destruct (decide (p = q)) as [<-|Hne].
    + rewrite Hp, lookup_insert_eq. by split.
    + rewrite lookup_insert_ne by done. destruct (fd_capacity db !! q); [by left|done].
Qed.
End partings.
