(* ===== verification/FriendSystem.v ===== *)
(** * Friends: all replicas together, and what they promise

    The programs of [FriendServe] keep the invariant of [FriendThms], whatever the others
    do between their calls. What makes this more than a fact about single transactions is
    the capacity row: it is created with a number that was counted in an earlier statement,
    and the sweep deletes rows that nobody has locked. [counted_at], [kept] and [held] are
    what a program may rely on for as long as its request lives. *)

From stdpp Require Import base list gmap strings relations.
From Stdlib Require Import ZArith Lia.
From S2P Require Import Prelude RoleRoute DbProg FriendStore FriendServe FriendThms.
Local Open Scope Z_scope.

(** ** What stays true while others act *)
Section claims.
Context (cf : FriendConf).
Implicit Types (w : world).

(** [c] was the number of friends of [p] at [t]; until the request of that moment ends, it still
    is the number to create the row with. *)
Definition counted_at (p c t : Z) w : Prop :=
  t <= fw_now w /\ (fw_now w <= t + fc_patience cf ->
    match fd_capacity (fw_db w) !! p with
    | None => friend_count (fw_db w) p = c
    | Some r => friend_count (fw_db w) p = c \/ 0 < friend_count (fw_db w) p \/ t - fc_slack cf <= cp_created_ms r
    end).

(** Since [t] the row of [p] was missing or created or changed: it is missing, or cannot be swept. *)
Definition held (p t : Z) w : Prop :=
  t <= fw_now w /\ (fw_now w <= t + fc_patience cf ->
    forall r, fd_capacity (fw_db w) !! p = Some r -> 0 < friend_count (fw_db w) p \/ t - fc_slack cf <= cp_created_ms r).

Definition kept (p t : Z) w : Prop :=
  held p t w /\ (fw_now w <= t + fc_patience cf -> is_Some (fd_capacity (fw_db w) !! p)).

Record good w : Prop := {
  gd_db : db_ok cf (fw_db w);
  gd_ids : ids_of (fw_db w) ⊆ fw_used w;
  gd_used : forall id, id ∈ fw_used w -> id = 0 \/ id ∈ fw_issued w }.

Record ahead w w' : Prop := {
  lt_now : fw_now w <= fw_now w';
  lt_issued : fw_issued w ⊆ fw_issued w';
  lt_used : fw_used w ⊆ fw_used w';
  lt_counted : forall p c t, counted_at p c t w -> counted_at p c t w';
  lt_held : forall p t, held p t w -> held p t w';
  lt_kept : forall p t, kept p t w -> kept p t w';
  (** A generation that was stored and is not pending is never pending again. *)
  lt_spent : forall id, id <> 0 -> id ∈ fw_used w ->
    (forall k r, fd_request (fw_db w) !! k = Some r -> rq_id r = id -> is_pending r = false) ->
    (forall k r, fd_request (fw_db w') !! k = Some r -> rq_id r = id -> is_pending r = false) }.

Lemma ahead_refl w : ahead w w.
Proof. by split. Qed.

Lemma ahead_trans a b c : ahead a b -> ahead b c -> ahead a c.
Proof.
  intros [N1 I1 U1 C1 H1 K1 S1] [N2 I2 U2 C2 H2 K2 S2]. split; [lia|set_solver|set_solver|auto..].
  intros id Hn Hu Hs. apply (S2 id Hn); [by apply U1|]. by apply (S1 id Hn).
Qed.

#[global] Instance ahead_preorder : PreOrder ahead.
Proof. split; [exact ahead_refl|exact ahead_trans]. Qed.

(** Nothing in the tables changes. *)
Lemma ahead_same w w' : fw_now w <= fw_now w' -> fw_issued w ⊆ fw_issued w' -> fw_used w' = fw_used w ->
  fw_db w' = fw_db w -> ahead w w'.
Proof.
  intros Hn Hi Hu Hd. assert (forall p t, held p t w -> held p t w') as Hh.
  { intros p t [? H]. unfold held. rewrite Hd. split; [lia|]. intros ?. apply H. lia. }
  split; [done|done|by rewrite Hu| |done| |].
  - intros p c t [? H]. unfold counted_at. rewrite Hd. split; [lia|]. intros ?. apply H. lia.
  - intros p t [? H]. split; [by apply Hh|]. rewrite Hd. intros ?. apply H. lia.
  - by rewrite Hd.
Qed.

Lemma good_same w w' : good w -> fw_issued w ⊆ fw_issued w' -> fw_used w' = fw_used w -> fw_db w' = fw_db w -> good w'.
Proof. intros [Hd Hi Hu] Hiss Eu Ed. split; rewrite ?Ed, ?Eu; [done..|]. intros id Hid. destruct (Hu id Hid); [by left|right; set_solver]. Qed.

(** A transaction is over: [o] are the generations it was given. *)
Context (window : fc_patience cf + 2 * fc_slack cf <= fc_retention_days cf * millisPerDay).

Lemma tx_ok_ahead w o db' used : good w -> tx_ok cf (fw_now w) o (fw_db w) db' -> o ⊆ fw_issued w -> o ## fw_used w ->
  used = fw_used w ∪ ids_of db' \/ (o = ∅ /\ used = fw_used w) ->
  good (with_db w db' used) /\ ahead w (with_db w db' used) /\ used ⊆ fw_used w ∪ o.
Proof using window.
  intros [Hd Hi Hu] [Td Ti Tp Tm] Ho Hdis Hused.
  assert (used ⊆ fw_used w ∪ o) as Hsub by (destruct Hused as [->|[-> ->]]; set_solver).
  assert (forall p t, t <= fw_now w -> fw_now w <= t + fc_patience cf ->
    forall r, fd_capacity (fw_db w) !! p = Some r -> fd_capacity db' !! p = None ->
      ~ (0 < friend_count (fw_db w) p \/ t - fc_slack cf <= cp_created_ms r)) as Hswept.
  { intros p t Ht Hl r Hr Hn. specialize (Tm p). unfold moves in Tm. rewrite Hr, Hn in Tm. destruct Tm as (_ & Hz & Hc).
    rewrite <- (do_counts _ _ Hd p r Hr). lia. }
  assert (forall p t r r', t <= fw_now w -> fd_capacity (fw_db w) !! p = Some r -> fd_capacity db' !! p = Some r' ->
    0 < friend_count (fw_db w) p \/ t - fc_slack cf <= cp_created_ms r ->
    0 < friend_count db' p \/ t - fc_slack cf <= cp_created_ms r') as Hstay.
  { intros p t r r' Ht Hr Hr' H. specialize (Tm p). unfold moves, moved in Tm. rewrite Hr, Hr' in Tm.
    pose proof (friend_count_nonneg (fw_db w) p). lia. }
  assert (forall p t, held p t w -> held p t (with_db w db' used)) as Hheld.
  { intros p t [Ht H]. split; cbn; [done|]. intros Hl r' Hr'. specialize (H Hl).
    destruct (fd_capacity (fw_db w) !! p) as [r|] eqn:Hr; [by eapply Hstay; eauto|].
    specialize (Tm p). unfold moves in Tm. rewrite Hr, Hr' in Tm. lia. }
  split_and!; [|split; cbn|done].
  - split; cbn; [done| |].
    + destruct Hused as [->|[-> ->]]; set_solver.
    + intros id Hid. apply Hsub in Hid as [?|?]%elem_of_union; [by apply Hu|right; by apply Ho].
  - done.
  - done.
  - destruct Hused as [->|[_ ->]]; set_solver.
  - intros p c t [Ht H]. split; cbn; [done|]. intros Hl. specialize (H Hl). pose proof (Tm p) as Tmp. unfold moves, moved in Tmp.
    destruct (fd_capacity (fw_db w) !! p) as [r|] eqn:Hr, (fd_capacity db' !! p) as [r'|] eqn:Hr'.
    + pose proof (friend_count_nonneg (fw_db w) p). lia.
    + pose proof (Hswept p t Ht Hl r Hr Hr'). lia.
    + lia.
    + lia.
  - done.
  - intros p t [Hh Hs]. split; [by apply Hheld|]. cbn. intros Hl. specialize (Hs Hl) as [r Hr].
    destruct (fd_capacity db' !! p) as [r'|] eqn:Hr'; [done|]. destruct Hh as [Ht Hh].
    destruct (Hswept p t Ht Hl r Hr Hr' (Hh Hl r Hr)).
  - intros id Hid Hin Hsp k r' Hr' <-. destruct (is_pending r') eqn:Hp; [|done].
    destruct (Tp k r' Hr' Hp) as [Hin'|(r & Hr & Hpr & E)]; [set_solver|]. by rewrite (Hsp k r Hr E) in Hpr.
Qed.

(** The rows that [ensure] adds, with counts that are still good. *)
Lemma add_rows_ahead w rows db' : good w -> add_rows cf (fw_now w) rows (fw_db w) db' ->
  (forall p c t, (p, (c, t)) ∈ rows -> counted_at p c t w) ->
  good (with_db w db' (fw_used w)) /\ ahead w (with_db w db' (fw_used w)) /\
  (forall p, (exists ct, (p, ct) ∈ rows) -> is_Some (fd_capacity db' !! p)) /\
  (forall p, is_Some (fd_capacity (fw_db w) !! p) -> is_Some (fd_capacity db' !! p)).
Proof using window.
  revert w. induction rows as [|[p [c t]] rows IH]; intros w Hg Hadd Hc.
  { inversion Hadd; subst. split_and!; [by eapply good_same|by apply ahead_same| |done]. intros p [ct Hin]. by apply elem_of_nil in Hin. }
  inversion Hadd as [|p0 c0 t0 rows0 ms db0 db0' Hl [Hms _] Hrest]; subst.
  assert (tx_ok cf (fw_now w) ∅ (fw_db w) (ensureFriendCapacityRow (fw_db w) p c ms)) as Htx.
  { apply ensure_row_tx_ok; [apply Hg|done|]. intros Hn. destruct (Hc p c t ltac:(left)) as [_ H]. specialize (H Hl). by rewrite Hn in H. }
  destruct (tx_ok_ahead w ∅ _ (fw_used w) Hg Htx) as (Hg1 & Hl1 & _); [set_solver|set_solver|by right|].
  destruct (IH _ Hg1 Hrest) as (Hg2 & Hl2 & Hin & Hk).
  { intros q c' t' Hq. apply Hl1. apply Hc. by right. }
  assert (forall q, is_Some (fd_capacity (fw_db w) !! q) \/ q = p -> is_Some (fd_capacity (ensureFriendCapacityRow (fw_db w) p c ms) !! q)) as Hput.
  { intros q Hq. unfold ensureFriendCapacityRow. destruct (fd_capacity (fw_db w) !! p) eqn:E.
    - destruct Hq as [Hq| ->]; [done|by rewrite E].
    - cbn. apply lookup_insert_is_Some. destruct (decide (p = q)); [by left|right]. naive_solver. }
  split_and!; [done|by etrans| |].
  - intros q [ct [[= -> ->]|Hq]%elem_of_cons]; [apply Hk, Hput; by right|apply Hin; eauto].
  - intros q Hq. apply Hk, Hput. by left.
Qed.


End claims.

Section promises.
Context (cf : FriendConf).
Notation good := (good cf) (only parsing).
Notation ahead := (ahead cf) (only parsing).
Implicit Types (w : world) (o : gset Z).

(** ** Rely and guarantee

    A program owns the generations it has drawn and not yet stored. *)
Definition rely (o : gset Z) w w' : Prop := good w -> good w' /\ ahead w w' /\ (o ## fw_used w -> o ## fw_used w').
Definition guar (o : gset Z) w w' : Prop := good w -> good w' /\ ahead w w' /\ fw_used w' ⊆ fw_used w ∪ o.
Definition owned (o : gset Z) w : Prop := good w /\ o ⊆ fw_issued w /\ o ## fw_used w.
Definition acquires (o : gset Z) w (o' : gset Z) w' : Prop :=
  (owned o w -> owned o' w') /\ forall id, id ∈ o' -> id ∈ o \/ (id ∉ fw_issued w /\ id ∈ fw_issued w').

#[global] Instance friend_rely_refl o : Reflexive (rely o).
Proof. intros w Hg. split_and!; [done|apply ahead_refl|done]. Qed.

#[global] Instance friend_rely_trans o : Transitive (rely o).
Proof.
  intros a b c H1 H2 Hg. destruct (H1 Hg) as (Hg1 & Hl1 & Hd1), (H2 (proj1 (H1 Hg))) as (Hg2 & Hl2 & Hd2).
  split_and!; [done|by eapply ahead_trans|auto].
Qed.

Lemma friend_owned_rely o w w' : owned o w -> rely o w w' -> owned o w'.
Proof.
  intros (Hg & Hi & Hd) Hr. destruct (Hr Hg) as (Hg' & Hl & Hd'). split_and!; [done| |auto].
  pose proof (lt_issued _ _ _ Hl). set_solver.
Qed.

Lemma friend_disj_acquires o w o' w' o2 : acquires o w o' w' -> owned o2 w -> o ## o2 -> o' ## o2.
Proof. intros [_ Ha] (_ & Hi & _) Hd id Hid Hid2. destruct (Ha id Hid) as [?|[Hn _]]; set_solver. Qed.

Lemma friend_guar_rely o1 o2 w w' : o1 ## o2 -> owned o2 w -> guar o1 w w' -> rely o2 w w'.
Proof. intros Hd _ Hg Hgood. destruct (Hg Hgood) as (? & ? & ?). split_and!; [done|done|set_solver]. Qed.

Lemma friend_env_rely o w w' : friend_env w w' -> rely o w w'.
Proof.
  intros [Hn Hw] Hg. rewrite Hw. split_and!; [by eapply good_same|by apply ahead_same|by cbn].
Qed.

(** ** Programs *)
Notation fprog := (prog friendE).
Notation frun := (friend_run cf).

(** From [w] on the program keeps its promises, and when it ends with [a] it is in [Q]; if
    [K a], it owns in the end what it owned before. *)
Definition works {A} (K : A -> bool) o w (p : fprog A) (Q : A -> world -> Prop) : Prop :=
  owned o w ->
  safe frun rely guar acquires o p (fun o' a w' => (K a = true -> o' = o) /\ owned o' w' /\ ahead w w' /\ Q a w') w.

Definition keeps {A} (_ : A) : bool := true.
Definition spends {A} (_ : A) : bool := false.

Definition stable {A} (Q : A -> world -> Prop) : Prop := forall a w w', Q a w -> good w -> ahead w w' -> Q a w'.

Lemma works_ret {A} {K : A -> bool} o w (a : A) Q : stable Q -> Q a w -> works K o w (Ret a) Q.
Proof.
  intros HQ Ha Ho w' Hr. split; [done|]. split; [by eapply friend_owned_rely|]. destruct (Hr (proj1 Ho)) as (? & ? & _).
  split; [done|]. by eapply HQ; [|apply Ho|].
Qed.

Lemma works_bind_any {A B} {K : A -> bool} o w (p : fprog A) (f : A -> fprog B) Q R :
  works K o w p Q ->
  (forall o' a w', (K a = true -> o' = o) -> ahead w w' -> Q a w' -> works spends o' w' (f a) R) ->
  works spends o w (p ≫= f) R.
Proof.
  intros Hp Hf Ho. eapply safe_bind; [apply _|apply _|by apply Hp|]. intros o' a w' (Hk & Ho' & Hl & HQ).
  eapply safe_mono; [by apply (Hf o' a w' Hk Hl HQ)|]. intros o2 b w2 (_ & ? & ? & ?).
  split_and!; [done|done|by eapply ahead_trans|done].
Qed.

Lemma works_bind_own {A B} {K : B -> bool} o w (p : fprog A) (f : A -> fprog B) Q R :
  works keeps o w p Q -> (forall a w', ahead w w' -> Q a w' -> works K o w' (f a) R) -> works K o w (p ≫= f) R.
Proof.
  intros Hp Hf Ho. eapply safe_bind; [apply _|apply _|by apply Hp|]. intros o' a w' (Hk & Ho' & Hl & HQ).
  rewrite (Hk eq_refl) in *. eapply safe_mono; [by apply (Hf a w' Hl HQ)|]. intros o2 b w2 (? & ? & ? & ?).
  split_and!; [done|done|by eapply ahead_trans|done].
Qed.

Lemma works_mono {A} {K : A -> bool} o w (p : fprog A) (Q R : A -> world -> Prop) :
  works K o w p Q -> (forall a w', ahead w w' -> Q a w' -> R a w') -> works K o w p R.
Proof. intros Hp Hqr Ho. eapply safe_mono; [by apply Hp|]. intros o2 b w2 (? & ? & ? & ?). auto. Qed.

(** One call: what it does to the world is allowed, and its answer is in [Q]. *)
Lemma works_call {A} {K : A -> bool} o w (e : friendE A) (Q : A -> world -> Prop) : stable Q ->
  (forall w1 x w2, owned o w1 -> ahead w w1 -> frun _ e w1 x w2 ->
     good w2 /\ ahead w1 w2 /\ fw_used w2 ⊆ fw_used w1 ∪ (if K x then ∅ else o) /\ Q x w2) ->
  works K o w (call e) Q.
Proof.
  intros HQ He Ho w1 Hr x w2 Hrun. pose proof (friend_owned_rely _ _ _ Ho Hr) as Ho1.
  destruct (Hr (proj1 Ho)) as (Hg1 & Hl1 & _). destruct (He w1 x w2 Ho1 Hl1 Hrun) as (Hg2 & Hl2 & Hu & Hx).
  split; [intros _; split_and!; [done|done|destruct (K x); set_solver]|].
  exists (o ∖ fw_used w2). assert (owned (o ∖ fw_used w2) w2) as Ho2.
  { split_and!; [done| |set_solver]. destruct Ho1 as (_ & Hi & _). pose proof (lt_issued _ _ _ Hl2). set_solver. }
  split; [split; [done|set_solver]|]. intros w3 Hr3. split.
  { intros Hk. rewrite Hk in Hu. destruct Ho1 as (_ & _ & Hd). apply set_eq. set_solver. }
  split; [by eapply friend_owned_rely|].
  destruct (Hr3 Hg2) as (? & ? & _). split; [|by eapply HQ].
  eapply ahead_trans; [exact Hl1|by eapply ahead_trans].
Qed.

(** A call after which the tables are as before. *)
Lemma works_quiet {A} {K : A -> bool} o w (e : friendE A) (Q : A -> world -> Prop) : stable Q ->
  (forall w1 x w2, good w1 -> ahead w w1 -> frun _ e w1 x w2 ->
     fw_now w2 = fw_now w1 /\ fw_issued w2 = fw_issued w1 /\ fw_used w2 = fw_used w1 /\ fw_db w2 = fw_db w1 /\ Q x w2) ->
  works K o w (call e) Q.
Proof.
  intros HQ He. apply works_call; [done|]. intros w1 x w2 [Hg _] Hl Hrun.
  destruct (He w1 x w2 Hg Hl Hrun) as (En & Ei & Eu & Ed & Hx).
  split_and!; [|apply ahead_same; [by rewrite En|by rewrite Ei|done|done]|set_solver|done].
  apply (good_same cf w1); [done|by rewrite Ei|done|done].
Qed.

Definition any {A} (_ : A) (_ : world) : Prop := True.

Lemma stable_any {A} : stable (@any A).
Proof. done. Qed.

(** ** The calls *)
Lemma works_Query {X} {K : res X -> bool} o w p (q : FriendDB -> X -> Prop) : works K o w (call (Query p q)) any.
Proof. apply works_quiet; [apply stable_any|]. by intros w1 x w2 _ _ [-> _]. Qed.

Lemma works_Tell {K : () -> bool} o w n : works K o w (call (Tell n)) any.
Proof. apply works_quiet; [apply stable_any|]. by intros w1 x w2 _ _ ->. Qed.

Lemma works_Quota {K : res Z -> bool} o w p : works K o w (call (QuotaScript p)) any.
Proof. apply works_quiet; [apply stable_any|]. by intros w1 x w2 _ _ [[_ ->]|[-> _]]. Qed.

(** A reading is not far ahead of the time. *)
Definition read_at (ms : Z) w : Prop := ms <= fw_now w + fc_slack cf.

Lemma read_at_stable : stable read_at.
Proof. intros ms w w' H _ Hl. unfold read_at in *. pose proof (lt_now _ _ _ Hl). lia. Qed.

Lemma works_Now {K : Z -> bool} o w : works K o w (call Now) read_at.
Proof. apply works_quiet; [apply read_at_stable|]. intros w1 ms w2 _ _ [[_ Hn] ->]. by split_and!. Qed.

Definition counted_answer (p : Z) (r : res (Z * Z)) w : Prop :=
  match r with Ok (c, t) => counted_at cf p c t w | Err e => sql_failure e \/ e = errScan end.

Lemma counted_answer_stable p : stable (counted_answer p).
Proof. intros [[c t]|e] w w' H _ Hl; [|done]. by eapply lt_counted. Qed.

Lemma works_CountFriends {K : res (Z * Z) -> bool} o w p : works K o w (call (CountFriends p)) (counted_answer p).
Proof.
  apply works_quiet; [apply counted_answer_stable|]. intros w1 r w2 Hg _ [-> Hr]. split_and!; [done..|].
  destruct Hr as [(e & -> & He)| ->]; [by left|]. unfold scan_u32.
  destruct (friend_count (fw_db w1) p <? u32_mod); cbn; [|by right]. split; [lia|]. intros _.
  destruct (fd_capacity (fw_db w1) !! p); [by left|done].
Qed.

(** The new generation is the drawer's. *)
Lemma works_NextRequestID {B} o w (f : res Z -> fprog B) R :
  (forall r w' o', ahead w w' -> match r with Ok id => id = 0 \/ id ∈ o' | Err _ => True end -> works spends o' w' (f r) R) ->
  works spends o w (call NextRequestID ≫= f) R.
Proof.
  intros Hf Ho w1 Hr r w2 Hrun. pose proof (friend_owned_rely _ _ _ Ho Hr) as Ho1.
  destruct (Hr (proj1 Ho)) as (Hg1 & Hl1 & _).
  destruct Hrun as [[-> ->]|[[-> ->]|(id & Hid & Hn & -> & ->)]].
  - split; [intros _; split_and!; [done|apply ahead_refl|set_solver]|]. exists o. split; [by split; [|auto]|].
    eapply safe_mono; [by apply (Hf (Err ErrIDSource) w1 o)|]. intros o2 b w2 (_ & ? & ? & ?). split_and!; [done|done|by eapply ahead_trans|done].
  - split; [intros _; split_and!; [done|apply ahead_refl|set_solver]|]. exists o. split; [by split; [|auto]|].
    eapply safe_mono; [apply (Hf (Ok 0) w1 o); [done|by left|done]|]. intros o2 b w2 (_ & ? & ? & ?). split_and!; [done|done|by eapply ahead_trans|done].
  - set (w2 := with_issued w1 ({[id]} ∪ fw_issued w1)).
    assert (good w2) as Hg2 by (apply (good_same cf w1); [done|cbn; set_solver|done|done]).
    assert (ahead w1 w2) as Hl2 by (apply ahead_same; [done|cbn; set_solver|done|done]).
    assert (owned ({[id]} ∪ o) w2) as Ho2.
    { destruct Ho1 as (_ & Hi & Hd). split_and!; [done|cbn; set_solver|]. cbn. apply disjoint_union_l. split; [|done].
      apply disjoint_singleton_l. intros Hin. destruct (gd_used _ _ Hg1 id Hin); [lia|done]. }
    split; [intros _; split_and!; [done|done|cbn; set_solver]|]. exists ({[id]} ∪ o). split.
    + split; [done|]. intros x [->%elem_of_singleton|?]%elem_of_union; [right; cbn; set_solver|by left].
    + eapply safe_mono; [apply (Hf (Ok id) w2 ({[id]} ∪ o)); [by eapply ahead_trans|right; set_solver|done]|].
      intros o2 b w3 (_ & ? & ? & ?). split_and!; [done|done| |done].
      eapply ahead_trans; [exact Hl1|by eapply ahead_trans].
Qed.
End promises.

(** ** The writes *)
Lemma size_pair (a b : Z) : (size ({[a; b]} : gset Z) <= 2)%nat.
Proof.
  rewrite size_union_alt, !size_singleton. pose proof (subseteq_size ({[b]} ∖ {[a]} : gset Z) {[b]} ltac:(set_solver)) as H.
  rewrite size_singleton in H. lia.
Qed.

Lemma is_error_true {A} e (r : res A) : is_error e r = true -> r = Err e.
Proof. destruct r as [|e']; [done|]. cbn. by intros ->%String.eqb_eq. Qed.

Section writes.
#[local] Set Default Proof Using "Type*".
Context (cf : FriendConf).
Context (window : fc_patience cf + 2 * fc_slack cf <= fc_retention_days cf * millisPerDay).
Notation good := (good cf) (only parsing).
Notation ahead := (ahead cf) (only parsing).
Notation works := (works cf) (only parsing).
Notation stable := (stable cf) (only parsing).
Implicit Types (w : world) (o : gset Z).

(** What the body of a transaction must be. *)
Definition body_fine {X} o w (body : Z -> FriendDB -> res (X * FriendDB)) : Prop :=
  forall w1 ms x db', good w1 -> ahead w w1 -> o ## fw_used w1 -> near cf (fw_now w1) ms ->
    body ms (fw_db w1) = Ok (x, db') -> tx_ok cf (fw_now w1) o (fw_db w1) db'.

Lemma WriteTx_step {X} o w w1 p (body : Z -> FriendDB -> res (X * FriendDB)) r w2 : body_fine o w body ->
  owned cf o w1 -> ahead w w1 -> friend_run cf _ (WriteTx p body) w1 r w2 ->
  good w2 /\ ahead w1 w2 /\ fw_used w2 ⊆ fw_used w1 ∪ o.
Proof.
  intros Hb (Hg & Hi & Hd) Hl [[-> _]|(ms & Hms & Hrun)]; [split_and!; [done|apply ahead_refl|set_solver]|].
  destruct (tx_result cf w1 p body ms) as [[x db']|e] eqn:E; [|destruct Hrun as [_ ->]; split_and!; [done|apply ahead_refl|set_solver]].
  destruct Hrun as [-> _]. apply bind_Ok in E as (u & _ & E).
  apply (tx_ok_ahead cf window w1 o); [done|by eapply Hb|done|done|by left].
Qed.

Lemma works_WriteTx {X} o w p (body : Z -> FriendDB -> res (X * FriendDB)) : body_fine o w body -> works spends o w (call (WriteTx p body)) any.
Proof.
  intros Hb. apply works_call; [apply stable_any|]. intros w1 x w2 Ho Hl Hrun.
  destruct (WriteTx_step _ _ _ _ _ _ _ Hb Ho Hl Hrun) as (? & ? & ?). by split_and!.
Qed.

Definition no_error (e : error) {A} (r : res A) : Prop := r <> Err e.

(** [S]: players whose rows were seen missing since [t0]. *)
Definition rows_kept (t0 : Z) (S : gset Z) (players : list Z) (r : res ()) w : Prop :=
  r <> Err errCapacityRowsMissing /\ (r = Ok () -> forall p, p ∈ players -> p ∈ S -> kept cf p t0 w).

Lemma rows_kept_stable t0 S players : stable (rows_kept t0 S players).
Proof. intros r w w' [Hn Hk] _ Hl. split; [done|]. intros Hr p Hp HS. eapply lt_kept; [done|auto]. Qed.

Lemma works_AddCapacity o w t0 S rows : (forall p c t, (p, (c, t)) ∈ rows -> counted_at cf p c t w) ->
  (forall p, p ∈ S -> held cf p t0 w) ->
  works keeps o w (call (AddCapacity rows)) (rows_kept t0 S rows.*1).
Proof.
  intros Hc Hh. apply works_call; [apply rows_kept_stable|]. intros w1 r w2 (Hg & Hi & Hd) Hl Hrun.
  destruct Hrun as [[-> (e & -> & He)]|(db' & Hadd & -> & Hr)].
  { split_and!; [done|apply ahead_refl|set_solver|]. split; [|done]. destruct He as [-> | ->]; done. }
  destruct (add_rows_ahead cf window w1 rows db' Hg Hadd) as (Hg2 & Hl2 & Hin & _).
  { intros p c t Hp. eapply lt_counted; [done|auto]. }
  split_and!; [done|done|cbn; set_solver|]. split; [by destruct Hr as [-> | ->]|]. intros _ p Hp HS.
  assert (held cf p t0 (with_db w1 db' (fw_used w1))) as Hh2 by (eapply lt_held; [done|]; eapply lt_held; [done|auto]).
  split; [done|]. intros _. cbn. apply Hin. apply list_elem_of_fmap in Hp as ([p' ct] & -> & Hp). eauto.
Qed.

(** ** The rows are there *)
Lemma held_ahead p t w w' : ahead w w' -> held cf p t w -> held cf p t w'.
Proof. intros Hl. apply (lt_held _ _ _ Hl). Qed.

Lemma works_ensure_once o w t0 S p : (forall p, p ∈ S -> held cf p t0 w) ->
  works keeps o w (ensure_once p) (rows_kept t0 S [p]).
Proof.
  intros Hh. eapply works_bind_own; [apply works_CountFriends|]. intros [[c t]|e] w' Hl Hc; cbn in Hc.
  - eapply (works_mono _ _ _ _ (rows_kept t0 S [(p, (c, t))].*1)); [|done].
    apply works_AddCapacity; [|intros q Hq; eapply held_ahead; [done|auto]].
    intros p' c' t' Hin%list_elem_of_singleton. by injection Hin as -> -> ->.
  - apply works_ret; [apply rows_kept_stable|]. split; [|done]. by destruct Hc as [[-> | ->]| ->].
Qed.

Lemma works_ensure_attempts n o w t0 S p : (forall p, p ∈ S -> held cf p t0 w) ->
  works keeps o w (ensure_attempts n p) (rows_kept t0 S [p]).
Proof.
  revert o w. induction n as [|n IH]; cbn [ensure_attempts]; intros o w Hh.
  - apply works_ret; [apply rows_kept_stable|]. by split.
  - eapply works_bind_own; [by apply works_ensure_once|]. intros r w' Hl Hr.
    destruct (is_error ErrDeadlock r); [apply IH; intros q Hq; eapply held_ahead; [done|auto]|].
    by apply works_ret; [apply rows_kept_stable|].
Qed.

Lemma works_ensure_each o w t0 S players : (forall p, p ∈ S -> held cf p t0 w) ->
  works keeps o w (ensure_each players) (rows_kept t0 S players).
Proof.
  revert o w. induction players as [|p players IH]; cbn [ensure_each]; intros o w Hh.
  - apply works_ret; [apply rows_kept_stable|]. split; [done|]. by intros _ p ?%elem_of_nil.
  - eapply works_bind_own; [by apply works_ensure_attempts|]. intros [[]|e] w' Hl [Hn Hk].
    + eapply works_mono; [apply IH; intros q Hq; eapply held_ahead; [done|auto]|].
      intros r w2 Hl2 [Hn2 Hk2]. split; [done|]. intros Hr q [->|Hq]%elem_of_cons HS; [|by apply Hk2].
      apply (lt_kept _ _ _ Hl2). apply Hk; [done|left|done].
    + apply works_ret; [apply rows_kept_stable|]. split; [congruence|done].
Qed.

Definition all_counted (players : list Z) (r : res (list (Z * (Z * Z)))) w : Prop :=
  match r with
  | Ok rows => rows.*1 = players /\ forall p c t, (p, (c, t)) ∈ rows -> counted_at cf p c t w
  | Err e => e <> errCapacityRowsMissing
  end.

Lemma all_counted_stable players : stable (all_counted players).
Proof. intros [rows|e] w w' H _ Hl; [|done]. destruct H as [? H]. split; [done|]. intros. eapply lt_counted; [done|auto]. Qed.

Lemma works_count_each o w players : works keeps o w (count_each players) (all_counted players).
Proof.
  revert o w. induction players as [|p players IH]; cbn [count_each]; intros o w.
  - apply works_ret; [apply all_counted_stable|]. split; [done|]. by intros p c t ?%elem_of_nil.
  - eapply works_bind_own; [apply works_CountFriends|]. intros [[c t]|e] w' Hl Hc; cbn in Hc.
    + eapply works_bind_own; [apply IH|]. intros r w2 Hl2 Hr. apply works_ret; [apply all_counted_stable|].
      destruct r as [rows|e]; cbn in *; [|done]. destruct Hr as [<- Hr]. split; [done|].
      intros p' c' t' [[= -> -> ->]|Hin]%elem_of_cons; [by eapply lt_counted|by apply Hr].
    + apply works_ret; [apply all_counted_stable|]. cbn. by destruct Hc as [[-> | ->]| ->].
Qed.

Lemma lockRolePrefix_error roles s players e : lockRolePrefix (fc_bound cf) roles s players = Err e -> e <> errCapacityRowsMissing.
Proof.
  unfold lockRolePrefix. destruct (fc_bound cf), s as [o|]; [|by intros [= <-]..|done].
  assert (forall ids inc, fold_res (lock_role roles o) inc ids = Err e -> e <> errCapacityRowsMissing) as Hfold.
  { induction ids as [|i ids IH]; cbn; intros inc; [done|].
    destruct (lock_role roles o inc i) as [inc'|e'] eqn:E; cbn; [apply IH|]. intros [= <-]. unfold lock_role in E.
    repeat case_match; by simplify_eq. }
  destruct (fold_res _ _ _) as [inc|e'] eqn:E; cbn; [|intros [= ->]; by eapply Hfold].
  unfold guard_err. destruct (negb inc); [|done]. by intros [= <-].
Qed.

Lemma prefix_error w p e : prefix_ok cf w p = Err e -> e <> errCapacityRowsMissing.
Proof. destruct p; [done|]. apply lockRolePrefix_error. Qed.

Lemma works_LockPrefix o w p : works keeps o w (call (LockPrefix p)) (fun r _ => r <> Err errCapacityRowsMissing).
Proof.
  apply works_quiet; [by intros ?????|]. intros w1 r w2 _ _ [-> Hr]. split_and!; [done..|].
  destruct Hr as [(e & -> & [-> | ->])| ->]; [done..|]. intros E. by apply (prefix_error w1 p _ E).
Qed.

Lemma works_ensure o w t0 S s a b : (forall p, p ∈ S -> held cf p t0 w) ->
  works keeps o w (ensureFriendCapacityRows cf s [a; b]) (rows_kept t0 S [a; b]).
Proof.
  intros Hh. apply (works_mono _ _ _ _ (rows_kept t0 S (ascendingUniqueIDs [a; b]))).
  2: { intros r w' _ [Hn Hk]. split; [done|]. intros Hr p Hp HS. apply Hk; [done| |done].
       apply ascending_pair. by rewrite elem_of_cons, list_elem_of_singleton in Hp. }
  unfold ensureFriendCapacityRows. destruct (fc_bound cf); [|by apply works_ensure_each].
  eapply works_bind_own; [apply works_LockPrefix|]. intros [[]|e] w1 Hl1 Hr1.
  - eapply works_bind_own; [apply works_count_each|]. intros [rows|e] w2 Hl2 Hr2.
    + destruct Hr2 as [<- Hr2]. apply works_AddCapacity; [done|]. intros q Hq. eapply held_ahead; [done|]. eapply held_ahead; [done|auto].
    + apply works_ret; [apply rows_kept_stable|]. split; [|done]. cbn in Hr2. congruence.
  - apply works_ret; [apply rows_kept_stable|]. by split.
Qed.

(** ** Three attempts *)
Definition late (t0 : Z) w : Prop := t0 + fc_patience cf < fw_now w.

Definition missed (t0 : Z) (S : gset Z) (a b : Z) {X} (r : res X) w : Prop :=
  r = Err errCapacityRowsMissing -> late t0 w \/ exists p, (p = a \/ p = b) /\ p ∉ S /\ held cf p t0 w.

Lemma missed_stable t0 S a b {X} : stable (@missed t0 S a b X).
Proof.
  intros r w w' Hm _ Hl Hr. destruct (Hm Hr) as [?|(p & ? & ? & ?)].
  - left. unfold late in *. pose proof (lt_now _ _ _ Hl). lia.
  - right. exists p. split_and!; [done|done|]. by eapply held_ahead.
Qed.

(** The body alone never reports a missing row. *)
Definition quiet_body {X} (body : guardedWriteBody X) : Prop :=
  forall counts ms db, body counts ms db <> Err errCapacityRowsMissing.

Lemma body_fine_ahead {X} o w w' (body : Z -> FriendDB -> res (X * FriendDB)) : body_fine o w body -> ahead w w' -> body_fine o w' body.
Proof. intros Hb Hl w1 ms x db' Hg Hl1. apply Hb; [done|]. by eapply ahead_trans. Qed.

Lemma works_once {X} o w t0 S s a b (body : guardedWriteBody X) : t0 <= fw_now w -> (forall p, p ∈ S -> held cf p t0 w) ->
  body_fine o w (guarded a b body) -> quiet_body body ->
  works (is_error errCapacityRowsMissing) o w (runGuardedWriteOnce cf s a b body) (missed t0 S a b).
Proof.
  intros Ht Hh Hb Hq. eapply works_bind_own; [by apply works_ensure|]. intros [[]|e] w1 Hl1 [Hn Hk].
  2: { apply works_ret; [apply missed_stable|]. intros [= ->]. done. }
  apply works_call; [apply missed_stable|]. intros w2 r w3 Ho2 Hl2 Hrun.
  destruct (WriteTx_step _ _ _ _ _ _ _ Hb Ho2 ltac:(by eapply ahead_trans) Hrun) as (Hg & Hl & Hu). split_and!; [done..| |].
  { destruct (is_error _ r) eqn:Er; [|done]. apply is_error_true in Er as ->.
    assert (w3 = w2) as ->; [|set_solver]. destruct Hrun as [[-> _]|(ms & _ & Hrun)]; [done|].
    destruct (tx_result cf w2 _ _ ms) as [[x db']|e]; [by destruct Hrun as [_ [|]]|by destruct Hrun]. }
  intros ->. destruct Hrun as [[-> (e & [= <-] & [|])]|(ms & _ & Hrun)]; [done..|].
  destruct (tx_result cf w2 (Roles s [a; b]) (guarded a b body) ms) as [[x db']|e] eqn:E; [by destruct Hrun as [_ [|]]|].
  destruct Hrun as [[= <-] ->]. unfold tx_result, guarded in E.
  destruct (lockCapacityRows (fw_db w2) [a; b]) as [counts|e] eqn:El, (prefix_ok cf w2 _) as [[]|e'] eqn:Ep; simpl in E;
    [by apply Hq in E|injection E as ->; by apply prefix_error in Ep| |injection E as ->; by apply prefix_error in Ep].
  injection E as ->. apply lockCapacityRows_Err in El as (_ & p & Hp & Hnone).
  pose proof (lt_now _ _ _ Hl1). pose proof (lt_now _ _ _ Hl2). destruct (decide (p ∈ S)) as [HS|HS].
  - left. unfold late. destruct (Z.lt_ge_cases (t0 + fc_patience cf) (fw_now w2)) as [|Hge]; [done|].
    assert (kept cf p t0 w2) as [_ Hrow].
    { apply (lt_kept _ _ _ Hl2), Hk; [done|by rewrite elem_of_cons, list_elem_of_singleton|done]. }
    destruct (Hrow Hge) as [? ?]. congruence.
  - right. exists p. split_and!; [done|done|]. split; [lia|]. intros _ r Hr. congruence.
Qed.

Definition gave_up {X} (t0 : Z) (r : res X) w : Prop := r = Err errCapacityRowsMissing -> late t0 w.

Lemma gave_up_stable {X} t0 : stable (@gave_up X t0).
Proof. intros r w w' H _ Hl Hr. specialize (H Hr). unfold late in *. pose proof (lt_now _ _ _ Hl). lia. Qed.

Lemma works_attempts {X} n o w t0 (S : gset Z) s a b (body : guardedWriteBody X) : t0 <= fw_now w -> (forall p, p ∈ S -> held cf p t0 w) ->
  S ⊆ {[a; b]} -> late t0 w \/ (3 <= n + size S)%nat -> body_fine o w (guarded a b body) -> quiet_body body ->
  works spends o w (guarded_attempts cf n s a b body) (gave_up t0).
Proof.
  revert w S. induction n as [|n IH]; cbn [guarded_attempts]; intros w S Ht Hh HS Hc Hb Hq.
  - apply works_ret; [apply gave_up_stable|]. intros _. destruct Hc as [?|Hc]; [done|].
    pose proof (subseteq_size _ _ HS). pose proof (size_pair a b). lia.
  - eapply works_bind_any; [by apply (works_once _ _ t0 S)|]. intros o1 r w1 Ho Hl1 Hm. pose proof (lt_now _ _ _ Hl1) as Hnow.
    destruct (is_error errCapacityRowsMissing r) eqn:E.
    2: { apply works_ret; [apply gave_up_stable|]. intros ->. by vm_compute in E. }
    rewrite (Ho eq_refl). pose proof (is_error_true _ _ E) as Hr. pose proof (body_fine_ahead _ _ _ _ Hb Hl1) as Hb1.
    assert (forall q, q ∈ S -> held cf q t0 w1) as Hh1 by (intros q Hq'; eapply held_ahead; [done|auto]).
    destruct (Hm Hr) as [Hlate|(p & Hp & HpS & Hph)]; [apply (IH w1 S); [lia|done|done|by left|done|done]|].
    apply (IH w1 ({[p]} ∪ S)); [lia| |set_solver| |done|done].
    + intros q [->%elem_of_singleton|?]%elem_of_union; [done|by apply Hh1].
    + destruct Hc as [?|Hc]; [left; unfold late in *; lia|right]. rewrite size_union, size_singleton by set_solver. lia.
Qed.

(** Three attempts: the rows of the two players may each have been swept once, and then they stay. *)
Lemma works_guarded_attempts {X} o w s a b (body : guardedWriteBody X) : body_fine o w (guarded a b body) -> quiet_body body ->
  works spends o w (runGuardedWrite cf s a b body) (gave_up (fw_now w)).
Proof.
  intros Hb Hq. apply (works_attempts 3 o w (fw_now w) ∅); [lia|set_solver|set_solver|by right; cbn; lia|done|done].
Qed.

Lemma works_guarded {X} o w s a b (body : guardedWriteBody X) : body_fine o w (guarded a b body) -> quiet_body body ->
  works spends o w (runGuardedWrite cf s a b body) any.
Proof. intros Hb Hq. eapply works_mono; [by apply works_guarded_attempts|done]. Qed.
End writes.

(** ** The operations and the handlers *)
Create HintDb friend.

Section operations.
#[local] Set Default Proof Using "Type*".
Context (cf : FriendConf).
Context (window : fc_patience cf + 2 * fc_slack cf <= fc_retention_days cf * millisPerDay).
Notation good := (good cf) (only parsing).
Notation ahead := (ahead cf) (only parsing).
Notation body_fine := (body_fine cf) (only parsing).
Implicit Types (w : world) (o : gset Z).

(** A body behind its guard: both rows are there, and the counts are theirs. *)
Lemma guarded_fine {X} o w a b (body : guardedWriteBody X) :
  (forall w1 ms counts x db', good w1 -> ahead w w1 -> o ## fw_used w1 -> near cf (fw_now w1) ms ->
     (forall p, p = a \/ p = b -> exists c, fd_capacity (fw_db w1) !! p = Some c /\ counted counts p = cp_count c) ->
     body counts ms (fw_db w1) = Ok (x, db') -> tx_ok cf (fw_now w1) o (fw_db w1) db') ->
  body_fine o w (guarded a b body).
Proof.
  intros Hb w1 ms x db' Hg Hl Hd Hms (counts & Hc & Hbody)%bind_Ok. eapply Hb; [done..| |done].
  by apply lockCapacityRows_Ok.
Qed.

Lemma candidate_new w o cand : good w -> o ## fw_used w -> cand = 0 \/ cand ∈ o -> cand = 0 \/ cand ∉ ids_of (fw_db w).
Proof. intros Hg Hd [?|Hin]; [by left|right]. pose proof (gd_ids _ _ Hg). set_solver. Qed.

Lemma candidate_own {at_ o cand db db'} : cand = 0 \/ cand ∈ o ->
  tx_ok cf at_ (if cand =? 0 then ∅ else {[cand]}) db db' -> tx_ok cf at_ o db db'.
Proof.
  intros Hc. apply tx_ok_mono. destruct (Z.eqb_spec cand 0); [set_solver|]. destruct Hc; [done|set_solver].
Qed.

Lemma create_fine o w from to cand : cand = 0 \/ cand ∈ o ->
  body_fine o w (guarded from to (create_body from to (fc_limits cf) cand)).
Proof.
  intros Hc. apply guarded_fine. intros w1 ms counts x db' Hg _ Hd _ _ Hb. eapply candidate_own; [done|].
  eapply create_tx_ok; [apply Hg|by eapply candidate_new|exact Hb].
Qed.

Lemma ensure_pending_fine o w from to cand : cand = 0 \/ cand ∈ o ->
  body_fine o w (guarded from to (ensure_pending_body from to cand)).
Proof.
  intros Hc. apply guarded_fine. intros w1 ms counts x db' Hg _ Hd _ _ Hb. eapply candidate_own; [done|].
  eapply ensure_pending_tx_ok; [apply Hg|by eapply candidate_new|exact Hb].
Qed.

Lemma accept_fine o w id from to : from <> to ->
  body_fine o w (guarded from to (accept_body id from to (MaxFriends (fc_limits cf)))).
Proof.
  intros Hne. apply guarded_fine. intros w1 ms counts x db' Hg _ _ _ Hrows Hb. pose proof (gd_db _ _ Hg) as Hok.
  destruct (Hrows from) as (cf_ & Hcf & Ef); [by left|]. destruct (Hrows to) as (ct & Hct & Et); [by right|].
  apply (tx_ok_mono _ _ ∅); [set_solver|].
  destruct (accept_body_spec cf (fw_now w1) ms _ _ _ _ _ _ _ _ (do_counts _ _ Hok) (do_apart _ _ Hok) Hne ltac:(eauto) ltac:(eauto) Hb)
    as [[-> ->]|(-> & Ha & Hlim)]; [by apply tx_ok_refl|].
  eapply accepted_tx_ok; [done..|]. intros Hm. destruct (Hlim Hm) as [L1 L2]. rewrite Ef in L1. rewrite Et in L2.
  by rewrite (do_counts _ _ Hok _ _ Hcf) in L1; rewrite (do_counts _ _ Hok _ _ Hct) in L2.
Qed.

Lemma reject_fine o w id from to : body_fine o w (guarded from to (reject_body id from to)).
Proof.
  apply guarded_fine. intros w1 ms counts x db' Hg _ _ _ _ Hb. apply (tx_ok_mono _ _ ∅); [set_solver|].
  destruct (reject_body_spec ms _ _ _ _ _ _ _ Hb) as (? & ? & _). by apply reqs_end_tx_ok; [apply Hg|..].
Qed.

Lemma remove_fine o w me target : me <> target -> body_fine o w (guarded me target (remove_body me target)).
Proof.
  intros Hne. apply guarded_fine. intros w1 ms counts x db' Hg _ _ [Hms _] Hrows Hb.
  apply (tx_ok_mono _ _ ∅); [set_solver|]. destruct (Hrows me) as (? & ? & _); [by left|]. destruct (Hrows target) as (? & ? & _); [by right|].
  eapply remove_tx_ok; [apply Hg|exact Hb|eauto..].
Qed.

Lemma block_fine o w me target : me <> target ->
  body_fine o w (guarded me target (block_body me target (fc_max_blocks cf))).
Proof.
  intros Hne. apply guarded_fine. intros w1 ms counts x db' Hg _ _ [Hms _] Hrows Hb. pose proof (gd_db _ _ Hg) as Hok.
  apply (tx_ok_mono _ _ ∅); [set_solver|]. destruct (Hrows me) as (? & ? & _); [by left|]. destruct (Hrows target) as (? & ? & _); [by right|].
  eapply blocked_tx_ok; [done|exact Hne|]. eapply block_body_spec; [apply Hok|eauto..].
Qed.

Lemma unblock_fine o w me target : body_fine o w (unblock_body me target).
Proof. intros w1 ms x db' Hg _ _ _ Hb. apply (tx_ok_mono _ _ ∅); [set_solver|]. eapply unblock_tx_ok; [apply Hg|exact Hb]. Qed.

Lemma delete_terminal_fine o w k cutoff : body_fine o w (delete_terminal_body k cutoff).
Proof. intros w1 ms x db' Hg _ _ _ Hb. apply (tx_ok_mono _ _ ∅); [set_solver|]. eapply delete_terminal_tx_ok; [apply Hg|exact Hb]. Qed.

Lemma delete_idle_fine o w p cutoff : cutoff <= fw_now w + fc_slack cf - fc_retention_days cf * millisPerDay ->
  body_fine o w (deleteIdleCapacityRow p cutoff).
Proof.
  intros Hc w1 ms x db' Hg Hl _ _ Hb. apply (tx_ok_mono _ _ ∅); [set_solver|]. pose proof (lt_now _ _ _ Hl).
  eapply delete_idle_tx_ok; [apply Hg| |exact Hb]. lia.
Qed.

(** No body says that a row of the guard is missing. *)

Lemma backfill_quiet db from to id : backfillPendingRequestID db from to id <> Err errCapacityRowsMissing.
Proof. unfold backfillPendingRequestID. by repeat case_match. Qed.

Lemma bind_quiet {A B} (m : res A) (f : A -> res B) e : m <> Err e -> (forall a, m = Ok a -> f a <> Err e) -> (m ≫= f) <> Err e.
Proof. destruct m as [a|e']; cbn; [auto|intros H _ E; apply H; congruence]. Qed.

Lemma count_at_limit_quiet limit n e : e <> errCapacityRowsMissing -> count_at_limit limit n e <> Err errCapacityRowsMissing.
Proof.
  intros He. unfold count_at_limit. destruct (0 <? limit); [|done]. apply bind_quiet; [unfold scan_u32; by case_match|].
  intros m _. unfold guard_err. case_match; congruence.
Qed.

Lemma create_quiet from to lim cand : quiet_body (create_body from to lim cand).
Proof.
  intros counts ms db. unfold create_body. destruct (blockedEitherWay db from to); [done|].
  destruct (friendEdgeExistsForUpdate db from to); [done|]. destruct (pending_row db from to) as [r|].
  - destruct (negb (rq_id r =? 0)); [done|]. destruct (cand =? 0); [done|]. apply bind_quiet; [apply backfill_quiet|done].
  - apply bind_quiet; [by apply count_at_limit_quiet|]. intros _ _. apply bind_quiet; [by apply count_at_limit_quiet|]. intros _ _.
    unfold at_limit, guard_err. repeat case_match; simpl; try done; by case_match.
Qed.

Lemma ensure_pending_quiet from to cand : quiet_body (ensure_pending_body from to cand).
Proof.
  intros counts ms db. unfold ensure_pending_body. repeat case_match; try done. apply bind_quiet; [apply backfill_quiet|done].
Qed.

Lemma insert_edge_quiet now db e : insert_edge now db e <> Err errCapacityRowsMissing.
Proof. unfold insert_edge. by repeat case_match. Qed.

Lemma accept_quiet id from to max : quiet_body (accept_body id from to max).
Proof.
  intros counts ms db. unfold accept_body. destruct (fd_request db !! (from, to)) as [r|]; [|done].
  destruct (negb (rq_id r =? id)); [done|]. destruct (rq_status r =? requestStatusAccepted); [done|].
  destruct (negb (rq_status r =? requestStatusPending)); [done|]. destruct (blockedEitherWay db from to); [done|].
  apply bind_quiet; [unfold at_limit, guard_err; by case_match|]. intros _ _.
  apply bind_quiet; [unfold at_limit, guard_err; by case_match|]. intros _ _.
  destruct (end_pending requestStatusAccepted ms db (from, to)) as [hit db1]. destruct (negb hit); [done|].
  destruct (end_pending requestStatusAccepted ms db1 (to, from)) as [hit2 db2].
  apply bind_quiet; [|done]. cbn [fold_res]. apply bind_quiet; [apply insert_edge_quiet|]. intros db3 _.
  apply bind_quiet; [apply insert_edge_quiet|done].
Qed.

Lemma reject_quiet id from to : quiet_body (reject_body id from to).
Proof.
  intros counts ms db. unfold reject_body. destruct (fd_request db !! (from, to)) as [r|]; [|done].
  destruct (negb (rq_id r =? id)); [done|]. destruct (rq_status r =? requestStatusRejected); [done|].
  destruct (negb (rq_status r =? requestStatusPending)); [done|].
  destruct (end_pending requestStatusRejected ms db (from, to)) as [hit db1]. by destruct (negb hit).
Qed.

Lemma block_quiet me target max : quiet_body (block_body me target max).
Proof.
  intros counts ms db. unfold block_body. apply bind_quiet.
  - destruct (blockExistsForUpdate db me target); [done|]. apply bind_quiet; [by apply count_at_limit_quiet|done].
  - intros db1 _. destruct (deleteFriendEdges me target ms db1) as [n db2].
    destruct (end_pending requestStatusRejected ms db2 (me, target)) as [h1 db3].
    by destruct (end_pending requestStatusRejected ms db3 (target, me)) as [h2 db4].
Qed.

(** ** Every program keeps its promises *)
Lemma sweepCutoffMs_Some days batch t cutoff : sweepCutoffMs days batch t = Ok (Some cutoff) -> cutoff = t - days * millisPerDay.
Proof. unfold sweepCutoffMs. by repeat case_match; intros; simplify_eq. Qed.

Notation fprog := (prog friendE).
Notation behaves o w p := (works cf spends o w p any).
#[local] Opaque works.

Lemma works_done {A} o w (a : A) : behaves o w (Ret a).
Proof. by apply works_ret; [apply stable_any|]. Qed.

Lemma works_then {A B} o w (p : fprog A) (f : A -> fprog B) :
  behaves o w p -> (forall o' a w', ahead w w' -> behaves o' w' (f a)) -> behaves o w (p ≫= f).
Proof. intros Hp Hf. eapply works_bind_any; [exact Hp|]. intros o' a w' _ Hl _. by apply Hf. Qed.

Lemma behaves_Query {X} o w p (q : FriendDB -> X -> Prop) : behaves o w (call (Query p q)).
Proof. apply works_Query. Qed.

Lemma behaves_tell o w n : behaves o w (tell n).
Proof. apply works_Tell. Qed.

Lemma behaves_Quota o w p : behaves o w (call (QuotaScript p)).
Proof. apply works_Quota. Qed.

#[local] Hint Resolve works_done behaves_Query behaves_tell behaves_Quota : friend.

(** Follow a program to its end; what is not a call of one of the lemmas is left. *)
Ltac follow :=
  repeat first
    [ solve [auto with friend nocore]
    | match goal with |- works _ _ _ _ (mbind _ _) _ => apply works_then; [|intros ? ? ? ?] end
    | progress cbn beta iota zeta
    | case_match ].

Lemma works_role_query {X} o w s p (q : FriendDB -> X -> Prop) : behaves o w (role_query cf s p q).
Proof. unfold role_query. follow. Qed.

Lemma works_request_attempts {X} n o w s from to (body : Z -> guardedWriteBody X) cand :
  (forall o w cand, cand = 0 \/ cand ∈ o -> body_fine o w (guarded from to (body cand))) ->
  (forall cand, quiet_body (body cand)) -> cand = 0 \/ cand ∈ o ->
  behaves o w (request_attempts cf n s from to body cand).
Proof.
  intros Hb Hq. revert o w cand. induction n as [|n IH]; cbn [request_attempts]; intros o w cand Hc; [apply works_done|].
  apply works_then; [apply (works_guarded cf window); auto|]. intros o1 r w1 _.
  destruct (negb _); [apply works_done|]. destruct (negb _); [apply works_done|].
  apply works_NextRequestID. intros [id|e] w2 o2 _ Hid; [|apply works_done]. destruct (id =? 0); [apply works_done|auto].
Qed.

Lemma works_CreateRequest o w s from to : behaves o w (CreateRequest cf s from to (fc_limits cf)).
Proof.
  unfold CreateRequest. follow. apply works_request_attempts; [|intros ?; apply create_quiet|by left].
  intros. by apply create_fine.
Qed.

Definition names_pair (r : res RequestChange) (_ : world) : Prop :=
  match r with Ok c => FromPlayerID c <> ToPlayerID c | Err _ => True end.

Lemma works_findRequest o w s id me : works cf spends o w (findRequest cf s id me) names_pair.
Proof.
  unfold findRequest. eapply works_bind_any; [apply works_role_query|]. intros o1 rows w1 _ _ _. apply works_ret; [by intros ?????|].
  destruct rows as [[|[from to] [|]]|]; cbn; try done. destruct (Z.eqb_spec to me); cbn; [|done].
  destruct (from =? 0); cbn; [done|]. destruct (Z.eqb_spec from me); cbn; [done|congruence].
Qed.

Lemma works_AcceptRequest o w s id me : behaves o w (AcceptRequest cf s id me (MaxFriends (fc_limits cf))).
Proof.
  unfold AcceptRequest. eapply works_bind_any; [apply works_findRequest|]. intros o1 [c|e] w1 _ _ Hc; follow.
  apply (works_guarded cf window); [by apply accept_fine|apply accept_quiet].
Qed.

Lemma works_RejectRequest o w s id me : behaves o w (RejectRequest cf s id me).
Proof.
  unfold RejectRequest. eapply works_bind_any; [apply works_findRequest|]. intros o1 [c|e] w1 _ _ Hc; follow.
  apply (works_guarded cf window); [by apply reject_fine|apply reject_quiet].
Qed.

Lemma works_RemoveFriend o w s me target : behaves o w (RemoveFriend cf s me target).
Proof.
  unfold RemoveFriend. destruct (requireRoleActor _ _ _); [|follow]. destruct (Z.eqb_spec me target); [follow|].
  follow; [apply works_role_query|]. apply (works_guarded cf window); [by apply remove_fine|done].
Qed.

Lemma works_Block o w s me target : behaves o w (Block cf s me target (fc_max_blocks cf)).
Proof.
  unfold Block, block_probe. destruct (requireRoleActor _ _ _); [|follow].
  destruct ((me =? 0) || (target =? 0)); cbn [orb]; [follow|]. destruct (Z.eqb_spec me target); [follow|].
  follow; try apply works_role_query; (apply (works_guarded cf window); [by apply block_fine|apply block_quiet]).
Qed.

Lemma works_Unblock o w s me target : behaves o w (Unblock cf s me target).
Proof. unfold Unblock. follow. apply (works_WriteTx cf window), unblock_fine. Qed.

Lemma works_backfill_each o w s p l : behaves o w (backfill_each cf s p l).
Proof.
  revert o w. induction l as [|[k r] l IH]; cbn [backfill_each]; intros o w; follow.
  apply works_request_attempts; [|intros ?; apply ensure_pending_quiet|by left]. intros. by apply ensure_pending_fine.
Qed.

#[local] Hint Resolve works_role_query works_CreateRequest works_AcceptRequest works_RejectRequest works_RemoveFriend
  works_Block works_Unblock works_backfill_each : friend.

Lemma works_GetPendingRequests o w s p : behaves o w (GetPendingRequests cf s p).
Proof. unfold GetPendingRequests, queryPendingRequests. follow. Qed.

(** ** The sweep *)
Lemma works_delete_each {K} o w (one : K -> fprog (res Z)) ks d :
  (forall o' k w', ahead w w' -> behaves o' w' (one k)) -> behaves o w (delete_each one ks d).
Proof.
  revert o w d. induction ks as [|k ks IH]; cbn [delete_each]; intros o w d Hone; [apply works_done|].
  apply works_then; [by apply Hone|]. intros o' [n|e] w' Hl; [|apply works_done].
  apply IH. intros. apply Hone. by eapply ahead_trans.
Qed.

Lemma works_SweepTerminal o w t : behaves o w (SweepTerminalRequests cf t).
Proof.
  unfold SweepTerminalRequests, count_bounded, deleteTerminalRequestsBefore. follow.
  apply works_delete_each. intros. apply (works_WriteTx cf window), delete_terminal_fine.
Qed.

Lemma works_SweepIdle o w t : read_at cf t w -> behaves o w (SweepIdleCapacityRows cf t).
Proof.
  intros Ht. unfold SweepIdleCapacityRows. destruct (sweepCutoffMs _ _ t) as [[cutoff|]|e] eqn:E; [|follow..].
  apply works_then; [apply behaves_Query|]. intros o1 [ids|e] w1 Hl1; [|follow].
  destruct (_ || _); [follow|]. apply works_then; [|follow].
  apply works_delete_each. intros o2 k w2 Hl2. apply (works_WriteTx cf window), delete_idle_fine.
  apply sweepCutoffMs_Some in E. pose proof (lt_now _ _ _ Hl1). pose proof (lt_now _ _ _ Hl2). unfold read_at in Ht. lia.
Qed.

Lemma works_runSweepRound o w : behaves o w (runSweepRound cf).
Proof.
  unfold runSweepRound. apply works_then; [eapply works_mono; [apply works_Now|done]|]. intros o1 t w1 _.
  apply works_then; [apply works_SweepTerminal|]. intros o2 _ w2 _.
  eapply works_bind_any; [apply (works_Now cf (K:=spends))|]. intros o3 t' w3 _ _ Ht. apply works_then; [by apply works_SweepIdle|]. follow.
Qed.

#[local] Hint Resolve works_GetPendingRequests works_runSweepRound : friend.

Lemma works_starts o w w0 p w1 : friend_starts cf w0 p w1 -> behaves o w p.
Proof.
  intros [ | | | | | | | | | ]; unfold AddFriend, AcceptFriend, RejectFriend, RemoveFriendHandler, BlockHandler, UnblockHandler,
    allowFriendRequest, GetFriendList, ListBlocks; follow.
Qed.
End operations.

(** ** The system: requests at any replica, the sweep, and time *)
Section all.
#[local] Set Default Proof Using "Type*".
Context (cf : FriendConf).
Context (window : fc_patience cf + 2 * fc_slack cf <= fc_retention_days cf * millisPerDay).

Notation friend_ok := (sys_ok (friend_run cf) (rely cf) (guar cf) (acquires cf) (owned cf) (##) (good cf)).

Lemma friend_start_safe w p w' : good cf w -> friend_starts cf w p w' -> exists o,
  safe (friend_run cf) (rely cf) (guar cf) (acquires cf) o p (fun _ _ _ => True) w' /\ owned cf o w' /\
  forall o2, owned cf o2 w -> o ## o2 /\ rely cf o2 w w'.
Proof.
  intros Hg Hs. assert (w' = w) as -> by by destruct Hs. assert (owned cf ∅ w) as Ho by (split_and!; [done|set_solver..]).
  exists ∅. split_and!; [|done|].
  - eapply safe_mono; [by eapply (works_starts cf window)|done].
  - intros o2 _. split; [set_solver|reflexivity].
Qed.

Lemma friend_step_ok s s' : friend_ok s -> friend_step cf s s' -> friend_ok s'.
Proof.
  apply sys_step_ok; try apply _.
  - intros o w w'. apply friend_owned_rely.
  - intros o w o' w' [H _]. exact H.
  - intros o1 o2 Hd. by symmetry.
  - intros o w o' w' o2. apply friend_disj_acquires.
  - intros o1 o2 w w'. apply friend_guar_rely.
  - intros o w w' _. apply friend_env_rely.
  - apply friend_start_safe.
  - intros w w' Hg He. by apply (friend_env_rely cf ∅ w w' He).
  - intros w p w' Hg Hs. by destruct Hs.
  - intros o w w' Hg Hgu. by apply (Hgu Hg).
Qed.

Lemma friend_step_ahead s s' : friend_ok s -> friend_step cf s s' -> ahead cf s.2 s'.2.
Proof.
  intros Hok Hstep. pose proof (so_world _ _ _ _ _ _ _ _ Hok) as Hg.
  destruct (sys_step_world _ _ _ _ (fun o => friend_rely_refl cf o) _ _ _ _ _ _ _ Hok Hstep) as [He|[[p Hs]|[o Hgu]]].
  - by apply (friend_env_rely cf ∅ _ _ He).
  - destruct Hs; apply ahead_refl.
  - by apply (Hgu Hg).
Qed.

Lemma friend_steps_ahead s s' : friend_ok s -> rtc (friend_step cf) s s' -> friend_ok s' /\ ahead cf s.2 s'.2.
Proof.
  intros Hok Hr. induction Hr as [s|s1 s2 s3 Hstep _ IH]; [split; [done|apply ahead_refl]|].
  pose proof (friend_step_ok _ _ Hok Hstep) as Hok2. destruct (IH Hok2) as [? ?]. split; [done|].
  eapply ahead_trans; [by apply friend_step_ahead|done].
Qed.

Lemma friend_world_ok db : db_ok cf db -> friend_ok ([], friend_world db).
Proof.
  intros Hdb. split; [split; cbn; [done|done|by right]|]. exists []. split_and!; [done|constructor|by intros []].
Qed.

Lemma friend_reaches_ok db s : db_ok cf db -> friend_reaches cf db s -> friend_ok s.
Proof. intros Hdb Hr. by apply (friend_steps_ahead _ _ (friend_world_ok _ Hdb) Hr). Qed.
End all.

(** ** What the friend service promises *)

Lemma accept_needs_pending id from to max counts now db db' : accept_body id from to max counts now db = Ok (true, db') ->
  exists r, pending_row db from to = Some r /\ rq_id r = id.
Proof.
  unfold accept_body. destruct (fd_request db !! (from, to)) as [r|] eqn:Hr; [|done].
  destruct (Z.eqb_spec (rq_id r) id); cbn; [|done]. destruct (_ =? requestStatusAccepted); [done|].
  destruct (Z.eqb_spec (rq_status r) requestStatusPending); cbn; [|done]. intros _. exists r. by rewrite pending_row_Some.
Qed.


Lemma is_pending_false_not a b db r : fd_request db !! (a, b) = Some r -> is_pending r = false -> pending_row db a b = None.
Proof. intros Hr Hp. unfold pending_row. by rewrite Hr, Hp. Qed.

(** C10: in every state the friend service reaches - requests and answers, removals, blocks and
    sweeps at any number of replicas, calls that fail and commits whose answer is lost -
    a friendship has both its edges and no pending request, blocked players have neither
    a friendship nor a pending request in either direction, the capacity row of a player
    is exactly the number of his friends although it is created from an earlier count and
    swept while others write, no limit on friends, on pending requests or on blocks is
    exceeded, and a generation names one request. Assumed is that a request ends, with the
    distance of the clocks, within the retention of idle capacity rows. *)
Theorem friend_tables_consistent cf db s :
  fc_patience cf + 2 * fc_slack cf <= fc_retention_days cf * millisPerDay ->
  db_ok cf db -> friend_reaches cf db s ->
  let t := fw_db s.2 in
  (forall a b, is_Some (fd_friend t !! (a, b)) ->
     a <> b /\ is_Some (fd_friend t !! (b, a)) /\ pending_row t a b = None) /\
  (forall a b, is_Some (fd_block t !! (a, b)) ->
     fd_friend t !! (a, b) = None /\ fd_friend t !! (b, a) = None /\ pending_row t a b = None /\ pending_row t b a = None) /\
  (forall p c, fd_capacity t !! p = Some c -> cp_count c = friend_count t p) /\
  (forall p, within (MaxFriends (fc_limits cf)) (friend_count t p) /\
     within (MaxPendingRequests (fc_limits cf)) (outgoing_pending t p) /\
     within (MaxIncomingRequests (fc_limits cf)) (incoming_pending t p) /\
     within (fc_max_blocks cf) (block_count t p)) /\
  (forall k1 k2 r1 r2, fd_request t !! k1 = Some r1 -> fd_request t !! k2 = Some r2 ->
     rq_id r1 = rq_id r2 -> rq_id r1 <> 0 -> k1 = k2).
Proof.
  intros Hw Hdb Hr t. subst t. pose proof (so_world _ _ _ _ _ _ _ _ (friend_reaches_ok _ Hw _ _ Hdb Hr)) as Hg.
  destruct (gd_db _ _ Hg) as [Hc [Hs Hn He Hb] [Q1 Q2 Q3 Q4] Hi]. split_and!; [| |exact Hc| |exact Hi].
  - intros a b Hab. split_and!; [|by apply Hs|by apply He]. intros ->. rewrite Hn in Hab. by destruct Hab.
  - intros a b Hab. destruct (Hb a b Hab) as (H1 & H2 & H3). split_and!; [done| |done|done].
    destruct (fd_friend _ !! (b, a)) eqn:E; [|done]. destruct (Hs b a) as [? ?]; [by rewrite E|congruence].
  - intros p. split_and!; [apply Q1|apply Q2|apply Q3|apply Q4].
Qed.




Lemma guarded_rows {X} a b (body : guardedWriteBody X) now db x db' : guarded a b body now db = Ok (x, db') ->
  is_Some (fd_capacity db !! a) /\ is_Some (fd_capacity db !! b) /\ exists counts, body counts now db = Ok (x, db') /\
  forall p, p = a \/ p = b -> exists c, fd_capacity db !! p = Some c /\ counted counts p = cp_count c.
Proof.
  unfold guarded. intros (counts & Hl & Hb)%bind_Ok. pose proof (lockCapacityRows_Ok _ _ _ _ Hl) as Hrows.
  destruct (Hrows a) as (? & ? & _); [by left|]. destruct (Hrows b) as (? & ? & _); [by right|]. split_and!; eauto.
Qed.

Lemma guard_holds {X} a b (body : guardedWriteBody X) now db : is_Some (fd_capacity db !! a) -> is_Some (fd_capacity db !! b) ->
  exists counts, guarded a b body now db = body counts now db.
Proof.
  intros [? Ha] [? Hb]. unfold guarded. destruct (lockCapacityRows db [a; b]) as [counts|e] eqn:E; [by exists counts|].
  apply lockCapacityRows_Err in E as (_ & p & [-> | ->] & Hn); congruence.
Qed.

Lemma moved_row cf at_ db db' p : moved cf at_ db db' p -> is_Some (fd_capacity db !! p) -> is_Some (fd_capacity db' !! p).
Proof. unfold moved. intros Hm [c Hc]. rewrite Hc in Hm. by destruct (fd_capacity db' !! p). Qed.

(** An acceptance that changes something makes two strangers friends, with the generation the
    caller named: both edges appear and no other, no request between the two is pending
    any more in either direction, both have exactly one friend more and nobody else,
    within the limit; the block list is untouched. Repeated, it succeeds again and changes
    nothing. *)
Theorem acceptance_makes_friends cf db id from to now db' :
  db_ok cf db -> from <> to ->
  guarded from to (accept_body id from to (MaxFriends (fc_limits cf))) now db = Ok (true, db') ->
  (exists r, pending_row db from to = Some r /\ rq_id r = id) /\
  blockedEitherWay db from to = false /\ fd_block db' = fd_block db /\
  fd_friend db !! (from, to) = None /\ fd_friend db !! (to, from) = None /\
  fd_friend db' = <[(to, from) := now]> (<[(from, to) := now]> (fd_friend db)) /\
  pending_row db' from to = None /\ pending_row db' to from = None /\
  (forall p, friend_count db' p = friend_count db p + (if (p =? from) || (p =? to) then 1 else 0)) /\
  (forall p c, fd_capacity db' !! p = Some c -> cp_count c = friend_count db' p) /\
  (forall p, within (MaxFriends (fc_limits cf)) (friend_count db' p)) /\
  (forall now2, guarded from to (accept_body id from to (MaxFriends (fc_limits cf))) now2 db' = Ok (false, db')).
Proof.
  intros Hok Hne (Hf & Ht & counts & Hb & Hrows)%guarded_rows.
  destruct (accept_body_spec cf now now _ _ _ _ _ _ _ _ (do_counts _ _ Hok) (do_apart _ _ Hok) Hne Hf Ht Hb)
    as [[? _]|(_ & Ha & Hlim)]; [done|].
  destruct Ha as [(r & Hr & Hid & Hnew) Hblk Hfr [N1 N2] Hbl _ [P1 P2] Hc Hm Hmore].
  assert (forall p, friend_count db' p = friend_count db p + (if (p =? from) || (p =? to) then 1 else 0)) as Hcount.
  { intros p. rewrite Hmore. unfold b2z. rewrite !(Z.eqb_sym _ p).
    destruct (Z.eqb_spec p from), (Z.eqb_spec p to); cbn; try lia; congruence. }
  split_and!; try done; [by exists r| |].
  - intros p Hpos. rewrite Hcount. pose proof (qo_friends _ _ _ (do_quotas _ _ Hok) p Hpos) as Hq.
    destruct (Hlim Hpos) as [L1 L2]. destruct (Hrows from) as (c1 & Hc1 & E1); [by left|].
    destruct (Hrows to) as (c2 & Hc2 & E2); [by right|].
    pose proof (do_counts _ _ Hok _ _ Hc1). pose proof (do_counts _ _ Hok _ _ Hc2).
    destruct (Z.eqb_spec p from), (Z.eqb_spec p to); subst; cbn; lia.
  - intros now2. destruct (guard_holds from to (accept_body id from to (MaxFriends (fc_limits cf))) now2 db') as [counts2 ->];
      [by eapply moved_row|by eapply moved_row|]. unfold accept_body. rewrite Hnew. cbn. by rewrite Z.eqb_refl.
Qed.

(** C26: a block that succeeds settles the pair. The target is on the caller's list, within its
    limit; no edge and no pending request is left between the two in either direction,
    other friendships are untouched, and the effect that decides what the target is told
    says exactly whether they were friends and whether the target had a request waiting.
    Afterwards neither can ask the other, and no earlier request between them can be
    accepted. *)
Theorem block_settles_the_pair cf db me target now e db' :
  db_ok cf db -> me <> target ->
  guarded me target (block_body me target (fc_max_blocks cf)) now db = Ok (e, db') ->
  is_Some (fd_block db' !! (me, target)) /\ within (fc_max_blocks cf) (block_count db' me) /\
  fd_friend db' = delete (target, me) (delete (me, target) (fd_friend db)) /\
  pending_row db' me target = None /\ pending_row db' target me = None /\
  (forall p c, fd_capacity db' !! p = Some c -> cp_count c = friend_count db' p) /\
  (EdgeRemoved e = true <-> is_Some (fd_friend db !! (me, target))) /\
  (OutboundPendingRejected e = true <-> is_Some (pending_row db me target)) /\
  (forall lim cand counts t, create_body me target lim cand counts t db' = Err ErrBlocked /\
                             create_body target me lim cand counts t db' = Err ErrBlocked) /\
  (forall id max counts t db2, accept_body id me target max counts t db' <> Ok (true, db2) /\
                               accept_body id target me max counts t db' <> Ok (true, db2)).
Proof.
  intros Hok Hne (Hm & Ht & counts & Hb & _)%guarded_rows. pose proof (do_apart _ _ Hok) as Hap.
  assert (now + fc_slack cf - fc_slack cf <= now) as Hnow by lia.
  pose proof (block_body_spec cf (now + fc_slack cf) now _ _ _ _ _ _ _ (do_counts _ _ Hok) Hm Ht Hne Hnow Hb) as Hbn.
  pose proof (do_quotas _ _ (tk_db _ _ _ _ _ (blocked_tx_ok cf (now + fc_slack cf) now _ _ _ _ _ Hok Hne Hbn))) as Hq.
  destruct Hbn as [Hblk _ (n & [Hfr Hrem Hc _] & Hedge) _ [P1 P2] Hout].
  assert (is_Some (fd_block db' !! (me, target))) as Hbl.
  { rewrite Hblk. destruct (blockExistsForUpdate db me target) eqn:E; [by apply lockRowExists_true in E|by rewrite lookup_insert_eq]. }
  split_and!; try done.
  - apply (qo_blocks _ _ _ Hq).
  - rewrite Hedge, Hrem, Z.ltb_lt. rewrite <- lockRowExists_true.
    destruct (lockRowExists (fd_friend db) (me, target)) eqn:E1, (lockRowExists (fd_friend db) (target, me)) eqn:E2; cbn.
    1,2,4: by split; intros; first [lia | congruence].
    apply lockRowExists_true, (ap_sym _ Hap), lockRowExists_true in E2. congruence.
  - intros lim cand cs t. unfold create_body, blockedEitherWay, either_way. apply lockRowExists_true in Hbl. rewrite Hbl.
    by destruct (lockRowExists (fd_block db') (target, me)).
  - intros id max cs t db2. split; intros (r & Hr & _)%accept_needs_pending; congruence.
Qed.

(** ** An example

    1 asked 2 under generation 7 and is his friend, 3 asked 1 under generation 8 and was
    blocked; then 1 lifts the block. *)
Definition ex_cf : FriendConf := mkFriendConf true (mkLimits 100 20 50) 200 200 10 true true 30 500 10000 1000.
Definition ex_empty : FriendDB := mkFriendDB ∅ ∅ ∅ ∅.
Definition ex_rows : FriendDB := fold_left (fun db p => ensureFriendCapacityRow db p 0 5) [1; 2; 3] ex_empty.
Definition after {X} (r : res (X * FriendDB)) : FriendDB := match r with Ok (_, db) => db | Err _ => ex_empty end.
Definition ex_asked : FriendDB := after (guarded 1 2 (create_body 1 2 (fc_limits ex_cf) 7) 5 ex_rows).
Definition ex_friends : FriendDB := after (guarded 1 2 (accept_body 7 1 2 100) 5 ex_asked).
Definition ex_waiting : FriendDB := after (guarded 3 1 (create_body 3 1 (fc_limits ex_cf) 8) 5 ex_friends).
Definition ex_blocked : FriendDB := after (guarded 1 3 (block_body 1 3 200) 5 ex_waiting).

Lemma ex_window : fc_patience ex_cf + 2 * fc_slack ex_cf <= fc_retention_days ex_cf * millisPerDay.
Proof. done. Qed.

Lemma ex_empty_ok : db_ok ex_cf ex_empty.
Proof.
  assert (forall A (f : Z * Z -> A -> bool), count_rows f ∅ = 0) as Hz by (intros; apply count_rows_empty).
  split; [by intros p c| |split; intros p _; unfold friend_count, outgoing_pending, incoming_pending, block_count; by rewrite Hz|by intros ????].
  split; [intros a b [? [=]]|done|intros a b [? [=]]|intros a b [? [=]]].
Qed.

Lemma db_ok_next {X} (o : gset Z) db ms (body : Z -> FriendDB -> res (X * FriendDB)) : body_fine ex_cf o (friend_world db) body ->
  db_ok ex_cf db -> o ## ids_of db -> near ex_cf 0 ms -> (exists x, body ms db = Ok (x, after (body ms db))) ->
  db_ok ex_cf (after (body ms db)).
Proof.
  intros Hb Hdb Ho Hms [x Hx]. eapply tk_db, (Hb (friend_world db) ms x); [|apply ahead_refl|done|done|done].
  apply (so_world _ _ _ _ _ _ _ _ (friend_world_ok ex_cf ex_window db Hdb)).
Qed.

Lemma ex_rows_ok : db_ok ex_cf ex_rows.
Proof.
  unfold ex_rows. assert (forall ps db, db_ok ex_cf db -> fd_friend db = ∅ ->
    db_ok ex_cf (fold_left (fun db p => ensureFriendCapacityRow db p 0 5) ps db)) as Hall; [|by apply Hall; [apply ex_empty_ok|]].
  induction ps as [|p ps IH]; cbn [fold_left]; intros db Hdb Hf; [done|]. apply IH.
  - eapply tk_db, (ensure_row_tx_ok ex_cf 0 p 0 5 db Hdb); [done|]. intros _. unfold friend_count. by rewrite Hf, count_rows_empty.
  - unfold ensureFriendCapacityRow. by case_match.
Qed.

Ltac ex_next := first [by vm_compute | by eexists; vm_compute; reflexivity | by apply (bool_decide_unpack _); vm_compute].

Lemma ex_asked_ok : db_ok ex_cf ex_asked.
Proof. apply (db_ok_next {[7]}); [apply (create_fine ex_cf ex_window); right; set_solver|apply ex_rows_ok|ex_next..]. Qed.

Lemma ex_friends_ok : db_ok ex_cf ex_friends.
Proof. apply (db_ok_next ∅); [by apply (accept_fine ex_cf)|apply ex_asked_ok|ex_next..]. Qed.

Lemma ex_waiting_ok : db_ok ex_cf ex_waiting.
Proof. apply (db_ok_next {[8]}); [apply (create_fine ex_cf ex_window); right; set_solver|apply ex_friends_ok|ex_next..]. Qed.

Lemma ex_blocked_ok : db_ok ex_cf ex_blocked.
Proof. apply (db_ok_next ∅); [by apply (block_fine ex_cf)|apply ex_waiting_ok|ex_next..]. Qed.

Definition ex_start : world := friend_world ex_blocked.
Definition ex_roles (w : world) : world :=
  mkWorld 10 (fw_db w) {[1 := mkRole "a" 1 0]} (fw_issued w) (fw_used w) (fw_quota w) (fw_told w).
Definition ex_unblocked (w : world) : world := commit w (after (unblock_body 1 3 10 (fw_db w))).
Definition ex_end : world := with_told (ex_unblocked (ex_roles ex_start)) [Bumped [1] [FRIEND_BLOCK]].

Lemma step_call cf w X (e : friendE X) k x w' : friend_run cf X e w x w' -> friend_step cf ([Do e k], w) ([k x], w').
Proof. intros Hr. by apply (sys_call _ _ _ [] []). Qed.

Definition ex_caller : Caller := mkCaller (Some 1) (Some (mkOriginal 1 "a" 1)).

Lemma ex_unblock w : fw_roles w = {[1 := mkRole "a" 1 0]} -> fw_now w = 10 ->
  rtc (friend_step ex_cf) ([_ ← UnblockHandler ex_cf ex_caller 3; Ret ()], w)
    ([Ret ()], with_told (ex_unblocked w) (Bumped [1] [FRIEND_BLOCK] :: fw_told w)).
Proof.
  intros Hroles Hnow. cbn. eapply rtc_l; [eapply (step_call _ _ _ _ _ (Ok ()) (ex_unblocked w))|].
  { right. exists 10. split; [by rewrite Hnow|]. unfold tx_result. cbn. rewrite Hroles. cbn. split; [done|by left]. }
  eapply rtc_l; [by apply (step_call _ _ _ _ _ () (with_told (ex_unblocked w) (Bumped [1] [FRIEND_BLOCK] :: fw_told w)))|]. cbn. apply rtc_refl.
Qed.

Lemma ex_unblock_run : rtc (friend_step ex_cf) ([], ex_start) ([Ret ()], ex_end).
Proof.
  apply (rtc_l _ _ ([], ex_roles ex_start)); [by apply sys_env|].
  apply (rtc_l _ _ ([_ ← UnblockHandler ex_cf ex_caller 3; Ret ()], ex_roles ex_start)); [by apply sys_start, start_unblock|].
  by apply ex_unblock.
Qed.

Lemma friend_tables_consistent_witness : friend_reaches ex_cf ex_blocked ([Ret ()], ex_end) /\
  fd_block (fw_db ex_end) !! (1, 3) = None /\ friend_count (fw_db ex_end) 1 = 1 /\
  forall p, within 100 (friend_count (fw_db ex_end) p).
Proof.
  split; [exact ex_unblock_run|]. split; [by vm_compute|]. split; [by vm_compute|].
  destruct (friend_tables_consistent ex_cf ex_blocked _ ex_window ex_blocked_ok ex_unblock_run) as (_ & _ & _ & Hq & _).
  intros p. apply (Hq p).
Defined.



Lemma acceptance_makes_friends_witness :
  guarded 1 2 (accept_body 7 1 2 100) 5 ex_asked = Ok (true, ex_friends) /\
  fd_friend ex_friends = <[(2, 1) := 5]> (<[(1, 2) := 5]> (fd_friend ex_asked)) /\
  forall now2, guarded 1 2 (accept_body 7 1 2 100) now2 ex_friends = Ok (false, ex_friends).
Proof.
  assert (guarded 1 2 (accept_body 7 1 2 (MaxFriends (fc_limits ex_cf))) 5 ex_asked = Ok (true, ex_friends)) as H by by vm_compute.
  destruct (acceptance_makes_friends ex_cf ex_asked 7 1 2 5 ex_friends ex_asked_ok ltac:(done) H)
    as (_ & _ & _ & _ & _ & Hf & _ & _ & _ & _ & _ & Hagain).
  split; [exact H|]. split; [exact Hf|exact Hagain].
Defined.

Lemma block_settles_the_pair_witness :
  guarded 1 3 (block_body 1 3 200) 5 ex_waiting = Ok (mkEffect false false, ex_blocked) /\
  pending_row ex_waiting 3 1 = Some (mkRequest 5 requestStatusPending 5 8) /\ pending_row ex_blocked 3 1 = None /\
  forall lim cand counts t, create_body 3 1 lim cand counts t ex_blocked = Err ErrBlocked.
Proof.
  assert (guarded 1 3 (block_body 1 3 (fc_max_blocks ex_cf)) 5 ex_waiting = Ok (mkEffect false false, ex_blocked)) as H by by vm_compute.
  split; [exact H|]. split; [by vm_compute|].
  destruct (block_settles_the_pair ex_cf ex_waiting 1 3 5 (mkEffect false false) ex_blocked ex_waiting_ok ltac:(done) H)
    as (_ & _ & _ & _ & Hp & _ & _ & _ & Hc & _).
  split; [exact Hp|]. intros lim cand counts t. apply Hc.
Defined.
